(* ===== verification/_CoqProject ===== *)
-Q . S2P
Prelude.v
Pmem.v
MemopsGeneric.v
Checksum.v
Ulog.v
UlogFacts.v
UlogRedo.v
UlogCrash.v
UlogEntries.v
Settled.v
UndoLog.v
Ravl.v
RavlFacts.v
RavlOps.v
RavlSpec.v
Vecq.v
Container.v
Seglists.v
Bucket.v
Memops.v
MemopsLog.v
MemopsProcess.v
MemopsRun.v
Sync.v
MemopsUser.v
UndoAdd.v
Critnib.v
CritnibFacts.v
CritnibPool.v
CritnibOps.v
CritnibInsert.v
CritnibRemove.v
CritnibQuery.v
CritnibSpec.v
HeapLayout.v
Memblock.v
MemblockBits.v
MemblockRun.v
MemblockBitmap.v
MemblockInit.v
MemblockOffset.v
MemblockState.v
MemblockHeader.v
MemblockSpec.v
AllocClass.v
AllocClassFacts.v
AllocClassSize.v
AllocClassNew.v
AllocClassDefault.v
AllocClassSpec.v
Recycler.v
RecyclerFacts.v
RecyclerSpec.v
Lane.v
LaneSpec.v
Tx.v
TxRanges.v
TxLoop.v
TxSpec.v
TxUndo.v
TxAbort.v
Palloc.v
TxRollback.v
TxCommit.v
TxCommitSpec.v
PallocLocks.v
HeapZone.v
HeapZoneSpec.v
HeapArena.v
HeapArenaSpec.v
Heap.v
HeapTiles.v
HeapChunks.v
HeapChunkOps.v
HeapFree.v
HeapAlloc.v
HeapOpen.v
HeapIter.v
ObjList.v
ObjListSpec.v
