(* ===== verification/Prelude.v ===== *)
(** * libpmemobj: logs, transactions, lists, and the allocator

    A verification of the core of the persistent-memory object library that the
    repository builds its comparisons on, the PMDK fork under
    evaluation/performance/hash/hash/Dash/pmdk/src (paths below are relative to
    it).  libpmemobj makes groups of stores to a memory-mapped pool atomic with
    respect to power failures: modifications are collected in logs, the logs are
    made durable with explicit flushes and drains, and recovery replays or rolls
    back what a failure interrupted.  Every operation uses the logs of a lane that
    its thread holds: redo logs for groups of stores (memops), an undo log for
    transactions.  The allocator divides the pool into zones, chunks and runs of
    small blocks with bitmaps; allocation classes choose the size of blocks, and
    free blocks and runs wait in containers built on a balanced tree and on
    queues; what it does to a pool goes through the same redo logs.  Persistent
    lists and locks are built on top.

    ** Parts and files

    - Prelude (this file): machine integers with their wrap-around, alignment
      macros (common/util.h), bytes and little-endian encoding.
    - Pmem: memory as a function from addresses to bytes; stores, flushes and
      drains as a trace of events; [crash_image] says what media may hold after a
      power failure (8-byte words persist independently, a flush becomes
      effective at the next drain).  On top of it libpmem/pmem.c and the pool's
      table of memory operations (libpmemobj/pmemops.h, obj.c).
    - MemopsGeneric: libpmem/memops_generic.c, the chunked memmove and memset, and
      that they meet the contract Pmem gives them.
    - Checksum: the Fletcher64 checksums of common/util.c.
    - Ulog: libpmemobj/ulog.c, every function.  UlogFacts: value entries, chains
      of logs and what processing does to them.  UlogRedo, UlogCrash: the redo
      protocol under power failures.  UlogEntries: creation, validation and
      undoing of buffer entries, generation numbers, construction.  Settled: words
      that no power failure can change any more.  UndoLog: logs of snapshots, and
      what going through them restores.
    - Ravl: libpmemobj/ravl.c on an explicit heap of nodes.  RavlFacts, RavlOps:
      the tree under rotations, insertion, search and removal.  RavlSpec: the
      abstract set, the refinement theorems, and the same with the addresses of
      nodes, for the users that keep them.
    - Vecq: common/vecq.h, the ring-buffer queue.
    - Container: the interface of block containers as a type class with its laws,
      and libpmemobj/container_ravl.c, which stores the descriptor of a free block
      to the block's own memory in the pool; Seglists: container_seglists.c; both are
      instances.  Bucket: bucket.c, proved against the interface only.
    - Memops: libpmemobj/memops.c, operation contexts: collecting value entries
      with merging, snapshots, user buffers, processing, finishing.  MemopsLog:
      what the collected log means.  MemopsProcess: processing under power
      failures.  MemopsRun: whole redo operations, from operation_start to
      operation_finish, on a pool that is on media, with direct stores of the
      caller between the entries; the interface lists are proved against.
      MemopsUser: the tree of user buffers, and the merge queue after its ring
      wrapped.  UndoAdd: operation_add_buffer.
    - Sync: libpmemobj/sync.c, locks in persistent memory: the protocol that
      initializes a lock once per run of the program, as steps of interleaved
      threads, and the operations of mutexes, read-write locks, condition
      variables and volatile objects.  The locks of the operating system are
      arguments.
    - Critnib: libpmemobj/critnib.c, the radix tree on nibbles, on explicit heaps
      of nodes and tagged leaves, with its free lists and pending slots.
      CritnibFacts: nibbles as intervals of keys, the trie a heap holds.
      CritnibPool: the recycling of cells, once for nodes and leaves.
      CritnibOps, CritnibInsert, CritnibRemove, CritnibQuery: the operations on
      the trie.  CritnibSpec: the finite map it implements.
    - HeapLayout: libpmemobj/heap_layout.h and the accessors of heap.h: zones,
      chunks and their headers as addresses.  Memblock: libpmemobj/memblock.c,
      blocks of both kinds: sizes, data, headers, states, bitmaps, iteration,
      initialisation, from offsets to blocks.  MemblockBits: bit tricks against
      bits; MemblockRun: free blocks of a run; MemblockBitmap: the dimensions of
      bitmaps; MemblockInit: new runs; MemblockOffset, MemblockHeader: offsets and
      headers; MemblockState: allocating and freeing through the redo log of
      Memops; MemblockSpec: iteration, counting and initialisation.
    - AllocClass: libpmemobj/alloc_class.c, allocation classes in their slots, on
      top of Critnib and the bitmaps of Memblock.  AllocClassFacts: slots and
      reservations; AllocClassSize: searches and the map of sizes; AllocClassNew:
      registration; AllocClassDefault: the generated classes, by computation;
      AllocClassSpec: the theorems.
    - Recycler: libpmemobj/recycler.c, runs waiting in a tree (Ravl) by their
      largest free block.  RecyclerFacts: the order and the loops; RecyclerSpec:
      the theorems.
    - Lane: libpmemobj/lane.c: lanes, their booting, initialization and recovery,
      and how threads take and release them.  LaneSpec: any number of threads in
      any order.
    - Tx: libpmemobj/tx.c, the functions of the API on a state with the nested
      transactions, the lane, the pool, the volatile heap and a record of calls to
      locks and callbacks; the locks themselves are in the pool and are taken
      through Sync; longjmp is a result.  TxRanges, TxLoop, TxSpec: adding
      memory, first on lists of ranges, then on the tree.  TxUndo: what is true
      while memory is added and stored to.  TxAbort, TxRollback: aborts, through
      Palloc, and recovery.  TxCommit, TxCommitSpec: commits, through Palloc.
    - Palloc: libpmemobj/palloc.c and pmalloc.c: reservations, actions, their
      publication and cancellation; heap.c is a record of functions there.
      PallocLocks: threads that publish at the same time.
    - HeapZone, HeapZoneSpec: zones of heap.c, their sizes, initialization and
      checking, also of a remote copy.  HeapArena, HeapArenaSpec: arenas and
      threads.  Heap: the rest of heap.c: buckets, runs, splitting and coalescing
      of chunks, extension.  HeapTiles: the chunk headers of a zone as a sequence
      of blocks; HeapChunks, HeapChunkOps: memory, with the descriptors of free
      blocks, and default bucket against tilings; HeapFree, HeapAlloc: freeing and giving out chunks; HeapOpen:
      opening a zone, and what footers that were lost do; HeapIter: iterating over
      objects, and palloc_first and palloc_next.
    - ObjList: libpmemobj/list.c, circular doubly linked lists of objects.
      ObjListSpec: the words of heads and entries as cells, a log as a sequence of
      assignments to them, and the operations against lists of elements.

    ** State and errors

    Pointers are integers, NULL is 0.  C functions become functions on explicit
    state: the memory with its trace ([pmst]), the heap of a tree, an operation
    context, the pool object.  What the allocator returns is an argument (an
    address, 0 for failure, or a flag), so every failure branch is there.  A
    result of type [option] is [None] when the C code would dereference NULL,
    abort, or when the fuel of a loop over data in memory runs out; theorems that
    a function returns state how much fuel is enough (the number of entries, of
    nodes, of 16-byte slots, of the 64 bits of a bitmap value, or of the 16 nibbles
    of a key), so they include termination; the generation of the default classes
    needs at most 100 sizes per category and 1000 unit sizes per search, and is
    computed with these.  An undo log of C bytes needs fuel for its C / 64 slots,
    and a snapshot of n bytes has room where 88 + n bytes are left; the loops over
    the tree of ranges need two steps per range and one more; an operation on a
    list adds at most 10 entries to a redo log, and 17 steps process and recover
    as many as 14; _get_value returns within 5 steps of a thread that runs alone.
    Assertions are not compiled in release builds and do not
    appear; what they promise is a hypothesis where a theorem needs it, and what
    the debug build of alloc_class_collection_new checks is proved.

    ** What the theorems show

    Crash atomicity of the redo log from the first store to recovery, of whole
    redo operations, and of the single-entry shortcut.  Transactions: memory that
    is added is snapshotted exactly once, an abort and a recovery after a power
    failure restore what was there outside of the log and of the locks that were
    tried, and a commit is atomic.  Lanes: none is held twice, and a free one is found.  Locks: one
    initialization per run, whatever the interleaving, and no thread waits for
    ever; nothing an earlier run left behind disturbs.  Lists: list_insert,
    list_remove and list_move are insertion, deletion and moving on lists of
    elements, under the locks of the heads, atomic with respect to power failures
    at every point up to the store that clears the redo log and after the return,
    and any sequence of them keeps the lists well formed.  Heap: giving out and
    freeing chunks as changes of the tiling of a zone, which undo each other; that
    opening a zone finds its free blocks; that checking accepts exactly the
    well-formed zones; that iteration meets every object once; that arenas are
    balanced and publications do not deadlock.  Round trips of both kinds
    of entries; that a snapshot restores its range and that one increment of the
    generation number discards an undo log; that collecting an operation
    preserves its meaning through merging and reallocation; that the tree is a
    sorted set, the radix tree a finite map, the queue a FIFO and the containers
    best-fit allocators; that the chunked copy routines are memmove and memset;
    that the dimensions of a bitmap fit its run for every unit size, that the
    scans by lowest set bits and by shifting find exactly the free blocks and
    their sizes, that allocating and freeing through the log changes the state of
    exactly one block, and that a pointer leads back to its block; that a class is
    found by its geometry, that the class chosen for a size wastes least and
    serves it, and that the default classes are generated; that the recycler hands
    out the best fitting run and that a recalculation loses no run.

    Some theorems exhibit behaviours the code does not intend: the window between
    processing and clobbering without a drain, a lost update after the merge queue
    wrapped and the loop behind it, footers that a power failure makes stale and the
    overlapping blocks that follow, a zone with more chunks than headers, a check
    that never ends and one that never fails, an overlap of user buffers that is not seen, a
    log entry of undefined type on which recovery does not terminate, a run whose
    last 64 units are lost, block offsets cut to 16 bits, a deleted class that is
    still found, a reserved slot that is dereferenced, and a class chosen for more
    units than its runs have.

    ** Not modelled

    Replicas and remote pools, mapping and pool management, the control interface,
    the architecture-specific copy routines, interleavings of critnib's readers
    with its writers, the list that links a thread's lane records, and annotations
    for valgrind.  Of heap.c: heap_boot's creation of buckets and arenas,
    heap_cleanup.  Functions that only free memory are left out where nothing
    depends on them.

    What is modelled without a theorem or with a narrower one: the theorems on
    transactions are about logs that need no extension and no user buffer, commits
    about transactions without allocations, a power failure about the moments
    between the calls of the API and inside the commit, not inside a snapshot;
    those on chunks are about zones without runs; the operations of lists that
    allocate or free are definitions only; locks of the operating system are
    assumed to be mutexes of one thread in the theorems on lists. *)
From stdpp Require Import base numbers list list_numbers.
From Stdlib Require Import ZArith Lia Bool Strings.Byte.

#[global] Open Scope Z_scope.

(** ** Machine integers *)

(** A w-bit unsigned integer is a [Z]; arithmetic that can leave the range is
    followed by the wrap-around of its width. *)
Definition u8 (x : Z) : Z := x mod 2 ^ 8.
Definition u32 (x : Z) : Z := x mod 2 ^ 32.
Definition u64 (x : Z) : Z := x mod 2 ^ 64.

(** [CACHELINE_SIZE], [ALIGN_UP] and [ALIGN_DOWN] of common/util.h on 64-bit
    operands; [~(align - 1)] is the complement. *)
Definition CACHELINE_SIZE : Z := 64.
Definition ALIGN_UP (size align : Z) : Z :=
  Z.land (u64 (size + align - 1)) (Z.lnot (align - 1)).
Definition ALIGN_DOWN (size align : Z) : Z :=
  Z.land size (Z.lnot (align - 1)).

(** C's truth value of a comparison. *)
Definition c_bool (b : bool) : Z := if b then 1 else 0.

Create HintDb pm.

Ltac zb :=
  repeat match goal with
  | H : (_ <? _) = true |- _ => apply Z.ltb_lt in H
  | H : (_ <? _) = false |- _ => apply Z.ltb_ge in H
  | H : (_ <=? _) = true |- _ => apply Z.leb_le in H
  | H : (_ <=? _) = false |- _ => apply Z.leb_gt in H
  | H : (_ =? _) = true |- _ => apply Z.eqb_eq in H
  | H : (_ =? _) = false |- _ => apply Z.eqb_neq in H
  | H : (_ && _)%bool = true |- _ => apply andb_true_iff in H; destruct H
  | H : (_ && _)%bool = false |- _ => apply andb_false_iff in H
  | H : (_ || _)%bool = true |- _ => apply orb_true_iff in H
  | H : (_ || _)%bool = false |- _ => apply orb_false_iff in H; destruct H
  | H : negb _ = true |- _ => apply negb_true_iff in H
  | H : negb _ = false |- _ => apply negb_false_iff in H
  end.

(** Case analysis on the first boolean comparison of the goal. *)
Ltac zcase :=
  match goal with
  | |- context [?a <? ?b] => destruct (Z.ltb_spec a b)
  | |- context [?a <=? ?b] => destruct (Z.leb_spec a b)
  | |- context [?a =? ?b] => destruct (Z.eqb_spec a b)
  end.

Lemma u64_small x : 0 <= x < 2 ^ 64 -> u64 x = x.
Proof. apply Z.mod_small. Qed.

Lemma u64_range x : 0 <= u64 x < 2 ^ 64.
Proof. apply Z.mod_pos_bound; lia. Qed.

Lemma u32_small x : 0 <= x < 2 ^ 32 -> u32 x = x.
Proof. apply Z.mod_small. Qed.

Lemma u32_range x : 0 <= u32 x < 2 ^ 32.
Proof. apply Z.mod_pos_bound; lia. Qed.

#[export] Hint Resolve u64_range u32_range : pm.

Lemma land_lnot_ones x n : 0 <= n -> Z.land x (Z.lnot (2 ^ n - 1)) = 2 ^ n * (x / 2 ^ n).
Proof.
  intros Hn. rewrite <- Z.ldiff_land.
  replace (2 ^ n - 1) with (Z.ones n) by (rewrite Z.ones_equiv; lia).
  rewrite Z.ldiff_ones_r, Z.shiftl_mul_pow2, Z.shiftr_div_pow2 by lia. lia.
Qed.

(** Packing two numbers into the low and the high bits of a word. *)
Lemma lor_shifted lo hi n : 0 <= n -> 0 <= lo < 2 ^ n -> Z.lor lo (Z.shiftl hi n) = lo + hi * 2 ^ n.
Proof.
  intros Hn Hlo. rewrite Z.shiftl_mul_pow2 by lia. pose proof (Z.add_lor_land lo (hi * 2 ^ n)) as E.
  replace (Z.land lo (hi * 2 ^ n)) with 0 in E; [lia|]. symmetry. apply Z.bits_inj'. intros i Hi.
  rewrite Z.land_spec, Z.testbit_0_l. destruct (Z.lt_ge_cases i n).
  - rewrite Z.mul_pow2_bits_low by lia. apply andb_false_r.
  - rewrite <- (Z.mod_small lo (2 ^ n)), Z.mod_pow2_bits_high by lia. done.
Qed.

Lemma align_down_64 x : ALIGN_DOWN x CACHELINE_SIZE = 64 * (x / 64).
Proof. apply (land_lnot_ones x 6). lia. Qed.

Lemma align_up_64 x :
  0 <= x < 2 ^ 64 - 63 -> ALIGN_UP x CACHELINE_SIZE = 64 * ((x + 63) / 64).
Proof.
  intros Hx. unfold ALIGN_UP, CACHELINE_SIZE.
  rewrite u64_small by lia.
  rewrite (land_lnot_ones _ 6) by lia. f_equal. f_equal. lia.
Qed.

Lemma align_up_64_bounds x :
  0 <= x < 2 ^ 64 - 63 ->
  x <= ALIGN_UP x CACHELINE_SIZE < x + 64 /\ ALIGN_UP x CACHELINE_SIZE mod 64 = 0.
Proof.
  intros Hx. rewrite align_up_64 by done. split.
  - pose proof (Z.div_mod (x + 63) 64 ltac:(lia)).
    pose proof (Z.mod_pos_bound (x + 63) 64 ltac:(lia)). lia.
  - rewrite Z.mul_comm. apply Z.mod_mul. lia.
Qed.

Lemma align_up_64_id x :
  0 <= x < 2 ^ 64 - 63 -> x mod 64 = 0 -> ALIGN_UP x CACHELINE_SIZE = x.
Proof.
  intros Hx Hm. rewrite align_up_64 by done.
  apply Z.mod_divide in Hm as [k ->]; [|lia].
  replace (k * 64 + 63) with (63 + k * 64) by lia.
  rewrite Z.div_add by lia. rewrite (Z.div_small 63 64) by lia. lia.
Qed.

(** ** Bytes *)

Abbreviation byte := Byte.byte.

Definition byte_of_Z (z : Z) : byte :=
  match Byte.of_N (Z.to_N (z mod 256)) with Some b => b | None => Byte.x00 end.

Definition byte_to_Z (b : byte) : Z := Z.of_N (Byte.to_N b).

#[global] Instance byte_eq_decision : EqDecision byte := Byte.byte_eq_dec.

Lemma byte_to_Z_range b : 0 <= byte_to_Z b < 256.
Proof. unfold byte_to_Z. pose proof (Byte.to_N_bounded b). lia. Qed.

Lemma byte_of_to_Z b : byte_of_Z (byte_to_Z b) = b.
Proof.
  unfold byte_of_Z. rewrite Z.mod_small by apply byte_to_Z_range.
  unfold byte_to_Z. rewrite N2Z.id, Byte.of_to_N. done.
Qed.

Lemma byte_to_of_Z z : byte_to_Z (byte_of_Z z) = z mod 256.
Proof.
  pose proof (Z.mod_pos_bound z 256 ltac:(lia)) as Hz.
  unfold byte_of_Z. destruct (Byte.of_N (Z.to_N (z mod 256))) as [b|] eqn:E.
  - apply Byte.to_of_N in E. unfold byte_to_Z. rewrite E. lia.
  - apply Byte.of_N_None_iff in E. lia.
Qed.

(** Little-endian encoding of integers, the byte order of every field on media. *)
Fixpoint enc_le (n : nat) (v : Z) : list byte :=
  match n with
  | O => []
  | S k => byte_of_Z v :: enc_le k (v / 256)
  end.

Fixpoint dec_le (bs : list byte) : Z :=
  match bs with
  | [] => 0
  | b :: t => byte_to_Z b + 256 * dec_le t
  end.

Definition le64 (v : Z) : list byte := enc_le 8 v.

Lemma length_enc_le n v : length (enc_le n v) = n.
Proof. revert v. induction n; intros; simpl; [|rewrite IHn]; done. Qed.

Lemma dec_enc_le n v : dec_le (enc_le n v) = v mod 256 ^ Z.of_nat n.
Proof.
  revert v. induction n as [|n IH]; intros v.
  - simpl. rewrite Z.mod_1_r. done.
  - cbn [enc_le dec_le]. rewrite byte_to_of_Z, IH.
    rewrite Nat2Z.inj_succ, Z.pow_succ_r by lia.
    rewrite Z.rem_mul_r by lia. lia.
Qed.

Lemma dec_le_range bs : 0 <= dec_le bs < 256 ^ Z.of_nat (length bs).
Proof.
  induction bs as [|b t IH]; [simpl; lia|].
  cbn [dec_le length]. rewrite Nat2Z.inj_succ, Z.pow_succ_r by lia.
  pose proof (byte_to_Z_range b). nia.
Qed.

Lemma enc_dec_le bs : enc_le (length bs) (dec_le bs) = bs.
Proof.
  induction bs as [|b t IH]; [done|]. cbn [dec_le length enc_le].
  pose proof (byte_to_Z_range b) as Hb.
  replace ((byte_to_Z b + 256 * dec_le t) / 256) with (dec_le t).
  - rewrite IH. f_equal. unfold byte_of_Z.
    rewrite Z.mul_comm, Z.mod_add, Z.mod_small by lia.
    rewrite <- (byte_of_to_Z b) at 2. unfold byte_of_Z.
    rewrite Z.mod_small by lia. done.
  - rewrite (Z.mul_comm 256), Z.div_add by lia. rewrite Z.div_small by lia. lia.
Qed.

Lemma dec_le64 v : dec_le (le64 v) = u64 v.
Proof. unfold le64. rewrite dec_enc_le. done. Qed.

Lemma length_le64 v : length (le64 v) = 8%nat.
Proof. apply length_enc_le. Qed.
