(* ===== verification/Pmem.v ===== *)
(** * Memory, persistence events and the libpmem primitives

    The address space is a total function from addresses to bytes.  Every store
    of the library updates the visible memory and records an event; flushes and
    drains are recorded too, so a power failure at any point of an execution is
    a predicate on the event trace ([crash_image]).  The second half translates
    the libpmem entry points (libpmem/pmem.c) and the pool's [pmem_ops]
    (libpmemobj/pmemops.h, obj.c, memops.c) on top of it. *)
From stdpp Require Import base numbers list list_numbers.
From Stdlib Require Import ZArith Lia Bool.
From S2P Require Import Prelude.

(** ** Memory *)

Definition mem := Z -> byte.

Definition read_bytes (m : mem) (a : Z) (n : nat) : list byte :=
  map (fun i => m (a + Z.of_nat i)) (seq 0 n).

Definition write_bytes (m : mem) (a : Z) (bs : list byte) : mem :=
  let n := Z.of_nat (length bs) in
  fun x => if (a <=? x) && (x <? a + n) then nth (Z.to_nat (x - a)) bs Byte.x00 else m x.

Definition load64 (m : mem) (a : Z) : Z := dec_le (read_bytes m a 8).
Definition load32 (m : mem) (a : Z) : Z := dec_le (read_bytes m a 4).

(** Two memories agree on [[lo, lo + n)]. *)
Definition agree (m1 m2 : mem) (lo n : Z) : Prop :=
  forall x, lo <= x < lo + n -> m1 x = m2 x.

(** Memories are compared pointwise. *)
#[global] Instance mem_equiv : Equiv mem := fun m1 m2 => forall x, m1 x = m2 x.

(** ** Persistence events *)

Inductive pevent : Type :=
| EvStore (a : Z) (bs : list byte)
| EvFlush (a len : Z)
| EvDrain.

Record pmst : Type := PMst {
  vis : mem;            (* what loads see *)
  trace : list pevent;  (* the events so far, oldest first *)
  fault : bool          (* a call went through a NULL function pointer *)
}.

Definition st_store (a : Z) (bs : list byte) (s : pmst) : pmst :=
  PMst (write_bytes (vis s) a bs) (trace s ++ [EvStore a bs]) (fault s).
Definition st_flush (a len : Z) (s : pmst) : pmst :=
  PMst (vis s) (trace s ++ [EvFlush a len]) (fault s).
Definition st_drain (s : pmst) : pmst :=
  PMst (vis s) (trace s ++ [EvDrain]) (fault s).
Definition st_fault (s : pmst) : pmst := PMst (vis s) (trace s) true.

(** A 64-bit store through a pointer. *)
Definition st_store64 (a v : Z) (s : pmst) : pmst := st_store a (le64 v) s.

Definition apply_ev (m : mem) (e : pevent) : mem :=
  match e with EvStore a bs => write_bytes m a bs | _ => m end.

Definition replay (m0 : mem) (tr : list pevent) : mem := foldl apply_ev m0 tr.

(** The state was reached from [m0] by the recorded events. *)
Definition wf_st (m0 : mem) (s : pmst) : Prop := vis s ≡ replay m0 (trace s).

(** A flush of [[a, a + len)] writes back the cachelines that overlap it. *)
Definition covers (a len w : Z) : bool :=
  (64 * (a / 64) <=? 64 * (w / 64)) && (64 * (w / 64) <? a + len).

(** How many leading events of the trace are guaranteed to be on media for the
    8-byte word at [w]: a flush covers what was stored before it and becomes
    effective at the next drain. *)
Fixpoint durable_from (tr : list pevent) (w : Z) (i fl du : nat) : nat :=
  match tr with
  | [] => du
  | EvStore _ _ :: t => durable_from t w (S i) fl du
  | EvFlush a len :: t => durable_from t w (S i) (if covers a len w then i else fl) du
  | EvDrain :: t => durable_from t w (S i) fl fl
  end.

Definition durable (tr : list pevent) (w : Z) : nat := durable_from tr w 0 0 0.

(** What media may hold after a power failure: every aligned 8-byte word holds
    the value it had after some prefix of the trace, at least as long as the
    durable one (8-byte stores are not torn, words persist independently). *)
Definition crash_word (m0 : mem) (tr : list pevent) (img : mem) (w : Z) : Prop :=
  exists k, (durable tr w <= k <= length tr)%nat /\
    forall j, 0 <= j < 8 -> img (w + j) = replay m0 (take k tr) (w + j).
Definition crash_image (m0 : mem) (tr : list pevent) (img : mem) : Prop :=
  forall w, w mod 8 = 0 -> crash_word m0 tr img w.

(** ** libpmem *)

Definition PMEM_F_MEM_NODRAIN : Z := Z.shiftl 1 0.
Definition PMEM_F_MEM_NONTEMPORAL : Z := Z.shiftl 1 1.
Definition PMEM_F_MEM_TEMPORAL : Z := Z.shiftl 1 2.
Definition PMEM_F_MEM_WC : Z := Z.shiftl 1 3.
Definition PMEM_F_MEM_WB : Z := Z.shiftl 1 4.
Definition PMEM_F_MEM_NOFLUSH : Z := Z.shiftl 1 5.
Definition PMEMOBJ_F_RELAXED : Z := Z.shiftl 1 31.
Definition PMEM_F_MEM_VALID_FLAGS : Z :=
  Z.lor PMEM_F_MEM_NODRAIN (Z.lor PMEM_F_MEM_NONTEMPORAL (Z.lor PMEM_F_MEM_TEMPORAL
    (Z.lor PMEM_F_MEM_WC (Z.lor PMEM_F_MEM_WB PMEM_F_MEM_NOFLUSH)))).

Definition flag_isset (flags f : Z) : bool := negb (Z.land flags f =? 0).

Definition pmem_drain (s : pmst) : pmst := st_drain s.
Definition pmem_flush (addr len : Z) (s : pmst) : pmst := st_flush addr len s.
Definition pmem_persist (addr len : Z) (s : pmst) : pmst :=
  pmem_drain (pmem_flush addr len s).

(** pmem_flush_flags of libpmem/pmem.h. *)
Definition pmem_flush_flags (addr len flags : Z) (s : pmst) : pmst :=
  if flag_isset flags PMEM_F_MEM_NOFLUSH then s else pmem_flush addr len s.

(** The contract of [Funcs.memmove_nodrain] and [Funcs.memset_nodrain]: the
    bytes are stored and, unless NOFLUSH is given, flushed.  The file
    MemopsGeneric proves that the generic implementation meets it. *)
Definition store_nodrain (dst : Z) (bs : list byte) (flags : Z) (s : pmst) : pmst :=
  pmem_flush_flags dst (Z.of_nat (length bs)) flags (st_store dst bs s).
Definition memmove_nodrain (dst src len flags : Z) (s : pmst) : pmst :=
  store_nodrain dst (read_bytes (vis s) src (Z.to_nat len)) flags s.
Definition memset_nodrain (dst c len flags : Z) (s : pmst) : pmst :=
  store_nodrain dst (replicate (Z.to_nat len) (byte_of_Z c)) flags s.

Definition drain_unless (flags : Z) (s : pmst) : pmst :=
  if Z.land flags (Z.lor PMEM_F_MEM_NODRAIN PMEM_F_MEM_NOFLUSH) =? 0
  then pmem_drain s else s.

Definition pmem_memmove (dst src len flags : Z) (s : pmst) : pmst :=
  drain_unless flags
    (memmove_nodrain dst src len (Z.ldiff flags PMEM_F_MEM_NODRAIN) s).
(** [bs]: the bytes at [src]; a copy out of a local variable has no address. *)
Definition pmem_memcpy_from (dst : Z) (bs : list byte) (flags : Z) (s : pmst) : pmst :=
  drain_unless flags
    (store_nodrain dst bs (Z.ldiff flags PMEM_F_MEM_NODRAIN) s).
Definition pmem_memcpy (dst src len flags : Z) (s : pmst) : pmst :=
  pmem_memcpy_from dst (read_bytes (vis s) src (Z.to_nat len)) flags s.
Definition pmem_memset (dst c len flags : Z) (s : pmst) : pmst :=
  drain_unless flags
    (memset_nodrain dst c len (Z.ldiff flags PMEM_F_MEM_NODRAIN) s).

(** ** The pool's memory operations *)

Definition obj_norep_memcpy_from (dst : Z) (bs : list byte) (flags : Z) (s : pmst) : pmst :=
  pmem_memcpy_from dst bs (Z.land flags PMEM_F_MEM_VALID_FLAGS) s.
Definition obj_norep_memcpy (dst src len flags : Z) (s : pmst) : pmst :=
  pmem_memcpy dst src len (Z.land flags PMEM_F_MEM_VALID_FLAGS) s.
Definition obj_norep_memmove (dst src len flags : Z) (s : pmst) : pmst :=
  pmem_memmove dst src len (Z.land flags PMEM_F_MEM_VALID_FLAGS) s.
Definition obj_norep_memset (dst c len flags : Z) (s : pmst) : pmst :=
  pmem_memset dst c len (Z.land flags PMEM_F_MEM_VALID_FLAGS) s.
Definition obj_norep_persist (addr len : Z) (s : pmst) : pmst := pmem_persist addr len s.
Definition obj_norep_flush (addr len : Z) (s : pmst) : pmst := pmem_flush addr len s.
Definition obj_norep_drain (s : pmst) : pmst := pmem_drain s.

(** memops.c's transient operations: no persistence, a plain copy. *)
Definition operation_transient_clean (addr len : Z) (s : pmst) : pmst := s.
Definition operation_transient_memcpy (dst : Z) (bs : list byte) (s : pmst) : pmst :=
  st_store dst bs s.

(** [struct pmem_ops]: the pool's table has every function, the transient ones
    built by operation_new only flush and memcpy (the others are NULL). *)
Inductive ops_table := OPS_POOL | OPS_TRANSIENT.
Record pmem_ops := POps { base : Z; table : ops_table }.

Definition pmemops_persist (p_ops : pmem_ops) (d n : Z) (s : pmst) : pmst :=
  match table p_ops with OPS_POOL => obj_norep_persist d n s | OPS_TRANSIENT => st_fault s end.
Definition pmemops_flush (p_ops : pmem_ops) (d n : Z) (s : pmst) : pmst :=
  match table p_ops with
  | OPS_POOL => obj_norep_flush d n s
  | OPS_TRANSIENT => operation_transient_clean d n s
  end.
Definition pmemops_drain (p_ops : pmem_ops) (s : pmst) : pmst :=
  match table p_ops with OPS_POOL => obj_norep_drain s | OPS_TRANSIENT => st_fault s end.
Definition pmemops_memcpy_from (p_ops : pmem_ops) (dst : Z) (bs : list byte) (flags : Z)
    (s : pmst) : pmst :=
  match table p_ops with
  | OPS_POOL => obj_norep_memcpy_from dst bs flags s
  | OPS_TRANSIENT => operation_transient_memcpy dst bs s
  end.
Definition pmemops_memcpy (p_ops : pmem_ops) (dst src len flags : Z) (s : pmst) : pmst :=
  pmemops_memcpy_from p_ops dst (read_bytes (vis s) src (Z.to_nat len)) flags s.
Definition pmemops_memset (p_ops : pmem_ops) (dst c len flags : Z) (s : pmst) : pmst :=
  match table p_ops with
  | OPS_POOL => obj_norep_memset dst c len flags s
  | OPS_TRANSIENT => st_fault s
  end.

(** What the calls of the log do to the state on a pool. *)
Lemma memcpy_from_wc p_ops d bs s :
  table p_ops = OPS_POOL ->
  pmemops_memcpy_from p_ops d bs PMEM_F_MEM_WC s =
  st_drain (st_flush d (Z.of_nat (length bs)) (st_store d bs s)).
Proof. intros H. unfold pmemops_memcpy_from. rewrite H. reflexivity. Qed.

Lemma memcpy_from_nodrain p_ops d bs s :
  table p_ops = OPS_POOL ->
  pmemops_memcpy_from p_ops d bs (Z.lor PMEM_F_MEM_NODRAIN PMEM_F_MEM_NONTEMPORAL) s =
  st_flush d (Z.of_nat (length bs)) (st_store d bs s).
Proof. intros H. unfold pmemops_memcpy_from. rewrite H. reflexivity. Qed.

(** The visible effect of a copy depends neither on the flags nor on the table. *)
Lemma vis_memcpy_from p_ops d bs flags s :
  vis (pmemops_memcpy_from p_ops d bs flags s) = write_bytes (vis s) d bs.
Proof.
  unfold pmemops_memcpy_from, obj_norep_memcpy_from, pmem_memcpy_from, drain_unless,
    store_nodrain, pmem_flush_flags.
  destruct (table p_ops); [|done]. destruct (_ =? 0), (flag_isset _ _); done.
Qed.

(** ** Reading and writing ranges *)

Lemma length_read_bytes m a n : length (read_bytes m a n) = n.
Proof. unfold read_bytes. rewrite length_map, length_seq. done. Qed.

Lemma lookup_read_bytes m a n i :
  (i < n)%nat -> read_bytes m a n !! i = Some (m (a + Z.of_nat i)).
Proof.
  intros Hi. unfold read_bytes.
  change (map (fun i => m (a + Z.of_nat i)) (seq 0 n))
    with ((fun i => m (a + Z.of_nat i)) <$> seq 0 n).
  rewrite list_lookup_fmap, lookup_seq_lt by done. done.
Qed.

Lemma read_bytes_eq m1 m2 a b n :
  (forall i, 0 <= i < Z.of_nat n -> m1 (a + i) = m2 (b + i)) ->
  read_bytes m1 a n = read_bytes m2 b n.
Proof.
  intros H. apply map_ext_in. intros i Hi. apply in_seq in Hi. apply H. lia.
Qed.

Lemma read_bytes_agree m1 m2 lo n a k :
  agree m1 m2 lo n -> lo <= a -> a + Z.of_nat k <= lo + n ->
  read_bytes m1 a k = read_bytes m2 a k.
Proof. intros H ? ?. apply read_bytes_eq. intros i Hi. apply H. lia. Qed.

Lemma read_bytes_app m a n1 n2 :
  read_bytes m a (n1 + n2) = read_bytes m a n1 ++ read_bytes m (a + Z.of_nat n1) n2.
Proof.
  apply list_eq. intros i. destruct (decide (i < n1)%nat).
  - rewrite lookup_app_l by (rewrite length_read_bytes; lia).
    rewrite !lookup_read_bytes by lia. done.
  - rewrite lookup_app_r by (rewrite length_read_bytes; lia).
    rewrite length_read_bytes. destruct (decide (i < n1 + n2)%nat).
    + rewrite !lookup_read_bytes by lia. f_equal. f_equal. lia.
    + rewrite !lookup_ge_None_2 by (rewrite length_read_bytes; lia). done.
Qed.

Lemma write_bytes_in m a bs i :
  0 <= i < Z.of_nat (length bs) ->
  write_bytes m a bs (a + i) = nth (Z.to_nat i) bs Byte.x00.
Proof.
  intros Hi. unfold write_bytes.
  destruct (Z.leb_spec a (a + i)), (Z.ltb_spec (a + i) (a + Z.of_nat (length bs)));
    simpl; try lia.
  f_equal. lia.
Qed.

Lemma write_bytes_out m a bs x :
  x < a \/ a + Z.of_nat (length bs) <= x -> write_bytes m a bs x = m x.
Proof.
  intros Hx. unfold write_bytes.
  destruct (Z.leb_spec a x), (Z.ltb_spec x (a + Z.of_nat (length bs))); simpl; lia || done.
Qed.

Lemma write_bytes_ext m1 m2 a bs x : m1 x = m2 x -> write_bytes m1 a bs x = write_bytes m2 a bs x.
Proof. intros H. unfold write_bytes. rewrite H. done. Qed.

#[global] Instance mem_equivalence : Equivalence (≡@{mem}).
Proof. split; repeat intro; [done|..]; unfold equiv, mem_equiv in *; congruence. Qed.

#[global] Instance write_bytes_proper : Proper ((≡) ==> (=) ==> (=) ==> (≡)) write_bytes.
Proof. intros m1 m2 H a _ <- bs _ <- x. apply write_bytes_ext, H. Qed.

#[global] Instance read_bytes_proper : Proper ((≡) ==> (=) ==> (=) ==> (=)) read_bytes.
Proof. intros m1 m2 H a _ <- n _ <-. apply read_bytes_eq. intros. apply H. Qed.

#[global] Instance load64_proper : Proper ((≡) ==> (=) ==> (=)) load64.
Proof. intros m1 m2 H a _ <-. unfold load64. rewrite H. done. Qed.

Lemma read_write_sub m a bs b n :
  a <= b -> b + Z.of_nat n <= a + Z.of_nat (length bs) ->
  read_bytes (write_bytes m a bs) b n = take n (drop (Z.to_nat (b - a)) bs).
Proof.
  intros H1 H2. apply list_eq. intros i. destruct (decide (i < n)%nat) as [Hi|Hi].
  - rewrite lookup_read_bytes, lookup_take_lt, lookup_drop by done.
    replace (b + Z.of_nat i) with (a + (b - a + Z.of_nat i)) by lia.
    rewrite write_bytes_in by lia.
    replace (Z.to_nat (b - a + Z.of_nat i)) with (Z.to_nat (b - a) + i)%nat by lia.
    destruct (nth_lookup_or_length bs (Z.to_nat (b - a) + i) Byte.x00); [congruence|lia].
  - rewrite !lookup_ge_None_2; [done| |rewrite length_read_bytes; lia].
    rewrite length_take. lia.
Qed.

Lemma read_write_same m a bs n :
  n = length bs -> read_bytes (write_bytes m a bs) a n = bs.
Proof.
  intros ->. rewrite read_write_sub by lia.
  rewrite Z.sub_diag, drop_0, firstn_all. done.
Qed.

Lemma read_write_disj m a bs b n :
  b + Z.of_nat n <= a \/ a + Z.of_nat (length bs) <= b ->
  read_bytes (write_bytes m a bs) b n = read_bytes m b n.
Proof. intros H. apply read_bytes_eq. intros i Hi. apply write_bytes_out. lia. Qed.

Lemma load64_range m a : 0 <= load64 m a < 2 ^ 64.
Proof.
  unfold load64. pose proof (dec_le_range (read_bytes m a 8)) as H.
  rewrite length_read_bytes in H. exact H.
Qed.

Lemma load64_write_same m a v : load64 (write_bytes m a (le64 v)) a = u64 v.
Proof. unfold load64. rewrite read_write_same by done. apply dec_le64. Qed.

Lemma load64_write_disj m a bs b :
  b + 8 <= a \/ a + Z.of_nat (length bs) <= b ->
  load64 (write_bytes m a bs) b = load64 m b.
Proof. intros H. unfold load64. rewrite read_write_disj; [done|lia]. Qed.

Lemma load64_agree m1 m2 lo n a :
  agree m1 m2 lo n -> lo <= a -> a + 8 <= lo + n -> load64 m1 a = load64 m2 a.
Proof. intros H ? ?. unfold load64. erewrite read_bytes_agree; [done|eassumption|lia|lia]. Qed.

Lemma agree_refl m lo n : agree m m lo n.
Proof. intros x _. done. Qed.

Lemma agree_sym m1 m2 lo n : agree m1 m2 lo n -> agree m2 m1 lo n.
Proof. intros H x Hx. symmetry. apply H, Hx. Qed.

Lemma agree_trans m1 m2 m3 lo n : agree m1 m2 lo n -> agree m2 m3 lo n -> agree m1 m3 lo n.
Proof. intros H1 H2 x Hx. rewrite H1, H2; done. Qed.

Lemma agree_sub m1 m2 lo n lo' n' :
  agree m1 m2 lo n -> lo <= lo' -> lo' + n' <= lo + n -> agree m1 m2 lo' n'.
Proof. intros H ? ? x Hx. apply H. lia. Qed.

Lemma agree_write_out m a bs lo n :
  lo + n <= a \/ a + Z.of_nat (length bs) <= lo -> agree (write_bytes m a bs) m lo n.
Proof. intros H x Hx. apply write_bytes_out. lia. Qed.

Lemma agree_write m1 m2 a bs lo n :
  agree m1 m2 lo n -> agree (write_bytes m1 a bs) (write_bytes m2 a bs) lo n.
Proof. intros H x Hx. apply write_bytes_ext, H, Hx. Qed.

#[export] Hint Resolve agree_refl agree_sym agree_write : pm.

(** ** Events *)

(** An event leaves the range alone. *)
Definition ev_avoids (lo n : Z) (e : pevent) : Prop :=
  match e with
  | EvStore a bs => lo + n <= a \/ a + Z.of_nat (length bs) <= lo
  | _ => True
  end.

#[global] Instance replay_proper : Proper ((≡) ==> (=) ==> (≡)) replay.
Proof.
  intros m1 m2 H tr _ <-. revert m1 m2 H.
  induction tr as [|[a bs|a n|] tr IH]; intros m1 m2 H; simpl; [done| |by apply IH..].
  apply IH. rewrite H. done.
Qed.

Lemma replay_app m tr1 tr2 : replay m (tr1 ++ tr2) = replay (replay m tr1) tr2.
Proof. apply foldl_app. Qed.

Lemma replay_avoids m tr lo n :
  Forall (ev_avoids lo n) tr -> agree (replay m tr) m lo n.
Proof.
  revert m. induction tr as [|e tr IH]; intros m H; [apply agree_refl|].
  inversion H as [|? ? He Ht]; subst. simpl.
  eapply agree_trans; [apply IH, Ht|]. destruct e; simpl in *; [|apply agree_refl..].
  apply agree_write_out, He.
Qed.

Lemma ev_avoids_sub lo n lo' n' e :
  ev_avoids lo n e -> lo <= lo' -> lo' + n' <= lo + n -> ev_avoids lo' n' e.
Proof. destruct e; simpl; lia. Qed.

Lemma wf_store m0 a bs s : wf_st m0 s -> wf_st m0 (st_store a bs s).
Proof.
  unfold wf_st. simpl. rewrite replay_app. simpl. intros H.
  apply write_bytes_proper; done.
Qed.

Lemma wf_flush m0 a n s : wf_st m0 s -> wf_st m0 (st_flush a n s).
Proof. unfold wf_st. simpl. rewrite replay_app. done. Qed.

Lemma wf_drain m0 s : wf_st m0 s -> wf_st m0 (st_drain s).
Proof. unfold wf_st. simpl. rewrite replay_app. done. Qed.

#[export] Hint Resolve wf_store wf_flush wf_drain : pm.

(** ** Durability *)

Lemma durable_from_bounds tr w i fl du :
  (du <= fl <= i)%nat ->
  (du <= durable_from tr w i fl du <= i + length tr)%nat.
Proof.
  revert i fl du. induction tr as [|[a bs|a n|] tr IH]; intros i fl du H; simpl; [lia|..].
  - specialize (IH (S i) fl du). lia.
  - destruct (covers a n w); [specialize (IH (S i) i du)|specialize (IH (S i) fl du)]; lia.
  - specialize (IH (S i) fl fl). lia.
Qed.

(** The flush and drain marks after a trace; [durable] is the second one. *)
Fixpoint marks (tr : list pevent) (w : Z) (i fl du : nat) : nat * nat :=
  match tr with
  | [] => (fl, du)
  | EvStore _ _ :: t => marks t w (S i) fl du
  | EvFlush a len :: t => marks t w (S i) (if covers a len w then i else fl) du
  | EvDrain :: t => marks t w (S i) fl fl
  end.

Lemma durable_from_app tr1 tr2 w i fl du :
  durable_from (tr1 ++ tr2) w i fl du =
  durable_from tr2 w (i + length tr1) (marks tr1 w i fl du).1 (marks tr1 w i fl du).2.
Proof.
  revert i fl du. induction tr1 as [|[a bs|a n|] tr1 IH]; intros; simpl.
  - f_equal. lia.
  - rewrite IH. f_equal. lia.
  - rewrite IH. f_equal. lia.
  - rewrite IH. f_equal. lia.
Qed.

Lemma marks_bounds tr w i fl du :
  (du <= fl <= i)%nat ->
  (du <= (marks tr w i fl du).2 <= (marks tr w i fl du).1)%nat /\
  ((marks tr w i fl du).1 <= i + length tr)%nat.
Proof.
  revert i fl du. induction tr as [|[a bs|a n|] tr IH]; intros i fl du H; simpl; [lia|..].
  - specialize (IH (S i) fl du). lia.
  - destruct (covers a n w); [specialize (IH (S i) i du)|specialize (IH (S i) fl du)]; lia.
  - specialize (IH (S i) fl fl). lia.
Qed.

(** A flush that covers the word followed by a drain makes everything before it
    durable, whatever comes next. *)
Lemma durable_flush_drain tr1 a n tr2 w :
  covers a n w = true ->
  (length tr1 <= durable (tr1 ++ EvFlush a n :: EvDrain :: tr2) w)%nat.
Proof.
  intros Hc. unfold durable. rewrite durable_from_app. simpl. rewrite Hc.
  pose proof (durable_from_bounds tr2 w (S (S (length tr1))) (length tr1) (length tr1)). lia.
Qed.

Lemma covers_word a n w :
  w mod 8 = 0 -> a mod 8 = 0 -> a <= w -> w < a + n -> covers a n w = true.
Proof.
  intros Hw Ha H1 H2. unfold covers. apply andb_true_iff.
  rewrite Z.leb_le, Z.ltb_lt. split.
  - apply Z.mul_le_mono_nonneg_l; [lia|]. apply Z.div_le_mono; lia.
  - pose proof (Z.mul_div_le w 64 ltac:(lia)). lia.
Qed.

(** A store touches the word at [w]. *)
Definition touches (a : Z) (bs : list byte) (w : Z) : bool :=
  (a <? w + 8) && (w <? a + Z.of_nat (length bs)).

(** The word has a store that no later flush wrote back. *)
Definition pending_step (w : Z) (b : bool) (e : pevent) : bool :=
  match e with
  | EvStore a bs => if touches a bs w then true else b
  | EvFlush a n => if covers a n w then false else b
  | EvDrain => b
  end.
Definition pending (tr : list pevent) (w : Z) : bool := foldl (pending_step w) false tr.

Lemma pending_app tr1 tr2 w :
  pending (tr1 ++ tr2) w = foldl (pending_step w) (pending tr1 w) tr2.
Proof. apply foldl_app. Qed.

Lemma touches_covers a bs w :
  w mod 8 = 0 -> touches a bs w = true -> covers a (Z.of_nat (length bs)) w = true.
Proof.
  unfold touches, covers. intros Hw H. apply andb_true_iff in H as [H1 H2]. zb.
  apply andb_true_iff. rewrite Z.leb_le, Z.ltb_lt.
  pose proof (Z.div_mod a 64 ltac:(lia)). pose proof (Z.mod_pos_bound a 64 ltac:(lia)).
  pose proof (Z.div_mod w 64 ltac:(lia)). pose proof (Z.mod_pos_bound w 64 ltac:(lia)).
  pose proof (Z.div_mod w 8 ltac:(lia)). lia.
Qed.

Lemma touches_out a bs w m j :
  touches a bs w = false -> 0 <= j < 8 -> write_bytes m a bs (w + j) = m (w + j).
Proof.
  unfold touches. intros H Hj. apply andb_false_iff in H as [H|H]; zb;
    apply write_bytes_out; lia.
Qed.

Lemma marks_app tr1 tr2 w i fl du :
  marks (tr1 ++ tr2) w i fl du =
  marks tr2 w (i + length tr1) (marks tr1 w i fl du).1 (marks tr1 w i fl du).2.
Proof.
  revert i fl du. induction tr1 as [|[a bs|a n|] tr1 IH]; intros; simpl.
  - f_equal. lia.
  - rewrite IH. f_equal. lia.
  - rewrite IH. f_equal. lia.
  - rewrite IH. f_equal. lia.
Qed.

(** Once nothing is pending, every prefix beyond the flush mark shows the final
    content of the word. *)
Lemma pending_replay m0 tr w k j :
  pending tr w = false -> ((marks tr w 0 0 0).1 <= k <= length tr)%nat -> 0 <= j < 8 ->
  replay m0 (take k tr) (w + j) = replay m0 tr (w + j).
Proof.
  induction tr as [|e tr IH] using rev_ind; intros Hp Hk Hj; [by rewrite firstn_nil|].
  destruct (decide (k = length (tr ++ [e]))) as [->|Hne]; [by rewrite firstn_all|].
  rewrite length_app in Hne, Hk. simpl in Hne, Hk.
  rewrite take_app_le by lia. rewrite replay_app. simpl.
  rewrite pending_app in Hp. rewrite marks_app in Hk. simpl in Hp, Hk.
  destruct e as [a bs|a n|]; simpl in *.
  - destruct (touches a bs w) eqn:Ht; [done|].
    rewrite touches_out by done. apply IH; [done|lia|done].
  - destruct (covers a n w); [|apply IH; [done|lia|done]].
    replace k with (length tr) by lia. by rewrite firstn_all.
  - apply IH; [done|lia|done].
Qed.

Lemma durable_drain tr1 tr2 w :
  ((marks tr1 w 0 0 0).1 <= durable (tr1 ++ EvDrain :: tr2) w)%nat.
Proof.
  unfold durable. rewrite durable_from_app. simpl.
  pose proof (marks_bounds tr1 w 0 0 0 ltac:(lia)).
  pose proof (durable_from_bounds tr2 w (S (length tr1)) (marks tr1 w 0 0 0).1
    (marks tr1 w 0 0 0).1). lia.
Qed.

(** ** What survives a power failure *)

Definition word_of (x : Z) : Z := 8 * (x / 8).

Lemma word_of_spec x : word_of x mod 8 = 0 /\ word_of x <= x < word_of x + 8.
Proof.
  unfold word_of. split.
  - rewrite Z.mul_comm. apply Z.mod_mul. lia.
  - pose proof (Z.div_mod x 8 ltac:(lia)). pose proof (Z.mod_pos_bound x 8 ltac:(lia)). lia.
Qed.

Lemma crash_byte m0 tr img x :
  crash_image m0 tr img ->
  exists k, (durable tr (word_of x) <= k <= length tr)%nat /\ img x = replay m0 (take k tr) x.
Proof.
  intros Hc. destruct (word_of_spec x) as [Hw Hx].
  destruct (Hc _ Hw) as (k & Hk & Himg). exists k. split; [done|].
  replace x with (word_of x + (x - word_of x)) by lia. apply Himg. lia.
Qed.

(** Bytes that no event touches keep their old content. *)
Lemma crash_untouched m0 tr img lo n :
  crash_image m0 tr img -> Forall (ev_avoids lo n) tr -> agree img m0 lo n.
Proof.
  intros Hc Ha x Hx. destruct (crash_byte _ _ _ x Hc) as (k & _ & ->).
  apply (replay_avoids m0 (take k tr) lo n); [|done].
  apply Forall_take. done.
Qed.

(** A word with nothing pending at a drain, and not touched afterwards, has the
    content it had at the drain. *)
Lemma crash_word_persisted m0 tr1 tr2 img w :
  crash_word m0 (tr1 ++ EvDrain :: tr2) img w ->
  pending tr1 w = false -> Forall (ev_avoids w 8) tr2 ->
  agree img (replay m0 tr1) w 8.
Proof.
  intros (k & Hk & Himg) Hp Ha x Hx.
  replace x with (w + (x - w)) by lia. rewrite Himg by lia.
  pose proof (durable_drain tr1 tr2 w) as Hd.
  destruct (decide (k <= length tr1)%nat).
  - rewrite take_app_le by lia. apply pending_replay; [done|lia|lia].
  - rewrite take_app_ge by lia. rewrite replay_app.
    apply (replay_avoids _ _ w 8); [|lia].
    destruct (k - length tr1)%nat; [constructor|]. simpl. constructor; [done|].
    apply Forall_take. done.
Qed.

Lemma crash_persisted m0 tr1 tr2 img w :
  crash_image m0 (tr1 ++ EvDrain :: tr2) img -> w mod 8 = 0 ->
  pending tr1 w = false -> Forall (ev_avoids w 8) tr2 ->
  agree img (replay m0 tr1) w 8.
Proof. intros Hc Hw. by apply crash_word_persisted, Hc. Qed.

Lemma crash_image_all m0 tr : crash_image m0 tr (replay m0 tr).
Proof.
  intros w Hw. exists (length tr). split; [|intros; by rewrite firstn_all].
  unfold durable. pose proof (durable_from_bounds tr w 0 0 0). lia.
Qed.

(** ** Copies, pointwise *)

Lemma write_read_pt m a m' b n x :
  write_bytes m a (read_bytes m' b n) x =
  if (a <=? x) && (x <? a + Z.of_nat n) then m' (b + (x - a)) else m x.
Proof.
  unfold write_bytes. rewrite length_read_bytes.
  destruct (Z.leb_spec a x), (Z.ltb_spec x (a + Z.of_nat n)); simpl; try done.
  apply nth_lookup_Some. rewrite lookup_read_bytes by lia. do 2 f_equal. lia.
Qed.

Lemma write_replicate_pt m a n b x :
  write_bytes m a (replicate n b) x =
  if (a <=? x) && (x <? a + Z.of_nat n) then b else m x.
Proof.
  unfold write_bytes. rewrite length_replicate.
  destruct (Z.leb_spec a x), (Z.ltb_spec x (a + Z.of_nat n)); simpl; try done.
  apply nth_lookup_Some. apply lookup_replicate_2. lia.
Qed.

Lemma le64_load64 m a : le64 (load64 m a) = read_bytes m a 8.
Proof. unfold le64, load64. apply (enc_dec_le (read_bytes m a 8)). Qed.

(** Words with pending stores lie in [[lo, lo + n)]. *)
Definition dirty_in (lo n : Z) (s : pmst) : Prop :=
  forall w, w mod 8 = 0 -> pending (trace s) w = true -> Z.max w lo < Z.min (w + 8) (lo + n).

Lemma dirty_store lo n a bs s :
  dirty_in lo n s -> lo <= a -> a + Z.of_nat (length bs) <= lo + n -> (0 < length bs)%nat ->
  dirty_in lo n (st_store a bs s).
Proof.
  intros Hd H1 H2 H3 w Hw. simpl. rewrite pending_app. simpl.
  destruct (touches a bs w) eqn:Ht; [intros _|apply Hd, Hw].
  unfold touches in Ht. zb. lia.
Qed.

Lemma dirty_flush lo n s : dirty_in lo n s -> dirty_in 0 0 (pmem_flush lo n s).
Proof.
  intros Hd w Hw. simpl. rewrite pending_app. simpl.
  destruct (covers lo n w) eqn:Hc; [done|]. intros Hp. specialize (Hd w Hw Hp).
  exfalso. enough (covers lo n w = true) by congruence.
  rewrite <- (Z2Nat.id n) by lia.
  rewrite <- (length_replicate (Z.to_nat n) Byte.x00). apply touches_covers; [done|].
  unfold touches. rewrite length_replicate. apply andb_true_iff.
  rewrite !Z.ltb_lt. lia.
Qed.

Lemma dirty_weaken lo n lo' n' s :
  dirty_in lo n s -> (n <= 0 \/ (lo' <= lo /\ lo + n <= lo' + n')) -> dirty_in lo' n' s.
Proof. intros Hd H w Hw Hp. specialize (Hd w Hw Hp). lia. Qed.

Lemma dirty_init m f lo n : dirty_in lo n (PMst m [] f).
Proof. intros w _ H. done. Qed.

#[export] Hint Resolve dirty_store dirty_flush dirty_init : pm.

(** A store that is flushed at once leaves nothing pending. *)
Lemma dirty_store_flush a bs s :
  dirty_in 0 0 s -> (0 < length bs)%nat ->
  dirty_in 0 0 (st_flush a (Z.of_nat (length bs)) (st_store a bs s)).
Proof.
  intros Hd Hl. apply (dirty_flush a). apply dirty_store; [|lia..].
  apply (dirty_weaken 0 0); [done|lia].
Qed.

(** When nothing is pending, a drain makes the whole memory durable. *)
Lemma dirty_drain_crash m0 s img :
  dirty_in 0 0 s -> wf_st m0 s ->
  crash_image m0 (trace (pmem_drain s)) img -> img ≡ vis s.
Proof.
  intros Hd Hwf Hc x. destruct (word_of_spec x) as [Hw Hx]. simpl in Hc.
  rewrite (crash_persisted m0 (trace s) [] img (word_of x) Hc Hw); [symmetry; apply Hwf| |done|lia].
  destruct (pending (trace s) (word_of x)) eqn:Hp; [|done].
  specialize (Hd _ Hw Hp). lia.
Qed.
