(* ===== verification/MemopsGeneric.v ===== *)
(** * The generic persistent memmove and memset (libpmem/memops_generic.c)

    The loops are translated as they are written: a byte head up to an 8-byte
    boundary, 64-byte blocks, 8-byte words and a byte tail, forwards or
    backwards according to the overlap.  The theorems show that they meet the
    contract the rest of the library relies on ([memmove_nodrain],
    [memset_nodrain] of Pmem): the visible memory is the one of a memmove, and
    after a drain every byte of the destination is on media. *)
From stdpp Require Import base numbers list list_numbers.
From Stdlib Require Import ZArith Lia Bool.
From S2P Require Import Prelude Pmem.

(** ** Copy primitives *)

Definition cpy8 (dst src : Z) (s : pmst) : pmst :=
  st_store64 dst (load64 (vis s) src) s.

(** Eight loads into [tmp], then eight stores. *)
Definition cpy64 (dst src : Z) (s : pmst) : pmst :=
  let tmp := map (fun i => load64 (vis s) (src + 8 * Z.of_nat i)) (seq 0 8) in
  foldl (fun s i => st_store64 (dst + 8 * Z.of_nat i) (nth i tmp 0) s) s (seq 0 8).

Definition store8 (dst c : Z) (s : pmst) : pmst := st_store64 dst c s.

(** [*cdst++ = *csrc++], [n] times. *)
Fixpoint copy_bytes_up (n : nat) (cdst csrc : Z) (s : pmst) : pmst :=
  match n with
  | O => s
  | S k => copy_bytes_up k (cdst + 1) (csrc + 1) (st_store cdst [vis s csrc] s)
  end.

(** [*--cdst = *--csrc], [n] times. *)
Fixpoint copy_bytes_down (n : nat) (cdst csrc : Z) (s : pmst) : pmst :=
  match n with
  | O => s
  | S k => copy_bytes_down k (cdst - 1) (csrc - 1) (st_store (cdst - 1) [vis s (csrc - 1)] s)
  end.

(** A loop returns its final pointers, the remaining length and the state. *)
Fixpoint up64 (fuel : nat) (dst8 src8 len flags : Z) (s : pmst) : Z * Z * Z * pmst :=
  match fuel with
  | O => (dst8, src8, len, s)
  | S k =>
      if 64 <=? len then
        up64 k (dst8 + 64) (src8 + 64) (len - 64) flags
          (pmem_flush_flags dst8 64 flags (cpy64 dst8 src8 s))
      else (dst8, src8, len, s)
  end.

Fixpoint up8 (fuel : nat) (dst8 src8 len : Z) (s : pmst) : Z * Z * Z * pmst :=
  match fuel with
  | O => (dst8, src8, len, s)
  | S k =>
      if 8 <=? len then up8 k (dst8 + 8) (src8 + 8) (len - 8) (cpy8 dst8 src8 s)
      else (dst8, src8, len, s)
  end.

Fixpoint down64 (fuel : nat) (dst8 src8 len flags : Z) (s : pmst) : Z * Z * Z * pmst :=
  match fuel with
  | O => (dst8, src8, len, s)
  | S k =>
      if 64 <=? len then
        down64 k (dst8 - 64) (src8 - 64) (len - 64) flags
          (pmem_flush_flags (dst8 - 64) 64 flags (cpy64 (dst8 - 64) (src8 - 64) s))
      else (dst8, src8, len, s)
  end.

Fixpoint down8 (fuel : nat) (dst8 src8 len : Z) (s : pmst) : Z * Z * Z * pmst :=
  match fuel with
  | O => (dst8, src8, len, s)
  | S k =>
      if 8 <=? len then
        down8 k (dst8 - 8) (src8 - 8) (len - 8) (cpy8 (dst8 - 8) (src8 - 8) s)
      else (dst8, src8, len, s)
  end.

(** The forward branch of memmove_nodrain_generic. *)
Definition memmove_up (cdst csrc len flags : Z) (s : pmst) : pmst :=
  let cnt := Z.land cdst 7 in
  let '(cdst, csrc, len, s) :=
    if 0 <? cnt then
      let cnt := Z.min (8 - cnt) len in
      (cdst + cnt, csrc + cnt, len - cnt,
       pmem_flush_flags cdst cnt flags (copy_bytes_up (Z.to_nat cnt) cdst csrc s))
    else (cdst, csrc, len, s) in
  let '(dst8, src8, len, s) := up64 (Z.to_nat len) cdst csrc len flags s in
  let remaining := len in
  let '(dst8, src8, len, s) := up8 (Z.to_nat len) dst8 src8 len s in
  let s := copy_bytes_up (Z.to_nat len) dst8 src8 s in
  let cdst := dst8 + len in
  if remaining =? 0 then s else pmem_flush_flags (cdst - remaining) remaining flags s.

(** The backward branch. *)
Definition memmove_down (cdst csrc len flags : Z) (s : pmst) : pmst :=
  let cdst := cdst + len in
  let csrc := csrc + len in
  let cnt := Z.land cdst 7 in
  let '(cdst, csrc, len, s) :=
    if 0 <? cnt then
      let cnt := Z.min cnt len in
      (cdst - cnt, csrc - cnt, len - cnt,
       pmem_flush_flags (cdst - cnt) cnt flags (copy_bytes_down (Z.to_nat cnt) cdst csrc s))
    else (cdst, csrc, len, s) in
  let '(dst8, src8, len, s) := down64 (Z.to_nat len) cdst csrc len flags s in
  let remaining := len in
  let '(dst8, src8, len, s) := down8 (Z.to_nat len) dst8 src8 len s in
  let s := copy_bytes_down (Z.to_nat len) dst8 src8 s in
  let cdst := dst8 - len in
  if remaining =? 0 then s else pmem_flush_flags cdst remaining flags s.

Definition memmove_nodrain_generic (dst src len flags : Z) (s : pmst) : pmst :=
  if len <=? u64 (dst - src) then memmove_up dst src len flags s
  else memmove_down dst src len flags s.

(** ** memset *)

Fixpoint set_bytes (n : nat) (cdst c : Z) (s : pmst) : pmst :=
  match n with
  | O => s
  | S k => set_bytes k (cdst + 1) c (st_store cdst [byte_of_Z c] s)
  end.

Definition fill_word (c : Z) : Z :=
  let u := u8 c in
  Z.lor (Z.lor (Z.lor (Z.lor (Z.lor (Z.lor (Z.lor
    (Z.shiftl u 56) (Z.shiftl u 48)) (Z.shiftl u 40)) (Z.shiftl u 32))
    (Z.shiftl u 24)) (Z.shiftl u 16)) (Z.shiftl u 8)) u.

Fixpoint set64 (fuel : nat) (dst8 tmp len flags : Z) (s : pmst) : Z * Z * pmst :=
  match fuel with
  | O => (dst8, len, s)
  | S k =>
      if 64 <=? len then
        set64 k (dst8 + 64) tmp (len - 64) flags
          (pmem_flush_flags dst8 64 flags
            (foldl (fun s i => store8 (dst8 + 8 * Z.of_nat i) tmp s) s (seq 0 8)))
      else (dst8, len, s)
  end.

Fixpoint set8 (fuel : nat) (dst8 tmp len : Z) (s : pmst) : Z * Z * pmst :=
  match fuel with
  | O => (dst8, len, s)
  | S k => if 8 <=? len then set8 k (dst8 + 8) tmp (len - 8) (store8 dst8 tmp s)
           else (dst8, len, s)
  end.

Definition memset_nodrain_generic (dst c len flags : Z) (s : pmst) : pmst :=
  let cdst := dst in
  let cnt := Z.land cdst 7 in
  let '(cdst, len, s) :=
    if 0 <? cnt then
      let cnt := Z.min (8 - cnt) len in
      (cdst + cnt, len - cnt,
       pmem_flush_flags cdst cnt flags (set_bytes (Z.to_nat cnt) cdst c s))
    else (cdst, len, s) in
  let tmp := fill_word c in
  let '(dst8, len, s) := set64 (Z.to_nat len) cdst tmp len flags s in
  let remaining := len in
  let '(dst8, len, s) := set8 (Z.to_nat len) dst8 tmp len s in
  let s := set_bytes (Z.to_nat len) dst8 c s in
  let cdst := dst8 + len in
  if remaining =? 0 then s else pmem_flush_flags (cdst - remaining) remaining flags s.

(** ** Progress of a copy

    [moved m0 dst src lo hi m]: of the copy from [src] to [dst], exactly the
    bytes with offsets in [[lo, hi)] have been made in [m]. *)
Definition moved (m0 : mem) (dst src lo hi : Z) (m : mem) : Prop :=
  forall x, m x = if (dst + lo <=? x) && (x <? dst + hi) then m0 (src + (x - dst)) else m0 x.

(** The direction test of the code: a forward copy never reads what it wrote. *)
Definition fwd (dst src len : Z) : Prop := dst <= src \/ src + len <= dst.

Ltac pt :=
  repeat (match goal with
    | |- context [?a <=? ?b] => destruct (Z.leb_spec a b)
    | |- context [?a <? ?b] => destruct (Z.ltb_spec a b)
    end; cbn [andb]); try lia; try done; try (f_equal; lia).

Ltac dpairs :=
  repeat match goal with |- context [match ?x with (_, _) => _ end] => destruct x end.

Definition chunk (a b n : Z) (m m' : mem) : Prop :=
  forall x, m' x = if (a <=? x) && (x <? a + n) then m (b + (x - a)) else m x.

Lemma moved_up m0 dst src len p n m m' :
  fwd dst src len -> 0 <= p -> 0 <= n -> p + n <= len ->
  moved m0 dst src 0 p m -> chunk (dst + p) (src + p) n m m' ->
  moved m0 dst src 0 (p + n) m'.
Proof.
  unfold fwd. intros Hf Hp Hn Hl Hm Hc x. rewrite (Hc x), !Hm. pt.
Qed.

Lemma moved_down m0 dst src len q n m m' :
  src <= dst -> 0 <= n -> n <= q -> q <= len ->
  moved m0 dst src q len m -> chunk (dst + (q - n)) (src + (q - n)) n m m' ->
  moved m0 dst src (q - n) len m'.
Proof. intros Hf Hn Hq Hl Hm Hc x. rewrite (Hc x), !Hm. pt. Qed.

Lemma chunk_byte a b s : chunk a b 1 (vis s) (vis (st_store a [vis s b] s)).
Proof.
  intros x. simpl. change [vis s b] with (replicate 1 (vis s b)).
  rewrite write_replicate_pt. pt.
Qed.

Lemma chunk_cpy8 a b s : chunk a b 8 (vis s) (vis (cpy8 a b s)).
Proof. intros x. simpl. rewrite le64_load64, write_read_pt. done. Qed.

Lemma chunk_grow a b n m0 m :
  0 <= n -> chunk a b n m0 m ->
  chunk a b (n + 8) m0 (write_bytes m (a + n) (le64 (load64 m0 (b + n)))).
Proof. intros Hn Hc x. rewrite le64_load64, write_read_pt, (Hc x). pt. Qed.

Lemma chunk_cpy64 a b s : chunk a b 64 (vis s) (vis (cpy64 a b s)).
Proof.
  cbn [cpy64 seq map foldl nth vis st_store64 st_store].
  change 64 with (0 + 8 + 8 + 8 + 8 + 8 + 8 + 8 + 8).
  do 8 (apply chunk_grow; [lia|]). intros x. pt.
Qed.

Lemma chunk_flags a n flags s x : vis (pmem_flush_flags a n flags s) x = vis s x.
Proof. unfold pmem_flush_flags. destruct (flag_isset _ _); done. Qed.

Lemma dirty_cpy64 lo n a b s :
  dirty_in lo n s -> lo <= a -> a + 64 <= lo + n -> dirty_in lo n (cpy64 a b s).
Proof.
  intros Hd H1 H2. cbn [cpy64 seq map foldl].
  repeat (apply dirty_store; [|rewrite ?length_le64; lia..]). done.
Qed.

(** A block that is stored and flushed leaves nothing pending. *)
Definition noflush (flags : Z) : bool := flag_isset flags PMEM_F_MEM_NOFLUSH.

Lemma dirty_flags lo n flags s :
  noflush flags = false -> dirty_in lo n s -> dirty_in 0 0 (pmem_flush_flags lo n flags s).
Proof. intros Hf Hd. unfold pmem_flush_flags, noflush in *. rewrite Hf. by apply dirty_flush. Qed.

(** ** The forward loops *)

Section Up.
Context (m0 : mem) (dst src len flags : Z).
Hypothesis Hlen : 0 <= len.
Hypothesis Hfwd : fwd dst src len.

Lemma copy_bytes_up_spec n p s :
  0 <= p -> p + Z.of_nat n <= len -> moved m0 dst src 0 p (vis s) ->
  moved m0 dst src 0 (p + Z.of_nat n) (vis (copy_bytes_up n (dst + p) (src + p) s)).
Proof.
  revert p s. induction n as [|n IH]; intros p s Hp Hl Hm.
  - simpl. rewrite Z.add_0_r. done.
  - cbn [copy_bytes_up]. rewrite Nat2Z.inj_succ in *.
    replace (p + Z.succ (Z.of_nat n)) with ((p + 1) + Z.of_nat n) by lia.
    rewrite <- (Z.add_assoc dst), <- (Z.add_assoc src). apply IH; [lia..|].
    eapply moved_up; [exact Hfwd|lia..|exact Hm|apply chunk_byte].
Qed.

Lemma up64_spec fuel p l s :
  0 <= p -> 0 <= l -> p + l = len -> (Z.to_nat l <= fuel)%nat ->
  moved m0 dst src 0 p (vis s) ->
  exists q s', up64 fuel (dst + p) (src + p) l flags s = (dst + q, src + q, len - q, s') /\
    p <= q /\ 0 <= len - q < 64 /\ moved m0 dst src 0 q (vis s') /\
    (noflush flags = false -> dirty_in 0 0 s -> dirty_in 0 0 s').
Proof.
  revert p l s. induction fuel as [|k IH]; intros p l s Hp Hl Hpl Hf Hm; cbn [up64].
  - exists p, s. repeat split; [f_equal; f_equal; lia|lia..|done|done].
  - destruct (Z.leb_spec 64 l).
    + rewrite <- (Z.add_assoc dst), <- (Z.add_assoc src).
      set (s1 := pmem_flush_flags (dst + p) 64 flags (cpy64 (dst + p) (src + p) s)).
      destruct (IH (p + 64) (l - 64) s1) as (q & s' & -> & Hq & Hr & Hm' & Hd'); [lia..| |].
      { eapply moved_up; [exact Hfwd|lia..|exact Hm|].
        intros x. unfold s1. rewrite chunk_flags. apply chunk_cpy64. }
      exists q, s'. repeat split; [lia..|done|]. intros Hnf Hc. apply Hd'; [done|].
      apply dirty_flags; [done|]. apply dirty_cpy64; [|lia..].
      eapply dirty_weaken; [exact Hc|lia].
    + exists p, s. repeat split; [f_equal; f_equal; lia|lia..|done|done].
Qed.

Lemma up8_spec fuel p l s lo n :
  0 <= p -> 0 <= l -> p + l = len -> (Z.to_nat l <= fuel)%nat ->
  moved m0 dst src 0 p (vis s) -> lo <= dst + p -> dst + len <= lo + n ->
  exists q s', up8 fuel (dst + p) (src + p) l s = (dst + q, src + q, len - q, s') /\
    p <= q /\ 0 <= len - q < 8 /\ moved m0 dst src 0 q (vis s') /\
    (dirty_in lo n s -> dirty_in lo n s').
Proof.
  revert p l s. induction fuel as [|k IH]; intros p l s Hp Hl Hpl Hf Hm H1 H2; cbn [up8].
  - exists p, s. repeat split; [f_equal; f_equal; lia|lia..|done|done].
  - destruct (Z.leb_spec 8 l).
    + rewrite <- (Z.add_assoc dst), <- (Z.add_assoc src).
      destruct (IH (p + 8) (l - 8) (cpy8 (dst + p) (src + p) s))
        as (q & s' & -> & Hq & Hr & Hm' & Hd'); [lia..| |lia|lia|].
      { eapply moved_up; [exact Hfwd|lia..|exact Hm|apply chunk_cpy8]. }
      exists q, s'. repeat split; [lia..|done|]. intros Hd. apply Hd'.
      apply dirty_store; [done|rewrite ?length_le64; lia..].
    + exists p, s. repeat split; [f_equal; f_equal; lia|lia..|done|done].
Qed.

Lemma dirty_copy_bytes_up n lo k a b s :
  lo <= a -> a + Z.of_nat n <= lo + k -> dirty_in lo k s ->
  dirty_in lo k (copy_bytes_up n a b s).
Proof.
  revert a b s. induction n as [|n IH]; intros a b s H1 H2 Hd; cbn [copy_bytes_up]; [done|].
  apply IH; [lia..|]. apply dirty_store; [done|simpl; lia..].
Qed.

Lemma land7_range x : 0 <= Z.land x 7 < 8.
Proof. change 7 with (Z.ones 3). rewrite Z.land_ones by lia. apply Z.mod_pos_bound. lia. Qed.

(** The byte head up to the 8-byte boundary. *)
Lemma head_up_spec s cnt :
  0 <= cnt <= len -> moved m0 dst src 0 0 (vis s) ->
  let s1 := pmem_flush_flags dst cnt flags (copy_bytes_up (Z.to_nat cnt) dst src s) in
  moved m0 dst src 0 cnt (vis s1) /\
  (noflush flags = false -> dirty_in 0 0 s -> dirty_in 0 0 s1).
Proof.
  intros Hc Hm0. cbn zeta. split.
  - pose proof (copy_bytes_up_spec (Z.to_nat cnt) 0 s ltac:(lia) ltac:(lia) Hm0) as Hcb.
    rewrite !Z.add_0_r, Z2Nat.id in Hcb by lia. intros x. rewrite chunk_flags. apply Hcb.
  - intros Hnf Hd. apply dirty_flags; [done|]. apply dirty_copy_bytes_up; [lia..|].
    eapply dirty_weaken; [exact Hd|lia].
Qed.

(** Blocks, words, byte tail and its flush, from offset [p]. *)
Lemma rest_up_spec p s1 :
  0 <= p <= len -> moved m0 dst src 0 p (vis s1) ->
  let '(dst8, src8, l, s) := up64 (Z.to_nat (len - p)) (dst + p) (src + p) (len - p) flags s1 in
  let remaining := l in
  let '(dst8, src8, l, s) := up8 (Z.to_nat l) dst8 src8 l s in
  let s := copy_bytes_up (Z.to_nat l) dst8 src8 s in
  let s' := if remaining =? 0 then s
            else pmem_flush_flags (dst8 + l - remaining) remaining flags s in
  moved m0 dst src 0 len (vis s') /\
  (noflush flags = false -> dirty_in 0 0 s1 -> dirty_in 0 0 s').
Proof.
  intros Hp Hm1.
  destruct (up64_spec (Z.to_nat (len - p)) p (len - p) s1) as (q & s2 & -> & Hq & Hr & Hm2 & Hd2);
    [lia..|done|].
  destruct (up8_spec (Z.to_nat (len - q)) q (len - q) s2 (dst + q) (len - q))
    as (r & s3 & -> & Hrq & Hrr & Hm3 & Hd3); [lia..|done|lia|lia|].
  set (s4 := copy_bytes_up (Z.to_nat (len - r)) (dst + r) (src + r) s3). cbn zeta.
  assert (moved m0 dst src 0 len (vis s4)) as Hm4.
  { replace len with (r + Z.of_nat (Z.to_nat (len - r))) at 1 by lia.
    apply copy_bytes_up_spec; [lia..|done]. }
  assert (noflush flags = false -> dirty_in 0 0 s1 -> dirty_in (dst + q) (len - q) s4) as Hd4.
  { intros Hnf Hd. apply dirty_copy_bytes_up; [lia..|]. apply Hd3.
    eapply dirty_weaken; [apply Hd2; done|lia]. }
  replace (dst + r + (len - r) - (len - q)) with (dst + q) by lia.
  destruct (Z.eqb_spec (len - q) 0) as [E|E].
  - split; [done|]. intros Hnf Hd. eapply dirty_weaken; [apply Hd4; done|lia].
  - split; [intros x; rewrite chunk_flags; apply Hm4|].
    intros Hnf Hd. apply dirty_flags; [done|]. apply Hd4; done.
Qed.

Lemma memmove_up_spec s :
  vis s ≡ m0 ->
  moved m0 dst src 0 len (vis (memmove_up dst src len flags s)) /\
  (noflush flags = false -> dirty_in 0 0 s ->
   dirty_in 0 0 (memmove_up dst src len flags s)).
Proof.
  intros Hs.
  assert (moved m0 dst src 0 0 (vis s)) as Hm0 by (intros x; rewrite Hs; pt).
  pose proof (land7_range dst) as H7. unfold memmove_up.
  destruct (Z.ltb_spec 0 (Z.land dst 7)).
  - set (c := Z.min (8 - Z.land dst 7) len).
    destruct (head_up_spec s c) as [Hm1 Hd1]; [lia|done|].
    pose proof (rest_up_spec c _ ltac:(lia) Hm1) as Hr.
    revert Hr. dpairs. cbn zeta. intros [Hr1 Hr2].
    split; [exact Hr1|]. intros Hnf Hd. apply Hr2; [done|]. apply Hd1; done.
  - pose proof (rest_up_spec 0 s ltac:(lia) Hm0) as Hr. rewrite !Z.add_0_r, Z.sub_0_r in Hr.
    revert Hr. dpairs. cbn zeta. intros Hr. exact Hr.
Qed.
End Up.

(** ** The backward loops *)

Section Down.
Context (m0 : mem) (dst src len flags : Z).
Hypothesis Hlen : 0 <= len.
Hypothesis Hback : src <= dst.

Lemma copy_bytes_down_spec n q s :
  Z.of_nat n <= q -> q <= len -> moved m0 dst src q len (vis s) ->
  moved m0 dst src (q - Z.of_nat n) len (vis (copy_bytes_down n (dst + q) (src + q) s)).
Proof.
  revert q s. induction n as [|n IH]; intros q s Hq Hl Hm.
  - simpl. rewrite Z.sub_0_r. done.
  - cbn [copy_bytes_down]. rewrite Nat2Z.inj_succ in *.
    replace (q - Z.succ (Z.of_nat n)) with ((q - 1) - Z.of_nat n) by lia.
    rewrite <- !Z.add_sub_assoc. apply IH; [lia..|].
    eapply moved_down; [exact Hback|lia| |exact Hl|exact Hm|apply chunk_byte]. lia.
Qed.

Lemma down64_spec fuel l s :
  0 <= l <= len -> (Z.to_nat l <= fuel)%nat -> moved m0 dst src l len (vis s) ->
  exists q s', down64 fuel (dst + l) (src + l) l flags s = (dst + q, src + q, q, s') /\
    0 <= q < 64 /\ q <= l /\ moved m0 dst src q len (vis s') /\
    (noflush flags = false -> dirty_in 0 0 s -> dirty_in 0 0 s').
Proof.
  revert l s. induction fuel as [|k IH]; intros l s Hl Hf Hm; cbn [down64].
  - exists l, s. repeat split; [lia..|done|done].
  - destruct (Z.leb_spec 64 l).
    + rewrite <- !Z.add_sub_assoc.
      set (s1 := pmem_flush_flags _ _ _ _).
      destruct (IH (l - 64) s1) as (q & s' & -> & Hq & Hr & Hm' & Hd'); [lia..| |].
      { eapply moved_down; [exact Hback|lia| | |exact Hm|]; [lia..|].
        intros x. unfold s1. rewrite chunk_flags. apply chunk_cpy64. }
      exists q, s'. repeat split; [lia..|done|]. intros Hnf Hc. apply Hd'; [done|].
      apply dirty_flags; [done|]. apply dirty_cpy64; [|lia..].
      eapply dirty_weaken; [exact Hc|lia].
    + exists l, s. repeat split; [lia..|done|done].
Qed.

Lemma down8_spec fuel l s n :
  0 <= l <= len -> (Z.to_nat l <= fuel)%nat -> moved m0 dst src l len (vis s) -> l <= n ->
  exists q s', down8 fuel (dst + l) (src + l) l s = (dst + q, src + q, q, s') /\
    0 <= q < 8 /\ q <= l /\ moved m0 dst src q len (vis s') /\
    (dirty_in dst n s -> dirty_in dst n s').
Proof.
  revert l s. induction fuel as [|k IH]; intros l s Hl Hf Hm Hn; cbn [down8].
  - exists l, s. repeat split; [lia..|done|done].
  - destruct (Z.leb_spec 8 l).
    + rewrite <- !Z.add_sub_assoc.
      destruct (IH (l - 8) (cpy8 (dst + (l - 8)) (src + (l - 8)) s))
        as (q & s' & -> & Hq & Hr & Hm' & Hd'); [lia..| |lia|].
      { eapply moved_down; [exact Hback|lia| | |exact Hm|apply chunk_cpy8]; lia. }
      exists q, s'. repeat split; [lia..|done|]. intros Hd. apply Hd'.
      apply dirty_store; [done|rewrite ?length_le64; lia..].
    + exists l, s. repeat split; [lia..|done|done].
Qed.

Lemma dirty_copy_bytes_down n lo k a b s :
  lo <= a - Z.of_nat n -> a <= lo + k -> dirty_in lo k s ->
  dirty_in lo k (copy_bytes_down n a b s).
Proof.
  revert a b s. induction n as [|n IH]; intros a b s H1 H2 Hd; cbn [copy_bytes_down]; [done|].
  apply IH; [lia..|]. apply dirty_store; [done|simpl; lia..].
Qed.

Lemma head_down_spec s cnt :
  0 <= cnt <= len -> moved m0 dst src len len (vis s) ->
  let s1 := pmem_flush_flags (dst + len - cnt) cnt flags
              (copy_bytes_down (Z.to_nat cnt) (dst + len) (src + len) s) in
  moved m0 dst src (len - cnt) len (vis s1) /\
  (noflush flags = false -> dirty_in 0 0 s -> dirty_in 0 0 s1).
Proof.
  intros Hc Hm0. cbn zeta. split.
  - pose proof (copy_bytes_down_spec (Z.to_nat cnt) len s ltac:(lia) ltac:(lia) Hm0) as Hcb.
    rewrite Z2Nat.id in Hcb by lia. intros x. rewrite chunk_flags. apply Hcb.
  - intros Hnf Hd. apply dirty_flags; [done|]. apply dirty_copy_bytes_down; [lia..|].
    eapply dirty_weaken; [exact Hd|lia].
Qed.

Lemma rest_down_spec l s1 :
  0 <= l <= len -> moved m0 dst src l len (vis s1) ->
  let '(dst8, src8, l, s) := down64 (Z.to_nat l) (dst + l) (src + l) l flags s1 in
  let remaining := l in
  let '(dst8, src8, l, s) := down8 (Z.to_nat l) dst8 src8 l s in
  let s := copy_bytes_down (Z.to_nat l) dst8 src8 s in
  let s' := if remaining =? 0 then s
            else pmem_flush_flags (dst8 - l) remaining flags s in
  moved m0 dst src 0 len (vis s') /\
  (noflush flags = false -> dirty_in 0 0 s1 -> dirty_in 0 0 s').
Proof.
  intros Hl Hm1.
  destruct (down64_spec (Z.to_nat l) l s1) as (q & s2 & -> & Hq & Hr & Hm2 & Hd2);
    [lia..|done|].
  destruct (down8_spec (Z.to_nat q) q s2 q)
    as (r & s3 & -> & Hrq & Hrr & Hm3 & Hd3); [lia..|done|lia|].
  set (s4 := copy_bytes_down (Z.to_nat r) (dst + r) (src + r) s3). cbn zeta.
  assert (moved m0 dst src 0 len (vis s4)) as Hm4.
  { replace 0 with (r - Z.of_nat (Z.to_nat r)) by lia.
    apply copy_bytes_down_spec; [lia..|done]. }
  assert (noflush flags = false -> dirty_in 0 0 s1 -> dirty_in dst q s4) as Hd4.
  { intros Hnf Hd. apply dirty_copy_bytes_down; [lia..|]. apply Hd3.
    eapply dirty_weaken; [apply Hd2; done|lia]. }
  rewrite Z.add_simpl_r.
  destruct (Z.eqb_spec q 0) as [E|E].
  - split; [done|]. intros Hnf Hd. eapply dirty_weaken; [apply Hd4; done|lia].
  - split; [intros x; rewrite chunk_flags; apply Hm4|].
    intros Hnf Hd. apply dirty_flags; [done|]. apply Hd4; done.
Qed.

Lemma memmove_down_spec s :
  vis s ≡ m0 ->
  moved m0 dst src 0 len (vis (memmove_down dst src len flags s)) /\
  (noflush flags = false -> dirty_in 0 0 s ->
   dirty_in 0 0 (memmove_down dst src len flags s)).
Proof.
  intros Hs.
  assert (moved m0 dst src len len (vis s)) as Hm0 by (intros x; rewrite Hs; pt).
  pose proof (land7_range (dst + len)) as H7. unfold memmove_down.
  destruct (Z.ltb_spec 0 (Z.land (dst + len) 7)).
  - set (c := Z.min (Z.land (dst + len) 7) len).
    destruct (head_down_spec s c) as [Hm1 Hd1]; [lia|done|].
    pose proof (rest_down_spec (len - c) _ ltac:(lia) Hm1) as Hr.
    rewrite !Z.add_sub_assoc in Hr.
    revert Hr. dpairs. cbn zeta. intros [Hr1 Hr2].
    split; [exact Hr1|]. intros Hnf Hd. apply Hr2; [done|]. apply Hd1; done.
  - pose proof (rest_down_spec len s ltac:(lia) Hm0) as Hr.
    revert Hr. dpairs. cbn zeta. intros Hr. exact Hr.
Qed.
End Down.

(** ** memset *)

Definition filled (m0 : mem) (dst : Z) (b : byte) (hi : Z) (m : mem) : Prop :=
  forall x, m x = if (dst <=? x) && (x <? dst + hi) then b else m0 x.

Lemma fill_word_byte u :
  0 <= u < 256 ->
  enc_le 8 (Z.lor (Z.lor (Z.lor (Z.lor (Z.lor (Z.lor (Z.lor
    (Z.shiftl u 56) (Z.shiftl u 48)) (Z.shiftl u 40)) (Z.shiftl u 32))
    (Z.shiftl u 24)) (Z.shiftl u 16)) (Z.shiftl u 8)) u) = replicate 8 (byte_of_Z u).
Proof.
  intros Hu.
  assert (forallb (fun u => bool_decide (enc_le 8 (Z.lor (Z.lor (Z.lor (Z.lor (Z.lor (Z.lor (Z.lor
    (Z.shiftl u 56) (Z.shiftl u 48)) (Z.shiftl u 40)) (Z.shiftl u 32))
    (Z.shiftl u 24)) (Z.shiftl u 16)) (Z.shiftl u 8)) u) = replicate 8 (byte_of_Z u)))
    (seqZ 0 256) = true) as H by (vm_compute; reflexivity).
  rewrite forallb_forall in H. specialize (H u).
  rewrite bool_decide_eq_true in H. apply H. apply list_elem_of_In, elem_of_seqZ. lia.
Qed.

Lemma le64_fill_word c : le64 (fill_word c) = replicate 8 (byte_of_Z c).
Proof.
  unfold le64, fill_word. rewrite fill_word_byte by (apply Z.mod_pos_bound; lia).
  f_equal. unfold byte_of_Z, u8. rewrite Z.mod_mod by lia. done.
Qed.

Section Set_.
Context (m0 : mem) (dst c len flags : Z).
Hypothesis Hlen : 0 <= len.

Lemma filled_grow p n m :
  0 <= p -> filled m0 dst (byte_of_Z c) p m ->
  filled m0 dst (byte_of_Z c) (p + Z.of_nat n)
    (write_bytes m (dst + p) (replicate n (byte_of_Z c))).
Proof. intros Hp Hm x. rewrite write_replicate_pt, (Hm x). pt. Qed.

Lemma filled_grow8 q a m :
  8 <= q -> a = dst + (q - 8) -> filled m0 dst (byte_of_Z c) (q - 8) m ->
  filled m0 dst (byte_of_Z c) q (write_bytes m a (replicate 8 (byte_of_Z c))).
Proof.
  intros Hq -> Hm. replace q with (q - 8 + Z.of_nat 8) at 1 by lia.
  apply filled_grow; [lia|done].
Qed.

Lemma set_bytes_spec n p s lo k :
  0 <= p -> filled m0 dst (byte_of_Z c) p (vis s) ->
  lo <= dst + p -> dst + p + Z.of_nat n <= lo + k ->
  filled m0 dst (byte_of_Z c) (p + Z.of_nat n) (vis (set_bytes n (dst + p) c s)) /\
  (dirty_in lo k s -> dirty_in lo k (set_bytes n (dst + p) c s)).
Proof.
  revert p s. induction n as [|n IH]; intros p s Hp Hm H1 H2; cbn [set_bytes].
  - rewrite Z.add_0_r. done.
  - rewrite Nat2Z.inj_succ in *.
    replace (p + Z.succ (Z.of_nat n)) with ((p + 1) + Z.of_nat n) by lia.
    rewrite <- (Z.add_assoc dst).
    destruct (IH (p + 1) (st_store (dst + p) [byte_of_Z c] s)) as [IHm IHd]; [lia| |lia..|].
    { apply (filled_grow p 1); done. }
    split; [done|]. intros Hd. apply IHd. apply dirty_store; [done|simpl; lia..].
Qed.

Lemma set64_spec fuel p l s :
  0 <= p -> 0 <= l -> p + l = len -> (Z.to_nat l <= fuel)%nat ->
  filled m0 dst (byte_of_Z c) p (vis s) ->
  exists q s', set64 fuel (dst + p) (fill_word c) l flags s = (dst + q, len - q, s') /\
    p <= q /\ 0 <= len - q < 64 /\ filled m0 dst (byte_of_Z c) q (vis s') /\
    (noflush flags = false -> dirty_in 0 0 s -> dirty_in 0 0 s').
Proof.
  revert p l s. induction fuel as [|k IH]; intros p l s Hp Hl Hpl Hf Hm; cbn [set64].
  - exists p, s. repeat split; [f_equal; f_equal; lia|lia..|done|done].
  - destruct (Z.leb_spec 64 l).
    + rewrite <- (Z.add_assoc dst).
      set (s0 := foldl _ _ _). set (s1 := pmem_flush_flags _ _ _ _).
      assert (filled m0 dst (byte_of_Z c) (p + 64) (vis s0)) as Hm0.
      { unfold s0. cbn [seq foldl vis store8 st_store64 st_store]. rewrite !le64_fill_word.
        do 8 (apply filled_grow8; [lia|lia|]).
        replace (_ - 8) with p by lia. done. }
      destruct (IH (p + 64) (l - 64) s1) as (q & s' & -> & Hq & Hr & Hm' & Hd'); [lia..| |].
      { intros x. unfold s1. rewrite chunk_flags. apply Hm0. }
      exists q, s'. repeat split; [lia..|done|]. intros Hnf Hc. apply Hd'; [done|].
      apply dirty_flags; [done|]. unfold s0. cbn [seq foldl].
      repeat (apply dirty_store; [|rewrite ?length_le64; lia..]).
      eapply dirty_weaken; [exact Hc|lia].
    + exists p, s. repeat split; [f_equal; f_equal; lia|lia..|done|done].
Qed.

Lemma set8_spec fuel p l s lo n :
  0 <= p -> 0 <= l -> p + l = len -> (Z.to_nat l <= fuel)%nat ->
  filled m0 dst (byte_of_Z c) p (vis s) -> lo <= dst + p -> dst + len <= lo + n ->
  exists q s', set8 fuel (dst + p) (fill_word c) l s = (dst + q, len - q, s') /\
    p <= q /\ 0 <= len - q < 8 /\ filled m0 dst (byte_of_Z c) q (vis s') /\
    (dirty_in lo n s -> dirty_in lo n s').
Proof.
  revert p l s. induction fuel as [|k IH]; intros p l s Hp Hl Hpl Hf Hm H1 H2; cbn [set8].
  - exists p, s. repeat split; [f_equal; f_equal; lia|lia..|done|done].
  - destruct (Z.leb_spec 8 l).
    + rewrite <- (Z.add_assoc dst).
      destruct (IH (p + 8) (l - 8) (store8 (dst + p) (fill_word c) s))
        as (q & s' & -> & Hq & Hr & Hm' & Hd'); [lia..| |lia|lia|].
      { cbn [vis store8 st_store64 st_store]. rewrite le64_fill_word. apply (filled_grow p 8); done. }
      exists q, s'. repeat split; [lia..|done|]. intros Hd. apply Hd'.
      apply dirty_store; [done|rewrite ?length_le64; lia..].
    + exists p, s. repeat split; [f_equal; f_equal; lia|lia..|done|done].
Qed.

Lemma rest_set_spec p s1 :
  0 <= p <= len -> filled m0 dst (byte_of_Z c) p (vis s1) ->
  let '(dst8, l, s) := set64 (Z.to_nat (len - p)) (dst + p) (fill_word c) (len - p) flags s1 in
  let remaining := l in
  let '(dst8, l, s) := set8 (Z.to_nat l) dst8 (fill_word c) l s in
  let s := set_bytes (Z.to_nat l) dst8 c s in
  let s' := if remaining =? 0 then s
            else pmem_flush_flags (dst8 + l - remaining) remaining flags s in
  filled m0 dst (byte_of_Z c) len (vis s') /\
  (noflush flags = false -> dirty_in 0 0 s1 -> dirty_in 0 0 s').
Proof.
  intros Hp Hm1.
  destruct (set64_spec (Z.to_nat (len - p)) p (len - p) s1) as (q & s2 & -> & Hq & Hr & Hm2 & Hd2);
    [lia..|done|].
  destruct (set8_spec (Z.to_nat (len - q)) q (len - q) s2 (dst + q) (len - q))
    as (r & s3 & -> & Hrq & Hrr & Hm3 & Hd3); [lia..|done|lia|lia|].
  destruct (set_bytes_spec (Z.to_nat (len - r)) r s3 (dst + q) (len - q)) as [Hm4 Hd4];
    [lia|done|lia..|].
  rewrite Z2Nat.id in Hm4 by lia. replace (r + (len - r)) with len in Hm4 by lia. cbn zeta.
  set (s4 := set_bytes _ _ _ _) in *.
  replace (dst + r + (len - r) - (len - q)) with (dst + q) by lia.
  assert (noflush flags = false -> dirty_in 0 0 s1 -> dirty_in (dst + q) (len - q) s4) as Hd5.
  { intros Hnf Hd. apply Hd4, Hd3. eapply dirty_weaken; [apply Hd2; done|lia]. }
  destruct (Z.eqb_spec (len - q) 0) as [E|E].
  - split; [done|]. intros Hnf Hd. eapply dirty_weaken; [apply Hd5; done|lia].
  - split; [intros x; rewrite chunk_flags; apply Hm4|].
    intros Hnf Hd. apply dirty_flags; [done|]. apply Hd5; done.
Qed.

Lemma memset_spec s :
  vis s ≡ m0 ->
  filled m0 dst (byte_of_Z c) len (vis (memset_nodrain_generic dst c len flags s)) /\
  (noflush flags = false -> dirty_in 0 0 s ->
   dirty_in 0 0 (memset_nodrain_generic dst c len flags s)).
Proof.
  intros Hs.
  assert (filled m0 dst (byte_of_Z c) 0 (vis s)) as Hm0 by (intros x; rewrite Hs; pt).
  pose proof (land7_range dst) as H7. unfold memset_nodrain_generic.
  destruct (Z.ltb_spec 0 (Z.land dst 7)).
  - set (k := Z.min (8 - Z.land dst 7) len).
    destruct (set_bytes_spec (Z.to_nat k) 0 s dst k) as [Hm1 Hd1]; [lia|done|lia..|].
    rewrite Z.add_0_r, Z2Nat.id, Z.add_0_l in * by lia.
    pose proof (rest_set_spec k (pmem_flush_flags dst k flags (set_bytes (Z.to_nat k) dst c s))
      ltac:(lia)) as Hr.
    revert Hr. dpairs. cbn zeta. intros Hr.
    destruct Hr as [Hr1 Hr2]; [intros x; rewrite chunk_flags; apply Hm1|].
    split; [exact Hr1|]. intros Hnf Hd. apply Hr2; [done|]. apply dirty_flags; [done|].
    apply Hd1. eapply dirty_weaken; [exact Hd|lia].
  - pose proof (rest_set_spec 0 s ltac:(lia) Hm0) as Hr. rewrite !Z.add_0_r, Z.sub_0_r in Hr.
    revert Hr. dpairs. cbn zeta. intros Hr. exact Hr.
Qed.
End Set_.

(** ** The contract *)

(** The loops keep the trace in step with the memory. *)
Lemma wf_flags m0 a n flags s : wf_st m0 s -> wf_st m0 (pmem_flush_flags a n flags s).
Proof. unfold pmem_flush_flags. destruct (flag_isset _ _); [done|apply wf_flush]. Qed.

Lemma wf_copy_up m0 n a b s : wf_st m0 s -> wf_st m0 (copy_bytes_up n a b s).
Proof. revert a b s. induction n; intros; simpl; [done|]. apply IHn, wf_store. done. Qed.

Lemma wf_copy_down m0 n a b s : wf_st m0 s -> wf_st m0 (copy_bytes_down n a b s).
Proof. revert a b s. induction n; intros; simpl; [done|]. apply IHn, wf_store. done. Qed.

Lemma wf_up64 m0 k a b l f s : wf_st m0 s -> wf_st m0 (up64 k a b l f s).2.
Proof.
  revert a b l s. induction k; intros; cbn [up64]; [done|]. case_match; [|done].
  apply IHk, wf_flags. cbn [cpy64 seq map foldl]. repeat apply wf_store. done.
Qed.

Lemma wf_down64 m0 k a b l f s : wf_st m0 s -> wf_st m0 (down64 k a b l f s).2.
Proof.
  revert a b l s. induction k; intros; cbn [down64]; [done|]. case_match; [|done].
  apply IHk, wf_flags. cbn [cpy64 seq map foldl]. repeat apply wf_store. done.
Qed.

Lemma wf_up8 m0 k a b l s : wf_st m0 s -> wf_st m0 (up8 k a b l s).2.
Proof.
  revert a b l s. induction k; intros; cbn [up8]; [done|]. case_match; [|done].
  apply IHk, wf_store. done.
Qed.

Lemma wf_down8 m0 k a b l s : wf_st m0 s -> wf_st m0 (down8 k a b l s).2.
Proof.
  revert a b l s. induction k; intros; cbn [down8]; [done|]. case_match; [|done].
  apply IHk, wf_store. done.
Qed.

Lemma wf_memmove_generic m0 dst src len flags s :
  wf_st m0 s -> wf_st m0 (memmove_nodrain_generic dst src len flags s).
Proof.
  intros Hs. unfold memmove_nodrain_generic, memmove_up, memmove_down.
  destruct (len <=? _).
  - set (h := if 0 <? Z.land dst 7 then _ else _).
    assert (wf_st m0 h.2) as Hh.
    { unfold h. destruct (0 <? _); [apply wf_flags, wf_copy_up|]; done. }
    destruct h as [[[a b] l] s1]. simpl in Hh.
    pose proof (wf_up64 m0 (Z.to_nat l) a b l flags s1 Hh) as H1.
    destruct (up64 _ _ _ _ _ _) as [[[a2 b2] l2] s2]. simpl in H1.
    pose proof (wf_up8 m0 (Z.to_nat l2) a2 b2 l2 s2 H1) as H2.
    destruct (up8 _ _ _ _ _) as [[[a3 b3] l3] s3]. simpl in H2.
    case_match; [|apply wf_flags]; apply wf_copy_up; done.
  - set (h := if 0 <? Z.land (dst + len) 7 then _ else _).
    assert (wf_st m0 h.2) as Hh.
    { unfold h. destruct (0 <? _); [apply wf_flags, wf_copy_down|]; done. }
    destruct h as [[[a b] l] s1]. simpl in Hh.
    pose proof (wf_down64 m0 (Z.to_nat l) a b l flags s1 Hh) as H1.
    destruct (down64 _ _ _ _ _ _) as [[[a2 b2] l2] s2]. simpl in H1.
    pose proof (wf_down8 m0 (Z.to_nat l2) a2 b2 l2 s2 H1) as H2.
    destruct (down8 _ _ _ _ _) as [[[a3 b3] l3] s3]. simpl in H2.
    case_match; [|apply wf_flags]; apply wf_copy_down; done.
Qed.

(** A range inside the 64-bit address space. *)
Definition valid_range (a len : Z) : Prop := 0 <= a /\ 0 <= len /\ a + len <= 2 ^ 64.

Lemma direction_test dst src len :
  valid_range dst len -> valid_range src len ->
  (len <=? u64 (dst - src)) = true -> fwd dst src len.
Proof.
  unfold valid_range, fwd, u64. intros Hd Hs H. zb.
  destruct (Z.le_gt_cases dst src) as [|Hgt]; [lia|].
  destruct (Z.eq_dec len 0); [lia|].
  rewrite Z.mod_small in H by lia. lia.
Qed.

Lemma direction_test_back dst src len :
  valid_range dst len -> valid_range src len ->
  (len <=? u64 (dst - src)) = false -> src <= dst.
Proof.
  unfold valid_range, u64. intros Hd Hs H. zb.
  destruct (Z.le_gt_cases src dst) as [|Hgt]; [done|].
  rewrite <- (Z.mod_unique (dst - src) (2 ^ 64) (-1) (dst - src + 2 ^ 64)) in H; lia.
Qed.

Lemma memmove_generic_spec dst src len flags s :
  valid_range dst len -> valid_range src len ->
  moved (vis s) dst src 0 len (vis (memmove_nodrain_generic dst src len flags s)) /\
  (noflush flags = false -> dirty_in 0 0 s ->
   dirty_in 0 0 (memmove_nodrain_generic dst src len flags s)).
Proof.
  intros Hd Hs. unfold memmove_nodrain_generic. destruct (len <=? _) eqn:E.
  - apply memmove_up_spec; [apply Hd|by apply direction_test|done].
  - apply memmove_down_spec; [apply Hd|by eapply direction_test_back|done].
Qed.

(** C32. memmove_nodrain_generic computes a memmove for every length, alignment
    and overlap: the destination receives the bytes the source had before the
    call and no other byte changes. *)
Theorem memmove_generic_refines (dst src len flags : Z) (s : pmst) :
  valid_range dst len -> valid_range src len ->
  vis (memmove_nodrain_generic dst src len flags s) ≡
  vis (memmove_nodrain dst src len flags s).
Proof.
  intros Hd Hs x. destruct (memmove_generic_spec dst src len flags s Hd Hs) as [Hm _].
  rewrite Hm. unfold memmove_nodrain, store_nodrain. rewrite chunk_flags. simpl. rewrite write_read_pt.
  destruct Hd as (? & ? & ?). pt.
Qed.

(** Unless NOFLUSH is given, everything memmove_nodrain_generic stored is on
    media after the next drain: whatever the power failure leaves, the whole
    memory reads as it did when the copy returned. *)
Theorem memmove_generic_durable (dst src len flags : Z) (m img : mem) :
  valid_range dst len -> valid_range src len ->
  flag_isset flags PMEM_F_MEM_NOFLUSH = false ->
  crash_image m (trace (pmem_drain (memmove_nodrain_generic dst src len flags (PMst m [] false)))) img ->
  img ≡ write_bytes m dst (read_bytes m src (Z.to_nat len)).
Proof.
  intros Hd Hs Hnf Hc. set (s := PMst m [] false) in *.
  destruct (memmove_generic_spec dst src len flags s Hd Hs) as [Hm Hdirty].
  assert (dirty_in 0 0 s) as Hd0 by apply dirty_init.
  rewrite (dirty_drain_crash m _ img (Hdirty Hnf Hd0)
    (wf_memmove_generic m dst src len flags s ltac:(done)) Hc).
  intros x. rewrite Hm, write_read_pt. destruct Hd as (? & ? & ?). simpl. pt.
Qed.

(** memset_nodrain_generic fills exactly the given range with the byte
    (unsigned char)c, and with flushing enabled leaves no store pending. *)
Theorem memset_generic_refines (dst c len flags : Z) (s : pmst) :
  0 <= len ->
  vis (memset_nodrain_generic dst c len flags s) ≡ vis (memset_nodrain dst c len flags s) /\
  (flag_isset flags PMEM_F_MEM_NOFLUSH = false -> dirty_in 0 0 s ->
   dirty_in 0 0 (memset_nodrain_generic dst c len flags s)).
Proof.
  intros Hl. destruct (memset_spec (vis s) dst c len flags Hl s ltac:(done)) as [Hm Hd].
  split; [|exact Hd]. intros x. rewrite Hm. unfold memset_nodrain, store_nodrain. rewrite chunk_flags.
  simpl. rewrite write_replicate_pt. pt.
Qed.

(** ** Instances *)

Lemma memmove_generic_refines_witness :
  let s := PMst byte_of_Z [] false in
  vis (memmove_nodrain_generic 20 9 100 PMEM_F_MEM_NODRAIN s) ≡
  vis (memmove_nodrain 20 9 100 PMEM_F_MEM_NODRAIN s).
Proof. apply (memmove_generic_refines 20 9 100); unfold valid_range; lia. Defined.

Lemma memmove_generic_durable_witness :
  let m : mem := byte_of_Z in
  let img := replay m (trace (pmem_drain (memmove_nodrain_generic 20 9 100 0 (PMst m [] false)))) in
  img ≡ write_bytes m 20 (read_bytes m 9 (Z.to_nat 100)).
Proof.
  apply (memmove_generic_durable 20 9 100 0);
    [unfold valid_range; lia..|reflexivity|apply crash_image_all].
Defined.

Lemma memset_generic_refines_witness :
  let s := PMst byte_of_Z [] false in
  vis (memset_nodrain_generic 20 300 100 0 s) ≡ vis (memset_nodrain 20 300 100 0 s) /\
  (flag_isset 0 PMEM_F_MEM_NOFLUSH = false -> dirty_in 0 0 s ->
   dirty_in 0 0 (memset_nodrain_generic 20 300 100 0 s)).
Proof. apply (memset_generic_refines 20 300 100); lia. Defined.
