(* ===== verification/Checksum.v ===== *)
(** * Fletcher64 checksums (common/util.c)

    [util_checksum_compute] treats the 8 bytes of the checksum field as zero and
    everything from [skip_off] on as zero; [util_checksum_seq] continues a
    checksum over a further buffer.  An unaligned length aborts the program
    ([None]).  The lemmas relate both to one fold over the 32-bit words. *)
From stdpp Require Import base numbers list list_numbers.
From Stdlib Require Import ZArith Lia Bool.
From S2P Require Import Prelude Pmem.

Definition csum_join (hi lo : Z) : Z := Z.lor (Z.shiftl hi 32) lo.

(** The loop of util_checksum_compute; [len / 4] iterations are enough. *)
Fixpoint csum_loop (fuel : nat) (m : mem) (p32 p32end csump skip lo hi : Z) : Z :=
  match fuel with
  | O => csum_join hi lo
  | S k =>
      if p32 <? p32end then
        if (p32 =? csump) || (skip <=? p32) then
          let hi := u32 (hi + lo) in
          csum_loop k m (p32 + 8) p32end csump skip lo (u32 (hi + lo))
        else
          let lo := u32 (lo + load32 m p32) in
          csum_loop k m (p32 + 4) p32end csump skip lo (u32 (hi + lo))
      else csum_join hi lo
  end.

Definition util_checksum_compute (m : mem) (addr len csump skip_off : Z) : option Z :=
  if len mod 4 =? 0 then
    let skip := if skip_off =? 0 then addr + len else addr + skip_off in
    Some (csum_loop (Z.to_nat (len / 4)) m addr (addr + len) csump skip 0 0)
  else None.

(** [insert]: the checksum is stored; otherwise compared. *)
Definition util_checksum_insert (addr len csump skip_off : Z) (s : pmst) : option pmst :=
  match util_checksum_compute (vis s) addr len csump skip_off with
  | Some csum => Some (st_store64 csump csum s)
  | None => None
  end.
Definition util_checksum_verify (m : mem) (addr len csump skip_off : Z) : option bool :=
  match util_checksum_compute m addr len csump skip_off with
  | Some csum => Some (load64 m csump =? csum)
  | None => None
  end.

Fixpoint csum_seq_loop (n : nat) (m : mem) (p32 lo hi : Z) : Z :=
  match n with
  | O => csum_join hi lo
  | S k =>
      let lo := u32 (lo + load32 m p32) in
      csum_seq_loop k m (p32 + 4) lo (u32 (hi + lo))
  end.

Definition util_checksum_seq (m : mem) (addr len csum : Z) : option Z :=
  if len mod 4 =? 0 then
    Some (csum_seq_loop (Z.to_nat (len / 4)) m addr (u32 csum) (u32 (Z.shiftr csum 32)))
  else None.

(** util_is_zeroed: the first byte is zero and every byte equals its successor. *)
Definition util_is_zeroed (m : mem) (addr len : Z) : Z :=
  if len =? 0 then 1 else
  if (byte_to_Z (m addr) =? 0) &&
     bool_decide (read_bytes m addr (Z.to_nat (len - 1)) =
                  read_bytes m (addr + 1) (Z.to_nat (len - 1)))
  then 1 else 0.

(** ** The fold behind both loops *)

Definition fl_step (p : Z * Z) (w : Z) : Z * Z :=
  let lo := u32 (p.1 + w) in (lo, u32 (p.2 + lo)).
Definition fl (p : Z * Z) (ws : list Z) : Z * Z := foldl fl_step p ws.
Definition words (m : mem) (a : Z) (n : nat) : list Z :=
  map (fun i => load32 m (a + 4 * Z.of_nat i)) (seq 0 n).

Lemma words_S m a n : words m a (S n) = load32 m a :: words m (a + 4) n.
Proof.
  unfold words. simpl. f_equal; [f_equal; lia|].
  rewrite <- seq_shift, map_map. apply map_ext. intros i. f_equal. lia.
Qed.

Lemma words_app m a n1 n2 :
  words m a (n1 + n2) = words m a n1 ++ words m (a + 4 * Z.of_nat n1) n2.
Proof.
  revert a. induction n1 as [|n1 IH]; intros a; simpl Nat.add.
  - simpl. f_equal. lia.
  - rewrite !words_S, IH. simpl. do 3 f_equal. lia.
Qed.

Lemma words_eq m1 m2 a n :
  agree m1 m2 a (4 * Z.of_nat n) -> words m1 a n = words m2 a n.
Proof.
  intros H. apply map_ext_in. intros i Hi. apply in_seq in Hi. unfold load32. f_equal.
  eapply read_bytes_agree; [exact H|lia..].
Qed.

Lemma csum_seq_loop_fl n m p lo hi :
  csum_seq_loop n m p lo hi = let '(lo, hi) := fl (lo, hi) (words m p n) in csum_join hi lo.
Proof.
  revert p lo hi. induction n as [|n IH]; intros p lo hi; [done|].
  cbn [csum_seq_loop]. rewrite IH, words_S. done.
Qed.

(** Words that are not the checksum field. *)
Lemma csum_loop_run n fuel m p e c skip lo hi :
  p + 4 * Z.of_nat n <= e -> e <= skip ->
  c mod 4 = p mod 4 -> (c < p \/ p + 4 * Z.of_nat n <= c) ->
  csum_loop (n + fuel) m p e c skip lo hi =
  let '(lo, hi) := fl (lo, hi) (words m p n) in
  csum_loop fuel m (p + 4 * Z.of_nat n) e c skip lo hi.
Proof.
  revert p lo hi. induction n as [|n IH]; intros p lo hi H1 H2 H3 H4.
  - simpl. f_equal. lia.
  - rewrite Nat2Z.inj_succ in *. cbn [csum_loop Nat.add].
    destruct (Z.ltb_spec p e); [|lia]. destruct (Z.eqb_spec p c); [lia|].
    destruct (Z.leb_spec skip p); [lia|]. cbn [orb].
    rewrite IH; [|lia|lia| |].
    + rewrite words_S. simpl fl. unfold fl at 1, fl. cbn [foldl fl_step fst snd].
      destruct (foldl _ _ _). f_equal. lia.
    + rewrite H3. rewrite Z.add_mod, Z.mod_same, Z.add_0_r, Z.mod_mod by lia. done.
    + destruct H4; [lia|].
      right. lia.
Qed.

Lemma csum_loop_end fuel m p c skip lo hi :
  csum_loop fuel m p p c skip lo hi = csum_join hi lo.
Proof. destruct fuel; [done|]. cbn [csum_loop]. rewrite Z.ltb_irrefl. done. Qed.

Lemma csum_loop_field k m c e skip lo hi :
  c < e ->
  csum_loop (S k) m c e c skip lo hi =
  csum_loop k m (c + 8) e c skip lo (u32 (u32 (hi + lo) + lo)).
Proof.
  intros H. cbn [csum_loop]. destruct (Z.ltb_spec c e); [|lia].
  rewrite Z.eqb_refl. done.
Qed.

Definition zero_field (m : mem) (c : Z) : mem := write_bytes m c (replicate 8 Byte.x00).

Lemma load32_zero_field m c i : i = 0 \/ i = 4 -> load32 (zero_field m c) (c + i) = 0.
Proof.
  intros Hi. unfold load32, zero_field.
  rewrite read_write_sub; [|lia|rewrite length_replicate; lia].
  destruct Hi as [-> | ->].
  - replace (Z.to_nat (c + 0 - c)) with 0%nat by lia. done.
  - replace (Z.to_nat (c + 4 - c)) with 4%nat by lia. done.
Qed.

Definition fl_ok (p : Z * Z) : Prop := 0 <= p.1 < 2 ^ 32 /\ 0 <= p.2 < 2 ^ 32.

Lemma fl_step_ok p w : fl_ok (fl_step p w).
Proof. split; apply u32_range. Qed.

Lemma fl_range p ws : fl_ok p -> fl_ok (fl p ws).
Proof.
  revert p. induction ws as [|w ws IH]; intros p Hp; [done|]. apply IH, fl_step_ok.
Qed.

Lemma fl_step_zero p : fl_ok p -> fl_step p 0 = (p.1, u32 (p.2 + p.1)).
Proof. intros [H1 H2]. unfold fl_step. rewrite Z.add_0_r, u32_small by lia. done. Qed.

(** The loop of util_checksum_compute with [skip] at the end, split at the
    checksum field. *)
Lemma csum_loop_hole m addr n1 n2 :
  let c := addr + 4 * Z.of_nat n1 in
  let e := addr + 4 * Z.of_nat (n1 + (2 + n2)) in
  csum_loop (n1 + (2 + n2)) m addr e c e 0 0 =
  let '(lo, hi) := fl (0, 0) (words (zero_field m c) addr (n1 + (2 + n2))) in csum_join hi lo.
Proof.
  intros c e. assert (c = addr + 4 * Z.of_nat n1) as Hc by done.
  assert (e = addr + 4 * Z.of_nat (n1 + (2 + n2))) as He by done. clearbody c e.
  assert (c mod 4 = addr mod 4) as Hm by (rewrite Hc, Z.mul_comm, Z.mod_add by lia; done).
  rewrite csum_loop_run; [|lia|lia|exact Hm|lia].
  rewrite words_app. unfold fl at 2. rewrite foldl_app. fold (fl (0, 0)). fold fl.
  rewrite (words_eq (zero_field m c) m addr n1)
    by (apply agree_write_out; rewrite length_replicate; lia).
  pose proof (fl_range (0, 0) (words m addr n1) ltac:(split; simpl; lia)) as Hok.
  change (foldl fl_step (0, 0) (words m addr n1)) with (fl (0, 0) (words m addr n1)).
  destruct (fl (0, 0) (words m addr n1)) as [lo hi]. rewrite <- Hc.
  change (2 + n2)%nat with (S (S n2)).
  rewrite csum_loop_field by lia.
  rewrite !words_S. pose proof (load32_zero_field m c 0) as Z0. rewrite Z.add_0_r in Z0.
  rewrite Z0, (load32_zero_field m c 4) by lia. cbn [foldl].
  rewrite (fl_step_zero (lo, hi) Hok). cbn [fst snd].
  rewrite fl_step_zero by (destruct Hok; split; [done|apply u32_range]). cbn [fst snd].
  replace (S n2) with (n2 + 1)%nat by lia. rewrite csum_loop_run; [|lia|lia| |lia].
  - replace (c + 4 + 4) with (c + 8) by lia.
    rewrite (words_eq (zero_field m c) m (c + 8) n2)
      by (apply agree_write_out; rewrite length_replicate; lia).
    unfold fl. destruct (foldl _ _ _).
    replace (c + 8 + 4 * Z.of_nat n2) with e by lia. apply csum_loop_end.
  - replace (c + 8) with (c + 2 * 4) by lia. rewrite Z.mod_add by lia. done.
Qed.

(** The checksum of a range is the sequential checksum of the range with its
    checksum field zeroed. *)
Lemma checksum_compute_seq m addr len c :
  0 <= len -> len mod 4 = 0 -> (c - addr) mod 4 = 0 -> addr <= c -> c + 8 <= addr + len ->
  util_checksum_compute m addr len c 0 = util_checksum_seq (zero_field m c) addr len 0.
Proof.
  intros Hl Hl4 Hc4 H1 H2. unfold util_checksum_compute, util_checksum_seq.
  destruct (Z.eqb_spec (len mod 4) 0); [|lia]. f_equal. cbn [Z.eqb].
  rewrite csum_seq_loop_fl.
  pose proof (Z.div_mod (c - addr) 4 ltac:(lia)) as E1.
  pose proof (Z.div_mod len 4 ltac:(lia)) as E2.
  set (n1 := Z.to_nat ((c - addr) / 4)).
  set (n2 := (Z.to_nat (len / 4) - n1 - 2)%nat).
  replace (Z.to_nat (len / 4)) with (n1 + (2 + n2))%nat by lia.
  replace c with (addr + 4 * Z.of_nat n1) by lia.
  replace (addr + len) with (addr + 4 * Z.of_nat (n1 + (2 + n2))) by lia.
  rewrite csum_loop_hole. done.
Qed.

Lemma csum_join_parts hi lo :
  0 <= lo < 2 ^ 32 -> 0 <= hi < 2 ^ 32 ->
  u32 (csum_join hi lo) = lo /\ u32 (Z.shiftr (csum_join hi lo) 32) = hi /\
  0 <= csum_join hi lo < 2 ^ 64.
Proof.
  intros Hlo Hhi.
  assert (csum_join hi lo = hi * 2 ^ 32 + lo) as ->.
  { unfold csum_join. rewrite Z.shiftl_mul_pow2 by lia.
    pose proof (Z.add_lor_land (hi * 2 ^ 32) lo) as E.
    replace (Z.land (hi * 2 ^ 32) lo) with 0 in E; [lia|]. clear E.
    symmetry. apply Z.bits_inj'. intros i Hi. rewrite Z.land_spec, Z.testbit_0_l.
    destruct (Z.lt_ge_cases i 32); [rewrite Z.mul_pow2_bits_low by lia; done|].
    rewrite <- (Z.mod_small lo (2 ^ 32)) by lia. rewrite Z.mod_pow2_bits_high by lia.
    apply andb_false_r. }
  split; [|split].
  - unfold u32. rewrite Z.add_comm, Z.mod_add, Z.mod_small by lia. done.
  - rewrite Z.shiftr_div_pow2 by lia. rewrite Z.add_comm, Z.div_add by lia.
    rewrite Z.div_small by lia. apply u32_small. lia.
  - lia.
Qed.

(** Continuing a checksum over an adjacent buffer is checksumming both at once. *)
Lemma checksum_seq_app m addr n1 n2 csum :
  0 <= n1 -> 0 <= n2 -> n1 mod 4 = 0 -> n2 mod 4 = 0 ->
  util_checksum_seq m addr (n1 + n2) csum =
  match util_checksum_seq m addr n1 csum with
  | Some c => util_checksum_seq m (addr + n1) n2 c
  | None => None
  end.
Proof.
  intros H1 H2 H3 H4. unfold util_checksum_seq.
  pose proof (Z.div_mod n1 4 ltac:(lia)). pose proof (Z.div_mod n2 4 ltac:(lia)).
  replace ((n1 + n2) mod 4) with 0
    by (rewrite Z.add_mod, H3, H4 by lia; done).
  rewrite H3, H4. cbn [Z.eqb]. f_equal. rewrite !csum_seq_loop_fl.
  replace (Z.to_nat ((n1 + n2) / 4)) with (Z.to_nat (n1 / 4) + Z.to_nat (n2 / 4))%nat.
  2: { replace (n1 + n2) with ((n1 / 4 + n2 / 4) * 4) by lia. rewrite Z.div_mul by lia. lia. }
  rewrite words_app. unfold fl. rewrite foldl_app.
  pose proof (fl_range (u32 csum, u32 (Z.shiftr csum 32)) (words m addr (Z.to_nat (n1 / 4)))
    ltac:(split; apply u32_range)) as Hok.
  unfold fl in Hok. destruct (foldl fl_step _ (words m addr _)) as [lo hi].
  destruct (csum_join_parts hi lo) as (-> & -> & _); [apply Hok..|].
  replace (addr + 4 * Z.of_nat (Z.to_nat (n1 / 4))) with (addr + n1) by lia. done.
Qed.

Lemma checksum_seq_ext m1 m2 a1 a2 len csum :
  0 <= len -> (forall i, 0 <= i < len -> m1 (a1 + i) = m2 (a2 + i)) ->
  util_checksum_seq m1 a1 len csum = util_checksum_seq m2 a2 len csum.
Proof.
  intros Hl H. unfold util_checksum_seq. destruct (Z.eqb_spec (len mod 4) 0); [|done].
  f_equal. rewrite !csum_seq_loop_fl.
  replace (words m1 a1 (Z.to_nat (len / 4))) with (words m2 a2 (Z.to_nat (len / 4))); [done|].
  apply map_ext_in. intros i Hi. apply in_seq in Hi. unfold load32. f_equal.
  pose proof (Z.div_mod len 4 ltac:(lia)).
  apply read_bytes_eq. intros j Hj. rewrite <- !Z.add_assoc. symmetry. apply H. lia.
Qed.

Lemma checksum_seq_some m a len csum :
  len mod 4 = 0 -> exists v, util_checksum_seq m a len csum = Some v /\ 0 <= v < 2 ^ 64.
Proof.
  intros H. unfold util_checksum_seq. rewrite H. cbn [Z.eqb]. eexists. split; [done|].
  rewrite csum_seq_loop_fl.
  pose proof (fl_range (u32 csum, u32 (Z.shiftr csum 32)) (words m a (Z.to_nat (len / 4)))
    ltac:(split; apply u32_range)) as Hok.
  destruct (fl _ _) as [lo hi]. destruct Hok. apply csum_join_parts; done.
Qed.

Lemma checksum_seq_range m a len csum v :
  util_checksum_seq m a len csum = Some v -> 0 <= v < 2 ^ 64.
Proof.
  intros H. destruct (Z.eqb_spec (len mod 4) 0) as [E|E].
  - destruct (checksum_seq_some m a len csum E) as (v' & Hv & Hr). rewrite H in Hv. by injection Hv as ->.
  - unfold util_checksum_seq in H. rewrite (proj2 (Z.eqb_neq _ _) E) in H. done.
Qed.

(** Storing the computed checksum makes the range verify, and a range that does
    not change keeps verifying. *)
Lemma checksum_insert_verify addr len c s s' :
  0 <= len -> len mod 4 = 0 -> (c - addr) mod 4 = 0 -> addr <= c -> c + 8 <= addr + len ->
  util_checksum_insert addr len c 0 s = Some s' ->
  util_checksum_verify (vis s') addr len c 0 = Some true.
Proof.
  intros Hl Hl4 Hc4 H1 H2 Hs'. unfold util_checksum_insert, util_checksum_verify in *.
  rewrite checksum_compute_seq in * by done.
  destruct (checksum_seq_some (zero_field (vis s) c) addr len 0 Hl4) as (v & Hv & Hr).
  rewrite Hv in Hs'. injection Hs' as <-. cbn [vis st_store64 st_store].
  rewrite (checksum_seq_ext _ (zero_field (vis s) c) addr addr), Hv by (lia ||
    (intros i Hi; unfold zero_field, write_bytes; rewrite length_le64, length_replicate;
     destruct (Z.leb_spec c (addr + i)), (Z.ltb_spec (addr + i) (c + Z.of_nat 8)); done)).
  rewrite load64_write_same, u64_small, Z.eqb_refl by done. done.
Qed.

(** Nothing to add: the checksum is passed through. *)
Lemma checksum_seq_0 m a c : 0 <= c < 2 ^ 64 -> util_checksum_seq m a 0 c = Some c.
Proof.
  intros Hc. unfold util_checksum_seq. cbn [Z.modulo Z.eqb Z.to_nat csum_seq_loop]. f_equal.
  assert (0 <= c / 2 ^ 32 < 2 ^ 32) as Hh.
  { split; [apply Z.div_pos; lia|]. apply Z.div_lt_upper_bound; lia. }
  rewrite Z.shiftr_div_pow2 by lia. rewrite (u32_small (c / 2 ^ 32)) by done.
  change (Z.to_nat (0 / 4)) with 0%nat. cbn [csum_seq_loop]. unfold csum_join, u32.
  rewrite Z.shiftl_mul_pow2 by lia.
  pose proof (Z.div_mod c (2 ^ 32) ltac:(lia)) as Hd.
  pose proof (Z.mod_pos_bound c (2 ^ 32) ltac:(lia)) as Hm.
  pose proof (csum_join_parts (c / 2 ^ 32) (c mod 2 ^ 32) Hm Hh) as (E1 & E2 & E3).
  unfold csum_join in *. rewrite Z.shiftl_mul_pow2 in * by lia.
  set (j := Z.lor (c / 2 ^ 32 * 2 ^ 32) (c mod 2 ^ 32)) in *.
  rewrite Z.shiftr_div_pow2 in E2 by lia. unfold u32 in E1, E2.
  pose proof (Z.div_mod j (2 ^ 32) ltac:(lia)).
  rewrite (Z.mod_small (j / 2 ^ 32)) in E2
    by (split; [apply Z.div_pos; lia|apply Z.div_lt_upper_bound; lia]).
  lia.
Qed.
