(* ===== verification/Ulog.v ===== *)
(** * The unified log (libpmemobj/ulog.h, ulog.c)

    A ulog is a 64-byte header followed by its entries: value entries (SET, AND,
    OR of one 64-bit word) and buffer entries (BUF_SET, BUF_CPY of a byte range,
    each with a checksum that also covers the generation number of the log).
    Logs form a chain through the [next] field, an offset from the pool base.
    All functions work on the memory of Pmem; pointers are addresses and NULL
    is 0.  Loops over data found in memory take a fuel argument ([None]: out of
    fuel, or the abort of util_checksum on an unaligned length); UlogFacts shows
    how much fuel is enough.  The allocator callbacks ([extend], [ulog_free],
    [user_buff_remove]) are arguments, as they are in the code; [W] is the state
    they keep outside the memory (the pool object). *)
From stdpp Require Import base numbers list list_numbers.
From Stdlib Require Import ZArith Lia Bool.
From S2P Require Import Prelude Pmem Checksum.

(** ** Layout *)

Definition SIZEOF_ULOG_HDR : Z := 64.
Definition SIZEOF_ULOG (base_capacity : Z) : Z := SIZEOF_ULOG_HDR + base_capacity.

Definition ulog_checksum_addr (u : Z) : Z := u.
Definition ulog_next_addr (u : Z) : Z := u + 8.
Definition ulog_capacity_addr (u : Z) : Z := u + 16.
Definition ulog_gen_num_addr (u : Z) : Z := u + 24.
Definition ulog_flags_addr (u : Z) : Z := u + 32.
Definition ulog_unused_addr (u : Z) : Z := u + 40.
Definition ulog_data (u : Z) : Z := u + SIZEOF_ULOG_HDR.

Definition sizeof_entry_base : Z := 8.
Definition sizeof_entry_val : Z := 16.
Definition sizeof_entry_buf : Z := 24.
Definition entry_value_addr (e : Z) : Z := e + 8.
Definition entry_checksum_addr (e : Z) : Z := e + 8.
Definition entry_size_addr (e : Z) : Z := e + 16.
Definition entry_data (e : Z) : Z := e + sizeof_entry_buf.

Definition ULOG_USER_OWNED : Z := Z.shiftl 1 0.
Definition ULOG_FREE_AFTER_FIRST : Z := Z.shiftl 1 0.
Definition ULOG_INC_FIRST_GEN_NUM : Z := Z.shiftl 1 1.
Definition ULOG_ANY_USER_BUFFER : Z := Z.shiftl 1 2.

Definition ULOG_OPERATION_SET : Z := Z.shiftl 0 61.
Definition ULOG_OPERATION_AND : Z := Z.shiftl 1 61.
Definition ULOG_OPERATION_OR : Z := Z.shiftl 2 61.
Definition ULOG_OPERATION_BUF_SET : Z := Z.shiftl 5 61.
Definition ULOG_OPERATION_BUF_CPY : Z := Z.shiftl 6 61.
Definition ULOG_OPERATION_MASK : Z := Z.shiftl 7 61.
Definition ULOG_OFFSET_MASK : Z := u64 (Z.lnot ULOG_OPERATION_MASK).

Definition CACHELINE_ALIGN (size : Z) : Z := ALIGN_UP size CACHELINE_SIZE.

(** A local buffer, as a memory of its own that starts at address 0. *)
Definition buf_mem (bs : list byte) : mem := write_bytes (fun _ => Byte.x00) 0 bs.

(** ** Pointers and entries *)

Definition ulog_by_offset (offset : Z) (p_ops : pmem_ops) : Z :=
  if offset =? 0 then 0 else base p_ops + CACHELINE_ALIGN offset.

Definition ulog_next (m : mem) (u : Z) (p_ops : pmem_ops) : Z :=
  ulog_by_offset (load64 m (ulog_next_addr u)) p_ops.

Definition ulog_entry_type (m : mem) (e : Z) : Z := Z.land (load64 m e) ULOG_OPERATION_MASK.
Definition ulog_entry_offset (m : mem) (e : Z) : Z := Z.land (load64 m e) ULOG_OFFSET_MASK.

Inductive entry_kind := KVal | KBuf | KUnknown.

(** The cases of the switches on the operation type. *)
Definition kind_of_type (t : Z) : entry_kind :=
  if (t =? ULOG_OPERATION_AND) || (t =? ULOG_OPERATION_OR) || (t =? ULOG_OPERATION_SET)
  then KVal
  else if (t =? ULOG_OPERATION_BUF_SET) || (t =? ULOG_OPERATION_BUF_CPY) then KBuf
  else KUnknown.

Definition ulog_entry_size (m : mem) (e : Z) : Z :=
  match kind_of_type (ulog_entry_type m e) with
  | KVal => sizeof_entry_val
  | KBuf => CACHELINE_ALIGN (u64 (sizeof_entry_buf + load64 m (entry_size_addr e)))
  | KUnknown => 0
  end.

Definition ulog_entry_valid (m : mem) (ulog e : Z) : option bool :=
  if load64 m e =? 0 then Some false else
  match kind_of_type (ulog_entry_type m e) with
  | KBuf =>
      match util_checksum_compute m e (ulog_entry_size m e) (entry_checksum_addr e) 0 with
      | Some csum =>
          match util_checksum_seq m (ulog_gen_num_addr ulog) 8 csum with
          | Some csum => Some (load64 m (entry_checksum_addr e) =? csum)
          | None => None
          end
      | None => None
      end
  | _ => Some true
  end.

Definition ulog_construct (offset capacity gen_num : Z) (flush : bool) (flags : Z)
    (p_ops : pmem_ops) (s : pmst) : pmst :=
  let ulog := ulog_by_offset offset p_ops in
  let s := st_store64 (ulog_capacity_addr ulog) capacity s in
  let s := st_store64 (ulog_checksum_addr ulog) 0 s in
  let s := st_store64 (ulog_next_addr ulog) 0 s in
  let s := st_store64 (ulog_gen_num_addr ulog) gen_num s in
  let s := st_store64 (ulog_flags_addr ulog) flags s in
  let s := st_store (ulog_unused_addr ulog) (replicate 24 Byte.x00) s in
  let zeroed_data := CACHELINE_ALIGN sizeof_entry_base in
  if flush then
    let s := pmemops_flush p_ops ulog SIZEOF_ULOG_HDR s in
    pmemops_memset p_ops (ulog_data ulog) 0 zeroed_data
      (Z.lor PMEM_F_MEM_NONTEMPORAL (Z.lor PMEM_F_MEM_NODRAIN PMEMOBJ_F_RELAXED)) s
  else st_store (ulog_data ulog) (replicate (Z.to_nat zeroed_data) Byte.x00) s.

(** ** Iteration *)

(** The two nested loops of ulog_foreach_entry; the callback gets the entry's
    address.  [ulog] is the first log (its generation number validates the
    entries of the whole chain), [r] the current one. *)
Fixpoint ulog_foreach_from (fuel : nat) (ulog r offset : Z) (cb : Z -> pmst -> Z * pmst)
    (ret : Z) (p_ops : pmem_ops) (s : pmst) : option (Z * pmst) :=
  match fuel with
  | O => None
  | S k =>
      if offset <? load64 (vis s) (ulog_capacity_addr r) then
        let e := ulog_data r + offset in
        match ulog_entry_valid (vis s) ulog e with
        | None => None
        | Some false => Some (ret, s)
        | Some true =>
            let '(ret, s) := cb e s in
            if ret =? 0 then
              ulog_foreach_from k ulog r (u64 (offset + ulog_entry_size (vis s) e)) cb ret p_ops s
            else Some (ret, s)
        end
      else
        let r := ulog_next (vis s) r p_ops in
        if r =? 0 then Some (ret, s) else ulog_foreach_from k ulog r 0 cb ret p_ops s
  end.

Definition ulog_foreach_entry (fuel : nat) (ulog : Z) (cb : Z -> pmst -> Z * pmst)
    (p_ops : pmem_ops) (s : pmst) : option (Z * pmst) :=
  if ulog =? 0 then Some (0, s) else ulog_foreach_from fuel ulog ulog 0 cb 0 p_ops s.

Fixpoint ulog_capacity_from (fuel : nat) (m : mem) (ulog capacity : Z) (p_ops : pmem_ops)
    : option Z :=
  match fuel with
  | O => None
  | S k =>
      let ulog := ulog_next m ulog p_ops in
      if ulog =? 0 then Some capacity
      else ulog_capacity_from k m ulog (u64 (capacity + load64 m (ulog_capacity_addr ulog))) p_ops
  end.

Definition ulog_capacity (fuel : nat) (m : mem) (ulog ulog_base_bytes : Z) (p_ops : pmem_ops)
    : option Z :=
  ulog_capacity_from fuel m ulog ulog_base_bytes p_ops.

Fixpoint ulog_rebuild_next_vec (fuel : nat) (m : mem) (ulog : Z) (next : list Z)
    (p_ops : pmem_ops) : option (list Z) :=
  match fuel with
  | O => None
  | S k =>
      let n := load64 m (ulog_next_addr ulog) in
      let next := if n =? 0 then next else next ++ [n] in
      let ulog := ulog_next m ulog p_ops in
      if ulog =? 0 then Some next else ulog_rebuild_next_vec k m ulog next p_ops
  end.

(** ** Reservation *)

Fixpoint ulog_reserve_existing (m : mem) (next : list Z) (ulog capacity : Z)
    (p_ops : pmem_ops) : Z * Z :=
  match next with
  | [] => (ulog, capacity)
  | offset :: t =>
      let ulog := ulog_by_offset offset p_ops in
      ulog_reserve_existing m t ulog (u64 (capacity + load64 m (ulog_capacity_addr ulog))) p_ops
  end.

Fixpoint ulog_reserve_extend {W} (fuel : nat) (ulog capacity new_capacity gen_num : Z)
    (extend : Z -> Z -> W * pmst -> Z * (W * pmst)) (next : list Z) (p_ops : pmem_ops)
    (ws : W * pmst) : option (Z * Z * list Z * (W * pmst)) :=
  match fuel with
  | O => None
  | S k =>
      if capacity <? new_capacity then
        let '(ret, ws) := extend (ulog_next_addr ulog) gen_num ws in
        if ret =? 0 then
          let m := vis ws.2 in
          let next := next ++ [load64 m (ulog_next_addr ulog)] in
          let ulog := ulog_next m ulog p_ops in
          ulog_reserve_extend k ulog (u64 (capacity + load64 m (ulog_capacity_addr ulog)))
            new_capacity gen_num extend next p_ops ws
        else Some (-1, new_capacity, next, ws)
      else Some (0, capacity, next, ws)
  end.

(** Returns the code, the new value of [*new_capacity], the vector and the state. *)
Definition ulog_reserve {W} (fuel : nat)
    (ulog ulog_base_nbytes gen_num auto_reserve new_capacity : Z)
    (extend : Z -> Z -> W * pmst -> Z * (W * pmst)) (next : list Z) (p_ops : pmem_ops)
    (ws : W * pmst) : option (Z * Z * list Z * (W * pmst)) :=
  if auto_reserve =? 0 then Some (-1, new_capacity, next, ws) else
  let '(ulog, capacity) := ulog_reserve_existing (vis ws.2) next ulog ulog_base_nbytes p_ops in
  ulog_reserve_extend fuel ulog capacity new_capacity gen_num extend next p_ops ws.

(** ** Storing *)

Definition ulog_checksum_insert (ulog ulog_base_bytes : Z) (s : pmst) : option pmst :=
  util_checksum_insert ulog (SIZEOF_ULOG ulog_base_bytes) (ulog_checksum_addr ulog) 0 s.
Definition ulog_checksum_verify (m : mem) (ulog ulog_base_bytes : Z) : option bool :=
  util_checksum_verify m ulog (SIZEOF_ULOG ulog_base_bytes) (ulog_checksum_addr ulog) 0.

(** The loop over the next logs: returns the number of logs used.  Running past
    the vector is an out-of-bounds read. *)
Fixpoint ulog_store_next (next : list Z) (src offset next_nbytes : Z) (nlog : nat)
    (p_ops : pmem_ops) (s : pmst) : option (nat * pmst) :=
  if 0 <? next_nbytes then
    match next with
    | [] => None
    | off :: t =>
        let ulog := ulog_by_offset off p_ops in
        let copy_nbytes := Z.min next_nbytes (load64 (vis s) (ulog_capacity_addr ulog)) in
        let s := pmemops_memcpy p_ops (ulog_data ulog) (ulog_data src + offset) copy_nbytes
          (Z.lor PMEM_F_MEM_WC (Z.lor PMEM_F_MEM_NODRAIN PMEMOBJ_F_RELAXED)) s in
        ulog_store_next t src (offset + copy_nbytes) (next_nbytes - copy_nbytes) (S nlog) p_ops s
    end
  else Some (nlog, s).

Definition vec_front_or_0 (next : list Z) : Z := match next with [] => 0 | x :: _ => x end.

Definition ulog_store (dest src nbytes ulog_base_nbytes ulog_total_capacity : Z)
    (next : list Z) (p_ops : pmem_ops) (s : pmst) : option pmst :=
  let offset := ulog_base_nbytes in
  let checksum_nbytes := Z.min ulog_base_nbytes nbytes in
  let nbytes :=
    if nbytes =? ulog_total_capacity then nbytes
    else CACHELINE_ALIGN (u64 (nbytes + sizeof_entry_base)) in
  let base_nbytes := Z.min ulog_base_nbytes nbytes in
  let next_nbytes := nbytes - base_nbytes in
  match ulog_store_next next src offset next_nbytes 0 p_ops s with
  | None => None
  | Some (nlog, s) =>
      let s := if (nlog =? 0)%nat then s else pmemops_drain p_ops s in
      let old_capacity := load64 (vis s) (ulog_capacity_addr src) in
      let s := st_store64 (ulog_capacity_addr src) base_nbytes s in
      let s := st_store64 (ulog_next_addr src) (vec_front_or_0 next) s in
      match ulog_checksum_insert src checksum_nbytes s with
      | None => None
      | Some s =>
          let s := pmemops_memcpy p_ops dest src (SIZEOF_ULOG base_nbytes) PMEM_F_MEM_WC s in
          Some (st_store64 (ulog_capacity_addr src) old_capacity s)
      end
  end.

(** ** Entry creation *)

Definition entry_offset_word (dest type : Z) (p_ops : pmem_ops) : Z :=
  Z.lor (u64 (dest - base p_ops)) type.

Definition ulog_entry_val_create (ulog offset dest value type : Z) (p_ops : pmem_ops)
    (s : pmst) : Z * pmst :=
  let e := ulog_data ulog + offset in
  let data := le64 (entry_offset_word dest type p_ops) ++ le64 value ++ le64 0 in
  (e, pmemops_memcpy_from p_ops e data (Z.lor PMEM_F_MEM_NOFLUSH PMEMOBJ_F_RELAXED) s).

Definition ulog_clobber_entry (e : Z) (p_ops : pmem_ops) (s : pmst) : pmst :=
  pmemops_memset p_ops e 0 (CACHELINE_ALIGN sizeof_entry_base) PMEM_F_MEM_NONTEMPORAL s.

(** The stack copy [b] of the first cacheline of a buffer entry. *)
Definition entry_first_line (offset_word csum size : Z) (data : list byte) : list byte :=
  le64 offset_word ++ le64 csum ++ le64 size ++ data.

Definition ulog_entry_buf_create (ulog offset gen_num dest src size type : Z)
    (p_ops : pmem_ops) (s : pmst) : option (Z * pmst) :=
  let e := ulog_data ulog + offset in
  let word := entry_offset_word dest type p_ops in
  let bdatasize := CACHELINE_SIZE - sizeof_entry_buf in
  let ncopy := Z.min size bdatasize in
  let bdata := read_bytes (vis s) src (Z.to_nat ncopy) ++
               replicate (Z.to_nat (bdatasize - ncopy)) Byte.x00 in
  let remaining_size := if size <? ncopy then 0 else size - ncopy in
  let srcof := src + ncopy in
  let rcopy := ALIGN_DOWN remaining_size CACHELINE_SIZE in
  let lcopy := remaining_size - rcopy in
  let last_cacheline := read_bytes (vis s) (srcof + rcopy) (Z.to_nat lcopy) ++
                        replicate (Z.to_nat (CACHELINE_SIZE - lcopy)) Byte.x00 in
  let flags := Z.lor PMEM_F_MEM_NODRAIN PMEM_F_MEM_NONTEMPORAL in
  let s := if rcopy =? 0 then s
           else pmemops_memcpy p_ops (entry_data e + ncopy) srcof rcopy flags s in
  let s := if lcopy =? 0 then s
           else pmemops_memcpy_from p_ops (entry_data e + ncopy + rcopy) last_cacheline flags s in
  csum ← util_checksum_seq (buf_mem (entry_first_line word 0 size bdata)) 0 CACHELINE_SIZE 0;
  csum ← (if rcopy =? 0 then Some csum else util_checksum_seq (vis s) srcof rcopy csum);
  csum ← (if lcopy =? 0 then Some csum
          else util_checksum_seq (buf_mem last_cacheline) 0 CACHELINE_SIZE csum);
  csum ← util_checksum_seq (buf_mem (le64 gen_num)) 0 8 csum;
  let s := pmemops_memcpy_from p_ops e (entry_first_line word csum size bdata) flags s in
  Some (e, pmemops_drain p_ops s).

(** ** Application *)

Definition ulog_entry_apply (e : Z) (persist : bool) (p_ops : pmem_ops) (s : pmst) : pmst :=
  let t := ulog_entry_type (vis s) e in
  let offset := ulog_entry_offset (vis s) e in
  let dst := base p_ops + offset in
  let value := load64 (vis s) (entry_value_addr e) in
  let f := if persist then pmemops_persist p_ops dst 8 else pmemops_flush p_ops dst 8 in
  let nodrain := Z.lor PMEMOBJ_F_RELAXED PMEM_F_MEM_NODRAIN in
  if t =? ULOG_OPERATION_AND then
    f (st_store64 dst (Z.land (load64 (vis s) dst) value) s)
  else if t =? ULOG_OPERATION_OR then
    f (st_store64 dst (Z.lor (load64 (vis s) dst) value) s)
  else if t =? ULOG_OPERATION_SET then
    f (st_store64 dst value s)
  else if t =? ULOG_OPERATION_BUF_SET then
    pmemops_memset p_ops dst (byte_to_Z (vis s (entry_data e)))
      (load64 (vis s) (entry_size_addr e)) nodrain s
  else if t =? ULOG_OPERATION_BUF_CPY then
    pmemops_memcpy p_ops dst (entry_data e) (load64 (vis s) (entry_size_addr e)) nodrain s
  else s.

Definition ulog_process_entry (p_ops : pmem_ops) (e : Z) (s : pmst) : Z * pmst :=
  (0, ulog_entry_apply e false p_ops s).

(** [p_ops] is NULL for a log whose generation need not be durable. *)
Definition ulog_inc_gen_num (ulog : Z) (p_ops : option pmem_ops) (s : pmst) : pmst :=
  let s := st_store64 (ulog_gen_num_addr ulog)
             (u64 (load64 (vis s) (ulog_gen_num_addr ulog) + 1)) s in
  match p_ops with
  | Some p_ops => pmemops_persist p_ops (ulog_gen_num_addr ulog) 8 s
  | None => s
  end.

(** ** Freeing the chain *)

(** The inner loop of ulog_free_next: unlinks the user-owned logs that follow
    [last_internal]; [ret] becomes 1 when one was unlinked. *)
Fixpoint ulog_unlink_user {W} (fuel : nat) (last_internal current : Z)
    (user_buff_remove : Z -> W -> option W) (ret : Z) (p_ops : pmem_ops) (ws : W * pmst)
    : option (Z * (W * pmst)) :=
  match fuel with
  | O => None
  | S k =>
      let '(w, s) := ws in
      if negb (current =? 0) &&
         flag_isset (load64 (vis s) (ulog_flags_addr current)) ULOG_USER_OWNED then
        let s := st_store64 (ulog_next_addr last_internal)
                   (load64 (vis s) (ulog_next_addr current)) s in
        let s := pmemops_persist p_ops (ulog_next_addr last_internal) 8 s in
        w ← user_buff_remove current w;
        ulog_unlink_user k last_internal (ulog_next (vis s) last_internal p_ops)
          user_buff_remove 1 p_ops (w, s)
      else Some (ret, (w, s))
  end.

Fixpoint ulog_unlink_all {W} (fuel : nat) (last_internal : Z)
    (user_buff_remove : Z -> W -> option W) (ret : Z) (p_ops : pmem_ops) (ws : W * pmst)
    : option (Z * (W * pmst)) :=
  match fuel with
  | O => None
  | S k =>
      if negb (last_internal =? 0) &&
         negb (load64 (vis ws.2) (ulog_next_addr last_internal) =? 0) then
        '(ret, ws) ← ulog_unlink_user k last_internal (ulog_next (vis ws.2) last_internal p_ops)
                       user_buff_remove ret p_ops ws;
        ulog_unlink_all k (ulog_next (vis ws.2) last_internal p_ops) user_buff_remove ret p_ops ws
      else Some (ret, ws)
  end.

(** The addresses of the non-zero [next] fields from [u] on; [push_ok n] tells
    whether the vector can take its n-th element.  The flag is false when a push
    failed. *)
Fixpoint ulog_collect_next (fuel : nat) (m : mem) (u : Z) (push_ok : nat -> bool)
    (acc : list Z) (p_ops : pmem_ops) : option (bool * list Z) :=
  match fuel with
  | O => None
  | S k =>
      if load64 m (ulog_next_addr u) =? 0 then Some (true, acc)
      else if push_ok (length acc) then
        ulog_collect_next k m (ulog_next m u p_ops) push_ok (acc ++ [ulog_next_addr u]) p_ops
      else Some (false, acc)
  end.

Definition ulog_free_next {W} (fuel : nat) (u : Z) (p_ops : pmem_ops)
    (ulog_free : Z -> W * pmst -> W * pmst) (user_buff_remove : Z -> W -> option W)
    (push_ok : nat -> bool) (flags : Z) (ws : W * pmst) : option (Z * (W * pmst)) :=
  if u =? 0 then Some (0, ws) else
  '(ret, ws) ← (if flag_isset flags ULOG_ANY_USER_BUFFER
                then ulog_unlink_all fuel u user_buff_remove 0 p_ops ws else Some (0, ws));
  '(ok, ptrs) ← ulog_collect_next fuel (vis ws.2) u push_ok [] p_ops;
  if (ok : bool) then
    Some (if bool_decide (ptrs = []) then ret else 1, foldr ulog_free ws ptrs)
  else Some (ret, ws).

(** ** Invalidation *)

Definition ulog_clobber (dest : Z) (next : option (list Z)) (p_ops : pmem_ops) (s : pmst) : pmst :=
  let n := match next with
           | Some next => vec_front_or_0 next
           | None => load64 (vis s) (ulog_next_addr dest)
           end in
  let empty := le64 0 ++ le64 n ++ replicate 48 Byte.x00 in
  pmemops_memcpy_from p_ops dest empty PMEM_F_MEM_WC s.

Definition ulog_clobber_data {W} (fuel : nat) (ulog_first nbytes ulog_base_nbytes : Z)
    (next : list Z) (ulog_free : Z -> W * pmst -> W * pmst)
    (user_buff_remove : Z -> W -> option W) (push_ok : nat -> bool) (p_ops : pmem_ops)
    (flags : Z) (ws : W * pmst) : option (Z * (W * pmst)) :=
  let '(w, s) := ws in
  let s := if flag_isset flags ULOG_INC_FIRST_GEN_NUM
           then ulog_inc_gen_num ulog_first (Some p_ops) s else s in
  let ulog_second := ulog_by_offset (vec_front_or_0 next) p_ops in
  let s := if negb (ulog_second =? 0) && negb (flag_isset flags ULOG_FREE_AFTER_FIRST)
           then ulog_inc_gen_num ulog_second None s else s in
  let u :=
    if flag_isset flags ULOG_ANY_USER_BUFFER &&
       flag_isset (load64 (vis s) (ulog_flags_addr ulog_second)) ULOG_USER_OWNED
    then ulog_first
    else if flag_isset flags ULOG_FREE_AFTER_FIRST then ulog_first else ulog_second in
  if u =? 0 then Some (0, (w, s))
  else ulog_free_next fuel u p_ops ulog_free user_buff_remove push_ok flags (w, s).

(** ** Processing and recovery (the release build: no ulog_check in ulog_process) *)

Definition ulog_process (fuel : nat) (ulog : Z) (p_ops : pmem_ops) (s : pmst) : option pmst :=
  '(_, s) ← ulog_foreach_entry fuel ulog (ulog_process_entry p_ops) p_ops s;
  Some s.

Fixpoint ulog_base_nbytes_from (fuel : nat) (m : mem) (ulog offset : Z) : option Z :=
  match fuel with
  | O => None
  | S k =>
      if offset <? load64 m (ulog_capacity_addr ulog) then
        match ulog_entry_valid m ulog (ulog_data ulog + offset) with
        | None => None
        | Some false => Some offset
        | Some true =>
            ulog_base_nbytes_from k m ulog
              (u64 (offset + ulog_entry_size m (ulog_data ulog + offset)))
        end
      else Some offset
  end.

Definition ulog_base_nbytes (fuel : nat) (m : mem) (ulog : Z) : option Z :=
  ulog_base_nbytes_from fuel m ulog 0.

Definition ulog_recovery_needed (fuel : nat) (m : mem) (ulog : Z) (verify_checksum : bool)
    : option bool :=
  n ← ulog_base_nbytes fuel m ulog;
  let nbytes := Z.min n (load64 m (ulog_capacity_addr ulog)) in
  if nbytes =? 0 then Some false
  else if verify_checksum then ulog_checksum_verify m ulog nbytes
  else Some true.

Definition ulog_recover (fuel : nat) (ulog : Z) (p_ops : pmem_ops) (s : pmst) : option pmst :=
  needed ← ulog_recovery_needed fuel (vis s) ulog true;
  if (needed : bool) then
    s ← ulog_process fuel ulog p_ops s;
    Some (ulog_clobber ulog None p_ops s)
  else Some s.

Definition ulog_check_entry (check : Z -> bool) (p_ops : pmem_ops) (e : Z) (s : pmst) : Z * pmst :=
  let offset := ulog_entry_offset (vis s) e in
  if negb (check offset) then (-1, s)
  else (if offset =? 0 then -1 else 0, s).

Definition ulog_check (fuel : nat) (ulog : Z) (check : Z -> bool) (p_ops : pmem_ops) (s : pmst)
    : option Z :=
  '(ret, _) ← ulog_foreach_entry fuel ulog (ulog_check_entry check p_ops) p_ops s;
  Some ret.
