(* ===== verification/UlogFacts.v ===== *)
(** * Value entries, chains of logs and their processing

    The abstract content of a redo log is a list of value entries; [chain_at]
    says that the memory holds such a list from a position of a chain of logs
    on.  The main lemma, [foreach_chain], shows that ulog_foreach_entry with the
    processing callback performs exactly the abstract updates. *)
From stdpp Require Import base numbers list list_numbers.
From Stdlib Require Import ZArith Lia Bool.
From S2P Require Import Prelude Pmem Checksum Ulog.

(** ** Operation words *)

Inductive vop := OpSet | OpAnd | OpOr.

Definition op_type (o : vop) : Z :=
  match o with
  | OpSet => ULOG_OPERATION_SET
  | OpAnd => ULOG_OPERATION_AND
  | OpOr => ULOG_OPERATION_OR
  end.

Definition op_fun (o : vop) (value old : Z) : Z :=
  match o with
  | OpSet => value
  | OpAnd => Z.land old value
  | OpOr => Z.lor old value
  end.

Lemma offset_mask_ones : ULOG_OFFSET_MASK = Z.ones 61.
Proof. reflexivity. Qed.

Lemma bits_above x n i : 0 <= x < 2 ^ n -> n <= i -> Z.testbit x i = false.
Proof.
  intros Hx Hi. destruct (Z.eq_dec x 0) as [->|]; [apply Z.testbit_0_l|].
  destruct (Z.lt_ge_cases n 0); [rewrite Z.pow_neg_r in Hx by lia; lia|].
  apply Z.bits_above_log2; [lia|]. apply Z.log2_lt_pow2; [lia|].
  eapply Z.lt_le_trans; [apply Hx|]. apply Z.pow_le_mono_r; lia.
Qed.

Lemma word_type off k :
  0 <= off < 2 ^ 61 -> 0 <= k < 8 ->
  Z.land (Z.lor off (Z.shiftl k 61)) ULOG_OPERATION_MASK = Z.shiftl k 61.
Proof.
  intros Ho Hk. apply Z.bits_inj'. intros i Hi. unfold ULOG_OPERATION_MASK.
  rewrite Z.land_spec, Z.lor_spec, !Z.shiftl_spec by lia.
  destruct (Z.lt_ge_cases i 61).
  - rewrite !(Z.testbit_neg_r _ (i - 61)) by lia. apply andb_false_r.
  - rewrite (bits_above off 61) by lia. cbn [orb].
    destruct (Z.lt_ge_cases (i - 61) 3).
    + change 7 with (Z.ones 3). rewrite Z.ones_spec_low by lia. apply andb_true_r.
    + rewrite (bits_above k 3) by lia. done.
Qed.

Lemma word_offset off k :
  0 <= off < 2 ^ 61 -> Z.land (Z.lor off (Z.shiftl k 61)) ULOG_OFFSET_MASK = off.
Proof.
  intros Ho. rewrite offset_mask_ones. apply Z.bits_inj'. intros i Hi.
  rewrite Z.land_spec, Z.lor_spec, Z.shiftl_spec by lia.
  destruct (Z.lt_ge_cases i 61).
  - rewrite Z.ones_spec_low, (Z.testbit_neg_r k) by lia.
    rewrite orb_false_r. apply andb_true_r.
  - rewrite Z.ones_spec_high, (bits_above off 61) by lia. apply andb_false_r.
Qed.

Lemma word_range off k :
  0 <= off < 2 ^ 61 -> 0 <= k < 8 -> 0 <= Z.lor off (Z.shiftl k 61) < 2 ^ 64.
Proof.
  intros Ho Hk. split.
  - apply Z.lor_nonneg. split; [lia|]. apply Z.shiftl_nonneg. lia.
  - rewrite lor_shifted by lia. lia.
Qed.

Definition op_code (o : vop) : Z := match o with OpSet => 0 | OpAnd => 1 | OpOr => 2 end.
Lemma op_type_code o : op_type o = Z.shiftl (op_code o) 61.
Proof. destruct o; reflexivity. Qed.
Lemma op_code_range o : 0 <= op_code o < 8.
Proof. destruct o; simpl; lia. Qed.
Lemma op_type_kind o : kind_of_type (op_type o) = KVal.
Proof. destruct o; reflexivity. Qed.

(** ** Value entries *)

Record vent := VEnt { ve_off : Z; ve_op : vop; ve_val : Z }.

Definition vent_ok (v : vent) : Prop := 0 < ve_off v < 2 ^ 61 /\ 0 <= ve_val v < 2 ^ 64.

Definition vent_word (v : vent) : Z := Z.lor (ve_off v) (op_type (ve_op v)).

Definition enc_vent (v : vent) : list byte := le64 (vent_word v) ++ le64 (ve_val v).

(** The memory holds the entry at [a]. *)
Definition vent_at (m : mem) (a : Z) (v : vent) : Prop :=
  vent_ok v /\ load64 m a = vent_word v /\ load64 m (entry_value_addr a) = ve_val v.

(** The abstract update. *)
Definition apply_vent (b : Z) (v : vent) (m : mem) : mem :=
  write_bytes m (b + ve_off v)
    (le64 (op_fun (ve_op v) (ve_val v) (load64 m (b + ve_off v)))).

Definition apply_log (b : Z) (es : list vent) (m : mem) : mem :=
  foldl (fun m v => apply_vent b v m) m es.

(** What processing does to the state: store and flush. *)
Definition proc_vent (p_ops : pmem_ops) (v : vent) (s : pmst) : pmst :=
  let dst := base p_ops + ve_off v in
  pmemops_flush p_ops dst 8
    (st_store64 dst (op_fun (ve_op v) (ve_val v) (load64 (vis s) dst)) s).

Definition proc_log (p_ops : pmem_ops) (es : list vent) (s : pmst) : pmst :=
  foldl (fun s v => proc_vent p_ops v s) s es.

Lemma vent_word_facts v :
  vent_ok v ->
  Z.land (vent_word v) ULOG_OPERATION_MASK = op_type (ve_op v) /\
  Z.land (vent_word v) ULOG_OFFSET_MASK = ve_off v /\
  0 < vent_word v < 2 ^ 64.
Proof.
  intros [Ho _]. unfold vent_word. rewrite op_type_code.
  pose proof (op_code_range (ve_op v)).
  split; [|split].
  - apply word_type; lia.
  - apply word_offset; lia.
  - pose proof (word_range (ve_off v) (op_code (ve_op v)) ltac:(lia) ltac:(lia)).
    destruct (Z.eq_dec (Z.lor (ve_off v) (Z.shiftl (op_code (ve_op v)) 61)) 0) as [E|]; [|lia].
    apply Z.lor_eq_0_iff in E. lia.
Qed.

Section Decode.
Context (m : mem) (a : Z) (v : vent).
Hypothesis Hv : vent_at m a v.

Lemma vent_type : ulog_entry_type m a = op_type (ve_op v).
Proof. destruct Hv as (Hok & Hw & _). unfold ulog_entry_type. rewrite Hw. by apply vent_word_facts. Qed.

Lemma vent_offset : ulog_entry_offset m a = ve_off v.
Proof. destruct Hv as (Hok & Hw & _). unfold ulog_entry_offset. rewrite Hw. by apply vent_word_facts. Qed.

Lemma vent_size : ulog_entry_size m a = 16.
Proof. unfold ulog_entry_size. rewrite vent_type, op_type_kind. done. Qed.

Lemma vent_valid u : ulog_entry_valid m u a = Some true.
Proof.
  unfold ulog_entry_valid. rewrite vent_type, op_type_kind.
  destruct Hv as (Hok & Hw & _). rewrite Hw.
  pose proof (vent_word_facts v Hok) as (_ & _ & Hr).
  destruct (Z.eqb_spec (vent_word v) 0); [lia|done].
Qed.
End Decode.

Lemma vent_apply p_ops s a v :
  vent_at (vis s) a v -> ulog_entry_apply a false p_ops s = proc_vent p_ops v s.
Proof.
  intros Hv. unfold ulog_entry_apply. rewrite (vent_type _ _ _ Hv), (vent_offset _ _ _ Hv).
  destruct Hv as (_ & _ & ->). unfold proc_vent. destruct (ve_op v); reflexivity.
Qed.

(** ** Chains *)

(** [P] is a set of addresses that contains everything the traversal reads. *)
Definition within (P : Z -> Prop) (a n : Z) : Prop := forall x, a <= x < a + n -> P x.
Definition agree_on (P : Z -> Prop) (m1 m2 : mem) : Prop := forall x, P x -> m1 x = m2 x.

Lemma agree_on_load64 P m1 m2 a : agree_on P m1 m2 -> within P a 8 -> load64 m1 a = load64 m2 a.
Proof.
  intros H Hw. unfold load64. f_equal. apply read_bytes_eq. intros i Hi.
  apply H, Hw. lia.
Qed.

(** From offset [off] of log [r] on, the chain holds the entries [es]; the
    traversal takes [n] steps. *)
Inductive chain_at (P : Z -> Prop) (p_ops : pmem_ops) (m : mem) : Z -> Z -> nat -> list vent -> Prop :=
| chain_stop r off :
    within P (ulog_capacity_addr r) 8 -> within P (ulog_data r + off) 8 ->
    off < load64 m (ulog_capacity_addr r) -> load64 m (ulog_data r + off) = 0 ->
    chain_at P p_ops m r off 1 []
| chain_end r off :
    within P (ulog_capacity_addr r) 8 -> within P (ulog_next_addr r) 8 ->
    load64 m (ulog_capacity_addr r) <= off -> ulog_next m r p_ops = 0 ->
    chain_at P p_ops m r off 1 []
| chain_hop r off n es :
    within P (ulog_capacity_addr r) 8 -> within P (ulog_next_addr r) 8 ->
    load64 m (ulog_capacity_addr r) <= off -> ulog_next m r p_ops <> 0 ->
    chain_at P p_ops m (ulog_next m r p_ops) 0 n es ->
    chain_at P p_ops m r off (S n) es
| chain_entry r off v n es :
    within P (ulog_capacity_addr r) 8 -> within P (ulog_data r + off) 16 ->
    0 <= off -> off + 16 < 2 ^ 64 ->
    off < load64 m (ulog_capacity_addr r) -> vent_at m (ulog_data r + off) v ->
    chain_at P p_ops m r (off + 16) n es ->
    chain_at P p_ops m r off (S n) (v :: es).

Lemma vent_at_agree P m1 m2 a v :
  agree_on P m1 m2 -> within P a 16 -> vent_at m1 a v -> vent_at m2 a v.
Proof.
  intros Ha Hw (Hok & H1 & H2). split; [done|]. split.
  - rewrite <- (agree_on_load64 P m1 m2); [done|done|]. intros x Hx. apply Hw. lia.
  - rewrite <- (agree_on_load64 P m1 m2); [done|done|].
    intros x Hx. apply Hw. unfold entry_value_addr in Hx. lia.
Qed.

Lemma ulog_next_agree P m1 m2 r p_ops :
  agree_on P m1 m2 -> within P (ulog_next_addr r) 8 -> ulog_next m1 r p_ops = ulog_next m2 r p_ops.
Proof. intros Ha Hw. unfold ulog_next. by rewrite (agree_on_load64 P m1 m2). Qed.

(** A chain only depends on the addresses in [P]. *)
Lemma chain_at_agree P p_ops m1 m2 r off n es :
  agree_on P m1 m2 -> chain_at P p_ops m1 r off n es -> chain_at P p_ops m2 r off n es.
Proof.
  intros Ha. induction 1 as [r off Hc Hd H1 H2|r off Hc Hn H1 H2|r off n es Hc Hn H1 H2 _ IH
    |r off v n es Hc Hd H0 H1 H2 H3 _ IH].
  - apply chain_stop; [done..| |].
    + by rewrite <- (agree_on_load64 P m1 m2).
    + by rewrite <- (agree_on_load64 P m1 m2).
  - apply chain_end; [done..| |].
    + by rewrite <- (agree_on_load64 P m1 m2).
    + by rewrite <- (ulog_next_agree P m1 m2).
  - rewrite (ulog_next_agree P m1 m2) in H2, IH by done.
    eapply chain_hop; [done..| |done|done].
    by rewrite <- (agree_on_load64 P m1 m2).
  - eapply chain_entry; [done..| | |done].
    + by rewrite <- (agree_on_load64 P m1 m2).
    + by eapply vent_at_agree.
Qed.

(** The target of an entry lies outside [P]. *)
Definition target_out (P : Z -> Prop) (b : Z) (v : vent) : Prop :=
  forall x, b + ve_off v <= x < b + ve_off v + 8 -> ~ P x.

Lemma proc_vent_vis p_ops v s : vis (proc_vent p_ops v s) = apply_vent (base p_ops) v (vis s).
Proof. unfold proc_vent, pmemops_flush. destruct (table p_ops); done. Qed.

Lemma proc_log_vis p_ops es s : vis (proc_log p_ops es s) = apply_log (base p_ops) es (vis s).
Proof.
  revert s. induction es as [|v es IH]; intros s; [done|].
  unfold proc_log, apply_log in *. cbn [foldl]. rewrite IH, proc_vent_vis. done.
Qed.

Lemma apply_vent_out b v m x :
  x < b + ve_off v \/ b + ve_off v + 8 <= x -> apply_vent b v m x = m x.
Proof. intros H. apply write_bytes_out. rewrite length_le64. lia. Qed.

Lemma apply_vent_agree_on P b v m : target_out P b v -> agree_on P m (apply_vent b v m).
Proof.
  intros Ht x Hx. symmetry. apply apply_vent_out.
  destruct (Z.lt_ge_cases x (b + ve_off v)); [lia|].
  destruct (Z.lt_ge_cases x (b + ve_off v + 8)); [|lia]. exfalso. by apply (Ht x).
Qed.

Lemma foreach_chain P p_ops u r off n es s fuel :
  chain_at P p_ops (vis s) r off n es -> Forall (target_out P (base p_ops)) es ->
  (n <= fuel)%nat ->
  ulog_foreach_from fuel u r off (ulog_process_entry p_ops) 0 p_ops s =
  Some (0, proc_log p_ops es s).
Proof.
  revert r off es s fuel. induction n as [|n IH]; intros r off es s fuel Hc Ht Hf;
    [inversion Hc|]. destruct fuel as [|k]; [lia|]. cbn [ulog_foreach_from].
  inversion Hc as [r0 o0 Hcap Hd H1 H2|r0 o0 Hcap Hn H1 H2|r0 o0 n0 es0 Hcap Hn H1 H2 Hch
    |r0 o0 v n0 es0 Hcap Hd H0 H1 H2 H3 Hch]; subst.
  - destruct (Z.ltb_spec off (load64 (vis s) (ulog_capacity_addr r))); [|lia].
    unfold ulog_entry_valid. rewrite H2. done.
  - destruct (Z.ltb_spec off (load64 (vis s) (ulog_capacity_addr r))); [lia|].
    rewrite H2. done.
  - destruct (Z.ltb_spec off (load64 (vis s) (ulog_capacity_addr r))); [lia|].
    destruct (Z.eqb_spec (ulog_next (vis s) r p_ops) 0); [done|].
    apply IH; [done|done|lia].
  - destruct (Z.ltb_spec off (load64 (vis s) (ulog_capacity_addr r))); [|lia].
    rewrite (vent_valid _ _ _ H3). cbn [ulog_process_entry Z.eqb].
    rewrite (vent_apply p_ops s _ v H3).
    inversion Ht as [|? ? Htv Hts]; subst.
    assert (agree_on P (vis s) (vis (proc_vent p_ops v s))) as Ha.
    { rewrite proc_vent_vis. by apply apply_vent_agree_on. }
    rewrite (vent_size _ _ v) by (eapply vent_at_agree; done).
    rewrite u64_small by lia.
    change (proc_log p_ops (v :: es0) s) with (proc_log p_ops es0 (proc_vent p_ops v s)).
    apply IH; [by eapply chain_at_agree|done|lia].
Qed.

(** ** Processing a log (the contract of ulog_process for value entries) *)

Lemma process_chain P p_ops u n es s fuel :
  u <> 0 -> chain_at P p_ops (vis s) u 0 n es -> Forall (target_out P (base p_ops)) es ->
  (n <= fuel)%nat ->
  ulog_process fuel u p_ops s = Some (proc_log p_ops es s).
Proof.
  intros Hu Hc Ht Hf. unfold ulog_process, ulog_foreach_entry.
  destruct (Z.eqb_spec u 0); [done|].
  rewrite (foreach_chain P p_ops u u 0 n es s fuel) by done. done.
Qed.

(** ** A log whose entries lie in one piece *)

(** The entries are laid out from [a] on, followed by an empty header. *)
Definition enc_log (es : list vent) : list byte := concat (map enc_vent es).

Lemma length_enc_vent v : length (enc_vent v) = 16%nat.
Proof. unfold enc_vent. rewrite length_app, !length_le64. done. Qed.

Lemma length_enc_log es : length (enc_log es) = (16 * length es)%nat.
Proof.
  induction es as [|v es IH]; [done|]. unfold enc_log in *. cbn [map concat length].
  rewrite length_app, IH, length_enc_vent. lia.
Qed.

Lemma read_enc_vent m a v :
  vent_ok v -> read_bytes m a 16 = enc_vent v -> vent_at m a v.
Proof.
  intros Hok H. change 16%nat with (8 + 8)%nat in H. rewrite read_bytes_app in H.
  apply app_inj_1 in H as [H1 H2]; [|by rewrite length_read_bytes, length_le64].
  pose proof (vent_word_facts v Hok) as (_ & _ & Hr). destruct Hok as [Ho Hvl].
  split; [done|]. unfold load64, entry_value_addr. change (Z.of_nat 8) with 8 in H2.
  rewrite H1, H2, !dec_le64, !u64_small by lia. done.
Qed.

Lemma vent_at_read m a v : vent_at m a v -> read_bytes m a 16 = enc_vent v.
Proof.
  intros (Hok & H1 & H2). change 16%nat with (8 + 8)%nat. rewrite read_bytes_app.
  unfold enc_vent. rewrite <- H1, <- H2, !le64_load64. done.
Qed.

(** What ulog_entry_val_create writes: the entry and an empty header behind it. *)
Lemma val_create_spec ulog offset dest v p_ops s :
  vent_ok v -> dest - base p_ops = ve_off v ->
  let '(e, s') := ulog_entry_val_create ulog offset dest (ve_val v) (op_type (ve_op v)) p_ops s in
  e = ulog_data ulog + offset /\ vis s' = write_bytes (vis s) e (enc_vent v ++ le64 0).
Proof.
  intros Hok Hd. unfold ulog_entry_val_create. split; [done|]. rewrite vis_memcpy_from.
  unfold entry_offset_word, enc_vent, vent_word. destruct Hok. rewrite Hd, u64_small by lia.
  by rewrite <- app_assoc.
Qed.

Lemma written_vent m e v :
  vent_ok v -> let m' := write_bytes m e (enc_vent v ++ le64 0) in
  vent_at m' e v /\ load64 m' (e + 16) = 0 /\ (forall x, x < e \/ e + 24 <= x -> m' x = m x).
Proof.
  intros Hok m'. pose proof (length_enc_vent v) as Hl. pose proof (length_le64 0) as H0.
  split; [|split].
  - apply read_enc_vent; [done|]. unfold m'. rewrite read_write_sub by (rewrite ?length_app; lia).
    rewrite Z.sub_diag. cbn [Z.to_nat drop]. by apply take_app_length'.
  - unfold load64, m'. rewrite read_write_sub by (rewrite ?length_app; lia).
    replace (Z.to_nat (e + 16 - e)) with 16%nat by lia. by rewrite drop_app_length'.
  - intros x Hx. apply write_bytes_out. rewrite length_app. lia.
Qed.

(** Entries in one piece form a chain in a log with enough capacity. *)
Lemma piece_chain P p_ops m u off es :
  Forall vent_ok es -> 0 <= off ->
  read_bytes m (ulog_data u + off) (16 * length es) = enc_log es ->
  off + 16 * Z.of_nat (length es) < 2 ^ 63 ->
  within P (ulog_capacity_addr u) 8 ->
  within P (ulog_next_addr u) 8 ->
  within P (ulog_data u + off) (16 * Z.of_nat (length es) + 8) ->
  off + 16 * Z.of_nat (length es) <= load64 m (ulog_capacity_addr u) ->
  (load64 m (ulog_data u + off + 16 * Z.of_nat (length es)) = 0 /\
    off + 16 * Z.of_nat (length es) < load64 m (ulog_capacity_addr u) \/
   off + 16 * Z.of_nat (length es) = load64 m (ulog_capacity_addr u) /\
    ulog_next m u p_ops = 0) ->
  chain_at P p_ops m u off (S (length es)) es.
Proof.
  revert off. induction es as [|v es IH]; intros off Hok Ho Hr Hb Hc Hn Hd Hcap Hend.
  - simpl in *. rewrite Z.add_0_r in *. destruct Hend as [[E1 E2]|[E1 E2]].
    + apply chain_stop; [done| |lia|done]. intros x Hx. apply Hd. lia.
    + apply chain_end; [done|done|lia|done].
  - inversion Hok as [|? ? Hv Hvs]; subst.
    cbn [length] in *. rewrite Nat2Z.inj_succ in *.
    replace (16 * S (length es))%nat with (16 + 16 * length es)%nat in Hr by lia.
    rewrite read_bytes_app in Hr. unfold enc_log in Hr. cbn [map concat] in Hr.
    apply app_inj_1 in Hr as [Hr1 Hr2]; [|by rewrite length_read_bytes, length_enc_vent].
    apply chain_entry; [done| |lia|lia|lia| |].
    + intros x Hx. apply Hd. lia.
    + by apply read_enc_vent.
    + rewrite <- Z.add_assoc in Hr2. change (Z.of_nat 16) with 16 in Hr2.
      apply IH; [done|lia|exact Hr2|lia|done|done| |lia|].
      * intros x Hx. apply Hd. lia.
      * replace (ulog_data u + (off + 16) + 16 * Z.of_nat (length es))
          with (ulog_data u + off + 16 * Z.succ (Z.of_nat (length es))) by lia.
        replace (off + 16 + 16 * Z.of_nat (length es))
          with (off + 16 * Z.succ (Z.of_nat (length es))) by lia. done.
Qed.
