(* ===== verification/UlogRedo.v ===== *)
(** * Crash atomicity of the redo protocol

    ulog_store writes the shadow log to the persistent log and drains,
    ulog_process then applies the entries.  The theorem of this file follows
    every possible power failure of that run through ulog_recover. *)
From stdpp Require Import base numbers list list_numbers.
From Stdlib Require Import ZArith Lia Bool.
From S2P Require Import Prelude Pmem Checksum Ulog UlogFacts.

(** ** What a log does to one word *)

Definition word_op (t : Z) (v : vent) (x : Z) : Z :=
  if ve_off v =? t then op_fun (ve_op v) (ve_val v) x else x.
Definition word_log (t : Z) (es : list vent) (x : Z) : Z :=
  foldl (fun x v => word_op t v x) x es.

Definition bit_op (t i : Z) (v : vent) (b : bool) : bool :=
  if ve_off v =? t then
    match ve_op v with
    | OpSet => Z.testbit (ve_val v) i
    | OpAnd => b && Z.testbit (ve_val v) i
    | OpOr => b || Z.testbit (ve_val v) i
    end
  else b.

Lemma word_log_bits t es x i :
  Z.testbit (word_log t es x) i = foldl (fun b v => bit_op t i v b) (Z.testbit x i) es.
Proof.
  revert x. induction es as [|v es IH]; intros x; [done|].
  unfold word_log in *. cbn [foldl]. rewrite IH. f_equal.
  unfold word_op, bit_op, op_fun. destruct (ve_off v =? t); [|done].
  destruct (ve_op v); [done|apply Z.land_spec|apply Z.lor_spec].
Qed.

(** On one bit an operation is the identity or a constant. *)
Lemma bit_op_cases t i v :
  (forall b, bit_op t i v b = b) \/ (forall b b', bit_op t i v b = bit_op t i v b').
Proof.
  unfold bit_op. destruct (ve_off v =? t); [|by left].
  destruct (ve_op v); [by right|..]; destruct (Z.testbit (ve_val v) i).
  - left. intros b. apply andb_true_r.
  - right. intros b b'. by rewrite !andb_false_r.
  - right. intros b b'. by rewrite !orb_true_r.
  - left. intros b. apply orb_false_r.
Qed.

(** Applying a log again over any of its own prefixes gives the same result. *)
Lemma bits_absorb t i es j b :
  foldl (fun b v => bit_op t i v b) (foldl (fun b v => bit_op t i v b) b (take j es)) es =
  foldl (fun b v => bit_op t i v b) b es.
Proof.
  revert j b. induction es as [|v es IH]; intros j b; [by destruct j|].
  destruct j as [|j]; [done|]. cbn [take foldl].
  destruct (bit_op_cases t i v) as [Hid|Hc].
  - rewrite !Hid. apply IH.
  - f_equal. apply Hc.
Qed.

Lemma word_log_absorb t es j x : word_log t es (word_log t (take j es) x) = word_log t es x.
Proof. apply Z.bits_inj'. intros i _. rewrite !word_log_bits. apply bits_absorb. Qed.

Lemma op_fun_range o v x :
  0 <= v < 2 ^ 64 -> 0 <= x < 2 ^ 64 -> 0 <= op_fun o v x < 2 ^ 64.
Proof.
  intros Hv Hx. destruct o; cbn [op_fun]; [done|..].
  - split; [apply Z.land_nonneg; lia|].
    destruct (Z.eq_dec (Z.land x v) 0) as [->|]; [lia|].
    apply Z.log2_lt_pow2; [pose proof (Z.land_nonneg x v); lia|].
    eapply Z.le_lt_trans; [apply Z.log2_land; lia|].
    apply Z.min_lt_iff. right. destruct (Z.eq_dec v 0) as [->|]; [simpl; lia|].
    apply Z.log2_lt_pow2; lia.
  - split; [apply Z.lor_nonneg; lia|].
    destruct (Z.eq_dec (Z.lor x v) 0) as [->|]; [lia|].
    apply Z.log2_lt_pow2; [pose proof (Z.lor_nonneg x v); lia|].
    rewrite Z.log2_lor by lia. apply Z.max_lub_lt.
    + destruct (Z.eq_dec x 0) as [->|]; [simpl; lia|]. apply Z.log2_lt_pow2; lia.
    + destruct (Z.eq_dec v 0) as [->|]; [simpl; lia|]. apply Z.log2_lt_pow2; lia.
Qed.

Definition vent_aligned (v : vent) : Prop := ve_off v mod 8 = 0.

Lemma aligned_apart a b : a mod 8 = 0 -> b mod 8 = 0 -> a <> b -> a + 8 <= b \/ b + 8 <= a.
Proof.
  intros Ha Hb Hne. pose proof (Z.div_mod a 8 ltac:(lia)). pose proof (Z.div_mod b 8 ltac:(lia)).
  assert (a / 8 <> b / 8) by lia. lia.
Qed.

Lemma load64_apply_vent b v m t :
  vent_ok v -> vent_aligned v -> t mod 8 = 0 ->
  load64 (apply_vent b v m) (b + t) = word_op t v (load64 m (b + t)).
Proof.
  intros [Ho Hv] Ha Ht. unfold apply_vent, word_op.
  destruct (Z.eqb_spec (ve_off v) t) as [<-|Hne].
  - rewrite load64_write_same. apply u64_small. apply op_fun_range; [done|].
    apply load64_range.
  - apply load64_write_disj. rewrite length_le64.
    pose proof (aligned_apart _ _ Ha Ht Hne). lia.
Qed.

Lemma load64_apply_log b es m t :
  Forall vent_ok es -> Forall vent_aligned es -> t mod 8 = 0 ->
  load64 (apply_log b es m) (b + t) = word_log t es (load64 m (b + t)).
Proof.
  intros Hok Ha Ht. revert m. induction es as [|v es IH]; intros m; [done|].
  inversion Hok; inversion Ha; subst. unfold apply_log, word_log in *. cbn [foldl].
  rewrite IH by done. by rewrite load64_apply_vent.
Qed.

(** ** Equal words are equal bytes *)

Lemma load64_eq_agree m1 m2 a : load64 m1 a = load64 m2 a -> agree m1 m2 a 8.
Proof.
  intros H x Hx. assert (read_bytes m1 a 8 = read_bytes m2 a 8) as E
    by (rewrite <- !le64_load64, H; done).
  pose proof (lookup_read_bytes m1 a 8 (Z.to_nat (x - a)) ltac:(lia)) as E1.
  pose proof (lookup_read_bytes m2 a 8 (Z.to_nat (x - a)) ltac:(lia)) as E2.
  rewrite E in E1. rewrite E1 in E2. injection E2 as E2.
  replace (a + Z.of_nat (Z.to_nat (x - a))) with x in E2 by lia. done.
Qed.

Lemma agree_load64 m1 m2 a : agree m1 m2 a 8 -> load64 m1 a = load64 m2 a.
Proof. intros H. eapply load64_agree; [exact H|lia..]. Qed.

(** If a word of an image shows the effect of a prefix of the log, replaying the
    whole log over the image repairs it. *)
Lemma apply_log_absorb b es m0 img w j :
  Forall vent_ok es -> Forall vent_aligned es -> b mod 8 = 0 -> w mod 8 = 0 ->
  agree img (apply_log b (take j es) m0) w 8 ->
  agree (apply_log b es img) (apply_log b es m0) w 8.
Proof.
  intros Hok Ha Hb Hw Hag. apply load64_eq_agree.
  assert ((w - b) mod 8 = 0) as Ht by (rewrite Zminus_mod, Hw, Hb; done).
  clear Hw. replace w with (b + (w - b)) in Hag |- * by lia.
  rewrite !load64_apply_log by done. rewrite (agree_load64 _ _ _ Hag).
  rewrite load64_apply_log; [apply word_log_absorb|by apply Forall_take..|done].
Qed.

(** ** Events of processing *)

Fixpoint proc_evs (b : Z) (es : list vent) (m : mem) : list pevent :=
  match es with
  | [] => []
  | v :: es =>
      EvStore (b + ve_off v) (le64 (op_fun (ve_op v) (ve_val v) (load64 m (b + ve_off v)))) ::
      EvFlush (b + ve_off v) 8 :: proc_evs b es (apply_vent b v m)
  end.

Lemma proc_log_trace p_ops es s :
  table p_ops = OPS_POOL ->
  trace (proc_log p_ops es s) = trace s ++ proc_evs (base p_ops) es (vis s).
Proof.
  intros Hp. revert s. induction es as [|v es IH]; intros s; [by rewrite app_nil_r|].
  unfold proc_log in *. cbn [foldl proc_evs]. rewrite IH, proc_vent_vis.
  unfold proc_vent, pmemops_flush. rewrite Hp. cbn [trace pmem_flush obj_norep_flush st_flush st_store64 st_store].
  rewrite <- !app_assoc. done.
Qed.

Lemma proc_evs_prefix b es m k :
  exists j, replay m (take k (proc_evs b es m)) = apply_log b (take j es) m.
Proof.
  revert m k. induction es as [|v es IH]; intros m k.
  - exists 0%nat. cbn. by rewrite firstn_nil.
  - destruct k as [|[|k]].
    + exists 0%nat. done.
    + exists 1%nat. done.
    + destruct (IH (apply_vent b v m) k) as [j Hj]. exists (S j). exact Hj.
Qed.

Lemma proc_evs_replay b es m : replay m (proc_evs b es m) = apply_log b es m.
Proof. revert m. induction es as [|v es IH]; intros m; [done|]. apply (IH (apply_vent b v m)). Qed.

(** Every update is flushed at once. *)
Lemma proc_evs_pending b es m w p :
  w mod 8 = 0 -> p = false -> foldl (pending_step w) p (proc_evs b es m) = false.
Proof.
  intros Hw. revert m p. induction es as [|v es IH]; intros m p ->; [done|].
  cbn [proc_evs foldl pending_step]. apply IH. set (bs := le64 _).
  pose proof (touches_covers (b + ve_off v) bs w Hw) as H. destruct (touches _ _ _).
  - unfold bs in H. rewrite length_le64 in H. change (Z.of_nat 8) with 8 in H. by rewrite H.
  - by destruct (covers _ _ _).
Qed.

Lemma proc_evs_avoid b es m lo n :
  Forall (fun v => lo + n <= b + ve_off v \/ b + ve_off v + 8 <= lo) es ->
  Forall (ev_avoids lo n) (proc_evs b es m).
Proof.
  revert m. induction es as [|v es IH]; intros m H; [constructor|].
  inversion H; subst. cbn [proc_evs]. constructor; [|constructor; [done|by apply IH]].
  simpl. rewrite ?length_le64. lia.
Qed.

(** ** Scanning *)

(** Every 16-byte slot of the area holds a value entry header or zero, which is
    all that redo logs ever write there. *)
Definition slot_ok (w : Z) : Prop :=
  w = 0 \/ kind_of_type (Z.land w ULOG_OPERATION_MASK) = KVal.
Definition slots_ok (m : mem) (a n : Z) : Prop :=
  forall i, 0 <= i -> 16 * i < n -> slot_ok (load64 m (a + 16 * i)).

Lemma base_nbytes_slots m u i fuel :
  slots_ok m (ulog_data u) (load64 m (ulog_capacity_addr u)) ->
  load64 m (ulog_capacity_addr u) mod 16 = 0 -> load64 m (ulog_capacity_addr u) < 2 ^ 63 ->
  0 <= i -> 16 * i <= load64 m (ulog_capacity_addr u) ->
  (Z.to_nat (load64 m (ulog_capacity_addr u)) < 16 * Z.to_nat i + 16 * fuel)%nat ->
  exists j, 0 <= j /\ ulog_base_nbytes_from fuel m u (16 * i) = Some (16 * j) /\
    16 * j <= load64 m (ulog_capacity_addr u).
Proof.
  intros Hs Hc16 Hc Hi Hic Hf. revert i Hi Hic Hf.
  set (c := load64 m (ulog_capacity_addr u)) in *.
  induction fuel as [|k IH]; intros i Hi Hic Hf; cbn [ulog_base_nbytes_from].
  - exfalso. pose proof (Z.div_mod c 16 ltac:(lia)). lia.
  - fold c. destruct (Z.ltb_spec (16 * i) c); [|by exists i].
    unfold ulog_entry_valid.
    destruct (Z.eqb_spec (load64 m (ulog_data u + 16 * i)) 0) as [E|E]; [by exists i|].
    destruct (Hs i Hi ltac:(lia)) as [?|Hk]; [lia|].
    unfold ulog_entry_type. rewrite Hk. unfold ulog_entry_size, ulog_entry_type. rewrite Hk.
    unfold sizeof_entry_val. pose proof (Z.div_mod c 16 ltac:(lia)).
    rewrite u64_small by lia. replace (16 * i + 16) with (16 * (i + 1)) by lia.
    apply IH; lia.
Qed.

(** The scan of a log that holds [es] stops right behind them. *)
Lemma base_nbytes_piece m u i es fuel :
  Forall vent_ok es -> 0 <= i ->
  read_bytes m (ulog_data u + i) (16 * length es) = enc_log es ->
  i + 16 * Z.of_nat (length es) < 2 ^ 63 ->
  i + 16 * Z.of_nat (length es) <= load64 m (ulog_capacity_addr u) ->
  (load64 m (ulog_data u + i + 16 * Z.of_nat (length es)) = 0 \/
   i + 16 * Z.of_nat (length es) = load64 m (ulog_capacity_addr u)) ->
  (length es < fuel)%nat ->
  ulog_base_nbytes_from fuel m u i = Some (i + 16 * Z.of_nat (length es)).
Proof.
  revert i fuel. induction es as [|v es IH]; intros i fuel Hok Hi Hr Hb Hc Hend Hf;
    (destruct fuel as [|k]; [simpl in *; lia|]); cbn [ulog_base_nbytes_from].
  - cbn [length] in *. rewrite Z.mul_0_r, !Z.add_0_r in *.
    destruct (Z.ltb_spec i (load64 m (ulog_capacity_addr u))); [|done].
    destruct Hend as [E|E]; [|lia]. unfold ulog_entry_valid. rewrite E. done.
  - inversion Hok as [|? ? Hv Hvs]; subst.
    cbn [length] in *. rewrite Nat2Z.inj_succ in *.
    replace (16 * S (length es))%nat with (16 + 16 * length es)%nat in Hr by lia.
    rewrite read_bytes_app in Hr. unfold enc_log in Hr. cbn [map concat] in Hr.
    apply app_inj_1 in Hr as [Hr1 Hr2]; [|by rewrite length_read_bytes, length_enc_vent].
    rewrite <- Z.add_assoc in Hr2. change (Z.of_nat 16) with 16 in Hr2.
    pose proof (read_enc_vent m _ v Hv Hr1) as Hva.
    destruct (Z.ltb_spec i (load64 m (ulog_capacity_addr u))); [|lia].
    rewrite (vent_valid _ _ _ Hva), (vent_size _ _ _ Hva), u64_small by lia.
    rewrite (IH (i + 16) k Hvs); [f_equal; lia|lia|exact Hr2|lia|lia| |lia].
    replace (ulog_data u + (i + 16) + 16 * Z.of_nat (length es))
      with (ulog_data u + i + 16 * Z.succ (Z.of_nat (length es))) by lia. lia.
Qed.
