(* ===== verification/UlogCrash.v ===== *)
(** * Crash atomicity of the redo protocol

    operation_process_persistent_redo publishes the shadow log with ulog_store
    and applies it with ulog_process.  This file follows every power failure of
    that run through ulog_recover: for a log that fits the base log, recovery
    leaves every word of the pool as it was or applies every entry. *)
From stdpp Require Import base numbers list list_numbers.
From Stdlib Require Import ZArith Lia Bool.
From S2P Require Import Prelude Pmem Checksum Ulog UlogFacts UlogRedo.

(** The size ulog_store rounds the entries to. *)
Definition store_size (es : list vent) : Z :=
  CACHELINE_ALIGN (16 * Z.of_nat (length es) + sizeof_entry_base).

(** [[a, a + n)] and [[b, b + k)] have no common address. *)
Definition apart (a n b k : Z) : Prop := a + n <= b \/ b + k <= a.

(** The situation in which the run starts: the shadow log at [src] holds [es]
    and its terminator, the persistent log at [dest] has been clobbered, both
    contain nothing but value entries, and neither overlaps the other or any
    target of [es]. *)
Record redo_pre (p_ops : pmem_ops) (dest src ulog_base_nbytes total : Z) (es : list vent)
    (m : mem) : Prop := RedoPre {
  rp_table : table p_ops = OPS_POOL;
  rp_ne : es <> [];
  rp_ok : Forall vent_ok es;
  rp_al : Forall vent_aligned es;
  rp_base8 : base p_ops mod 8 = 0;
  rp_dest8 : dest mod 8 = 0;
  rp_src8 : src mod 8 = 0;
  rp_dest0 : dest <> 0;
  rp_src0 : src <> 0;
  rp_len : 16 * Z.of_nat (length es) < 2 ^ 62;
  rp_total : 16 * Z.of_nat (length es) <> total;
  rp_fits : store_size es <= ulog_base_nbytes;
  rp_entries : read_bytes m (ulog_data src) (16 * length es) = enc_log es;
  rp_term : load64 m (ulog_data src + 16 * Z.of_nat (length es)) = 0;
  rp_cap : store_size es <= load64 m (ulog_capacity_addr src);
  rp_src_slots : slots_ok m (ulog_data src) (store_size es);
  rp_dest_cap : load64 m (ulog_capacity_addr dest) = 0;
  rp_dest_slots : slots_ok m (ulog_data dest) (store_size es);
  rp_apart : apart dest (64 + store_size es) src (64 + store_size es);
  rp_targets : Forall (fun v => apart dest (64 + store_size es) (base p_ops + ve_off v) 8 /\
                                apart src (64 + store_size es) (base p_ops + ve_off v) 8) es
}.

(** The persistent log, as far as recovery reads it, is the one stored. *)
Definition log_intact (dest : Z) (es : list vent) (m : mem) : Prop :=
  load64 m (ulog_next_addr dest) = 0 /\ load64 m (ulog_capacity_addr dest) = store_size es /\
  read_bytes m (ulog_data dest) (16 * length es) = enc_log es /\
  load64 m (ulog_data dest + 16 * Z.of_nat (length es)) = 0.

#[global] Instance log_intact_dec dest es m : Decision (log_intact dest es m).
Proof. unfold log_intact. apply _. Defined.

(** Two memories agree on every word outside the two logs. *)
Definition same_on (P : Z -> Prop) (m m' : mem) : Prop := forall w, w mod 8 = 0 -> P w -> agree m m' w 8.
Definition same_pool (dest src : Z) (es : list vent) (m m' : mem) : Prop :=
  forall w, w mod 8 = 0 -> apart dest (64 + store_size es) w 8 ->
    apart src (64 + store_size es) w 8 -> agree m m' w 8.

(** Recovery from [img] terminates with the pool content [m]. *)
Definition recovers_on (fuel : nat) (p_ops : pmem_ops) (dest : Z) (P : Z -> Prop) (img m : mem) : Prop :=
  exists r, ulog_recover fuel dest p_ops (PMst img [] false) = Some r /\ same_on P (vis r) m.
Definition recovers_to (fuel : nat) (p_ops : pmem_ops) (dest src : Z) (es : list vent)
    (img m : mem) : Prop :=
  exists r, ulog_recover fuel dest p_ops (PMst img [] false) = Some r /\
    same_pool dest src es (vis r) m.

(** A torn log whose Fletcher64 checksum verifies nevertheless. *)
Definition checksum_collision (fuel : nat) (dest : Z) (es : list vent) (img : mem) : Prop :=
  ~ log_intact dest es img /\
  exists n, 0 < n /\ ulog_base_nbytes fuel img dest = Some n /\
    ulog_checksum_verify img dest n = Some true.

(** ** Generic lemmas *)

Lemma apply_log_agree b es m m' w :
  Forall vent_ok es -> Forall vent_aligned es -> b mod 8 = 0 -> w mod 8 = 0 ->
  agree m m' w 8 -> agree (apply_log b es m) (apply_log b es m') w 8.
Proof.
  intros Hok Ha Hb Hw Hag. apply (apply_log_absorb b es m' m w 0); done.
Qed.

(** A prefix of a run with one store into the range shows the range before or
    after that store. *)
Lemma prefix_one_store m pre a bs post lo n k :
  Forall (ev_avoids lo n) pre -> Forall (ev_avoids lo n) post ->
  agree (replay m (take k (pre ++ EvStore a bs :: post))) m lo n \/
  agree (replay m (take k (pre ++ EvStore a bs :: post))) (write_bytes m a bs) lo n.
Proof.
  intros Hpre Hpost. destruct (decide (k <= length pre)%nat).
  - left. rewrite take_app_le by done. apply replay_avoids, Forall_take, Hpre.
  - right. rewrite take_app_ge by lia. destruct (k - length pre)%nat as [|j] eqn:E; [lia|].
    rewrite firstn_cons, replay_app. cbn [replay foldl apply_ev].
    eapply agree_trans; [apply replay_avoids, Forall_take, Hpost|].
    apply agree_write, replay_avoids, Hpre.
Qed.

(** Agreement word by word on an aligned range. *)
Lemma agree_words m m' lo n :
  lo mod 8 = 0 -> n mod 8 = 0 ->
  (forall w, w mod 8 = 0 -> lo <= w -> w + 8 <= lo + n -> agree m m' w 8) -> agree m m' lo n.
Proof.
  intros Hl Hn H x Hx. destruct (word_of_spec x) as [Hw Hb].
  apply (H (word_of x) Hw); [| |lia].
  - pose proof (Z.div_mod lo 8 ltac:(lia)). unfold word_of in *.
    assert (lo / 8 <= x / 8) by (apply Z.div_le_mono; lia). lia.
  - pose proof (Z.div_mod lo 8 ltac:(lia)). pose proof (Z.div_mod n 8 ltac:(lia)).
    unfold word_of in *. assert (x / 8 < lo / 8 + n / 8) by lia. lia.
Qed.

(** A power failure, as far as some words are concerned. *)
Definition crash_on (P : Z -> Prop) (m0 : mem) (tr : list pevent) (img : mem) : Prop :=
  forall w, w mod 8 = 0 -> P w -> crash_word m0 tr img w.

Lemma crash_image_on P m0 tr img : crash_image m0 tr img -> crash_on P m0 tr img.
Proof. intros Hc w Hw _. by apply Hc. Qed.

Section Run.
Context (p_ops : pmem_ops) (dest src base_nb total : Z) (es : list vent) (m0 : mem).
(** What happened before the run. *)
Context (tr0 : list pevent) (flt : bool).
Hypothesis Hpre : redo_pre p_ops dest src base_nb total es m0.

Let nb : Z := 16 * Z.of_nat (length es).
Let sz : Z := store_size es.

Lemma nb_pos : 16 <= nb.
Proof. unfold nb. pose proof (rp_ne _ _ _ _ _ _ _ Hpre). destruct es; [done|]. simpl length. lia. Qed.

Lemma sz_facts : nb + 8 <= sz < nb + 72 /\ sz mod 64 = 0.
Proof.
  pose proof (rp_len _ _ _ _ _ _ _ Hpre). pose proof nb_pos. unfold nb in *.
  unfold sz, store_size, CACHELINE_ALIGN, sizeof_entry_base.
  destruct (align_up_64_bounds (16 * Z.of_nat (length es) + 8)); lia.
Qed.

Lemma hdr_mod4 : (64 + nb) mod 4 = 0.
Proof.
  unfold nb. replace (64 + 16 * Z.of_nat (length es)) with ((16 + 4 * Z.of_nat (length es)) * 4) by lia.
  apply Z.mod_mul. lia.
Qed.

(** ** The state after ulog_store *)

Let old_cap : Z := load64 m0 (ulog_capacity_addr src).
Let m2 : mem := write_bytes (write_bytes m0 (src + 16) (le64 sz)) (src + 8) (le64 0).
Definition store_evs (csum : Z) (L : list byte) : list pevent :=
  [EvStore (src + 16) (le64 sz); EvStore (src + 8) (le64 0); EvStore src (le64 csum);
   EvStore dest L; EvFlush dest (64 + sz); EvDrain; EvStore (src + 16) (le64 old_cap)].

Lemma store_run :
  exists csum, let m3 := write_bytes m2 src (le64 csum) in
    let L := read_bytes m3 src (Z.to_nat (64 + sz)) in
    ulog_store dest src nb base_nb total [] p_ops (PMst m0 tr0 flt) =
      Some (PMst (replay m0 (store_evs csum L)) (tr0 ++ store_evs csum L) flt) /\
    ulog_checksum_verify m3 src nb = Some true.
Proof.
  pose proof nb_pos. pose proof sz_facts as [Hsz _].
  pose proof (rp_len _ _ _ _ _ _ _ Hpre) as Hlen. fold nb in Hlen.
  pose proof (rp_fits _ _ _ _ _ _ _ Hpre) as Hfit. fold sz in Hfit.
  set (s2 := PMst m2 ((tr0 ++ [EvStore (src + 16) (le64 sz)]) ++ [EvStore (src + 8) (le64 0)]) flt).
  assert (exists csum, ulog_checksum_insert src nb s2 = Some (st_store64 src csum s2)) as [csum Hins].
  { unfold ulog_checksum_insert, util_checksum_insert, SIZEOF_ULOG, SIZEOF_ULOG_HDR, ulog_checksum_addr.
    pose proof hdr_mod4 as H4.
    rewrite checksum_compute_seq by (lia || done || (rewrite Z.sub_diag; done)).
    destruct (checksum_seq_some (zero_field (vis s2) src) src (64 + nb) 0 H4) as (v & -> & _).
    by exists v. }
  exists csum. intros m3 L. split.
  - unfold ulog_store. pose proof (rp_total _ _ _ _ _ _ _ Hpre) as Ht. fold nb in Ht.
    destruct (Z.eqb_spec nb total); [done|].
    rewrite u64_small by (unfold sizeof_entry_base; lia).
    change (CACHELINE_ALIGN (nb + sizeof_entry_base)) with sz.
    rewrite !Z.min_r by lia. rewrite Z.sub_diag. cbn [ulog_store_next Z.ltb Z.compare].
    cbn [Nat.eqb vis vec_front_or_0]. change (ulog_capacity_addr src) with (src + 16).
    change (ulog_next_addr src) with (src + 8).
    change (st_store64 (src + 8) 0 (st_store64 (src + 16) sz (PMst m0 tr0 flt))) with s2.
    rewrite Hins. unfold pmemops_memcpy. rewrite memcpy_from_wc by apply Hpre.
    unfold SIZEOF_ULOG, SIZEOF_ULOG_HDR. rewrite length_read_bytes, Z2Nat.id by lia.
    unfold st_store64, st_store, st_flush, st_drain, s2, store_evs. cbn [trace vis fault]. rewrite <- !app_assoc. done.
  - eapply (checksum_insert_verify src (64 + nb) src s2 (st_store64 src csum s2)); try lia; [| |exact Hins].
    + apply hdr_mod4.
    + rewrite Z.sub_diag. done.
Qed.

(** ** Recovery from an intact log *)

Lemma intact_scan img fuel :
  log_intact dest es img -> (Z.to_nat sz < 16 * fuel)%nat ->
  ulog_base_nbytes fuel img dest = Some nb.
Proof.
  intros (_ & Hc & Hr & Ht) Hf. pose proof sz_facts as [Hsz _]. pose proof nb_pos.
  pose proof (rp_len _ _ _ _ _ _ _ Hpre) as Hlen. fold nb in Ht, Hlen. fold sz in Hc.
  unfold ulog_base_nbytes. rewrite (base_nbytes_piece img dest 0 es fuel); fold nb; rewrite ?Z.add_0_l.
  - done.
  - apply Hpre.
  - lia.
  - by rewrite Z.add_0_r.
  - lia.
  - rewrite Hc. lia.
  - left. by rewrite Z.add_0_r.
  - unfold nb in *. lia.
Qed.

Lemma chain_of_log u m n c :
  read_bytes m (ulog_data u) (16 * length es) = enc_log es ->
  load64 m (ulog_data u + nb) = 0 -> load64 m (ulog_capacity_addr u) = c ->
  nb < c -> nb + 72 <= n ->
  chain_at (fun x => u <= x < u + n) p_ops m u 0 (S (length es)) es.
Proof.
  intros Hr Ht Hc Hnc Hn. pose proof nb_pos.
  pose proof (rp_len _ _ _ _ _ _ _ Hpre) as Hlen. fold nb in Hlen.
  apply piece_chain; unfold within, ulog_capacity_addr, ulog_next_addr, ulog_data, SIZEOF_ULOG_HDR in *;
    fold nb; rewrite ?Z.add_0_l; try lia.
  - apply Hpre.
  - by rewrite Z.add_0_r.
  - left. rewrite Z.add_0_r. lia.
Qed.

Lemma targets_out u : u = dest \/ u = src ->
  Forall (target_out (fun x => u <= x < u + (64 + sz)) (base p_ops)) es.
Proof.
  intros Hu. eapply Forall_impl; [exact (rp_targets _ _ _ _ _ _ _ Hpre)|]. intros v [H1 H2] x Hx HP. cbn beta in HP.
  unfold apart in *. fold sz in H1, H2. destruct Hu as [-> | ->]; lia.
Qed.

Lemma intact_recover img fuel :
  log_intact dest es img -> ulog_checksum_verify img dest nb = Some true ->
  (Z.to_nat sz < 16 * fuel)%nat ->
  exists r, ulog_recover fuel dest p_ops (PMst img [] false) = Some r /\
  forall w, apart dest (64 + sz) w 8 -> agree (vis r) (apply_log (base p_ops) es img) w 8.
Proof.
  intros Hi Hv Hf. pose proof sz_facts as [Hsz _]. pose proof nb_pos.
  pose proof (intact_scan img fuel Hi Hf) as Hscan. destruct Hi as (_ & Hc & Hr & Ht). fold sz in Hc.
  unfold ulog_recover, ulog_recovery_needed. cbn [vis]. rewrite Hscan. cbn [mbind option_bind].
  rewrite Hc, Z.min_l by lia. destruct (Z.eqb_spec nb 0); [lia|]. rewrite Hv.
  rewrite (process_chain (fun x => dest <= x < dest + (64 + sz)) p_ops dest (S (length es)) es).
  - eexists. split; [done|]. intros w Hw. unfold ulog_clobber.
    rewrite memcpy_from_wc by apply Hpre. cbn [vis st_drain st_flush st_store].
    eapply agree_trans; [apply agree_write_out|rewrite proc_log_vis; apply agree_refl].
    rewrite !length_app, !length_le64, length_replicate. unfold apart in Hw. lia.
  - apply Hpre.
  - apply (chain_of_log _ _ _ sz); try done; lia.
  - apply targets_out. by left.
  - unfold nb in *. lia.
Qed.

(** Whatever the log area holds, the scan ends; recovery starts only on a log
    that has the new capacity and whose checksum verifies. *)
Lemma needed_cases img fuel :
  slots_ok img (ulog_data dest) sz ->
  load64 img (ulog_capacity_addr dest) = 0 \/ load64 img (ulog_capacity_addr dest) = sz ->
  (Z.to_nat sz < 16 * fuel)%nat ->
  ulog_recovery_needed fuel img dest true = Some false \/
  ulog_recovery_needed fuel img dest true = Some true /\
    exists n, 0 < n /\ ulog_base_nbytes fuel img dest = Some n /\
      ulog_checksum_verify img dest n = Some true.
Proof.
  intros Hs Hc Hf. pose proof sz_facts as [Hsz Hm]. pose proof nb_pos.
  pose proof (rp_len _ _ _ _ _ _ _ Hpre) as Hlen. fold nb in Hlen.
  pose proof (Z.div_mod sz 64 ltac:(lia)) as Hd.
  assert (sz mod 16 = 0) as H16.
  { replace sz with ((4 * (sz / 64)) * 16) by lia. apply Z.mod_mul. lia. }
  destruct (base_nbytes_slots img dest 0 fuel) as (j & Hj & Hb & Hle).
  - intros i Hi Hlt. apply Hs; [done|]. destruct Hc as [E|E]; rewrite E in Hlt; lia.
  - destruct Hc as [-> | ->]; done.
  - destruct Hc as [-> | ->]; lia.
  - lia.
  - pose proof (load64_range img (ulog_capacity_addr dest)). lia.
  - destruct Hc as [-> | ->]; lia.
  - unfold ulog_recovery_needed, ulog_base_nbytes. change (16 * 0) with 0 in Hb. rewrite Hb.
    cbn [mbind option_bind]. rewrite Z.min_l by done.
    destruct (Z.eqb_spec (16 * j) 0); [by left|].
    destruct (ulog_checksum_verify img dest (16 * j)) as [b|] eqn:Hv.
    + destruct b; [|by left]. right. split; [done|]. exists (16 * j). split; [lia|done].
    + exfalso. revert Hv. unfold ulog_checksum_verify, util_checksum_verify, util_checksum_compute,
        SIZEOF_ULOG, SIZEOF_ULOG_HDR.
      replace ((64 + 16 * j) mod 4) with 0; [done|].
      replace (64 + 16 * j) with ((16 + 4 * j) * 4) by lia. rewrite Z.mod_mul by lia. done.
Qed.

(** ** What a power failure leaves of the log *)

Section Image.
Context (csum : Z).
Let m3 : mem := write_bytes m2 src (le64 csum).
Let L : list byte := read_bytes m3 src (Z.to_nat (64 + sz)).
Let mL : mem := write_bytes m0 dest L.
Let m7 : mem := replay m0 (store_evs csum L).
Let evs : list pevent := store_evs csum L ++ proc_evs (base p_ops) es m7.

Lemma length_L : Z.of_nat (length L) = 64 + sz.
Proof. pose proof sz_facts as [Hsz _]. pose proof nb_pos. unfold L. rewrite length_read_bytes. lia. Qed.

Lemma mL_load k : 0 <= k -> k + 8 <= 64 + sz -> load64 mL (dest + k) = load64 m3 (src + k).
Proof.
  intros H1 H2. unfold load64. f_equal. apply read_bytes_eq. intros i Hi.
  unfold mL, L. rewrite write_read_pt.
  destruct (Z.leb_spec dest (dest + k + i)), (Z.ltb_spec (dest + k + i) (dest + Z.of_nat (Z.to_nat (64 + sz))));
    cbn [andb]; try lia. f_equal. lia.
Qed.

Lemma m3_data k : 24 <= k -> load64 m3 (src + k) = load64 m0 (src + k).
Proof. intros Hk. unfold m3, m2. rewrite !load64_write_disj; rewrite ?length_le64; lia || done. Qed.

Lemma mL_slots : slots_ok mL (ulog_data dest) sz.
Proof.
  intros i Hi Hlt. pose proof sz_facts as [_ Hm]. pose proof (Z.div_mod sz 64 ltac:(lia)).
  unfold ulog_data, SIZEOF_ULOG_HDR. rewrite <- Z.add_assoc, mL_load, m3_data by lia.
  rewrite Z.add_assoc. by apply (rp_src_slots _ _ _ _ _ _ _ Hpre).
Qed.

Lemma mL_cap : load64 mL (ulog_capacity_addr dest) = sz.
Proof.
  pose proof sz_facts as [Hsz _]. pose proof nb_pos.
  pose proof (rp_len _ _ _ _ _ _ _ Hpre) as Hlen. fold nb in Hlen.
  unfold ulog_capacity_addr. rewrite mL_load by lia. unfold m3, m2.
  rewrite 2load64_write_disj by (rewrite ?length_le64; lia).
  rewrite load64_write_same. apply u64_small. lia.
Qed.

Lemma mL_intact : log_intact dest es mL.
Proof.
  pose proof sz_facts as [Hsz _]. pose proof nb_pos as Hnb.
  split; [|split; [apply mL_cap|split]].
  - unfold ulog_next_addr. rewrite mL_load by lia. unfold m3, m2.
    rewrite load64_write_disj by (rewrite ?length_le64; lia). rewrite load64_write_same. done.
  - rewrite <- (rp_entries _ _ _ _ _ _ _ Hpre). apply read_bytes_eq. intros i Hi.
    unfold mL, L. rewrite write_read_pt. unfold ulog_data, SIZEOF_ULOG_HDR, nb in *.
    destruct (Z.leb_spec dest (dest + 64 + i)),
      (Z.ltb_spec (dest + 64 + i) (dest + Z.of_nat (Z.to_nat (64 + sz)))); cbn [andb]; try lia.
    replace (src + (dest + 64 + i - dest)) with (src + 64 + i) by lia.
    unfold m3, m2. rewrite !write_bytes_out; rewrite ?length_le64; lia || done.
  - unfold ulog_data, SIZEOF_ULOG_HDR. fold nb. rewrite <- Z.add_assoc, mL_load, m3_data by lia.
    rewrite Z.add_assoc. apply (rp_term _ _ _ _ _ _ _ Hpre).
Qed.

Lemma mL_verify : ulog_checksum_verify m3 src nb = Some true -> ulog_checksum_verify mL dest nb = Some true.
Proof.
  pose proof sz_facts as [Hsz _]. pose proof nb_pos as Hnb.
  unfold ulog_checksum_verify, util_checksum_verify, SIZEOF_ULOG, SIZEOF_ULOG_HDR, ulog_checksum_addr.
  pose proof hdr_mod4 as H4.
  rewrite !checksum_compute_seq by (lia || done || (rewrite Z.sub_diag; done)).
  rewrite (checksum_seq_ext (zero_field mL dest) (zero_field m3 src) dest src); [|lia|].
  - pose proof (mL_load 0 ltac:(lia) ltac:(lia)) as E. rewrite !Z.add_0_r in E. rewrite E. done.
  - intros i Hi. unfold zero_field. rewrite !write_replicate_pt. unfold mL, L. rewrite write_read_pt.
    destruct (Z.leb_spec dest (dest + i)), (Z.ltb_spec (dest + i) (dest + Z.of_nat 8)),
      (Z.leb_spec src (src + i)), (Z.ltb_spec (src + i) (src + Z.of_nat 8)),
      (Z.ltb_spec (dest + i) (dest + Z.of_nat (Z.to_nat (64 + sz)))); cbn [andb]; try lia; try done.
    f_equal. lia.
Qed.

Lemma proc_avoid lo n m :
  dest <= lo -> lo + n <= dest + (64 + sz) ->
  Forall (ev_avoids lo n) (proc_evs (base p_ops) es m).
Proof.
  intros H1 H2. apply proc_evs_avoid. eapply Forall_impl; [exact (rp_targets _ _ _ _ _ _ _ Hpre)|].
  intros v [Hd _]. unfold apart in Hd. fold sz in Hd. lia.
Qed.

(** The stores to the shadow log leave the persistent one alone. *)
Lemma src_store_avoids a v lo n :
  src <= a -> a + 8 <= src + 24 -> dest <= lo -> lo + n <= dest + (64 + sz) ->
  ev_avoids lo n (EvStore a (le64 v)).
Proof.
  intros H1 H2 H3 H4. pose proof sz_facts as [Hsz _]. pose proof nb_pos.
  pose proof (rp_apart _ _ _ _ _ _ _ Hpre) as Ha. unfold apart in Ha. fold sz in Ha.
  cbn [ev_avoids]. rewrite length_le64. lia.
Qed.

(** ulog_process on the shadow log. *)
Lemma process_run fuel :
  (Z.to_nat sz < 16 * fuel)%nat ->
  exists s, ulog_process fuel src p_ops (PMst m7 (tr0 ++ store_evs csum L) flt) = Some s /\
    trace s = tr0 ++ evs /\ vis s = replay m0 evs /\
    same_pool dest src es (vis s) (apply_log (base p_ops) es m0).
Proof.
  intros Hf. pose proof sz_facts as [Hsz _]. pose proof nb_pos as Hnb. pose proof length_L as HL.
  pose proof (rp_apart _ _ _ _ _ _ _ Hpre) as Ha. unfold apart in Ha. fold sz in Ha.
  assert (forall k, 24 <= k -> k < 64 + sz -> m7 (src + k) = m0 (src + k)) as Hd.
  { intros k H1 H2. unfold m7, store_evs. cbn [replay foldl apply_ev].
    rewrite !write_bytes_out; rewrite ?HL, ?length_le64; lia || done. }
  pose proof (rp_cap _ _ _ _ _ _ _ Hpre) as Hcap. fold sz in Hcap.
  rewrite (process_chain (fun x => src <= x < src + (64 + sz)) p_ops src (S (length es)) es).
  - eexists. split; [done|]. split; [rewrite proc_log_trace by apply Hpre; cbn [trace vis]; unfold evs; by rewrite <- app_assoc|].
    rewrite proc_log_vis. split; [unfold evs; by rewrite replay_app, proc_evs_replay|]. intros w Hw A1 A2. unfold apart in A1, A2. cbn [vis].
    apply apply_log_agree; [apply Hpre..|done|]. apply replay_avoids. fold sz in A1, A2.
    unfold store_evs. do 7 (apply Forall_cons; split; [cbn [ev_avoids]; try done;
      rewrite ?HL, ?length_le64; lia|]). constructor.
  - apply Hpre.
  - apply (chain_of_log _ _ _ old_cap); cbn [vis]; try lia.
    + rewrite <- (rp_entries _ _ _ _ _ _ _ Hpre). apply read_bytes_eq. intros i Hi.
      unfold ulog_data, SIZEOF_ULOG_HDR, nb in *. rewrite <- Z.add_assoc. apply Hd; lia.
    + rewrite <- (rp_term _ _ _ _ _ _ _ Hpre). unfold load64. f_equal. apply read_bytes_eq.
      intros i Hi. unfold ulog_data, SIZEOF_ULOG_HDR. fold nb. rewrite <- !Z.add_assoc. apply Hd; lia.
    + unfold m7, store_evs, ulog_capacity_addr. cbn [replay foldl apply_ev].
      rewrite load64_write_same. apply u64_small, load64_range.
  - apply targets_out. by right.
  - unfold nb in *. lia.
Qed.

(** The run leaves no word outside of the shadow log without a flush. *)
Lemma run_pending w : w mod 8 = 0 -> apart src (64 + sz) w 8 -> pending evs w = false.
Proof.
  intros Hw A2. unfold apart in *. pose proof length_L as HL. pose proof sz_facts as [Hsz _].
  pose proof nb_pos. unfold evs. rewrite pending_app. apply proc_evs_pending; [done|].
  assert (forall a bs p, apart a (Z.of_nat (length bs)) w 8 ->
    pending_step w p (EvStore a bs) = p) as Hst.
  { intros a bs p Ha. cbn [pending_step]. unfold touches, apart in *.
    destruct (Z.ltb_spec a (w + 8)), (Z.ltb_spec w (a + Z.of_nat (length bs))); done || lia. }
  assert (apart dest (64 + sz) w 8 \/ covers dest (64 + sz) w = true) as Hd.
  { destruct (decide (apart dest (64 + sz) w 8)) as [|Hn]; [by left|right]. pose proof (rp_dest8 _ _ _ _ _ _ _ Hpre) as D8.
    unfold apart in Hn. pose proof (Z.div_mod dest 8 ltac:(lia)). pose proof (Z.div_mod w 8 ltac:(lia)). apply covers_word; lia || done. }
  unfold pending, store_evs. cbn [foldl].
  rewrite (Hst (src + 16)), (Hst (src + 8)), (Hst src), (Hst (src + 16)) by (unfold apart; rewrite ?length_le64; lia).
  destruct Hd as [A1|Hc]; cbn [pending_step].
  - unfold touches. rewrite HL. unfold apart in A1. destruct (Z.ltb_spec dest (w + 8)), (Z.ltb_spec w (dest + (64 + sz))); cbn [andb]; try lia; by destruct (covers _ _ _).
  - by rewrite Hc.
Qed.

(** The persistent log holds value entries. *)
Lemma run_dest_slots : slots_ok (replay m0 evs) (ulog_data dest) sz.
Proof.
  intros i Hi Hlt. pose proof sz_facts as [Hs1 Hs2]. pose proof nb_pos. pose proof (Z.div_mod sz 64 ltac:(lia)) as Hdm.
  assert (agree (replay m0 evs) mL (ulog_data dest + 16 * i) 8) as Hag.
  { unfold ulog_data, SIZEOF_ULOG_HDR. unfold evs. rewrite replay_app. eapply agree_trans; [apply replay_avoids, proc_avoid; lia|]. unfold store_evs. cbn [replay foldl apply_ev].
    pose proof (rp_apart _ _ _ _ _ _ _ Hpre) as Ha. unfold apart in Ha. fold sz in Ha. unfold mL.
    intros x Hx. rewrite write_bytes_out by (rewrite length_le64; lia). apply agree_write with (lo := dest) (n := 64 + sz); [|lia].
    intros y Hy. rewrite !write_bytes_out by (rewrite length_le64; lia). done. }
  rewrite (agree_load64 _ _ _ Hag). by apply mL_slots.
Qed.

(** What the run leaves alone, and the capacity of the shadow log. *)
Lemma run_frame lo n : src + 24 <= lo \/ lo + n <= src -> apart dest (64 + sz) lo n ->
  Forall (fun v => apart (base p_ops + ve_off v) 8 lo n) es -> agree (replay m0 evs) m0 lo n.
Proof.
  intros H1 H2 H3. pose proof length_L as HL. unfold apart in *. apply replay_avoids. unfold evs, store_evs. apply Forall_app. split.
  - do 7 (apply Forall_cons; split; [cbn [ev_avoids]; try done; rewrite ?HL, ?length_le64; lia|]). constructor.
  - apply proc_evs_avoid. eapply Forall_impl; [exact H3|]. cbn. lia.
Qed.

Lemma run_cap : load64 (replay m0 evs) (ulog_capacity_addr src) = old_cap.
Proof.
  unfold evs. rewrite replay_app. rewrite (agree_load64 _ m7).
  - unfold m7, store_evs, ulog_capacity_addr. cbn [replay foldl apply_ev]. rewrite load64_write_same. apply u64_small, load64_range.
  - apply replay_avoids, proc_evs_avoid. eapply Forall_impl; [exact (rp_targets _ _ _ _ _ _ _ Hpre)|]. intros v [_ Hd]. unfold apart in Hd. fold sz in Hd.
    pose proof sz_facts as [Hsz _]. pose proof nb_pos. unfold ulog_capacity_addr. lia.
Qed.

(** The words in question: some of those outside of the shadow log, and those of
    the persistent log. *)
Context (P : Z -> Prop) (HPsrc : forall w, P w -> apart src (64 + sz) w 8).
Context (HPdest : forall w, dest <= w -> w + 8 <= dest + (64 + sz) -> P w).
Let outside (w : Z) : Prop := P w /\ apart dest (64 + sz) w 8.

Lemma dest_word n img w :
  crash_on P m0 (take n evs) img -> w mod 8 = 0 -> dest <= w -> w + 8 <= dest + (64 + sz) ->
  agree img m0 w 8 \/ agree img mL w 8.
Proof.
  intros Hc Hw H1 H2. destruct (Hc w Hw) as (k & _ & Himg); [by apply HPdest|].
  assert (agree img (replay m0 (take (k `min` n) evs)) w 8) as Hag.
  { intros x Hx. replace x with (w + (x - w)) by lia. rewrite <- take_take. apply Himg. lia. }
  destruct (prefix_one_store m0
    [EvStore (src + 16) (le64 sz); EvStore (src + 8) (le64 0); EvStore src (le64 csum)] dest L
    (EvFlush dest (64 + sz) :: EvDrain :: EvStore (src + 16) (le64 old_cap) ::
     proc_evs (base p_ops) es m7) w 8 (k `min` n)) as [H|H].
  - do 3 (apply Forall_cons; split; [apply src_store_avoids; lia|]). constructor.
  - do 3 (constructor; [try done; try (apply src_store_avoids; lia)|]). apply proc_avoid; lia.
  - left. eapply agree_trans; [exact Hag|exact H].
  - right. eapply agree_trans; [exact Hag|exact H].
Qed.

Lemma image_slots n img : crash_on P m0 (take n evs) img -> slots_ok img (ulog_data dest) sz.
Proof.
  intros Hc i Hi Hlt. pose proof sz_facts as [_ Hm]. pose proof (Z.div_mod sz 64 ltac:(lia)).
  pose proof (rp_dest8 _ _ _ _ _ _ _ Hpre) as Hd8. pose proof (Z.div_mod dest 8 ltac:(lia)).
  unfold ulog_data, SIZEOF_ULOG_HDR.
  destruct (dest_word n img (dest + 64 + 16 * i) Hc) as [H'|H']; [|lia|lia|..].
  - replace (dest + 64 + 16 * i) with ((dest / 8 + 8 + 2 * i) * 8) by lia. apply Z.mod_mul. lia.
  - rewrite (agree_load64 _ _ _ H'). by apply (rp_dest_slots _ _ _ _ _ _ _ Hpre).
  - rewrite (agree_load64 _ _ _ H'). by apply mL_slots.
Qed.

Lemma image_cap n img :
  crash_on P m0 (take n evs) img ->
  load64 img (ulog_capacity_addr dest) = 0 \/ load64 img (ulog_capacity_addr dest) = sz.
Proof.
  intros Hc. pose proof sz_facts as [Hsz _]. pose proof nb_pos.
  pose proof (rp_dest8 _ _ _ _ _ _ _ Hpre) as Hd8. pose proof (Z.div_mod dest 8 ltac:(lia)).
  destruct (dest_word n img (ulog_capacity_addr dest) Hc) as [H'|H']; unfold ulog_capacity_addr in *;
    [|lia|lia|..].
  - replace (dest + 16) with ((dest / 8 + 2) * 8) by lia. apply Z.mod_mul. lia.
  - left. rewrite (agree_load64 _ _ _ H'). apply (rp_dest_cap _ _ _ _ _ _ _ Hpre).
  - right. rewrite (agree_load64 _ _ _ H'). apply mL_cap.
Qed.

(** Outside both logs nothing happens before the entries are applied, and then
    a word shows a prefix of the updates. *)
Lemma outside_word n img w :
  crash_on P m0 (take n evs) img -> w mod 8 = 0 ->
  apart dest (64 + sz) w 8 -> P w ->
  exists j, agree img (apply_log (base p_ops) (take j es) m0) w 8 /\ ((n <= 5)%nat -> j = 0%nat).
Proof.
  intros Hc Hw Ha1 Ha2. pose proof sz_facts as [Hsz _]. pose proof nb_pos.
  destruct (Hc w Hw Ha2) as (k & _ & Himg). apply HPsrc in Ha2. unfold apart in Ha1, Ha2. rewrite take_take in Himg.
  assert (Forall (ev_avoids w 8) (store_evs csum L)) as Hav.
  { unfold store_evs. do 7 (apply Forall_cons; split; [cbn [ev_avoids]; try done;
      rewrite ?length_L, ?length_le64; lia|]). constructor. }
  assert (agree img (replay m0 (take (k `min` n) evs)) w 8) as Hag.
  { intros x Hx. replace x with (w + (x - w)) by lia. apply Himg. lia. }
  destruct (decide (k `min` n <= length (store_evs csum L))%nat) as [Hle|Hgt].
  - exists 0%nat. split; [|done]. eapply agree_trans; [exact Hag|].
    unfold evs. rewrite take_app_le by done. by apply replay_avoids, Forall_take.
  - assert (length (store_evs csum L) = 7%nat) as E7 by done.
    destruct (proc_evs_prefix (base p_ops) es m7 (k `min` n - 7)) as [j Hj].
    exists j. split; [|lia]. eapply agree_trans; [exact Hag|].
    unfold evs. rewrite take_app_ge, replay_app by lia. rewrite E7. fold m7. rewrite Hj.
    apply apply_log_agree; [apply Forall_take, Hpre..|apply Hpre|done|by apply replay_avoids].
Qed.

(** After the drain of ulog_store the persistent log is the stored one. *)
Lemma dest_persisted n img :
  (6 <= n)%nat -> crash_on P m0 (take n evs) img -> agree img mL dest (64 + sz).
Proof.
  intros Hn Hc. pose proof sz_facts as [Hsz Hm]. pose proof nb_pos.
  pose proof (Z.div_mod sz 64 ltac:(lia)).
  set (pre := [EvStore (src + 16) (le64 sz); EvStore (src + 8) (le64 0); EvStore src (le64 csum);
               EvStore dest L; EvFlush dest (64 + sz)]).
  set (post := EvStore (src + 16) (le64 old_cap) :: proc_evs (base p_ops) es m7).
  assert (take n evs = pre ++ EvDrain :: take (n - 6) post) as E.
  { do 6 (destruct n as [|n]; [lia|]). change (evs) with (pre ++ EvDrain :: post).
    cbn [take app pre]. replace (S (S (S (S (S (S n))))) - 6)%nat with n by lia. done. }
  rewrite E in Hc. apply agree_words; [apply Hpre| |].
  { replace (64 + sz) with ((8 + 8 * (sz / 64)) * 8) by lia. apply Z.mod_mul. lia. }
  intros w Hw H1 H2. eapply agree_trans.
  - apply (crash_word_persisted m0 pre (take (n - 6) post) img w); [apply Hc; [done|by apply HPdest]|..].
    + unfold pre, pending. cbn [foldl pending_step].
      rewrite (covers_word dest (64 + sz) w Hw ltac:(apply Hpre)) by lia. done.
    + apply Forall_take. constructor; [apply src_store_avoids; lia|apply proc_avoid; lia].
  - unfold pre. cbn [replay foldl apply_ev]. unfold mL. apply agree_write.
    apply (replay_avoids m0 [EvStore (src + 16) (le64 sz); EvStore (src + 8) (le64 0);
      EvStore src (le64 csum)] w 8).
    do 3 (apply Forall_cons; split; [apply src_store_avoids; lia|]). constructor.
Qed.

Lemma persisted_recovers n img fuel :
  ulog_checksum_verify m3 src nb = Some true ->
  (6 <= n)%nat -> crash_on P m0 (take n evs) img -> (Z.to_nat sz < 16 * fuel)%nat ->
  recovers_on fuel p_ops dest outside img (apply_log (base p_ops) es m0).
Proof.
  intros Hv Hn Hc Hf. pose proof (dest_persisted n img Hn Hc) as Hag.
  pose proof sz_facts as [Hsz _]. pose proof nb_pos as Hnb.
  destruct (intact_recover img fuel) as (r & Hr & Hw); [|..|done|].
  - destruct mL_intact as (I1 & I2 & I3 & I4). unfold log_intact, ulog_data, ulog_next_addr,
      ulog_capacity_addr, SIZEOF_ULOG_HDR in *. fold nb in I4. fold nb.
    rewrite !(load64_agree _ _ _ _ _ Hag) by lia.
    rewrite (read_bytes_agree _ _ _ _ _ _ Hag) by (unfold nb in *; lia). done.
  - rewrite <- (mL_verify Hv).
    unfold ulog_checksum_verify, util_checksum_verify, SIZEOF_ULOG, SIZEOF_ULOG_HDR, ulog_checksum_addr.
    pose proof hdr_mod4 as H4.
    rewrite !checksum_compute_seq by (lia || done || (rewrite Z.sub_diag; done)).
    rewrite (checksum_seq_ext (zero_field img dest) (zero_field mL dest) dest dest); [|lia|].
    + rewrite (load64_agree _ _ _ _ _ Hag) by lia. done.
    + intros i Hi. unfold zero_field. apply agree_write with (lo := dest) (n := 64 + sz); [done|lia].
  - exists r. split; [done|]. intros w Hw8 [Ha2 Ha1].
    eapply agree_trans; [by apply Hw|].
    destruct (outside_word n img w Hc Hw8 Ha1 Ha2) as (j & Hj & _).
    eapply apply_log_absorb; [apply Hpre..|done|exact Hj].
Qed.

(** Before that drain the pool is untouched. *)
Lemma early_recovers n img fuel :
  (n <= 5)%nat -> crash_on P m0 (take n evs) img -> (Z.to_nat sz < 16 * fuel)%nat ->
  recovers_on fuel p_ops dest outside img m0 \/
  recovers_on fuel p_ops dest outside img (apply_log (base p_ops) es m0) \/
  checksum_collision fuel dest es img.
Proof.
  intros Hn Hc Hf.
  destruct (needed_cases img fuel (image_slots n img Hc) (image_cap n img Hc) Hf)
    as [Hno|[Hyes (k & Hk & Hb & Hv)]].
  - left. exists (PMst img [] false). split.
    + unfold ulog_recover. cbn [vis]. rewrite Hno. done.
    + intros w Hw [Ha2 Ha1]. destruct (outside_word n img w Hc Hw Ha1 Ha2) as (j & Hj & H0).
      rewrite (H0 Hn) in Hj. exact Hj.
  - right. destruct (decide (log_intact dest es img)) as [Hi|Hi].
    + left. pose proof (intact_scan img fuel Hi Hf) as Hs. rewrite Hb in Hs. injection Hs as ->.
      destruct (intact_recover img fuel Hi Hv Hf) as (r & Hr & Hw).
      exists r. split; [done|]. intros w Hw8 [Ha2 Ha1]. eapply agree_trans; [by apply Hw|].
      destruct (outside_word n img w Hc Hw8 Ha1 Ha2) as (j & Hj & _).
      eapply apply_log_absorb; [apply Hpre..|done|exact Hj].
    + right. split; [done|]. by exists k.
Qed.

End Image.

(** ** The whole run *)

Lemma redo_run fuel (P : Z -> Prop) : (forall w, P w -> apart src (64 + sz) w 8) -> (forall w, dest <= w -> w + 8 <= dest + (64 + sz) -> P w) ->
  let outside w := P w /\ apart dest (64 + sz) w 8 in
  (Z.to_nat sz < 16 * fuel)%nat ->
  exists s1 s2 tr1 tr2,
    ulog_store dest src nb base_nb total [] p_ops (PMst m0 tr0 flt) = Some s1 /\
    ulog_process fuel src p_ops s1 = Some s2 /\
    (trace s1 = tr0 ++ tr1 /\ trace s2 = tr0 ++ tr2) /\
    same_pool dest src es (vis s2) (apply_log (base p_ops) es m0) /\
    (vis s2 = replay m0 tr2 /\
     (forall w, w mod 8 = 0 -> apart src (64 + sz) w 8 -> pending tr2 w = false) /\
     slots_ok (vis s2) (ulog_data dest) sz /\
     load64 (vis s2) (ulog_capacity_addr src) = load64 m0 (ulog_capacity_addr src) /\
     (forall lo n, src + 24 <= lo \/ lo + n <= src -> apart dest (64 + sz) lo n ->
        Forall (fun v => apart (base p_ops + ve_off v) 8 lo n) es -> agree (vis s2) m0 lo n)) /\
    forall n img, crash_on P m0 (take n tr2) img ->
      (recovers_on fuel p_ops dest outside img m0 \/
       recovers_on fuel p_ops dest outside img (apply_log (base p_ops) es m0) \/
       checksum_collision fuel dest es img) /\
      ((length tr1 <= n)%nat ->
       recovers_on fuel p_ops dest outside img (apply_log (base p_ops) es m0)).
Proof.
  intros HP1 HP2 outside Hf. destruct store_run as (csum & Hst & Hv).
  destruct (process_run csum fuel Hf) as (s2 & Hp & Htr & Hvis & Hsame).
  eexists _, s2, _, _. split; [exact Hst|]. split; [exact Hp|]. split; [split; [reflexivity|exact Htr]|]. split; [exact Hsame|].
  split; [split; [exact Hvis|split; [exact (run_pending csum)|rewrite Hvis; split; [exact (run_dest_slots csum)|split; [exact (run_cap csum)|exact (run_frame csum)]]]]|]. intros n img Hc. split.
  - destruct (decide (6 <= n)%nat) as [Hn|Hn].
    + right. left. by eapply persisted_recovers.
    + eapply (early_recovers csum P); [done|done| |exact Hc|exact Hf]; lia.
  - intros Hn. eapply persisted_recovers; [done|done|exact Hv| |exact Hc|exact Hf]. simpl in Hn. lia.
Qed.
End Run.

Lemma dest_outside p_ops dest src nb total es m : redo_pre p_ops dest src nb total es m ->
  forall w, dest <= w -> w + 8 <= dest + (64 + store_size es) -> apart src (64 + store_size es) w 8.
Proof. intros Hpre w H1 H2. pose proof (rp_apart _ _ _ _ _ _ _ Hpre) as Ha. unfold apart in *. lia. Qed.

(** The images of whole memories. *)
Lemma redo_images fuel p_ops dest src es m m' tr k :
  (forall n img, crash_on (fun w => apart src (64 + store_size es) w 8) m (take n tr) img ->
     (recovers_on fuel p_ops dest (fun w => apart src (64 + store_size es) w 8 /\ apart dest (64 + store_size es) w 8) img m \/
      recovers_on fuel p_ops dest (fun w => apart src (64 + store_size es) w 8 /\ apart dest (64 + store_size es) w 8) img m' \/
      checksum_collision fuel dest es img) /\
     ((k <= n)%nat -> recovers_on fuel p_ops dest (fun w => apart src (64 + store_size es) w 8 /\ apart dest (64 + store_size es) w 8) img m')) ->
  forall n img, crash_image m (take n tr) img ->
    (recovers_to fuel p_ops dest src es img m \/ recovers_to fuel p_ops dest src es img m' \/ checksum_collision fuel dest es img) /\
    ((k <= n)%nat -> recovers_to fuel p_ops dest src es img m').
Proof.
  intros H n img Hc. destruct (H n img (crash_image_on _ _ _ _ Hc)) as [R1 R2].
  assert (forall m, recovers_on fuel p_ops dest (fun w => apart src (64 + store_size es) w 8 /\ apart dest (64 + store_size es) w 8) img m -> recovers_to fuel p_ops dest src es img m) as Hto.
  { intros m1 (r & Er & Hr). exists r. split; [done|]. intros w Hw A1 A2. by apply Hr. }
  split; [|intros Hn; by apply Hto, R2]. destruct R1 as [R|[R|R]]; auto.
Qed.

(** ** The theorem *)

(** C2. Redo crash atomicity.  For a shadow log whose entries fit the base log,
    ulog_store followed by ulog_process (the body of
    operation_process_persistent_redo before the log is clobbered) succeeds and
    applies every entry to the pool; and whatever point of the two calls a power
    failure cuts, and whichever of the possible images it leaves, ulog_recover
    terminates and restores either the old pool content or the content with
    every entry applied, unless a torn log passes its checksum; once ulog_store
    has returned, it is always the new content. *)
Theorem redo_crash_atomic p_ops dest src base_nb total es m0 fuel :
  redo_pre p_ops dest src base_nb total es m0 ->
  (Z.to_nat (store_size es) < 16 * fuel)%nat ->
  exists s1 s2,
    ulog_store dest src (16 * Z.of_nat (length es)) base_nb total [] p_ops (PMst m0 [] false) = Some s1 /\
    ulog_process fuel src p_ops s1 = Some s2 /\
    same_pool dest src es (vis s2) (apply_log (base p_ops) es m0) /\
    forall n img, crash_image m0 (take n (trace s2)) img ->
      (recovers_to fuel p_ops dest src es img m0 \/
       recovers_to fuel p_ops dest src es img (apply_log (base p_ops) es m0) \/
       checksum_collision fuel dest es img) /\
      ((length (trace s1) <= n)%nat ->
       recovers_to fuel p_ops dest src es img (apply_log (base p_ops) es m0)).
Proof.
  intros Hpre Hf. destruct (redo_run _ _ _ _ _ _ _ [] false Hpre fuel (fun w => apart src (64 + store_size es) w 8) ltac:(done) (dest_outside _ _ _ _ _ _ _ Hpre) Hf) as (s1 & s2 & tr1 & tr2 & H1 & H2 & [E1 E2] & H3 & _ & H4).
  exists s1, s2. rewrite E1, E2. do 3 (split; [done|]). exact (redo_images _ _ _ _ _ _ _ _ _ H4).
Qed.

(** ** An instance: two entries, the logs at 1024 and 4096 of a pool at 512 *)

Definition ex_ops : pmem_ops := POps 512 OPS_POOL.
Definition ex_es : list vent := [VEnt 8192 OpSet 7; VEnt 8200 OpOr 5].
Definition ex_mem : mem :=
  write_bytes (write_bytes (fun _ => Byte.x00) (ulog_capacity_addr 4096) (le64 1024))
    (ulog_data 4096) (enc_log ex_es).

Lemma ex_pre : redo_pre ex_ops 1024 4096 640 1664 ex_es ex_mem.
Proof.
  assert (store_size ex_es = 64) as Hsz by (vm_compute; reflexivity).
  assert (forall i, 0 <= i -> 16 * i < 64 -> i = 0 \/ i = 1 \/ i = 2 \/ i = 3) as Hi by lia.
  constructor; rewrite ?Hsz; try (vm_compute ex_ops; reflexivity); try lia; try discriminate.
  - repeat constructor; vm_compute; done.
  - repeat constructor.
  - intros i H0 H1. destruct (Hi i H0 H1) as [->|[->|[->| ->]]]; vm_compute; auto.
  - intros i H0 H1. destruct (Hi i H0 H1) as [->|[->|[->| ->]]]; vm_compute; auto.
  - unfold apart. lia.
  - repeat constructor; unfold apart; cbn; lia.
Defined.

Lemma redo_crash_atomic_witness :
  exists s1 s2,
    ulog_store 1024 4096 (16 * Z.of_nat (length ex_es)) 640 1664 [] ex_ops (PMst ex_mem [] false) = Some s1 /\
    ulog_process 10 4096 ex_ops s1 = Some s2 /\
    same_pool 1024 4096 ex_es (vis s2) (apply_log (base ex_ops) ex_es ex_mem) /\
    forall n img, crash_image ex_mem (take n (trace s2)) img ->
      (recovers_to 10 ex_ops 1024 4096 ex_es img ex_mem \/
       recovers_to 10 ex_ops 1024 4096 ex_es img (apply_log (base ex_ops) ex_es ex_mem) \/
       checksum_collision 10 1024 ex_es img) /\
      ((length (trace s1) <= n)%nat ->
       recovers_to 10 ex_ops 1024 4096 ex_es img (apply_log (base ex_ops) ex_es ex_mem)).
Proof. apply (redo_crash_atomic _ _ _ _ _ _ _ 10 ex_pre). vm_compute. lia. Defined.
