(* ===== verification/UlogEntries.v ===== *)
(** * Creating, validating and invalidating log entries

    ulog_entry_buf_create builds a buffer entry from up to three separate
    copies and checksums the pieces as it goes; ulog_entry_valid reads the entry
    back in one piece together with the generation number of the log.  This
    file shows that the two agree, that a new generation invalidates every
    buffer entry of the old one, and what applying an entry restores. *)
From stdpp Require Import base numbers list list_numbers.
From Stdlib Require Import ZArith Lia Bool.
From S2P Require Import Prelude Pmem Checksum Ulog UlogFacts.

(** ** Writes, pointwise *)

Lemma write_bytes_app m a l1 l2 x :
  write_bytes m a (l1 ++ l2) x =
  write_bytes (write_bytes m a l1) (a + Z.of_nat (length l1)) l2 x.
Proof.
  unfold write_bytes. rewrite length_app, Nat2Z.inj_add.
  destruct (Z.leb_spec a x), (Z.leb_spec (a + Z.of_nat (length l1)) x),
    (Z.ltb_spec x (a + (Z.of_nat (length l1) + Z.of_nat (length l2)))),
    (Z.ltb_spec x (a + Z.of_nat (length l1) + Z.of_nat (length l2))),
    (Z.ltb_spec x (a + Z.of_nat (length l1))); cbn [andb]; try lia; try done.
  - rewrite app_nth2 by lia. f_equal. lia.
  - rewrite app_nth1 by lia. done.
Qed.

(** The same bytes written at two places, read at the same distance. *)
Lemma write_bytes_shift m m' a b bs x y :
  x - a = y - b -> m x = m' y -> write_bytes m a bs x = write_bytes m' b bs y.
Proof.
  intros Hd Hm. unfold write_bytes.
  destruct (Z.leb_spec a x), (Z.leb_spec b y), (Z.ltb_spec x (a + Z.of_nat (length bs))),
    (Z.ltb_spec y (b + Z.of_nat (length bs))); cbn [andb]; try lia; try done.
  f_equal. lia.
Qed.

Lemma write_bytes_cover m m' a bs x :
  a <= x < a + Z.of_nat (length bs) -> write_bytes m a bs x = write_bytes m' a bs x.
Proof.
  intros H. unfold write_bytes.
  destruct (Z.leb_spec a x), (Z.ltb_spec x (a + Z.of_nat (length bs))); cbn [andb]; lia || done.
Qed.

Lemma write_bytes_nil m a x : write_bytes m a [] x = m x.
Proof. apply write_bytes_out. simpl. lia. Qed.

(** Zeroing the checksum field of a written entry. *)
Lemma zero_field_entry m e w c R x :
  zero_field (write_bytes m e (le64 w ++ le64 c ++ R)) (e + 8) x =
  write_bytes m e (le64 w ++ le64 0 ++ R) x.
Proof.
  unfold zero_field. rewrite !write_bytes_app, !length_le64. change (replicate 8 Byte.x00) with (le64 0).
  change (Z.of_nat 8) with 8.
  destruct (decide (e + 8 <= x < e + 16)) as [Hx|Hx].
  - rewrite (write_bytes_out _ (e + 8 + 8)) by lia.
    apply write_bytes_cover. rewrite length_le64. lia.
  - rewrite (write_bytes_out _ (e + 8)) by (rewrite length_le64; lia).
    rewrite !write_bytes_app, !length_le64. change (Z.of_nat 8) with 8.
    apply write_bytes_ext. rewrite !(write_bytes_out _ (e + 8)) by (rewrite length_le64; lia). done.
Qed.

(** ** Sizes of a buffer entry *)

(** The bytes an entry with [size] bytes of data occupies. *)
Definition buf_entry_size (size : Z) : Z := CACHELINE_ALIGN (sizeof_entry_buf + size).

Section Sizes.
Context (size : Z).
Hypothesis Hsize : 0 <= size < 2 ^ 62.
Let ncopy := Z.min size 40.
Let rem := if size <? ncopy then 0 else size - ncopy.
Let rcopy := ALIGN_DOWN rem CACHELINE_SIZE.
Let lcopy := rem - rcopy.

Lemma buf_sizes :
  0 <= rcopy /\ rcopy mod 64 = 0 /\ 0 <= lcopy < 64 /\ rem = rcopy + lcopy /\
  rem = Z.max 0 (size - 40) /\
  buf_entry_size size = 64 + rcopy + (if lcopy =? 0 then 0 else 64) /\
  0 <= ncopy <= 40 /\ 64 + rcopy + lcopy <= buf_entry_size size.
Proof.
  assert (rem = Z.max 0 (size - 40)) as Hrem.
  { unfold rem, ncopy. destruct (Z.ltb_spec size (Z.min size 40)); lia. }
  assert (rcopy = 64 * (rem / 64)) as Hr by apply align_down_64.
  pose proof (Z.div_mod rem 64 ltac:(lia)). pose proof (Z.mod_pos_bound rem 64 ltac:(lia)).
  assert (0 <= rem / 64) by (apply Z.div_pos; lia).
  unfold buf_entry_size, CACHELINE_ALIGN, sizeof_entry_buf.
  destruct (align_up_64_bounds (24 + size) ltac:(lia)) as [Ha Hm].
  pose proof (Z.div_mod (ALIGN_UP (24 + size) CACHELINE_SIZE) 64 ltac:(lia)).
  repeat split; try lia.
  - rewrite Hr, Z.mul_comm. apply Z.mod_mul. lia.
  - unfold lcopy. destruct (Z.eqb_spec (rem - rcopy) 0); lia.
Qed.
End Sizes.

(** ** Stores that are flushed at once *)

Definition ev_within (lo n : Z) (ev : pevent) : Prop :=
  match ev with EvStore a bs => lo <= a /\ a + Z.of_nat (length bs) <= lo + n | _ => True end.

Definition flushed_stores (lo n : Z) (s s' : pmst) : Prop := exists evs,
  trace s' = trace s ++ evs /\ Forall (ev_within lo n) evs /\
  forall w, w mod 8 = 0 -> pending (trace s) w = false -> pending (trace s ++ evs) w = false.

Lemma flushed_refl lo n s : flushed_stores lo n s s.
Proof. exists []. rewrite app_nil_r. by repeat split. Qed.

Lemma flushed_trans lo n s s1 s2 : flushed_stores lo n s s1 -> flushed_stores lo n s1 s2 -> flushed_stores lo n s s2.
Proof.
  intros (e1 & T1 & W1 & P1) (e2 & T2 & W2 & P2). exists (e1 ++ e2). rewrite app_assoc, <- T1. split; [done|].
  split; [by apply Forall_app|]. intros w Hw Hp. apply P2; [done|]. rewrite T1. by apply P1.
Qed.

Lemma flushed_step lo n s a bs : lo <= a -> a + Z.of_nat (length bs) <= lo + n ->
  flushed_stores lo n s (st_flush a (Z.of_nat (length bs)) (st_store a bs s)).
Proof.
  intros H1 H2. exists [EvStore a bs; EvFlush a (Z.of_nat (length bs))]. cbn [trace st_flush st_store]. rewrite <- app_assoc. split; [done|].
  split; [by repeat constructor|]. intros w Hw Hp. rewrite pending_app. cbn [foldl pending_step]. rewrite Hp.
  destruct (touches a bs w) eqn:Et; [by rewrite (touches_covers a bs w Hw Et)|]. by destruct (covers a _ w).
Qed.

(** ** Creation *)

(** The bytes of the data part: the source, padded with zeros. *)
Definition entry_payload (m : mem) (e src size : Z) : mem := fun x =>
  if (e + 24 <=? x) && (x <? e + buf_entry_size size)
  then if x - (e + 24) <? size then m (src + (x - (e + 24))) else Byte.x00
  else m x.

Definition entry_header (word csum size : Z) : list byte := le64 word ++ le64 csum ++ le64 size.

Section BufCreate.
Context (ulog offset dest src size type : Z) (p_ops : pmem_ops) (s : pmst).
Let e := ulog_data ulog + offset.
Let gen_num := load64 (vis s) (ulog_gen_num_addr ulog).
Let word := entry_offset_word dest type p_ops.
Let total := buf_entry_size size.
Hypothesis Htable : table p_ops = OPS_POOL.
Hypothesis Hsize : 0 < size < 2 ^ 62.
Hypothesis Hoff : 0 <= offset.
Hypothesis Htype : type = ULOG_OPERATION_BUF_SET \/ type = ULOG_OPERATION_BUF_CPY.
Hypothesis Hdest : 0 <= dest - base p_ops < 2 ^ 61.
Hypothesis Hsrc : src + size <= e \/ e + total <= src.

Let ncopy := Z.min size 40.
Let rem := if size <? ncopy then 0 else size - ncopy.
Let rcopy := ALIGN_DOWN rem CACHELINE_SIZE.
Let lcopy := rem - rcopy.
Let bdata := read_bytes (vis s) src (Z.to_nat ncopy) ++ replicate (Z.to_nat (40 - ncopy)) Byte.x00.
Let lastl := read_bytes (vis s) (src + ncopy + rcopy) (Z.to_nat lcopy) ++
             replicate (Z.to_nat (64 - lcopy)) Byte.x00.

(** The state after each copy. *)
Let s1 := if rcopy =? 0 then s else
  st_flush (e + 24 + ncopy) rcopy
    (st_store (e + 24 + ncopy) (read_bytes (vis s) (src + ncopy) (Z.to_nat rcopy)) s).
Let s2 := if lcopy =? 0 then s1 else
  st_flush (e + 24 + ncopy + rcopy) 64 (st_store (e + 24 + ncopy + rcopy) lastl s1).
Definition buf_create_state (csum : Z) : pmst :=
  st_drain (st_flush e 64 (st_store e (entry_first_line word csum size bdata) s2)).

Lemma length_bdata : length bdata = 40%nat.
Proof.
  unfold bdata. rewrite length_app, length_read_bytes, length_replicate. unfold ncopy. lia.
Qed.

Lemma length_lastl : length lastl = 64%nat.
Proof.
  destruct (buf_sizes size ltac:(lia)) as (_ & _ & Hl & _).
  unfold lastl. rewrite length_app, length_read_bytes, length_replicate.
  fold ncopy rem rcopy lcopy in Hl. lia.
Qed.

Lemma length_first_line w c : length (entry_first_line w c size bdata) = 64%nat.
Proof. unfold entry_first_line. rewrite !length_app, !length_le64, length_bdata. done. Qed.

(** What the copies leave in memory, before the header. *)
Lemma s2_vis x :
  vis s2 x =
  if (e + 24 + ncopy <=? x) && (x <? e + total) && (64 <? total) then
    if x - (e + 24) <? size then vis s (src + (x - (e + 24))) else Byte.x00
  else vis s x.
Proof.
  destruct (buf_sizes size ltac:(lia)) as (H1 & H2 & H3 & H4 & H5 & H6 & H7).
  fold ncopy rem rcopy lcopy in H1, H2, H3, H4, H5, H6, H7. fold total in H6, H7.
  assert (forall y, vis s1 y = if (e + 24 + ncopy <=? y) && (y <? e + 24 + ncopy + rcopy)
    then vis s (src + (y - (e + 24))) else vis s y) as Hs1.
  { intros y. unfold s1. destruct (Z.eqb_spec rcopy 0) as [E|E].
    - destruct (Z.leb_spec (e + 24 + ncopy) y), (Z.ltb_spec y (e + 24 + ncopy + rcopy));
        cbn [andb]; lia || done.
    - cbn [vis st_flush st_store]. rewrite write_read_pt, Z2Nat.id by lia.
      destruct (_ && _); [|done]. f_equal. lia. }
  unfold s2. destruct (Z.eqb_spec lcopy 0) as [E|E].
  - rewrite Hs1. destruct (Z.leb_spec (e + 24 + ncopy) x), (Z.ltb_spec x (e + 24 + ncopy + rcopy)),
      (Z.ltb_spec x (e + total)), (Z.ltb_spec 64 total), (Z.ltb_spec (x - (e + 24)) size);
      cbn [andb]; unfold ncopy in *; lia || done.
  - cbn [vis st_flush st_store]. unfold lastl. rewrite write_bytes_app, write_replicate_pt, write_read_pt.
    rewrite length_read_bytes, !Z2Nat.id, Hs1 by lia.
    destruct (Z.leb_spec (e + 24 + ncopy + rcopy + lcopy) x),
      (Z.ltb_spec x (e + 24 + ncopy + rcopy + lcopy + (64 - lcopy))),
      (Z.leb_spec (e + 24 + ncopy + rcopy) x), (Z.ltb_spec x (e + 24 + ncopy + rcopy + lcopy)),
      (Z.leb_spec (e + 24 + ncopy) x), (Z.ltb_spec x (e + 24 + ncopy + rcopy)),
      (Z.ltb_spec x (e + total)), (Z.ltb_spec 64 total), (Z.ltb_spec (x - (e + 24)) size);
      cbn [andb]; unfold ncopy in *; try lia; try done. f_equal. lia.
Qed.

(** The final memory: header and padded payload. *)
Lemma create_vis csum :
  vis (buf_create_state csum) ≡
  write_bytes (entry_payload (vis s) e src size) e (entry_header word csum size).
Proof.
  intros x. destruct (buf_sizes size ltac:(lia)) as (H1 & H2 & H3 & H4 & H5 & H6 & H7).
  fold ncopy rem rcopy lcopy in H1, H2, H3, H4, H5, H6, H7. fold total in H6, H7.
  cbn [vis buf_create_state st_drain st_flush st_store].
  unfold entry_first_line, entry_header. rewrite !app_assoc, !(write_bytes_app _ _ _ bdata).
  rewrite <- !app_assoc.
  set (hd := le64 word ++ le64 csum ++ le64 size).
  assert (length hd = 24%nat) as Hhd by (unfold hd; rewrite !length_app, !length_le64; done).
  rewrite Hhd. change (Z.of_nat 24) with 24.
  destruct (decide (e <= x < e + 24)) as [Hx|Hx].
  - rewrite write_bytes_out by lia. apply write_bytes_cover. lia.
  - rewrite (write_bytes_out _ e hd) by lia.
    unfold bdata. rewrite write_bytes_app, write_replicate_pt, write_read_pt, length_read_bytes.
    rewrite !Z2Nat.id by lia. rewrite (write_bytes_out _ e hd) by lia.
    rewrite s2_vis. unfold entry_payload. fold total.
    destruct (Z.leb_spec (e + 24 + ncopy) x), (Z.ltb_spec x (e + 24 + ncopy + (40 - ncopy))),
      (Z.leb_spec (e + 24) x), (Z.ltb_spec x (e + 24 + ncopy)), (Z.ltb_spec x (e + total)),
      (Z.ltb_spec 64 total), (Z.ltb_spec (x - (e + 24)) size);
      cbn [andb]; unfold ncopy in *; try lia; try done;
      destruct (Z.eqb_spec lcopy 0); try lia; f_equal; lia.
Qed.

(** ** The checksum of the pieces is the checksum of the entry *)

Lemma word_facts :
  0 < word < 2 ^ 64 /\ Z.land word ULOG_OPERATION_MASK = type /\
  Z.land word ULOG_OFFSET_MASK = dest - base p_ops /\ kind_of_type type = KBuf.
Proof.
  unfold word, entry_offset_word. rewrite u64_small by lia.
  assert (exists k, type = Z.shiftl k 61 /\ 0 < k < 8 /\ kind_of_type (Z.shiftl k 61) = KBuf)
    as (k & -> & Hk & HK) by (destruct Htype as [-> | ->]; [exists 5|exists 6]; done).
  pose proof (word_range (dest - base p_ops) k Hdest ltac:(lia)).
  rewrite word_type, word_offset by lia. split; [|done]. split; [|lia].
  destruct (Z.eq_dec (Z.lor (dest - base p_ops) (Z.shiftl k 61)) 0) as [E|]; [|lia].
  apply Z.lor_eq_0_iff in E as [_ E]. rewrite Z.shiftl_mul_pow2 in E; lia.
Qed.

Lemma create_load_hdr csum i v :
  (i = 0 /\ v = word) \/ (i = 8 /\ v = csum) \/ (i = 16 /\ v = size) -> 0 <= v < 2 ^ 64 ->
  load64 (vis (buf_create_state csum)) (e + i) = v.
Proof.
  intros Hi Hv. rewrite (create_vis csum). unfold load64, entry_header.
  rewrite read_write_sub by (rewrite ?length_app, ?length_le64; lia).
  rewrite <- (u64_small v Hv), <- dec_le64. f_equal.
  destruct Hi as [[-> ->]|[[-> ->]|[-> ->]]].
  - rewrite Z.add_0_r, Z.sub_diag. done.
  - replace (Z.to_nat (e + 8 - e)) with 8%nat by lia. done.
  - replace (Z.to_nat (e + 16 - e)) with 16%nat by lia. done.
Qed.

Lemma create_gen csum :
  load64 (vis (buf_create_state csum)) (ulog_gen_num_addr ulog) = gen_num.
Proof.
  rewrite (create_vis csum).
  rewrite load64_write_disj by (unfold e, ulog_data, SIZEOF_ULOG_HDR, ulog_gen_num_addr; lia).
  unfold gen_num, load64. f_equal. apply read_bytes_eq. intros i Hi. unfold entry_payload.
  destruct (Z.leb_spec (e + 24) (ulog_gen_num_addr ulog + i)); [|done].
  unfold e, ulog_data, SIZEOF_ULOG_HDR, ulog_gen_num_addr in *. lia.
Qed.

(** The first two copies do not touch the source or the log header. *)
Lemma s2_out x : x < e + 24 \/ e + total <= x -> vis s2 x = vis s x.
Proof.
  intros Hx. rewrite s2_vis. unfold ncopy.
  destruct (Z.leb_spec (e + 24 + Z.min size 40) x), (Z.ltb_spec x (e + total)); cbn [andb]; lia || done.
Qed.

Lemma pieces csum (z := zero_field (vis (buf_create_state csum)) (e + 8)) :
  (forall i, 0 <= i < 64 ->
     z (e + i) = buf_mem (entry_first_line word 0 size bdata) (0 + i)) /\
  (forall i, 0 <= i < rcopy -> z (e + 64 + i) = vis s2 (src + ncopy + i)) /\
  (lcopy <> 0 -> forall i, 0 <= i < 64 -> z (e + 64 + rcopy + i) = buf_mem lastl (0 + i)).
Proof.
  destruct (buf_sizes size ltac:(lia)) as (H1 & H2 & H3 & H4 & H5 & H6 & H7).
  fold ncopy rem rcopy lcopy in H1, H2, H3, H4, H5, H6, H7. fold total in H6, H7.
  assert (forall x, z x = write_bytes (vis s2) e (entry_first_line word 0 size bdata) x) as Hz.
  { intros x. unfold z. cbn [vis buf_create_state st_drain st_flush st_store].
    apply zero_field_entry. }
  pose proof (length_first_line word 0) as Hfl.
  split; [|split].
  - intros i Hi. rewrite Hz. unfold buf_mem.
    rewrite (write_bytes_cover _ (fun _ => Byte.x00)) by (rewrite Hfl; lia).
    apply write_bytes_shift; [lia|done].
  - intros i Hi. rewrite Hz, write_bytes_out by (rewrite Hfl; lia).
    rewrite (s2_out (src + ncopy + i)) by lia.
    rewrite s2_vis. unfold ncopy in *.
    destruct (Z.leb_spec (e + 24 + Z.min size 40) (e + 64 + i)), (Z.ltb_spec (e + 64 + i) (e + total)),
      (Z.ltb_spec 64 total), (Z.ltb_spec (e + 64 + i - (e + 24)) size); cbn [andb];
      try lia. f_equal. lia.
  - intros Hl i Hi. rewrite Hz, write_bytes_out by (rewrite Hfl; lia).
    unfold s2. rewrite (proj2 (Z.eqb_neq lcopy 0) Hl). cbn [vis st_flush st_store]. unfold buf_mem.
    rewrite (write_bytes_cover _ (fun _ => Byte.x00)) by (rewrite length_lastl; unfold ncopy; lia).
    apply write_bytes_shift; [unfold ncopy; lia|done].
Qed.

Lemma buf_create_run :
  exists csum, 0 <= csum < 2 ^ 64 /\
    ulog_entry_buf_create ulog offset gen_num dest src size type p_ops s =
      Some (e, buf_create_state csum) /\
    (c ← util_checksum_compute (vis (buf_create_state csum)) e total (entry_checksum_addr e) 0;
     util_checksum_seq (vis (buf_create_state csum)) (ulog_gen_num_addr ulog) 8 c) = Some csum.
Proof.
  destruct (buf_sizes size ltac:(lia)) as (H1 & H2 & H3 & H4 & H5 & H6 & H7).
  fold ncopy rem rcopy lcopy in H1, H2, H3, H4, H5, H6, H7. fold total in H6, H7.
  assert (rcopy mod 4 = 0) as Hr4.
  { pose proof (Z.div_mod rcopy 64 ltac:(lia)). replace rcopy with ((16 * (rcopy / 64)) * 4) by lia.
    apply Z.mod_mul. lia. }
  destruct (checksum_seq_some (buf_mem (entry_first_line word 0 size bdata)) 0 64 0 ltac:(done))
    as (c1 & Hc1 & Hc1r).
  assert (exists c2, (if rcopy =? 0 then Some c1 else util_checksum_seq (vis s2) (src + ncopy) rcopy c1)
    = Some c2 /\ util_checksum_seq (vis s2) (src + ncopy) rcopy c1 = Some c2) as (c2 & Hc2 & Hc2').
  { destruct (checksum_seq_some (vis s2) (src + ncopy) rcopy c1 Hr4) as (c & Hc & _).
    destruct (Z.eqb_spec rcopy 0) as [E|E]; [|by exists c]. exists c1. split; [done|].
    rewrite E. by apply checksum_seq_0. }
  assert (exists c3, (if lcopy =? 0 then Some c2 else util_checksum_seq (buf_mem lastl) 0 64 c2) = Some c3)
    as (c3 & Hc3).
  { destruct (lcopy =? 0); [by eexists|].
    destruct (checksum_seq_some (buf_mem lastl) 0 64 c2 ltac:(done)) as (c & Hc & _). by exists c. }
  destruct (checksum_seq_some (buf_mem (le64 gen_num)) 0 8 c3 ltac:(done)) as (c4 & Hc4 & Hc4r).
  exists c4. split; [done|]. split.
  - unfold ulog_entry_buf_create, pmemops_memcpy. cbv zeta.
    rewrite !memcpy_from_nodrain by done. change (CACHELINE_SIZE - sizeof_entry_buf) with 40.
    change CACHELINE_SIZE with 64. fold ncopy. fold rem. change (ALIGN_DOWN rem 64) with rcopy.
    fold lcopy. fold e. fold word. fold bdata. fold lastl.
    unfold entry_data. change sizeof_entry_buf with 24.
    rewrite length_lastl, length_read_bytes, Z2Nat.id by lia. change (Z.of_nat 64) with 64.
    fold s1. fold s2. rewrite Hc1. cbn [mbind option_bind].
    rewrite Hc2. cbn [mbind option_bind]. rewrite Hc3. cbn [mbind option_bind].
    rewrite Hc4. cbn [mbind option_bind].
    rewrite memcpy_from_nodrain, length_first_line by done. unfold pmemops_drain. rewrite Htable. done.
  - destruct (pieces c4) as (P1 & P2 & P3). unfold entry_checksum_addr.
    assert (total = 64 + (rcopy + (if lcopy =? 0 then 0 else 64))) as Ht by lia.
    assert (forall b : bool, (if b then 0 else 64) mod 4 = 0 /\ 0 <= (if b then 0 else 64)) as Hb
      by (intros []; done).
    destruct (Hb (lcopy =? 0)) as [Hl4 Hl0].
    set (l := if lcopy =? 0 then 0 else 64) in *.
    assert ((rcopy + l) mod 4 = 0) as Hrl by (rewrite Z.add_mod, Hr4, Hl4 by lia; done).
    assert (total mod 4 = 0) as Ht4 by (rewrite Ht, Z.add_mod, Hrl by lia; done).
    rewrite checksum_compute_seq by (lia || done || (replace (e + 8 - e) with 8 by lia; done)).
    rewrite Ht, checksum_seq_app by (lia || done).
    rewrite (checksum_seq_ext _ _ e 0 64 0 ltac:(lia) P1), Hc1.
    rewrite checksum_seq_app by (lia || done).
    rewrite (checksum_seq_ext _ _ (e + 64) (src + ncopy) rcopy c1 ltac:(lia) P2), Hc2'.
    assert (util_checksum_seq (zero_field (vis (buf_create_state c4)) (e + 8)) (e + 64 + rcopy) l c2
            = Some c3) as ->.
    { rewrite <- Hc3. unfold l. destruct (Z.eq_dec lcopy 0) as [E|E].
      - rewrite (proj2 (Z.eqb_eq lcopy 0) E). apply checksum_seq_0. eapply checksum_seq_range, Hc2'.
      - rewrite (proj2 (Z.eqb_neq lcopy 0) E). apply checksum_seq_ext; [lia|by apply P3]. }
    cbn [mbind option_bind]. rewrite <- Hc4. apply checksum_seq_ext; [lia|]. intros i Hi.
    pose proof (create_gen c4) as Hg. apply (f_equal le64) in Hg. rewrite le64_load64 in Hg.
    unfold buf_mem. rewrite <- Hg, write_read_pt.
    destruct (Z.leb_spec 0 (0 + i)), (Z.ltb_spec (0 + i) (0 + Z.of_nat 8)); cbn [andb]; try lia.
    f_equal. lia.
Qed.

(** The entry is valid as soon as it is created: the final assertion of the
    function holds. *)
Lemma buf_create_valid csum :
  0 <= csum < 2 ^ 64 ->
  (c ← util_checksum_compute (vis (buf_create_state csum)) e total (entry_checksum_addr e) 0;
   util_checksum_seq (vis (buf_create_state csum)) (ulog_gen_num_addr ulog) 8 c) = Some csum ->
  ulog_entry_valid (vis (buf_create_state csum)) ulog e = Some true /\
  ulog_entry_size (vis (buf_create_state csum)) e = total /\
  ulog_entry_type (vis (buf_create_state csum)) e = type /\
  ulog_entry_offset (vis (buf_create_state csum)) e = dest - base p_ops.
Proof.
  intros Hcr Hc. destruct word_facts as (Hw & Hty & Hof & Hk).
  pose proof (create_load_hdr csum 0 word ltac:(lia) ltac:(lia)) as L0. rewrite Z.add_0_r in L0.
  pose proof (create_load_hdr csum 8 csum ltac:(lia) ltac:(lia)) as L8.
  pose proof (create_load_hdr csum 16 size ltac:(lia) ltac:(lia)) as L16.
  assert (ulog_entry_type (vis (buf_create_state csum)) e = type) as HT
    by (unfold ulog_entry_type; rewrite L0; done).
  assert (ulog_entry_size (vis (buf_create_state csum)) e = total) as HS.
  { unfold ulog_entry_size. rewrite HT, Hk. unfold entry_size_addr. rewrite L16.
    unfold sizeof_entry_buf. rewrite u64_small by lia. done. }
  split; [|split; [done|split; [done|]]].
  - unfold ulog_entry_valid. rewrite L0, HT, Hk, HS.
    destruct (Z.eqb_spec word 0); [lia|].
    destruct (util_checksum_compute _ e total _ 0) as [c|]; [|done]. cbn [mbind option_bind] in Hc.
    rewrite Hc. unfold entry_checksum_addr. rewrite L8, Z.eqb_refl. done.
  - unfold ulog_entry_offset. rewrite L0. done.
Qed.

(** The data of the entry is the source. *)
Lemma create_data csum i :
  0 <= i < size -> vis (buf_create_state csum) (entry_data e + i) = vis s (src + i).
Proof.
  intros Hi. destruct (buf_sizes size ltac:(lia)) as (H1 & H2 & H3 & H4 & H5 & H6 & H7).
  fold ncopy rem rcopy lcopy in H1, H2, H3, H4, H5, H6, H7. fold total in H6, H7.
  rewrite (create_vis csum). unfold entry_data, sizeof_entry_buf, entry_header.
  rewrite write_bytes_out by (rewrite !length_app, !length_le64; lia).
  unfold entry_payload. fold total. unfold ncopy in *.
  destruct (Z.leb_spec (e + 24) (e + 24 + i)), (Z.ltb_spec (e + 24 + i) (e + total)),
    (Z.ltb_spec (e + 24 + i - (e + 24)) size); cbn [andb]; try lia. f_equal. lia.
Qed.

Lemma s2_dirty : dirty_in 0 0 s -> dirty_in 0 0 s2.
Proof.
  intros Hd. destruct (buf_sizes size ltac:(lia)) as (H1 & _).
  fold ncopy rem rcopy in H1.
  assert (dirty_in 0 0 s1) as Hd1.
  { unfold s1. destruct (Z.eqb_spec rcopy 0); [done|].
    pose proof (dirty_store_flush (e + 24 + ncopy)
      (read_bytes (vis s) (src + ncopy) (Z.to_nat rcopy)) s Hd) as H.
    rewrite length_read_bytes, Z2Nat.id in H by lia. apply H. lia. }
  unfold s2. destruct (lcopy =? 0); [done|].
  pose proof (dirty_store_flush (e + 24 + ncopy + rcopy) lastl s1 Hd1) as H.
  rewrite length_lastl in H. apply H. lia.
Qed.

Lemma s2_wf m0 : wf_st m0 s -> wf_st m0 s2.
Proof.
  intros Hw. assert (wf_st m0 s1) as H1 by (unfold s1; destruct (rcopy =? 0); auto with pm).
  unfold s2. destruct (lcopy =? 0); auto with pm.
Qed.

(** Once created, the entry is on media. *)
Lemma create_durable m0 csum img :
  dirty_in 0 0 s -> wf_st m0 s ->
  crash_image m0 (trace (buf_create_state csum)) img -> img ≡ vis (buf_create_state csum).
Proof.
  intros Hd Hw Hc. unfold buf_create_state in *.
  set (s3 := st_flush e 64 (st_store e (entry_first_line word csum size bdata) s2)) in *.
  change (img ≡ vis s3). apply (dirty_drain_crash m0 s3); [| |exact Hc].
  - pose proof (dirty_store_flush e (entry_first_line word csum size bdata) s2 (s2_dirty Hd)) as H.
    rewrite length_first_line in H. apply H. lia.
  - apply wf_flush, wf_store, s2_wf, Hw.
Qed.

Lemma create_out csum x :
  x < e \/ e + total <= x -> vis (buf_create_state csum) x = vis s x.
Proof.
  intros Hx. destruct (buf_sizes size ltac:(lia)) as (H1 & H2 & H3 & H4 & H5 & H6 & H7).
  fold ncopy rem rcopy lcopy in H1, H2, H3, H4, H5, H6, H7. fold total in H6, H7.
  rewrite (create_vis csum). unfold entry_header.
  rewrite write_bytes_out by (rewrite !length_app, !length_le64; lia).
  unfold entry_payload. fold total.
  destruct (Z.leb_spec (e + 24) x), (Z.ltb_spec x (e + total)); cbn [andb]; lia || done.
Qed.
(** The events of the creation: stores inside of the entry, each flushed at
    once, and a drain at the end. *)
Lemma create_events csum : exists evs,
  trace (buf_create_state csum) = (trace s ++ evs) ++ [EvDrain] /\ Forall (ev_within e total) evs /\
  forall w, w mod 8 = 0 -> pending (trace s) w = false -> pending (trace s ++ evs) w = false.
Proof.
  destruct (buf_sizes size ltac:(lia)) as (H1 & H2 & H3 & H4 & H5 & H6 & H7).
  fold ncopy rem rcopy lcopy in H1, H2, H3, H4, H5, H6, H7. fold total in H6, H7.
  assert (flushed_stores e total s s1) as E1.
  { unfold s1. destruct (Z.eqb_spec rcopy 0); [apply flushed_refl|].
    pose proof (flushed_step e total s (e + 24 + ncopy) (read_bytes (vis s) (src + ncopy) (Z.to_nat rcopy))) as F.
    rewrite length_read_bytes, Z2Nat.id in F by lia. apply F; unfold ncopy in *; lia. }
  assert (flushed_stores e total s s2) as E2.
  { unfold s2. destruct (Z.eqb_spec lcopy 0); [done|]. apply (flushed_trans _ _ _ s1 _ E1).
    pose proof (flushed_step e total s1 (e + 24 + ncopy + rcopy) lastl) as F. rewrite length_lastl in F. apply F; unfold ncopy in *; lia. }
  pose proof (flushed_step e total s2 e (entry_first_line word csum size bdata)) as F. rewrite length_first_line in F.
  destruct (flushed_trans _ _ _ s2 _ E2 (F ltac:(lia) ltac:(destruct (lcopy =? 0); lia))) as (evs & Ht & Hw & Hp).
  exists evs. split; [|done]. unfold buf_create_state. cbn [trace st_drain]. f_equal. exact Ht.
Qed.
End BufCreate.

(** What ulog_entry_buf_create is called with: room for the entry behind the
    header, a target inside the pool, a source outside the entry. *)
Record buf_create_pre (ulog offset dest src size type : Z) (p_ops : pmem_ops) : Prop := BufPre {
  bp_table : table p_ops = OPS_POOL;
  bp_size : 0 < size < 2 ^ 62;
  bp_off : 0 <= offset;
  bp_type : type = ULOG_OPERATION_BUF_SET \/ type = ULOG_OPERATION_BUF_CPY;
  bp_dest : 0 <= dest - base p_ops < 2 ^ 61;
  bp_src : src + size <= ulog_data ulog + offset \/
           ulog_data ulog + offset + buf_entry_size size <= src
}.

Lemma buf_create_spec ulog offset dest src size type p_ops m :
  buf_create_pre ulog offset dest src size type p_ops ->
  exists s', ulog_entry_buf_create ulog offset (load64 m (ulog_gen_num_addr ulog)) dest src size type
               p_ops (PMst m [] false) = Some (ulog_data ulog + offset, s') /\
    let e := ulog_data ulog + offset in
    ulog_entry_valid (vis s') ulog e = Some true /\
    ulog_entry_size (vis s') e = buf_entry_size size /\
    ulog_entry_type (vis s') e = type /\
    ulog_entry_offset (vis s') e = dest - base p_ops /\
    load64 (vis s') (entry_size_addr e) = size /\
    read_bytes (vis s') (entry_data e) (Z.to_nat size) = read_bytes m src (Z.to_nat size) /\
    (forall x, x < e \/ e + buf_entry_size size <= x -> vis s' x = m x) /\
    (forall img, crash_image m (trace s') img -> img ≡ vis s').
Proof.
  intros [Ht Hs Ho Hty Hd Hsrc]. set (s := PMst m [] false).
  destruct (buf_create_run ulog offset dest src size type p_ops s) as (csum & Hr & Hrun & Hc); try done.
  eexists. split; [exact Hrun|]. cbv zeta.
  destruct (buf_create_valid ulog offset dest src size type p_ops s) with (csum := csum)
    as (V1 & V2 & V3 & V4); try done.
  split; [exact V1|]. split; [exact V2|]. split; [exact V3|]. split; [exact V4|].
  split; [|split; [|split]].
  - apply create_load_hdr; try done; lia.
  - apply read_bytes_eq. intros i Hi. apply create_data; try done. lia.
  - intros x Hx. by apply create_out.
  - intros img. apply create_durable; try done.
Qed.

(** From any state. *)
Lemma buf_create_any ulog offset dest src size type p_ops s :
  buf_create_pre ulog offset dest src size type p_ops ->
  exists s', ulog_entry_buf_create ulog offset (load64 (vis s) (ulog_gen_num_addr ulog)) dest src size type
               p_ops s = Some (ulog_data ulog + offset, s') /\
    let e := ulog_data ulog + offset in
    ulog_entry_valid (vis s') ulog e = Some true /\
    ulog_entry_type (vis s') e = type /\
    ulog_entry_offset (vis s') e = dest - base p_ops /\
    load64 (vis s') (entry_size_addr e) = size /\
    (forall i, 0 <= i < size -> vis s' (entry_data e + i) = vis s (src + i)) /\
    (forall x, x < e \/ e + buf_entry_size size <= x -> vis s' x = vis s x) /\
    (forall m0, wf_st m0 s -> wf_st m0 s') /\
    exists evs, trace s' = (trace s ++ evs) ++ [EvDrain] /\ Forall (ev_within e (buf_entry_size size)) evs /\
      forall w, w mod 8 = 0 -> pending (trace s) w = false -> pending (trace s ++ evs) w = false.
Proof.
  intros [Ht Hs Ho Hty Hd Hsrc].
  destruct (buf_create_run ulog offset dest src size type p_ops s) as (csum & Hr & Hrun & Hc); try done.
  eexists. split; [exact Hrun|]. cbv zeta.
  destruct (buf_create_valid ulog offset dest src size type p_ops s) with (csum := csum)
    as (V1 & V2 & V3 & V4); try done.
  split; [exact V1|]. split; [exact V3|]. split; [exact V4|]. split; [apply create_load_hdr; try done; lia|].
  split; [intros i Hi; by apply create_data|]. split; [intros x Hx; by apply create_out|].
  split; [intros m0 Hw; by apply wf_drain, wf_flush, wf_store, s2_wf|]. by apply create_events.
Qed.

(** C25. Buffer entry round trip.  ulog_entry_buf_create, called with the
    generation number of its log, returns an entry that ulog_entry_valid accepts
    (whatever mixture of first line, full cachelines and padded last line the
    size asks for), that decodes to the given type, target offset and size, whose
    data is the source, and that leaves every other byte alone; when it returns,
    all of this is on media: any power failure afterwards leaves exactly the
    memory it returned with. *)
Theorem buf_create_roundtrip ulog offset dest src size type p_ops m :
  buf_create_pre ulog offset dest src size type p_ops ->
  exists s', ulog_entry_buf_create ulog offset (load64 m (ulog_gen_num_addr ulog)) dest src size type
               p_ops (PMst m [] false) = Some (ulog_data ulog + offset, s') /\
    let e := ulog_data ulog + offset in
    ulog_entry_valid (vis s') ulog e = Some true /\
    ulog_entry_size (vis s') e = buf_entry_size size /\
    ulog_entry_type (vis s') e = type /\
    ulog_entry_offset (vis s') e = dest - base p_ops /\
    read_bytes (vis s') (entry_data e) (Z.to_nat size) = read_bytes m src (Z.to_nat size) /\
    (forall x, x < e \/ e + buf_entry_size size <= x -> vis s' x = m x) /\
    (forall img, crash_image m (trace s') img -> img ≡ vis s').
Proof.
  intros Hpre. destruct (buf_create_spec _ _ _ _ _ _ _ m Hpre) as (s' & H1 & H2 & H3 & H4 & H5 & _ & H6).
  exists s'. exact (conj H1 (conj H2 (conj H3 (conj H4 (conj H5 H6))))).
Qed.

Lemma buf_create_roundtrip_witness :
  let ops := POps 0 OPS_POOL in let m : mem := byte_of_Z in
  exists s', ulog_entry_buf_create 1024 64 (load64 m (ulog_gen_num_addr 1024)) 8192 8192 150
               ULOG_OPERATION_BUF_CPY ops (PMst m [] false) = Some (ulog_data 1024 + 64, s') /\
    let e := ulog_data 1024 + 64 in
    ulog_entry_valid (vis s') 1024 e = Some true /\
    ulog_entry_size (vis s') e = buf_entry_size 150 /\
    ulog_entry_type (vis s') e = ULOG_OPERATION_BUF_CPY /\
    ulog_entry_offset (vis s') e = 8192 - base ops /\
    read_bytes (vis s') (entry_data e) (Z.to_nat 150) = read_bytes m 8192 (Z.to_nat 150) /\
    (forall x, x < e \/ e + buf_entry_size 150 <= x -> vis s' x = m x) /\
    (forall img, crash_image m (trace s') img -> img ≡ vis s').
Proof.
  apply (buf_create_roundtrip 1024 64 8192 8192 150 ULOG_OPERATION_BUF_CPY (POps 0 OPS_POOL)).
  constructor; [reflexivity|lia|lia|by right|cbn; lia|right; vm_compute; discriminate].
Defined.

(** ** Generations *)

Lemma fl_two p a b :
  fl p [a; b] = (u32 (u32 (p.1 + a) + b), u32 (u32 (p.2 + u32 (p.1 + a)) + u32 (u32 (p.1 + a) + b))).
Proof. done. Qed.

(** Two generation numbers with different sums of halves give different
    checksums. *)
Lemma gen_checksum_lo m a c v :
  util_checksum_seq m a 8 c = Some v ->
  u32 v = u32 (u32 c + load64 m a mod 2 ^ 32 + load64 m a / 2 ^ 32).
Proof.
  intros H. unfold util_checksum_seq in H. change (8 mod 4 =? 0) with true in H. cbv iota in H.
  apply (inj Some) in H. subst v.
  rewrite csum_seq_loop_fl. change (Z.to_nat (8 / 4)) with 2%nat.
  change (words m a 2) with [load32 m (a + 4 * 0); load32 m (a + 4 * 1)].
  assert (load64 m a = load32 m a + 2 ^ 32 * load32 m (a + 4)) as E.
  { unfold load64, load32. change 8%nat with (4 + 4)%nat. rewrite read_bytes_app. cbn [read_bytes map seq app dec_le].
    change (Z.of_nat 4) with 4. ring. }
  assert (0 <= load32 m a < 2 ^ 32) as R0.
  { unfold load32. pose proof (dec_le_range (read_bytes m a 4)) as R. by rewrite length_read_bytes in R. }
  rewrite Z.mul_0_r, Z.add_0_r, Z.mul_1_r, fl_two. cbn [fst snd].
  destruct (csum_join_parts (u32 (u32 (u32 (Z.shiftr c 32) + u32 (u32 c + load32 m a)) +
    u32 (u32 (u32 c + load32 m a) + load32 m (a + 4)))) (u32 (u32 (u32 c + load32 m a) + load32 m (a + 4))))
    as (-> & _); [apply u32_range..|].
  replace (load64 m a mod 2 ^ 32) with (load32 m a)
    by (rewrite E, Z.mul_comm, Z.mod_add, Z.mod_small; lia).
  replace (load64 m a / 2 ^ 32) with (load32 m (a + 4))
    by (rewrite E, Z.mul_comm, Z.div_add, Z.div_small; lia).
  unfold u32. rewrite Z.add_mod_idemp_l by lia. done.
Qed.

Lemma gen_sum_differs c g :
  0 <= g < 2 ^ 64 ->
  u32 (c + g mod 2 ^ 32 + g / 2 ^ 32) <>
  u32 (c + u64 (g + 1) mod 2 ^ 32 + u64 (g + 1) / 2 ^ 32).
Proof.
  intros Hg E. unfold u32 in E.
  set (h := g / 2 ^ 32) in *. set (l := g mod 2 ^ 32) in *.
  assert (g = 2 ^ 32 * h + l) as Eg by (apply Z.div_mod; lia).
  assert (0 <= l < 2 ^ 32) as Hl by (apply Z.mod_pos_bound; lia).
  assert (exists h' l', u64 (g + 1) = 2 ^ 32 * h' + l' /\ 0 <= l' < 2 ^ 32 /\
    (h' + l' = h + l + 1 \/ h' + l' = h + l + 2 - 2 ^ 32 \/ h' + l' = h + l + 2 - 2 ^ 33))
    as (h' & l' & E' & Hl' & Hs).
  { destruct (Z.eq_dec g (2 ^ 64 - 1)) as [->|].
    - exists 0, 0. split; [done|]. split; [lia|].
      right. right. assert (h = 2 ^ 32 - 1) by done. assert (l = 2 ^ 32 - 1) by done. lia.
    - rewrite u64_small by lia. destruct (Z.eq_dec l (2 ^ 32 - 1)).
      + exists (h + 1), 0. lia.
      + exists h, (l + 1). lia. }
  replace (u64 (g + 1) / 2 ^ 32) with h' in E by (rewrite E', Z.mul_comm, Z.add_comm, Z.div_add, Z.div_small; lia).
  replace (u64 (g + 1) mod 2 ^ 32) with l' in E by (rewrite E', Z.mul_comm, Z.add_comm, Z.mod_add, Z.mod_small; lia).
  pose proof (Z.div_mod (c + l + h) (2 ^ 32) ltac:(lia)).
  pose proof (Z.div_mod (c + l' + h') (2 ^ 32) ltac:(lia)). lia.
Qed.

Lemma inc_gen_vis u p_ops s :
  vis (ulog_inc_gen_num u p_ops s) =
  write_bytes (vis s) (ulog_gen_num_addr u) (le64 (u64 (load64 (vis s) (ulog_gen_num_addr u) + 1))).
Proof.
  unfold ulog_inc_gen_num. destruct p_ops as [p_ops|]; [|done].
  unfold pmemops_persist. destruct (table p_ops); done.
Qed.

(** A buffer entry only depends on its own bytes. *)
Lemma buf_entry_size_facts m e :
  kind_of_type (ulog_entry_type m e) = KBuf -> load64 m (entry_size_addr e) < 2 ^ 62 ->
  ulog_entry_size m e = buf_entry_size (load64 m (entry_size_addr e)) /\
  24 + load64 m (entry_size_addr e) <= ulog_entry_size m e /\ ulog_entry_size m e mod 4 = 0.
Proof.
  intros Hk Hsz. pose proof (load64_range m (entry_size_addr e)) as Hr.
  destruct (align_up_64_bounds (24 + load64 m (entry_size_addr e)) ltac:(lia)) as [Hb Hm].
  assert (ulog_entry_size m e = buf_entry_size (load64 m (entry_size_addr e))) as ->.
  { unfold ulog_entry_size. rewrite Hk. unfold sizeof_entry_buf. rewrite u64_small by lia. done. }
  unfold buf_entry_size, CACHELINE_ALIGN, sizeof_entry_buf.
  set (t := ALIGN_UP (24 + load64 m (entry_size_addr e)) CACHELINE_SIZE) in *.
  split; [done|]. split; [lia|]. pose proof (Z.div_mod t 64 ltac:(lia)).
  replace t with ((16 * (t / 64)) * 4) by lia. apply Z.mod_mul. lia.
Qed.

Lemma buf_entry_agree m m' e :
  kind_of_type (ulog_entry_type m e) = KBuf -> load64 m (entry_size_addr e) < 2 ^ 62 ->
  agree m' m e (ulog_entry_size m e) ->
  load64 m' e = load64 m e /\
  load64 m' (entry_checksum_addr e) = load64 m (entry_checksum_addr e) /\
  load64 m' (entry_size_addr e) = load64 m (entry_size_addr e) /\
  ulog_entry_type m' e = ulog_entry_type m e /\ ulog_entry_offset m' e = ulog_entry_offset m e /\
  ulog_entry_size m' e = ulog_entry_size m e /\
  util_checksum_compute m' e (ulog_entry_size m e) (entry_checksum_addr e) 0 =
  util_checksum_compute m e (ulog_entry_size m e) (entry_checksum_addr e) 0.
Proof.
  intros Hk Hsz Hag. destruct (buf_entry_size_facts m e Hk Hsz) as (_ & Hb & H4).
  pose proof (load64_range m (entry_size_addr e)) as Hr.
  assert (load64 m' e = load64 m e) as E0 by (apply (load64_agree _ _ _ _ _ Hag); lia).
  assert (load64 m' (entry_size_addr e) = load64 m (entry_size_addr e)) as E16
    by (unfold entry_size_addr in *; apply (load64_agree _ _ _ _ _ Hag); lia).
  assert (ulog_entry_type m' e = ulog_entry_type m e) as ET by (unfold ulog_entry_type; by rewrite E0).
  split; [done|]. split; [unfold entry_checksum_addr; apply (load64_agree _ _ _ _ _ Hag); lia|].
  split; [done|]. split; [done|]. split; [unfold ulog_entry_offset; by rewrite E0|].
  split; [unfold ulog_entry_size; by rewrite ET, E16|].
  unfold entry_checksum_addr.
  rewrite !checksum_compute_seq by (lia || done || (replace (e + 8 - e) with 8 by lia; done)).
  apply checksum_seq_ext; [lia|]. intros i Hi. unfold zero_field.
  apply agree_write with (lo := e) (n := ulog_entry_size m e); [done|lia].
Qed.

Lemma inc_gen_discards u e p_ops s :
  ulog_entry_valid (vis s) u e = Some true ->
  kind_of_type (ulog_entry_type (vis s) e) = KBuf ->
  load64 (vis s) (entry_size_addr e) < 2 ^ 62 ->
  u + SIZEOF_ULOG_HDR <= e \/ e + ulog_entry_size (vis s) e <= u ->
  ulog_entry_valid (vis (ulog_inc_gen_num u p_ops s)) u e = Some false.
Proof.
  intros Hv Hk Hsz Hap. rewrite inc_gen_vis.
  set (m := vis s) in *. set (g := load64 m (ulog_gen_num_addr u)) in *.
  set (m' := write_bytes m (ulog_gen_num_addr u) (le64 (u64 (g + 1)))).
  assert (agree m' m e (ulog_entry_size m e)) as Hag.
  { apply agree_write_out. rewrite length_le64. unfold ulog_gen_num_addr, SIZEOF_ULOG_HDR in *. lia. }
  destruct (buf_entry_agree m m' e Hk Hsz Hag) as (E0 & E8 & _ & ET & _ & ES & EC).
  unfold ulog_entry_valid in *. rewrite E0, ET, Hk, ES, EC in *.
  destruct (load64 m e =? 0); [done|].
  destruct (util_checksum_compute m e _ _ 0) as [c|]; [|done].
  destruct (util_checksum_seq m (ulog_gen_num_addr u) 8 c) as [v|] eqn:Hold; [|done].
  destruct (checksum_seq_some m' (ulog_gen_num_addr u) 8 c ltac:(done)) as (v' & Hnew & _).
  rewrite Hnew, E8. apply (inj Some), Z.eqb_eq in Hv. rewrite Hv. f_equal. apply Z.eqb_neq. intros <-.
  apply gen_checksum_lo in Hold, Hnew. fold g in Hold. unfold m' in Hnew.
  rewrite load64_write_same in Hnew. rewrite (u64_small (u64 (g + 1))) in Hnew by apply u64_range.
  apply (gen_sum_differs (u32 c) g); [apply load64_range|congruence].
Qed.

(** C26. Incrementing the generation number of a log invalidates every buffer
    entry that was valid in the old generation: the checksums of two consecutive
    generations never agree, so ulog_clobber_data discards a whole undo log with
    one 8-byte store. *)
Theorem inc_gen_invalidates u e p_ops s :
  ulog_entry_valid (vis s) u e = Some true ->
  kind_of_type (ulog_entry_type (vis s) e) = KBuf ->
  load64 (vis s) (entry_size_addr e) < 2 ^ 62 ->
  u + SIZEOF_ULOG_HDR <= e \/ e + ulog_entry_size (vis s) e <= u ->
  ulog_entry_valid (vis (ulog_inc_gen_num u p_ops s)) u e = Some false.
Proof. apply inc_gen_discards. Qed.

(** An undo log at 1024 with one entry, a snapshot of 150 bytes at 8192. *)
Definition ex_undo : pmst :=
  match ulog_entry_buf_create 1024 0 7 8192 8192 150 ULOG_OPERATION_BUF_CPY (POps 0 OPS_POOL)
          (PMst (write_bytes byte_of_Z (ulog_gen_num_addr 1024) (le64 7)) [] false) with
  | Some (_, s) => s
  | None => PMst byte_of_Z [] true
  end.

Lemma inc_gen_invalidates_witness :
  ulog_entry_valid (vis (ulog_inc_gen_num 1024 (Some (POps 0 OPS_POOL)) ex_undo)) 1024 1088 = Some false.
Proof.
  apply inc_gen_invalidates; [vm_compute; reflexivity|vm_compute; reflexivity|vm_compute; reflexivity|].
  left. vm_compute. discriminate.
Defined.

(** ** Undo *)

Lemma vis_apply_cpy p_ops e s :
  ulog_entry_type (vis s) e = ULOG_OPERATION_BUF_CPY ->
  vis (ulog_entry_apply e false p_ops s) =
  write_bytes (vis s) (base p_ops + ulog_entry_offset (vis s) e)
    (read_bytes (vis s) (entry_data e) (Z.to_nat (load64 (vis s) (entry_size_addr e)))).
Proof.
  intros Ht. unfold ulog_entry_apply. rewrite Ht. cbn -[le64 load64 pmemops_memcpy].
  apply vis_memcpy_from.
Qed.

(** Undo restores the snapshot.  A range of the pool is saved with
    ulog_entry_buf_create (source and target are the range itself, as a
    transaction snapshot does); whatever the program stores afterwards outside
    the entry, processing the entry gives the range its saved content back and
    changes nothing else. *)
Theorem undo_restores ulog offset ptr size p_ops m :
  buf_create_pre ulog offset ptr ptr size ULOG_OPERATION_BUF_CPY p_ops ->
  exists e s', ulog_entry_buf_create ulog offset (load64 m (ulog_gen_num_addr ulog)) ptr ptr size
                 ULOG_OPERATION_BUF_CPY p_ops (PMst m [] false) = Some (e, s') /\
    forall s, agree (vis s) (vis s') e (buf_entry_size size) ->
      let r := (ulog_process_entry p_ops e s).2 in
      agree (vis r) m ptr size /\
      (forall x, x < ptr \/ ptr + size <= x -> vis r x = vis s x).
Proof.
  intros Hpre. pose proof Hpre as [Ht Hs Ho Hty Hd Hsrc].
  destruct (buf_create_spec _ _ _ _ _ _ _ m Hpre) as (s' & H1 & _ & H3 & H4 & H5 & H6 & H7 & _).
  set (e := ulog_data ulog + offset) in *.
  exists e, s'. split; [exact H1|]. intros s Hag. rewrite <- H3 in Hag.
  assert (kind_of_type (ulog_entry_type (vis s') e) = KBuf) as Hk by (rewrite H4; done).
  destruct (buf_entry_agree (vis s') (vis s) e Hk ltac:(lia) Hag) as (_ & _ & E16 & ET & EO & _).
  destruct (buf_entry_size_facts (vis s') e Hk ltac:(lia)) as (_ & Hb & _).
  unfold ulog_process_entry. cbn [snd]. cbv zeta. rewrite vis_apply_cpy by (by rewrite ET).
  rewrite EO, H5, E16, H6. replace (base p_ops + (ptr - base p_ops)) with ptr by lia.
  split.
  - intros x Hx. rewrite write_read_pt, Z2Nat.id by lia.
    destruct (Z.leb_spec ptr x), (Z.ltb_spec x (ptr + size)); cbn [andb]; try lia.
    rewrite Hag by (unfold entry_data, sizeof_entry_buf in *; lia).
    apply (f_equal (fun l => l !! Z.to_nat (x - ptr))) in H7.
    rewrite !lookup_read_bytes, Z2Nat.id in H7 by lia. injection H7 as ->. f_equal. lia.
  - intros x Hx. apply write_bytes_out. rewrite length_read_bytes. lia.
Qed.

Lemma undo_restores_witness :
  let ops := POps 0 OPS_POOL in let m : mem := byte_of_Z in
  exists e s', ulog_entry_buf_create 1024 0 (load64 m (ulog_gen_num_addr 1024)) 8192 8192 150
                 ULOG_OPERATION_BUF_CPY ops (PMst m [] false) = Some (e, s') /\
    forall s, agree (vis s) (vis s') e (buf_entry_size 150) ->
      let r := (ulog_process_entry ops e s).2 in
      agree (vis r) m 8192 150 /\
      (forall x, x < 8192 \/ 8192 + 150 <= x -> vis r x = vis s x).
Proof.
  apply (undo_restores 1024 0 8192 150 (POps 0 OPS_POOL)).
  constructor; [reflexivity|lia|lia|by right|cbn; lia|right; vm_compute; discriminate].
Defined.

(** ** Value entries *)

(** Value entry round trip.  The entry ulog_entry_val_create writes decodes
    to the given operation, target and value, is followed by a terminating zero
    header, and nothing else in memory changes. *)
Theorem val_create_roundtrip ulog offset dest value o p_ops s :
  0 < dest - base p_ops < 2 ^ 61 -> 0 <= value < 2 ^ 64 ->
  let '(e, s') := ulog_entry_val_create ulog offset dest value (op_type o) p_ops s in
  e = ulog_data ulog + offset /\
  vent_at (vis s') e (VEnt (dest - base p_ops) o value) /\
  ulog_entry_valid (vis s') ulog (e + sizeof_entry_val) = Some false /\
  (forall x, x < e \/ e + 24 <= x -> vis s' x = vis s x).
Proof.
  intros Hd Hv. set (v := VEnt (dest - base p_ops) o value).
  assert (vent_ok v) as Hok by (split; cbn; lia).
  pose proof (val_create_spec ulog offset dest v p_ops s Hok eq_refl) as H.
  cbn [ve_val ve_op v] in H. destruct (ulog_entry_val_create _ _ _ _ _ _ _) as [e s'].
  destruct H as [He Hm]. rewrite Hm. destruct (written_vent (vis s) e v Hok) as (W1 & W2 & W3).
  split; [done|]. split; [done|]. split; [|done].
  unfold ulog_entry_valid, sizeof_entry_val. by rewrite W2.
Qed.

Lemma val_create_roundtrip_witness :
  let '(e, s') := ulog_entry_val_create 1024 32 8192 77 (op_type OpOr) (POps 0 OPS_POOL)
                    (PMst byte_of_Z [] false) in
  e = ulog_data 1024 + 32 /\
  vent_at (vis s') e (VEnt (8192 - 0) OpOr 77) /\
  ulog_entry_valid (vis s') 1024 (e + sizeof_entry_val) = Some false /\
  (forall x, x < e \/ e + 24 <= x -> vis s' x = byte_of_Z x).
Proof.
  apply (val_create_roundtrip 1024 32 8192 77 OpOr (POps 0 OPS_POOL) (PMst byte_of_Z [] false));
    cbn; lia.
Defined.

(** ** Entries of an undefined type *)

(** C40. A non-zero header with an operation code the code does not define (3, 4
    or 7) has size 0 but counts as valid.  Where the first entry of a log is such
    a one, the scan of ulog_base_nbytes and the loop of ulog_foreach_entry stay at
    it for ever: no amount of fuel lets recovery or processing of the log
    return. *)
Theorem unknown_entry_diverges u p_ops s fuel :
  u <> 0 -> 0 < load64 (vis s) (ulog_capacity_addr u) ->
  load64 (vis s) (ulog_data u) <> 0 ->
  kind_of_type (ulog_entry_type (vis s) (ulog_data u)) = KUnknown ->
  ulog_process fuel u p_ops s = None /\
  ulog_recover fuel u p_ops s = None.
Proof.
  intros Hu Hc Hw Hk.
  assert (ulog_entry_valid (vis s) u (ulog_data u) = Some true) as Hv.
  { unfold ulog_entry_valid. destruct (Z.eqb_spec (load64 (vis s) (ulog_data u)) 0); [done|].
    by rewrite Hk. }
  assert (ulog_entry_size (vis s) (ulog_data u) = 0) as Hs by (unfold ulog_entry_size; by rewrite Hk).
  assert (ulog_entry_apply (ulog_data u) false p_ops s = s) as Ha.
  { unfold ulog_entry_apply. unfold kind_of_type in Hk. cbv zeta.
    destruct (ulog_entry_type (vis s) (ulog_data u) =? ULOG_OPERATION_AND); [done|].
    destruct (ulog_entry_type (vis s) (ulog_data u) =? ULOG_OPERATION_OR); [done|].
    destruct (ulog_entry_type (vis s) (ulog_data u) =? ULOG_OPERATION_SET); [done|].
    cbn [orb] in Hk.
    destruct (ulog_entry_type (vis s) (ulog_data u) =? ULOG_OPERATION_BUF_SET); [done|].
    destruct (ulog_entry_type (vis s) (ulog_data u) =? ULOG_OPERATION_BUF_CPY); done. }
  apply Z.ltb_lt in Hc. split.
  - unfold ulog_process, ulog_foreach_entry. destruct (Z.eqb_spec u 0); [done|].
    enough (forall k, ulog_foreach_from k u u 0 (ulog_process_entry p_ops) 0 p_ops s = None) as -> by done.
    induction k as [|k IH]; [done|]. cbn [ulog_foreach_from]. rewrite Hc, Z.add_0_r, Hv.
    cbn [ulog_process_entry Z.eqb]. rewrite Ha, Hs. exact IH.
  - unfold ulog_recover, ulog_recovery_needed, ulog_base_nbytes.
    enough (forall k, ulog_base_nbytes_from k (vis s) u 0 = None) as -> by done.
    induction k as [|k IH]; [done|]. cbn [ulog_base_nbytes_from]. rewrite Hc, Z.add_0_r, Hv, Hs. exact IH.
Qed.

Lemma unknown_entry_diverges_witness :
  let m := write_bytes (write_bytes (fun _ => Byte.x00) (ulog_capacity_addr 1024) (le64 640))
             (ulog_data 1024) (le64 (Z.lor 8192 (Z.shiftl 7 61))) in
  ulog_process 1000 1024 (POps 0 OPS_POOL) (PMst m [] false) = None /\
  ulog_recover 1000 1024 (POps 0 OPS_POOL) (PMst m [] false) = None.
Proof.
  apply (unknown_entry_diverges 1024); [discriminate|vm_compute; reflexivity|vm_compute; discriminate|
    vm_compute; reflexivity].
Defined.

(** ** Construction *)

(** The header ulog_construct writes, and the zeroed first entry. *)
Definition new_log_bytes (capacity gen_num flags : Z) : list byte :=
  le64 0 ++ le64 0 ++ le64 capacity ++ le64 gen_num ++ le64 flags ++
  replicate 24 Byte.x00 ++ replicate 64 Byte.x00.

Lemma construct_vis offset capacity gen_num flags p_ops s :
  table p_ops = OPS_POOL ->
  vis (ulog_construct offset capacity gen_num true flags p_ops s) ≡
  write_bytes (vis s) (ulog_by_offset offset p_ops) (new_log_bytes capacity gen_num flags).
Proof.
  intros Ht x. unfold ulog_construct, pmemops_flush, pmemops_memset. rewrite Ht.
  set (u := ulog_by_offset offset p_ops). cbv zeta.
  match goal with |- vis ?t x = _ => change (vis t) with
    (write_bytes (write_bytes (write_bytes (write_bytes (write_bytes (write_bytes (write_bytes (vis s)
      (u + 16) (le64 capacity)) u (le64 0)) (u + 8) (le64 0)) (u + 24) (le64 gen_num)) (u + 32) (le64 flags))
      (u + 40) (replicate 24 Byte.x00)) (u + 64) (replicate 64 Byte.x00)) end.
  unfold new_log_bytes. rewrite !write_bytes_app, !length_le64, length_replicate.
  change (Z.of_nat 8) with 8. change (Z.of_nat 24) with 24. rewrite <- !Z.add_assoc. simpl Z.add.
  do 4 (apply write_bytes_ext).
  change (8 + 8) with 16. destruct (decide (u + 16 <= x < u + 24)) as [Hx|Hx].
  - rewrite (write_bytes_out _ (u + 8)), (write_bytes_out _ u) by (rewrite length_le64; lia).
    apply write_bytes_cover. rewrite length_le64. lia.
  - rewrite (write_bytes_out _ (u + 16) (le64 capacity) x) by (rewrite length_le64; lia).
    do 2 apply write_bytes_ext. apply write_bytes_out. rewrite length_le64. lia.
Qed.

Lemma construct_dirty offset capacity gen_num flags p_ops m :
  table p_ops = OPS_POOL ->
  let s := ulog_construct offset capacity gen_num true flags p_ops (PMst m [] false) in
  dirty_in 0 0 s /\ wf_st m s.
Proof.
  intros Ht. unfold ulog_construct, pmemops_flush, pmemops_memset. rewrite Ht.
  set (u := ulog_by_offset offset p_ops). cbv zeta.
  split; [|done].
  apply (dirty_store_flush (ulog_data u) (replicate 64 Byte.x00)); [|simpl; lia].
  apply (dirty_flush u 64). unfold SIZEOF_ULOG_HDR, st_store64,
    ulog_unused_addr, ulog_flags_addr, ulog_gen_num_addr, ulog_next_addr, ulog_checksum_addr,
    ulog_capacity_addr.
  repeat (apply dirty_store; [| rewrite ?length_le64, ?length_replicate; lia ..]).
  apply dirty_init.
Qed.

Lemma load_new_log m u capacity gen_num flags i v :
  (i = 8 /\ v = 0) \/ (i = 16 /\ v = capacity) \/ (i = 24 /\ v = gen_num) \/ (i = 64 /\ v = 0) ->
  0 <= v < 2 ^ 64 ->
  load64 (write_bytes m u (new_log_bytes capacity gen_num flags)) (u + i) = v.
Proof.
  intros Hi Hv. unfold load64.
  rewrite read_write_sub by (unfold new_log_bytes; rewrite ?length_app, ?length_le64, ?length_replicate; lia).
  replace (Z.to_nat (u + i - u)) with (Z.to_nat i) by lia.
  rewrite <- (u64_small v Hv), <- dec_le64. f_equal.
  destruct Hi as [[-> ->]|[[-> ->]|[[-> ->]|[-> ->]]]]; done.
Qed.

(** A constructed log is empty.  After ulog_construct (with flushing) and a
    drain, whatever a power failure leaves, the log has the given capacity and
    generation, no successor and no entries: it needs no recovery and processing
    it changes nothing, whatever the memory held before. *)
Theorem construct_empty offset capacity gen_num flags p_ops m img :
  table p_ops = OPS_POOL -> 0 <= capacity < 2 ^ 64 -> 0 <= gen_num < 2 ^ 64 ->
  crash_image m (trace (pmem_drain
    (ulog_construct offset capacity gen_num true flags p_ops (PMst m [] false)))) img ->
  let u := ulog_by_offset offset p_ops in
  load64 img (ulog_capacity_addr u) = capacity /\ load64 img (ulog_gen_num_addr u) = gen_num /\
  ulog_next img u p_ops = 0 /\
  ulog_recovery_needed 1 img u true = Some false /\
  ulog_process 1 u p_ops (PMst img [] false) = Some (PMst img [] false).
Proof.
  intros Ht Hc Hg Hcr u. destruct (construct_dirty offset capacity gen_num flags p_ops m Ht) as [Hd Hw].
  pose proof (dirty_drain_crash m _ img Hd Hw Hcr) as E. rewrite construct_vis in E by done. fold u in E.
  assert (load64 img (ulog_capacity_addr u) = capacity) as E16
    by (rewrite E; apply load_new_log; [lia|done]).
  assert (load64 img (ulog_gen_num_addr u) = gen_num) as E24
    by (rewrite E; apply load_new_log; [lia|done]).
  assert (ulog_next img u p_ops = 0) as EN.
  { unfold ulog_next, ulog_next_addr. rewrite E, load_new_log with (v := 0) by lia. done. }
  assert (ulog_entry_valid img u (ulog_data u) = Some false) as EV.
  { unfold ulog_entry_valid, ulog_data, SIZEOF_ULOG_HDR. rewrite E, load_new_log with (v := 0) by lia. done. }
  split; [done|]. split; [done|]. split; [done|]. split.
  - unfold ulog_recovery_needed, ulog_base_nbytes. cbn [ulog_base_nbytes_from].
    rewrite Z.add_0_r, EV, E16. destruct (0 <? capacity); cbn [mbind option_bind];
      (destruct (Z.eqb_spec (0 `min` capacity) 0); [done|lia]).
  - unfold ulog_process, ulog_foreach_entry. destruct (u =? 0); [done|].
    cbn [ulog_foreach_from vis]. rewrite Z.add_0_r, EV, EN, E16. by destruct (0 <? capacity).
Qed.

Lemma construct_empty_witness :
  let m : mem := byte_of_Z in let ops := POps 0 OPS_POOL in
  let img := replay m (trace (pmem_drain (ulog_construct 1000 640 5 true 1 ops (PMst m [] false)))) in
  let u := ulog_by_offset 1000 ops in
  load64 img (ulog_capacity_addr u) = 640 /\ load64 img (ulog_gen_num_addr u) = 5 /\
  ulog_next img u ops = 0 /\
  ulog_recovery_needed 1 img u true = Some false /\
  ulog_process 1 u ops (PMst img [] false) = Some (PMst img [] false).
Proof.
  apply (construct_empty 1000 640 5 1 (POps 0 OPS_POOL) byte_of_Z); [done|lia|lia|apply crash_image_all].
Defined.
