(* ===== verification/Settled.v ===== *)
(** * Words that are on media

    A word is settled when no power failure can show anything else than its
    visible content: it stays so while other words are stored to, and a drain
    settles every word that has no store waiting for a flush. *)
From stdpp Require Import base numbers list list_numbers.
From Stdlib Require Import ZArith Lia Bool.
From S2P Require Import Prelude Pmem.

Definition settled (m0 : mem) (tr : list pevent) (w : Z) : Prop :=
  forall k j, (durable tr w <= k <= length tr)%nat -> 0 <= j < 8 -> replay m0 (take k tr) (w + j) = replay m0 tr (w + j).

(** Settled, and with nothing that waits for a flush. *)
Definition on_media (m0 : mem) (tr : list pevent) (w : Z) : Prop := pending tr w = false /\ settled m0 tr w.

Lemma settled_crash m0 tr img w : settled m0 tr w -> crash_image m0 tr img -> w mod 8 = 0 -> agree img (replay m0 tr) w 8.
Proof.
  intros Hs Hc Hw x Hx. destruct (Hc w Hw) as (k & Hk & Himg). replace x with (w + (x - w)) by lia.
  rewrite Himg by lia. apply Hs; [done|lia].
Qed.

Lemma on_media_nil m0 w : on_media m0 [] w.
Proof. split; [done|]. intros k j Hk _. by rewrite firstn_nil. Qed.

Lemma durable_mono tr tr' w : (durable tr w <= durable (tr ++ tr') w)%nat.
Proof.
  unfold durable. rewrite durable_from_app. pose proof (marks_bounds tr w 0 0 0 ltac:(lia)) as [Hm1 Hm2].
  pose proof (durable_from_bounds tr' w (0 + length tr) (marks tr w 0 0 0).1 (marks tr w 0 0 0).2 ltac:(lia)) as [Hd _].
  pose proof (durable_from_app tr [] w 0 0 0) as E. rewrite app_nil_r in E. cbn [durable_from] in E. rewrite E. lia.
Qed.

(** Events on other words. *)
Lemma on_media_avoids m0 tr evs w : on_media m0 tr w -> Forall (ev_avoids w 8) evs -> on_media m0 (tr ++ evs) w.
Proof.
  intros [Hp Hs] Ha. split.
  - rewrite pending_app, Hp. induction Ha as [|ev evs Hev _ IH]; [done|]. cbn [foldl].
    assert (pending_step w false ev = false) as ->; [|done]. destruct ev as [a bs|a n|]; cbn in *; [|by destruct (covers a n w)|done].
    unfold touches. destruct (Z.ltb_spec a (w + 8)), (Z.ltb_spec w (a + Z.of_nat (length bs))); cbn; lia || done.
  - intros k j Hk Hj. pose proof (durable_mono tr evs w) as Hd. rewrite replay_app.
    rewrite (replay_avoids (replay m0 tr) evs w 8 Ha (w + j)) by lia. destruct (decide (k <= length tr)%nat) as [Hle|Hgt].
    + rewrite take_app_le by lia. apply Hs; lia.
    + rewrite take_app_ge by lia. rewrite replay_app. apply (replay_avoids _ _ w 8); [by apply Forall_take|lia].
Qed.

(** A drain. *)
Lemma on_media_drain m0 tr w : pending tr w = false -> on_media m0 (tr ++ [EvDrain]) w.
Proof.
  intros Hp. split; [by rewrite pending_app, Hp|]. intros k j Hk Hj. pose proof (durable_drain tr [] w) as Hd.
  rewrite replay_app. cbn [foldl replay apply_ev]. destruct (decide (k <= length tr)%nat) as [Hle|Hgt].
  - rewrite take_app_le by lia. apply pending_replay; [done|lia|lia].
  - rewrite length_app in Hk. cbn in Hk. replace k with (length (tr ++ [EvDrain])) by (rewrite length_app; cbn; lia). by rewrite firstn_all, replay_app.
Qed.

(** A region that is on media, and a byte that no event touches. *)
Definition region_on_media (m0 : mem) (tr : list pevent) (lo n : Z) : Prop :=
  forall w, w mod 8 = 0 -> lo < w + 8 -> w < lo + n -> on_media m0 tr w.

Lemma region_crash m0 s img lo n : wf_st m0 s -> region_on_media m0 (trace s) lo n -> crash_image m0 (trace s) img -> agree img (vis s) lo n.
Proof.
  intros Hwf Hr Hc x Hx. destruct (word_of_spec x) as [Hw Hx']. destruct (Hr (word_of x) Hw) as [_ Hs]; [lia|lia|].
  rewrite (settled_crash _ _ _ _ Hs Hc Hw x) by lia. symmetry. apply Hwf.
Qed.

Definition untouched (tr : list pevent) (x : Z) : Prop := Forall (ev_avoids x 1) tr.

Lemma untouched_crash m0 tr img x : untouched tr x -> crash_image m0 tr img -> img x = m0 x.
Proof. intros Hu Hc. apply (crash_untouched m0 tr img x 1 Hc Hu). lia. Qed.
