(* ===== verification/UndoLog.v ===== *)
(** * Undo logs with buffer entries

    A log that holds snapshots one after the other, and what going through it
    does: every entry writes its bytes back, so that all snapshotted memory has
    the content it had when it was snapshotted. *)
From stdpp Require Import base numbers list list_numbers.
From Stdlib Require Import ZArith Lia Bool.
From S2P Require Import Prelude Pmem Checksum Ulog UlogEntries.

(** An offset of the pool with its old content. *)
Record snapshot := Snap { sn_off : Z; sn_bytes : list byte }.
Definition sn_len (sn : snapshot) : Z := Z.of_nat (length (sn_bytes sn)).
Definition sn_size (sn : snapshot) : Z := buf_entry_size (sn_len sn).
Fixpoint log_size (l : list snapshot) : Z := match l with [] => 0 | sn :: l => sn_size sn + log_size l end.

(** The entry at [e] of the log [u]. *)
Record entry_at (m : mem) (u e : Z) (sn : snapshot) : Prop := EntryAt {
  ea_len : 0 < sn_len sn < 2 ^ 62;
  ea_valid : ulog_entry_valid m u e = Some true;
  ea_type : ulog_entry_type m e = ULOG_OPERATION_BUF_CPY;
  ea_off : ulog_entry_offset m e = sn_off sn;
  ea_size : load64 m (entry_size_addr e) = sn_len sn;
  ea_data : read_bytes m (entry_data e) (length (sn_bytes sn)) = sn_bytes sn
}.

Fixpoint entries_at (m : mem) (u e : Z) (l : list snapshot) : Prop :=
  match l with
  | [] => True
  | sn :: l => entry_at m u e sn /\ entries_at m u (e + sn_size sn) l
  end.

(** A single log of capacity [C] with exactly these entries. *)
Record undo_at (m : mem) (u C : Z) (l : list snapshot) : Prop := UndoAt {
  ua_log : u <> 0;
  ua_cap : load64 m (ulog_capacity_addr u) = C;
  ua_next : load64 m (ulog_next_addr u) = 0;
  ua_entries : entries_at m u (ulog_data u) l;
  ua_room : log_size l <= C < 2 ^ 62;
  ua_aligned : C mod 64 = 0;
  ua_end : log_size l < C -> load64 m (ulog_data u + log_size l) = 0
}.

Definition undo_region (u C : Z) : Z := SIZEOF_ULOG_HDR + C.

Lemma sn_size_facts sn : 0 < sn_len sn < 2 ^ 62 -> 24 + sn_len sn <= sn_size sn < 24 + sn_len sn + 64 /\ sn_size sn mod 64 = 0.
Proof.
  intros Hl. unfold sn_size, buf_entry_size, CACHELINE_ALIGN, sizeof_entry_buf.
  destruct (align_up_64_bounds (24 + sn_len sn) ltac:(lia)) as [H1 H2]. split; [lia|done].
Qed.

Lemma entry_size m u e sn : entry_at m u e sn -> ulog_entry_size m e = sn_size sn.
Proof.
  intros [H1 _ H3 _ H5 _]. destruct (buf_entry_size_facts m e) as (-> & _ & _); [by rewrite H3|lia|]. by rewrite H5.
Qed.

Lemma log_size_app l1 l2 : log_size (l1 ++ l2) = log_size l1 + log_size l2.
Proof. induction l1 as [|sn l1 IH]; cbn [app log_size]; [done|]. rewrite IH. lia. Qed.

Lemma entries_app m u e l1 l2 : entries_at m u e (l1 ++ l2) <-> entries_at m u e l1 /\ entries_at m u (e + log_size l1) l2.
Proof.
  revert e. induction l1 as [|sn l1 IH]; intros e; cbn [app entries_at log_size]; [rewrite Z.add_0_r; tauto|].
  rewrite IH. rewrite Z.add_assoc. tauto.
Qed.

Lemma entries_pos m u e l : entries_at m u e l -> 0 <= log_size l /\ Forall (fun sn => 0 < sn_len sn < 2 ^ 62) l /\ log_size l mod 64 = 0.
Proof.
  revert e. induction l as [|sn l IH]; intros e; cbn [entries_at log_size]; [by repeat constructor|].
  intros [H1 H2]. destruct (IH _ H2) as (H3 & H4 & H5). destruct (sn_size_facts sn (ea_len _ _ _ _ H1)) as [H6 H7].
  pose proof (ea_len _ _ _ _ H1). split; [lia|]. split; [constructor; [done|done]|]. by rewrite Z.add_mod, H5, H7.
Qed.

(** An entry depends on its bytes and on the generation number of its log. *)
Lemma entry_at_agree m m' u e sn : entry_at m u e sn -> agree m' m e (sn_size sn) -> agree m' m u SIZEOF_ULOG_HDR -> entry_at m' u e sn.
Proof.
  intros HE Hag Hu. pose proof HE as [H1 H2 H3 H4 H5 H6]. pose proof (entry_size _ _ _ _ HE) as Hs. rewrite <- Hs in Hag.
  assert (kind_of_type (ulog_entry_type m e) = KBuf) as Hk by (by rewrite H3).
  destruct (buf_entry_agree m m' e Hk ltac:(lia) Hag) as (E0 & E8 & E16 & ET & EO & ES & EC).
  constructor; [done| |by rewrite ET|by rewrite EO|by rewrite E16|].
  - unfold ulog_entry_valid in *. rewrite E0, ET, ES, EC, E8, Hk in *. destruct (load64 m e =? 0); [done|].
    destruct (util_checksum_compute m e _ _ 0) as [c|]; [|done].
    rewrite (checksum_seq_ext m' m (ulog_gen_num_addr u) (ulog_gen_num_addr u) 8 c); [done|lia|].
    intros i Hi. apply Hu. unfold ulog_gen_num_addr, SIZEOF_ULOG_HDR. lia.
  - rewrite <- H6 at 2. apply (read_bytes_agree _ _ e (ulog_entry_size m e)); [done|unfold entry_data, sizeof_entry_buf; lia|].
    destruct (sn_size_facts sn H1) as [? _]. fold (sn_len sn). unfold entry_data, sizeof_entry_buf. rewrite Hs. lia.
Qed.

Lemma entries_agree m m' u e l : entries_at m u e l -> agree m' m e (log_size l) -> agree m' m u SIZEOF_ULOG_HDR -> entries_at m' u e l.
Proof.
  revert e. induction l as [|sn l IH]; intros e; cbn [entries_at log_size]; [done|]. intros [H1 H2] Hag Hu.
  destruct (entries_pos _ _ _ _ H2) as [Hp _]. destruct (sn_size_facts sn (ea_len _ _ _ _ H1)) as [Hs _]. pose proof (ea_len _ _ _ _ H1). split.
  - apply (entry_at_agree m); [done| |done]. intros x Hx. apply Hag. lia.
  - apply IH; [done| |done]. intros x Hx. apply Hag. lia.
Qed.

Lemma undo_at_agree m m' u C l : undo_at m u C l -> agree m' m u (undo_region u C) -> undo_at m' u C l.
Proof.
  intros [H0 H1 H2 H3 H4 H5 H6] Hag. unfold undo_region, SIZEOF_ULOG_HDR in Hag. destruct (entries_pos _ _ _ _ H3) as (Hp & _ & Hm).
  assert (0 <= C) by lia. pose proof (Z.div_mod C 64 ltac:(lia)). pose proof (Z.div_mod (log_size l) 64 ltac:(lia)).
  constructor; try done.
  - rewrite <- H1. apply (load64_agree _ _ _ _ _ Hag); unfold ulog_capacity_addr; lia.
  - rewrite <- H2. apply (load64_agree _ _ _ _ _ Hag); unfold ulog_next_addr; lia.
  - apply (entries_agree m); [done| |]; intros x Hx; apply Hag; unfold ulog_data, SIZEOF_ULOG_HDR in *; lia.
  - intros Hlt. rewrite <- (H6 Hlt). apply (load64_agree _ _ _ _ _ Hag); unfold ulog_data, SIZEOF_ULOG_HDR; lia.
Qed.

(** ** Going through the log *)

Definition in_snap (b : Z) (sn : snapshot) (x : Z) : Prop := b + sn_off sn <= x < b + sn_off sn + sn_len sn.
Definition snapped (b : Z) (l : list snapshot) (x : Z) : Prop := Exists (fun sn => in_snap b sn x) l.

(** The bytes are those of the memory [m0], but for volatile ones ([vol]). *)
Definition taken_from (b : Z) (m0 : mem) (vol : Z -> Prop) (sn : snapshot) : Prop :=
  forall i, 0 <= i < sn_len sn -> ~ vol (b + sn_off sn + i) -> sn_bytes sn !! Z.to_nat i = Some (m0 (b + sn_off sn + i)).

Section Foreach.
Context (b u C : Z) (m0 : mem) (vol : Z -> Prop) (P : snapshot -> Prop) (kept : Z -> Prop) (p_ops : pmem_ops) (cb : Z -> pmst -> Z * pmst).

(** The callback writes an entry back, up to the bytes it keeps. *)
Definition writes_back : Prop := forall e sn s, entry_at (vis s) u e sn -> taken_from b m0 vol sn -> P sn ->
  (forall x, in_snap b sn x -> ~ u <= x < u + undo_region u C) -> u <= e -> e + sn_size sn <= u + undo_region u C ->
  exists s', cb e s = (0, s') /\ (forall x, in_snap b sn x -> ~ kept x -> ~ vol x -> vis s' x = m0 x) /\
    (forall x, ~ in_snap b sn x \/ kept x -> vis s' x = vis s x).
Hypothesis (Hcb : writes_back).

Lemma foreach_restores l1 l2 s fuel : undo_at (vis s) u C (l1 ++ l2) -> Forall (taken_from b m0 vol) l2 -> Forall P l2 ->
  (forall x, snapped b l2 x -> ~ u <= x < u + undo_region u C) -> (length l2 < fuel)%nat ->
  exists s', ulog_foreach_from fuel u u (log_size l1) cb 0 p_ops s = Some (0, s') /\
    (forall x, snapped b l2 x -> ~ kept x -> ~ vol x -> vis s' x = m0 x) /\ (forall x, ~ snapped b l2 x \/ kept x -> vis s' x = vis s x).
Proof.
  revert l1 s fuel. induction l2 as [|sn l2 IH]; intros l1 s fuel HU HT HP HD Hf; (destruct fuel as [|fuel]; [lia|]); cbn [ulog_foreach_from];
    pose proof HU as [H0 H1 H2 H3 H4 H5 H6]; rewrite H1.
  - rewrite app_nil_r in *. exists s. assert (forall x, snapped b [] x -> False) as Hn by (intros x Hx; by apply Exists_nil in Hx).
    split; [|split; [intros x Hx; by destruct (Hn x)|done]].
    destruct (Z.ltb_spec (log_size l1) C) as [Hlt|Hge].
    + unfold ulog_entry_valid. by rewrite (H6 Hlt).
    + unfold ulog_next. by rewrite H2.
  - apply entries_app in H3 as [E1 E2]. cbn [entries_at] in E2. destruct E2 as [E2 E3]. pose proof E2 as [L1 L2 _ _ _ _].
    destruct (entries_pos _ _ _ _ E1) as (P1 & _ & _). destruct (entries_pos _ _ _ _ E3) as (P3 & _ & _).
    destruct (sn_size_facts sn L1) as [P2 _]. rewrite log_size_app in H4. cbn [log_size] in H4.
    destruct (Z.ltb_spec (log_size l1) C) as [_|?]; [|lia]. rewrite L2. apply Forall_cons in HT as [T1 T2]. apply Forall_cons in HP as [HP1 HP2].
    destruct (Hcb _ sn s E2 T1 HP1) as (s1 & -> & W1 & W2).
    { intros x Hx. apply HD. by left. } { unfold ulog_data, SIZEOF_ULOG_HDR. lia. } { unfold ulog_data, undo_region. lia. }
    cbn [Z.eqb]. assert (agree (vis s1) (vis s) u (undo_region u C)) as Hag.
    { intros x Hx. apply W2. left. intros Hin. apply (HD x); [by left|done]. }
    pose proof (undo_at_agree _ _ _ _ _ HU Hag) as HU1.
    assert (entry_at (vis s1) u (ulog_data u + log_size l1) sn) as E2'.
    { pose proof (ua_entries _ _ _ _ HU1) as E. apply entries_app in E as [_ [E _]]. done. }
    rewrite (entry_size _ _ _ _ E2'), u64_small by lia.
    destruct (IH (l1 ++ [sn]) s1 fuel) as (s' & E & R1 & R2); [by rewrite <- app_assoc|done|done|intros x Hx; apply HD; by right|cbn in Hf; lia|].
    rewrite log_size_app in E. cbn [log_size] in E. rewrite Z.add_0_r in E. exists s'. split; [done|].
    assert (forall x, snapped b l2 x \/ ~ snapped b l2 x) as Hdec.
    { intros x. destruct (decide (Exists (fun sn => b + sn_off sn <= x < b + sn_off sn + sn_len sn) l2)); [by left|by right]. }
    split.
    + intros x Hx Hk Hv. destruct (Hdec x) as [Hx'|Hx']; [by apply R1|]. rewrite R2 by (by left). apply W1; [|done|done].
      apply Exists_cons in Hx as [?|?]; done.
    + intros x Hx. rewrite R2, W2; [done| |]; (destruct Hx as [Hx|?]; [left|by right]); intros Hs; apply Hx; [by left|by right].
Qed.
End Foreach.

(** ulog_process_entry writes everything back. *)
Lemma process_writes_back p_ops u C m0 vol : writes_back (base p_ops) u C m0 vol (fun _ => True) (fun _ => False) (ulog_process_entry p_ops).
Proof.
  intros e sn s [H1 _ H3 H4 H5 H6] HT _ HD _ _. unfold ulog_process_entry. eexists. split; [done|].
  assert (forall x, vis (ulog_entry_apply e false p_ops s) x =
    write_bytes (vis s) (base p_ops + sn_off sn) (sn_bytes sn) x) as Hv.
  { intros x. rewrite vis_apply_cpy by done. rewrite H4, H5. unfold sn_len. by rewrite Nat2Z.id, H6. }
  split; intros x Hx; [intros _ Hvol|]; rewrite Hv.
  - unfold in_snap in Hx. specialize (HT (x - (base p_ops + sn_off sn)) ltac:(lia)).
    replace (base p_ops + sn_off sn + (x - (base p_ops + sn_off sn))) with x in HT by lia. specialize (HT Hvol).
    unfold write_bytes. fold (sn_len sn). destruct (Z.leb_spec (base p_ops + sn_off sn) x), (Z.ltb_spec x (base p_ops + sn_off sn + sn_len sn)); cbn [andb]; try lia.
    by apply nth_lookup_Some.
  - apply write_bytes_out. fold (sn_len sn). destruct Hx as [Hx|[]]. unfold in_snap in Hx. lia.
Qed.

(** The number of bytes up to the first invalid entry. *)
Lemma base_nbytes_undo m u C l1 l2 fuel : undo_at m u C (l1 ++ l2) -> (length l2 < fuel)%nat ->
  ulog_base_nbytes_from fuel m u (log_size l1) = Some (log_size (l1 ++ l2)).
Proof.
  revert l1 fuel. induction l2 as [|sn l2 IH]; intros l1 fuel HU Hf; (destruct fuel as [|fuel]; [lia|]); cbn [ulog_base_nbytes_from];
    pose proof HU as [H0 H1 H2 H3 H4 H5 H6]; rewrite H1.
  - rewrite app_nil_r in *. destruct (Z.ltb_spec (log_size l1) C) as [Hlt|Hge]; [|done]. unfold ulog_entry_valid. by rewrite (H6 Hlt).
  - apply entries_app in H3 as [E1 E2]. cbn [entries_at] in E2. destruct E2 as [E2 E3]. pose proof E2 as [L1 L2 _ _ _ _].
    destruct (entries_pos _ _ _ _ E1) as (P1 & _ & _). destruct (entries_pos _ _ _ _ E3) as (P3 & _ & _).
    destruct (sn_size_facts sn L1) as [P2 _]. rewrite log_size_app in H4. cbn [log_size] in H4.
    destruct (Z.ltb_spec (log_size l1) C) as [_|?]; [|lia]. rewrite L2, (entry_size _ _ _ _ E2), u64_small by lia.
    replace (log_size l1 + sn_size sn) with (log_size (l1 ++ [sn])) by (rewrite log_size_app; cbn [log_size]; lia).
    replace (l1 ++ sn :: l2) with ((l1 ++ [sn]) ++ l2) in * by (by rewrite <- app_assoc). apply IH; [done|cbn in Hf; lia].
Qed.

(** A new generation discards the whole log. *)
Lemma inc_gen_empties u C l p_ops s : undo_at (vis s) u C l -> l <> [] ->
  ulog_entry_valid (vis (ulog_inc_gen_num u p_ops s)) u (ulog_data u) = Some false.
Proof.
  intros HU Hne. destruct l as [|sn l]; [done|]. pose proof (ua_entries _ _ _ _ HU) as [E _]. pose proof E as [H1 H2 H3 _ H5 _].
  apply inc_gen_discards; [done|by rewrite H3|lia|left; unfold ulog_data; lia].
Qed.
