(* ===== verification/Ravl.v ===== *)
(** * The rank-balanced tree (libpmemobj/ravl.h, ravl.c)

    Nodes live in a heap indexed by address and are linked by parent and child
    pointers, NULL is 0.  Every function that follows a pointer returns an
    option: [None] is a dereference of NULL or of a freed node, or, for the
    loops, that the fuel ran out; RavlFacts shows that neither happens on a well
    formed tree.  [D] is what ravl_data points to, [compare] the comparison the
    tree was created with. *)
From stdpp Require Import base numbers list gmap.
From Stdlib Require Import ZArith Lia Bool.
From S2P Require Import Prelude.

Inductive ravl_slot_type := RAVL_LEFT | RAVL_RIGHT | RAVL_ROOT.

#[global] Instance ravl_slot_type_eq_dec : EqDecision ravl_slot_type.
Proof. solve_decision. Defined.

Record ravl_node (D : Type) := RNode {
  parent : Z; slot_left : Z; slot_right : Z; rank : Z; pointer_based : bool; data : D }.
Arguments RNode {D}.
Arguments parent {D}.
Arguments slot_left {D}.
Arguments slot_right {D}.
Arguments rank {D}.
Arguments pointer_based {D}.
Arguments data {D}.

Record ravl (D : Type) := Ravl { nodes : gmap Z (ravl_node D); root : Z }.
Arguments Ravl {D}.
Arguments nodes {D}.
Arguments root {D}.

(** The node data constructors. *)
Inductive ravl_constr := ravl_node_insert_constructor | ravl_node_copy_constructor.

Definition RAVL_PREDICATE_EQUAL : Z := Z.shiftl 1 0.
Definition RAVL_PREDICATE_GREATER : Z := Z.shiftl 1 1.
Definition RAVL_PREDICATE_LESS : Z := Z.shiftl 1 2.
Definition RAVL_PREDICATE_LESS_EQUAL : Z := Z.lor RAVL_PREDICATE_EQUAL RAVL_PREDICATE_LESS.
Definition RAVL_PREDICATE_GREATER_EQUAL : Z := Z.lor RAVL_PREDICATE_EQUAL RAVL_PREDICATE_GREATER.
Definition has_pred (flags p : Z) : bool := negb (Z.land flags p =? 0).

Section Ravl.
Context {D : Type} (compare : D -> D -> Z).
Implicit Types (r : ravl D) (n : Z) (t : ravl_slot_type).

(** ** Fields *)

Definition slot_of (nd : ravl_node D) (t : ravl_slot_type) : Z :=
  match t with RAVL_LEFT => slot_left nd | _ => slot_right nd end.
Definition with_parent (p : Z) (nd : ravl_node D) : ravl_node D :=
  RNode p (slot_left nd) (slot_right nd) (rank nd) (pointer_based nd) (data nd).
Definition with_slot (t : ravl_slot_type) (v : Z) (nd : ravl_node D) : ravl_node D :=
  match t with
  | RAVL_LEFT => RNode (parent nd) v (slot_right nd) (rank nd) (pointer_based nd) (data nd)
  | _ => RNode (parent nd) (slot_left nd) v (rank nd) (pointer_based nd) (data nd)
  end.
Definition with_rank (k : Z) (nd : ravl_node D) : ravl_node D :=
  RNode (parent nd) (slot_left nd) (slot_right nd) k (pointer_based nd) (data nd).
Definition with_data (d : D) (nd : ravl_node D) : ravl_node D :=
  RNode (parent nd) (slot_left nd) (slot_right nd) (rank nd) (pointer_based nd) d.

Definition deref r n : option (ravl_node D) := nodes r !! n.
Definition update n (f : ravl_node D -> ravl_node D) r : option (ravl D) :=
  nd ← deref r n; Some (Ravl (<[n := f nd]> (nodes r)) (root r)).
Definition Free_node n r : ravl D := Ravl (delete n (nodes r)) (root r).

Definition ravl_new : ravl D := Ravl ∅ 0.
Definition ravl_empty r : Z := c_bool (root r =? 0).

(** ** Nodes *)

(** [addr] is the address Malloc returns, 0 when it fails. *)
Definition ravl_new_node r (addr : Z) (constr : ravl_constr) (arg : D) : Z * ravl D :=
  if addr =? 0 then (0, r) else
  let pb := match constr with ravl_node_insert_constructor => true | _ => false end in
  (addr, Ravl (<[addr := RNode 0 0 0 0 pb arg]> (nodes r)) (root r)).

Definition ravl_slot_opposite t : ravl_slot_type :=
  match t with RAVL_LEFT => RAVL_RIGHT | _ => RAVL_LEFT end.

Definition ravl_node_slot_type r n : option ravl_slot_type :=
  nd ← deref r n;
  if parent nd =? 0 then Some RAVL_ROOT else
  pn ← deref r (parent nd);
  Some (if slot_left pn =? n then RAVL_LEFT else RAVL_RIGHT).

Definition ravl_node_sibling r n : option Z :=
  t ← ravl_node_slot_type r n;
  match t with
  | RAVL_ROOT => Some 0
  | _ =>
      nd ← deref r n;
      pn ← deref r (parent nd);
      Some (slot_of pn (match t with RAVL_LEFT => RAVL_RIGHT | _ => RAVL_LEFT end))
  end.

(** A [struct ravl_node **]: the root field or a slot of a node. *)
Inductive node_ref := RefRoot | RefSlot (p : Z) (t : ravl_slot_type).
Definition load_ref r (f : node_ref) : option Z :=
  match f with RefRoot => Some (root r) | RefSlot p t => nd ← deref r p; Some (slot_of nd t) end.
Definition store_ref (f : node_ref) (v : Z) r : option (ravl D) :=
  match f with
  | RefRoot => Some (Ravl (nodes r) v)
  | RefSlot p t => update p (with_slot t v) r
  end.

Definition ravl_node_ref r n : option node_ref :=
  t ← ravl_node_slot_type r n;
  match t with
  | RAVL_ROOT => Some RefRoot
  | _ => nd ← deref r n; Some (RefSlot (parent nd) t)
  end.

Definition ravl_rotate n r : option (ravl D) :=
  nd ← deref r n;
  let p := parent nd in
  pref ← ravl_node_ref r p;
  t ← ravl_node_slot_type r n;
  let t_opposite := ravl_slot_opposite t in
  pn ← deref r p;
  r ← update n (with_parent (parent pn)) r;
  r ← update p (with_parent n) r;
  r ← store_ref pref n r;
  nd ← deref r n;
  let c := slot_of nd t_opposite in
  r ← update p (with_slot t c) r;
  r ← (if c =? 0 then Some r else update c (with_parent p) r);
  update n (with_slot t_opposite p) r.

(** ** Ranks *)

Definition ravl_node_rank r n : option Z :=
  if n =? 0 then Some (-1) else nd ← deref r n; Some (rank nd).
Definition ravl_node_rank_difference_parent r (p n : Z) : option Z :=
  a ← ravl_node_rank r p; b ← ravl_node_rank r n; Some (a - b).
Definition ravl_node_rank_difference r n : option Z :=
  nd ← deref r n; ravl_node_rank_difference_parent r (parent nd) n.
Definition ravl_node_is_i_j r n (i j : Z) : option bool :=
  nd ← deref r n;
  a ← ravl_node_rank_difference_parent r n (slot_left nd);
  b ← ravl_node_rank_difference_parent r n (slot_right nd);
  Some ((a =? i) && (b =? j)).
Definition ravl_node_is r n (i j : Z) : option bool :=
  a ← ravl_node_is_i_j r n i j; b ← ravl_node_is_i_j r n j i; Some (a || b).
Definition ravl_node_promote n r : option (ravl D) :=
  nd ← deref r n; update n (with_rank (rank nd + 1)) r.
Definition ravl_node_demote n r : option (ravl D) :=
  nd ← deref r n; update n (with_rank (rank nd - 1)) r.

(** ** Balancing *)

(** The loop that walks up, promoting 0,1-parents. *)
Fixpoint promote_up (fuel : nat) n r : option (Z * ravl D) :=
  match fuel with
  | O => None
  | S k =>
      nd ← deref r n;
      if parent nd =? 0 then Some (n, r) else
      b ← ravl_node_is r (parent nd) 0 1;
      if (b : bool) then r ← ravl_node_promote (parent nd) r; promote_up k (parent nd) r
      else Some (n, r)
  end.

Definition ravl_balance (fuel : nat) n r : option (ravl D) :=
  '(n, r) ← promote_up fuel n r;
  s ← ravl_node_sibling r n;
  d ← ravl_node_rank_difference r n;
  nd ← deref r n;
  let y := parent nd in
  ds ← ravl_node_rank_difference_parent r y s;
  if negb ((d =? 0) && (1 <? ds)) then Some r else
  t ← ravl_node_slot_type r n;
  let t := ravl_slot_opposite t in
  let z := slot_of nd t in
  dz ← (if z =? 0 then Some 2 else ravl_node_rank_difference r z);
  if dz =? 2 then
    r ← ravl_rotate n r; ravl_node_demote y r
  else if dz =? 1 then
    r ← ravl_rotate z r; r ← ravl_rotate z r;
    r ← ravl_node_promote z r; r ← ravl_node_demote n r; ravl_node_demote y r
  else Some r.

(** ** Insertion *)

(** The descent: [Some None] is a duplicate, otherwise the empty slot and the
    node it belongs to. *)
Fixpoint emplace_walk (fuel : nat) r (d : D) (dstp : node_ref) (dst : Z)
    : option (option (node_ref * Z)) :=
  match fuel with
  | O => None
  | S k =>
      c ← load_ref r dstp;
      if c =? 0 then Some (Some (dstp, dst)) else
      nd ← deref r c;
      let cmp_result := compare d (data nd) in
      if cmp_result =? 0 then Some None
      else emplace_walk k r d
             (RefSlot c (if 0 <? cmp_result then RAVL_RIGHT else RAVL_LEFT)) c
  end.

Definition ravl_emplace (fuel : nat) r (addr : Z) (constr : ravl_constr) (arg : D)
    : option (Z * ravl D) :=
  let '(n, r) := ravl_new_node r addr constr arg in
  if n =? 0 then Some (-1, r) else
  pos ← emplace_walk fuel r arg RefRoot 0;
  match pos with
  | None => Some (-1, Free_node n r)
  | Some (dstp, dst) =>
      r ← update n (with_parent dst) r;
      r ← store_ref dstp n r;
      r ← ravl_balance fuel n r;
      Some (0, r)
  end.

Definition ravl_insert (fuel : nat) r (addr : Z) (d : D) : option (Z * ravl D) :=
  ravl_emplace fuel r addr ravl_node_insert_constructor d.
Definition ravl_emplace_copy (fuel : nat) r (addr : Z) (d : D) : option (Z * ravl D) :=
  ravl_emplace fuel r addr ravl_node_copy_constructor d.

(** ** Neighbours *)

Fixpoint ravl_node_type_most (fuel : nat) r n t : option Z :=
  match fuel with
  | O => None
  | S k =>
      nd ← deref r n;
      if slot_of nd t =? 0 then Some n else ravl_node_type_most k r (slot_of nd t) t
  end.

Fixpoint cessor_up (fuel : nat) r n t : option Z :=
  match fuel with
  | O => None
  | S k =>
      nd ← deref r n;
      if parent nd =? 0 then Some 0 else
      pn ← deref r (parent nd);
      if n =? slot_of pn t then cessor_up k r (parent nd) t else Some (parent nd)
  end.

Definition ravl_node_cessor (fuel : nat) r n t : option Z :=
  nd ← deref r n;
  if slot_of nd t =? 0 then cessor_up fuel r n t
  else ravl_node_type_most fuel r (slot_of nd t) (ravl_slot_opposite t).

Definition ravl_node_successor (fuel : nat) r n : option Z := ravl_node_cessor fuel r n RAVL_RIGHT.
Definition ravl_node_predecessor (fuel : nat) r n : option Z := ravl_node_cessor fuel r n RAVL_LEFT.

(** ** Search *)

(** Returns whether the search is over, and the new value of [*ret]. *)
Definition ravl_predicate_holds (fuel : nat) r (result ret n flags : Z) : option (bool * Z) :=
  if has_pred flags RAVL_PREDICATE_EQUAL && (result =? 0) then Some (true, n) else
  if has_pred flags RAVL_PREDICATE_GREATER && (result <? 0) then Some (false, n) else
  if has_pred flags RAVL_PREDICATE_GREATER && (result =? 0) then
    s ← ravl_node_successor fuel r n; Some (true, s)
  else
  if has_pred flags RAVL_PREDICATE_LESS && (0 <? result) then Some (false, n) else
  if has_pred flags RAVL_PREDICATE_LESS && (result =? 0) then
    s ← ravl_node_predecessor fuel r n; Some (true, s)
  else Some (false, ret).

Fixpoint find_loop (fuel : nat) r (d : D) (flags ret n : Z) : option Z :=
  match fuel with
  | O => None
  | S k =>
      if n =? 0 then Some ret else
      nd ← deref r n;
      let result := compare d (data nd) in
      '(over, ret) ← ravl_predicate_holds fuel r result ret n flags;
      if (over : bool) then Some ret
      else find_loop k r d flags ret (slot_of nd (if 0 <? result then RAVL_RIGHT else RAVL_LEFT))
  end.

Definition ravl_find (fuel : nat) r (d : D) (flags : Z) : option Z :=
  find_loop fuel r d flags 0 (root r).

(** ** Removal *)

Fixpoint ravl_remove (fuel : nat) n r : option (ravl D) :=
  match fuel with
  | O => None
  | S k =>
      nd ← deref r n;
      if negb (slot_left nd =? 0) && negb (slot_right nd =? 0) then
        s ← ravl_node_successor k r n;
        sd ← deref r s;
        r ← update n (with_data (data sd)) r;
        ravl_remove k s r
      else
        let c := if slot_left nd =? 0 then slot_right nd else slot_left nd in
        r ← (if c =? 0 then Some r else update c (with_parent (parent nd)) r);
        f ← ravl_node_ref r n;
        r ← store_ref f c r;
        Some (Free_node n r)
  end.

(** ** Clearing *)

(** The data the callback sees, in order, and the heap without the nodes. *)
Fixpoint ravl_clear_node (fuel : nat) n (acc : list D) r : option (list D * ravl D) :=
  match fuel with
  | O => None
  | S k =>
      if n =? 0 then Some (acc, r) else
      nd ← deref r n;
      '(acc, r) ← ravl_clear_node k (slot_left nd) acc r;
      '(acc, r) ← ravl_clear_node k (slot_right nd) (acc ++ [data nd]) r;
      Some (acc, Free_node n r)
  end.

Definition ravl_clear (fuel : nat) r : option (ravl D) :=
  '(_, r) ← ravl_clear_node fuel (root r) [] r;
  Some (Ravl (nodes r) 0).

(** The data handed to the callback. *)
Definition ravl_delete_cb (fuel : nat) r : option (list D) :=
  '(l, _) ← ravl_clear_node fuel (root r) [] r; Some l.
End Ravl.
