(* ===== verification/RavlFacts.v ===== *)
(** * The tree behind the heap of a ravl

    [tree] is the abstract shape of a ravl, [foc r c t] says that the heap of
    [r] holds the tree [t] at the hole of the context [c]; the context records
    the way up to the root, so the loops that climb parent pointers are
    inductions over it.  The lemmas of this file turn each pointer operation
    into an operation on trees. *)
From stdpp Require Import base numbers list gmap.
From Stdlib Require Import ZArith Lia Bool.
From S2P Require Import Prelude Ravl.

(** Right-associates every concatenation. *)
Ltac app_norm := cbn [negb app]; repeat progress (rewrite <- ?app_assoc; cbn [app]).

Section Facts.
Context {D : Type}.

(** ** Trees and contexts *)

Inductive tree := Leaf | Node (a : Z) (k : Z) (v : bool * D) (l r : tree).

Inductive ctx := Top | Step (b : bool) (a : Z) (k : Z) (v : bool * D) (s : tree) (c : ctx).

(** The slot of a side; [true] is the right one. *)
Definition side (b : bool) : ravl_slot_type := if b then RAVL_RIGHT else RAVL_LEFT.

(** The node with [x] on side [b] and [y] on the other one. *)
Definition nodeT (b : bool) (a k : Z) (v : bool * D) (x y : tree) : tree :=
  if b then Node a k v y x else Node a k v x y.
Definition mkn (b : bool) (par x y k : Z) (v : bool * D) : ravl_node D :=
  if b then RNode par y x k v.1 v.2 else RNode par x y k v.1 v.2.

Definition addr_of (t : tree) : Z := match t with Leaf => 0 | Node a _ _ _ _ => a end.
Definition ctx_addr (c : ctx) : Z := match c with Top => 0 | Step _ a _ _ _ _ => a end.
Fixpoint ctx_root (c : ctx) (hole : Z) : Z :=
  match c with Top => hole | Step _ a _ _ _ c => ctx_root c a end.
Fixpoint plug (c : ctx) (t : tree) : tree :=
  match c with Top => t | Step b a k v s c => plug c (nodeT b a k v t s) end.
Definition ref_of (c : ctx) : node_ref :=
  match c with Top => RefRoot | Step b a _ _ _ _ => RefSlot a (side b) end.

Fixpoint addrs (t : tree) : list Z :=
  match t with Leaf => [] | Node a _ _ l r => a :: addrs l ++ addrs r end.
Fixpoint ctx_addrs (c : ctx) : list Z :=
  match c with Top => [] | Step _ a _ _ s c => a :: addrs s ++ ctx_addrs c end.

Fixpoint inorder (t : tree) : list D :=
  match t with Leaf => [] | Node _ _ v l r => inorder l ++ v.2 :: inorder r end.
Fixpoint ctx_before (c : ctx) : list D :=
  match c with
  | Top => []
  | Step b _ _ v s c => ctx_before c ++ (if b then inorder s ++ [v.2] else [])
  end.
Fixpoint ctx_after (c : ctx) : list D :=
  match c with
  | Top => []
  | Step b _ _ v s c => (if b then [] else v.2 :: inorder s) ++ ctx_after c
  end.

(** ** Representation *)

Fixpoint rep (h : gmap Z (ravl_node D)) (par : Z) (t : tree) : Prop :=
  match t with
  | Leaf => True
  | Node a k v l r =>
      a <> 0 /\ h !! a = Some (mkn false par (addr_of l) (addr_of r) k v) /\ rep h a l /\ rep h a r
  end.

Fixpoint rep_ctx (h : gmap Z (ravl_node D)) (hole : Z) (c : ctx) : Prop :=
  match c with
  | Top => True
  | Step b a k v s c =>
      a <> 0 /\ h !! a = Some (mkn b (ctx_addr c) hole (addr_of s) k v) /\ rep h a s /\ rep_ctx h a c
  end.

Record foc (r : ravl D) (c : ctx) (t : tree) : Prop := Foc {
  foc_root : root r = ctx_root c (addr_of t);
  foc_rep : rep (nodes r) (ctx_addr c) t;
  foc_ctx : rep_ctx (nodes r) (addr_of t) c;
  foc_nodup : NoDup (addrs t ++ ctx_addrs c);
  foc_dom : forall a, is_Some (nodes r !! a) <-> a ∈ addrs t ++ ctx_addrs c
}.

(** The heap of [r] is exactly the tree [t]. *)
Definition wf (r : ravl D) (t : tree) : Prop := foc r Top t.

(** ** Basic facts *)

Lemma slot_mkn b par x y k v : slot_of (mkn b par x y k v) (side b) = x.
Proof. by destruct b. Qed.
Lemma slot_mkn_opp b par x y k v : slot_of (mkn b par x y k v) (side (negb b)) = y.
Proof. by destruct b. Qed.
Lemma parent_mkn b par x y k v : parent (mkn b par x y k v) = par.
Proof. by destruct b. Qed.
Lemma rank_mkn b par x y k v : rank (mkn b par x y k v) = k.
Proof. by destruct b. Qed.
Lemma data_mkn b par x y k v : data (mkn b par x y k v) = v.2.
Proof. by destruct b. Qed.
Lemma with_parent_mkn b par x y k v p : with_parent p (mkn b par x y k v) = mkn b p x y k v.
Proof. by destruct b. Qed.
Lemma with_slot_mkn b par x y k v z : with_slot (side b) z (mkn b par x y k v) = mkn b par z y k v.
Proof. by destruct b. Qed.
Lemma with_slot_mkn_opp b par x y k v z :
  with_slot (side (negb b)) z (mkn b par x y k v) = mkn b par x z k v.
Proof. by destruct b. Qed.
Lemma with_rank_mkn b par x y k v k' : with_rank k' (mkn b par x y k v) = mkn b par x y k' v.
Proof. by destruct b. Qed.
Lemma with_data_mkn b par x y k v d : with_data d (mkn b par x y k v) = mkn b par x y k (v.1, d).
Proof. by destruct b. Qed.
Lemma mkn_swap b par x y k v : mkn b par x y k v = mkn (negb b) par y x k v.
Proof. by destruct b. Qed.
Lemma nodeT_swap b a k v x y : nodeT b a k v x y = nodeT (negb b) a k v y x.
Proof. by destruct b. Qed.
Lemma opp_side b : ravl_slot_opposite (side b) = side (negb b).
Proof. by destruct b. Qed.

Lemma addr_nodeT b a k v x y : addr_of (nodeT b a k v x y) = a.
Proof. by destruct b. Qed.
Lemma addrs_nodeT b a k v x y : addrs (nodeT b a k v x y) ≡ₚ a :: addrs x ++ addrs y.
Proof. destruct b; simpl; [|done]. by rewrite (Permutation_app_comm (addrs y)). Qed.

Lemma rep_nodeT h par b a k v x y :
  rep h par (nodeT b a k v x y) <->
  a <> 0 /\ h !! a = Some (mkn b par (addr_of x) (addr_of y) k v) /\ rep h a x /\ rep h a y.
Proof. destruct b; simpl; tauto. Qed.

Lemma addr_in t : t <> Leaf -> addr_of t ∈ addrs t.
Proof. destruct t; [done|]. intros _. left. Qed.

Lemma rep_addr_nz h par t a : rep h par t -> a ∈ addrs t -> a <> 0.
Proof.
  revert par. induction t as [|a' k v l IHl r IHr]; intros par H Ha; [inversion Ha|].
  destruct H as (Hn & _ & Hl & Hr). apply elem_of_cons in Ha as [->|Ha]; [done|].
  apply elem_of_app in Ha as [Ha|Ha]; eauto.
Qed.

Lemma rep_leaf h par t : rep h par t -> addr_of t = 0 <-> t = Leaf.
Proof. destruct t; [done|]. intros (Hn & _). split; [done|]. intros ?. discriminate. Qed.

Lemma rep_frame h h' par t :
  (forall a, a ∈ addrs t -> h' !! a = h !! a) -> rep h par t -> rep h' par t.
Proof.
  revert par. induction t as [|a k v l IHl r IHr]; intros par Hf H; [done|].
  destruct H as (Hn & Ha & Hl & Hr). split; [done|]. split.
  - rewrite Hf; [done|]. left.
  - split; [apply IHl|apply IHr]; try done; intros x Hx; apply Hf; right; apply elem_of_app; auto.
Qed.

Lemma rep_ctx_frame h h' hole c :
  (forall a, a ∈ ctx_addrs c -> h' !! a = h !! a) -> rep_ctx h hole c -> rep_ctx h' hole c.
Proof.
  revert hole. induction c as [|b a k v s c IH]; intros hole Hf H; [done|].
  destruct H as (Hn & Ha & Hs & Hc). split; [done|]. split; [|split].
  - rewrite Hf; [done|]. left.
  - eapply rep_frame; [|done]. intros x Hx. apply Hf. right. apply elem_of_app. auto.
  - apply IH; [|done]. intros x Hx. apply Hf. right. apply elem_of_app. auto.
Qed.

(** The root of a tree gets another parent. *)
Lemma rep_reparent h par p t :
  NoDup (addrs t) -> rep h par t ->
  exists h', (if addr_of t =? 0 then Some h
     else nd ← h !! addr_of t; Some (<[addr_of t := with_parent p nd]> h)) = Some h' /\
    rep h' p t /\ (forall a, a ∉ addrs t -> h' !! a = h !! a) /\
    (forall a, is_Some (h' !! a) <-> is_Some (h !! a)).
Proof.
  destruct t as [|a k v l r]; intros Hnd H; [by exists h|].
  destruct H as (Hn & Ha & Hl & Hr). cbn [addr_of]. destruct (Z.eqb_spec a 0); [done|].
  rewrite Ha. cbn [mbind option_bind]. eexists. split; [done|].
  cbn [addrs] in Hnd. apply NoDup_cons in Hnd as [Hnin _]. rewrite not_elem_of_app in Hnin.
  split; [|split].
  - split; [done|]. split; [by rewrite lookup_insert_eq, with_parent_mkn|].
    split; eapply rep_frame; [|done| |done]; intros x Hx; apply lookup_insert_ne; intros ->; tauto.
  - intros x Hx. apply lookup_insert_ne. intros ->. apply Hx. left.
  - intros x. destruct (decide (x = a)) as [->|Hx].
    + rewrite lookup_insert_eq, Ha. by split.
    + by rewrite lookup_insert_ne.
Qed.

(** ** Moving the focus *)

Lemma foc_up r b a k v s c t : foc r (Step b a k v s c) t <-> foc r c (nodeT b a k v t s).
Proof.
  assert (addrs (nodeT b a k v t s) ++ ctx_addrs c ≡ₚ addrs t ++ ctx_addrs (Step b a k v s c)) as HP.
  { rewrite addrs_nodeT. cbn [ctx_addrs app]. rewrite <- Permutation_middle. by rewrite app_assoc. }
  split; intros [H1 H2 H3 H4 H5].
  - destruct H3 as (Hn & Ha & Hs & Hc). constructor.
    + by rewrite addr_nodeT.
    + apply rep_nodeT. done.
    + by rewrite addr_nodeT.
    + by rewrite HP.
    + intros x. by rewrite H5, HP.
  - apply rep_nodeT in H2 as (Hn & Ha & Ht & Hs). rewrite addr_nodeT in *. constructor; try done.
    + by rewrite <- HP.
    + intros x. by rewrite H5, HP.
Qed.

Lemma foc_plug r c t : foc r c t <-> wf r (plug c t).
Proof.
  revert t. induction c as [|b a k v s c IH]; intros t; [done|]. cbn [plug]. rewrite <- IH. apply foc_up.
Qed.

Lemma inorder_nodeT b a k v x y :
  inorder (nodeT b a k v x y) = if b then inorder y ++ v.2 :: inorder x else inorder x ++ v.2 :: inorder y.
Proof. by destruct b. Qed.

Lemma inorder_plug c t : inorder (plug c t) = ctx_before c ++ inorder t ++ ctx_after c.
Proof.
  revert t. induction c as [|b a k v s c IH]; intros t; cbn [plug ctx_before ctx_after].
  - by rewrite app_nil_r.
  - rewrite IH, inorder_nodeT. destruct b; simpl; rewrite <- ?app_assoc; simpl; rewrite ?app_nil_r;
      rewrite <- ?app_assoc; done.
Qed.

(** The facts about the focused node. *)
Lemma foc_node r c b a k v x y :
  foc r c (nodeT b a k v x y) ->
  a <> 0 /\ deref r a = Some (mkn b (ctx_addr c) (addr_of x) (addr_of y) k v) /\
  rep (nodes r) a x /\ rep (nodes r) a y.
Proof. intros H. by apply rep_nodeT, (foc_rep _ _ _ H). Qed.

Lemma foc_parent r c b a k v s t :
  foc r (Step b a k v s c) t ->
  a <> 0 /\ deref r a = Some (mkn b (ctx_addr c) (addr_of t) (addr_of s) k v).
Proof. intros H. destruct (foc_ctx _ _ _ H) as (Hn & Ha & _). done. Qed.

Lemma foc_nz r c t : foc r c t -> t <> Leaf -> addr_of t <> 0.
Proof. intros H Ht E. apply Ht. by apply (rep_leaf _ _ _ (foc_rep _ _ _ H)). Qed.

Definition slot_in (c : ctx) : ravl_slot_type := match c with Top => RAVL_ROOT | Step b _ _ _ _ _ => side b end.

Lemma foc_deref_addr r c t : foc r c t -> t <> Leaf ->
  exists nd, deref r (addr_of t) = Some nd /\ parent nd = ctx_addr c.
Proof.
  intros H Ht. destruct t as [|a k v x y]; [done|].
  destruct (foc_node r c false a k v x y H) as (_ & Hd & _). cbn [addr_of]. rewrite Hd.
  eexists. split; [done|]. apply parent_mkn.
Qed.

(** A sibling lives at another address. *)
Lemma foc_sibling_ne r c b a k v s t :
  foc r (Step b a k v s c) t -> t <> Leaf -> addr_of s <> addr_of t.
Proof.
  intros H Ht E. pose proof (foc_nz _ _ _ H Ht) as Hnz.
  pose proof (foc_nodup _ _ _ H) as Hnd. cbn [ctx_addrs] in Hnd.
  apply NoDup_app in Hnd as (_ & Hd & _). apply (Hd (addr_of t)); [by apply addr_in|].
  right. apply elem_of_app. left. rewrite <- E. apply addr_in. intros ->. rewrite <- E in Hnz. done.
Qed.

Lemma foc_slot_type r c t :
  foc r c t -> t <> Leaf -> ravl_node_slot_type r (addr_of t) = Some (slot_in c).
Proof.
  intros H Ht. destruct (foc_deref_addr r c t H Ht) as (nd & Hd & Hp).
  unfold ravl_node_slot_type. rewrite Hd. cbn [mbind option_bind]. rewrite Hp.
  destruct c as [|b a k v s c]; [done|]. destruct (foc_parent _ _ _ _ _ _ _ _ H) as (Hn & Ha).
  cbn [ctx_addr]. destruct (Z.eqb_spec a 0); [done|]. rewrite Ha. cbn [mbind option_bind slot_in].
  pose proof (foc_sibling_ne _ _ _ _ _ _ _ _ H Ht).
  destruct b; cbn [mkn slot_left side].
  - destruct (Z.eqb_spec (addr_of s) (addr_of t)); [done|]. done.
  - by rewrite Z.eqb_refl.
Qed.

Lemma foc_node_ref r c t :
  foc r c t -> t <> Leaf -> ravl_node_ref r (addr_of t) = Some (ref_of c).
Proof.
  intros H Ht. unfold ravl_node_ref. rewrite (foc_slot_type r c t H Ht). cbn [mbind option_bind].
  destruct (foc_deref_addr r c t H Ht) as (nd & Hd & Hp).
  destruct c as [|b a k v s c]; [done|]. cbn [slot_in]. rewrite Hd. cbn [mbind option_bind].
  rewrite Hp. by destruct b.
Qed.

(** Storing another pointer into the hole of a context. *)
Lemma store_hole r hole hole' c :
  root r = ctx_root c hole -> rep_ctx (nodes r) hole c -> NoDup (ctx_addrs c) ->
  exists r', store_ref (ref_of c) hole' r = Some r' /\
    root r' = ctx_root c hole' /\ rep_ctx (nodes r') hole' c /\
    (forall a, a ∉ ctx_addrs c -> nodes r' !! a = nodes r !! a) /\
    (forall a, is_Some (nodes r' !! a) <-> is_Some (nodes r !! a)).
Proof.
  intros Hr H Hnd. destruct c as [|b a k v s c].
  - eexists. split; [done|]. done.
  - destruct H as (Hn & Ha & Hs & Hc). cbn [ref_of store_ref]. unfold update, deref. rewrite Ha.
    cbn [mbind option_bind]. eexists. split; [done|]. cbn [nodes root].
    cbn [ctx_addrs] in Hnd. apply NoDup_cons in Hnd as [Hnin _]. rewrite not_elem_of_app in Hnin.
    split; [done|]. split; [|split].
    + split; [done|]. split; [by rewrite lookup_insert_eq, with_slot_mkn|].
      split; [eapply rep_frame; [|exact Hs]|eapply rep_ctx_frame; [|exact Hc]];
        intros x Hx; apply lookup_insert_ne; intros ->; tauto.
    + intros x Hx. apply lookup_insert_ne. intros ->. apply Hx. left.
    + intros x. destruct (decide (x = a)) as [->|Hx].
      * rewrite lookup_insert_eq, Ha. by split.
      * by rewrite lookup_insert_ne.
Qed.

(** ** Rotation *)

Lemma is_Some_insert (h : gmap Z (ravl_node D)) a nd i :
  is_Some (h !! a) -> is_Some (<[a := nd]> h !! i) <-> is_Some (h !! i).
Proof.
  intros Ha. destruct (decide (i = a)) as [->|Hi].
  - rewrite lookup_insert_eq. by split.
  - by rewrite lookup_insert_ne.
Qed.

Lemma rotate_perm b p kp vp x kx vx A B C :
  addrs (nodeT b x kx vx A (nodeT b p kp vp B C)) ≡ₚ
  addrs (nodeT b p kp vp (nodeT b x kx vx A B) C).
Proof.
  rewrite !addrs_nodeT. rewrite <- Permutation_middle. cbn [app]. rewrite perm_swap, <- app_assoc. done.
Qed.

Lemma deref_insert_eq r a nd h : deref (Ravl (<[a := nd]> h) r) a = Some (nd : ravl_node D).
Proof. apply lookup_insert_eq. Qed.

Lemma update_deref r a nd f :
  deref r a = Some nd -> update a f r = Some (Ravl (<[a := f nd]> (nodes r)) (root r) : ravl D).
Proof. intros H. unfold update. rewrite H. done. Qed.

Lemma foc_rotate r c b p kp vp x kx vx A B C :
  foc r c (nodeT b p kp vp (nodeT b x kx vx A B) C) ->
  exists r', ravl_rotate x r = Some r' /\
    foc r' c (nodeT b x kx vx A (nodeT b p kp vp B C)).
Proof.
  intros H. pose proof H as Hx. rewrite <- foc_up in Hx.
  destruct (foc_node _ _ _ _ _ _ _ _ H) as (Hp0 & Hp & _ & HC).
  destruct (foc_node _ _ _ _ _ _ _ _ Hx) as (Hx0 & Hxd & HA & HB).
  pose proof (foc_nodup _ _ _ H) as Hnd. rewrite !addrs_nodeT in Hnd.
  cbn [app] in Hnd. rewrite <- !app_assoc in Hnd.
  apply NoDup_cons in Hnd as [Hpn Hnd]. apply NoDup_cons in Hnd as [Hxn Hnd].
  rewrite not_elem_of_cons, !not_elem_of_app in Hpn. rewrite !not_elem_of_app in Hxn.
  destruct Hpn as (Hpx & HpA & HpB & HpC & Hpc). destruct Hxn as (HxA & HxB & HxC & Hxc).
  apply NoDup_app in Hnd as (HndA & HdA & Hnd). apply NoDup_app in Hnd as (HndB & HdB & Hnd).
  apply NoDup_app in Hnd as (HndC & HdC & Hndc).
  rewrite addr_nodeT in Hp. cbn [ctx_addr] in Hxd.
  unfold ravl_rotate. rewrite Hxd. cbn [mbind option_bind]. rewrite parent_mkn.
  assert (ravl_node_ref r p = Some (ref_of c)) as ->.
  { rewrite <- (foc_node_ref _ _ _ H) by (by destruct b). by rewrite addr_nodeT. }
  assert (ravl_node_slot_type r x = Some (side b)) as ->.
  { pose proof (foc_slot_type _ _ _ Hx ltac:(by destruct b)) as E. by rewrite addr_nodeT in E. }
  cbn [mbind option_bind].
  rewrite Hp. cbn [mbind option_bind]. rewrite parent_mkn, opp_side.
  rewrite (update_deref _ _ _ _ Hxd). cbn [mbind option_bind]. rewrite with_parent_mkn.
  set (h1 := <[x := mkn b (ctx_addr c) (addr_of A) (addr_of B) kx vx]> (nodes r)).
  assert (h1 !! p = Some (mkn b (ctx_addr c) x (addr_of C) kp vp)) as Hp1
    by (unfold h1; rewrite lookup_insert_ne by done; exact Hp).
  rewrite (update_deref (Ravl h1 (root r)) p _ _ Hp1). cbn [mbind option_bind nodes root].
  rewrite with_parent_mkn. set (h2 := <[p := mkn b x x (addr_of C) kp vp]> h1).
  destruct (store_hole (Ravl h2 (root r)) p x c) as (r3 & Hst & Hroot & Hctx & Hout & Hdom).
  { cbn [root]. rewrite (foc_root _ _ _ H). by rewrite addr_nodeT. }
  { cbn [nodes]. eapply rep_ctx_frame; [|pose proof (foc_ctx _ _ _ H) as Hc; rewrite addr_nodeT in Hc; exact Hc].
    intros a Ha. unfold h2, h1. rewrite !lookup_insert_ne; [done|intros ->; done..]. }
  { done. }
  rewrite Hst. cbn [mbind option_bind]. cbn [nodes] in Hout, Hdom.
  assert (nodes r3 !! x = Some (mkn b (ctx_addr c) (addr_of A) (addr_of B) kx vx)) as Hx3.
  { rewrite Hout by done. unfold h2, h1. rewrite lookup_insert_ne by done. apply lookup_insert_eq. }
  assert (nodes r3 !! p = Some (mkn b x x (addr_of C) kp vp)) as Hp3.
  { rewrite Hout by done. apply lookup_insert_eq. }
  unfold deref at 1. rewrite Hx3. cbn [mbind option_bind]. rewrite slot_mkn_opp.
  rewrite (update_deref r3 p _ _ Hp3). cbn [mbind option_bind]. rewrite with_slot_mkn.
  set (h4 := <[p := mkn b x (addr_of B) (addr_of C) kp vp]> (nodes r3)).
  assert (rep h4 x B) as HB4.
  { eapply rep_frame; [|exact HB]. intros a Ha. unfold h4.
    rewrite lookup_insert_ne by (intros ->; done). rewrite Hout by (intros Hac; apply (HdB a Ha), elem_of_app; auto).
    unfold h2, h1. rewrite !lookup_insert_ne; [done|intros ->; done..]. }
  destruct (rep_reparent h4 x p B HndB HB4) as (h5 & Hre & HB5 & Hout5 & Hdom5).
  assert ((if addr_of B =? 0 then Some (Ravl h4 (root r3))
           else update (addr_of B) (with_parent p) (Ravl h4 (root r3))) = Some (Ravl h5 (root r3))) as ->.
  { unfold update, deref. cbn [nodes root]. destruct (addr_of B =? 0); [by injection Hre as ->|].
    destruct (h4 !! addr_of B); [|done]. cbn [mbind option_bind] in *. by injection Hre as ->. }
  cbn [mbind option_bind].
  assert (h5 !! x = Some (mkn b (ctx_addr c) (addr_of A) (addr_of B) kx vx)) as Hx5.
  { rewrite Hout5 by done. unfold h4. by rewrite lookup_insert_ne. }
  assert (h5 !! p = Some (mkn b x (addr_of B) (addr_of C) kp vp)) as Hp5.
  { rewrite Hout5 by done. apply lookup_insert_eq. }
  rewrite (update_deref (Ravl h5 (root r3)) x _ _ Hx5). rewrite with_slot_mkn_opp. cbn [nodes root].
  eexists. split; [done|].
  assert (forall a, a <> x -> a <> p -> a ∉ addrs B -> a ∉ ctx_addrs c -> h5 !! a = nodes r !! a) as Hold.
  { intros a H1 H2 H3 H4. rewrite Hout5 by done. unfold h4. rewrite lookup_insert_ne by done.
    rewrite Hout by done. unfold h2, h1. by rewrite !lookup_insert_ne. }
  set (h6 := <[x := mkn b (ctx_addr c) (addr_of A) p kx vx]> h5).
  assert (forall a, a <> x -> h6 !! a = h5 !! a) as H6 by (intros a ?; unfold h6; by rewrite lookup_insert_ne).
  constructor; cbn [nodes root].
  - by rewrite addr_nodeT.
  - apply rep_nodeT. rewrite addr_nodeT. split; [done|]. split; [apply lookup_insert_eq|]. split.
    + eapply rep_frame; [|exact HA]. intros a Ha.
      rewrite H6, Hold; [done|..]; intros ?; subst; (done || (apply (HdA a Ha); rewrite !elem_of_app; auto)).
    + apply rep_nodeT. split; [done|]. split; [by rewrite H6|]. split.
      * eapply rep_frame; [|exact HB5]. intros a Ha. apply H6. intros ->. done.
      * eapply rep_frame; [|exact HC]. intros a Ha.
        rewrite H6, Hold; [done|..]; try (intros ->; done).
        -- intros HaB. apply (HdB a HaB), elem_of_app. auto.
        -- intros Hac. apply (HdC a Ha). done.
  - rewrite addr_nodeT. eapply rep_ctx_frame; [|exact Hctx]. intros a Ha.
    assert (a ∉ addrs B) by (intros HaB; apply (HdB a HaB), elem_of_app; auto).
    rewrite H6 by (intros ->; done). rewrite Hout5 by done. unfold h4.
    rewrite lookup_insert_ne; [done|]. intros ->. done.
  - rewrite rotate_perm. apply (foc_nodup _ _ _ H).
  - intros a. rewrite rotate_perm, <- (foc_dom _ _ _ H). unfold h6.
    rewrite is_Some_insert by (by eexists). rewrite Hdom5. unfold h4.
    rewrite is_Some_insert by (by eexists). rewrite Hdom. unfold h2.
    rewrite is_Some_insert by (by eexists). apply is_Some_insert. by eexists.
Qed.

(** ** Ranks *)

Definition rank_of (t : tree) : Z := match t with Leaf => -1 | Node _ k _ _ _ => k end.

(** The rank rule: every rank difference is positive. *)
Fixpoint rank_ok (t : tree) : Prop :=
  match t with
  | Leaf => True
  | Node _ k _ l r => rank_of l < k /\ rank_of r < k /\ rank_ok l /\ rank_ok r
  end.
Fixpoint ctx_ok (hole : Z) (c : ctx) : Prop :=
  match c with
  | Top => True
  | Step _ _ k _ s c => hole < k /\ rank_of s < k /\ rank_ok s /\ ctx_ok k c
  end.

Lemma rank_nodeT b a k v x y : rank_of (nodeT b a k v x y) = k.
Proof. by destruct b. Qed.
Lemma rank_ok_nodeT b a k v x y :
  rank_ok (nodeT b a k v x y) <-> rank_of x < k /\ rank_of y < k /\ rank_ok x /\ rank_ok y.
Proof. destruct b; simpl; tauto. Qed.
Lemma rank_ok_plug c t : rank_ok (plug c t) <-> rank_ok t /\ ctx_ok (rank_of t) c.
Proof.
  revert t. induction c as [|b a k v s c IH]; intros t; simpl; [tauto|].
  rewrite IH, rank_ok_nodeT, rank_nodeT. tauto.
Qed.
Lemma rank_ok_lb t : rank_ok t -> -1 <= rank_of t.
Proof. induction t as [|a k v l IHl r IHr]; simpl; [lia|]. intros (H1 & _ & Hl & _). specialize (IHl Hl). lia. Qed.

Lemma rep_rank r par t : rep (nodes r) par t -> ravl_node_rank r (addr_of t) = Some (rank_of t).
Proof.
  intros H. unfold ravl_node_rank. destruct t as [|a k v x y]; [done|]. destruct H as (Hn & Ha & _).
  cbn [addr_of rank_of]. destruct (Z.eqb_spec a 0); [done|]. unfold deref. by rewrite Ha.
Qed.

Lemma foc_rank r c t : foc r c t -> ravl_node_rank r (addr_of t) = Some (rank_of t).
Proof. intros H. eapply rep_rank, (foc_rep _ _ _ H). Qed.

(** Rewriting the rank or the data of a node. *)
Lemma foc_relabel r c b a k v k' v' x y :
  foc r c (nodeT b a k v x y) ->
  foc (Ravl (<[a := mkn b (ctx_addr c) (addr_of x) (addr_of y) k' v']> (nodes r)) (root r)) c
    (nodeT b a k' v' x y).
Proof.
  intros H. destruct (foc_node _ _ _ _ _ _ _ _ H) as (Hn & Ha & Hx & Hy).
  pose proof (foc_nodup _ _ _ H) as Hnd. rewrite addrs_nodeT in Hnd. cbn [app] in Hnd.
  apply NoDup_cons in Hnd as [Hnin Hnd]. rewrite !not_elem_of_app in Hnin.
  assert (addrs (nodeT b a k' v' x y) = addrs (nodeT b a k v x y)) as E by (by destruct b).
  constructor; cbn [nodes root].
  - rewrite addr_nodeT. rewrite (foc_root _ _ _ H). by rewrite addr_nodeT.
  - apply rep_nodeT. split; [done|]. split; [apply lookup_insert_eq|].
    split; (eapply rep_frame; [|eassumption]); intros i Hi; apply lookup_insert_ne; intros ->; tauto.
  - rewrite addr_nodeT. eapply rep_ctx_frame;
      [|pose proof (foc_ctx _ _ _ H) as Hc; rewrite addr_nodeT in Hc; exact Hc].
    intros i Hi. apply lookup_insert_ne. intros ->. tauto.
  - rewrite E. apply (foc_nodup _ _ _ H).
  - intros i. rewrite E, <- (foc_dom _ _ _ H). apply is_Some_insert. by eexists.
Qed.

Lemma foc_set_rank r c b a k v x y k' :
  foc r c (nodeT b a k v x y) ->
  exists r', update a (with_rank k') r = Some r' /\ foc r' c (nodeT b a k' v x y).
Proof.
  intros H. destruct (foc_node _ _ _ _ _ _ _ _ H) as (Hn & Ha & Hx & Hy).
  rewrite (update_deref _ _ _ _ Ha), with_rank_mkn. eexists. split; [done|]. by eapply foc_relabel.
Qed.

Lemma foc_promote r c b a k v x y :
  foc r c (nodeT b a k v x y) ->
  exists r', ravl_node_promote a r = Some r' /\ foc r' c (nodeT b a (k + 1) v x y).
Proof.
  intros H. destruct (foc_set_rank r c b a k v x y (k + 1) H) as (r' & Hu & Hf).
  exists r'. split; [|done]. unfold ravl_node_promote.
  destruct (foc_node _ _ _ _ _ _ _ _ H) as (_ & -> & _). cbn [mbind option_bind]. by rewrite rank_mkn.
Qed.

Lemma foc_demote r c b a k v x y :
  foc r c (nodeT b a k v x y) ->
  exists r', ravl_node_demote a r = Some r' /\ foc r' c (nodeT b a (k - 1) v x y).
Proof.
  intros H. destruct (foc_set_rank r c b a k v x y (k - 1) H) as (r' & Hu & Hf).
  exists r'. split; [|done]. unfold ravl_node_demote.
  destruct (foc_node _ _ _ _ _ _ _ _ H) as (_ & -> & _). cbn [mbind option_bind]. by rewrite rank_mkn.
Qed.

Lemma foc_is r c b a k v x y i j :
  foc r c (nodeT b a k v x y) ->
  ravl_node_is r a i j = Some (((k - rank_of x =? i) && (k - rank_of y =? j)) ||
                               ((k - rank_of x =? j) && (k - rank_of y =? i))).
Proof.
  intros H. destruct (foc_node _ _ _ _ _ _ _ _ H) as (Hn & Ha & Hx & Hy).
  pose proof (foc_rank _ _ _ H) as Hk. rewrite addr_nodeT, rank_nodeT in Hk.
  unfold ravl_node_is, ravl_node_is_i_j, ravl_node_rank_difference_parent. rewrite Ha.
  cbn [mbind option_bind]. rewrite Hk. destruct b; cbn [mkn slot_left slot_right mbind option_bind];
    rewrite (rep_rank _ _ _ Hx), (rep_rank _ _ _ Hy); cbn [mbind option_bind].
  - rewrite (andb_comm (k - rank_of y =? i)), (andb_comm (k - rank_of y =? j)), orb_comm. done.
  - done.
Qed.

(** ** The promotion loop *)

(** What the climbing node looks like: a new leaf, or one child exactly one and
    the other exactly two ranks below. *)
Definition climbing (t : tree) : Prop :=
  match t with
  | Leaf => False
  | Node _ k _ l r =>
      (k = 0 /\ rank_of l = -1 /\ rank_of r = -1) \/
      (rank_of l = k - 1 /\ rank_of r = k - 2) \/ (rank_of l = k - 2 /\ rank_of r = k - 1)
  end.

(** The rank rule holds except that the focused node may have its parent's rank. *)
Definition nearly_ok (c : ctx) (t : tree) : Prop := rank_ok t /\ ctx_ok (rank_of t - 1) c /\ climbing t.

Fixpoint ctx_len (c : ctx) : nat := match c with Top => 0 | Step _ _ _ _ _ c => S (ctx_len c) end.

(** The loop stopped: no parent, or the parent is no 0,1-node. *)
Definition settled (c : ctx) (t : tree) : Prop :=
  match c with
  | Top => True
  | Step _ _ k _ s _ => rank_of t < k \/ (rank_of t = k /\ rank_of s <= k - 2)
  end.

Lemma promote_up_spec c t r fuel :
  foc r c t -> nearly_ok c t -> (ctx_len c < fuel)%nat ->
  exists c' t' r', promote_up fuel (addr_of t) r = Some (addr_of t', r') /\
    foc r' c' t' /\ nearly_ok c' t' /\ settled c' t' /\
    inorder (plug c' t') = inorder (plug c t).
Proof.
  revert t r fuel. induction c as [|b a k v s c IH]; intros t r fuel H (Hok & Hc & Hcl) Hf;
    (destruct fuel as [|fuel]; [simpl in Hf; lia|]); cbn [promote_up];
    assert (t <> Leaf) as Ht by (intros ->; done);
    destruct (foc_deref_addr _ _ _ H Ht) as (nd & Hd & Hpar); rewrite Hd; cbn [mbind option_bind]; rewrite Hpar.
  - exists Top, t, r. done.
  - cbn [ctx_addr]. destruct (foc_parent _ _ _ _ _ _ _ _ H) as (Hn & Ha).
    destruct (Z.eqb_spec a 0); [done|]. pose proof H as Hup. rewrite foc_up in Hup.
    rewrite (foc_is _ _ _ _ _ _ _ _ 0 1 Hup). cbn [mbind option_bind].
    destruct Hc as (Hlt & Hs & Hsok & Hcc).
    destruct (Z.eqb_spec (k - rank_of t) 0) as [E0|E0].
    + destruct (Z.eqb_spec (k - rank_of s) 1) as [E1|E1].
      * cbn [andb orb]. destruct (foc_promote _ _ _ _ _ _ _ _ Hup) as (r1 & -> & H1).
        cbn [mbind option_bind].
        destruct (IH (nodeT b a (k + 1) v t s) r1 fuel H1) as (c' & t' & r' & Hrun & Hf' & Hn' & Hs' & Hin).
        -- split; [apply rank_ok_nodeT; repeat split; try done; lia|]. split.
           ++ rewrite rank_nodeT. replace (k + 1 - 1) with k by lia. done.
           ++ destruct b; simpl; lia.
        -- simpl in Hf. lia.
        -- rewrite addr_nodeT in Hrun. exists c', t', r'. split; [exact Hrun|]. split; [done|].
           split; [done|]. split; [done|]. rewrite Hin. cbn [plug].
           rewrite !inorder_plug, !inorder_nodeT. done.
      * destruct (Z.eqb_spec (k - rank_of t) 1); [lia|]. cbn [andb orb].
        exists (Step b a k v s c), t, r. split; [done|]. split; [done|]. split; [done|].
        split; [|done]. right. simpl. lia.
    + cbn [andb orb]. destruct (Z.eqb_spec (k - rank_of s) 0); [lia|]. rewrite andb_false_r.
      exists (Step b a k v s c), t, r. split; [done|]. split; [done|]. split; [done|].
      split; [|done]. left. simpl. lia.
Qed.

(** ** Rebalancing *)

Lemma foc_sibling r b a k v s c t :
  foc r (Step b a k v s c) t -> t <> Leaf -> ravl_node_sibling r (addr_of t) = Some (addr_of s).
Proof.
  intros H Ht. unfold ravl_node_sibling. rewrite (foc_slot_type _ _ _ H Ht).
  destruct (foc_deref_addr _ _ _ H Ht) as (nd & Hd & Hpar).
  destruct (foc_parent _ _ _ _ _ _ _ _ H) as (Hn & Ha). cbn [mbind option_bind slot_in].
  rewrite Hd. cbn [mbind option_bind]. rewrite Hpar. cbn [ctx_addr]. rewrite Ha. cbn [mbind option_bind].
  by destruct b.
Qed.

Lemma foc_rank_difference r c t :
  foc r c t -> t <> Leaf ->
  ravl_node_rank_difference r (addr_of t) =
  Some ((match c with Top => -1 | Step _ _ k _ _ _ => k end) - rank_of t).
Proof.
  intros H Ht. unfold ravl_node_rank_difference. destruct (foc_deref_addr _ _ _ H Ht) as (nd & -> & Hpar).
  cbn [mbind option_bind]. rewrite Hpar. unfold ravl_node_rank_difference_parent.
  rewrite (foc_rank _ _ _ H). destruct c as [|b a k v s c]; [done|]. cbn [ctx_addr].
  rewrite foc_up in H. pose proof (foc_rank _ _ _ H) as Hk. rewrite addr_nodeT, rank_nodeT in Hk.
  rewrite Hk. done.
Qed.

(** Single rotation: [n] takes the place of its parent [y]. *)
Lemma balance_single r c b y ky vy n kn vn w z s :
  foc r c (nodeT b y ky vy (nodeT b n kn vn w z) s) ->
  exists r', (r1 ← ravl_rotate n r; ravl_node_demote y r1) = Some r' /\
    foc r' c (nodeT b n kn vn w (nodeT b y (ky - 1) vy z s)).
Proof.
  intros H. destruct (foc_rotate _ _ _ _ _ _ _ _ _ _ _ _ H) as (r1 & -> & H1). cbn [mbind option_bind].
  rewrite (nodeT_swap b n), <- foc_up in H1.
  destruct (foc_demote _ _ _ _ _ _ _ _ H1) as (r2 & -> & H2).
  eexists. split; [done|]. rewrite foc_up, <- nodeT_swap in H2. done.
Qed.

(** Double rotation: [z], the inner child of [n], takes the place of [y]. *)
Lemma balance_double r c b y ky vy n kn vn w z kz vz zo zi s :
  foc r c (nodeT b y ky vy (nodeT b n kn vn w (nodeT (negb b) z kz vz zi zo)) s) ->
  exists r', (r1 ← ravl_rotate z r; r2 ← ravl_rotate z r1; r3 ← ravl_node_promote z r2;
              r4 ← ravl_node_demote n r3; ravl_node_demote y r4) = Some r' /\
    foc r' c (nodeT b z (kz + 1) vz (nodeT b n (kn - 1) vn w zo) (nodeT b y (ky - 1) vy zi s)).
Proof.
  intros H. rewrite <- foc_up, (nodeT_swap b n) in H.
  destruct (foc_rotate _ _ _ _ _ _ _ _ _ _ _ _ H) as (r1 & -> & H1). cbn [mbind option_bind].
  replace (nodeT (negb b) z kz vz zi (nodeT (negb b) n kn vn zo w))
    with (nodeT b z kz vz (nodeT b n kn vn w zo) zi) in H1 by (by destruct b).
  rewrite foc_up in H1. destruct (foc_rotate _ _ _ _ _ _ _ _ _ _ _ _ H1) as (r2 & -> & H2).
  cbn [mbind option_bind].
  destruct (foc_promote _ _ _ _ _ _ _ _ H2) as (r3 & -> & H3). cbn [mbind option_bind].
  rewrite <- foc_up in H3.
  destruct (foc_demote _ _ _ _ _ _ _ _ H3) as (r4 & -> & H4). cbn [mbind option_bind].
  rewrite foc_up, nodeT_swap, <- foc_up in H4.
  destruct (foc_demote _ _ _ _ _ _ _ _ H4) as (r5 & -> & H5).
  eexists. split; [done|]. rewrite foc_up, nodeT_swap, negb_involutive in H5. done.
Qed.

(** The last part of ravl_balance: [t] has its parent's rank, the sibling is at
    least two below. *)
Lemma rotate_spec r c b y ky vy t s nd :
  foc r (Step b y ky vy s c) t -> deref r (addr_of t) = Some nd ->
  rank_ok t -> climbing t -> rank_ok s -> ctx_ok ky c -> rank_of t = ky -> rank_of s <= ky - 2 ->
  exists r' t',
    (let z := slot_of nd (side (negb b)) in
     dz ← (if z =? 0 then Some 2 else ravl_node_rank_difference r z);
     if dz =? 2 then r1 ← ravl_rotate (addr_of t) r; ravl_node_demote y r1
     else if dz =? 1 then
       r1 ← ravl_rotate z r; r2 ← ravl_rotate z r1;
       r3 ← ravl_node_promote z r2; r4 ← ravl_node_demote (addr_of t) r3; ravl_node_demote y r4
     else Some r) = Some r' /\ wf r' t' /\ rank_ok t' /\
    inorder t' = inorder (plug (Step b y ky vy s c) t).
Proof.
  intros H Hd Hok Hcl Hsok Hc Hk Hs. pose proof (rank_ok_lb _ Hsok).
  assert (exists n kn vn w z, t = nodeT b n kn vn w z) as (n & kn & vn & w & z & ->).
  { destruct t as [|a k v l rr]; [done|]. destruct b; [exists a, k, v, rr, l|exists a, k, v, l, rr]; done. }
  rewrite addr_nodeT in *. rewrite rank_nodeT in Hk. subst kn.
  destruct (foc_node _ _ _ _ _ _ _ _ H) as (Hn0 & Hnd & Hw & Hz).
  rewrite Hnd in Hd. injection Hd as <-. rewrite slot_mkn_opp. cbv zeta.
  apply rank_ok_nodeT in Hok as (Hwk & Hzk & Hwok & Hzok).
  assert ((rank_of z = ky - 2 /\ rank_of w = ky - 1) \/ (rank_of z = ky - 1 /\ rank_of w = ky - 2)) as Hcase
    by (destruct b; simpl in Hcl; lia).
  assert (exists dz, (if addr_of z =? 0 then Some 2 else ravl_node_rank_difference r (addr_of z)) = Some dz /\
    dz = ky - rank_of z) as (dz & -> & ->).
  { destruct (Z.eqb_spec (addr_of z) 0) as [E|E].
    - apply (rep_leaf _ _ _ Hz) in E. subst z. exists 2. split; [done|]. simpl in *. lia.
    - assert (z <> Leaf) as Hzl by (intros ->; done).
      pose proof H as Hf. rewrite nodeT_swap, <- foc_up in Hf.
      rewrite (foc_rank_difference _ _ _ Hf Hzl). eexists. done. }
  cbn [mbind option_bind]. rewrite foc_up in H.
  destruct Hcase as [[Ez Ew]|[Ez Ew]].
  - destruct (Z.eqb_spec (ky - rank_of z) 2); [|lia].
    destruct (balance_single _ _ _ _ _ _ _ _ _ _ _ _ H) as (r' & -> & H').
    eexists r', _. split; [done|]. split; [exact (proj1 (foc_plug _ _ _) H')|]. split.
    + apply rank_ok_plug. rewrite !rank_ok_nodeT, !rank_nodeT. repeat split; try done; lia.
    + cbn [plug]. rewrite !inorder_plug, !inorder_nodeT. destruct b; app_norm; done.
  - destruct (Z.eqb_spec (ky - rank_of z) 2); [lia|]. destruct (Z.eqb_spec (ky - rank_of z) 1); [|lia].
    destruct z as [|za zk zv zl zr]; [simpl in *; lia|]. cbn [addr_of].
    assert (exists zi zo, Node za zk zv zl zr = nodeT (negb b) za zk zv zi zo) as (zi & zo & E)
      by (destruct b; [exists zl, zr|exists zr, zl]; done).
    rewrite E in *. rewrite rank_nodeT in *. apply rank_ok_nodeT in Hzok as (Hi & Ho & Hiok & Hook).
    destruct (balance_double _ _ _ _ _ _ _ _ _ _ _ _ _ _ _ _ H) as (r' & -> & H').
    eexists r', _. split; [done|]. split; [exact (proj1 (foc_plug _ _ _) H')|]. split.
    + apply rank_ok_plug. rewrite !rank_ok_nodeT, !rank_nodeT.
      replace (zk + 1) with ky by lia. repeat split; try done; lia.
    + cbn [plug]. rewrite !inorder_plug, !inorder_nodeT. destruct b; app_norm; done.
Qed.

Lemma balance_spec c t r fuel :
  foc r c t -> nearly_ok c t -> (ctx_len c < fuel)%nat ->
  exists r' t', ravl_balance fuel (addr_of t) r = Some r' /\ wf r' t' /\ rank_ok t' /\
    inorder t' = inorder (plug c t).
Proof.
  intros H Hn Hf. destruct (promote_up_spec c t r fuel H Hn Hf) as (c1 & t1 & r1 & Hrun & H1 & Hn1 & Hs1 & Hin).
  unfold ravl_balance. rewrite Hrun. cbn [mbind option_bind]. rewrite <- Hin. clear Hrun Hin H Hn Hf t c r.
  destruct Hn1 as (Hok & Hc & Hcl). assert (t1 <> Leaf) as Ht by (intros ->; done).
  rewrite (foc_rank_difference _ _ _ H1 Ht).
  destruct (foc_deref_addr _ _ _ H1 Ht) as (nd & Hd & Hpar).
  destruct c1 as [|b y ky vy s c].
  - unfold ravl_node_sibling. rewrite (foc_slot_type _ _ _ H1 Ht). cbn [mbind option_bind slot_in].
    rewrite Hd. cbn [mbind option_bind]. rewrite Hpar.
    unfold ravl_node_rank_difference_parent, ravl_node_rank. cbn [ctx_addr Z.eqb mbind option_bind].
    pose proof (rank_ok_lb _ Hok). assert (rank_of t1 <> -1) as Hne.
    { destruct t1 as [|a k v l rr]; [done|]. destruct Hok as (Hl & _ & Hl' & _).
      pose proof (rank_ok_lb _ Hl'). simpl. lia. }
    destruct (Z.eqb_spec (-1 - rank_of t1) 0); [lia|]. cbn [andb negb].
    exists r1, t1. done.
  - rewrite (foc_sibling _ _ _ _ _ _ _ _ H1 Ht). cbn [mbind option_bind]. rewrite Hd. cbn [mbind option_bind].
    rewrite Hpar. cbn [ctx_addr]. pose proof H1 as Hup. rewrite foc_up in Hup.
    destruct (foc_node _ _ _ _ _ _ _ _ Hup) as (Hy0 & Hyd & _ & Hsrep).
    pose proof (foc_rank _ _ _ Hup) as Hky. rewrite addr_nodeT, rank_nodeT in Hky.
    unfold ravl_node_rank_difference_parent at 1. rewrite Hky, (rep_rank _ _ _ Hsrep).
    cbn [mbind option_bind]. destruct Hc as (Hlt & Hsk & Hsok & Hcc). cbn [settled] in Hs1.
    destruct (Z.eqb_spec (ky - rank_of t1) 0) as [E|E]; cbn [andb negb].
    2:{ exists r1, (plug (Step b y ky vy s c) t1). split; [done|]. rewrite <- foc_plug. split; [done|].
        split; [|done]. apply rank_ok_plug. split; [done|]. simpl. repeat split; try done. lia. }
    destruct (Z.ltb_spec 1 (ky - rank_of s)); [|lia]. cbn [negb].
    rewrite (foc_slot_type _ _ _ H1 Ht). cbn [mbind option_bind slot_in]. rewrite opp_side.
    apply (rotate_spec r1 c b y ky vy t1 s nd H1 Hd); try done; lia.
Qed.
End Facts.
