(* ===== verification/RavlOps.v ===== *)
(** * The operations of a ravl as operations on its sorted content

    The abstract content of a ravl is the list of its data in order.  For a
    comparison that is a total preorder this file proves that ravl_emplace
    inserts at the right place or reports a duplicate, that ravl_find answers
    each of its predicates, that ravl_remove deletes exactly one element and
    that ravl_clear visits everything once; every operation terminates within
    the stated fuel, follows only valid pointers and keeps the rank rule. *)
From stdpp Require Import base numbers list gmap sorting.
From Stdlib Require Import ZArith Lia Bool.
From S2P Require Import Prelude Ravl RavlFacts.

(** What the tree relies on: the comparison is a total preorder. *)
Class RavlOrder {D : Type} (compare : D -> D -> Z) : Prop := {
  cmp_sym x y : Z.sgn (compare y x) = - Z.sgn (compare x y);
  cmp_trans x y z : compare x y <= 0 -> compare y z <= 0 -> compare x z <= 0
}.

Section Ops.
Context {D : Type} (compare : D -> D -> Z) `{!RavlOrder compare}.
Implicit Types (r : ravl D) (t : @tree D) (c : @ctx D).

Definition lt (x y : D) : Prop := compare x y < 0.
(** The content of a well-formed tree is strictly increasing. *)
Definition sorted (l : list D) : Prop := StronglySorted lt l.

Lemma cmp_flip x y : compare x y < 0 <-> 0 < compare y x.
Proof. pose proof (cmp_sym x y). lia. Qed.
Lemma cmp_flip0 x y : compare x y = 0 <-> compare y x = 0.
Proof. pose proof (cmp_sym x y). lia. Qed.
Lemma lt_le_trans x y z : compare x y < 0 -> compare y z <= 0 -> compare x z < 0.
Proof.
  intros H1 H2. destruct (Z.lt_ge_cases (compare x z) 0) as [|Hge]; [done|].
  assert (compare z x <= 0) by (pose proof (cmp_sym x z); lia).
  pose proof (cmp_trans y z x H2 ltac:(done)). pose proof (cmp_sym x y). lia.
Qed.
Lemma le_lt_trans x y z : compare x y <= 0 -> compare y z < 0 -> compare x z < 0.
Proof.
  intros H1 H2. destruct (Z.lt_ge_cases (compare x z) 0) as [|Hge]; [done|].
  assert (compare z x <= 0) by (pose proof (cmp_sym x z); lia).
  pose proof (cmp_trans z x y ltac:(done) H1). pose proof (cmp_sym y z). lia.
Qed.

Lemma sorted_app l1 l2 :
  sorted (l1 ++ l2) <-> sorted l1 /\ sorted l2 /\ Forall (fun x => Forall (lt x) l2) l1.
Proof.
  unfold sorted. induction l1 as [|x l1 IH]; cbn [app].
  - split; [|tauto]. intros H. repeat split; [constructor|done|constructor].
  - rewrite !StronglySorted_cons, Forall_app, Forall_cons, IH. tauto.
Qed.

(** All of [l] is below (above) [d]. *)
Definition below (l : list D) (d : D) : Prop := Forall (fun x => lt x d) l.
Definition above (d : D) (l : list D) : Prop := Forall (fun x => lt d x) l.

Lemma sorted_insert l1 l2 d : sorted (l1 ++ l2) -> below l1 d -> above d l2 -> sorted (l1 ++ d :: l2).
Proof.
  unfold below, above. rewrite !sorted_app. intros (H1 & H2 & H3) Hb Ha. split; [done|]. split.
  - apply StronglySorted_cons. done.
  - rewrite Forall_forall in *. intros x Hx. apply Forall_cons. split; [by apply Hb|by apply H3].
Qed.

(** ** Pointers along the descent *)

(** The part of [foc] that does not talk about other nodes of the heap. *)
Definition linked r c t : Prop :=
  root r = ctx_root c (addr_of t) /\ rep (nodes r) (ctx_addr c) t /\ rep_ctx (nodes r) (addr_of t) c.

Lemma foc_linked r c t : foc r c t -> linked r c t.
Proof. intros [H1 H2 H3 _ _]. done. Qed.

Lemma linked_up r b a k v s c t : linked r (Step b a k v s c) t <-> linked r c (nodeT b a k v t s).
Proof.
  unfold linked. cbn [ctx_root ctx_addr rep_ctx]. rewrite rep_nodeT, addr_nodeT. tauto.
Qed.

Lemma linked_load r c t : linked r c t -> load_ref r (ref_of c) = Some (addr_of t).
Proof.
  intros (Hr & _ & Hc). destruct c as [|b a k v s c]; cbn [ref_of load_ref]; [by rewrite Hr|].
  destruct Hc as (_ & Ha & _). unfold deref. rewrite Ha. cbn [mbind option_bind]. by rewrite slot_mkn.
Qed.

Fixpoint height (t : @tree D) : nat :=
  match t with Leaf => 0 | Node _ _ _ l r => S (height l `max` height r) end.

Lemma height_nodeT b a k v (x y : @tree D) : height (nodeT b a k v x y) = S (height x `max` height y).
Proof. destruct b; simpl; lia. Qed.

Lemma height_addrs t : (height t <= length (addrs t))%nat.
Proof. induction t as [|a k v l IHl r IHr]; simpl; [lia|]. rewrite length_app. lia. Qed.

Lemma walk_spec r d c t fuel :
  linked r c t -> sorted (inorder (plug c t)) -> below (ctx_before c) d -> above d (ctx_after c) ->
  (height t < fuel)%nat ->
  (exists e, e ∈ inorder t /\ compare d e = 0 /\ emplace_walk compare fuel r d (ref_of c) (ctx_addr c) = Some None) \/
  (exists c', emplace_walk compare fuel r d (ref_of c) (ctx_addr c) = Some (Some (ref_of c', ctx_addr c')) /\
     linked r c' Leaf /\ plug c' Leaf = plug c t /\ below (ctx_before c') d /\ above d (ctx_after c')).
Proof.
  revert c fuel. induction t as [|a k v l IHl rr IHr]; intros c fuel H Hs Hb Ha Hf;
    (destruct fuel as [|fuel]; [lia|]); cbn [emplace_walk]; rewrite (linked_load _ _ _ H); cbn [mbind option_bind].
  - right. exists c. done.
  - pose proof H as (_ & (Ha0 & Had & Hrl & Hrr) & _). cbn [addr_of].
    destruct (Z.eqb_spec a 0); [done|]. unfold deref. rewrite Had. cbn [mbind option_bind]. rewrite data_mkn.
    pose proof Hs as Hs'. rewrite inorder_plug in Hs'. cbn [inorder] in Hs'.
    rewrite !sorted_app, Forall_app in Hs'. destruct Hs' as (_ & ((_ & Hsr & Hlr) & _ & _) & _).
    apply StronglySorted_cons in Hsr as [Hvr Hsr]. simpl in Hf.
    destruct (Z.eqb_spec (compare d v.2) 0) as [E|E].
    + left. exists v.2. split; [|done]. simpl. apply elem_of_app. right. left.
    + destruct (Z.ltb_spec 0 (compare d v.2)) as [Hgt|Hle].
      * destruct (IHr (Step true a k v l c) fuel) as [(e & He & Hce & Hw)|(c' & Hw & Hl & Hp & Hb' & Ha')].
        -- by apply linked_up.
        -- exact Hs.
        -- cbn [ctx_before]. apply Forall_app. split; [done|]. apply Forall_app. split.
           ++ rewrite Forall_forall in *. intros x Hx. specialize (Hlr x Hx). rewrite Forall_cons in Hlr.
              apply lt_le_trans with v.2; [apply Hlr|]. pose proof (cmp_flip v.2 d). lia.
           ++ constructor; [|constructor]. by apply cmp_flip.
        -- exact Ha.
        -- lia.
        -- left. exists e. split; [simpl; apply elem_of_app; right; by right|]. done.
        -- right. exists c'. done.
      * destruct (IHl (Step false a k v rr c) fuel) as [(e & He & Hce & Hw)|(c' & Hw & Hl & Hp & Hb' & Ha')].
        -- by apply linked_up.
        -- exact Hs.
        -- cbn [ctx_before]. by rewrite app_nil_r.
        -- cbn [ctx_after]. apply Forall_app. split; [|done]. constructor; [unfold lt; lia|].
           rewrite Forall_forall in *. intros x Hx. apply le_lt_trans with v.2; [lia|]. by apply Hvr.
        -- lia.
        -- left. exists e. split; [simpl; apply elem_of_app; by left|]. done.
        -- right. exists c'. done.
Qed.

(** ** Insertion *)

Lemma linked_frame r r' c t :
  root r' = root r ->
  (forall a, a ∈ addrs t ++ ctx_addrs c -> nodes r' !! a = nodes r !! a) -> linked r c t -> linked r' c t.
Proof.
  intros Hr Hf (H1 & H2 & H3). split; [congruence|]. split.
  - eapply rep_frame; [|exact H2]. intros a Ha. apply Hf, elem_of_app. by left.
  - eapply rep_ctx_frame; [|exact H3]. intros a Ha. apply Hf, elem_of_app. by right.
Qed.

Lemma plug_addrs c t : addrs (plug c t) ≡ₚ addrs t ++ ctx_addrs c.
Proof.
  revert t. induction c as [|b a k v s c IH]; intros t; cbn [plug ctx_addrs]; [by rewrite app_nil_r|].
  rewrite IH, addrs_nodeT. cbn [app]. rewrite <- Permutation_middle. by rewrite app_assoc.
Qed.

Lemma ctx_len_le c : (ctx_len c <= length (ctx_addrs c))%nat.
Proof. induction c; simpl; [lia|]. rewrite length_app. lia. Qed.

(** Linking a new leaf into the empty slot of a context. *)
Lemma link_leaf r c v a :
  wf r (plug c Leaf) -> a <> 0 -> nodes r !! a = None ->
  let r1 := Ravl (<[a := RNode 0 0 0 0 v.1 v.2]> (nodes r)) (root r) in
  exists r2 r3, update a (with_parent (ctx_addr c)) r1 = Some r2 /\
    store_ref (ref_of c) a r2 = Some r3 /\ foc r3 c (Node a 0 v Leaf Leaf).
Proof.
  intros Hwf Ha0 Hfresh r1. rewrite <- foc_plug in Hwf. destruct Hwf as [Hr _ Hc Hnd Hdom].
  cbn [addr_of addrs app] in *.
  assert (a ∉ ctx_addrs c) as Hna by (intros Hin; apply Hdom in Hin; rewrite Hfresh in Hin; by destruct Hin).
  assert (deref r1 a = Some (mkn false 0 0 0 0 v)) as Hd by apply lookup_insert_eq.
  rewrite (update_deref _ _ _ _ Hd), with_parent_mkn. subst r1. cbn [nodes root].
  rewrite insert_insert_eq.
  destruct (store_hole (Ravl (<[a := mkn false (ctx_addr c) 0 0 0 v]> (nodes r)) (root r)) 0 a c)
    as (r3 & Hst & Hroot & Hctx & Hout & Hdom3); [done| |done|].
  { cbn [nodes]. eapply rep_ctx_frame; [|exact Hc]. intros i Hi. apply lookup_insert_ne. intros ->. done. }
  eexists _, r3. split; [done|]. split; [exact Hst|]. cbn [nodes] in *. constructor; try done.
  - split; [done|]. split; [|done]. rewrite Hout by done. apply lookup_insert_eq.
  - cbn [addrs app]. constructor; done.
  - intros i. rewrite Hdom3. cbn [addrs app]. rewrite elem_of_cons, <- Hdom.
    destruct (decide (i = a)) as [->|Hi].
    + rewrite lookup_insert_eq. split; [by left|by eexists].
    + rewrite lookup_insert_ne by done. split; [by right|intros [?|?]; done].
Qed.

(** The abstract insertion. *)
Definition is_dup (d : D) (l : list D) : bool := existsb (fun e => compare d e =? 0) l.

Lemma no_dup_between l1 l2 d : below l1 d -> above d l2 -> is_dup d (l1 ++ l2) = false.
Proof.
  unfold below, above, is_dup. intros H1 H2. apply not_true_iff_false. intros H.
  apply existsb_exists in H as (e & He & E). apply Z.eqb_eq in E. apply list_elem_of_In in He.
  rewrite Forall_forall in H1, H2. apply elem_of_app in He as [He|He].
  - specialize (H1 e He). apply cmp_flip in H1. lia.
  - specialize (H2 e He). unfold lt in H2. lia.
Qed.

Lemma emplace_spec r t d a constr fuel :
  wf r t -> sorted (inorder t) -> rank_ok t -> a <> 0 -> nodes r !! a = None ->
  (length (addrs t) < fuel)%nat ->
  exists ret r' t', ravl_emplace compare fuel r a constr d = Some (ret, r') /\
    wf r' t' /\ rank_ok t' /\ sorted (inorder t') /\
    ((is_dup d (inorder t) = true /\ ret = -1 /\ t' = t) \/
     (is_dup d (inorder t) = false /\ ret = 0 /\
      exists l1 l2, inorder t = l1 ++ l2 /\ inorder t' = l1 ++ d :: l2)).
Proof.
  intros Hwf Hs Hok Ha0 Hfresh Hf. unfold ravl_emplace, ravl_new_node.
  destruct (Z.eqb_spec a 0); [done|]. cbn [fst snd]. destruct (Z.eqb_spec a 0); [done|].
  set (v := (match constr with ravl_node_insert_constructor => true | _ => false end, d) : bool * D).
  set (r1 := Ravl (<[a := RNode 0 0 0 0 v.1 v.2]> (nodes r)) (root r)).
  change (Ravl _ _) with r1.
  assert (a ∉ addrs t) as Hna.
  { intros Hin. assert (a ∈ addrs t ++ ctx_addrs (@Top D)) as Hin' by (by rewrite app_nil_r).
    apply (foc_dom _ _ _ Hwf) in Hin'. rewrite Hfresh in Hin'. by destruct Hin'. }
  assert (linked r1 Top t) as Hl.
  { apply (linked_frame r r1 Top t); [done| |apply foc_linked, Hwf]. intros i Hi. rewrite app_nil_r in Hi.
    apply lookup_insert_ne. intros ->. done. }
  pose proof (height_addrs t).
  destruct (walk_spec r1 d Top t fuel Hl Hs) as [(e & He & Hce & Hw)|(c & Hw & _ & Hp & Hb & Hab)];
    try done; [constructor|constructor|lia|..]; cbn [ref_of ctx_addr] in Hw; rewrite Hw; cbn [mbind option_bind].
  - exists (-1), r, t. split.
    + unfold Free_node, r1. cbn [nodes root]. rewrite delete_insert_id by done. by destruct r.
    + split; [done|]. split; [done|]. split; [done|]. left. split; [|done].
      apply existsb_exists. exists e. split; [by apply list_elem_of_In|by apply Z.eqb_eq].
  - cbn [plug] in Hp. subst t.
    destruct (link_leaf r c v a Hwf Ha0 Hfresh) as (r2 & r3 & Hu & Hst & H3). fold r1 in Hu.
    rewrite Hu. cbn [mbind option_bind]. rewrite Hst. cbn [mbind option_bind].
    destruct (balance_spec c (Node a 0 v Leaf Leaf) r3 fuel H3) as (r' & t' & Hbal & Hwf' & Hok' & Hin).
    { apply rank_ok_plug in Hok as [_ Hok]. split; [simpl; lia|]. split; [exact Hok|]. simpl. lia. }
    { pose proof (ctx_len_le c). rewrite plug_addrs in Hf. simpl in Hf. lia. }
    cbn [addr_of] in Hbal. rewrite Hbal. cbn [mbind option_bind].
    exists 0, r', t'. split; [done|]. split; [done|]. split; [done|].
    rewrite inorder_plug in Hin, Hs. cbn [inorder app] in Hin, Hs.
    split; [rewrite Hin; by apply sorted_insert|]. right.
    rewrite inorder_plug. cbn [inorder app]. split; [by apply no_dup_between|]. split; [done|].
    exists (ctx_before c), (ctx_after c). done.
Qed.

(** ** Entries with their addresses *)

Fixpoint ents (t : @tree D) : list (Z * D) :=
  match t with Leaf => [] | Node a _ v l r => ents l ++ (a, v.2) :: ents r end.
Fixpoint ents_before (c : @ctx D) : list (Z * D) :=
  match c with
  | Top => []
  | Step b a _ v s c => ents_before c ++ (if b then ents s ++ [(a, v.2)] else [])
  end.
Fixpoint ents_after (c : @ctx D) : list (Z * D) :=
  match c with
  | Top => []
  | Step b a _ v s c => (if b then [] else (a, v.2) :: ents s) ++ ents_after c
  end.

Lemma ents_plug c t : ents (plug c t) = ents_before c ++ ents t ++ ents_after c.
Proof.
  revert t. induction c as [|b a k v s c IH]; intros t; cbn [plug ents_before ents_after].
  - by rewrite app_nil_r.
  - rewrite IH. destruct b; cbn [nodeT ents]; app_norm; done.
Qed.

Lemma ents_inorder t : map snd (ents t) = inorder t.
Proof. induction t as [|a k v l IHl r IHr]; [done|]. cbn [ents inorder]. rewrite map_app. simpl. by rewrite IHl, IHr. Qed.
Lemma before_inorder c : map snd (ents_before c) = ctx_before c.
Proof.
  induction c as [|b a k v s c IH]; [done|]. cbn [ents_before ctx_before]. rewrite map_app, IH.
  destruct b; [|done]. rewrite map_app. simpl. by rewrite ents_inorder.
Qed.
Lemma after_inorder c : map snd (ents_after c) = ctx_after c.
Proof.
  induction c as [|b a k v s c IH]; [done|]. cbn [ents_after ctx_after]. rewrite map_app, IH.
  destruct b; [done|]. simpl. by rewrite ents_inorder.
Qed.

Definition first_addr (l : list (Z * D)) : Z := match l with [] => 0 | (a, _) :: _ => a end.
Definition last_addr (l : list (Z * D)) : Z := first_addr (rev l).

Lemma first_addr_app l1 l2 : first_addr (l1 ++ l2) = match l1 with [] => first_addr l2 | _ => first_addr l1 end.
Proof. by destruct l1 as [|[]]. Qed.
Lemma last_addr_app l1 l2 : last_addr (l1 ++ l2) = match l2 with [] => last_addr l1 | _ => last_addr l2 end.
Proof.
  unfold last_addr. rewrite rev_app_distr, first_addr_app. destruct l2 as [|x l2]; [done|].
  destruct (rev (x :: l2)) eqn:E; [|done]. apply (f_equal (@length _)) in E.
  rewrite length_rev in E. done.
Qed.
Lemma last_addr_snoc l x : last_addr (l ++ [x]) = x.1.
Proof. rewrite last_addr_app. unfold last_addr. simpl. by destruct x. Qed.

(** ** Neighbours *)

(** The bottom of the path that always takes side [b]. *)
Fixpoint dig (b : bool) (t : @tree D) (c : @ctx D) : ctx * tree :=
  match t with
  | Leaf => (c, Leaf)
  | Node a k v l r =>
      if b then match r with Leaf => (c, t) | _ => dig b r (Step true a k v l c) end
      else match l with Leaf => (c, t) | _ => dig b l (Step false a k v r c) end
  end.

(** One step of [dig]. *)
Lemma dig_nodeT b a k v x y c :
  dig b (nodeT b a k v x y) c = match x with Leaf => (c, nodeT b a k v x y) | _ => dig b x (Step b a k v y c) end.
Proof. destruct b; by destruct x. Qed.

Lemma node_cases b t : t <> Leaf -> exists a k v x y, t = nodeT b a k v x y.
Proof.
  destruct t as [|a k v l r]; [done|]. intros _.
  destruct b; [exists a, k, v, r, l|exists a, k, v, l, r]; done.
Qed.

Lemma dig_snd b t c c2 : (dig b t c).2 = (dig b t c2).2.
Proof.
  revert c c2. induction t as [|a k v l IHl r IHr]; intros c c2; [done|]. cbn [dig].
  destruct b; [destruct r; [done|apply IHr]|destruct l; [done|apply IHl]].
Qed.

Lemma dig_spec b n : forall t c r fuel, (height t <= n)%nat ->
  foc r c t -> t <> Leaf -> (height t <= fuel)%nat ->
  let '(c', t') := dig b t c in
  foc r c' t' /\ plug c' t' = plug c t /\
  ravl_node_type_most fuel r (addr_of t) (side b) = Some (addr_of t') /\
  (exists a k v y, t' = nodeT b a k v Leaf y) /\
  (if b then ctx_after c' = ctx_after c /\ ents_after c' = ents_after c
   else ctx_before c' = ctx_before c /\ ents_before c' = ents_before c).
Proof.
  induction n as [|n IH]; intros t c r fuel Hn H Ht Hf; [destruct t; [done|simpl in Hn; lia]|].
  destruct (node_cases b t Ht) as (a & k & v & x & y & ->). rewrite height_nodeT in Hn, Hf.
  destruct (foc_node _ _ _ _ _ _ _ _ H) as (Ha0 & Ha & Hx & _).
  destruct fuel as [|fuel]; [lia|]. cbn [ravl_node_type_most]. rewrite addr_nodeT, Ha.
  cbn [mbind option_bind]. rewrite slot_mkn, dig_nodeT.
  destruct x as [|xa xk xv xl xr].
  - cbn [addr_of Z.eqb]. rewrite addr_nodeT. split; [done|]. split; [done|]. split; [done|].
    split; [by exists a, k, v, y|]. by destruct b.
  - cbn [addr_of]. destruct (Z.eqb_spec xa 0) as [E|E]; [by destruct Hx|].
    set (x := Node xa xk xv xl xr) in *.
    assert (foc r (Step b a k v y c) x) as Hfx by (by apply foc_up).
    specialize (IH x (Step b a k v y c) r fuel ltac:(lia) Hfx ltac:(done) ltac:(lia)).
    destruct (dig b x (Step b a k v y c)) as [c' t'].
    destruct IH as (H1 & H2 & H3 & H4 & H5). split; [done|]. split; [by rewrite H2|].
    split; [exact H3|]. split; [done|]. destruct b; cbn [ctx_after ents_after ctx_before ents_before app] in H5.
    + done.
    + by rewrite !app_nil_r in H5.
Qed.

Lemma dig_ents b n : forall t c, (height t <= n)%nat -> t <> Leaf ->
  addr_of (dig b t c).2 = if b then last_addr (ents t) else first_addr (ents t).
Proof.
  induction n as [|n IH]; intros t c Hn Ht; [destruct t; [done|simpl in Hn; lia]|].
  destruct (node_cases b t Ht) as (a & k & v & x & y & ->). rewrite height_nodeT in Hn. rewrite dig_nodeT.
  destruct x as [|xa xk xv xl xr].
  - cbn [snd]. rewrite addr_nodeT. destruct b; cbn [nodeT ents]; [|done]. by rewrite last_addr_snoc.
  - set (x := Node xa xk xv xl xr) in *. rewrite IH by (done || lia).
    destruct b; cbn [nodeT ents].
    + rewrite last_addr_app. change ((a, v.2) :: ents x) with ([(a, v.2)] ++ ents x). rewrite last_addr_app.
      destruct (ents x) eqn:E; [|done]. apply (f_equal (@length _)) in E. subst x. cbn [ents] in E.
      rewrite length_app in E. simpl in E. lia.
    + rewrite first_addr_app. destruct (ents x) eqn:E; [|done].
      apply (f_equal (@length _)) in E. subst x. cbn [ents] in E. rewrite length_app in E. simpl in E. lia.
Qed.

Lemma cessor_up_spec b c t r fuel :
  foc r c t -> t <> Leaf -> (ctx_len c < fuel)%nat ->
  cessor_up fuel r (addr_of t) (side b) =
  Some (if b then first_addr (ents_after c) else last_addr (ents_before c)).
Proof.
  revert t fuel. induction c as [|b' a k v s c IH]; intros t fuel H Ht Hf;
    (destruct fuel as [|fuel]; [lia|]); cbn [cessor_up];
    destruct (foc_deref_addr _ _ _ H Ht) as (nd & -> & Hpar); cbn [mbind option_bind]; rewrite Hpar.
  - by destruct b.
  - cbn [ctx_addr]. destruct (foc_parent _ _ _ _ _ _ _ _ H) as (Ha0 & Ha). simpl in Hf.
    destruct (Z.eqb_spec a 0); [done|]. rewrite Ha. cbn [mbind option_bind].
    destruct (decide (b' = b)) as [->|Hb].
    + rewrite slot_mkn, Z.eqb_refl. rewrite foc_up in H.
      specialize (IH _ fuel H ltac:(by destruct b) ltac:(lia)). rewrite addr_nodeT in IH. rewrite IH.
      destruct b; cbn [ents_after ents_before app]; [done|]. by rewrite app_nil_r.
    + pose proof (foc_sibling_ne _ _ _ _ _ _ _ _ H Ht) as Hne.
      assert (slot_of (mkn b' (ctx_addr c) (addr_of t) (addr_of s) k v) (side b) = addr_of s) as ->
        by (destruct b, b'; done).
      destruct (Z.eqb_spec (addr_of t) (addr_of s)); [congruence|]. f_equal.
      destruct b, b'; try done. cbn [ents_before]. rewrite app_assoc. by rewrite last_addr_snoc.
Qed.

Lemma cessor_spec b r c a k v x y fuel :
  foc r c (nodeT b a k v x y) -> (ctx_len c < fuel)%nat -> (height x <= fuel)%nat ->
  ravl_node_cessor fuel r a (side b) =
  Some (if b then first_addr (ents x ++ ents_after c) else last_addr (ents_before c ++ ents x)).
Proof.
  intros H Hc Hh. destruct (foc_node _ _ _ _ _ _ _ _ H) as (Ha0 & Ha & Hx & _).
  unfold ravl_node_cessor. rewrite Ha. cbn [mbind option_bind]. rewrite slot_mkn.
  destruct (Z.eqb_spec (addr_of x) 0) as [E|E].
  - apply (rep_leaf _ _ _ Hx) in E. subst x. pose proof (cessor_up_spec b c _ r fuel H) as Hup.
    rewrite addr_nodeT in Hup. rewrite Hup by (done || by destruct b).
    destruct b; [done|]. cbn [ents]. by rewrite app_nil_r.
  - assert (x <> Leaf) as Hxl by (intros ->; done). rewrite opp_side.
    assert (foc r (Step b a k v y c) x) as Hf by (by apply foc_up).
    pose proof (dig_spec (negb b) (height x) x (Step b a k v y c) r fuel ltac:(lia) Hf Hxl Hh) as Hd.
    pose proof (dig_ents (negb b) (height x) x (Step b a k v y c) ltac:(lia) Hxl) as He.
    destruct (dig (negb b) x (Step b a k v y c)) as [c' t']. destruct Hd as (_ & _ & -> & _).
    cbn [snd] in He. rewrite He. f_equal.
    destruct x as [|xa xk xv xl xr]; [done|]. cbn [ents].
    destruct b; cbn [negb].
    + by destruct (ents xl) as [|[]].
    + rewrite (last_addr_app (ents_before c)). destruct (ents xl ++ (xa, xv.2) :: ents xr) eqn:E'; [|done].
      symmetry in E'. by apply app_cons_not_nil in E'.
Qed.

(** ** Search *)

(** The entry satisfies the predicate: [d] compared with it has a sign the flags
    ask for. *)
Definition matches (flags : Z) (d : D) (e : Z * D) : bool :=
  (has_pred flags RAVL_PREDICATE_EQUAL && (compare d e.2 =? 0)) ||
  (has_pred flags RAVL_PREDICATE_GREATER && (compare d e.2 <? 0)) ||
  (has_pred flags RAVL_PREDICATE_LESS && (0 <? compare d e.2)).

Lemma matches_pos flags d e : 0 < compare d e.2 -> matches flags d e = has_pred flags RAVL_PREDICATE_LESS.
Proof.
  intros H. unfold matches. destruct (Z.eqb_spec (compare d e.2) 0), (Z.ltb_spec (compare d e.2) 0),
    (Z.ltb_spec 0 (compare d e.2)); try lia. by rewrite !andb_false_r, andb_true_r.
Qed.
Lemma matches_neg flags d e : compare d e.2 < 0 -> matches flags d e = has_pred flags RAVL_PREDICATE_GREATER.
Proof.
  intros H. unfold matches. destruct (Z.eqb_spec (compare d e.2) 0), (Z.ltb_spec (compare d e.2) 0),
    (Z.ltb_spec 0 (compare d e.2)); try lia. by rewrite !andb_false_r, andb_true_r, orb_false_r.
Qed.
Lemma matches_zero flags d e : compare d e.2 = 0 -> matches flags d e = has_pred flags RAVL_PREDICATE_EQUAL.
Proof. intros H. unfold matches. rewrite H. simpl. by rewrite !andb_false_r, andb_true_r, !orb_false_r. Qed.

(** The closest entry: the last match for the LESS predicates, else the first. *)
Definition find_answer (flags : Z) (d : D) (l : list (Z * D)) : Z :=
  let m := List.filter (matches flags d) l in
  if has_pred flags RAVL_PREDICATE_LESS then last_addr m else first_addr m.

Lemma filter_none (f : Z * D -> bool) l : (forall e, e ∈ l -> f e = false) -> List.filter f l = [].
Proof.
  induction l as [|e l IH]; intros H; [done|]. simpl. rewrite (H e) by left.
  apply IH. intros x Hx. apply H. by right.
Qed.
Lemma filter_every (f : Z * D -> bool) l : (forall e, e ∈ l -> f e = true) -> List.filter f l = l.
Proof.
  induction l as [|e l IH]; intros H; [done|]. simpl. rewrite (H e) by left.
  f_equal. apply IH. intros x Hx. apply H. by right.
Qed.

Lemma node_sorted c a k v l rr :
  sorted (inorder (plug c (Node a k v l rr))) ->
  (forall e, e ∈ ents l -> lt e.2 v.2) /\ (forall e, e ∈ ents_before c -> lt e.2 v.2) /\
  (forall e, e ∈ ents rr -> lt v.2 e.2) /\ (forall e, e ∈ ents_after c -> lt v.2 e.2).
Proof.
  rewrite inorder_plug. cbn [inorder]. rewrite !sorted_app, !Forall_app.
  intros (_ & ((_ & H1 & H2) & _ & H3 & H4) & H5).
  apply StronglySorted_cons in H1 as [H1 _]. apply Forall_cons in H4 as [H4 _].
  rewrite Forall_forall in *.
  assert (forall (e : Z * D) L, e ∈ L -> e.2 ∈ map snd L) as Hin.
  { intros e L He. apply list_elem_of_fmap. by exists e. }
  repeat split; intros e He.
  - apply (Hin _ _) in He. rewrite ents_inorder in He. specialize (H2 _ He). by apply Forall_cons in H2 as [? _].
  - apply (Hin _ _) in He. rewrite before_inorder in He. specialize (H5 _ He).
    rewrite <- app_assoc, Forall_app in H5. destruct H5 as [_ H5]. by apply Forall_cons in H5 as [? _].
  - apply (Hin _ _) in He. rewrite ents_inorder in He. by apply H1.
  - apply (Hin _ _) in He. rewrite after_inorder in He. by apply H4.
Qed.

(** Where [d] stands decides the sign for everything on one side of a node. *)
Lemma sign_low d x e : 0 <= compare d x -> lt e x -> 0 < compare d e.
Proof.
  intros H1 H2. apply cmp_flip. apply lt_le_trans with x; [done|]. pose proof (cmp_sym d x). lia.
Qed.
Lemma sign_high d x e : compare d x <= 0 -> lt x e -> compare d e < 0.
Proof. intros H1 H2. by apply le_lt_trans with x. Qed.

Lemma holds_unfold fuel r c a k v l rr d flags ret :
  foc r c (Node a k v l rr) -> (ctx_len c < fuel)%nat ->
  (height l <= fuel)%nat -> (height rr <= fuel)%nat ->
  let res := compare d v.2 in
  ravl_predicate_holds fuel r res ret a flags =
  Some (if has_pred flags RAVL_PREDICATE_EQUAL && (res =? 0) then (true, a) else
        if has_pred flags RAVL_PREDICATE_GREATER && (res <? 0) then (false, a) else
        if has_pred flags RAVL_PREDICATE_GREATER && (res =? 0) then (true, first_addr (ents rr ++ ents_after c)) else
        if has_pred flags RAVL_PREDICATE_LESS && (0 <? res) then (false, a) else
        if has_pred flags RAVL_PREDICATE_LESS && (res =? 0) then (true, last_addr (ents_before c ++ ents l)) else
        (false, ret)).
Proof.
  intros H Hc Hl Hr res. unfold ravl_predicate_holds, ravl_node_successor, ravl_node_predecessor.
  pose proof (cessor_spec true r c a k v rr l fuel H Hc Hr) as C1.
  pose proof (cessor_spec false r c a k v l rr fuel H Hc Hl) as C2.
  cbn [side] in C1, C2. rewrite C1, C2.
  repeat (destruct (_ && _); [done|]). done.
Qed.

Lemma slot_left_mkn par x y k (v : bool * D) : slot_of (mkn false par x y k v) RAVL_LEFT = x.
Proof. done. Qed.
Lemma slot_right_mkn par x y k (v : bool * D) : slot_of (mkn false par x y k v) RAVL_RIGHT = y.
Proof. done. Qed.

(** What the search has found so far at a position. *)
Definition found (flags : Z) (d : D) (c : @ctx D) (ret : Z) : Prop :=
  let m := List.filter (matches flags d) in
  if has_pred flags RAVL_PREDICATE_LESS
  then ret = last_addr (m (ents_before c)) /\ m (ents_after c) = []
  else ret = first_addr (m (ents_after c)) /\ m (ents_before c) = [].

(** The flag combinations of enum ravl_predicate. *)
Definition valid_predicate (flags : Z) : bool :=
  (has_pred flags RAVL_PREDICATE_EQUAL || has_pred flags RAVL_PREDICATE_GREATER ||
   has_pred flags RAVL_PREDICATE_LESS) &&
  negb (has_pred flags RAVL_PREDICATE_GREATER && has_pred flags RAVL_PREDICATE_LESS).

(** The filtered sides of a node, by the sign of the comparison. *)
Lemma filter_low flags d x L :
  0 <= compare d x -> (forall e, e ∈ L -> lt e.2 x) ->
  List.filter (matches flags d) L = if has_pred flags RAVL_PREDICATE_LESS then L else [].
Proof.
  intros Hr HL. destruct (has_pred flags RAVL_PREDICATE_LESS) eqn:E;
    [apply filter_every|apply filter_none]; intros e He; rewrite matches_pos; try done;
    by apply sign_low with x; [|apply HL].
Qed.
Lemma filter_high flags d x L :
  compare d x <= 0 -> (forall e, e ∈ L -> lt x e.2) ->
  List.filter (matches flags d) L = if has_pred flags RAVL_PREDICATE_GREATER then L else [].
Proof.
  intros Hr HL. destruct (has_pred flags RAVL_PREDICATE_GREATER) eqn:E;
    [apply filter_every|apply filter_none]; intros e He; rewrite matches_neg; try done;
    by apply sign_high with x; [|apply HL].
Qed.

Lemma find_loop_spec d flags t : forall c r ret fuel,
  foc r c t -> sorted (inorder (plug c t)) -> (ctx_len c + 2 * height t < fuel)%nat ->
  valid_predicate flags = true -> found flags d c ret ->
  find_loop compare fuel r d flags ret (addr_of t) = Some (find_answer flags d (ents (plug c t))).
Proof.
  induction t as [|a k v l IHl rr IHr]; intros c r ret fuel H Hs Hf Hfl Hfd;
    (destruct fuel as [|fuel]; [simpl in Hf; lia|]); cbn [find_loop].
  - cbn [addr_of Z.eqb]. f_equal. rewrite ents_plug. unfold find_answer, found in *. cbn [ents app].
    rewrite !List.filter_app.
    destruct (has_pred flags RAVL_PREDICATE_LESS); destruct Hfd as [-> E]; rewrite E; [|done]. by rewrite app_nil_r.
  - destruct (foc_node r c false a k v l rr H) as (Ha0 & Ha & _). cbn [addr_of].
    destruct (Z.eqb_spec a 0); [done|]. rewrite Ha. cbn [mbind option_bind].
    destruct (node_sorted _ _ _ _ _ _ Hs) as (S1 & S2 & S3 & S4). cbn [height] in Hf.
    rewrite data_mkn. pose proof (holds_unfold (S fuel) r c a k v l rr d flags ret H ltac:(lia) ltac:(lia) ltac:(lia)) as Hh.
    cbv zeta in Hh. rewrite Hh. cbn [mbind option_bind]. clear Hh.
    assert (foc r (Step false a k v rr c) l) as Hfl' by (by apply foc_up).
    assert (foc r (Step true a k v l c) rr) as Hfr' by (by apply foc_up).
    pose proof (fun Hr => filter_low flags d v.2 _ Hr S1) as F1.
    pose proof (fun Hr => filter_low flags d v.2 _ Hr S2) as F2.
    pose proof (fun Hr => filter_high flags d v.2 _ Hr S3) as F3.
    pose proof (fun Hr => filter_high flags d v.2 _ Hr S4) as F4.
    pose proof (matches_pos flags d (a, v.2)) as Mp. pose proof (matches_neg flags d (a, v.2)) as Mn.
    pose proof (matches_zero flags d (a, v.2)) as Mz. cbn [snd] in Mp, Mn, Mz.
    specialize (IHl (Step false a k v rr c) r). specialize (IHr (Step true a k v l c) r).
    cbn [plug nodeT addr_of] in IHl, IHr. unfold found in *. cbn [ents_before ents_after] in IHl, IHr.
    rewrite !app_nil_r in *. cbn [app] in *. set (res := compare d v.2) in *.
    destruct (Z.eqb_spec res 0) as [E|E]; [|destruct (Z.ltb_spec 0 res) as [Hgt|Hle]].
    + clear IHl IHr. rewrite ents_plug. cbn [ents]. unfold find_answer, valid_predicate in *.
      rewrite !List.filter_app. cbn [List.filter]. rewrite Mz, F1, F2, F3, F4 by lia.
      destruct (Z.ltb_spec res 0), (Z.ltb_spec 0 res); try lia.
      destruct (has_pred flags RAVL_PREDICATE_EQUAL), (has_pred flags RAVL_PREDICATE_GREATER),
        (has_pred flags RAVL_PREDICATE_LESS); try done; cbn [andb app]; rewrite ?app_nil_r, ?app_assoc, ?last_addr_snoc; done.
    + destruct (Z.ltb_spec res 0); [lia|]. rewrite !andb_false_r, andb_true_r, slot_right_mkn.
      rewrite !List.filter_app in IHr. cbn [List.filter] in IHr. rewrite Mp, F1, F2 in IHr by lia.
      destruct (has_pred flags RAVL_PREDICATE_LESS) eqn:EL; cbn [mbind option_bind];
        (apply IHr; [done|done|cbn [ctx_len]; lia|done|]); destruct Hfd as [E1 E2]; (split; [|done]).
      * by rewrite app_assoc, last_addr_snoc.
      * done.
    + destruct (Z.ltb_spec res 0); [|lia]. rewrite !andb_false_r, andb_true_r, slot_left_mkn.
      cbn [List.filter] in IHl. rewrite Mn, !List.filter_app, F3, F4 in IHl by lia.
      unfold valid_predicate in *.
      destruct (has_pred flags RAVL_PREDICATE_GREATER) eqn:EG, (has_pred flags RAVL_PREDICATE_LESS) eqn:EL;
        cbn [mbind option_bind]; try (by rewrite andb_false_r in Hfl);
        (apply IHl; [done|done|cbn [ctx_len]; lia|done|]); destruct Hfd as [E1 E2].
      * done.
      * done.
      * rewrite F4 in E1 by lia. done.
Qed.

(** ravl_find answers the predicate. *)
Lemma find_spec r t d flags fuel :
  wf r t -> sorted (inorder t) -> valid_predicate flags = true -> (2 * length (addrs t) < fuel)%nat ->
  ravl_find compare fuel r d flags = Some (find_answer flags d (ents t)).
Proof.
  intros Hwf Hs Hfl Hf. unfold ravl_find. rewrite (foc_root _ _ _ Hwf). cbn [ctx_root].
  pose proof (height_addrs t). apply (find_loop_spec d flags t Top r 0 fuel); try done.
  - cbn [ctx_len]. lia.
  - unfold found. by destruct (has_pred flags RAVL_PREDICATE_LESS).
Qed.

(** ** Removal *)

Lemma ctx_ok_mono h h' c : h' <= h -> ctx_ok h c -> ctx_ok h' c.
Proof. intros Hh. destruct c; simpl; [done|]. intros (H1 & H2). split; [lia|done]. Qed.

(** Unlinking a node with at most one child. *)
Lemma unlink_spec r c b a k v x :
  foc r c (nodeT b a k v x Leaf) ->
  exists r1 r2,
    (if addr_of x =? 0 then Some r else update (addr_of x) (with_parent (ctx_addr c)) r) = Some r1 /\
    ravl_node_ref r1 a = Some (ref_of c) /\
    store_ref (ref_of c) (addr_of x) r1 = Some r2 /\
    foc (Free_node a r2) c x.
Proof.
  intros H. destruct (foc_node _ _ _ _ _ _ _ _ H) as (Ha0 & Ha & Hx & _).
  pose proof (foc_nodup _ _ _ H) as Hnd. rewrite addrs_nodeT in Hnd. cbn [addrs app] in Hnd.
  rewrite app_nil_r in Hnd. apply NoDup_cons in Hnd as [Hna Hnd]. rewrite not_elem_of_app in Hna.
  destruct Hna as [Hnx Hnc]. pose proof Hnd as Hnd'. apply NoDup_app in Hnd' as (Hndx & Hdis & Hndc).
  destruct (rep_reparent (nodes r) a (ctx_addr c) x Hndx Hx) as (h1 & Hre & Hx1 & Hout1 & Hdom1).
  exists (Ravl h1 (root r)).
  assert ((if addr_of x =? 0 then Some r else update (addr_of x) (with_parent (ctx_addr c)) r) =
          Some (Ravl h1 (root r))) as ->.
  { unfold update, deref. destruct (addr_of x =? 0); [injection Hre as <-; by destruct r|].
    destruct (nodes r !! addr_of x); [|done]. cbn [mbind option_bind] in *. by injection Hre as <-. }
  assert (forall i, i ∈ ctx_addrs c -> h1 !! i = nodes r !! i) as Hctx1.
  { intros i Hi. apply Hout1. intros Hix. by apply (Hdis i Hix). }
  destruct (store_hole (Ravl h1 (root r)) a (addr_of x) c) as (r2 & Hst & Hroot & Hc2 & Hout2 & Hdom2).
  { cbn [root]. rewrite (foc_root _ _ _ H). by rewrite addr_nodeT. }
  { cbn [nodes]. eapply rep_ctx_frame; [exact Hctx1|].
    pose proof (foc_ctx _ _ _ H) as Hc. rewrite addr_nodeT in Hc. exact Hc. }
  { done. }
  exists r2. split; [done|]. split; [|split; [exact Hst|]].
  - pose proof (foc_node_ref _ _ _ H ltac:(by destruct b)) as Hnr. rewrite addr_nodeT in Hnr. rewrite <- Hnr.
    unfold ravl_node_ref, ravl_node_slot_type, deref. cbn [nodes]. rewrite Hout1 by done.
    unfold deref in Ha. rewrite Ha. cbn [mbind option_bind]. rewrite parent_mkn.
    destruct c as [|b' a' k' v' s' c']; [done|]. cbn [ctx_addr].
    rewrite (Hctx1 a') by left. done.
  - cbn [nodes] in *. unfold Free_node. constructor; cbn [nodes root].
    + done.
    + eapply rep_frame; [|exact Hx1]. intros i Hi. rewrite lookup_delete_ne by (intros ->; done).
      apply Hout2. intros Hic. by apply (Hdis i Hi).
    + eapply rep_ctx_frame; [|exact Hc2]. intros i Hi. apply lookup_delete_ne. intros ->. done.
    + done.
    + intros i. pose proof (foc_dom _ _ _ H i) as Hd. rewrite addrs_nodeT in Hd. cbn [addrs app] in Hd.
      rewrite app_nil_r in Hd. rewrite <- Hdom1, <- Hdom2, elem_of_cons in Hd.
      destruct (decide (i = a)) as [->|Hi].
      * rewrite lookup_delete_eq. rewrite elem_of_app. split; [intros [? ?]; done|tauto].
      * rewrite lookup_delete_ne by done. tauto.
Qed.

Lemma remove_one r c b a k v x fuel :
  foc r c (nodeT b a k v x Leaf) -> rank_ok (plug c (nodeT b a k v x Leaf)) ->
  exists r', ravl_remove (S fuel) a r = Some r' /\ wf r' (plug c x) /\ rank_ok (plug c x).
Proof.
  intros H Hok. destruct (unlink_spec _ _ _ _ _ _ _ H) as (r1 & r2 & H1 & H2 & H3 & H4).
  exists (Free_node a r2). split; [|split].
  - destruct (foc_node _ _ _ _ _ _ _ _ H) as (Ha0 & Ha & Hx & _). cbn [ravl_remove]. rewrite Ha.
    cbn [mbind option_bind addr_of]. rewrite parent_mkn.
    assert (negb (slot_left (mkn b (ctx_addr c) (addr_of x) 0 k v) =? 0) &&
            negb (slot_right (mkn b (ctx_addr c) (addr_of x) 0 k v) =? 0) = false) as ->
      by (destruct b; cbn; [done|by rewrite andb_false_r]).
    assert ((if slot_left (mkn b (ctx_addr c) (addr_of x) 0 k v) =? 0
             then slot_right (mkn b (ctx_addr c) (addr_of x) 0 k v)
             else slot_left (mkn b (ctx_addr c) (addr_of x) 0 k v)) = addr_of x) as ->.
    { destruct b; cbn; [done|]. destruct (Z.eqb_spec (addr_of x) 0); congruence. }
    rewrite H1. cbn [mbind option_bind]. rewrite H2. cbn [mbind option_bind]. rewrite H3. done.
  - exact (proj1 (foc_plug _ _ _) H4).
  - apply rank_ok_plug in Hok as [Ho Hc]. apply rank_ok_nodeT in Ho as (Hk & _ & Hxo & _).
    rewrite rank_nodeT in Hc. apply rank_ok_plug. split; [done|]. eapply ctx_ok_mono; [|exact Hc]. lia.
Qed.

Lemma foc_set_data r c b a k v x y d :
  foc r c (nodeT b a k v x y) ->
  exists r', update a (with_data d) r = Some r' /\ foc r' c (nodeT b a k (v.1, d) x y).
Proof.
  intros H. destruct (foc_node _ _ _ _ _ _ _ _ H) as (Hn & Ha & Hx & Hy).
  rewrite (update_deref _ _ _ _ Ha), with_data_mkn. eexists. split; [done|].
  by eapply foc_relabel.
Qed.

Lemma dig_height b t c : ((ctx_len (dig b t c).1) <= ctx_len c + height t)%nat.
Proof.
  revert c. induction t as [|a k v l IHl r IHr]; intros c; cbn [dig height]; [simpl; lia|].
  destruct b.
  - destruct r; [simpl; lia|]. specialize (IHr (Step true a k v l c)). cbn [ctx_len] in IHr. lia.
  - destruct l; [simpl; lia|]. specialize (IHl (Step false a k v r c)). cbn [ctx_len] in IHl. lia.
Qed.

#[local] Instance is_leaf_dec t : Decision (t = Leaf).
Proof. destruct t; [by left|by right]. Defined.

(** The content without the node at the focus; the entries in front of it stay
    where they are. *)
Lemma remove_spec r c a k v l rr fuel :
  foc r c (Node a k v l rr) -> rank_ok (plug c (Node a k v l rr)) ->
  (length (addrs (plug c (Node a k v l rr))) < fuel)%nat ->
  exists r' t', ravl_remove (S fuel) a r = Some r' /\ wf r' t' /\ rank_ok t' /\
    inorder t' = ctx_before c ++ inorder l ++ inorder rr ++ ctx_after c /\
    exists er, ents t' = ents_before c ++ ents l ++ er.
Proof.
  intros H Hok Hf.
  destruct (decide (l = Leaf)) as [->|Hl]; [|destruct (decide (rr = Leaf)) as [->|Hr]].
  - destruct (remove_one r c true a k v rr fuel H Hok) as (r' & H1 & H2 & H3).
    exists r', (plug c rr). split; [done|]. split; [done|]. split; [done|]. rewrite inorder_plug, ents_plug. eauto.
  - destruct (remove_one r c false a k v l fuel H Hok) as (r' & H1 & H2 & H3).
    exists r', (plug c l). split; [done|]. split; [done|]. split; [done|]. rewrite inorder_plug, ents_plug. eauto.
  - pose proof (height_addrs rr) as Hhr. pose proof (ctx_len_le c) as Hcl.
    rewrite plug_addrs, length_app in Hf. cbn [addrs] in Hf. rewrite length_cons, length_app in Hf.
    destruct (foc_node r c true a k v rr l H) as (Ha0 & Ha & Hrr & Hll). cbn [ravl_remove]. rewrite Ha.
    cbn [mbind option_bind mkn slot_left slot_right].
    destruct (Z.eqb_spec (addr_of l) 0) as [E|_]; [by apply (rep_leaf _ _ _ Hll) in E|].
    destruct (Z.eqb_spec (addr_of rr) 0) as [E|E0]; [by apply (rep_leaf _ _ _ Hrr) in E|]. cbn [negb andb].
    (* the successor is the bottom of the right subtree *)
    assert (foc r (Step true a k v l c) rr) as Hfr by (by apply foc_up).
    pose proof (dig_spec false (height rr) rr _ r fuel ltac:(lia) Hfr Hr ltac:(lia)) as Hd.
    pose proof (dig_snd false rr (Step true a k v l c)) as Hsnd.
    destruct (dig false rr (Step true a k v l c)) as [cs ts].
    destruct Hd as (Hs & _ & Hmost & (sa & sk & sv & sy & ->) & _). rewrite addr_nodeT in Hmost.
    unfold ravl_node_successor, ravl_node_cessor. rewrite Ha.
    cbn [mbind option_bind slot_of mkn slot_right ravl_slot_opposite].
    destruct (Z.eqb_spec (addr_of rr) 0); [done|]. cbn [side] in Hmost. rewrite Hmost. cbn [mbind option_bind].
    destruct (foc_node _ _ _ _ _ _ _ _ Hs) as (_ & Hsd & _). rewrite Hsd. cbn [mbind option_bind].
    rewrite data_mkn. destruct (foc_set_data r c true a k v rr l sv.2 H) as (r1 & -> & H1).
    cbn [mbind option_bind].
    (* the same path in the updated heap *)
    assert (foc r1 (Step true a k (v.1, sv.2) l c) rr) as Hfr1 by (by apply foc_up).
    pose proof (dig_spec false (height rr) rr _ r1 fuel ltac:(lia) Hfr1 Hr ltac:(lia)) as Hd1.
    specialize (Hsnd (Step true a k (v.1, sv.2) l c)).
    destruct (dig false rr (Step true a k (v.1, sv.2) l c)) as [cs1 ts1]. cbn [snd] in Hsnd. subst ts1.
    destruct Hd1 as (Hs1 & Hp1 & _ & _ & Hb1 & He1).
    assert (rank_ok (plug cs1 (nodeT false sa sk sv Leaf sy))) as Hok1.
    { rewrite Hp1. cbn [plug]. apply rank_ok_plug in Hok as [Hok Hc]. apply rank_ok_plug.
      rewrite rank_nodeT, rank_ok_nodeT. cbn [rank_ok rank_of] in Hok, Hc. tauto. }
    rewrite nodeT_swap in Hs1, Hok1. cbn [negb] in Hs1, Hok1.
    destruct fuel as [|fuel]; [lia|].
    destruct (remove_one r1 cs1 true sa sk sv sy fuel Hs1 Hok1) as (r' & H2 & H3 & H4).
    exists r', (plug cs1 sy). split; [exact H2|]. split; [done|]. split; [done|].
    split; [|exists ((a, sv.2) :: ents sy ++ ents_after cs1); rewrite ents_plug, He1; cbn [ents_before snd]; by app_norm].
    rewrite inorder_plug, Hb1. cbn [ctx_before].
    apply (f_equal inorder) in Hp1. cbn [plug] in Hp1. rewrite !inorder_plug, Hb1 in Hp1.
    cbn [nodeT inorder ctx_before app] in Hp1. rewrite <- !app_assoc in Hp1. cbn [app] in Hp1.
    rewrite <- !app_assoc. cbn [app]. apply app_inv_head in Hp1. f_equal.
    apply app_inv_head in Hp1. injection Hp1 as Hp1. rewrite <- Hp1. done.
Qed.

(** ** Clearing *)

Lemma clear_spec t : forall r par acc fuel,
  rep (nodes r) par t -> NoDup (addrs t) -> (height t < fuel)%nat ->
  exists r', ravl_clear_node fuel (addr_of t) acc r = Some (acc ++ inorder t, r') /\ root r' = root r /\
    (forall a, nodes r' !! a = if decide (a ∈ addrs t) then None else nodes r !! a).
Proof.
  induction t as [|a k v l IHl rr IHr]; intros r par acc fuel H Hnd Hf;
    (destruct fuel as [|fuel]; [lia|]); cbn [ravl_clear_node].
  - exists r. cbn. rewrite app_nil_r. split; [done|]. split; [done|]. intros a.
    destruct (decide (a ∈ [])) as [Hin|]; [by inversion Hin|done].
  - destruct H as (Ha0 & Ha & Hl & Hr). cbn [addr_of height addrs] in *.
    apply NoDup_cons in Hnd as [Hna Hnd]. rewrite not_elem_of_app in Hna. destruct Hna as [Hnl Hnr].
    apply NoDup_app in Hnd as (Hndl & Hdis & Hndr).
    destruct (Z.eqb_spec a 0); [done|]. unfold deref. rewrite Ha. cbn [mbind option_bind mkn slot_left slot_right data].
    destruct (IHl r a acc fuel Hl Hndl ltac:(lia)) as (r1 & -> & Hroot1 & Hn1). cbn [mbind option_bind].
    destruct (IHr r1 a (acc ++ inorder l ++ [v.2]) fuel) as (r2 & H2 & Hroot2 & Hn2).
    + eapply rep_frame; [|exact Hr]. intros i Hi. rewrite Hn1. destruct (decide (i ∈ addrs l)); [|done].
      exfalso. by apply (Hdis i).
    + done.
    + lia.
    + rewrite <- app_assoc, H2. cbn [mbind option_bind]. eexists. split; [|split].
      * cbn [inorder]. by rewrite <- !app_assoc.
      * cbn [Free_node root]. congruence.
      * intros i. cbn [Free_node nodes]. destruct (decide (i = a)) as [->|Hi].
        -- rewrite lookup_delete_eq. destruct (decide (a ∈ a :: addrs l ++ addrs rr)) as [|Hni]; [done|].
           exfalso. apply Hni. left.
        -- rewrite lookup_delete_ne, Hn2, Hn1 by done.
           destruct (decide (i ∈ addrs rr)), (decide (i ∈ addrs l)),
             (decide (i ∈ a :: addrs l ++ addrs rr)) as [Hin|Hin]; try done;
             rewrite elem_of_cons, elem_of_app in Hin; tauto.
Qed.
End Ops.
