(* ===== verification/RavlSpec.v ===== *)
(** * What a ravl promises: a sorted set

    [ravl_ok r l]: the heap of [r] is a well-formed tree that obeys the rank
    rule and whose content, in order, is the strictly increasing list [l].  The
    theorems state each operation on [l]; nothing of the tree remains in them.  At
    the end, the same content with the addresses of the nodes. *)
From stdpp Require Import base numbers list gmap sorting.
From Stdlib Require Import ZArith Lia Bool.
From S2P Require Import Prelude Ravl RavlFacts RavlOps.

Section Spec.
Context {D : Type} (compare : D -> D -> Z) `{!RavlOrder compare}.
Implicit Types (r : ravl D) (l : list D) (t : @tree D) (c : @ctx D).

Definition ravl_ok r l : Prop :=
  exists t, wf r t /\ rank_ok t /\ sorted compare l /\ inorder t = l.

(** The abstract operations. *)
Fixpoint set_insert (d : D) l : list D :=
  match l with
  | [] => [d]
  | e :: l' => if compare d e <? 0 then d :: l else e :: set_insert d l'
  end.

Definition set_match (flags : Z) (d e : D) : bool := matches compare flags d (0, e).

(** The answer to a search: the greatest match for the LESS predicates, the
    least one otherwise. *)
Definition set_find (flags : Z) (d : D) l : option D :=
  let m := List.filter (set_match flags d) l in
  if has_pred flags RAVL_PREDICATE_LESS then last m else head m.

(** ** From trees to lists *)

Lemma wf_size r t : wf r t -> length (addrs t) = size (nodes r).
Proof.
  intros H. rewrite <- size_dom. pose proof (foc_nodup _ _ _ H) as Hnd.
  cbn [ctx_addrs] in Hnd. rewrite app_nil_r in Hnd.
  rewrite <- (size_list_to_set (C := gset Z) (addrs t)) by done. f_equal. apply set_eq. intros a.
  rewrite elem_of_list_to_set, elem_of_dom, (foc_dom _ _ _ H). cbn [ctx_addrs]. by rewrite app_nil_r.
Qed.

Lemma insert_between l1 l2 d :
  sorted compare (l1 ++ d :: l2) -> set_insert d (l1 ++ l2) = l1 ++ d :: l2.
Proof.
  induction l1 as [|x l1 IH]; intros Hs; cbn [app].
  - apply StronglySorted_cons in Hs as [Ha _]. destruct l2 as [|y l2]; [done|]. cbn [set_insert].
    apply Forall_cons in Ha as [Hy _]. unfold lt in Hy. destruct (Z.ltb_spec (compare d y) 0); [done|lia].
  - apply StronglySorted_cons in Hs as [Ha Hs]. cbn [set_insert].
    rewrite Forall_app, Forall_cons in Ha. destruct Ha as (_ & Hxd & _). unfold lt in Hxd.
    apply (cmp_flip compare) in Hxd. destruct (Z.ltb_spec (compare d x) 0); [lia|]. by rewrite IH.
Qed.

(** Every entry of the tree is a node of the heap with that data. *)
Lemma ents_deref r c t a e :
  foc r c t -> (a, e) ∈ ents t -> a <> 0 /\ exists nd, deref r a = Some nd /\ data nd = e.
Proof.
  revert c. induction t as [|a' k v x IHx y IHy]; intros c H Hin; [by inversion Hin|].
  destruct (foc_node r c false a' k v x y H) as (Ha0 & Ha & _). cbn [ents] in Hin.
  apply elem_of_app in Hin as [Hin|Hin].
  - apply (IHx (Step false a' k v y c)); [by apply foc_up|done].
  - apply elem_of_cons in Hin as [[= -> ->]|Hin].
    + split; [done|]. eexists. split; [exact Ha|]. apply data_mkn.
    + apply (IHy (Step true a' k v x c)); [by apply foc_up|done].
Qed.

(** Every node of the heap can be brought into focus. *)
Lemma focus_on t c a :
  a ∈ addrs t -> exists c' k v x y, plug c t = plug c' (Node a k v x y).
Proof.
  revert c. induction t as [|a' k v x IHx y IHy]; intros c Hin; [by inversion Hin|].
  cbn [addrs] in Hin. apply elem_of_cons in Hin as [->|Hin]; [by exists c, k, v, x, y|].
  apply elem_of_app in Hin as [Hin|Hin].
  - exact (IHx (Step false a' k v y c) Hin).
  - exact (IHy (Step true a' k v x c) Hin).
Qed.

Lemma filter_ents flags d (L : list (Z * D)) :
  map snd (List.filter (matches compare flags d) L) = List.filter (set_match flags d) (map snd L).
Proof.
  induction L as [|[a e] L IH]; [done|]. cbn [List.filter map snd].
  change (set_match flags d e) with (matches compare flags d (a, e)).
  destruct (matches compare flags d (a, e)); cbn [map snd]; by rewrite IH.
Qed.

Lemma filter_sub flags d (L : list (Z * D)) x : x ∈ List.filter (matches compare flags d) L -> x ∈ L.
Proof. rewrite !list_elem_of_In. intros H. by apply List.filter_In in H as [H _]. Qed.

(** ** The operations on the set *)

Lemma emplace_ok r l d a constr fuel :
  ravl_ok r l -> a <> 0 -> nodes r !! a = None -> (size (nodes r) < fuel)%nat ->
  exists r', ravl_emplace compare fuel r a constr d =
      Some (if is_dup compare d l then -1 else 0, r') /\
    ravl_ok r' (if is_dup compare d l then l else set_insert d l).
Proof.
  intros (t & Hwf & Hok & Hs & <-) Ha0 Hfresh Hf. rewrite <- (wf_size _ _ Hwf) in Hf.
  destruct (emplace_spec compare r t d a constr fuel Hwf Hs Hok Ha0 Hfresh Hf)
    as (ret & r' & t' & Hrun & Hwf' & Hok' & Hs' & [(Hd & -> & ->)|(Hd & -> & l1 & l2 & E1 & E2)]);
    exists r'; rewrite Hd; (split; [exact Hrun|]).
  - by exists t.
  - exists t'. rewrite E1. rewrite E2 in Hs'. rewrite insert_between by done. by rewrite <- E2 in Hs' |- *.
Qed.

Lemma find_ok r l d flags fuel :
  ravl_ok r l -> valid_predicate flags = true -> (2 * size (nodes r) < fuel)%nat ->
  exists n, ravl_find compare fuel r d flags = Some n /\
    match set_find flags d l with
    | None => n = 0
    | Some e => n <> 0 /\ exists nd, deref r n = Some nd /\ data nd = e
    end.
Proof.
  intros (t & Hwf & Hok & Hs & <-) Hfl Hf. rewrite <- (wf_size _ _ Hwf) in Hf.
  rewrite (find_spec compare r t d flags fuel Hwf Hs Hfl Hf). eexists. split; [done|].
  unfold set_find, find_answer. rewrite <- ents_inorder, <- filter_ents.
  pose proof (filter_sub flags d (ents t)) as Hsub.
  set (m := List.filter (matches compare flags d) (ents t)) in *.
  destruct (has_pred flags RAVL_PREDICATE_LESS).
  - destruct m as [|x m'] using rev_ind; [done|]. rewrite map_app, last_addr_snoc. cbn [map].
    rewrite last_snoc. destruct x as [a e]. apply (ents_deref r Top t a e Hwf), Hsub.
    apply elem_of_app. right. left.
  - destruct m as [|[a e] m']; [done|]. cbn [map head first_addr snd].
    apply (ents_deref r Top t a e Hwf), Hsub. left.
Qed.

Lemma remove_ok r l n nd fuel :
  ravl_ok r l -> deref r n = Some nd -> (size (nodes r) < fuel)%nat ->
  exists r' l1 l2, ravl_remove (S fuel) n r = Some r' /\
    l = l1 ++ data nd :: l2 /\ ravl_ok r' (l1 ++ l2).
Proof.
  intros (t & Hwf & Hok & Hs & <-) Hn Hf. rewrite <- (wf_size _ _ Hwf) in Hf.
  assert (n ∈ addrs t) as Hin.
  { pose proof (foc_dom _ _ _ Hwf n) as Hd. cbn [ctx_addrs] in Hd. rewrite app_nil_r in Hd. apply Hd.
    by exists nd. }
  destruct (focus_on t Top n Hin) as (c & k & v & x & y & E). cbn [plug] in E. subst t.
  pose proof Hwf as H. rewrite <- foc_plug in H.
  destruct (remove_spec r c n k v x y fuel H Hok Hf) as (r' & t' & Hrun & Hwf' & Hok' & Hin' & _).
  destruct (foc_node r c false n k v x y H) as (_ & Hd & _). rewrite Hn in Hd. apply (inj Some) in Hd. subst nd.
  rewrite data_mkn. rewrite inorder_plug in *. cbn [inorder] in *.
  exists r', (ctx_before c ++ inorder x), (inorder y ++ ctx_after c). split; [exact Hrun|].
  assert (ctx_before c ++ (inorder x ++ v.2 :: inorder y) ++ ctx_after c =
          (ctx_before c ++ inorder x) ++ v.2 :: inorder y ++ ctx_after c) as Ea by (by app_norm).
  rewrite Ea in Hs. split; [exact Ea|]. exists t'. split; [done|]. split; [done|]. split; [|by rewrite Hin', <- app_assoc].
  apply sorted_app in Hs as (H1 & H2 & H3). apply StronglySorted_cons in H2 as [_ H2].
  apply sorted_app. split; [done|]. split; [done|]. eapply Forall_impl; [exact H3|].
  intros e He. by apply Forall_cons in He as [_ He].
Qed.

Lemma clear_ok r l fuel :
  ravl_ok r l -> (size (nodes r) < fuel)%nat ->
  ravl_clear fuel r = Some ravl_new /\ ravl_delete_cb fuel r = Some l.
Proof.
  intros (t & Hwf & Hok & Hs & <-) Hf. rewrite <- (wf_size _ _ Hwf) in Hf.
  pose proof (height_addrs t). pose proof (foc_nodup _ _ _ Hwf) as Hnd.
  cbn [ctx_addrs] in Hnd. rewrite app_nil_r in Hnd.
  destruct (clear_spec t r 0 [] fuel (foc_rep _ _ _ Hwf) Hnd ltac:(lia)) as (r' & Hrun & _ & Hn).
  unfold ravl_clear, ravl_delete_cb. rewrite (foc_root _ _ _ Hwf). cbn [ctx_root]. rewrite Hrun.
  cbn [mbind option_bind app]. split; [|done]. unfold ravl_new. do 2 f_equal.
  apply map_empty. intros a. rewrite Hn. destruct (decide (a ∈ addrs t)) as [|Ha]; [done|].
  destruct (nodes r !! a) as [nd|] eqn:E; [|done]. exfalso. apply Ha.
  pose proof (foc_dom _ _ _ Hwf a) as Hd. cbn [ctx_addrs] in Hd. rewrite app_nil_r in Hd. apply Hd. by exists nd.
Qed.

Lemma ravl_ok_new : ravl_ok ravl_new [].
Proof.
  exists Leaf. split; [|split; [done|split; [constructor|done]]].
  constructor; cbn; try done; [constructor|]. intros a. rewrite lookup_empty. split.
  - by intros [? ?].
  - intros H. inversion H.
Qed.

Lemma sorted_filter f l : sorted compare l -> sorted compare (List.filter f l).
Proof.
  induction l as [|x l IH]; intros Hs; [done|]. apply StronglySorted_cons in Hs as [Hx Hs].
  cbn [List.filter]. destruct (f x); [|by apply IH]. apply StronglySorted_cons. split; [|by apply IH].
  rewrite Forall_forall in *. intros y Hy. apply Hx. apply list_elem_of_In in Hy.
  apply List.filter_In in Hy as [Hy _]. by apply list_elem_of_In.
Qed.

(** LESS_EQUAL asks for the elements not above the query and answers with the
    greatest one. *)
Lemma find_le_spec d l :
  sorted compare l ->
  match set_find RAVL_PREDICATE_LESS_EQUAL d l with
  | None => Forall (fun e => compare d e < 0) l
  | Some x => x ∈ l /\ 0 <= compare d x /\ Forall (fun e => 0 <= compare d e -> compare e x <= 0) l
  end.
Proof.
  intros Hs. unfold set_find.
  change (has_pred RAVL_PREDICATE_LESS_EQUAL RAVL_PREDICATE_LESS) with true. cbv iota.
  pose proof (sorted_filter (set_match RAVL_PREDICATE_LESS_EQUAL d) l Hs) as Hsf.
  assert (forall e, e ∈ List.filter (set_match RAVL_PREDICATE_LESS_EQUAL d) l <-> e ∈ l /\ 0 <= compare d e) as Hin.
  { intros e. rewrite !list_elem_of_In, List.filter_In. unfold set_match, matches. cbn [snd].
    change (has_pred RAVL_PREDICATE_LESS_EQUAL RAVL_PREDICATE_EQUAL) with true.
    change (has_pred RAVL_PREDICATE_LESS_EQUAL RAVL_PREDICATE_GREATER) with false.
    change (has_pred RAVL_PREDICATE_LESS_EQUAL RAVL_PREDICATE_LESS) with true. cbn [andb orb].
    rewrite orb_false_r, orb_true_iff, Z.eqb_eq, Z.ltb_lt. intuition lia. }
  destruct (List.filter _ l) as [|x m _] using rev_ind; [|rewrite last_snoc].
  - apply Forall_forall. intros e He. destruct (Z.lt_ge_cases (compare d e) 0); [done|].
    assert (e ∈ []) as Hbad by (apply Hin; split; [done|lia]). inversion Hbad.
  - destruct (proj1 (Hin x)) as [H1 H2]; [apply elem_of_app; right; left|]. split; [done|]. split; [done|].
    apply Forall_forall. intros e He Hle. assert (e ∈ m ++ [x]) as Hm by (by apply Hin).
    apply elem_of_app in Hm as [Hm|Hm].
    + apply sorted_app in Hsf as (_ & _ & H3). rewrite Forall_forall in H3. specialize (H3 e Hm).
      apply Forall_inv in H3. unfold lt in H3. lia.
    + apply list_elem_of_singleton in Hm as ->. pose proof (cmp_sym x x). lia.
Qed.

(** ** Theorems *)

(** C28. Insertion.  ravl_emplace on a sorted set either reports a duplicate
    (returns -1 and leaves the set alone) or inserts the datum at its place;
    the result is again a well-formed, sorted tree that obeys the rank rule, and
    the function terminates and follows only valid pointers. *)
Theorem ravl_emplace_correct r l d a constr fuel :
  ravl_ok r l -> a <> 0 -> nodes r !! a = None -> (size (nodes r) < fuel)%nat ->
  exists r', ravl_emplace compare fuel r a constr d =
      Some (if is_dup compare d l then -1 else 0, r') /\
    ravl_ok r' (if is_dup compare d l then l else set_insert d l).
Proof. apply emplace_ok. Qed.

(** C30. Search.  ravl_find returns NULL exactly when no element satisfies the
    predicate, and otherwise a node that holds the closest element: the least
    match for EQUAL, GREATER and GREATER_EQUAL, the greatest one for LESS and
    LESS_EQUAL. *)
Theorem ravl_find_correct r l d flags fuel :
  ravl_ok r l -> valid_predicate flags = true -> (2 * size (nodes r) < fuel)%nat ->
  exists n, ravl_find compare fuel r d flags = Some n /\
    match set_find flags d l with
    | None => n = 0
    | Some e => n <> 0 /\ exists nd, deref r n = Some nd /\ data nd = e
    end.
Proof. apply find_ok. Qed.

(** C29. Removal.  Removing a node of the tree deletes exactly its datum from the
    set and keeps the order and the rank rule. *)
Theorem ravl_remove_correct r l n nd fuel :
  ravl_ok r l -> deref r n = Some nd -> (size (nodes r) < fuel)%nat ->
  exists r' l1 l2, ravl_remove (S fuel) n r = Some r' /\
    l = l1 ++ data nd :: l2 /\ ravl_ok r' (l1 ++ l2).
Proof. apply remove_ok. Qed.

(** Clearing.  ravl_clear frees every node and leaves an empty tree;
    ravl_delete_cb hands every element to the callback, once and in order. *)
Theorem ravl_clear_correct r l fuel :
  ravl_ok r l -> (size (nodes r) < fuel)%nat ->
  ravl_clear fuel r = Some ravl_new /\ ravl_delete_cb fuel r = Some l.
Proof. apply clear_ok. Qed.
End Spec.

(** ** Instances: a tree of integers *)

Definition z_compare (x y : Z) : Z := x - y.

#[global] Instance z_compare_order : RavlOrder z_compare.
Proof. split; unfold z_compare; intros; lia. Qed.

Definition ex_ravl : ravl Z :=
  Ravl {[8 := RNode 0 0 16 1 true 5; 16 := RNode 8 0 0 0 true 9]} 8.

Lemma ex_ravl_ok : ravl_ok z_compare ex_ravl [5; 9].
Proof.
  exists (Node 8 1 (true, 5) Leaf (Node 16 0 (true, 9) Leaf Leaf)). split; [|split; [|split]].
  - constructor; cbn.
    + reflexivity.
    + repeat split; done.
    + done.
    + apply (bool_decide_unpack _). vm_compute. exact I.
    + intros a. split.
      * intros [nd Hnd]. destruct (decide (a = 8)) as [->|H8]; [left|].
        destruct (decide (a = 16)) as [->|H16]; [right; left|].
        unfold ex_ravl in Hnd. cbn [nodes] in Hnd. by rewrite lookup_insert_ne, lookup_singleton_ne in Hnd.
      * intros Ha. apply elem_of_cons in Ha as [->|Ha]; [by eexists|].
        apply elem_of_cons in Ha as [->|Ha]; [by eexists|]. inversion Ha.
  - cbn. lia.
  - repeat constructor.
  - reflexivity.
Defined.

Lemma ravl_emplace_correct_witness :
  exists r', ravl_emplace z_compare 5 ex_ravl 24 ravl_node_insert_constructor 7 =
      Some (if is_dup z_compare 7 [5; 9] then -1 else 0, r') /\
    ravl_ok z_compare r' (if is_dup z_compare 7 [5; 9] then [5; 9] else set_insert z_compare 7 [5; 9]).
Proof.
  apply (ravl_emplace_correct z_compare); [exact ex_ravl_ok|discriminate|reflexivity|vm_compute; lia].
Defined.

Lemma ravl_find_correct_witness :
  exists n, ravl_find z_compare 5 ex_ravl 7 RAVL_PREDICATE_LESS_EQUAL = Some n /\
    match set_find z_compare RAVL_PREDICATE_LESS_EQUAL 7 [5; 9] with
    | None => n = 0
    | Some e => n <> 0 /\ exists nd, deref ex_ravl n = Some nd /\ data nd = e
    end.
Proof. apply (ravl_find_correct z_compare); [exact ex_ravl_ok|reflexivity|vm_compute; lia]. Defined.

Lemma ravl_remove_correct_witness :
  exists r' l1 l2, ravl_remove 4 8 ex_ravl = Some r' /\
    [5; 9] = l1 ++ data (RNode 0 0 16 1 true 5) :: l2 /\ ravl_ok z_compare r' (l1 ++ l2).
Proof. apply (ravl_remove_correct z_compare ex_ravl [5; 9] 8); [exact ex_ravl_ok|reflexivity|vm_compute; lia]. Defined.

Lemma ravl_clear_correct_witness :
  ravl_clear 3 ex_ravl = Some ravl_new /\ ravl_delete_cb 3 ex_ravl = Some [5; 9].
Proof. apply (ravl_clear_correct z_compare); [exact ex_ravl_ok|vm_compute; lia]. Defined.

(** ** A ravl as a list of nodes

    The sorted content of a ravl with the addresses of its nodes, for clients
    that keep pointers to nodes and change the data in place (ravl_data):
    searches return positions of the list, an update that keeps the order
    changes one entry, and a removal leaves the entries in front of it where
    they are. *)

Section Ents.
Context {D : Type} (compare : D -> D -> Z) `{!RavlOrder compare}.
Implicit Types (r : ravl D) (E : list (Z * D)) (t : @tree D) (c : @ctx D).

Definition ravl_ents r E : Prop :=
  exists t, wf r t /\ rank_ok t /\ sorted compare (map snd E) /\ ents t = E.

Lemma ents_ok r E : ravl_ents r E -> ravl_ok compare r (map snd E).
Proof. intros (t & H1 & H2 & H3 & <-). exists t. by rewrite <- ents_inorder. Qed.

Lemma ok_ents r l : ravl_ok compare r l -> exists E, map snd E = l /\ ravl_ents r E.
Proof. intros (t & H1 & H2 & H3 & <-). exists (ents t). rewrite ents_inorder. split; [done|]. exists t. by rewrite ents_inorder. Qed.

Lemma ents_addrs t : map fst (ents t) ≡ₚ addrs t.
Proof.
  induction t as [|a k v x IHx y IHy]; [done|]. cbn [ents addrs]. rewrite map_app. cbn [map fst].
  by rewrite IHx, IHy, Permutation_middle.
Qed.

Lemma ents_size r E : ravl_ents r E -> size (nodes r) = length E.
Proof. intros (t & H1 & _ & _ & <-). by rewrite <- (wf_size _ _ H1), <- (Permutation_length (ents_addrs t)), length_map. Qed.

Lemma ents_nodup r E : ravl_ents r E -> NoDup (map fst E).
Proof.
  intros (t & H1 & _ & _ & <-). rewrite ents_addrs. pose proof (foc_nodup _ _ _ H1) as H.
  cbn [ctx_addrs] in H. by rewrite app_nil_r in H.
Qed.

Lemma ents_sorted r E : ravl_ents r E -> sorted compare (map snd E).
Proof. by intros (t & _ & _ & H & _). Qed.

Lemma ents_at r E n d : ravl_ents r E -> (n, d) ∈ E -> n <> 0 /\ exists nd, deref r n = Some nd /\ data nd = d.
Proof. intros (t & H1 & _ & _ & <-). by apply (ents_deref r Top t). Qed.

(** The node of an entry in focus. *)
Lemma ents_focus r E1 n d E2 : ravl_ents r (E1 ++ (n, d) :: E2) ->
  exists c k v x y, foc r c (Node n k v x y) /\ rank_ok (plug c (Node n k v x y)) /\ v.2 = d /\
    E1 = ents_before c ++ ents x /\ E2 = ents y ++ ents_after c.
Proof.
  intros H. pose proof (ents_nodup _ _ H) as Hnd. destruct H as (t & H1 & H2 & _ & E).
  destruct (focus_on t Top n) as (c & k & v & x & y & Et).
  { rewrite <- ents_addrs, E, map_app. apply elem_of_app. right. left. }
  cbn [plug] in Et. subst t. exists c, k, v, x, y. split; [by apply foc_plug|]. split; [done|].
  rewrite ents_plug in E. cbn [ents] in E. rewrite <- E in Hnd.
  assert ((ents_before c ++ ents x) ++ (n, v.2) :: ents y ++ ents_after c = E1 ++ (n, d) :: E2) as E' by (rewrite <- E; by app_norm).
  assert (NoDup (map fst ((ents_before c ++ ents x) ++ (n, v.2) :: ents y ++ ents_after c))) as Hnd' by (by rewrite E', <- E).
  clear E Hnd H1 H2. revert E1 E'. induction (ents_before c ++ ents x) as [|e l IH]; intros E1 E'.
  - destruct E1 as [|e E1]; [by injection E' as -> ->|]. injection E' as <- E'. cbn [app map fst] in Hnd'.
    apply NoDup_cons in Hnd' as [Hn _]. destruct Hn. rewrite E', map_app. apply elem_of_app. right. left.
  - destruct E1 as [|e' E1].
    + injection E' as -> E'. cbn [app map fst] in Hnd'. apply NoDup_cons in Hnd' as [Hn _]. destruct Hn.
      rewrite map_app. apply elem_of_app. right. left.
    + injection E' as -> E'. apply NoDup_cons in Hnd' as [_ Hnd']. destruct (IH Hnd' E1 E') as (-> & -> & ->). done.
Qed.

Lemma ents_find r E d flags fuel : ravl_ents r E -> valid_predicate flags = true -> (2 * length E < fuel)%nat ->
  ravl_find compare fuel r d flags = Some (find_answer compare flags d E).
Proof.
  intros H Hv Hf. rewrite <- (ents_size _ _ H) in Hf. destruct H as (t & H1 & _ & H3 & <-).
  rewrite ents_inorder in H3. apply find_spec; try done. by rewrite (wf_size _ _ H1).
Qed.

Lemma ents_set r E1 n d d' E2 : ravl_ents r (E1 ++ (n, d) :: E2) -> sorted compare (map snd (E1 ++ (n, d') :: E2)) ->
  exists r', update n (with_data d') r = Some r' /\ ravl_ents r' (E1 ++ (n, d') :: E2).
Proof.
  intros H Hs. destruct (ents_focus _ _ _ _ _ H) as (c & k & v & x & y & Hf & Hr & _ & -> & ->).
  destruct (foc_set_data r c false n k v x y d' Hf) as (r' & E & H'). exists r'. split; [done|].
  exists (plug c (Node n k (v.1, d') x y)). split; [by apply foc_plug in H'|]. split.
  - apply rank_ok_plug in Hr as [Hr Hc]. by apply rank_ok_plug.
  - split; [done|]. rewrite ents_plug. cbn [ents snd]. by app_norm.
Qed.

Lemma ents_remove r E1 n d E2 fuel : ravl_ents r (E1 ++ (n, d) :: E2) -> (length (E1 ++ (n, d) :: E2) < fuel)%nat ->
  exists r' E2', ravl_remove (S fuel) n r = Some r' /\ ravl_ents r' (E1 ++ E2') /\ map snd E2' = map snd E2.
Proof.
  intros H Hfu. pose proof (ents_size _ _ H) as Hsz. pose proof (ents_sorted _ _ H) as Hs.
  destruct (ents_focus _ _ _ _ _ H) as (c & k & v & x & y & Hf & Hr & _ & -> & ->).
  destruct (remove_spec r c n k v x y fuel Hf Hr) as (r' & t' & E & Hwf & Hr' & Hin & er & Her).
  { pose proof Hf as Hf'. apply foc_plug in Hf'. rewrite (wf_size _ _ Hf'). lia. }
  exists r', er. split; [done|].
  assert (map snd er = map snd (ents y ++ ents_after c)) as Em.
  { rewrite <- ents_inorder, Her, !map_app, before_inorder, !ents_inorder in Hin. rewrite map_app, ents_inorder, after_inorder.
    apply app_inv_head in Hin. by apply app_inv_head in Hin. }
  split; [|done]. exists t'. split; [done|]. split; [done|]. split; [|by rewrite Her, <- app_assoc].
  rewrite map_app in Hs |- *. rewrite Em. cbn [map snd] in Hs. apply sorted_app in Hs as (S1 & S2 & S3).
  apply StronglySorted_cons in S2 as [_ S2]. apply sorted_app. split; [done|]. split; [done|].
  eapply Forall_impl; [exact S3|]. intros e He. by apply Forall_cons in He as [_ He].
Qed.
End Ents.
