(* ===== verification/Vecq.v ===== *)
(** * The ring-buffer queue (common/vecq.h)

    VECQ is a growing ring buffer: [front] and [back] are free-running 64-bit
    counters, positions are taken modulo the capacity, a power of two.  The
    buffer is a list of the capacity's length; memory that Realloc returns
    uninitialised holds an arbitrary inhabitant of the element type. *)
From stdpp Require Import base numbers list list_numbers.
From Stdlib Require Import ZArith Lia Bool.
From S2P Require Import Prelude.

Definition VECQ_INIT_SIZE : Z := 64.

Record vecq (A : Type) := VecQ { vbuffer : list A; vcapacity : Z; vfront : Z; vback : Z }.
Arguments VecQ {A}.
Arguments vbuffer {A}.
Arguments vcapacity {A}.
Arguments vfront {A}.
Arguments vback {A}.

Section Vecq.
Context {A : Type} `{!Inhabited A}.
Implicit Types (v : vecq A) (x : A).

Definition VECQ_INIT : vecq A := VecQ [] 0 0 0.
Definition VECQ_REINIT v : vecq A := VecQ (vbuffer v) (vcapacity v) 0 0.
Definition VECQ_CLEAR v : vecq A := VecQ (vbuffer v) (vcapacity v) 0 0.
Definition VECQ_DELETE v : vecq A := VecQ [] 0 0 0.

(** The position of a counter. *)
Definition vecq_pos v (i : Z) : Z := Z.land i (u64 (vcapacity v - 1)).
Definition VECQ_FRONT_POS v : Z := vecq_pos v (vfront v).
Definition VECQ_BACK_POS v : Z := vecq_pos v (vback v).
Definition vecq_get v (i : Z) : A := vbuffer v !!! Z.to_nat (vecq_pos v i).
Definition VECQ_FRONT v : A := vecq_get v (vfront v).
Definition VECQ_SIZE v : Z := u64 (vback v - vfront v).
Definition VECQ_CAPACITY v : Z := vcapacity v.

Definition VECQ_DEQUEUE v : A * vecq A :=
  (vecq_get v (vfront v), VecQ (vbuffer v) (vcapacity v) (u64 (vfront v + 1)) (vback v)).

Definition VECQ_NCAPACITY v : Z :=
  if vcapacity v =? 0 then VECQ_INIT_SIZE else u64 (vcapacity v * 2).

(** realloc_set to the new capacity ([None]: Realloc failed), then the memcpy of
    the wrapped part behind the old buffer. *)
Definition realloc_set (ok : bool) v : option (list A) :=
  if ok then Some (vbuffer v ++ replicate (Z.to_nat (VECQ_NCAPACITY v - vcapacity v)) inhabitant)
  else None.
Definition VECQ_GROW (ok : bool) v : Z * vecq A :=
  match realloc_set ok v with
  | None => (-1, v)
  | Some buf =>
      let fp := VECQ_FRONT_POS v in
      let cap := Z.to_nat (vcapacity v) in
      let buf := take cap buf ++ take (Z.to_nat fp) buf ++ drop (cap + Z.to_nat fp) buf in
      (0, VecQ buf (VECQ_NCAPACITY v) fp (u64 (fp + vcapacity v)))
  end.

Definition VECQ_INSERT v x : Z * vecq A :=
  (0, VecQ (<[Z.to_nat (VECQ_BACK_POS v) := x]> (vbuffer v)) (vcapacity v) (vfront v) (u64 (vback v + 1))).

Definition VECQ_ENQUEUE (ok : bool) v x : Z * vecq A :=
  if vcapacity v =? VECQ_SIZE v then
    let '(ret, v) := VECQ_GROW ok v in
    if ret =? 0 then VECQ_INSERT v x else (-1, v)
  else VECQ_INSERT v x.

(** The elements the two loops visit, in order: both index the buffer from 0. *)
Definition VECQ_FOREACH v : list A :=
  map (fun i => vecq_get v (Z.of_nat i)) (seq 0 (Z.to_nat (VECQ_SIZE v))).
Definition VECQ_FOREACH_REVERSE v : list A :=
  map (fun i => vecq_get v (Z.of_nat i - 1)) (rev (seq 1 (Z.to_nat (VECQ_SIZE v)))).

(** ** The queue it implements *)

Definition vecq_list v : list A :=
  map (fun i => vbuffer v !!! Z.to_nat ((vfront v + Z.of_nat i) mod vcapacity v))
    (seq 0 (Z.to_nat (VECQ_SIZE v))).

Definition vecq_ok v : Prop :=
  (v = VECQ_INIT) \/
  (exists k, 6 <= k <= 62 /\ vcapacity v = 2 ^ k /\ Z.of_nat (length (vbuffer v)) = 2 ^ k /\
    0 <= vfront v < 2 ^ 64 /\ 0 <= vback v < 2 ^ 64 /\ VECQ_SIZE v <= 2 ^ k).

Lemma pow_bounds k : 6 <= k <= 62 -> 64 <= 2 ^ k <= 2 ^ 62.
Proof. intros H. split; [change 64 with (2 ^ 6)|]; apply Z.pow_le_mono_r; lia. Qed.

Lemma pos_mod v k i : 6 <= k <= 62 -> vcapacity v = 2 ^ k -> vecq_pos v i = i mod 2 ^ k.
Proof.
  intros Hk Hc. pose proof (pow_bounds k Hk). unfold vecq_pos. rewrite Hc, u64_small by lia.
  replace (2 ^ k - 1) with (Z.ones k) by (rewrite Z.ones_equiv; lia). apply Z.land_ones. lia.
Qed.

(** Counters only matter modulo the capacity. *)
Lemma u64_mod_pow (k x : Z) : 6 <= k <= 62 -> u64 x mod 2 ^ k = x mod 2 ^ k.
Proof.
  intros Hk. unfold u64. replace (2 ^ 64) with (2 ^ k * 2 ^ (64 - k)) by (rewrite <- Z.pow_add_r by lia; f_equal; lia).
  rewrite Z.rem_mul_r by lia. rewrite Z.mul_comm, Z.mod_add, Z.mod_mod by lia. done.
Qed.

Lemma mod_shift_inj n f i j : 0 <= i < n -> 0 <= j < n -> (f + i) mod n = (f + j) mod n -> i = j.
Proof.
  intros Hi Hj E. pose proof (Z.div_mod (f + i) n ltac:(lia)). pose proof (Z.div_mod (f + j) n ltac:(lia)).
  assert (i - j = n * ((f + i) / n - (f + j) / n)) by lia.
  destruct (Z.lt_trichotomy ((f + i) / n - (f + j) / n) 0) as [|[|]]; nia.
Qed.

(** The counter behind the last element. *)
Lemma back_mod v k : 6 <= k <= 62 -> vback v mod 2 ^ k = (vfront v + VECQ_SIZE v) mod 2 ^ k.
Proof.
  intros Hk. unfold VECQ_SIZE. rewrite <- (Z.add_mod_idemp_r (vfront v)) by lia.
  rewrite u64_mod_pow, Z.add_mod_idemp_r by lia. f_equal. lia.
Qed.

Lemma insert_list v k x :
  6 <= k <= 62 -> vcapacity v = 2 ^ k -> Z.of_nat (length (vbuffer v)) = 2 ^ k ->
  0 <= vfront v < 2 ^ 64 -> 0 <= vback v < 2 ^ 64 -> VECQ_SIZE v < 2 ^ k ->
  let v' := (VECQ_INSERT v x).2 in
  vecq_ok v' /\ vecq_list v' = vecq_list v ++ [x].
Proof.
  intros Hk Hc Hl Hf Hb Hs. pose proof (pow_bounds k Hk) as Hp.
  assert (0 <= VECQ_SIZE v) as Hs0 by apply u64_range.
  assert (VECQ_SIZE (VECQ_INSERT v x).2 = VECQ_SIZE v + 1) as Hs'.
  { unfold VECQ_SIZE, VECQ_INSERT in *. cbn [snd vback vfront]. unfold u64 in *.
    rewrite Zminus_mod_idemp_l. replace (vback v + 1 - vfront v) with (vback v - vfront v + 1) by lia.
    rewrite <- Z.add_mod_idemp_l by lia. apply Z.mod_small. lia. }
  cbv zeta. split.
  - right. exists k. rewrite Hs'. cbn [VECQ_INSERT snd vcapacity vbuffer vfront vback].
    rewrite length_insert. pose proof (u64_range (vback v + 1)). repeat split; try done; lia.
  - unfold vecq_list. rewrite Hs', Z2Nat.inj_add, Nat.add_1_r, seq_S, map_app by lia. cbn [map].
    cbn [VECQ_INSERT snd vcapacity vbuffer vfront vback]. unfold VECQ_BACK_POS.
    rewrite (pos_mod v k), Hc, (back_mod v k) by done. rewrite Nat.add_0_l, Z2Nat.id by done.
    assert (forall i, 0 <= i mod 2 ^ k < 2 ^ k) as Hm by (intros; apply Z.mod_pos_bound; lia).
    f_equal.
    + apply map_ext_in. intros i Hi. apply in_seq in Hi. rewrite list_lookup_total_insert_ne; [done|].
      intros E. pose proof (Hm (vfront v + VECQ_SIZE v)). pose proof (Hm (vfront v + Z.of_nat i)).
      apply Z2Nat.inj in E; [|lia..].
      apply mod_shift_inj in E; lia.
    + f_equal. apply list_lookup_total_insert_eq. pose proof (Hm (vfront v + VECQ_SIZE v)). lia.
Qed.

(** Growing a full queue: the elements keep their order. *)
Lemma grow_list v k :
  6 <= k < 62 -> vcapacity v = 2 ^ k -> Z.of_nat (length (vbuffer v)) = 2 ^ k ->
  0 <= vfront v < 2 ^ 64 -> VECQ_SIZE v = 2 ^ k ->
  let v' := (VECQ_GROW true v).2 in
  vcapacity v' = 2 ^ (k + 1) /\ Z.of_nat (length (vbuffer v')) = 2 ^ (k + 1) /\
  0 <= vfront v' < 2 ^ 64 /\ 0 <= vback v' < 2 ^ 64 /\ VECQ_SIZE v' = 2 ^ k /\
  vecq_list v' = vecq_list v.
Proof.
  intros Hk Hc Hl Hf Hs. pose proof (pow_bounds k ltac:(lia)) as Hp.
  assert (2 ^ (k + 1) = 2 * 2 ^ k) as E2 by (rewrite Z.pow_add_r by lia; lia).
  assert (2 ^ (k + 1) <= 2 ^ 62) as Hp1 by (apply Z.pow_le_mono_r; lia).
  set (fp := vfront v mod 2 ^ k).
  assert (0 <= fp < 2 ^ k) as Hfp by (apply Z.mod_pos_bound; lia).
  assert (VECQ_NCAPACITY v = 2 ^ (k + 1)) as Hn.
  { unfold VECQ_NCAPACITY. rewrite Hc. destruct (Z.eqb_spec (2 ^ k) 0); [lia|].
    rewrite u64_small; lia. }
  assert (VECQ_FRONT_POS v = fp) as Hfpos by (apply pos_mod; [lia|done]).
  cbv zeta. unfold VECQ_GROW, realloc_set. cbn [snd]. rewrite Hn, Hfpos, Hc.
  set (buf := vbuffer v ++ _).
  assert (length buf = Z.to_nat (2 ^ (k + 1))) as Hbuf.
  { unfold buf. rewrite length_app, length_replicate. lia. }
  assert (take (Z.to_nat (2 ^ k)) buf = vbuffer v) as Ht.
  { unfold buf. rewrite take_app_length'; [done|lia]. }
  rewrite Ht. cbn [vcapacity vbuffer vfront vback]. rewrite (u64_small (fp + 2 ^ k)) by lia.
  assert (u64 (fp + 2 ^ k - fp) = 2 ^ k) as Hsz by (rewrite u64_small; lia).
  split; [done|]. split; [rewrite !length_app, length_take, length_drop; lia|].
  split; [lia|]. split; [lia|]. unfold VECQ_SIZE at 1. cbn [vback vfront].
  split; [done|]. unfold vecq_list, VECQ_SIZE at 1. cbn [vcapacity vbuffer vfront vback].
  rewrite Hsz, Hs, Hc. apply map_ext_in. intros i Hi. apply in_seq in Hi.
  rewrite (Z.mod_small (fp + Z.of_nat i)) by lia.
  assert ((vfront v + Z.of_nat i) mod 2 ^ k = if fp + Z.of_nat i <? 2 ^ k then fp + Z.of_nat i
          else fp + Z.of_nat i - 2 ^ k) as ->.
  { rewrite <- Z.add_mod_idemp_l by lia. fold fp. destruct (Z.ltb_spec (fp + Z.of_nat i) (2 ^ k)).
    - apply Z.mod_small. lia.
    - replace (fp + Z.of_nat i) with (fp + Z.of_nat i - 2 ^ k + 1 * 2 ^ k) by lia.
      rewrite Z.mod_add by lia. rewrite Z.mod_small; lia. }
  destruct (Z.ltb_spec (fp + Z.of_nat i) (2 ^ k)).
  - rewrite lookup_total_app_l by lia. done.
  - rewrite lookup_total_app_r by lia.
    rewrite lookup_total_app_l by (rewrite length_take; lia).
    rewrite <- Ht at 2. rewrite !list_lookup_total_alt.
    rewrite !lookup_take_lt by lia. f_equal. f_equal. lia.
Qed.

Lemma size_nonneg v : 0 <= VECQ_SIZE v.
Proof. apply u64_range. Qed.

Lemma enqueue_spec v x :
  vecq_ok v -> vcapacity v < 2 ^ 62 ->
  exists v', VECQ_ENQUEUE true v x = (0, v') /\ vecq_ok v' /\ vecq_list v' = vecq_list v ++ [x].
Proof.
  intros [->|(k & Hk & Hc & Hl & Hf & Hb & Hs)] Hcap.
  - eexists. split; [reflexivity|]. split; [|reflexivity].
    right. exists 6. repeat split; (reflexivity || (vm_compute; discriminate)).
  - assert (k < 62) as Hk2 by (rewrite Hc in Hcap; apply Z.pow_lt_mono_r_iff in Hcap; lia).
    unfold VECQ_ENQUEUE. rewrite Hc. destruct (Z.eqb_spec (2 ^ k) (VECQ_SIZE v)) as [E|E].
    + destruct (grow_list v k ltac:(lia) Hc Hl Hf ltac:(lia)) as (G1 & G2 & G3 & G4 & G5 & G6).
      assert ((VECQ_GROW true v).1 = 0) as G0 by done.
      destruct (VECQ_GROW true v) as [ret v1]. cbn [fst snd] in *. subst ret. cbn [Z.eqb].
      destruct (insert_list v1 (k + 1) x ltac:(lia) G1 G2 G3 G4) as [I1 I2].
      { rewrite G5. apply Z.pow_lt_mono_r; lia. }
      eexists. split; [reflexivity|]. split; [exact I1|]. rewrite <- G6. exact I2.
    + destruct (insert_list v k x ltac:(lia) Hc Hl Hf Hb ltac:(lia)) as [I1 I2].
      eexists. split; [reflexivity|]. done.
Qed.

Lemma dequeue_spec v x l :
  vecq_ok v -> vecq_list v = x :: l ->
  exists v', VECQ_DEQUEUE v = (x, v') /\ vecq_ok v' /\ vecq_list v' = l /\
    vcapacity v' = vcapacity v.
Proof.
  intros [->|(k & Hk & Hc & Hl & Hf & Hb & Hs)] Hlist; [discriminate|].
  pose proof (pow_bounds k Hk) as Hp. pose proof (size_nonneg v) as Hs0.
  assert (0 < VECQ_SIZE v) as Hpos.
  { destruct (Z.eq_dec (VECQ_SIZE v) 0) as [E|]; [|lia].
    unfold vecq_list in Hlist. rewrite E in Hlist. discriminate. }
  assert (VECQ_SIZE (VECQ_DEQUEUE v).2 = VECQ_SIZE v - 1) as Hs'.
  { unfold VECQ_SIZE, VECQ_DEQUEUE in *. cbn [snd vback vfront]. unfold u64 in *.
    rewrite Zminus_mod_idemp_r. replace (vback v - (vfront v + 1)) with (vback v - vfront v - 1) by lia.
    rewrite <- Zminus_mod_idemp_l. apply Z.mod_small. lia. }
  unfold vecq_list in Hlist. replace (Z.to_nat (VECQ_SIZE v)) with (S (Z.to_nat (VECQ_SIZE v - 1))) in Hlist by lia.
  cbn [seq map] in Hlist. injection Hlist as Hx Hl'. rewrite Hc, Z.add_0_r in Hx.
  eexists. split.
  - unfold VECQ_DEQUEUE. f_equal. rewrite <- Hx. unfold vecq_get. by rewrite (pos_mod v k).
  - split; [|split; [|done]].
    + right. exists k. cbn [VECQ_DEQUEUE snd] in Hs'. cbn [vcapacity vbuffer vfront vback].
      rewrite Hs'. pose proof (u64_range (vfront v + 1)). repeat split; try done; lia.
    + unfold vecq_list. cbn [VECQ_DEQUEUE snd] in Hs'. rewrite Hs'. rewrite <- Hl'.
      rewrite <- seq_shift, map_map. cbn [vcapacity vbuffer vfront].
      apply map_ext. intros i. rewrite Hc. f_equal. f_equal.
      rewrite <- Z.add_mod_idemp_l, u64_mod_pow, Z.add_mod_idemp_l by lia. f_equal. lia.
Qed.

(** The loops visit the queue in order as long as its front is at a multiple of
    the capacity, that is, as long as nothing was dequeued. *)
Lemma foreach_unwrapped v :
  vecq_ok v -> vfront v mod vcapacity v = 0 ->
  VECQ_FOREACH v = vecq_list v /\ VECQ_FOREACH_REVERSE v = rev (vecq_list v).
Proof.
  intros [->|(k & Hk & Hc & Hl & Hf & Hb & Hs)] Hw; [done|]. pose proof (pow_bounds k Hk) as Hp.
  assert (forall i, vecq_get v (Z.of_nat i) = vbuffer v !!! Z.to_nat ((vfront v + Z.of_nat i) mod vcapacity v)) as Hg.
  { intros i. unfold vecq_get. rewrite (pos_mod v k), Hc by done. rewrite Hc in Hw.
    rewrite <- (Z.add_mod_idemp_l (vfront v)), Hw by lia. done. }
  assert (VECQ_FOREACH v = vecq_list v) as E by (apply map_ext; exact Hg).
  split; [done|]. rewrite <- E. unfold VECQ_FOREACH_REVERSE, VECQ_FOREACH.
  rewrite <- map_rev, <- seq_shift, <- map_rev, map_map. apply map_ext. intros i.
  f_equal. lia.
Qed.
Lemma length_vecq_list v : Z.of_nat (length (vecq_list v)) = VECQ_SIZE v.
Proof. unfold vecq_list. rewrite length_map, length_seq. pose proof (size_nonneg v). lia. Qed.

Lemma vecq_clear_spec v : vecq_ok v -> vecq_ok (VECQ_CLEAR v) /\ vecq_list (VECQ_CLEAR v) = [].
Proof.
  intros [->|(k & Hk & Hc & Hl & Hf & Hb & Hs)]; (split; [|done]); [by left|].
  pose proof (pow_bounds k Hk). right. exists k.
  assert (VECQ_SIZE (VECQ_CLEAR v) = 0) as -> by done. repeat split; try done; cbn; lia.
Qed.

(** Enqueueing into a short queue, whether or not memory is available: only the
    first allocation can fail, and then the queue stays empty. *)
Lemma enqueue_short ok v x :
  vecq_ok v -> vfront v = 0 -> VECQ_SIZE v < 64 ->
  let v' := (VECQ_ENQUEUE ok v x).2 in
  vecq_ok v' /\ vfront v' = 0 /\
  (vecq_list v' = vecq_list v ++ [x] \/ v' = v /\ vecq_list v = []).
Proof.
  intros [->|(k & Hk & Hc & Hl & Hf & Hb & Hs)] Hfr Hsz v'.
  - destruct ok; subst v'.
    + destruct (enqueue_spec VECQ_INIT x (or_introl eq_refl) ltac:(cbn; lia)) as (v' & E & H1 & H2).
      rewrite E. cbn [snd]. split; [done|]. split; [|by left].
      apply (f_equal (fun p => vfront p.2)) in E. cbn [snd] in E. by rewrite <- E.
    + cbn. split; [by left|]. split; [done|]. by right.
  - pose proof (pow_bounds k Hk). subst v'. unfold VECQ_ENQUEUE. rewrite Hc.
    destruct (Z.eqb_spec (2 ^ k) (VECQ_SIZE v)); [lia|].
    destruct (insert_list v k x Hk Hc Hl Hf Hb ltac:(lia)) as [H1 H2].
    split; [done|]. split; [done|]. by left.
Qed.
End Vecq.

(** ** The queue contract *)

(** A VECQ is a FIFO queue: with memory available, enqueueing appends to the
    queue (through any number of reallocations and wrap-arounds of the ring), and
    dequeueing returns and removes the oldest element. *)
Theorem vecq_fifo {A} `{!Inhabited A} (v : vecq A) (x : A) :
  vecq_ok v -> vcapacity v < 2 ^ 62 ->
  (exists v', VECQ_ENQUEUE true v x = (0, v') /\ vecq_ok v' /\ vecq_list v' = vecq_list v ++ [x]) /\
  (forall y l, vecq_list v = y :: l ->
   exists v', VECQ_DEQUEUE v = (y, v') /\ vecq_ok v' /\ vecq_list v' = l /\ vcapacity v' = vcapacity v).
Proof. intros H Hc. split; [by apply enqueue_spec|]. intros y l Hl. by apply dequeue_spec. Qed.

Lemma vecq_fifo_witness :
  (exists v', VECQ_ENQUEUE true (VECQ_INIT (A := Z)) 5 = (0, v') /\ vecq_ok v' /\
     vecq_list v' = vecq_list (VECQ_INIT (A := Z)) ++ [5]) /\
  (forall y l, vecq_list (VECQ_INIT (A := Z)) = y :: l ->
   exists v', VECQ_DEQUEUE (VECQ_INIT (A := Z)) = (y, v') /\ vecq_ok v' /\ vecq_list v' = l /\
     vcapacity v' = vcapacity (VECQ_INIT (A := Z))).
Proof. apply (vecq_fifo VECQ_INIT 5); [by left|cbn; lia]. Defined.
