(* ===== verification/Container.v ===== *)
(** * Block containers (container.h, container_ravl.c, container_seglists.c, bucket.c)

    A bucket keeps its free memory blocks in a container chosen at run time
    through a table of function pointers.  [BlockContainer] is the contract of
    that table: what inserting, taking the best fit, testing for emptiness and
    emptying do to the content of the container.  The tree-based and the
    segregated-list container are modelled from their sources and proved to
    meet it. *)
From stdpp Require Import base numbers list list_numbers gmap sorting.
From Stdlib Require Import ZArith Lia Bool.
From S2P Require Import Prelude Pmem Ravl RavlFacts RavlOps RavlSpec Vecq.

Definition ENOMEM : Z := 12.

(** [struct memory_block]; the last four fields are pointers and tags that the
    containers only copy. *)
Record memory_block := MBlock {
  chunk_id : Z; zone_id : Z; size_idx : Z; block_off : Z;
  m_ops : Z; mb_heap : Z; header_type : Z; mb_type : Z }.

(** Its bytes; the pointers have eight, the other fields four. *)
Definition sizeof_memory_block : Z := 40.
Definition enc_memory_block (m : memory_block) : list byte :=
  enc_le 4 (chunk_id m) ++ enc_le 4 (zone_id m) ++ enc_le 4 (size_idx m) ++ enc_le 4 (block_off m) ++
  le64 (m_ops m) ++ le64 (mb_heap m) ++ enc_le 4 (header_type m) ++ enc_le 4 (mb_type m).

Lemma length_enc_memory_block m : length (enc_memory_block m) = 40%nat.
Proof. done. Qed.

#[global] Instance memory_block_inhabited : Inhabited memory_block :=
  populate (MBlock 0 0 0 0 0 0 0 0).

(** What identifies a block. *)
Definition block_key (m : memory_block) : Z * Z * Z * Z :=
  (size_idx m, zone_id m, chunk_id m, block_off m).
Definition key_size (k : Z * Z * Z * Z) : Z := k.1.1.1.

(** ** The contract *)

(** [E] is what an operation gets from its environment: the results of the
    allocator and the fuel of the loops.  [contains c l]: the container holds the
    blocks with keys [l]; [accepts c l m]: the caller may insert [m]; [descriptor
    m v x]: inserting [m] may store to the byte [x] of persistent memory. *)
Class BlockContainer (C E : Type) := {
  insert : E -> C -> memory_block -> pmst -> option (Z * C * pmst);
  get_rm_bestfit : E -> C -> memory_block -> option (Z * memory_block * C);
  is_empty : C -> Z;
  rm_all : E -> C -> option C;
  contains : C -> list (Z * Z * Z * Z) -> Prop;
  env_ok : E -> C -> Prop;
  accepts : C -> list (Z * Z * Z * Z) -> memory_block -> Prop;
  query_ok : memory_block -> Prop;
  descriptor : memory_block -> mem -> Z -> Prop;
  insert_law e c l m s :
    contains c l -> env_ok e c -> accepts c l m ->
    exists c' l' s', insert e c m s = Some (0, c', s') /\ contains c' l' /\ l' ≡ₚ block_key m :: l /\
      forall x, ~ descriptor m (vis s) x -> vis s' x = vis s x;
  bestfit_law e c l m :
    contains c l -> env_ok e c -> query_ok m ->
    (Forall (fun k => key_size k < size_idx m) l /\ get_rm_bestfit e c m = Some (ENOMEM, m, c)) \/
    (exists m' c' l', get_rm_bestfit e c m = Some (0, m', c') /\ contains c' l' /\
       l ≡ₚ block_key m' :: l' /\ size_idx m <= size_idx m' /\
       Forall (fun k => size_idx m <= key_size k -> size_idx m' <= key_size k) l);
  empty_law c l : contains c l -> is_empty c = c_bool (bool_decide (l = []));
  rm_all_law e c l : contains c l -> env_ok e c ->
    exists c', rm_all e c = Some c' /\ contains c' []
}.

(** ** The tree container *)

Definition container_compare_memblocks (l r : memory_block) : Z :=
  let diff := size_idx l - size_idx r in
  if negb (diff =? 0) then (if 0 <? diff then 1 else -1) else
  let diff := zone_id l - zone_id r in
  if negb (diff =? 0) then (if 0 <? diff then 1 else -1) else
  let diff := chunk_id l - chunk_id r in
  if negb (diff =? 0) then (if 0 <? diff then 1 else -1) else
  let diff := block_off l - block_off r in
  if negb (diff =? 0) then (if 0 <? diff then 1 else -1) else 0.

(** The container owns the tree; the tree's nodes point to the copy of the block
    descriptor that insert stores to the user data of the free block itself.
    Nobody else writes there while the block is in the container, so that the
    model's nodes hold the value of the descriptor. *)
Definition block_container_ravl := ravl memory_block.

(** The environment: fuel and the address Malloc returns for a tree node. *)
Record ravl_env := RavlEnv { re_fuel : nat; re_addr : Z }.

(** [get_user_data]: m->m_ops->get_user_data. *)
Definition container_ravl_insert_block (get_user_data : mem -> memory_block -> Z) (e : ravl_env)
    (c : block_container_ravl) (m : memory_block) (s : pmst) : option (Z * block_container_ravl * pmst) :=
  let s := st_store (get_user_data (vis s) m) (enc_memory_block m) s in
  '(ret, c) ← ravl_insert container_compare_memblocks (re_fuel e) c (re_addr e) m;
  Some (ret, c, s).

Definition container_ravl_get_rm_block_bestfit (e : ravl_env) (c : block_container_ravl)
    (m : memory_block) : option (Z * memory_block * block_container_ravl) :=
  n ← ravl_find container_compare_memblocks (re_fuel e) c m RAVL_PREDICATE_GREATER_EQUAL;
  if n =? 0 then Some (ENOMEM, m, c) else
  nd ← deref c n;
  c ← ravl_remove (re_fuel e) n c;
  Some (0, data nd, c).

Definition container_ravl_get_rm_block_exact (e : ravl_env) (c : block_container_ravl)
    (m : memory_block) : option (Z * block_container_ravl) :=
  n ← ravl_find container_compare_memblocks (re_fuel e) c m RAVL_PREDICATE_EQUAL;
  if n =? 0 then Some (ENOMEM, c) else
  c ← ravl_remove (re_fuel e) n c;
  Some (0, c).

Definition container_ravl_is_empty (c : block_container_ravl) : Z := ravl_empty c.
Definition container_ravl_rm_all (e : ravl_env) (c : block_container_ravl)
    : option block_container_ravl := ravl_clear (re_fuel e) c.
Definition container_new_ravl : block_container_ravl := ravl_new.

(** *** The order of the blocks *)

(** Lexicographic refinement of an order by one more field. *)
Definition lex {T} (f : T -> Z) (c : T -> T -> Z) (x y : T) : Z :=
  if negb (f x - f y =? 0) then (if 0 <? f x - f y then 1 else -1) else c x y.

#[global] Instance lex_order {T} (f : T -> Z) c `{!RavlOrder c} : RavlOrder (lex f c).
Proof.
  split.
  - intros x y. unfold lex.
    destruct (Z.eqb_spec (f x - f y) 0), (Z.eqb_spec (f y - f x) 0); cbn [negb]; try lia.
    + apply cmp_sym.
    + destruct (Z.ltb_spec 0 (f x - f y)), (Z.ltb_spec 0 (f y - f x)); lia.
  - intros x y z. unfold lex.
    destruct (Z.eqb_spec (f x - f y) 0), (Z.eqb_spec (f y - f z) 0), (Z.eqb_spec (f x - f z) 0);
      cbn [negb]; try lia; [apply cmp_trans|..];
      repeat match goal with |- context [0 <? ?e] => destruct (Z.ltb_spec 0 e) end; lia.
Qed.

#[global] Instance const_order {T} : RavlOrder (fun _ _ : T => 0).
Proof. split; intros; lia. Qed.

#[global] Instance memblocks_order : RavlOrder container_compare_memblocks.
Proof.
  exact (_ : RavlOrder (lex size_idx (lex zone_id (lex chunk_id (lex block_off (fun _ _ => 0)))))).
Qed.

Lemma compare_key l r : container_compare_memblocks l r = 0 <-> block_key l = block_key r.
Proof.
  unfold container_compare_memblocks, block_key. split.
  - intros H. destruct (Z.eqb_spec (size_idx l - size_idx r) 0); cbn [negb] in H;
      [|destruct (0 <? _); discriminate].
    destruct (Z.eqb_spec (zone_id l - zone_id r) 0); cbn [negb] in H; [|destruct (0 <? _); discriminate].
    destruct (Z.eqb_spec (chunk_id l - chunk_id r) 0); cbn [negb] in H; [|destruct (0 <? _); discriminate].
    destruct (Z.eqb_spec (block_off l - block_off r) 0); cbn [negb] in H; [|destruct (0 <? _); discriminate].
    assert (size_idx l = size_idx r) as -> by lia. assert (zone_id l = zone_id r) as -> by lia.
    assert (chunk_id l = chunk_id r) as -> by lia. assert (block_off l = block_off r) as -> by lia. done.
  - intros [= -> -> -> ->]. by rewrite !Z.sub_diag.
Qed.

(** The first criterion is the size. *)
Lemma compare_size_lt l r : size_idx l < size_idx r -> container_compare_memblocks l r < 0.
Proof.
  intros H. unfold container_compare_memblocks.
  destruct (Z.eqb_spec (size_idx l - size_idx r) 0); cbn [negb]; [lia|].
  destruct (Z.ltb_spec 0 (size_idx l - size_idx r)); lia.
Qed.

Lemma compare_size_le l r : container_compare_memblocks l r <= 0 -> size_idx l <= size_idx r.
Proof.
  intros H. destruct (Z.le_gt_cases (size_idx l) (size_idx r)) as [|Hgt]; [done|].
  pose proof (compare_size_lt r l Hgt). pose proof (cmp_sym l r). lia.
Qed.

(** A query for a size compares below every block at least as large when its
    other fields are zero, as heap_get_bestfit_block prepares it. *)
Definition size_query (m : memory_block) : Prop :=
  zone_id m = 0 /\ chunk_id m = 0 /\ block_off m = 0.
Definition block_fields_ok (m : memory_block) : Prop :=
  0 <= zone_id m /\ 0 <= chunk_id m /\ 0 <= block_off m.

Lemma query_le q m : size_query q -> block_fields_ok m -> size_idx q <= size_idx m ->
  container_compare_memblocks q m <= 0.
Proof.
  intros (Hz & Hc & Ho) (H1 & H2 & H3) Hs. unfold container_compare_memblocks. rewrite Hz, Hc, Ho.
  repeat (match goal with |- context [?a =? 0] => destruct (Z.eqb_spec a 0) end; cbn [negb];
          [|match goal with |- context [0 <? ?a] => destruct (Z.ltb_spec 0 a) end; lia]). lia.
Qed.

(** *** The tree container meets the contract *)

Definition ravl_contains (c : block_container_ravl) (l : list (Z * Z * Z * Z)) : Prop :=
  exists L, ravl_ok container_compare_memblocks c L /\ Forall block_fields_ok L /\ l = map block_key L.

Definition ravl_env_ok (e : ravl_env) (c : block_container_ravl) : Prop :=
  re_addr e <> 0 /\ nodes c !! re_addr e = None /\ (2 * size (nodes c) + 1 < re_fuel e)%nat.

Lemma set_insert_perm {D} (cmp : D -> D -> Z) d l : set_insert cmp d l ≡ₚ d :: l.
Proof.
  induction l as [|e l IH]; [done|]. cbn [set_insert]. destruct (cmp d e <? 0); [done|].
  rewrite IH. apply perm_swap.
Qed.

Lemma set_insert_Forall {D} (cmp : D -> D -> Z) (P : D -> Prop) d l :
  P d -> Forall P l -> Forall P (set_insert cmp d l).
Proof. intros Hd Hl. rewrite set_insert_perm. by constructor. Qed.

(** No block with this key is in the set. *)
Lemma not_dup m L : block_key m ∉ map block_key L -> is_dup container_compare_memblocks m L = false.
Proof.
  intros H. apply not_true_iff_false. intros Hd. apply existsb_exists in Hd as (e & He & E).
  apply Z.eqb_eq, compare_key in E. apply H. rewrite E. apply list_elem_of_fmap.
  exists e. split; [done|]. by apply list_elem_of_In.
Qed.

(** GREATER_EQUAL asks for the elements not below the query. *)
Lemma match_ge {D} (cmp : D -> D -> Z) d e :
  set_match cmp RAVL_PREDICATE_GREATER_EQUAL d e = (cmp d e <=? 0).
Proof.
  unfold set_match, matches. cbn [snd].
  change (has_pred RAVL_PREDICATE_GREATER_EQUAL RAVL_PREDICATE_EQUAL) with true.
  change (has_pred RAVL_PREDICATE_GREATER_EQUAL RAVL_PREDICATE_GREATER) with true.
  change (has_pred RAVL_PREDICATE_GREATER_EQUAL RAVL_PREDICATE_LESS) with false.
  cbn [andb]. rewrite orb_false_r.
  destruct (Z.eqb_spec (cmp d e) 0), (Z.ltb_spec (cmp d e) 0), (Z.leb_spec (cmp d e) 0); lia || done.
Qed.

(** The least element not below the query. *)
Lemma find_ge_spec {D} (cmp : D -> D -> Z) `{!RavlOrder cmp} d l :
  sorted cmp l ->
  match set_find cmp RAVL_PREDICATE_GREATER_EQUAL d l with
  | None => Forall (fun e => 0 < cmp d e) l
  | Some x => x ∈ l /\ cmp d x <= 0 /\ Forall (fun e => cmp d e <= 0 -> cmp x e <= 0) l
  end.
Proof.
  intros Hs. unfold set_find.
  change (has_pred RAVL_PREDICATE_GREATER_EQUAL RAVL_PREDICATE_LESS) with false. cbv iota.
  pose proof (sorted_filter cmp (set_match cmp RAVL_PREDICATE_GREATER_EQUAL d) l Hs) as Hsf.
  assert (forall e, e ∈ List.filter (set_match cmp RAVL_PREDICATE_GREATER_EQUAL d) l <-> e ∈ l /\ cmp d e <= 0) as Hin.
  { intros e. rewrite !list_elem_of_In, List.filter_In, match_ge, Z.leb_le. done. }
  destruct (List.filter _ l) as [|x m]; cbn [head].
  - apply Forall_forall. intros e He. destruct (Z.lt_ge_cases 0 (cmp d e)); [done|].
    assert (e ∈ []) as Hbad by (apply Hin; split; [done|lia]). inversion Hbad.
  - destruct (proj1 (Hin x) ltac:(left)) as [H1 H2]. split; [done|]. split; [done|].
    apply Forall_forall. intros e He Hle. assert (e ∈ x :: m) as Hm by (by apply Hin).
    apply elem_of_cons in Hm as [->|Hm]; [pose proof (cmp_sym x x); lia|].
    apply StronglySorted_cons in Hsf as [Hx _]. rewrite Forall_forall in Hx. specialize (Hx e Hm).
    unfold lt in Hx. lia.
Qed.

(** Taking out the node that a search returned. *)
Lemma take_out c L n nd e :
  ravl_ok container_compare_memblocks c L -> deref c n = Some nd -> ravl_env_ok e c ->
  exists c' L', ravl_remove (re_fuel e) n c = Some c' /\ ravl_ok container_compare_memblocks c' L' /\
    L ≡ₚ data nd :: L'.
Proof.
  intros HL Hnd (_ & _ & Hf). destruct (re_fuel e) as [|k]; [lia|].
  destruct (remove_ok container_compare_memblocks c L n nd k HL Hnd ltac:(lia)) as (c' & l1 & l2 & H1 & -> & H2).
  exists c', (l1 ++ l2). split; [done|]. split; [done|]. by rewrite Permutation_middle.
Qed.

(** The 40 bytes at the block's user data. *)
Definition ravl_descriptor (get_user_data : mem -> memory_block -> Z) (m : memory_block) (v : mem) (x : Z) : Prop :=
  get_user_data v m <= x < get_user_data v m + sizeof_memory_block.

Lemma ravl_insert_law gud e c l m s :
  ravl_contains c l -> ravl_env_ok e c -> (block_key m ∉ l) /\ block_fields_ok m ->
  exists c' l' s', container_ravl_insert_block gud e c m s = Some (0, c', s') /\ ravl_contains c' l' /\
    l' ≡ₚ block_key m :: l /\ forall x, ~ ravl_descriptor gud m (vis s) x -> vis s' x = vis s x.
Proof.
  intros (L & HL & HF & ->) (Ha & Hn & Hf) [Hk Hb].
  unfold container_ravl_insert_block, ravl_insert.
  destruct (emplace_ok container_compare_memblocks c L m (re_addr e) ravl_node_insert_constructor (re_fuel e)
    HL Ha Hn ltac:(lia)) as (c' & H1 & H2). rewrite (not_dup m L Hk) in H1, H2.
  exists c', (map block_key (set_insert container_compare_memblocks m L)). eexists. split; [by rewrite H1|]. split; [|split].
  - eexists. split; [exact H2|]. split; [by apply set_insert_Forall|done].
  - rewrite (set_insert_perm container_compare_memblocks m L). done.
  - intros x Hx. apply write_bytes_out. rewrite length_enc_memory_block. unfold ravl_descriptor, sizeof_memory_block in Hx. lia.
Qed.

Lemma ravl_bestfit_law e c l m :
  ravl_contains c l -> ravl_env_ok e c -> size_query m ->
  (Forall (fun k => key_size k < size_idx m) l /\
     container_ravl_get_rm_block_bestfit e c m = Some (ENOMEM, m, c)) \/
  (exists m' c' l', container_ravl_get_rm_block_bestfit e c m = Some (0, m', c') /\ ravl_contains c' l' /\
     l ≡ₚ block_key m' :: l' /\ size_idx m <= size_idx m' /\
     Forall (fun k => size_idx m <= key_size k -> size_idx m' <= key_size k) l).
Proof.
  intros (L & HL & HF & ->) He Hq. pose proof HL as (t & _ & _ & Hs & _).
  unfold container_ravl_get_rm_block_bestfit. pose proof He as (_ & _ & Hf).
  destruct (find_ok container_compare_memblocks c L m RAVL_PREDICATE_GREATER_EQUAL (re_fuel e) HL
    ltac:(reflexivity) ltac:(lia)) as (n & Hn & Hres). rewrite Hn. cbn [mbind option_bind].
  pose proof (find_ge_spec container_compare_memblocks m L Hs) as Hge.
  destruct (set_find container_compare_memblocks RAVL_PREDICATE_GREATER_EQUAL m L) as [x|].
  - destruct Hres as (Hn0 & nd & Hnd & <-). destruct Hge as (Hin & Hle & Hmin).
    destruct (Z.eqb_spec n 0); [done|]. rewrite Hnd. cbn [mbind option_bind].
    destruct (take_out c L n nd e HL Hnd He) as (c' & L' & Hrm & HL' & HP). rewrite Hrm. cbn [mbind option_bind].
    right. exists (data nd), c', (map block_key L'). split; [done|]. split; [|split; [|split]].
    + exists L'. split; [done|]. split; [|done]. rewrite HP in HF. by inversion HF.
    + by rewrite HP.
    + by apply compare_size_le.
    + apply Forall_map. rewrite Forall_forall in *. intros y Hy Hsz. apply compare_size_le, Hmin; [done|].
      apply query_le; [done|by apply HF|exact Hsz].
  - subst n. left. split; [|done]. apply Forall_map. rewrite Forall_forall in *. intros y Hy.
    destruct (Z.lt_ge_cases (size_idx y) (size_idx m)) as [|Hge']; [done|].
    specialize (Hge y Hy). pose proof (query_le m y Hq (HF y Hy) ltac:(lia)). lia.
Qed.

Lemma ravl_empty_law c l : ravl_contains c l -> container_ravl_is_empty c = c_bool (bool_decide (l = [])).
Proof.
  intros (L & (t & Hwf & _ & _ & <-) & _ & ->). unfold container_ravl_is_empty, ravl_empty.
  rewrite (foc_root _ _ _ Hwf). cbn [ctx_root]. f_equal.
  destruct t as [|a k v x y]; [done|]. destruct (foc_rep _ _ _ Hwf) as (Ha & _). cbn [addr_of].
  destruct (Z.eqb_spec a 0); [done|]. symmetry. apply bool_decide_eq_false. cbn [inorder].
  rewrite map_app. intros E. by apply app_nil in E as [_ E].
Qed.

Lemma ravl_rm_all_law e c l : ravl_contains c l -> ravl_env_ok e c ->
  exists c', container_ravl_rm_all e c = Some c' /\ ravl_contains c' [].
Proof.
  intros (L & HL & _ & _) (_ & _ & Hf). exists ravl_new. split.
  - by destruct (clear_ok container_compare_memblocks c L (re_fuel e) HL ltac:(lia)).
  - exists []. split; [apply (ravl_ok_new container_compare_memblocks)|]. by split.
Qed.

#[global] Instance container_ravl_ops (get_user_data : mem -> memory_block -> Z) : BlockContainer block_container_ravl ravl_env := {
  insert := container_ravl_insert_block get_user_data;
  get_rm_bestfit := container_ravl_get_rm_block_bestfit;
  is_empty := container_ravl_is_empty;
  rm_all := container_ravl_rm_all;
  contains := ravl_contains;
  env_ok := ravl_env_ok;
  accepts := fun _ l m => (block_key m ∉ l) /\ block_fields_ok m;
  query_ok := size_query;
  descriptor := ravl_descriptor get_user_data;
  insert_law := ravl_insert_law get_user_data;
  bestfit_law := ravl_bestfit_law;
  empty_law := ravl_empty_law;
  rm_all_law := ravl_rm_all_law
}.

(** ** Theorems about the tree container *)

Lemma ravl_bestfit_take e c L m :
  ravl_ok container_compare_memblocks c L -> Forall block_fields_ok L ->
  ravl_env_ok e c -> size_query m ->
  (Forall (fun b => size_idx b < size_idx m) L /\
     container_ravl_get_rm_block_bestfit e c m = Some (ENOMEM, m, c)) \/
  (exists b c' L', container_ravl_get_rm_block_bestfit e c m = Some (0, b, c') /\
     ravl_ok container_compare_memblocks c' L' /\ L ≡ₚ b :: L' /\ size_idx m <= size_idx b /\
     Forall (fun x => size_idx m <= size_idx x -> container_compare_memblocks b x <= 0) L).
Proof.
  intros HL HF He Hq. pose proof HL as (t & _ & _ & Hs & _). pose proof He as (_ & _ & Hf).
  unfold container_ravl_get_rm_block_bestfit.
  destruct (find_ok container_compare_memblocks c L m RAVL_PREDICATE_GREATER_EQUAL (re_fuel e) HL
    ltac:(reflexivity) ltac:(lia)) as (n & Hn & Hres). rewrite Hn. cbn [mbind option_bind].
  pose proof (find_ge_spec container_compare_memblocks m L Hs) as Hge.
  destruct (set_find container_compare_memblocks RAVL_PREDICATE_GREATER_EQUAL m L) as [x|].
  - destruct Hres as (Hn0 & nd & Hnd & <-). destruct Hge as (Hin & Hle & Hmin).
    destruct (Z.eqb_spec n 0); [done|]. rewrite Hnd. cbn [mbind option_bind].
    destruct (take_out c L n nd e HL Hnd He) as (c' & L' & Hrm & HL' & HP). rewrite Hrm.
    right. exists (data nd), c', L'. split; [done|]. split; [done|]. split; [done|].
    split; [by apply compare_size_le|]. rewrite Forall_forall in *. intros y Hy Hsz. apply Hmin; [done|].
    apply query_le; [done|by apply HF|exact Hsz].
  - subst n. left. split; [|done]. rewrite Forall_forall in *. intros y Hy.
    destruct (Z.lt_ge_cases (size_idx y) (size_idx m)) as [|Hge']; [done|].
    specialize (Hge y Hy). pose proof (query_le m y Hq (HF y Hy) ltac:(lia)). lia.
Qed.

(** Best fit.  On a tree container, a request for a size (zone, chunk and
    offset zero) fails with ENOMEM exactly when every block is smaller, leaving
    request and container alone; otherwise it removes and returns the block that
    is least in the order size, zone, chunk, offset among those large enough: the
    smallest sufficient size, and of these the lowest address. *)
Theorem container_ravl_bestfit e c L m :
  ravl_ok container_compare_memblocks c L -> Forall block_fields_ok L ->
  ravl_env_ok e c -> size_query m ->
  (Forall (fun b => size_idx b < size_idx m) L /\
     container_ravl_get_rm_block_bestfit e c m = Some (ENOMEM, m, c)) \/
  (exists b c' L', container_ravl_get_rm_block_bestfit e c m = Some (0, b, c') /\
     ravl_ok container_compare_memblocks c' L' /\ L ≡ₚ b :: L' /\ size_idx m <= size_idx b /\
     Forall (fun x => size_idx m <= size_idx x -> container_compare_memblocks b x <= 0) L).
Proof. apply ravl_bestfit_take. Qed.

(** Exact removal.  get_rm_exact removes the block with the given identity if
    the container has it, and reports ENOMEM without any change otherwise. *)
Lemma container_ravl_exact e c L m :
  ravl_ok container_compare_memblocks c L -> ravl_env_ok e c ->
  ((block_key m ∉ map block_key L) /\ container_ravl_get_rm_block_exact e c m = Some (ENOMEM, c)) \/
  (exists c' L', container_ravl_get_rm_block_exact e c m = Some (0, c') /\
     ravl_ok container_compare_memblocks c' L' /\ exists x, block_key x = block_key m /\ L ≡ₚ x :: L').
Proof.
  intros HL He. pose proof He as (_ & _ & Hf). unfold container_ravl_get_rm_block_exact.
  destruct (find_ok container_compare_memblocks c L m RAVL_PREDICATE_EQUAL (re_fuel e) HL
    ltac:(reflexivity) ltac:(lia)) as (n & Hn & Hres). rewrite Hn. cbn [mbind option_bind].
  assert (forall x, x ∈ List.filter (set_match container_compare_memblocks RAVL_PREDICATE_EQUAL m) L <->
    x ∈ L /\ block_key m = block_key x) as Hin.
  { intros x. rewrite !list_elem_of_In, List.filter_In, <- compare_key. unfold set_match, matches. cbn [snd].
    change (has_pred RAVL_PREDICATE_EQUAL RAVL_PREDICATE_EQUAL) with true.
    change (has_pred RAVL_PREDICATE_EQUAL RAVL_PREDICATE_GREATER) with false.
    change (has_pred RAVL_PREDICATE_EQUAL RAVL_PREDICATE_LESS) with false.
    cbn [andb]. rewrite !orb_false_r, Z.eqb_eq. done. }
  unfold set_find in Hres. change (has_pred RAVL_PREDICATE_EQUAL RAVL_PREDICATE_LESS) with false in Hres.
  cbv iota zeta in Hres. destruct (List.filter _ L) as [|x fl]; cbn [head] in Hres.
  - subst n. left. split; [|done]. intros Hm. apply list_elem_of_fmap in Hm as (x & Hk & Hx).
    assert (x ∈ []) as Hbad by (by apply Hin). inversion Hbad.
  - destruct Hres as (Hn0 & nd & Hnd & <-). destruct (Z.eqb_spec n 0); [done|].
    destruct (take_out c L n nd e HL Hnd He) as (c' & L' & Hrm & HL' & HP). rewrite Hrm.
    right. exists c', L'. split; [done|]. split; [done|]. exists (data nd). split; [|exact HP].
    by destruct (proj1 (Hin (data nd)) ltac:(left)) as [_ ->].
Qed.

(** *** Instances *)

Definition ex_block (s o : Z) : memory_block := MBlock 3 1 s o 0 0 0 0.
Definition ex_container : block_container_ravl :=
  Ravl {[8 := RNode 0 0 16 1 true (ex_block 2 0); 16 := RNode 8 0 0 0 true (ex_block 5 7)]} 8.
Definition ex_env : ravl_env := RavlEnv 10 24.

Lemma ex_container_ok :
  ravl_ok container_compare_memblocks ex_container [ex_block 2 0; ex_block 5 7].
Proof.
  exists (Node 8 1 (true, ex_block 2 0) Leaf (Node 16 0 (true, ex_block 5 7) Leaf Leaf)).
  split; [|split; [|split]].
  - constructor; cbn.
    + reflexivity.
    + repeat split; done.
    + done.
    + apply (bool_decide_unpack _). vm_compute. exact I.
    + intros a. split.
      * intros [nd Hnd]. destruct (decide (a = 8)) as [->|H8]; [left|].
        destruct (decide (a = 16)) as [->|H16]; [right; left|].
        unfold ex_container in Hnd. cbn [nodes] in Hnd. by rewrite lookup_insert_ne, lookup_singleton_ne in Hnd.
      * intros Ha. apply elem_of_cons in Ha as [->|Ha]; [by eexists|].
        apply elem_of_cons in Ha as [->|Ha]; [by eexists|]. inversion Ha.
  - cbn. lia.
  - repeat constructor.
  - reflexivity.
Defined.

Lemma ex_env_ok : ravl_env_ok ex_env ex_container.
Proof. split; [discriminate|]. split; [reflexivity|]. vm_compute. lia. Defined.

Lemma container_ravl_bestfit_witness :
  let L := [ex_block 2 0; ex_block 5 7] in let m := MBlock 0 0 3 0 0 0 0 0 in
  (Forall (fun b => size_idx b < size_idx m) L /\
     container_ravl_get_rm_block_bestfit ex_env ex_container m = Some (ENOMEM, m, ex_container)) \/
  (exists b c' L', container_ravl_get_rm_block_bestfit ex_env ex_container m = Some (0, b, c') /\
     ravl_ok container_compare_memblocks c' L' /\ L ≡ₚ b :: L' /\ size_idx m <= size_idx b /\
     Forall (fun x => size_idx m <= size_idx x -> container_compare_memblocks b x <= 0) L).
Proof.
  apply (container_ravl_bestfit ex_env); [exact ex_container_ok| |exact ex_env_ok|by repeat split].
  repeat constructor; cbn; lia.
Defined.
