(* ===== verification/Seglists.v ===== *)
(** * The segregated-lists container (container_seglists.c)

    One queue of block offsets per size index from 1 to 64, and a bitmap of the
    non-empty queues; best fit is a bit scan. *)
From stdpp Require Import base numbers list list_numbers.
From Stdlib Require Import ZArith Lia Bool.
From S2P Require Import Prelude Pmem Vecq Container.

Definition SEGLIST_BLOCK_LISTS : Z := 64.

Record block_container_seglists := Seglists {
  sl_m : memory_block;
  blocks : list (vecq Z);
  nonempty_lists : Z }.

(** util_lssb_index64 (__builtin_ctzll): the index of the lowest set bit. *)
Definition util_lssb_index64 (v : Z) : Z :=
  default 0 (head (List.filter (fun i => Z.testbit v i) (seqZ 0 64))).

Definition set_list (i : Z) (q : vecq Z) (l : list (vecq Z)) : list (vecq Z) := <[Z.to_nat i := q]> l.
Definition get_list (c : block_container_seglists) (i : Z) : vecq Z :=
  default VECQ_INIT (blocks c !! Z.to_nat i).

(** [ok]: whether an allocation made by VECQ_ENQUEUE succeeds. *)
Definition container_seglists_insert_block (ok : bool) (c : block_container_seglists)
    (m : memory_block) : option (Z * block_container_seglists) :=
  let cm := if nonempty_lists c =? 0 then m else sl_m c in
  let i := size_idx m - 1 in
  let '(ret, q) := VECQ_ENQUEUE ok (get_list c i) (block_off m) in
  if negb (ret =? 0) then Some (-1, Seglists cm (set_list i q (blocks c)) (nonempty_lists c)) else
  Some (0, Seglists cm (set_list i q (blocks c)) (Z.lor (nonempty_lists c) (u64 (Z.shiftl 1 i)))).

Definition container_seglists_get_rm_block_bestfit (ok : bool) (c : block_container_seglists)
    (m : memory_block) : option (Z * memory_block * block_container_seglists) :=
  let size_mask := u64 (u64 (Z.shiftl 1 (size_idx m - 1)) - 1) in
  let v := Z.land (nonempty_lists c) (u64 (Z.lnot size_mask)) in
  if v =? 0 then Some (ENOMEM, m, c) else
  let i := util_lssb_index64 v in
  let '(block_offset, q) := VECQ_DEQUEUE (get_list c i) in
  let ne := if VECQ_SIZE q =? 0 then Z.land (nonempty_lists c) (u64 (Z.lnot (u64 (Z.shiftl 1 i))))
            else nonempty_lists c in
  let cm := sl_m c in
  Some (0, MBlock (chunk_id cm) (zone_id cm) (i + 1) block_offset (m_ops cm) (mb_heap cm)
             (header_type cm) (mb_type cm),
        Seglists cm (set_list i q (blocks c)) ne).

Definition container_seglists_is_empty (c : block_container_seglists) : Z :=
  c_bool (nonempty_lists c =? 0).

Definition container_seglists_rm_all (ok : bool) (c : block_container_seglists)
    : option block_container_seglists :=
  Some (Seglists (sl_m c) (map VECQ_CLEAR (blocks c)) 0).

Definition container_seglists_destroy (c : block_container_seglists) : block_container_seglists :=
  Seglists (sl_m c) (map VECQ_DELETE (blocks c)) (nonempty_lists c).

(** [junk] is what Malloc leaves in the field [m]. *)
Definition container_new_seglists (junk : memory_block) : block_container_seglists :=
  Seglists junk (replicate 64 VECQ_INIT) 0.

(** ** Invariant and content *)

Record seg_ok (c : block_container_seglists) : Prop := SegOk {
  so_len : length (blocks c) = 64%nat;
  so_queues : Forall vecq_ok (blocks c);
  so_range : 0 <= nonempty_lists c < 2 ^ 64;
  so_bits i : 0 <= i < 64 ->
    Z.testbit (nonempty_lists c) i = negb (bool_decide (vecq_list (get_list c i) = [])) }.

(** The keys of the blocks in one list; all lists share zone and chunk. *)
Definition list_keys (cm : memory_block) (i : nat) (q : vecq Z) : list (Z * Z * Z * Z) :=
  map (fun off => (Z.of_nat i + 1, zone_id cm, chunk_id cm, off)) (vecq_list q).
Definition seg_keys (c : block_container_seglists) : list (Z * Z * Z * Z) :=
  concat (imap (list_keys (sl_m c)) (blocks c)).

Definition seg_contains (c : block_container_seglists) (l : list (Z * Z * Z * Z)) : Prop :=
  seg_ok c /\ l = seg_keys c.

(** ** Bits *)

Lemma shl1 i : 0 <= i < 64 -> u64 (Z.shiftl 1 i) = 2 ^ i.
Proof.
  intros Hi. rewrite Z.shiftl_1_l. apply u64_small. split; [apply Z.pow_nonneg; lia|].
  apply Z.pow_lt_mono_r; lia.
Qed.

Lemma testbit_pow2 i j : 0 <= i -> 0 <= j -> Z.testbit (2 ^ i) j = (i =? j).
Proof. intros Hi Hj. by apply Z.pow2_bits_eqb. Qed.

Lemma lor_bit x i j : 0 <= i < 64 -> 0 <= j -> Z.testbit (Z.lor x (u64 (Z.shiftl 1 i))) j = Z.testbit x j || (i =? j).
Proof. intros Hi Hj. rewrite shl1, Z.lor_spec, testbit_pow2 by lia. done. Qed.

Lemma u64_lnot_bit x j : 0 <= j < 64 -> Z.testbit (u64 (Z.lnot x)) j = negb (Z.testbit x j).
Proof. intros Hj. unfold u64. rewrite Z.mod_pow2_bits_low, Z.lnot_spec by lia. done. Qed.

Lemma clear_bit x i j : 0 <= i < 64 -> 0 <= j < 64 ->
  Z.testbit (Z.land x (u64 (Z.lnot (u64 (Z.shiftl 1 i))))) j = Z.testbit x j && negb (i =? j).
Proof. intros Hi Hj. rewrite Z.land_spec, u64_lnot_bit, shl1, testbit_pow2 by lia. done. Qed.

(** The applicable lists: the bits from size_idx - 1 on. *)
Lemma mask_bit x s j : 1 <= s <= 64 -> 0 <= j < 64 ->
  Z.testbit (Z.land x (u64 (Z.lnot (u64 (u64 (Z.shiftl 1 (s - 1)) - 1))))) j = Z.testbit x j && (s - 1 <=? j).
Proof.
  intros Hs Hj. rewrite Z.land_spec, u64_lnot_bit, shl1 by lia. f_equal.
  assert (0 < 2 ^ (s - 1) < 2 ^ 64) by (split; [apply Z.pow_pos_nonneg; lia|apply Z.pow_lt_mono_r; lia]).
  rewrite u64_small by lia. replace (2 ^ (s - 1) - 1) with (Z.ones (s - 1)) by (rewrite Z.ones_equiv; lia).
  rewrite Z.testbit_ones by lia. destruct (Z.leb_spec 0 j); [|lia].
  destruct (Z.ltb_spec j (s - 1)), (Z.leb_spec (s - 1) j); lia || done.
Qed.

Lemma bits_zero x : 0 <= x < 2 ^ 64 -> (forall j, 0 <= j < 64 -> Z.testbit x j = false) -> x = 0.
Proof.
  intros Hx H. apply Z.bits_inj_0. intros j. destruct (Z.lt_ge_cases j 0); [by apply Z.testbit_neg_r|].
  destruct (Z.lt_ge_cases j 64); [by apply H|].
  rewrite <- (Z.mod_small x (2 ^ 64)) by lia. apply Z.mod_pow2_bits_high. lia.
Qed.

Lemma land_range x y : 0 <= x < 2 ^ 64 -> 0 <= y -> 0 <= Z.land x y < 2 ^ 64.
Proof.
  intros Hx Hy. split; [apply Z.land_nonneg; lia|].
  rewrite <- (Z.mod_small x (2 ^ 64)) by lia. rewrite <- Z.land_ones, <- Z.land_assoc, (Z.land_comm (Z.ones 64)),
    Z.land_assoc, Z.land_ones by lia. apply Z.mod_pos_bound. lia.
Qed.

Lemma lor_range x i : 0 <= x < 2 ^ 64 -> 0 <= i < 64 -> 0 <= Z.lor x (u64 (Z.shiftl 1 i)) < 2 ^ 64.
Proof.
  intros Hx Hi. split; [apply Z.lor_nonneg; rewrite shl1 by lia; pose proof (Z.pow_nonneg 2 i); lia|].
  destruct (Z.eq_dec (Z.lor x (u64 (Z.shiftl 1 i))) 0) as [->|Hne]; [lia|].
  assert (0 <= Z.lor x (u64 (Z.shiftl 1 i))) by (apply Z.lor_nonneg; rewrite shl1 by lia; pose proof (Z.pow_nonneg 2 i); lia).
  apply Z.log2_lt_pow2; [lia|]. rewrite shl1, Z.log2_lor by (try apply Z.pow_nonneg; lia).
  apply Z.max_lub_lt; [|rewrite Z.log2_pow2; lia].
  destruct (Z.eq_dec x 0) as [->|]; [simpl; lia|]. apply Z.log2_lt_pow2; lia.
Qed.

(** The scan finds the lowest set bit. *)
Lemma lssb_spec v :
  0 <= v < 2 ^ 64 -> v <> 0 ->
  let i := util_lssb_index64 v in
  0 <= i < 64 /\ Z.testbit v i = true /\ forall j, 0 <= j < i -> Z.testbit v j = false.
Proof.
  intros Hv Hne. unfold util_lssb_index64.
  assert (forall a n, 0 <= a -> (exists j, a <= j < a + Z.of_nat n /\ Z.testbit v j = true) ->
    let i := default 0 (head (List.filter (fun i => Z.testbit v i) (seqZ a (Z.of_nat n)))) in
    a <= i < a + Z.of_nat n /\ Z.testbit v i = true /\ forall j, a <= j < i -> Z.testbit v j = false) as Hgen.
  { intros a n. revert a. induction n as [|n IH]; intros a Ha (j & Hj & Hb); [lia|].
    rewrite Nat2Z.inj_succ, seqZ_cons, Z.pred_succ by lia. cbn [List.filter].
    destruct (Z.testbit v a) eqn:E; cbv zeta; cbn [head from_option]; unfold id.
    - split; [lia|]. split; [done|]. intros k Hk. lia.
    - specialize (IH (Z.succ a) ltac:(lia)). cbv zeta in IH. unfold default, id in *.
      destruct IH as (H1 & H2 & H3).
      + exists j. split; [|done]. destruct (Z.eq_dec j a) as [->|]; [congruence|lia].
      + split; [lia|]. split; [done|]. intros k Hk. destruct (Z.eq_dec k a) as [->|]; [done|]. apply H3. lia. }
  apply (Hgen 0 64%nat); [lia|].
  destruct (decide (Exists (fun j => Z.testbit v j = true) (seqZ 0 64))) as [H|H].
  - apply Exists_exists in H as (j & Hj & Hb). apply elem_of_seqZ in Hj. exists j. split; [lia|done].
  - exfalso. apply Hne, bits_zero; [done|]. intros j Hj. destruct (Z.testbit v j) eqn:E; [|done].
    exfalso. apply H, Exists_exists. exists j. split; [apply elem_of_seqZ; lia|done].
Qed.

(** ** Lists and keys *)

Lemma imap_insert_split {X Y} (f : nat -> X -> list Y) (l : list X) i x :
  l !! i = Some x ->
  exists rest, concat (imap f l) ≡ₚ f i x ++ rest /\
    forall y, concat (imap f (<[i := y]> l)) ≡ₚ f i y ++ rest.
Proof.
  intros Hi. pose proof (lookup_lt_Some _ _ _ Hi) as Hlt.
  assert (length (take i l) = i) as Hti by (rewrite length_take; lia).
  assert (forall y, concat (imap f (take i l ++ y :: drop (S i) l)) ≡ₚ
    f i y ++ (concat (imap f (take i l)) ++ concat (imap (f ∘ Nat.add (S i)) (drop (S i) l)))) as Hgen.
  { intros y. rewrite imap_app, imap_cons, concat_app. cbn [concat]. rewrite Hti, Nat.add_0_r.
    rewrite Permutation_app_swap_app. f_equiv. f_equiv.
    match goal with |- concat ?a ≡ₚ concat ?b => assert (a = b) as ->; [|done] end.
    apply imap_ext. intros j z _. unfold compose. f_equal. lia. }
  eexists. split.
  - rewrite <- (take_drop_middle l i x Hi) at 1. apply Hgen.
  - intros y. rewrite insert_take_drop by done. apply Hgen.
Qed.

Lemma elem_seg_keys c k :
  k ∈ seg_keys c <-> exists i q off, blocks c !! i = Some q /\ off ∈ vecq_list q /\
    k = (Z.of_nat i + 1, zone_id (sl_m c), chunk_id (sl_m c), off).
Proof.
  unfold seg_keys. rewrite list_elem_of_In, in_concat. split.
  - intros (ks & Hks & Hk). apply list_elem_of_In in Hks, Hk. apply elem_of_lookup_imap in Hks as (i & q & -> & Hq).
    unfold list_keys in Hk. apply list_elem_of_fmap in Hk as (off & -> & Hoff). by exists i, q, off.
  - intros (i & q & off & Hq & Hoff & ->). exists (list_keys (sl_m c) i q). rewrite <- !list_elem_of_In. split.
    + apply elem_of_lookup_imap. by exists i, q.
    + apply list_elem_of_fmap. by exists off.
Qed.

Section SegOk.
Context (c : block_container_seglists) (Hok : seg_ok c).

Lemma get_lookup i : 0 <= i < 64 -> blocks c !! Z.to_nat i = Some (get_list c i).
Proof.
  intros Hi. unfold get_list. destruct (blocks c !! Z.to_nat i) eqn:E; [done|].
  apply lookup_ge_None in E. rewrite (so_len _ Hok) in E. lia.
Qed.

Lemma get_ok i : 0 <= i < 64 -> vecq_ok (get_list c i).
Proof. intros Hi. eapply Forall_lookup_1; [apply (so_queues _ Hok)|by apply get_lookup]. Qed.

(** A key of the container lies in a list whose bit is set. *)
Lemma key_bit k : k ∈ seg_keys c ->
  0 <= key_size k - 1 < 64 /\ Z.testbit (nonempty_lists c) (key_size k - 1) = true.
Proof.
  intros Hk. apply elem_seg_keys in Hk as (i & q & off & Hq & Hoff & ->). cbn [key_size fst snd].
  pose proof (lookup_lt_Some _ _ _ Hq) as Hi. rewrite (so_len _ Hok) in Hi.
  replace (Z.of_nat i + 1 - 1) with (Z.of_nat i) by lia. split; [lia|].
  rewrite (so_bits _ Hok) by lia. pose proof (get_lookup (Z.of_nat i) ltac:(lia)) as Hg.
  rewrite Nat2Z.id, Hq in Hg. injection Hg as <-. apply negb_true_iff, bool_decide_eq_false.
  intros E. rewrite E in Hoff. inversion Hoff.
Qed.

Lemma empty_keys : nonempty_lists c = 0 <-> seg_keys c = [].
Proof.
  split.
  - intros E. destruct (seg_keys c) as [|k l] eqn:Ek; [done|].
    destruct (key_bit k) as [_ Hb]; [rewrite Ek; left|]. by rewrite E, Z.testbit_0_l in Hb.
  - intros E. apply bits_zero; [apply (so_range _ Hok)|]. intros j Hj. rewrite (so_bits _ Hok j Hj).
    apply negb_false_iff, bool_decide_eq_true.
    destruct (vecq_list (get_list c j)) as [|off l] eqn:Ev; [done|].
    assert ((j + 1, zone_id (sl_m c), chunk_id (sl_m c), off) ∈ seg_keys c) as Hin.
    { apply elem_seg_keys. exists (Z.to_nat j), (get_list c j), off. split; [by apply get_lookup|].
      split; [rewrite Ev; left|]. by rewrite Z2Nat.id by lia. }
    rewrite E in Hin. inversion Hin.
Qed.

(** Replacing one queue. *)
Lemma set_get i q j : 0 <= i < 64 -> 0 <= j < 64 ->
  forall cm ne, get_list (Seglists cm (set_list i q (blocks c)) ne) j = if i =? j then q else get_list c j.
Proof.
  intros Hi Hj cm ne. unfold get_list at 1, set_list. cbn [blocks].
  destruct (Z.eqb_spec i j) as [->|Hne].
  - rewrite list_lookup_insert_eq; [done|]. rewrite (so_len _ Hok). lia.
  - rewrite list_lookup_insert_ne by lia. done.
Qed.

Lemma set_ok i q cm ne :
  0 <= i < 64 -> vecq_ok q -> 0 <= ne < 2 ^ 64 ->
  (forall j, 0 <= j < 64 -> Z.testbit ne j =
     if i =? j then negb (bool_decide (vecq_list q = [])) else Z.testbit (nonempty_lists c) j) ->
  seg_ok (Seglists cm (set_list i q (blocks c)) ne).
Proof.
  intros Hi Hq Hr Hb. constructor; cbn [blocks nonempty_lists].
  - unfold set_list. rewrite length_insert. apply (so_len _ Hok).
  - unfold set_list. apply Forall_insert; [apply (so_queues _ Hok)|done].
  - done.
  - intros j Hj. rewrite Hb, set_get by done. destruct (i =? j); [done|]. by apply (so_bits _ Hok).
Qed.

Lemma set_keys i q cm ne :
  0 <= i < 64 -> (zone_id cm = zone_id (sl_m c) /\ chunk_id cm = chunk_id (sl_m c)) ->
  exists rest, seg_keys c ≡ₚ list_keys cm (Z.to_nat i) (get_list c i) ++ rest /\
    seg_keys (Seglists cm (set_list i q (blocks c)) ne) ≡ₚ list_keys cm (Z.to_nat i) q ++ rest.
Proof.
  intros Hi [Hz Hc].
  destruct (imap_insert_split (list_keys cm) (blocks c) (Z.to_nat i) _ (get_lookup i Hi)) as (rest & H1 & H2).
  exists rest. split; [|apply H2]. rewrite <- H1. unfold seg_keys.
  assert (imap (list_keys (sl_m c)) (blocks c) = imap (list_keys cm) (blocks c)) as ->; [|done].
  apply imap_ext. intros j y _. unfold list_keys. by rewrite Hz, Hc.
Qed.
End SegOk.

(** ** The contract *)

Definition seg_env_ok (ok : bool) (c : block_container_seglists) : Prop :=
  ok = true /\ Forall (fun q => vcapacity q < 2 ^ 62) (blocks c).

(** The assertions of insert: a size with a list of its own, and the zone and
    chunk of the blocks already there. *)
Definition seg_accepts (c : block_container_seglists) (m : memory_block) : Prop :=
  1 <= size_idx m <= 64 /\
  (nonempty_lists c <> 0 -> zone_id m = zone_id (sl_m c) /\ chunk_id m = chunk_id (sl_m c)).

Lemma size_list_nil (q : vecq Z) : (VECQ_SIZE q =? 0) = bool_decide (vecq_list q = []).
Proof.
  pose proof (size_nonneg q) as Hs. unfold vecq_list. destruct (Z.eqb_spec (VECQ_SIZE q) 0) as [->|Hne].
  - done.
  - symmetry. apply bool_decide_eq_false. intros E. apply (f_equal (@length _)) in E.
    rewrite length_map, length_seq in E. simpl in E. lia.
Qed.

(** The keys do not depend on the representative while all lists are empty. *)
Lemma seg_rebase c cm :
  seg_ok c -> nonempty_lists c = 0 -> seg_ok (Seglists cm (blocks c) (nonempty_lists c)) /\
  seg_keys (Seglists cm (blocks c) (nonempty_lists c)) = seg_keys c.
Proof.
  intros Hok Hz. assert (seg_ok (Seglists cm (blocks c) (nonempty_lists c))) as Hok'.
  { destruct Hok as [H1 H2 H3 H4]. constructor; cbn; try done. }
  split; [done|]. rewrite (proj1 (empty_keys c Hok) Hz). by apply (empty_keys _ Hok').
Qed.

Lemma insert_core c m :
  seg_ok c -> Forall (fun q => vcapacity q < 2 ^ 62) (blocks c) -> 1 <= size_idx m <= 64 ->
  zone_id m = zone_id (sl_m c) /\ chunk_id m = chunk_id (sl_m c) ->
  exists q, VECQ_ENQUEUE true (get_list c (size_idx m - 1)) (block_off m) = (0, q) /\
    let c' := Seglists (sl_m c) (set_list (size_idx m - 1) q (blocks c))
                (Z.lor (nonempty_lists c) (u64 (Z.shiftl 1 (size_idx m - 1)))) in
    seg_ok c' /\ seg_keys c' ≡ₚ block_key m :: seg_keys c.
Proof.
  intros Hok Hcap Hs [Hz Hc]. set (i := size_idx m - 1).
  pose proof (get_lookup c Hok i ltac:(lia)) as Hget.
  destruct (enqueue_spec (get_list c i) (block_off m)) as (q & Henq & Hq & Hl).
  { apply get_ok; [done|lia]. }
  { eapply (Forall_lookup_1 _ _ _ _ Hcap Hget). }
  exists q. split; [exact Henq|]. cbv zeta. split.
  - apply set_ok; [done|lia|done|apply lor_range; [apply Hok|lia]|].
    intros j Hj. rewrite lor_bit by lia. destruct (Z.eqb_spec i j); [|apply orb_false_r].
    rewrite orb_true_r. symmetry. apply negb_true_iff, bool_decide_eq_false. rewrite Hl.
    intros E. by apply app_nil in E as [_ E].
  - destruct (set_keys c Hok i q (sl_m c)
      (Z.lor (nonempty_lists c) (u64 (Z.shiftl 1 i))) ltac:(lia) (conj eq_refl eq_refl)) as (rest & H1 & H2).
    rewrite H2, H1. unfold list_keys. rewrite Hl, map_app. cbn [map].
    rewrite Z2Nat.id by lia. rewrite <- Permutation_cons_append. cbn [app]. unfold block_key. rewrite Hz, Hc.
    replace (i + 1) with (size_idx m) by lia. done.
Qed.

Lemma seg_insert_law ok c l m :
  seg_contains c l -> seg_env_ok ok c -> seg_accepts c m ->
  exists c' l', container_seglists_insert_block ok c m = Some (0, c') /\ seg_contains c' l' /\
    l' ≡ₚ block_key m :: l.
Proof.
  intros [Hok ->] [-> Hcap] [Hs Hsame]. unfold container_seglists_insert_block.
  destruct (Z.eqb_spec (nonempty_lists c) 0) as [Hz|Hnz].
  - destruct (seg_rebase c m Hok Hz) as [Hok' Hk].
    destruct (insert_core (Seglists m (blocks c) (nonempty_lists c)) m Hok' Hcap Hs (conj eq_refl eq_refl))
      as (q & Henq & Hok2 & Hk2). cbn [sl_m blocks nonempty_lists] in *.
    change (get_list (Seglists m (blocks c) (nonempty_lists c))) with (get_list c) in Henq. rewrite Henq.
    cbn [Z.eqb negb]. eexists _, _. split; [done|]. split; [split; [exact Hok2|done]|].
    rewrite Hk2. by rewrite Hk.
  - destruct (insert_core c m Hok Hcap Hs (Hsame Hnz)) as (q & Henq & Hok2 & Hk2). rewrite Henq.
    cbn [Z.eqb negb]. eexists _, _. split; [done|]. split; [split; [exact Hok2|done]|]. exact Hk2.
Qed.

Lemma seg_bestfit_law ok c l m :
  seg_contains c l -> seg_env_ok ok c -> 1 <= size_idx m <= 64 ->
  (Forall (fun k => key_size k < size_idx m) l /\
     container_seglists_get_rm_block_bestfit ok c m = Some (ENOMEM, m, c)) \/
  (exists m' c' l', container_seglists_get_rm_block_bestfit ok c m = Some (0, m', c') /\ seg_contains c' l' /\
     l ≡ₚ block_key m' :: l' /\ size_idx m <= size_idx m' /\
     Forall (fun k => size_idx m <= key_size k -> size_idx m' <= key_size k) l).
Proof.
  intros [Hok ->] _ Hs. unfold container_seglists_get_rm_block_bestfit. cbv zeta.
  set (v := Z.land (nonempty_lists c) _).
  assert (forall j, 0 <= j < 64 -> Z.testbit v j = Z.testbit (nonempty_lists c) j && (size_idx m - 1 <=? j)) as Hv
    by (intros j Hj; unfold v; by apply mask_bit).
  assert (0 <= v < 2 ^ 64) as Hvr by (apply land_range; [apply Hok|apply u64_range]).
  assert (forall k, k ∈ seg_keys c -> size_idx m <= key_size k -> Z.testbit v (key_size k - 1) = true) as Hkey.
  { intros k Hk Hle. destruct (key_bit c Hok k Hk) as [Hr Hb]. rewrite Hv, Hb by done.
    destruct (Z.leb_spec (size_idx m - 1) (key_size k - 1)); lia || done. }
  destruct (Z.eqb_spec v 0) as [E|E].
  - left. split; [|done]. apply Forall_forall. intros k Hk. destruct (Z.lt_ge_cases (key_size k) (size_idx m)); [done|].
    specialize (Hkey k Hk ltac:(lia)). by rewrite E, Z.testbit_0_l in Hkey.
  - right. destruct (lssb_spec v Hvr E) as (Hi & Hbit & Hlow). set (i := util_lssb_index64 v) in *.
    rewrite Hv in Hbit by done. apply andb_true_iff in Hbit as [Hbit Hsi]. apply Z.leb_le in Hsi.
    rewrite (so_bits _ Hok) in Hbit by done. apply negb_true_iff, bool_decide_eq_false in Hbit.
    destruct (vecq_list (get_list c i)) as [|off rest] eqn:El; [done|].
    destruct (dequeue_spec (get_list c i) off rest (get_ok c Hok i Hi) El) as (q & Hdq & Hq & Hql & _).
    rewrite Hdq. rewrite size_list_nil.
    set (ne := if bool_decide (vecq_list q = []) then _ else _).
    destruct (set_keys c Hok i q (sl_m c) ne Hi (conj eq_refl eq_refl)) as (others & K1 & K2).
    eexists _, _, (seg_keys (Seglists (sl_m c) (set_list i q (blocks c)) ne)).
    split; [reflexivity|]. cbn [size_idx]. split; [|split; [|split]].
    + split; [|done]. apply set_ok; try done.
      * unfold ne. destruct (bool_decide _); [apply land_range; [apply Hok|apply u64_range]|apply Hok].
      * intros j Hj. unfold ne. destruct (bool_decide (vecq_list q = [])) eqn:Eb.
        -- rewrite clear_bit by lia. destruct (i =? j); [apply andb_false_r|apply andb_true_r].
        -- destruct (Z.eqb_spec i j) as [<-|]; [|done]. rewrite (so_bits _ Hok) by done. rewrite El. done.
    + rewrite K2, K1. unfold list_keys. rewrite El, Hql. cbn [map app]. unfold block_key. cbn.
      rewrite Z2Nat.id by lia. done.
    + lia.
    + apply Forall_forall. intros k Hk Hle. specialize (Hkey k Hk Hle).
      destruct (Z.lt_ge_cases (key_size k - 1) i) as [Hlt|]; [|lia].
      destruct (key_bit c Hok k Hk) as [Hr _]. rewrite Hlow in Hkey; [done|lia].
Qed.

Lemma seg_empty_law c l : seg_contains c l ->
  container_seglists_is_empty c = c_bool (bool_decide (l = [])).
Proof.
  intros [Hok ->]. unfold container_seglists_is_empty. f_equal.
  destruct (Z.eqb_spec (nonempty_lists c) 0) as [E|E].
  - symmetry. apply bool_decide_eq_true. by apply empty_keys.
  - symmetry. apply bool_decide_eq_false. intros Hk. apply E. by apply empty_keys.
Qed.

Lemma seg_rm_all_law ok c l : seg_contains c l -> seg_env_ok ok c ->
  exists c', container_seglists_rm_all ok c = Some c' /\ seg_contains c' [].
Proof.
  intros [Hok ->] _. eexists. split; [reflexivity|].
  assert (seg_ok (Seglists (sl_m c) (map VECQ_CLEAR (blocks c)) 0)) as Hok'.
  { constructor; cbn [blocks nonempty_lists].
    - rewrite length_map. apply Hok.
    - apply Forall_map. eapply Forall_impl; [apply (so_queues _ Hok)|]. intros q Hq. by apply vecq_clear_spec.
    - lia.
    - intros i Hi. rewrite Z.testbit_0_l. symmetry. apply negb_false_iff, bool_decide_eq_true.
      unfold get_list. cbn [blocks]. rewrite list_lookup_fmap, (get_lookup c Hok i Hi). cbn.
      by apply vecq_clear_spec, get_ok. }
  split; [done|]. symmetry. by apply (empty_keys _ Hok').
Qed.

(** Its queues are volatile: inserting stores nothing to persistent memory. *)
Definition seg_insert (ok : bool) (c : block_container_seglists) (m : memory_block) (s : pmst)
    : option (Z * block_container_seglists * pmst) :=
  '(ret, c) ← container_seglists_insert_block ok c m; Some (ret, c, s).

Lemma seg_insert_pure ok c l m s :
  seg_contains c l -> seg_env_ok ok c -> seg_accepts c m ->
  exists c' l' s', seg_insert ok c m s = Some (0, c', s') /\ seg_contains c' l' /\ l' ≡ₚ block_key m :: l /\
    forall x, ~ False -> vis s' x = vis s x.
Proof.
  intros Hc He Ha. destruct (seg_insert_law ok c l m Hc He Ha) as (c' & l' & E & H). unfold seg_insert. rewrite E.
  exists c', l', s. split; [done|]. by destruct H.
Qed.

#[global] Instance container_seglists_ops : BlockContainer block_container_seglists bool := {
  insert := seg_insert;
  get_rm_bestfit := container_seglists_get_rm_block_bestfit;
  is_empty := container_seglists_is_empty;
  rm_all := container_seglists_rm_all;
  contains := seg_contains;
  env_ok := seg_env_ok;
  accepts := fun c _ m => seg_accepts c m;
  query_ok := fun m => 1 <= size_idx m <= 64;
  descriptor := fun _ _ _ => False;
  insert_law := fun ok c l m s => seg_insert_pure ok c l m s;
  bestfit_law := seg_bestfit_law;
  empty_law := seg_empty_law;
  rm_all_law := seg_rm_all_law
}.

Lemma new_seglists_ok junk : seg_contains (container_new_seglists junk) [].
Proof.
  assert (seg_ok (container_new_seglists junk)) as Hok.
  { constructor; cbn [container_new_seglists blocks nonempty_lists].
    - apply length_replicate.
    - apply Forall_replicate. by left.
    - lia.
    - intros i Hi. rewrite Z.testbit_0_l. unfold get_list. cbn [container_new_seglists blocks].
      rewrite lookup_replicate_2 by lia. done. }
  split; [done|]. symmetry. by apply (empty_keys _ Hok).
Qed.

(** ** Theorems *)

(** Segregated lists: insertion.  A block whose size has a list of its own and
    that belongs to the chunk of the blocks already there is added to the
    container (through any growth of its queue), which keeps its invariant: the
    bitmap marks exactly the non-empty lists. *)
Theorem container_seglists_insert_correct ok c l m :
  seg_contains c l -> seg_env_ok ok c -> seg_accepts c m ->
  exists c' l', container_seglists_insert_block ok c m = Some (0, c') /\ seg_contains c' l' /\
    l' ≡ₚ block_key m :: l.
Proof. apply seg_insert_law. Qed.

(** Segregated lists: best fit.  A request for 1 to 64 units fails with ENOMEM
    exactly when every block is smaller, without any change; otherwise the bitmap
    arithmetic selects the smallest sufficient size, and one block of that size is
    removed and returned. *)
Theorem container_seglists_bestfit ok c l m :
  seg_contains c l -> seg_env_ok ok c -> 1 <= size_idx m <= 64 ->
  (Forall (fun k => key_size k < size_idx m) l /\
     container_seglists_get_rm_block_bestfit ok c m = Some (ENOMEM, m, c)) \/
  (exists m' c' l', container_seglists_get_rm_block_bestfit ok c m = Some (0, m', c') /\ seg_contains c' l' /\
     l ≡ₚ block_key m' :: l' /\ size_idx m <= size_idx m' /\
     Forall (fun k => size_idx m <= key_size k -> size_idx m' <= key_size k) l).
Proof. apply seg_bestfit_law. Qed.

Lemma new_seglists_env junk : seg_env_ok true (container_new_seglists junk).
Proof. split; [done|]. cbn [container_new_seglists blocks]. apply Forall_replicate. cbn. lia. Qed.

Lemma container_seglists_insert_correct_witness :
  exists c' l', container_seglists_insert_block true (container_new_seglists (ex_block 0 0)) (ex_block 4 9) =
      Some (0, c') /\ seg_contains c' l' /\ l' ≡ₚ [block_key (ex_block 4 9)].
Proof.
  apply (container_seglists_insert_correct true (container_new_seglists (ex_block 0 0)) [] (ex_block 4 9)
    (new_seglists_ok _) (new_seglists_env _)).
  split; [cbn; lia|]. intros H. by destruct H.
Defined.

Lemma container_seglists_bestfit_witness :
  exists c l, container_seglists_insert_block true (container_new_seglists (ex_block 0 0)) (ex_block 4 9) =
      Some (0, c) /\ l ≡ₚ [block_key (ex_block 4 9)] /\
    ((Forall (fun k => key_size k < 2) l /\
       container_seglists_get_rm_block_bestfit true c (ex_block 2 0) = Some (ENOMEM, ex_block 2 0, c)) \/
     (exists m' c' l', container_seglists_get_rm_block_bestfit true c (ex_block 2 0) = Some (0, m', c') /\
       seg_contains c' l' /\ l ≡ₚ block_key m' :: l' /\ 2 <= size_idx m' /\
       Forall (fun k => 2 <= key_size k -> size_idx m' <= key_size k) l)).
Proof.
  destruct (seg_insert_law true (container_new_seglists (ex_block 0 0)) [] (ex_block 4 9)
    (new_seglists_ok _) (new_seglists_env _)) as (c & l & E & Hc & Hl).
  { split; [cbn; lia|]. intros H. by destruct H. }
  exists c, l. split; [exact E|]. split; [exact Hl|].
  apply (container_seglists_bestfit true c l (ex_block 2 0) Hc); [|cbn; lia].
  split; [done|]. vm_compute in E. injection E as <-. apply Forall_forall. intros q Hq.
  apply list_elem_of_In in Hq. cbn [blocks] in Hq.
  repeat (destruct Hq as [<-|Hq]; [reflexivity|]). destruct Hq.
Defined.
