(* ===== verification/Bucket.v ===== *)
(** * Buckets (libpmemobj/bucket.c)

    A bucket is the client of a block container: it holds one together with the
    state of the run it currently serves.  Its functions are stated against the
    contract [BlockContainer] only. *)
From stdpp Require Import base numbers list.
From Stdlib Require Import ZArith Lia Bool.
From S2P Require Import Prelude Pmem Vecq Container Seglists.

Inductive alloc_class_type := CLASS_UNKNOWN | CLASS_HUGE | CLASS_RUN.

(** The run a bucket serves: the block and its number of reservations. *)
Record memory_block_reserved := MBReserved { mbr_m : memory_block; nresv : Z }.

Record bucket (C : Type) := Bucket {
  aclass : option alloc_class_type;
  container : C;
  active_memory_block : option memory_block_reserved;
  is_active : bool }.
Arguments Bucket {C}.
Arguments aclass {C}.
Arguments container {C}.
Arguments active_memory_block {C}.
Arguments is_active {C}.

Section Bucket.
Context {C E : Type} `{!BlockContainer C E}.

(** [c]: the container or NULL; the booleans are the results of the two
    allocations.  Zalloc returns a zeroed block. *)
Definition bucket_new (c : option C) (ac : option alloc_class_type) (ok_bucket ok_active : bool)
    : option (bucket C) :=
  match c with
  | None => None
  | Some c =>
      if negb ok_bucket then None else
      match ac with
      | Some CLASS_RUN =>
          if ok_active then Some (Bucket ac c (Some (MBReserved (MBlock 0 0 0 0 0 0 0 0) 0)) false)
          else None
      | _ => Some (Bucket ac c None false)
      end
  end.

Definition bucket_insert_block (e : E) (b : bucket C) (m : memory_block) (s : pmst)
    : option (Z * bucket C * pmst) :=
  '(ret, c, s) ← insert e (container b) m s;
  Some (ret, Bucket (aclass b) c (active_memory_block b) (is_active b), s).

Definition bucket_current_resvp (b : bucket C) : option Z :=
  match active_memory_block b with Some a => Some (nresv a) | None => None end.

(** A block that was inserted into a bucket can be had again: whatever the
    container behind it, a best-fit request for at most the size of an inserted
    block succeeds, and it never returns a block larger than that one. *)
Theorem bucket_insert_then_fit e e' (b : bucket C) l m q s :
  contains (container b) l -> env_ok e (container b) -> accepts (container b) l m ->
  query_ok q -> size_idx q <= size_idx m ->
  exists b' s', bucket_insert_block e b m s = Some (0, b', s') /\
    (env_ok e' (container b') ->
     exists m' c'', get_rm_bestfit e' (container b') q = Some (0, m', c'') /\
       size_idx q <= size_idx m' <= size_idx m).
Proof.
  intros Hc He Ha Hq Hs. destruct (insert_law e (container b) l m s Hc He Ha) as (c' & l' & s' & Hins & Hc' & HP & _).
  unfold bucket_insert_block. rewrite Hins. cbn [mbind option_bind]. eexists _, s'. split; [done|].
  cbn [container]. intros He'.
  assert (block_key m ∈ l') as Hin by (rewrite HP; left).
  destruct (bestfit_law e' c' l' q Hc' He' Hq) as [[Hall _]|(m' & c'' & l'' & Hbf & _ & _ & H1 & H2)].
  - rewrite Forall_forall in Hall. specialize (Hall _ Hin). change (size_idx m < size_idx q) in Hall. lia.
  - exists m', c''. split; [done|]. rewrite Forall_forall in H2. specialize (H2 _ Hin Hs).
    change (size_idx m' <= size_idx m) in H2. lia.
Qed.
End Bucket.

Lemma bucket_insert_then_fit_witness :
  let b := Bucket (Some CLASS_RUN) (container_new_seglists (ex_block 0 0)) None false in
  exists b' s', bucket_insert_block true b (ex_block 4 9) (PMst (fun _ => Byte.x00) [] false) = Some (0, b', s') /\
    (env_ok true (container b') ->
     exists m' c'', get_rm_bestfit true (container b') (ex_block 2 0) = Some (0, m', c'') /\
       size_idx (ex_block 2 0) <= size_idx m' <= size_idx (ex_block 4 9)).
Proof.
  apply (bucket_insert_then_fit true true
    (Bucket (Some CLASS_RUN) (container_new_seglists (ex_block 0 0)) None false) [] (ex_block 4 9) (ex_block 2 0) (PMst (fun _ => Byte.x00) [] false)).
  - apply new_seglists_ok.
  - split; [done|]. cbn [container container_new_seglists blocks]. apply Forall_replicate. cbn. lia.
  - split; [cbn; lia|]. intros H. by destruct H.
  - cbn. lia.
  - cbn. lia.
Defined.
