(* ===== verification/Memops.v ===== *)
(** * Aggregated memory operations (libpmemobj/memops.h, memops.c)

    An operation context collects modifications in two volatile logs (a shadow
    of the persistent redo log, and a log of transient changes) or appends
    snapshots to the persistent undo log, and processes them in one go.  The
    state is the context itself, the pool object with its tree of user buffers,
    and the memory.  What malloc returns is an argument: an address, 0 for
    failure, or a flag for the growth of a vector.  [None] is a run that ends in
    a NULL dereference, an abort, or out of fuel. *)
From stdpp Require Import base numbers list list_numbers.
From Stdlib Require Import ZArith Lia Bool.
From S2P Require Import Prelude Pmem Checksum Ulog Ravl Vecq.

Definition ULOG_BASE_SIZE : Z := 1024.
Definition OP_MERGE_SEARCH : Z := 64.

Inductive operation_state := OPERATION_IDLE | OPERATION_IN_PROGRESS | OPERATION_CLEANUP.
Inductive operation_log_type := LOG_PERSISTENT | LOG_TRANSIENT.
Inductive log_type := LOG_TYPE_UNDO | LOG_TYPE_REDO.

#[global] Instance operation_state_eq : EqDecision operation_state.
Proof. solve_decision. Defined.
#[global] Instance operation_log_type_eq : EqDecision operation_log_type.
Proof. solve_decision. Defined.
#[global] Instance log_type_eq : EqDecision log_type.
Proof. solve_decision. Defined.

Record operation_log := OpLog {
  log_capacity : Z;  (* capacity of the ulog log *)
  log_offset : Z;    (* data offset inside of the log *)
  log_ulog : Z       (* DRAM allocated log of modifications *)
}.

Record user_buffer_def := UserBuf { addr : Z; size : Z }.

(** The fields of PMEMobjpool the operations read or write. *)
Record PMEMobjpool := Pop {
  lanes_offset : Z;
  nlanes : Z;
  heap_offset : Z;
  heap_size : Z;
  ulog_user_buffers_map : ravl user_buffer_def;
  ulog_user_buffers_verify : bool
}.

(** The pool object and the memory. *)
Abbreviation world := (PMEMobjpool * pmst)%type.

Abbreviation ulog_extend_fn := (Z -> Z -> world -> Z * world).
Abbreviation ulog_free_fn := (Z -> world -> world).

Record operation_context := OpCtx {
  ctx_type : log_type;
  ctx_extend : option ulog_extend_fn;
  ctx_ulog_free : ulog_free_fn;
  ctx_p_ops : pmem_ops;
  ctx_t_ops : pmem_ops;
  ctx_s_ops : pmem_ops;
  ulog_curr_offset : Z;
  ulog_curr_capacity : Z;
  ulog_curr_gen_num : Z;
  ulog_curr : Z;
  total_logged : Z;
  ctx_ulog : Z;
  ctx_ulog_base_nbytes : Z;
  ctx_ulog_capacity : Z;
  ulog_auto_reserve : Z;
  ulog_any_user_buffer : Z;
  ctx_next : list Z;
  ctx_state : operation_state;
  pshadow_ops : operation_log;
  transient_ops : operation_log;
  merge_entries : vecq Z
}.

(** ** Field updates *)

Definition set_curr (off cap gen cur : Z) (c : operation_context) : operation_context :=
  OpCtx (ctx_type c) (ctx_extend c) (ctx_ulog_free c) (ctx_p_ops c) (ctx_t_ops c) (ctx_s_ops c)
    off cap gen cur (total_logged c) (ctx_ulog c) (ctx_ulog_base_nbytes c) (ctx_ulog_capacity c)
    (ulog_auto_reserve c) (ulog_any_user_buffer c) (ctx_next c) (ctx_state c)
    (pshadow_ops c) (transient_ops c) (merge_entries c).
Definition set_total_logged (t : Z) (c : operation_context) : operation_context :=
  OpCtx (ctx_type c) (ctx_extend c) (ctx_ulog_free c) (ctx_p_ops c) (ctx_t_ops c) (ctx_s_ops c)
    (ulog_curr_offset c) (ulog_curr_capacity c) (ulog_curr_gen_num c) (ulog_curr c)
    t (ctx_ulog c) (ctx_ulog_base_nbytes c) (ctx_ulog_capacity c)
    (ulog_auto_reserve c) (ulog_any_user_buffer c) (ctx_next c) (ctx_state c)
    (pshadow_ops c) (transient_ops c) (merge_entries c).
Definition set_chain (cap : Z) (next : list Z) (c : operation_context) : operation_context :=
  OpCtx (ctx_type c) (ctx_extend c) (ctx_ulog_free c) (ctx_p_ops c) (ctx_t_ops c) (ctx_s_ops c)
    (ulog_curr_offset c) (ulog_curr_capacity c) (ulog_curr_gen_num c) (ulog_curr c)
    (total_logged c) (ctx_ulog c) (ctx_ulog_base_nbytes c) cap
    (ulog_auto_reserve c) (ulog_any_user_buffer c) next (ctx_state c)
    (pshadow_ops c) (transient_ops c) (merge_entries c).
Definition set_flags (auto_reserve any : Z) (c : operation_context) : operation_context :=
  OpCtx (ctx_type c) (ctx_extend c) (ctx_ulog_free c) (ctx_p_ops c) (ctx_t_ops c) (ctx_s_ops c)
    (ulog_curr_offset c) (ulog_curr_capacity c) (ulog_curr_gen_num c) (ulog_curr c)
    (total_logged c) (ctx_ulog c) (ctx_ulog_base_nbytes c) (ctx_ulog_capacity c)
    auto_reserve any (ctx_next c) (ctx_state c)
    (pshadow_ops c) (transient_ops c) (merge_entries c).
Definition set_state (st : operation_state) (c : operation_context) : operation_context :=
  OpCtx (ctx_type c) (ctx_extend c) (ctx_ulog_free c) (ctx_p_ops c) (ctx_t_ops c) (ctx_s_ops c)
    (ulog_curr_offset c) (ulog_curr_capacity c) (ulog_curr_gen_num c) (ulog_curr c)
    (total_logged c) (ctx_ulog c) (ctx_ulog_base_nbytes c) (ctx_ulog_capacity c)
    (ulog_auto_reserve c) (ulog_any_user_buffer c) (ctx_next c) st
    (pshadow_ops c) (transient_ops c) (merge_entries c).
Definition set_logs (p t : operation_log) (q : vecq Z) (c : operation_context) : operation_context :=
  OpCtx (ctx_type c) (ctx_extend c) (ctx_ulog_free c) (ctx_p_ops c) (ctx_t_ops c) (ctx_s_ops c)
    (ulog_curr_offset c) (ulog_curr_capacity c) (ulog_curr_gen_num c) (ulog_curr c)
    (total_logged c) (ctx_ulog c) (ctx_ulog_base_nbytes c) (ctx_ulog_capacity c)
    (ulog_auto_reserve c) (ulog_any_user_buffer c) (ctx_next c) (ctx_state c) p t q.
Definition set_merge (q : vecq Z) (c : operation_context) : operation_context :=
  set_logs (pshadow_ops c) (transient_ops c) q c.

(** [oplog] of operation_add_typed_entry: the log of the given type. *)
Definition oplog_of (t : operation_log_type) (c : operation_context) : operation_log :=
  match t with LOG_PERSISTENT => pshadow_ops c | LOG_TRANSIENT => transient_ops c end.
Definition set_oplog (t : operation_log_type) (l : operation_log) (c : operation_context)
    : operation_context :=
  match t with
  | LOG_PERSISTENT => set_logs l (transient_ops c) (merge_entries c) c
  | LOG_TRANSIENT => set_logs (pshadow_ops c) l (merge_entries c) c
  end.

(** ** Pool offsets (obj.h) *)

Definition sizeof_lane_layout : Z := 3072.
Definition offsetof_root_offset : Z := 6144.
Definition offsetof_root_size : Z := 6160.
Definition OBJ_PTR_TO_OFF (pop ptr : Z) : Z := u64 (ptr - pop).
Definition OBJ_OFF_FROM_HEAP (pop : PMEMobjpool) (off : Z) : bool :=
  (heap_offset pop <=? off) && (off <? u64 (heap_offset pop + heap_size pop)).
Definition OBJ_OFF_FROM_LANES (pop : PMEMobjpool) (off : Z) : bool :=
  (lanes_offset pop <=? off) &&
  (off <? u64 (lanes_offset pop + u64 (nlanes pop * sizeof_lane_layout))).
Definition OBJ_OFF_IS_VALID (pop : PMEMobjpool) (off : Z) : bool :=
  OBJ_OFF_FROM_HEAP pop off || (offsetof_root_offset =? off) ||
  (offsetof_root_size =? off) || OBJ_OFF_FROM_LANES pop off.

(** ** Creation *)

(** Zalloc: zeroed memory at the address malloc returned. *)
Definition Zalloc (a n : Z) (s : pmst) : pmst := st_store a (replicate (Z.to_nat n) Byte.x00) s.

Definition operation_log_transient_init (a : Z) (s : pmst) : Z * operation_log * pmst :=
  if a =? 0 then (-1, OpLog ULOG_BASE_SIZE 0 0, s) else
  let s := Zalloc a (SIZEOF_ULOG ULOG_BASE_SIZE) s in
  let s := st_store64 (ulog_capacity_addr a) ULOG_BASE_SIZE s in
  (0, OpLog ULOG_BASE_SIZE 0 a, s).

Definition operation_log_persistent_init (a ulog_base_nbytes : Z) (s : pmst)
    : Z * operation_log * pmst :=
  if a =? 0 then (-1, OpLog ULOG_BASE_SIZE 0 0, s) else
  let s := Zalloc a (SIZEOF_ULOG ULOG_BASE_SIZE) s in
  let s := st_store64 (ulog_capacity_addr a) ulog_base_nbytes s in
  let s := st_store (ulog_unused_addr a) (replicate 24 Byte.x00) s in
  (0, OpLog ULOG_BASE_SIZE 0 a, s).

(** [ctx_ok]: the context itself was allocated; [ta], [pa]: the logs' addresses.
    The result is NULL when an allocation fails. *)
Definition operation_new (fuel : nat) (ctx_ok : bool) (ta pa : Z) (ulog ulog_base_nbytes : Z)
    (extend : option ulog_extend_fn) (ulog_free : ulog_free_fn) (p_ops : pmem_ops)
    (type : log_type) (s : pmst) : option (option operation_context * pmst) :=
  if negb ctx_ok then Some (None, s) else
  capacity ← ulog_capacity fuel (vis s) ulog ulog_base_nbytes p_ops;
  next ← ulog_rebuild_next_vec fuel (vis s) ulog [] p_ops;
  let '(rt, tlog, s) := operation_log_transient_init ta s in
  if negb (rt =? 0) then Some (None, s) else
  let '(rp, plog, s) := operation_log_persistent_init pa ulog_base_nbytes s in
  if negb (rp =? 0) then Some (None, s) else
  Some (Some (OpCtx type extend ulog_free p_ops (POps 0 OPS_TRANSIENT)
    (POps (base p_ops) OPS_TRANSIENT) 0 0 0 0 0 ulog ulog_base_nbytes capacity 0 0 next
    OPERATION_IDLE plog tlog VECQ_INIT), s).

(** ** User buffers *)

Definition operation_user_buffer_range_cmp (l r : user_buffer_def) : Z :=
  if addr r <? addr l then 1 else if addr l <? addr r then -1 else 0.

Definition set_map (map : ravl user_buffer_def) (pop : PMEMobjpool) : PMEMobjpool :=
  Pop (lanes_offset pop) (nlanes pop) (heap_offset pop) (heap_size pop) map
    (ulog_user_buffers_verify pop).

(** ravl_remove of a NULL node is a NULL dereference. *)
Definition operation_user_buffer_remove (fuel : nat) (a : Z) (pop : PMEMobjpool)
    : option PMEMobjpool :=
  if negb (ulog_user_buffers_verify pop) then Some pop else
  n ← ravl_find operation_user_buffer_range_cmp fuel (ulog_user_buffers_map pop)
        (UserBuf a 0) RAVL_PREDICATE_EQUAL;
  map ← ravl_remove fuel n (ulog_user_buffers_map pop);
  Some (set_map map pop).

(** [na]: the address of the tree's new node.  [search.size] is not set by the
    code and not read by the comparison. *)
Definition operation_user_buffer_try_insert (fuel : nat) (na : Z) (pop : PMEMobjpool)
    (userbuf : user_buffer_def) : option (Z * PMEMobjpool) :=
  if negb (ulog_user_buffers_verify pop) then Some (0, pop) else
  let addr_end := addr userbuf + size userbuf in
  n ← ravl_find operation_user_buffer_range_cmp fuel (ulog_user_buffers_map pop)
        (UserBuf addr_end 0) RAVL_PREDICATE_LESS_EQUAL;
  overlaps ← (if n =? 0 then Some false else
              nd ← deref (ulog_user_buffers_map pop) n;
              let r_end := addr (data nd) + size (data nd) in
              Some ((addr userbuf <? r_end) && (addr (data nd) <? addr_end)));
  if (overlaps : bool) then Some (-1, pop) else
  '(ret, map) ← ravl_emplace_copy operation_user_buffer_range_cmp fuel
                  (ulog_user_buffers_map pop) na userbuf;
  Some (if ret =? -1 then -1 else 0, set_map map pop).

(** [capacity_unaligned] is signed; the pointer and size arguments are small
    enough for the casts to be the identity. *)
Definition operation_user_buffer_verify_align (fuel : nat) (na : Z) (ctx : operation_context)
    (userbuf : user_buffer_def) (pop : PMEMobjpool)
    : option (Z * user_buffer_def * PMEMobjpool) :=
  let buffer_offset := OBJ_PTR_TO_OFF (base (ctx_p_ops ctx)) (addr userbuf) in
  let aligned := ulog_by_offset buffer_offset (ctx_p_ops ctx) in
  let size_diff := aligned - addr userbuf in
  let capacity_unaligned := size userbuf - size_diff - SIZEOF_ULOG_HDR in
  if capacity_unaligned <=? CACHELINE_SIZE then Some (-1, userbuf, pop) else
  let capacity_aligned := ALIGN_DOWN capacity_unaligned CACHELINE_SIZE in
  let userbuf := UserBuf aligned (capacity_aligned + SIZEOF_ULOG_HDR) in
  '(ret, pop) ← operation_user_buffer_try_insert fuel na pop userbuf;
  Some (if ret =? 0 then 0 else -1, userbuf, pop).

Definition operation_set_auto_reserve (ctx : operation_context) (auto_reserve : Z)
    : operation_context := set_flags auto_reserve (ulog_any_user_buffer ctx) ctx.
Definition operation_set_any_user_buffer (ctx : operation_context) (any : Z)
    : operation_context := set_flags (ulog_auto_reserve ctx) any ctx.
Definition operation_get_any_user_buffer (ctx : operation_context) : Z := ulog_any_user_buffer ctx.

Definition operation_add_user_buffer (ctx : operation_context) (userbuf : user_buffer_def)
    (s : pmst) : operation_context * pmst :=
  let p_ops := ctx_p_ops ctx in
  let buffer_offset := OBJ_PTR_TO_OFF (base p_ops) (addr userbuf) in
  let capacity := u64 (size userbuf - SIZEOF_ULOG_HDR) in
  let s := ulog_construct buffer_offset capacity
             (load64 (vis s) (ulog_gen_num_addr (ctx_ulog ctx))) true ULOG_USER_OWNED p_ops s in
  let last_log := match last (ctx_next ctx) with
                  | None => ctx_ulog ctx
                  | Some off => ulog_by_offset off p_ops
                  end in
  let s := st_store64 (ulog_next_addr last_log) buffer_offset s in
  let s := pmemops_persist p_ops (ulog_next_addr last_log) 8 s in
  let ctx := set_chain (u64 (ctx_ulog_capacity ctx + capacity))
               (ctx_next ctx ++ [buffer_offset]) ctx in
  (operation_set_any_user_buffer ctx 1, s).

(** ** Freeing the logs *)

(** The capacity and the next vector are read again after the chain shrank. *)
Definition rebuild_chain (fuel : nat) (ctx : operation_context) (s : pmst)
    : option operation_context :=
  capacity ← ulog_capacity fuel (vis s) (ctx_ulog ctx) (ctx_ulog_base_nbytes ctx) (ctx_p_ops ctx);
  next ← ulog_rebuild_next_vec fuel (vis s) (ctx_ulog ctx) [] (ctx_p_ops ctx);
  Some (set_chain capacity next ctx).

Definition operation_free_logs (fuel : nat) (push_ok : nat -> bool) (ctx : operation_context)
    (flags : Z) (ws : world) : option (operation_context * world) :=
  '(freed, ws) ← ulog_free_next fuel (ctx_ulog ctx) (ctx_p_ops ctx) (ctx_ulog_free ctx)
                   (operation_user_buffer_remove fuel) push_ok flags ws;
  if freed =? 0 then Some (ctx, ws)
  else ctx ← rebuild_chain fuel ctx ws.2; Some (ctx, ws).

(** ** Value entries *)

Definition operation_merge (entry value type : Z) (s : pmst) : pmst :=
  let old := load64 (vis s) (entry_value_addr entry) in
  if type =? ULOG_OPERATION_AND then st_store64 (entry_value_addr entry) (Z.land old value) s
  else if type =? ULOG_OPERATION_OR then st_store64 (entry_value_addr entry) (Z.lor old value) s
  else if type =? ULOG_OPERATION_SET then st_store64 (entry_value_addr entry) value s
  else s.

(** The loop of operation_try_merge_entry over the entries it visits. *)
Fixpoint try_merge_loop (es : list Z) (offset value type : Z) (s : pmst) : Z * pmst :=
  match es with
  | [] => (0, s)
  | e :: es =>
      if ulog_entry_offset (vis s) e =? offset then
        if ulog_entry_type (vis s) e =? type then (1, operation_merge e value type s)
        else (0, s)
      else try_merge_loop es offset value type s
  end.

Definition operation_try_merge_entry (ctx : operation_context) (ptr value type : Z) (s : pmst)
    : Z * pmst :=
  let offset := OBJ_PTR_TO_OFF (base (ctx_p_ops ctx)) ptr in
  try_merge_loop (VECQ_FOREACH_REVERSE (merge_entries ctx)) offset value type s.

(** [ok]: the queue could grow if it had to. *)
Definition operation_merge_entry_add (ok : bool) (entry : Z) (ctx : operation_context)
    : operation_context :=
  let q := merge_entries ctx in
  let q := if VECQ_SIZE q =? OP_MERGE_SEARCH then (VECQ_DEQUEUE q).2 else q in
  set_merge (VECQ_ENQUEUE ok q entry).2 ctx.

(** Realloc of a log: the old content at the new address. *)
Definition Realloc_log (new old n : Z) (s : pmst) : pmst :=
  st_store new (read_bytes (vis s) old (Z.to_nat n)) s.

(** [ra]: what Realloc returns when the log has to grow. *)
Definition operation_add_typed_entry (ra : Z) (ok : bool) (ctx : operation_context)
    (ptr value type : Z) (lt : operation_log_type) (s : pmst)
    : Z * operation_context * pmst :=
  let oplog := oplog_of lt ctx in
  let '(ret, ctx, s) :=
    if u64 (log_offset oplog + CACHELINE_SIZE) =? log_capacity oplog then
      if ra =? 0 then (-1, ctx, s) else
      let s := Realloc_log ra (log_ulog oplog) (SIZEOF_ULOG (log_capacity oplog)) s in
      let oplog := OpLog (u64 (log_capacity oplog + ULOG_BASE_SIZE)) (log_offset oplog) ra in
      let s := st_store64 (ulog_capacity_addr ra) (log_capacity oplog) s in
      let ctx := set_oplog lt oplog ctx in
      (0, set_merge (VECQ_CLEAR (merge_entries ctx)) ctx, s)
    else (0, ctx, s) in
  if negb (ret =? 0) then (-1, ctx, s) else
  let '(merged, s) :=
    match lt with
    | LOG_PERSISTENT => operation_try_merge_entry ctx ptr value type s
    | LOG_TRANSIENT => (0, s)
    end in
  if negb (merged =? 0) then (0, ctx, s) else
  let oplog := oplog_of lt ctx in
  let '(entry, s) := ulog_entry_val_create (log_ulog oplog) (log_offset oplog) ptr value type
    (match lt with LOG_TRANSIENT => ctx_t_ops ctx | LOG_PERSISTENT => ctx_s_ops ctx end) s in
  let ctx := match lt with
             | LOG_PERSISTENT => operation_merge_entry_add ok entry ctx
             | LOG_TRANSIENT => ctx
             end in
  let oplog := OpLog (log_capacity oplog)
                 (u64 (log_offset oplog + ulog_entry_size (vis s) entry)) (log_ulog oplog) in
  (0, set_oplog lt oplog ctx, s).

Definition operation_add_entry (ra : Z) (ok : bool) (ctx : operation_context)
    (ptr value type : Z) (ws : world) : Z * operation_context * world :=
  let from_pool := OBJ_OFF_IS_VALID ws.1 (u64 (ptr - base (ctx_p_ops ctx))) in
  let '(ret, ctx, s) := operation_add_typed_entry ra ok ctx ptr value type
    (if from_pool then LOG_PERSISTENT else LOG_TRANSIENT) ws.2 in
  (ret, ctx, (ws.1, s)).

(** ** Snapshots *)

Definition operation_reserve (fuel : nat) (ctx : operation_context) (new_capacity : Z)
    (ws : world) : option (Z * operation_context * world) :=
  if ctx_ulog_capacity ctx <? new_capacity then
    match ctx_extend ctx with
    | None => Some (-1, ctx, ws)
    | Some extend =>
        '(ret, new_capacity, next, ws) ←
          ulog_reserve fuel (ctx_ulog ctx) (ctx_ulog_base_nbytes ctx) (ulog_curr_gen_num ctx)
            (ulog_auto_reserve ctx) new_capacity extend (ctx_next ctx) (ctx_p_ops ctx) ws;
        if ret =? 0 then Some (0, set_chain new_capacity next ctx, ws)
        else Some (-1, set_chain (ctx_ulog_capacity ctx) next ctx, ws)
    end
  else Some (0, ctx, ws).

(** Moving to the next log of the chain when the current one is full. *)
Definition next_curr_log (fuel : nat) (ctx : operation_context) (real_size : Z) (ws : world)
    : option (Z * operation_context * world) :=
  if ulog_curr_capacity ctx =? 0 then
    let ctx := set_curr (ulog_curr_offset ctx) (ulog_curr_capacity ctx)
                 (load64 (vis ws.2) (ulog_gen_num_addr (ctx_ulog ctx))) (ulog_curr ctx) ctx in
    '(ret, ctx, ws) ← operation_reserve fuel ctx (u64 (total_logged ctx + real_size)) ws;
    if negb (ret =? 0) then Some (-1, ctx, ws) else
    let curr := if ulog_curr ctx =? 0 then ctx_ulog ctx
                else ulog_next (vis ws.2) (ulog_curr ctx) (ctx_p_ops ctx) in
    if curr =? 0 then None else
    Some (0, set_curr 0 (load64 (vis ws.2) (ulog_capacity_addr curr))
               (ulog_curr_gen_num ctx) curr ctx, ws)
  else Some (0, ctx, ws).

(** The header that follows the new entry, 0 when it would be the last one. *)
Definition next_entry_of (ctx : operation_context) (entry_size : Z) (m : mem) : Z :=
  if entry_size =? ulog_curr_capacity ctx then
    let u := ulog_next m (ulog_curr ctx) (ctx_p_ops ctx) in
    if u =? 0 then 0 else ulog_data u
  else ulog_data (ulog_curr ctx) + u64 (ulog_curr_offset ctx + entry_size).

Fixpoint operation_add_buffer (fuel : nat) (ctx : operation_context)
    (dest src size type : Z) (ws : world) : option (Z * operation_context * world) :=
  match fuel with
  | O => None
  | S k =>
      let real_size := u64 (size + sizeof_entry_buf) in
      '(ret, ctx, ws) ← next_curr_log k ctx real_size ws;
      if negb (ret =? 0) then Some (-1, ctx, ws) else
      let '(pop, s) := ws in
      let curr_size := Z.min real_size (ulog_curr_capacity ctx) in
      let data_size := u64 (curr_size - sizeof_entry_buf) in
      let entry_size := ALIGN_UP curr_size CACHELINE_SIZE in
      let next_entry := next_entry_of ctx entry_size (vis s) in
      let s := if next_entry =? 0 then s else ulog_clobber_entry next_entry (ctx_p_ops ctx) s in
      '(_, s) ← ulog_entry_buf_create (ulog_curr ctx) (ulog_curr_offset ctx)
                  (ulog_curr_gen_num ctx) dest src data_size type (ctx_p_ops ctx) s;
      let ctx := set_total_logged (u64 (total_logged ctx + entry_size)) ctx in
      let ctx := set_curr (u64 (ulog_curr_offset ctx + entry_size))
                   (u64 (ulog_curr_capacity ctx - entry_size))
                   (ulog_curr_gen_num ctx) (ulog_curr ctx) ctx in
      if u64 (size - data_size) =? 0 then Some (0, ctx, (pop, s))
      else operation_add_buffer k ctx (dest + data_size) (src + data_size)
             (u64 (size - data_size)) type (pop, s)
  end.

(** ** Running an operation *)

Definition operation_init (ctx : operation_context) : operation_context :=
  let plog := pshadow_ops ctx in
  let tlog := transient_ops ctx in
  let ctx := set_logs (OpLog (log_capacity plog) 0 (log_ulog plog))
               (OpLog (log_capacity tlog) 0 (log_ulog tlog))
               (VECQ_REINIT (merge_entries ctx)) ctx in
  set_flags 1 0 (set_total_logged 0 (set_curr 0 0 0 0 ctx)).

Definition operation_start (ctx : operation_context) : operation_context :=
  set_state OPERATION_IN_PROGRESS (operation_init ctx).

Definition operation_resume (fuel : nat) (ctx : operation_context) (s : pmst)
    : option operation_context :=
  let ctx := operation_start ctx in
  n ← ulog_base_nbytes fuel (vis s) (ctx_ulog ctx);
  Some (set_total_logged n ctx).

Definition operation_cancel (ctx : operation_context) : operation_context :=
  set_state OPERATION_IDLE ctx.

Definition operation_process_persistent_redo (fuel : nat) (ctx : operation_context) (s : pmst)
    : option pmst :=
  let plog := pshadow_ops ctx in
  s ← ulog_store (ctx_ulog ctx) (log_ulog plog) (log_offset plog) (ctx_ulog_base_nbytes ctx)
        (ctx_ulog_capacity ctx) (ctx_next ctx) (ctx_p_ops ctx) s;
  s ← ulog_process fuel (log_ulog plog) (ctx_p_ops ctx) s;
  Some (ulog_clobber (ctx_ulog ctx) (Some (ctx_next ctx)) (ctx_p_ops ctx) s).

Definition operation_process_persistent_undo (fuel : nat) (ctx : operation_context) (s : pmst)
    : option pmst := ulog_process fuel (ctx_ulog ctx) (ctx_p_ops ctx) s.

Definition operation_process (fuel : nat) (ctx : operation_context) (s : pmst)
    : option (operation_context * pmst) :=
  let plog := pshadow_ops ctx in
  let redo_process :=
    bool_decide (ctx_type ctx = LOG_TYPE_REDO) && negb (log_offset plog =? 0) in
  let e := ulog_data (log_ulog plog) in
  let t := ulog_entry_type (vis s) e in
  let single := redo_process && (log_offset plog =? sizeof_entry_val) &&
    ((t =? ULOG_OPERATION_SET) || (t =? ULOG_OPERATION_AND) || (t =? ULOG_OPERATION_OR)) in
  let s := if single then ulog_entry_apply e true (ctx_p_ops ctx) s else s in
  let redo_process := redo_process && negb single in
  '(ctx, s) ←
    (if redo_process then
       s ← operation_process_persistent_redo fuel ctx s;
       Some (set_state OPERATION_CLEANUP ctx, s)
     else if bool_decide (ctx_type ctx = LOG_TYPE_UNDO) && negb (total_logged ctx =? 0) then
       s ← operation_process_persistent_undo fuel ctx s;
       Some (set_state OPERATION_CLEANUP ctx, s)
     else Some (ctx, s));
  if negb (log_offset (transient_ops ctx) =? 0) then
    s ← ulog_process fuel (log_ulog (transient_ops ctx)) (ctx_t_ops ctx) s;
    Some (ctx, s)
  else Some (ctx, s).

(** The release build: the assertion on the state is not compiled. *)
Definition operation_finish (fuel : nat) (push_ok : nat -> bool) (ctx : operation_context)
    (flags : Z) (ws : world) : option (operation_context * world) :=
  let ctx := if bool_decide (ctx_type ctx = LOG_TYPE_UNDO) && negb (total_logged ctx =? 0)
             then set_state OPERATION_CLEANUP ctx else ctx in
  let any := negb (ulog_any_user_buffer ctx =? 0) in
  let flags := if any then Z.lor flags ULOG_ANY_USER_BUFFER else flags in
  let ctx := if any then set_state OPERATION_CLEANUP ctx else ctx in
  if negb (bool_decide (ctx_state ctx = OPERATION_CLEANUP)) then
    Some (set_state OPERATION_IDLE ctx, ws)
  else
    '(ret, ws) ←
      match ctx_type ctx with
      | LOG_TYPE_UNDO =>
          ulog_clobber_data fuel (ctx_ulog ctx) (total_logged ctx) (ctx_ulog_base_nbytes ctx)
            (ctx_next ctx) (ctx_ulog_free ctx) (operation_user_buffer_remove fuel) push_ok
            (ctx_p_ops ctx) flags ws
      | LOG_TYPE_REDO =>
          ulog_free_next fuel (ctx_ulog ctx) (ctx_p_ops ctx) (ctx_ulog_free ctx)
            (operation_user_buffer_remove fuel) push_ok flags ws
      end;
    if ret =? 0 then Some (set_state OPERATION_IDLE ctx, ws)
    else ctx ← rebuild_chain fuel ctx ws.2; Some (set_state OPERATION_IDLE ctx, ws).
