(* ===== verification/MemopsLog.v ===== *)
(** * The shadow log of an operation

    [plog_ok c s es]: the shadow log of the context holds the entries [es], the
    next entry fits, and the merge queue tracks a suffix of them.  Adding an
    entry keeps the invariant and appends to the meaning of the log, whether it
    is merged into an earlier entry, written behind the last one, or written
    after a reallocation. *)
From stdpp Require Import base numbers list list_numbers.
From Stdlib Require Import ZArith Lia Bool.
From S2P Require Import Prelude Pmem Checksum Ulog UlogFacts UlogRedo Vecq Memops.

(** ** Merging, on entries *)

(** An entry that absorbed the operation [v]. *)
Definition merged (u v : vent) : vent :=
  VEnt (ve_off u) (ve_op u) (op_fun (ve_op v) (ve_val v) (ve_val u)).

Lemma word_log_app t es1 es2 x : word_log t (es1 ++ es2) x = word_log t es2 (word_log t es1 x).
Proof. apply foldl_app. Qed.

Lemma word_log_other t es x : Forall (fun v => ve_off v <> t) es -> word_log t es x = x.
Proof.
  intros H. revert x. induction H as [|v es Hv _ IH]; intros x; [done|].
  unfold word_log in *. cbn [foldl]. unfold word_op at 2. destruct (Z.eqb_spec (ve_off v) t); [done|].
  apply IH.
Qed.

Lemma merged_word t u v x :
  ve_off u = ve_off v -> ve_op u = ve_op v -> word_op t (merged u v) x = word_op t v (word_op t u x).
Proof.
  intros E1 E2. unfold word_op, merged. cbn [ve_off ve_op ve_val]. rewrite E1, E2.
  destruct (ve_off v =? t); [|done]. destruct (ve_op v); cbn [op_fun]; [done|..].
  - by rewrite Z.land_assoc.
  - by rewrite Z.lor_assoc.
Qed.

Lemma merge_word_log t pre u post v x :
  ve_off u = ve_off v -> ve_op u = ve_op v -> Forall (fun e => ve_off e <> ve_off v) post ->
  word_log t (pre ++ merged u v :: post) x = word_log t ((pre ++ u :: post) ++ [v]) x.
Proof.
  intros E1 E2 Hp. rewrite <- app_assoc, !word_log_app. cbn [app]. set (y := word_log t pre x).
  change (word_log t (merged u v :: post) y) with (word_log t post (word_op t (merged u v) y)).
  change (word_log t (u :: post) y) with (word_log t post (word_op t u y)).
  rewrite merged_word by done. change (word_log t [v] ?z) with (word_op t v z).
  destruct (decide (ve_off v = t)) as [<-|Ht].
  - by rewrite !word_log_other by done.
  - unfold word_op at 1 3. by destruct (Z.eqb_spec (ve_off v) t).
Qed.

(** Logs with the same effect on every word have the same effect on memory. *)
Lemma word_log_memory es es' b m :
  Forall vent_ok es -> Forall vent_aligned es -> Forall vent_ok es' -> Forall vent_aligned es' ->
  (forall t x, word_log t es x = word_log t es' x) ->
  apply_log b es m ≡ apply_log b es' m.
Proof.
  intros H1 H2 H3 H4 E x. set (t := 8 * ((x - b) / 8)).
  pose proof (Z.div_mod (x - b) 8 ltac:(lia)). pose proof (Z.mod_pos_bound (x - b) 8 ltac:(lia)).
  assert (t mod 8 = 0) as Ht by (unfold t; rewrite Z.mul_comm; apply Z.mod_mul; lia).
  apply (load64_eq_agree _ _ (b + t)); [|lia].
  rewrite !load64_apply_log by done. apply E.
Qed.

(** ** The log in memory *)

Definition log_at (m : mem) (a : Z) (es : list vent) : Prop :=
  forall i v, es !! i = Some v -> vent_at m (a + 16 * Z.of_nat i) v.

Lemma log_at_agree m m' a a' es :
  (forall x, 0 <= x < 16 * Z.of_nat (length es) -> m' (a' + x) = m (a + x)) ->
  log_at m a es -> log_at m' a' es.
Proof.
  intros H Hl i v Hi. pose proof (lookup_lt_Some _ _ _ Hi). pose proof (Hl i v Hi) as Hv.
  pose proof (vent_at_read _ _ _ Hv) as Hr. destruct Hv as [Hok _].
  apply read_enc_vent; [done|]. rewrite <- Hr. apply read_bytes_eq. intros j Hj.
  rewrite <- !Z.add_assoc. apply H. lia.
Qed.

Lemma log_at_snoc m a es v :
  log_at m a es -> vent_at m (a + 16 * Z.of_nat (length es)) v -> log_at m a (es ++ [v]).
Proof.
  intros Hl Hv i u Hi. apply lookup_app_Some in Hi as [Hi|[Hi Hu]]; [by apply Hl|].
  apply list_lookup_singleton_Some in Hu as [Hu <-].
  replace i with (length es) by lia. done.
Qed.

Lemma log_at_read m a es : log_at m a es -> read_bytes m a (16 * length es) = enc_log es.
Proof.
  induction es as [|v es IH] using rev_ind; intros Hl; [done|].
  rewrite length_app, Nat.mul_add_distr_l, read_bytes_app, IH.
  - unfold enc_log. rewrite map_app, concat_app. cbn [map concat length]. rewrite app_nil_r.
    f_equal. pose proof (Hl (length es) v) as Hv. rewrite list_lookup_middle in Hv by done.
    specialize (Hv eq_refl). apply vent_at_read in Hv. rewrite <- Hv. f_equal. lia.
  - intros i u Hi. apply Hl. by apply lookup_app_l_Some.
Qed.

Lemma log_at_ok m a es : log_at m a es -> Forall vent_ok es.
Proof. intros H. apply Forall_lookup. intros i v Hi. by destruct (H i v Hi). Qed.

(** Storing the new value of the entry at position [length pre]. *)
Lemma log_at_merge m a pre u post v :
  log_at m a (pre ++ u :: post) -> 0 <= ve_val v < 2 ^ 64 ->
  log_at (write_bytes m (entry_value_addr (a + 16 * Z.of_nat (length pre)))
            (le64 (ve_val (merged u v)))) a (pre ++ merged u v :: post).
Proof.
  intros Hl Hv i w Hi. unfold entry_value_addr.
  destruct (decide (i = length pre)) as [->|Hne].
  - rewrite list_lookup_middle in Hi by done. injection Hi as <-.
    destruct (Hl (length pre) u) as ([Ho Huv] & Hw & Hval); [by rewrite list_lookup_middle|].
    assert (0 <= ve_val (merged u v) < 2 ^ 64) by (by apply op_fun_range).
    split; [done|]. split.
    + rewrite load64_write_disj by (rewrite length_le64; lia). exact Hw.
    + unfold entry_value_addr. rewrite load64_write_same, u64_small; done.
  - destruct (Hl i w) as (Hok & Hw & Hval).
    { rewrite <- Hi. rewrite !lookup_app. destruct (pre !! i) eqn:E; [done|].
      apply lookup_ge_None in E. by destruct (i - length pre)%nat eqn:Ed; [lia|]. }
    split; [done|]. unfold entry_value_addr in *.
    split; (rewrite load64_write_disj; [done|rewrite length_le64; lia]).
Qed.

(** ** The search for a merge candidate *)

Definition entry_addrs (a : Z) (k n : nat) : list Z :=
  map (fun i => a + 16 * Z.of_nat i) (seq k n).

Lemma try_merge_spec a pre mid post v s :
  log_at (vis s) a (pre ++ mid ++ post) -> Forall (fun e => ve_off e <> ve_off v) post ->
  let '(ret, s') := try_merge_loop (rev (entry_addrs a (length pre) (length mid)))
                      (ve_off v) (ve_val v) (op_type (ve_op v)) s in
  (ret = 0 /\ s' = s) \/
  (ret = 1 /\ exists pre' u post', pre ++ mid ++ post = pre' ++ u :: post' /\
     ve_off u = ve_off v /\ ve_op u = ve_op v /\ Forall (fun e => ve_off e <> ve_off v) post' /\
     s' = st_store64 (entry_value_addr (a + 16 * Z.of_nat (length pre'))) (ve_val (merged u v)) s).
Proof.
  revert post. induction mid as [|u mid IH] using rev_ind; intros post Hl Hp; [by left|].
  rewrite length_app. unfold entry_addrs. cbn [length]. rewrite Nat.add_1_r, seq_S, map_app, rev_app_distr.
  cbn [map rev app try_merge_loop].
  assert (vent_at (vis s) (a + 16 * Z.of_nat (length pre + length mid)) u) as Hu.
  { rewrite <- length_app. apply Hl. rewrite <- app_assoc, app_assoc. by apply list_lookup_middle. }
  rewrite (vent_offset _ _ _ Hu), (vent_type _ _ _ Hu).
  destruct (Z.eqb_spec (ve_off u) (ve_off v)) as [Eo|Eo].
  - destruct (Z.eqb_spec (op_type (ve_op u)) (op_type (ve_op v))) as [Et|Et]; [|by left].
    assert (ve_op u = ve_op v) as Eop by (destruct (ve_op u), (ve_op v); done).
    right. split; [done|]. exists (pre ++ mid), u, post. rewrite length_app.
    split; [by rewrite <- !app_assoc|]. do 3 (split; [done|]).
    destruct Hu as (_ & _ & Hval). unfold operation_merge. rewrite Hval. cbn [merged ve_val].
    destruct (ve_op v); done.
  - specialize (IH (u :: post)). rewrite <- (app_assoc mid [u]) in Hl |- *.
    apply IH; [done|by constructor].
Qed.

(** ** The invariant *)

Record plog_ok (c : operation_context) (s : pmst) (es : list vent) : Prop := PlogOk {
  pl_entries : log_at (vis s) (ulog_data (log_ulog (pshadow_ops c))) es;
  pl_aligned : Forall vent_aligned es;
  pl_term : es <> [] ->
    load64 (vis s) (ulog_data (log_ulog (pshadow_ops c)) + 16 * Z.of_nat (length es)) = 0;
  pl_off : log_offset (pshadow_ops c) = 16 * Z.of_nat (length es);
  pl_room : log_offset (pshadow_ops c) + 64 <= log_capacity (pshadow_ops c);
  pl_mod : log_capacity (pshadow_ops c) mod 1024 = 0;
  pl_small : log_capacity (pshadow_ops c) < 2 ^ 62;
  pl_queue : vecq_ok (merge_entries c);
  pl_front : vfront (merge_entries c) = 0;
  pl_tracked : exists k n, (k + n)%nat = length es /\
    vecq_list (merge_entries c) = entry_addrs (ulog_data (log_ulog (pshadow_ops c))) k n;
  pl_s_ops : ctx_s_ops c = POps (base (ctx_p_ops c)) OPS_TRANSIENT
}.

(** The queue has not been filled since the log was last moved: it holds at most
    the entries of the current reallocation step. *)
Definition unwrapped (c : operation_context) : Prop :=
  16 * VECQ_SIZE (merge_entries c) + log_capacity (pshadow_ops c) <=
  log_offset (pshadow_ops c) + ULOG_BASE_SIZE + CACHELINE_SIZE.

(** What the two halves of operation_add_typed_entry do to the invariant. *)
Definition grown_ctx (ra : Z) (c : operation_context) : operation_context :=
  let l := pshadow_ops c in
  let c := set_oplog LOG_PERSISTENT
             (OpLog (u64 (log_capacity l + ULOG_BASE_SIZE)) (log_offset l) ra) c in
  set_merge (VECQ_CLEAR (merge_entries c)) c.
Definition grown_st (ra : Z) (c : operation_context) (s : pmst) : pmst :=
  let l := pshadow_ops c in
  st_store64 (ulog_capacity_addr ra) (u64 (log_capacity l + ULOG_BASE_SIZE))
    (Realloc_log ra (log_ulog l) (SIZEOF_ULOG (log_capacity l)) s).

Lemma grow_ok ra c s es :
  plog_ok c s es -> log_offset (pshadow_ops c) + 64 = log_capacity (pshadow_ops c) ->
  log_capacity (pshadow_ops c) + 1024 < 2 ^ 62 ->
  plog_ok (grown_ctx ra c) (grown_st ra c s) es /\ unwrapped (grown_ctx ra c) /\
  log_offset (pshadow_ops (grown_ctx ra c)) + 64 < log_capacity (pshadow_ops (grown_ctx ra c)).
Proof.
  intros [H1 H2 H3 H4 H5 H6 H7 H8 H9 H10 H11] Hfull Hcap.
  assert (u64 (log_capacity (pshadow_ops c) + ULOG_BASE_SIZE) = log_capacity (pshadow_ops c) + 1024) as Hu
    by (unfold ULOG_BASE_SIZE; apply u64_small; lia).
  destruct (vecq_clear_spec _ H8) as [Q1 Q2].
  assert (forall x, 0 <= x < log_offset (pshadow_ops c) + 64 ->
    vis (grown_st ra c s) (ulog_data ra + x) = vis s (ulog_data (log_ulog (pshadow_ops c)) + x)) as Hd.
  { intros x Hx. unfold grown_st, st_store64, Realloc_log, st_store. cbn [vis].
    unfold ulog_data, SIZEOF_ULOG_HDR, ulog_capacity_addr in *. rewrite write_bytes_out by (rewrite length_le64; lia).
    replace (ra + 64 + x) with (ra + (64 + x)) by lia.
    unfold SIZEOF_ULOG, SIZEOF_ULOG_HDR. rewrite write_read_pt.
    destruct (Z.leb_spec ra (ra + (64 + x))), (Z.ltb_spec (ra + (64 + x))
      (ra + Z.of_nat (Z.to_nat (64 + log_capacity (pshadow_ops c))))); try lia.
    cbn [andb]. f_equal. lia. }
  split; [|split].
  - constructor; cbn [grown_ctx set_merge set_oplog set_logs pshadow_ops merge_entries log_ulog
      log_offset log_capacity ctx_s_ops ctx_p_ops]; rewrite ?Hu; try done; try lia.
    + eapply log_at_agree; [|exact H1]. intros x Hx. apply Hd. lia.
    + intros Hne. rewrite <- (H3 Hne). unfold load64. f_equal. apply read_bytes_eq. intros i Hi.
      rewrite <- !Z.add_assoc. apply Hd. lia.
    + rewrite <- Z.add_mod_idemp_l, H6 by lia. done.
    + exists (length es), 0%nat. split; [lia|done].
  - unfold unwrapped, grown_ctx. cbn [set_merge set_oplog set_logs pshadow_ops merge_entries log_offset log_capacity].
    rewrite Hu. assert (VECQ_SIZE (VECQ_CLEAR (merge_entries c)) = 0) as -> by done.
    unfold ULOG_BASE_SIZE, CACHELINE_SIZE. lia.
  - cbn. rewrite Hu. lia.
Qed.

Definition appended (ok : bool) (e : Z) (c : operation_context) : operation_context :=
  let l := pshadow_ops c in
  set_oplog LOG_PERSISTENT (OpLog (log_capacity l) (u64 (log_offset l + 16)) (log_ulog l))
    (operation_merge_entry_add ok e c).

Lemma append_ok ok c s es v e s' :
  plog_ok c s es -> unwrapped c ->
  log_offset (pshadow_ops c) + 64 < log_capacity (pshadow_ops c) ->
  vent_ok v -> vent_aligned v ->
  e = ulog_data (log_ulog (pshadow_ops c)) + log_offset (pshadow_ops c) ->
  vis s' = write_bytes (vis s) e (enc_vent v ++ le64 0) ->
  plog_ok (appended ok e c) s' (es ++ [v]) /\ unwrapped (appended ok e c).
Proof.
  intros [H1 H2 H3 H4 H5 H6 H7 H8 H9 (k & n & Hkn & Hq) H11] Hun Hroom Hv Hal He Hvis.
  set (a := ulog_data (log_ulog (pshadow_ops c))) in *.
  destruct (written_vent (vis s) e v Hv) as (W1 & W2 & W3). rewrite <- Hvis in W1, W2, W3.
  assert (VECQ_SIZE (merge_entries c) < 64) as Hsz
    by (unfold unwrapped, ULOG_BASE_SIZE, CACHELINE_SIZE in Hun; lia).
  unfold appended, operation_merge_entry_add, OP_MERGE_SEARCH.
  destruct (Z.eqb_spec (VECQ_SIZE (merge_entries c)) 64); [lia|].
  pose proof (enqueue_short ok (merge_entries c) e H8 H9 Hsz) as (Q1 & Q2 & Q3).
  set (q := (VECQ_ENQUEUE ok (merge_entries c) e).2) in *.
  assert (e = a + 16 * Z.of_nat (length es)) as He' by lia.
  rewrite (u64_small (log_offset (pshadow_ops c) + 16)) by lia.
  pose proof (Z.div_mod (log_capacity (pshadow_ops c)) 1024 ltac:(lia)) as Hdiv.
  split.
  - constructor; cbn [set_merge set_oplog set_logs pshadow_ops merge_entries log_ulog
      log_offset log_capacity ctx_s_ops ctx_p_ops]; rewrite ?length_app; cbn [length]; try done; try lia.
    + fold a. apply log_at_snoc; [|by rewrite <- He'].
      eapply log_at_agree; [|exact H1]. intros x Hx. apply W3. lia.
    + apply Forall_app. split; [done|by constructor].
    + intros _. fold a. replace (a + 16 * Z.of_nat (length es + 1)) with (e + 16) by lia. done.
    + fold a. destruct Q3 as [Q3|[Q3 Q4]].
      * exists k, (S n). split; [lia|]. rewrite Q3, Hq. unfold entry_addrs.
        rewrite seq_S, map_app. cbn [map]. rewrite He'. do 3 f_equal. lia.
      * exists (length es + 1)%nat, 0%nat. split; [lia|]. rewrite Q3, Q4. done.
  - unfold unwrapped in *. cbn [set_merge set_oplog set_logs pshadow_ops merge_entries log_offset log_capacity].
    pose proof (length_vecq_list q) as L1. pose proof (length_vecq_list (merge_entries c)) as L2.
    destruct Q3 as [Q3|[-> _]]; [rewrite Q3, length_app in L1; cbn [length] in L1|]; lia.
Qed.

Lemma merge_ok c s s' pre u post v :
  plog_ok c s (pre ++ u :: post) -> vent_ok v ->
  vis s' = write_bytes (vis s) (entry_value_addr (ulog_data (log_ulog (pshadow_ops c)) +
             16 * Z.of_nat (length pre))) (le64 (ve_val (merged u v))) ->
  plog_ok c s' (pre ++ merged u v :: post).
Proof.
  intros [H1 H2 H3 H4 H5 H6 H7 H8 H9 H10 H11] Hv Hvis.
  assert (length (pre ++ u :: post) = length (pre ++ merged u v :: post)) as El by (by rewrite !length_app).
  constructor; rewrite ?Hvis, <- ?El; try done.
  - apply log_at_merge; [exact H1|apply Hv].
  - apply Forall_app in H2 as [Ha Hb]. apply Forall_cons in Hb as [Hb Hc].
    apply Forall_app. split; [done|]. by constructor.
  - intros _. rewrite load64_write_disj; [apply H3; by destruct pre|].
    right. rewrite length_le64, length_app. cbn [length]. unfold entry_value_addr. lia.
Qed.

(** Merging into, or writing behind, the entries of a log with room. *)
Definition add_outcome (ok : bool) (c c' : operation_context) (s s' : pmst) (es es' : list vent) (v : vent) : Prop :=
  let a := ulog_data (log_ulog (pshadow_ops c)) in
  let e := a + log_offset (pshadow_ops c) in
  (c' = appended ok e c /\ s' = st_store e (enc_vent v ++ le64 0) s /\ es' = es ++ [v]) \/
  (c' = c /\ exists pre u post, es = pre ++ u :: post /\ es' = pre ++ merged u v :: post /\ ve_off u = ve_off v /\
     s' = st_store64 (entry_value_addr (a + 16 * Z.of_nat (length pre))) (ve_val (merged u v)) s).

Lemma add_in_place_run ok c s es v :
  plog_ok c s es -> unwrapped c ->
  log_offset (pshadow_ops c) + 64 < log_capacity (pshadow_ops c) ->
  vent_ok v -> vent_aligned v ->
  forall ra, exists c' s' es',
    operation_add_typed_entry ra ok c (base (ctx_p_ops c) + ve_off v) (ve_val v)
      (op_type (ve_op v)) LOG_PERSISTENT s = (0, c', s') /\
    plog_ok c' s' es' /\ unwrapped c' /\
    (forall t x, word_log t es' x = word_log t (es ++ [v]) x) /\
    add_outcome ok c c' s s' es es' v.
Proof.
  intros H Hun Hroom Hv Hal ra. pose proof H as [H1 _ _ H4 _ _ H7 H8 H9 (k & n & Hkn & Hq) H11].
  unfold operation_add_typed_entry. cbn [oplog_of].
  unfold CACHELINE_SIZE. rewrite u64_small by lia.
  destruct (Z.eqb_spec (log_offset (pshadow_ops c) + 64) (log_capacity (pshadow_ops c))); [lia|].
  cbn [negb Z.eqb]. unfold operation_try_merge_entry, OBJ_PTR_TO_OFF.
  replace (base (ctx_p_ops c) + ve_off v - base (ctx_p_ops c)) with (ve_off v) by lia.
  rewrite u64_small by (destruct Hv; lia).
  destruct (foreach_unwrapped (merge_entries c) H8) as [_ ->]; [rewrite H9; apply Zmod_0_l|].
  rewrite Hq. unfold add_outcome. set (a := ulog_data (log_ulog (pshadow_ops c))) in *.
  pose proof (try_merge_spec a (take k es) (drop k es) [] v s) as Hm.
  rewrite app_nil_r, firstn_skipn, length_take, length_drop in Hm.
  replace (k `min` length es)%nat with k in Hm by lia. replace (length es - k)%nat with n in Hm by lia.
  specialize (Hm H1 (Forall_nil_2 _)).
  destruct (try_merge_loop _ _ _ _ _) as [ret s1].
  destruct Hm as [[-> ->]|[-> (pre & u & post & -> & Eo & Eop & Hpost & ->)]]; cbn [negb Z.eqb].
  - pose proof (val_create_spec (log_ulog (pshadow_ops c)) (log_offset (pshadow_ops c))
      (base (ctx_p_ops c) + ve_off v) v (ctx_s_ops c) s Hv) as Hc.
    rewrite H11 in Hc |- *. cbn [base] in Hc. specialize (Hc ltac:(lia)).
    assert (forall e s2, ulog_entry_val_create (log_ulog (pshadow_ops c)) (log_offset (pshadow_ops c)) (base (ctx_p_ops c) + ve_off v) (ve_val v)
      (op_type (ve_op v)) (POps (base (ctx_p_ops c)) OPS_TRANSIENT) s = (e, s2) -> s2 = st_store e (enc_vent v ++ le64 0) s) as Hst.
    { intros e s2. unfold ulog_entry_val_create, pmemops_memcpy_from, operation_transient_memcpy. cbn [table base]. intros [= <- <-]. f_equal.
      unfold entry_offset_word, enc_vent, vent_word. cbn [base]. replace (base (ctx_p_ops c) + ve_off v - base (ctx_p_ops c)) with (ve_off v) by lia.
      rewrite u64_small by (destruct Hv; lia). by rewrite <- app_assoc. }
    destruct (ulog_entry_val_create _ _ _ _ _ _ _) as [e s2]. destruct Hc as [He Hvis2]. specialize (Hst e s2 eq_refl).
    destruct (append_ok ok c s es v e s2 H Hun Hroom Hv Hal He Hvis2) as [A1 A2].
    eexists _, s2, (es ++ [v]). split; [rewrite (vent_size _ _ v); [reflexivity|]; rewrite Hvis2; by apply written_vent|].
    split; [done|]. split; [done|]. split; [done|]. left. fold a in He. rewrite <- He. done.
  - exists c. eexists _, (pre ++ merged u v :: post). split; [reflexivity|].
    split; [by eapply merge_ok|]. split; [done|]. split; [intros t x; by apply merge_word_log|]. right. split; [done|]. by exists pre, u, post.
Qed.

Lemma add_in_place ok c s es v :
  plog_ok c s es -> unwrapped c ->
  log_offset (pshadow_ops c) + 64 < log_capacity (pshadow_ops c) ->
  vent_ok v -> vent_aligned v ->
  forall ra, exists c' s' es',
    operation_add_typed_entry ra ok c (base (ctx_p_ops c) + ve_off v) (ve_val v)
      (op_type (ve_op v)) LOG_PERSISTENT s = (0, c', s') /\
    plog_ok c' s' es' /\ unwrapped c' /\
    (forall t x, word_log t es' x = word_log t (es ++ [v]) x).
Proof.
  intros H Hun Hroom Hv Hal ra. destruct (add_in_place_run ok c s es v H Hun Hroom Hv Hal ra) as (c' & s' & es' & E & P1 & P2 & P3 & _).
  by exists c', s', es'.
Qed.

(** One addition, whatever Realloc does. *)
Lemma add_typed_step ra ok c s es v :
  plog_ok c s es -> unwrapped c -> log_capacity (pshadow_ops c) + 1024 < 2 ^ 62 ->
  vent_ok v -> vent_aligned v ->
  let '(ret, c', s') := operation_add_typed_entry ra ok c (base (ctx_p_ops c) + ve_off v)
                          (ve_val v) (op_type (ve_op v)) LOG_PERSISTENT s in
  if (log_offset (pshadow_ops c) + 64 =? log_capacity (pshadow_ops c)) && (ra =? 0)
  then ret = -1 /\ c' = c /\ s' = s
  else ret = 0 /\ exists es', plog_ok c' s' es' /\ unwrapped c' /\
         forall t x, word_log t es' x = word_log t (es ++ [v]) x.
Proof.
  intros H Hun Hcap Hv Hal.
  pose proof (pl_room _ _ _ H) as Hroom. pose proof (pl_off _ _ _ H) as Hoff.
  destruct (Z.eqb_spec (log_offset (pshadow_ops c) + 64) (log_capacity (pshadow_ops c))) as [Hfull|Hfull].
  - assert ((u64 (log_offset (pshadow_ops c) + CACHELINE_SIZE) =? log_capacity (pshadow_ops c)) = true) as E.
    { unfold CACHELINE_SIZE. rewrite u64_small by lia. by apply Z.eqb_eq. }
    unfold operation_add_typed_entry at 1. cbn [oplog_of]. rewrite E. cbn [andb].
    destruct (Z.eqb_spec ra 0) as [->|Hra]; [done|].
    destruct (grow_ok ra c s es H Hfull Hcap) as (G1 & G2 & G3).
    destruct (add_in_place ok _ _ _ v G1 G2 G3 Hv Hal ra) as (c' & s' & es' & Hrun & P1 & P2 & P3).
    unfold operation_add_typed_entry in Hrun. cbn [oplog_of] in Hrun.
    assert ((u64 (log_offset (pshadow_ops (grown_ctx ra c)) + CACHELINE_SIZE) =?
             log_capacity (pshadow_ops (grown_ctx ra c))) = false) as E2.
    { unfold CACHELINE_SIZE. pose proof (pl_small _ _ _ G1). pose proof (pl_off _ _ _ G1).
      rewrite u64_small by lia. apply Z.eqb_neq. lia. }
    rewrite E2 in Hrun. cbn [negb Z.eqb oplog_of] in Hrun |- *.
    unfold grown_st, grown_ctx in Hrun.
    cbn [set_merge set_oplog set_logs pshadow_ops log_capacity ctx_p_ops] in Hrun |- *.
    rewrite Hrun. split; [done|]. by exists es'.
  - cbn [andb]. destruct (add_in_place ok c s es v H Hun ltac:(lia) Hv Hal ra)
      as (c' & s' & es' & -> & P1 & P2 & P3).
    split; [done|]. by exists es'.
Qed.

(** ** Starting an operation *)

(** A context between operations; [log_capacity = ULOG_BASE_SIZE]: its shadow log
    has never grown. *)
Record ctx_idle (c : operation_context) : Prop := CtxIdle {
  ci_cap : log_capacity (pshadow_ops c) = ULOG_BASE_SIZE;
  ci_queue : vecq_ok (merge_entries c);
  ci_s_ops : ctx_s_ops c = POps (base (ctx_p_ops c)) OPS_TRANSIENT
}.

Lemma start_ok c s : ctx_idle c -> plog_ok (operation_start c) s [] /\ unwrapped (operation_start c).
Proof.
  intros [H1 H2 H3]. destruct (vecq_clear_spec _ H2) as [Q1 Q2]. unfold ULOG_BASE_SIZE in H1. split.
  - constructor; cbn -[Z.mul]; rewrite ?H1; try done; try lia. by exists 0%nat, 0%nat.
  - unfold unwrapped. cbn. rewrite H1. done.
Qed.

(** Adding a list of operations; [ras] are the answers of Realloc. *)
Fixpoint add_entries (ok : bool) (ras : list Z) (vs : list vent) (c : operation_context) (s : pmst)
    : Z * operation_context * pmst :=
  match vs, ras with
  | v :: vs, ra :: ras =>
      let '(ret, c, s) := operation_add_typed_entry ra ok c (base (ctx_p_ops c) + ve_off v)
                            (ve_val v) (op_type (ve_op v)) LOG_PERSISTENT s in
      if ret =? 0 then add_entries ok ras vs c s else (ret, c, s)
  | _, _ => (0, c, s)
  end.

Lemma add_typed_frame ra ok c ptr value type lt s ret c' s' :
  0 <= log_capacity (pshadow_ops c) < 2 ^ 63 ->
  operation_add_typed_entry ra ok c ptr value type lt s = (ret, c', s') ->
  ctx_p_ops c' = ctx_p_ops c /\ log_capacity (pshadow_ops c') <= log_capacity (pshadow_ops c) + 1024.
Proof.
  intros Hc. unfold operation_add_typed_entry.
  destruct lt, (_ =? _); cbn [oplog_of]; destruct (ra =? 0); cbn [negb Z.eqb];
    unfold operation_try_merge_entry; repeat (case_match; simplify_eq/=); intros; simplify_eq/=;
    (split; [done|]); rewrite ?u64_small by (unfold ULOG_BASE_SIZE; lia); unfold ULOG_BASE_SIZE; lia.
Qed.

Lemma add_entries_ok ok ras vs c s es :
  plog_ok c s es -> unwrapped c -> Forall vent_ok vs -> Forall vent_aligned vs ->
  length ras = length vs -> Forall (fun ra => ra <> 0) ras ->
  log_capacity (pshadow_ops c) + 1024 * (Z.of_nat (length vs) + 1) < 2 ^ 62 ->
  exists c' s' es', add_entries ok ras vs c s = (0, c', s') /\ plog_ok c' s' es' /\
    unwrapped c' /\ forall t x, word_log t es' x = word_log t (es ++ vs) x.
Proof.
  revert ras c s es. induction vs as [|v vs IH]; intros ras c s es H Hun Hok Hal Hlen Hras Hcap.
  - exists c, s, es. rewrite app_nil_r. by destruct ras.
  - destruct ras as [|ra ras]; [done|]. apply Forall_cons in Hok as [Hv Hvs], Hal as [Ha Hal], Hras as [Hra Hras].
    cbn [length] in *. pose proof (add_typed_step ra ok c s es v H Hun ltac:(lia) Hv Ha) as Hst.
    cbn [add_entries]. destruct (operation_add_typed_entry _ _ _ _ _ _ _ _) as [[ret c1] s1] eqn:E.
    apply add_typed_frame in E as [_ Hc1]; [|pose proof (pl_room _ _ _ H); pose proof (pl_off _ _ _ H); lia].
    replace ((_ =? _) && (ra =? 0)) with false in Hst
      by (destruct (Z.eqb_spec ra 0); [done|]; by rewrite andb_false_r).
    destruct Hst as [-> (es1 & P1 & P2 & P3)]. cbn [Z.eqb].
    destruct (IH ras c1 s1 es1 P1 P2 Hvs Hal ltac:(lia) Hras ltac:(lia)) as (c' & s' & es' & -> & Q1 & Q2 & Q3).
    exists c', s', es'. split; [done|]. split; [done|]. split; [done|]. intros t x.
    rewrite Q3, word_log_app, P3, <- word_log_app, <- app_assoc. done.
Qed.

(** ** Theorems *)

(** Adding to the shadow log.  On a context whose log holds [es] and whose
    merge queue has not been filled since the log was allocated, adding a SET,
    AND or OR of an aligned word succeeds whenever Realloc does (with -1 and no
    change otherwise), stays inside the log's allocation, and the new log means
    the old one followed by the new operation, on every memory, whether the entry
    was merged, appended, or appended after the log moved; the situation is kept. *)
Theorem operation_add_entry_appends ra ok c s es v :
  plog_ok c s es -> unwrapped c -> log_capacity (pshadow_ops c) + 1024 < 2 ^ 62 ->
  vent_ok v -> vent_aligned v ->
  let '(ret, c', s') := operation_add_typed_entry ra ok c (base (ctx_p_ops c) + ve_off v)
                          (ve_val v) (op_type (ve_op v)) LOG_PERSISTENT s in
  if (log_offset (pshadow_ops c) + 64 =? log_capacity (pshadow_ops c)) && (ra =? 0)
  then ret = -1 /\ c' = c /\ s' = s
  else ret = 0 /\ exists es', plog_ok c' s' es' /\ unwrapped c' /\
         forall b m, apply_log b es' m ≡ apply_log b (es ++ [v]) m.
Proof.
  intros H Hun Hcap Hv Hal. pose proof (add_typed_step ra ok c s es v H Hun Hcap Hv Hal) as Hst.
  destruct (operation_add_typed_entry _ _ _ _ _ _ _ _) as [[ret c'] s'].
  destruct (_ && _); [done|]. destruct Hst as [-> (es' & P1 & P2 & P3)].
  split; [done|]. exists es'. split; [done|]. split; [done|]. intros b m.
  apply word_log_memory; try done; try apply Forall_app; try split; try (by constructor);
    (eapply log_at_ok, P1) || apply P1 || (eapply log_at_ok, H) || apply H.
Qed.

(** C27. Collecting an operation.  On a context whose shadow log has never grown,
    operation_start followed by any number of additions collects a log that
    means exactly the sequence of the added operations, on every memory. *)
Theorem operation_collects ok ras vs c s :
  ctx_idle c -> Forall vent_ok vs -> Forall vent_aligned vs ->
  length ras = length vs -> Forall (fun ra => ra <> 0) ras -> Z.of_nat (length vs) < 2 ^ 50 ->
  exists c' s' es, add_entries ok ras vs (operation_start c) s = (0, c', s') /\
    plog_ok c' s' es /\ forall b m, apply_log b es m ≡ apply_log b vs m.
Proof.
  intros Hc Hok Hal Hlen Hras Hn. destruct (start_ok c s Hc) as [P1 P2].
  destruct (add_entries_ok ok ras vs _ s [] P1 P2 Hok Hal Hlen Hras) as (c' & s' & es & E & Q1 & _ & Q3).
  { cbn. rewrite (ci_cap c Hc). unfold ULOG_BASE_SIZE. lia. }
  exists c', s', es. split; [done|]. split; [done|]. intros b m.
  apply word_log_memory; try done; [eapply log_at_ok, Q1|apply Q1].
Qed.

(** ** Instances *)

Definition ex_ctx : operation_context :=
  OpCtx LOG_TYPE_REDO None (fun _ ws => ws) (POps 512 OPS_POOL) (POps 0 OPS_TRANSIENT)
    (POps 512 OPS_TRANSIENT) 0 0 0 0 0 1024 640 640 0 0 [] OPERATION_IDLE
    (OpLog 1024 0 4096) (OpLog 1024 0 16384) VECQ_INIT.

Lemma ex_ctx_idle : ctx_idle ex_ctx.
Proof. constructor; [done|by left|done]. Qed.

Lemma operation_add_entry_appends_witness :
  let v := VEnt 8192 OpSet 7 in
  let s := PMst (fun _ => Byte.x00) [] false in
  let '(ret, c', s') := operation_add_typed_entry 0 true (operation_start ex_ctx) (512 + ve_off v)
                          (ve_val v) (op_type (ve_op v)) LOG_PERSISTENT s in
  ret = 0 /\ exists es', plog_ok c' s' es' /\ unwrapped c' /\
    forall b m, apply_log b es' m ≡ apply_log b ([] ++ [v]) m.
Proof.
  destruct (start_ok ex_ctx (PMst (fun _ => Byte.x00) [] false) ex_ctx_idle) as [P1 P2].
  apply (operation_add_entry_appends 0 true (operation_start ex_ctx) _ [] (VEnt 8192 OpSet 7) P1 P2);
    [cbn; lia|split; cbn; lia|reflexivity].
Defined.

Lemma operation_collects_witness :
  let vs := [VEnt 8192 OpSet 7; VEnt 8200 OpOr 5; VEnt 8192 OpSet 9] in
  exists c' s' es, add_entries true [1; 1; 1] vs (operation_start ex_ctx)
      (PMst (fun _ => Byte.x00) [] false) = (0, c', s') /\
    plog_ok c' s' es /\ forall b m, apply_log b es m ≡ apply_log b vs m.
Proof.
  apply (operation_collects true [1; 1; 1] [VEnt 8192 OpSet 7; VEnt 8200 OpOr 5; VEnt 8192 OpSet 9]
    ex_ctx _ ex_ctx_idle); try (repeat constructor; cbn; lia); cbn; lia.
Defined.
