(* ===== verification/MemopsProcess.v ===== *)
(** * Processing an operation

    operation_process of a redo context: one entry is applied directly, several
    go through the persistent log.  Both are followed through every power
    failure. *)
From stdpp Require Import base numbers list list_numbers.
From Stdlib Require Import ZArith Lia Bool.
From S2P Require Import Prelude Pmem Checksum Ulog UlogFacts UlogRedo UlogCrash Vecq Memops MemopsLog.

(** ** One entry *)

Lemma vent_apply_persist p_ops s a v :
  vent_at (vis s) a v ->
  ulog_entry_apply a true p_ops s =
  pmemops_persist p_ops (base p_ops + ve_off v) 8
    (st_store64 (base p_ops + ve_off v)
       (op_fun (ve_op v) (ve_val v) (load64 (vis s) (base p_ops + ve_off v))) s).
Proof.
  intros Hv. unfold ulog_entry_apply. rewrite (vent_type _ _ _ Hv), (vent_offset _ _ _ Hv).
  destruct Hv as (_ & _ & ->). destruct (ve_op v); reflexivity.
Qed.

(** A run that stores one aligned word: a power failure leaves the old or the
    new memory. *)
Lemma one_word_atomic m a bs evs img :
  a mod 8 = 0 -> length bs = 8%nat -> Forall (fun e => forall m, apply_ev m e = m) evs ->
  crash_image m (EvStore a bs :: evs) img -> img ≡ m \/ img ≡ write_bytes m a bs.
Proof.
  intros Ha Hl Hev Hc.
  assert (forall k, replay m (take k (EvStore a bs :: evs)) = m \/
                    replay m (take k (EvStore a bs :: evs)) = write_bytes m a bs) as Hr.
  { intros [|k]; [by left|right]. cbn [take replay foldl apply_ev].
    clear Hc. revert k. induction Hev as [|e evs He _ IH]; intros [|k]; try done.
    cbn [take foldl]. rewrite He. apply IH. }
  assert (forall x, word_of x <> a -> img x = m x) as Hout.
  { intros x Hx. destruct (crash_byte _ _ _ x Hc) as (k & _ & ->). destruct (Hr k) as [-> | ->]; [done|].
    destruct (word_of_spec x) as [Hw Hb]. apply write_bytes_out. rewrite Hl.
    pose proof (aligned_apart _ _ Hw Ha Hx). lia. }
  destruct (Hc a Ha) as (k & _ & Himg).
  assert (forall x, word_of x = a -> img x = replay m (take k (EvStore a bs :: evs)) x) as Hin.
  { intros x Hx. destruct (word_of_spec x) as [_ Hb].
    replace x with (a + (x - a)) by lia. apply Himg. lia. }
  destruct (Hr k) as [E|E]; rewrite E in Hin; [left|right]; intros x;
    (destruct (decide (word_of x = a)) as [Hx|Hx]; [by apply Hin|rewrite Hout by done]); [done|].
  destruct (word_of_spec x) as [Hw Hb]. symmetry. apply write_bytes_out. rewrite Hl.
  pose proof (aligned_apart _ _ Hw Ha Hx). lia.
Qed.

(** The context of a redo operation without transient entries. *)
Record redo_ctx (c : operation_context) : Prop := RedoCtx {
  rc_type : ctx_type c = LOG_TYPE_REDO;
  rc_table : table (ctx_p_ops c) = OPS_POOL;
  rc_base8 : base (ctx_p_ops c) mod 8 = 0;
  rc_trans : log_offset (transient_ops c) = 0
}.

(** The run of an operation with one entry. *)
Lemma process_single_run fuel c s v : redo_ctx c -> plog_ok c s [v] ->
  let a := base (ctx_p_ops c) + ve_off v in
  let bs := le64 (op_fun (ve_op v) (ve_val v) (load64 (vis s) a)) in
  a mod 8 = 0 /\
  operation_process fuel c s = Some (c, PMst (write_bytes (vis s) a bs) (trace s ++ [EvStore a bs; EvFlush a 8; EvDrain]) (fault s)).
Proof.
  intros [H1 H2 H3 H4] Hp a bs. pose proof (pl_entries _ _ _ Hp 0%nat v eq_refl) as Hv.
  rewrite Z.mul_0_r, Z.add_0_r in Hv. assert (log_offset (pshadow_ops c) = 16) as Hoff by exact (pl_off _ _ _ Hp).
  pose proof (pl_aligned _ _ _ Hp) as Hal. apply Forall_inv in Hal. unfold vent_aligned in Hal.
  split; [unfold a; rewrite Zplus_mod, H3, Hal; done|].
  unfold operation_process. rewrite (vent_type _ _ _ Hv), (vent_apply_persist _ _ _ _ Hv), Hoff, H1.
  rewrite bool_decide_eq_true_2 by done. replace (_ || _ || _) with true by (by destruct (ve_op v)).
  unfold pmemops_persist. rewrite H2.
  cbn -[le64 load64 bool_decide]. rewrite bool_decide_eq_false_2 by done.
  cbn -[le64 load64]. rewrite H4. cbn -[le64 load64].
  unfold obj_norep_persist, pmem_persist, pmem_drain, pmem_flush, st_drain, st_flush, st_store64, st_store. cbn [vis trace fault]. by rewrite <- !app_assoc.
Qed.

(** The single-entry shortcut is atomic.  An operation whose log holds one
    value entry for an aligned word bypasses the redo log: operation_process
    applies it to the pool and leaves the context as it is; a power failure at
    any point leaves all of memory as it was or as it is afterwards, and after
    the call returned only the latter. *)
Theorem process_single_atomic fuel c s es v :
  redo_ctx c -> plog_ok c s es -> es = [v] -> trace s = [] ->
  let m := vis s in
  let m' := apply_vent (base (ctx_p_ops c)) v m in
  exists s', operation_process fuel c s = Some (c, s') /\ vis s' = m' /\
    (forall n img, crash_image m (take n (trace s')) img -> img ≡ m \/ img ≡ m') /\
    (forall img, crash_image m (trace s') img -> img ≡ m').
Proof.
  intros Hr Hp -> Htr m m'. destruct (process_single_run fuel c s v Hr Hp) as [Ha Hrun]. rewrite Htr in Hrun.
  set (a := base (ctx_p_ops c) + ve_off v) in *. set (bs := le64 _) in *.
  eexists. split; [exact Hrun|]. cbn [vis trace app]. split; [done|]. split.
  - intros [|n] img Hc.
    + left. intros x. destruct (crash_byte _ _ _ x Hc) as (k & _ & ->). by destruct k.
    + eapply (one_word_atomic m a bs _ img Ha eq_refl); [|exact Hc]. by apply Forall_take; repeat constructor.
  - intros img Hc x.
    change [EvStore a bs; EvFlush a 8; EvDrain] with ([EvStore a bs; EvFlush a 8] ++ EvDrain :: []) in Hc.
    destruct (word_of_spec x) as [Hw Hx]. apply (crash_persisted _ _ _ _ (word_of x) Hc Hw); [|constructor|lia].
    unfold pending. cbn [foldl pending_step]. destruct (touches a bs _) eqn:Ht.
    + apply touches_covers in Ht; [|done]. change (Z.of_nat (length bs)) with 8 in Ht. by rewrite Ht.
    + by destruct (covers _ _ _).
Qed.

Lemma process_single_atomic_witness :
  let s := PMst (write_bytes (fun _ => Byte.x00) (ulog_data 4096) (enc_vent (VEnt 8192 OpSet 7))) [] false in
  let c := set_logs (OpLog 1024 16 4096) (OpLog 1024 0 16384) VECQ_INIT ex_ctx in
  let m' := apply_vent 512 (VEnt 8192 OpSet 7) (vis s) in
  exists s', operation_process 10 c s = Some (c, s') /\ vis s' = m' /\
    (forall n img, crash_image (vis s) (take n (trace s')) img -> img ≡ vis s \/ img ≡ m') /\
    (forall img, crash_image (vis s) (trace s') img -> img ≡ m').
Proof.
  intros s c m'. apply (process_single_atomic 10 c s [VEnt 8192 OpSet 7] (VEnt 8192 OpSet 7)); try done.
  constructor; try done.
  - intros [|[|i]] v Hi; try done. injection Hi as <-. apply read_enc_vent; [split; cbn; lia|]. reflexivity.
  - repeat constructor.
  - by left.
  - exists 1%nat, 0%nat. done.
Defined.

(** ** Several entries *)

Lemma clobber_empty p_ops dest s :
  table p_ops = OPS_POOL ->
  let s' := ulog_clobber dest (Some []) p_ops s in
  vis s' = write_bytes (vis s) dest (replicate 64 Byte.x00) /\
  trace s' = trace s ++ [EvStore dest (replicate 64 Byte.x00); EvFlush dest 64; EvDrain].
Proof.
  intros Hp. unfold ulog_clobber. cbn [vec_front_or_0].
  rewrite memcpy_from_wc by done. cbn [st_drain st_flush st_store vis trace].
  split; [reflexivity|]. rewrite <- !app_assoc. reflexivity.
Qed.

(** A log whose capacity field is zero is not recovered. *)
Lemma empty_not_recovered fuel dest p_ops img :
  load64 img (ulog_capacity_addr dest) = 0 ->
  ulog_recover (S fuel) dest p_ops (PMst img [] false) = Some (PMst img [] false).
Proof.
  intros H. unfold ulog_recover, ulog_recovery_needed, ulog_base_nbytes. cbn [vis ulog_base_nbytes_from].
  rewrite H. reflexivity.
Qed.

Lemma header_zero m dest :
  load64 (write_bytes m dest (replicate 64 Byte.x00)) (ulog_capacity_addr dest) = 0.
Proof.
  unfold load64, ulog_capacity_addr. rewrite read_write_sub by (rewrite ?length_replicate; lia).
  replace (Z.to_nat (dest + 16 - dest)) with 16%nat by lia. reflexivity.
Qed.

Lemma not_needed fuel m dest :
  load64 m (ulog_capacity_addr dest) = 0 -> ulog_recovery_needed (S fuel) m dest true = Some false.
Proof.
  intros H. unfold ulog_recovery_needed, ulog_base_nbytes. cbn [ulog_base_nbytes_from].
  rewrite H. reflexivity.
Qed.

Lemma store_size_pos es : 0 <= store_size es.
Proof. unfold store_size, CACHELINE_ALIGN, ALIGN_UP. apply Z.land_nonneg. left. apply u64_range. Qed.

Lemma same_pool_header dest src es m m' bs :
  length bs = 64%nat -> same_pool dest src es m m' -> same_pool dest src es (write_bytes m dest bs) m'.
Proof.
  intros Hl H w Hw A1 A2. eapply agree_trans; [|by apply H]. apply agree_write_out.
  pose proof (store_size_pos es). unfold apart in A1. rewrite Hl. lia.
Qed.

(** The control flow of operation_process on a redo log of several entries. *)
Lemma process_redo_run fuel c n s s' :
  redo_ctx c -> log_offset (pshadow_ops c) = 16 * Z.of_nat n -> (2 <= n)%nat -> ctx_next c = [] ->
  (exists s1 s2, ulog_store (ctx_ulog c) (log_ulog (pshadow_ops c)) (16 * Z.of_nat n)
       (ctx_ulog_base_nbytes c) (ctx_ulog_capacity c) [] (ctx_p_ops c) s = Some s1 /\
     ulog_process fuel (log_ulog (pshadow_ops c)) (ctx_p_ops c) s1 = Some s2 /\
     s' = ulog_clobber (ctx_ulog c) (Some []) (ctx_p_ops c) s2) ->
  operation_process fuel c s = Some (set_state OPERATION_CLEANUP c, s').
Proof.
  intros [R1 R2 R3 R4] Hoff Hn Hnext (s1 & s2 & H1 & H2 & ->).
  unfold operation_process, operation_process_persistent_redo, sizeof_entry_val.
  rewrite Hoff, R1, Hnext. rewrite bool_decide_eq_true_2 by done.
  destruct (Z.eqb_spec (16 * Z.of_nat n) 0); [lia|]. destruct (Z.eqb_spec (16 * Z.of_nat n) 16); [lia|].
  cbn [negb andb]. rewrite H1. cbn [mbind option_bind]. rewrite H2. cbn [mbind option_bind].
  cbn [set_state transient_ops]. rewrite R4. reflexivity.
Qed.

(** C3. Processing a redo operation.  For a log of at least two entries that fits
    the base log, with no further logs reserved behind it and no transient
    entries, operation_process stores, applies and clobbers it: the pool then has
    every update, the log is empty and the context waits for cleanup.  A power
    failure before the store that clobbers the log is repaired by ulog_recover to
    the old or the new content, unless the image holds a torn log whose checksum
    happens to match; one right before that store, and one after the call
    returned, finds the new content. *)
Theorem process_redo_atomic fuel c es m :
  let p_ops := ctx_p_ops c in
  let dest := ctx_ulog c in
  let src := log_ulog (pshadow_ops c) in
  redo_ctx c -> log_offset (pshadow_ops c) = 16 * Z.of_nat (length es) -> (2 <= length es)%nat ->
  ctx_next c = [] ->
  redo_pre p_ops dest src (ctx_ulog_base_nbytes c) (ctx_ulog_capacity c) es m ->
  (Z.to_nat (store_size es) < 16 * fuel)%nat ->
  exists s' tr, operation_process fuel c (PMst m [] false) = Some (set_state OPERATION_CLEANUP c, s') /\
    trace s' = tr ++ [EvStore dest (replicate 64 Byte.x00); EvFlush dest 64; EvDrain] /\
    same_pool dest src es (vis s') (apply_log (base p_ops) es m) /\
    ulog_recovery_needed fuel (vis s') dest true = Some false /\
    (forall n img, crash_image m (take n tr) img ->
       recovers_to fuel p_ops dest src es img m \/
       recovers_to fuel p_ops dest src es img (apply_log (base p_ops) es m) \/
       checksum_collision fuel dest es img) /\
    (forall img, crash_image m tr img \/ crash_image m (trace s') img ->
       recovers_to fuel p_ops dest src es img (apply_log (base p_ops) es m)).
Proof.
  intros p_ops dest src [R1 R2 R3 R4] Hoff Hlen Hnext Hpre Hf.
  destruct (redo_run _ _ _ _ _ _ _ [] false Hpre fuel (fun w => apart src (64 + store_size es) w 8) ltac:(done) (dest_outside _ _ _ _ _ _ _ Hpre) Hf)
    as (s1 & s2 & tr1 & tr2 & H1 & H2 & [E1 E2] & H3 & (Hvis & Hpend & _) & Hcr).
  cbn [app] in E1, E2. subst tr1 tr2. pose proof (redo_images _ _ _ _ _ _ _ _ _ Hcr) as H4.
  set (z := replicate 64 Byte.x00).
  destruct (clobber_empty p_ops dest s2 R2) as [C1 C2]. fold z in C1, C2.
  set (s' := ulog_clobber dest (Some []) p_ops s2) in *.
  assert (operation_process fuel c (PMst m [] false) = Some (set_state OPERATION_CLEANUP c, s')) as Hrun.
  { apply (process_redo_run fuel c (length es)); [by constructor|done..|]. by exists s1, s2. }
  exists s', (trace s2). split; [exact Hrun|]. split; [exact C2|].
  assert (same_pool dest src es (vis s') (apply_log (base p_ops) es m)) as Hsame.
  { rewrite C1. by apply same_pool_header. }
  assert (load64 (vis s') (ulog_capacity_addr dest) = 0) as Hcap0 by (rewrite C1; apply header_zero).
  destruct fuel as [|fuel]; [lia|].
  split; [done|]. split; [by apply not_needed|]. split; [intros n img Hc; by apply (H4 n)|].
  intros img [Hc|Hc].
  - apply (H4 (length (trace s1) + length (trace s2))%nat); [|lia]. rewrite firstn_all2 by lia. done.
  - rewrite C2 in Hc.
    change [EvStore dest z; EvFlush dest 64; EvDrain] with ([EvStore dest z; EvFlush dest 64] ++ EvDrain :: []) in Hc.
    rewrite app_assoc in Hc.
    assert (forall w, w mod 8 = 0 -> pending (trace s2 ++ [EvStore dest z; EvFlush dest 64]) w = false ->
      agree img (vis s') w 8) as Hag.
    { intros w Hw Hp. pose proof (crash_persisted _ _ _ _ w Hc Hw Hp (Forall_nil_2 _)) as Ha.
      rewrite replay_app, <- Hvis in Ha. cbn [replay foldl apply_ev] in Ha. by rewrite C1. }
    exists (PMst img [] false). split.
    + pose proof (rp_dest8 _ _ _ _ _ _ _ Hpre) as Hd8.
      assert (ulog_capacity_addr dest mod 8 = 0) as Hc8 by (unfold ulog_capacity_addr; by rewrite Zplus_mod, Hd8).
      apply empty_not_recovered. rewrite <- Hcap0. apply agree_load64, Hag; [done|].
      rewrite pending_app. cbn [foldl pending_step].
      rewrite (covers_word dest 64); [done..| |]; unfold ulog_capacity_addr; lia.
    + intros w Hw A1 A2. eapply agree_trans; [apply Hag; [done|]|by apply Hsame].
      rewrite pending_app, Hpend by done. cbn [foldl pending_step].
      destruct (touches dest z w) eqn:Ht; [|by destruct (covers _ _ _)].
      exfalso. unfold touches, z in Ht. rewrite length_replicate in Ht. unfold apart in A1.
      pose proof (store_size_pos es). apply andb_true_iff in Ht as [T1 T2]. zb. lia.
Qed.

Definition ex_redo_ctx : operation_context :=
  set_logs (OpLog 1024 32 4096) (OpLog 1024 0 16384) VECQ_INIT
    (OpCtx LOG_TYPE_REDO None (fun _ ws => ws) ex_ops (POps 0 OPS_TRANSIENT)
      (POps 512 OPS_TRANSIENT) 0 0 0 0 0 1024 640 1664 0 0 [] OPERATION_IN_PROGRESS
      (OpLog 1024 0 4096) (OpLog 1024 0 16384) VECQ_INIT).

Lemma process_redo_atomic_witness :
  exists s' tr,
    operation_process 10 ex_redo_ctx (PMst ex_mem [] false) =
      Some (set_state OPERATION_CLEANUP ex_redo_ctx, s') /\
    trace s' = tr ++ [EvStore 1024 (replicate 64 Byte.x00); EvFlush 1024 64; EvDrain] /\
    same_pool 1024 4096 ex_es (vis s') (apply_log 512 ex_es ex_mem) /\
    ulog_recovery_needed 10 (vis s') 1024 true = Some false /\
    (forall n img, crash_image ex_mem (take n tr) img ->
       recovers_to 10 ex_ops 1024 4096 ex_es img ex_mem \/
       recovers_to 10 ex_ops 1024 4096 ex_es img (apply_log 512 ex_es ex_mem) \/
       checksum_collision 10 1024 ex_es img) /\
    (forall img, crash_image ex_mem tr img \/ crash_image ex_mem (trace s') img ->
       recovers_to 10 ex_ops 1024 4096 ex_es img (apply_log 512 ex_es ex_mem)).
Proof.
  apply (process_redo_atomic 10 ex_redo_ctx ex_es ex_mem); [by constructor|done|cbn; lia|done|exact ex_pre|].
  vm_compute. lia.
Defined.

(** ** The window before the last drain *)

(** The events of a run up to the store that clobbers the log. *)
Definition events_to_clobber (r : option (operation_context * pmst)) : list pevent :=
  match r with Some (_, s) => take (length (trace s) - 2) (trace s) | None => [] end.

(** Those of the instance, evaluated. *)
Definition window_trace : list pevent :=
  Eval vm_compute in events_to_clobber (operation_process 10 ex_redo_ctx (PMst ex_mem [] false)).

(** The clobbered header reached the media, the second update did not. *)
Definition window_image : mem := write_bytes (replay ex_mem window_trace) 8712 (le64 0).

Lemma window_crash : crash_image ex_mem window_trace window_image.
Proof.
  intros w Hw. destruct (decide (w = 8712)) as [->|Hne].
  - exists 9%nat. split; [vm_compute; lia|]. intros j Hj. apply (load64_eq_agree _ _ 8712); [|lia].
    vm_compute. reflexivity.
  - exists (length window_trace). split.
    + unfold durable. pose proof (durable_from_bounds window_trace w 0 0 0). lia.
    + intros j Hj. rewrite firstn_all. unfold window_image. apply write_bytes_out. rewrite length_le64.
      pose proof (aligned_apart w 8712 Hw eq_refl Hne). lia.
Qed.

(** C39. A window without atomicity.  ulog_process only flushes the updates and
    ulog_clobber stores the empty header before the next drain, so a power
    failure right behind that store may keep the empty header and lose one of
    the updates: recovery then does nothing, and of the two updates of the
    operation (7 at 8704, 5 at 8712) only the first is there. *)
Theorem clobber_before_drain_not_atomic :
  events_to_clobber (operation_process 10 ex_redo_ctx (PMst ex_mem [] false)) = window_trace /\
  crash_image ex_mem window_trace window_image /\
  ulog_recover 10 1024 ex_ops (PMst window_image [] false) = Some (PMst window_image [] false) /\
  load64 window_image 8704 = 7 /\ load64 window_image 8712 = 0 /\
  load64 ex_mem 8704 = 0 /\ load64 (apply_log 512 ex_es ex_mem) 8712 = 5.
Proof.
  split; [vm_compute; reflexivity|]. split; [exact window_crash|].
  split; [apply empty_not_recovered; vm_compute; reflexivity|].
  repeat split; vm_compute; reflexivity.
Qed.
