(* ===== verification/MemopsRun.v ===== *)
(** * Whole redo operations

    An operation from operation_start to operation_finish, on a pool that is on
    media: what the entries added to it do to the memory, and what a power
    failure at any point of it leaves.  The shadow log is ordinary memory, whose
    content does not survive; everything said about the pool is said about words
    outside of it. *)
From stdpp Require Import base numbers list list_numbers.
From Stdlib Require Import ZArith Lia Bool.
From S2P Require Import Prelude Pmem Settled Checksum Ulog UlogFacts UlogRedo UlogCrash Vecq Memops MemopsLog MemopsProcess.

(** ** Power failures after a settled past *)

Lemma durable_from_shift tr w n i fl du fl' du' :
  (fl = 0 \/ fl + n <= fl')%nat -> (du = 0 \/ du + n <= du')%nat -> (du <= fl <= i)%nat ->
  (durable_from tr w i fl du = 0 \/ durable_from tr w i fl du + n <= durable_from tr w (i + n) fl' du')%nat.
Proof.
  revert i fl du fl' du'. induction tr as [|[a bs|a len|] tr IH]; intros i fl du fl' du' H1 H2 H3; cbn [durable_from]; [done|..].
  - apply (IH (S i)); lia.
  - destruct (covers a len w); apply (IH (S i)); lia.
  - apply (IH (S i)); lia.
Qed.

(** A word that was on media: a later power failure is one of the later run. *)
Lemma crash_word_suffix m0 tr1 tr2 img w :
  on_media m0 tr1 w -> crash_word m0 (tr1 ++ tr2) img w -> crash_word (replay m0 tr1) tr2 img w.
Proof.
  intros [_ Hs] (k & Hk & Himg). pose proof (durable_mono tr1 tr2 w) as Hd.
  pose proof (durable_from_shift tr2 w (length tr1) 0 0 0 (marks tr1 w 0 0 0).1 (marks tr1 w 0 0 0).2 ltac:(lia) ltac:(lia) ltac:(lia)) as Hsh.
  unfold durable in Hk at 1. rewrite durable_from_app in Hk. cbn [plus] in Hk, Hsh. fold (durable tr2 w) in Hsh.
  rewrite length_app in Hk. exists (k - length tr1)%nat. split; [lia|]. intros j Hj. rewrite Himg by done.
  destruct (decide (k <= length tr1)%nat) as [Hle|Hgt].
  - rewrite take_app_le by done. replace (k - length tr1)%nat with 0%nat by lia. cbn [take]. apply Hs; [|done].
    split; [|done]. unfold durable at 1 in Hd. unfold durable in Hd. rewrite durable_from_app in Hd. unfold durable. cbn [plus] in Hd. lia.
  - rewrite take_app_ge by lia. by rewrite replay_app.
Qed.

(** ** The operation *)

(** The room of the shadow log, and the part of it the operations here use. *)
Definition shadow_span : Z := 64 + 1024.
Definition used_span : Z := 256.

Section Op.
Context (p_ops : pmem_ops) (dest src nbytes total : Z) (pop : PMEMobjpool) (m0 : mem).
(** Words of the pool that nobody flushes: those of locks. *)
Context (volatile : Z -> Prop).
Let b : Z := base p_ops.

(** The words that survive. *)
Definition steady (w : Z) : Prop := apart src shadow_span w 8 /\ ~ volatile w.

(** Where the logs are: the persistent one at [dest], its shadow at [src]. *)
Record op_layout : Prop := OpLayout {
  ol_table : table p_ops = OPS_POOL;
  ol_base8 : b mod 8 = 0;
  ol_dest8 : dest mod 8 = 0;
  ol_src8 : src mod 8 = 0;
  ol_dest0 : dest <> 0;
  ol_src0 : src <> 0;
  ol_size : used_span <= nbytes /\ nbytes <= total;
  ol_apart : apart dest (64 + nbytes) src shadow_span;
  ol_volatile w : volatile w -> w mod 8 = 0 /\ apart dest (64 + nbytes) w 8 /\ apart src shadow_span w 8
}.

(** A word of the pool outside of both logs. *)
Definition pool_word (w : Z) : Prop := w mod 8 = 0 /\ apart dest (64 + nbytes) w 8 /\ steady w.

(** The same, or the word of a lock. *)
Definition outside (w : Z) : Prop := w mod 8 = 0 /\ apart dest (64 + nbytes) w 8 /\ apart src shadow_span w 8.
Lemma pool_word_outside w : pool_word w -> outside w.
Proof. intros (H1 & H2 & H3 & _). done. Qed.

(** A redo context over these logs. *)
Record op_ctx (c : operation_context) : Prop := OpCtxOk {
  oc_type : ctx_type c = LOG_TYPE_REDO;
  oc_ops : ctx_p_ops c = p_ops;
  oc_ulog : ctx_ulog c = dest /\ ctx_ulog_base_nbytes c = nbytes /\ ctx_ulog_capacity c = total /\ ctx_next c = [];
  oc_shadow : log_ulog (pshadow_ops c) = src
}.

(** The memory: the logs hold nothing but value entries, the persistent one is
    empty, and the pool is on media. *)
Record op_mem (s : pmst) : Prop := OpMem {
  om_src_slots : slots_ok (vis s) (ulog_data src) used_span;
  om_src_cap : used_span <= load64 (vis s) (ulog_capacity_addr src);
  om_dest_slots : slots_ok (vis s) (ulog_data dest) used_span;
  om_dest_cap : load64 (vis s) (ulog_capacity_addr dest) = 0;
  om_wf : wf_st m0 s;
  om_media w : w mod 8 = 0 -> steady w -> on_media m0 (trace s) w
}.

(** Between operations. *)
Definition op_ready (c : operation_context) (s : pmst) : Prop := op_ctx c /\ ctx_idle c /\ op_mem s.

(** The entries that were added; [es]: what they became in the log. *)
Definition log_means (c : operation_context) (s : pmst) (es vs : list vent) : Prop :=
  plog_ok c s es /\ (forall t x, word_log t es x = word_log t vs x) /\
  (length es <= length vs)%nat /\ Forall (fun v => pool_word (b + ve_off v)) es /\ Forall vent_ok vs /\ Forall vent_aligned vs.

Record collecting (c : operation_context) (s : pmst) (vs : list vent) : Prop := Collecting {
  co_log : exists es, log_means c s es vs;
  co_unwrapped : unwrapped c;
  co_room : log_capacity (pshadow_ops c) = ULOG_BASE_SIZE;
  co_ctx : op_ctx c;
  co_rest : log_offset (transient_ops c) = 0 /\ ulog_any_user_buffer c = 0 /\ ctx_state c = OPERATION_IN_PROGRESS;
  co_mem : op_mem s
}.

Lemma start_collecting c s : op_ready c s -> collecting (operation_start c) s [].
Proof.
  intros ([C1 C2 C3 C4] & Hi & Hm). destruct (start_ok c s Hi) as [P1 P2]. constructor; try done; [by exists []|apply Hi].
Qed.

(** Stores to the shadow log. *)
Definition shadow_only (evs : list pevent) : Prop :=
  Forall (fun ev => match ev with EvStore a bs => src + 64 <= a /\ a + Z.of_nat (length bs) <= src + shadow_span | _ => False end) evs.

Definition shadow_step (s s' : pmst) : Prop :=
  exists evs, trace s' = trace s ++ evs /\ shadow_only evs /\ vis s' = replay (vis s) evs /\ fault s' = fault s.

Lemma shadow_avoids evs w n : shadow_only evs -> apart src shadow_span w n -> Forall (ev_avoids w n) evs.
Proof.
  intros He Ha. eapply Forall_impl; [exact He|]. intros [a bs| |]; cbn; try done. unfold apart, shadow_span in *. lia.
Qed.

Lemma shadow_step_vis s s' w n : shadow_step s s' -> apart src shadow_span w n -> agree (vis s') (vis s) w n.
Proof. intros (evs & _ & He & -> & _) Ha. by apply replay_avoids, shadow_avoids. Qed.

Lemma shadow_step_refl s : shadow_step s s.
Proof. exists []. rewrite app_nil_r. by repeat split; constructor. Qed.

Lemma shadow_step_trans s1 s2 s3 : shadow_step s1 s2 -> shadow_step s2 s3 -> shadow_step s1 s3.
Proof.
  intros (e1 & T1 & H1 & V1 & F1) (e2 & T2 & H2 & V2 & F2). exists (e1 ++ e2). rewrite T2, T1, V2, V1, F2, F1, replay_app, app_assoc.
  split; [done|]. split; [by apply Forall_app|]. done.
Qed.

(** What such a step keeps of the memory. *)
Lemma shadow_step_mem s s' : op_layout -> shadow_step s s' -> op_mem s -> slots_ok (vis s') (ulog_data src) used_span -> op_mem s'.
Proof.
  intros HL Hs [M1 M2 M3 M4 M5 M6] Hsl. destruct HL as [L1 L2 L3 L4 L5 L6 [L7 L8] L9 L10]. unfold apart, shadow_span, used_span, ulog_data, SIZEOF_ULOG_HDR, ulog_capacity_addr in *.
  constructor; unfold used_span, ulog_data, SIZEOF_ULOG_HDR, ulog_capacity_addr; try done.
  - destruct Hs as (evs & _ & He & -> & _). rewrite (load64_agree _ (vis s) src 64); [done| |lia|lia].
    apply replay_avoids. eapply Forall_impl; [exact He|]. intros [a bs| |]; cbn; try done. lia.
  - intros i Hi Hlt. rewrite (agree_load64 _ (vis s)); [by apply M3|]. apply (shadow_step_vis s); [done|]. unfold apart, shadow_span. lia.
  - rewrite (agree_load64 _ (vis s)); [done|]. apply (shadow_step_vis s); [done|]. unfold apart, shadow_span. lia.
  - destruct Hs as (evs & E & He & Ev & _). unfold wf_st. rewrite E, Ev, replay_app. by apply replay_proper.
  - intros w Hw Ha. destruct Hs as (evs & -> & He & _). apply on_media_avoids; [by apply M6|apply shadow_avoids; [done|apply Ha]].
Qed.

(** ** Adding an entry *)

Lemma vent_slot m a v : vent_at m a v -> slot_ok (load64 m a).
Proof. intros H. right. pose proof (vent_type _ _ _ H) as E. unfold ulog_entry_type in E. rewrite E. by destruct (ve_op v). Qed.

Lemma collect_add ra ok c s vs v :
  op_layout -> collecting c s vs -> (length vs < 14)%nat -> vent_ok v -> vent_aligned v -> pool_word (b + ve_off v) ->
  OBJ_OFF_IS_VALID pop (ve_off v) = true ->
  exists c' s', operation_add_entry ra ok c (b + ve_off v) (ve_val v) (op_type (ve_op v)) (pop, s) = (0, c', (pop, s')) /\
    collecting c' s' (vs ++ [v]) /\ shadow_step s s'.
Proof.
  intros HL [(es & Hp & Hw & Hlen & Htg & Hvok & Hval') Hun Hroom Hctx Hrest Hmem] Hn Hv Hal Hpw Hval.
  pose proof (pl_off _ _ _ Hp) as Hoff. unfold ULOG_BASE_SIZE in Hroom. pose proof Hctx as [C1 C2 C3 C4].
  destruct (add_in_place_run ok c s es v Hp Hun ltac:(lia) Hv Hal ra) as (c' & s' & es' & E & P1 & P2 & P3 & Ho).
  exists c', s'. rewrite C2 in E. fold b in E.
  assert (shadow_step s s' /\ slots_ok (vis s') (ulog_data src) used_span) as [Hst Hsl].
  { pose proof Hmem as [M1 _ _ _ _ _]. unfold add_outcome in Ho. rewrite C4, Hoff in Ho. unfold entry_value_addr in Ho. destruct Ho as [(_ & -> & _)|(_ & pre & u & post & Ee & _ & _ & ->)].
    - split.
      + eexists [_]. split; [reflexivity|]. split; [|done]. constructor; [|constructor]. rewrite length_app, length_enc_vent, length_le64. unfold ulog_data, SIZEOF_ULOG_HDR, shadow_span. lia.
      + cbn [st_store vis]. destruct (written_vent (vis s) (ulog_data src + 16 * Z.of_nat (length es)) v Hv) as (W1 & W2 & W3). intros i Hi Hlt.
        destruct (decide (i = Z.of_nat (length es))) as [->|Hne]; [by apply (vent_slot _ _ v)|].
        destruct (decide (i = Z.of_nat (length es) + 1)) as [->|Hne2].
        * left. replace (ulog_data src + 16 * (Z.of_nat (length es) + 1)) with (ulog_data src + 16 * Z.of_nat (length es) + 16) by lia. exact W2.
        * rewrite load64_write_disj; [by apply M1|]. rewrite length_app, length_enc_vent, length_le64. lia.
    - assert (length es = S (length pre + length post)) as El by (rewrite Ee, length_app; cbn [length]; lia). split.
      + eexists [_]. split; [reflexivity|]. split; [|done]. constructor; [|constructor]. rewrite length_le64. unfold ulog_data, SIZEOF_ULOG_HDR, shadow_span. lia.
      + cbn [st_store64 st_store vis]. intros i Hi Hlt. rewrite load64_write_disj; [by apply M1|]. rewrite length_le64. lia. }
  split; [|split; [|done]].
  - unfold operation_add_entry. cbn [fst snd]. rewrite C2. fold b. replace (b + ve_off v - b) with (ve_off v) by lia. rewrite (u64_small (ve_off v)) by (destruct Hv; lia). rewrite Hval, E. done.
  - constructor; [exists es'| | | | |]; try done.
    + assert (Forall vent_ok (vs ++ [v]) /\ Forall vent_aligned (vs ++ [v])) as HF by (split; apply Forall_app; (split; [done|]); by constructor).
      split; [done|]. split; [intros t x; by rewrite P3, !word_log_app, Hw|]. unfold add_outcome in Ho. destruct Ho as [(_ & _ & ->)|(_ & pre & u & post & Ee & -> & Eu & _)].
      * rewrite !length_app. cbn [length]. split; [lia|]. split; [|done]. apply Forall_app. split; [done|]. by constructor.
      * subst es. rewrite !length_app in *. cbn [length] in *. split; [lia|]. split; [|done]. apply Forall_app in Htg as [T1 [T2 T3]%Forall_cons]. apply Forall_app. split; [done|]. constructor; [|done]. cbn [merged ve_off]. done.
    + destruct Ho as [(-> & _)|(-> & _)]; done.
    + destruct Ho as [(-> & _)|(-> & _)]; [|done]. by constructor.
    + destruct Ho as [(-> & _)|(-> & _)]; done.
    + by apply (shadow_step_mem s).
Qed.

(** ** Stores of the caller *)

Lemma plog_ok_agree c s s' es :
  (forall x, src + 64 <= x < src + shadow_span -> vis s' x = vis s x) -> log_ulog (pshadow_ops c) = src -> log_capacity (pshadow_ops c) = ULOG_BASE_SIZE ->
  plog_ok c s es -> plog_ok c s' es.
Proof.
  intros Hag C4 Hcap [H1 H2 H3 H4 H5 H6 H7 H8 H9 H10 H11]. unfold shadow_span, ULOG_BASE_SIZE in *. rewrite C4 in H1, H3. unfold ulog_data, SIZEOF_ULOG_HDR in *.
  constructor; try done; rewrite ?C4; unfold ulog_data, SIZEOF_ULOG_HDR.
  - eapply log_at_agree; [|exact H1]. intros x Hx. apply Hag. lia.
  - intros Hne. rewrite <- (H3 Hne). apply agree_load64. intros x Hx. apply Hag. lia.
Qed.

(** Stores to a range of the pool that end with a persist. *)
Definition stored (a n : Z) (s s' : pmst) : Prop :=
  exists evs, Forall (fun ev => match ev with EvStore x bs => a <= x /\ x + Z.of_nat (length bs) <= a + n | _ => False end) evs /\
    trace s' = trace s ++ evs ++ [EvFlush a n; EvDrain] /\ vis s' = replay (vis s) evs /\ fault s' = fault s.

Lemma stored_vis a n s s' w k : stored a n s s' -> apart a n w k -> agree (vis s') (vis s) w k.
Proof.
  intros (evs & He & _ & -> & _) Ha. apply replay_avoids. eapply Forall_impl; [exact He|]. intros [x bs| |]; cbn; try done. unfold apart in Ha. lia.
Qed.

Lemma stored_mem a n s s' : op_layout -> op_mem s -> stored a n s s' -> 0 <= n -> a mod 8 = 0 -> apart dest (64 + nbytes) a n -> apart src shadow_span a n -> op_mem s'.
Proof.
  intros [L1 L2 L3 L4 L5 L6 [L7 L8] L9 L10] [M1 M2 M3 M4 M5 M6] Hst Hn Ha8 A1 A2.
  assert (forall w, (src <= w /\ w + 8 <= src + shadow_span) \/ (dest <= w /\ w + 8 <= dest + (64 + nbytes)) -> load64 (vis s') w = load64 (vis s) w) as Hld.
  { intros w Hw. apply agree_load64. apply (stored_vis a n); [done|]. unfold apart in *. lia. }
  unfold shadow_span, used_span, ulog_data, SIZEOF_ULOG_HDR, ulog_capacity_addr in *.
  constructor; unfold used_span, ulog_data, SIZEOF_ULOG_HDR, ulog_capacity_addr; rewrite ?Hld by lia; try done.
  - intros i Hi Hlt. rewrite Hld by lia. by apply M1.
  - intros i Hi Hlt. rewrite Hld by lia. by apply M3.
  - destruct Hst as (evs & _ & E & Ev & _). unfold wf_st. rewrite E, Ev, !replay_app. cbn [replay foldl apply_ev]. by apply replay_proper.
  - intros w Hw Haw. destruct Hst as (evs & He & -> & _). change [EvFlush a n; EvDrain] with ([EvFlush a n] ++ [EvDrain]). rewrite (app_assoc evs), app_assoc. apply on_media_drain.
    rewrite pending_app, foldl_app. cbn [foldl pending_step]. destruct (covers a n w) eqn:Ec; [done|].
    assert (apart a n w 8) as Hfar.
    { destruct (decide (apart a n w 8)) as [|Hf]; [done|]. unfold apart in Hf. exfalso. pose proof (Z.div_mod a 8 ltac:(lia)). pose proof (Z.div_mod w 8 ltac:(lia)).
      rewrite covers_word in Ec by (lia || done). done. }
    assert (Forall (ev_avoids w 8) evs) as Hav.
    { eapply Forall_impl; [exact He|]. intros [x bs| |]; cbn; try done. unfold apart in Hfar. lia. }
    destruct (on_media_avoids _ _ _ _ (M6 w Hw Haw) Hav) as [Hp _]. by rewrite pending_app in Hp.
Qed.

Lemma collect_stored a n c s s' vs : op_layout -> collecting c s vs -> stored a n s s' -> 0 <= n -> a mod 8 = 0 ->
  apart dest (64 + nbytes) a n -> apart src shadow_span a n -> collecting c s' vs.
Proof.
  intros HL [(es & Hp & Hw) Hun Hroom Hctx Hrest Hmem] Hst Hn Ha8 A1 A2. constructor; try done; [|by apply (stored_mem a n s)].
  exists es. split; [|done]. apply (plog_ok_agree c s); [|apply Hctx|done|done]. intros x Hx. apply (stored_vis a n s s' x 1); [done| |lia]. unfold apart in *. lia.
Qed.

(** ** Power failures *)

(** Recovery gives the pool the content of [m]. *)
Definition recovers (fuel : nat) (img m : mem) : Prop := recovers_on fuel p_ops dest pool_word img m.
Definition torn (fuel : nat) (img : mem) : Prop := exists es, checksum_collision fuel dest es img.

Lemma recovers_weaken fuel P img m m' : (forall w, pool_word w -> P w) -> recovers_on fuel p_ops dest P img m -> m ≡ m' -> recovers fuel img m'.
Proof. intros HP (r & Er & Hs) E. exists r. split; [done|]. intros w Hw Hp x Hx. rewrite (Hs w Hw (HP w Hp) x Hx). apply E. Qed.

Lemma empty_recovers fuel img m : load64 img (ulog_capacity_addr dest) = 0 -> (forall w, pool_word w -> agree img m w 8) -> recovers (S fuel) img m.
Proof. intros H0 Hag. exists (PMst img [] false). split; [by apply empty_not_recovered|]. intros w Hw A1. by apply Hag. Qed.

Lemma dest_steady : op_layout -> forall w, dest <= w -> w + 8 <= dest + (64 + nbytes) -> steady w.
Proof.
  intros [L1 L2 L3 L4 L5 L6 [L7 L8] L9 L10] w H1 H2. split; [unfold apart in *; lia|]. intros Hv. destruct (L10 w Hv) as (_ & A & _). unfold apart in A. lia.
Qed.

Lemma dest_cap_word : op_layout -> ulog_capacity_addr dest mod 8 = 0 /\ steady (ulog_capacity_addr dest) /\ dest <= ulog_capacity_addr dest /\ ulog_capacity_addr dest + 8 <= dest + 64.
Proof.
  intros HL. pose proof (dest_steady HL) as Hd. destruct HL as [L1 L2 L3 L4 L5 L6 [L7 L8] L9 L10]. unfold ulog_capacity_addr, used_span in *.
  split; [by rewrite Zplus_mod, L3|]. split; [apply Hd; lia|]. lia.
Qed.

Lemma crash_suffix s tr img : op_mem s -> crash_image m0 (trace s ++ tr) img -> crash_on steady (vis s) tr img.
Proof.
  intros [_ _ _ _ Hwf Hm] Hc w Hw Ha. destruct (crash_word_suffix _ _ _ _ _ (Hm w Hw Ha) (Hc w Hw)) as (k & Hk & Himg).
  exists k. split; [done|]. intros j Hj. rewrite Himg by done. apply replay_proper; [|done]. symmetry. exact Hwf.
Qed.

Lemma crash_untouched_word m tr img w : crash_word m tr img w -> Forall (ev_avoids w 8) tr -> agree img m w 8.
Proof. intros (k & _ & Himg) Ha x Hx. replace x with (w + (x - w)) by lia. rewrite Himg by lia. apply (replay_avoids m (take k tr) w 8); [by apply Forall_take|lia]. Qed.

(** While nothing but the shadow log is written. *)
Lemma quiet_recovers fuel s tr img : op_layout -> op_mem s -> shadow_only tr -> crash_image m0 (trace s ++ tr) img -> recovers (S fuel) img (vis s).
Proof.
  intros HL Hm Ht Hc. pose proof (crash_suffix s tr img Hm Hc) as Hs. destruct (dest_cap_word HL) as (D1 & D2 & _). apply empty_recovers.
  - rewrite <- (om_dest_cap s Hm). apply agree_load64, (crash_untouched_word _ tr); [by apply Hs|apply shadow_avoids; [done|apply D2]].
  - intros w (Hw & _ & A2). apply (crash_untouched_word _ tr); [by apply Hs|apply shadow_avoids; [done|apply A2]].
Qed.

(** ** The end of the operation *)

(** The trace gets from [t] to [t'] by [tr], and by the store that clears the log,
    with its flush and its drain, if a log was used at all. *)
Definition log_cleared : list pevent := [EvStore dest (replicate 64 Byte.x00); EvFlush dest 64; EvDrain].
Definition runs_through (t tr t' : list pevent) : Prop := t' = t ++ tr \/ t' = t ++ tr ++ log_cleared.

(** What processing and finishing an operation with the entries [vs] does. *)
Definition op_outcome (fuel : nat) (push : nat -> bool) (c : operation_context) (s : pmst) (vs : list vent) : Prop :=
  let m' := apply_log b vs (vis s) in
  exists c' s' tr,
    ('(c, s) ← operation_process fuel c s; operation_finish fuel push c 0 (pop, s)) = Some (c', (pop, s')) /\
    op_ready c' s' /\ runs_through (trace s) tr (trace s') /\
    (forall w, outside w -> agree (vis s') m' w 8) /\
    (forall n img, crash_image m0 (trace s ++ take n tr) img -> recovers fuel img (vis s) \/ recovers fuel img m' \/ torn fuel img) /\
    (forall img, crash_image m0 (trace s') img -> recovers fuel img m').

Lemma finish_idle c fuel push (ws : world) : op_ctx c -> log_offset (transient_ops c) = 0 /\ ulog_any_user_buffer c = 0 /\ ctx_state c = OPERATION_IN_PROGRESS ->
  operation_finish fuel push c 0 ws = Some (set_state OPERATION_IDLE c, ws).
Proof.
  intros [H1 _ _ _] (H2 & H3 & H4). unfold operation_finish. rewrite (bool_decide_eq_false_2 (ctx_type c = LOG_TYPE_UNDO)) by (by rewrite H1).
  cbn [andb]. rewrite H3. cbn [Z.eqb negb]. rewrite H4. by rewrite bool_decide_eq_false_2 by done.
Qed.

Lemma collecting_idle c s vs : collecting c s vs -> op_ctx (set_state OPERATION_IDLE c) /\ ctx_idle (set_state OPERATION_IDLE c).
Proof.
  intros [(es & Hp & _) _ Hr [C1 C2 C3 C4] _ _]. split; [by constructor|]. constructor; [exact Hr|apply (pl_queue _ _ _ Hp)|apply (pl_s_ops _ _ _ Hp)].
Qed.

Lemma means_memory c s es vs m : log_means c s es vs -> apply_log b es m ≡ apply_log b vs m.
Proof. intros (Hp & Hw & _ & _ & V1 & V2). apply word_log_memory; try done; [apply (log_at_ok _ _ _ (pl_entries _ _ _ Hp))|apply (pl_aligned _ _ _ Hp)]. Qed.

Lemma run_none fuel push c s vs : op_layout -> collecting c s vs -> log_means c s [] vs -> op_outcome (S fuel) push c s vs.
Proof.
  intros HL Hc Hm. pose proof Hc as [_ _ _ Hctx Hrest Hmem]. pose proof (means_memory c s [] vs (vis s) Hm) as Em. cbn [apply_log foldl] in Em.
  assert (forall img, crash_image m0 (trace s) img -> recovers (S fuel) img (vis s)) as Hr.
  { intros img Hi. apply (quiet_recovers fuel s []); [done|done|constructor|by rewrite app_nil_r]. }
  exists (set_state OPERATION_IDLE c), s, []. split; [|split; [|split; [|split; [|split]]]].
  - unfold operation_process. destruct Hm as (Hp & _). rewrite (pl_off _ _ _ Hp). cbn [length Z.of_nat Z.mul Z.eqb negb]. rewrite andb_false_r. cbn [andb].
    rewrite (oc_type c Hctx). rewrite (bool_decide_eq_false_2 (LOG_TYPE_REDO = LOG_TYPE_UNDO)) by done. cbn [andb mbind option_bind].
    rewrite (proj1 Hrest). cbn [Z.eqb negb mbind option_bind]. by apply finish_idle.
  - destruct (collecting_idle c s vs Hc) as [I1 I2]. done.
  - left. by rewrite app_nil_r.
  - intros w _ x _. apply Em.
  - intros n img Hi. left. apply Hr. by rewrite firstn_nil, app_nil_r in Hi.
  - intros img Hi. by apply (recovers_weaken (S fuel) pool_word img (vis s)); [done|apply Hr|].
Qed.

Lemma collecting_redo c s vs : op_layout -> collecting c s vs -> redo_ctx c.
Proof.
  intros HL [_ _ _ [C1 C2 _ _] [R1 _] _]. constructor; rewrite ?C2; [done|apply HL|apply HL|done].
Qed.

(** The images around the store of one word of the pool. *)
Lemma single_images m a bs evs img : op_layout -> pool_word a -> length bs = 8%nat ->
  load64 m (ulog_capacity_addr dest) = 0 -> Forall (fun e => forall m, apply_ev m e = m) evs -> Forall (fun e => forall w n, ev_avoids w n e) evs ->
  crash_on steady m (EvStore a bs :: evs) img ->
  load64 img (ulog_capacity_addr dest) = 0 /\ (forall w, pool_word w -> w <> a -> agree img m w 8) /\ (agree img m a 8 \/ agree img (write_bytes m a bs) a 8).
Proof.
  intros HL (A8 & A1 & A2) Hl H0 He Hev Hc. destruct (dest_cap_word HL) as (D1 & D2 & D3 & D4).
  assert (forall w, w mod 8 = 0 -> w <> a -> steady w -> agree img m w 8) as Hout.
  { intros w Hw Hne Hw2. apply (crash_untouched_word m (EvStore a bs :: evs)); [by apply Hc|]. constructor; [|eapply Forall_impl; [exact Hev|]; cbn; auto].
    cbn [ev_avoids]. rewrite Hl. pose proof (aligned_apart _ _ Hw A8 Hne). lia. }
  split; [|split].
  - rewrite <- H0. apply agree_load64, Hout; [done| |done]. destruct HL as [_ _ _ _ _ _ [L7 _] _ _]. unfold apart, used_span in *. lia.
  - intros w (W1 & _ & W3) Hne. by apply Hout.
  - destruct (Hc a A8 A2) as (k & _ & Himg). assert (agree img (replay m (take k (EvStore a bs :: evs))) a 8) as Hag by (intros x Hx; replace x with (a + (x - a)) by lia; apply Himg; lia).
    destruct k as [|k]; [by left|right]. cbn [take replay foldl apply_ev] in Hag. assert (forall m k, foldl apply_ev m (take k evs) = m) as Hid.
    { clear -He. intros m. induction He as [|e evs He _ IH]; intros [|k]; try done. cbn [take foldl]. by rewrite He. }
    by rewrite Hid in Hag.
Qed.

Lemma run_single fuel push c s vs v : op_layout -> collecting c s vs -> log_means c s [v] vs -> op_outcome (S fuel) push c s vs.
Proof.
  intros HL Hc Hm. pose proof Hc as [_ _ _ Hctx Hrest Hmem]. pose proof Hm as (Hp & _ & _ & Htg & _). apply Forall_inv in Htg.
  pose proof (means_memory c s [v] vs (vis s) Hm) as Em. cbn [apply_log foldl] in Em.
  destruct (process_single_run (S fuel) c s v (collecting_redo c s vs HL Hc) Hp) as [A8 Erun]. rewrite (oc_ops c Hctx) in A8, Erun. fold b in A8, Erun.
  unfold apply_vent in Em. set (a := b + ve_off v) in *. set (bs := le64 _) in *.
  set (s' := PMst _ _ _) in Erun. assert (vis s' = write_bytes (vis s) a bs) as Ev by done. set (m' := apply_log b vs (vis s)) in *.
  assert (stored a 8 s s') as Hst.
  { exists [EvStore a bs]. split; [constructor; [|constructor]; unfold bs; rewrite length_le64; lia|]. done. }
  assert (op_mem s') as Hmem' by (apply (stored_mem a 8 s); try done; apply Htg).
  assert (forall w, w <> a -> w mod 8 = 0 -> agree m' (vis s) w 8) as Hoff.
  { intros w Hne Hw x Hx. rewrite <- Em. apply write_bytes_out. unfold bs. rewrite length_le64. pose proof (aligned_apart _ _ Hw A8 Hne). lia. }
  assert (forall img, load64 img (ulog_capacity_addr dest) = 0 -> (forall w, pool_word w -> w <> a -> agree img (vis s) w 8) ->
    agree img (write_bytes (vis s) a bs) a 8 -> recovers (S fuel) img m') as Hnew.
  { intros img H0 H1 H2. apply empty_recovers; [done|]. intros w Hw. destruct (decide (w = a)) as [->|Hne]; intros x Hx.
    - rewrite (H2 x Hx). apply Em.
    - rewrite (H1 w Hw Hne x Hx). symmetry. apply (Hoff w Hne); [apply Hw|done]. }
  destruct (collecting_idle c s vs Hc) as [I1 I2].
  exists (set_state OPERATION_IDLE c), s', [EvStore a bs; EvFlush a 8; EvDrain]. split; [|split; [|split; [|split; [|split]]]].
  - rewrite Erun. cbn [mbind option_bind]. by apply finish_idle.
  - done.
  - by left.
  - intros w Hw x Hx. rewrite Ev. apply Em.
  - intros n img Hi. destruct n as [|n]; [left; apply (quiet_recovers fuel s []); [done|done|constructor|done]|].
    apply (crash_suffix s _ img Hmem) in Hi. cbn [take] in Hi.
    assert (Forall (fun e => forall m, apply_ev m e = m) (take n [EvFlush a 8; EvDrain]) /\ Forall (fun e => forall w n, ev_avoids w n e) (take n [EvFlush a 8; EvDrain])) as [F1 F2] by (split; apply Forall_take; by repeat constructor).
    destruct (single_images (vis s) a bs _ img HL Htg eq_refl (om_dest_cap s Hmem) F1 F2 Hi) as (H0 & H1 & [H2|H2]); [left|right; left; by apply Hnew].
    apply empty_recovers; [done|]. intros w Hw. destruct (decide (w = a)) as [->|Hne]; [done|by apply H1].
  - intros img Hi. cbn [s' trace] in Hi. apply (crash_suffix s _ img Hmem) in Hi. pose proof (om_dest_cap s Hmem) as D0.
    destruct (single_images (vis s) a bs [EvFlush a 8; EvDrain] img HL Htg eq_refl D0) as (H0 & H1 & _); [by repeat constructor|by repeat constructor|done|].
    apply Hnew; [done|done|]. change [EvStore a bs; EvFlush a 8; EvDrain] with ([EvStore a bs; EvFlush a 8] ++ EvDrain :: []) in Hi.
    apply (crash_word_persisted (vis s) [EvStore a bs; EvFlush a 8] [] img a); [apply Hi; [done|apply Htg]| |constructor].
    unfold pending. cbn [foldl pending_step]. by rewrite (covers_word a 8 a) by lia.
Qed.

Lemma store_size_used (es : list vent) : (length es <= 14)%nat -> 16 * Z.of_nat (length es) + 8 <= store_size es <= used_span.
Proof.
  intros H. unfold store_size, CACHELINE_ALIGN, sizeof_entry_base, used_span.
  destruct (align_up_64_bounds (16 * Z.of_nat (length es) + 8) ltac:(lia)) as [B1 B2]. split; [lia|]. Z.to_euclidean_division_equations. lia.
Qed.

Lemma collecting_pre c s vs es : op_layout -> collecting c s vs -> log_means c s es vs -> es <> [] -> (length vs <= 14)%nat ->
  redo_pre p_ops dest src nbytes total es (vis s).
Proof.
  intros [L1 L2 L3 L4 L5 L6 [L7 L8] L9 L10] Hc (Hp & _ & Hlen & Htg & _) Hne Hn. pose proof Hc as [_ _ _ [C1 C2 C3 C4] _ [M1 M2 M3 M4 _ _]].
  destruct Hp as [H1 H2 H3 _ _ _ _ _ _ _ _]. rewrite C4 in H1, H3. destruct (store_size_used es ltac:(lia)) as [S1 S2]. unfold used_span in *.
  constructor; try done; try lia.
  - by apply (log_at_ok (vis s) (ulog_data src)).
  - by apply log_at_read.
  - by apply H3.
  - intros i Hi Hlt. apply M1; lia.
  - intros i Hi Hlt. apply M3; lia.
  - unfold apart, shadow_span in *. lia.
  - eapply Forall_impl; [exact Htg|]. intros v (_ & A1 & A2 & _). unfold apart, shadow_span in *. fold b. lia.
Qed.

Lemma finish_cleanup c fuel push s : op_layout -> op_ctx c -> ulog_any_user_buffer c = 0 -> ctx_state c = OPERATION_CLEANUP -> load64 (vis s) (ulog_next_addr dest) = 0 ->
  operation_finish (S fuel) push c 0 (pop, s) = Some (set_state OPERATION_IDLE c, (pop, s)).
Proof.
  intros HL [C1 C2 C3 C4] Hu Hst H0. unfold operation_finish. rewrite (bool_decide_eq_false_2 (ctx_type c = LOG_TYPE_UNDO)) by (by rewrite C1).
  cbn [andb]. rewrite Hu. cbn [Z.eqb negb]. rewrite Hst, bool_decide_eq_true_2 by done. cbn [negb]. rewrite C1, C2. destruct C3 as (-> & _).
  unfold ulog_free_next. destruct (Z.eqb_spec dest 0) as [E|_]; [by destruct (ol_dest0 HL)|].
  change (flag_isset 0 ULOG_ANY_USER_BUFFER) with false. cbn [mbind option_bind ulog_collect_next snd]. rewrite H0. done.
Qed.

Lemma header_next_zero m : load64 (write_bytes m dest (replicate 64 Byte.x00)) (ulog_next_addr dest) = 0.
Proof.
  unfold load64, ulog_next_addr. rewrite read_write_sub by (rewrite ?length_replicate; lia).
  replace (Z.to_nat (dest + 8 - dest)) with 8%nat by lia. reflexivity.
Qed.

(** The log is clobbered and the pool is on media again. *)
Lemma clobbered_mem s s2 s' es tr2 : op_layout -> op_mem s -> store_size es <= used_span -> Forall (fun v => pool_word (b + ve_off v)) es ->
  trace s2 = trace s ++ tr2 -> vis s2 = replay (vis s) tr2 ->
  (forall w, w mod 8 = 0 -> apart src (64 + store_size es) w 8 -> pending tr2 w = false) ->
  slots_ok (vis s2) (ulog_data dest) (store_size es) -> load64 (vis s2) (ulog_capacity_addr src) = load64 (vis s) (ulog_capacity_addr src) ->
  (forall lo n, src + 24 <= lo \/ lo + n <= src -> apart dest (64 + store_size es) lo n ->
     Forall (fun v => apart (b + ve_off v) 8 lo n) es -> agree (vis s2) (vis s) lo n) ->
  let z := replicate 64 Byte.x00 in
  vis s' = write_bytes (vis s2) dest z -> trace s' = trace s2 ++ [EvStore dest z; EvFlush dest 64; EvDrain] -> op_mem s'.
Proof.
  intros HL [M1 M2 M3 M4 M5 M6] Hsz Htg T2 Hvis Hpend Hds Hcap Hfr z Z1 Z2. pose proof HL as [L1 L2 L3 L4 L5 L6 [L7 L8] L9 L10]. pose proof (store_size_pos es) as Hpos.
  assert (forall w, apart dest 64 w 8 -> load64 (vis s') w = load64 (vis s2) w) as Hout.
  { intros w Hw. rewrite Z1. apply load64_write_disj. unfold z. rewrite length_replicate. unfold apart in Hw. lia. }
  assert (forall w, (src + 24 <= w /\ w + 8 <= src + shadow_span) \/ (dest + 64 + store_size es <= w /\ w + 8 <= dest + (64 + nbytes)) -> load64 (vis s2) w = load64 (vis s) w) as Hkeep.
  { intros w Hw. apply agree_load64, Hfr; [unfold apart, shadow_span in *; lia|unfold apart, shadow_span, used_span in *; lia|].
    eapply Forall_impl; [exact Htg|]. intros v (_ & A1 & A2 & _). unfold apart, shadow_span in *. lia. }
  unfold ulog_data, SIZEOF_ULOG_HDR, ulog_capacity_addr, shadow_span, used_span, apart in *.
  constructor; unfold ulog_data, SIZEOF_ULOG_HDR, ulog_capacity_addr, used_span.
  - intros i Hi Hlt. rewrite Hout, Hkeep by lia. by apply M1.
  - rewrite Hout by lia. lia.
  - intros i Hi Hlt. rewrite Hout by lia. destruct (decide (16 * i < store_size es)) as [Hs|Hs]; [by apply Hds|]. rewrite Hkeep by lia. by apply M3.
  - rewrite Z1. apply (header_zero (vis s2) dest).
  - unfold wf_st. rewrite Z1, Z2, replay_app, T2, replay_app. cbn [replay foldl apply_ev]. rewrite Hvis. apply write_bytes_proper; [|done|done]. by apply replay_proper.
  - intros w Hw Ha. rewrite Z2. change [EvStore dest z; EvFlush dest 64; EvDrain] with ([EvStore dest z; EvFlush dest 64] ++ [EvDrain]). rewrite app_assoc. apply on_media_drain.
    assert (pending (trace s2) w = false) as Hp2.
    { rewrite T2, pending_app. destruct (M6 w Hw Ha) as [-> _]. destruct Ha as [Ha _]. unfold apart, shadow_span in Ha. apply Hpend; [done|lia]. }
    rewrite pending_app, Hp2. cbn [foldl pending_step]. destruct (decide (dest < w + 8 /\ w < dest + 64)) as [Hin|Hin].
    + rewrite (covers_word dest 64 w); [done|done|done| |lia]. pose proof (Z.div_mod w 8 ltac:(lia)). pose proof (Z.div_mod dest 8 ltac:(lia)). lia.
    + unfold touches. unfold z. rewrite length_replicate. destruct (Z.ltb_spec dest (w + 8)), (Z.ltb_spec w (dest + Z.of_nat 64)); cbn [andb]; try lia; by destruct (covers _ _ _).
Qed.

Lemma run_many fuel push c s vs es : op_layout -> collecting c s vs -> log_means c s es vs -> (2 <= length es)%nat -> (length vs <= 14)%nat -> (17 <= fuel)%nat ->
  op_outcome fuel push c s vs.
Proof.
  intros HL Hc Hm Hlen Hn Hf. assert (es <> []) as Hne by (destruct es; cbn in Hlen; [lia|done]). pose proof (collecting_pre c s vs es HL Hc Hm Hne Hn) as Hpre.
  pose proof Hm as (Hp & _ & Hle & Htg & _). destruct (store_size_used es ltac:(lia)) as [S1 S2]. pose proof Hc as [_ _ _ Hctx (R1 & R2 & R3) Hmem].
  assert (64 + store_size es <= shadow_span /\ 64 + store_size es <= 64 + nbytes) as [B0 B3].
  { destruct HL as [_ _ _ _ _ _ [L7 L8] L9 _]. unfold shadow_span, used_span, apart in *. lia. }
  assert (forall w, steady w -> apart src (64 + store_size es) w 8) as B1 by (intros w [Hw _]; unfold apart in *; lia).
  assert (forall w, dest <= w -> w + 8 <= dest + (64 + store_size es) -> steady w) as B2 by (intros w H1 H2; apply dest_steady; [done|done|lia]).
  destruct (redo_run _ _ _ _ _ _ _ (trace s) (fault s) Hpre fuel steady B1 B2) as (s1 & s2 & tr1 & tr2 & E1 & E2 & [T1 T2] & Hsame & (Hvis & Hpend & Hds & Hcap & Hfr) & Hcr).
  { unfold used_span in S2. lia. }
  assert (PMst (vis s) (trace s) (fault s) = s) as Es by (by destruct s). rewrite Es in E1.
  set (z := replicate 64 Byte.x00). destruct (clobber_empty p_ops dest s2 (ol_table HL)) as [Z1 Z2]. fold z in Z1, Z2. set (s' := ulog_clobber dest (Some []) p_ops s2) in *.
  set (m' := apply_log b vs (vis s)). pose proof (means_memory c s es vs (vis s) Hm) as Em. fold m' in Em.
  pose proof (clobbered_mem s s2 s' es tr2 HL Hmem S2 Htg T2 Hvis Hpend Hds Hcap Hfr Z1 Z2) as Hmem'.
  assert (forall w, outside w -> agree (vis s') m' w 8) as Hnew.
  { intros w (Hw & A1 & A2) x Hx. transitivity (vis s2 x); [|transitivity (apply_log b es (vis s) x); [apply (Hsame w Hw); [unfold apart in *; lia|unfold apart in *; lia|done]|apply Em]].
    rewrite Z1. apply write_bytes_out. unfold z. rewrite length_replicate. destruct HL as [_ _ _ _ _ _ [L7 _] _ _]. unfold apart, used_span in *. lia. }
  assert (operation_process fuel c s = Some (set_state OPERATION_CLEANUP c, s')) as Erun.
  { pose proof (collecting_redo c s vs HL Hc) as Hr. destruct Hctx as [C1 C2 (C3 & C5 & C6 & C7) C4]. apply (process_redo_run fuel c (length es)); [done|apply (pl_off _ _ _ Hp)|done|done|].
    exists s1, s2. rewrite C3, C4, C5, C6, C2. done. }
  destruct (collecting_idle c s vs Hc) as [I1 I2]. destruct fuel as [|fuel]; [lia|].
  eexists _, s', tr2. split; [|split; [|split; [|split; [exact Hnew|split]]]].
  - rewrite Erun. cbn [mbind option_bind]. apply finish_cleanup; [done| |done|done|rewrite Z1; apply header_next_zero]. destruct Hctx as [C1 C2 C3 C4]. by constructor.
  - split; [|split; [|done]]; [destruct I1 as [C1 C2 C3 C4]|destruct I2]; by constructor.
  - right. by rewrite Z2, T2, <- app_assoc.
  - intros n img Hi. apply (crash_suffix s _ img Hmem) in Hi. destruct (Hcr n img Hi) as [[Ho|[Ho|Ho]] _]; [left|right; left|right; right; by exists es].
    + apply (recovers_weaken (S fuel) _ img (vis s)) with (2 := Ho); [|done]. intros w (_ & A1 & A2). split; [done|unfold apart in *; lia].
    + apply (recovers_weaken (S fuel) _ img (apply_log (base p_ops) es (vis s))) with (2 := Ho); [|done]. intros w (_ & A1 & A2). split; [done|unfold apart in *; lia].
  - intros img Hi. destruct (quiet_recovers fuel s' [] img HL Hmem') as (r & Er & Hr); [constructor|by rewrite app_nil_r|]. exists r. split; [done|]. intros w Hw Hpw.
    eapply agree_trans; [by apply Hr|by apply Hnew, pool_word_outside].
Qed.

(** Whatever was added. *)
Lemma collect_run fuel push c s vs : op_layout -> collecting c s vs -> (length vs <= 14)%nat -> (17 <= fuel)%nat -> op_outcome fuel push c s vs.
Proof.
  intros HL Hc Hn Hf. destruct (co_log c s vs Hc) as (es & Hm). destruct fuel as [|fuel]; [lia|].
  destruct es as [|v [|v' es]]; [by apply run_none|by apply (run_single fuel push c s vs v)|apply (run_many (S fuel) push c s vs (v :: v' :: es)); try done; cbn; lia].
Qed.

(** Stores to the words of locks. *)
Lemma volatile_store a v s : op_layout -> op_mem s -> volatile a -> op_mem (st_store64 a v s) /\ forall w, pool_word w -> agree (vis (st_store64 a v s)) (vis s) w 8.
Proof.
  intros HL [M1 M2 M3 M4 M5 M6] Hv. pose proof HL as [L1 L2 L3 L4 L5 L6 [L7 L8] L9 L10]. destruct (L10 a Hv) as (A8 & A1 & A2).
  assert (forall w n, apart a 8 w n -> agree (vis (st_store64 a v s)) (vis s) w n) as Hout.
  { intros w n Hw x Hx. apply write_bytes_out. rewrite length_le64. unfold apart in Hw. lia. }
  assert (forall w, w mod 8 = 0 -> ~ volatile w -> apart a 8 w 8) as Hne.
  { intros w Hw Hn. unfold apart. assert (w <> a) as Hd by (intros ->; done). pose proof (aligned_apart _ _ Hw A8 Hd). lia. }
  split; [|intros w (Hw & _ & _ & Hn); by apply Hout, Hne].
  unfold apart, shadow_span, used_span, ulog_data, SIZEOF_ULOG_HDR, ulog_capacity_addr in *.
  constructor; unfold used_span, ulog_data, SIZEOF_ULOG_HDR, ulog_capacity_addr.
  - intros i Hi Hlt. rewrite (agree_load64 _ (vis s)) by (apply Hout; lia). by apply M1.
  - rewrite (agree_load64 _ (vis s)) by (apply Hout; lia). done.
  - intros i Hi Hlt. rewrite (agree_load64 _ (vis s)) by (apply Hout; lia). by apply M3.
  - rewrite (agree_load64 _ (vis s)) by (apply Hout; lia). done.
  - unfold wf_st. cbn [st_store64 st_store trace vis]. rewrite replay_app. cbn [replay foldl apply_ev]. by apply write_bytes_proper.
  - intros w Hw Hs. cbn [st_store64 st_store trace]. apply on_media_avoids; [by apply M6|]. constructor; [|constructor]. cbn [ev_avoids]. rewrite length_le64.
    pose proof (Hne w Hw (proj2 Hs)). lia.
Qed.

(** ** While the entries are collected *)

(** From [s0] to [s] nothing happens to the words of the pool but those of
    [fresh]: a power failure leaves what [s0] held. *)
Section Calm.
Context (fuel : nat) (s0 : pmst) (fresh : Z -> Prop).

Definition kept (w : Z) : Prop := pool_word w /\ ~ fresh w.

Definition calm (s : pmst) : Prop :=
  (forall w, kept w -> agree (vis s) (vis s0) w 8) /\
  exists evs, trace s = trace s0 ++ evs /\
    forall n img, crash_image m0 (trace s0 ++ take n evs) img -> recovers_on (S fuel) p_ops dest kept img (vis s0).

Lemma calm_refl : op_layout -> op_mem s0 -> calm s0.
Proof.
  intros HL Hm. split; [by intros w _ x _|]. exists []. rewrite app_nil_r. split; [done|]. intros n img Hc. rewrite firstn_nil in Hc.
  destruct (quiet_recovers fuel s0 [] img HL Hm) as (r & Er & Hr); [constructor|done|]. exists r. split; [done|]. intros w Hw [Hk _]. by apply Hr.
Qed.

(** Events that avoid these words and the header of the log. *)
Lemma calm_step s s1 evs : op_layout -> op_mem s -> calm s -> trace s1 = trace s ++ evs ->
  (forall w, kept w -> Forall (ev_avoids w 8) evs) -> Forall (ev_avoids (ulog_capacity_addr dest) 8) evs ->
  (forall w, kept w -> agree (vis s1) (vis s) w 8) -> calm s1.
Proof.
  intros HL Hm [Hag (e0 & T0 & H0)] T1 Ha Hd Hv. split; [intros w Hw; eapply agree_trans; [by apply Hv|by apply Hag]|].
  exists (e0 ++ evs). split; [by rewrite T1, T0, app_assoc|]. intros n img Hc. destruct (decide (n <= length e0)%nat) as [Hn|Hn].
  { rewrite take_app_le in Hc by done. by apply (H0 n). }
  rewrite take_app_ge, app_assoc, <- T0 in Hc by lia. apply (crash_suffix s _ img Hm) in Hc. destruct (dest_cap_word HL) as (D1 & D2 & _).
  exists (PMst img [] false). split.
  - apply empty_not_recovered. rewrite <- (om_dest_cap s Hm). apply agree_load64, (crash_untouched_word _ (take (n - length e0) evs)); [by apply Hc|by apply Forall_take].
  - intros w Hw Hk. eapply agree_trans; [|by apply Hag]. apply (crash_untouched_word _ (take (n - length e0) evs)); [apply Hc; [done|apply Hk]|by apply Forall_take, Ha].
Qed.

Lemma calm_shadow s s1 : op_layout -> op_mem s -> calm s -> shadow_step s s1 -> calm s1.
Proof.
  intros HL Hm Hc Hs. pose proof Hs as (evs & T & He & _ & _). destruct (dest_cap_word HL) as (_ & D2 & _). apply (calm_step s s1 evs); try done.
  - intros w ((_ & _ & Hw) & _). apply shadow_avoids; [done|apply Hw].
  - apply shadow_avoids; [done|apply D2].
  - intros w ((_ & _ & Hw) & _). apply shadow_step_vis; [done|apply Hw].
Qed.

(** Whole words of [fresh] that are stored and persisted. *)
Lemma calm_stored a n s s1 evs : op_layout -> op_mem s -> calm s ->
  trace s1 = trace s ++ evs ++ [EvFlush a n; EvDrain] -> vis s1 = replay (vis s) evs ->
  Forall (fun ev => match ev with EvStore x bs => fresh x /\ pool_word x /\ length bs = 8%nat | _ => False end) evs -> calm s1.
Proof.
  intros HL Hm Hc T V He. destruct (dest_cap_word HL) as (D1 & D2 & D3 & D4).
  assert (forall w, w mod 8 = 0 -> ~ fresh w -> Forall (ev_avoids w 8) evs) as Hav.
  { intros w Hw Hf. eapply Forall_impl; [exact He|]. intros [x bs| |]; cbn; try done. intros (Hx & (X8 & _) & Hl). rewrite Hl. assert (w <> x) as Hne by (intros ->; done).
    pose proof (aligned_apart _ _ Hw X8 Hne). lia. }
  apply (calm_step s s1 (evs ++ [EvFlush a n; EvDrain])); try done.
  - intros w ((Hw & _ & _) & Hf). apply Forall_app. split; [by apply Hav|by repeat constructor].
  - apply Forall_app. split; [|by repeat constructor]. eapply Forall_impl; [exact He|]. intros [x bs| |]; cbn; try done. intros (_ & (X8 & X1 & _) & Hl). rewrite Hl.
    destruct HL as [_ _ _ _ _ _ [L7 _] _ _]. unfold apart, used_span in *. lia.
  - intros w ((Hw & _ & _) & Hf). rewrite V. by apply replay_avoids, Hav.
Qed.

(** Stores to the words of locks. *)
Lemma calm_volatile a v s : op_layout -> op_mem s -> calm s -> volatile a -> calm (st_store64 a v s).
Proof.
  intros HL Hm Hc Hv. pose proof HL as [_ _ _ _ _ _ [L7 _] _ L10]. destruct (L10 a Hv) as (A8 & A1 & A2). destruct (dest_cap_word HL) as (D1 & D2 & D3 & D4).
  apply (calm_step s _ [EvStore a (le64 v)]); try done.
  - intros w ((Hw & _ & _ & Hn) & _). constructor; [|constructor]. cbn [ev_avoids]. rewrite length_le64. assert (w <> a) as Hne by (intros ->; done). pose proof (aligned_apart _ _ Hw A8 Hne). lia.
  - constructor; [|constructor]. cbn [ev_avoids]. rewrite length_le64. unfold apart, used_span in *. lia.
  - intros w [Hw _]. by apply (volatile_store a v s).
Qed.

(** The whole operation. *)
Lemma calm_outcome push c s vs : op_layout -> collecting c s vs -> calm s -> (length vs <= 14)%nat -> (16 <= fuel)%nat ->
  let m' := apply_log b vs (vis s) in
  exists c' s' tr,
    ('(c, s) ← operation_process (S fuel) c s; operation_finish (S fuel) push c 0 (pop, s)) = Some (c', (pop, s')) /\
    op_ready c' s' /\ runs_through (trace s0) tr (trace s') /\
    (forall w, outside w -> agree (vis s') m' w 8) /\
    (forall n img, crash_image m0 (trace s0 ++ take n tr) img ->
       recovers_on (S fuel) p_ops dest kept img (vis s0) \/ recovers (S fuel) img m' \/ torn (S fuel) img) /\
    (forall img, crash_image m0 (trace s') img -> recovers (S fuel) img m').
Proof.
  intros HL Hc [Hag (evs & T & Hcr)] Hn Hf m'. destruct (collect_run (S fuel) push c s vs HL Hc Hn ltac:(lia)) as (c' & s' & tr & E & Hr & T' & Hv & Hc1 & Hc2).
  exists c', s', (evs ++ tr). split; [done|]. split; [done|]. split; [unfold runs_through in *; rewrite T, <- !app_assoc in T'; by rewrite <- !app_assoc|]. split; [done|]. split; [|done].
  intros n img Hi. destruct (decide (n <= length evs)%nat) as [Hle|Hgt].
  - left. apply (Hcr n). by rewrite take_app_le in Hi.
  - rewrite take_app_ge, app_assoc, <- T in Hi by lia. destruct (Hc1 _ img Hi) as [(r & Er & Ho)|Ho]; [left|by right]. exists r. split; [done|].
    intros w Hw Hk. eapply agree_trans; [apply Ho; [done|apply Hk]|by apply Hag].
Qed.
End Calm.
End Op.
