(* ===== verification/Sync.v ===== *)
(** * Locks in persistent memory (libpmemobj/sync.c)

    A lock in a pool is volatile: its first word holds the identifier of the run
    of the program that initialized it, and the first thread that finds another
    value there initializes the lock, while the others wait.  The steps of
    _get_value are the accesses to that word and the call of the constructor; the
    threads take them in any order.  The locks of the operating system are
    arguments. *)
From stdpp Require Import base numbers list relations.
From Stdlib Require Import ZArith Lia Bool.
From S2P Require Import Prelude Pmem Memops.

Definition EBUSY : Z := 16.
Definition ENODEV : Z := 19.
Definition EINVAL : Z := 22.

(** ** The protocol *)

(** Where a thread is in _get_value; the number is [initializer]. *)
Inductive gv_pc :=
  | GvRead (initializer : Z)             (* the condition of the loop *)
  | GvCas (tmp_runid initializer : Z)    (* the first compare-and-swap *)
  | GvInit                               (* init_value *)
  | GvReset                              (* util_fetch_and_and64 *)
  | GvSet                                (* the second compare-and-swap *)
  | GvDone (ret : Z).

#[global] Instance gv_pc_eq : EqDecision gv_pc.
Proof. solve_decision. Defined.

(** The memory, where the word [runid] is, and the volatile object behind it. *)
Abbreviation sync_st V := (pmst * V)%type.

Section Sync.
Context (pop_runid : Z).

Section GetValue.
Context {V : Type} (init_value : V -> Z * V) (runid : Z).

Definition get_value_step (pc : gv_pc) (st : sync_st V) : gv_pc * sync_st V :=
  let '(s, v) := st in
  match pc with
  | GvRead i =>
      let tmp_runid := load64 (vis s) runid in
      if tmp_runid =? pop_runid then (GvDone i, st)
      else if tmp_runid =? u64 (pop_runid - 1) then (GvRead i, st)
      else (GvCas tmp_runid i, st)
  | GvCas tmp_runid i =>
      if load64 (vis s) runid =? tmp_runid then (GvInit, (st_store64 runid (u64 (pop_runid - 1)) s, v))
      else (GvRead i, st)
  | GvInit =>
      let '(r, v) := init_value v in
      (if r =? 0 then GvSet else GvReset, (s, v))
  | GvReset => (GvDone (-1), (st_store64 runid (Z.land (load64 (vis s) runid) 0) s, v))
  | GvSet =>
      if load64 (vis s) runid =? u64 (pop_runid - 1) then (GvRead 1, (st_store64 runid pop_runid s, v))
      else (GvDone (-1), st)
  | GvDone ret => (GvDone ret, st)
  end.

Fixpoint get_value_from (fuel : nat) (pc : gv_pc) (st : sync_st V) : option (Z * sync_st V) :=
  match pc, fuel with
  | GvDone ret, _ => Some (ret, st)
  | _, O => None
  | _, S fuel => let '(pc, st) := get_value_step pc st in get_value_from fuel pc st
  end.

Definition _get_value (fuel : nat) (st : sync_st V) : option (Z * sync_st V) := get_value_from fuel (GvRead 0) st.

(** get_mutex, get_rwlock and get_cond differ in the type of the object only;
    [false]: NULL.  RECORD_LOCK is empty on this platform. *)
Definition get_object (fuel : nat) (st : sync_st V) : option (bool * sync_st V) :=
  if load64 (vis st.1) runid =? pop_runid then Some (true, st) else
  '(initializer, st) ← _get_value fuel st;
  Some (negb (initializer =? -1), st).

(** An operation of the operating system on the object; [None]: it blocks. *)
Definition on_object (fuel : nat) (op : V -> option (Z * V)) (st : sync_st V) : option (Z * sync_st V) :=
  '(ok, st) ← get_object fuel st;
  if negb (ok : bool) then Some (EINVAL, st) else
  '(ret, v) ← op st.2;
  Some (ret, (st.1, v)).

(** pmemobj_mutex_zero, pmemobj_rwlock_zero and pmemobj_cond_zero. *)
Definition zero_object (p_ops : pmem_ops) (s : pmst) : pmst :=
  pmemops_persist p_ops runid 8 (st_store64 runid 0 s).

(** [false]: NULL; the object is the value of the caller. *)
Definition pmemobj_volatile (fuel : nat) (st : sync_st V) : option (bool * sync_st V) :=
  if load64 (vis st.1) runid =? pop_runid then Some (true, st) else
  '(ret, st) ← _get_value fuel st;
  Some (negb (ret <? 0), st).
End GetValue.

(** ** Mutexes *)

Section Mutex.
Context {M : Type} (os_mutex_init : M -> Z * M) (os_mutex_lock os_mutex_trylock os_mutex_unlock : M -> option (Z * M)).
Context (os_mutex_timedlock : Z -> M -> option (Z * M)).

Definition get_mutex (fuel : nat) (imp : Z) (st : sync_st M) := get_object os_mutex_init imp fuel st.
Definition pmemobj_mutex_zero (p_ops : pmem_ops) (mutexp : Z) (s : pmst) : pmst := zero_object mutexp p_ops s.
Definition pmemobj_mutex_lock (fuel : nat) (mutexp : Z) (st : sync_st M) := on_object os_mutex_init mutexp fuel os_mutex_lock st.
Definition pmemobj_mutex_timedlock (fuel : nat) (mutexp abs_timeout : Z) (st : sync_st M) :=
  on_object os_mutex_init mutexp fuel (os_mutex_timedlock abs_timeout) st.
Definition pmemobj_mutex_trylock (fuel : nat) (mutexp : Z) (st : sync_st M) := on_object os_mutex_init mutexp fuel os_mutex_trylock st.
Definition pmemobj_mutex_unlock (fuel : nat) (mutexp : Z) (st : sync_st M) := on_object os_mutex_init mutexp fuel os_mutex_unlock st.

(** [None] of util_mutex_unlock includes its abort. *)
Definition pmemobj_mutex_assert_locked (fuel : nat) (mutexp : Z) (st : sync_st M) : option (Z * sync_st M) :=
  '(ok, st) ← get_mutex fuel mutexp st;
  if negb (ok : bool) then Some (EINVAL, st) else
  '(ret, m) ← os_mutex_trylock st.2;
  if ret =? EBUSY then Some (0, (st.1, m)) else
  if ret =? 0 then
    '(r, m) ← os_mutex_unlock m;
    if r =? 0 then Some (ENODEV, (st.1, m)) else None
  else Some (ret, (st.1, m)).

(** [None]: FATAL, as when the lock blocks for ever. *)
Definition nofail (r : option (Z * sync_st M)) : option (sync_st M) :=
  '(ret, st) ← r; if ret =? 0 then Some st else None.
Definition pmemobj_mutex_lock_nofail (fuel : nat) (mutexp : Z) (st : sync_st M) := nofail (pmemobj_mutex_lock fuel mutexp st).
Definition pmemobj_mutex_unlock_nofail (fuel : nat) (mutexp : Z) (st : sync_st M) := nofail (pmemobj_mutex_unlock fuel mutexp st).
End Mutex.

(** ** Read-write locks *)

Section Rwlock.
Context {R : Type} (os_rwlock_init : R -> Z * R) (os_rwlock_rdlock os_rwlock_wrlock os_rwlock_tryrdlock os_rwlock_trywrlock os_rwlock_unlock : R -> option (Z * R)).
Context (os_rwlock_timedrdlock os_rwlock_timedwrlock : Z -> R -> option (Z * R)).

Definition get_rwlock (fuel : nat) (irp : Z) (st : sync_st R) := get_object os_rwlock_init irp fuel st.
Definition pmemobj_rwlock_zero (p_ops : pmem_ops) (rwlockp : Z) (s : pmst) : pmst := zero_object rwlockp p_ops s.
Definition pmemobj_rwlock_rdlock fuel rwlockp (st : sync_st R) := on_object os_rwlock_init rwlockp fuel os_rwlock_rdlock st.
Definition pmemobj_rwlock_wrlock fuel rwlockp (st : sync_st R) := on_object os_rwlock_init rwlockp fuel os_rwlock_wrlock st.
Definition pmemobj_rwlock_timedrdlock fuel rwlockp (abs_timeout : Z) (st : sync_st R) := on_object os_rwlock_init rwlockp fuel (os_rwlock_timedrdlock abs_timeout) st.
Definition pmemobj_rwlock_timedwrlock fuel rwlockp (abs_timeout : Z) (st : sync_st R) := on_object os_rwlock_init rwlockp fuel (os_rwlock_timedwrlock abs_timeout) st.
Definition pmemobj_rwlock_tryrdlock fuel rwlockp (st : sync_st R) := on_object os_rwlock_init rwlockp fuel os_rwlock_tryrdlock st.
Definition pmemobj_rwlock_trywrlock fuel rwlockp (st : sync_st R) := on_object os_rwlock_init rwlockp fuel os_rwlock_trywrlock st.
Definition pmemobj_rwlock_unlock fuel rwlockp (st : sync_st R) := on_object os_rwlock_init rwlockp fuel os_rwlock_unlock st.
End Rwlock.

(** ** Condition variables *)

Section Cond.
Context {C M : Type} (os_cond_init : C -> Z * C) (os_mutex_init : M -> Z * M).
Context (os_cond_broadcast os_cond_signal : C -> option (Z * C)) (os_cond_wait : C -> M -> option (Z * C * M)).
Context (os_cond_timedwait : Z -> C -> M -> option (Z * C * M)).

Definition get_cond (fuel : nat) (icp : Z) (st : sync_st C) := get_object os_cond_init icp fuel st.
Definition pmemobj_cond_zero (p_ops : pmem_ops) (condp : Z) (s : pmst) : pmst := zero_object condp p_ops s.
Definition pmemobj_cond_broadcast fuel condp (st : sync_st C) := on_object os_cond_init condp fuel os_cond_broadcast st.
Definition pmemobj_cond_signal fuel condp (st : sync_st C) := on_object os_cond_init condp fuel os_cond_signal st.

(** Both objects are initialized before either is looked at. *)
Definition wait_on (fuel : nat) (op : C -> M -> option (Z * C * M)) (condp mutexp : Z) (st : pmst * C * M) : option (Z * (pmst * C * M)) :=
  let '(s, c, m) := st in
  '(cok, (s, c)) ← get_cond fuel condp (s, c);
  '(mok, (s, m)) ← get_mutex os_mutex_init fuel mutexp (s, m);
  if negb cok || negb mok then Some (EINVAL, (s, c, m)) else
  '(ret, c, m) ← op c m;
  Some (ret, (s, c, m)).
Definition pmemobj_cond_timedwait fuel condp mutexp (abs_timeout : Z) (st : pmst * C * M) := wait_on fuel (os_cond_timedwait abs_timeout) condp mutexp st.
Definition pmemobj_cond_wait fuel condp mutexp (st : pmst * C * M) := wait_on fuel os_cond_wait condp mutexp st.
End Cond.
End Sync.

(** ** Identifiers of runs (obj_runtime_init of obj.c) *)

Definition next_run_id (run_id : Z) : Z :=
  let run_id := u64 (run_id + 2) in
  if run_id =? 0 then u64 (run_id + 2) else run_id.

(** ** Threads *)

Section Threads.
Context (pop_runid : Z) {V : Type} (init_value : V -> Z * V) (runid : Z).
Hypothesis Hrun : 1 < pop_runid < 2 ^ 64.

(** Threads in _get_value on one object, and the calls of init_value so far: the
    thread and what it returned. *)
Record gv_state := GvSt { gv_pcs : list gv_pc; gv_shared : sync_st V; gv_inits : list (nat * Z) }.

Definition gv_event (i : nat) (pc : gv_pc) (v : V) : list (nat * Z) :=
  match pc with GvInit => [(i, (init_value v).1)] | _ => [] end.

(** One step of a thread that has not returned. *)
Inductive gv_step (x : gv_state) : gv_state -> Prop :=
  | gv_thread i pc pc' sh' :
      gv_pcs x !! i = Some pc -> (forall r, pc <> GvDone r) ->
      get_value_step pop_runid init_value runid pc (gv_shared x) = (pc', sh') ->
      gv_step x (GvSt (<[i := pc']> (gv_pcs x)) sh' (gv_inits x ++ gv_event i pc (gv_shared x).2)).

(** The state in which [n] threads enter. *)
Definition gv_start (n : nat) (sh : sync_st V) : gv_state := GvSt (replicate n (GvRead 0)) sh [].

(** The word of the object, and whether a thread is past its compare-and-swap. *)
Definition word (x : gv_state) : Z := load64 (vis (gv_shared x).1) runid.
Definition inside (pc : gv_pc) : Prop := pc = GvInit \/ pc = GvReset \/ pc = GvSet.

(** A call that succeeded is the last one. *)
Definition initialized (x : gv_state) (i : nat) : Prop :=
  exists h, gv_inits x = h ++ [(i, 0)] /\ Forall (fun c => c.2 <> 0) h.
Definition uninitialized (x : gv_state) : Prop := Forall (fun c => c.2 <> 0) (gv_inits x).

(** A call of the thread failed. *)
Definition failed (x : gv_state) (i : nat) : Prop := exists c, (i, c) ∈ gv_inits x /\ c <> 0.

(** What a thread knows: it is outside and did not initialize anything, or it is
    inside, or it is the one that did. *)
Definition gv_local (x : gv_state) (i : nat) (pc : gv_pc) : Prop :=
  match pc with
  | GvRead k => k = 0 /\ ~ initialized x i \/ k = 1 /\ initialized x i /\ word x = pop_runid
  | GvCas tmp k => k = 0 /\ ~ initialized x i /\ tmp <> pop_runid /\ tmp <> pop_runid - 1
  | GvInit => word x = pop_runid - 1 /\ uninitialized x
  | GvReset => word x = pop_runid - 1 /\ uninitialized x /\ failed x i
  | GvSet => word x = pop_runid - 1 /\ initialized x i
  | GvDone k => k = -1 /\ ~ initialized x i /\ failed x i \/ word x = pop_runid /\ (k = 0 /\ ~ initialized x i \/ k = 1 /\ initialized x i)
  end.

Record gv_inv (x : gv_state) : Prop := GvInv {
  inv_local : forall i pc, gv_pcs x !! i = Some pc -> gv_local x i pc;
  inv_alone : forall i j pc pc', gv_pcs x !! i = Some pc -> gv_pcs x !! j = Some pc' -> inside pc -> inside pc' -> i = j;
  inv_ready : word x = pop_runid -> exists i, initialized x i;
  inv_busy : word x = pop_runid - 1 -> exists i pc, gv_pcs x !! i = Some pc /\ inside pc;
  inv_free : word x <> pop_runid -> word x <> pop_runid - 1 -> uninitialized x
}.

Lemma initialized_unique x i j : initialized x i -> initialized x j -> i = j.
Proof. intros (h & E & _) (h' & E' & _). rewrite E in E'. apply app_inj_tail in E' as [_ [= ->]]. done. Qed.

Lemma uninitialized_not x i : uninitialized x -> ~ initialized x i.
Proof. intros Hu (h & E & _). unfold uninitialized in Hu. rewrite E in Hu. by apply Forall_app in Hu as [_ [? _]%Forall_cons]. Qed.

(** A thread outside, while the object is not ready, depends on nothing but that
    somebody else initializes it. *)
Lemma gv_local_outside x x' j pc :
  gv_local x j pc -> ~ inside pc -> word x <> pop_runid -> gv_inits x `prefix_of` gv_inits x' -> ~ initialized x' j -> gv_local x' j pc.
Proof.
  intros H Hi Hw Hp Hn. assert (failed x j -> failed x' j) as Hf.
  { intros (c & Hc & ?). exists c. split; [|done]. destruct Hp as [h ->]. apply elem_of_app. by left. }
  unfold inside in Hi. destruct pc; cbn [gv_local] in *; tauto.
Qed.

(** A step that changes the word or the history is one of a thread [i] that is
    alone inside, or enters. *)
Lemma gv_inv_exclusive x x' i pc pc' :
  gv_inv x -> gv_pcs x !! i = Some pc -> gv_pcs x' = <[i := pc']> (gv_pcs x) -> word x <> pop_runid -> gv_inits x `prefix_of` gv_inits x' ->
  (forall j q, gv_pcs x !! j = Some q -> inside q -> j = i) ->
  gv_local x' i pc' -> (forall j, j <> i -> ~ initialized x' j) ->
  (word x' = pop_runid -> initialized x' i) -> (word x' = pop_runid - 1 <-> inside pc') ->
  (word x' <> pop_runid -> word x' <> pop_runid - 1 -> uninitialized x') -> gv_inv x'.
Proof.
  intros [L A R B F] Hi Ep Hw Hp Ho Hl Hn Hr Hb Hf. pose proof (lookup_lt_Some _ _ _ Hi) as Hlt. constructor; rewrite ?Ep.
  - intros j q Hj. destruct (decide (j = i)) as [->|Hne]; [rewrite list_lookup_insert_eq in Hj by done; by simplify_eq|].
    rewrite list_lookup_insert_ne in Hj by done. apply (gv_local_outside x); [by apply L| |done|done|by apply Hn].
    intros Hin. by apply Hne, (Ho j q).
  - assert (forall j q, <[i:=pc']> (gv_pcs x) !! j = Some q -> inside q -> j = i) as Hall; [|intros j1 j2 q1 q2 H1 H2 I1 I2; by rewrite (Hall j1 q1), (Hall j2 q2)].
    intros j q Hj Hq. destruct (decide (j = i)) as [->|Hne]; [done|]. rewrite list_lookup_insert_ne in Hj by done. by apply (Ho j q).
  - intros H. exists i. by apply Hr.
  - intros H. exists i, pc'. rewrite list_lookup_insert_eq by done. split; [done|]. by apply Hb.
  - done.
Qed.

(** A step that changes neither. *)
Lemma gv_inv_same x x' i pc pc' :
  gv_inv x -> gv_pcs x !! i = Some pc -> gv_pcs x' = <[i := pc']> (gv_pcs x) -> word x' = word x -> gv_inits x' = gv_inits x ->
  ~ inside pc -> ~ inside pc' -> gv_local x i pc' -> gv_inv x'.
Proof.
  intros [L A R B F] Hi Ep Ew Eh Hp Hp' Hl. pose proof (lookup_lt_Some _ _ _ Hi) as Hlt.
  assert (forall j q, gv_local x j q -> gv_local x' j q) as Hloc.
  { intros j q. unfold gv_local, initialized, uninitialized, failed. by rewrite Ew, Eh. }
  assert (forall j q, gv_pcs x' !! j = Some q -> inside q -> gv_pcs x !! j = Some q) as Hback.
  { intros j q Hj Hq. rewrite Ep in Hj. destruct (decide (j = i)) as [->|Hne]; [rewrite list_lookup_insert_eq in Hj by done; by simplify_eq|].
    by rewrite list_lookup_insert_ne in Hj. }
  constructor; unfold initialized, uninitialized; rewrite ?Ew, ?Eh; try done.
  - intros j q Hj. apply Hloc. rewrite Ep in Hj. destruct (decide (j = i)) as [->|Hne]; [rewrite list_lookup_insert_eq in Hj by done; by simplify_eq|].
    rewrite list_lookup_insert_ne in Hj by done. by apply L.
  - intros j1 j2 q1 q2 H1 H2 I1 I2. by apply (A j1 j2 q1 q2); auto.
  - intros H. destruct (B H) as (j & q & Hj & Hq). exists j, q. split; [|done]. rewrite Ep, list_lookup_insert_ne; [done|]. intros <-. congruence.
Qed.

Lemma u64_run : u64 (pop_runid - 1) = pop_runid - 1.
Proof. apply u64_small. lia. Qed.

Lemma load64_write_run s : load64 (vis (st_store64 runid (pop_runid - 1) s)) runid = pop_runid - 1.
Proof. cbn [st_store64 st_store vis]. rewrite load64_write_same. apply u64_run. Qed.

Lemma gv_step_inv x x' : gv_inv x -> gv_step x x' -> gv_inv x'.
Proof.
  intros Hinv [i pc pc' sh' Hi Hnd Hs]. pose proof (inv_local x Hinv i pc Hi) as Hl.
  assert (inside pc -> forall j q, gv_pcs x !! j = Some q -> inside q -> j = i) as Hal by (intros Hp j q Hj Hq; by apply (inv_alone x Hinv j i q pc)).
  assert (load64 (vis (gv_shared x).1) runid = word x) as Ew by done.
  destruct (gv_shared x) as [s v] eqn:Esh. cbn [fst] in Ew. destruct pc as [k|tmp k| | | |r]; cbn [get_value_step] in Hs; cbn [gv_local] in Hl; rewrite ?u64_run, ?Ew in Hs.
  - assert (sh' = (s, v)) as -> by (destruct (_ =? _); [|destruct (_ =? _)]; congruence).
    apply (gv_inv_same x _ i (GvRead k) pc'); try done; try (by intros [?|[?|?]]).
    + apply app_nil_r.
    + destruct (_ =? _); [|destruct (_ =? _)]; simplify_eq; by intros [?|[?|?]].
    + destruct (Z.eqb_spec (word x) pop_runid); [|destruct (Z.eqb_spec (word x) (pop_runid - 1))]; simplify_eq; cbn [gv_local]; tauto.
  - destruct (Z.eqb_spec (word x) tmp) as [E|E]; simplify_eq.
    + destruct Hl as (-> & _ & Hw1 & Hw2). pose proof (inv_free x Hinv Hw1 Hw2) as Hu.
      assert (forall j q, gv_pcs x !! j = Some q -> inside q -> j = i) as Hno.
      { intros j q Hj Hq. pose proof (inv_local x Hinv j q Hj) as Hq'. destruct Hq as [->|[->| ->]]; cbn [gv_local] in Hq'; tauto. }
      set (y := GvSt _ _ _). assert (word y = pop_runid - 1) as Wy by (unfold y, word; cbn [gv_shared fst]; apply load64_write_run).
      assert (gv_inits y = gv_inits x) as Hy by apply app_nil_r. assert (gv_inits x `prefix_of` gv_inits y) as Hpre by by rewrite Hy. assert (uninitialized y) as Uy by (unfold uninitialized; by rewrite Hy).
      apply (gv_inv_exclusive x y i (GvCas (word x) 0) GvInit); try done; [intros j _; by apply uninitialized_not|rewrite Wy; lia|unfold inside; tauto].
    + apply (gv_inv_same x _ i (GvCas tmp k) (GvRead k)); try done; try (by intros [?|[?|?]]); [apply app_nil_r|cbn [gv_local]; tauto].
  - destruct Hl as [Hw Hu]. destruct (init_value v) as [r v'] eqn:Ev. injection Hs as <- <-. set (y := GvSt _ _ _).
    assert (word y = pop_runid - 1) as Wy by (unfold y, word; cbn [gv_shared fst]; by rewrite Ew).
    assert (gv_inits y = gv_inits x ++ [(i, r)]) as Hy by (unfold y; cbn [gv_inits gv_event snd]; by rewrite Ev).
    assert (gv_inits x `prefix_of` gv_inits y) as Hpre by (rewrite Hy; by apply prefix_app_r).
    apply (gv_inv_exclusive x y i GvInit (if r =? 0 then GvSet else GvReset)); try done; [lia|apply Hal; unfold inside; tauto| | |rewrite Wy; lia|].
    + destruct (Z.eqb_spec r 0) as [->|Hr]; cbn [gv_local]; (split; [done|]).
      * exists (gv_inits x). done.
      * split; [unfold uninitialized; rewrite Hy; apply Forall_app; split; [done|]; by constructor|].
        exists r. split; [|done]. rewrite Hy. apply elem_of_app. right. by left.
    + intros j Hj (h & Eh & _). rewrite Hy in Eh. apply app_inj_tail in Eh as [_ [= -> _]]. done.
    + destruct (r =? 0); unfold inside; tauto.
  - destruct Hl as (Hw & Hu & Hfl). injection Hs as <- <-. set (y := GvSt _ _ _).
    assert (word y = 0) as Wy by (unfold y, word; cbn [gv_shared fst st_store64 st_store vis]; rewrite load64_write_same, Z.land_0_r; done).
    assert (gv_inits y = gv_inits x) as Hy by apply app_nil_r. assert (gv_inits x `prefix_of` gv_inits y) as Hpre by by rewrite Hy.
    assert (uninitialized y) as Uy by (unfold uninitialized; by rewrite Hy).
    apply (gv_inv_exclusive x y i GvReset (GvDone (-1))); try done; [lia|apply Hal; unfold inside; tauto| |intros j _; by apply uninitialized_not|rewrite Wy; lia|].
    + left. split; [done|]. split; [by apply uninitialized_not|]. unfold failed. by rewrite Hy.
    + rewrite Wy. split; [lia|]. by intros [?|[?|?]].
  - destruct Hl as [Hw Hin]. rewrite Hw, Z.eqb_refl in Hs. injection Hs as <- <-. set (y := GvSt _ _ _).
    assert (word y = pop_runid) as Wy by (unfold y, word; cbn [gv_shared fst st_store64 st_store vis]; rewrite load64_write_same; apply u64_small; lia).
    assert (gv_inits y = gv_inits x) as Hy by apply app_nil_r. assert (gv_inits x `prefix_of` gv_inits y) as Hpre by by rewrite Hy.
    assert (initialized y i) as Iy by (unfold initialized; by rewrite Hy).
    apply (gv_inv_exclusive x y i GvSet (GvRead 1)); try done; [lia|apply Hal; unfold inside; tauto|right; done| | ].
    + intros j Hj Hij. by apply Hj, (initialized_unique y).
    + rewrite Wy. split; [lia|]. by intros [?|[?|?]].
  - by destruct (Hnd r).
Qed.

Lemma gv_start_inv n sh : load64 (vis sh.1) runid <> pop_runid -> load64 (vis sh.1) runid <> pop_runid - 1 -> gv_inv (gv_start n sh).
Proof.
  intros H1 H2. assert (forall i, ~ initialized (gv_start n sh) i) as Hn by (intros i; apply uninitialized_not; constructor).
  constructor; try done.
  - intros i pc Hi. apply lookup_replicate in Hi as [-> _]. left. by split.
  - intros i j pc pc' Hi _ [?|[?|?]]; apply lookup_replicate in Hi as [-> _]; done.
  - intros _ _. constructor.
Qed.

Lemma gv_reach_inv x y : rtc gv_step x y -> gv_inv x -> gv_inv y.
Proof. induction 1 as [|x y z Hxy _ IH]; [done|]. intros H. by apply IH, (gv_step_inv x). Qed.

(** ** Running alone *)

Lemma alone_ready fuel k s v : load64 (vis s) runid = pop_runid ->
  get_value_from pop_runid init_value runid (S fuel) (GvRead k) (s, v) = Some (k, (s, v)).
Proof. intros E. cbn [get_value_from get_value_step]. rewrite E, Z.eqb_refl. by destruct fuel. Qed.

Lemma alone_set fuel s v : load64 (vis s) runid = pop_runid - 1 ->
  get_value_from pop_runid init_value runid (S (S fuel)) GvSet (s, v) = Some (1, (st_store64 runid pop_runid s, v)).
Proof.
  intros E. cbn [get_value_from get_value_step]. rewrite E, u64_run, Z.eqb_refl. cbn iota beta. apply alone_ready.
  cbn [st_store64 st_store vis]. rewrite load64_write_same. apply u64_small. lia.
Qed.

(** The constructor is called; its failure leaves 0 behind. *)
Definition init_outcome (s : pmst) (v : V) : Z * sync_st V :=
  let '(r, v') := init_value v in
  if r =? 0 then (1, (st_store64 runid pop_runid s, v')) else (-1, (st_store64 runid 0 s, v')).

Lemma alone_init fuel s v : load64 (vis s) runid = pop_runid - 1 ->
  get_value_from pop_runid init_value runid (S (S (S fuel))) GvInit (s, v) = Some (init_outcome s v).
Proof.
  intros E. unfold init_outcome. cbn [get_value_from get_value_step]. destruct (init_value v) as [r v']. cbn iota beta.
  destruct (r =? 0); [by apply (alone_set fuel)|]. cbn [get_value_from get_value_step]. by rewrite Z.land_0_r.
Qed.

Lemma alone_read fuel s v : load64 (vis s) runid <> pop_runid -> load64 (vis s) runid <> pop_runid - 1 ->
  get_value_from pop_runid init_value runid (5 + fuel) (GvRead 0) (s, v) = Some (init_outcome (st_store64 runid (pop_runid - 1) s) v).
Proof.
  intros H1 H2. change (5 + fuel)%nat with (S (S (S (S (S fuel))))). cbn [get_value_from]. cbn [get_value_step]. rewrite u64_run.
  destruct (Z.eqb_spec (load64 (vis s) runid) pop_runid); [done|]. destruct (Z.eqb_spec (load64 (vis s) runid) (pop_runid - 1)); [done|]. cbn [get_value_step].
  rewrite u64_run, Z.eqb_refl. apply alone_init. apply load64_write_run.
Qed.

(** A thread that waits waits for another that does not. *)
Lemma gv_progress x i pc : gv_inv x -> gv_pcs x !! i = Some pc -> (forall r, pc <> GvDone r) ->
  exists j pc' r, gv_pcs x !! j = Some pc' /\ (forall r, pc' <> GvDone r) /\
    get_value_from pop_runid init_value runid 6 pc' (gv_shared x) = Some r.
Proof.
  intros Hinv Hi Hnd. destruct (decide (word x = pop_runid - 1)) as [Hw|Hw].
  { destruct (inv_busy x Hinv Hw) as (j & pc' & Hj & Hin). unfold word in Hw. destruct (gv_shared x) as [s v]. cbn [fst] in Hw.
    destruct Hin as [->|[->| ->]]; [exists j, GvInit|exists j, GvReset|exists j, GvSet].
    - eexists. split; [done|]. split; [done|]. by apply (alone_init 3).
    - eexists. split; [done|]. split; [done|]. reflexivity.
    - eexists. split; [done|]. split; [done|]. by apply (alone_set 4). }
  pose proof (inv_local x Hinv i pc Hi) as Hl. exists i, pc.
  assert (forall k, (k = 0 /\ word x <> pop_runid) \/ word x = pop_runid -> exists r, get_value_from pop_runid init_value runid 5 (GvRead k) (gv_shared x) = Some r) as Hread.
  { unfold word in *. destruct (gv_shared x) as [s v]. cbn [fst] in *. intros k [[-> Hne]|E]; eexists; [by apply (alone_read 0)|by apply (alone_ready 4)]. }
  destruct pc as [k|tmp k| | | |r]; cbn [gv_local] in Hl; try (exfalso; tauto).
  - unfold word in *. destruct (gv_shared x) as [s v]. cbn [fst] in *. destruct (decide (load64 (vis s) runid = pop_runid)) as [E|E].
    + eexists. split; [done|]. split; [done|]. by apply (alone_ready 5).
    + destruct Hl as [[-> _]|(_ & _ & ?)]; [|done]. eexists. split; [done|]. split; [done|]. by apply (alone_read 1).
  - destruct Hl as (-> & _ & T1 & T2). unfold word in Hw, Hread. destruct (gv_shared x) as [s v] eqn:Esh. cbn [fst] in *.
    destruct (decide (load64 (vis s) runid = tmp)) as [E|E].
    + eexists. split; [done|]. split; [done|]. cbn [get_value_from get_value_step]. rewrite E, Z.eqb_refl, u64_run. apply (alone_init 2), load64_write_run.
    + destruct (Hread 0) as [r Hr]; [destruct (decide (load64 (vis s) runid = pop_runid)); tauto|]. exists r. split; [done|]. split; [done|].
      rewrite <- Hr. cbn [get_value_from]. cbn [get_value_step]. by destruct (Z.eqb_spec (load64 (vis s) runid) tmp).
  - by destruct (Hnd r).
Qed.

(** What the history says about any state. *)
Lemma gv_history x : gv_inv x -> uninitialized x \/ exists i, initialized x i.
Proof.
  intros Hinv. destruct (decide (word x = pop_runid)) as [E|E]; [right; by apply (inv_ready x Hinv)|].
  destruct (decide (word x = pop_runid - 1)) as [E'|E']; [|left; by apply (inv_free x Hinv)].
  destruct (inv_busy x Hinv E') as (i & pc & Hi & [->|[->| ->]]); pose proof (inv_local x Hinv _ _ Hi) as Hl; cbn [gv_local] in Hl; [left|left|right]; try tauto.
  exists i. tauto.
Qed.
End Threads.

(** C11. A lock is initialized once.  Whatever the order in which threads take the
    steps of _get_value on an object no thread of this run has initialized: at
    most one of them is between its compare-and-swap and the end of the
    initialization; no call of the constructor follows a successful one; a thread
    that returned -1 had a call of its own fail; one that returned 0 or 1 leaves
    the object with the identifier of this run, initialized by the thread that
    returns 1; and while a thread has not returned there is one that, running
    alone, returns within six steps, so nobody waits for ever. *)
Theorem get_value_initializes_once pop_runid {V} (init_value : V -> Z * V) runid n sh x :
  1 < pop_runid < 2 ^ 64 ->
  load64 (vis sh.1) runid <> pop_runid -> load64 (vis sh.1) runid <> pop_runid - 1 ->
  rtc (gv_step pop_runid init_value runid) (gv_start n sh) x ->
  (forall h c h', gv_inits x = h ++ c :: h' -> c.2 = 0 -> h' = []) /\
  (forall i j pc pc', gv_pcs x !! i = Some pc -> gv_pcs x !! j = Some pc' -> inside pc -> inside pc' -> i = j) /\
  (forall i k, gv_pcs x !! i = Some (GvDone k) ->
     k = -1 /\ failed x i \/
     load64 (vis (gv_shared x).1) runid = pop_runid /\ (k = 0 \/ k = 1) /\ exists j, last (gv_inits x) = Some (j, 0) /\ (k = 1 <-> i = j)) /\
  (forall i pc, gv_pcs x !! i = Some pc -> (forall r, pc <> GvDone r) ->
     exists j pc' r, gv_pcs x !! j = Some pc' /\ (forall r, pc' <> GvDone r) /\
       get_value_from pop_runid init_value runid 6 pc' (gv_shared x) = Some r).
Proof.
  intros Hr H1 H2 Hx. pose proof (gv_reach_inv pop_runid init_value runid Hr _ _ Hx (gv_start_inv pop_runid runid n sh H1 H2)) as Hinv.
  split; [|split; [|split]].
  - intros h c h' E Hc. destruct (gv_history pop_runid runid Hr x Hinv) as [Hu|(i & h0 & E0 & Hf)].
    + unfold uninitialized in Hu. rewrite E in Hu. by apply Forall_app in Hu as [_ [? _]%Forall_cons].
    + destruct h' as [|c' h' _] using rev_ind; [done|]. rewrite E0 in E. change (h ++ c :: h' ++ [c']) with (h ++ (c :: h') ++ [c']) in E. rewrite app_assoc in E.
      apply app_inj_tail in E as [-> _]. by apply Forall_app in Hf as [_ [? _]%Forall_cons].
  - exact (inv_alone pop_runid runid x Hinv).
  - intros i k Hi. pose proof (inv_local pop_runid runid x Hinv i _ Hi) as Hl. cbn [gv_local] in Hl. destruct Hl as [(-> & _ & ?)|[Hw Hk]]; [by left|right]. split; [done|].
    destruct (inv_ready pop_runid runid x Hinv Hw) as (j & Hj). split; [tauto|]. exists j. split; [destruct Hj as (h & -> & _); by rewrite last_snoc|].
    destruct Hk as [[-> Hk]|[-> Hk]]; [split; [done|]; by intros ->|]. split; [|done]. intros _. by apply (initialized_unique x).
  - intros i pc. by apply gv_progress.
Qed.

(** The identifier of the [k]-th run since the pool was created. *)
Definition run_id_of (k : nat) : Z := Nat.iter k next_run_id 0.

(** What the earlier runs may have left in the first word of a lock. *)
Definition left_by (k : nat) (x : Z) : Prop :=
  x = 0 \/ exists j, (1 <= j <= k)%nat /\ (x = run_id_of j \/ x = u64 (run_id_of j - 1)).

Lemma run_id_of_twice k : Z.of_nat k < 2 ^ 63 -> run_id_of k = 2 * Z.of_nat k.
Proof.
  induction k as [|k IH]; intros Hk; [done|]. unfold run_id_of in *. cbn [Nat.iter nat_rect]. unfold Nat.iter in IH. rewrite IH by lia.
  unfold next_run_id. rewrite u64_small by lia. destruct (Z.eqb_spec (2 * Z.of_nat k + 2) 0); lia.
Qed.

Lemma left_by_stale k x : Z.of_nat (S k) < 2 ^ 63 -> left_by k x -> x <> run_id_of (S k) /\ x <> run_id_of (S k) - 1.
Proof.
  intros Hk H. rewrite run_id_of_twice by lia. destruct H as [->|(j & Hj & H)]; [lia|]. rewrite run_id_of_twice in H by lia.
  destruct H as [->| ->]; [lia|]. rewrite u64_small; lia.
Qed.

(** C12. Locks after a restart.  The identifiers of runs are chosen so that nothing
    the earlier runs left in a lock, in the middle of an initialization or after
    it, stops the next run: the first pmemobj_mutex_lock initializes the mutex and
    locks it, and the operations that follow work on this mutex without
    initializing it again; where the initialization fails the result is EINVAL
    and the word is 0, as in a new lock. *)
Theorem mutex_lock_after_restart {M} (init : M -> Z * M) (lock unlock : M -> option (Z * M)) k fuel a s m :
  Z.of_nat (S k) < 2 ^ 63 -> left_by k (load64 (vis s) a) ->
  let r := run_id_of (S k) in
  let '(e, m') := init m in
  let res := pmemobj_mutex_lock r init lock (5 + fuel) a (s, m) in
  if e =? 0 then
    exists s', load64 (vis s') a = r /\
      res = ('(ret, m) ← lock m'; Some (ret, (s', m))) /\
      (forall m, pmemobj_mutex_unlock r init unlock fuel a (s', m) = ('(ret, m) ← unlock m; Some (ret, (s', m))))
  else exists s', load64 (vis s') a = 0 /\ res = Some (EINVAL, (s', m')).
Proof.
  intros Hk Hl r. destruct (left_by_stale k _ Hk Hl) as [H1 H2]. fold r in H1, H2.
  assert (1 < r < 2 ^ 64) as Hr by (unfold r; rewrite run_id_of_twice; lia).
  pose proof (alone_read r init a Hr fuel s m H1 H2) as E. unfold init_outcome in E. destruct (init m) as [e m']. cbn zeta.
  unfold pmemobj_mutex_lock, on_object, get_object, _get_value. cbn [fst]. destruct (Z.eqb_spec (load64 (vis s) a) r); [done|]. rewrite E.
  destruct (e =? 0); cbn [mbind option_bind Z.eqb negb snd fst].
  - eexists. split; [|split; [done|]].
    + cbn [st_store64 st_store vis]. rewrite load64_write_same. apply u64_small. lia.
    + intros m1. unfold pmemobj_mutex_unlock, on_object, get_object. cbn [fst st_store64 st_store vis]. rewrite load64_write_same, u64_small, Z.eqb_refl by lia. done.
  - eexists. split; [|done]. cbn [st_store64 st_store vis]. apply load64_write_same.
Qed.

(** ** Instances *)

(** A mutex as a flag; its second initialization would be seen. *)
Definition ex_init (m : option bool) : Z * option bool := match m with None => (0, Some false) | Some _ => (EINVAL, m) end.
Definition ex_lock (m : option bool) : option (Z * option bool) := match m with Some false => Some (0, Some true) | _ => None end.

Lemma get_value_initializes_once_witness :
  let sh := (PMst (fun _ => Byte.x00) [] false, None : option bool) in
  let x := GvSt [GvDone 1] (st_store64 64 4 (st_store64 64 3 sh.1), Some false) [(0%nat, 0)] in
  (forall h c h', gv_inits x = h ++ c :: h' -> c.2 = 0 -> h' = []) /\
  exists j, last (gv_inits x) = Some (j, 0) /\ (1 = 1 <-> 0%nat = j).
Proof.
  intros sh x.
  destruct (get_value_initializes_once 4 ex_init 64 1 sh x) as (H1 & _ & H3 & _); [lia|done|done| |].
  - eapply rtc_l; [by apply (gv_thread 4 ex_init 64 _ 0 (GvRead 0))|].
    eapply rtc_l; [by eapply (gv_thread 4 ex_init 64 _ 0 (GvCas 0 0))|].
    eapply rtc_l; [by eapply (gv_thread 4 ex_init 64 _ 0 GvInit)|].
    eapply rtc_l; [by eapply (gv_thread 4 ex_init 64 _ 0 GvSet)|].
    eapply rtc_l; [by eapply (gv_thread 4 ex_init 64 _ 0 (GvRead 1))|].
    reflexivity.
  - split; [exact H1|]. destruct (H3 0%nat 1 eq_refl) as [[? _]|(_ & _ & H)]; [done|exact H].
Defined.

Lemma mutex_lock_after_restart_witness :
  let s := PMst (write_bytes (fun _ => Byte.x00) 64 (le64 3)) [] false in
  exists s', load64 (vis s') 64 = 6 /\
    pmemobj_mutex_lock 6 ex_init ex_lock 5 64 (s, None) = Some (0, (s', Some true)) /\
    (forall m, pmemobj_mutex_unlock 6 ex_init ex_lock 0 64 (s', m) = ('(ret, m) ← ex_lock m; Some (ret, (s', m)))).
Proof.
  intros s. apply (mutex_lock_after_restart ex_init ex_lock ex_lock 2 0 64 s None); [done|].
  right. exists 2%nat. split; [lia|]. right. reflexivity.
Defined.
