(* ===== verification/MemopsUser.v ===== *)
(** * User-supplied log buffers

    The pool keeps the address ranges of the buffers that transactions use as
    logs in a tree, to refuse a buffer that overlaps one in use.  At the end, the
    merge queue of an operation whose ring wrapped. *)
From stdpp Require Import base numbers list list_numbers gmap sorting.
From Stdlib Require Import ZArith Lia Bool.
From S2P Require Import Prelude Pmem Ulog Ravl RavlFacts RavlOps RavlSpec Vecq Memops MemopsLog UlogFacts UlogRedo.

#[global] Instance range_cmp_order : RavlOrder operation_user_buffer_range_cmp.
Proof.
  split; unfold operation_user_buffer_range_cmp; intros;
    repeat match goal with
    | H : context [?a <? ?b] |- _ => destruct (Z.ltb_spec a b)
    | |- context [?a <? ?b] => destruct (Z.ltb_spec a b)
    end; simpl in *; lia.
Qed.

Lemma range_cmp_sign l r :
  (operation_user_buffer_range_cmp l r < 0 <-> addr l < addr r) /\
  (operation_user_buffer_range_cmp l r = 0 <-> addr l = addr r).
Proof.
  unfold operation_user_buffer_range_cmp.
  destruct (Z.ltb_spec (addr r) (addr l)), (Z.ltb_spec (addr l) (addr r)); lia.
Qed.

(** ** Ranges *)

Definition buf_end (b : user_buffer_def) : Z := addr b + size b.
Definition overlaps (a b : user_buffer_def) : bool := (addr a <? buf_end b) && (addr b <? buf_end a).

(** Disjoint, non-empty and in order. *)
Definition disjoint_bufs (l : list user_buffer_def) : Prop :=
  Forall (fun b => 0 < size b) l /\ StronglySorted (fun a b => buf_end a <= addr b) l.

(** The pool tracks the buffers [l]. *)
Definition tracks (pop : PMEMobjpool) (l : list user_buffer_def) : Prop :=
  ulog_user_buffers_verify pop = true /\
  ravl_ok operation_user_buffer_range_cmp (ulog_user_buffers_map pop) l /\ disjoint_bufs l.

Lemma disjoint_order l a b :
  disjoint_bufs l -> a ∈ l -> b ∈ l -> addr a < addr b -> buf_end a <= addr b.
Proof.
  intros [Hp Hs]. revert a b. induction Hs as [|c l Hs IH Hc]; intros a b Ha Hb Hlt; [inversion Ha|].
  apply Forall_cons in Hp as [Hpc Hp]. rewrite Forall_forall in Hc, Hp. unfold buf_end in *.
  apply elem_of_cons in Ha as [->|Ha], Hb as [->|Hb]; try lia.
  - by apply Hc.
  - specialize (Hc a Ha). lia.
  - by apply IH; [apply Forall_forall|..].
Qed.

Lemma disjoint_inj l a b : disjoint_bufs l -> a ∈ l -> b ∈ l -> addr a = addr b -> a = b.
Proof.
  intros [Hp Hs]. induction Hs as [|c l Hs IH Hc]; intros Ha Hb E; [inversion Ha|].
  apply Forall_cons in Hp as [Hpc Hp]. rewrite Forall_forall in Hc. unfold buf_end in Hc.
  apply elem_of_cons in Ha as [->|Ha], Hb as [->|Hb]; [done|..].
  - specialize (Hc b Hb). lia.
  - specialize (Hc a Ha). lia.
  - by apply IH.
Qed.

(** The buffer with the greatest start below the end of [b] decides. *)
Lemma overlap_decided l b r :
  disjoint_bufs l -> r ∈ l -> addr r < buf_end b ->
  Forall (fun e => addr e <= buf_end b -> addr e <= addr r) l ->
  0 < size b -> existsb (overlaps b) l = (addr b <? buf_end r).
Proof.
  intros Hd Hr Hrb Hmax Hb. rewrite Forall_forall in Hmax.
  assert (forall e, e ∈ l -> 0 < size e) as Hpos by (apply Forall_forall, Hd).
  apply eq_true_iff_eq. rewrite existsb_exists, Z.ltb_lt. split.
  - intros (e & He & Ho). apply list_elem_of_In in He. unfold overlaps in Ho.
    apply andb_true_iff in Ho as [O1 O2]. apply Z.ltb_lt in O1, O2.
    specialize (Hmax e He ltac:(lia)). pose proof (Hpos r Hr). unfold buf_end in *.
    destruct (Z.eq_dec (addr e) (addr r)) as [E|E].
    + pose proof (disjoint_inj l e r Hd He Hr E) as ->. lia.
    + pose proof (disjoint_order l e r Hd He Hr ltac:(lia)) as Ho. unfold buf_end in Ho. lia.
  - intros Hlt. exists r. split; [by apply list_elem_of_In|]. unfold overlaps.
    apply andb_true_iff. rewrite !Z.ltb_lt. done.
Qed.

Lemma set_insert_sub b l x :
  x ∈ set_insert operation_user_buffer_range_cmp b l -> x = b \/ x ∈ l.
Proof.
  induction l as [|c l IH]; cbn [set_insert].
  - intros H. left. by apply list_elem_of_singleton in H.
  - destruct (_ <? 0); rewrite !elem_of_cons; intuition.
Qed.

Lemma insert_disjoint l b :
  disjoint_bufs l -> 0 < size b -> existsb (overlaps b) l = false ->
  disjoint_bufs (set_insert operation_user_buffer_range_cmp b l).
Proof.
  intros [Hp Hs] Hb Ho.
  split.
  - apply Forall_forall. intros x Hx. destruct (set_insert_sub _ _ _ Hx) as [->|Hx']; [done|]. rewrite Forall_forall in Hp. by apply Hp.
  - induction Hs as [|c l Hs IH Hc]; cbn [set_insert]; [repeat constructor|].
    apply Forall_cons in Hp as [Hpc Hp]. cbn [existsb] in Ho. apply orb_false_iff in Ho as [Hoc Ho].
    unfold overlaps, buf_end in Hoc. destruct (range_cmp_sign b c) as [Hlt _].
    destruct (Z.ltb_spec (operation_user_buffer_range_cmp b c) 0) as [H|H].
    + assert (buf_end b <= addr c) as Hbc.
      { unfold buf_end. destruct (Z.ltb_spec (addr b) (addr c + size c)), (Z.ltb_spec (addr c) (addr b + size b)); done || lia. }
      constructor; [by constructor|]. constructor; [done|]. eapply Forall_impl; [exact Hc|].
      intros x Hx. unfold buf_end in *. cbn beta in Hx. lia.
    + constructor; [by apply IH|]. apply Forall_forall. intros x Hx.
      destruct (set_insert_sub _ _ _ Hx) as [->|Hx'].
      * unfold buf_end. destruct (Z.ltb_spec (addr b) (addr c + size c)), (Z.ltb_spec (addr c) (addr b + size b)); done || lia.
      * rewrite Forall_forall in Hc. by apply Hc.
Qed.

(** ** Insertion and removal *)

Lemma disjoint_drop l1 b l2 : disjoint_bufs (l1 ++ b :: l2) -> disjoint_bufs (l1 ++ l2).
Proof.
  intros [Hp Hs]. split.
  - apply Forall_app in Hp as [H1 H2]. apply Forall_cons in H2 as [_ H2]. by apply Forall_app.
  - clear Hp. induction l1 as [|c l1 IH]; cbn [app] in *.
    + by apply StronglySorted_cons in Hs as [_ Hs].
    + apply StronglySorted_cons in Hs as [Hc Hs]. apply StronglySorted_cons. split; [|by apply IH].
      apply Forall_app in Hc as [H1 H2]. apply Forall_cons in H2 as [_ H2]. by apply Forall_app.
Qed.

(** A buffer with the same start overlaps. *)
Lemma disjoint_not_dup l b :
  disjoint_bufs l -> 0 < size b -> existsb (overlaps b) l = false ->
  is_dup operation_user_buffer_range_cmp b l = false.
Proof.
  intros [Hp _] Hb Ho. apply not_true_iff_false. intros Hdup.
  apply existsb_exists in Hdup as (e & He1 & He2). apply Z.eqb_eq in He2. apply (range_cmp_sign b e) in He2.
  assert (existsb (overlaps b) l = true); [|congruence]. apply existsb_exists. exists e. split; [done|].
  unfold overlaps, buf_end. apply list_elem_of_In in He1. rewrite Forall_forall in Hp. specialize (Hp e He1).
  apply andb_true_iff. rewrite !Z.ltb_lt. lia.
Qed.

Lemma emplace_tracks fuel na pop l b :
  tracks pop l -> 0 < size b -> na <> 0 -> nodes (ulog_user_buffers_map pop) !! na = None ->
  (base.size (nodes (ulog_user_buffers_map pop)) < fuel)%nat -> existsb (overlaps b) l = false ->
  exists pop',
    ('(ret, map) ← ravl_emplace_copy operation_user_buffer_range_cmp fuel (ulog_user_buffers_map pop) na b;
     Some (if ret =? -1 then -1 else 0, set_map map pop)) = Some (0, pop') /\
    tracks pop' (set_insert operation_user_buffer_range_cmp b l).
Proof.
  intros (Hv & Hok & Hd) Hb Hna Hfresh Hf Ho.
  destruct (emplace_ok operation_user_buffer_range_cmp _ l b na ravl_node_copy_constructor fuel
    Hok Hna Hfresh Hf) as (r' & He & Hr').
  rewrite (disjoint_not_dup l b Hd Hb Ho) in *. unfold ravl_emplace_copy. rewrite He. cbn [mbind option_bind].
  eexists. split; [done|]. split; [done|]. split; [done|by apply insert_disjoint].
Qed.

(** What the search for the end of a buffer finds, in terms of addresses. *)
Lemma find_below l e :
  sorted operation_user_buffer_range_cmp l ->
  match set_find operation_user_buffer_range_cmp RAVL_PREDICATE_LESS_EQUAL (UserBuf e 0) l with
  | None => Forall (fun x => e < addr x) l
  | Some r => r ∈ l /\ addr r <= e /\ Forall (fun x => addr x <= e -> addr x <= addr r) l
  end.
Proof.
  intros Hs. pose proof (find_le_spec operation_user_buffer_range_cmp (UserBuf e 0) l Hs) as H.
  assert (forall x, 0 <= operation_user_buffer_range_cmp (UserBuf e 0) x <-> addr x <= e) as Hsg.
  { intros x. destruct (range_cmp_sign (UserBuf e 0) x) as [S1 _]. cbn [addr] in S1. lia. }
  destruct (set_find _ _ _ l) as [r|].
  - destruct H as (H1 & H2 & H3). split; [done|]. split; [by apply Hsg|]. eapply Forall_impl; [exact H3|].
    intros x Hx Hle. destruct (range_cmp_sign x r). apply Hsg, Hx in Hle. lia.
  - eapply Forall_impl; [exact H|]. intros x Hx. by apply range_cmp_sign in Hx.
Qed.

Lemma try_insert_spec fuel na pop l b :
  tracks pop l -> 0 < size b -> Forall (fun e => addr e <> buf_end b) l ->
  na <> 0 -> nodes (ulog_user_buffers_map pop) !! na = None ->
  (2 * base.size (nodes (ulog_user_buffers_map pop)) < fuel)%nat ->
  exists pop', operation_user_buffer_try_insert fuel na pop b =
      Some (if existsb (overlaps b) l then -1 else 0, pop') /\
    tracks pop' (if existsb (overlaps b) l then l else set_insert operation_user_buffer_range_cmp b l).
Proof.
  intros Ht Hb Hne Hna Hfresh Hf.
  pose proof (emplace_tracks fuel na pop l b Ht Hb Hna Hfresh ltac:(lia)) as Hins.
  destruct Ht as (Hv & Hok & Hd). unfold operation_user_buffer_try_insert. rewrite Hv. cbn [negb].
  destruct (find_ok operation_user_buffer_range_cmp _ l (UserBuf (buf_end b) 0) RAVL_PREDICATE_LESS_EQUAL fuel
    Hok eq_refl Hf) as (n & Hn & Hfind).
  pose proof (find_below l (buf_end b) ltac:(destruct Hok as (t & _ & _ & Hs & _); exact Hs)) as Hle.
  change (addr b + size b) with (buf_end b). rewrite Hn. cbn [mbind option_bind].
  destruct (set_find _ _ _ l) as [r|].
  - destruct Hfind as (Hn0 & nd & Hnd & <-). destruct Hle as (Hin & Hle & Hmax).
    destruct (Z.eqb_spec n 0); [done|]. rewrite Hnd. cbn [mbind option_bind].
    rewrite Forall_forall in Hne. pose proof (Hne _ Hin) as Hrne.
    pose proof (overlap_decided l b (data nd) Hd Hin ltac:(lia) Hmax Hb) as Hod.
    change (addr (data nd) + size (data nd)) with (buf_end (data nd)). rewrite <- Hod.
    destruct (Z.ltb_spec (addr (data nd)) (buf_end b)); [rewrite andb_true_r|lia].
    destruct (existsb (overlaps b) l); [by exists pop|by apply Hins].
  - subst n. cbn [Z.eqb mbind option_bind].
    assert (existsb (overlaps b) l = false) as Ho; [|rewrite Ho; by apply Hins].
    apply not_true_iff_false. intros Hx. apply existsb_exists in Hx as (e & He1 & He2).
    apply list_elem_of_In in He1. rewrite Forall_forall in Hle. specialize (Hle e He1).
    apply andb_true_iff in He2 as [_ H2]. apply Z.ltb_lt in H2. lia.
Qed.

Lemma user_remove_spec fuel pop l b :
  tracks pop l -> b ∈ l -> (2 * base.size (nodes (ulog_user_buffers_map pop)) + 1 < fuel)%nat ->
  exists pop' l1 l2, operation_user_buffer_remove fuel (addr b) pop = Some pop' /\
    l = l1 ++ b :: l2 /\ tracks pop' (l1 ++ l2).
Proof.
  intros (Hv & Hok & Hd) Hb Hf. unfold operation_user_buffer_remove. rewrite Hv. cbn [negb].
  destruct (find_ok operation_user_buffer_range_cmp _ l (UserBuf (addr b) 0) RAVL_PREDICATE_EQUAL fuel
    Hok eq_refl ltac:(lia)) as (n & -> & Hfind). cbn [mbind option_bind].
  unfold set_find in Hfind. change (has_pred RAVL_PREDICATE_EQUAL RAVL_PREDICATE_LESS) with false in Hfind.
  cbv iota in Hfind.
  assert (forall e, e ∈ List.filter (set_match operation_user_buffer_range_cmp RAVL_PREDICATE_EQUAL (UserBuf (addr b) 0)) l
    <-> e ∈ l /\ addr e = addr b) as Hin.
  { intros e. rewrite !list_elem_of_In, List.filter_In. unfold set_match, matches. cbn [snd].
    change (has_pred RAVL_PREDICATE_EQUAL RAVL_PREDICATE_EQUAL) with true.
    change (has_pred RAVL_PREDICATE_EQUAL RAVL_PREDICATE_GREATER) with false.
    change (has_pred RAVL_PREDICATE_EQUAL RAVL_PREDICATE_LESS) with false. cbn [andb].
    rewrite !orb_false_r, Z.eqb_eq. destruct (range_cmp_sign (UserBuf (addr b) 0) e) as [_ S].
    cbn [addr] in S. intuition. }
  destruct (List.filter _ l) as [|e m].
  - assert (b ∈ []) as Hbad by (by apply Hin). inversion Hbad.
  - cbn [head] in Hfind. destruct Hfind as (_ & nd & Hnd & E). subst e.
    destruct (proj1 (Hin (data nd)) ltac:(left)) as [H1 H2].
    pose proof (disjoint_inj l _ _ Hd H1 Hb H2) as Eb.
    destruct fuel as [|fuel]; [lia|].
    destruct (remove_ok operation_user_buffer_range_cmp _ l n nd fuel Hok Hnd ltac:(lia))
      as (r' & l1 & l2 & -> & El & Hr'). cbn [mbind option_bind]. rewrite Eb in El.
    exists (set_map r' pop), l1, l2. split; [done|]. split; [done|]. split; [done|]. split; [done|].
    rewrite El in Hd. by eapply disjoint_drop.
Qed.

(** ** Theorems *)

(** Inserting a user buffer.  When no buffer in use starts exactly at the end
    of the new one, operation_user_buffer_try_insert refuses it (-1, the tree
    unchanged) exactly when it overlaps a buffer in use, and otherwise adds it,
    keeping the buffers disjoint. *)
Theorem user_buffer_try_insert_correct fuel na pop l b :
  tracks pop l -> 0 < size b -> Forall (fun e => addr e <> buf_end b) l ->
  na <> 0 -> nodes (ulog_user_buffers_map pop) !! na = None ->
  (2 * base.size (nodes (ulog_user_buffers_map pop)) < fuel)%nat ->
  exists pop', operation_user_buffer_try_insert fuel na pop b =
      Some (if existsb (overlaps b) l then -1 else 0, pop') /\
    tracks pop' (if existsb (overlaps b) l then l else set_insert operation_user_buffer_range_cmp b l).
Proof. apply try_insert_spec. Qed.

(** Removing a user buffer.  operation_user_buffer_remove of a tracked buffer
    returns, and forgets exactly that buffer. *)
Theorem user_buffer_remove_correct fuel pop l b :
  tracks pop l -> b ∈ l -> (2 * base.size (nodes (ulog_user_buffers_map pop)) + 1 < fuel)%nat ->
  exists pop' l1 l2, operation_user_buffer_remove fuel (addr b) pop = Some pop' /\
    l = l1 ++ b :: l2 /\ tracks pop' (l1 ++ l2).
Proof. apply user_remove_spec. Qed.

(** Alignment of a user buffer.  For a buffer inside the pool,
    operation_user_buffer_verify_align either fails, because fewer than 65 bytes
    would remain for entries or because the buffer is in use, or returns a
    cacheline-aligned part of it that holds the header and at least one
    cacheline of entries. *)
Theorem user_buffer_aligned fuel na ctx b pop ret b' pop' :
  let B := base (ctx_p_ops ctx) in
  0 < addr b - B -> addr b - B + size b < 2 ^ 63 -> 0 <= size b ->
  operation_user_buffer_verify_align fuel na ctx b pop = Some (ret, b', pop') ->
  (ret = -1 \/ ret = 0) /\
  (ret = 0 ->
   (addr b' - B) mod 64 = 0 /\ size b' mod 64 = 0 /\ SIZEOF_ULOG CACHELINE_SIZE <= size b' /\
   addr b <= addr b' < addr b + 64 /\ buf_end b' <= buf_end b < buf_end b' + 64).
Proof.
  intros B H1 H2 H3. unfold operation_user_buffer_verify_align, ulog_by_offset, OBJ_PTR_TO_OFF.
  fold B. rewrite u64_small by lia. destruct (Z.eqb_spec (addr b - B) 0); [lia|].
  unfold CACHELINE_ALIGN. destruct (align_up_64_bounds (addr b - B) ltac:(lia)) as [A1 A2].
  set (al := ALIGN_UP (addr b - B) CACHELINE_SIZE) in *.
  set (cu := size b - (B + al - addr b) - SIZEOF_ULOG_HDR).
  destruct (Z.leb_spec cu CACHELINE_SIZE) as [Hc|Hc]; [intros [= <- <- <-]; split; [by left|lia]|].
  destruct (operation_user_buffer_try_insert _ _ _ _) as [[r p]|]; [|done]. cbn [mbind option_bind].
  intros [= <- <- <-]. split; [destruct (r =? 0); lia|]. intros _. unfold CACHELINE_SIZE in *.
  rewrite align_down_64. unfold buf_end, SIZEOF_ULOG, SIZEOF_ULOG_HDR in *. cbn [addr size].
  replace (B + al - B) with al by lia. pose proof (Z.div_mod cu 64 ltac:(lia)). 
  pose proof (Z.mod_pos_bound cu 64 ltac:(lia)).
  split; [done|]. split; [|lia]. replace (64 * (cu / 64) + 64) with ((cu / 64 + 1) * 64) by lia.
  apply Z.mod_mul. lia.
Qed.

(** ** Instances *)

Definition ex_pop : PMEMobjpool := Pop 8192 1024 1048576 1073741824 ravl_new true.

Lemma ex_pop_tracks : tracks ex_pop [].
Proof. split; [done|]. split; [apply ravl_ok_new|]. split; constructor. Qed.

Lemma user_buffer_try_insert_correct_witness :
  exists pop', operation_user_buffer_try_insert 5 16 ex_pop (UserBuf 2048 256) =
      Some (if existsb (overlaps (UserBuf 2048 256)) [] then -1 else 0, pop') /\
    tracks pop' (if existsb (overlaps (UserBuf 2048 256)) [] then []
                 else set_insert operation_user_buffer_range_cmp (UserBuf 2048 256) []).
Proof.
  apply (user_buffer_try_insert_correct 5 16 ex_pop [] (UserBuf 2048 256));
    [exact ex_pop_tracks|cbn; lia|constructor|lia|reflexivity|vm_compute; lia].
Defined.

Lemma ex_one_tracked :
  exists pop, operation_user_buffer_try_insert 5 16 ex_pop (UserBuf 2048 256) = Some (0, pop) /\
    tracks pop [UserBuf 2048 256].
Proof.
  apply (try_insert_spec 5 16 ex_pop [] (UserBuf 2048 256));
    [exact ex_pop_tracks|cbn; lia|constructor|lia|reflexivity|vm_compute; lia].
Qed.

Lemma user_buffer_remove_correct_witness :
  exists pop pop' l1 l2, operation_user_buffer_try_insert 5 16 ex_pop (UserBuf 2048 256) = Some (0, pop) /\
    operation_user_buffer_remove (3 + 2 * base.size (nodes (ulog_user_buffers_map pop))) 2048 pop = Some pop' /\
    [UserBuf 2048 256] = l1 ++ UserBuf 2048 256 :: l2 /\ tracks pop' (l1 ++ l2).
Proof.
  destruct ex_one_tracked as (pop & E & Ht). exists pop.
  destruct (user_buffer_remove_correct (3 + 2 * base.size (nodes (ulog_user_buffers_map pop))) pop
    [UserBuf 2048 256] (UserBuf 2048 256) Ht ltac:(left) ltac:(lia)) as (pop' & l1 & l2 & H).
  exists pop', l1, l2. split; [exact E|exact H].
Defined.

Lemma user_buffer_aligned_witness :
  exists b' pop', operation_user_buffer_verify_align 5 16 ex_ctx (UserBuf 2050 300) ex_pop =
    Some (0, b', pop') /\
   (addr b' - 512) mod 64 = 0 /\ size b' mod 64 = 0 /\ SIZEOF_ULOG CACHELINE_SIZE <= size b' /\
   addr (UserBuf 2050 300) <= addr b' < addr (UserBuf 2050 300) + 64 /\
   buf_end b' <= buf_end (UserBuf 2050 300) < buf_end b' + 64.
Proof.
  destruct (operation_user_buffer_verify_align 5 16 ex_ctx (UserBuf 2050 300) ex_pop) as [[[r b'] pop']|] eqn:E;
    [|vm_compute in E; discriminate].
  exists b', pop'. assert (r = 0) as -> by (vm_compute in E; congruence). split; [done|].
  apply (user_buffer_aligned 5 16 ex_ctx (UserBuf 2050 300) ex_pop 0 b' pop'); cbn; try lia. exact E.
Defined.

(** ** Two buffers on the same memory *)

(** Three buffers of a pool at 512, checked in turn: the three results and the
    ranges that were accepted. *)
Definition three_buffers : option (list Z * list user_buffer_def) :=
  '(r1, b1, pop) ← operation_user_buffer_verify_align 9 16 ex_ctx (UserBuf 4096 256) ex_pop;
  '(r2, b2, pop) ← operation_user_buffer_verify_align 9 32 ex_ctx (UserBuf 4352 256) pop;
  '(r3, b3, _) ← operation_user_buffer_verify_align 9 48 ex_ctx (UserBuf 4160 192) pop;
  Some ([r1; r2; r3], [b1; b2; b3]).

(** An overlap that is not seen.  With [4096, 4352) and [4352, 4608) in use, a
    buffer [4160, 4352) is accepted although it lies inside the first one: the
    search for the closest buffer at or below its end finds the second one,
    which only touches it. *)
Theorem user_buffer_overlap_accepted :
  three_buffers =
    Some ([0; 0; 0], [UserBuf 4096 256; UserBuf 4352 256; UserBuf 4160 192]) /\
  overlaps (UserBuf 4160 192) (UserBuf 4096 256) = true.
Proof. split; vm_compute; reflexivity. Qed.

(** ** The merge queue after its ring wrapped

    VECQ_FOREACH_REVERSE indexes the buffer of the queue from 0 and ignores its
    front, so once 64 entries have been followed by another one (possible from
    the second operation of a context on, when its shadow log keeps the larger
    capacity of an earlier operation) the merge search no longer visits the
    entries in reverse order of their creation. *)

(** ** The loop *)

Fixpoint enqueue_all (xs : list Z) (v : vecq Z) : vecq Z :=
  match xs with [] => v | x :: xs => enqueue_all xs (VECQ_ENQUEUE true v x).2 end.

(** The queue 1, ..., 64 (0 was dequeued, 64 enqueued): the reverse loop
    starts with 63 and ends with 64, its newest element, although the queue
    itself is in order. *)
Theorem vecq_foreach_reverse_ignores_front :
  let v := (VECQ_ENQUEUE true (VECQ_DEQUEUE (enqueue_all (seqZ 0 64) VECQ_INIT)).2 64).2 in
  vecq_list v = seqZ 1 64 /\ VECQ_FOREACH_REVERSE v = rev (seqZ 1 63) ++ [64].
Proof. split; vm_compute; reflexivity. Qed.

(** ** A lost update *)

(** Two kinds of operations on the word at offset 1024 in turn, which are never
    merged with each other. *)
Definition filler (i : Z) : vent := VEnt 1024 (if Z.even i then OpSet else OpOr) 1.

(** A first operation with 61 entries, then one with 66 of which three touch the
    word at offset 8192: AND 15 (the sixth), SET 6 (the 65th), AND 3 (the last). *)
Definition first_ops : list vent := map filler (seqZ 0 61).
Definition second_ops : list vent :=
  map filler (seqZ 0 5) ++ [VEnt 8192 OpAnd 15] ++ map filler (seqZ 5 58) ++
  [VEnt 8192 OpSet 6; VEnt 8192 OpAnd 3].

Definition two_operations : Z * operation_context * pmst :=
  let s := PMst (fun _ => Byte.x00) [] false in
  let '(_, c, s) := add_entries true (replicate 61 65536) first_ops (operation_start ex_ctx) s in
  add_entries true (replicate 66 0) second_ops (operation_start (operation_cancel c)) s.

(** Merging can lose an update.  A reachable context (its first operation had
    61 entries and was cancelled) collects the operations AND 15, SET 6, AND 3 of
    one word among 63 others on another word; every addition succeeds, but processing the
    collected log leaves 6 in the word where the sequence of operations leaves 2:
    the last AND was merged into the first one, in front of the SET. *)
Theorem merge_after_wrap_loses_update :
  let '(ret, c, s) := two_operations in
  ret = 0 /\
  (s' ← ulog_process 70 (log_ulog (pshadow_ops c)) (ctx_p_ops c) s;
   Some (load64 (vis s') (512 + 8192))) = Some 6 /\
  word_log 8192 second_ops (load64 (vis s) (512 + 8192)) = 2.
Proof. vm_compute. split; [reflexivity|]. split; reflexivity. Qed.
