(* ===== verification/UndoAdd.v ===== *)
(** * Adding a snapshot to an undo log

    operation_add_buffer on a log with room for the entry: the next header is
    cleared first, the entry is created behind the others, and everything is on
    media when the function returns. *)
From stdpp Require Import base numbers list list_numbers.
From Stdlib Require Import ZArith Lia Bool.
From S2P Require Import Prelude Pmem Ulog UlogEntries UndoLog Memops.

(** The log is written and on media up to the last drain. *)
Definition flushed_drained (lo n : Z) (s s' : pmst) : Prop :=
  exists s1, flushed_stores lo n s s1 /\ trace s' = trace s1 ++ [EvDrain].

(** No logs behind the first one, and no user buffers. *)
Definition plain_undo (ctx : operation_context) : Prop :=
  ctx_type ctx = LOG_TYPE_UNDO /\ ulog_any_user_buffer ctx = 0 /\ ctx_next ctx = [] /\ log_offset (transient_ops ctx) = 0.

(** The context is behind the entries [l] of its log. *)
Record undo_ctx (ctx : operation_context) (m : mem) (u C : Z) (l : list snapshot) : Prop := UndoCtx {
  uc_ulog : ctx_ulog ctx = u;
  uc_table : table (ctx_p_ops ctx) = OPS_POOL;
  uc_cap : C <= ctx_ulog_capacity ctx;
  uc_plain : plain_undo ctx;
  uc_total : total_logged ctx = log_size l;
  uc_curr : l = [] /\ ulog_curr_capacity ctx = 0 /\ ulog_curr ctx = 0 \/
    ulog_curr ctx = u /\ ulog_curr_offset ctx = log_size l /\ ulog_curr_capacity ctx = C - log_size l /\
    ulog_curr_gen_num ctx = load64 m (ulog_gen_num_addr u)
}.

Lemma undo_ctx_agree ctx m m' u C l : undo_ctx ctx m u C l -> agree m' m u SIZEOF_ULOG_HDR -> undo_ctx ctx m' u C l.
Proof.
  intros [H1 H2 H3 Hpl H4 H5] Hag. constructor; try done. destruct H5 as [?|(? & ? & ? & ->)]; [by left|right]. repeat split; try done.
  symmetry. apply (load64_agree _ _ _ _ _ Hag); unfold ulog_gen_num_addr, SIZEOF_ULOG_HDR; lia.
Qed.

(** The cursor of the context in front of the next entry. *)
Definition at_cursor (ctx : operation_context) (m : mem) (u C off : Z) : Prop :=
  ulog_curr ctx = u /\ ulog_curr_offset ctx = off /\ ulog_curr_capacity ctx = C - off /\
  ulog_curr_gen_num ctx = load64 m (ulog_gen_num_addr u).

Lemma next_log_ready ctx u C l fuel real_size ws : undo_ctx ctx (vis ws.2) u C l -> undo_at (vis ws.2) u C l ->
  0 < real_size -> log_size l + real_size <= C ->
  exists ctx', next_curr_log fuel ctx real_size ws = Some (0, ctx', ws) /\ at_cursor ctx' (vis ws.2) u C (log_size l) /\
    ctx_ulog ctx' = u /\ ctx_ulog_capacity ctx' = ctx_ulog_capacity ctx /\ plain_undo ctx' /\ total_logged ctx' = log_size l /\ ctx_p_ops ctx' = ctx_p_ops ctx.
Proof.
  intros [H1 H2 H3 Hpl H4 H5] HU Hr Hroom. destruct H5 as [(-> & E1 & E2)|(E1 & E2 & E3 & E4)].
  - cbn [log_size] in *. unfold next_curr_log, operation_reserve. rewrite E1. cbn [Z.eqb ctx_ulog_capacity set_curr total_logged].
    pose proof (ua_room _ _ _ _ HU) as Hc. cbn [log_size] in Hc. rewrite H4, u64_small by lia. rewrite (proj2 (Z.ltb_ge _ _)) by lia.
    cbn [negb Z.eqb mbind option_bind ulog_curr set_curr]. rewrite E2. cbn [Z.eqb]. cbn [ctx_ulog set_curr].
    rewrite H1, (proj2 (Z.eqb_neq u 0) (ua_log _ _ _ _ HU)), (ua_cap _ _ _ _ HU). eexists. split; [done|].
    unfold at_cursor. cbn. by rewrite Z.sub_0_r.
  - unfold next_curr_log. rewrite E3. destruct (Z.eqb_spec (C - log_size l) 0); [lia|]. exists ctx. by split.
Qed.

(** Clearing the header behind the new entry. *)
Lemma clobber_next p_ops e s : table p_ops = OPS_POOL ->
  vis (ulog_clobber_entry e p_ops s) = write_bytes (vis s) e (replicate 64 Byte.x00) /\
  (forall m0, wf_st m0 s -> wf_st m0 (ulog_clobber_entry e p_ops s)) /\
  (forall lo n, lo <= e -> e + 64 <= lo + n -> flushed_stores lo n s (ulog_clobber_entry e p_ops s)).
Proof.
  intros Ht. unfold ulog_clobber_entry, pmemops_memset. rewrite Ht. change (CACHELINE_ALIGN sizeof_entry_base) with 64.
  assert (obj_norep_memset e 0 64 PMEM_F_MEM_NONTEMPORAL s =
    st_drain (st_flush e (Z.of_nat (length (replicate 64 Byte.x00))) (st_store e (replicate 64 Byte.x00) s))) as -> by reflexivity.
  split; [done|]. split; [intros m0 Hw; auto with pm|]. intros lo n H1 H2. eapply flushed_trans; [apply (flushed_step lo n s e (replicate 64 Byte.x00)); [done|]|].
  - by rewrite length_replicate.
  - exists [EvDrain]. split; [done|]. split; [by repeat constructor|]. intros w _ Hp. by rewrite pending_app.
Qed.

Section Add.
Context (u C ptr size : Z) (l : list snapshot) (ctx : operation_context) (pop : PMEMobjpool) (s : pmst).
Let b := base (ctx_p_ops ctx).
Let sn := Snap (ptr - b) (read_bytes (vis s) ptr (Z.to_nat size)).
Hypothesis (HC : undo_ctx ctx (vis s) u C l).
Hypothesis (HU : undo_at (vis s) u C l).
Hypothesis (Hsize : 0 < size < 2 ^ 62).
Hypothesis (Hroom : log_size l + buf_entry_size size <= C).
Hypothesis (Hptr : 0 <= ptr - b < 2 ^ 61).
Hypothesis (Hapart : ptr + size <= u \/ u + undo_region u C <= ptr).

Let e := ulog_data u + log_size l.
Let total := buf_entry_size size.

Lemma new_len : sn_len sn = size.
Proof. unfold sn_len, sn. cbn [sn_bytes]. rewrite length_read_bytes. lia. Qed.

Lemma add_sizes : 0 <= log_size l /\ log_size l mod 64 = 0 /\ 24 + size <= total < 24 + size + 64 /\ total mod 64 = 0 /\ size < 2 ^ 62 /\ C < 2 ^ 62 /\ C mod 64 = 0.
Proof.
  destruct (entries_pos _ _ _ _ (ua_entries _ _ _ _ HU)) as (P1 & _ & P2). pose proof (ua_room _ _ _ _ HU) as P3. pose proof (ua_aligned _ _ _ _ HU) as P4.
  destruct (align_up_64_bounds (24 + size)) as [H1 H2]; [lia|]. unfold total, buf_entry_size, CACHELINE_ALIGN, sizeof_entry_buf. repeat split; try done; lia.
Qed.

(** The state in front of the creation. *)
Definition cleared : pmst := if (if total =? C - log_size l then 0 else e + total) =? 0 then s else ulog_clobber_entry (e + total) (ctx_p_ops ctx) s.

Lemma cleared_facts : 0 < u ->
  (forall x, x < e + total \/ u + undo_region u C <= x -> vis cleared x = vis s x) /\ flushed_stores u (undo_region u C) s cleared /\
  (forall m0, wf_st m0 s -> wf_st m0 cleared) /\ (log_size l + total < C -> load64 (vis cleared) (e + total) = 0).
Proof.
  intros Hu. destruct add_sizes as (P1 & P2 & P3 & P4 & _ & P5 & P6). unfold cleared, undo_region, SIZEOF_ULOG_HDR in *.
  destruct (Z.eqb_spec total (C - log_size l)) as [Ht|Ht]; cbn [Z.eqb].
  { split; [done|]. split; [apply flushed_refl|]. split; [done|lia]. }
  assert (e + total + 64 <= u + (64 + C)) as Hroom'.
  { unfold e, ulog_data, SIZEOF_ULOG_HDR, total in *. pose proof (Z.div_mod C 64 ltac:(lia)). pose proof (Z.div_mod (log_size l) 64 ltac:(lia)).
    pose proof (Z.div_mod (buf_entry_size size) 64 ltac:(lia)). lia. }
  assert (u + 64 <= e) as He by (unfold e, ulog_data, SIZEOF_ULOG_HDR; lia).
  destruct (Z.eqb_spec (e + total) 0); [lia|]. destruct (clobber_next (ctx_p_ops ctx) (e + total) s (uc_table _ _ _ _ _ HC)) as (V & W & F). rewrite V. split; [|split; [|split]].
  - intros x Hx. apply write_bytes_out. rewrite length_replicate. lia.
  - apply F; lia.
  - done.
  - intros _. unfold load64. rewrite read_write_sub by (rewrite ?length_replicate; lia). by rewrite Z.sub_diag.
Qed.

Lemma add_buffer_logs fuel : 0 < u -> exists ctx' s',
  operation_add_buffer (S fuel) ctx ptr ptr size ULOG_OPERATION_BUF_CPY (pop, s) = Some (0, ctx', (pop, s')) /\
  undo_ctx ctx' (vis s') u C (l ++ [sn]) /\ undo_at (vis s') u C (l ++ [sn]) /\ ctx_p_ops ctx' = ctx_p_ops ctx /\
  (forall x, ~ ulog_data u <= x < u + undo_region u C -> vis s' x = vis s x) /\
  (forall m0, wf_st m0 s -> wf_st m0 s') /\ flushed_drained u (undo_region u C) s s'.
Proof.
  intros Hu. destruct add_sizes as (P1 & P2 & P3 & P4 & _ & P5 & P6). assert (buf_entry_size size = total) as Htot by done. pose proof HC as [C1 C2 C3 C0 C4 _].
  destruct (next_log_ready ctx u C l fuel (size + 24) (pop, s) HC HU) as (c1 & E1 & (D1 & D2 & D3 & D4) & F1 & F2 & F0 & F3 & F4); [lia|lia|].
  cbn [operation_add_buffer]. unfold sizeof_entry_buf. rewrite (u64_small (size + 24)) by lia. rewrite E1. cbn [mbind option_bind Z.eqb negb].
  rewrite D3. rewrite Z.min_l by lia. rewrite (u64_small (size + 24 - 24)) by lia.
  replace (size + 24 - 24) with size by lia.
  replace (ALIGN_UP (size + 24) CACHELINE_SIZE) with total by (unfold total, buf_entry_size, CACHELINE_ALIGN, sizeof_entry_buf; f_equal; lia).
  assert (next_entry_of c1 total (vis s) = if total =? C - log_size l then 0 else e + total) as Hn.
  { unfold next_entry_of. rewrite D1, D2, D3. destruct (Z.eqb_spec total (C - log_size l)).
    - unfold ulog_next. by rewrite (ua_next _ _ _ _ HU).
    - unfold e, ulog_data. rewrite u64_small by lia. lia. }
  assert ((if next_entry_of c1 total (vis s) =? 0 then s else ulog_clobber_entry (next_entry_of c1 total (vis s)) (ctx_p_ops c1) s) = cleared) as ->.
  { rewrite Hn, F4. unfold cleared. destruct (total =? C - log_size l); [done|]. by destruct (e + total =? 0). }
  destruct (cleared_facts Hu) as (V1 & V2 & VW & V3). unfold undo_region, SIZEOF_ULOG_HDR in *. cbn [snd] in *.
  assert (u + 64 <= e /\ e + total <= u + (64 + C)) as [He1 He2] by (unfold e, ulog_data, SIZEOF_ULOG_HDR; lia).
  assert (load64 (vis cleared) (ulog_gen_num_addr u) = load64 (vis s) (ulog_gen_num_addr u)) as Hg.
  { apply (load64_agree _ _ u 64); [intros x Hx; apply V1; lia|unfold ulog_gen_num_addr; lia|unfold ulog_gen_num_addr; lia]. }
  rewrite D1, D2, D4, <- Hg, F4.
  destruct (buf_create_any u (log_size l) ptr ptr size ULOG_OPERATION_BUF_CPY (ctx_p_ops ctx) cleared) as (s' & E2 & B1 & B2 & B3 & B4 & B5 & B6 & BW & evs & T1 & T2 & T3).
  { constructor; [done|lia|lia|by right|done|]. fold e total. lia. }
  rewrite E2. cbn [mbind option_bind]. fold e total in B1, B2, B3, B4, B5, B6, T2. rewrite Z.sub_diag. rewrite (u64_small 0) by lia. cbn [Z.eqb].
  eexists _, s'. split; [done|].
  assert (agree (vis s') (vis s) u (64 + log_size l)) as Hold.
  { intros x Hx. unfold e, ulog_data, SIZEOF_ULOG_HDR in *. rewrite B6, V1 by lia. done. }
  assert (log_size (l ++ [sn]) = log_size l + total) as Hls.
  { rewrite log_size_app. cbn [log_size]. unfold sn_size. rewrite new_len. lia. }
  assert (undo_at (vis s') u C (l ++ [sn])) as HU'.
  { destruct HU as [U0 U1 U2 U3 U4 U5 U6]. constructor; try done.
    - rewrite <- U1. apply (load64_agree _ _ _ _ _ Hold); unfold ulog_capacity_addr; lia.
    - rewrite <- U2. apply (load64_agree _ _ _ _ _ Hold); unfold ulog_next_addr; lia.
    - apply entries_app. split.
      + apply (entries_agree (vis s)); [done| |]; intros x Hx; apply Hold; unfold ulog_data, SIZEOF_ULOG_HDR in *; lia.
      + split; [|done]. fold e. constructor; rewrite ?new_len; try done.
        unfold sn. cbn [sn_bytes]. rewrite length_read_bytes. apply read_bytes_eq. intros i Hi. rewrite B5, V1 by lia. done.
    - lia.
    - rewrite Hls. intros Hlt. rewrite Z.add_assoc. fold e. rewrite <- (V3 Hlt). unfold load64. f_equal. apply read_bytes_eq. intros i Hi. apply B6. lia. }
  split; [|split; [done|split; [done|split; [|split; [intros m0 Hw; by apply BW, VW|]]]]].
  - constructor; cbn; try done; [by rewrite F4|lia|rewrite Hls, F3, u64_small; lia|]. right. rewrite D2, D3, Hls, !u64_small by lia.
    split; [done|]. split; [done|]. split; [lia|]. rewrite D4. symmetry. apply (load64_agree _ _ _ _ _ Hold); unfold ulog_gen_num_addr; lia.
  - intros x Hx. unfold ulog_data, SIZEOF_ULOG_HDR in Hx. rewrite B6, V1 by (unfold undo_region, SIZEOF_ULOG_HDR in *; lia). done.
  - exists (PMst (vis s') (trace cleared ++ evs) false). split; [|done]. eapply flushed_trans; [exact V2|].
    exists evs. split; [done|]. split; [|done]. eapply Forall_impl; [exact T2|]. intros [a bs| |]; cbn; lia.
Qed.
End Add.
