(* ===== verification/Critnib.v ===== *)
(** * The critnib radix tree (libpmemobj/critnib.c)

    Inner nodes have 16 children selected by one nibble of the key; nodes with a
    single child are left out, so each stores the position of its nibble
    ([shift]) and the bits above it ([path]).  Pointers are addresses, leaves are
    tagged with bit 0, and nodes and leaves live in two heaps.  Removed nodes and
    leaves stay in a ring of pending slots for DELETED_LIFE removals and then go
    to free lists linked through [child[0]] and [value].  What Malloc returns is
    an argument (0: failure); [None] is a NULL dereference or out of fuel. *)
From stdpp Require Import base numbers list list_numbers gmap.
From Stdlib Require Import ZArith Lia Bool.
From S2P Require Import Prelude.

Definition DELETED_LIFE : Z := 16.
Definition SLICE : Z := 4.
Definition NIB : Z := Z.shiftl 1 SLICE - 1.
Definition SLNODES : nat := 16.
Definition CN_ENOMEM : Z := 12.
Definition CN_EEXIST : Z := 17.

Record critnib_node := CNode { child : list Z; path : Z; shift : Z }.
Record critnib_leaf := CLeaf { lkey : Z; lvalue : Z }.

Record critnib := Critnib {
  cn_root : Z;
  deleted_node : Z;
  deleted_leaf : Z;
  pending_del_nodes : list Z;
  pending_del_leaves : list Z;
  remove_count : Z;
  cn_nodes : gmap Z critnib_node;   (* the memory of the nodes *)
  cn_leaves : gmap Z critnib_leaf   (* the memory of the leaves *)
}.

Implicit Types (c : critnib) (n k key : Z).

(** ** Field updates *)

Definition set_cn_root (r : Z) c : critnib :=
  Critnib r (deleted_node c) (deleted_leaf c) (pending_del_nodes c) (pending_del_leaves c)
    (remove_count c) (cn_nodes c) (cn_leaves c).
Definition set_cn_nodes (dn : Z) (h : gmap Z critnib_node) c : critnib :=
  Critnib (cn_root c) dn (deleted_leaf c) (pending_del_nodes c) (pending_del_leaves c)
    (remove_count c) h (cn_leaves c).
Definition set_cn_leaves (dl : Z) (h : gmap Z critnib_leaf) c : critnib :=
  Critnib (cn_root c) (deleted_node c) dl (pending_del_nodes c) (pending_del_leaves c)
    (remove_count c) (cn_nodes c) h.
Definition set_pending (pn pl : list Z) (rc : Z) c : critnib :=
  Critnib (cn_root c) (deleted_node c) (deleted_leaf c) pn pl rc (cn_nodes c) (cn_leaves c).

Definition write_node n (nd : critnib_node) c : critnib :=
  set_cn_nodes (deleted_node c) (<[n := nd]> (cn_nodes c)) c.
Definition write_leaf k (l : critnib_leaf) c : critnib :=
  set_cn_leaves (deleted_leaf c) (<[k := l]> (cn_leaves c)) c.
Definition set_child (i : nat) (v : Z) (nd : critnib_node) : critnib_node :=
  CNode (<[i := v]> (child nd)) (path nd) (shift nd).

(** [struct critnib_node **]: the root field or a child slot. *)
Inductive cn_ref := RootRef | ChildRef (n : Z) (i : nat).

Definition cn_store (f : cn_ref) (v : Z) c : option critnib :=
  match f with
  | RootRef => Some (set_cn_root v c)
  | ChildRef n i => nd ← cn_nodes c !! n; Some (write_node n (set_child i v nd) c)
  end.

(** ** Helpers *)

Definition is_leaf (n : Z) : bool := negb (Z.land n 1 =? 0).
Definition to_leaf (n : Z) : Z := Z.land n (u64 (Z.lnot 1)).
Definition path_mask (sh : Z) : Z := u64 (Z.shiftl (u64 (Z.lnot NIB)) sh).
Definition slice_index (key sh : Z) : nat := Z.to_nat (Z.land (Z.shiftr key sh) NIB).
Definition get_child (nd : critnib_node) (i : nat) : Z := default 0 (child nd !! i).

(** util_mssb_index64: 63 minus the number of leading zeros. *)
Definition util_mssb_index64 (v : Z) : Z := Z.log2 v.

Definition critnib_new : critnib :=
  Critnib 0 0 0 (replicate 16 0) (replicate 16 0) 0 ∅ ∅.

Definition free_node c n : option critnib :=
  if n =? 0 then Some c else
  nd ← cn_nodes c !! n;
  Some (set_cn_nodes n (<[n := set_child 0 (deleted_node c) nd]> (cn_nodes c)) c).

(** The memory Malloc returns holds an unspecified node. *)
Definition alloc_node (ma : Z) c : option (Z * critnib) :=
  if deleted_node c =? 0 then Some (ma, c) else
  let n := deleted_node c in
  nd ← cn_nodes c !! n;
  Some (n, set_cn_nodes (get_child nd 0) (cn_nodes c) c).

Definition free_leaf c k : option critnib :=
  if k =? 0 then Some c else
  l ← cn_leaves c !! k;
  Some (set_cn_leaves k (<[k := CLeaf (lkey l) (deleted_leaf c)]> (cn_leaves c)) c).

Definition alloc_leaf (ma : Z) c : option (Z * critnib) :=
  if deleted_leaf c =? 0 then Some (ma, c) else
  let k := deleted_leaf c in
  l ← cn_leaves c !! k;
  Some (k, set_cn_leaves (lvalue l) (cn_leaves c) c).

(** ** Insertion *)

(** The loop: the slot that holds [n], the last inner node passed, and [n]. *)
Fixpoint insert_walk (fuel : nat) c key (parent : cn_ref) (prev n : Z)
    : option (cn_ref * Z * Z) :=
  match fuel with
  | O => None
  | S f =>
      if (n =? 0) || is_leaf n then Some (parent, prev, n) else
      nd ← cn_nodes c !! n;
      if Z.land key (path_mask (shift nd)) =? path nd then
        let i := slice_index key (shift nd) in
        insert_walk f c key (ChildRef n i) n (get_child nd i)
      else Some (parent, prev, n)
  end.

Definition critnib_insert (fuel : nat) (ml mn : Z) c key (value : Z) : option (Z * critnib) :=
  '(k, c) ← alloc_leaf ml c;
  if k =? 0 then Some (CN_ENOMEM, c) else
  let c := write_leaf k (CLeaf key value) c in
  let kn := Z.lor k 1 in
  if cn_root c =? 0 then Some (0, set_cn_root kn c) else
  '(parent, prev, n) ← insert_walk fuel c key RootRef (cn_root c) (cn_root c);
  if n =? 0 then
    nd ← cn_nodes c !! prev;
    c ← cn_store (ChildRef prev (slice_index key (shift nd))) kn c;
    Some (0, c)
  else
  p ← (if is_leaf n then l ← cn_leaves c !! to_leaf n; Some (lkey l)
       else nd ← cn_nodes c !! n; Some (path nd));
  let at_ := Z.lxor p key in
  if at_ =? 0 then c ← free_leaf c (to_leaf kn); Some (CN_EEXIST, c) else
  let sh := Z.land (util_mssb_index64 at_) (u8 (Z.lnot (SLICE - 1))) in
  '(m, c) ← alloc_node mn c;
  if m =? 0 then c ← free_leaf c (to_leaf kn); Some (CN_ENOMEM, c) else
  let ch := <[slice_index p sh := n]> (<[slice_index key sh := kn]> (replicate SLNODES 0)) in
  let c := write_node m (CNode ch (Z.land key (path_mask sh)) sh) c in
  c ← cn_store parent m c;
  Some (0, c).

(** ** Removal *)

(** The descent: the slot of [n], [n], and the child reached; 0 is not found. *)
Fixpoint remove_walk (fuel : nat) c key (n_parent : cn_ref) (n : Z) (k_parent : cn_ref) (kn : Z)
    : option (cn_ref * Z * Z) :=
  match fuel with
  | O => None
  | S f =>
      if is_leaf kn then Some (n_parent, n, kn) else
      nd ← cn_nodes c !! kn;
      let i := slice_index key (shift nd) in
      let kn' := get_child nd i in
      if kn' =? 0 then Some (k_parent, kn, 0)
      else remove_walk f c key k_parent kn (ChildRef kn i) kn'
  end.

(** The loop over the remaining children: the only one, or none when there is a
    second one ([inl tt]) or none at all ([inr None]). *)
Fixpoint only_child (ch : list Z) (i : nat) (ochild : option nat) : unit + option nat :=
  match ch with
  | [] => inr ochild
  | x :: ch =>
      if x =? 0 then only_child ch (S i) ochild
      else match ochild with
           | Some _ => inl tt
           | None => only_child ch (S i) (Some i)
           end
  end.

(** Moving the pending slot of this removal to the free lists. *)
Definition recycle_pending c : option (nat * critnib) :=
  let del := Z.to_nat (remove_count c mod DELETED_LIFE) in
  let rc := u64 (remove_count c + 1) in
  pn ← pending_del_nodes c !! del;
  pl ← pending_del_leaves c !! del;
  c ← free_node c pn;
  c ← free_leaf c pl;
  Some (del, set_pending (<[del := 0]> (pending_del_nodes c)) (<[del := 0]> (pending_del_leaves c)) rc c).

Definition pend_leaf (del : nat) k c : critnib :=
  set_pending (pending_del_nodes c) (<[del := k]> (pending_del_leaves c)) (remove_count c) c.
Definition pend_node (del : nat) n c : critnib :=
  set_pending (<[del := n]> (pending_del_nodes c)) (pending_del_leaves c) (remove_count c) c.

Definition critnib_remove (fuel : nat) c key : option (Z * critnib) :=
  let n := cn_root c in
  if n =? 0 then Some (0, c) else
  '(del, c) ← recycle_pending c;
  if is_leaf n then
    l ← cn_leaves c !! to_leaf n;
    if lkey l =? key then Some (lvalue l, pend_leaf del (to_leaf n) (set_cn_root 0 c))
    else Some (0, c)
  else
  '(n_parent, n, kn) ← remove_walk fuel c key RootRef n RootRef n;
  if kn =? 0 then Some (0, c) else
  l ← cn_leaves c !! to_leaf kn;
  if negb (lkey l =? key) then Some (0, c) else
  nd ← cn_nodes c !! n;
  c ← cn_store (ChildRef n (slice_index key (shift nd))) 0 c;
  nd ← cn_nodes c !! n;
  match only_child (child nd) 0 None with
  | inl _ => Some (lvalue l, pend_leaf del (to_leaf kn) c)
  | inr None => None
  | inr (Some o) =>
      c ← cn_store n_parent (get_child nd o) c;
      Some (lvalue l, pend_leaf del (to_leaf kn) (pend_node del n c))
  end.

(** ** Queries *)

Fixpoint get_walk (fuel : nat) c key (n : Z) : option Z :=
  match fuel with
  | O => None
  | S f =>
      if (n =? 0) || is_leaf n then Some n else
      nd ← cn_nodes c !! n;
      get_walk f c key (get_child nd (slice_index key (shift nd)))
  end.

(** Without concurrent removals both loads of [remove_count] see one value; the
    loop is repeated when the sum wraps around. *)
Fixpoint critnib_get (fuel : nat) c key : option Z :=
  match fuel with
  | O => None
  | S f =>
      n ← get_walk f c key (cn_root c);
      res ← (if n =? 0 then Some 0 else
             l ← cn_leaves c !! to_leaf n;
             Some (if lkey l =? key then lvalue l else 0));
      if u64 (remove_count c + DELETED_LIFE) <=? remove_count c
      then critnib_get f c key else Some res
  end.

(** The highest non-null child below index [i]. *)
Fixpoint scan_down (ch : list Z) (i : nat) : option Z :=
  match i with
  | O => None
  | S j => let x := default 0 (ch !! j) in if x =? 0 then scan_down ch j else Some x
  end.

Fixpoint find_successor (fuel : nat) c (n : Z) : option Z :=
  match fuel with
  | O => None
  | S f =>
      nd ← cn_nodes c !! n;
      match scan_down (child nd) SLNODES with
      | None => Some 0
      | Some m =>
          if is_leaf m then l ← cn_leaves c !! to_leaf m; Some (lvalue l)
          else find_successor f c m
      end
  end.

Fixpoint find_le (fuel : nat) c (n key : Z) : option Z :=
  match fuel with
  | O => None
  | S f =>
      if n =? 0 then Some 0 else
      if is_leaf n then
        l ← cn_leaves c !! to_leaf n;
        Some (if lkey l <=? key then lvalue l else 0)
      else
      nd ← cn_nodes c !! n;
      if negb (Z.land (Z.shiftr (Z.lxor key (path nd)) (shift nd)) (u64 (Z.lnot NIB)) =? 0) then
        if path nd <? key then find_successor f c n else Some 0
      else
      let nib := slice_index key (shift nd) in
      value ← find_le f c (get_child nd nib) key;
      if negb (value =? 0) then Some value else
      match scan_down (child nd) nib with
      | None => Some 0
      | Some m =>
          if is_leaf m then l ← cn_leaves c !! to_leaf m; Some (lvalue l)
          else find_successor f c m
      end
  end.

Fixpoint critnib_find_le (fuel : nat) c key : option Z :=
  match fuel with
  | O => None
  | S f =>
      res ← (if cn_root c =? 0 then Some 0 else find_le f c (cn_root c) key);
      if u64 (remove_count c + DELETED_LIFE) <=? remove_count c
      then critnib_find_le f c key else Some res
  end.
