(* ===== verification/CritnibFacts.v ===== *)
(** * Keys, nibbles and tries

    The arithmetic of nibbles as intervals of keys, and the trie that the heap of
    a critnib represents: [rep] ties the heap to a tree, [t_in] says which
    interval of keys each subtree covers. *)
From stdpp Require Import base numbers list list_numbers gmap.
From Stdlib Require Import ZArith Lia Bool.
From S2P Require Import Prelude Critnib.

(** ** Nibbles *)

Lemma nib_ones : NIB = Z.ones 4.
Proof. reflexivity. Qed.

Lemma slice_index_div key s :
  0 <= s -> slice_index key s = Z.to_nat ((key / 2 ^ s) mod 16).
Proof.
  intros Hs. unfold slice_index. rewrite nib_ones, Z.land_ones, Z.shiftr_div_pow2 by lia. done.
Qed.

Lemma slice_lt key s : (slice_index key s < 16)%nat.
Proof.
  unfold slice_index. rewrite nib_ones, Z.land_ones by lia.
  pose proof (Z.mod_pos_bound (Z.shiftr key s) (2 ^ 4) ltac:(lia)). lia.
Qed.

Lemma pow_split s : 0 <= s -> 2 ^ (s + 4) = 16 * 2 ^ s /\ 0 < 2 ^ s.
Proof. intros Hs. rewrite Z.pow_add_r by lia. lia. Qed.

(** A node covers [p, p + 2^(s+4)), its child [i] the [i]-th sixteenth of it. *)
Lemma slice_interval key p s :
  0 <= s -> p mod 2 ^ (s + 4) = 0 -> p <= key < p + 2 ^ (s + 4) ->
  let i := Z.of_nat (slice_index key s) in p + i * 2 ^ s <= key < p + i * 2 ^ s + 2 ^ s.
Proof.
  intros Hs Hp Hk i. destruct (pow_split s Hs) as [E H0]. unfold i. rewrite slice_index_div by done.
  pose proof (Z.mod_pos_bound (key / 2 ^ s) 16 ltac:(lia)). rewrite Z2Nat.id by lia.
  apply Z.mod_divide in Hp as [q ->]; [|lia]. rewrite E in *.
  pose proof (Z.div_mod key (2 ^ s) ltac:(lia)). pose proof (Z.mod_pos_bound key (2 ^ s) ltac:(lia)).
  set (d := key / 2 ^ s) in *.
  pose proof (Z.div_mod d 16 ltac:(lia)). assert (d / 16 = q) as Hq; [|nia].
  assert (16 * q <= d < 16 * q + 16) as Hd by nia.
  symmetry. apply (Z.div_unique d 16 q (d - 16 * q)); lia.
Qed.

Lemma slice_unique key p s i :
  0 <= s -> p mod 2 ^ (s + 4) = 0 -> (i < 16)%nat ->
  p + Z.of_nat i * 2 ^ s <= key < p + Z.of_nat i * 2 ^ s + 2 ^ s -> slice_index key s = i.
Proof.
  intros Hs Hp Hi Hk. destruct (pow_split s Hs) as [E H0].
  pose proof (slice_interval key p s Hs Hp ltac:(rewrite E; nia)) as Hj. cbv zeta in Hj.
  set (j := slice_index key s) in *. nia.
Qed.

Lemma path_mask_land key s :
  0 <= key < 2 ^ 64 -> 0 <= s <= 60 -> Z.land key (path_mask s) = 2 ^ (s + 4) * (key / 2 ^ (s + 4)).
Proof.
  intros Hk Hs. rewrite <- (land_lnot_ones key (s + 4)) by lia.
  replace (2 ^ (s + 4) - 1) with (Z.ones (s + 4)) by (rewrite Z.ones_equiv; lia).
  apply Z.bits_inj'. intros i Hi. rewrite !Z.land_spec.
  destruct (Z.lt_ge_cases i 64) as [Hlt|Hge].
  - f_equal. unfold path_mask, u64. rewrite Z.mod_pow2_bits_low, Z.shiftl_spec, Z.lnot_spec by lia.
    destruct (Z.lt_ge_cases i (s + 4)).
    + rewrite Z.ones_spec_low by lia. destruct (Z.lt_ge_cases i s); [by rewrite Z.testbit_neg_r by lia|].
      rewrite Z.mod_pow2_bits_low, Z.lnot_spec, nib_ones, Z.ones_spec_low by lia. done.
    + rewrite Z.ones_spec_high, Z.mod_pow2_bits_low, Z.lnot_spec, nib_ones, Z.ones_spec_high by lia. done.
  - destruct (Z.eq_dec key 0) as [->|]; [by rewrite Z.testbit_0_l|].
    rewrite (Z.bits_above_log2 key i); [done|lia|].
    assert (Z.log2 key < 64) by (apply Z.log2_lt_pow2; lia). lia.
Qed.

Lemma div_interval key p w : 0 < w -> p mod w = 0 -> (w * (key / w) = p <-> p <= key < p + w).
Proof.
  intros Hw Hp. apply Z.mod_divide in Hp as [q ->]; [|lia].
  pose proof (Z.div_mod key w ltac:(lia)). pose proof (Z.mod_pos_bound key w ltac:(lia)).
  split; intros Hx; [nia|]. assert (key / w = q) as ->; [|lia].
  symmetry. apply (Z.div_unique key w q (key - q * w)); lia.
Qed.

Lemma path_test key p s :
  0 <= key < 2 ^ 64 -> 0 <= s <= 60 -> p mod 2 ^ (s + 4) = 0 ->
  (Z.land key (path_mask s) =? p) = bool_decide (p <= key < p + 2 ^ (s + 4)).
Proof.
  intros Hk Hs Hp. rewrite path_mask_land by done.
  assert (0 < 2 ^ (s + 4)) by (apply Z.pow_pos_nonneg; lia).
  apply eq_true_iff_eq. rewrite Z.eqb_eq, bool_decide_eq_true. by apply div_interval.
Qed.

Lemma shiftr_range x s : 0 <= x < 2 ^ 64 -> 0 <= s -> 0 <= Z.shiftr x s < 2 ^ 64.
Proof.
  intros Hx Hs. rewrite Z.shiftr_div_pow2 by done. pose proof (Z.pow_pos_nonneg 2 s ltac:(lia) Hs).
  split; [apply Z.div_pos; lia|]. apply Z.div_lt_upper_bound; [lia|]. nia.
Qed.

Lemma lxor_range x y : 0 <= x < 2 ^ 64 -> 0 <= y < 2 ^ 64 -> 0 <= Z.lxor x y < 2 ^ 64.
Proof.
  intros Hx Hy. assert (0 <= Z.lxor x y) as H0 by (apply Z.lxor_nonneg; lia). split; [done|].
  destruct (Z.eq_dec (Z.lxor x y) 0) as [->|]; [lia|]. apply Z.log2_lt_pow2; [lia|].
  eapply Z.le_lt_trans; [apply Z.log2_lxor; lia|]. apply Z.max_lub_lt.
  - destruct (Z.eq_dec x 0) as [->|]; [simpl; lia|]. apply Z.log2_lt_pow2; lia.
  - destruct (Z.eq_dec y 0) as [->|]; [simpl; lia|]. apply Z.log2_lt_pow2; lia.
Qed.

(** The test of find_le. *)
Lemma outside_test key p s :
  0 <= key < 2 ^ 64 -> 0 <= p < 2 ^ 64 -> 0 <= s <= 60 -> p mod 2 ^ (s + 4) = 0 ->
  (Z.land (Z.shiftr (Z.lxor key p) s) (u64 (Z.lnot NIB)) =? 0) = bool_decide (p <= key < p + 2 ^ (s + 4)).
Proof.
  intros Hk Hp Hs Hm. pose proof (lxor_range key p Hk Hp) as Hx.
  change (u64 (Z.lnot NIB)) with (path_mask 0).
  rewrite path_mask_land by (try apply shiftr_range; lia).
  rewrite <- (Z.shiftr_div_pow2 _ (0 + 4)), Z.shiftr_shiftr, Z.shiftr_lxor, Z.add_0_l by lia.
  assert (0 < 2 ^ (s + 4)) as Hw by (apply Z.pow_pos_nonneg; lia).
  apply eq_true_iff_eq. rewrite Z.eqb_eq, bool_decide_eq_true, <- (div_interval key p _ Hw Hm).
  assert (p = 2 ^ (s + 4) * (p / 2 ^ (s + 4))) as Ep by (apply Z.div_exact; lia).
  rewrite <- !Z.shiftr_div_pow2 in * by lia. split.
  - intros H. assert (Z.lxor (Z.shiftr key (s + 4)) (Z.shiftr p (s + 4)) = 0) as E by lia.
    apply Z.lxor_eq in E. rewrite E. lia.
  - intros H. assert (Z.shiftr key (s + 4) = Z.shiftr p (s + 4)) as -> by nia.
    rewrite Z.lxor_nilpotent. lia.
Qed.

(** Where two keys part: the nibble of their highest different bit. *)
Definition split_shift (x y : Z) : Z := Z.land (util_mssb_index64 (Z.lxor x y)) (u8 (Z.lnot (SLICE - 1))).

Lemma split_spec x y :
  0 <= x < 2 ^ 64 -> 0 <= y < 2 ^ 64 -> x <> y ->
  let s := split_shift x y in
  0 <= s <= 60 /\ s mod 4 = 0 /\ x / 2 ^ (s + 4) = y / 2 ^ (s + 4) /\ x / 2 ^ s <> y / 2 ^ s.
Proof.
  intros Hx Hy Hne s. pose proof (lxor_range x y Hx Hy) as Hr.
  assert (Z.lxor x y <> 0) as H0 by (intros E; by apply Z.lxor_eq in E).
  set (b := Z.log2 (Z.lxor x y)).
  assert (0 <= b < 64) as Hb by (split; [apply Z.log2_nonneg|apply Z.log2_lt_pow2; lia]).
  assert (s = 4 * (b / 4)) as Es.
  { unfold s, split_shift, util_mssb_index64. fold b.
    change (4 * (b / 4)) with (2 ^ 2 * (b / 2 ^ 2)). rewrite <- (land_lnot_ones b 2) by lia. apply Z.bits_inj'. intros i Hi. rewrite !Z.land_spec.
    destruct (Z.lt_ge_cases i 8); [f_equal; unfold u8; rewrite Z.mod_pow2_bits_low by lia; done|].
    destruct (Z.eq_dec b 0) as [->|]; [by rewrite Z.testbit_0_l|].
    rewrite (Z.bits_above_log2 b i); [done|lia|]. assert (Z.log2 b < 6) by (apply Z.log2_lt_pow2; lia). lia. }
  pose proof (Z.div_mod b 4 ltac:(lia)). pose proof (Z.mod_pos_bound b 4 ltac:(lia)).
  split; [lia|]. split; [rewrite Es, Z.mul_comm; apply Z.mod_mul; lia|].
  assert (s <= b < s + 4) as Hsb by lia.
  rewrite <- !Z.shiftr_div_pow2 by lia. split.
  - apply Z.lxor_eq. rewrite <- Z.shiftr_lxor. apply Z.shiftr_eq_0; lia.
  - intros E. assert (Z.shiftr (Z.lxor x y) s = 0) as E2 by (rewrite Z.shiftr_lxor, E; apply Z.lxor_nilpotent).
    apply Z.shiftr_eq_0_iff in E2 as [E2|[_ E2]]; [done|]. fold b in E2. lia.
Qed.

(** ** Tagged pointers *)

Definition good (a : Z) : Prop := 0 < a < 2 ^ 64 /\ a mod 2 = 0.

Lemma good_tag a : good a -> Z.lor a 1 = a + 1.
Proof.
  intros [Ha Hm]. apply Z.mod_divide in Hm as [q ->]; [|lia].
  rewrite Z.mul_comm. apply Z.bits_inj'. intros i Hi. rewrite Z.lor_spec.
  destruct (Z.eq_dec i 0) as [->|Hi0].
  - rewrite Z.testbit_odd_0, Z.testbit_even_0. done.
  - replace i with (Z.succ (Z.pred i)) by lia.
    rewrite Z.testbit_odd_succ, Z.testbit_even_succ by lia.
    change 1 with (2 * 0 + 1). rewrite Z.testbit_odd_succ, Z.testbit_0_l by lia. apply orb_false_r.
Qed.

Lemma is_leaf_odd n : is_leaf n = Z.odd n.
Proof.
  unfold is_leaf. change 1 with (Z.ones 1). rewrite Z.land_ones by lia. change (2 ^ 1) with 2.
  rewrite Zmod_odd. by destruct (Z.odd n).
Qed.

Lemma good_even a : good a -> is_leaf a = false.
Proof.
  intros [Ha Hm]. rewrite is_leaf_odd. rewrite Zmod_odd in Hm. by destruct (Z.odd a).
Qed.

Lemma good_leaf a : good a -> is_leaf (Z.lor a 1) = true /\ to_leaf (Z.lor a 1) = a /\ Z.lor a 1 <> 0.
Proof.
  intros H. split; [|split].
  - rewrite (good_tag a H), is_leaf_odd, Z.odd_add, <- is_leaf_odd, (good_even a H). done.
  - rewrite (good_tag a H). unfold to_leaf. destruct H as [Ha Hm].
    transitivity (Z.land (a + 1) (Z.lnot (2 ^ 1 - 1))).
    + apply Z.bits_inj'. intros i Hi. rewrite !Z.land_spec. destruct (Z.lt_ge_cases i 64).
      * f_equal. unfold u64. rewrite Z.mod_pow2_bits_low by lia. done.
      * rewrite (Z.bits_above_log2 (a + 1) i); [done|lia|].
        assert (a + 1 < 2 ^ 64) by (apply Z.mod_divide in Hm as [q ->]; lia).
        assert (Z.log2 (a + 1) < 64) by (apply Z.log2_lt_pow2; lia). lia.
    + rewrite land_lnot_ones by lia. apply Z.mod_divide in Hm as [q ->]; [|lia]. change (2 ^ 1) with 2.
      pose proof (Z.div_mod (q * 2 + 1) 2 ltac:(lia)). pose proof (Z.mod_pos_bound (q * 2 + 1) 2 ltac:(lia)). lia.
  - rewrite (good_tag a H). destruct H. lia.
Qed.

(** ** Tries *)

#[warnings="-register-all"]
Inductive ctree :=
| TNil
| TLeaf (a k v : Z)
| TNode (a p s : Z) (ch : list ctree).

Definition ptr (t : ctree) : Z :=
  match t with TNil => 0 | TLeaf a _ _ => Z.lor a 1 | TNode a _ _ _ => a end.

(** The heap holds the tree. *)
Inductive rep (c : critnib) : ctree -> Prop :=
| rep_nil : rep c TNil
| rep_leaf a k v : good a -> cn_leaves c !! a = Some (CLeaf k v) -> rep c (TLeaf a k v)
| rep_node a p s ch :
    good a -> cn_nodes c !! a = Some (CNode (map ptr ch) p s) ->
    (forall i t, ch !! i = Some t -> rep c t) -> rep c (TNode a p s ch).

(** The keys of the tree lie in [lo, lo + len). *)
Inductive t_in : Z -> Z -> ctree -> Prop :=
| in_nil lo len : t_in lo len TNil
| in_leaf lo len a k v : lo <= k < lo + len -> t_in lo len (TLeaf a k v)
| in_node lo len a p s ch :
    lo <= p -> p + 2 ^ (s + 4) <= lo + len -> p mod 2 ^ (s + 4) = 0 -> 0 <= s <= 60 /\ s mod 4 = 0 ->
    length ch = 16%nat ->
    (forall i t, ch !! i = Some t -> t_in (p + Z.of_nat i * 2 ^ s) (2 ^ s) t) ->
    t_in lo len (TNode a p s ch).

Definition nonnil (t : ctree) : bool := match t with TNil => false | _ => true end.

(** Every node has at least two children. *)
Inductive dense : ctree -> Prop :=
| dense_nil : dense TNil
| dense_leaf a k v : dense (TLeaf a k v)
| dense_node a p s ch :
    (2 <= length (List.filter nonnil ch))%nat -> (forall i t, ch !! i = Some t -> dense t) ->
    dense (TNode a p s ch).

Inductive has : ctree -> Z -> Z -> Prop :=
| has_leaf a k v : has (TLeaf a k v) k v
| has_node a p s ch i t k v : ch !! i = Some t -> has t k v -> has (TNode a p s ch) k v.

(** The addresses of the nodes and of the leaves. *)
Inductive inode : ctree -> Z -> Prop :=
| inode_here a p s ch : inode (TNode a p s ch) a
| inode_child a p s ch i t b : ch !! i = Some t -> inode t b -> inode (TNode a p s ch) b.
Inductive ileaf : ctree -> Z -> Prop :=
| ileaf_here a k v : ileaf (TLeaf a k v) a
| ileaf_child a p s ch i t b : ch !! i = Some t -> ileaf t b -> ileaf (TNode a p s ch) b.

Lemma ptr_zero c t : rep c t -> ptr t = 0 <-> t = TNil.
Proof.
  intros H. destruct H as [|a k v Ha _|a p s ch Ha _ _]; cbn [ptr]; split; try done.
  - intros E. by apply good_leaf in Ha as (_ & _ & Hn).
  - intros ->. destruct Ha. lia.
Qed.

Lemma map_ptr_child ch p s i t : ch !! i = Some t -> get_child (CNode (map ptr ch) p s) i = ptr t.
Proof. intros H. unfold get_child. cbn [child]. by rewrite list_lookup_fmap, H. Qed.

(** The interval of a child inside the one of its node. *)
Lemma child_interval lo len p s (i : nat) x :
  lo <= p -> p + 2 ^ (s + 4) <= lo + len -> 0 <= s -> (i < 16)%nat ->
  p + Z.of_nat i * 2 ^ s <= x < p + Z.of_nat i * 2 ^ s + 2 ^ s -> lo <= x < lo + len /\ p <= x < p + 2 ^ (s + 4).
Proof. intros H1 H2 Hs Hi Hx. destruct (pow_split s Hs) as [E H0]. nia. Qed.

(** Different children have no key in common. *)
Lemma child_disjoint p s (i j : nat) x :
  0 <= s -> p + Z.of_nat i * 2 ^ s <= x < p + Z.of_nat i * 2 ^ s + 2 ^ s ->
  p + Z.of_nat j * 2 ^ s <= x < p + Z.of_nat j * 2 ^ s + 2 ^ s -> i = j.
Proof. intros Hs H1 H2. destruct (pow_split s Hs) as [_ H0]. nia. Qed.

Lemma has_in lo len t k v : t_in lo len t -> has t k v -> lo <= k < lo + len.
Proof.
  intros Ht. revert k v. induction Ht as [|lo len a k0 v0 Hk|lo len a p s ch H1 H2 H3 H4 Hl Hch IH];
    intros k v Hh; inversion Hh as [|? ? ? ? i t ? ? Hi Ht]; subst; [done|].
  pose proof (IH i t Hi k v Ht) as Hin. apply lookup_lt_Some in Hi.
  eapply child_interval; [exact H1|exact H2|lia| |exact Hin]. lia.
Qed.

(** A node of the tree is in the heap and covers a part of the interval. *)
Lemma inode_in c lo len t a :
  rep c t -> t_in lo len t -> inode t a ->
  exists nd, cn_nodes c !! a = Some nd /\ 0 <= shift nd /\ lo <= path nd /\
    path nd + 2 ^ (shift nd + 4) <= lo + len.
Proof.
  intros Hr Ht. revert Hr. induction Ht as [|lo len a0 k0 v0 Hk|lo len a0 p s ch H1 H2 H3 H4 Hl Hch IH];
    intros Hr Ha; inversion Ha as [|? ? ? ? i t b Hi Hb]; subst.
  - inversion Hr; subst. eexists. split; [eassumption|]. cbn [shift path]. lia.
  - inversion Hr as [| |? ? ? ? Hg Hn Hc]; subst.
    destruct (IH i t Hi (Hc i t Hi) Hb) as (nd & Hnd & G1 & G2 & G3). exists nd. split; [done|].
    apply lookup_lt_Some in Hi. destruct (pow_split s ltac:(lia)) as [E H0]. split; [done|]. nia.
Qed.

Lemma inode_good c t a : rep c t -> inode t a -> good a.
Proof.
  intros Hr Ha. induction Ha as [a p s ch|a p s ch i t b Hi Hb IH]; inversion Hr; subst; eauto.
Qed.

Lemma ileaf_good c t a : rep c t -> ileaf t a -> good a.
Proof.
  intros Hr Ha. induction Ha as [a k v|a p s ch i t b Hi Hb IH]; inversion Hr; subst; eauto.
Qed.

Lemma ileaf_in c lo len t a :
  rep c t -> t_in lo len t -> ileaf t a ->
  exists l, cn_leaves c !! a = Some l /\ has t (lkey l) (lvalue l).
Proof.
  intros Hr Ht. revert Hr. induction Ht as [|lo len a0 k0 v0 Hk|lo len a0 p s ch H1 H2 H3 H4 Hl Hch IH];
    intros Hr Ha; inversion Ha as [|? ? ? ? i t b Hi Hb]; subst.
  - inversion Hr; subst. eexists. split; [eassumption|]. constructor.
  - inversion Hr as [| |? ? ? ? Hg Hn Hc]; subst.
    destruct (IH i t Hi (Hc i t Hi) Hb) as (l & Hll & G). exists l. split; [done|]. by econstructor.
Qed.

(** A node does not occur below itself. *)
Lemma not_below c lo len a p s ch i t :
  rep c (TNode a p s ch) -> t_in lo len (TNode a p s ch) -> ch !! i = Some t -> ~ inode t a.
Proof.
  intros Hr Ht Hi Ha. inversion Hr as [| |? ? ? ? Hg Hn Hc]; subst.
  inversion Ht as [| |? ? ? ? ? ? H1 H2 H3 H4 Hl Hch]; subst.
  destruct (inode_in c _ _ t a (Hc i t Hi) (Hch i t Hi) Ha) as (nd & Hnd & G1 & G2 & G3).
  rewrite Hn in Hnd. injection Hnd as <-. cbn [shift path] in *.
  destruct (pow_split s ltac:(lia)) as [E H0]. lia.
Qed.

(** Nor in two children of a node. *)
Lemma children_apart c lo len a p s ch i j ti tj b :
  rep c (TNode a p s ch) -> t_in lo len (TNode a p s ch) -> ch !! i = Some ti -> ch !! j = Some tj ->
  inode ti b -> inode tj b -> i = j.
Proof.
  intros Hr Ht Hi Hj Hb1 Hb2. inversion Hr as [| |? ? ? ? Hg Hn Hc]; subst.
  inversion Ht as [| |? ? ? ? ? ? H1 H2 H3 H4 Hl Hch]; subst.
  destruct (inode_in c _ _ ti b (Hc i ti Hi) (Hch i ti Hi) Hb1) as (nd & Hnd & G1 & G2 & G3).
  destruct (inode_in c _ _ tj b (Hc j tj Hj) (Hch j tj Hj) Hb2) as (nd' & Hnd' & K1 & K2 & K3).
  rewrite Hnd in Hnd'. injection Hnd' as <-.
  assert (0 < 2 ^ (shift nd + 4)) by (apply Z.pow_pos_nonneg; lia).
  eapply (child_disjoint p s i j (path nd)); lia.
Qed.

Lemma trie_frame c c' t :
  rep c t -> (forall a, inode t a -> cn_nodes c' !! a = cn_nodes c !! a) ->
  (forall a, ileaf t a -> cn_leaves c' !! a = cn_leaves c !! a) -> rep c' t.
Proof.
  intros Hr. induction Hr as [|a k v Hg Hl|a p s ch Hg Hn Hc IH]; intros Fn Fl.
  - constructor.
  - constructor; [done|]. rewrite Fl; [done|constructor].
  - constructor; [done| |].
    + rewrite Fn; [done|constructor].
    + intros i t Hi. apply (IH i t Hi); intros b Hb; [apply Fn|apply Fl]; by econstructor.
Qed.

(** ** Positions *)

(** The subtree at a path of child indices, with its interval. *)
Fixpoint sub_at (lo len : Z) (t : ctree) (pi : list nat) : option (Z * Z * ctree) :=
  match pi with
  | [] => Some (lo, len, t)
  | i :: pi =>
      match t with
      | TNode a p s ch => t' ← ch !! i; sub_at (p + Z.of_nat i * 2 ^ s) (2 ^ s) t' pi
      | _ => None
      end
  end.

Fixpoint put (t : ctree) (pi : list nat) (x : ctree) : ctree :=
  match pi with
  | [] => x
  | i :: pi =>
      match t with
      | TNode a p s ch =>
          TNode a p s (match ch !! i with Some t' => <[i := put t' pi x]> ch | None => ch end)
      | _ => t
      end
  end.

(** The slot that holds the pointer to the subtree. *)
Fixpoint slot_from (f : cn_ref) (t : ctree) (pi : list nat) : cn_ref :=
  match pi with
  | [] => f
  | i :: pi =>
      match t with
      | TNode a p s ch => match ch !! i with Some t' => slot_from (ChildRef a i) t' pi | None => f end
      | _ => f
      end
  end.

Lemma sub_in lo len t pi lo' len' u :
  t_in lo len t -> sub_at lo len t pi = Some (lo', len', u) ->
  t_in lo' len' u /\ lo <= lo' /\ lo' + len' <= lo + len.
Proof.
  revert lo len t. induction pi as [|i pi IH]; intros lo len t Ht E; cbn [sub_at] in E.
  - injection E as <- <- <-. split; [done|]. lia.
  - destruct t as [| |a p s ch]; try done. destruct (ch !! i) as [t'|] eqn:Hi; [|done]. cbn in E.
    inversion Ht as [| |? ? ? ? ? ? H1 H2 H3 H4 Hl Hch]; subst.
    destruct (IH _ _ _ (Hch i t' Hi) E) as (G1 & G2 & G3). split; [done|].
    apply lookup_lt_Some in Hi. destruct (pow_split s ltac:(lia)) as [Ep H0]. nia.
Qed.

Lemma sub_rep c lo len t pi lo' len' u :
  rep c t -> sub_at lo len t pi = Some (lo', len', u) -> rep c u.
Proof.
  revert lo len t. induction pi as [|i pi IH]; intros lo len t Ht E; cbn [sub_at] in E.
  - by injection E as <- <- <-.
  - destruct t as [| |a p s ch]; try done. destruct (ch !! i) as [t'|] eqn:Hi; [|done]. cbn in E.
    inversion Ht as [| |? ? ? ? Hg Hn Hc]; subst. eapply IH; [exact (Hc i t' Hi)|exact E].
Qed.

Lemma sub_dense lo len t pi lo' len' u :
  dense t -> sub_at lo len t pi = Some (lo', len', u) -> dense u.
Proof.
  revert lo len t. induction pi as [|i pi IH]; intros lo len t Ht E; cbn [sub_at] in E.
  - by injection E as <- <- <-.
  - destruct t as [| |a p s ch]; try done. destruct (ch !! i) as [t'|] eqn:Hi; [|done]. cbn in E.
    inversion Ht as [| |? ? ? ? Hd Hc]; subst. eapply IH; [exact (Hc i t' Hi)|exact E].
Qed.

(** ** Replacing a subtree *)

Lemma put_in lo len t pi lo' len' u x :
  t_in lo len t -> sub_at lo len t pi = Some (lo', len', u) -> t_in lo' len' x -> t_in lo len (put t pi x).
Proof.
  revert lo len t. induction pi as [|i pi IH]; intros lo len t Ht E Hx; cbn [sub_at put] in *.
  - by injection E as <- <- <-.
  - destruct t as [| |a p s ch]; try done. destruct (ch !! i) as [t'|] eqn:Hi; [|done]. cbn in E.
    inversion Ht as [| |? ? ? ? ? ? H1 H2 H3 H4 Hl Hch]; subst.
    constructor; try done; [by rewrite length_insert|]. intros j tj Hj.
    apply list_lookup_insert_Some in Hj as [(-> & <- & _)|[_ Hj]]; [|by apply Hch].
    exact (IH _ _ _ (Hch _ _ Hi) E Hx).
Qed.

Lemma put_ptr lo len t i pi lo' len' u x : sub_at lo len t (i :: pi) = Some (lo', len', u) -> ptr (put t (i :: pi) x) = ptr t.
Proof. by destruct t. Qed.

Lemma filter_insert_le (ch : list ctree) i t x :
  ch !! i = Some t -> nonnil x = true ->
  (length (List.filter nonnil ch) <= length (List.filter nonnil (<[i := x]> ch)))%nat.
Proof.
  intros Hi Hx. revert i Hi. induction ch as [|y ch IH]; intros [|i] Hi; try done.
  - cbn. rewrite Hx. destruct (nonnil y); cbn; lia.
  - change (<[S i:=x]> (y :: ch)) with (y :: <[i:=x]> ch). cbn [List.filter]. specialize (IH i Hi). destruct (nonnil y); cbn; lia.
Qed.

Lemma put_dense lo len t pi lo' len' u x :
  dense t -> sub_at lo len t pi = Some (lo', len', u) -> dense x -> nonnil x = true ->
  dense (put t pi x) /\ nonnil (put t pi x) = true.
Proof.
  intros Ht E Hx Hn. revert lo len t Ht E. induction pi as [|i pi IH]; intros lo len t Ht E; cbn [sub_at put] in *.
  - done.
  - destruct t as [| |a p s ch]; try done. destruct (ch !! i) as [t'|] eqn:Hi; [|done]. cbn in E.
    inversion Ht as [| |? ? ? ? Hd Hc]; subst. destruct (IH _ _ _ (Hc i t' Hi) E) as [G1 G2].
    split; [|done]. constructor; [pose proof (filter_insert_le ch i t' _ Hi G2); lia|].
    intros j tj Hj. apply list_lookup_insert_Some in Hj as [(-> & <- & _)|[_ Hj]]; [done|by eapply Hc].
Qed.

Lemma sub_has lo len t pi lo' len' u k v :
  t_in lo len t -> sub_at lo len t pi = Some (lo', len', u) ->
  has u k v <-> has t k v /\ lo' <= k < lo' + len'.
Proof.
  revert lo len t. induction pi as [|i pi IH]; intros lo len t Ht E; cbn [sub_at] in E.
  - injection E as <- <- <-. split; [|by intros []]. intros H. split; [done|by eapply has_in].
  - destruct t as [| |a p s ch]; try done. destruct (ch !! i) as [t'|] eqn:Hi; [|done]. cbn in E.
    inversion Ht as [| |? ? ? ? ? ? H1 H2 H3 H4 Hl Hch]; subst. specialize (IH _ _ _ (Hch i t' Hi) E).
    rewrite IH. pose proof (sub_in _ _ _ _ _ _ _ (Hch i t' Hi) E) as (_ & B1 & B2).
    split; (intros [Hh Hk]; split; [|done]); [by econstructor|].
    inversion Hh as [|? ? ? ? j tj ? ? Hj Hhj]; subst.
    pose proof (has_in _ _ _ _ _ (Hch j tj Hj) Hhj).
    assert (j = i) as -> by (eapply (child_disjoint p s j i k); lia). by simplify_eq.
Qed.

Lemma put_has lo len t pi lo' len' u x k v :
  t_in lo len t -> sub_at lo len t pi = Some (lo', len', u) -> t_in lo' len' x ->
  has (put t pi x) k v <-> (has t k v /\ ~ (lo' <= k < lo' + len')) \/ has x k v.
Proof.
  revert lo len t. induction pi as [|i pi IH]; intros lo len t Ht E Hx; cbn [sub_at put] in *.
  - injection E as <- <- <-. split; [intros H; by right|]. intros [[H Hn]|H]; [|done].
    exfalso. apply Hn. exact (has_in _ _ _ _ _ Ht H).
  - destruct t as [| |a p s ch]; try done. destruct (ch !! i) as [t'|] eqn:Hi; [|done]. cbn in E.
    inversion Ht as [| |? ? ? ? ? ? H1 H2 H3 H4 Hl Hch]; subst. specialize (IH _ _ _ (Hch i t' Hi) E Hx).
    pose proof (sub_in _ _ _ _ _ _ _ (Hch i t' Hi) E) as (_ & B1 & B2).
    assert (Hil := lookup_lt_Some _ _ _ Hi). split.
    + intros Hh. inversion Hh as [|? ? ? ? j tj ? ? Hj Hhj]; subst.
      apply list_lookup_insert_Some in Hj as [(-> & <- & _)|[Hne Hj]].
      * apply IH in Hhj as [[G1 G2]|G]; [left; split; [by econstructor|done]|by right].
      * left. split; [by econstructor|]. intros Hk. apply Hne.
        pose proof (has_in _ _ _ _ _ (Hch j tj Hj) Hhj). eapply (child_disjoint p s i j k); lia.
    + intros [[Hh Hk]|Hh].
      * inversion Hh as [|? ? ? ? j tj ? ? Hj Hhj]; subst. destruct (decide (j = i)) as [->|Hne].
        -- simplify_eq. econstructor; [by apply list_lookup_insert_eq|]. apply IH. by left.
        -- econstructor; [|exact Hhj]. by rewrite list_lookup_insert_ne.
      * econstructor; [by apply list_lookup_insert_eq|]. apply IH. by right.
Qed.

Lemma put_inode t pi x b : inode (put t pi x) b -> inode t b \/ inode x b.
Proof.
  revert t. induction pi as [|i pi IH]; intros t H; cbn [put] in H; [by right|].
  destruct t as [| |a p s ch]; [by left..|]. destruct (ch !! i) as [t'|] eqn:Hi; [|by left].
  inversion H as [|? ? ? ? j tj ? Hj Hb]; subst; [left; constructor|].
  apply list_lookup_insert_Some in Hj as [(-> & <- & _)|[_ Hj]]; [|left; by econstructor].
  apply IH in Hb as [Hb|Hb]; [left; by econstructor|by right].
Qed.

Lemma put_ileaf t pi x b : ileaf (put t pi x) b -> ileaf t b \/ ileaf x b.
Proof.
  revert t. induction pi as [|i pi IH]; intros t H; cbn [put] in H; [by right|].
  destruct t as [| |a p s ch]; [by left..|]. destruct (ch !! i) as [t'|] eqn:Hi; [|by left].
  inversion H as [|? ? ? ? j tj ? Hj Hb]; subst.
  apply list_lookup_insert_Some in Hj as [(-> & <- & _)|[_ Hj]]; [|left; by econstructor].
  apply IH in Hb as [Hb|Hb]; [left; by econstructor|by right].
Qed.

Lemma sub_inode lo len t pi lo' len' u b : sub_at lo len t pi = Some (lo', len', u) -> inode u b -> inode t b.
Proof.
  revert lo len t. induction pi as [|i pi IH]; intros lo len t E Hb; cbn [sub_at] in E.
  - by injection E as <- <- <-.
  - destruct t as [| |a p s ch]; try done. destruct (ch !! i) as [t'|] eqn:Hi; [|done]. cbn in E.
    econstructor; [exact Hi|]. by eapply IH.
Qed.

Lemma sub_ileaf lo len t pi lo' len' u b : sub_at lo len t pi = Some (lo', len', u) -> ileaf u b -> ileaf t b.
Proof.
  revert lo len t. induction pi as [|i pi IH]; intros lo len t E Hb; cbn [sub_at] in E.
  - by injection E as <- <- <-.
  - destruct t as [| |a p s ch]; try done. destruct (ch !! i) as [t'|] eqn:Hi; [|done]. cbn in E.
    econstructor; [exact Hi|]. by eapply IH.
Qed.

(** Storing the pointer of a new subtree in the slot of the old one. *)
Lemma store_put c lo len t pi lo' len' u x f :
  rep c t -> t_in lo len t -> sub_at lo len t pi = Some (lo', len', u) -> pi <> [] -> rep c x ->
  (forall a i, slot_from f t pi = ChildRef a i -> ~ inode x a) ->
  exists a i nd, slot_from f t pi = ChildRef a i /\ inode t a /\ ~ inode u a /\
    cn_nodes c !! a = Some nd /\ rep (write_node a (set_child i (ptr x) nd) c) (put t pi x).
Proof.
  revert lo len t f. induction pi as [|i pi IH]; intros lo len t f Hr Ht E Hne Hx Hslot; [done|].
  destruct t as [| |a p s ch]; try done. cbn [sub_at put slot_from] in *.
  destruct (ch !! i) as [t'|] eqn:Hi; [|done]. cbn in E. clear Hne.
  pose proof Hr as Hr'. inversion Hr' as [| |? ? ? ? Hg Hn Hc]; subst.
  pose proof Ht as Ht'. inversion Ht' as [| |? ? ? ? ? ? H1 H2 H3 H4 Hl Hch]; subst.
  destruct pi as [|j pi].
  - cbn in E. injection E as <- <- <-. exists a, i, (CNode (map ptr ch) p s). cbn [slot_from put] in *.
    split; [done|]. split; [constructor|]. split; [by eapply not_below|]. split; [done|].
    constructor; [done| |].
    + cbn. rewrite lookup_insert_eq. unfold set_child. cbn [child path shift].
      do 2 f_equal. symmetry. apply list_fmap_insert.
    + intros j tj Hj. apply list_lookup_insert_Some in Hj as [(-> & <- & _)|[_ Hj]].
      * eapply trie_frame; [exact Hx| |done]. intros b Hb. cbn. rewrite lookup_insert_ne; [done|].
        intros <-. by eapply Hslot.
      * eapply trie_frame; [exact (Hc j tj Hj)| |done]. intros b Hb. cbn. rewrite lookup_insert_ne; [done|].
        intros <-. by eapply not_below.
  - destruct (IH _ _ t' (ChildRef a i) (Hc i t' Hi) (Hch i t' Hi) E ltac:(done) Hx Hslot)
      as (b & i' & nd & S1 & S2 & S3 & S4 & S5). exists b, i', nd.
    split; [exact S1|]. split; [by econstructor|]. split; [done|]. split; [done|].
    assert (b <> a) as Hba by (intros ->; by eapply not_below).
    constructor; [done| |].
    + cbn [write_node set_cn_nodes cn_nodes]. rewrite lookup_insert_ne, Hn by done. do 2 f_equal.
      change (map ptr (<[i:=put t' (j :: pi) x]> ch)) with (ptr <$> <[i:=put t' (j :: pi) x]> ch).
      rewrite list_fmap_insert, (put_ptr _ _ t' j pi _ _ _ x E). symmetry. apply list_insert_id.
      rewrite list_lookup_fmap, Hi. done.
    + intros k tk Hk. apply list_lookup_insert_Some in Hk as [(-> & <- & _)|[Hki Hk]]; [exact S5|].
      eapply trie_frame; [exact (Hc k tk Hk)| |done]. intros d Hd. cbn. rewrite lookup_insert_ne; [done|].
      intros <-. apply Hki. by eapply children_apart.
Qed.
