(* ===== verification/CritnibPool.v ===== *)
(** * The free lists and the pending slots of a critnib

    Nodes and leaves are recycled in the same way: a removed cell waits in one of
    16 pending slots and then moves to a singly linked free list.  Everything
    here is stated once for both: [next a] is the link field of the cell at [a]
    when the cell exists, [used] are the cells of the tree. *)
From stdpp Require Import base numbers list list_numbers gmap.
From Stdlib Require Import ZArith Lia Bool.
From S2P Require Import Prelude Critnib CritnibFacts.

Inductive flist (next : Z -> option Z) : Z -> list Z -> Prop :=
| fl_nil : flist next 0 []
| fl_cons a b l : good a -> next a = Some b -> flist next b l -> flist next a (a :: l).

Lemma flist_frame next next' a l :
  (forall b, b ∈ l -> next' b = next b) -> flist next a l -> flist next' a l.
Proof.
  intros Hf H. induction H as [|a b l Hg Hn Hl IH]; [constructor|].
  econstructor; [done| |apply IH; intros x Hx; apply Hf; by right].
  rewrite Hf; [done|left].
Qed.

Lemma flist_head next a l : flist next a l -> a = 0 -> l = [].
Proof. intros H ->. inversion H as [|? ? ? Hg]; [done|]. destruct Hg. lia. Qed.

Lemma flist_good next a l b : flist next a l -> b ∈ l -> good b /\ is_Some (next b).
Proof.
  intros H. induction H as [|a c l Hg Hn Hl IH]; intros Hb; [inversion Hb|].
  apply elem_of_cons in Hb as [->|Hb]; [|by apply IH]. split; [done|by exists c].
Qed.

Record pool (next : Z -> option Z) (used : Z -> Prop) (head : Z) (fl pend : list Z) : Prop := Pool {
  po_list : flist next head fl;
  po_len : length pend = 16%nat;
  po_nodup : NoDup fl;
  po_fl : forall a, a ∈ fl -> ~ used a;
  po_pend : forall i a, pend !! i = Some a -> a <> 0 -> good a /\ is_Some (next a) /\ ~ used a /\ a ∉ fl;
  po_inj : forall i j a, pend !! i = Some a -> pend !! j = Some a -> a <> 0 -> i = j
}.

(** Cells outside the pool may change. *)
Lemma pool_frame next next' (used used' : Z -> Prop) head fl pend :
  pool next used head fl pend ->
  (forall a, a ∈ fl \/ a ∈ pend -> next' a = next a) ->
  (forall a, used' a -> used a \/ (a ∉ fl) /\ a ∉ pend) ->
  pool next' used' head fl pend.
Proof.
  intros [H1 H2 H3 H4 H5 H6] Hn Hu. constructor; try done.
  - eapply flist_frame; [|exact H1]. intros b Hb. apply Hn. by left.
  - intros a Ha Hua. destruct (Hu a Hua) as [Hx|[Hx _]]; [by eapply H4|done].
  - intros i a Hi Ha. destruct (H5 i a Hi Ha) as (G1 & G2 & G3 & G4).
    assert (a ∈ pend) as Hin by (by eapply list_elem_of_lookup_2).
    split; [done|]. rewrite Hn by (by right). split; [done|]. split; [|done].
    intros Hua. destruct (Hu a Hua) as [Hx|[_ Hx]]; done.
Qed.

(** Taking the first cell of the free list. *)
Lemma pool_take next used head fl pend a b :
  pool next used head fl pend -> head = a -> a <> 0 -> next a = Some b ->
  exists fl', fl = a :: fl' /\ pool next used b fl' pend /\ good a /\ ~ used a /\ (a ∉ fl') /\ a ∉ pend.
Proof.
  intros [H1 H2 H3 H4 H5 H6] -> Ha Hb. inversion H1 as [|? b' fl' Hg Hn Hl]; subst; [done|].
  rewrite Hb in Hn. injection Hn as <-. apply NoDup_cons in H3 as [Hnin H3].
  exists fl'. split; [done|]. split; [|split; [done|split; [|split; [done|]]]].
  - constructor; try done.
    + intros x Hx. apply H4. by right.
    + intros i x Hi Hx. destruct (H5 i x Hi Hx) as (G1 & G2 & G3 & G4).
      split; [done|]. split; [done|]. split; [done|]. intros Hin. apply G4. by right.
  - apply H4. left.
  - intros Hin. apply list_elem_of_lookup_1 in Hin as [i Hi]. destruct (H5 i a Hi Ha) as (_ & _ & _ & G). apply G. left.
Qed.

(** Putting a cell in front of the free list. *)
Lemma pool_give next next' used head fl pend a :
  pool next used head fl pend -> good a -> ~ used a -> a ∉ fl -> a ∉ pend ->
  next' a = Some head -> (forall b, b <> a -> next' b = next b) ->
  pool next' used a (a :: fl) pend.
Proof.
  intros [H1 H2 H3 H4 H5 H6] Hg Hu Hf Hp Ha Hn. constructor; try done.
  - econstructor; [done|exact Ha|]. eapply flist_frame; [|exact H1]. intros b Hb. apply Hn. by intros ->.
  - apply NoDup_cons. done.
  - intros x Hx. apply elem_of_cons in Hx as [->|Hx]; [done|by apply H4].
  - intros i x Hi Hx. destruct (H5 i x Hi Hx) as (G1 & G2 & G3 & G4).
    assert (x <> a) as Hxa by (intros ->; apply Hp; by eapply list_elem_of_lookup_2).
    split; [done|]. rewrite Hn by done. split; [done|]. split; [done|].
    intros Hin. apply elem_of_cons in Hin as [->|Hin]; done.
Qed.

(** Emptying a pending slot. *)
Lemma pool_unpend next used head fl pend d a :
  pool next used head fl pend -> pend !! d = Some a ->
  pool next used head fl (<[d := 0]> pend) /\ (a <> 0 -> good a /\ ~ used a /\ (a ∉ fl) /\ a ∉ <[d := 0]> pend).
Proof.
  intros [H1 H2 H3 H4 H5 H6] Hd. pose proof (lookup_lt_Some _ _ _ Hd) as Hlt.
  assert (forall i x, <[d := 0]> pend !! i = Some x -> x <> 0 -> pend !! i = Some x /\ i <> d) as Hsub.
  { intros i x Hi Hx. apply list_lookup_insert_Some in Hi as [(_ & <- & _)|[Hne Hi]]; [done|]. by split. }
  split.
  - constructor; try done.
    + by rewrite length_insert.
    + intros i x Hi Hx. destruct (Hsub i x Hi Hx) as [Hi' _]. by eapply H5.
    + intros i j x Hi Hj Hx. destruct (Hsub i x Hi Hx) as [Hi' _], (Hsub j x Hj Hx) as [Hj' _]. by eapply H6.
  - intros Ha. destruct (H5 d a Hd Ha) as (G1 & G2 & G3 & G4). split; [done|]. split; [done|]. split; [done|].
    intros Hin. apply list_elem_of_lookup_1 in Hin as [i Hi]. destruct (Hsub i a Hi Ha) as [Hi' Hne].
    apply Hne. by eapply H6.
Qed.

(** Filling an empty pending slot with a cell that left the tree. *)
Lemma pool_pend next used head fl pend d a :
  pool next used head fl pend -> pend !! d = Some 0 -> good a -> is_Some (next a) -> ~ used a -> a ∉ fl -> a ∉ pend ->
  pool next used head fl (<[d := a]> pend).
Proof.
  intros [H1 H2 H3 H4 H5 H6] Hd Hg Hs Hu Hf Hp. constructor; try done.
  - by rewrite length_insert.
  - intros i x Hi Hx. apply list_lookup_insert_Some in Hi as [(_ & <- & _)|[Hne Hi]]; [done|by eapply H5].
  - assert (forall i, <[d := a]> pend !! i = Some a -> i = d) as Hda.
    { intros i Hi. apply list_lookup_insert_Some in Hi as [(-> & _)|[_ Hi]]; [done|].
      exfalso. apply Hp. by eapply list_elem_of_lookup_2. }
    intros i j x Hi Hj Hx. destruct (decide (x = a)) as [->|Hxa].
    + rewrite (Hda i Hi), (Hda j Hj). done.
    + apply list_lookup_insert_Some in Hi as [(_ & <- & _)|[_ Hi]]; [done|].
      apply list_lookup_insert_Some in Hj as [(_ & <- & _)|[_ Hj]]; [done|]. by eapply H6.
Qed.
