(* ===== verification/CritnibOps.v ===== *)
(** * The operations of a critnib on its trie *)
From stdpp Require Import base numbers list list_numbers gmap.
From Stdlib Require Import ZArith Lia Bool.
From S2P Require Import Prelude Critnib CritnibFacts CritnibPool.

(** ** The invariant *)

Definition node_next c (a : Z) : option Z := nd ← cn_nodes c !! a; Some (get_child nd 0).
Definition leaf_next c (a : Z) : option Z := l ← cn_leaves c !! a; Some (lvalue l).

Record cn_inv c (T : ctree) (fn fl : list Z) : Prop := CnInv {
  cv_root : cn_root c = ptr T;
  cv_rep : rep c T;
  cv_in : t_in 0 (2 ^ 64) T;
  cv_dense : dense T;
  cv_len : forall a nd, cn_nodes c !! a = Some nd -> length (child nd) = 16%nat;
  cv_nodes : pool (node_next c) (inode T) (deleted_node c) fn (pending_del_nodes c);
  cv_leaves : pool (leaf_next c) (ileaf T) (deleted_leaf c) fl (pending_del_leaves c);
  cv_count : 0 <= remove_count c < 2 ^ 64
}.

(** ** Positions, continued *)

Lemma sub_snoc lo len t pi lo' len' a p s ch i u :
  sub_at lo len t pi = Some (lo', len', TNode a p s ch) -> ch !! i = Some u ->
  sub_at lo len t (pi ++ [i]) = Some (p + Z.of_nat i * 2 ^ s, 2 ^ s, u) /\
  forall f, slot_from f t (pi ++ [i]) = ChildRef a i.
Proof.
  revert lo len t. induction pi as [|j pi IH]; intros lo len t E Hi; cbn [sub_at app] in E.
  - injection E as -> -> ->. cbn [app sub_at slot_from]. rewrite Hi. done.
  - destruct t as [| |b q r ch']; try done. destruct (ch' !! j) as [t'|] eqn:Hj; [|done]. cbn in E.
    destruct (IH _ _ _ E Hi) as [G1 G2]. cbn [app sub_at slot_from]. rewrite Hj. cbn. split; [done|].
    intros f. apply G2.
Qed.

(** Intervals of positions are aligned powers of 16. *)
Definition dyadic (lo len : Z) : Prop := exists L, 0 <= L /\ L mod 4 = 0 /\ len = 2 ^ L /\ lo mod 2 ^ L = 0.

Lemma child_dyadic p s (i : nat) : 0 <= s <= 60 /\ s mod 4 = 0 -> p mod 2 ^ (s + 4) = 0 -> dyadic (p + Z.of_nat i * 2 ^ s) (2 ^ s).
Proof.
  intros [Hs Hs4] Hp. exists s. split; [lia|]. split; [done|]. split; [done|].
  destruct (pow_split s ltac:(lia)) as [E H0]. rewrite Z.mod_add by lia. apply Z.mod_divide in Hp as [q ->]; [|lia].
  rewrite E, Z.mul_assoc. apply Z.mod_mul. lia.
Qed.

Lemma sub_dyadic lo len t pi lo' len' u :
  t_in lo len t -> dyadic lo len -> sub_at lo len t pi = Some (lo', len', u) -> dyadic lo' len'.
Proof.
  revert lo len t. induction pi as [|i pi IH]; intros lo len t Ht Hd E; cbn [sub_at] in E.
  - by injection E as <- <- <-.
  - destruct t as [| |a p s ch]; try done. destruct (ch !! i) as [t'|] eqn:Hi; [|done]. cbn in E.
    inversion Ht as [| |? ? ? ? ? ? H1 H2 H3 H4 Hl Hch]; subst.
    eapply IH; [exact (Hch i t' Hi)| |exact E]. by apply child_dyadic.
Qed.

Lemma root_dyadic : dyadic 0 (2 ^ 64).
Proof. exists 64. repeat split; try lia; done. Qed.

(** Positions at which a key may be. *)
Definition at_key (T : ctree) (key : Z) (pi : list nat) (u : ctree) : Prop :=
  exists lo len, sub_at 0 (2 ^ 64) T pi = Some (lo, len, u) /\ lo <= key < lo + len.

Lemma at_key_has T key pi u v : t_in 0 (2 ^ 64) T -> at_key T key pi u -> has u key v <-> has T key v.
Proof.
  intros Ht (lo & len & E & Hk). rewrite (sub_has _ _ _ _ _ _ _ key v Ht E). intuition.
Qed.

(** The step of every descent: from a node to the child of the key's nibble. *)
Lemma at_key_child T key pi a p s ch :
  t_in 0 (2 ^ 64) T -> at_key T key pi (TNode a p s ch) -> p <= key < p + 2 ^ (s + 4) ->
  exists u, ch !! slice_index key s = Some u /\ at_key T key (pi ++ [slice_index key s]) u /\
    forall f, slot_from f T (pi ++ [slice_index key s]) = ChildRef a (slice_index key s).
Proof.
  intros Ht (lo & len & E & Hk) Hin. destruct (sub_in _ _ _ _ _ _ _ Ht E) as [Hn _].
  inversion Hn as [| |? ? ? ? ? ? H1 H2 H3 H4 Hl Hch]; subst.
  destruct (lookup_lt_is_Some_2 ch (slice_index key s)) as [u Hu]; [pose proof (slice_lt key s); lia|].
  exists u. split; [done|]. destruct (sub_snoc _ _ _ _ _ _ _ _ _ _ _ _ E Hu) as [G1 G2]. split; [|done].
  eexists _, _. split; [exact G1|]. apply slice_interval; [lia|done|done].
Qed.

Lemma at_key_rep c T key pi u : rep c T -> at_key T key pi u -> rep c u.
Proof. intros Hr (lo & len & E & _). by eapply sub_rep. Qed.

Lemma ptr_leaf c a k v : rep c (TLeaf a k v) ->
  is_leaf (ptr (TLeaf a k v)) = true /\ to_leaf (ptr (TLeaf a k v)) = a /\ (ptr (TLeaf a k v) =? 0) = false.
Proof.
  intros H. inversion H as [|? ? ? Hg _|]; subst. destruct (good_leaf a Hg) as (E1 & E2 & E3).
  cbn [ptr]. split; [done|]. split; [done|]. by apply Z.eqb_neq.
Qed.

Lemma ptr_node c a p s ch : rep c (TNode a p s ch) ->
  is_leaf (ptr (TNode a p s ch)) = false /\ (ptr (TNode a p s ch) =? 0) = false.
Proof.
  intros H. inversion H as [| |? ? ? ? Hg _ _]; subst. cbn [ptr]. split; [by apply good_even|].
  apply Z.eqb_neq. destruct Hg. lia.
Qed.

(** ** Insertion: the descent *)

Lemma node_range lo len a p s ch : t_in lo len (TNode a p s ch) -> 0 <= lo -> lo + len <= 2 ^ 64 ->
  0 <= p < 2 ^ 64 /\ 0 <= s <= 60 /\ s mod 4 = 0 /\ p mod 2 ^ (s + 4) = 0 /\ 2 ^ (s + 4) <= len.
Proof.
  intros H Hlo Hhi. inversion H as [| |? ? ? ? ? ? H1 H2 H3 H4 Hl Hch]; subst.
  assert (0 < 2 ^ (s + 4)) by (apply Z.pow_pos_nonneg; lia). repeat split; try done; lia.
Qed.

Definition stops_insert (key : Z) (u : ctree) : Prop :=
  match u with TNode _ p s _ => ~ (p <= key < p + 2 ^ (s + 4)) | _ => True end.

(** [prev] is the node that holds the slot. *)
Definition prev_ok c (T : ctree) key (pi : list nat) (prev : Z) : Prop :=
  pi = [] \/ exists nd, cn_nodes c !! prev = Some nd /\
    slot_from RootRef T pi = ChildRef prev (slice_index key (shift nd)).

Lemma insert_walk_spec c T key fuel pi u prev :
  rep c T -> t_in 0 (2 ^ 64) T -> 0 <= key < 2 ^ 64 -> at_key T key pi u -> prev_ok c T key pi prev ->
  (forall lo len, sub_at 0 (2 ^ 64) T pi = Some (lo, len, u) -> len <= 2 ^ (4 * Z.of_nat fuel)) ->
  exists pi' u' prev',
    insert_walk (S fuel) c key (slot_from RootRef T pi) prev (ptr u) =
      Some (slot_from RootRef T pi', prev', ptr u') /\
    at_key T key pi' u' /\ prev_ok c T key pi' prev' /\ stops_insert key u'.
Proof.
  intros Hr Ht Hkey. revert pi u prev. induction fuel as [|fuel IH]; intros pi u prev Hat Hprev Hlen.
  all: pose proof (at_key_rep c T key pi u Hr Hat) as Hu.
  all: destruct u as [|a k v|a p s ch].
  1, 4: exists pi, TNil, prev; done.
  1, 3: exists pi, (TLeaf a k v), prev; destruct (ptr_leaf c a k v Hu) as (E1 & _ & _);
    cbn [insert_walk]; rewrite E1, orb_true_r; done.
  - exfalso. destruct Hat as (lo & len & E & Hk). specialize (Hlen lo len E).
    destruct (sub_in _ _ _ _ _ _ _ Ht E) as (Hn & B1 & B2).
    destruct (node_range _ _ _ _ _ _ Hn) as (_ & Hs & _ & _ & Hw); [lia..|].
    destruct (pow_split s ltac:(lia)). simpl in Hlen. lia.
  - destruct (ptr_node c a p s ch Hu) as [E1 E2].
    remember (S fuel) as f1 eqn:Ef. cbn [insert_walk]. rewrite E1, E2. cbn [orb]. subst f1.
    inversion Hu as [| |? ? ? ? Hg Hn Hc]; subst. cbn [ptr]. rewrite Hn. cbn [mbind option_bind shift path].
    pose proof Hat as (lo & len & E & Hk). destruct (sub_in _ _ _ _ _ _ _ Ht E) as (Hin & B1 & B2).
    destruct (node_range _ _ _ _ _ _ Hin) as (Hp & Hs & Hs4 & Hpm & Hw); [lia..|].
    rewrite path_test by done. case_bool_decide as Hcase; [|by exists pi, (TNode a p s ch), prev].
    destruct (at_key_child T key pi a p s ch Ht Hat Hcase) as (u & Hi & Hat' & Hslot).
    rewrite (map_ptr_child _ _ _ _ _ Hi). specialize (IH (pi ++ [slice_index key s]) u a Hat').
    rewrite Hslot in IH. apply IH.
    + right. exists (CNode (map ptr ch) p s). cbn [shift]. by rewrite Hslot.
    + intros lo1 len1 E1'. destruct (sub_snoc _ _ _ _ _ _ _ _ _ _ _ _ E Hi) as [E3 _].
      rewrite E3 in E1'. injection E1' as <- <-. specialize (Hlen lo len E).
      apply Z.pow_le_mono_r; [lia|].
      assert (2 ^ (s + 4) <= 2 ^ (4 * Z.of_nat (S fuel))) as Hpw by lia.
      apply Z.pow_le_mono_r_iff in Hpw; lia.
Qed.

(** ** Allocation *)

(** A leaf or a node that is allocated but neither in the tree nor in the pool. *)
Record loose_leaf c (T : ctree) (fn fl : list Z) (k : Z) (l : critnib_leaf) : Prop := LooseLeaf {
  ll_inv : cn_inv c T fn fl;
  ll_good : good k;
  ll_cell : cn_leaves c !! k = Some l;
  ll_tree : ~ ileaf T k;
  ll_list : k ∉ fl;
  ll_pend : k ∉ pending_del_leaves c
}.

Definition fresh {A} (h : gmap Z A) (a : Z) : Prop := a = 0 \/ (good a /\ h !! a = None).

(** Writing a cell that is in no structure. *)
Lemma write_leaf_inv c T fn fl k l :
  cn_inv c T fn fl -> ~ ileaf T k -> k ∉ fl -> k ∉ pending_del_leaves c ->
  cn_inv (write_leaf k l c) T fn fl.
Proof.
  intros [H1 H2 H3 H4 H5 H6 H7 H8] Ht Hf Hp. constructor; try done.
  - eapply trie_frame; [exact H2|done|]. intros a Ha. cbn. rewrite lookup_insert_ne; [done|by intros ->].
  - eapply pool_frame; [exact H7| |by left]. intros a Ha. unfold leaf_next. cbn.
    rewrite lookup_insert_ne; [done|]. intros ->. by destruct Ha.
Qed.

Lemma fresh_leaf_outside c T fn fl k :
  cn_inv c T fn fl -> good k -> cn_leaves c !! k = None ->
  ~ ileaf T k /\ (k ∉ fl) /\ k ∉ pending_del_leaves c.
Proof.
  intros [H1 H2 H3 H4 H5 H6 H7 H8] Hg Hn. split; [|split].
  - intros Hi. destruct (ileaf_in c _ _ T k H2 H3 Hi) as (l & Hl & _). congruence.
  - intros Hi. destruct (flist_good _ _ _ _ (po_list _ _ _ _ _ H7) Hi) as [_ [b Hb]].
    unfold leaf_next in Hb. by rewrite Hn in Hb.
  - intros Hi. apply list_elem_of_lookup_1 in Hi as [i Hi].
    destruct (po_pend _ _ _ _ _ H7 i k Hi) as (_ & [b Hb] & _); [destruct Hg; lia|].
    unfold leaf_next in Hb. by rewrite Hn in Hb.
Qed.

Lemma alloc_leaf_spec c T fn fl ml l :
  cn_inv c T fn fl -> fresh (cn_leaves c) ml ->
  exists k c1, alloc_leaf ml c = Some (k, c1) /\
    ((k = 0 /\ c1 = c /\ ml = 0 /\ deleted_leaf c = 0) \/
     (k <> 0 /\ exists fl1, loose_leaf (write_leaf k l c1) T fn fl1 k l /\
        cn_nodes c1 = cn_nodes c /\ cn_root c1 = cn_root c /\ deleted_node c1 = deleted_node c)).
Proof.
  intros Hinv Hml. unfold alloc_leaf. destruct (Z.eqb_spec (deleted_leaf c) 0) as [Hd|Hd].
  - exists ml, c. split; [done|]. destruct Hml as [->|[Hg Hn]]; [by left|right].
    split; [destruct Hg; lia|]. exists fl. destruct (fresh_leaf_outside c T fn fl ml Hinv Hg Hn) as (G1 & G2 & G3).
    split; [|done]. constructor; try done; [by apply write_leaf_inv|]. cbn. apply lookup_insert_eq.
  - pose proof Hinv as [H1 H2 H3 H4 H5 H6 H7 H8].
    assert (exists lf, cn_leaves c !! deleted_leaf c = Some lf) as [lf Hlf].
    { pose proof (po_list _ _ _ _ _ H7) as Hl. inversion Hl as [|a b l' Hg Hn Hl']; subst; [congruence|].
      unfold leaf_next in Hn. destruct (cn_leaves c !! deleted_leaf c) as [lf|]; [by exists lf|done]. }
    rewrite Hlf. cbn [mbind option_bind].
    destruct (pool_take _ _ _ _ _ (deleted_leaf c) (lvalue lf) H7 eq_refl Hd) as (fl' & -> & P1 & P2 & P3 & P4 & P5).
    { unfold leaf_next. by rewrite Hlf. }
    eexists _, _. split; [done|]. right. split; [done|]. exists fl'. split; [|done].
    constructor; try done; [|cbn; apply lookup_insert_eq]. apply write_leaf_inv; try done.
    constructor; try done. eapply trie_frame; [exact H2|done..].
Qed.

Lemma free_leaf_spec c T fn fl k l :
  loose_leaf c T fn fl k l -> exists c', free_leaf c k = Some c' /\ cn_inv c' T fn (k :: fl).
Proof.
  intros [[H1 H2 H3 H4 H5 H6 H7 H8] Hg Hc Ht Hf Hp]. unfold free_leaf.
  destruct (Z.eqb_spec k 0); [destruct Hg; lia|]. rewrite Hc. cbn [mbind option_bind].
  eexists. split; [done|]. constructor; try done.
  - eapply trie_frame; [exact H2|done|]. intros a Ha. cbn. rewrite lookup_insert_ne; [done|by intros ->].
  - eapply pool_give; try done.
    + unfold leaf_next. cbn. by rewrite lookup_insert_eq.
    + intros b Hb. unfold leaf_next. cbn. by rewrite lookup_insert_ne.
Qed.

Lemma write_node_inv c T fn fl m nd :
  cn_inv c T fn fl -> length (child nd) = 16%nat -> ~ inode T m -> m ∉ fn -> m ∉ pending_del_nodes c ->
  cn_inv (write_node m nd c) T fn fl.
Proof.
  intros [G1 G2 G3 G4 G5 G6 G7 G8] Hlen Ht Hf Hp. constructor; try done.
  - eapply trie_frame; [exact G2| |done]. intros a Ha. cbn. rewrite lookup_insert_ne; [done|by intros ->].
  - intros a nd' Ha. cbn in Ha. apply lookup_insert_Some in Ha as [[_ <-]|[_ Ha]]; [done|by eapply G5].
  - eapply pool_frame; [exact G6| |by left]. intros a Ha. unfold node_next. cbn.
    rewrite lookup_insert_ne; [done|]. intros ->. by destruct Ha.
Qed.

Lemma fresh_node_outside c T fn fl m :
  cn_inv c T fn fl -> good m -> cn_nodes c !! m = None ->
  ~ inode T m /\ (m ∉ fn) /\ m ∉ pending_del_nodes c.
Proof.
  intros [H1 H2 H3 H4 H5 H6 H7 H8] Hg Hn. split; [|split].
  - intros Hi. destruct (inode_in c _ _ T m H2 H3 Hi) as (l & Hl & _). congruence.
  - intros Hi. destruct (flist_good _ _ _ _ (po_list _ _ _ _ _ H6) Hi) as [_ [b Hb]].
    unfold node_next in Hb. by rewrite Hn in Hb.
  - intros Hi. apply list_elem_of_lookup_1 in Hi as [i Hi].
    destruct (po_pend _ _ _ _ _ H6 i m Hi) as (_ & [b Hb] & _); [destruct Hg; lia|].
    unfold node_next in Hb. by rewrite Hn in Hb.
Qed.

Lemma alloc_node_spec c T fn fl mn nd' :
  cn_inv c T fn fl -> fresh (cn_nodes c) mn -> length (child nd') = 16%nat ->
  exists m c1, alloc_node mn c = Some (m, c1) /\ cn_leaves c1 = cn_leaves c /\
    pending_del_leaves c1 = pending_del_leaves c /\
    ((m = 0 /\ c1 = c /\ mn = 0) \/
     (m <> 0 /\ good m /\ ~ inode T m /\ exists fn1, (m ∉ fn1) /\ (m ∉ pending_del_nodes c1) /\
        cn_inv (write_node m nd' c1) T fn1 fl)).
Proof.
  intros Hinv Hmn Hlen. unfold alloc_node. destruct (Z.eqb_spec (deleted_node c) 0) as [Hd|Hd].
  - exists mn, c. do 3 (split; [done|]). destruct Hmn as [->|[Hg Hn]]; [by left|right].
    destruct (fresh_node_outside c T fn fl mn Hinv Hg Hn) as (N1 & N2 & N3).
    split; [destruct Hg; lia|]. do 2 (split; [done|]). exists fn. do 2 (split; [done|]). by apply write_node_inv.
  - pose proof Hinv as [H1 H2 H3 H4 H5 H6 H7 H8].
    assert (exists nd, cn_nodes c !! deleted_node c = Some nd) as [nd Hnd].
    { pose proof (po_list _ _ _ _ _ H6) as Hl. inversion Hl as [|a b l' Hg Hn Hl']; subst; [congruence|].
      unfold node_next in Hn. destruct (cn_nodes c !! deleted_node c) as [nd|]; [by exists nd|done]. }
    rewrite Hnd. cbn [mbind option_bind].
    destruct (pool_take _ _ _ _ _ (deleted_node c) (get_child nd 0) H6 eq_refl Hd) as (fn' & -> & P1 & P2 & P3 & P4 & P5).
    { unfold node_next. by rewrite Hnd. }
    eexists _, _. do 3 (split; [done|]). right. do 3 (split; [done|]). exists fn'. do 2 (split; [done|]).
    apply write_node_inv; try done. constructor; try done. eapply trie_frame; [exact H2|done..].
Qed.

(** ** Replacing a subtree of a critnib *)

Lemma slot_parent c lo len t pi lo' len' u f a i :
  rep c t -> t_in lo len t -> sub_at lo len t pi = Some (lo', len', u) -> pi <> [] ->
  slot_from f t pi = ChildRef a i -> inode t a /\ ~ inode u a.
Proof.
  revert lo len t f. induction pi as [|j pi IH]; intros lo len t f Hr Ht E Hne Hs; [done|].
  destruct t as [| |b p s ch]; try done. cbn [sub_at slot_from] in *.
  destruct (ch !! j) as [t'|] eqn:Hj; [|done]. cbn in E. clear Hne.
  pose proof Hr as Hr'. inversion Hr' as [| |? ? ? ? Hg Hn Hc]; subst.
  pose proof Ht as Ht'. inversion Ht' as [| |? ? ? ? ? ? H1 H2 H3 H4 Hl Hch]; subst.
  destruct pi as [|k pi].
  - cbn in E, Hs. injection E as <- <- <-. injection Hs as <- <-. split; [constructor|]. by eapply not_below.
  - destruct (IH _ _ t' (ChildRef b j) (Hc j t' Hj) (Hch j t' Hj) E ltac:(done) Hs) as [G1 G2].
    split; [by econstructor|done].
Qed.

Lemma attach_gen c T fn fl pi lo len u x :
  cn_inv c T fn fl -> sub_at 0 (2 ^ 64) T pi = Some (lo, len, u) ->
  rep c x -> t_in lo len x -> dense (put T pi x) ->
  (forall a, inode x a -> inode u a \/ (~ inode T a /\ (a ∉ fn) /\ a ∉ pending_del_nodes c)) ->
  (forall a, ileaf x a -> ileaf u a \/ ((a ∉ fl) /\ a ∉ pending_del_leaves c)) ->
  exists c', cn_store (slot_from RootRef T pi) (ptr x) c = Some c' /\ cn_inv c' (put T pi x) fn fl /\
    pending_del_nodes c' = pending_del_nodes c /\ pending_del_leaves c' = pending_del_leaves c /\
    cn_leaves c' = cn_leaves c /\ (forall a, ~ inode T a -> cn_nodes c' !! a = cn_nodes c !! a).
Proof.
  intros [H1 H2 H3 H4 H5 H6 H7 H8] E Rx Ix D' Fn Fl. pose proof (put_in _ _ _ _ _ _ _ x H3 E Ix) as I'.
  assert (forall a, inode (put T pi x) a -> inode T a \/ ((a ∉ fn) /\ a ∉ pending_del_nodes c)) as Un.
  { intros a Ha. apply put_inode in Ha as [Ha|Ha]; [by left|].
    destruct (Fn a Ha) as [Hu|(_ & G)]; [left; by eapply sub_inode|by right]. }
  assert (forall a, ileaf (put T pi x) a -> ileaf T a \/ ((a ∉ fl) /\ a ∉ pending_del_leaves c)) as Ul.
  { intros a Ha. apply put_ileaf in Ha as [Ha|Ha]; [by left|].
    destruct (Fl a Ha) as [Hu|G]; [left; by eapply sub_ileaf|by right]. }
  destruct (decide (pi = [])) as [->|Hpi].
  - cbn [slot_from put cn_store] in *. eexists. split; [done|]. split; [|done]. constructor; try done.
    + eapply trie_frame; [exact Rx|done..].
    + eapply pool_frame; [exact H6|done|]. intros a Ha. destruct (Un a Ha); auto.
    + eapply pool_frame; [exact H7|done|]. intros a Ha. destruct (Ul a Ha); auto.
  - destruct (store_put c _ _ T pi _ _ u x RootRef H2 H3 E Hpi Rx) as (a & i & nd & S1 & S2 & S3 & S4 & S5).
    { intros a i Hs Ha. destruct (slot_parent c _ _ T pi _ _ u RootRef a i H2 H3 E Hpi Hs) as [G1 G2].
      destruct (Fn a Ha) as [Hu|(Hu & _)]; done. }
    rewrite S1. cbn [cn_store]. rewrite S4. cbn [mbind option_bind]. eexists. split; [done|].
    split; [|split; [done|split; [done|split; [done|]]]].
    + constructor; try done.
      * cbn [write_node set_cn_nodes cn_root]. rewrite H1. destruct pi; [done|]. symmetry. by eapply put_ptr.
      * intros b nd' Hb. cbn in Hb. apply lookup_insert_Some in Hb as [[_ <-]|[_ Hb]]; [|by eapply H5].
        unfold set_child. cbn. rewrite length_insert. by eapply H5.
      * eapply pool_frame; [exact H6| |].
        -- intros b Hb. unfold node_next. cbn. rewrite lookup_insert_ne; [done|]. intros ->.
           destruct Hb as [Hb|Hb]; [by eapply (po_fl _ _ _ _ _ H6)|].
           apply list_elem_of_lookup_1 in Hb as [j Hj].
           destruct (inode_good c T b H2 S2) as [Hb0 _].
           destruct (po_pend _ _ _ _ _ H6 j b Hj) as (_ & _ & G & _); [lia|done].
        -- intros b Hb. destruct (Un b Hb); auto.
      * eapply pool_frame; [exact H7|done|]. intros b Hb. destruct (Ul b Hb); auto.
    + intros b Hb. cbn. rewrite lookup_insert_ne; [done|by intros ->].
Qed.

Lemma attach c T fn fl pi lo len u x :
  cn_inv c T fn fl -> sub_at 0 (2 ^ 64) T pi = Some (lo, len, u) ->
  rep c x -> t_in lo len x -> dense x -> nonnil x = true ->
  (forall a, inode x a -> inode u a \/ (~ inode T a /\ (a ∉ fn) /\ a ∉ pending_del_nodes c)) ->
  (forall a, ileaf x a -> ileaf u a \/ ((a ∉ fl) /\ a ∉ pending_del_leaves c)) ->
  exists c', cn_store (slot_from RootRef T pi) (ptr x) c = Some c' /\ cn_inv c' (put T pi x) fn fl /\
    pending_del_nodes c' = pending_del_nodes c /\ pending_del_leaves c' = pending_del_leaves c /\
    cn_leaves c' = cn_leaves c /\ (forall a, ~ inode T a -> cn_nodes c' !! a = cn_nodes c !! a).
Proof.
  intros Hi E Rx Ix Dx Nx. apply (attach_gen c T fn fl pi lo len u x Hi E Rx Ix).
  exact (proj1 (put_dense _ _ _ _ _ _ _ x (cv_dense _ _ _ _ Hi) E Dx Nx)).
Qed.
