(* ===== verification/CritnibInsert.v ===== *)
(** * Insertion into a critnib *)
From stdpp Require Import base numbers list list_numbers gmap.
From Stdlib Require Import ZArith Lia Bool.
From S2P Require Import Prelude Critnib CritnibFacts CritnibPool CritnibOps.

(** ** Splitting an edge *)

Definition node_key (u : ctree) : Z :=
  match u with TNil => 0 | TLeaf _ k _ => k | TNode _ p _ _ => p end.

Definition split_children (u : ctree) (k key value sh : Z) : list ctree :=
  <[slice_index (node_key u) sh := u]> (<[slice_index key sh := TLeaf k key value]> (replicate 16 TNil)).
Definition split_tree (m : Z) (u : ctree) (k key value : Z) : ctree :=
  let sh := split_shift (node_key u) key in
  TNode m (Z.land key (path_mask sh)) sh (split_children u k key value sh).

Lemma div_div_pow x a b : 0 <= a <= b -> x / 2 ^ b = x / 2 ^ a / 2 ^ (b - a).
Proof.
  intros H. pose proof (Z.pow_pos_nonneg 2 a ltac:(lia) ltac:(lia)).
  pose proof (Z.pow_pos_nonneg 2 (b - a) ltac:(lia) ltac:(lia)). rewrite Z.div_div by lia.
  rewrite <- Z.pow_add_r by lia. do 2 f_equal. lia.
Qed.

Lemma div_mono_eq x y a b : 0 <= a <= b -> x / 2 ^ a = y / 2 ^ a -> x / 2 ^ b = y / 2 ^ b.
Proof. intros H E. rewrite !(div_div_pow _ a b) by done. by rewrite E. Qed.

Lemma pow_multiple a b x : 0 <= a <= b -> x mod 2 ^ b = 0 -> x mod 2 ^ a = 0.
Proof.
  intros H Hx. apply Z.mod_divide in Hx as [q ->]; [|apply Z.pow_nonzero; lia].
  replace b with (b - a + a) by lia. rewrite Z.pow_add_r, Z.mul_assoc by lia.
  apply Z.mod_mul, Z.pow_nonzero; lia.
Qed.

(** Of two multiples of [w], the smaller one is at least [w] below the other. *)
Lemma multiples_apart w x y : 0 < w -> x mod w = 0 -> y mod w = 0 -> x < y -> x + w <= y.
Proof.
  intros Hw Hx Hy Hlt. apply Z.mod_divide in Hx as [q ->]; [|lia]. apply Z.mod_divide in Hy as [r ->]; [|lia].
  assert (q < r) by (eapply (Z.mul_lt_mono_pos_r w); lia). nia.
Qed.

Lemma mod4_apart a b : a mod 4 = 0 -> b mod 4 = 0 -> a < b -> a + 4 <= b.
Proof. intros. by apply multiples_apart. Qed.

(** Two keys of an aligned interval part below its size. *)
Lemma split_below lo len x y :
  dyadic lo len -> 0 <= x < 2 ^ 64 -> 0 <= y < 2 ^ 64 -> lo <= x < lo + len -> lo <= y < lo + len -> x <> y ->
  let sh := split_shift x y in let P := 2 ^ (sh + 4) * (y / 2 ^ (sh + 4)) in
  lo <= P /\ P + 2 ^ (sh + 4) <= lo + len /\ P <= x < P + 2 ^ (sh + 4) /\ P <= y < P + 2 ^ (sh + 4).
Proof.
  intros (L & HL & HL4 & -> & Hlo) Rx Ry Hx Hy Hne sh P.
  destruct (split_spec x y Rx Ry Hne) as (Hs & Hs4 & Eq & Nq). fold sh in Hs, Hs4, Eq, Nq.
  assert (0 < 2 ^ L) as HwL by (apply Z.pow_pos_nonneg; lia).
  assert (sh < L) as Hlt.
  { destruct (Z.lt_ge_cases sh L) as [|Hge]; [done|]. exfalso. apply Nq. apply (div_mono_eq x y L sh); [lia|].
    apply (Z.mul_cancel_l _ _ (2 ^ L)); [lia|].
    rewrite (proj2 (div_interval x lo _ HwL Hlo) ltac:(lia)), (proj2 (div_interval y lo _ HwL Hlo) ltac:(lia)). done. }
  pose proof (mod4_apart sh L Hs4 HL4 Hlt) as HshL.
  assert (0 < 2 ^ (sh + 4)) as Hw by (apply Z.pow_pos_nonneg; lia).
  assert (P mod 2 ^ (sh + 4) = 0) as HP by (unfold P; rewrite Z.mul_comm; apply Z.mod_mul; lia).
  assert (P <= y < P + 2 ^ (sh + 4)) as Py by (by apply div_interval).
  assert (P <= x < P + 2 ^ (sh + 4)) as Px by (apply div_interval; [done..|]; unfold P; by rewrite Eq).
  pose proof (pow_multiple (sh + 4) L lo ltac:(lia) Hlo) as Hlo'.
  assert ((lo + 2 ^ L) mod 2 ^ (sh + 4) = 0) as Hhi.
  { rewrite Z.add_mod, Hlo', (pow_multiple (sh + 4) L (2 ^ L)) by (try lia; apply Z.mod_same; lia).
    apply Z.mod_0_l. lia. }
  split; [|split; [|done]].
  - destruct (Z.lt_ge_cases P lo) as [Hbad|]; [|lia].
    pose proof (multiples_apart _ P lo Hw HP Hlo' Hbad). lia.
  - apply multiples_apart; [done..|]. lia.
Qed.

Lemma slices_differ x y :
  0 <= x < 2 ^ 64 -> 0 <= y < 2 ^ 64 -> x <> y ->
  slice_index x (split_shift x y) <> slice_index y (split_shift x y).
Proof.
  intros Rx Ry Hne E. destruct (split_spec x y Rx Ry Hne) as (Hs & Hs4 & Eq & Nq).
  set (sh := split_shift x y) in *. apply Nq. rewrite !slice_index_div in E by lia.
  rewrite !(div_div_pow _ sh (sh + 4)) in Eq by lia. replace (sh + 4 - sh) with 4 in Eq by lia.
  change (2 ^ 4) with 16 in Eq. pose proof (Z.div_mod (x / 2 ^ sh) 16 ltac:(lia)).
  pose proof (Z.div_mod (y / 2 ^ sh) 16 ltac:(lia)).
  pose proof (Z.mod_pos_bound (x / 2 ^ sh) 16 ltac:(lia)). pose proof (Z.mod_pos_bound (y / 2 ^ sh) 16 ltac:(lia)). lia.
Qed.

Lemma split_child_cases u k key value sh i t :
  split_children u k key value sh !! i = Some t ->
  (i = slice_index (node_key u) sh /\ t = u) \/ (i = slice_index key sh /\ t = TLeaf k key value) \/ t = TNil.
Proof.
  unfold split_children. intros H. apply list_lookup_insert_Some in H as [(-> & <- & _)|[_ H]]; [by left|].
  apply list_lookup_insert_Some in H as [(-> & <- & _)|[_ H]]; [by right; left|].
  apply lookup_replicate_1 in H as [-> _]. by right; right.
Qed.

Lemma node_key_in lo len u : t_in lo len u -> nonnil u = true -> lo <= node_key u < lo + len.
Proof.
  intros Hu Hnn. destruct u as [|a k0 v0|a p s ch]; [done|by inversion Hu|].
  inversion Hu as [| |? ? ? ? ? ? H1 H2 H3 H4 Hl Hch]; subst. cbn [node_key].
  assert (0 < 2 ^ (s + 4)) by (apply Z.pow_pos_nonneg; lia). lia.
Qed.

Section Split.
Context (lo len : Z) (u : ctree) (key value k m : Z).
Hypothesis Hd : dyadic lo len.
Hypothesis Hlo : 0 <= lo.
Hypothesis Hhi : lo + len <= 2 ^ 64.
Hypothesis Hu : t_in lo len u.
Hypothesis Hnn : nonnil u = true.
Hypothesis Hk : lo <= key < lo + len.
Hypothesis Hstop : stops_insert key u.
Hypothesis Hne : node_key u <> key.

Lemma split_in : t_in lo len (split_tree m u k key value).
Proof using All.
  pose proof (node_key_in lo len u Hu Hnn) as Hp. set (p := node_key u) in *.
  assert (0 <= p < 2 ^ 64) as Rp by lia. assert (0 <= key < 2 ^ 64) as Rk by lia.
  destruct (split_below lo len p key Hd Rp Rk Hp Hk Hne) as (B1 & B2 & Bp & Bk).
  destruct (split_spec p key Rp Rk Hne) as (Hs & Hs4 & Eq & Nq).
  unfold split_tree. fold p. set (sh := split_shift p key) in *.
  rewrite path_mask_land by done. set (P := 2 ^ (sh + 4) * (key / 2 ^ (sh + 4))) in *.
  assert (0 < 2 ^ (sh + 4)) as Hw by (apply Z.pow_pos_nonneg; lia).
  assert (P mod 2 ^ (sh + 4) = 0) as HP by (unfold P; rewrite Z.mul_comm; apply Z.mod_mul; lia).
  constructor; try done; [unfold split_children; rewrite !length_insert; apply length_replicate|].
  intros i t Hi. apply split_child_cases in Hi as [[-> ->]|[[-> ->]| ->]]; [| |constructor].
  2: { constructor. apply slice_interval; [lia|done|done]. }
  pose proof (slice_interval p P sh ltac:(lia) HP Bp) as Hi. cbv zeta in Hi. fold p.
  set (B := P + Z.of_nat (slice_index p sh) * 2 ^ sh) in *.
  destruct u as [|a k0 v0|a q s ch]; [done|by constructor|]. cbn [node_key] in p. subst p.
  inversion Hu as [| |? ? ? ? ? ? H1 H2 H3 H4 Hl Hch]; subst. constructor; try done; [lia|].
  assert (s < sh) as Hlt.
  { destruct (Z.lt_ge_cases s sh) as [|Hge]; [done|]. exfalso. apply Hstop.
    apply (div_interval key q (2 ^ (s + 4))); [apply Z.pow_pos_nonneg; lia|done|].
    rewrite <- (div_mono_eq q key (sh + 4) (s + 4)) by (lia || done).
    symmetry. apply Z.div_exact; [apply Z.pow_nonzero; lia|done]. }
  pose proof (mod4_apart s sh (proj2 H4) Hs4 Hlt) as Hssh.
  apply multiples_apart; [apply Z.pow_pos_nonneg; lia|done| |lia].
  assert (forall x, x mod 2 ^ sh = 0 -> x mod 2 ^ (s + 4) = 0) as Hm by (intros x; apply pow_multiple; lia).
  apply Hm. destruct (pow_split sh ltac:(lia)) as [Ep H0].
  unfold B. replace (P + Z.of_nat (slice_index q sh) * 2 ^ sh + 2 ^ sh)
    with (P + (Z.of_nat (slice_index q sh) + 1) * 2 ^ sh) by lia.
  rewrite Z.mod_add by lia. by apply (pow_multiple sh (sh + 4)); [lia|].
Qed.
End Split.

Lemma filter_one (l : list ctree) i x :
  l !! i = Some x -> nonnil x = true -> (1 <= length (List.filter nonnil l))%nat.
Proof.
  revert i. induction l as [|y l IH]; intros [|i] Hi Hx; try done.
  - injection Hi as ->. cbn. rewrite Hx. cbn. lia.
  - cbn [List.filter]. specialize (IH i Hi Hx). destruct (nonnil y); cbn; lia.
Qed.

Lemma filter_two (l : list ctree) i j x y :
  i <> j -> l !! i = Some x -> l !! j = Some y -> nonnil x = true -> nonnil y = true ->
  (2 <= length (List.filter nonnil l))%nat.
Proof.
  revert i j. induction l as [|z l IH]; intros [|i] [|j] Hij Hi Hj Hx Hy; try done; cbn [List.filter].
  - injection Hi as ->. rewrite Hx. pose proof (filter_one l j y Hj Hy). cbn. lia.
  - injection Hj as ->. rewrite Hy. pose proof (filter_one l i x Hi Hx). cbn. lia.
  - assert (i <> j) as Hn by congruence. specialize (IH i j Hn Hi Hj Hx Hy). destruct (nonnil z); cbn; lia.
Qed.

Lemma split_lookup u k key value :
  let sh := split_shift (node_key u) key in
  0 <= node_key u < 2 ^ 64 -> 0 <= key < 2 ^ 64 -> node_key u <> key ->
  split_children u k key value sh !! slice_index (node_key u) sh = Some u /\
  split_children u k key value sh !! slice_index key sh = Some (TLeaf k key value) /\
  slice_index (node_key u) sh <> slice_index key sh.
Proof.
  intros sh Rp Rk Hne. pose proof (slices_differ _ _ Rp Rk Hne) as Hd. fold sh in Hd.
  pose proof (slice_lt (node_key u) sh). pose proof (slice_lt key sh). unfold split_children.
  split; [|split; [|done]].
  - apply list_lookup_insert_eq. rewrite length_insert, length_replicate. lia.
  - rewrite list_lookup_insert_ne by done. apply list_lookup_insert_eq. rewrite length_replicate. lia.
Qed.

Lemma split_dense u k m key value :
  0 <= node_key u < 2 ^ 64 -> 0 <= key < 2 ^ 64 -> node_key u <> key -> dense u -> nonnil u = true ->
  dense (split_tree m u k key value).
Proof.
  intros Rp Rk Hne Du Hnn. destruct (split_lookup u k key value Rp Rk Hne) as (L1 & L2 & L3).
  constructor; [by eapply (filter_two _ _ _ _ _ L3 L1 L2)|].
  intros i t Hi. apply split_child_cases in Hi as [[_ ->]|[[_ ->]| ->]]; [done|constructor..].
Qed.

Lemma split_has u k m key value k' v' :
  0 <= node_key u < 2 ^ 64 -> 0 <= key < 2 ^ 64 -> node_key u <> key ->
  has (split_tree m u k key value) k' v' <-> has u k' v' \/ (k' = key /\ v' = value).
Proof.
  intros Rp Rk Hne. destruct (split_lookup u k key value Rp Rk Hne) as (L1 & L2 & L3). split.
  - intros H. inversion H as [|? ? ? ? i t ? ? Hi Ht]; subst.
    apply split_child_cases in Hi as [[_ ->]|[[_ ->]| ->]]; [by left| |by inversion Ht].
    inversion Ht; subst. by right.
  - intros [H|[-> ->]]; econstructor; [exact L1|done|exact L2|constructor].
Qed.

Lemma split_inode u k m key value a : inode (split_tree m u k key value) a -> a = m \/ inode u a.
Proof.
  intros H. inversion H as [|? ? ? ? i t ? Hi Ht]; subst; [by left|].
  apply split_child_cases in Hi as [[_ ->]|[[_ ->]| ->]]; [by right|by inversion Ht..].
Qed.

Lemma split_ileaf u k m key value a : ileaf (split_tree m u k key value) a -> a = k \/ ileaf u a.
Proof.
  intros H. inversion H as [|? ? ? ? i t ? Hi Ht]; subst.
  apply split_child_cases in Hi as [[_ ->]|[[_ ->]| ->]]; [by right| |by inversion Ht].
  inversion Ht; subst. by left.
Qed.

(** The node that critnib_insert builds. *)
Definition split_node (u : ctree) (k key : Z) : critnib_node :=
  let sh := split_shift (node_key u) key in
  CNode (<[slice_index (node_key u) sh := ptr u]> (<[slice_index key sh := Z.lor k 1]> (replicate SLNODES 0)))
    (Z.land key (path_mask sh)) sh.

Lemma split_rep c u k m key value :
  rep c u -> good m -> good k -> cn_nodes c !! m = Some (split_node u k key) ->
  cn_leaves c !! k = Some (CLeaf key value) -> rep c (split_tree m u k key value).
Proof.
  intros Hu Hm Hk Hn Hl. constructor; [done| |].
  - rewrite Hn. unfold split_node, split_children. do 2 f_equal.
    change (map ptr) with (fmap (M := list) ptr). by rewrite !list_fmap_insert, fmap_replicate.
  - intros i t Hi. apply split_child_cases in Hi as [[_ ->]|[[_ ->]| ->]]; [done|by constructor|constructor].
Qed.

(** ** The operation *)

Definition inserted (T T' : ctree) (key value : Z) : Prop :=
  (forall v, ~ has T key v) /\ forall k v, has T' k v <-> has T k v \/ (k = key /\ v = value).

Lemma put_inserted T pi lo len u x key value :
  t_in 0 (2 ^ 64) T -> sub_at 0 (2 ^ 64) T pi = Some (lo, len, u) -> t_in lo len x -> lo <= key < lo + len ->
  inserted u x key value -> inserted T (put T pi x) key value.
Proof.
  intros Ht E Hx Hk [Hno Hhas]. split.
  - intros v Hv. apply (Hno v). by rewrite (sub_has _ _ _ _ _ _ _ key v Ht E).
  - intros k v. rewrite (put_has _ _ _ _ _ _ _ x k v Ht E Hx), Hhas, (sub_has _ _ _ _ _ _ _ k v Ht E).
    destruct (decide (lo <= k < lo + len)); tauto.
Qed.

Lemma hang_leaf c T fn fl k key value pi :
  loose_leaf c T fn fl k (CLeaf key value) -> at_key T key pi TNil ->
  exists c', cn_store (slot_from RootRef T pi) (Z.lor k 1) c = Some c' /\
    exists T', cn_inv c' T' fn fl /\ inserted T T' key value.
Proof.
  intros [Hinv Hg Hc Ht Hf Hp] (lo & len & E & Hk). pose proof Hinv as [H1 H2 H3 H4 H5 H6 H7 H8].
  assert (t_in lo len (TLeaf k key value)) as Hx by (by constructor).
  destruct (attach c T fn fl pi lo len TNil (TLeaf k key value) Hinv E) as (c' & S & I & _); try done.
  - by constructor.
  - constructor.
  - intros a Ha. inversion Ha.
  - intros a Ha. inversion Ha; subst. by right.
  - exists c'. split; [exact S|]. eexists. split; [exact I|]. eapply put_inserted; try done.
    split; [intros v Hv; inversion Hv|]. intros k0 v0. split.
    + intros Hh. inversion Hh; subst. by right.
    + intros [Hh|[-> ->]]; [inversion Hh|constructor].
Qed.

Lemma hang_split c T fn fl k key value pi u m fn1 c1 :
  loose_leaf c T fn fl k (CLeaf key value) -> at_key T key pi u -> nonnil u = true ->
  stops_insert key u -> node_key u <> key ->
  good m -> ~ inode T m -> m ∉ fn1 -> m ∉ pending_del_nodes c1 ->
  cn_leaves c1 = cn_leaves c -> pending_del_leaves c1 = pending_del_leaves c ->
  cn_inv (write_node m (split_node u k key) c1) T fn1 fl ->
  exists c', cn_store (slot_from RootRef T pi) m (write_node m (split_node u k key) c1) = Some c' /\
    exists T', cn_inv c' T' fn1 fl /\ inserted T T' key value.
Proof.
  intros [_ Hg Hc Hlt Hf Hp] (lo & len & E & Hk) Hnn Hstop Hne Hm Hmt Hmf Hmp El Ep Hinv.
  pose proof Hinv as [H1 H2 H3 H4 H5 H6 H7 H8].
  destruct (sub_in _ _ _ _ _ _ _ H3 E) as (Hu & B1 & B2).
  pose proof (node_key_in lo len u Hu Hnn) as Hnk. assert (0 <= node_key u < 2 ^ 64) as Rp by lia.
  assert (0 <= key < 2 ^ 64) as Rk by lia. pose proof (sub_dyadic _ _ _ _ _ _ _ H3 root_dyadic E) as Hd.
  assert (t_in lo len (split_tree m u k key value)) as Hx by (by apply split_in).
  destruct (attach (write_node m (split_node u k key) c1) T fn1 fl pi lo len u (split_tree m u k key value) Hinv E)
    as (c' & S & I & _); try done.
  - apply split_rep; try done; [by eapply sub_rep|cbn; apply lookup_insert_eq|]. cbn. by rewrite El.
  - apply split_dense; try done. by eapply sub_dense.
  - intros a Ha. apply split_inode in Ha as [->|Ha]; [by right|by left].
  - intros a Ha. apply split_ileaf in Ha as [->|Ha]; [right|by left]. cbn. by rewrite Ep.
  - exists c'. split; [exact S|]. eexists. split; [exact I|]. eapply put_inserted; try done. split.
    + intros v Hv. destruct u as [|a k0 v0|a p s ch]; [done|by inversion Hv|].
      inversion Hu as [| |? ? ? ? ? ? G1 G2 G3 G4 G5 G6]; subst. apply Hstop.
      eapply has_in; [|exact Hv]. constructor; try done; lia.
    + intros k0 v0. by apply split_has.
Qed.

(** What critnib_insert makes of the trie. *)
Definition insert_outcome (T T' : ctree) (ml mn key value r : Z) : Prop :=
  (r = CN_EEXIST /\ T' = T /\ exists v, has T key v) \/
  (r = CN_ENOMEM /\ T' = T /\ (ml = 0 \/ mn = 0)) \/
  (r = 0 /\ inserted T T' key value).

Lemma stop_key c T key pi u :
  rep c T -> t_in 0 (2 ^ 64) T -> at_key T key pi u -> stops_insert key u -> nonnil u = true ->
  (if is_leaf (ptr u) then l ← cn_leaves c !! to_leaf (ptr u); Some (lkey l)
   else nd ← cn_nodes c !! ptr u; Some (path nd)) = Some (node_key u) /\
  (ptr u =? 0) = false /\ (node_key u = key -> exists v, has T key v).
Proof.
  intros Hr Ht Hat Hstop Hnn. pose proof (at_key_rep c T key pi u Hr Hat) as Hu.
  destruct u as [|a k v|a p s ch]; [done| |].
  - destruct (ptr_leaf c a k v Hu) as (-> & -> & ->). inversion Hu as [|? ? ? Hg Hl|]; subst. rewrite Hl.
    split; [done|]. split; [done|]. cbn [node_key]. intros ->. exists v.
    apply (at_key_has T key pi _ v Ht Hat). constructor.
  - destruct (ptr_node c a p s ch Hu) as [-> ->]. inversion Hu as [| |? ? ? ? Hg Hn Hc]; subst.
    cbn [ptr]. rewrite Hn. split; [done|]. split; [done|]. cbn [node_key]. intros ->. exfalso. apply Hstop.
    destruct Hat as (lo & len & E & _). destruct (sub_in _ _ _ _ _ _ _ Ht E) as (Hn' & B1 & B2).
    destruct (node_range _ _ _ _ _ _ Hn') as (_ & Hs & _); [lia..|].
    pose proof (Z.pow_pos_nonneg 2 (s + 4) ltac:(lia) ltac:(lia)). lia.
Qed.

Lemma at_key_root T key : 0 <= key < 2 ^ 64 -> at_key T key [] T.
Proof. intros Hk. exists 0, (2 ^ 64). split; [done|lia]. Qed.

(** The rest of critnib_insert, from the end of the descent. *)
Lemma insert_tail c T fn fl k key value pi u mn :
  loose_leaf c T fn fl k (CLeaf key value) -> at_key T key pi u -> nonnil u = true -> stops_insert key u ->
  fresh (cn_nodes c) mn ->
  exists r c' T' fn' fl',
    (let at_ := Z.lxor (node_key u) key in
     if at_ =? 0 then c ← free_leaf c (to_leaf (Z.lor k 1)); Some (CN_EEXIST, c) else
     let sh := Z.land (util_mssb_index64 at_) (u8 (Z.lnot (SLICE - 1))) in
     '(m, c) ← alloc_node mn c;
     if m =? 0 then c ← free_leaf c (to_leaf (Z.lor k 1)); Some (CN_ENOMEM, c) else
     let ch := <[slice_index (node_key u) sh := ptr u]> (<[slice_index key sh := Z.lor k 1]> (replicate SLNODES 0)) in
     let c := write_node m (CNode ch (Z.land key (path_mask sh)) sh) c in
     c ← cn_store (slot_from RootRef T pi) m c;
     Some (0, c)) = Some (r, c') /\
    cn_inv c' T' fn' fl' /\ forall ml, insert_outcome T T' ml mn key value r.
Proof.
  intros Hll Hat Hnn Hstop Hmn. pose proof Hll as [[H1 H2 H3 H4 H5 H6 H7 H8] Hg Hc Hlt Hf Hp].
  destruct (stop_key c T key pi u H2 H3 Hat Hstop Hnn) as (_ & _ & Hex).
  destruct (good_leaf k Hg) as (_ & -> & _). destruct (free_leaf_spec c T fn fl k _ Hll) as (cf & Ef & If).
  cbv zeta. destruct (Z.eqb_spec (Z.lxor (node_key u) key) 0) as [Hx|Hx].
  - apply Z.lxor_eq in Hx. rewrite Ef. eexists _, _, _, _, _. split; [done|]. split; [exact If|].
    left. split; [done|]. split; [done|]. by apply Hex.
  - assert (node_key u <> key) as Hne by (intros E; apply Hx; rewrite E; apply Z.lxor_nilpotent).
    destruct (alloc_node_spec c T fn fl mn (split_node u k key) (ll_inv _ _ _ _ _ _ Hll) Hmn)
      as (m & c1 & -> & El & Ep & [(-> & -> & Emn)|(Hm0 & Hmg & Hmt & fn1 & Hmf & Hmp & Hi)]).
    { unfold split_node. cbn. by rewrite !length_insert. }
    + cbn [mbind option_bind]. rewrite Z.eqb_refl, Ef. eexists _, _, _, _, _. split; [done|].
      split; [exact If|]. right. left. auto.
    + cbn [mbind option_bind]. destruct (Z.eqb_spec m 0); [done|].
      destruct (hang_split c T fn fl k key value pi u m fn1 c1) as (c' & S & T' & I' & Hins); try done.
      unfold split_node, split_shift in S. rewrite S. cbn [mbind option_bind].
      eexists _, _, _, _, _. split; [done|]. split; [exact I'|]. right. by right.
Qed.

Lemma trie_insert c T fn fl fuel ml mn key value :
  cn_inv c T fn fl -> fresh (cn_leaves c) ml -> fresh (cn_nodes c) mn -> 0 <= key < 2 ^ 64 ->
  (17 <= fuel)%nat ->
  exists r c' T' fn' fl', critnib_insert fuel ml mn c key value = Some (r, c') /\ cn_inv c' T' fn' fl' /\
    insert_outcome T T' ml mn key value r.
Proof.
  intros Hinv Hml Hmn Hkey Hfuel. unfold critnib_insert.
  destruct (alloc_leaf_spec c T fn fl ml (CLeaf key value) Hinv Hml)
    as (k & c1 & -> & [(-> & -> & Eml & _)|(Hk & fl1 & Hll & En & Er & _)]); cbn [mbind option_bind].
  { rewrite Z.eqb_refl. eexists _, _, _, _, _. split; [done|]. split; [exact Hinv|]. right. left. auto. }
  destruct (Z.eqb_spec k 0) as [|_]; [done|]. set (c2 := write_leaf k (CLeaf key value) c1) in *.
  assert (fresh (cn_nodes c2) mn) as Hmn2 by (unfold c2; cbn; by rewrite En).
  pose proof Hll as [[H1 H2 H3 H4 H5 H6 H7 H8] _ _ _ _ _].
  pose proof (at_key_root T key Hkey) as Hroot.
  destruct (Z.eqb_spec (cn_root c2) 0) as [Hr0|Hr0].
  { rewrite H1, (ptr_zero c2 T H2) in Hr0. subst T.
    destruct (hang_leaf c2 TNil fn fl1 k key value [] Hll Hroot) as (c' & S & T' & I' & Hins).
    cbn in S. injection S as <-. eexists _, _, _, _, _. split; [done|]. split; [exact I'|]. right. by right. }
  destruct fuel as [|fuel]; [lia|].
  destruct (insert_walk_spec c2 T key fuel [] T (cn_root c2) H2 H3 Hkey Hroot) as (pi & u & prev & W & Hat & Hprev & Hstop).
  { by left. }
  { intros lo len [= <- <-]. apply Z.pow_le_mono_r; lia. }
  cbn [slot_from] in W. rewrite <- H1 in W. rewrite W. cbn [mbind option_bind].
  destruct (nonnil u) eqn:Hnn.
  - destruct (stop_key c2 T key pi u H2 H3 Hat Hstop Hnn) as (-> & -> & _). cbn [mbind option_bind].
    destruct (insert_tail c2 T fn fl1 k key value pi u mn Hll Hat Hnn Hstop Hmn2) as (r & c' & T' & fn' & fl' & E & I' & O).
    eexists _, _, _, _, _. split; [exact E|]. split; [exact I'|]. apply O.
  - destruct u; try done. cbn [ptr]. rewrite Z.eqb_refl.
    destruct (hang_leaf c2 T fn fl1 k key value pi Hll Hat) as (c' & S & T' & I' & Hins).
    destruct Hprev as [->|(nd & Hnd & Hslot)].
    { destruct Hat as (lo & len & E & _). cbn in E. injection E as _ _ ->. done. }
    rewrite Hnd. cbn [mbind option_bind]. rewrite <- Hslot, S. cbn [mbind option_bind].
    eexists _, _, _, _, _. split; [done|]. split; [exact I'|]. right. by right.
Qed.
