(* ===== verification/CritnibRemove.v ===== *)
(** * Removal from a critnib *)
From stdpp Require Import base numbers list list_numbers gmap.
From Stdlib Require Import ZArith Lia Bool.
From S2P Require Import Prelude Critnib CritnibFacts CritnibPool CritnibOps CritnibInsert.

(** ** Recycling a pending slot *)

Lemma free_node_spec c T fn fl n :
  cn_inv c T fn fl ->
  (n <> 0 -> good n /\ is_Some (node_next c n) /\ ~ inode T n /\ (n ∉ fn) /\ n ∉ pending_del_nodes c) ->
  exists c' fn', free_node c n = Some c' /\ cn_inv c' T fn' fl /\ cn_leaves c' = cn_leaves c /\
    cn_root c' = cn_root c /\ pending_del_nodes c' = pending_del_nodes c /\
    pending_del_leaves c' = pending_del_leaves c.
Proof.
  intros Hinv Hn. unfold free_node. destruct (Z.eqb_spec n 0) as [->|Hn0]; [by exists c, fn|].
  destruct (Hn Hn0) as (Hg & [b Hb] & Ht & Hf & Hp). unfold node_next in Hb.
  destruct (cn_nodes c !! n) as [nd|] eqn:Hc; [|done]. cbn [mbind option_bind].
  pose proof Hinv as [H1 H2 H3 H4 H5 H6 H7 H8].
  assert (length (child nd) = 16%nat) as Hlen by (by eapply H5).
  eexists _, (n :: fn). split; [done|]. split; [|done]. constructor; try done.
  - eapply trie_frame; [exact H2| |done]. intros a Ha. cbn. rewrite lookup_insert_ne; [done|by intros ->].
  - intros a nd' Ha. cbn in Ha. apply lookup_insert_Some in Ha as [[_ <-]|[_ Ha]]; [|by eapply H5].
    unfold set_child. cbn [child]. by rewrite length_insert.
  - eapply pool_give; try done.
    + unfold node_next. cbn. rewrite lookup_insert_eq. cbn. unfold get_child, set_child. cbn [child].
      rewrite list_lookup_insert_eq by lia. done.
    + intros a Ha. unfold node_next. cbn. by rewrite lookup_insert_ne.
Qed.

Lemma free_leaf_pool c T fn fl k :
  cn_inv c T fn fl ->
  (k <> 0 -> good k /\ is_Some (leaf_next c k) /\ ~ ileaf T k /\ (k ∉ fl) /\ k ∉ pending_del_leaves c) ->
  exists c' fl', free_leaf c k = Some c' /\ cn_inv c' T fn fl' /\
    cn_root c' = cn_root c /\ pending_del_nodes c' = pending_del_nodes c /\
    pending_del_leaves c' = pending_del_leaves c.
Proof.
  intros Hinv Hk. destruct (Z.eqb_spec k 0) as [->|Hk0]; [by exists c, fl|].
  destruct (Hk Hk0) as (Hg & [b Hb] & Ht & Hf & Hp). unfold leaf_next in Hb.
  destruct (cn_leaves c !! k) as [l|] eqn:Hc; [|done].
  destruct (free_leaf_spec c T fn fl k l) as (c' & E & I); [by constructor|].
  exists c', (k :: fl). split; [done|]. split; [done|]. revert E. unfold free_leaf.
  destruct (k =? 0); [intros [= <-]; done|]. rewrite Hc. cbn. intros [= <-]. done.
Qed.

(** The code frees the cells of the slot before it clears it. *)
Lemma free_pending pn pl rc c n k :
  (c ← free_node c n; c ← free_leaf c k; Some (set_pending pn pl rc c)) =
  (c ← free_node (set_pending pn pl rc c) n; free_leaf c k).
Proof.
  unfold free_node, free_leaf. destruct (n =? 0); cbn; [|destruct (cn_nodes c !! n); [|done]; cbn];
    (destruct (k =? 0); [done|]; cbn; by destruct (cn_leaves c !! k)).
Qed.

Lemma free_keeps_pending c n c' :
  free_node c n = Some c' -> pending_del_nodes c' = pending_del_nodes c /\ pending_del_leaves c' = pending_del_leaves c.
Proof.
  unfold free_node. destruct (n =? 0); [by intros [= <-]|].
  destruct (cn_nodes c !! n); [|done]. cbn. by intros [= <-].
Qed.

Lemma free_leaf_keeps_pending c n c' :
  free_leaf c n = Some c' -> pending_del_nodes c' = pending_del_nodes c /\ pending_del_leaves c' = pending_del_leaves c.
Proof.
  unfold free_leaf. destruct (n =? 0); [by intros [= <-]|].
  destruct (cn_leaves c !! n); [|done]. cbn. by intros [= <-].
Qed.

Lemma recycle_spec c T fn fl :
  cn_inv c T fn fl ->
  exists del c' fn' fl', recycle_pending c = Some (del, c') /\ cn_inv c' T fn' fl' /\
    cn_root c' = cn_root c /\ pending_del_nodes c' !! del = Some 0 /\ pending_del_leaves c' !! del = Some 0.
Proof.
  intros Hinv. pose proof Hinv as [H1 H2 H3 H4 H5 H6 H7 H8]. unfold recycle_pending.
  set (del := Z.to_nat (remove_count c mod DELETED_LIFE)). set (rc := u64 (remove_count c + 1)).
  assert (del < 16)%nat as Hdel.
  { unfold del, DELETED_LIFE. pose proof (Z.mod_pos_bound (remove_count c) 16 ltac:(lia)). lia. }
  destruct (lookup_lt_is_Some_2 (pending_del_nodes c) del) as [pn Hpn]; [rewrite (po_len _ _ _ _ _ H6); lia|].
  destruct (lookup_lt_is_Some_2 (pending_del_leaves c) del) as [pl Hpl]; [rewrite (po_len _ _ _ _ _ H7); lia|].
  rewrite Hpn, Hpl. cbn [mbind option_bind].
  destruct (pool_unpend _ _ _ _ _ del pn H6 Hpn) as [P6 Gn].
  destruct (pool_unpend _ _ _ _ _ del pl H7 Hpl) as [P7 Gl].
  set (c0 := set_pending (<[del := 0]> (pending_del_nodes c)) (<[del := 0]> (pending_del_leaves c)) rc c).
  assert (cn_inv c0 T fn fl) as I0.
  { constructor; try done; [by eapply trie_frame|]. unfold c0, rc, u64. cbn. apply Z.mod_pos_bound. lia. }
  destruct (free_node_spec c0 T fn fl pn I0) as (c1 & fn1 & E1 & I1 & L1 & R1 & Q1 & Q2).
  { intros Hn. destruct (Gn Hn) as (G1 & G2 & G3 & G4). split; [done|].
    split; [by apply (po_pend _ _ _ _ _ H6 del pn)|done]. }
  destruct (free_leaf_pool c1 T fn1 fl pl I1) as (c2 & fl2 & E2 & I2 & R2 & Q3 & Q4).
  { intros Hn. destruct (Gl Hn) as (G1 & G2 & G3 & G4). split; [done|]. unfold leaf_next. rewrite L1, Q2.
    split; [by apply (po_pend _ _ _ _ _ H7 del pl)|done]. }
  exists del, c2, fn1, fl2.
  assert ((c ← free_node c pn; c ← free_leaf c pl; Some (set_pending (pending_del_nodes c0) (pending_del_leaves c0) rc c)) = Some c2) as Hc2.
  { rewrite free_pending. change (set_pending _ _ _ c) with c0. rewrite E1. cbn. exact E2. }
  split; [|split; [done|split; [by rewrite R2, R1|rewrite Q3, Q4, Q1, Q2; split; apply list_lookup_insert_eq]]].
  - destruct (free_node c pn) as [d1|] eqn:D1; [|done]. cbn [mbind option_bind] in *.
    destruct (free_leaf d1 pl) as [d2|] eqn:D2; [|done]. cbn [mbind option_bind] in *.
    apply free_keeps_pending in D1 as [A1 A2]. apply free_leaf_keeps_pending in D2 as [A3 A4].
    injection Hc2 as <-. rewrite A3, A4, A1, A2. done.
  - rewrite (po_len _ _ _ _ _ H6). lia.
  - rewrite (po_len _ _ _ _ _ H7). lia.
Qed.

(** ** The descent *)

(** Removal and lookup do not test the paths: a key that is below a node is in
    the child of its nibble. *)
Lemma has_child lo len a p s ch key u v :
  t_in lo len (TNode a p s ch) -> ch !! slice_index key s = Some u ->
  has (TNode a p s ch) key v <-> has u key v.
Proof.
  intros Ht Hu. split; [|intros H; by econstructor]. intros H.
  inversion Ht as [| |? ? ? ? ? ? H1 H2 H3 H4 Hl Hch]; subst.
  inversion H as [|? ? ? ? i t ? ? Hi Hh]; subst.
  pose proof (has_in _ _ _ _ _ (Hch i t Hi) Hh) as Hk.
  assert (slice_index key s = i) as E.
  { eapply slice_unique; [lia|exact H3| |exact Hk]. apply lookup_lt_Some in Hi. lia. }
  rewrite E in Hu. by simplify_eq.
Qed.

Lemma child_exists lo len a p s ch key :
  t_in lo len (TNode a p s ch) -> exists u, ch !! slice_index key s = Some u.
Proof.
  intros Ht. inversion Ht as [| |? ? ? ? ? ? H1 H2 H3 H4 Hl Hch]; subst.
  apply lookup_lt_is_Some_2. pose proof (slice_lt key s). lia.
Qed.

(** A position whose subtree has the key if the whole trie has it. *)
Definition leads (T : ctree) (key : Z) (pi : list nat) (lo len : Z) (u : ctree) : Prop :=
  sub_at 0 (2 ^ 64) T pi = Some (lo, len, u) /\ forall v, has T key v <-> has u key v.

Lemma leads_root T key : leads T key [] 0 (2 ^ 64) T.
Proof. by split. Qed.

Lemma leads_child T key pi lo len a p s ch :
  t_in 0 (2 ^ 64) T -> leads T key pi lo len (TNode a p s ch) ->
  exists u, ch !! slice_index key s = Some u /\
    leads T key (pi ++ [slice_index key s]) (p + Z.of_nat (slice_index key s) * 2 ^ s) (2 ^ s) u /\
    forall f, slot_from f T (pi ++ [slice_index key s]) = ChildRef a (slice_index key s).
Proof.
  intros Ht [E Hh]. destruct (sub_in _ _ _ _ _ _ _ Ht E) as (Hn & B1 & B2).
  destruct (child_exists _ _ _ _ _ _ key Hn) as [u Hu]. exists u. split; [done|].
  destruct (sub_snoc _ _ _ _ _ _ _ _ _ _ _ _ E Hu) as [G1 G2].
  split; [split; [done|]|done]. intros v. rewrite Hh. by eapply has_child.
Qed.

Lemma remove_walk_spec c T key fuel np n pi lo len a p s ch :
  rep c T -> t_in 0 (2 ^ 64) T -> leads T key pi lo len (TNode a p s ch) ->
  s < 4 * Z.of_nat fuel ->
  exists np' n' kn, remove_walk (S fuel) c key np n (slot_from RootRef T pi) a = Some (np', n', kn) /\
    ((kn = 0 /\ forall v, ~ has T key v) \/
     exists pi' lo' len' p' s' ch' b k v,
       np' = slot_from RootRef T pi' /\ leads T key pi' lo' len' (TNode n' p' s' ch') /\
       ch' !! slice_index key s' = Some (TLeaf b k v) /\ kn = ptr (TLeaf b k v)).
Proof.
  intros Hr Ht. revert np n pi lo len a p s ch.
  induction fuel as [|fuel IH]; intros np n pi lo len a p s ch Hl Hs.
  all: pose proof (proj1 Hl) as E; pose proof (sub_rep c _ _ _ _ _ _ _ Hr E) as Hu;
    destruct (sub_in _ _ _ _ _ _ _ Ht E) as (Hin & B1 & B2);
    destruct (node_range _ _ _ _ _ _ Hin) as (_ & Hs60 & _ & _ & _); [lia..|].
  { lia. }
  destruct (ptr_node c a p s ch Hu) as [E1 _]. inversion Hu as [| |? ? ? ? Hg Hn Hc]; subst.
  destruct (leads_child T key pi lo len a p s ch Ht Hl) as (u & Hi & Hl' & Hslot).
  remember (S fuel) as f1 eqn:Ef. cbn [remove_walk]. cbn [ptr] in E1. rewrite E1, Hn. cbn [mbind option_bind shift].
  rewrite (map_ptr_child _ _ _ _ _ Hi). pose proof (Hc _ _ Hi) as Hru. subst f1.
  destruct u as [|b k v|b q r ch'].
  - cbn [ptr]. rewrite Z.eqb_refl. eexists _, _, _. split; [done|]. left. split; [done|].
    intros v Hv. apply Hl' in Hv. inversion Hv.
  - destruct (ptr_leaf c b k v Hru) as (F1 & F2 & ->). cbn [remove_walk]. rewrite F1.
    eexists _, _, _. split; [done|]. right. exists pi, lo, len, p, s, ch, b, k, v. done.
  - destruct (ptr_node c b q r ch' Hru) as [_ ->]. rewrite <- (Hslot RootRef). cbn [ptr].
    eapply IH; [exact Hl'|]. pose proof (proj1 Hl') as E'. destruct (sub_in _ _ _ _ _ _ _ Ht E') as (Hin' & B1' & B2').
    destruct (node_range _ _ _ _ _ _ Hin') as (_ & Hr60 & Hr4 & _ & Hw); [lia..|].
    apply Z.pow_le_mono_r_iff in Hw; lia.
Qed.

(** ** The remaining children *)

Lemma ptr_nonnil c t : rep c t -> (ptr t =? 0) = negb (nonnil t).
Proof.
  intros H. destruct t; cbn [nonnil negb]; [done|by apply (ptr_leaf c)|by apply (ptr_node c)].
Qed.

Lemma filter_zero (l : list ctree) : length (List.filter nonnil l) = 0%nat -> forall i t, l !! i = Some t -> t = TNil.
Proof.
  intros H i t Hi. destruct (nonnil t) eqn:Ht; [pose proof (filter_one l i t Hi Ht); lia|]. by destruct t.
Qed.

Lemma only_child_some c ts i o :
  (forall j t, ts !! j = Some t -> rep c t) ->
  only_child (map ptr ts) i (Some o) = if (length (List.filter nonnil ts) =? 0)%nat then inr (Some o) else inl tt.
Proof.
  revert i. induction ts as [|t ts IH]; intros i Hr; [done|]. cbn [map only_child List.filter].
  rewrite (ptr_nonnil c t) by (by apply (Hr 0%nat)). destruct (nonnil t); [done|]. cbn [negb].
  apply IH. intros j u Hj. by apply (Hr (S j)).
Qed.

Lemma only_child_none c ts i :
  (forall j t, ts !! j = Some t -> rep c t) -> (1 <= length (List.filter nonnil ts))%nat ->
  (only_child (map ptr ts) i None = inl tt /\ (2 <= length (List.filter nonnil ts))%nat) \/
  exists j t, only_child (map ptr ts) i None = inr (Some (i + j)%nat) /\ ts !! j = Some t /\ nonnil t = true /\
    forall j' t', ts !! j' = Some t' -> j' <> j -> t' = TNil.
Proof.
  revert i. induction ts as [|t ts IH]; intros i Hr Hl; [cbn in Hl; lia|]. cbn [map only_child List.filter] in *.
  assert (forall j u, ts !! j = Some u -> rep c u) as Hr' by (intros j u Hj; by apply (Hr (S j))).
  rewrite (ptr_nonnil c t) by (by apply (Hr 0%nat)). destruct (nonnil t) eqn:Ht; cbn [negb].
  - rewrite (only_child_some c) by done. destruct (Nat.eqb_spec (length (List.filter nonnil ts)) 0) as [H0|H0].
    + right. exists 0%nat, t. rewrite Nat.add_0_r. split; [done|]. split; [done|]. split; [done|].
      intros [|j'] t' Hj Hne; [done|]. by eapply filter_zero.
    + left. split; [done|]. cbn. lia.
  - destruct (IH (S i) Hr' Hl) as [?|(j & u & E & Hj & Hu & Ho)]; [by left|]. right. exists (S j), u.
    split; [rewrite E; do 2 f_equal; lia|]. split; [done|]. split; [done|].
    intros [|j'] t' Hj' Hne; [|eapply Ho; [done|congruence]]. injection Hj' as <-. by destruct t.
Qed.

Lemma filter_drop (l : list ctree) i t :
  l !! i = Some t -> (length (List.filter nonnil l) <= S (length (List.filter nonnil (<[i := TNil]> l))))%nat.
Proof.
  revert i. induction l as [|y l IH]; intros [|i] Hi; try done.
  - cbn. destruct (nonnil y); cbn; lia.
  - change (<[S i:=TNil]> (y :: l)) with (y :: <[i:=TNil]> l). cbn [List.filter]. specialize (IH i Hi).
    destruct (nonnil y); cbn; lia.
Qed.

(** ** Positions after a replacement *)

Lemma put_snoc lo len t pi lo' len' a p s ch i u x :
  sub_at lo len t pi = Some (lo', len', TNode a p s ch) -> ch !! i = Some u ->
  put t (pi ++ [i]) x = put t pi (TNode a p s (<[i := x]> ch)).
Proof.
  revert lo len t. induction pi as [|j pi IH]; intros lo len t E Hi; cbn [sub_at app] in E.
  - injection E as -> -> ->. cbn [app put]. by rewrite Hi.
  - destruct t as [| |b q r ch']; try done. destruct (ch' !! j) as [t'|] eqn:Hj; [|done]. cbn in E.
    cbn [app put]. rewrite Hj. by rewrite (IH _ _ _ E Hi).
Qed.

Lemma t_in_mono lo len lo' len' t : t_in lo len t -> lo' <= lo -> lo + len <= lo' + len' -> t_in lo' len' t.
Proof. intros H H1 H2. inversion H; subst; constructor; try done; lia. Qed.

(** A node that leaves the subtree leaves the trie. *)
Lemma put_gone c lo len t pi lo' len' u x b :
  rep c t -> t_in lo len t -> sub_at lo len t pi = Some (lo', len', u) -> inode u b -> ~ inode x b ->
  ~ inode (put t pi x) b.
Proof.
  revert lo len t. induction pi as [|i pi IH]; intros lo len t Hr Ht E Hb Hx; cbn [sub_at put] in *; [done|].
  destruct t as [| |a p s ch]; try done. destruct (ch !! i) as [t'|] eqn:Hi; [|done]. cbn in E.
  pose proof Hr as Hr'. inversion Hr' as [| |? ? ? ? Hg Hn Hc]; subst.
  pose proof Ht as Ht'. inversion Ht' as [| |? ? ? ? ? ? H1 H2 H3 H4 Hl Hch]; subst.
  pose proof (sub_inode _ _ _ _ _ _ _ _ E Hb) as Hb'. intros Hbad.
  inversion Hbad as [|? ? ? ? j tj ? Hj Hbj]; subst; [by eapply not_below|].
  apply list_lookup_insert_Some in Hj as [(-> & <- & _)|[Hne Hj]].
  - eapply (IH _ _ t'); [exact (Hc _ _ Hi)|exact (Hch _ _ Hi)|exact E|done|done|done].
  - apply Hne. by eapply children_apart.
Qed.

Definition removed (T T' : ctree) (key : Z) : Prop := forall k v, has T' k v <-> has T k v /\ k <> key.

Lemma put_removed T pi lo len u x key :
  t_in 0 (2 ^ 64) T -> sub_at 0 (2 ^ 64) T pi = Some (lo, len, u) -> t_in lo len x -> lo <= key < lo + len ->
  removed u x key -> removed T (put T pi x) key.
Proof.
  intros Ht E Hx Hk Hrm k v. rewrite (put_has _ _ _ _ _ _ _ x k v Ht E Hx), (Hrm k v), (sub_has _ _ _ _ _ _ _ k v Ht E).
  destruct (decide (lo <= k < lo + len)); [tauto|]. assert (k <> key) by (intros ->; lia). tauto.
Qed.

(** ** Unlinking a leaf *)

Lemma pool_outside next used head fl pend a :
  pool next used head fl pend -> used a -> good a -> (a ∉ fl) /\ a ∉ pend.
Proof.
  intros [H1 H2 H3 H4 H5 H6] Hu Hg. split; [intros Hf; by eapply H4|].
  intros Hp. apply list_elem_of_lookup_1 in Hp as [i Hi].
  destruct (H5 i a Hi) as (_ & _ & G & _); [destruct Hg; lia|done].
Qed.

Lemma pend_leaf_inv c T fn fl del b :
  cn_inv c T fn fl -> pending_del_leaves c !! del = Some 0 -> good b -> is_Some (leaf_next c b) ->
  ~ ileaf T b -> b ∉ fl -> b ∉ pending_del_leaves c -> cn_inv (pend_leaf del b c) T fn fl.
Proof.
  intros [H1 H2 H3 H4 H5 H6 H7 H8] Hd Hg Hs Ht Hf Hp. constructor; try done; [by eapply trie_frame|].
  by apply pool_pend.
Qed.

Lemma pend_node_inv c T fn fl del n :
  cn_inv c T fn fl -> pending_del_nodes c !! del = Some 0 -> good n -> is_Some (node_next c n) ->
  ~ inode T n -> n ∉ fn -> n ∉ pending_del_nodes c -> cn_inv (pend_node del n c) T fn fl.
Proof.
  intros [H1 H2 H3 H4 H5 H6 H7 H8] Hd Hg Hs Ht Hf Hp. constructor; try done; [by eapply trie_frame|].
  by apply pool_pend.
Qed.

(** The leaf of a removed key is in the new trie no more. *)
Lemma leaf_gone c T' fn fl key b v :
  cn_inv c T' fn fl -> (forall v, ~ has T' key v) -> cn_leaves c !! b = Some (CLeaf key v) -> ~ ileaf T' b.
Proof.
  intros [H1 H2 H3 H4 H5 H6 H7 H8] Hno Hb Hl. destruct (ileaf_in c _ _ T' b H2 H3 Hl) as (l & E & Hh).
  rewrite Hb in E. injection E as <-. by eapply Hno.
Qed.

Lemma retire_leaf c c1 T T1 fn fl fn1 del b key v :
  cn_inv c T fn fl -> ileaf T b -> cn_leaves c !! b = Some (CLeaf key v) ->
  cn_inv c1 T1 fn1 fl -> removed T T1 key -> cn_leaves c1 = cn_leaves c ->
  pending_del_leaves c1 = pending_del_leaves c -> pending_del_leaves c !! del = Some 0 ->
  cn_inv (pend_leaf del b c1) T1 fn1 fl.
Proof.
  intros Hi Hb Hc Hi1 Hrm El Ep Hd. pose proof (ileaf_good c T b (cv_rep _ _ _ _ Hi) Hb) as Hg.
  destruct (pool_outside _ _ _ _ _ b (cv_leaves _ _ _ _ Hi) Hb Hg) as [O1 O2].
  apply pend_leaf_inv; try done.
  - by rewrite Ep.
  - unfold leaf_next. rewrite El, Hc. by eexists.
  - eapply (leaf_gone c1 T1 fn1 fl key b v Hi1); [|by rewrite El]. intros v' Hv. by apply Hrm in Hv as [_ []].
  - by rewrite Ep.
Qed.

Lemma store_write_comm f v c c3 n nd :
  (forall i, f <> ChildRef n i) -> cn_store f v c = Some c3 ->
  cn_store f v (write_node n nd c) = Some (write_node n nd c3).
Proof.
  intros Hf. destruct f as [|a i]; cbn [cn_store]; [intros [= <-]; done|].
  assert (a <> n) as Hne by (intros ->; by eapply Hf). cbn [write_node set_cn_nodes cn_nodes].
  rewrite lookup_insert_ne by done. destruct (cn_nodes c !! a) as [nd'|]; [|done]. cbn. intros [= <-].
  unfold write_node, set_cn_nodes. cbn. do 2 f_equal. by apply insert_insert_ne.
Qed.

Lemma leaf_removed a key v : removed (TLeaf a key v) TNil key.
Proof. intros k w. split; [intros H; inversion H|]. intros [H Hne]. inversion H; by subst. Qed.

Section Unlink.
Context (c : critnib) (T : ctree) (fn fl : list Z) (key v : Z) (pi : list nat) (lo len : Z).
Context (n p s b : Z) (ch : list ctree) (del : nat).
Hypothesis Hinv : cn_inv c T fn fl.
Hypothesis Hsub : sub_at 0 (2 ^ 64) T pi = Some (lo, len, TNode n p s ch).
Hypothesis Hleaf : ch !! slice_index key s = Some (TLeaf b key v).
Hypothesis Hdn : pending_del_nodes c !! del = Some 0.
Hypothesis Hdl : pending_del_leaves c !! del = Some 0.

Let i := slice_index key s.
Let ch' := <[i := TNil]> ch.
Let nd' := CNode (map ptr ch') p s.

Lemma unlink_facts :
  sub_at 0 (2 ^ 64) T (pi ++ [i]) = Some (p + Z.of_nat i * 2 ^ s, 2 ^ s, TLeaf b key v) /\
  (forall f, slot_from f T (pi ++ [i]) = ChildRef n i) /\
  put T (pi ++ [i]) TNil = put T pi (TNode n p s ch') /\
  t_in lo len (TNode n p s ch) /\ rep c (TNode n p s ch) /\ dense (TNode n p s ch) /\
  cn_nodes c !! n = Some (CNode (map ptr ch) p s) /\ good n /\ inode T n /\
  cn_leaves c !! b = Some (CLeaf key v) /\ ileaf T b /\ p + Z.of_nat i * 2 ^ s <= key < p + Z.of_nat i * 2 ^ s + 2 ^ s.
Proof using Hinv Hsub Hleaf.
  pose proof Hinv as [H1 H2 H3 H4 H5 H6 H7 H8].
  destruct (sub_snoc _ _ _ _ _ _ _ _ _ _ _ _ Hsub Hleaf) as [G1 G2].
  pose proof (sub_rep c _ _ _ _ _ _ _ H2 Hsub) as Hr. pose proof Hr as Hr'. inversion Hr' as [| |? ? ? ? Hg Hn Hc]; subst.
  destruct (sub_in _ _ _ _ _ _ _ H3 G1) as [Hli _].
  split; [done|]. split; [done|]. split; [by eapply put_snoc|].
  split; [exact (proj1 (sub_in _ _ _ _ _ _ _ H3 Hsub))|]. split; [done|].
  split; [by eapply sub_dense|]. split; [done|]. split; [done|].
  split; [eapply sub_inode; [exact Hsub|constructor]|].
  split; [pose proof (Hc _ _ Hleaf) as Hx; by inversion Hx|].
  split; [eapply sub_ileaf; [exact G1|constructor]|]. by inversion Hli.
Qed.

Lemma unlinked_removed : removed T (put T pi (TNode n p s ch')) key.
Proof using Hinv Hsub Hleaf.
  destruct unlink_facts as (F1 & F2 & F3 & F4 & F5 & F6 & F7 & F8 & F9 & F10 & F11 & F12).
  rewrite <- F3. eapply put_removed; [apply Hinv|exact F1|constructor|exact F12|apply leaf_removed].
Qed.

(** The children of the node without the leaf. *)
Lemma unlinked_children : <[i := 0]> (map ptr ch) = map ptr ch'.
Proof using. unfold ch'. symmetry. exact (list_fmap_insert ptr ch i TNil). Qed.

(** Two children or more are left: the node stays. *)
Lemma keep_node :
  (2 <= length (List.filter nonnil ch'))%nat ->
  let c1 := write_node n nd' c in cn_inv (pend_leaf del b c1) (put T pi (TNode n p s ch')) fn fl.
Proof using Hinv Hsub Hleaf Hdl.
  intros H2c c1. destruct unlink_facts as (F1 & F2 & F3 & F4 & F5 & F6 & F7 & F8 & F9 & F10 & F11 & F12).
  pose proof unlinked_removed as Hrm. rewrite <- F3 in *.
  destruct (attach_gen c T fn fl (pi ++ [i]) _ _ _ TNil Hinv F1) as (c' & S & I & P1 & P2 & L1 & _).
  - constructor.
  - constructor.
  - rewrite F3. eapply put_dense; [apply Hinv|exact Hsub| |done]. inversion F6 as [| |? ? ? ? _ Hdc]; subst.
    constructor; [done|]. intros j t Hj. unfold ch' in Hj.
    apply list_lookup_insert_Some in Hj as [(_ & <- & _)|[_ Hj]]; [constructor|by eapply Hdc].
  - intros a Ha. inversion Ha.
  - intros a Ha. inversion Ha.
  - rewrite F2 in S. cbn [cn_store] in S. rewrite F7 in S. cbn [mbind option_bind] in S.
    unfold set_child in S. cbn [child path shift ptr] in S. rewrite unlinked_children in S. injection S as <-.
    by eapply (retire_leaf c _ T).
Qed.

(** One child is left: it takes the place of the node. *)
Lemma collapse_node o x :
  ch' !! o = Some x -> nonnil x = true -> (forall j t, ch' !! j = Some t -> j <> o -> t = TNil) ->
  exists c2 T', cn_store (slot_from RootRef T pi) (ptr x) (write_node n nd' c) = Some c2 /\
    removed T T' key /\ cn_inv (pend_leaf del b (pend_node del n c2)) T' fn fl.
Proof using All.
  intros Ho Hx Hrest. pose proof unlinked_removed as Hrm0.
  destruct unlink_facts as (F1 & F2 & F3 & F4 & F5 & F6 & F7 & F8 & F9 & F10 & F11 & F12).
  assert (ch !! o = Some x) as Hox.
  { unfold ch' in Ho. apply list_lookup_insert_Some in Ho as [(_ & <- & _)|[_ Ho]]; done. }
  pose proof F4 as F4'. inversion F4' as [| |? ? ? ? ? ? H1 H2 H3 H4 Hl Hch]; subst.
  pose proof (Hch o x Hox) as Hxin. pose proof (lookup_lt_Some _ _ _ Hox) as Holt.
  assert (t_in lo len x) as Hxin'.
  { destruct (pow_split s ltac:(lia)). eapply t_in_mono; [exact Hxin|nia|nia]. }
  assert (inode (TNode n p s ch) n) as Hnn by constructor.
  assert (~ inode x n) as Hxn by (by eapply not_below).
  inversion F5 as [| |? ? ? ? _ _ Hc]; subst. inversion F6 as [| |? ? ? ? _ Hdc]; subst.
  destruct (attach c T fn fl pi lo len _ x Hinv Hsub) as (c3 & S & I & P1 & P2 & L1 & _);
    [by eapply Hc|done|by eapply Hdc|done|intros a Ha; left; by econstructor|intros a Ha; left; by econstructor|].
  assert (forall j, slot_from RootRef T pi <> ChildRef n j) as Hslot.
  { intros j Ej. destruct (decide (pi = [])) as [->|Hpi]; [done|].
    destruct (slot_parent c _ _ T pi _ _ _ RootRef n j (cv_rep _ _ _ _ Hinv) (cv_in _ _ _ _ Hinv) Hsub Hpi Ej). done. }
  exists (write_node n nd' c3), (put T pi x). split; [by apply store_write_comm|].
  assert (removed T (put T pi x) key) as Hrm.
  { intros k w. rewrite <- (Hrm0 k w). pose proof (cv_in _ _ _ _ Hinv) as HT.
    assert (t_in lo len (TNode n p s ch')) as Hin'.
    { constructor; try done; unfold ch'; [by rewrite length_insert|]. intros j t Hj.
      apply list_lookup_insert_Some in Hj as [(_ & <- & _)|[_ Hj]]; [constructor|by apply Hch]. }
    rewrite (put_has _ _ _ _ _ _ _ _ k w HT Hsub Hxin'), (put_has _ _ _ _ _ _ _ _ k w HT Hsub Hin').
    assert (has x k w <-> has (TNode n p s ch') k w); [|tauto]. split; [intros; by econstructor|].
    intros Hh. inversion Hh as [|? ? ? ? j t ? ? Hj Hht]; subst. destruct (decide (j = o)) as [->|Hne]; [by simplify_eq|].
    rewrite (Hrest j t Hj Hne) in Hht. inversion Hht. }
  split; [done|]. destruct (pool_outside _ _ _ _ _ n (cv_nodes _ _ _ _ Hinv) F9 F8) as [O1 O2].
  assert (~ inode (put T pi x) n) as Hgone by (eapply put_gone; [apply Hinv|apply Hinv|exact Hsub|done|done]).
  eapply (retire_leaf c _ T); try done. apply pend_node_inv; try done.
  - apply write_node_inv; try done; [|by rewrite P1]. cbn. unfold ch'. by rewrite length_map, length_insert.
  - cbn. by rewrite P1.
  - unfold node_next. cbn. rewrite lookup_insert_eq. by eexists.
  - cbn. by rewrite P1.
Qed.
End Unlink.

(** ** The operation *)

(** The part of critnib_remove after the leaf of the key is found. *)
Lemma unlink_leaf c T fn fl key v pi lo len n p s b ch del :
  cn_inv c T fn fl -> sub_at 0 (2 ^ 64) T pi = Some (lo, len, TNode n p s ch) ->
  ch !! slice_index key s = Some (TLeaf b key v) ->
  pending_del_nodes c !! del = Some 0 -> pending_del_leaves c !! del = Some 0 ->
  exists c' T',
    (nd ← cn_nodes c !! n;
     c ← cn_store (ChildRef n (slice_index key (shift nd))) 0 c;
     nd ← cn_nodes c !! n;
     match only_child (child nd) 0 None with
     | inl _ => Some (v, pend_leaf del b c)
     | inr None => None
     | inr (Some o) =>
         c ← cn_store (slot_from RootRef T pi) (get_child nd o) c;
         Some (v, pend_leaf del b (pend_node del n c))
     end) = Some (v, c') /\ cn_inv c' T' fn fl /\ removed T T' key.
Proof.
  intros Hinv Hsub Hleaf Hdn Hdl.
  destruct (unlink_facts c T fn fl key v pi lo len n p s b ch Hinv Hsub Hleaf) as (_ & _ & _ & _ & F5 & F6 & F7 & _).
  pose proof (unlinked_removed c T fn fl key v pi lo len n p s b ch Hinv Hsub Hleaf) as Hrm.
  set (i := slice_index key s) in *. set (ch' := <[i := TNil]> ch) in *.
  inversion F5 as [| |? ? ? ? _ _ Hc]; subst. inversion F6 as [| |? ? ? ? Hcount _]; subst.
  assert (forall j t, ch' !! j = Some t -> rep c t) as Hc'.
  { intros j t Hj. apply list_lookup_insert_Some in Hj as [(_ & <- & _)|[_ Hj]]; [constructor|by eapply Hc]. }
  pose proof (filter_drop ch i _ Hleaf) as Hdrop. fold ch' in Hdrop.
  rewrite F7. cbn [mbind option_bind shift cn_store]. rewrite F7. cbn [mbind option_bind].
  unfold set_child. cbn [child path shift]. fold i. change (<[i := 0]> (map ptr ch)) with (<[i := ptr TNil]> (ptr <$> ch)).
  rewrite <- list_fmap_insert. fold ch'. cbn [write_node set_cn_nodes cn_nodes]. rewrite lookup_insert_eq.
  cbn [mbind option_bind child]. change (ptr <$> ch') with (map ptr ch').
  destruct (only_child_none c ch' 0 Hc' ltac:(lia)) as [[-> H2]|(o & x & -> & Hox & Hx & Hrest)].
  - eexists _, _. split; [done|]. split; [|exact Hrm]. by apply (keep_node c T fn fl key v pi lo len n p s b ch del).
  - destruct (collapse_node c T fn fl key v pi lo len n p s b ch del Hinv Hsub Hleaf Hdn Hdl o x Hox Hx Hrest)
      as (c2 & T' & S & Hrm' & I). cbn [Nat.add]. rewrite (map_ptr_child _ _ _ _ _ Hox).
    fold i in S. fold ch' in S. rewrite S. cbn [mbind option_bind].
    eexists _, _. split; [done|]. split; [exact I|exact Hrm'].
Qed.

Definition remove_outcome (T T' : ctree) (key r : Z) : Prop :=
  ((r = 0 /\ forall v, ~ has T key v) \/ has T key r) /\ removed T T' key.

Lemma absent_removed T key : (forall v, ~ has T key v) -> removed T T key.
Proof. intros H k v. split; [|tauto]. intros Hh. split; [done|]. intros ->. by eapply H. Qed.

Lemma trie_remove c T fn fl fuel key :
  cn_inv c T fn fl -> (17 <= fuel)%nat ->
  exists r c' T' fn' fl', critnib_remove fuel c key = Some (r, c') /\ cn_inv c' T' fn' fl' /\
    remove_outcome T T' key r.
Proof.
  intros Hinv Hfuel. unfold critnib_remove. pose proof Hinv as [G1 G2 G3 G4 G5 G6 G7 G8].
  destruct (Z.eqb_spec (cn_root c) 0) as [Hr0|Hr0].
  { rewrite G1, (ptr_zero c T G2) in Hr0. subst T. assert (forall v, ~ has TNil key v) as Hno by (intros v Hv; inversion Hv).
    eexists _, _, _, _, _. split; [done|]. split; [exact Hinv|]. split; [by left|by apply absent_removed]. }
  destruct (recycle_spec c T fn fl Hinv) as (del & c1 & fn1 & fl1 & -> & I1 & R1 & Dn & Dl). cbn [mbind option_bind].
  pose proof I1 as [H1 H2 H3 H4 H5 H6 H7 H8]. rewrite R1 in H1. rewrite H1 in *. clear G2 G6 G7.
  destruct T as [|b k v|a p s ch]; [done| |].
  - destruct (ptr_leaf c1 b k v H2) as (-> & -> & _). inversion H2 as [|? ? ? Hg Hl|]; subst. rewrite Hl.
    cbn [mbind option_bind lkey lvalue]. destruct (Z.eqb_spec k key) as [->|Hne].
    + destruct (attach_gen c1 (TLeaf b key v) fn1 fl1 [] 0 (2 ^ 64) _ TNil I1 eq_refl)
        as (c2 & S & I2 & P1 & P2 & L1 & _); [constructor|constructor|constructor|intros a Ha; inversion Ha..|].
      cbn in S. injection S as <-. eexists _, _, _, _, _. split; [done|].
      split; [eapply (retire_leaf c1 _ (TLeaf b key v)); try done; [constructor|apply leaf_removed]|].
      split; [right; constructor|apply leaf_removed].
    + assert (forall w, ~ has (TLeaf b k v) key w) as Hno by (intros w Hw; by inversion Hw).
      eexists _, _, _, _, _. split; [done|]. split; [exact I1|]. split; [by left|by apply absent_removed].
  - destruct (ptr_node c1 a p s ch H2) as (-> & _). destruct fuel as [|fuel]; [lia|].
    destruct (node_range _ _ _ _ _ _ H3) as (_ & Hs & _); [lia..|].
    destruct (remove_walk_spec c1 _ key fuel RootRef a [] 0 (2 ^ 64) a p s ch H2 H3 (leads_root _ key))
      as (np & n & kn & W & Hres); [lia|]. cbn [slot_from] in W. cbn [ptr]. rewrite W. cbn [mbind option_bind].
    set (T := TNode a p s ch) in *.
    destruct Hres as [[-> Hno]|(pi & lo & len & p' & s' & ch1 & b & k & v & -> & Hlead & Hlf & ->)].
    { rewrite Z.eqb_refl. eexists _, _, _, _, _. split; [done|]. split; [exact I1|].
      split; [by left|by apply absent_removed]. }
    pose proof (sub_rep c1 _ _ _ _ _ _ _ H2 (proj1 Hlead)) as Hrn. inversion Hrn as [| |? ? ? ? _ _ Hc]; subst.
    pose proof (Hc _ _ Hlf) as Hrl. destruct (ptr_leaf c1 b k v Hrl) as (_ & -> & ->).
    inversion Hrl as [|? ? ? Hg Hl|]; subst. rewrite Hl. cbn [mbind option_bind lkey lvalue].
    destruct (Z.eqb_spec k key) as [->|Hne]; cbn [negb].
    + destruct (unlink_leaf c1 T fn1 fl1 key v pi lo len n p' s' b ch1 del I1 (proj1 Hlead) Hlf Dn Dl) as (c' & T' & E & I' & Hrm).
      eexists _, _, _, _, _. split; [exact E|]. split; [exact I'|]. split; [|done]. right.
      apply Hlead. econstructor; [exact Hlf|constructor].
    + assert (forall w, ~ has T key w) as Hno.
      { intros w Hw. apply Hlead in Hw. destruct (sub_in _ _ _ _ _ _ _ H3 (proj1 Hlead)) as [Hin _].
        rewrite (has_child _ _ _ _ _ _ _ _ w Hin Hlf) in Hw. by inversion Hw. }
      eexists _, _, _, _, _. split; [done|]. split; [exact I1|]. split; [by left|by apply absent_removed].
Qed.
