(* ===== verification/CritnibQuery.v ===== *)
(** * Lookups in a critnib: critnib_get and critnib_find_le *)
From stdpp Require Import base numbers list list_numbers gmap.
From Stdlib Require Import ZArith Lia Bool.
From S2P Require Import Prelude Critnib CritnibFacts CritnibPool CritnibOps CritnibInsert CritnibRemove.

(** ** Exact lookup *)

Lemma get_walk_spec c T key fuel pi lo len u :
  rep c T -> t_in 0 (2 ^ 64) T -> leads T key pi lo len u -> len <= 2 ^ (4 * Z.of_nat fuel) ->
  exists w, get_walk (S fuel) c key (ptr u) = Some (ptr w) /\ rep c w /\
    (forall v, has T key v <-> has w key v) /\ match w with TNode _ _ _ _ => False | _ => True end.
Proof.
  intros Hr Ht. revert pi lo len u. induction fuel as [|fuel IH]; intros pi lo len u Hl Hlen.
  all: pose proof (proj1 Hl) as E; pose proof (sub_rep c _ _ _ _ _ _ _ Hr E) as Hu.
  all: destruct u as [|a k v|a p s ch].
  1, 4: exists TNil; split; [done|]; split; [done|]; split; [apply Hl|done].
  1, 3: exists (TLeaf a k v); destruct (ptr_leaf c a k v Hu) as (E1 & _ & _); cbn [get_walk];
    rewrite E1, orb_true_r; split; [done|]; split; [done|]; split; [apply Hl|done].
  all: destruct (sub_in _ _ _ _ _ _ _ Ht E) as (Hin & B1 & B2);
    destruct (node_range _ _ _ _ _ _ Hin) as (_ & Hs & _ & _ & Hw); [lia..|].
  - pose proof (pow_split s ltac:(lia)). simpl in Hlen. lia.
  - destruct (ptr_node c a p s ch Hu) as [E1 E2]. inversion Hu as [| |? ? ? ? Hg Hn Hc]; subst.
    destruct (leads_child T key pi lo len a p s ch Ht Hl) as (u & Hi & Hl' & _).
    remember (S fuel) as f1 eqn:Ef. cbn [get_walk]. rewrite E1, E2. cbn [orb ptr]. rewrite Hn.
    cbn [mbind option_bind shift]. rewrite (map_ptr_child _ _ _ _ _ Hi). subst f1.
    apply (IH _ _ _ u Hl'). apply Z.pow_le_mono_r; [lia|].
    assert (2 ^ (s + 4) <= 2 ^ (4 * Z.of_nat (S fuel))) as Hp by lia. apply Z.pow_le_mono_r_iff in Hp; lia.
Qed.

Lemma no_retry c : 0 <= remove_count c < 2 ^ 64 - DELETED_LIFE ->
  (u64 (remove_count c + DELETED_LIFE) <=? remove_count c) = false.
Proof.
  unfold DELETED_LIFE, u64. intros H. rewrite Z.mod_small by lia. apply Z.leb_gt. lia.
Qed.

Lemma trie_get c T fn fl fuel key :
  cn_inv c T fn fl -> remove_count c < 2 ^ 64 - DELETED_LIFE -> (18 <= fuel)%nat ->
  exists r, critnib_get fuel c key = Some r /\ ((r = 0 /\ forall v, ~ has T key v) \/ has T key r).
Proof.
  intros [H1 H2 H3 H4 H5 H6 H7 H8] Hrc Hf. destruct fuel as [|[|fuel]]; [lia..|].
  destruct (get_walk_spec c T key fuel [] _ _ T H2 H3 (leads_root T key)) as (w & W & Hw & Hh & Hk).
  { apply Z.pow_le_mono_r; lia. }
  remember (S fuel) as f1. cbn [critnib_get]. rewrite H1, W. cbn [mbind option_bind].
  rewrite no_retry by lia. destruct w as [|b k v|]; [| |done].
  - cbn [ptr]. rewrite Z.eqb_refl. cbn [mbind option_bind]. exists 0. split; [done|]. left. split; [done|].
    intros v Hv. apply Hh in Hv. inversion Hv.
  - destruct (ptr_leaf c b k v Hw) as (_ & -> & ->). inversion Hw as [|? ? ? Hg Hl|]; subst. rewrite Hl.
    cbn [mbind option_bind lkey lvalue]. eexists. split; [done|]. destruct (Z.eqb_spec k key) as [->|Hne].
    + right. apply Hh. constructor.
    + left. split; [done|]. intros w Hv. apply Hh in Hv. by inversion Hv.
Qed.

(** ** The greatest key *)

Definition max_of (t : ctree) (v : Z) : Prop :=
  exists k, has t k v /\ forall k' v', has t k' v' -> k' <= k.

Lemma scan_down_spec c ch p s i :
  (forall j t, ch !! j = Some t -> rep c t) -> (i <= length ch)%nat ->
  (scan_down (child (CNode (map ptr ch) p s)) i = None /\ forall j t, (j < i)%nat -> ch !! j = Some t -> t = TNil) \/
  exists j t, scan_down (child (CNode (map ptr ch) p s)) i = Some (ptr t) /\ (j < i)%nat /\ ch !! j = Some t /\
    nonnil t = true /\ forall j' t', (j < j' < i)%nat -> ch !! j' = Some t' -> t' = TNil.
Proof.
  intros Hr. cbn [child]. induction i as [|i IH]; intros Hi; cbn [scan_down]; [left; split; [done|lia]|].
  destruct (lookup_lt_is_Some_2 ch i) as [t Ht]; [lia|]. change (map ptr ch) with (ptr <$> ch).
  rewrite list_lookup_fmap, Ht. change (default 0 (ptr <$> Some t)) with (ptr t).
  rewrite (ptr_nonnil c t) by (by eapply Hr). destruct (nonnil t) eqn:Hn; cbn [negb].
  - right. exists i, t. split; [done|]. split; [lia|]. split; [done|]. split; [done|]. lia.
  - assert (t = TNil) as -> by (by destruct t). destruct IH as [[E Ho]|(j & u & E & Hj & Hu & Hnu & Ho)]; [lia| |].
    + left. split; [done|]. intros j t Hj Htj. destruct (decide (j = i)) as [->|]; [by simplify_eq|].
      eapply Ho; [|exact Htj]. lia.
    + right. exists j, u. split; [done|]. split; [lia|]. split; [done|]. split; [done|].
      intros j' t' Hj' Ht'. destruct (decide (j' = i)) as [->|]; [by simplify_eq|]. eapply Ho; [|exact Ht']. lia.
Qed.

(** Keys of a lower child are smaller. *)
Lemma child_order lo len a p s ch i j t u k v k' v' :
  t_in lo len (TNode a p s ch) -> ch !! i = Some t -> ch !! j = Some u -> has t k v -> has u k' v' ->
  (i < j)%nat -> k < k'.
Proof.
  intros Ht Hi Hj Hk Hk' Hlt. inversion Ht as [| |? ? ? ? ? ? H1 H2 H3 H4 Hl Hch]; subst.
  pose proof (has_in _ _ _ _ _ (Hch i t Hi) Hk). pose proof (has_in _ _ _ _ _ (Hch j u Hj) Hk').
  destruct (pow_split s ltac:(lia)). nia.
Qed.

(** The value of the greatest key below a child, as both queries compute it. *)
Definition max_value (fuel : nat) c (m : Z) : option Z :=
  if is_leaf m then l ← cn_leaves c !! to_leaf m; Some (lvalue l) else find_successor fuel c m.

Lemma nonnil_filter (l : list ctree) : (1 <= length (List.filter nonnil l))%nat ->
  exists i t, l !! i = Some t /\ nonnil t = true.
Proof.
  induction l as [|y l IH]; cbn; [lia|]. destruct (nonnil y) eqn:Hy; [intros _; by exists 0%nat, y|].
  intros H. destruct (IH H) as (i & t & Hi & Ht). by exists (S i), t.
Qed.

Lemma find_successor_spec c fuel lo len a p s ch :
  rep c (TNode a p s ch) -> t_in lo len (TNode a p s ch) -> dense (TNode a p s ch) -> 0 <= lo -> lo + len <= 2 ^ 64 ->
  s < 4 * Z.of_nat fuel ->
  exists v, find_successor fuel c a = Some v /\ max_of (TNode a p s ch) v.
Proof.
  revert lo len a p s ch. induction fuel as [|fuel IH]; intros lo len a p s ch Hr Ht Hd Hlo Hhi Hf.
  all: destruct (node_range _ _ _ _ _ _ Ht Hlo Hhi) as (Hp & Hs & Hs4 & Hpm & Hw).
  { lia. }
  inversion Hr as [| |? ? ? ? Hg Hn Hc]; subst. inversion Hd as [| |? ? ? ? Hcount Hdc]; subst.
  pose proof Ht as Ht'. inversion Ht' as [| |? ? ? ? ? ? H1 H2 H3 H4 Hl Hch]; subst.
  cbn [find_successor]. rewrite Hn. cbn [mbind option_bind].
  destruct (scan_down_spec c ch p s SLNODES Hc ltac:(unfold SLNODES; lia))
    as [[_ Ho]|(j & t & -> & Hj & Hjt & Hnt & Ho)].
  { destruct (nonnil_filter ch ltac:(lia)) as (i & t & Hi & Hnt). pose proof (lookup_lt_Some _ _ _ Hi).
    rewrite (Ho i t) in Hnt; [done|unfold SLNODES; lia|done]. }
  assert (forall k v, has t k v -> (forall k' v', has t k' v' -> k' <= k) ->
    forall k' v', has (TNode a p s ch) k' v' -> k' <= k) as Hmax.
  { intros k v Hk Hm k' v' Hk'. inversion Hk' as [|? ? ? ? i u ? ? Hi Hu]; subst.
    destruct (decide (i = j)) as [->|Hne]; [simplify_eq; by eapply Hm|].
    pose proof (lookup_lt_Some _ _ _ Hi). destruct (decide (i < j)%nat).
    - apply Z.lt_le_incl. exact (child_order _ _ _ _ _ _ i j u t k' v' k v Ht Hi Hjt Hu Hk ltac:(lia)).
    - rewrite (Ho i u) in Hu by (done || unfold SLNODES in *; lia). inversion Hu. }
  pose proof (Hc j t Hjt) as Hrt. pose proof (Hch j t Hjt) as Htt. destruct t as [|b k v|b q r ch']; [done| |].
  - destruct (ptr_leaf c b k v Hrt) as (-> & -> & _). inversion Hrt as [|? ? ? _ Hlf|]; subst. rewrite Hlf.
    exists v. split; [done|]. exists k. split; [econstructor; [exact Hjt|constructor]|].
    apply (Hmax k v); [constructor|]. intros k' v' Hk. inversion Hk; subst. lia.
  - destruct (ptr_node c b q r ch' Hrt) as [-> _]. pose proof (lookup_lt_Some _ _ _ Hjt).
    destruct (pow_split s ltac:(lia)) as [Ep H0].
    destruct (node_range _ _ _ _ _ _ Htt ltac:(nia) ltac:(nia)) as (_ & Hr60 & Hr4 & _ & Hwr).
    apply Z.pow_le_mono_r_iff in Hwr; [|lia..].
    destruct (IH _ _ b q r ch' Hrt Htt (Hdc j _ Hjt) ltac:(nia) ltac:(nia) ltac:(lia)) as (v & E & k & Hk & Hm).
    cbn [ptr]. exists v. split; [done|]. exists k. split; [econstructor; [exact Hjt|exact Hk]|]. by apply (Hmax k v).
Qed.

Lemma max_value_spec c fuel lo len t :
  rep c t -> t_in lo len t -> dense t -> 0 <= lo -> lo + len <= 2 ^ 64 -> len <= 2 ^ (4 * Z.of_nat fuel) ->
  nonnil t = true -> exists v, max_value fuel c (ptr t) = Some v /\ max_of t v.
Proof.
  intros Hr Ht Hd Hlo Hhi Hlen Hn. unfold max_value. destruct t as [|b k v|b q r ch]; [done| |].
  - destruct (ptr_leaf c b k v Hr) as (-> & -> & _). inversion Hr as [|? ? ? _ Hlf|]; subst. rewrite Hlf.
    exists v. split; [done|]. exists k. split; [constructor|]. intros k' v' Hk. inversion Hk; subst. lia.
  - destruct (ptr_node c b q r ch Hr) as [-> _]. eapply find_successor_spec; try done.
    destruct (node_range _ _ _ _ _ _ Ht Hlo Hhi) as (_ & Hs & _ & _ & Hw).
    assert (2 ^ (r + 4) <= 2 ^ (4 * Z.of_nat fuel)) as Hp by lia. apply Z.pow_le_mono_r_iff in Hp; lia.
Qed.

(** ** The greatest key that is not above the argument *)

Definition le_result (t : ctree) (key r : Z) : Prop :=
  (exists k, has t k r /\ k <= key /\ forall k' v', has t k' v' -> k' <= key -> k' <= k) \/
  (r = 0 /\ forall k' v', has t k' v' -> key < k').

Lemma le_outside lo len a p s ch key v :
  t_in lo len (TNode a p s ch) -> ~ (p <= key < p + 2 ^ (s + 4)) -> p < key -> max_of (TNode a p s ch) v ->
  le_result (TNode a p s ch) key v.
Proof.
  intros Ht Hout Hlt (k & Hk & Hm). left. exists k. split; [done|]. split; [|intros k' v' Hk' _; by eapply Hm].
  inversion Ht as [| |? ? ? ? ? ? H1 H2 H3 H4 Hl Hch]; subst.
  assert (t_in p (2 ^ (s + 4)) (TNode a p s ch)) as Hin by (constructor; try done; lia).
  pose proof (has_in _ _ _ _ _ Hin Hk). lia.
Qed.


(** Keys in the children around the one of the key's nibble. *)
Lemma nibble_order lo len a p s ch key j t k v :
  t_in lo len (TNode a p s ch) -> p <= key < p + 2 ^ (s + 4) -> ch !! j = Some t -> has t k v ->
  ((j < slice_index key s)%nat -> k < key) /\ ((slice_index key s < j)%nat -> key < k).
Proof.
  intros Ht Hin Hj Hk. inversion Ht as [| |? ? ? ? ? ? H1 H2 H3 H4 Hl Hch]; subst.
  pose proof (slice_interval key p s ltac:(lia) H3 Hin) as Hi. cbv zeta in Hi.
  pose proof (has_in _ _ _ _ _ (Hch j t Hj) Hk). destruct (pow_split s ltac:(lia)).
  split; intros Hlt; nia.
Qed.

Lemma le_in_child lo len a p s ch key u k r :
  t_in lo len (TNode a p s ch) -> p <= key < p + 2 ^ (s + 4) -> ch !! slice_index key s = Some u ->
  has u k r -> k <= key -> (forall k' v', has u k' v' -> k' <= key -> k' <= k) ->
  le_result (TNode a p s ch) key r.
Proof.
  intros Ht Hin Hu Hk Hle Hm. left. exists k. split; [by econstructor|]. split; [done|].
  intros k' v' Hk' Hle'. inversion Hk' as [|? ? ? ? j t ? ? Hj Ht']; subst.
  destruct (nibble_order _ _ _ _ _ _ _ _ _ _ _ Ht Hin Hj Ht') as [O1 O2].
  destruct (Nat.lt_trichotomy j (slice_index key s)) as [Hlt|[->|Hgt]].
  - apply Z.lt_le_incl. exact (child_order _ _ _ _ _ _ j _ t u k' v' k r Ht Hj Hu Ht' Hk Hlt).
  - simplify_eq. by eapply Hm.
  - specialize (O2 Hgt). lia.
Qed.

(** When the child has no such key, the lower children decide. *)
Lemma le_below lo len a p s ch key u r :
  t_in lo len (TNode a p s ch) -> p <= key < p + 2 ^ (s + 4) -> ch !! slice_index key s = Some u ->
  (forall k' v', has u k' v' -> key < k') ->
  ((r = 0 /\ forall j t, (j < slice_index key s)%nat -> ch !! j = Some t -> t = TNil) \/
   (exists j t, (j < slice_index key s)%nat /\ ch !! j = Some t /\ max_of t r /\
      forall j' t', (j < j' < slice_index key s)%nat -> ch !! j' = Some t' -> t' = TNil)) ->
  le_result (TNode a p s ch) key r.
Proof.
  intros Ht Hin Hu Hno [[-> Ho]|(j & t & Hj & Hjt & (k & Hk & Hm) & Ho)].
  - right. split; [done|]. intros k' v' Hk'. inversion Hk' as [|? ? ? ? i t ? ? Hi Ht']; subst.
    destruct (nibble_order _ _ _ _ _ _ _ _ _ _ _ Ht Hin Hi Ht') as [_ O2].
    destruct (Nat.lt_trichotomy i (slice_index key s)) as [Hlt|[->|Hgt]]; [|simplify_eq; by eapply Hno|by apply O2].
    rewrite (Ho i t Hlt Hi) in Ht'. inversion Ht'.
  - left. exists k. split; [by econstructor|].
    split; [destruct (nibble_order _ _ _ _ _ _ _ _ _ _ _ Ht Hin Hjt Hk) as [O1 _]; specialize (O1 Hj); lia|].
    intros k' v' Hk' Hle. inversion Hk' as [|? ? ? ? i t' ? ? Hi Ht']; subst.
    destruct (nibble_order _ _ _ _ _ _ _ _ _ _ _ Ht Hin Hi Ht') as [_ O2].
    destruct (Nat.lt_trichotomy i j) as [Hlt|[->|Hgt]]; [|simplify_eq; by eapply Hm|].
    + apply Z.lt_le_incl. exact (child_order _ _ _ _ _ _ i j t' t k' v' k r Ht Hi Hjt Ht' Hk Hlt).
    + destruct (Nat.lt_trichotomy i (slice_index key s)) as [Hlt|[->|Hgt']].
      * rewrite (Ho i t') in Ht' by (done || lia). inversion Ht'.
      * simplify_eq. specialize (Hno k' v' Ht'). lia.
      * specialize (O2 Hgt'). lia.
Qed.

Lemma find_le_leaf c fuel b k v key :
  rep c (TLeaf b k v) ->
  exists r, find_le (S fuel) c (ptr (TLeaf b k v)) key = Some r /\ le_result (TLeaf b k v) key r.
Proof.
  intros Hr. destruct (ptr_leaf c b k v Hr) as (E1 & E2 & E3). cbn [find_le]. rewrite E1, E2, E3.
  inversion Hr as [|? ? ? _ Hlf|]; subst. rewrite Hlf. cbn [mbind option_bind lkey lvalue].
  eexists. split; [done|]. destruct (Z.leb_spec k key) as [Hle|Hgt].
  - left. exists k. split; [constructor|]. split; [done|]. intros k' v' Hk' _. inversion Hk'; subst. lia.
  - right. split; [done|]. intros k' v' Hk'. inversion Hk'; subst. lia.
Qed.

Lemma child_bounds lo len a p s ch j t :
  t_in lo len (TNode a p s ch) -> 0 <= lo -> lo + len <= 2 ^ 64 -> ch !! j = Some t ->
  0 <= p + Z.of_nat j * 2 ^ s /\ p + Z.of_nat j * 2 ^ s + 2 ^ s <= 2 ^ 64.
Proof.
  intros Ht Hlo Hhi Hj. inversion Ht as [| |? ? ? ? ? ? H1 H2 H3 H4 Hl Hch]; subst.
  apply lookup_lt_Some in Hj. destruct (pow_split s ltac:(lia)). nia.
Qed.

(** The end of find_le: the result of the child of the nibble, or the greatest
    key of the next lower child. *)
Lemma find_le_children c fuel lo len a p s ch key u r :
  rep c (TNode a p s ch) -> t_in lo len (TNode a p s ch) -> dense (TNode a p s ch) -> 0 <= lo -> lo + len <= 2 ^ 64 ->
  2 ^ s <= 2 ^ (4 * Z.of_nat fuel) -> (forall k v, has (TNode a p s ch) k v -> v <> 0) ->
  p <= key < p + 2 ^ (s + 4) -> ch !! slice_index key s = Some u -> le_result u key r ->
  exists r', (if negb (r =? 0) then Some r else
      match scan_down (child (CNode (map ptr ch) p s)) (slice_index key s) with
      | None => Some 0
      | Some m => max_value fuel c m
      end) = Some r' /\ le_result (TNode a p s ch) key r'.
Proof.
  intros Hr Ht Hd Hlo Hhi Hsl Hv Hin Hu Hres. pose proof Hr as Hr'. inversion Hr' as [| |? ? ? ? Hg Hn Hc]; subst.
  pose proof Ht as Ht'. inversion Ht' as [| |? ? ? ? ? ? H1 H2 H3 H4 Hl Hch]; subst.
  inversion Hd as [| |? ? ? ? Hcount Hdc]; subst. destruct Hres as [(k & Hk & Hle & Hm)|[-> Hno]].
  - assert (has (TNode a p s ch) k r) as Hk' by (by econstructor).
    destruct (Z.eqb_spec r 0) as [->|_]; [by destruct (Hv _ _ Hk')|]. exists r. split; [done|]. by eapply le_in_child.
  - rewrite Z.eqb_refl. cbn [negb]. pose proof (slice_lt key s).
    destruct (scan_down_spec c ch p s (slice_index key s) Hc ltac:(lia)) as [[-> Ho]|(j & t & -> & Hj & Hjt & Hnt & Ho)].
    + exists 0. split; [done|]. eapply le_below; try done. by left.
    + destruct (child_bounds _ _ _ _ _ _ _ _ Ht Hlo Hhi Hjt) as [Hb3 Hb4].
      destruct (max_value_spec c fuel _ _ t (Hc _ _ Hjt) (Hch _ _ Hjt) (Hdc _ _ Hjt) Hb3 Hb4 Hsl Hnt) as (r & E & Hmax).
      exists r. split; [exact E|]. eapply le_below; try done. right. by exists j, t.
Qed.

Lemma trie_find_le c key fuel lo len u :
  0 <= key < 2 ^ 64 -> rep c u -> t_in lo len u -> dense u -> 0 <= lo -> lo + len <= 2 ^ 64 ->
  len <= 2 ^ (4 * Z.of_nat fuel) -> (forall k v, has u k v -> v <> 0) ->
  exists r, find_le (S fuel) c (ptr u) key = Some r /\ le_result u key r.
Proof.
  intros Hkey. revert lo len u. induction fuel as [|fuel IH]; intros lo len u Hr Ht Hd Hlo Hhi Hlen Hv.
  all: destruct u as [|b k v|a p s ch]; [|by apply find_le_leaf|].
  1, 3: exists 0; split; [done|]; right; split; [done|]; intros k' v' Hk'; inversion Hk'.
  all: destruct (node_range _ _ _ _ _ _ Ht Hlo Hhi) as (Hp & Hs & Hs4 & Hpm & Hw); destruct (pow_split s ltac:(lia)) as [Ep H0].
  { simpl in Hlen. lia. }
  assert (s + 4 <= 4 * Z.of_nat (S fuel)) as Hsf.
  { assert (2 ^ (s + 4) <= 2 ^ (4 * Z.of_nat (S fuel))) as Hp2 by lia. apply Z.pow_le_mono_r_iff in Hp2; lia. }
  assert (forall f, (fuel <= f)%nat -> 2 ^ s <= 2 ^ (4 * Z.of_nat f)) as Hsl by (intros; apply Z.pow_le_mono_r; lia).
  destruct (ptr_node c a p s ch Hr) as [E1 E2]. pose proof Hr as Hr'. inversion Hr' as [| |? ? ? ? Hg Hn Hc]; subst.
  pose proof Ht as Ht'. inversion Ht' as [| |? ? ? ? ? ? H1 H2 H3 H4 Hl Hch]; subst.
  inversion Hd as [| |? ? ? ? Hcount Hdc]; subst.
  remember (S fuel) as f1 eqn:Ef. cbn [find_le]. rewrite E1, E2. cbn [ptr]. rewrite Hn.
  cbn [mbind option_bind path shift]. rewrite outside_test by done. subst f1.
  case_bool_decide as Hin; cbn [negb].
  - destruct (child_exists _ _ _ _ _ _ key Ht) as [u Hu]. rewrite (map_ptr_child _ _ _ _ _ Hu).
    destruct (child_bounds _ _ _ _ _ _ _ _ Ht Hlo Hhi Hu) as [Hb1 Hb2].
    destruct (IH _ _ u (Hc _ _ Hu) (Hch _ _ Hu) (Hdc _ _ Hu) Hb1 Hb2 ltac:(by apply Hsl)) as (r & -> & Hres).
    { intros k v Hk. apply (Hv k v). by econstructor. }
    cbn [mbind option_bind]. apply (find_le_children c (S fuel) lo len a p s ch key u r); try done. apply Hsl. lia.
  - destruct (Z.ltb_spec p key) as [Hlt|Hge].
    + destruct (find_successor_spec c (S fuel) lo len a p s ch Hr Ht Hd Hlo Hhi ltac:(lia)) as (v & E & Hmax).
      exists v. split; [done|]. by eapply le_outside.
    + exists 0. split; [done|]. right. split; [done|]. intros k' v' Hk'.
      assert (t_in p (2 ^ (s + 4)) (TNode a p s ch)) as Hin' by (constructor; try done; lia).
      pose proof (has_in _ _ _ _ _ Hin' Hk'). lia.
Qed.

Lemma critnib_find_le_trie c T fn fl fuel key :
  cn_inv c T fn fl -> remove_count c < 2 ^ 64 - DELETED_LIFE -> 0 <= key < 2 ^ 64 -> (18 <= fuel)%nat ->
  (forall k v, has T k v -> v <> 0) ->
  exists r, critnib_find_le fuel c key = Some r /\ le_result T key r.
Proof.
  intros [H1 H2 H3 H4 H5 H6 H7 H8] Hrc Hkey Hf Hv. destruct fuel as [|[|fuel]]; [lia..|].
  destruct (trie_find_le c key fuel 0 (2 ^ 64) T Hkey H2 H3 H4) as (r & E & Hres); [lia|lia| |done|].
  { apply Z.pow_le_mono_r; lia. }
  remember (S fuel) as f1 eqn:Ef. cbn [critnib_find_le]. rewrite H1, no_retry, E by lia.
  exists (if ptr T =? 0 then 0 else r). split; [by destruct (ptr T =? 0)|].
  rewrite (ptr_nonnil c T H2). destruct T; cbn [nonnil negb]; try done.
  right. split; [done|]. intros k' v' Hk'. inversion Hk'.
Qed.
