(* ===== verification/CritnibSpec.v ===== *)
(** * A critnib is a finite map

    [cn_ok c M]: the heap of [c] holds a well-formed trie whose keys and values
    are those of [M].  Every operation returns what the map says and takes the
    map to the new one; the last theorem runs any sequence of calls against the
    map specification [spec_step]. *)
From stdpp Require Import base numbers list list_numbers gmap.
From Stdlib Require Import ZArith Lia Bool.
From S2P Require Import Prelude Critnib CritnibFacts CritnibPool CritnibOps CritnibInsert CritnibRemove CritnibQuery.

Implicit Types (c : critnib) (M : gmap Z Z) (key : Z).

Definition cn_ok c M : Prop :=
  exists T fn fl, cn_inv c T fn fl /\ forall k v, M !! k = Some v <-> has T k v.

Lemma new_ok : cn_ok critnib_new ∅.
Proof.
  exists TNil, [], []. split; [|intros k v; rewrite lookup_empty; split; [done|intros H; inversion H]].
  assert (forall i (a : Z), replicate 16 0 !! i = Some a -> a = 0) as Hz.
  { intros i a Hi. by apply lookup_replicate_1 in Hi as [-> _]. }
  assert (forall next used, pool next used 0 [] (replicate 16 0)) as Hp.
  { intros next used. constructor; [constructor|done|constructor|intros a Ha; inversion Ha| |].
    - intros i a Hi Ha. by apply Hz in Hi.
    - intros i j a Hi _ Ha. by apply Hz in Hi. }
  constructor; try done; constructor.
Qed.

Lemma ok_absent M T key : (forall k v, M !! k = Some v <-> has T k v) -> M !! key = None <-> forall v, ~ has T key v.
Proof.
  intros H. split; [intros E v Hv; apply H in Hv; congruence|].
  intros Hno. destruct (M !! key) as [v|] eqn:E; [|done]. apply H in E. by destruct (Hno v).
Qed.

(** ** The operations on the map *)

Lemma insert_map c M fuel ml mn key value :
  cn_ok c M -> fresh (cn_leaves c) ml -> fresh (cn_nodes c) mn -> 0 <= key < 2 ^ 64 -> (17 <= fuel)%nat ->
  exists r c', critnib_insert fuel ml mn c key value = Some (r, c') /\
    ((r = CN_EEXIST /\ is_Some (M !! key) /\ cn_ok c' M) \/
     (r = CN_ENOMEM /\ (ml = 0 \/ mn = 0) /\ cn_ok c' M) \/
     (r = 0 /\ M !! key = None /\ cn_ok c' (<[key := value]> M))).
Proof.
  intros (T & fn & fl & Hi & HM) Hml Hmn Hk Hf.
  destruct (trie_insert c T fn fl fuel ml mn key value Hi Hml Hmn Hk Hf) as (r & c' & T' & fn' & fl' & E & I' & O).
  exists r, c'. split; [done|]. destruct O as [(-> & -> & v & Hv)|[(-> & -> & Hm)|(-> & Hno & Hh)]].
  - left. split; [done|]. split; [exists v; by apply HM|]. by exists T, fn', fl'.
  - right. left. split; [done|]. split; [done|]. by exists T, fn', fl'.
  - right. right. split; [done|]. apply (ok_absent M T key HM) in Hno. split; [done|].
    exists T', fn', fl'. split; [done|]. intros k v. rewrite (Hh k v), <- (HM k v), lookup_insert_Some.
    destruct (decide (k = key)) as [->|]; [rewrite Hno|]; intuition congruence.
Qed.

Lemma remove_map c M fuel key :
  cn_ok c M -> (17 <= fuel)%nat ->
  exists c', critnib_remove fuel c key = Some (default 0 (M !! key), c') /\ cn_ok c' (delete key M).
Proof.
  intros (T & fn & fl & Hi & HM) Hf.
  destruct (trie_remove c T fn fl fuel key Hi Hf) as (r & c' & T' & fn' & fl' & E & I' & Hr & Hrm).
  exists c'. split.
  - rewrite E. do 2 f_equal. destruct Hr as [[-> Hno]|Hh]; [by rewrite (proj2 (ok_absent M T key HM) Hno)|].
    apply HM in Hh. by rewrite Hh.
  - exists T', fn', fl'. split; [done|]. intros k v. rewrite (Hrm k v), <- (HM k v), lookup_delete_Some. intuition congruence.
Qed.

Lemma get_map c M fuel key :
  cn_ok c M -> remove_count c < 2 ^ 64 - DELETED_LIFE -> (18 <= fuel)%nat ->
  critnib_get fuel c key = Some (default 0 (M !! key)).
Proof.
  intros (T & fn & fl & Hi & HM) Hrc Hf. destruct (trie_get c T fn fl fuel key Hi Hrc Hf) as (r & -> & Hr).
  f_equal. destruct Hr as [[-> Hno]|Hh]; [by rewrite (proj2 (ok_absent M T key HM) Hno)|].
  apply HM in Hh. by rewrite Hh.
Qed.

(** The value of the greatest key that is not above [key], 0 without one. *)
Definition map_le M key (r : Z) : Prop :=
  (exists k, M !! k = Some r /\ k <= key /\ forall k', is_Some (M !! k') -> k' <= key -> k' <= k) \/
  (r = 0 /\ forall k', is_Some (M !! k') -> key < k').

Lemma find_le_map c M fuel key :
  cn_ok c M -> remove_count c < 2 ^ 64 - DELETED_LIFE -> 0 <= key < 2 ^ 64 -> (18 <= fuel)%nat ->
  map_Forall (fun _ v => v <> 0) M ->
  exists r, critnib_find_le fuel c key = Some r /\ map_le M key r.
Proof.
  intros (T & fn & fl & Hi & HM) Hrc Hk Hf HV.
  destruct (critnib_find_le_trie c T fn fl fuel key Hi Hrc Hk Hf) as (r & E & Hres).
  { intros k v Hh. apply HM in Hh. exact (HV k v Hh). }
  exists r. split; [done|]. destruct Hres as [(k & Hh & Hle & Hm)|[-> Hno]].
  - left. exists k. split; [by apply HM|]. split; [done|]. intros k' [v' Hv']. apply HM in Hv'. by eapply Hm.
  - right. split; [done|]. intros k' [v' Hv']. apply HM in Hv'. by eapply Hno.
Qed.

(** ** Sequences of calls *)

Inductive cn_call :=
| CInsert (ml mn key value : Z)   (* with what Malloc returns *)
| CRemove (key : Z)
| CGet (key : Z)
| CFindLe (key : Z).

Definition cn_exec (fuel : nat) c (call : cn_call) : option (Z * critnib) :=
  match call with
  | CInsert ml mn key value => critnib_insert fuel ml mn c key value
  | CRemove key => critnib_remove fuel c key
  | CGet key => r ← critnib_get fuel c key; Some (r, c)
  | CFindLe key => r ← critnib_find_le fuel c key; Some (r, c)
  end.

Fixpoint cn_run (fuel : nat) c (calls : list cn_call) : option (list Z * critnib) :=
  match calls with
  | [] => Some ([], c)
  | call :: calls =>
      '(r, c) ← cn_exec fuel c call;
      '(rs, c) ← cn_run fuel c calls;
      Some (r :: rs, c)
  end.

(** Malloc returns NULL or memory that is not in use; keys have 64 bits. *)
Definition call_ok c (call : cn_call) : Prop :=
  match call with
  | CInsert ml mn key value =>
      fresh (cn_leaves c) ml /\ fresh (cn_nodes c) mn /\ 0 <= key < 2 ^ 64 /\ value <> 0
  | CRemove key => True
  | CGet key => remove_count c < 2 ^ 64 - DELETED_LIFE
  | CFindLe key => remove_count c < 2 ^ 64 - DELETED_LIFE /\ 0 <= key < 2 ^ 64
  end.

Fixpoint calls_ok (fuel : nat) c (calls : list cn_call) : Prop :=
  match calls with
  | [] => True
  | call :: calls =>
      call_ok c call /\ match cn_exec fuel c call with Some (_, c) => calls_ok fuel c calls | None => True end
  end.

(** What a call may return on a map. *)
Inductive spec_step : gmap Z Z -> cn_call -> Z -> gmap Z Z -> Prop :=
| st_insert M ml mn key value :
    M !! key = None -> spec_step M (CInsert ml mn key value) 0 (<[key := value]> M)
| st_exists M ml mn key value :
    is_Some (M !! key) -> spec_step M (CInsert ml mn key value) CN_EEXIST M
| st_nomem M ml mn key value :
    ml = 0 \/ mn = 0 -> spec_step M (CInsert ml mn key value) CN_ENOMEM M
| st_remove M key : spec_step M (CRemove key) (default 0 (M !! key)) (delete key M)
| st_get M key : spec_step M (CGet key) (default 0 (M !! key)) M
| st_find_le M key r : map_le M key r -> spec_step M (CFindLe key) r M.

Inductive spec_run : gmap Z Z -> list cn_call -> list Z -> gmap Z Z -> Prop :=
| sr_nil M : spec_run M [] [] M
| sr_cons M call r M1 calls rs M2 :
    spec_step M call r M1 -> spec_run M1 calls rs M2 -> spec_run M (call :: calls) (r :: rs) M2.

Lemma exec_step c M fuel call :
  cn_ok c M -> map_Forall (fun _ v => v <> 0) M -> call_ok c call -> (18 <= fuel)%nat ->
  exists r c' M', cn_exec fuel c call = Some (r, c') /\ spec_step M call r M' /\ cn_ok c' M' /\
    map_Forall (fun _ v => v <> 0) M'.
Proof.
  intros Hok HV Hcall Hf. destruct call as [ml mn key value|key|key|key]; cbn [call_ok cn_exec] in *.
  - destruct Hcall as (Hml & Hmn & Hk & Hv).
    destruct (insert_map c M fuel ml mn key value Hok Hml Hmn Hk ltac:(lia)) as (r & c' & E & [(-> & Hs & Ho)|[(-> & Hm & Ho)|(-> & Hn & Ho)]]);
      [exists CN_EEXIST, c', M|exists CN_ENOMEM, c', M|exists 0, c', (<[key := value]> M)];
      (split; [done|]; split; [by constructor|]; split; [done|]); [done..|]. by apply map_Forall_insert_2.
  - destruct (remove_map c M fuel key Hok ltac:(lia)) as (c' & E & Ho).
    eexists _, c', _. split; [exact E|]. split; [constructor|]. split; [done|]. by apply map_Forall_delete.
  - rewrite (get_map c M fuel key Hok Hcall Hf). eexists _, c, M. split; [done|]. split; [constructor|done].
  - destruct Hcall as [Hrc Hk]. destruct (find_le_map c M fuel key Hok Hrc Hk Hf HV) as (r & -> & Hr).
    exists r, c, M. split; [done|]. split; [by constructor|done].
Qed.

Lemma run_steps fuel calls c M :
  cn_ok c M -> map_Forall (fun _ v => v <> 0) M -> calls_ok fuel c calls -> (18 <= fuel)%nat ->
  exists rs c' M', cn_run fuel c calls = Some (rs, c') /\ spec_run M calls rs M' /\ cn_ok c' M'.
Proof.
  intros Hok HV Hcalls Hf. revert c M Hok HV Hcalls. induction calls as [|call calls IH]; intros c M Hok HV Hcalls.
  - exists [], c, M. split; [done|]. split; [constructor|done].
  - destruct Hcalls as [Hcall Hrest]. destruct (exec_step c M fuel call Hok HV Hcall Hf) as (r & c1 & M1 & E & S & O & V).
    rewrite E in Hrest. destruct (IH c1 M1 O V Hrest) as (rs & c' & M' & E' & S' & O').
    cbn [cn_run]. rewrite E. cbn [mbind option_bind]. rewrite E'. cbn [mbind option_bind].
    eexists _, _, _. split; [done|]. split; [by econstructor|done].
Qed.

(** ** The properties *)

(** critnib_insert on a critnib that holds the map [M]: it returns EEXIST and
    leaves the map alone when the key is there, ENOMEM and leaves the map alone
    only when an allocation failed, and otherwise 0 with the key added, whatever
    the shape of the tree: empty, a free slot, or an edge split below the nibble
    where the keys part. *)
Theorem critnib_insert_spec c M fuel ml mn key value :
  cn_ok c M -> fresh (cn_leaves c) ml -> fresh (cn_nodes c) mn -> 0 <= key < 2 ^ 64 -> (17 <= fuel)%nat ->
  exists r c', critnib_insert fuel ml mn c key value = Some (r, c') /\
    ((r = CN_EEXIST /\ is_Some (M !! key) /\ cn_ok c' M) \/
     (r = CN_ENOMEM /\ (ml = 0 \/ mn = 0) /\ cn_ok c' M) \/
     (r = 0 /\ M !! key = None /\ cn_ok c' (<[key := value]> M))).
Proof. exact (insert_map c M fuel ml mn key value). Qed.

(** critnib_remove returns the value of the key, or 0 when it is absent, and
    the critnib then holds the map without the key: the leaf is unlinked, a node
    left with one child is replaced by it, and the retired cells of 16 removals
    ago are recycled without touching the tree. *)
Theorem critnib_remove_spec c M fuel key :
  cn_ok c M -> (17 <= fuel)%nat ->
  exists c', critnib_remove fuel c key = Some (default 0 (M !! key), c') /\ cn_ok c' (delete key M).
Proof. exact (remove_map c M fuel key). Qed.

(** critnib_get returns the value of the key, or 0 when it is absent, also
    for keys that leave the compressed paths it does not test. *)
Theorem critnib_get_spec c M fuel key :
  cn_ok c M -> remove_count c < 2 ^ 64 - DELETED_LIFE -> (18 <= fuel)%nat ->
  critnib_get fuel c key = Some (default 0 (M !! key)).
Proof. exact (get_map c M fuel key). Qed.

(** critnib_find_le returns the value of the greatest key that is less than
    or equal to the argument, or 0 when there is none, provided that no stored
    value is 0. *)
Theorem critnib_find_le_spec c M fuel key :
  cn_ok c M -> remove_count c < 2 ^ 64 - DELETED_LIFE -> 0 <= key < 2 ^ 64 -> (18 <= fuel)%nat ->
  map_Forall (fun _ v => v <> 0) M ->
  exists r, critnib_find_le fuel c key = Some r /\ map_le M key r.
Proof. exact (find_le_map c M fuel key). Qed.

(** C31. Refinement: every sequence of insertions, removals and lookups on a new
    critnib runs to its end, and its results are those of a finite map. *)
Theorem critnib_refines_map fuel calls :
  calls_ok fuel critnib_new calls -> (18 <= fuel)%nat ->
  exists rs c M, cn_run fuel critnib_new calls = Some (rs, c) /\ spec_run ∅ calls rs M /\ cn_ok c M.
Proof. intros H Hf. exact (run_steps fuel calls critnib_new ∅ new_ok (map_Forall_empty _) H Hf). Qed.

(** ** Witnesses *)

(** Keys that share their upper nibbles, one removed again. *)
Definition demo_calls : list cn_call :=
  [CInsert 16 2 4660 11; CInsert 32 4 4661 12; CInsert 48 6 4096 13; CInsert 64 8 9 14; CRemove 4661].
Definition demo : critnib := default critnib_new (snd <$> cn_run 18 critnib_new demo_calls).
Definition demo_map : gmap Z Z := delete 4661 (<[9 := 14]> (<[4096 := 13]> (<[4661 := 12]> (<[4660 := 11]> ∅)))).

Lemma fresh_good {A} (h : gmap Z A) a :
  bool_decide (0 < a < 2 ^ 64 /\ a mod 2 = 0 /\ h !! a = None) = true -> fresh h a.
Proof. intros H. apply bool_decide_eq_true in H as (H1 & H2 & H3). right. by split. Qed.

(** The conditions of a call on a concrete critnib, by evaluation. *)
Ltac call_conditions :=
  cbn [call_ok]; repeat match goal with |- _ /\ _ => split end;
  lazymatch goal with
  | |- fresh _ _ => apply fresh_good; vm_compute; reflexivity
  | |- True => exact I
  | |- _ => vm_compute; congruence
  end.

Lemma demo_calls_ok : calls_ok 18 critnib_new demo_calls.
Proof.
  unfold demo_calls.
  repeat (cbn [calls_ok]; split; [call_conditions|];
    match goal with |- match ?e with _ => _ end =>
      let x := eval vm_compute in e in assert (e = x) as -> by (vm_compute; reflexivity) end).
  exact I.
Qed.

Lemma demo_ok : cn_ok demo demo_map.
Proof.
  destruct (run_steps 18 demo_calls critnib_new ∅ new_ok (map_Forall_empty _) demo_calls_ok ltac:(lia))
    as (rs & c & M & E & S & O).
  assert (cn_run 18 critnib_new demo_calls = Some ([0; 0; 0; 0; 12], demo)) as E' by (vm_compute; reflexivity).
  generalize dependent demo. intros d E'. rewrite E' in E. injection E as <- <-. clear E'. unfold demo_calls in S.
  repeat (match goal with H : spec_run _ (_ :: _) _ _ |- _ => inversion H; clear H; subst
                        | H : spec_step _ _ _ _ |- _ => inversion H; clear H; subst; try discriminate end).
  match goal with H : spec_run _ [] _ _ |- _ => by inversion H; subst end.
Qed.

Lemma critnib_insert_witness :
  cn_ok demo demo_map /\ exists r c', critnib_insert 17 80 10 demo 4097 15 = Some (r, c') /\ r = 0 /\
    cn_ok c' (<[4097 := 15]> demo_map).
Proof.
  split; [exact demo_ok|].
  destruct (critnib_insert_spec demo demo_map 17 80 10 4097 15 demo_ok) as (r & c' & E & H);
    [apply fresh_good; vm_compute; reflexivity..|lia|lia|].
  exists r, c'. split; [exact E|]. clear E. destruct H as [(_ & [v Hv] & _)|[(_ & [H|H] & _)|(-> & _ & H)]].
  - exfalso. vm_compute in Hv. discriminate Hv.
  - discriminate H.
  - discriminate H.
  - exact (conj eq_refl H).
Defined.

Lemma critnib_remove_witness :
  cn_ok demo demo_map /\ exists c', critnib_remove 17 demo 4096 = Some (default 0 (demo_map !! 4096), c') /\
    cn_ok c' (delete 4096 demo_map).
Proof.
  split; [exact demo_ok|]. exact (critnib_remove_spec demo demo_map 17 4096 demo_ok ltac:(lia)).
Defined.

Lemma critnib_get_witness :
  remove_count demo < 2 ^ 64 - DELETED_LIFE /\ critnib_get 18 demo 4096 = Some (default 0 (demo_map !! 4096)).
Proof.
  assert (remove_count demo < 2 ^ 64 - DELETED_LIFE) as H by (vm_compute; reflexivity).
  split; [exact H|]. exact (critnib_get_spec demo demo_map 18 4096 demo_ok H ltac:(lia)).
Defined.

Lemma demo_nonzero : map_Forall (fun _ v => v <> 0) demo_map.
Proof. unfold demo_map. apply map_Forall_delete. repeat (apply map_Forall_insert_2; [done|]). apply map_Forall_empty. Qed.

Lemma critnib_find_le_witness :
  exists r, critnib_find_le 18 demo 4659 = Some r /\ map_le demo_map 4659 r.
Proof.
  apply (critnib_find_le_spec demo demo_map 18 4659 demo_ok); [vm_compute; reflexivity|lia|lia|exact demo_nonzero].
Defined.

Lemma critnib_refines_witness :
  calls_ok 18 critnib_new demo_calls /\
  exists rs c M, cn_run 18 critnib_new demo_calls = Some (rs, c) /\ spec_run ∅ demo_calls rs M /\ cn_ok c M.
Proof.
  split; [exact demo_calls_ok|]. exact (critnib_refines_map 18 demo_calls demo_calls_ok ltac:(lia)).
Defined.
