(* ===== verification/HeapLayout.v ===== *)
(** * The layout of the heap (libpmemobj/heap_layout.h, heap.h)

    A heap is a header followed by zones; a zone is a header, one 8-byte chunk
    header per chunk, and the chunks of 256 KiB.  A run is a chunk, or several,
    that starts with the size and alignment of its blocks and a bitmap.
    Structures are addresses, fields are loads at their offsets. *)
From stdpp Require Import base numbers list list_numbers.
From Stdlib Require Import ZArith Lia Bool.
From S2P Require Import Prelude Pmem Container.

Definition UINT64_MAX : Z := 2 ^ 64 - 1.

(** ** Sizes *)

Definition MAX_CHUNK : Z := 65535 - 7.
Definition CHUNKSIZE : Z := 1024 * 256.
Definition sizeof_chunk_header : Z := 8.
Definition sizeof_zone_header : Z := 64.
Definition sizeof_zone : Z := sizeof_zone_header + sizeof_chunk_header * MAX_CHUNK.
Definition sizeof_heap_header : Z := 1024.
Definition ZONE_MAX_SIZE : Z := sizeof_zone + CHUNKSIZE * MAX_CHUNK.

Definition RUN_BITS_PER_VALUE : Z := 64.
Definition sizeof_chunk_run_header : Z := 16.
Definition RUN_BASE_METADATA_VALUES : Z := sizeof_chunk_run_header / 8.
Definition RUN_BASE_METADATA_SIZE : Z := sizeof_chunk_run_header.
Definition RUN_CONTENT_SIZE : Z := CHUNKSIZE - RUN_BASE_METADATA_SIZE.
Definition RUN_CONTENT_SIZE_BYTES (size_idx : Z) : Z :=
  u64 (RUN_CONTENT_SIZE + u32 (size_idx - 1) * CHUNKSIZE).

Definition RUN_DEFAULT_METADATA_VALUES : Z := 40.
Definition RUN_DEFAULT_BITMAP_VALUES : Z := RUN_DEFAULT_METADATA_VALUES - RUN_BASE_METADATA_VALUES.
Definition RUN_DEFAULT_BITMAP_SIZE : Z := 8 * RUN_DEFAULT_BITMAP_VALUES.
Definition RUN_DEFAULT_BITMAP_NBITS : Z := RUN_BITS_PER_VALUE * RUN_DEFAULT_BITMAP_VALUES.
Definition RUN_DEFAULT_SIZE : Z := CHUNKSIZE - RUN_BASE_METADATA_SIZE - RUN_DEFAULT_BITMAP_SIZE.
Definition RUN_DEFAULT_SIZE_BYTES (size_idx : Z) : Z :=
  u64 (RUN_DEFAULT_SIZE + u32 (size_idx - 1) * CHUNKSIZE).

(** ** Flags and types *)

Definition CHUNK_FLAG_COMPACT_HEADER : Z := 1.
Definition CHUNK_FLAG_HEADER_NONE : Z := 2.
Definition CHUNK_FLAG_ALIGNED : Z := 4.
Definition CHUNK_FLAG_FLEX_BITMAP : Z := 8.

Definition CHUNK_TYPE_UNKNOWN : Z := 0.
Definition CHUNK_TYPE_FOOTER : Z := 1.
Definition CHUNK_TYPE_FREE : Z := 2.
Definition CHUNK_TYPE_USED : Z := 3.
Definition CHUNK_TYPE_RUN : Z := 4.
Definition CHUNK_TYPE_RUN_DATA : Z := 5.

Definition HEADER_LEGACY : Z := 0.
Definition HEADER_COMPACT : Z := 1.
Definition HEADER_NONE : Z := 2.
Definition MAX_HEADER_TYPES : Z := 3.

Definition header_type_to_size (t : Z) : Z :=
  if t =? HEADER_LEGACY then 64 else if t =? HEADER_COMPACT then 16 else 0.
Definition header_type_to_flag (t : Z) : Z :=
  if t =? HEADER_COMPACT then CHUNK_FLAG_COMPACT_HEADER
  else if t =? HEADER_NONE then CHUNK_FLAG_HEADER_NONE else 0.

Definition ALLOC_HDR_SIZE_SHIFT : Z := 48.
Definition ALLOC_HDR_FLAGS_MASK : Z := Z.shiftl 1 ALLOC_HDR_SIZE_SHIFT - 1.
Definition ALLOC_HDR_COMPACT_SIZE : Z := 16.

(** ** Accessors *)

Definition load16 (m : mem) (a : Z) : Z := dec_le (read_bytes m a 2).

(** The fields of [struct palloc_heap] that locate and write the heap. *)
Record palloc_heap := PHeap {
  heap_addr : Z;      (* the structure itself *)
  heap_ops : pmem_ops;
  layout : Z;
  heap_base : Z
}.

Definition ZID_TO_ZONE (layout zone_id : Z) : Z := layout + sizeof_heap_header + ZONE_MAX_SIZE * zone_id.
Definition GET_CHUNK_HDR (layout zone_id chunk_id : Z) : Z :=
  ZID_TO_ZONE layout zone_id + sizeof_zone_header + sizeof_chunk_header * chunk_id.
Definition GET_CHUNK (layout zone_id chunk_id : Z) : Z :=
  ZID_TO_ZONE layout zone_id + sizeof_zone + CHUNKSIZE * chunk_id.
Definition GET_CHUNK_RUN (layout zone_id chunk_id : Z) : Z := GET_CHUNK layout zone_id chunk_id.

Definition heap_get_chunk_hdr (heap : palloc_heap) (m : memory_block) : Z :=
  GET_CHUNK_HDR (layout heap) (zone_id m) (chunk_id m).
Definition heap_get_chunk (heap : palloc_heap) (m : memory_block) : Z :=
  GET_CHUNK (layout heap) (zone_id m) (chunk_id m).
Definition heap_get_chunk_run (heap : palloc_heap) (m : memory_block) : Z :=
  GET_CHUNK_RUN (layout heap) (zone_id m) (chunk_id m).

Definition HEAP_PTR_TO_OFF (heap : palloc_heap) (ptr : Z) : Z := u64 (ptr - heap_base heap).

(** [struct chunk_header] and [struct chunk_run]. *)
Definition hdr_type (m : mem) (hdr : Z) : Z := load16 m hdr.
Definition hdr_flags (m : mem) (hdr : Z) : Z := load16 m (hdr + 2).
Definition hdr_size_idx (m : mem) (hdr : Z) : Z := load32 m (hdr + 4).
Definition run_block_size_field (m : mem) (run : Z) : Z := load64 m run.
Definition run_alignment_field (m : mem) (run : Z) : Z := load64 m (run + 8).
Definition run_content (run : Z) : Z := run + sizeof_chunk_run_header.

(** BIT_IS_CLR(a, i). *)
Definition BIT_IS_CLR (a i : Z) : bool := Z.land a (u64 (Z.shiftl 1 i)) =? 0.

(** CALC_SIZE_IDX(unit_size, size) of bucket.h. *)
Definition CALC_SIZE_IDX (unit_size size : Z) : Z :=
  if size =? 0 then 0 else u32 ((size - 1) / unit_size + 1).

Definition util_div_ceil (a b : Z) : Z := u32 (u64 (a + b - 1) / b).
Definition util_popcount64 (v : Z) : Z :=
  Z.of_nat (length (List.filter (fun i => Z.testbit v i) (seqZ 0 64))).
