(* ===== verification/Memblock.v ===== *)
(** * Memory blocks (libpmemobj/memblock.c)

    A memory block is a huge chunk or a range of units of a run.  The functions
    read the heap's metadata from memory; those that write take and return the
    state of persistent memory.  The table [mb_ops] is indexed by the type of the
    block and the field [m_ops] holds that index; [memblock_header_ops] is indexed
    by the header type.  Callbacks are functions on a state of their own.  The
    contents of uninitialised locals are arguments.  Annotations for Valgrind
    expand to nothing. *)
From stdpp Require Import base numbers list list_numbers.
From Stdlib Require Import ZArith Lia Bool.
From S2P Require Import Prelude Pmem Ulog Memops Container Seglists HeapLayout.

Definition MEMORY_BLOCK_HUGE : Z := 0.
Definition MEMORY_BLOCK_RUN : Z := 1.
Definition MAX_MEMORY_BLOCK : Z := 2.

Inductive memblock_state := MEMBLOCK_STATE_UNKNOWN | MEMBLOCK_ALLOCATED | MEMBLOCK_FREE.

#[global] Instance memblock_state_eq : EqDecision memblock_state.
Proof. solve_decision. Defined.

Record run_bitmap := RunBitmap {
  nvalues : Z;    (* number of 8 byte values *)
  nbits : Z;      (* number of valid bits *)
  rb_size : Z;    (* total size of the bitmap in bytes *)
  values : Z      (* pointer to the bitmap's values array *)
}.

Definition bitmap_value (m : mem) (b : run_bitmap) (i : Z) : Z := load64 m (values b + 8 * i).

Definition MEMORY_BLOCK_NONE : memory_block := MBlock 0 0 0 0 0 0 MAX_HEADER_TYPES MAX_MEMORY_BLOCK.

Definition set_location (chunk zone : Z) (m : memory_block) : memory_block :=
  MBlock chunk zone (size_idx m) (block_off m) (m_ops m) (mb_heap m) (header_type m) (mb_type m).
Definition set_extent (off size : Z) (m : memory_block) : memory_block :=
  MBlock (chunk_id m) (zone_id m) size off (m_ops m) (mb_heap m) (header_type m) (mb_type m).
Definition set_runtime (ops heap htype type : Z) (m : memory_block) : memory_block :=
  MBlock (chunk_id m) (zone_id m) (size_idx m) (block_off m) ops heap htype type.

(** ** Bitmaps *)

(** The loop; [n] is [*size_idx]. *)
Fixpoint default_nallocs_loop (n : nat) (unit_size nallocs : Z) : Z * Z :=
  if nallocs <=? RUN_DEFAULT_BITMAP_NBITS then (Z.of_nat n, nallocs) else
  match n with
  | S (S _ as n) => default_nallocs_loop n unit_size (u32 (RUN_DEFAULT_SIZE_BYTES (Z.of_nat n) / unit_size))
  | _ => (Z.of_nat n, RUN_DEFAULT_BITMAP_NBITS)
  end.

Definition memblock_run_default_nallocs (size_idx flags unit_size alignment : Z) : Z * Z :=
  let '(size_idx, nallocs) := default_nallocs_loop (Z.to_nat size_idx) unit_size
      (u32 (RUN_DEFAULT_SIZE_BYTES size_idx / unit_size)) in
  (size_idx, u32 (nallocs - (if alignment =? 0 then 0 else 1))).

(** Returns the new value of [*size_idx] and the bitmap. *)
Definition memblock_run_bitmap (size_idx flags unit_size alignment content : Z) : Z * run_bitmap :=
  if flag_isset flags CHUNK_FLAG_FLEX_BITMAP then
    let content_size := RUN_CONTENT_SIZE_BYTES size_idx in
    let nb := u32 (content_size / unit_size) in
    let nv := util_div_ceil nb RUN_BITS_PER_VALUE in
    let nv := u32 (Z.land (u32 (u32 (nv + RUN_BASE_METADATA_VALUES) + 8 - 1)) (u32 (Z.lnot (8 - 1)))
                   - RUN_BASE_METADATA_VALUES) in
    let size := nv * 8 in
    let nb := u32 (u32 (u64 (content_size - size) / unit_size) - (if alignment =? 0 then 0 else 1)) in
    let unused_bits := u32 (u32 (nv * RUN_BITS_PER_VALUE) - nb) in
    let unused_values := unused_bits / RUN_BITS_PER_VALUE in
    (size_idx, RunBitmap (u32 (nv - unused_values)) nb size content)
  else
    let '(size_idx, nb) := memblock_run_default_nallocs size_idx flags unit_size alignment in
    let unused_bits := u32 (RUN_DEFAULT_BITMAP_NBITS - nb) in
    let unused_values := unused_bits / RUN_BITS_PER_VALUE in
    (size_idx, RunBitmap (u32 (RUN_DEFAULT_BITMAP_VALUES - unused_values)) nb RUN_DEFAULT_BITMAP_SIZE content).

Section Memblock.
Context (heap : palloc_heap).
Implicit Types (m : memory_block) (v : mem) (s : pmst).

Definition run_get_bitmap v m : run_bitmap :=
  let hdr := heap_get_chunk_hdr heap m in
  let run := heap_get_chunk_run heap m in
  (memblock_run_bitmap (hdr_size_idx v hdr) (hdr_flags v hdr) (run_block_size_field v run)
     (run_alignment_field v run) (run_content run)).2.

(** ** Locations and sizes *)

Definition memblock_header_type v m : Z :=
  let flags := hdr_flags v (heap_get_chunk_hdr heap m) in
  if flag_isset flags CHUNK_FLAG_COMPACT_HEADER then HEADER_COMPACT
  else if flag_isset flags CHUNK_FLAG_HEADER_NONE then HEADER_NONE
  else HEADER_LEGACY.

Definition huge_block_size m : Z := CHUNKSIZE.
Definition run_block_size v m : Z := run_block_size_field v (heap_get_chunk_run heap m).
Definition block_size v m : Z :=
  if m_ops m =? MEMORY_BLOCK_HUGE then huge_block_size m else run_block_size v m.

Definition huge_get_real_data m : Z := heap_get_chunk heap m.

Definition run_get_data_start v m : Z :=
  let hdr := heap_get_chunk_hdr heap m in
  let run := heap_get_chunk_run heap m in
  let b := run_get_bitmap v m in
  if flag_isset (hdr_flags v hdr) CHUNK_FLAG_ALIGNED then
    let hsize := header_type_to_size (header_type m) in
    let base := run_content run + rb_size b + hsize in
    ALIGN_UP base (run_alignment_field v run) - hsize
  else run_content run + rb_size b.

Definition run_get_data_offset v m : Z :=
  run_get_data_start v m - run_content (heap_get_chunk_run heap m).

Definition run_get_real_data v m : Z :=
  run_get_data_start v m + u64 (run_block_size_field v (heap_get_chunk_run heap m) * block_off m).

Definition get_real_data v m : Z :=
  if m_ops m =? MEMORY_BLOCK_HUGE then huge_get_real_data m else run_get_real_data v m.

Definition block_get_user_data v m : Z := get_real_data v m + header_type_to_size (header_type m).

(** ** Allocation headers *)

(** Offsets in [struct allocation_header_legacy]. *)
Definition legacy_size (hdr : Z) : Z := hdr + 8.
Definition legacy_root_size (hdr : Z) : Z := hdr + 48.
Definition legacy_type_num (hdr : Z) : Z := hdr + 56.

Definition memblock_header_legacy_get_size v m : Z := load64 v (legacy_size (get_real_data v m)).
Definition memblock_header_compact_get_size v m : Z :=
  Z.land (load64 v (get_real_data v m)) ALLOC_HDR_FLAGS_MASK.
Definition memblock_header_none_get_size v m : Z := block_size v m.

Definition memblock_header_legacy_get_extra v m : Z := load64 v (legacy_type_num (get_real_data v m)).
Definition memblock_header_compact_get_extra v m : Z := load64 v (get_real_data v m + 8).
Definition memblock_header_none_get_extra v m : Z := 0.

Definition u16 (x : Z) : Z := x mod 2 ^ 16.
Definition memblock_header_legacy_get_flags v m : Z :=
  u16 (Z.shiftr (load64 v (legacy_root_size (get_real_data v m))) ALLOC_HDR_SIZE_SHIFT).
Definition memblock_header_compact_get_flags v m : Z :=
  u16 (Z.shiftr (load64 v (get_real_data v m)) ALLOC_HDR_SIZE_SHIFT).
Definition memblock_header_none_get_flags v m : Z := 0.

Definition header_write_flags : Z := Z.lor PMEM_F_MEM_WC (Z.lor PMEM_F_MEM_NODRAIN PMEMOBJ_F_RELAXED).

(** [unused], [unused2]: the fields of the local header that are not set. *)
Definition memblock_header_legacy_write (unused unused2 : list byte) m (size extra flags : Z) s : pmst :=
  let hdr := unused ++ le64 size ++ unused2 ++ le64 (u64 (Z.shiftl flags ALLOC_HDR_SIZE_SHIFT)) ++ le64 extra in
  pmemops_memcpy_from (heap_ops heap) (get_real_data (vis s) m) hdr header_write_flags s.

(** [padding]: the part of the local buffer after the header. *)
Definition memblock_header_compact_write (padding : list byte) m (size extra flags : Z) s : pmst :=
  let padded := le64 (Z.lor size (u64 (Z.shiftl flags ALLOC_HDR_SIZE_SHIFT))) ++ le64 extra ++ padding in
  let hdrp := get_real_data (vis s) m in
  let hdr_size := if (hdrp mod CACHELINE_SIZE =? 0) && (CACHELINE_SIZE <=? size)
                  then CACHELINE_SIZE else ALLOC_HDR_COMPACT_SIZE in
  pmemops_memcpy_from (heap_ops heap) hdrp (take (Z.to_nat hdr_size) padded) header_write_flags s.

Definition memblock_header_none_write m (size extra flags : Z) s : pmst := s.

(** The table memblock_header_ops. *)
Definition header_get_size v m : Z :=
  if header_type m =? HEADER_LEGACY then memblock_header_legacy_get_size v m
  else if header_type m =? HEADER_COMPACT then memblock_header_compact_get_size v m
  else memblock_header_none_get_size v m.

Definition block_get_real_size v m : Z :=
  if negb (size_idx m =? 0) then u64 (block_size v m * size_idx m) else header_get_size v m.

Definition block_get_user_size v m : Z :=
  u64 (block_get_real_size v m - header_type_to_size (header_type m)).

Definition block_write_header (unused unused2 padding : list byte) m (extra_field flags : Z) s : pmst :=
  let size := block_get_real_size (vis s) m in
  if header_type m =? HEADER_LEGACY then memblock_header_legacy_write unused unused2 m size extra_field flags s
  else if header_type m =? HEADER_COMPACT then memblock_header_compact_write padding m size extra_field flags s
  else memblock_header_none_write m size extra_field flags s.

Definition block_get_extra v m : Z :=
  if header_type m =? HEADER_LEGACY then memblock_header_legacy_get_extra v m
  else if header_type m =? HEADER_COMPACT then memblock_header_compact_get_extra v m
  else memblock_header_none_get_extra v m.

Definition block_get_flags v m : Z :=
  if header_type m =? HEADER_LEGACY then memblock_header_legacy_get_flags v m
  else if header_type m =? HEADER_COMPACT then memblock_header_compact_get_flags v m
  else memblock_header_none_get_flags v m.

(** ** State *)

Definition chunk_get_chunk_hdr_value (type flags size_idx : Z) : Z :=
  dec_le (enc_le 2 type ++ enc_le 2 flags ++ enc_le 4 size_idx).

(** [ra], [ok]: what the allocator returns to operation_add_entry; the second
    pair is for the footer's entry. *)
Definition huge_prep_operation_hdr (ra : Z) (ok : bool) (ra' : Z) (ok' : bool) m (op : memblock_state)
    (ctx : option operation_context) (ws : world) : option operation_context * world :=
  let hdr := heap_get_chunk_hdr heap m in
  let val := chunk_get_chunk_hdr_value
    (if decide (op = MEMBLOCK_ALLOCATED) then CHUNK_TYPE_USED else CHUNK_TYPE_FREE)
    (hdr_flags (vis ws.2) hdr) (size_idx m) in
  let '(ctx, ws) :=
    match ctx with
    | None => (None, (ws.1, pmemops_persist (heap_ops heap) hdr sizeof_chunk_header (st_store64 hdr val ws.2)))
    | Some c => let '(_, c, ws) := operation_add_entry ra ok c hdr val ULOG_OPERATION_SET ws in (Some c, ws)
    end in
  if size_idx m =? 1 then (ctx, ws) else
  let footer := hdr + 8 * (size_idx m - 1) in
  let val := chunk_get_chunk_hdr_value CHUNK_TYPE_FOOTER 0 (size_idx m) in
  match ctx with
  | None => (None, (ws.1, st_store64 footer val ws.2))
  | Some c =>
      let '(_, c, s) := operation_add_typed_entry ra' ok' c footer val ULOG_OPERATION_SET LOG_TRANSIENT ws.2 in
      (Some c, (ws.1, s))
  end.

Definition run_mask m : Z :=
  if size_idx m =? RUN_BITS_PER_VALUE then UINT64_MAX
  else u64 (Z.shiftl (u64 (u64 (Z.shiftl 1 (size_idx m)) - 1)) (block_off m mod RUN_BITS_PER_VALUE)).

Definition run_prep_operation_hdr (ra : Z) (ok : bool) m (op : memblock_state) (ctx : operation_context)
    (ws : world) : operation_context * world :=
  let bmask := run_mask m in
  let bpos := block_off m / RUN_BITS_PER_VALUE in
  let b := run_get_bitmap (vis ws.2) m in
  match op with
  | MEMBLOCK_ALLOCATED =>
      let '(_, ctx, ws) := operation_add_entry ra ok ctx (values b + 8 * bpos) bmask ULOG_OPERATION_OR ws in (ctx, ws)
  | MEMBLOCK_FREE =>
      let '(_, ctx, ws) := operation_add_entry ra ok ctx (values b + 8 * bpos) (u64 (Z.lnot bmask))
        ULOG_OPERATION_AND ws in (ctx, ws)
  | MEMBLOCK_STATE_UNKNOWN => (ctx, ws)
  end.

Definition huge_get_state v m : memblock_state :=
  let type := hdr_type v (heap_get_chunk_hdr heap m) in
  if type =? CHUNK_TYPE_USED then MEMBLOCK_ALLOCATED
  else if type =? CHUNK_TYPE_FREE then MEMBLOCK_FREE
  else MEMBLOCK_STATE_UNKNOWN.

Definition run_get_state v m : memblock_state :=
  let b := run_get_bitmap v m in
  let bitmap := bitmap_value v b (block_off m / RUN_BITS_PER_VALUE) in
  let bit := block_off m mod RUN_BITS_PER_VALUE in
  if forallb (BIT_IS_CLR bitmap) (seqZ bit (size_idx m)) then MEMBLOCK_FREE else MEMBLOCK_ALLOCATED.

Definition huge_ensure_header_type m (t : Z) s : pmst :=
  let hdr := heap_get_chunk_hdr heap m in
  let flags := hdr_flags (vis s) hdr in
  if Z.land flags (header_type_to_flag t) =? 0 then
    pmemops_persist (heap_ops heap) hdr sizeof_chunk_header
      (st_store (hdr + 2) (enc_le 2 (Z.lor flags (header_type_to_flag t))) s)
  else s.

(** ** Runtime fields *)

(** [None]: an unknown chunk type aborts. *)
Definition memblock_detect_type v m : option Z :=
  let type := hdr_type v (heap_get_chunk_hdr heap m) in
  if (type =? CHUNK_TYPE_RUN) || (type =? CHUNK_TYPE_RUN_DATA) then Some MEMORY_BLOCK_RUN
  else if (type =? CHUNK_TYPE_FREE) || (type =? CHUNK_TYPE_USED) || (type =? CHUNK_TYPE_FOOTER)
  then Some MEMORY_BLOCK_HUGE
  else None.

Definition memblock_rebuild_state v m : option memory_block :=
  t ← memblock_detect_type v m;
  Some (set_runtime t (heap_addr heap) (memblock_header_type v m) t m).

(** ** Iteration *)

(** The do-while loop: [shift] bits of the value are done. *)
Fixpoint process_bitmap_loop {A} (fuel : nat) v (cb : memory_block -> A -> Z * A) m
    (value base_offset shift : Z) (arg : A) : option (Z * A) :=
  match fuel with
  | O => None
  | S fuel =>
      let shifted := Z.shiftr value shift in
      if shifted =? 0 then
        let st := set_extent (u32 (base_offset + shift)) (u32 (RUN_BITS_PER_VALUE - shift)) m in
        let '(ret, arg) := cb st arg in
        if negb (ret =? 0) then Some (ret, arg) else Some (0, arg)
      else if shifted =? UINT64_MAX then Some (0, arg)
      else
        let off := util_lssb_index64 (u64 (Z.lnot shifted)) in
        let size := util_lssb_index64 shifted in
        let shift := u64 (shift + off + size) in
        if negb (size =? 0) then
          st ← memblock_rebuild_state v (set_extent (u32 (base_offset + (shift - size))) size m);
          let '(ret, arg) := cb st arg in
          if negb (ret =? 0) then Some (ret, arg)
          else if shift =? RUN_BITS_PER_VALUE then Some (0, arg)
          else process_bitmap_loop fuel v cb st value base_offset shift arg
        else if shift =? RUN_BITS_PER_VALUE then Some (0, arg)
        else process_bitmap_loop fuel v cb m value base_offset shift arg
  end.

Definition run_process_bitmap_value {A} v (cb : memory_block -> A -> Z * A) m
    (value base_offset : Z) (arg : A) : option (Z * A) :=
  process_bitmap_loop 65 v cb m value base_offset 0 arg.

(** The loop over the values; [n] values are left. *)
Fixpoint iterate_free_loop {A} (n : nat) v (cb : memory_block -> A -> Z * A) m (b : run_bitmap) (i : Z)
    (arg : A) : option (Z * A) :=
  match n with
  | O => Some (0, arg)
  | S n =>
      '(ret, arg) ← run_process_bitmap_value v cb m (bitmap_value v b i) (u32 (RUN_BITS_PER_VALUE * i)) arg;
      if negb (ret =? 0) then Some (ret, arg) else iterate_free_loop n v cb m b (i + 1) arg
  end.

Definition run_iterate_free {A} v m (cb : memory_block -> A -> Z * A) (arg : A) : option (Z * A) :=
  let b := run_get_bitmap v m in
  iterate_free_loop (Z.to_nat (nvalues b)) v cb m b 0 arg.

(** The inner loop of run_iterate_used; the callback does not change the heap. *)
Fixpoint iterate_used_value {A} (fuel : nat) v (cb : memory_block -> A -> Z * A) (iter : memory_block)
    (nb value block_off j : Z) (arg : A) : option (Z * memory_block * A) :=
  if (RUN_BITS_PER_VALUE <=? j) || (nb <=? u32 (block_off + j)) then Some (0, iter, arg) else
  match fuel with
  | O => None
  | S fuel =>
      if negb (BIT_IS_CLR value j) then
        let iter := set_extent (u32 (block_off + j)) 0 iter in
        let '(ret, arg) := cb iter arg in
        if negb (ret =? 0) then Some (1, iter, arg) else
        let sz := CALC_SIZE_IDX (run_block_size_field v (heap_get_chunk_run heap iter)) (block_get_real_size v iter) in
        let iter := set_extent (Container.block_off iter) sz iter in
        iterate_used_value fuel v cb iter nb value block_off (u32 (j + sz)) arg
      else iterate_used_value fuel v cb iter nb value block_off (j + 1) arg
  end.

Fixpoint iterate_used_loop {A} (n : nat) (fuel : nat) v (cb : memory_block -> A -> Z * A) (iter : memory_block)
    (b : run_bitmap) (i block_start : Z) (arg : A) : option (Z * A) :=
  match n with
  | O => Some (0, arg)
  | S n =>
      '(ret, iter, arg) ← iterate_used_value fuel v cb iter (nbits b) (bitmap_value v b i)
         (u32 (RUN_BITS_PER_VALUE * i)) block_start arg;
      if negb (ret =? 0) then Some (1, arg) else iterate_used_loop n fuel v cb iter b (i + 1) 0 arg
  end.

Definition run_iterate_used {A} (fuel : nat) v m (cb : memory_block -> A -> Z * A) (arg : A) : option (Z * A) :=
  let i := block_off m / RUN_BITS_PER_VALUE in
  let block_start := block_off m mod RUN_BITS_PER_VALUE in
  let b := run_get_bitmap v m in
  iterate_used_loop (Z.to_nat (nvalues b - i)) fuel v cb m b i block_start arg.

Definition huge_iterate_free {A} v m (cb : memory_block -> A -> Z * A) (arg : A) : Z * A :=
  if hdr_type v (heap_get_chunk_hdr heap m) =? CHUNK_TYPE_FREE then cb m arg else (0, arg).
Definition huge_iterate_used {A} v m (cb : memory_block -> A -> Z * A) (arg : A) : Z * A :=
  if hdr_type v (heap_get_chunk_hdr heap m) =? CHUNK_TYPE_USED then cb m arg else (0, arg).

(** ** Free space *)

(** The longest run of set bits: the loop [value &= value << 1]. *)
Fixpoint longest_run_loop (fuel : nat) (value n : Z) : Z :=
  match fuel with
  | O => n
  | S fuel => if value =? 0 then n else longest_run_loop fuel (Z.land value (u64 (Z.shiftl value 1))) (u16 (n + 1))
  end.

Definition calc_free_value (value : Z) (acc : Z * Z) : Z * Z :=
  let '(free_space, max_free_block) := acc in
  if value =? 0 then acc else
  let free_in_value := util_popcount64 value in
  let free_space := u32 (free_space + free_in_value) in
  if free_in_value <? max_free_block then (free_space, max_free_block) else
  if free_in_value =? RUN_BITS_PER_VALUE then (free_space, RUN_BITS_PER_VALUE) else
  if max_free_block =? RUN_BITS_PER_VALUE then (free_space, max_free_block) else
  let n := longest_run_loop 65 value 0 in
  (free_space, if max_free_block <? n then n else max_free_block).

(** Returns [*free_space] and [*max_free_block]. *)
Definition run_calc_free v m (free_space max_free_block : Z) : Z * Z :=
  let b := run_get_bitmap v m in
  foldl (fun acc i => calc_free_value (u64 (Z.lnot (bitmap_value v b i))) acc) (free_space, max_free_block)
    (seqZ 0 (nvalues b)).

(** ** Initialisation *)

Definition huge_write_footer (hdr size_idx : Z) s : pmst :=
  if size_idx =? 1 then s else
  st_store (hdr + 8 * (size_idx - 1))
    (enc_le 2 CHUNK_TYPE_FOOTER ++ enc_le 2 (hdr_flags (vis s) hdr) ++ enc_le 4 size_idx) s.

Definition huge_reinit_chunk m s : pmst :=
  let hdr := heap_get_chunk_hdr heap m in
  if hdr_type (vis s) hdr =? CHUNK_TYPE_USED then huge_write_footer hdr (hdr_size_idx (vis s) hdr) s else s.

Definition memblock_huge_init (chunk_id zone_id size_idx : Z) s : option (memory_block * pmst) :=
  let m := set_runtime 0 (heap_addr heap) MAX_HEADER_TYPES MAX_MEMORY_BLOCK
             (set_extent 0 size_idx (set_location chunk_id zone_id MEMORY_BLOCK_NONE)) in
  let hdr := heap_get_chunk_hdr heap m in
  let s := st_store hdr (enc_le 2 CHUNK_TYPE_FREE ++ enc_le 2 0 ++ enc_le 4 size_idx) s in
  let s := pmemops_persist (heap_ops heap) hdr sizeof_chunk_header s in
  let s := huge_write_footer hdr size_idx s in
  m ← memblock_rebuild_state (vis s) m;
  Some (m, s).

(** The loop over the headers of the run's other chunks. *)
Fixpoint write_data_headers (n : nat) (z chunk_id i : Z) s : pmst :=
  match n with
  | O => s
  | S n =>
      let data_hdr := z + sizeof_zone_header + sizeof_chunk_header * (chunk_id + i) in
      write_data_headers n z chunk_id (i + 1)
        (st_store data_hdr (enc_le 2 CHUNK_TYPE_RUN_DATA ++ enc_le 2 0 ++ enc_le 4 i) s)
  end.

Definition memset (a c n : Z) s : pmst := st_store a (replicate (Z.to_nat n) (byte_of_Z c)) s.

Definition memblock_run_init (chunk_id zone_id size_idx flags unit_size alignment : Z) s
    : option (memory_block * pmst) :=
  let m := set_runtime 0 (heap_addr heap) MAX_HEADER_TYPES MAX_MEMORY_BLOCK
             (set_extent 0 size_idx (set_location chunk_id zone_id MEMORY_BLOCK_NONE)) in
  let z := ZID_TO_ZONE (layout heap) zone_id in
  let run := heap_get_chunk_run heap m in
  let s := st_store64 run unit_size s in
  let s := st_store64 (run + 8) alignment s in
  let '(size_idx, b) := memblock_run_bitmap size_idx flags unit_size alignment (run_content run) in
  let s := memset (values b) 255 (rb_size b) s in
  let s := memset (values b) 0 (8 * u32 (nvalues b - 1)) s in
  let trailing_bits := nbits b mod RUN_BITS_PER_VALUE in
  let last_value := u64 (Z.shiftl UINT64_MAX trailing_bits) in
  let s := st_store64 (values b + 8 * u32 (nvalues b - 1)) last_value s in
  let s := pmemops_flush (heap_ops heap) run (sizeof_chunk_run_header + rb_size b) s in
  let s := write_data_headers (Z.to_nat (size_idx - 1)) z chunk_id 1 s in
  let s := pmemops_persist (heap_ops heap) (z + sizeof_zone_header + sizeof_chunk_header * (chunk_id + 1))
             (sizeof_chunk_header * u32 (size_idx - 1)) s in
  let hdr := z + sizeof_zone_header + sizeof_chunk_header * chunk_id in
  let s := st_store hdr (enc_le 2 CHUNK_TYPE_RUN ++ enc_le 2 flags ++ enc_le 4 (hdr_size_idx (vis s) hdr)) s in
  let s := pmemops_persist (heap_ops heap) hdr sizeof_chunk_header s in
  m ← memblock_rebuild_state (vis s) m;
  Some (m, s).

(** ** From an offset to a block *)

(** The zone, the first chunk and the offset in it. *)
Definition locate_offset v (off : Z) : Z * Z * Z :=
  let off := u64 (off - HEAP_PTR_TO_OFF heap (layout heap + sizeof_heap_header)) in
  let zone := u32 (off / ZONE_MAX_SIZE) in
  let off := u64 (off - u64 (u64 (ZONE_MAX_SIZE * zone) + sizeof_zone)) in
  let chunk := u32 (off / CHUNKSIZE) in
  let hdr := GET_CHUNK_HDR (layout heap) zone chunk in
  let chunk := if hdr_type v hdr =? CHUNK_TYPE_RUN_DATA then u32 (chunk - hdr_size_idx v hdr) else chunk in
  (zone, chunk, u64 (off - u64 (CHUNKSIZE * chunk))).

Definition memblock_from_offset_opt v (off : Z) (size : bool) : memory_block :=
  let '(zone, chunk, off) := locate_offset v off in
  let m := set_location chunk zone MEMORY_BLOCK_NONE in
  let htype := memblock_header_type v m in
  let off := u64 (off - header_type_to_size htype) in
  let type := if off =? 0 then MEMORY_BLOCK_HUGE else MEMORY_BLOCK_RUN in
  let m := set_runtime type (heap_addr heap) htype type m in
  let unit_size := block_size v m in
  let m :=
    if off =? 0 then m else
    let off := u64 (off - run_get_data_offset v m) in
    let off := u64 (off - RUN_BASE_METADATA_SIZE) in
    set_extent (u16 (off / unit_size)) (size_idx m) m in
  let sz := if size then CALC_SIZE_IDX unit_size (header_get_size v m) else 0 in
  set_extent (Container.block_off m) sz m.

Definition memblock_from_offset v (off : Z) : memory_block := memblock_from_offset_opt v off true.
End Memblock.
