(* ===== verification/MemblockBits.v ===== *)
(** * Free ranges of a bitmap value

    [gaps] scans bits one by one and lists the maximal ranges of clear ones; it
    is the reference for the loops of memblock.c that jump from range to range
    with count-trailing-zeros, and that measure the longest range by shifting. *)
From stdpp Require Import base numbers list list_numbers.
From Stdlib Require Import ZArith Lia Bool.
From S2P Require Import Prelude Pmem Container Seglists HeapLayout Memblock.

Fixpoint gaps (used : Z -> bool) (n : nat) (pos cur : Z) : list (Z * Z) :=
  match n with
  | O => if cur =? 0 then [] else [(pos - cur, cur)]
  | S n =>
      if used pos then (if cur =? 0 then [] else [(pos - cur, cur)]) ++ gaps used n (pos + 1) 0
      else gaps used n (pos + 1) (cur + 1)
  end.

(** Unfolding 64 steps of the loops on an unknown value is exponential. *)
#[global] Strategy opaque [gaps longest_run_loop].

(** The free ranges of a 64-bit value. *)
Definition value_gaps (v : Z) : list (Z * Z) := gaps (Z.testbit v) 64 0 0.

Lemma gaps_skip used n pos k :
  (forall j, pos <= j < pos + Z.of_nat k -> used j = true) -> (k <= n)%nat ->
  gaps used n pos 0 = gaps used (n - k) (pos + Z.of_nat k) 0.
Proof.
  revert n pos. induction k as [|k IH]; intros n pos Hu Hk; [by rewrite Nat.sub_0_r, Z.add_0_r|].
  destruct n as [|n]; [lia|]. cbn [gaps]. rewrite Hu by lia. cbn [Z.eqb app].
  rewrite (IH n (pos + 1)); [|intros j Hj; apply Hu; lia|lia]. f_equal; lia.
Qed.

Lemma gaps_count used n pos cur k :
  (forall j, pos <= j < pos + Z.of_nat k -> used j = false) -> (k <= n)%nat ->
  gaps used n pos cur = gaps used (n - k) (pos + Z.of_nat k) (cur + Z.of_nat k).
Proof.
  revert n pos cur. induction k as [|k IH]; intros n pos cur Hu Hk; [by rewrite Nat.sub_0_r, !Z.add_0_r|].
  destruct n as [|n]; [lia|]. cbn [gaps]. rewrite Hu by lia.
  rewrite (IH n (pos + 1)); [|intros j Hj; apply Hu; lia|lia]. f_equal; lia.
Qed.

Lemma gaps_emit used n pos cur :
  0 < cur -> (n = 0%nat \/ used pos = true) -> gaps used n pos cur = (pos - cur, cur) :: gaps used n pos 0.
Proof.
  intros Hc Hn. destruct n as [|n]; cbn [gaps]; [destruct (Z.eqb_spec cur 0); [lia|done]|].
  destruct Hn as [|Hn]; [done|]. rewrite Hn. destruct (Z.eqb_spec cur 0); [lia|]. done.
Qed.

(** ** What the scan finds *)

Definition covered (l : list (Z * Z)) (x : Z) : Prop := exists o s, (o, s) ∈ l /\ o <= x < o + s.

Lemma covered_cons o s l x : covered ((o, s) :: l) x <-> o <= x < o + s \/ covered l x.
Proof.
  split.
  - intros (o' & s' & H & Hx). apply elem_of_cons in H as [[= -> ->]|H]; [by left|right; by exists o', s'].
  - intros [H|(o' & s' & H & Hx)]; [exists o, s; split; [left|done]|exists o', s'; split; [by right|done]].
Qed.

Lemma gaps_covered used n pos cur x :
  0 <= cur -> covered (gaps used n pos cur) x <->
  pos - cur <= x < pos \/ (pos <= x < pos + Z.of_nat n /\ used x = false).
Proof.
  revert pos cur. induction n as [|n IH]; intros pos cur Hc; cbn [gaps].
  - destruct (Z.eqb_spec cur 0) as [->|].
    + split; [intros (o & s & H & _); inversion H|lia].
    + rewrite covered_cons. split; [intros [H|(o & s & H & _)]; [lia|inversion H]|lia].
  - destruct (used pos) eqn:Hu.
    + assert (covered ((if cur =? 0 then [] else [(pos - cur, cur)]) ++ gaps used n (pos + 1) 0) x <->
        pos - cur <= x < pos \/ covered (gaps used n (pos + 1) 0) x) as ->.
      { destruct (Z.eqb_spec cur 0) as [->|]; cbn [app]; [intuition lia|]. rewrite covered_cons. intuition lia. }
      rewrite IH by lia. destruct (Z.eq_dec x pos) as [->|]; [rewrite Hu|]; intuition (lia || congruence).
    + rewrite IH by lia. destruct (Z.eq_dec x pos) as [->|]; [rewrite Hu|]; intuition lia.
Qed.

Lemma gaps_elem used n pos cur o s :
  0 <= cur -> (o, s) ∈ gaps used n pos cur ->
  0 < s /\ pos - cur <= o /\ o + s <= pos + Z.of_nat n /\ (o + s = pos + Z.of_nat n \/ used (o + s) = true) /\
  (o = pos - cur \/ used (o - 1) = true).
Proof.
  revert pos cur. induction n as [|n IH]; intros pos cur Hc H; cbn [gaps] in H.
  - destruct (Z.eqb_spec cur 0); [inversion H|]. apply list_elem_of_singleton in H as [= -> ->]. lia.
  - destruct (used pos) eqn:Hu.
    + apply elem_of_app in H as [H|H].
      * destruct (Z.eqb_spec cur 0); [inversion H|]. apply list_elem_of_singleton in H as [= -> ->].
        replace (pos - cur + cur) with pos by lia. rewrite Hu. intuition lia.
      * apply IH in H as (H1 & H2 & H3 & H4 & H5); [|lia]. split; [lia|]. split; [lia|]. split; [lia|].
        split; [destruct H4; [left; lia|by right]|]. right. destruct H5 as [->|]; [|done].
        by replace (pos + 1 - 0 - 1) with pos by lia.
    + apply IH in H as (H1 & H2 & H3 & H4 & H5); [|lia]. split; [lia|]. split; [lia|]. split; [lia|].
      split; [destruct H4; [left; lia|by right]|]. destruct H5; [left; lia|by right].
Qed.

(** The ranges are in increasing order, with a used bit between two of them. *)
Inductive separated : Z -> list (Z * Z) -> Prop :=
| sep_nil lo : separated lo []
| sep_cons lo o s l : lo <= o -> 0 < s -> separated (o + s + 1) l -> separated lo ((o, s) :: l).

Lemma separated_weaken lo lo' l : separated lo l -> lo' <= lo -> separated lo' l.
Proof. intros H Hlo. inversion H; subst; constructor; lia || done. Qed.

Lemma gaps_separated used n pos cur : 0 <= cur -> separated (pos - cur) (gaps used n pos cur).
Proof.
  revert pos cur. induction n as [|n IH]; intros pos cur Hc; cbn [gaps].
  - destruct (Z.eqb_spec cur 0); constructor; try lia. constructor.
  - destruct (used pos).
    + specialize (IH (pos + 1) 0 ltac:(lia)). destruct (Z.eqb_spec cur 0); cbn [app].
      * eapply separated_weaken; [exact IH|lia].
      * constructor; [lia..|]. eapply separated_weaken; [exact IH|lia].
    + specialize (IH (pos + 1) (cur + 1) ltac:(lia)). eapply separated_weaken; [exact IH|lia].
Qed.

(** ** Totals *)

Definition total (l : list (Z * Z)) : Z := foldr (fun g acc => g.2 + acc) 0 l.
Definition longest (l : list (Z * Z)) : Z := foldr (fun g acc => Z.max g.2 acc) 0 l.

Lemma gaps_total used n pos cur :
  0 <= cur -> total (gaps used n pos cur) =
  cur + Z.of_nat (length (List.filter (fun i => negb (used i)) (seqZ pos (Z.of_nat n)))).
Proof.
  revert pos cur. induction n as [|n IH]; intros pos cur Hc; cbn [gaps].
  - rewrite seqZ_nil by done. destruct (Z.eqb_spec cur 0) as [->|]; cbn; lia.
  - rewrite Nat2Z.inj_succ, seqZ_cons, Z.pred_succ by lia. cbn [List.filter].
    change (Z.succ pos) with (pos + 1). destruct (used pos); cbn [negb].
    + specialize (IH (pos + 1) 0 ltac:(lia)). unfold total in *.
      destruct (Z.eqb_spec cur 0) as [->|]; cbn [app foldr snd]; lia.
    + rewrite IH by lia. cbn [length]. lia.
Qed.

Lemma longest_ge l k : 0 < k -> k <= longest l <-> exists o s, (o, s) ∈ l /\ k <= s.
Proof.
  intros Hk. induction l as [|[o s] l IH]; cbn [longest foldr snd]; [split; [lia|intros (o & s & H & _); inversion H]|].
  fold (longest l). rewrite Z.max_le_iff, IH. split.
  - intros [H|(o' & s' & H & Hs)]; [exists o, s; split; [left|done]|exists o', s'; split; [by right|done]].
  - intros (o' & s' & H & Hs). apply elem_of_cons in H as [[= -> ->]|H]; [by left|right; by exists o', s'].
Qed.

Lemma longest_nonneg l : 0 <= longest l.
Proof. induction l as [|[o s] l IH]; cbn [longest foldr snd]; [lia|]. fold (longest l). lia. Qed.

Lemma longest_le_total l : (forall o s, (o, s) ∈ l -> 0 < s) -> longest l <= total l /\ 0 <= total l.
Proof.
  induction l as [|[o s] l IH]; intros H; [cbn; lia|]. cbn [longest total foldr snd]. fold (longest l) (total l).
  assert (0 < s) by (apply (H o); left). destruct IH as [IH1 IH2]; [intros o' s' Hin; apply (H o'); by right|].
  pose proof (longest_nonneg l). lia.
Qed.

(** ** One value *)

Lemma value_gaps_elem v o s :
  (o, s) ∈ value_gaps v ->
  0 < s /\ 0 <= o /\ o + s <= 64 /\ (o + s = 64 \/ Z.testbit v (o + s) = true) /\ (o = 0 \/ Z.testbit v (o - 1) = true).
Proof.
  intros H. unfold value_gaps in H. destruct (gaps_elem (Z.testbit v) 64 0 0 o s ltac:(lia) H) as (G1 & G2 & G3 & G4 & G5).
  split; [lia|]. split; [lia|]. split; [lia|]. split; [destruct G4; [left; lia|by right]|destruct G5; [left; lia|by right]].
Qed.

Lemma value_gaps_covered v x : 0 <= x < 64 -> covered (value_gaps v) x <-> Z.testbit v x = false.
Proof.
  intros Hx. unfold value_gaps. rewrite gaps_covered by lia. change (Z.of_nat 64) with 64. intuition lia.
Qed.
