(* ===== verification/MemblockRun.v ===== *)
(** * Runs: iteration over free blocks and their accounting *)
From stdpp Require Import base numbers list list_numbers.
From Stdlib Require Import ZArith Lia Bool.
From S2P Require Import Prelude Pmem Container Seglists HeapLayout Memblock MemblockBits.

(** Calling the callback on a list of blocks, up to the first error. *)
Fixpoint visit {A} (cb : memory_block -> A -> Z * A) (bs : list memory_block) (arg : A) : Z * A :=
  match bs with
  | [] => (0, arg)
  | b :: bs => let '(ret, arg) := cb b arg in if negb (ret =? 0) then (ret, arg) else visit cb bs arg
  end.

Lemma visit_app {A} (cb : memory_block -> A -> Z * A) b1 b2 arg :
  visit cb (b1 ++ b2) arg =
  let '(ret, arg) := visit cb b1 arg in if negb (ret =? 0) then (ret, arg) else visit cb b2 arg.
Proof.
  revert arg. induction b1 as [|b b1 IH]; intros arg; [done|]. cbn [app visit].
  destruct (cb b arg) as [ret a]. destruct (ret =? 0) eqn:E; cbn [negb]; [apply IH|by rewrite E].
Qed.

Definition blocks_at (m : memory_block) (base : Z) (l : list (Z * Z)) : list memory_block :=
  map (fun g => set_extent (base + g.1) g.2 m) l.

(** ** Bits of the shifted value *)

Lemma shifted_range v s : 0 <= v < 2 ^ 64 -> 0 <= s -> 0 <= Z.shiftr v s < 2 ^ 64 /\ (1 <= s -> Z.shiftr v s < 2 ^ 63).
Proof.
  intros Hv Hs. rewrite Z.shiftr_div_pow2 by done. pose proof (Z.pow_pos_nonneg 2 s ltac:(lia) Hs).
  split; [split; [apply Z.div_pos; lia|apply Z.div_lt_upper_bound; nia]|].
  intros Hs1. assert (2 ^ 1 <= 2 ^ s) by (apply Z.pow_le_mono_r; lia).
  apply Z.div_lt_upper_bound; [lia|]. change (2 ^ 64) with (2 * 2 ^ 63) in Hv. nia.
Qed.

Lemma high_bit v j : 0 <= v < 2 ^ 64 -> 64 <= j -> Z.testbit v j = false.
Proof.
  intros Hv Hj. rewrite <- (Z.mod_small v (2 ^ 64)) by lia. apply Z.mod_pow2_bits_high. lia.
Qed.

Lemma all_ones j : 0 <= j < 64 -> Z.testbit UINT64_MAX j = true.
Proof.
  intros Hj. change UINT64_MAX with (Z.ones 64). rewrite Z.testbit_ones by lia.
  destruct (Z.leb_spec 0 j), (Z.ltb_spec j 64); lia || done.
Qed.

Lemma lnot_zero w : 0 <= w < 2 ^ 64 -> u64 (Z.lnot w) = 0 -> w = UINT64_MAX.
Proof.
  intros Hw H. apply Z.bits_inj'. intros j Hj. destruct (Z.lt_ge_cases j 64).
  - rewrite all_ones by lia. pose proof (u64_lnot_bit w j ltac:(lia)) as E. rewrite H, Z.testbit_0_l in E.
    by destruct (Z.testbit w j).
  - rewrite !high_bit; [done|unfold UINT64_MAX; lia|lia|lia|lia].
Qed.

(** The two indices the loop computes: one of them is 0. *)
Lemma jump_spec w :
  0 <= w < 2 ^ 64 -> w <> 0 -> w <> UINT64_MAX ->
  let off := util_lssb_index64 (u64 (Z.lnot w)) in
  let size := util_lssb_index64 w in
  (size = 0 /\ 1 <= off < 64 /\ Z.testbit w off = false /\ forall j, 0 <= j < off -> Z.testbit w j = true) \/
  (off = 0 /\ 1 <= size < 64 /\ Z.testbit w size = true /\ forall j, 0 <= j < size -> Z.testbit w j = false).
Proof.
  intros Hw H0 H1 off size. destruct (lssb_spec w Hw H0) as (S1 & S2 & S3). fold size in S1, S2, S3.
  destruct (lssb_spec (u64 (Z.lnot w)) (u64_range _)) as (O1 & O2 & O3); [intros E; by apply lnot_zero in E|].
  fold off in O1, O2, O3. rewrite u64_lnot_bit in O2 by lia. apply negb_true_iff in O2.
  assert (forall j, 0 <= j < off -> Z.testbit w j = true) as O4.
  { intros j Hj. specialize (O3 j Hj). rewrite u64_lnot_bit in O3 by lia. by apply negb_false_iff in O3. }
  destruct (Z.eq_dec size 0) as [E|E].
  - left. split; [done|]. split; [|done]. destruct (Z.eq_dec off 0) as [E'|]; [|lia].
    rewrite E in S2. rewrite E' in O2. congruence.
  - right. split; [|split; [lia|done]]. destruct (Z.eq_dec off 0); [done|].
    specialize (S3 0 ltac:(lia)). specialize (O4 0 ltac:(lia)). congruence.
Qed.

(** ** The loop over one value *)

Section Iterate.
Context (heap : palloc_heap) (v : mem).
Context {A : Type} (cb : memory_block -> A -> Z * A).

Lemma rebuild_extent m o s :
  memblock_rebuild_state heap v m = Some m -> memblock_rebuild_state heap v (set_extent o s m) = Some (set_extent o s m).
Proof.
  unfold memblock_rebuild_state. change (memblock_detect_type heap v (set_extent o s m)) with (memblock_detect_type heap v m).
  change (memblock_header_type heap v (set_extent o s m)) with (memblock_header_type heap v m).
  destruct (memblock_detect_type heap v m) as [t|]; [|done]. cbn [mbind option_bind]. intros [= H].
  f_equal. unfold set_runtime, set_extent in *. cbn. destruct m as [a b c d e f g h]. cbn in H. injection H as -> -> -> ->. done.
Qed.

Lemma process_loop_spec fuel m value base shift arg :
  memblock_rebuild_state heap v m = Some m -> 0 <= value < 2 ^ 64 -> 0 <= base -> base + 64 <= 2 ^ 32 ->
  0 <= shift < 64 -> 64 - shift <= Z.of_nat fuel ->
  process_bitmap_loop heap fuel v cb m value base shift arg =
  Some (visit cb (blocks_at m base (gaps (Z.testbit value) (Z.to_nat (64 - shift)) shift 0)) arg).
Proof.
  intros Hm Hv Hb Hb2. revert m Hm shift arg. induction fuel as [|fuel IH]; intros m Hm shift arg Hs Hf; [lia|].
  cbn [process_bitmap_loop]. destruct (shifted_range value shift Hv ltac:(lia)) as [Hw Hw1].
  set (w := Z.shiftr value shift) in *.
  assert (forall j, 0 <= j -> Z.testbit w j = Z.testbit value (shift + j)) as Hbits.
  { intros j Hj. unfold w. rewrite Z.shiftr_spec by done. f_equal. lia. }
  unfold RUN_BITS_PER_VALUE. destruct (Z.eqb_spec w 0) as [E0|E0].
  { rewrite (gaps_count _ _ _ _ (Z.to_nat (64 - shift))); [|intros j Hj|lia].
    2: { replace j with (shift + (j - shift)) by lia. rewrite <- Hbits, E0 by lia. apply Z.testbit_0_l. }
    rewrite gaps_emit by (try left; lia). rewrite Nat.sub_diag. cbn [gaps Z.eqb blocks_at map visit fst snd].
    rewrite !u32_small by lia. replace (shift + Z.of_nat (Z.to_nat (64 - shift)) - (0 + Z.of_nat (Z.to_nat (64 - shift)))) with shift by lia.
    rewrite Z.add_0_l, Z2Nat.id by lia. destruct (cb _ arg) as [ret a]. by destruct (negb (ret =? 0)). }
  destruct (Z.eqb_spec w UINT64_MAX) as [E1|E1].
  { assert (shift = 0) as ->. { destruct (Z.eq_dec shift 0); [done|]. specialize (Hw1 ltac:(lia)). unfold UINT64_MAX in E1. lia. }
    rewrite (gaps_skip _ _ _ 64%nat); [done| |lia]. intros j Hj. replace j with (0 + j) by lia.
    rewrite <- Hbits, E1 by lia. apply all_ones. lia. }
  destruct (jump_spec w Hw E0 E1) as [(-> & Ho & Hob & Hoj)|(-> & Hz & Hzb & Hzj)].
  - set (off := util_lssb_index64 (u64 (Z.lnot w))) in *.
    assert (shift + off <= 64) as Hle.
    { destruct (Z.le_gt_cases (shift + off) 64); [done|]. specialize (Hoj (64 - shift) ltac:(lia)).
      rewrite Hbits, high_bit in Hoj by lia. done. }
    rewrite Z.add_0_r, u64_small by lia. cbn [Z.eqb negb].
    rewrite (gaps_skip _ _ _ (Z.to_nat off)); [|intros j Hj|lia].
    2: { replace j with (shift + (j - shift)) by lia. rewrite <- Hbits by lia. apply Hoj. lia. }
    replace (Z.to_nat (64 - shift) - Z.to_nat off)%nat with (Z.to_nat (64 - (shift + off))) by lia. rewrite Z2Nat.id by lia.
    destruct (Z.eqb_spec (shift + off) 64) as [E|E]; [rewrite E; done|]. apply IH; [done|lia|lia].
  - set (size := util_lssb_index64 w) in *.
    assert (shift + size < 64) as Hlt.
    { destruct (Z.lt_ge_cases (shift + size) 64); [done|]. rewrite Hbits, high_bit in Hzb by lia. done. }
    rewrite Z.add_0_r, u64_small by lia. destruct (Z.eqb_spec size 0); [lia|]. cbn [negb].
    rewrite (gaps_count _ _ _ _ (Z.to_nat size)); [|intros j Hj|lia].
    2: { replace j with (shift + (j - shift)) by lia. rewrite <- Hbits by lia. apply Hzj. lia. }
    rewrite Z2Nat.id, Z.add_0_l by lia. rewrite gaps_emit by (try right; try lia; rewrite <- Hbits by lia; done).
    replace (Z.to_nat (64 - shift) - Z.to_nat size)%nat with (Z.to_nat (64 - (shift + size))) by lia.
    cbn [blocks_at map visit fst snd]. replace (shift + size - size) with shift by lia. rewrite u32_small by lia.
    rewrite rebuild_extent by done. cbn [mbind option_bind]. destruct (cb _ arg) as [ret a]. destruct (negb (ret =? 0)); [done|].
    destruct (Z.eqb_spec (shift + size) 64); [lia|].
    rewrite IH by (try apply rebuild_extent; done || lia). done.
Qed.
End Iterate.

(** ** All values of a run *)

Definition free_blocks (heap : palloc_heap) (v : mem) (m : memory_block) : list memory_block :=
  let b := run_get_bitmap heap v m in
  concat (map (fun i => blocks_at m (64 * i) (value_gaps (bitmap_value v b i))) (seqZ 0 (nvalues b))).

Lemma bitmap_value_range v b i : 0 <= bitmap_value v b i < 2 ^ 64.
Proof. apply load64_range. Qed.

Lemma iterate_loop_spec {A} heap v (cb : memory_block -> A -> Z * A) m b n i arg :
  memblock_rebuild_state heap v m = Some m -> 0 <= i -> 64 * (i + Z.of_nat n) <= 2 ^ 32 ->
  iterate_free_loop heap n v cb m b i arg =
  Some (visit cb (concat (map (fun i => blocks_at m (64 * i) (value_gaps (bitmap_value v b i)))
                            (seqZ i (Z.of_nat n)))) arg).
Proof.
  intros Hm. unfold value_gaps. revert i arg. induction n as [|n IH]; intros i arg Hi Hn; [by rewrite seqZ_nil|].
  rewrite Nat2Z.inj_succ, seqZ_cons, Z.pred_succ by lia. cbn [iterate_free_loop map concat].
  unfold run_process_bitmap_value. unfold RUN_BITS_PER_VALUE. rewrite u32_small by lia.
  rewrite process_loop_spec by (try apply bitmap_value_range; done || lia). cbn [mbind option_bind].
  rewrite visit_app. change (Z.to_nat (64 - 0)) with 64%nat.
  destruct (visit cb (blocks_at m (64 * i) _) arg) as [ret a].
  destruct (negb (ret =? 0)); [done|]. rewrite IH by lia. done.
Qed.

Lemma iterate_free_visits {A} heap v m (cb : memory_block -> A -> Z * A) arg :
  memblock_rebuild_state heap v m = Some m -> 0 <= nvalues (run_get_bitmap heap v m) <= 2 ^ 26 ->
  run_iterate_free heap v m cb arg = Some (visit cb (free_blocks heap v m) arg).
Proof.
  intros Hm Hn. unfold run_iterate_free, free_blocks. rewrite iterate_loop_spec by (done || lia).
  rewrite Z2Nat.id by lia. done.
Qed.

(** A unit of the run is used. *)
Definition unit_used (v : mem) (b : run_bitmap) (x : Z) : bool := Z.testbit (bitmap_value v b (x / 64)) (x mod 64).

Lemma free_blocks_cover heap v m x :
  let b := run_get_bitmap heap v m in
  0 <= x < 64 * nvalues b ->
  unit_used v b x = false <-> exists f, f ∈ free_blocks heap v m /\ block_off f <= x < block_off f + size_idx f.
Proof.
  intros b Hx. unfold free_blocks. fold b. pose proof (Z.div_mod x 64 ltac:(lia)). pose proof (Z.mod_pos_bound x 64 ltac:(lia)).
  split.
  - intros Hu. destruct (proj2 (value_gaps_covered (bitmap_value v b (x / 64)) (x mod 64) ltac:(lia)) Hu) as (o & s & Hin & Ho).
    exists (set_extent (64 * (x / 64) + o) s m). split; [|cbn; lia].
    apply list_elem_of_In, in_concat. eexists. split; [apply in_map_iff; exists (x / 64); split; [done|]|].
    + apply list_elem_of_In, elem_of_seqZ. split; [apply Z.div_pos; lia|]. apply Z.div_lt_upper_bound; lia.
    + apply in_map_iff. exists (o, s). split; [done|]. by apply list_elem_of_In.
  - intros (f & Hf & Hr). apply list_elem_of_In, in_concat in Hf as (l & Hl & Hf).
    apply in_map_iff in Hl as (i & <- & Hi). apply in_map_iff in Hf as ([o s] & <- & Hos).
    apply list_elem_of_In in Hos. cbn [fst snd set_extent block_off size_idx] in Hr.
    destruct (value_gaps_elem _ _ _ Hos) as (G1 & G2 & G3 & _).
    assert (x / 64 = i) as E by (symmetry; apply (Z.div_unique x 64 i (x - 64 * i)); lia).
    unfold unit_used. rewrite E. replace (x mod 64) with (x - 64 * i) by lia.
    apply value_gaps_covered; [lia|]. exists o, s. split; [done|lia].
Qed.

(** ** Counting *)

Lemma popcount_gaps x : 0 <= x < 2 ^ 64 -> util_popcount64 (u64 (Z.lnot x)) = total (value_gaps x).
Proof.
  intros Hx. unfold value_gaps, util_popcount64. rewrite gaps_total, Z.add_0_l by lia. do 2 f_equal.
  change (Z.of_nat 64) with 64. apply filter_ext_in. intros i Hi. apply list_elem_of_In, elem_of_seqZ in Hi.
  apply u64_lnot_bit. lia.
Qed.

(** The bits [i - n .. i] are set. *)
Definition ones_to (x i n : Z) : Prop := forall j, i - n <= j <= i -> Z.testbit x j = true.

Lemma ones_to_next x y i n :
  0 <= n -> 0 <= i < 64 -> (forall i, 0 <= i < 64 -> Z.testbit y i = true <-> ones_to x i n) ->
  Z.testbit (Z.land y (u64 (Z.shiftl y 1))) i = true <-> ones_to x i (n + 1).
Proof.
  intros Hn Hi Hy. rewrite Z.land_spec, andb_true_iff, Hy by done. unfold u64. rewrite Z.mod_pow2_bits_low, Z.shiftl_spec by lia.
  destruct (Z.eq_dec i 0) as [->|Hi0].
  - rewrite Z.testbit_neg_r by lia. split; [intros [_ H]; done|]. intros H. specialize (H (-1) ltac:(lia)).
    by rewrite Z.testbit_neg_r in H.
  - rewrite Hy by lia. unfold ones_to. split.
    + intros [H1 H2] j Hj. destruct (Z.eq_dec j i) as [->|]; [apply H1; lia|apply H2; lia].
    + intros H. split; intros j Hj; apply H; lia.
Qed.

(** The loop computes the length of the longest run of ones. *)
Lemma longest_loop_spec x fuel y n :
  0 <= n <= 64 -> 0 <= y < 2 ^ 64 -> (forall i, 0 <= i < 64 -> Z.testbit y i = true <-> ones_to x i n) ->
  (n = 0 \/ exists i, 0 <= i < 64 /\ ones_to x i (n - 1)) -> 65 - n <= Z.of_nat fuel ->
  let r := longest_run_loop fuel y n in
  0 <= r <= 64 /\ (forall i, 0 <= i < 64 -> ~ ones_to x i r) /\ (r = 0 \/ exists i, 0 <= i < 64 /\ ones_to x i (r - 1)).
Proof.
  revert y n. induction fuel as [|fuel IH]; intros y n Hn Hy Hbits Hprev Hf; [lia|]. cbn [longest_run_loop].
  destruct (Z.eqb_spec y 0) as [->|Hy0].
  - cbv zeta. split; [done|]. split; [|done]. intros i Hi Ho. apply Hbits in Ho; [|done]. by rewrite Z.testbit_0_l in Ho.
  - assert (exists i, 0 <= i < 64 /\ ones_to x i n) as (i & Hi & Ho).
    { destruct (lssb_spec y Hy Hy0) as (L1 & L2 & _). exists (util_lssb_index64 y). split; [done|]. by apply Hbits. }
    assert (n < 64) as Hn64.
    { destruct (Z.lt_ge_cases n 64); [done|]. specialize (Ho (-1) ltac:(lia)). by rewrite Z.testbit_neg_r in Ho. }
    unfold u16. rewrite Z.mod_small by lia. apply IH; [lia| | |right; exists i; split; [done|]|lia].
    + apply land_range; [done|apply u64_range].
    + intros i' Hi'. apply ones_to_next; [lia|done|done].
    + by replace (n + 1 - 1) with n by lia.
Qed.

Lemma ones_gap v i k :
  0 <= v < 2 ^ 64 -> 0 < k -> 0 <= i < 64 -> ones_to (u64 (Z.lnot v)) i (k - 1) ->
  exists o s, (o, s) ∈ value_gaps v /\ k <= s.
Proof.
  intros Hv Hk Hi Ho. assert (forall j, i - k < j <= i -> 0 <= j /\ Z.testbit v j = false) as Hc.
  { intros j Hj. assert (0 <= j) as H0. { destruct (Z.lt_ge_cases j 0); [|done]. specialize (Ho j ltac:(lia)). by rewrite Z.testbit_neg_r in Ho. }
    split; [done|]. specialize (Ho j ltac:(lia)). rewrite u64_lnot_bit in Ho by lia. by apply negb_true_iff in Ho. }
  destruct (proj2 (value_gaps_covered v i Hi) ltac:(apply Hc; lia)) as (o & s & Hin & Hr).
  exists o, s. split; [done|]. destruct (value_gaps_elem _ _ _ Hin) as (G1 & G2 & G3 & G4 & G5).
  assert (o <= i - k + 1); [|lia]. destruct (Z.le_gt_cases o (i - k + 1)); [done|].
  destruct (Hc (i - k + 1) ltac:(lia)) as [H0 _]. destruct G5 as [|G5]; [lia|].
  destruct (Hc (o - 1) ltac:(lia)) as [_ H']. congruence.
Qed.

Lemma gap_ones v o s k :
  0 <= v < 2 ^ 64 -> 0 < k <= s -> (o, s) ∈ value_gaps v ->
  0 <= o + k - 1 < 64 /\ ones_to (u64 (Z.lnot v)) (o + k - 1) (k - 1).
Proof.
  intros Hv Hk Hin. destruct (value_gaps_elem _ _ _ Hin) as (G1 & G2 & G3 & _). split; [lia|].
  intros j Hj. rewrite u64_lnot_bit by lia. apply negb_true_iff.
  apply value_gaps_covered; [lia|]. exists o, s. split; [done|lia].
Qed.

Lemma longest_loop_gaps v :
  0 <= v < 2 ^ 64 -> longest_run_loop 65 (u64 (Z.lnot v)) 0 = longest (value_gaps v).
Proof.
  intros Hv. destruct (longest_loop_spec (u64 (Z.lnot v)) 65 (u64 (Z.lnot v)) 0) as (R0 & R1 & R2); try lia.
  - apply u64_range.
  - intros i Hi. unfold ones_to. split; [intros H j Hj; by replace j with i by lia|]. intros H. apply H. lia.
  - set (r := longest_run_loop 65 (u64 (Z.lnot v)) 0) in *. pose proof (longest_nonneg (value_gaps v)).
    apply Z.le_antisymm.
    + destruct R2 as [->|(i & Hi & Ho)]; [done|]. destruct (Z.eq_dec r 0); [lia|]. apply longest_ge; [lia|].
      apply (ones_gap v i r); [done|lia|done|done].
    + destruct (Z.le_gt_cases (longest (value_gaps v)) r) as [|Hgt]; [done|]. exfalso.
      destruct (proj1 (longest_ge (value_gaps v) (r + 1) ltac:(lia)) ltac:(lia)) as (o & s & Hin & Hs).
      destruct (gap_ones v o s (r + 1) Hv ltac:(lia) Hin) as [Hi Ho]. replace (r + 1 - 1) with r in Ho by lia.
      exact (R1 _ Hi Ho).
Qed.

Lemma filter_full {X} (f : X -> bool) (l : list X) :
  length (List.filter f l) = length l -> forall x, In x l -> f x = true.
Proof.
  induction l as [|y l IH]; intros Hl x Hx; [done|]. cbn [List.filter length] in Hl.
  destruct (f y) eqn:E; cbn [length] in Hl; [|pose proof (List.filter_length_le f l); lia].
  destruct Hx as [<-|Hx]; [done|]. apply IH; [lia|done].
Qed.

Lemma popcount_range x : 0 <= util_popcount64 x <= 64.
Proof.
  unfold util_popcount64. pose proof (List.filter_length_le (fun i => Z.testbit x i) (seqZ 0 64)) as H.
  rewrite length_seqZ in H. lia.
Qed.

Lemma popcount_all x : util_popcount64 x = 64 -> forall j, 0 <= j < 64 -> Z.testbit x j = true.
Proof.
  unfold util_popcount64. intros Hp j Hj. apply (filter_full (fun i => Z.testbit x i) (seqZ 0 64)).
  - revert Hp. generalize (length (List.filter (fun i => Z.testbit x i) (seqZ 0 64))). intros k Hk.
    rewrite length_seqZ. lia.
  - apply list_elem_of_In, elem_of_seqZ. lia.
Qed.

Lemma popcount_full v : 0 <= v < 2 ^ 64 -> util_popcount64 (u64 (Z.lnot v)) = 64 -> longest (value_gaps v) = 64.
Proof.
  intros Hv Hp. pose proof (popcount_all _ Hp) as Hall. clear Hp.
  apply Z.le_antisymm.
  - destruct (Z.le_gt_cases (longest (value_gaps v)) 64) as [|H]; [done|].
    destruct (proj1 (longest_ge (value_gaps v) 65 ltac:(lia)) ltac:(lia)) as (o & s & Hin & Hs).
    destruct (value_gaps_elem _ _ _ Hin) as (_ & G2 & G3 & _). lia.
  - apply longest_ge; [lia|]. apply (ones_gap v 63 64); [done|lia|lia|]. intros j Hj. apply Hall. lia.
Qed.

Lemma calc_value_spec v fs mx :
  0 <= v < 2 ^ 64 -> 0 <= fs < 2 ^ 32 -> 0 <= mx <= 64 ->
  calc_free_value (u64 (Z.lnot v)) (fs, mx) = (u32 (fs + total (value_gaps v)), Z.max mx (longest (value_gaps v))).
Proof.
  intros Hv Hfs Hmx. pose proof (popcount_gaps v Hv) as Hp. pose proof (popcount_range (u64 (Z.lnot v))) as Hr.
  destruct (longest_le_total (value_gaps v)) as [Hlt _].
  { intros o s Hin. apply value_gaps_elem in Hin as [H _]. done. }
  pose proof (longest_nonneg (value_gaps v)) as Hl0.
  pose proof (longest_loop_gaps v Hv) as Hloop. pose proof (popcount_full v Hv) as Hfull.
  unfold calc_free_value. unfold RUN_BITS_PER_VALUE. rewrite <- Hp in *.
  destruct (Z.eqb_spec (u64 (Z.lnot v)) 0) as [E|E].
  { assert (util_popcount64 (u64 (Z.lnot v)) = 0) as E0 by (rewrite E; reflexivity).
    rewrite E0 in *. rewrite Z.add_0_r, u32_small by done. f_equal. lia. }
  destruct (Z.ltb_spec (util_popcount64 (u64 (Z.lnot v))) mx); [f_equal; lia|].
  destruct (Z.eqb_spec (util_popcount64 (u64 (Z.lnot v))) 64) as [E64|]; [rewrite (Hfull E64); f_equal; lia|].
  destruct (Z.eqb_spec mx 64); [f_equal; lia|]. rewrite Hloop. destruct (Z.ltb_spec mx (longest (value_gaps v))); f_equal; lia.
Qed.

(** ** The totals of a run *)

Definition free_units (bs : list memory_block) : Z := foldr (fun f acc => size_idx f + acc) 0 bs.
Definition largest_block (bs : list memory_block) : Z := foldr (fun f acc => Z.max (size_idx f) acc) 0 bs.

Lemma free_units_app b1 b2 : free_units (b1 ++ b2) = free_units b1 + free_units b2.
Proof. induction b1 as [|b b1 IH]; [done|]. cbn [app free_units foldr]. fold (free_units b1) (free_units (b1 ++ b2)). lia. Qed.

Lemma largest_block_app b1 b2 : largest_block (b1 ++ b2) = Z.max (largest_block b1) (largest_block b2).
Proof.
  induction b1 as [|b b1 IH]; cbn [app largest_block foldr]; [|fold (largest_block b1) (largest_block (b1 ++ b2)); lia].
  fold (largest_block b2). assert (0 <= largest_block b2); [|lia].
  clear. induction b2 as [|b b2 IH]; cbn [largest_block foldr]; [lia|]. fold (largest_block b2). lia.
Qed.

Lemma blocks_at_units m base l : free_units (blocks_at m base l) = total l.
Proof. unfold free_units, total. induction l as [|[o s] l IH]; [done|]. cbn. by rewrite <- IH. Qed.
Lemma blocks_at_largest m base l : largest_block (blocks_at m base l) = longest l.
Proof. unfold largest_block, longest. induction l as [|[o s] l IH]; [done|]. cbn. by rewrite <- IH. Qed.

Lemma longest_le_64 v : longest (value_gaps v) <= 64.
Proof.
  destruct (Z.le_gt_cases (longest (value_gaps v)) 64) as [|H]; [done|].
  destruct (proj1 (longest_ge (value_gaps v) 65 ltac:(lia)) ltac:(lia)) as (o & s & Hin & Hs).
  destruct (value_gaps_elem _ _ _ Hin) as (_ & G2 & G3 & _). lia.
Qed.

Lemma calc_free_total heap v m fs mx :
  0 <= fs < 2 ^ 32 -> 0 <= mx <= 64 ->
  run_calc_free heap v m fs mx =
  (u32 (fs + free_units (free_blocks heap v m)), Z.max mx (largest_block (free_blocks heap v m))).
Proof.
  unfold run_calc_free, free_blocks. set (b := run_get_bitmap heap v m).
  generalize (seqZ 0 (nvalues b)) as l. intros l. revert fs mx. induction l as [|i l IH]; intros fs mx Hfs Hmx.
  - cbn. rewrite Z.add_0_r, u32_small by done. f_equal. lia.
  - cbn [foldl map concat]. rewrite (calc_value_spec (bitmap_value v b i) fs mx (bitmap_value_range _ _ _) Hfs Hmx).
    pose proof (longest_le_64 (bitmap_value v b i)).
    rewrite IH by (try apply u32_range; lia). rewrite free_units_app, largest_block_app, blocks_at_units, blocks_at_largest.
    f_equal; [|lia]. unfold u32. rewrite Z.add_mod_idemp_l by lia. f_equal. lia.
Qed.
