(* ===== verification/MemblockBitmap.v ===== *)
(** * The dimensions of run bitmaps

    memblock_run_bitmap computes how many units a run has and how large its
    bitmap is: the bitmap and the units fit into the run, the bitmap has a bit
    for every unit and no value to spare, and the data start at a cacheline. *)
From stdpp Require Import base numbers list list_numbers.
From Stdlib Require Import ZArith Lia Bool.
From S2P Require Import Prelude Pmem Container Seglists HeapLayout Memblock.

(** What the callers guarantee: units of at least 8 bytes, two of which fit into
    240 KiB per chunk. *)
Record run_params_ok (size_idx unit_size : Z) : Prop := RunParams {
  rp_idx : 1 <= size_idx <= 65535;
  rp_unit : 8 <= unit_size;
  rp_fit : 2 * unit_size <= 245760 * size_idx
}.

Record bitmap_fits (size_idx unit_size alignment : Z) (b : run_bitmap) : Prop := BitmapFits {
  bf_bits : 1 <= nbits b;
  bf_lo : 64 * (nvalues b - 1) < nbits b;
  bf_hi : nbits b <= 64 * nvalues b;
  bf_values : 8 * nvalues b <= rb_size b;
  bf_data : unit_size * (nbits b + (if alignment =? 0 then 0 else 1)) + rb_size b <= RUN_CONTENT_SIZE_BYTES size_idx;
  bf_align : (sizeof_chunk_run_header + rb_size b) mod CACHELINE_SIZE = 0;
  bf_size : rb_size b <= CHUNKSIZE * size_idx / 32;
  bf_max : nvalues b <= 2 ^ 26
}.

Lemma content_size i : 1 <= i <= 65535 -> RUN_CONTENT_SIZE_BYTES i = 262144 * i - 16.
Proof.
  intros Hi. unfold RUN_CONTENT_SIZE_BYTES, RUN_CONTENT_SIZE, RUN_BASE_METADATA_SIZE, sizeof_chunk_run_header, CHUNKSIZE.
  rewrite u32_small, u64_small by lia. lia.
Qed.

Lemma default_size i : 1 <= i <= 65535 -> RUN_DEFAULT_SIZE_BYTES i = 262144 * i - 320.
Proof.
  intros Hi. unfold RUN_DEFAULT_SIZE_BYTES. change RUN_DEFAULT_SIZE with 261824. unfold CHUNKSIZE.
  rewrite u32_small, u64_small by lia. lia.
Qed.

(** ALIGN_UP(x, 8U). *)
Lemma align8 x : 0 <= x < 2 ^ 32 -> Z.land x (u32 (Z.lnot (8 - 1))) = 8 * (x / 8).
Proof.
  intros Hx. change 8 with (2 ^ 3) at 2 3. rewrite <- (land_lnot_ones x 3) by lia. apply Z.bits_inj'. intros i Hi. rewrite !Z.land_spec.
  destruct (Z.lt_ge_cases i 32).
  - f_equal. unfold u32. rewrite Z.mod_pow2_bits_low by lia. done.
  - assert (Z.testbit x i = false) as ->; [|done]. rewrite <- (Z.mod_small x (2 ^ 32)) by lia. apply Z.mod_pow2_bits_high. lia.
Qed.

(** Dropping the unused values leaves the least number that holds the bits. *)
Lemma drop_unused nv nb : 0 <= nb <= 64 * nv -> 64 * nv < 2 ^ 32 ->
  let n := u32 (nv - u32 (64 * nv - nb) / 64) in 64 * (n - 1) < nb <= 64 * n /\ n <= nv.
Proof.
  intros Hnb Hnv. rewrite (u32_small (64 * nv - nb)) by lia.
  pose proof (Z.div_mod (64 * nv - nb) 64 ltac:(lia)). pose proof (Z.mod_pos_bound (64 * nv - nb) 64 ltac:(lia)).
  rewrite u32_small by lia. cbv zeta. lia.
Qed.

Lemma flex_bitmap_fits size_idx flags unit_size alignment content :
  run_params_ok size_idx unit_size -> flag_isset flags CHUNK_FLAG_FLEX_BITMAP = true ->
  let '(i, b) := memblock_run_bitmap size_idx flags unit_size alignment content in
  i = size_idx /\ values b = content /\ bitmap_fits size_idx unit_size alignment b.
Proof.
  intros [Hi Hu Hf] Hflag. unfold memblock_run_bitmap. rewrite Hflag. split; [done|]. split; [done|].
  unfold util_div_ceil, RUN_BITS_PER_VALUE, RUN_BASE_METADATA_VALUES, sizeof_chunk_run_header. change (16 / 8) with 2.
  pose proof (content_size size_idx Hi) as Hc. rewrite Hc in *. set (c := 262144 * size_idx - 16) in *.
  set (a := if alignment =? 0 then 0 else 1). assert (0 <= a <= 1) as Ha by (unfold a; destruct (alignment =? 0); lia).
  assert (0 <= c / unit_size <= c / 8) as Hnb by (split; [apply Z.div_pos; lia|apply Z.div_le_compat_l; lia]).
  pose proof (Z.div_mod c 8 ltac:(lia)). pose proof (Z.mod_pos_bound c 8 ltac:(lia)).
  set (nb0 := c / unit_size) in *. rewrite (u32_small nb0), (u64_small (nb0 + 64 - 1)) by lia.
  pose proof (Z.div_mod (nb0 + 64 - 1) 64 ltac:(lia)). pose proof (Z.mod_pos_bound (nb0 + 64 - 1) 64 ltac:(lia)).
  set (nv0 := (nb0 + 64 - 1) / 64) in *. rewrite !(u32_small nv0), !(u32_small (nv0 + 2)), !(u32_small (nv0 + 2 + 8 - 1)) by lia.
  rewrite align8 by lia. pose proof (Z.div_mod (nv0 + 2 + 8 - 1) 8 ltac:(lia)). pose proof (Z.mod_pos_bound (nv0 + 2 + 8 - 1) 8 ltac:(lia)).
  set (q := (nv0 + 2 + 8 - 1) / 8) in *. rewrite (u32_small (8 * q - 2)) by lia. set (nv := 8 * q - 2) in *.
  rewrite (u64_small (c - nv * 8)) by lia.
  assert (2 <= (c - nv * 8) / unit_size <= nb0) as Hnb1.
  { split; [apply Z.div_le_lower_bound; lia|apply Z.div_le_mono; lia]. }
  pose proof (Z.mul_div_le (c - nv * 8) unit_size ltac:(lia)) as Hfit. set (nb1 := (c - nv * 8) / unit_size) in *.
  rewrite (u32_small nb1), (u32_small (nb1 - a)), (u32_small (nv * 64)) by lia. rewrite (Z.mul_comm nv 64).
  destruct (drop_unused nv (nb1 - a) ltac:(lia) ltac:(lia)) as [D1 D2].
  assert (262144 * size_idx / 32 = 8192 * size_idx) as E32.
  { replace (262144 * size_idx) with (8192 * size_idx * 32) by lia. apply Z.div_mul. lia. }
  constructor; cbn [nvalues nbits rb_size]; unfold CHUNKSIZE, CACHELINE_SIZE, sizeof_chunk_run_header; fold a; try lia.
  - replace (16 + nv * 8) with (q * 64) by lia. apply Z.mod_mul. lia.
  - change (1024 * 256) with 262144. rewrite E32. lia.
Qed.

(** ** Fixed bitmaps *)

Lemma nallocs_loop_spec n unit_size nallocs :
  run_params_ok (Z.of_nat n) unit_size -> nallocs = RUN_DEFAULT_SIZE_BYTES (Z.of_nat n) / unit_size ->
  let '(i, k) := default_nallocs_loop n unit_size nallocs in
  1 <= i <= Z.of_nat n /\ 2 <= k <= RUN_DEFAULT_BITMAP_NBITS /\ unit_size * k <= RUN_DEFAULT_SIZE_BYTES i.
Proof.
  revert nallocs. induction n as [|n IH]; intros nallocs [Hi Hu Hf] Hk; [lia|].
  pose proof (default_size (Z.of_nat (S n)) Hi) as Hd. rewrite Hd in Hk.
  pose proof (Z.mul_div_le (262144 * Z.of_nat (S n) - 320) unit_size ltac:(lia)) as Hle. rewrite <- Hk in Hle.
  assert (2 <= nallocs) as H2 by (rewrite Hk; apply Z.div_le_lower_bound; lia).
  cbn [default_nallocs_loop]. change RUN_DEFAULT_BITMAP_NBITS with 2432 in *.
  destruct (Z.leb_spec nallocs 2432) as [Hs|Hb]; [rewrite Hd; lia|].
  destruct n as [|n]; [rewrite Hd; nia|].
  assert (run_params_ok (Z.of_nat (S n)) unit_size) as Hp by (constructor; [lia|done|nia]).
  rewrite u32_small.
  - specialize (IH _ Hp eq_refl). destruct (default_nallocs_loop (S n) unit_size _) as [i k]. lia.
  - rewrite default_size by lia. split; [apply Z.div_pos; lia|].
    apply Z.div_lt_upper_bound; [lia|]. lia.
Qed.

Lemma default_bitmap_fits size_idx flags unit_size alignment content :
  run_params_ok size_idx unit_size -> flag_isset flags CHUNK_FLAG_FLEX_BITMAP = false ->
  let '(i, b) := memblock_run_bitmap size_idx flags unit_size alignment content in
  1 <= i <= size_idx /\ values b = content /\ bitmap_fits i unit_size alignment b.
Proof.
  intros Hp Hflag. pose proof Hp as [Hi Hu Hf]. unfold memblock_run_bitmap, memblock_run_default_nallocs. rewrite Hflag.
  pose proof (nallocs_loop_spec (Z.to_nat size_idx) unit_size (RUN_DEFAULT_SIZE_BYTES size_idx / unit_size)) as Hloop.
  rewrite Z2Nat.id in Hloop by lia. specialize (Hloop Hp eq_refl). rewrite u32_small.
  2: { rewrite default_size by lia. split; [apply Z.div_pos; lia|]. apply Z.div_lt_upper_bound; lia. }
  destruct (default_nallocs_loop _ _ _) as [i k]. destruct Hloop as (L1 & L2 & L3).
  set (a := if alignment =? 0 then 0 else 1). assert (0 <= a <= 1) as Ha by (unfold a; destruct (alignment =? 0); lia).
  unfold RUN_BITS_PER_VALUE. change RUN_DEFAULT_BITMAP_NBITS with (64 * 38) in *. change RUN_DEFAULT_BITMAP_VALUES with 38.
  change RUN_DEFAULT_BITMAP_SIZE with 304. rewrite (u32_small (k - a)) by lia.
  destruct (drop_unused 38 (k - a) ltac:(lia) ltac:(lia)) as [D1 D2]. rewrite default_size in L3 by lia.
  split; [done|]. split; [done|].
  constructor; cbn [nvalues nbits rb_size]; fold a; try lia.
  - rewrite content_size by lia. lia.
  - done.
  - unfold CHUNKSIZE. apply Z.div_le_lower_bound; lia.
Qed.
