(* ===== verification/MemblockInit.v ===== *)
(** * Creating runs

    [run_at]: the metadata of a run are in memory.  memblock_run_init
    establishes it; the other operations on runs assume it. *)
From stdpp Require Import base numbers list list_numbers.
From Stdlib Require Import ZArith Lia Bool.
From S2P Require Import Prelude Pmem Container Seglists HeapLayout Memblock MemblockBits MemblockRun MemblockBitmap.

(** ** Loads from stored headers *)

Lemma load_sub m a bs b n :
  a <= b -> b + Z.of_nat n <= a + Z.of_nat (length bs) ->
  dec_le (read_bytes (write_bytes m a bs) b n) = dec_le (take n (drop (Z.to_nat (b - a)) bs)).
Proof. intros H1 H2. by rewrite read_write_sub. Qed.

Definition hdr_bytes (type flags size_idx : Z) : list byte := enc_le 2 type ++ enc_le 2 flags ++ enc_le 4 size_idx.

Lemma hdr_stored m a t f i :
  hdr_type (write_bytes m a (hdr_bytes t f i)) a = t mod 2 ^ 16 /\
  hdr_flags (write_bytes m a (hdr_bytes t f i)) a = f mod 2 ^ 16 /\
  hdr_size_idx (write_bytes m a (hdr_bytes t f i)) a = i mod 2 ^ 32.
Proof.
  unfold hdr_type, hdr_flags, hdr_size_idx, load16, load32.
  rewrite !load_sub by (unfold hdr_bytes; rewrite ?length_app, ?length_enc_le; lia).
  replace (a - a) with 0 by lia. replace (a + 2 - a) with 2 by lia. replace (a + 4 - a) with 4 by lia.
  split; [|split]; [exact (dec_enc_le 2 t)|exact (dec_enc_le 2 f)|exact (dec_enc_le 4 i)].
Qed.

Lemma hdr_frame m m' a : agree m m' a 8 ->
  hdr_type m' a = hdr_type m a /\ hdr_flags m' a = hdr_flags m a /\ hdr_size_idx m' a = hdr_size_idx m a.
Proof.
  intros H. unfold hdr_type, hdr_flags, hdr_size_idx, load16, load32.
  split; [|split]; f_equal; symmetry; eapply read_bytes_agree; try exact H; lia.
Qed.

(** ** Runs in memory *)

Record run_at (heap : palloc_heap) (v : mem) (m : memory_block) (size_idx' flags unit_size alignment n : Z) : Prop := RunAt {
  ra_type : hdr_type v (heap_get_chunk_hdr heap m) = CHUNK_TYPE_RUN;
  ra_flags : hdr_flags v (heap_get_chunk_hdr heap m) = flags;
  ra_size : hdr_size_idx v (heap_get_chunk_hdr heap m) = size_idx';
  ra_data : forall j, 1 <= j < n ->
    hdr_type v (heap_get_chunk_hdr heap m + 8 * j) = CHUNK_TYPE_RUN_DATA /\
    hdr_size_idx v (heap_get_chunk_hdr heap m + 8 * j) = j;
  ra_unit : run_block_size_field v (heap_get_chunk_run heap m) = unit_size;
  ra_align : run_alignment_field v (heap_get_chunk_run heap m) = alignment
}.

Lemma run_at_bitmap heap v m i flags u a n :
  run_at heap v m i flags u a n ->
  run_get_bitmap heap v m = (memblock_run_bitmap i flags u a (run_content (heap_get_chunk_run heap m))).2.
Proof. intros [H1 H2 H3 H4 H5 H6]. unfold run_get_bitmap. by rewrite H2, H3, H5, H6. Qed.

(** ** The loop over the data headers *)

Lemma data_headers_spec n z c i s :
  let lo := z + sizeof_zone_header + sizeof_chunk_header * (c + i) in
  let s' := write_data_headers n z c i s in
  0 <= i -> i + Z.of_nat n <= 2 ^ 32 ->
  (forall x, x < lo \/ lo + 8 * Z.of_nat n <= x -> vis s' x = vis s x) /\
  (forall j, i <= j < i + Z.of_nat n ->
     let a := z + sizeof_zone_header + sizeof_chunk_header * (c + j) in
     hdr_type (vis s') a = CHUNK_TYPE_RUN_DATA /\ hdr_size_idx (vis s') a = j).
Proof.
  cbv zeta. unfold sizeof_chunk_header. revert i s. induction n as [|n IH]; intros i s Hi Hn; [split; [done|lia]|].
  cbn [write_data_headers]. unfold sizeof_chunk_header.
  set (a := z + sizeof_zone_header + 8 * (c + i)) in *.
  set (s1 := st_store a _ s). destruct (IH (i + 1) s1 ltac:(lia) ltac:(lia)) as [F H].
  assert (forall x, x < a \/ a + 8 <= x -> vis s1 x = vis s x) as F1 by (intros x Hx; apply write_bytes_out; exact Hx).
  split.
  - intros x Hx. rewrite F by lia. apply F1. lia.
  - intros j Hj. destruct (Z.eq_dec j i) as [->|Hne]; [|apply H; lia]. cbv zeta. fold a.
    destruct (hdr_frame (vis s1) (vis (write_data_headers n z c (i + 1) s1)) a) as (-> & _ & ->).
    { intros x Hx. symmetry. apply F. lia. }
    change (vis s1) with (write_bytes (vis s) a (hdr_bytes CHUNK_TYPE_RUN_DATA 0 i)).
    destruct (hdr_stored (vis s) a CHUNK_TYPE_RUN_DATA 0 i) as (-> & _ & ->). split; [done|]. apply Z.mod_small. lia.
Qed.

(** ** The bitmap of a new run *)

Lemma load64_zeros m a n b : a <= b -> b + 8 <= a + n -> load64 (write_bytes m a (replicate (Z.to_nat n) (byte_of_Z 0))) b = 0.
Proof.
  intros H1 H2. unfold load64. rewrite load_sub by (rewrite ?length_replicate; lia).
  rewrite drop_replicate, take_replicate. replace (8 `min` (Z.to_nat n - Z.to_nat (b - a)))%nat with 8%nat by lia. done.
Qed.

Definition filled (v : mem) (b : run_bitmap) : Prop :=
  forall x, 0 <= x < 64 * nvalues b -> unit_used v b x = negb (x <? 64 * (nvalues b - 1) + nbits b mod 64).

Definition fill_bitmap (b : run_bitmap) (s : pmst) : pmst :=
  st_store64 (values b + 8 * u32 (nvalues b - 1)) (u64 (Z.shiftl UINT64_MAX (nbits b mod RUN_BITS_PER_VALUE)))
    (memset (values b) 0 (8 * u32 (nvalues b - 1)) (memset (values b) 255 (rb_size b) s)).

Lemma last_value_bit t j : 0 <= t < 64 -> 0 <= j < 64 -> Z.testbit (u64 (Z.shiftl UINT64_MAX t)) j = negb (j <? t).
Proof.
  intros Ht Hj. unfold u64. rewrite Z.mod_pow2_bits_low, Z.shiftl_spec by lia.
  destruct (Z.ltb_spec j t); [by rewrite Z.testbit_neg_r by lia|]. apply all_ones. lia.
Qed.

Lemma fill_bitmap_spec b s :
  1 <= nvalues b <= 2 ^ 26 -> 8 * nvalues b <= rb_size b -> 0 <= nbits b ->
  filled (vis (fill_bitmap b s)) b /\
  forall x, x < values b \/ values b + rb_size b <= x -> vis (fill_bitmap b s) x = vis s x.
Proof.
  intros Hn Hs Hb. unfold fill_bitmap, memset, st_store64. cbn [vis st_store]. rewrite !u32_small by lia. split.
  - intros x Hx. unfold unit_used, bitmap_value. cbn [vis st_store].
    pose proof (Z.div_mod x 64 ltac:(lia)). pose proof (Z.mod_pos_bound x 64 ltac:(lia)).
    pose proof (Z.mod_pos_bound (nbits b) 64 ltac:(lia)). unfold RUN_BITS_PER_VALUE.
    destruct (Z.eq_dec (x / 64) (nvalues b - 1)) as [E|E].
    + rewrite E, load64_write_same, u64_small, last_value_bit by (try apply u64_range; lia). f_equal.
      destruct (Z.ltb_spec (x mod 64) (nbits b mod 64)), (Z.ltb_spec x (64 * (nvalues b - 1) + nbits b mod 64)); lia || done.
    + assert (x / 64 < nvalues b) by (apply Z.div_lt_upper_bound; lia). assert (0 <= x / 64) by (apply Z.div_pos; lia).
      rewrite load64_write_disj by (rewrite ?length_le64; lia). rewrite load64_zeros, Z.testbit_0_l by lia.
      destruct (Z.ltb_spec x (64 * (nvalues b - 1) + nbits b mod 64)); [done|lia].
  - intros x Hx. rewrite !write_bytes_out; [done|rewrite ?length_replicate, ?length_le64; lia..].
Qed.

Lemma bitmap_frame v v' b : agree v v' (values b) (rb_size b) -> 8 * nvalues b <= rb_size b -> filled v b -> filled v' b.
Proof.
  intros Ha Hs Hf x Hx. rewrite <- Hf by done. unfold unit_used, bitmap_value. f_equal. symmetry.
  assert (x / 64 < nvalues b) by (apply Z.div_lt_upper_bound; lia). assert (0 <= x / 64) by (apply Z.div_pos; lia).
  eapply load64_agree; [exact Ha|lia|lia].
Qed.

(** ** memblock_run_init *)

Lemma persist_vis p d n s : vis (pmemops_persist p d n s) = vis s.
Proof. unfold pmemops_persist. by destruct (table p). Qed.
Lemma flush_vis p d n s : vis (pmemops_flush p d n s) = vis s.
Proof. unfold pmemops_flush. by destruct (table p). Qed.

(** Chunk headers are below the chunks of their zone. *)
Lemma zone_layout heap m k : 0 <= chunk_id m -> chunk_id m + k <= MAX_CHUNK ->
  heap_get_chunk_hdr heap m + 8 * k <= heap_get_chunk_run heap m - CHUNKSIZE * chunk_id m.
Proof.
  intros H0 Hk. unfold heap_get_chunk_hdr, heap_get_chunk_run, GET_CHUNK_HDR, GET_CHUNK_RUN, GET_CHUNK, sizeof_zone,
    sizeof_chunk_header. lia.
Qed.

Definition run_header_type (flags : Z) : Z :=
  if flag_isset flags CHUNK_FLAG_COMPACT_HEADER then HEADER_COMPACT
  else if flag_isset flags CHUNK_FLAG_HEADER_NONE then HEADER_NONE else HEADER_LEGACY.

Lemma run_rebuild heap v m i flags u a n :
  run_at heap v m i flags u a n ->
  memblock_rebuild_state heap v m =
    Some (set_runtime MEMORY_BLOCK_RUN (heap_addr heap) (run_header_type flags) MEMORY_BLOCK_RUN m).
Proof.
  intros [H1 H2 H3 H4 H5 H6]. unfold memblock_rebuild_state, memblock_detect_type, memblock_header_type. by rewrite H1, H2.
Qed.

Section RunInit.
Context (heap : palloc_heap) (chunk zone size_idx flags unit_size alignment : Z) (s : pmst).
Hypothesis Hp : run_params_ok size_idx unit_size.
Hypothesis Hu : unit_size < 2 ^ 64.
Hypothesis Ha : 0 <= alignment < 2 ^ 64.
Hypothesis Hf : 0 <= flags < 2 ^ 16.
Hypothesis Hc : 0 <= chunk.
Hypothesis Hm : chunk + size_idx <= MAX_CHUNK.

Let m := set_runtime 0 (heap_addr heap) MAX_HEADER_TYPES MAX_MEMORY_BLOCK
  (set_extent 0 size_idx (set_location chunk zone MEMORY_BLOCK_NONE)).
Let hdr := heap_get_chunk_hdr heap m.
Let run := heap_get_chunk_run heap m.
Hypothesis Hsize : hdr_size_idx (vis s) hdr = size_idx.

Lemma run_init_spec :
  let '(i, b) := memblock_run_bitmap size_idx flags unit_size alignment (run_content run) in
  let m' := set_runtime MEMORY_BLOCK_RUN (heap_addr heap) (run_header_type flags) MEMORY_BLOCK_RUN m in
  1 <= i <= size_idx -> values b = run_content run -> bitmap_fits i unit_size alignment b ->
  exists s', memblock_run_init heap chunk zone size_idx flags unit_size alignment s = Some (m', s') /\
    run_at heap (vis s') m' size_idx flags unit_size alignment i /\ filled (vis s') b.
Proof using All.
  destruct Hp as [Hi8 Hu8 _]. destruct (memblock_run_bitmap size_idx flags unit_size alignment (run_content run)) as [i b] eqn:Eb.
  intros m' Hi Hv [B1 B2 B3 B4 B5 B6 B7 B8]. unfold memblock_run_init. fold m. fold run. rewrite Eb.
  set (s1 := st_store64 (run + 8) alignment (st_store64 run unit_size s)).
  change (st_store64 (values b + 8 * u32 (nvalues b - 1)) _ (memset (values b) 0 _ (memset (values b) 255 _ s1))) with (fill_bitmap b s1).
  destruct (fill_bitmap_spec b s1 ltac:(lia) B4 ltac:(lia)) as [F1 F2]. set (s2 := fill_bitmap b s1) in *.
  set (s3 := pmemops_flush (heap_ops heap) run _ s2). assert (vis s3 = vis s2) as E3 by apply flush_vis.
  set (z := ZID_TO_ZONE (layout heap) zone).
  destruct (data_headers_spec (Z.to_nat (i - 1)) z chunk 1 s3 ltac:(lia) ltac:(lia)) as [D1 D2].
  set (s4 := write_data_headers (Z.to_nat (i - 1)) z chunk 1 s3) in *.
  set (s5 := pmemops_persist (heap_ops heap) _ _ s4). assert (vis s5 = vis s4) as E5 by apply persist_vis.
  change (z + sizeof_zone_header + sizeof_chunk_header * chunk) with hdr.
  assert (hdr + 8 * size_idx <= run) as Hlay.
  { pose proof (zone_layout heap m size_idx Hc Hm). unfold run, hdr. change (chunk_id m) with chunk in *. unfold CHUNKSIZE in *. lia. }
  assert (forall j, z + sizeof_zone_header + sizeof_chunk_header * (chunk + j) = hdr + 8 * j) as Ehdr.
  { intros j. unfold hdr, heap_get_chunk_hdr, GET_CHUNK_HDR, sizeof_chunk_header. fold z. cbn. lia. }
  unfold run_content, sizeof_chunk_run_header in *.
  assert (forall x, x < hdr + 8 \/ hdr + 8 * i <= x -> x < run \/ run + 16 + rb_size b <= x -> vis s4 x = vis s x) as Fold.
  { intros x H1 H2. rewrite D1 by (rewrite Ehdr; lia). rewrite E3, F2 by lia. unfold s1, st_store64. cbn [vis st_store].
    rewrite !write_bytes_out by (rewrite ?length_le64; lia). done. }
  assert (hdr_size_idx (vis s5) hdr = size_idx) as Hsz.
  { etransitivity; [|exact Hsize]. destruct (hdr_frame (vis s) (vis s5) hdr) as (_ & _ & ->); [|done].
    intros x Hx. rewrite E5. symmetry. apply Fold; lia. }
  rewrite Hsz. fold (hdr_bytes CHUNK_TYPE_RUN flags size_idx). set (s6 := st_store hdr _ s5).
  set (s7 := pmemops_persist (heap_ops heap) hdr _ s6). assert (vis s7 = vis s6) as E7 by apply persist_vis.
  assert (forall x, x < hdr \/ hdr + 8 <= x -> vis s7 x = vis s4 x) as F7.
  { intros x Hx. rewrite E7. unfold s6. cbn [vis st_store]. rewrite write_bytes_out; [by rewrite E5|exact Hx]. }
  assert (forall x, run <= x -> vis s7 x = vis s2 x) as F8.
  { intros x Hx. rewrite F7 by lia. rewrite D1, E3 by (rewrite Ehdr; lia). done. }
  assert (run_at heap (vis s7) m size_idx flags unit_size alignment i) as HR.
  { destruct (hdr_stored (vis s5) hdr CHUNK_TYPE_RUN flags size_idx) as (T1 & T2 & T3).
    constructor; fold hdr; fold run.
    - rewrite E7. exact T1.
    - rewrite E7. unfold s6. cbn [vis st_store]. rewrite T2. by apply Z.mod_small.
    - rewrite E7. unfold s6. cbn [vis st_store]. rewrite T3. apply Z.mod_small. lia.
    - intros j Hj. destruct (D2 j ltac:(lia)) as [G1 G2]. rewrite Ehdr in G1, G2.
      destruct (hdr_frame (vis s4) (vis s7) (hdr + 8 * j)) as (-> & _ & ->); [|by split].
      intros x Hx. symmetry. apply F7. lia.
    - unfold run_block_size_field. rewrite (load64_agree (vis s7) (vis s1) run 16 run); [|intros x Hx|lia|lia].
      + unfold s1, st_store64. cbn [vis st_store]. rewrite load64_write_disj by (rewrite ?length_le64; lia).
        rewrite load64_write_same. apply u64_small. lia.
      + rewrite F8 by lia. apply F2. lia.
    - unfold run_alignment_field. rewrite (load64_agree (vis s7) (vis s1) run 16 (run + 8)); [|intros x Hx|lia|lia].
      + unfold s1, st_store64. cbn [vis st_store]. rewrite load64_write_same. by apply u64_small.
      + rewrite F8 by lia. apply F2. lia. }
  rewrite (run_rebuild _ _ _ _ _ _ _ _ HR). cbn [mbind option_bind]. fold m'. exists s7. split; [done|]. split; [by destruct HR|].
  eapply bitmap_frame; [|exact B4|exact F1]. intros x Hx. symmetry. apply F8. lia.
Qed.
End RunInit.
