(* ===== verification/MemblockOffset.v ===== *)
(** * Blocks and their offsets

    memblock_from_offset recovers a block from the offset of its user data. *)
From stdpp Require Import base numbers list list_numbers.
From Stdlib Require Import ZArith Lia Bool.
From S2P Require Import Prelude Pmem Container Seglists HeapLayout Memblock MemblockBitmap MemblockInit.

(** ** Where the data of a run start *)

Lemma align_up_pow2 x k : 0 <= k -> 0 <= x -> x + 2 ^ k - 1 < 2 ^ 64 ->
  let y := ALIGN_UP x (2 ^ k) in y mod 2 ^ k = 0 /\ x <= y < x + 2 ^ k.
Proof.
  intros Hk Hx Hs. assert (0 < 2 ^ k) by (apply Z.pow_pos_nonneg; lia). unfold ALIGN_UP.
  rewrite u64_small, land_lnot_ones by lia.
  pose proof (Z.div_mod (x + 2 ^ k - 1) (2 ^ k) ltac:(lia)). pose proof (Z.mod_pos_bound (x + 2 ^ k - 1) (2 ^ k) ltac:(lia)).
  split; [rewrite Z.mul_comm; apply Z.mod_mul; lia|lia].
Qed.

(** [CHUNK_FLAG_ALIGNED] comes with a power of two that divides the unit size. *)
Definition alignment_ok (flags unit_size alignment : Z) : Prop :=
  if flag_isset flags CHUNK_FLAG_ALIGNED
  then exists k, 0 <= k /\ alignment = 2 ^ k /\ alignment <= unit_size
  else True.

Lemma header_size_range t : 0 <= header_type_to_size t <= 64.
Proof. unfold header_type_to_size. destruct (t =? HEADER_LEGACY), (t =? HEADER_COMPACT); lia. Qed.

Lemma data_start_bounds heap v m i flags u a n b :
  run_at heap v m i flags u a n -> b = run_get_bitmap heap v m -> values b = run_content (heap_get_chunk_run heap m) ->
  bitmap_fits n u a b -> 1 <= n <= 65535 -> alignment_ok flags u a -> 8 <= u ->
  0 <= heap_get_chunk_run heap m -> heap_get_chunk_run heap m + 2 * CHUNKSIZE * n + u < 2 ^ 64 ->
  run_content (heap_get_chunk_run heap m) + rb_size b <= run_get_data_start heap v m /\
  run_get_data_start heap v m + u * nbits b <= heap_get_chunk_run heap m + CHUNKSIZE * n /\ 0 <= rb_size b.
Proof.
  intros HR Hb Hv [B1 B2 B3 B4 B5 B6 B7 B8] Hn Ha Hu H0 Hmax. unfold run_get_data_start. rewrite <- Hb.
  pose proof HR as [R1 R2 R3 R4 R5 R6]. rewrite R2, R6. rewrite content_size in B5 by done.
  unfold alignment_ok in Ha. unfold run_content, sizeof_chunk_run_header, CHUNKSIZE in *.
  set (run := heap_get_chunk_run heap m) in *.
  destruct (flag_isset flags CHUNK_FLAG_ALIGNED).
  - destruct Ha as (k & Hk & -> & Hle). pose proof (header_size_range (header_type m)).
    assert (0 < 2 ^ k) by (apply Z.pow_pos_nonneg; lia). destruct (Z.eqb_spec (2 ^ k) 0); [lia|].
    destruct (align_up_pow2 (run + 16 + rb_size b + header_type_to_size (header_type m)) k Hk ltac:(lia)) as [_ A2]; nia.
  - destruct (a =? 0); nia.
Qed.

(** ** Round trip *)

(** A block of a run as the allocator keeps it. *)
Record run_block (heap : palloc_heap) (v : mem) (m : memory_block) (i flags u a n : Z) (b : run_bitmap) : Prop := RunBlock {
  rk_run : run_at heap v m i flags u a n;
  rk_bitmap : b = run_get_bitmap heap v m;
  rk_values : values b = run_content (heap_get_chunk_run heap m);
  rk_fits : bitmap_fits n u a b;
  rk_n : 1 <= n <= 65535;
  rk_unit : 8 <= u < 2 ^ 32;
  rk_align : alignment_ok flags u a;
  rk_zone : 0 <= zone_id m < 2 ^ 16;
  rk_chunk : 0 <= chunk_id m;
  rk_chunks : chunk_id m + n <= MAX_CHUNK;
  rk_off : 0 <= block_off m;
  rk_size : 1 <= size_idx m;
  rk_end : block_off m + size_idx m <= nbits b;
  rk_ops : m_ops m = MEMORY_BLOCK_RUN /\ mb_type m = MEMORY_BLOCK_RUN;
  rk_heap : mb_heap m = heap_addr heap;
  rk_header : header_type m = run_header_type flags;
  rk_base : 0 <= heap_base heap <= layout heap;
  rk_layout : layout heap < 2 ^ 62
}.

(** The header of an allocated block holds its size; blocks without a header are
    single units. *)
Definition size_stored (heap : palloc_heap) (v : mem) (m : memory_block) (u : Z) : Prop :=
  header_get_size heap v m = u * size_idx m.

(** Its address inside the zone. *)
Lemma run_block_address heap v m i flags u a n b :
  run_block heap v m i flags u a n b -> header_type_to_size (header_type m) < u * size_idx m ->
  let hsize := header_type_to_size (header_type m) in
  let d := 16 + run_get_data_offset heap v m + u * block_off m + hsize in
  block_get_user_data heap v m = heap_get_chunk_run heap m + d /\ 16 + hsize <= d < CHUNKSIZE * n /\
  0 <= run_get_data_offset heap v m.
Proof.
  intros [R B V F N U A Z0 C0 C1 O0 S0 E0 M H Hh P L] Hlt hsize d.
  assert (0 <= heap_get_chunk_run heap m <= layout heap + 2 ^ 52) as Hrun.
  { unfold heap_get_chunk_run, GET_CHUNK_RUN, GET_CHUNK, ZID_TO_ZONE, ZONE_MAX_SIZE, sizeof_zone, sizeof_zone_header,
      sizeof_heap_header, CHUNKSIZE, sizeof_chunk_header, MAX_CHUNK in *. lia. }
  destruct (data_start_bounds heap v m i flags u a n b R B V F N A) as (D1 & D2 & D3); [lia|lia|unfold CHUNKSIZE; lia|].
  pose proof (header_size_range (header_type m)) as Hhs. fold hsize in Hhs.
  assert (u * block_off m + hsize < u * nbits b) as Hin by (unfold hsize in *; nia).
  assert (0 <= u * block_off m) by nia. pose proof (bf_data _ _ _ _ F) as Bd. rewrite content_size in Bd by done.
  unfold block_get_user_data, get_real_data. destruct M as [-> _]. cbn [Z.eqb MEMORY_BLOCK_RUN MEMORY_BLOCK_HUGE].
  change (MEMORY_BLOCK_RUN =? MEMORY_BLOCK_HUGE) with false. cbv iota. unfold run_get_real_data. rewrite (ra_unit _ _ _ _ _ _ _ _ R).
  assert (u * block_off m < 2 ^ 64) by (destruct (a =? 0); nia).
  rewrite u64_small by lia. unfold d, run_get_data_offset, run_content, sizeof_chunk_run_header in *. fold hsize. lia.
Qed.

(** The quotients memblock_from_offset takes. *)
Lemma zone_of_offset zone chunk d n : 0 <= zone -> 0 <= chunk -> chunk + n <= MAX_CHUNK -> 0 <= d < CHUNKSIZE * n ->
  (ZONE_MAX_SIZE * zone + sizeof_zone + CHUNKSIZE * chunk + d) / ZONE_MAX_SIZE = zone /\
  (CHUNKSIZE * chunk + d) / CHUNKSIZE = chunk + d / CHUNKSIZE /\ 0 <= d / CHUNKSIZE < n.
Proof.
  intros Hz Hc Hn Hd. split; [|split].
  - symmetry. apply (Z.div_unique _ ZONE_MAX_SIZE zone (sizeof_zone + CHUNKSIZE * chunk + d)); [|lia].
    left. unfold ZONE_MAX_SIZE, sizeof_zone, sizeof_zone_header, sizeof_chunk_header, CHUNKSIZE, MAX_CHUNK in *. lia.
  - rewrite (Z.mul_comm CHUNKSIZE), Z.div_add_l; [done|]. unfold CHUNKSIZE. lia.
  - split; [apply Z.div_pos; unfold CHUNKSIZE; lia|]. apply Z.div_lt_upper_bound; unfold CHUNKSIZE in *; lia.
Qed.

Lemma located heap m d : heap_get_chunk_run heap m + d - (layout heap + sizeof_heap_header) =
  ZONE_MAX_SIZE * zone_id m + sizeof_zone + CHUNKSIZE * chunk_id m + d.
Proof. unfold heap_get_chunk_run, GET_CHUNK_RUN, GET_CHUNK, ZID_TO_ZONE. lia. Qed.

(** The chunk that holds the address, and from its header the first chunk. *)
Lemma first_chunk heap v m i flags u a n j :
  run_at heap v m i flags u a n -> 0 <= chunk_id m -> chunk_id m + n <= MAX_CHUNK -> 0 <= j < n ->
  let c := chunk_id m + j in
  let hdr := GET_CHUNK_HDR (layout heap) (zone_id m) c in
  (if hdr_type v hdr =? CHUNK_TYPE_RUN_DATA then u32 (c - hdr_size_idx v hdr) else c) = chunk_id m.
Proof.
  intros HR H0 Hn Hj c hdr. assert (hdr = heap_get_chunk_hdr heap m + 8 * j) as ->.
  { unfold hdr, heap_get_chunk_hdr, GET_CHUNK_HDR, sizeof_chunk_header, c. lia. }
  destruct (Z.eq_dec j 0) as [->|Hj0].
  - rewrite Z.mul_0_r, Z.add_0_r, (ra_type _ _ _ _ _ _ _ _ HR). cbn. unfold c. lia.
  - destruct (ra_data _ _ _ _ _ _ _ _ HR j ltac:(lia)) as [-> ->]. rewrite Z.eqb_refl. unfold c.
    rewrite u32_small by (unfold MAX_CHUNK in *; lia). lia.
Qed.

Lemma locate_run heap v m i flags u a n d :
  run_at heap v m i flags u a n -> 0 <= chunk_id m -> chunk_id m + n <= MAX_CHUNK -> 0 <= zone_id m < 2 ^ 16 ->
  0 <= heap_base heap <= layout heap -> layout heap < 2 ^ 62 -> 0 <= d < CHUNKSIZE * n ->
  locate_offset heap v (HEAP_PTR_TO_OFF heap (heap_get_chunk_run heap m + d)) = (zone_id m, chunk_id m, d).
Proof.
  intros R C0 C1 Z0 P L Hd. destruct (zone_of_offset (zone_id m) (chunk_id m) d n ltac:(lia) C0 C1 Hd) as (Q1 & Q2 & Q3).
  pose proof (located heap m d) as Eloc. pose proof (first_chunk heap v m i flags u a n _ R C0 C1 Q3) as Efc. cbv zeta in Efc.
  assert (0 <= ZONE_MAX_SIZE * zone_id m /\ 0 <= sizeof_zone <= 2 ^ 20 /\ 0 <= CHUNKSIZE * chunk_id m /\
    ZONE_MAX_SIZE * zone_id m + CHUNKSIZE * chunk_id m + d <= 2 ^ 51) as (Hz1 & Hz2 & Hz3 & Hz4).
  { unfold ZONE_MAX_SIZE, sizeof_zone, sizeof_zone_header, sizeof_chunk_header, CHUNKSIZE, MAX_CHUNK in *. lia. }
  unfold locate_offset, HEAP_PTR_TO_OFF. unfold sizeof_heap_header in *.
  rewrite (u64_small (heap_get_chunk_run heap m + d - heap_base heap)), (u64_small (layout heap + 1024 - heap_base heap)) by lia.
  replace (heap_get_chunk_run heap m + d - heap_base heap - (layout heap + 1024 - heap_base heap))
    with (ZONE_MAX_SIZE * zone_id m + sizeof_zone + CHUNKSIZE * chunk_id m + d) by lia.
  rewrite (u64_small (ZONE_MAX_SIZE * zone_id m + sizeof_zone + CHUNKSIZE * chunk_id m + d)), Q1 by lia.
  rewrite (u32_small (zone_id m)), (u64_small (ZONE_MAX_SIZE * zone_id m)), (u64_small (ZONE_MAX_SIZE * zone_id m + sizeof_zone)) by lia.
  replace (ZONE_MAX_SIZE * zone_id m + sizeof_zone + CHUNKSIZE * chunk_id m + d - (ZONE_MAX_SIZE * zone_id m + sizeof_zone))
    with (CHUNKSIZE * chunk_id m + d) by lia.
  rewrite (u64_small (CHUNKSIZE * chunk_id m + d)), Q2, (u32_small (chunk_id m + d / CHUNKSIZE)), Efc by (unfold MAX_CHUNK in *; lia).
  rewrite (u64_small (CHUNKSIZE * chunk_id m)) by lia. f_equal. rewrite u64_small by lia. lia.
Qed.

Lemma calc_size_idx_exact u k : 0 < u < 2 ^ 32 -> 1 <= k < 2 ^ 32 -> CALC_SIZE_IDX u (u * k) = k.
Proof.
  intros Hu Hk. unfold CALC_SIZE_IDX. destruct (Z.eqb_spec (u * k) 0); [nia|].
  assert ((u * k - 1) / u = k - 1) as -> by (symmetry; apply (Z.div_unique _ u (k - 1) (u - 1)); nia).
  rewrite u32_small by lia. lia.
Qed.

(** Up to the width of the block offset, the block comes back. *)
Lemma from_offset_run heap v m i flags u a n b :
  run_block heap v m i flags u a n b -> header_type_to_size (header_type m) < u * size_idx m ->
  memblock_from_offset heap v (HEAP_PTR_TO_OFF heap (block_get_user_data heap v m)) =
  set_extent (u16 (block_off m)) (CALC_SIZE_IDX u (header_get_size heap v (set_extent (u16 (block_off m)) 0 m))) m.
Proof.
  intros HB Hlt. destruct (run_block_address heap v m i flags u a n b HB Hlt) as (Ea & Hd & Hdo).
  destruct HB as [R B V F N U A Z0 C0 C1 O0 S0 E0 [M1 M2] H Hh P L].
  set (hsize := header_type_to_size (header_type m)) in *.
  set (d := 16 + run_get_data_offset heap v m + u * block_off m + hsize) in *.
  pose proof (header_size_range (header_type m)) as Hhs. fold hsize in Hhs.
  unfold memblock_from_offset, memblock_from_offset_opt. rewrite Ea.
  rewrite (locate_run heap v m i flags u a n d) by (done || lia).
  assert (0 <= d < 2 ^ 34) as Hd2 by (unfold CHUNKSIZE in *; lia). assert (0 <= u * block_off m) as Hub by nia.
  set (m1 := set_location (chunk_id m) (zone_id m) MEMORY_BLOCK_NONE).
  change (memblock_header_type heap v m1) with (memblock_header_type heap v m).
  assert (memblock_header_type heap v m = header_type m) as Eht.
  { rewrite Hh. unfold memblock_header_type. by rewrite (ra_flags _ _ _ _ _ _ _ _ R). }
  rewrite Eht. fold hsize. rewrite (u64_small (d - hsize)) by lia. destruct (Z.eqb_spec (d - hsize) 0) as [|Hne]; [lia|].
  set (m2 := set_runtime MEMORY_BLOCK_RUN (heap_addr heap) (header_type m) MEMORY_BLOCK_RUN m1).
  change (block_size heap v m2) with (run_block_size_field v (heap_get_chunk_run heap m)).
  rewrite (ra_unit _ _ _ _ _ _ _ _ R). change (run_get_data_offset heap v m2) with (run_get_data_offset heap v m).
  unfold RUN_BASE_METADATA_SIZE, sizeof_chunk_run_header. rewrite (u64_small (d - hsize - run_get_data_offset heap v m)) by lia.
  replace (d - hsize - run_get_data_offset heap v m - 16) with (block_off m * u) by (unfold d; lia).
  rewrite u64_small, Z.div_mul by lia.
  assert (forall o k, set_extent o k m2 = set_extent o k m) as Em.
  { intros o k. unfold set_extent, m2, m1. cbn. by rewrite M1, M2, H. }
  change (size_idx m2) with 0. rewrite Em. done.
Qed.

(** ** An example *)

(** A run of 1024-byte units in one chunk of a heap 1 MiB into a pool. *)
Definition ex_heap : palloc_heap := PHeap 64 (POps 512 OPS_POOL) 1048576 512.
Definition ex_block (off size : Z) : memory_block :=
  MBlock 2 0 size off MEMORY_BLOCK_RUN 64 HEADER_LEGACY MEMORY_BLOCK_RUN.
Definition ex_mem : mem :=
  write_bytes (write_bytes (fun _ => Byte.x00) (heap_get_chunk_hdr ex_heap (ex_block 0 0)) (hdr_bytes CHUNK_TYPE_RUN 0 1))
    (heap_get_chunk_run ex_heap (ex_block 0 0)) (le64 1024 ++ le64 0).
Definition ex_bitmap : run_bitmap := RunBitmap 4 255 304 (run_content (heap_get_chunk_run ex_heap (ex_block 0 0))).

Lemma ex_run_params : run_params_ok 1 1024.
Proof. constructor; lia. Qed.

Lemma ex_run_block off size : 0 <= off -> 1 <= size -> off + size <= 255 ->
  run_block ex_heap ex_mem (ex_block off size) 1 0 1024 0 1 ex_bitmap.
Proof.
  intros H0 H1 H2. constructor; try (unfold ex_bitmap, ex_heap, ex_block, MAX_CHUNK; cbn -[Z.mul]; lia || done).
  constructor; [| | |intros; lia| |]; vm_compute; reflexivity.
Qed.
