(* ===== verification/MemblockState.v ===== *)
(** * Allocating and freeing the blocks of a run

    run_prep_operation_hdr adds one entry to the operation's redo log: an OR of
    the block's mask, or an AND of its complement.  Processing the log flips the
    state of the block and of no other block. *)
From stdpp Require Import base numbers list list_numbers.
From Stdlib Require Import ZArith Lia Bool.
From S2P Require Import Prelude Pmem Ulog UlogFacts UlogRedo Memops MemopsLog Container Seglists.
From S2P Require Import HeapLayout Memblock MemblockBits MemblockRun MemblockBitmap MemblockInit.
From S2P Require Import MemblockOffset.

(** The block lies in one value of the bitmap, as the code asserts. *)
Definition in_value (m : memory_block) : Prop :=
  0 <= block_off m /\ 1 <= size_idx m /\ block_off m mod 64 + size_idx m <= 64.
Definition in_block (m : memory_block) (x : Z) : bool := (block_off m <=? x) && (x <? block_off m + size_idx m).

(** ** The mask *)

Lemma run_mask_bit m j : in_value m -> 0 <= j < 64 ->
  Z.testbit (run_mask m) j = (block_off m mod 64 <=? j) && (j <? block_off m mod 64 + size_idx m).
Proof.
  intros (H0 & H1 & H2) Hj. pose proof (Z.mod_pos_bound (block_off m) 64 ltac:(lia)). unfold run_mask, RUN_BITS_PER_VALUE.
  destruct (Z.eqb_spec (size_idx m) 64) as [E|E].
  - rewrite all_ones by lia. symmetry. apply andb_true_iff. split; [apply Z.leb_le|apply Z.ltb_lt]; lia.
  - assert (2 ^ size_idx m <= 2 ^ 63) by (apply Z.pow_le_mono_r; lia).
    assert (0 < 2 ^ size_idx m) by (apply Z.pow_pos_nonneg; lia).
    rewrite Z.shiftl_1_l, (u64_small (2 ^ size_idx m)), (u64_small (2 ^ size_idx m - 1)) by lia.
    unfold u64. rewrite Z.mod_pow2_bits_low, Z.shiftl_spec by lia.
    replace (2 ^ size_idx m - 1) with (Z.ones (size_idx m)) by (rewrite Z.ones_equiv; lia).
    destruct (Z.leb_spec (block_off m mod 64) j); cbn [andb]; [|by rewrite Z.testbit_neg_r by lia].
    rewrite Z.testbit_ones by lia. rewrite (proj2 (Z.leb_le 0 _)) by lia. cbn [andb].
    destruct (Z.ltb_spec j (block_off m mod 64 + size_idx m)); [apply Z.ltb_lt|apply Z.ltb_ge]; lia.
Qed.

Lemma run_mask_range m : 0 <= run_mask m < 2 ^ 64.
Proof. unfold run_mask. destruct (size_idx m =? RUN_BITS_PER_VALUE); [unfold UINT64_MAX; lia|apply u64_range]. Qed.

(** The units of the bitmap's value that the block is in. *)
Lemma in_block_bit m x : in_value m -> x / 64 = block_off m / 64 ->
  in_block m x = Z.testbit (run_mask m) (x mod 64).
Proof.
  intros Hm Hx. pose proof (Z.mod_pos_bound x 64 ltac:(lia)). rewrite run_mask_bit by done. unfold in_block.
  pose proof (Z.div_mod x 64 ltac:(lia)). pose proof (Z.div_mod (block_off m) 64 ltac:(lia)).
  f_equal; [apply eq_iff_eq_true; rewrite !Z.leb_le|apply eq_iff_eq_true; rewrite !Z.ltb_lt]; lia.
Qed.

Lemma in_block_value m x : in_value m -> in_block m x = true -> x / 64 = block_off m / 64.
Proof.
  intros (H0 & H1 & H2) Hx. unfold in_block in Hx. apply andb_true_iff in Hx as [Hlo%Z.leb_le Hhi%Z.ltb_lt].
  pose proof (Z.div_mod (block_off m) 64 ltac:(lia)). pose proof (Z.mod_pos_bound (block_off m) 64 ltac:(lia)).
  symmetry. apply (Z.div_unique x 64 (block_off m / 64) (x - 64 * (block_off m / 64))); lia.
Qed.

(** ** What run_get_state reads *)

Lemma bit_is_clr v i : 0 <= i < 64 -> BIT_IS_CLR v i = negb (Z.testbit v i).
Proof.
  intros Hi. unfold BIT_IS_CLR. assert (2 ^ i <= 2 ^ 63) by (apply Z.pow_le_mono_r; lia).
  assert (0 < 2 ^ i) by (apply Z.pow_pos_nonneg; lia). rewrite Z.shiftl_1_l, u64_small by lia.
  destruct (Z.eqb_spec (Z.land v (2 ^ i)) 0) as [E|E].
  - assert (Z.testbit (Z.land v (2 ^ i)) i = false) as Hb by (rewrite E; apply Z.testbit_0_l).
    rewrite Z.land_spec, Z.pow2_bits_true, andb_true_r in Hb by lia. by rewrite Hb.
  - destruct (Z.testbit v i) eqn:Eb; [done|]. destruct E. apply Z.bits_inj'. intros j Hj.
    rewrite Z.land_spec, Z.testbit_0_l. destruct (Z.eq_dec j i) as [->|Hne]; [by rewrite Eb|].
    rewrite Z.pow2_bits_false by lia. apply andb_false_r.
Qed.

(** A block is free when all of its units are. *)
Lemma run_state_units heap v m : in_value m ->
  run_get_state heap v m = MEMBLOCK_FREE <->
  forall x, in_block m x = true -> unit_used v (run_get_bitmap heap v m) x = false.
Proof.
  intros Hm. pose proof Hm as (H0 & H1 & H2). unfold run_get_state, unit_used.
  set (b := run_get_bitmap heap v m). set (val := bitmap_value v b (block_off m / RUN_BITS_PER_VALUE)).
  pose proof (Z.div_mod (block_off m) 64 ltac:(lia)). pose proof (Z.mod_pos_bound (block_off m) 64 ltac:(lia)).
  transitivity (forallb (BIT_IS_CLR val) (seqZ (block_off m mod RUN_BITS_PER_VALUE) (size_idx m)) = true);
    [by destruct (forallb _ _)|].
  rewrite forallb_forall. unfold RUN_BITS_PER_VALUE in *. split.
  - intros H' x Hx. rewrite (in_block_value m x Hm Hx). fold val. apply negb_true_iff.
    pose proof (in_block_value m x Hm Hx) as Ex. pose proof (Z.div_mod x 64 ltac:(lia)). pose proof (Z.mod_pos_bound x 64 ltac:(lia)).
    unfold in_block in Hx. apply andb_true_iff in Hx as [Hlo%Z.leb_le Hhi%Z.ltb_lt].
    rewrite <- bit_is_clr by lia. apply H'. apply list_elem_of_In, elem_of_seqZ. lia.
  - intros H' j Hj. apply list_elem_of_In, elem_of_seqZ in Hj. rewrite bit_is_clr by lia. apply negb_true_iff.
    assert (in_block m (64 * (block_off m / 64) + j) = true) as Hx.
    { unfold in_block. apply andb_true_iff. rewrite Z.leb_le, Z.ltb_lt. lia. }
    specialize (H' _ Hx). rewrite (in_block_value m _ Hm Hx) in H'. fold val in H'.
    rewrite Z.mul_comm, Z.add_comm, Z.mod_add, Z.mod_small in H' by lia. exact H'.
Qed.

Lemma run_state_cases heap v m : run_get_state heap v m = MEMBLOCK_FREE \/ run_get_state heap v m = MEMBLOCK_ALLOCATED.
Proof. unfold run_get_state. destruct (forallb _ _); auto. Qed.

(** ** The entry *)

Definition block_entry (base : Z) (b : run_bitmap) (m : memory_block) (alloc : bool) : vent :=
  VEnt (values b + 8 * (block_off m / 64) - base) (if alloc then OpOr else OpAnd)
    (if alloc then run_mask m else u64 (Z.lnot (run_mask m))).

Lemma entry_units base b m alloc v x :
  in_value m -> (values b - base) mod 8 = 0 -> vent_ok (block_entry base b m alloc) ->
  unit_used (apply_vent base (block_entry base b m alloc) v) b x = if in_block m x then alloc else unit_used v b x.
Proof.
  intros Hm Ha Hok. unfold unit_used, bitmap_value.
  assert (forall i, (values b + 8 * i - base) mod 8 = 0) as Ha8.
  { intros i. replace (values b + 8 * i - base) with (values b - base + i * 8) by lia. by rewrite Z.mod_add. }
  replace (values b + 8 * (x / 64)) with (base + (values b + 8 * (x / 64) - base)) by lia.
  rewrite load64_apply_vent by (done || apply Ha8). unfold word_op. cbn [ve_off ve_op ve_val block_entry].
  set (old := load64 v _). pose proof (Z.mod_pos_bound x 64 ltac:(lia)).
  destruct (Z.eqb_spec (values b + 8 * (block_off m / 64) - base) (values b + 8 * (x / 64) - base)) as [E|E].
  - rewrite (in_block_bit m x Hm) by lia. destruct alloc; cbn [op_fun].
    + rewrite Z.lor_spec. destruct (Z.testbit (run_mask m) (x mod 64)); [apply orb_true_r|apply orb_false_r].
    + rewrite Z.land_spec. unfold u64. rewrite Z.mod_pow2_bits_low, Z.lnot_spec by lia.
      destruct (Z.testbit (run_mask m) (x mod 64)); [apply andb_false_r|apply andb_true_r].
  - destruct (in_block m x) eqn:Ex; [|done]. apply in_block_value in Ex; [lia|done].
Qed.

(** The bitmap's description is not in the bitmap. *)
Lemma run_bitmap_frame heap v v' m :
  agree v v' (heap_get_chunk_hdr heap m) 8 -> agree v v' (heap_get_chunk_run heap m) 16 ->
  run_get_bitmap heap v' m = run_get_bitmap heap v m.
Proof.
  intros Hh Hr. unfold run_get_bitmap. destruct (hdr_frame _ _ _ Hh) as (_ & -> & ->).
  unfold run_block_size_field, run_alignment_field.
  rewrite <- (load64_agree v v' _ 16 (heap_get_chunk_run heap m)) by (done || lia).
  by rewrite <- (load64_agree v v' _ 16 (heap_get_chunk_run heap m + 8)) by (done || lia).
Qed.

Lemma entry_bitmap heap v m i flags u a n b base alloc m' :
  run_block heap v m i flags u a n b -> chunk_id m' = chunk_id m -> zone_id m' = zone_id m ->
  run_get_bitmap heap (apply_vent base (block_entry base b m alloc) v) m' = b.
Proof.
  intros [R B V F N U A Z0 C0 C1 O0 S0 E0 M H Hh P L] Ec Ez.
  pose proof (zone_layout heap m n C0 C1) as Hl. assert (0 <= CHUNKSIZE * chunk_id m) by (unfold CHUNKSIZE; lia).
  assert (forall x, x < run_content (heap_get_chunk_run heap m) -> apply_vent base (block_entry base b m alloc) v x = v x) as Hout.
  { intros x Hx. apply apply_vent_out. cbn [ve_off block_entry].
    assert (0 <= block_off m / 64) by (apply Z.div_pos; lia). lia. }
  unfold run_content, sizeof_chunk_run_header in Hout. transitivity (run_get_bitmap heap v m); [|done].
  assert (forall w, run_get_bitmap heap w m' = run_get_bitmap heap w m) as ->.
  { intros w. unfold run_get_bitmap, heap_get_chunk_hdr, heap_get_chunk_run. by rewrite Ec, Ez. }
  apply run_bitmap_frame; intros x Hx; symmetry; apply Hout; lia.
Qed.

(** Two blocks of one run that share no unit. *)
Definition apart (m m' : memory_block) : Prop :=
  chunk_id m' = chunk_id m /\ zone_id m' = zone_id m /\
  (block_off m + size_idx m <= block_off m' \/ block_off m' + size_idx m' <= block_off m).

Lemma entry_state heap v m i flags u a n b base alloc :
  run_block heap v m i flags u a n b -> in_value m -> (values b - base) mod 8 = 0 ->
  vent_ok (block_entry base b m alloc) ->
  let v' := apply_vent base (block_entry base b m alloc) v in
  run_get_state heap v' m = (if alloc then MEMBLOCK_ALLOCATED else MEMBLOCK_FREE) /\
  forall m', in_value m' -> apart m m' -> run_get_state heap v' m' = run_get_state heap v m'.
Proof.
  intros HB Hm Ha Hok v'. assert (forall m', chunk_id m' = chunk_id m -> zone_id m' = zone_id m ->
    run_get_bitmap heap v' m' = b) as Eb by (intros; eapply entry_bitmap; eauto).
  pose proof (rk_bitmap _ _ _ _ _ _ _ _ _ HB) as Ebv. split.
  - destruct alloc.
    + destruct (run_state_cases heap v' m) as [E|E]; [|done]. pose proof Hm as (H0 & H1 & H2).
      assert (in_block m (block_off m) = true) as Hin.
      { unfold in_block. apply andb_true_iff. rewrite Z.leb_le, Z.ltb_lt. lia. }
      pose proof (proj1 (run_state_units heap v' m Hm) E _ Hin) as Hu. rewrite Eb in Hu by done.
      unfold v' in Hu. rewrite entry_units, Hin in Hu by done. done.
    + apply run_state_units; [done|]. intros x Hx. rewrite Eb by done. unfold v'. by rewrite entry_units, Hx.
  - intros m' Hm' (Ec & Ez & Hd).
    assert (run_get_state heap v' m' = MEMBLOCK_FREE <-> run_get_state heap v m' = MEMBLOCK_FREE) as Heq.
    { rewrite !run_state_units by done. rewrite Eb by done.
      assert (run_get_bitmap heap v m' = b) as ->.
      { rewrite Ebv. unfold run_get_bitmap, heap_get_chunk_hdr, heap_get_chunk_run. by rewrite Ec, Ez. }
      assert (forall x, in_block m' x = true -> unit_used v' b x = unit_used v b x) as Eu.
      { intros x Hx. unfold v'. rewrite entry_units by done. unfold in_block in *.
        apply andb_true_iff in Hx as [Hlo%Z.leb_le Hhi%Z.ltb_lt].
        destruct (Z.leb_spec (block_off m) x), (Z.ltb_spec x (block_off m + size_idx m)); cbn; lia || done. }
      split; intros Hall x Hx; [rewrite <- Eu by done|rewrite Eu by done]; by apply Hall. }
    destruct (run_state_cases heap v' m') as [E1|E1], (run_state_cases heap v m') as [E2|E2]; rewrite E1, E2 in *;
      try done; [by rewrite (proj1 Heq)|by rewrite (proj2 Heq)].
Qed.

(** ** Blocks are equal in equal memories *)

#[global] Instance run_get_bitmap_proper heap : Proper ((≡) ==> (=) ==> (=)) (run_get_bitmap heap).
Proof. intros v v' E m ? <-. symmetry. apply run_bitmap_frame; intros x Hx; apply E. Qed.

#[global] Instance run_get_state_proper heap : Proper ((≡) ==> (=) ==> (=)) (run_get_state heap).
Proof.
  intros v v' E m ? <-. unfold run_get_state, bitmap_value.
  rewrite (run_get_bitmap_proper heap v v' E m m eq_refl). by rewrite (load64_proper v v' E _ _ eq_refl).
Qed.

(** ** run_prep_operation_hdr *)

Lemma bitmap_aligned heap m b :
  values b = run_content (heap_get_chunk_run heap m) -> (layout heap - heap_base heap) mod 8 = 0 ->
  (values b - heap_base heap) mod 8 = 0.
Proof.
  intros -> Ha. unfold run_content, heap_get_chunk_run, GET_CHUNK_RUN, GET_CHUNK, ZID_TO_ZONE, ZONE_MAX_SIZE, sizeof_zone,
    sizeof_chunk_run_header, sizeof_zone_header, sizeof_chunk_header, sizeof_heap_header, CHUNKSIZE, MAX_CHUNK.
  Z.to_euclidean_division_equations. lia.
Qed.

Lemma block_entry_ok heap v m i flags u a n b alloc :
  run_block heap v m i flags u a n b -> layout heap - heap_base heap < 2 ^ 60 ->
  vent_ok (block_entry (heap_base heap) b m alloc).
Proof.
  intros [R B V F N U A Z0 C0 C1 O0 S0 E0 M H Hh P L] Hl. split.
  - cbn [ve_off block_entry]. rewrite V. destruct F as [F1 F2 F3 F4 F5 F6 F7 F8].
    assert (0 <= block_off m / 64 < 2 ^ 26).
    { split; [apply Z.div_pos; lia|]. apply Z.div_lt_upper_bound; lia. }
    unfold run_content, heap_get_chunk_run, GET_CHUNK_RUN, GET_CHUNK, ZID_TO_ZONE, ZONE_MAX_SIZE, sizeof_zone,
      sizeof_chunk_run_header, sizeof_zone_header, sizeof_chunk_header, sizeof_heap_header, CHUNKSIZE, MAX_CHUNK in *. lia.
  - cbn [ve_val block_entry]. destruct alloc; [apply run_mask_range|apply u64_range].
Qed.

(** What run_prep_operation_hdr asks of the operation. *)
Lemma prep_adds heap ra ok m (alloc : bool) c ws i flags u a n b :
  let op := if alloc then MEMBLOCK_ALLOCATED else MEMBLOCK_FREE in
  let e := block_entry (heap_base heap) b m alloc in
  run_block heap (vis ws.2) m i flags u a n b -> vent_ok e ->
  heap_base heap = base (ctx_p_ops c) -> OBJ_OFF_IS_VALID ws.1 (ve_off e) = true ->
  run_prep_operation_hdr heap ra ok m op c ws =
  let '(_, c', s') := operation_add_typed_entry ra ok c (base (ctx_p_ops c) + ve_off e) (ve_val e) (op_type (ve_op e))
                        LOG_PERSISTENT ws.2 in (c', (ws.1, s')).
Proof.
  intros op e HB [Ho _] Hbase Hvalid. unfold run_prep_operation_hdr. rewrite <- (rk_bitmap _ _ _ _ _ _ _ _ _ HB).
  assert (base (ctx_p_ops c) + ve_off e = values b + 8 * (block_off m / RUN_BITS_PER_VALUE)) as ->.
  { unfold e, RUN_BITS_PER_VALUE. cbn [ve_off block_entry]. rewrite Hbase. lia. }
  assert (OBJ_OFF_IS_VALID ws.1 (u64 (values b + 8 * (block_off m / RUN_BITS_PER_VALUE) - base (ctx_p_ops c))) = true) as Ev.
  { rewrite <- Hvalid. unfold e, RUN_BITS_PER_VALUE in *. cbn [ve_off block_entry] in *. rewrite u64_small by lia. by rewrite Hbase. }
  unfold op, e, operation_add_entry. rewrite Ev.
  destruct alloc; cbn [ve_val ve_op block_entry op_type];
    destruct (operation_add_typed_entry _ _ _ _ _ _ _ _) as [[ret c'] s']; done.
Qed.

(** C33. Allocating or freeing a block of a run.  run_prep_operation_hdr adds its
    entry to the redo log of the operation without losing any earlier entry, also
    where it is merged with one, as long as the queue of recent entries has not
    wrapped around its array, which it does not do here either; and in any memory to which the finished log is
    applied the block has the requested state while the state of every other block
    of the run is what the earlier entries alone make it. *)
Theorem run_prep_operation_hdr_correct heap ra ok m (alloc : bool) c ws es i flags u a n b :
  plog_ok c ws.2 es -> unwrapped c -> log_capacity (pshadow_ops c) + 1024 < 2 ^ 62 -> ra <> 0 ->
  run_block heap (vis ws.2) m i flags u a n b -> in_value m ->
  heap_base heap = base (ctx_p_ops c) -> (layout heap - heap_base heap) mod 8 = 0 ->
  layout heap - heap_base heap < 2 ^ 60 ->
  OBJ_OFF_IS_VALID ws.1 (values b + 8 * (block_off m / 64) - heap_base heap) = true ->
  let op := if alloc then MEMBLOCK_ALLOCATED else MEMBLOCK_FREE in
  exists c' s' es', run_prep_operation_hdr heap ra ok m op c ws = (c', (ws.1, s')) /\
    plog_ok c' s' es' /\ unwrapped c' /\
    forall w, let v := apply_log (heap_base heap) es w in let v' := apply_log (heap_base heap) es' w in
      run_block heap v m i flags u a n b ->
      run_get_state heap v' m = op /\
      forall m', in_value m' -> apart m m' -> run_get_state heap v' m' = run_get_state heap v m'.
Proof.
  intros HP Hun Hcap Hra HB Hm Hbase Hal Hlay Hvalid op. pose proof (rk_values _ _ _ _ _ _ _ _ _ HB) as Hval.
  pose proof (block_entry_ok heap _ m i flags u a n b alloc HB Hlay) as Hok.
  pose proof (bitmap_aligned heap m b Hval Hal) as Hb8. set (e := block_entry (heap_base heap) b m alloc) in *.
  assert (vent_aligned e) as Hea.
  { unfold vent_aligned, e. cbn [ve_off block_entry].
    replace (values b + 8 * (block_off m / 64) - heap_base heap) with (values b - heap_base heap + (block_off m / 64) * 8) by lia.
    by rewrite Z.mod_add. }
  pose proof (add_typed_step ra ok c ws.2 es e HP Hun Hcap Hok Hea) as Hstep.
  unfold op. rewrite (prep_adds heap ra ok m alloc c ws i flags u a n b HB Hok Hbase Hvalid). fold e.
  destruct (operation_add_typed_entry ra ok c _ _ _ _ _) as [[ret c'] s'].
  rewrite (proj2 (Z.eqb_neq ra 0)), andb_false_r in Hstep by done. destruct Hstep as (_ & es' & P1 & P2 & P3).
  exists c', s', es'. split; [done|]. split; [done|]. split; [done|]. intros w.
  set (v := apply_log (heap_base heap) es w). set (v' := apply_log (heap_base heap) es' w). intros Hw.
  assert (v' ≡ apply_vent (heap_base heap) e v) as Ev.
  { unfold v', v. transitivity (apply_log (heap_base heap) (es ++ [e]) w); [|unfold apply_log; by rewrite foldl_app].
    pose proof (log_at_ok _ _ _ (pl_entries _ _ _ HP)). pose proof (pl_aligned _ _ _ HP).
    apply word_log_memory; [exact (log_at_ok _ _ _ (pl_entries _ _ _ P1))|exact (pl_aligned _ _ _ P1)|
      (apply Forall_app; split; [done|by apply Forall_singleton])..|done]. }
  destruct (entry_state heap v m i flags u a n b (heap_base heap) alloc Hw Hm Hb8 Hok) as [S1 S2]. fold e in S1, S2. split.
  - by rewrite (run_get_state_proper heap _ _ Ev m m eq_refl).
  - intros m' Hm' Hd. rewrite (run_get_state_proper heap _ _ Ev m' m' eq_refl). by apply S2.
Qed.

Lemma run_prep_operation_hdr_correct_witness :
  let pop := Pop 8192 2 1048064 268435456 Ravl.ravl_new false in
  let ws := (pop, PMst ex_mem [] false) in
  exists c' s' es',
    run_prep_operation_hdr ex_heap 1 true (ex_block 3 2) MEMBLOCK_ALLOCATED (operation_start ex_ctx) ws = (c', (pop, s')) /\
    plog_ok c' s' es' /\
    run_get_state ex_heap (apply_log 512 es' ex_mem) (ex_block 3 2) = MEMBLOCK_ALLOCATED /\
    run_get_state ex_heap (apply_log 512 es' ex_mem) (ex_block 5 2) = run_get_state ex_heap ex_mem (ex_block 5 2).
Proof.
  intros pop ws. destruct (start_ok ex_ctx (PMst ex_mem [] false) ex_ctx_idle) as [P1 P2].
  pose proof (ex_run_block 3 2 ltac:(lia) ltac:(lia) ltac:(lia)) as HB.
  destruct (run_prep_operation_hdr_correct ex_heap 1 true (ex_block 3 2) true (operation_start ex_ctx) ws [] 1 0 1024 0 1 ex_bitmap
    P1 P2 ltac:(cbn; lia) ltac:(lia) HB ltac:(repeat split; vm_compute; congruence)) as (c' & s' & es' & H1 & H2 & H3 & H4);
    [vm_compute; done..|].
  destruct (H4 ex_mem HB) as [S1 S2]. exists c', s', es'. split; [done|]. split; [done|]. split; [done|].
  apply S2; [repeat split; vm_compute; congruence|]. split; [done|]. split; [done|]. left. cbn. lia.
Defined.
