(* ===== verification/MemblockHeader.v ===== *)
(** * Allocation headers and the way back from a pointer

    Writing the header of a block does not touch the metadata of its run, and
    memblock_from_offset recovers the block from the offset of its user data. *)
From stdpp Require Import base numbers list list_numbers.
From Stdlib Require Import ZArith Lia Bool.
From S2P Require Import Prelude Pmem Container Seglists HeapLayout Memblock MemblockBits MemblockRun.
From S2P Require Import MemblockBitmap MemblockInit MemblockOffset MemblockState.

(** ** Metadata are below the data *)

Lemma real_data_above heap v m i flags u a n b :
  run_block heap v m i flags u a n b ->
  get_real_data heap v m = run_get_data_start heap v m + u * block_off m /\
  run_content (heap_get_chunk_run heap m) + rb_size b <= get_real_data heap v m /\
  0 <= get_real_data heap v m.
Proof.
  intros [R B V F N U A Z0 C0 C1 O0 S0 E0 [M _] H Hh P L].
  assert (0 <= heap_get_chunk_run heap m <= layout heap + 2 ^ 52) as Hrun.
  { unfold heap_get_chunk_run, GET_CHUNK_RUN, GET_CHUNK, ZID_TO_ZONE, ZONE_MAX_SIZE, sizeof_zone, sizeof_zone_header,
      sizeof_heap_header, CHUNKSIZE, sizeof_chunk_header, MAX_CHUNK in *. lia. }
  destruct (data_start_bounds heap v m i flags u a n b R B V F N A) as (D1 & D2 & D3); [lia|lia|unfold CHUNKSIZE; lia|].
  assert (0 <= u * block_off m) by nia. unfold get_real_data. rewrite M.
  change (MEMORY_BLOCK_RUN =? MEMORY_BLOCK_HUGE) with false. cbv iota. unfold run_get_real_data.
  rewrite (ra_unit _ _ _ _ _ _ _ _ R).
  assert (u * block_off m < 2 ^ 64).
  { pose proof (bf_data _ _ _ _ F) as Bd. rewrite content_size in Bd by done. destruct (a =? 0); nia. }
  rewrite u64_small by lia. unfold run_content, sizeof_chunk_run_header in *. split; [done|]. lia.
Qed.

(** A run does not change when memory changes only above its bitmap. *)
Lemma run_block_frame heap v v' m i flags u a n b :
  run_block heap v m i flags u a n b -> (forall x, x < get_real_data heap v m -> v' x = v x) ->
  run_block heap v' m i flags u a n b /\ get_real_data heap v' m = get_real_data heap v m.
Proof.
  intros HB Hx. destruct (real_data_above _ _ _ _ _ _ _ _ _ HB) as (Er & Hr & _).
  pose proof HB as [R B V F N U A Z0 C0 C1 O0 S0 E0 [M M'] H Hh P L].
  pose proof (zone_layout heap m n C0 C1) as Hl. assert (0 <= CHUNKSIZE * chunk_id m) by (unfold CHUNKSIZE; lia).
  unfold run_content, sizeof_chunk_run_header in Hr.
  assert (0 <= rb_size b) by (destruct F; lia).
  assert (forall k, 0 <= k < n -> agree v v' (heap_get_chunk_hdr heap m + 8 * k) 8) as Ah.
  { intros k Hk x Hx'. symmetry. apply Hx. lia. }
  assert (agree v v' (heap_get_chunk_run heap m) 16) as Ar by (intros x Hx'; symmetry; apply Hx; lia).
  pose proof (Ah 0 ltac:(lia)) as Ah0. rewrite Z.mul_0_r, Z.add_0_r in Ah0.
  pose proof (run_bitmap_frame heap v v' m Ah0 Ar) as Eb.
  assert (run_block_size_field v' (heap_get_chunk_run heap m) = run_block_size_field v (heap_get_chunk_run heap m)) as Eu.
  { symmetry. apply (load64_agree _ _ _ _ _ Ar); lia. }
  assert (run_alignment_field v' (heap_get_chunk_run heap m) = run_alignment_field v (heap_get_chunk_run heap m)) as Ea.
  { symmetry. apply (load64_agree _ _ _ _ _ Ar); lia. }
  destruct (hdr_frame _ _ _ Ah0) as (T1 & T2 & T3). split.
  - constructor; try done; [|by rewrite Eb]. destruct R as [R1 R2 R3 R4 R5 R6]. constructor; try congruence.
    intros j Hj. destruct (hdr_frame _ _ _ (Ah j ltac:(lia))) as (-> & _ & ->). by apply R4.
  - unfold get_real_data. rewrite M. unfold run_get_real_data, run_get_data_start. by rewrite Eb, Eu, Ea, T2.
Qed.

Lemma user_size heap v m i flags u a n b :
  run_block heap v m i flags u a n b -> u * size_idx m < 2 ^ 64 -> block_get_real_size heap v m = u * size_idx m.
Proof.
  intros [R B V F N U A Z0 C0 C1 O0 S0 E0 [M _] H Hh P L] Hs. unfold block_get_real_size, block_size, run_block_size.
  destruct (Z.eqb_spec (size_idx m) 0); [lia|]. cbn [negb]. rewrite M. change (MEMORY_BLOCK_RUN =? MEMORY_BLOCK_HUGE) with false.
  cbv iota. rewrite (ra_unit _ _ _ _ _ _ _ _ R). apply u64_small. nia.
Qed.

(** ** Packing *)

Lemma pack_size size f : 0 <= size < 2 ^ 48 -> 0 <= f < 2 ^ 16 ->
  let x := Z.lor size (u64 (Z.shiftl f ALLOC_HDR_SIZE_SHIFT)) in
  0 <= x < 2 ^ 64 /\ Z.land x ALLOC_HDR_FLAGS_MASK = size /\ u16 (Z.shiftr x ALLOC_HDR_SIZE_SHIFT) = f.
Proof.
  intros Hs Hf x. unfold ALLOC_HDR_SIZE_SHIFT in *. assert (x = size + f * 2 ^ 48) as ->.
  { unfold x. rewrite u64_small by (rewrite Z.shiftl_mul_pow2; lia). apply lor_shifted; lia. }
  unfold ALLOC_HDR_FLAGS_MASK, ALLOC_HDR_SIZE_SHIFT. rewrite Z.shiftl_1_l.
  replace (2 ^ 48 - 1) with (Z.ones 48) by (rewrite Z.ones_equiv; lia). rewrite Z.land_ones, Z.shiftr_div_pow2 by lia.
  rewrite Z.mod_add, Z.div_add, (Z.mod_small size), (Z.div_small size) by lia.
  split; [lia|]. split; [done|]. apply Z.mod_small. lia.
Qed.

Lemma load64_field v a pre x post :
  load64 (write_bytes v a (pre ++ le64 x ++ post)) (a + Z.of_nat (length pre)) = u64 x.
Proof.
  unfold load64. rewrite load_sub by (rewrite ?length_app, ?length_le64; lia).
  replace (a + Z.of_nat (length pre) - a) with (Z.of_nat (length pre)) by lia. rewrite Nat2Z.id, drop_app_length, take_app_length'.
  - apply dec_le64.
  - by rewrite length_le64.
Qed.

(** ** What writing a header leaves in memory *)

Section Header.
Context (heap : palloc_heap) (m : memory_block) (s : pmst) (size extra flags : Z) (unused unused2 padding : list byte).
Hypothesis Hsize : 0 <= size < 2 ^ 48.
Hypothesis Hextra : 0 <= extra < 2 ^ 64.
Hypothesis Hflags : 0 <= flags < 2 ^ 16.
Hypothesis Hu1 : length unused = 8%nat.
Hypothesis Hu2 : length unused2 = 32%nat.
Hypothesis Hpad : length padding = 48%nat.

(** [s'] has the header in front of the block and nothing below it changed. *)
Definition header_written (s' : pmst) (get_size get_extra get_flags : mem -> memory_block -> Z) : Prop :=
  (forall x, x < get_real_data heap (vis s) m -> vis s' x = vis s x) /\
  (get_real_data heap (vis s') m = get_real_data heap (vis s) m ->
   get_size (vis s') m = size /\ get_extra (vis s') m = extra /\ get_flags (vis s') m = flags).

Lemma legacy_written :
  header_written (memblock_header_legacy_write heap unused unused2 m size extra flags s)
    (memblock_header_legacy_get_size heap) (memblock_header_legacy_get_extra heap) (memblock_header_legacy_get_flags heap).
Proof using All.
  unfold memblock_header_legacy_write, header_written. rewrite vis_memcpy_from. set (rd := get_real_data heap (vis s) m).
  set (fl := u64 (Z.shiftl flags ALLOC_HDR_SIZE_SHIFT)). set (bs := unused ++ _).
  split; [intros x Hx; apply write_bytes_out; by left|]. intros E.
  unfold memblock_header_legacy_get_size, memblock_header_legacy_get_extra, memblock_header_legacy_get_flags,
    legacy_size, legacy_root_size, legacy_type_num. rewrite E. split; [|split].
  - unfold bs. replace (rd + 8) with (rd + Z.of_nat (length unused)) by lia. rewrite load64_field. apply u64_small. lia.
  - assert (bs = (unused ++ le64 size ++ unused2 ++ le64 fl) ++ le64 extra ++ []) as ->
      by (unfold bs; rewrite <- ?app_assoc, app_nil_r; done).
    replace (rd + 56) with (rd + Z.of_nat (length (unused ++ le64 size ++ unused2 ++ le64 fl)))
      by (rewrite !length_app, !length_le64; lia).
    rewrite load64_field. by apply u64_small.
  - assert (bs = (unused ++ le64 size ++ unused2) ++ le64 fl ++ le64 extra) as -> by (unfold bs; by rewrite <- ?app_assoc).
    replace (rd + 48) with (rd + Z.of_nat (length (unused ++ le64 size ++ unused2))) by (rewrite !length_app, !length_le64; lia).
    rewrite load64_field. destruct (pack_size 0 flags ltac:(lia) Hflags) as (P1 & P2 & P3).
    rewrite Z.lor_0_l in P1, P3. fold fl in P1, P3. by rewrite u64_small.
Qed.

Lemma compact_written :
  header_written (memblock_header_compact_write heap padding m size extra flags s)
    (memblock_header_compact_get_size heap) (memblock_header_compact_get_extra heap) (memblock_header_compact_get_flags heap).
Proof using All.
  unfold memblock_header_compact_write, header_written. rewrite vis_memcpy_from. set (rd := get_real_data heap (vis s) m).
  destruct (pack_size size flags Hsize Hflags) as (P1 & P2 & P3). set (w := Z.lor size _) in *.
  set (n := if _ && _ then _ else _).
  assert (take (Z.to_nat n) (le64 w ++ le64 extra ++ padding) = le64 w ++ le64 extra ++ take (Z.to_nat n - 16) padding) as ->.
  { assert (16 <= n) by (unfold n, CACHELINE_SIZE, ALLOC_HDR_COMPACT_SIZE; destruct (_ && _); lia).
    rewrite (take_app_ge (le64 w)), (take_app_ge (le64 extra)) by (rewrite ?length_le64; lia). rewrite !length_le64.
    do 3 f_equal. lia. }
  split; [intros x Hx; apply write_bytes_out; by left|]. intros E.
  unfold memblock_header_compact_get_size, memblock_header_compact_get_extra, memblock_header_compact_get_flags. rewrite E.
  assert (forall post, load64 (write_bytes (vis s) rd (le64 w ++ post)) rd = w) as Ew.
  { intros post. pose proof (load64_field (vis s) rd [] w post) as Hf. cbn [length] in Hf. rewrite Z.add_0_r in Hf.
    cbn [app] in Hf. rewrite Hf. by apply u64_small. }
  rewrite !Ew. split; [done|]. split; [|done].
  replace (rd + 8) with (rd + Z.of_nat (length (le64 w))) by (rewrite length_le64; lia). rewrite load64_field. by apply u64_small.
Qed.
End Header.

(** ** The way back *)

Lemma header_read_back heap m s extra flags' unused unused2 padding i flags u a n b :
  run_block heap (vis s) m i flags u a n b -> u * size_idx m < 2 ^ 48 ->
  0 <= extra < 2 ^ 64 -> 0 <= flags' < 2 ^ 16 -> length unused = 8%nat -> length unused2 = 32%nat -> length padding = 48%nat ->
  let s' := block_write_header heap unused unused2 padding m extra flags' s in
  run_block heap (vis s') m i flags u a n b /\
  (header_type m <> HEADER_NONE ->
     header_get_size heap (vis s') m = u * size_idx m /\ block_get_extra heap (vis s') m = extra /\
     block_get_flags heap (vis s') m = flags').
Proof.
  intros HB Hs He Hf L1 L2 L3. assert (0 <= u * size_idx m) by (destruct HB; nia).
  unfold block_write_header, header_get_size, block_get_extra, block_get_flags.
  rewrite (user_size _ _ _ _ _ _ _ _ _ HB) by lia.
  assert (header_type m = HEADER_LEGACY \/ header_type m = HEADER_COMPACT \/ header_type m = HEADER_NONE) as Ht.
  { rewrite (rk_header _ _ _ _ _ _ _ _ _ HB). unfold run_header_type. repeat case_match; auto. }
  destruct Ht as [->|[->| ->]]; cbn [Z.eqb HEADER_LEGACY HEADER_COMPACT HEADER_NONE].
  - destruct (legacy_written heap m s (u * size_idx m) extra flags' unused unused2 padding ltac:(lia) He Hf L1 L2 L3) as [W1 W2].
    destruct (run_block_frame _ _ _ _ _ _ _ _ _ _ HB W1) as [F1 F2]. split; [done|]. intros _. by apply W2.
  - destruct (compact_written heap m s (u * size_idx m) extra flags' unused unused2 padding ltac:(lia) He Hf L1 L2 L3) as [W1 W2].
    destruct (run_block_frame _ _ _ _ _ _ _ _ _ _ HB W1) as [F1 F2]. split; [done|]. intros _. by apply W2.
  - split; [done|]. intros []. done.
Qed.

Lemma block_eta m : set_extent (block_off m) (size_idx m) m = m.
Proof. by destruct m. Qed.

(** C35. From a pointer back to its block.  Once the header of a block of a run is
    written, memblock_from_offset applied to the offset of the block's user data
    (what the application keeps) gives the block itself, for every type of header,
    and legacy and compact headers give back the extra field and the flags.  The
    offset of the block has to fit into 16 bits, the block has to be larger than
    its header, and a block without a header has to be a single unit. *)
Theorem memblock_from_offset_roundtrip heap m s extra flags' unused unused2 padding i flags u a n b :
  run_block heap (vis s) m i flags u a n b -> u * size_idx m < 2 ^ 48 -> block_off m < 2 ^ 16 ->
  header_type_to_size (header_type m) < u * size_idx m -> (header_type m = HEADER_NONE -> size_idx m = 1) ->
  0 <= extra < 2 ^ 64 -> 0 <= flags' < 2 ^ 16 -> length unused = 8%nat -> length unused2 = 32%nat -> length padding = 48%nat ->
  let s' := block_write_header heap unused unused2 padding m extra flags' s in
  memblock_from_offset heap (vis s') (HEAP_PTR_TO_OFF heap (block_get_user_data heap (vis s') m)) = m /\
  (header_type m <> HEADER_NONE ->
     block_get_extra heap (vis s') m = extra /\ block_get_flags heap (vis s') m = flags').
Proof.
  intros HB Hs Ho Hh Hnone He Hf L1 L2 L3 s'.
  destruct (header_read_back heap m s extra flags' unused unused2 padding i flags u a n b HB Hs He Hf L1 L2 L3) as [HB' HR].
  fold s' in HB', HR. split; [|intros Hn; by apply HR].
  pose proof HB' as [R B V F N U A Z0 C0 C1 O0 S0 E0 [M M'] H Hh' P L].
  rewrite (from_offset_run heap (vis s') m i flags u a n b HB' Hh). unfold u16. rewrite (Z.mod_small (block_off m)) by lia.
  assert (header_get_size heap (vis s') (set_extent (block_off m) 0 m) = header_get_size heap (vis s') m) as ->.
  { unfold header_get_size. done. }
  assert (header_get_size heap (vis s') m = u * size_idx m) as ->.
  { destruct (Z.eq_dec (header_type m) HEADER_NONE) as [E|E]; [|by apply HR]. rewrite (Hnone E), Z.mul_1_r.
    unfold header_get_size. rewrite E. cbn [Z.eqb HEADER_LEGACY HEADER_COMPACT HEADER_NONE].
    unfold memblock_header_none_get_size, block_size, run_block_size. rewrite M. apply (ra_unit _ _ _ _ _ _ _ _ R). }
  rewrite calc_size_idx_exact; [apply block_eta|lia|]. pose proof (bf_data _ _ _ _ F) as Bd. pose proof (bf_values _ _ _ _ F).
  rewrite content_size in Bd by lia. pose proof (bf_bits _ _ _ _ F). pose proof (bf_hi _ _ _ _ F).
  assert (8 * nbits b <= u * nbits b) by (apply Z.mul_le_mono_nonneg_r; lia). destruct (a =? 0); lia.
Qed.

Lemma memblock_from_offset_roundtrip_witness :
  let m := ex_block 3 2 in
  let s' := block_write_header ex_heap (replicate 8 Byte.x00) (replicate 32 Byte.x00) (replicate 48 Byte.x00) m 7 5
              (PMst ex_mem [] false) in
  memblock_from_offset ex_heap (vis s') (HEAP_PTR_TO_OFF ex_heap (block_get_user_data ex_heap (vis s') m)) = m /\
  block_get_extra ex_heap (vis s') m = 7 /\ block_get_flags ex_heap (vis s') m = 5.
Proof.
  destruct (memblock_from_offset_roundtrip ex_heap (ex_block 3 2) (PMst ex_mem [] false) 7 5 (replicate 8 Byte.x00)
    (replicate 32 Byte.x00) (replicate 48 Byte.x00) 1 0 1024 0 1 ex_bitmap) as [H1 H2];
    [apply ex_run_block; lia|cbn; lia|cbn; lia|cbn; lia|discriminate|lia|lia|reflexivity..|].
  split; [exact H1|]. apply H2. discriminate.
Defined.

(** memblock_from_offset keeps only 16 bits of the block's offset: for a block
    at offset 65536 or more (in a run with that many units, which user-defined
    allocation classes can have) it returns a block with a smaller offset, another
    one than the pointer points to. *)
Theorem memblock_from_offset_truncates heap v m i flags u a n b :
  run_block heap v m i flags u a n b -> header_type_to_size (header_type m) < u * size_idx m -> 2 ^ 16 <= block_off m ->
  let m' := memblock_from_offset heap v (HEAP_PTR_TO_OFF heap (block_get_user_data heap v m)) in
  block_off m' = block_off m mod 2 ^ 16 /\ block_off m' < block_off m /\ get_real_data heap v m' <> get_real_data heap v m.
Proof.
  intros HB Hh Ho. cbv zeta. rewrite (from_offset_run heap v m i flags u a n b HB Hh).
  set (sz := CALC_SIZE_IDX u _). unfold u16. pose proof (Z.mod_pos_bound (block_off m) (2 ^ 16) ltac:(lia)).
  cbn [block_off set_extent]. split; [done|]. split; [lia|].
  destruct (real_data_above _ _ _ _ _ _ _ _ _ HB) as (E & _ & _). rewrite E.
  pose proof HB as [R B V F N U A Z0 C0 C1 O0 S0 E0 [M _] H' Hh' P L].
  unfold get_real_data. change (m_ops (set_extent _ _ m)) with (m_ops m). rewrite M.
  change (MEMORY_BLOCK_RUN =? MEMORY_BLOCK_HUGE) with false. cbv iota. unfold run_get_real_data.
  change (heap_get_chunk_run heap (set_extent _ _ m)) with (heap_get_chunk_run heap m).
  change (run_get_data_start heap v (set_extent _ _ m)) with (run_get_data_start heap v m).
  rewrite (ra_unit _ _ _ _ _ _ _ _ R). cbn [block_off set_extent]. rewrite u64_small by nia. nia.
Qed.

(** A run of 131072 units of 64 bytes in 33 chunks. *)
Definition ex_long_block : memory_block := MBlock 2 0 1 70000 MEMORY_BLOCK_RUN 64 HEADER_COMPACT MEMORY_BLOCK_RUN.
Definition ex_long_mem : mem :=
  write_bytes (write_bytes (fun _ => Byte.x00) (heap_get_chunk_hdr ex_heap ex_long_block)
      (hdr_bytes CHUNK_TYPE_RUN 9 33 ++ concat (map (fun j => hdr_bytes CHUNK_TYPE_RUN_DATA 0 j) (seqZ 1 32))))
    (heap_get_chunk_run ex_heap ex_long_block) (le64 64 ++ le64 0).
Definition ex_long_bitmap : run_bitmap :=
  Eval vm_compute in run_get_bitmap ex_heap ex_long_mem ex_long_block.

Lemma forall_range (P : Z -> Prop) lo hi : Forall P (seqZ lo (hi - lo)) -> forall j, lo <= j < hi -> P j.
Proof. intros H j Hj. rewrite Forall_forall in H. apply H, elem_of_seqZ. lia. Qed.

Lemma ex_long_run_block : run_block ex_heap ex_long_mem ex_long_block 33 9 64 0 33 ex_long_bitmap.
Proof.
  constructor; [| | | |lia|lia|exact I|cbn; lia|cbn; lia|cbn; unfold MAX_CHUNK; lia|cbn; lia|cbn; lia|cbn; lia|
    by split|done|done|cbn; lia|cbn; lia]; [|vm_compute; reflexivity..|constructor; vm_compute; congruence].
  constructor; [vm_compute; reflexivity..| |vm_compute; reflexivity|vm_compute; reflexivity].
  apply (forall_range _ 1 33). apply (bool_decide_unpack _). vm_compute. reflexivity.
Qed.

Lemma memblock_from_offset_truncates_witness :
  let m' := memblock_from_offset ex_heap ex_long_mem
              (HEAP_PTR_TO_OFF ex_heap (block_get_user_data ex_heap ex_long_mem ex_long_block)) in
  block_off m' = 4464 /\ get_real_data ex_heap ex_long_mem m' <> get_real_data ex_heap ex_long_mem ex_long_block.
Proof.
  destruct (memblock_from_offset_truncates ex_heap ex_long_mem ex_long_block 33 9 64 0 33 ex_long_bitmap ex_long_run_block)
    as (H1 & _ & H3); [cbn; lia|cbn; lia|]. split; [exact H1|exact H3].
Defined.
