(* ===== verification/MemblockSpec.v ===== *)
(** * What memory blocks promise *)
From stdpp Require Import base numbers list list_numbers sorting.
From Stdlib Require Import ZArith Lia Bool.
From S2P Require Import Prelude Pmem Container Seglists HeapLayout Memblock MemblockBits MemblockRun.
From S2P Require Import MemblockBitmap MemblockInit MemblockOffset MemblockState.

(** ** Dimensions *)

Lemma run_bitmap_fits size_idx flags unit_size alignment content :
  run_params_ok size_idx unit_size ->
  let '(i, b) := memblock_run_bitmap size_idx flags unit_size alignment content in
  1 <= i <= size_idx /\ values b = content /\ bitmap_fits i unit_size alignment b.
Proof.
  intros Hp. destruct (flag_isset flags CHUNK_FLAG_FLEX_BITMAP) eqn:Ef.
  - pose proof (flex_bitmap_fits size_idx flags unit_size alignment content Hp Ef) as H.
    destruct (memblock_run_bitmap _ _ _ _ _) as [i b]. destruct H as (-> & H2 & H3), Hp as [Hi _ _]. split; [lia|done].
  - by apply default_bitmap_fits.
Qed.

(** The dimensions memblock_run_bitmap computes, for both kinds of bitmaps: at
    least one unit; a bit for every unit and no value to spare; values, units and
    the unit set aside for alignment fit into the run; the data start at a
    cacheline; at most 1/32 of the run is bitmap.  No intermediate result wraps. *)
Theorem memblock_run_bitmap_bounds size_idx flags unit_size alignment content :
  run_params_ok size_idx unit_size ->
  let '(i, b) := memblock_run_bitmap size_idx flags unit_size alignment content in
  1 <= i <= size_idx /\ values b = content /\
  1 <= nbits b /\ 64 * (nvalues b - 1) < nbits b <= 64 * nvalues b /\ 8 * nvalues b <= rb_size b /\
  unit_size * (nbits b + (if alignment =? 0 then 0 else 1)) + rb_size b <= 262144 * i - 16 /\
  (16 + rb_size b) mod 64 = 0 /\ 32 * rb_size b <= 262144 * i.
Proof.
  intros Hp. pose proof (run_bitmap_fits size_idx flags unit_size alignment content Hp) as H.
  destruct (memblock_run_bitmap _ _ _ _ _) as [i b]. destruct H as (Hi & Hv & [B1 B2 B3 B4 B5 B6 B7 B8]).
  destruct Hp as [Hi8 _ _]. rewrite content_size in B5 by lia. repeat (split; [done || lia|]).
  change CHUNKSIZE with 262144 in B7. pose proof (Z.mul_div_le (262144 * i) 32 ltac:(lia)). lia.
Qed.

Lemma memblock_run_bitmap_bounds_witness :
  let '(i, b) := memblock_run_bitmap 2 0 1024 64 0 in
  1 <= i <= 2 /\ values b = 0 /\ 1 <= nbits b /\ 64 * (nvalues b - 1) < nbits b <= 64 * nvalues b /\
  8 * nvalues b <= rb_size b /\ 1024 * (nbits b + 1) + rb_size b <= 262144 * i - 16 /\
  (16 + rb_size b) mod 64 = 0 /\ 32 * rb_size b <= 262144 * i.
Proof. apply (memblock_run_bitmap_bounds 2 0 1024 64 0). constructor; lia. Defined.

(** ** Iteration *)

(** One block ends before the next one starts. *)
Definition before (f g : memory_block) : Prop := block_off f + size_idx f <= block_off g.

Lemma separated_sorted m base lo l : separated lo l -> StronglySorted before (blocks_at m base l) /\
  Forall (fun f => base + lo <= block_off f) (blocks_at m base l).
Proof.
  intros H. induction H as [lo|lo o s l Hlo Hs H [IH1 IH2]]; [by repeat constructor|]. cbn [blocks_at map]. split.
  - constructor; [done|]. eapply Forall_impl; [exact IH2|]. intros f Hf. cbn [fst snd] in *.
    unfold before. cbn. lia.
  - constructor; [cbn; lia|]. eapply Forall_impl; [exact IH2|]. cbn. intros f Hf. lia.
Qed.

Lemma sorted_concat {X} (R : relation X) (ls : list (list X)) :
  Forall (StronglySorted R) ls -> (forall i j x y l l', (i < j)%nat -> ls !! i = Some l -> ls !! j = Some l' -> x ∈ l -> y ∈ l' -> R x y) ->
  StronglySorted R (concat ls).
Proof.
  induction ls as [|l ls IH]; intros Hs Hd; [constructor|]. inversion Hs; subst. cbn [concat].
  apply StronglySorted_app. split; [|split; [done|apply IH; [done|]]].
  - intros x y Hx Hy. apply list_elem_of_In, in_concat in Hy as (l' & Hl' & Hy). apply list_elem_of_In, list_elem_of_lookup in Hl' as [j Hj].
    apply (Hd 0%nat (S j) x y l l'); try done; [lia|by apply list_elem_of_In].
  - intros i j x y l1 l2 Hij H1' H2'. apply (Hd (S i) (S j)); [lia|done|done].
Qed.

Lemma blocks_at_elem m i v f : f ∈ blocks_at m (64 * i) (value_gaps v) -> exists o s, f = set_extent (64 * i + o) s m /\
  0 <= o /\ 0 < s /\ o + s <= 64.
Proof.
  intros Hf. apply list_elem_of_In, in_map_iff in Hf as ([o s] & <- & Hin). apply list_elem_of_In, value_gaps_elem in Hin. exists o, s. cbn. intuition.
Qed.

Lemma free_blocks_lookup heap v m i l :
  map (fun i => blocks_at m (64 * i) (value_gaps (bitmap_value v (run_get_bitmap heap v m) i)))
    (seqZ 0 (nvalues (run_get_bitmap heap v m))) !! i = Some l ->
  l = blocks_at m (64 * Z.of_nat i) (value_gaps (bitmap_value v (run_get_bitmap heap v m) (Z.of_nat i))).
Proof.
  intros H. apply list_lookup_fmap_Some in H as (j & -> & Hj). apply lookup_seqZ in Hj as [-> _]. by rewrite Z.add_0_l.
Qed.

Lemma free_blocks_sorted heap v m : StronglySorted before (free_blocks heap v m).
Proof.
  unfold free_blocks. apply sorted_concat.
  - apply Forall_lookup. intros i l Hl. apply free_blocks_lookup in Hl as ->.
    eapply separated_sorted. apply gaps_separated. lia.
  - intros i j x y l l' Hij Hl Hl' Hx Hy. apply free_blocks_lookup in Hl as ->, Hl' as ->.
    apply blocks_at_elem in Hx as (o & s & -> & Ho), Hy as (o' & s' & -> & Ho'). unfold before. cbn. lia.
Qed.

(** A free block is as long as it can be in its value. *)
Definition maximal (v : mem) (b : run_bitmap) (f : memory_block) : Prop :=
  in_value f /\ ((block_off f + size_idx f) mod 64 = 0 \/ unit_used v b (block_off f + size_idx f) = true) /\
  (block_off f mod 64 = 0 \/ unit_used v b (block_off f - 1) = true).

Lemma unit_of_bit v b i o : 0 <= o < 64 -> unit_used v b (64 * i + o) = Z.testbit (bitmap_value v b i) o.
Proof.
  intros Ho. unfold unit_used. replace (64 * i + o) with (o + i * 64) by lia.
  by rewrite Z.div_add, Z.mod_add, Z.div_small, Z.mod_small, Z.add_0_l by lia.
Qed.

Lemma free_blocks_maximal heap v m f : f ∈ free_blocks heap v m ->
  maximal v (run_get_bitmap heap v m) f /\ exists o s, f = set_extent o s m.
Proof.
  unfold free_blocks. intros Hf. apply list_elem_of_In, in_concat in Hf as (l & Hl & Hf).
  apply in_map_iff in Hl as (i & <- & Hi). apply list_elem_of_In, elem_of_seqZ in Hi.
  apply in_map_iff in Hf as ([o s] & <- & Hin). apply list_elem_of_In, value_gaps_elem in Hin as (G1 & G2 & G3 & G4 & G5).
  split; [|by eexists _, _]. unfold maximal, in_value. cbn [block_off size_idx set_extent fst snd].
  assert (forall k, (64 * i + k) mod 64 = k mod 64) as Hmod.
  { intros k. replace (64 * i + k) with (k + i * 64) by lia. apply Z.mod_add. lia. }
  rewrite <- !Z.add_assoc, !Hmod. split; [rewrite (Z.mod_small o) by lia; lia|].
  split.
  - destruct G4 as [->|G4]; [by left|]. destruct (Z.eq_dec (o + s) 64) as [->|]; [by left|]. right. by rewrite unit_of_bit by lia.
  - destruct G5 as [->|G5]; [by left|]. destruct (Z.eq_dec o 0) as [->|]; [by left|]. right.
    rewrite <- Z.add_sub_assoc, unit_of_bit by lia. done.
Qed.

(** C34. run_iterate_free calls the callback on exactly the free blocks, until it
    asks to stop: the blocks of the run in increasing order, no two overlapping,
    covering exactly the units whose bit is clear, each inside one bitmap value and
    as long as it can be there.  The scan by lowest set bits is the scan bit by
    bit. *)
Theorem run_iterate_free_exact {A} heap v m (cb : memory_block -> A -> Z * A) arg :
  let b := run_get_bitmap heap v m in
  memblock_rebuild_state heap v m = Some m -> 0 <= nvalues b <= 2 ^ 26 ->
  run_iterate_free heap v m cb arg = Some (visit cb (free_blocks heap v m) arg) /\
  StronglySorted before (free_blocks heap v m) /\
  (forall f, f ∈ free_blocks heap v m -> maximal v b f /\ exists o s, f = set_extent o s m) /\
  forall x, 0 <= x < 64 * nvalues b ->
    unit_used v b x = false <-> exists f, f ∈ free_blocks heap v m /\ block_off f <= x < block_off f + size_idx f.
Proof.
  intros b Hm Hn. split; [by apply iterate_free_visits|]. split; [apply free_blocks_sorted|].
  split; [apply free_blocks_maximal|apply free_blocks_cover].
Qed.

(** A callback that collects the extents. *)
Definition collect (f : memory_block) (acc : list (Z * Z)) : Z * list (Z * Z) := (0, acc ++ [(block_off f, size_idx f)]).

Definition ex_used : mem := write_bytes ex_mem (values ex_bitmap) (le64 (64 + 7) ++ le64 (2 ^ 64 - 2) ++ le64 (2 ^ 64 - 1) ++ le64 (2 ^ 63)).

Lemma run_iterate_free_exact_witness :
  run_iterate_free ex_heap ex_used (ex_block 0 0) collect [] = Some (0, [(3, 3); (7, 57); (64, 1); (192, 63)]) /\
  StronglySorted before (free_blocks ex_heap ex_used (ex_block 0 0)).
Proof.
  destruct (run_iterate_free_exact ex_heap ex_used (ex_block 0 0) collect []) as (H1 & H2 & _);
    [vm_compute; reflexivity|vm_compute; split; congruence|].
  split; [|exact H2]. rewrite H1. vm_compute. reflexivity.
Defined.

(** run_calc_free, which counts bits and measures the longest row of ones by
    shifting, agrees with the list of free blocks: it adds their total size and
    takes their largest size. *)
Theorem run_calc_free_exact heap v m fs mx :
  0 <= fs < 2 ^ 32 -> 0 <= mx <= 64 ->
  run_calc_free heap v m fs mx =
  (u32 (fs + free_units (free_blocks heap v m)), Z.max mx (largest_block (free_blocks heap v m))).
Proof. apply calc_free_total. Qed.

Lemma run_calc_free_exact_witness :
  run_calc_free ex_heap ex_used (ex_block 0 0) 5 60 = (129, 63).
Proof. rewrite (run_calc_free_exact ex_heap ex_used (ex_block 0 0) 5 60) by lia. vm_compute. reflexivity. Defined.

(** ** Creation *)

(** The block memblock_run_init returns. *)
Definition new_run (heap : palloc_heap) (chunk zone size_idx flags : Z) : memory_block :=
  MBlock chunk zone size_idx 0 MEMORY_BLOCK_RUN (heap_addr heap) (run_header_type flags) MEMORY_BLOCK_RUN.

Lemma run_init_ok heap chunk zone size_idx flags unit_size alignment s :
  run_params_ok size_idx unit_size -> unit_size < 2 ^ 64 -> 0 <= alignment < 2 ^ 64 -> 0 <= flags < 2 ^ 16 ->
  0 <= chunk -> chunk + size_idx <= MAX_CHUNK ->
  let m := new_run heap chunk zone size_idx flags in
  hdr_size_idx (vis s) (heap_get_chunk_hdr heap m) = size_idx ->
  exists i s', memblock_run_init heap chunk zone size_idx flags unit_size alignment s = Some (m, s') /\
    run_at heap (vis s') m size_idx flags unit_size alignment i /\ 1 <= i <= size_idx /\
    let b := run_get_bitmap heap (vis s') m in bitmap_fits i unit_size alignment b /\ filled (vis s') b.
Proof.
  intros Hp Hu Ha Hf Hc Hm m Hsz.
  pose proof (run_bitmap_fits size_idx flags unit_size alignment (run_content (heap_get_chunk_run heap m)) Hp) as HB.
  pose proof (run_init_spec heap chunk zone size_idx flags unit_size alignment s Hp Hu Ha Hf Hc Hm Hsz) as HI. cbv zeta in HI.
  change (heap_get_chunk_run heap (set_runtime _ _ _ _ _)) with (heap_get_chunk_run heap m) in HI.
  destruct (memblock_run_bitmap size_idx flags unit_size alignment (run_content (heap_get_chunk_run heap m))) as [i b] eqn:Eb.
  destruct HB as (Hi & Hv & Hfit). destruct (HI Hi Hv Hfit) as (s' & H1 & H2 & H3). exists i, s'. split; [exact H1|].
  split; [exact H2|]. split; [done|]. cbv zeta.
  change (run_at heap (vis s') m size_idx flags unit_size alignment i) in H2. by rewrite (run_at_bitmap _ _ _ _ _ _ _ _ H2), Eb.
Qed.

(** memblock_run_init establishes a run: the metadata later operations read
    are in memory (the run's header, the headers of its other chunks, the size and
    alignment of its units), and when the number of units is not a multiple of 64
    exactly the bits of its units are clear and the rest of the last value is set. *)
Theorem memblock_run_init_correct heap chunk zone size_idx flags unit_size alignment s :
  run_params_ok size_idx unit_size -> unit_size < 2 ^ 64 -> 0 <= alignment < 2 ^ 64 -> 0 <= flags < 2 ^ 16 ->
  0 <= chunk -> chunk + size_idx <= MAX_CHUNK ->
  let m := new_run heap chunk zone size_idx flags in
  hdr_size_idx (vis s) (heap_get_chunk_hdr heap m) = size_idx ->
  exists i s', memblock_run_init heap chunk zone size_idx flags unit_size alignment s = Some (m, s') /\
    run_at heap (vis s') m size_idx flags unit_size alignment i /\
    let b := run_get_bitmap heap (vis s') m in
    nbits b mod 64 <> 0 -> forall x, 0 <= x < 64 * nvalues b -> unit_used (vis s') b x = negb (x <? nbits b).
Proof.
  intros Hp Hu Ha Hf Hc Hm m Hsz. destruct (run_init_ok heap chunk zone size_idx flags unit_size alignment s Hp Hu Ha Hf Hc Hm Hsz)
    as (i & s' & H1 & H2 & Hi & H3 & H4). fold m in H1, H2, H3, H4.
  exists i, s'. split; [done|]. split; [done|]. cbv zeta in *. intros Hmod x Hx. rewrite (H4 x Hx). f_equal. f_equal.
  destruct H3 as [B1 B2 B3 B4 B5 B6 B7 B8]. set (b := run_get_bitmap heap (vis s') m) in *.
  pose proof (Z.div_mod (nbits b) 64 ltac:(lia)). pose proof (Z.mod_pos_bound (nbits b) 64 ltac:(lia)). lia.
Qed.

(** When the number of units is a multiple of 64, memblock_run_init sets all
    bits of the last value: the last 64 units of the run are marked used although
    nothing was allocated from it.  A run of exactly 64 units (for example of 4080
    bytes) has no free block at all. *)
Theorem memblock_run_init_loses_units heap chunk zone size_idx flags unit_size alignment s :
  run_params_ok size_idx unit_size -> unit_size < 2 ^ 64 -> 0 <= alignment < 2 ^ 64 -> 0 <= flags < 2 ^ 16 ->
  0 <= chunk -> chunk + size_idx <= MAX_CHUNK ->
  let m := new_run heap chunk zone size_idx flags in
  hdr_size_idx (vis s) (heap_get_chunk_hdr heap m) = size_idx ->
  exists s', memblock_run_init heap chunk zone size_idx flags unit_size alignment s = Some (m, s') /\
    let b := run_get_bitmap heap (vis s') m in
    nbits b mod 64 = 0 -> forall x, nbits b - 64 <= x < nbits b -> unit_used (vis s') b x = true.
Proof.
  intros Hp Hu Ha Hf Hc Hm m Hsz. destruct (run_init_ok heap chunk zone size_idx flags unit_size alignment s Hp Hu Ha Hf Hc Hm Hsz)
    as (i & s' & H1 & H2 & Hi & H3 & H4). fold m in H1, H2, H3, H4.
  exists s'. split; [done|]. cbv zeta in *. destruct H3 as [B1 B2 B3 B4 B5 B6 B7 B8].
  set (b := run_get_bitmap heap (vis s') m) in *. intros Hmod x Hx.
  pose proof (Z.div_mod (nbits b) 64 ltac:(lia)). rewrite H4 by lia. rewrite Hmod, (proj2 (Z.ltb_ge _ _)) by lia. done.
Qed.

(** A zeroed zone whose free chunk 2 has one chunk. *)
Definition ex_fresh : pmst :=
  PMst (write_bytes (fun _ => Byte.x00) (heap_get_chunk_hdr ex_heap (ex_block 0 0)) (hdr_bytes CHUNK_TYPE_FREE 0 1)) [] false.

Lemma memblock_run_init_correct_witness :
  let m := new_run ex_heap 2 0 1 CHUNK_FLAG_FLEX_BITMAP in
  exists i s', memblock_run_init ex_heap 2 0 1 CHUNK_FLAG_FLEX_BITMAP 1024 0 ex_fresh = Some (m, s') /\
    run_at ex_heap (vis s') m 1 CHUNK_FLAG_FLEX_BITMAP 1024 0 i.
Proof.
  destruct (memblock_run_init_correct ex_heap 2 0 1 CHUNK_FLAG_FLEX_BITMAP 1024 0 ex_fresh ex_run_params)
    as (i & s' & H1 & H2 & _); try (unfold CHUNK_FLAG_FLEX_BITMAP, MAX_CHUNK; lia); [vm_compute; reflexivity|].
  by exists i, s'.
Defined.

Lemma memblock_run_init_loses_units_witness :
  let m := new_run ex_heap 2 0 1 CHUNK_FLAG_FLEX_BITMAP in
  exists s', memblock_run_init ex_heap 2 0 1 CHUNK_FLAG_FLEX_BITMAP 4080 0 ex_fresh = Some (m, s') /\
    nbits (run_get_bitmap ex_heap (vis s') m) = 64 /\ run_calc_free ex_heap (vis s') m 0 0 = (0, 0).
Proof.
  destruct (memblock_run_init_loses_units ex_heap 2 0 1 CHUNK_FLAG_FLEX_BITMAP 4080 0 ex_fresh) as (s' & H1 & _);
    [constructor; lia|unfold CHUNK_FLAG_FLEX_BITMAP, MAX_CHUNK; lia..|vm_compute; reflexivity|].
  exists s'. split; [exact H1|]. revert H1.
  destruct (memblock_run_init ex_heap 2 0 1 CHUNK_FLAG_FLEX_BITMAP 4080 0 ex_fresh) as [[m1 s1]|] eqn:E; [|done]. intros [= -> ->].
  assert (memblock_run_init ex_heap 2 0 1 CHUNK_FLAG_FLEX_BITMAP 4080 0 ex_fresh ≫= (fun r =>
    Some (nbits (run_get_bitmap ex_heap (vis r.2) r.1), run_calc_free ex_heap (vis r.2) r.1 0 0)) = Some (64, (0, 0))) as H
    by (vm_compute; reflexivity).
  rewrite E in H. by injection H as -> ->.
Defined.
