(* ===== verification/AllocClass.v ===== *)
(** * Allocation classes (libpmemobj/alloc_class.h, alloc_class.c)

    A collection has 255 slots of pointers to classes, a map from sizes to class
    ids filled on demand, and a critnib from the geometry of runs to classes.
    Class objects live in [ac_store], the memory Malloc handed out; slots hold
    their addresses, 0 or ACLASS_RESERVED.  What Malloc returns is an argument.
    [None] is a dereference of an invalid pointer, an access outside of an array,
    a division by zero or out of fuel.  Assertions are not executed. *)
From stdpp Require Import base numbers list list_numbers gmap.
From Stdlib Require Import ZArith Lia Bool.
From S2P Require Import Prelude Pmem Container Critnib HeapLayout Memblock.

Definition MAX_ALLOCATION_CLASSES : Z := 255.
Definition DEFAULT_ALLOC_CLASS_ID : Z := 0.
Definition RUN_UNIT_MAX : Z := RUN_BITS_PER_VALUE.

Inductive alloc_class_type := CLASS_UNKNOWN | CLASS_HUGE | CLASS_RUN.

#[global] Instance alloc_class_type_eq : EqDecision alloc_class_type.
Proof. solve_decision. Defined.

Record alloc_class := AClass {
  cl_id : Z;
  cl_flags : Z;
  cl_unit_size : Z;
  cl_header_type : Z;
  cl_type : alloc_class_type;
  run_size_idx : Z;    (* size index of a single run instance *)
  run_alignment : Z;   (* required alignment of objects *)
  run_nallocs : Z      (* number of allocs per run *)
}.

#[global] Instance alloc_class_eq : EqDecision alloc_class.
Proof. solve_decision. Defined.

Definition RUN_CLASS_KEY_PACK (map_idx_s flags_s size_idx_s : Z) : Z :=
  Z.lor (Z.lor (u64 (Z.shiftl map_idx_s 32)) (Z.shiftl flags_s 16)) size_idx_s.

Definition ACLASS_RESERVED : Z := 4294967295.
Definition MAX_RUN_SIZE : Z := CHUNKSIZE * 10.
Definition MAX_RUN_WASTED_BYTES : Z := 1024.
Definition MAX_ALLOC_CATEGORIES : Z := 9.
Definition FIRST_GENERATED_CLASS_SIZE : Z := 128.
Definition ALLOC_BLOCK_SIZE_GEN : Z := 64.
Definition MIN_UNIT_SIZE : Z := 128.
Definition RUN_UNIT_MAX_ALLOC : Z := 8.
Definition ALLOC_BLOCK_SIZE : Z := 16.
Definition SIZE_TO_CLASS_MAP_INDEX (s g : Z) : Z := u64 (1 + u64 (s - 1) / g).
Definition RUN_MIN_NALLOCS : Z := 200.
Definition RUN_SIZE_IDX_CAP : Z := 16.
Definition ALLOC_CLASS_DEFAULT_FLAGS : Z := CHUNK_FLAG_FLEX_BITMAP.

(** The sizes of the categories; the step of each is 0.05f. *)
Definition category_sizes : list Z := [FIRST_GENERATED_CLASS_SIZE; 1024; 2048; 4096; 8192; 16384; 32768; 131072; 393216].

Record alloc_class_collection := Collection {
  granularity : Z;
  aclasses : list Z;
  last_run_max_size : Z;
  maps_size : Z;                         (* the length of the next array *)
  class_map_by_alloc_size : Z -> Z;
  class_map_by_unit_size : critnib;
  fail_on_missing_class : bool;
  autogenerate_on_missing_class : bool;
  ac_store : gmap Z alloc_class
}.

Implicit Types (ac : alloc_class_collection) (c : alloc_class).

Definition set_aclasses (l : list Z) ac : alloc_class_collection :=
  Collection (granularity ac) l (last_run_max_size ac) (maps_size ac) (class_map_by_alloc_size ac)
    (class_map_by_unit_size ac) (fail_on_missing_class ac) (autogenerate_on_missing_class ac) (ac_store ac).
Definition set_unit_map (cn : critnib) ac : alloc_class_collection :=
  Collection (granularity ac) (aclasses ac) (last_run_max_size ac) (maps_size ac) (class_map_by_alloc_size ac)
    cn (fail_on_missing_class ac) (autogenerate_on_missing_class ac) (ac_store ac).
Definition set_size_map (f : Z -> Z) ac : alloc_class_collection :=
  Collection (granularity ac) (aclasses ac) (last_run_max_size ac) (maps_size ac) f
    (class_map_by_unit_size ac) (fail_on_missing_class ac) (autogenerate_on_missing_class ac) (ac_store ac).
Definition set_last_run (n : Z) ac : alloc_class_collection :=
  Collection (granularity ac) (aclasses ac) n (maps_size ac) (class_map_by_alloc_size ac)
    (class_map_by_unit_size ac) (fail_on_missing_class ac) (autogenerate_on_missing_class ac) (ac_store ac).
Definition set_store (h : gmap Z alloc_class) ac : alloc_class_collection :=
  Collection (granularity ac) (aclasses ac) (last_run_max_size ac) (maps_size ac) (class_map_by_alloc_size ac)
    (class_map_by_unit_size ac) (fail_on_missing_class ac) (autogenerate_on_missing_class ac) h.

(** [ac->aclasses[i]]. *)
Definition slot_at ac (i : Z) : option Z := if i <? 0 then None else aclasses ac !! Z.to_nat i.
Definition slot_set (i p : Z) ac : option alloc_class_collection :=
  _ ← slot_at ac i; Some (set_aclasses (<[Z.to_nat i := p]> (aclasses ac)) ac).

(** [ac->class_map_by_alloc_size[i]]. *)
Definition size_map_at ac (i : Z) : option Z :=
  if (0 <=? i) && (i <? maps_size ac) then Some (class_map_by_alloc_size ac i) else None.
Definition size_map_set (i v : Z) ac : option alloc_class_collection :=
  _ ← size_map_at ac i;
  Some (set_size_map (fun j => if j =? i then v else class_map_by_alloc_size ac j) ac).

(** util_bool_compare_and_swap64(&ac->aclasses[id], old, new). *)
Definition slot_cas (i old new : Z) ac : option (bool * alloc_class_collection) :=
  p ← slot_at ac i;
  if p =? old then ac ← slot_set i new ac; Some (true, ac) else Some (false, ac).

(** ** Slots *)

(** The loop; [n] is the current slot and [fuel] the slots left. *)
Fixpoint find_free_loop (fuel : nat) (n : Z) ac : option (option Z * alloc_class_collection) :=
  match fuel with
  | O => Some (None, ac)
  | S fuel =>
      '(swapped, ac) ← slot_cas n 0 ACLASS_RESERVED ac;
      if (swapped : bool) then Some (Some n, ac) else find_free_loop fuel (n + 1) ac
  end.

(** The slot, or [None] for the result -1. *)
Definition alloc_class_find_first_free_slot ac : option (option Z * alloc_class_collection) :=
  find_free_loop (Z.to_nat MAX_ALLOCATION_CLASSES) 0 ac.

Definition alloc_class_reserve ac (id : Z) : option (Z * alloc_class_collection) :=
  '(swapped, ac) ← slot_cas id 0 ACLASS_RESERVED ac;
  Some (if (swapped : bool) then 0 else -1, ac).

Definition alloc_class_reservation_clear ac (id : Z) : option alloc_class_collection :=
  '(_, ac) ← slot_cas id ACLASS_RESERVED 0 ac; Some ac.

(** ** Creation and deletion *)

Definition class_flags (htype alignment : Z) : Z :=
  Z.lor (u16 (Z.lor (header_type_to_flag htype) (if alignment =? 0 then 0 else CHUNK_FLAG_ALIGNED))) ALLOC_CLASS_DEFAULT_FLAGS.

Definition run_class_key ac (unit_size flags size_idx : Z) : Z :=
  RUN_CLASS_KEY_PACK (u32 (SIZE_TO_CLASS_MAP_INDEX unit_size (granularity ac))) (u16 flags) (u16 size_idx).

(** error_class_alloc *)
Definition class_alloc_failed (id : Z) ac : option (Z * alloc_class_collection) :=
  ac ← (if 0 <=? id then alloc_class_reservation_clear ac id else Some ac); Some (0, ac).

(** What Malloc returns for the class and for the critnib's leaf and node. *)
Record mallocs := Mallocs { ma_class : Z; ma_leaf : Z; ma_node : Z }.

(** [run0]: the run fields of a class that is not a run, which are not set. *)
Definition alloc_class_new (fuel : nat) (ma : mallocs) (run0 : Z * Z * Z) (id : Z) ac (type : alloc_class_type)
    (htype unit_size alignment size_idx : Z) : option (Z * alloc_class_collection) :=
  let p := ma_class ma in
  if p =? 0 then class_alloc_failed id ac else
  let '(size0, align0, nallocs0) := run0 in
  let c := AClass 0 (class_flags htype alignment) unit_size htype type size0 align0 nallocs0 in
  let ac := set_store (<[p := c]> (ac_store ac)) ac in
  match type with
  | CLASS_RUN =>
      let '(size_idx, b) := memblock_run_bitmap size_idx (cl_flags c) unit_size alignment 0 in
      let c := AClass 0 (cl_flags c) unit_size htype type size_idx alignment (nbits b) in
      let ac := set_store (<[p := c]> (ac_store ac)) ac in
      '(slot, ac) ← (if id <? 0 then alloc_class_find_first_free_slot ac else Some (Some (u8 id), ac));
      match slot with
      | None => class_alloc_failed id ac
      | Some id =>
          '(ret, cn) ← critnib_insert fuel (ma_leaf ma) (ma_node ma) (class_map_by_unit_size ac)
                         (run_class_key ac unit_size (cl_flags c) size_idx) p;
          let ac := set_unit_map cn ac in
          if negb (ret =? 0) then class_alloc_failed id (set_store (delete p (ac_store ac)) ac) else
          let c := AClass (u8 id) (cl_flags c) unit_size htype type size_idx alignment (nbits b) in
          ac ← slot_set (u8 id) p (set_store (<[p := c]> (ac_store ac)) ac);
          Some (p, ac)
      end
  | _ =>
      let id := if decide (type = CLASS_HUGE) then DEFAULT_ALLOC_CLASS_ID else id in
      let c := AClass (u8 id) (cl_flags c) unit_size htype type size0 align0 nallocs0 in
      ac ← slot_set (u8 id) p (set_store (<[p := c]> (ac_store ac)) ac);
      Some (p, ac)
  end.

Definition alloc_class_delete ac (p : Z) : option alloc_class_collection :=
  c ← ac_store ac !! p;
  ac ← slot_set (cl_id c) 0 ac;
  Some (set_store (delete p (ac_store ac)) ac).

(** ** Finding a class *)

(** [c == NULL], or the class the pointer leads to. *)
Definition class_at ac (p : Z) : option (option alloc_class) :=
  if p =? 0 then Some None else c ← ac_store ac !! p; Some (Some c).

(** The first loop, from the last slot down. *)
Fixpoint find_multiple (ac : alloc_class_collection) (n required : Z) (slots : list Z) : option Z :=
  match slots with
  | [] => Some 0
  | p :: slots =>
      oc ← class_at ac p;
      match oc with
      | Some c =>
          if (if decide (cl_type c = CLASS_HUGE) then true else run_size_idx c <? required)
          then find_multiple ac n required slots
          else if cl_unit_size c =? 0 then None
          else if (n mod cl_unit_size c =? 0) && (n / cl_unit_size c <=? RUN_UNIT_MAX_ALLOC) then Some p
          else find_multiple ac n required slots
      | None => find_multiple ac n required slots
      end
  end.

(** The do-while loop; [grow]: [runsize_bytes] is not 0. *)
Fixpoint find_unit_size (fuel : nat) (grow : bool) (n required : Z) : option Z :=
  match fuel with
  | O => None
  | S fuel =>
      let n := if grow then u64 (n + ALLOC_BLOCK_SIZE_GEN) else n in
      if n =? 0 then None else
      let '(size_idx, b) := memblock_run_bitmap required ALLOC_CLASS_DEFAULT_FLAGS n 0 0 in
      let runsize_bytes := u64 (RUN_CONTENT_SIZE_BYTES size_idx - rb_size b) in
      if MAX_RUN_WASTED_BYTES <? runsize_bytes mod n
      then find_unit_size fuel (negb (runsize_bytes =? 0)) n required else Some n
  end.

(** The second loop, from slot 1 up. *)
Fixpoint find_duplicate (ac : alloc_class_collection) (n : Z) (slots : list Z) : option Z :=
  match slots with
  | [] => Some 0
  | p :: slots =>
      oc ← class_at ac p;
      match oc with
      | Some c =>
          if decide (cl_type c = CLASS_HUGE) then find_duplicate ac n slots
          else if cl_unit_size c =? 0 then None
          else if (n / cl_unit_size c <=? RUN_UNIT_MAX_ALLOC) && (n mod cl_unit_size c =? 0) then Some p
          else if cl_unit_size c =? n then Some p
          else find_duplicate ac n slots
      | None => find_duplicate ac n slots
      end
  end.

Definition required_size_idx (n : Z) : Z :=
  let required_size_bytes := u64 (n * RUN_MIN_NALLOCS) in
  if RUN_DEFAULT_SIZE <? required_size_bytes then
    let i := u32 (1 + CALC_SIZE_IDX CHUNKSIZE (required_size_bytes - RUN_DEFAULT_SIZE)) in
    if RUN_SIZE_IDX_CAP <? i then RUN_SIZE_IDX_CAP else i
  else 1.

Definition alloc_class_find_or_create (fuel : nat) (ma : mallocs) ac (n : Z) : option (Z * alloc_class_collection) :=
  let required := required_size_idx n in
  p ← find_multiple ac n required (rev (aclasses ac));
  if negb (p =? 0) then Some (p, ac) else
  n ← find_unit_size fuel false n required;
  p ← find_duplicate ac n (drop 1 (aclasses ac));
  if negb (p =? 0) then Some (p, ac) else
  alloc_class_new fuel ma (0, 0, 0) (-1) ac CLASS_RUN HEADER_COMPACT n 0 required.

(** [size_t] arithmetic of one iteration of alloc_class_find_min_frag. *)
Definition frag_real_size c (n : Z) : Z := u64 (n + header_type_to_size (cl_header_type c)).
Definition frag_units c (n : Z) : Z := CALC_SIZE_IDX (cl_unit_size c) (frag_real_size c n).

(** [inl]: the class fits exactly; [None]: a division by zero. *)
Definition frag_waste c (n : Z) : option (unit + Z) :=
  let real_size := frag_real_size c n in
  let units := frag_units c n in
  if u64 (cl_unit_size c * units) =? real_size then Some (inl tt) else
  let waste := u64 (u64 (cl_unit_size c * units) - real_size) in
  if decide (cl_type c = CLASS_RUN) then
    if (units =? 0) || (run_nallocs c =? 0) then None else
    let wasted_bytes := u64 ((run_nallocs c mod units) * cl_unit_size c) in
    Some (inr (u64 (waste + wasted_bytes / run_nallocs c)))
  else Some (inr waste).

Definition frag_skips c (n : Z) : bool :=
  (cl_header_type c =? HEADER_NONE) ||
  (if decide (cl_type c = CLASS_RUN) then RUN_UNIT_MAX_ALLOC <? frag_units c n else false).

(** The loop from the last slot down. *)
Fixpoint find_min_frag_loop (ac : alloc_class_collection) (n : Z) (slots : list Z) (best_c lowest_waste : Z) : option Z :=
  match slots with
  | [] => Some best_c
  | p :: slots =>
      oc ← class_at ac p;
      match oc with
      | None => find_min_frag_loop ac n slots best_c lowest_waste
      | Some c =>
          if frag_skips c n then find_min_frag_loop ac n slots best_c lowest_waste else
          w ← frag_waste c n;
          match w with
          | inl _ => Some p
          | inr waste =>
              if (best_c =? 0) || (waste <? lowest_waste)
              then find_min_frag_loop ac n slots p waste
              else find_min_frag_loop ac n slots best_c lowest_waste
          end
      end
  end.

Definition alloc_class_find_min_frag ac (n : Z) : option Z :=
  find_min_frag_loop ac n (rev (aclasses ac)) 0 UINT64_MAX.

(** ** The collection *)

(** The remaining class objects. *)
Fixpoint delete_classes (ac : alloc_class_collection) (slots : list Z) : option alloc_class_collection :=
  match slots with
  | [] => Some ac
  | p :: slots => if p =? 0 then delete_classes ac slots else ac ← alloc_class_delete ac p; delete_classes ac slots
  end.
Definition alloc_class_collection_delete ac : option (gmap Z alloc_class) :=
  ac ← delete_classes ac (aclasses ac); Some (ac_store ac).

(** A positive binary32 number as a multiple of 2^-28: rounding to the nearest of
    24 significant bits, ties to even. *)
Definition round_binary32 (x : Z) : Z :=
  let k := Z.log2 x - 23 in
  if k <=? 0 then x else
  let q := x / 2 ^ k in
  let r := x mod 2 ^ k in
  2 ^ k * (if (2 ^ (k - 1) <? r) || ((r =? 2 ^ (k - 1)) && Z.odd q) then q + 1 else q).

(** 0.05f and FLT_EPSILON. *)
Definition step_005f : Z := 13421773.
Definition FLT_EPSILON : Z := 2 ^ 5.

(** [stepi] of the generation loop; [n] is less than 2^24, so the conversions to
    float are exact, and so is the difference. *)
Definition category_step (n : Z) : Z :=
  let stepf := round_binary32 (n * step_005f) in
  let stepi := stepf / 2 ^ 28 in
  if stepf - stepi * 2 ^ 28 <? FLT_EPSILON then stepi else stepi + 1.

(** The do-while loop of one category.  [ms] gives what Malloc returns in the
    [k]-th call of alloc_class_find_or_create; NULL stops the loop ([inl]). *)
Fixpoint generate_category (fuel cfuel : nat) (ms : nat -> mallocs) (k : nat) ac (n size : Z)
    : option (alloc_class_collection + nat * alloc_class_collection) :=
  match fuel with
  | O => None
  | S fuel =>
      '(p, ac) ← alloc_class_find_or_create cfuel (ms k) ac n;
      if p =? 0 then Some (inl ac) else
      let stepi := category_step n in
      let n := n + Z.land (stepi + (ALLOC_BLOCK_SIZE_GEN - 1)) (Z.lnot (ALLOC_BLOCK_SIZE_GEN - 1)) in
      if n <=? size then generate_category fuel cfuel ms (S k) ac n size else Some (inr (S k, ac))
  end.

Fixpoint generate_categories (fuel cfuel : nat) (ms : nat -> mallocs) (k : nat) ac (prev : Z) (sizes : list Z)
    : option (alloc_class_collection + alloc_class_collection) :=
  match sizes with
  | [] => Some (inr ac)
  | size :: sizes =>
      r ← generate_category fuel cfuel ms k ac (prev + ALLOC_BLOCK_SIZE_GEN) size;
      match r with
      | inl ac => Some (inl ac)
      | inr (k, ac) => generate_categories fuel cfuel ms k ac size sizes
      end
  end.

(** The largest slot that is in use, 0 when there is none above it. *)
Fixpoint largest_slot (slots : list Z) (i : Z) : Z :=
  match slots with
  | [] => 0
  | p :: slots => if (0 <? i) && (p =? 0) then largest_slot slots (i - 1) else i
  end.

Fixpoint fill_predefined (n : nat) (i id : Z) ac : option alloc_class_collection :=
  match n with
  | O => Some ac
  | S n => ac ← size_map_set i id ac; fill_predefined n (i + 1) id ac
  end.

(** [inl]: NULL, with the class objects that are still allocated.  [acok], [mapok],
    [cnok]: the allocations of the collection, the map and the critnib succeed. *)
Definition alloc_class_collection_new (fuel cfuel : nat) (acok mapok cnok : bool) (ms : nat -> mallocs) (run0 : Z * Z * Z)
    : option (gmap Z alloc_class + alloc_class_collection) :=
  if negb acok then Some (inl ∅) else
  let size := MAX_RUN_SIZE / ALLOC_BLOCK_SIZE + 1 in
  let ac := Collection ALLOC_BLOCK_SIZE (replicate (Z.to_nat MAX_ALLOCATION_CLASSES) 0) MAX_RUN_SIZE size (fun _ => 255)
              critnib_new false true ∅ in
  let error ac := h ← alloc_class_collection_delete ac; Some (inl h) in
  if negb (mapok && cnok) then error ac else
  '(p, ac) ← alloc_class_new cfuel (ms 0%nat) run0 (-1) ac CLASS_HUGE HEADER_COMPACT CHUNKSIZE 0 1;
  if p =? 0 then error ac else
  '(p, ac) ← alloc_class_new cfuel (ms 1%nat) (0, 0, 0) (-1) ac CLASS_RUN HEADER_COMPACT MIN_UNIT_SIZE 0 1;
  if p =? 0 then error ac else
  predefined_class ← ac_store ac !! p;
  ac ← fill_predefined (Z.to_nat (FIRST_GENERATED_CLASS_SIZE / granularity ac)) 0 (cl_id predefined_class) ac;
  r ← generate_categories fuel cfuel ms 2 ac FIRST_GENERATED_CLASS_SIZE (drop 1 category_sizes);
  match r with
  | inl ac => error ac
  | inr ac =>
      p ← slot_at ac (largest_slot (rev (aclasses ac)) (MAX_ALLOCATION_CLASSES - 1));
      c ← ac_store ac !! p;
      let real_unit_max := if run_nallocs c <? RUN_UNIT_MAX_ALLOC then run_nallocs c else RUN_UNIT_MAX_ALLOC in
      let theoretical_run_max_size := u64 (cl_unit_size c * real_unit_max) in
      Some (inr (set_last_run (if theoretical_run_max_size <? MAX_RUN_SIZE then theoretical_run_max_size else MAX_RUN_SIZE) ac))
  end.

(** ** Queries *)

(** The compare-and-swap is on a byte. *)
Definition alloc_class_assign_by_size ac (size : Z) : option (Z * alloc_class_collection) :=
  let class_map_index := SIZE_TO_CLASS_MAP_INDEX size (granularity ac) in
  p ← alloc_class_find_min_frag ac (u64 (class_map_index * granularity ac));
  c ← ac_store ac !! p;
  v ← size_map_at ac class_map_index;
  ac ← (if v =? MAX_ALLOCATION_CLASSES then size_map_set class_map_index (cl_id c) ac else Some ac);
  Some (p, ac).

Definition alloc_class_by_alloc_size ac (size : Z) : option (Z * alloc_class_collection) :=
  if size <? last_run_max_size ac then
    class_id ← size_map_at ac (SIZE_TO_CLASS_MAP_INDEX size (granularity ac));
    if class_id =? MAX_ALLOCATION_CLASSES then
      if fail_on_missing_class ac then Some (0, ac)
      else if autogenerate_on_missing_class ac then alloc_class_assign_by_size ac size
      else p ← slot_at ac DEFAULT_ALLOC_CLASS_ID; Some (p, ac)
    else p ← slot_at ac class_id; Some (p, ac)
  else p ← slot_at ac DEFAULT_ALLOC_CLASS_ID; Some (p, ac).

Definition alloc_class_by_run (fuel : nat) ac (unit_size flags size_idx : Z) : option Z :=
  critnib_get fuel (class_map_by_unit_size ac) (run_class_key ac unit_size flags size_idx).

Definition alloc_class_by_id ac (id : Z) : option Z := slot_at ac id.

Definition alloc_class_calc_size_idx c (size : Z) : Z :=
  let size_idx := CALC_SIZE_IDX (cl_unit_size c) (u64 (size + header_type_to_size (cl_header_type c))) in
  if decide (cl_type c = CLASS_RUN) then
    if (cl_header_type c =? HEADER_NONE) && negb (size_idx =? 1) then -1
    else if RUN_UNIT_MAX <? size_idx then -1
    else if run_nallocs c <? size_idx then -1
    else size_idx
  else size_idx.
