(* ===== verification/AllocClassFacts.v ===== *)
(** * Allocation classes: the invariant of a collection

    [ac_ok ac M]: every slot is free, reserved or points to a class that knows its
    slot, and the critnib holds the map [M] from run geometries to the run classes
    in the slots. *)
From stdpp Require Import base numbers list list_numbers gmap.
From Stdlib Require Import ZArith Lia Bool.
From S2P Require Import Prelude Pmem Container Critnib CritnibFacts CritnibPool CritnibOps CritnibInsert.
From S2P Require Import CritnibSpec HeapLayout Memblock MemblockBitmap AllocClass.

(** ** What critnib_insert leaves alone *)

Definition cn_grows (c : critnib) (ml mn : Z) (c' : critnib) : Prop :=
  remove_count c' = remove_count c /\
  (forall a, is_Some (cn_leaves c' !! a) -> is_Some (cn_leaves c !! a) \/ a = ml) /\
  (forall a, is_Some (cn_nodes c' !! a) -> is_Some (cn_nodes c !! a) \/ a = mn).

Lemma grows_refl c ml mn : cn_grows c ml mn c.
Proof. split; [done|]. split; by left. Qed.

Lemma grows_trans c1 c2 c3 ml mn : cn_grows c1 ml mn c2 -> cn_grows c2 ml mn c3 -> cn_grows c1 ml mn c3.
Proof.
  intros (E1 & L1 & N1) (E2 & L2 & N2). split; [congruence|]. split.
  - intros a Ha. destruct (L2 a Ha) as [H|H]; [by apply L1|by right].
  - intros a Ha. destruct (N2 a Ha) as [H|H]; [by apply N1|by right].
Qed.

Lemma grows_write_leaf c ml mn k l : is_Some (cn_leaves c !! k) \/ k = ml -> cn_grows c ml mn (write_leaf k l c).
Proof.
  intros Hk. split; [done|]. split; [|by left]. intros a [x Hx]. cbn in Hx.
  apply lookup_insert_Some in Hx as [[<- _]|[_ Hx]]; [done|]. left. by exists x.
Qed.

Lemma grows_write_node c ml mn k nd : is_Some (cn_nodes c !! k) \/ k = mn -> cn_grows c ml mn (write_node k nd c).
Proof.
  intros Hk. split; [done|]. split; [by left|]. intros a [x Hx]. cbn in Hx.
  apply lookup_insert_Some in Hx as [[<- _]|[_ Hx]]; [done|]. left. by exists x.
Qed.

Lemma grows_alloc_leaf c ml mn k c' : alloc_leaf ml c = Some (k, c') ->
  cn_grows c ml mn c' /\ (is_Some (cn_leaves c' !! k) \/ k = ml).
Proof.
  unfold alloc_leaf. case_match; intros E; [injection E as <- <-; by split; [apply grows_refl|right]|].
  destruct (cn_leaves c !! deleted_leaf c) as [l|] eqn:El; [|done]. injection E as <- <-.
  split; [|left; by exists l]. split; [done|]. split; by left.
Qed.

Lemma grows_alloc_node c ml mn k c' : alloc_node mn c = Some (k, c') ->
  cn_grows c ml mn c' /\ (is_Some (cn_nodes c' !! k) \/ k = mn).
Proof.
  unfold alloc_node. case_match; intros E; [injection E as <- <-; by split; [apply grows_refl|right]|].
  destruct (cn_nodes c !! deleted_node c) as [l|] eqn:El; [|done]. injection E as <- <-.
  split; [|left; by exists l]. split; [done|]. split; by left.
Qed.

Lemma grows_free_leaf c ml mn k c' : free_leaf c k = Some c' -> cn_grows c ml mn c'.
Proof.
  unfold free_leaf. case_match; intros E; [injection E as <-; apply grows_refl|].
  destruct (cn_leaves c !! k) as [l|] eqn:El; [|done]. injection E as <-.
  split; [done|]. split; [|by left]. intros a [x Hx]. cbn in Hx.
  apply lookup_insert_Some in Hx as [[<- _]|[_ Hx]]; left; [by exists l|by exists x].
Qed.

Lemma grows_store c ml mn f v c' : cn_store f v c = Some c' -> cn_grows c ml mn c'.
Proof.
  destruct f as [|n i]; cbn [cn_store]; intros E; [injection E as <-; split; [done|]; split; by left|].
  destruct (cn_nodes c !! n) as [nd|] eqn:En; [|done]. injection E as <-. apply grows_write_node. left. by exists nd.
Qed.

Lemma insert_grows fuel ml mn c key value r c' :
  critnib_insert fuel ml mn c key value = Some (r, c') -> cn_grows c ml mn c'.
Proof.
  unfold critnib_insert. destruct (alloc_leaf ml c) as [[k c1]|] eqn:E1; [|done]. cbn [mbind option_bind].
  destruct (grows_alloc_leaf c ml mn k c1 E1) as [G1 K1]. destruct (k =? 0); [intros [= <- <-]; done|].
  set (c2 := write_leaf k _ c1). assert (cn_grows c ml mn c2) as G2 by (eapply grows_trans; [exact G1|by apply grows_write_leaf]).
  destruct (cn_root c2 =? 0); [intros [= <- <-]; exact G2|].
  destruct (insert_walk _ _ _ _ _ _) as [[[par prev] n]|]; [|done]. cbn [mbind option_bind]. destruct (n =? 0).
  - destruct (cn_nodes c2 !! prev) as [nd|]; [|done]. cbn [mbind option_bind]. intros E.
    destruct (cn_store (ChildRef prev _) (Z.lor k 1) c2) as [c3|] eqn:E3; [|done]. injection E as <- <-.
    eapply grows_trans; [exact G2|by eapply grows_store].
  - destruct (if is_leaf n then _ else _) as [p|]; [|done]. cbn [mbind option_bind]. destruct (Z.lxor p key =? 0).
    + destruct (free_leaf c2 _) as [c3|] eqn:E3; [|done]. intros [= <- <-]. eapply grows_trans; [exact G2|by eapply grows_free_leaf].
    + destruct (alloc_node mn c2) as [[m c3]|] eqn:E3; [|done]. cbn [mbind option_bind].
      destruct (grows_alloc_node c2 ml mn m c3 E3) as [G3 K3]. destruct (m =? 0).
      * destruct (free_leaf c3 _) as [c4|] eqn:E4; [|done]. intros [= <- <-].
        eapply grows_trans; [exact G2|]. eapply grows_trans; [exact G3|by eapply grows_free_leaf].
      * intros E. destruct (cn_store par m _) as [c4|] eqn:E4; [|done]. injection E as <- <-.
        eapply grows_trans; [exact G2|]. eapply grows_trans; [exact G3|]. eapply grows_trans; [by apply grows_write_node|by eapply grows_store].
Qed.

(** ** Keys *)

Lemma key_pack a b c : 0 <= a < 2 ^ 32 -> 0 <= b < 2 ^ 16 -> 0 <= c < 2 ^ 16 ->
  RUN_CLASS_KEY_PACK a b c = a * 2 ^ 32 + b * 2 ^ 16 + c.
Proof.
  intros Ha Hb Hc. unfold RUN_CLASS_KEY_PACK. rewrite u64_small by (rewrite Z.shiftl_mul_pow2; lia).
  rewrite <- Z.lor_assoc, (Z.lor_comm _ c), lor_shifted by lia.
  rewrite Z.lor_comm, lor_shifted by lia. lia.
Qed.

Lemma u16_range x : 0 <= u16 x < 2 ^ 16.
Proof. apply Z.mod_pos_bound. lia. Qed.

Lemma run_class_key_range ac u f i : 0 <= run_class_key ac u f i < 2 ^ 64.
Proof.
  unfold run_class_key. pose proof (u16_range f). pose proof (u16_range i). pose proof (u32_range (SIZE_TO_CLASS_MAP_INDEX u (granularity ac))).
  rewrite key_pack by done. lia.
Qed.

Definition class_key ac (c : alloc_class) : Z := run_class_key ac (cl_unit_size c) (cl_flags c) (run_size_idx c).

(** ** Slots *)

Lemma slot_at_nat ac (i : nat) : slot_at ac (Z.of_nat i) = aclasses ac !! i.
Proof. unfold slot_at. destruct (Z.ltb_spec (Z.of_nat i) 0); [lia|]. by rewrite Nat2Z.id. Qed.

Lemma slot_set_ok ac i q p : slot_at ac i = Some q -> slot_set i p ac = Some (set_aclasses (<[Z.to_nat i := p]> (aclasses ac)) ac).
Proof. intros H. unfold slot_set. by rewrite H. Qed.

Lemma slot_cas_hit ac i old new : slot_at ac i = Some old ->
  slot_cas i old new ac = Some (true, set_aclasses (<[Z.to_nat i := new]> (aclasses ac)) ac).
Proof. intros H. unfold slot_cas. rewrite H. cbn [mbind option_bind]. by rewrite Z.eqb_refl, (slot_set_ok _ _ _ _ H). Qed.

Lemma slot_cas_miss ac i p old new : slot_at ac i = Some p -> p <> old -> slot_cas i old new ac = Some (false, ac).
Proof. intros H Hne. unfold slot_cas. rewrite H. cbn [mbind option_bind]. by destruct (Z.eqb_spec p old). Qed.

Lemma find_free_spec fuel n ac : (n + fuel)%nat = length (aclasses ac) ->
  exists r, find_free_loop fuel (Z.of_nat n) ac = Some r /\
  match r with
  | (None, ac') => ac' = ac /\ forall j, (n <= j < length (aclasses ac))%nat -> aclasses ac !! j <> Some 0
  | (Some i, ac') => exists j : nat, i = Z.of_nat j /\ aclasses ac !! j = Some 0 /\
      (forall j', (n <= j' < j)%nat -> aclasses ac !! j' <> Some 0) /\
      ac' = set_aclasses (<[j := ACLASS_RESERVED]> (aclasses ac)) ac
  end.
Proof.
  revert n. induction fuel as [|fuel IH]; intros n Hn; cbn [find_free_loop].
  - eexists. split; [done|]. split; [done|lia].
  - destruct (lookup_lt_is_Some_2 (aclasses ac) n ltac:(lia)) as [p Hp].
    assert (slot_at ac (Z.of_nat n) = Some p) as Hs by (by rewrite slot_at_nat).
    destruct (Z.eq_dec p 0) as [->|Hne].
    + rewrite (slot_cas_hit _ _ _ _ Hs). cbn [mbind option_bind]. eexists. split; [done|]. exists n. rewrite Nat2Z.id.
      split; [done|]. split; [done|]. split; [lia|done].
    + rewrite (slot_cas_miss _ _ _ _ _ Hs Hne). cbn [mbind option_bind].
      replace (Z.of_nat n + 1) with (Z.of_nat (S n)) by lia.
      destruct (IH (S n) ltac:(lia)) as ([[i|] ac'] & -> & Hr); eexists; (split; [done|]).
      * destruct Hr as (j & Hi & Hj & Hb & Ha). exists j. split; [done|]. split; [done|]. split; [|done].
        intros j' Hj'. destruct (decide (j' = n)) as [->|]; [congruence|]. apply Hb. lia.
      * destruct Hr as [-> Hr]. split; [done|]. intros j Hj. destruct (decide (j = n)) as [->|]; [congruence|]. apply Hr. lia.
Qed.

(** ** The invariant *)

Record ac_ok ac (M : gmap Z Z) : Prop := AcOk {
  ok_len : length (aclasses ac) = 255%nat;
  ok_gran : granularity ac = ALLOC_BLOCK_SIZE;
  ok_slots : forall i p, aclasses ac !! i = Some p ->
    p = 0 \/ p = ACLASS_RESERVED \/ exists c, ac_store ac !! p = Some c /\ cl_id c = Z.of_nat i;
  ok_null : ac_store ac !! 0 = None;
  ok_reserved : ac_store ac !! ACLASS_RESERVED = None;
  ok_critnib : cn_ok (class_map_by_unit_size ac) M;
  ok_count : remove_count (class_map_by_unit_size ac) = 0;
  ok_map : forall k p, M !! k = Some p <-> exists i c, aclasses ac !! i = Some p /\ ac_store ac !! p = Some c /\
    cl_type c = CLASS_RUN /\ class_key ac c = k
}.

(** A change of a slot that holds no class to another such value. *)
Lemma ac_ok_slot ac M i p q : ac_ok ac M -> aclasses ac !! i = Some p -> p = 0 \/ p = ACLASS_RESERVED ->
  q = 0 \/ q = ACLASS_RESERVED -> ac_ok (set_aclasses (<[i := q]> (aclasses ac)) ac) M.
Proof.
  intros [L G S N R C D K] Hi Hp Hq. pose proof (lookup_lt_Some _ _ _ Hi) as Hlt. constructor; cbn; try done.
  - by rewrite length_insert.
  - intros j x Hj. apply list_lookup_insert_Some in Hj as [(<- & <- & _)|[_ Hj]]; [|by apply S]. destruct Hq; auto.
  - intros k x. rewrite K. split; intros (j & c & Hj & Hc & Ht & Hk); exists j, c; (split; [|done]).
    + apply list_lookup_insert_Some. right. split; [|done]. intros <-. rewrite Hi in Hj. injection Hj as <-.
      destruct Hp; subst; congruence.
    + apply list_lookup_insert_Some in Hj as [(<- & <- & _)|[_ Hj]]; [|done]. destruct Hq; subst; congruence.
Qed.

(** A class object that no slot points to may be written or freed. *)
Lemma ac_ok_store ac M p h : ac_ok ac M -> (forall i, aclasses ac !! i <> Some p) -> p <> 0 -> p <> ACLASS_RESERVED ->
  (forall q, q <> p -> h !! q = ac_store ac !! q) -> ac_ok (set_store h ac) M.
Proof.
  intros [L G S N R C D K] Hp H0 H1 Hh. constructor; cbn; try done.
  - intros i q Hq. destruct (S i q Hq) as [?|[?|(c & Hc & Hi)]]; auto. right. right. exists c. split; [|done].
    rewrite Hh; [done|]. intros ->. by destruct (Hp i).
  - rewrite Hh; done.
  - rewrite Hh; done.
  - intros k q. rewrite K. split; intros (i & c & Hi & Hc & Ht & Hk); exists i, c; (split; [done|]; split; [|done]).
    + rewrite Hh; [done|]. intros ->. by destruct (Hp i).
    + rewrite Hh in Hc; [done|]. intros ->. by destruct (Hp i).
Qed.

Lemma ac_ok_critnib ac M cn : ac_ok ac M -> cn_ok cn M -> remove_count cn = 0 -> ac_ok (set_unit_map cn ac) M.
Proof. intros [L G S N R C D K] Hc Hr. by constructor. Qed.

Lemma ac_ok_fresh ac M p : ac_ok ac M -> ac_store ac !! p = None -> p <> 0 -> p <> ACLASS_RESERVED ->
  forall i, aclasses ac !! i <> Some p.
Proof. intros H Hp H0 H1 i Hi. destruct (ok_slots _ _ H i p Hi) as [?|[?|(c & Hc & _)]]; congruence. Qed.

(** A run class enters a slot. *)
Lemma ac_ok_register ac M i q p c cn :
  ac_ok ac M -> aclasses ac !! i = Some q -> q = 0 \/ q = ACLASS_RESERVED -> p <> 0 -> p <> ACLASS_RESERVED ->
  (forall j, aclasses ac !! j <> Some p) -> cl_id c = Z.of_nat i -> cl_type c = CLASS_RUN ->
  M !! class_key ac c = None -> cn_ok cn (<[class_key ac c := p]> M) -> remove_count cn = 0 ->
  ac_ok (set_aclasses (<[i := p]> (aclasses ac)) (set_store (<[p := c]> (ac_store ac)) (set_unit_map cn ac)))
    (<[class_key ac c := p]> M).
Proof.
  intros [L G S N R C D K] Hi Hq H0 H1 Hp Hid Ht HM Hcn Hcnt. pose proof (lookup_lt_Some _ _ _ Hi) as Hlt.
  constructor; cbn; try done.
  - by rewrite length_insert.
  - intros j x Hj. apply list_lookup_insert_Some in Hj as [(<- & <- & _)|[_ Hj]].
    + right. right. exists c. by rewrite lookup_insert_eq.
    + destruct (S j x Hj) as [?|[?|(c' & Hc' & ?)]]; auto. right. right. exists c'. split; [|done].
      rewrite lookup_insert_ne; [done|]. intros ->. by destruct (Hp j).
  - by rewrite lookup_insert_ne.
  - by rewrite lookup_insert_ne.
  - intros k x. rewrite lookup_insert_Some. split.
    + intros [[<- <-]|[Hne Hk]].
      * exists i, c. split; [by apply list_lookup_insert_eq|]. by rewrite lookup_insert_eq.
      * apply K in Hk as (j & c' & Hj & Hc' & Hr). exists j, c'. split; [|split; [|done]].
        -- rewrite list_lookup_insert_ne; [done|]. intros <-. rewrite Hi in Hj. injection Hj as <-. destruct Hq; subst; congruence.
        -- rewrite lookup_insert_ne; [done|]. intros ->. by destruct (Hp j).
    + intros (j & c' & Hj & Hc' & Ht' & Hk). apply list_lookup_insert_Some in Hj as [(<- & <- & _)|[Hne Hj]].
      * rewrite lookup_insert_eq in Hc'. injection Hc' as <-. left. done.
      * right. rewrite lookup_insert_ne in Hc' by (intros ->; by destruct (Hp j)).
        assert (M !! k = Some x) as HMk by (apply K; by exists j, c'). split; [congruence|done].
Qed.

(** ** alloc_class_new *)

(** The fields that creating classes does not change. *)
Definition same_sizes ac ac' : Prop :=
  granularity ac' = granularity ac /\ last_run_max_size ac' = last_run_max_size ac /\ maps_size ac' = maps_size ac /\
  class_map_by_alloc_size ac' = class_map_by_alloc_size ac /\ fail_on_missing_class ac' = fail_on_missing_class ac /\
  autogenerate_on_missing_class ac' = autogenerate_on_missing_class ac.

(** Malloc returns NULL or memory that is not in use. *)
Definition mallocs_ok ac (ma : mallocs) : Prop :=
  ma_class ma <> ACLASS_RESERVED /\ ac_store ac !! ma_class ma = None /\
  fresh (cn_leaves (class_map_by_unit_size ac)) (ma_leaf ma) /\ fresh (cn_nodes (class_map_by_unit_size ac)) (ma_node ma).

(** The id is negative or the caller's reservation. *)
Definition id_ok ac (id : Z) : Prop := id < 0 \/ (0 <= id < 255 /\ slot_at ac id = Some ACLASS_RESERVED).

(** The slots when creation fails: the reservation is gone. *)
Definition cleared (id : Z) (l : list Z) : list Z := if id <? 0 then l else <[Z.to_nat id := 0]> l.

Definition new_class (id htype unit_size alignment size_idx : Z) : alloc_class :=
  let flags := class_flags htype alignment in
  let '(i, b) := memblock_run_bitmap size_idx flags unit_size alignment 0 in
  AClass id flags unit_size htype CLASS_RUN i alignment (nbits b).

Lemma reservation_clear_ok ac M id : ac_ok ac M -> id_ok ac id ->
  exists ac', class_alloc_failed id ac = Some (0, ac') /\ ac_ok ac' M /\ aclasses ac' = cleared id (aclasses ac) /\
    ac_store ac' = ac_store ac /\ class_map_by_unit_size ac' = class_map_by_unit_size ac /\ same_sizes ac ac'.
Proof.
  intros H Hid. unfold class_alloc_failed, cleared. destruct Hid as [Hid|[Hid Hs]].
  - rewrite (proj2 (Z.leb_gt 0 id)), (proj2 (Z.ltb_lt id 0)) by lia. by exists ac.
  - rewrite (proj2 (Z.leb_le 0 id)), (proj2 (Z.ltb_ge id 0)) by lia. unfold alloc_class_reservation_clear.
    rewrite (slot_cas_hit _ _ _ _ Hs). cbn [mbind option_bind]. eexists. split; [done|]. split; [|done].
    apply (ac_ok_slot ac M _ ACLASS_RESERVED); auto. rewrite <- slot_at_nat, Z2Nat.id by lia. done.
Qed.

(** The last part of alloc_class_new, with a reserved slot. *)
Definition register_class (fuel : nat) (ma : mallocs) (id : Z) (c : alloc_class) ac : option (Z * alloc_class_collection) :=
  let p := ma_class ma in
  '(ret, cn) ← critnib_insert fuel (ma_leaf ma) (ma_node ma) (class_map_by_unit_size ac) (class_key ac c) p;
  let ac := set_unit_map cn ac in
  if negb (ret =? 0) then class_alloc_failed id (set_store (delete p (ac_store ac)) ac) else
  ac ← slot_set (u8 id) p (set_store (<[p := c]> (ac_store ac)) ac);
  Some (p, ac).

Lemma register_spec fuel ma (i : nat) c ac M :
  let p := ma_class ma in
  ac_ok ac M -> aclasses ac !! i = Some ACLASS_RESERVED -> (forall j, aclasses ac !! j <> Some p) -> p <> 0 -> p <> ACLASS_RESERVED ->
  fresh (cn_leaves (class_map_by_unit_size ac)) (ma_leaf ma) -> fresh (cn_nodes (class_map_by_unit_size ac)) (ma_node ma) ->
  (17 <= fuel)%nat -> cl_id c = Z.of_nat i -> cl_type c = CLASS_RUN ->
  exists r ac', register_class fuel ma (Z.of_nat i) c ac = Some (r, ac') /\ same_sizes ac ac' /\
    cn_grows (class_map_by_unit_size ac) (ma_leaf ma) (ma_node ma) (class_map_by_unit_size ac') /\
    ((r = p /\ M !! class_key ac c = None /\ ac_ok ac' (<[class_key ac c := p]> M) /\
      aclasses ac' = <[i := p]> (aclasses ac) /\ ac_store ac' = <[p := c]> (ac_store ac)) \/
     (r = 0 /\ (is_Some (M !! class_key ac c) \/ ma_leaf ma = 0 \/ ma_node ma = 0) /\ ac_ok ac' M /\
      aclasses ac' = <[i := 0]> (aclasses ac) /\ ac_store ac' = delete p (ac_store ac))).
Proof.
  intros p H Hi Hp H0 H1 Hl Hn Hf Hid Ht. unfold register_class. fold p. pose proof (lookup_lt_Some _ _ _ Hi) as Hlt.
  rewrite (ok_len _ _ H) in Hlt.
  destruct (insert_map _ M fuel (ma_leaf ma) (ma_node ma) (class_key ac c) p (ok_critnib _ _ H) Hl Hn
    (run_class_key_range _ _ _ _) Hf) as (r & cn & E & Hr). rewrite E. cbn [mbind option_bind]. pose proof (insert_grows _ _ _ _ _ _ _ _ E) as Hg.
  assert (remove_count cn = 0) as Hc by (destruct Hg as (-> & _); apply (ok_count _ _ H)).
  assert (slot_at ac (Z.of_nat i) = Some ACLASS_RESERVED) as Hs by (by rewrite slot_at_nat).
  assert (r <> 0 -> cn_ok cn M -> exists ac', class_alloc_failed (Z.of_nat i) (set_store (delete p (ac_store ac)) (set_unit_map cn ac)) = Some (0, ac') /\
    same_sizes ac ac' /\ class_map_by_unit_size ac' = cn /\ ac_ok ac' M /\ aclasses ac' = <[i := 0]> (aclasses ac) /\
    ac_store ac' = delete p (ac_store ac)) as Hfail.
  { intros _ Hcn. assert (ac_ok (set_store (delete p (ac_store ac)) (set_unit_map cn ac)) M) as Hok.
    { apply (ac_ok_store (set_unit_map cn ac) M p); [by apply ac_ok_critnib|done..|]. intros q Hq. by rewrite lookup_delete_ne. }
    unfold class_alloc_failed. rewrite (proj2 (Z.leb_le 0 _)) by lia. unfold alloc_class_reservation_clear.
    rewrite (slot_cas_hit _ _ ACLASS_RESERVED); [|exact Hs]. cbn [mbind option_bind]. rewrite Nat2Z.id. eexists. split; [done|].
    split; [done|]. split; [done|]. split; [|done]. apply (ac_ok_slot _ M i ACLASS_RESERVED 0 Hok Hi); auto. }
  destruct Hr as [(-> & Hex & Hcn)|[(-> & Hm & Hcn)|(-> & HM & Hcn)]].
  - destruct (Hfail ltac:(done) Hcn) as (ac' & E' & S & C & O & L & T). exists 0, ac'. rewrite C. auto 10.
  - destruct (Hfail ltac:(done) Hcn) as (ac' & E' & S & C & O & L & T). exists 0, ac'. rewrite C. auto 10.
  - cbn [negb Z.eqb]. assert (u8 (Z.of_nat i) = Z.of_nat i) as -> by (apply Z.mod_small; lia).
    rewrite (slot_set_ok _ _ ACLASS_RESERVED) by exact Hs. cbn [mbind option_bind]. rewrite Nat2Z.id.
    eexists _, _. split; [done|]. split; [done|]. split; [done|]. left. split; [done|]. split; [done|]. split; [|done].
    apply (ac_ok_register ac M i ACLASS_RESERVED); auto.
Qed.

(** alloc_class_new of a run: the object is written, a slot is reserved, the class
    is registered. *)
Definition new_run_class (fuel : nat) (ma : mallocs) (id : Z) (cl : Z -> alloc_class) ac : option (Z * alloc_class_collection) :=
  let ac := set_store (<[ma_class ma := cl 0]> (ac_store ac)) ac in
  '(slot, ac) ← (if id <? 0 then alloc_class_find_first_free_slot ac else Some (Some (u8 id), ac));
  match slot with
  | None => class_alloc_failed id ac
  | Some id => register_class fuel ma id (cl (u8 id)) ac
  end.

Lemma class_new_eq fuel ma run0 id ac htype unit_size alignment size_idx : ma_class ma <> 0 ->
  alloc_class_new fuel ma run0 id ac CLASS_RUN htype unit_size alignment size_idx =
  new_run_class fuel ma id (fun i => new_class i htype unit_size alignment size_idx) ac.
Proof.
  intros H0. unfold alloc_class_new, new_run_class, new_class, register_class.
  destruct (Z.eqb_spec (ma_class ma) 0); [done|]. destruct run0 as [[size0 align0] nallocs0]. cbn [cl_flags].
  destruct (memblock_run_bitmap size_idx (class_flags htype alignment) unit_size alignment 0) as [si b].
  cbn [ac_store set_store]. rewrite insert_insert_eq. reflexivity.
Qed.

(** With the slot [i] reserved after the object was written. *)
Lemma new_reserved fuel ma (i : nat) cl ac M :
  let p := ma_class ma in
  let ac2 := set_aclasses (<[i := ACLASS_RESERVED]> (aclasses ac)) (set_store (<[p := cl 0]> (ac_store ac)) ac) in
  ac_ok ac M -> mallocs_ok ac ma -> p <> 0 -> aclasses ac !! i = Some 0 \/ aclasses ac !! i = Some ACLASS_RESERVED ->
  (17 <= fuel)%nat -> cl_id (cl (Z.of_nat i)) = Z.of_nat i -> cl_type (cl (Z.of_nat i)) = CLASS_RUN ->
  let k := class_key ac (cl (Z.of_nat i)) in
  exists r ac', register_class fuel ma (Z.of_nat i) (cl (u8 (Z.of_nat i))) ac2 = Some (r, ac') /\
    same_sizes ac ac' /\ cn_grows (class_map_by_unit_size ac) (ma_leaf ma) (ma_node ma) (class_map_by_unit_size ac') /\
    ((r = p /\ M !! k = None /\ ac_ok ac' (<[k := p]> M) /\
      aclasses ac' = <[i := p]> (aclasses ac) /\ ac_store ac' = <[p := cl (Z.of_nat i)]> (ac_store ac)) \/
     (r = 0 /\ (is_Some (M !! k) \/ ma_leaf ma = 0 \/ ma_node ma = 0) /\ ac_ok ac' M /\
      aclasses ac' = <[i := 0]> (aclasses ac) /\ ac_store ac' = ac_store ac)).
Proof.
  intros p ac2 H (Hres & Hst & Hl & Hn) H0 Hi Hf Hid Ht k. pose proof (ac_ok_fresh ac M p H Hst H0 Hres) as Hp.
  assert (exists q, aclasses ac !! i = Some q /\ (q = 0 \/ q = ACLASS_RESERVED)) as (q & Hq & Hq') by (destruct Hi; eauto).
  pose proof (lookup_lt_Some _ _ _ Hq) as Hlt. pose proof (ok_len _ _ H) as Hlen.
  assert (ac_ok ac2 M) as H2.
  { apply (ac_ok_slot (set_store (<[p := cl 0]> (ac_store ac)) ac) M i q); [|exact Hq|exact Hq'|by right].
    apply (ac_ok_store ac M p); [done..|]. intros x Hx. by rewrite lookup_insert_ne. }
  assert (u8 (Z.of_nat i) = Z.of_nat i) as -> by (apply Z.mod_small; lia).
  destruct (register_spec fuel ma i (cl (Z.of_nat i)) ac2 M H2) as (r & ac' & E & S & G & R); auto.
  { by apply list_lookup_insert_eq. }
  { intros j Hj. apply list_lookup_insert_Some in Hj as [(_ & Hj & _)|[_ Hj]]; [by apply Hres|by apply (Hp j)]. }
  exists r, ac'. split; [exact E|]. split; [exact S|]. split; [exact G|]. fold p in R. change (class_key ac2 (cl (Z.of_nat i))) with k in R.
  unfold ac2 in R. cbn [aclasses ac_store set_aclasses set_store] in R.
  rewrite !list_insert_insert_eq, insert_insert_eq, delete_insert_id in R by done. exact R.
Qed.

(** Creating a run class: either it is registered under its geometry and in a
    slot, the first free one or the one reserved for it, or nothing but the reservation
    changes.  Only a class that finds no slot leaves its object behind. *)
Definition new_outcome (ma : mallocs) (id : Z) (cl : Z -> alloc_class) ac M (r : Z) ac' : Prop :=
  let p := ma_class ma in
  same_sizes ac ac' /\ cn_grows (class_map_by_unit_size ac) (ma_leaf ma) (ma_node ma) (class_map_by_unit_size ac') /\
  ((r = p /\ p <> 0 /\ exists i : nat, (id = Z.of_nat i \/ (id < 0 /\ aclasses ac !! i = Some 0 /\ forall j, (j < i)%nat -> aclasses ac !! j <> Some 0)) /\ (i < 255)%nat /\
      M !! class_key ac (cl (Z.of_nat i)) = None /\ ac_ok ac' (<[class_key ac (cl (Z.of_nat i)) := p]> M) /\
      aclasses ac' = <[i := p]> (aclasses ac) /\ ac_store ac' = <[p := cl (Z.of_nat i)]> (ac_store ac)) \/
   (r = 0 /\ ac_ok ac' M /\ aclasses ac' = cleared id (aclasses ac) /\
    ((ac_store ac' = ac_store ac /\
      (p = 0 \/ ma_leaf ma = 0 \/ ma_node ma = 0 \/ is_Some (M !! class_key ac (cl 0)))) \/
     (ac_store ac' = <[p := cl 0]> (ac_store ac) /\ p <> 0 /\ id < 0 /\ forall i, aclasses ac !! i <> Some 0)))).

Section NewClass.
Context (fuel : nat) (ma : mallocs) (id : Z) (cl : Z -> alloc_class) (ac : alloc_class_collection) (M : gmap Z Z).
Hypothesis H : ac_ok ac M.
Hypothesis Hma : mallocs_ok ac ma.
Hypothesis Hf : (17 <= fuel)%nat.
Hypothesis H0 : ma_class ma <> 0.
Hypothesis Hcl : forall i, cl_id (cl i) = i /\ cl_type (cl i) = CLASS_RUN /\ class_key ac (cl i) = class_key ac (cl 0).

Lemma new_auto : id < 0 -> exists r ac', new_run_class fuel ma id cl ac = Some (r, ac') /\ new_outcome ma id cl ac M r ac'.
Proof using All.
  intros Hneg. unfold new_run_class, new_outcome. rewrite (proj2 (Z.ltb_lt id 0)) by lia. set (p := ma_class ma) in *.
  assert (cleared id (aclasses ac) = aclasses ac) as -> by (unfold cleared; by rewrite (proj2 (Z.ltb_lt id 0)) by lia).
  set (ac1 := set_store (<[p := cl 0]> (ac_store ac)) ac). unfold alloc_class_find_first_free_slot.
  destruct (find_free_spec (Z.to_nat MAX_ALLOCATION_CLASSES) 0 ac1) as ([[x|] ac2] & E & Hx).
  { change (aclasses ac1) with (aclasses ac). by rewrite (ok_len _ _ H). }
  - destruct Hx as (j & -> & Hj & Hb & ->). change (Z.of_nat 0) with 0 in E. rewrite E. cbn [mbind option_bind].
    destruct (new_reserved fuel ma j cl ac M H Hma H0 (or_introl Hj) Hf) as (r & ac' & E' & S & G & R); [apply Hcl..|].
    exists r, ac'. split; [exact E'|]. split; [done|]. split; [done|]. destruct (Hcl (Z.of_nat j)) as (_ & _ & Ek). rewrite Ek in R.
    destruct R as [(-> & R1 & R2 & R3 & R4)|(-> & R1 & R2 & R3 & R4)].
    + left. split; [done|]. split; [done|]. exists j. rewrite Ek. split; [right; split; [done|]; split; [done|]; intros j' Hj'; apply Hb; lia|].
      pose proof (lookup_lt_Some _ _ _ Hj) as Hlt. change (aclasses ac1) with (aclasses ac) in Hlt. rewrite (ok_len _ _ H) in Hlt. done.
    + right. split; [done|]. split; [done|]. split; [|left; split; [done|]; tauto].
      rewrite R3. by apply list_insert_id.
  - destruct Hx as [-> Hx]. change (Z.of_nat 0) with 0 in E. rewrite E. cbn [mbind option_bind]. unfold class_alloc_failed.
    rewrite (proj2 (Z.leb_gt 0 id)) by lia. exists 0, ac1. split; [done|]. split; [done|]. split; [apply grows_refl|].
    right. split; [done|]. destruct Hma as (Hres & Hst & _). split; [|split; [done|]].
    + apply (ac_ok_store ac M p); [done|by apply (ac_ok_fresh ac M)|done|done|]. intros q Hq. by rewrite lookup_insert_ne.
    + right. split; [done|]. split; [done|]. split; [done|]. intros i Hi. apply (Hx i); [|done]. split; [lia|by eapply lookup_lt_Some].
Qed.

Lemma new_with_id : 0 <= id < 255 -> slot_at ac id = Some ACLASS_RESERVED ->
  exists r ac', new_run_class fuel ma id cl ac = Some (r, ac') /\ new_outcome ma id cl ac M r ac'.
Proof using All.
  intros Hid Hs. unfold new_run_class, new_outcome. rewrite (proj2 (Z.ltb_ge id 0)) by lia. cbn [mbind option_bind].
  assert (u8 id = id) as -> by (apply Z.mod_small; lia). unfold cleared. rewrite (proj2 (Z.ltb_ge id 0)) by lia.
  rewrite <- (Z2Nat.id id) in * by lia. set (i := Z.to_nat id) in *. rewrite Nat2Z.id. rewrite slot_at_nat in Hs.
  destruct (new_reserved fuel ma i cl ac M H Hma H0 (or_intror Hs) Hf) as (r & ac' & E & S & G & R); [apply Hcl..|].
  rewrite (list_insert_id _ _ _ Hs) in E. exists r, ac'. split; [exact E|]. split; [done|]. split; [done|].
  destruct (Hcl (Z.of_nat i)) as (_ & _ & Ek). rewrite Ek in R.
  destruct R as [(-> & R1 & R2 & R3 & R4)|(-> & R1 & R2 & R3 & R4)].
  - left. split; [done|]. split; [done|]. exists i. rewrite Ek. split; [by left|]. split; [lia|done].
  - right. split; [done|]. split; [done|]. split; [done|]. left. split; [done|]. tauto.
Qed.
End NewClass.

Lemma class_new_spec fuel ma run0 id ac M htype unit_size alignment size_idx :
  ac_ok ac M -> mallocs_ok ac ma -> id_ok ac id -> (17 <= fuel)%nat ->
  exists r ac', alloc_class_new fuel ma run0 id ac CLASS_RUN htype unit_size alignment size_idx = Some (r, ac') /\
    new_outcome ma id (fun i => new_class i htype unit_size alignment size_idx) ac M r ac'.
Proof.
  intros H Hma Hid Hf. set (cl := fun i => new_class i htype unit_size alignment size_idx).
  destruct (Z.eq_dec (ma_class ma) 0) as [E0|H0].
  - unfold alloc_class_new, new_outcome. rewrite (proj2 (Z.eqb_eq _ 0) E0).
    destruct (reservation_clear_ok ac M id H Hid) as (ac' & -> & O & L & T & C & S). exists 0, ac'. rewrite C.
    split; [done|]. split; [done|]. split; [apply grows_refl|]. right. auto 10.
  - rewrite class_new_eq by exact H0.
    assert (forall i, cl_id (cl i) = i /\ cl_type (cl i) = CLASS_RUN /\ class_key ac (cl i) = class_key ac (cl 0)) as Hcl.
    { intros i. unfold cl, new_class. by destruct (memblock_run_bitmap _ _ _ _ _). }
    destruct Hid as [Hneg|[Hid Hs]]; [by apply new_auto|by apply new_with_id].
Qed.
