(* ===== verification/AllocClassSize.v ===== *)
(** * From sizes to allocation classes

    alloc_class_find_min_frag picks the class that wastes least; the map from
    sizes to classes caches its answers. *)
From stdpp Require Import base numbers list list_numbers gmap.
From Stdlib Require Import ZArith Lia Bool.
From S2P Require Import Prelude Pmem Container Critnib HeapLayout Memblock MemblockOffset AllocClass.

Record class_wf (c : alloc_class) : Prop := ClassWf {
  wf_unit : 1 <= cl_unit_size c < 2 ^ 40;
  wf_nallocs : cl_type c = CLASS_RUN -> 1 <= run_nallocs c < 2 ^ 32;
  wf_huge : cl_type c <> CLASS_RUN -> cl_unit_size c = CHUNKSIZE
}.

(** ** The cost of a class *)

(** The number of units a request takes, without wrap-around. *)
Definition units_of (c : alloc_class) (n : Z) : Z := (n + header_type_to_size (cl_header_type c) - 1) / cl_unit_size c + 1.

(** The bytes lost to rounding, and for runs the bytes at the end of a run that
    only holds such blocks, spread over its units. *)
Definition class_cost (c : alloc_class) (n : Z) : Z :=
  let units := units_of c n in
  let waste := cl_unit_size c * units - (n + header_type_to_size (cl_header_type c)) in
  if waste =? 0 then 0 else
  if decide (cl_type c = CLASS_RUN) then waste + (run_nallocs c mod units * cl_unit_size c) / run_nallocs c else waste.

(** Classes with headers, and at most eight units of a run. *)
Definition usable (c : alloc_class) (n : Z) : Prop :=
  cl_header_type c <> HEADER_NONE /\ (cl_type c = CLASS_RUN -> units_of c n <= RUN_UNIT_MAX_ALLOC).

Lemma units_bounds c n : class_wf c -> 1 <= n ->
  let real := n + header_type_to_size (cl_header_type c) in
  1 <= units_of c n /\ real <= cl_unit_size c * units_of c n < real + cl_unit_size c.
Proof.
  intros [Hu _ _] Hn real. pose proof (header_size_range (cl_header_type c)). unfold units_of. fold real.
  pose proof (Z.div_mod (real - 1) (cl_unit_size c) ltac:(lia)). pose proof (Z.mod_pos_bound (real - 1) (cl_unit_size c) ltac:(lia)).
  assert (0 <= (real - 1) / cl_unit_size c) by (apply Z.div_pos; unfold real; lia). split; [lia|].
  rewrite Z.mul_add_distr_l. lia.
Qed.

Lemma calc_units c n : class_wf c -> 1 <= n < 2 ^ 50 -> units_of c n < 2 ^ 32 ->
  CALC_SIZE_IDX (cl_unit_size c) (u64 (n + header_type_to_size (cl_header_type c))) = units_of c n.
Proof.
  intros Hwf Hn Hlt. pose proof (header_size_range (cl_header_type c)). rewrite u64_small by lia. unfold CALC_SIZE_IDX.
  destruct (Z.eqb_spec (n + header_type_to_size (cl_header_type c)) 0); [lia|].
  pose proof (units_bounds c n Hwf ltac:(lia)) as [H1 _]. apply u32_small. fold (units_of c n). lia.
Qed.

Lemma units_small c n : class_wf c -> 1 <= n < 2 ^ 31 -> units_of c n < 2 ^ 32.
Proof.
  intros [Hu _ _] Hn. pose proof (header_size_range (cl_header_type c)). unfold units_of.
  assert ((n + header_type_to_size (cl_header_type c) - 1) / cl_unit_size c <= n + 64); [|lia].
  apply Z.div_le_upper_bound; nia.
Qed.

Lemma frag_skips_spec c n : class_wf c -> 1 <= n < 2 ^ 31 -> frag_skips c n = false <-> usable c n.
Proof.
  intros Hwf Hn. unfold frag_skips, usable, frag_units, frag_real_size. rewrite calc_units by (done || lia || by apply units_small).
  rewrite orb_false_iff, Z.eqb_neq. destruct (decide (cl_type c = CLASS_RUN)); [rewrite Z.ltb_ge|]; intuition.
Qed.

Lemma frag_waste_cost c n : class_wf c -> 1 <= n < 2 ^ 31 ->
  frag_waste c n = Some (if class_cost c n =? 0 then inl tt else inr (class_cost c n)) /\ 0 <= class_cost c n < UINT64_MAX.
Proof.
  intros Hwf Hn. pose proof (units_bounds c n Hwf ltac:(lia)) as [H1 H2]. pose proof (units_small c n Hwf Hn) as H3.
  pose proof Hwf as [Hu Hna _]. pose proof (header_size_range (cl_header_type c)). unfold frag_waste, frag_units, frag_real_size, class_cost.
  rewrite calc_units by (done || lia). rewrite (u64_small (n + _)) by lia.
  set (real := n + _) in *. set (units := units_of c n) in *. set (u := cl_unit_size c) in *.
  rewrite (u64_small (u * units)) by lia. rewrite (u64_small (u * units - real)) by lia.
  destruct (Z.eqb_spec (u * units) real) as [E|E]; [destruct (Z.eqb_spec (u * units - real) 0); [split; [done|unfold UINT64_MAX; lia]|lia]|].
  destruct (Z.eqb_spec (u * units - real) 0); [lia|]. destruct (decide (cl_type c = CLASS_RUN)) as [Et|Et].
  - specialize (Hna Et). destruct (Z.eqb_spec units 0); [lia|]. destruct (Z.eqb_spec (run_nallocs c) 0); [lia|]. cbn [orb].
    pose proof (Z.mod_pos_bound (run_nallocs c) units ltac:(lia)) as Hm.
    assert (0 <= (run_nallocs c mod units) * u <= u * units) as Hw by nia. rewrite (u64_small (_ * u)) by lia.
    assert (0 <= run_nallocs c mod units * u / run_nallocs c <= u * units) as Hd.
    { split; [apply Z.div_pos; lia|]. apply Z.div_le_upper_bound; nia. }
    rewrite u64_small by lia. set (d := run_nallocs c mod units * u / run_nallocs c) in *.
    destruct (Z.eqb_spec (u * units - real + d) 0); [lia|]. unfold UINT64_MAX. split; [done|]. lia.
  - destruct (Z.eqb_spec (u * units - real) 0); [lia|]. unfold UINT64_MAX. split; [done|]. lia.
Qed.

(** ** The search *)

(** Every slot is free or holds a class. *)
Definition slots_ok ac (slots : list Z) : Prop :=
  Forall (fun p => p = 0 \/ exists c, ac_store ac !! p = Some c /\ p <> 0 /\ class_wf c) slots.

(** The classes of the slots that can serve the request. *)
Definition candidate ac (n : Z) (slots : list Z) (p : Z) (c : alloc_class) : Prop :=
  p ∈ slots /\ p <> 0 /\ ac_store ac !! p = Some c /\ usable c n.

(** [r] is the best of the classes in [slots] and of [best], whose cost is [low]. *)
Definition best_of ac (n : Z) (slots : list Z) (best low r : Z) : Prop :=
  (r = 0 /\ best = 0 /\ forall q c, ~ candidate ac n slots q c) \/
  exists c, r <> 0 /\ ac_store ac !! r = Some c /\ usable c n /\ (r = best \/ r ∈ slots) /\
    (best <> 0 -> class_cost c n <= low) /\
    forall q c', candidate ac n slots q c' -> class_cost c n <= class_cost c' n.

Lemma candidate_cons ac n p slots q c : candidate ac n (p :: slots) q c <->
  (q = p /\ p <> 0 /\ ac_store ac !! p = Some c /\ usable c n) \/ candidate ac n slots q c.
Proof.
  unfold candidate. rewrite elem_of_cons. split; [intros ([->|Hq] & H); [by left|right; tauto]|].
  intros [(-> & H)|(Hq & H)]; tauto.
Qed.

(** A slot that offers nothing. *)
Lemma best_of_skip ac n p slots best low r :
  (forall c, ~ (p <> 0 /\ ac_store ac !! p = Some c /\ usable c n)) ->
  best_of ac n slots best low r -> best_of ac n (p :: slots) best low r.
Proof.
  intros Hp [(-> & -> & Hno)|(c & H0 & Hc & Hu & Hin & Hl & Hmin)]; [left|right].
  - split; [done|]. split; [done|]. intros q c [[-> H]|H]%candidate_cons; [by destruct (Hp c)|by destruct (Hno q c)].
  - exists c. repeat (split; [done|]). rewrite elem_of_cons. split; [tauto|]. split; [done|].
    intros q c' [[-> H]|H]%candidate_cons; [by destruct (Hp c')|by eapply Hmin].
Qed.

(** A slot with a class of cost [w]. *)
Lemma best_of_take ac n p c slots best low r :
  p <> 0 -> ac_store ac !! p = Some c -> usable c n -> best = 0 \/ class_cost c n < low ->
  best_of ac n slots p (class_cost c n) r -> best_of ac n (p :: slots) best low r.
Proof.
  intros Hp Hc Hu Hb [(-> & -> & _)|(c1 & H0 & Hc1 & Hu1 & Hin & Hl & Hmin)]; [done|]. right. exists c1.
  repeat (split; [done|]). rewrite elem_of_cons. split; [destruct Hin as [->|Hin]; tauto|]. specialize (Hl Hp).
  split; [intros Hbn; destruct Hb; [done|lia]|].
  intros q c' [(-> & _ & Hq & _)|H]%candidate_cons; [by replace c' with c by congruence|by eapply Hmin].
Qed.

Lemma best_of_keep ac n p c slots best low r :
  ac_store ac !! p = Some c -> best <> 0 -> low <= class_cost c n ->
  best_of ac n slots best low r -> best_of ac n (p :: slots) best low r.
Proof.
  intros Hc Hb Hle [(-> & -> & _)|(c1 & H0 & Hc1 & Hu1 & Hin & Hl & Hmin)]; [done|]. right. exists c1.
  repeat (split; [done|]). rewrite elem_of_cons. split; [tauto|]. split; [done|]. specialize (Hl Hb).
  intros q c' [(-> & _ & Hq & _)|H]%candidate_cons; [|by eapply Hmin]. replace c' with c by congruence. lia.
Qed.

Lemma candidate_cost ac n slots q c : slots_ok ac slots -> 1 <= n < 2 ^ 31 -> candidate ac n slots q c -> 0 <= class_cost c n.
Proof.
  intros Hs Hn (Hq & H0 & Hc & _). unfold slots_ok in Hs. rewrite Forall_forall in Hs.
  destruct (Hs q Hq) as [?|(c' & Hc' & _ & Hwf)]; [done|]. replace c with c' by congruence.
  destruct (frag_waste_cost c' n Hwf Hn) as [_ ?]. lia.
Qed.

Lemma min_frag_loop_spec ac n slots best low :
  slots_ok ac slots -> 1 <= n < 2 ^ 31 -> (best = 0 \/ 0 < low) ->
  (best <> 0 -> exists c, ac_store ac !! best = Some c /\ usable c n /\ class_cost c n = low) ->
  exists r, find_min_frag_loop ac n slots best low = Some r /\ best_of ac n slots best low r.
Proof.
  intros Hs Hn. revert best low. induction Hs as [|p slots Hp Hs IH]; intros best low Hl Hb; cbn [find_min_frag_loop].
  - exists best. split; [done|]. destruct (Z.eq_dec best 0) as [->|Hne]; [left|right].
    + split; [done|]. split; [done|]. intros q c (Hq & _). by apply not_elem_of_nil in Hq.
    + destruct (Hb Hne) as (c & Hc & Hu & Hw). exists c. repeat (split; [done|]). split; [by left|]. split; [lia|].
      intros q c' (Hq & _). by apply not_elem_of_nil in Hq.
  - unfold class_at. destruct Hp as [->|(c & Hc & H0 & Hwf)].
    { cbn [Z.eqb mbind option_bind]. destruct (IH best low Hl Hb) as (r & E & Hr). exists r. split; [done|].
      apply best_of_skip; [tauto|done]. }
    destruct (Z.eqb_spec p 0); [done|]. rewrite Hc. cbn [mbind option_bind].
    pose proof (frag_skips_spec c n Hwf Hn) as Hsk. destruct (frag_skips c n).
    { destruct (IH best low Hl Hb) as (r & E & Hr). exists r. split; [done|]. apply best_of_skip; [|done].
      intros c' (_ & Hc' & Hu'). replace c' with c in * by congruence. apply Hsk in Hu'. done. }
    assert (usable c n) as Hu by (by apply Hsk). destruct (frag_waste_cost c n Hwf Hn) as [-> Hcost]. cbn [mbind option_bind].
    destruct (Z.eqb_spec (class_cost c n) 0) as [E0|E0].
    { exists p. split; [done|]. right. exists c. repeat (split; [done|]). rewrite elem_of_cons. split; [tauto|]. split; [lia|].
      intros q c' [(-> & _ & Hq & _)|H]%candidate_cons; [by replace c' with c by congruence|].
      pose proof (candidate_cost _ _ _ _ _ Hs Hn H). lia. }
    destruct (Z.eqb_spec best 0) as [->|Hne]; [|destruct (Z.ltb_spec (class_cost c n) low)]; cbn [orb].
    + destruct (IH p (class_cost c n)) as (r & E & Hr); [right; lia|eauto|]. exists r. split; [done|]. eapply best_of_take; eauto.
    + destruct (IH p (class_cost c n)) as (r & E & Hr); [right; lia|eauto|]. exists r. split; [done|]. eapply best_of_take; eauto.
    + destruct (IH best low Hl Hb) as (r & E & Hr). exists r. split; [done|]. eapply best_of_keep; eauto.
Qed.

(** ** Requests *)

Record sizes_ok ac : Prop := SizesOk {
  so_gran : granularity ac = ALLOC_BLOCK_SIZE;
  so_maps : maps_size ac = MAX_RUN_SIZE / ALLOC_BLOCK_SIZE + 1;
  so_last : last_run_max_size ac <= MAX_RUN_SIZE;
  so_len : length (aclasses ac) = 255%nat;
  so_slots : forall i p, aclasses ac !! i = Some p ->
    p = 0 \/ exists c, ac_store ac !! p = Some c /\ p <> 0 /\ class_wf c /\ cl_id c = Z.of_nat i;
  so_default : exists p c, aclasses ac !! 0%nat = Some p /\ p <> 0 /\ ac_store ac !! p = Some c /\
    cl_type c = CLASS_HUGE /\ cl_header_type c <> HEADER_NONE;
  so_map : forall i, 0 <= i < maps_size ac -> class_map_by_alloc_size ac i = MAX_ALLOCATION_CLASSES \/
    exists p c, slot_at ac (class_map_by_alloc_size ac i) = Some p /\ p <> 0 /\ ac_store ac !! p = Some c /\
      usable c (ALLOC_BLOCK_SIZE * i)
}.

(** The units taken hold the request and its header, with less than a unit to
    spare, and a run gives at most eight of them. *)
Definition serves (c : alloc_class) (size : Z) : Prop :=
  let real := size + header_type_to_size (cl_header_type c) in
  1 <= units_of c size /\ real <= cl_unit_size c * units_of c size < real + cl_unit_size c /\
  (cl_type c = CLASS_RUN -> units_of c size <= RUN_UNIT_MAX_ALLOC) /\
  alloc_class_calc_size_idx c size =
    if decide (cl_type c = CLASS_RUN /\ run_nallocs c < units_of c size) then -1 else units_of c size.

Lemma sizes_slots ac : sizes_ok ac -> slots_ok ac (aclasses ac).
Proof.
  intros H. apply Forall_lookup. intros i p Hi. destruct (so_slots _ H i p Hi) as [->|(c & Hc & H0 & Hwf & _)]; [by left|].
  right. by exists c.
Qed.

Lemma slot_class ac i p c : sizes_ok ac -> slot_at ac i = Some p -> p <> 0 -> ac_store ac !! p = Some c -> class_wf c /\ cl_id c = i /\ 0 <= i < 255.
Proof.
  intros H Hs H0 Hc. unfold slot_at in Hs. destruct (Z.ltb_spec i 0); [done|].
  pose proof (lookup_lt_Some _ _ _ Hs) as Hlt. rewrite (so_len _ H) in Hlt.
  destruct (so_slots _ H _ _ Hs) as [?|(c' & Hc' & _ & Hwf & Hid)]; [done|]. replace c with c' by congruence.
  split; [done|]. lia.
Qed.

Lemma class_serves c size : class_wf c -> usable c size -> 1 <= size < 2 ^ 49 -> serves c size.
Proof.
  intros Hwf [Hh Hu] Hs. pose proof (wf_huge _ Hwf) as Hhuge. destruct (units_bounds c size Hwf ltac:(lia)) as [H1 H2].
  assert (units_of c size < 2 ^ 32) as Hlt.
  { destruct (decide (cl_type c = CLASS_RUN)) as [E|E]; [specialize (Hu E); unfold RUN_UNIT_MAX_ALLOC in Hu; lia|].
    rewrite (Hhuge E) in H2. unfold CHUNKSIZE in H2. pose proof (header_size_range (cl_header_type c)). lia. }
  unfold serves. split; [done|]. split; [done|]. split; [done|]. unfold alloc_class_calc_size_idx.
  rewrite calc_units by (done || lia). destruct (decide (cl_type c = CLASS_RUN)) as [E|E].
  - rewrite (proj2 (Z.eqb_neq _ _) Hh). cbn [andb]. specialize (Hu E). unfold RUN_UNIT_MAX_ALLOC, RUN_UNIT_MAX, RUN_BITS_PER_VALUE in *.
    rewrite (proj2 (Z.ltb_ge 64 _)) by lia.
    destruct (Z.ltb_spec (run_nallocs c) (units_of c size)), (decide (cl_type c = CLASS_RUN /\ _)); intuition lia.
  - destruct (decide (cl_type c = CLASS_RUN /\ _)); intuition.
Qed.

Lemma usable_mono c n size : class_wf c -> usable c n -> size <= n -> usable c size.
Proof.
  intros [Hu _ _] [Hh Hr] Hle. split; [done|]. intros E. specialize (Hr E). unfold units_of in *.
  assert ((size + header_type_to_size (cl_header_type c) - 1) / cl_unit_size c <=
    (n + header_type_to_size (cl_header_type c) - 1) / cl_unit_size c) by (apply Z.div_le_mono; lia). lia.
Qed.

(** The index of a size in the map, and the largest size with that index. *)
Lemma size_index size : 1 <= size < MAX_RUN_SIZE ->
  let i := SIZE_TO_CLASS_MAP_INDEX size ALLOC_BLOCK_SIZE in
  i = 1 + (size - 1) / 16 /\ 1 <= i < MAX_RUN_SIZE / ALLOC_BLOCK_SIZE + 1 /\ size <= 16 * i < 2 ^ 31.
Proof.
  unfold MAX_RUN_SIZE, CHUNKSIZE. intros Hs. unfold SIZE_TO_CLASS_MAP_INDEX, ALLOC_BLOCK_SIZE. rewrite (u64_small (size - 1)) by lia.
  pose proof (Z.div_mod (size - 1) 16 ltac:(lia)). pose proof (Z.mod_pos_bound (size - 1) 16 ltac:(lia)).
  rewrite u64_small by lia. change (1024 * 256 * 10 / 16) with 163840. lia.
Qed.

(** The class chosen for requests of up to [n] bytes. *)
Lemma min_frag_default ac n : sizes_ok ac -> 1 <= n < 2 ^ 31 ->
  exists p c, alloc_class_find_min_frag ac n = Some p /\ candidate ac n (aclasses ac) p c /\
    forall q c', candidate ac n (aclasses ac) q c' -> class_cost c n <= class_cost c' n.
Proof.
  intros H Hn. unfold alloc_class_find_min_frag.
  assert (forall q c, candidate ac n (rev (aclasses ac)) q c <-> candidate ac n (aclasses ac) q c) as Hrev.
  { intros q c. unfold candidate. by rewrite list_elem_of_In, <- in_rev, <- list_elem_of_In. }
  destruct (min_frag_loop_spec ac n (rev (aclasses ac)) 0 UINT64_MAX) as (r & E & Hr); [|done|by left|done|].
  { unfold slots_ok. rewrite Forall_forall. intros q Hq. apply list_elem_of_In, in_rev, list_elem_of_In in Hq.
    pose proof (sizes_slots ac H) as Hs. unfold slots_ok in Hs. rewrite Forall_forall in Hs. by apply Hs. }
  destruct (so_default _ H) as (p0 & c0 & Hp0 & H00 & Hc0 & Ht0 & Hh0).
  assert (candidate ac n (aclasses ac) p0 c0) as Hd.
  { split; [by eapply list_elem_of_lookup_2|]. split; [done|]. split; [done|]. split; [done|]. congruence. }
  destruct Hr as [(_ & _ & Hno)|(c & H0 & Hc & Hu & [->|Hin] & _ & Hmin)]; [by destruct (Hno p0 c0 (proj2 (Hrev p0 c0) Hd))|done|].
  exists r, c. split; [done|]. split; [apply Hrev; by split|]. intros q c' Hq. apply (Hmin q). by apply Hrev.
Qed.

(** A request that was not mapped: the least wasteful class, which is then mapped. *)
Lemma assign_spec ac size : sizes_ok ac -> 1 <= size < MAX_RUN_SIZE ->
  let i := SIZE_TO_CLASS_MAP_INDEX size ALLOC_BLOCK_SIZE in
  class_map_by_alloc_size ac i = MAX_ALLOCATION_CLASSES ->
  exists p c, let ac' := set_size_map (fun j => if j =? i then cl_id c else class_map_by_alloc_size ac j) ac in
    alloc_class_assign_by_size ac size = Some (p, ac') /\ sizes_ok ac' /\ candidate ac (16 * i) (aclasses ac) p c /\
    slot_at ac (cl_id c) = Some p /\ cl_id c <> MAX_ALLOCATION_CLASSES /\
    forall q c', candidate ac (16 * i) (aclasses ac) q c' -> class_cost c (16 * i) <= class_cost c' (16 * i).
Proof.
  intros H Hs i Hi. destruct (size_index size Hs) as (Ei & Hr & Hle). fold i in Ei, Hr, Hle.
  destruct (min_frag_default ac (16 * i) H ltac:(lia)) as (p & c & E & Hcand & Hmin). exists p, c. cbv zeta.
  pose proof Hcand as (Hin & H0 & Hc & Hu). apply list_elem_of_lookup in Hin as [j Hj].
  assert (slot_at ac (Z.of_nat j) = Some p) as Hsl.
  { unfold slot_at. rewrite (proj2 (Z.ltb_ge _ 0)) by lia. by rewrite Nat2Z.id. }
  destruct (slot_class ac _ p c H Hsl H0 Hc) as (Hwf & Hid & Hlt). rewrite <- Hid in Hsl.
  assert (size_map_at ac i = Some MAX_ALLOCATION_CLASSES) as Hm.
  { unfold size_map_at. rewrite (so_maps _ H). rewrite (proj2 (Z.leb_le 0 i)), (proj2 (Z.ltb_lt i _)) by lia. cbn [andb]. by rewrite Hi. }
  split; [|split; [|split; [done|split; [done|split; [unfold MAX_ALLOCATION_CLASSES; lia|done]]]]].
  - unfold alloc_class_assign_by_size. rewrite (so_gran _ H). fold i. unfold ALLOC_BLOCK_SIZE at 1.
    rewrite (Z.mul_comm i 16), u64_small, E by lia. cbn [mbind option_bind]. rewrite Hc. cbn [mbind option_bind]. rewrite Hm. cbn [mbind option_bind].
    rewrite Z.eqb_refl. unfold size_map_set. rewrite Hm. done.
  - destruct H as [S1 S2 S3 S4 S5 S6 S7]. constructor; try done. cbn. intros k Hk. destruct (Z.eqb_spec k i) as [->|].
    + right. exists p, c. done.
    + apply S7. done.
Qed.

(** What a request may be answered with. *)
Definition answer ac (size p : Z) : Prop :=
  (p = 0 /\ fail_on_missing_class ac = true) \/ exists c, p ∈ aclasses ac /\ ac_store ac !! p = Some c /\ serves c size.

(** Requests that leave the collection alone, and those that add to the map. *)
Lemma by_alloc_size_cases ac size : sizes_ok ac -> 1 <= size < 2 ^ 49 ->
  let i := SIZE_TO_CLASS_MAP_INDEX size ALLOC_BLOCK_SIZE in
  (exists p, alloc_class_by_alloc_size ac size = Some (p, ac) /\ answer ac size p) \/
  (size < last_run_max_size ac /\ class_map_by_alloc_size ac i = MAX_ALLOCATION_CLASSES /\
   alloc_class_by_alloc_size ac size = alloc_class_assign_by_size ac size).
Proof.
  intros H Hs i. unfold alloc_class_by_alloc_size. rewrite (so_gran _ H). fold i.
  destruct (so_default _ H) as (p0 & c0 & Hp0 & H00 & Hc0 & Ht0 & Hh0).
  assert (slot_at ac DEFAULT_ALLOC_CLASS_ID = Some p0) as Hd by (unfold slot_at; exact Hp0).
  destruct (slot_class ac _ p0 c0 H Hd H00 Hc0) as (Hwf0 & _).
  assert (answer ac size p0) as Hdef.
  { right. exists c0. split; [by eapply list_elem_of_lookup_2|]. split; [done|]. apply class_serves; [done|split; [done|congruence]|done]. }
  destruct (Z.ltb_spec size (last_run_max_size ac)) as [Hlt|_]; [|left; exists p0; by rewrite Hd].
  pose proof (so_last _ H) as Hlast. destruct (size_index size ltac:(lia)) as (Ei & Hr & Hle). fold i in Ei, Hr, Hle.
  unfold size_map_at. rewrite (so_maps _ H), (proj2 (Z.leb_le 0 i)), (proj2 (Z.ltb_lt i _)) by lia. cbn [andb mbind option_bind].
  destruct (so_map _ H i ltac:(rewrite (so_maps _ H); lia)) as [E|(p & c & Hsl & H0 & Hc & Hu)].
  - rewrite E, Z.eqb_refl. destruct (fail_on_missing_class ac) eqn:Ef; [left; exists 0; split; [done|by left]|].
    destruct (autogenerate_on_missing_class ac); [by right|]. left. exists p0. by rewrite Hd.
  - left. destruct (slot_class ac _ p c H Hsl H0 Hc) as (Hwf & Hid & Hid').
    destruct (Z.eqb_spec (class_map_by_alloc_size ac i) MAX_ALLOCATION_CLASSES); [unfold MAX_ALLOCATION_CLASSES in *; lia|].
    exists p. rewrite Hsl. split; [done|]. right. exists c. split; [|split; [done|]].
    + unfold slot_at in Hsl. destruct (_ <? 0); [done|]. by eapply list_elem_of_lookup_2.
    + apply class_serves; [done| |done]. eapply usable_mono; [done|exact Hu|]. unfold ALLOC_BLOCK_SIZE. lia.
Qed.

Lemma by_alloc_size_spec ac size : sizes_ok ac -> 1 <= size < 2 ^ 49 ->
  exists p ac', alloc_class_by_alloc_size ac size = Some (p, ac') /\ sizes_ok ac' /\
    aclasses ac' = aclasses ac /\ ac_store ac' = ac_store ac /\ alloc_class_by_alloc_size ac' size = Some (p, ac') /\
    answer ac size p.
Proof.
  intros H Hs. destruct (by_alloc_size_cases ac size H Hs) as [(p & E & A)|(Hlt & Hi & E)]; [exists p, ac; done|].
  pose proof (so_last _ H) as Hlast. destruct (assign_spec ac size H ltac:(lia) Hi) as (p & c & Ea & H' & (Hin & H0 & Hc & Hu) & Hsl & Hne & _).
  set (i := SIZE_TO_CLASS_MAP_INDEX size ALLOC_BLOCK_SIZE) in *.
  set (ac' := set_size_map _ ac) in *. exists p, ac'. rewrite E. split; [done|]. split; [done|]. split; [done|]. split; [done|].
  destruct (size_index size ltac:(lia)) as (Ei & Hr & Hle). fold i in Ei, Hr, Hle. split.
  - unfold alloc_class_by_alloc_size. change (last_run_max_size ac') with (last_run_max_size ac). rewrite (proj2 (Z.ltb_lt _ _) Hlt).
    rewrite (so_gran _ H'). fold i. unfold size_map_at.
    rewrite (so_maps _ H'), (proj2 (Z.leb_le 0 i)), (proj2 (Z.ltb_lt i _)) by lia. cbn [andb mbind option_bind].
    unfold ac'. cbn [class_map_by_alloc_size set_size_map]. rewrite Z.eqb_refl. rewrite (proj2 (Z.eqb_neq _ _) Hne).
    change (slot_at (set_size_map _ ac) (cl_id c)) with (slot_at ac (cl_id c)). by rewrite Hsl.
  - right. exists c. split; [done|]. split; [done|]. destruct (slot_class ac _ p c H Hsl H0 Hc) as (Hwf & _).
    apply class_serves; [done| |lia]. eapply usable_mono; [done|exact Hu|lia].
Qed.
