(* ===== verification/AllocClassNew.v ===== *)
(** * The default allocation classes

    alloc_class_collection_new is run against a table of classes without
    addresses: whatever addresses Malloc returns, the collection it builds has
    the classes of the table in the slots 0, 1, 2, ... *)
From stdpp Require Import base numbers list list_numbers gmap.
From Stdlib Require Import ZArith Lia Bool.
From S2P Require Import Prelude Pmem Container Critnib CritnibFacts CritnibOps CritnibSpec HeapLayout.
From S2P Require Import Memblock AllocClass AllocClassFacts AllocClassSize.

(** ** The table *)

Definition key_of (c : alloc_class) : Z :=
  RUN_CLASS_KEY_PACK (u32 (SIZE_TO_CLASS_MAP_INDEX (cl_unit_size c) ALLOC_BLOCK_SIZE)) (u16 (cl_flags c)) (u16 (run_size_idx c)).

Definition is_huge (c : alloc_class) : bool := bool_decide (cl_type c = CLASS_HUGE).

Definition multiple_of (n required : Z) (c : alloc_class) : bool :=
  negb (is_huge c) && negb (run_size_idx c <? required) &&
  (n mod cl_unit_size c =? 0) && (n / cl_unit_size c <=? RUN_UNIT_MAX_ALLOC).

Definition duplicate_of (n : Z) (c : alloc_class) : bool :=
  negb (is_huge c) &&
  (((n / cl_unit_size c <=? RUN_UNIT_MAX_ALLOC) && (n mod cl_unit_size c =? 0)) || (cl_unit_size c =? n)).

Definition add_class (n required : Z) (l : list alloc_class) : option (list alloc_class) :=
  let c := new_class (Z.of_nat (length l)) HEADER_COMPACT n 0 required in
  if (Z.of_nat (length l) <? 255) && negb (cl_unit_size c =? 0) && forallb (fun c' => is_huge c' || negb (key_of c' =? key_of c)) l
  then Some (l ++ [c]) else None.

(** What alloc_class_find_or_create does to the table. *)
Definition table_step (fuel : nat) (l : list alloc_class) (n : Z) : option (list alloc_class) :=
  let required := required_size_idx n in
  if existsb (multiple_of n required) l then Some l else
  n ← find_unit_size fuel false n required;
  if existsb (duplicate_of n) (drop 1 l) then Some l else add_class n required l.

Fixpoint table_category (fuel cfuel : nat) (k : nat) (l : list alloc_class) (n size : Z) : option (nat * list alloc_class) :=
  match fuel with
  | O => None
  | S fuel =>
      l ← table_step cfuel l n;
      let n := n + Z.land (category_step n + (ALLOC_BLOCK_SIZE_GEN - 1)) (Z.lnot (ALLOC_BLOCK_SIZE_GEN - 1)) in
      if n <=? size then table_category fuel cfuel (S k) l n size else Some (S k, l)
  end.

Fixpoint table_categories (fuel cfuel : nat) (k : nat) (l : list alloc_class) (prev : Z) (sizes : list Z)
    : option (nat * list alloc_class) :=
  match sizes with
  | [] => Some (k, l)
  | size :: sizes =>
      '(k, l) ← table_category fuel cfuel k l (prev + ALLOC_BLOCK_SIZE_GEN) size;
      table_categories fuel cfuel k l size sizes
  end.

(** ** Searching the slots is searching the table *)

Definition classes_of ac (slots : list Z) : list alloc_class := omap (fun p => ac_store ac !! p) slots.

Definition slots_valid ac (slots : list Z) : Prop :=
  Forall (fun p => p = 0 \/ exists c, ac_store ac !! p = Some c /\ cl_unit_size c <> 0) slots.

Lemma class_at_valid ac p : ac_store ac !! 0 = None -> p = 0 \/ (exists c, ac_store ac !! p = Some c /\ cl_unit_size c <> 0) ->
  class_at ac p = Some (ac_store ac !! p) /\ (p <> 0 <-> is_Some (ac_store ac !! p)).
Proof.
  intros H0 [->|(c & Hc & _)]; unfold class_at.
  - rewrite H0. split; [done|]. split; [done|intros [? ?]; done].
  - destruct (Z.eqb_spec p 0) as [->|]; [congruence|]. rewrite Hc. split; [done|]. split; [eauto|done].
Qed.

Lemma find_multiple_spec ac n required slots : ac_store ac !! 0 = None -> slots_valid ac slots ->
  exists p, find_multiple ac n required slots = Some p /\ (p = 0 <-> existsb (multiple_of n required) (classes_of ac slots) = false).
Proof.
  intros H0 Hs. induction Hs as [|p slots Hp Hs (r & E & Hr)]; [by exists 0|]. cbn [find_multiple classes_of omap list_omap].
  destruct (class_at_valid ac p H0 Hp) as [-> Hne]. cbn [mbind option_bind]. destruct (ac_store ac !! p) as [c|] eqn:Ec; [|by exists r].
  destruct Hp as [->|(c' & Hc' & Hu)]; [congruence|]. replace c' with c in * by congruence.
  cbn [existsb]. unfold multiple_of at 1, is_huge. destruct (decide (cl_type c = CLASS_HUGE)) as [Et|Et].
  { rewrite bool_decide_true by done. by exists r. }
  rewrite bool_decide_false by done. destruct (run_size_idx c <? required); [by exists r|]. cbn [negb andb orb].
  rewrite (proj2 (Z.eqb_neq _ _) Hu). destruct ((n mod cl_unit_size c =? 0) && (n / cl_unit_size c <=? RUN_UNIT_MAX_ALLOC)).
  - exists p. split; [done|]. cbn [orb]. split; [intros ->; congruence|done].
  - by exists r.
Qed.

Lemma find_duplicate_spec ac n slots : ac_store ac !! 0 = None -> slots_valid ac slots ->
  exists p, find_duplicate ac n slots = Some p /\ (p = 0 <-> existsb (duplicate_of n) (classes_of ac slots) = false).
Proof.
  intros H0 Hs. induction Hs as [|p slots Hp Hs (r & E & Hr)]; [by exists 0|]. cbn [find_duplicate classes_of omap list_omap].
  destruct (class_at_valid ac p H0 Hp) as [-> Hne]. cbn [mbind option_bind]. destruct (ac_store ac !! p) as [c|] eqn:Ec; [|by exists r].
  destruct Hp as [->|(c' & Hc' & Hu)]; [congruence|]. replace c' with c in * by congruence.
  cbn [existsb]. unfold duplicate_of at 1, is_huge. destruct (decide (cl_type c = CLASS_HUGE)) as [Et|Et].
  { rewrite bool_decide_true by done. by exists r. }
  rewrite bool_decide_false by done. cbn [negb andb]. rewrite (proj2 (Z.eqb_neq _ _) Hu).
  destruct ((n / cl_unit_size c <=? RUN_UNIT_MAX_ALLOC) && (n mod cl_unit_size c =? 0)); cbn [orb].
  { exists p. split; [done|]. split; [intros ->; congruence|done]. }
  destruct (cl_unit_size c =? n); cbn [orb]; [|by exists r]. exists p. split; [done|]. split; [intros ->; congruence|done].
Qed.

Lemma existsb_rev {A} (f : A -> bool) l : existsb f (rev l) = existsb f l.
Proof.
  apply eq_iff_eq_true. rewrite !existsb_exists. split; intros (x & Hx & Hf); exists x; (split; [|done]); by apply in_rev;
    rewrite ?rev_involutive.
Qed.

Lemma classes_of_rev ac slots : classes_of ac (rev slots) = rev (classes_of ac slots).
Proof.
  unfold classes_of. induction slots as [|p slots IH]; [done|]. cbn [rev]. rewrite omap_app, IH. cbn [omap list_omap].
  by destruct (ac_store ac !! p); [|rewrite app_nil_r].
Qed.

(** ** The simulation *)

(** In its first [n] calls Malloc does not fail and does not return memory that is
    in use. *)
Record mallocs_good (n : nat) (ms : nat -> mallocs) : Prop := MallocsGood {
  mg_class : forall k, (k < n)%nat -> ma_class (ms k) <> 0 /\ ma_class (ms k) <> ACLASS_RESERVED;
  mg_leaf : forall k, (k < n)%nat -> good (ma_leaf (ms k));
  mg_node : forall k, (k < n)%nat -> good (ma_node (ms k));
  mg_inj : forall j k, (j < n)%nat -> (k < n)%nat ->
    ma_class (ms j) = ma_class (ms k) \/ ma_leaf (ms j) = ma_leaf (ms k) \/ ma_node (ms j) = ma_node (ms k) -> j = k
}.

(** After [k] calls the slots hold the classes of the table [l] in order. *)
Record table_ok (ms : nat -> mallocs) (k : nat) ac (l : list alloc_class) : Prop := TableOk {
  to_slots : exists ps, aclasses ac = ps ++ replicate (255 - length ps) 0 /\
    Forall2 (fun p c => p <> 0 /\ ac_store ac !! p = Some c /\ cl_unit_size c <> 0) ps l;
  to_ok : exists M, ac_ok ac M;
  to_store : forall a, is_Some (ac_store ac !! a) -> exists j, (j < k)%nat /\ a = ma_class (ms j);
  to_leaves : forall a, is_Some (cn_leaves (class_map_by_unit_size ac) !! a) -> exists j, (j < k)%nat /\ a = ma_leaf (ms j);
  to_nodes : forall a, is_Some (cn_nodes (class_map_by_unit_size ac) !! a) -> exists j, (j < k)%nat /\ a = ma_node (ms j)
}.

Section Table.
Context (ms : nat -> mallocs) (N : nat) (Hms : mallocs_good N ms).

Lemma table_mono k k' ac l : table_ok ms k ac l -> (k <= k')%nat -> table_ok ms k' ac l.
Proof using.
  intros [Sl O A L Nd] Hk. constructor; [done|done|..]; intros a Ha;
    [destruct (A a Ha) as (j & ? & ?)|destruct (L a Ha) as (j & ? & ?)|destruct (Nd a Ha) as (j & ? & ?)]; exists j; (split; [lia|done]).
Qed.

Lemma table_mallocs k ac l : table_ok ms k ac l -> (k < N)%nat -> mallocs_ok ac (ms k).
Proof using Hms.
  intros [Sl O A L Nd] Hk. destruct Hms as [Mc Ml Mn Mi].
  assert (forall {X} (h : gmap Z X) (f : nat -> Z), (forall a, is_Some (h !! a) -> exists j, (j < k)%nat /\ a = f j) ->
    (forall j j', (j < N)%nat -> (j' < N)%nat -> f j = f j' -> j = j') -> h !! f k = None) as Hfresh.
  { intros X h f Hh Hi. destruct (h !! f k) as [x|] eqn:E; [|done]. destruct (Hh (f k) ltac:(eauto)) as (j & Hj & Ej). apply Hi in Ej; lia. }
  split; [by apply Mc|]. split; [apply (Hfresh _ _ (fun j => ma_class (ms j))); auto|].
  split; right; (split; [auto|]); [apply (Hfresh _ _ (fun j => ma_leaf (ms j)))|apply (Hfresh _ _ (fun j => ma_node (ms j)))]; auto.
Qed.

Lemma table_classes k ac l : table_ok ms k ac l -> classes_of ac (aclasses ac) = l /\ slots_valid ac (aclasses ac) /\
  ac_store ac !! 0 = None.
Proof using.
  intros [(ps & E & HF) (M & O) _ _ _]. pose proof (ok_null _ _ O) as H0. split; [|split; [|done]].
  - rewrite E. unfold classes_of. rewrite omap_app.
    assert (forall n, omap (fun p => ac_store ac !! p) (replicate n 0) = []) as -> by (intros n; induction n; [done|]; cbn; by rewrite H0).
    rewrite app_nil_r. clear E. induction HF as [|p c ps l (_ & Hc & _) _ IH]; [done|]. cbn. rewrite Hc. by f_equal.
  - rewrite E. apply Forall_app. split.
    + clear E. induction HF as [|p c ps l (_ & Hc & Hu) _ IH]; constructor; [right; by exists c|done].
    + apply Forall_replicate. by left.
Qed.

(** The table holds the run classes the critnib knows. *)
Lemma table_keys k ac l M c : table_ok ms k ac l -> ac_ok ac M -> is_Some (M !! class_key ac c) ->
  exists c', c' ∈ l /\ cl_type c' = CLASS_RUN /\ key_of c' = key_of c.
Proof using.
  intros HT O [p Hp]. apply (ok_map _ _ O) in Hp as (i & c' & Hi & Hc' & Ht & Hk). exists c'.
  destruct (table_classes k ac l HT) as (<- & _ & _). split; [|split; [done|]].
  - apply list_elem_of_omap. exists p. split; [by eapply list_elem_of_lookup_2|done].
  - unfold class_key, run_class_key in Hk. rewrite (ok_gran _ _ O) in Hk. exact Hk.
Qed.

(** A class enters the first free slot. *)
Lemma table_append k ac ac' l c :
  table_ok ms k ac l -> (k < N)%nat -> Z.of_nat (length l) < 255 -> cl_unit_size c <> 0 -> (exists M, ac_ok ac' M) ->
  cn_grows (class_map_by_unit_size ac) (ma_leaf (ms k)) (ma_node (ms k)) (class_map_by_unit_size ac') ->
  aclasses ac' = <[length l := ma_class (ms k)]> (aclasses ac) -> ac_store ac' = <[ma_class (ms k) := c]> (ac_store ac) ->
  table_ok ms (S k) ac' (l ++ [c]).
Proof using Hms.
  intros HT Hk Hl Hu HM (_ & GL & GN) Ea Es. pose proof HT as [(ps & E & HF) _ A L Nd]. pose proof (Forall2_length _ _ _ HF) as Hlen.
  assert (forall a (f : nat -> Z), (exists j, (j < k)%nat /\ a = f j) \/ a = f k -> exists j, (j < S k)%nat /\ a = f j) as Hstep.
  { intros a f [(j & ? & ?)| ->]; [exists j|exists k]; (split; [lia|done]). }
  constructor; [|done|..].
  - exists (ps ++ [ma_class (ms k)]). rewrite Ea, E. split.
    + rewrite insert_app_r_alt by lia. rewrite Hlen, Nat.sub_diag, length_app, <- app_assoc. f_equal. cbn [length].
      replace (255 - length l)%nat with (S (255 - (length ps + 1))) by lia. done.
    + apply Forall2_app; [|constructor; [|constructor]; split; [by apply Hms|]; split; [by rewrite Es, lookup_insert_eq|done]].
      eapply Forall2_impl; [exact HF|]. intros p c' (Hp & Hc' & Hu'). split; [done|]. split; [|done]. rewrite Es, lookup_insert_ne; [done|].
      intros <-. destruct (table_mallocs k ac l HT Hk) as (_ & Hn & _). congruence.
  - rewrite Es. intros a [x Hx]. apply (Hstep a (fun j => ma_class (ms j))).
    apply lookup_insert_Some in Hx as [[<- _]|[_ Hx]]; [by right|left; eauto].
  - intros a Ha. apply (Hstep a (fun j => ma_leaf (ms j))). destruct (GL a Ha); eauto.
  - intros a Ha. apply (Hstep a (fun j => ma_node (ms j))). destruct (GN a Ha); eauto.
Qed.

Lemma table_free k ac l : table_ok ms k ac l -> Z.of_nat (length l) < 255 ->
  aclasses ac !! length l = Some 0 /\ forall i, (i < length l)%nat -> aclasses ac !! i <> Some 0.
Proof using.
  intros [(ps & E & HF) _ _ _ _] Hl. rewrite <- (Forall2_length _ _ _ HF) in *. rewrite E. split.
  - rewrite lookup_app_r, Nat.sub_diag by lia. apply lookup_replicate_2. lia.
  - intros i Hi. rewrite lookup_app_l by done. intros Hp. destruct (Forall2_lookup_l _ _ _ _ _ HF Hp) as (c' & _ & Hne & _). done.
Qed.

Lemma table_new fuel k ac l n required l' :
  table_ok ms k ac l -> (k < N)%nat -> (17 <= fuel)%nat -> add_class n required l = Some l' ->
  exists p ac', alloc_class_new fuel (ms k) (0, 0, 0) (-1) ac CLASS_RUN HEADER_COMPACT n 0 required = Some (p, ac') /\
    p <> 0 /\ table_ok ms (S k) ac' l' /\ same_sizes ac ac' /\ ac_store ac' !! p = Some (new_class (Z.of_nat (length l)) HEADER_COMPACT n 0 required) /\
    aclasses ac' !! length l = Some p.
Proof using Hms.
  intros HT Hk Hf Ha. pose proof (to_ok _ _ _ _ HT) as (M & O). unfold add_class in Ha.
  set (c := new_class _ HEADER_COMPACT n 0 required) in *.
  destruct (Z.ltb_spec (Z.of_nat (length l)) 255) as [Hl|]; [|done]. destruct (Z.eqb_spec (cl_unit_size c) 0) as [|Hu]; [done|].
  cbn [andb negb] in Ha. destruct (forallb _ l) eqn:Efa; [|done]. injection Ha as <-. rewrite forallb_forall in Efa.
  destruct (table_free k ac l HT Hl) as [Hfree Hused].
  destruct (class_new_spec fuel (ms k) (0, 0, 0) (-1) ac M HEADER_COMPACT n 0 required O (table_mallocs k ac l HT Hk) ltac:(by left) Hf)
    as (r & ac' & Er & Ss & G & R).
  destruct R as [(-> & H0 & i & Hi & Hlt & HM & O' & Ea & Es)|(_ & _ & _ & R)].
  - exists (ma_class (ms k)), ac'. split; [done|]. split; [done|].
    assert (i = length l) as ->.
    { destruct Hi as [Hi|(_ & Hi & Hb)]; [lia|]. destruct (Nat.lt_total i (length l)) as [Hc|[Hc|Hc]]; [by destruct (Hused i)|done|].
      by destruct (Hb (length l) Hc). }
    fold c in Es. split; [eapply table_append; eauto|]. split; [done|]. split; [by rewrite Es, lookup_insert_eq|].
    rewrite Ea. apply list_lookup_insert_eq. by eapply lookup_lt_Some.
  - exfalso. destruct R as [(_ & R)|(_ & _ & _ & Hno)]; [|by apply (Hno (length l))]. destruct Hms as [Mc Ml Mn Mi].
    destruct R as [R|[R|[R|R]]]; [by apply (proj1 (Mc k Hk))|..].
    + specialize (Ml k Hk). rewrite R in Ml. destruct Ml. lia.
    + specialize (Mn k Hk). rewrite R in Mn. destruct Mn. lia.
    + destruct (table_keys k ac l M _ HT O R) as (c' & Hc' & Ht & Hkey).
      assert (is_huge c' || negb (key_of c' =? key_of c) = true) as Hx by (apply Efa; by apply list_elem_of_In).
      unfold is_huge in Hx. rewrite bool_decide_false in Hx by congruence. cbn [orb] in Hx. apply negb_true_iff, Z.eqb_neq in Hx.
      apply Hx. rewrite Hkey. unfold c, new_class. by destruct (memblock_run_bitmap _ _ _ _ _).
Qed.

Lemma same_sizes_refl ac : same_sizes ac ac.
Proof using. by repeat split. Qed.
Lemma same_sizes_trans ac1 ac2 ac3 : same_sizes ac1 ac2 -> same_sizes ac2 ac3 -> same_sizes ac1 ac3.
Proof using. intros (?&?&?&?&?&?) (?&?&?&?&?&?). repeat split; congruence. Qed.

Lemma table_find_or_create fuel k ac l n l' :
  table_ok ms k ac l -> (k < N)%nat -> (17 <= fuel)%nat -> table_step fuel l n = Some l' ->
  exists p ac', alloc_class_find_or_create fuel (ms k) ac n = Some (p, ac') /\ p <> 0 /\ table_ok ms (S k) ac' l' /\ same_sizes ac ac'.
Proof using Hms.
  intros HT HkN Hf Hl. destruct (table_classes k ac l HT) as (Ec & Hv & H0). unfold alloc_class_find_or_create, table_step in *.
  destruct (find_multiple_spec ac n (required_size_idx n) (rev (aclasses ac)) H0) as (p & -> & Hp).
  { unfold slots_valid in *. rewrite Forall_forall in *. intros q Hq. apply Hv. apply list_elem_of_In, in_rev. by apply list_elem_of_In. }
  rewrite classes_of_rev, existsb_rev, Ec in Hp. cbn [mbind option_bind]. destruct (Z.eqb_spec p 0) as [Ep|Ep]; cbn [negb].
  - rewrite (proj1 Hp Ep) in Hl. destruct (find_unit_size fuel false n (required_size_idx n)) as [n'|]; [|done]. cbn [mbind option_bind] in *.
    destruct (find_duplicate_spec ac n' (drop 1 (aclasses ac)) H0) as (q & -> & Hq); [by apply Forall_drop|].
    assert (classes_of ac (drop 1 (aclasses ac)) = drop 1 l) as Ed.
    { pose proof (to_slots _ _ _ _ HT) as (ps & E & HF). destruct HF as [|p1 c1 ps l (_ & Hc1 & _) HF].
      - destruct (aclasses ac) as [|p0 rest]; [done|]. unfold classes_of in *. cbn [omap list_omap drop] in *.
        by destruct (ac_store ac !! p0).
      - rewrite E in *. unfold classes_of in *. cbn [app omap list_omap drop] in *. rewrite Hc1 in Ec. by injection Ec as <-. }
    rewrite Ed in Hq. cbn [mbind option_bind]. destruct (Z.eqb_spec q 0) as [Eq|Eq]; cbn [negb].
    + rewrite (proj1 Hq Eq) in Hl. destruct (table_new fuel k ac l n' (required_size_idx n) l' HT HkN Hf Hl) as (r & ac' & E & ? & ? & ? & _).
      by exists r, ac'.
    + destruct (existsb (duplicate_of n') (drop 1 l)) eqn:Ex; [|by destruct Eq; apply Hq]. injection Hl as <-.
      exists q, ac. split; [done|]. split; [done|]. split; [eapply table_mono; [exact HT|lia]|apply same_sizes_refl].
  - destruct (existsb (multiple_of n _) l) eqn:Ex; [|by destruct Ep; apply Hp]. injection Hl as <-.
    exists p, ac. split; [done|]. split; [done|]. split; [eapply table_mono; [exact HT|lia]|apply same_sizes_refl].
Qed.

Lemma table_category_count fuel cfuel k l n size k' l' : table_category fuel cfuel k l n size = Some (k', l') -> (k < k')%nat.
Proof using.
  revert k l n. induction fuel as [|fuel IH]; intros k l n H; [done|]. cbn [table_category] in H.
  destruct (table_step cfuel l n) as [l1|]; [|done]. cbn [mbind option_bind] in H. destruct (_ <=? size); [apply IH in H; lia|].
  injection H as <- <-. lia.
Qed.

Lemma table_categories_count fuel cfuel k l prev sizes k' l' : table_categories fuel cfuel k l prev sizes = Some (k', l') -> (k <= k')%nat.
Proof using.
  revert k l prev. induction sizes as [|size sizes IH]; intros k l prev H; cbn [table_categories] in H; [by injection H as <- <-|].
  destruct (table_category _ _ _ _ _ _) as [[k1 l1]|] eqn:E1; [|done]. apply table_category_count in E1. apply IH in H. lia.
Qed.

Lemma table_generate fuel cfuel k ac l n size k' l' :
  table_ok ms k ac l -> (17 <= cfuel)%nat -> table_category fuel cfuel k l n size = Some (k', l') -> (k' <= N)%nat ->
  exists ac', generate_category fuel cfuel ms k ac n size = Some (inr (k', ac')) /\ table_ok ms k' ac' l' /\ same_sizes ac ac'.
Proof using Hms.
  intros HT Hf H HN. revert k ac l n HT H. induction fuel as [|fuel IH]; intros k ac l n HT H; [done|].
  pose proof (table_category_count _ _ _ _ _ _ _ _ H) as Hk. cbn [table_category generate_category] in *.
  destruct (table_step cfuel l n) as [l1|] eqn:E1; [|done]. cbn [mbind option_bind] in H.
  destruct (table_find_or_create cfuel k ac l n l1 HT ltac:(lia) Hf E1) as (p & ac1 & -> & Hp & HT1 & S1). cbn [mbind option_bind].
  rewrite (proj2 (Z.eqb_neq p 0) Hp). destruct (_ <=? size).
  - destruct (IH _ _ _ _ HT1 H) as (ac' & E & T & S'). exists ac'. split; [done|]. split; [done|]. by eapply same_sizes_trans.
  - injection H as <- <-. by exists ac1.
Qed.

Lemma table_generate_all fuel cfuel k ac l prev sizes k' l' :
  table_ok ms k ac l -> (17 <= cfuel)%nat -> table_categories fuel cfuel k l prev sizes = Some (k', l') -> (k' <= N)%nat ->
  exists ac', generate_categories fuel cfuel ms k ac prev sizes = Some (inr ac') /\ table_ok ms k' ac' l' /\ same_sizes ac ac'.
Proof using Hms.
  intros HT Hf H HN. revert k ac l prev HT H. induction sizes as [|size sizes IH]; intros k ac l prev HT H.
  - injection H as <- <-. exists ac. split; [done|]. split; [done|apply same_sizes_refl].
  - cbn [table_categories generate_categories] in *.
    destruct (table_category fuel cfuel k l (prev + ALLOC_BLOCK_SIZE_GEN) size) as [[k1 l1]|] eqn:E1; [|done]. cbn [mbind option_bind] in H.
    pose proof (table_categories_count _ _ _ _ _ _ _ _ H).
    destruct (table_generate fuel cfuel k ac l _ size k1 l1 HT Hf E1 ltac:(lia)) as (ac1 & -> & HT1 & S1). cbn [mbind option_bind].
    destruct (IH _ _ _ _ HT1 H) as (ac' & E & T & S'). exists ac'. split; [done|]. split; [done|]. by eapply same_sizes_trans.
Qed.
End Table.

(** ** The first classes *)

Definition huge_class (run0 : Z * Z * Z) : alloc_class :=
  AClass 0 (class_flags HEADER_COMPACT 0) CHUNKSIZE HEADER_COMPACT CLASS_HUGE run0.1.1 run0.1.2 run0.2.

Definition empty_collection : alloc_class_collection :=
  Collection ALLOC_BLOCK_SIZE (replicate (Z.to_nat MAX_ALLOCATION_CLASSES) 0) MAX_RUN_SIZE (MAX_RUN_SIZE / ALLOC_BLOCK_SIZE + 1)
    (fun _ => 255) critnib_new false true ∅.

Lemma table_huge ms N run0 cfuel : mallocs_good N ms -> (0 < N)%nat ->
  exists ac, alloc_class_new cfuel (ms 0%nat) run0 (-1) empty_collection CLASS_HUGE HEADER_COMPACT CHUNKSIZE 0 1 =
      Some (ma_class (ms 0%nat), ac) /\ table_ok ms 1 ac [huge_class run0] /\ same_sizes empty_collection ac /\
    ac_ok ac ∅.
Proof.
  intros Hms HN. destruct (mg_class _ _ Hms 0 HN) as [H0 Hr]. destruct run0 as [[a b] c]. unfold alloc_class_new.
  rewrite (proj2 (Z.eqb_neq _ 0) H0). cbn [decide]. set (p := ma_class (ms 0%nat)) in *.
  eexists. split; [reflexivity|]. cbn [ac_store set_store]. rewrite insert_insert_eq. set (ac := set_aclasses _ _).
  assert (ac_ok ac ∅) as O.
  { constructor; try done.
    - intros i q Hq. cbn [ac aclasses set_aclasses] in Hq. apply list_lookup_insert_Some in Hq as [(<- & <- & _)|[_ Hq]].
      + right. right. eexists. split; [cbn; by rewrite lookup_insert_eq|done].
      + left. by apply lookup_replicate_1 in Hq as [-> _].
    - cbn. by rewrite lookup_insert_ne.
    - cbn. by rewrite lookup_insert_ne.
    - apply new_ok.
    - intros k q. rewrite lookup_empty. split; [done|]. intros (i & c' & _ & Hc' & Ht & _). cbn in Hc'.
      apply lookup_insert_Some in Hc' as [[_ <-]|[_ Hc']]; [done|by rewrite lookup_empty in Hc']. }
  split; [|split; [by repeat split|done]]. constructor.
  - exists [p]. split; [reflexivity|]. constructor; [|constructor]. split; [done|]. split; [by cbn; rewrite lookup_insert_eq|]. cbn. unfold CHUNKSIZE. lia.
  - by exists ∅.
  - intros x [c' Hc']. cbn in Hc'. apply lookup_insert_Some in Hc' as [[<- _]|[_ Hc']]; [by exists 0%nat; split; [lia|]|by rewrite lookup_empty in Hc'].
  - intros x [y Hy]. cbn in Hy. by rewrite lookup_empty in Hy.
  - intros x [y Hy]. cbn in Hy. by rewrite lookup_empty in Hy.
Qed.

(** Filling the map does not touch the slots. *)
Lemma fill_predefined_spec n i id ac : 0 <= i -> i + Z.of_nat n <= maps_size ac ->
  exists f, fill_predefined n i id ac = Some (set_size_map f ac) /\
    forall j, f j = if (i <=? j) && (j <? i + Z.of_nat n) then id else class_map_by_alloc_size ac j.
Proof.
  revert i ac. induction n as [|n IH]; intros i ac Hi Hn; cbn [fill_predefined].
  - exists (class_map_by_alloc_size ac). split; [by destruct ac|]. intros j. destruct (Z.leb_spec i j), (Z.ltb_spec j (i + Z.of_nat 0)); lia || done.
  - unfold size_map_set, size_map_at. rewrite (proj2 (Z.leb_le 0 i)), (proj2 (Z.ltb_lt i _)) by lia. cbn [andb mbind option_bind].
    set (ac1 := set_size_map _ ac). destruct (IH (i + 1) ac1 ltac:(lia) ltac:(cbn; lia)) as (f & -> & Hf). exists f. split; [done|].
    intros j. rewrite Hf. cbn [ac1 class_map_by_alloc_size set_size_map].
    destruct (Z.leb_spec (i + 1) j), (Z.ltb_spec j (i + 1 + Z.of_nat n)), (Z.leb_spec i j), (Z.ltb_spec j (i + Z.of_nat (S n))),
      (Z.eqb_spec j i); cbn [andb]; lia || done.
Qed.

Lemma largest_slot_spec n p rest i : p <> 0 -> Z.of_nat n <= i -> largest_slot (replicate n 0 ++ p :: rest) i = i - Z.of_nat n.
Proof.
  intros Hp. revert i. induction n as [|n IH]; intros i Hi; cbn [replicate app largest_slot].
  - rewrite (proj2 (Z.eqb_neq p 0) Hp), andb_false_r. lia.
  - rewrite (proj2 (Z.ltb_lt 0 i)) by lia. cbn [andb Z.eqb]. rewrite IH by lia. lia.
Qed.
