(* ===== verification/AllocClassDefault.v ===== *)
(** * The collection a new heap starts with *)
From stdpp Require Import base numbers list list_numbers gmap.
From Stdlib Require Import ZArith Lia Bool.
From S2P Require Import Prelude Pmem Container Critnib CritnibFacts CritnibOps CritnibSpec HeapLayout.
From S2P Require Import Memblock AllocClass AllocClassFacts AllocClassSize AllocClassNew.

Definition run_class_128 : alloc_class := new_class 1 HEADER_COMPACT MIN_UNIT_SIZE 0 1.

(** The table after the predefined classes; at most 100 steps per category, 1000
    steps to find a unit size. *)
Abbreviation generated run0 :=
  (table_categories 100 1000 2 [huge_class run0; run_class_128] FIRST_GENERATED_CLASS_SIZE (drop 1 category_sizes)).

(** The 53 run classes. *)
Definition default_runs : list alloc_class :=
  Eval vm_compute in default [] ((fun t => drop 1 t.2) <$> generated (0, 0, 0)).

Definition class_ok (c : alloc_class) : bool :=
  (1 <=? cl_unit_size c) && (cl_unit_size c <? 2 ^ 40) && bool_decide (cl_type c = CLASS_RUN) &&
  (RUN_UNIT_MAX_ALLOC <=? run_nallocs c) && (run_nallocs c <? 2 ^ 32).

Lemma generated_default run0 : generated run0 = Some (131%nat, huge_class run0 :: default_runs).
Proof. destruct run0 as [[a b] c]. vm_compute. reflexivity. Qed.

Lemma default_runs_ok : forallb class_ok default_runs = true /\ map cl_id default_runs = seqZ 1 53.
Proof. split; vm_compute; reflexivity. Qed.

(** ** The collection *)

Section Default.
Context (ms : nat -> mallocs) (N : nat) (Hms : mallocs_good N ms) (run0 : Z * Z * Z).

(** The result before the threshold for runs is set. *)
Lemma collection_generated fuel cfuel k l : (17 <= cfuel)%nat ->
  table_categories fuel cfuel 2 [huge_class run0; run_class_128] FIRST_GENERATED_CLASS_SIZE (drop 1 category_sizes) = Some (k, l) -> (k <= N)%nat ->
  exists ac, table_ok ms k ac l /\
  granularity ac = ALLOC_BLOCK_SIZE /\ maps_size ac = MAX_RUN_SIZE / ALLOC_BLOCK_SIZE + 1 /\
  (forall j, class_map_by_alloc_size ac j = if (0 <=? j) && (j <? 8) then 1 else 255) /\
  fail_on_missing_class ac = false /\ autogenerate_on_missing_class ac = true /\
  alloc_class_collection_new fuel cfuel true true true ms run0 =
    (p ← slot_at ac (largest_slot (rev (aclasses ac)) (MAX_ALLOCATION_CLASSES - 1));
     c ← ac_store ac !! p;
     let real_unit_max := if run_nallocs c <? RUN_UNIT_MAX_ALLOC then run_nallocs c else RUN_UNIT_MAX_ALLOC in
     let theoretical_run_max_size := u64 (cl_unit_size c * real_unit_max) in
     Some (inr (set_last_run (if theoretical_run_max_size <? MAX_RUN_SIZE then theoretical_run_max_size else MAX_RUN_SIZE) ac))).
Proof using Hms.
  intros Hcf Htab HN. pose proof (table_categories_count _ _ _ _ _ _ _ _ Htab) as HN2. unfold alloc_class_collection_new. cbn [negb andb]. fold empty_collection.
  destruct (table_huge ms N run0 cfuel Hms ltac:(lia)) as (ac1 & -> & T1 & S1 & _). cbn [mbind option_bind].
  rewrite (proj2 (Z.eqb_neq _ 0) (proj1 (mg_class _ _ Hms 0%nat ltac:(lia)))).
  destruct (table_new ms N Hms cfuel 1 ac1 [huge_class run0] MIN_UNIT_SIZE 1 [huge_class run0; run_class_128] T1 ltac:(lia) Hcf eq_refl)
    as (p & ac2 & -> & Hp & T2 & S2 & Hc & _). cbn [mbind option_bind]. rewrite (proj2 (Z.eqb_neq p 0) Hp), Hc. cbn [mbind option_bind].
  pose proof (same_sizes_trans _ _ _ S1 S2) as (G1 & G2 & G3 & G4 & G5 & G6). rewrite G1.
  destruct (fill_predefined_spec 8 0 1 ac2 ltac:(lia)) as (f & Ef & Hf); [rewrite G3; vm_compute; congruence|].
  change (Z.to_nat (FIRST_GENERATED_CLASS_SIZE / granularity empty_collection)) with 8%nat.
  change (cl_id (new_class (Z.of_nat (length [huge_class run0])) HEADER_COMPACT MIN_UNIT_SIZE 0 1)) with 1. rewrite Ef. cbn [mbind option_bind].
  assert (table_ok ms 2 (set_size_map f ac2) [huge_class run0; run_class_128]) as T3.
  { destruct T2 as [Q1 (M & [O1 O2 O3 O4 O5 O6 O7 O8]) Q3 Q4 Q5]. constructor; try done. by exists M. }
  destruct (table_generate_all ms N Hms fuel cfuel 2 _ _ _ _ _ _ T3 Hcf Htab HN) as (ac & E & T & (Y1 & Y2 & Y3 & Y4 & Y5 & Y6)).
  rewrite E. cbn [mbind option_bind]. exists ac.
  split; [done|]. split; [rewrite Y1; exact G1|]. split; [rewrite Y3; exact G3|].
  split; [|split; [rewrite Y5; exact G5|split; [rewrite Y6; exact G6|done]]].
  intros j. rewrite Y4. cbn [class_map_by_alloc_size set_size_map]. rewrite Hf, G4. done.
Qed.

Lemma table_largest k ac l c : table_ok ms k ac (l ++ [c]) -> Z.of_nat (length l) < 255 ->
  exists p, slot_at ac (largest_slot (rev (aclasses ac)) (MAX_ALLOCATION_CLASSES - 1)) = Some p /\ ac_store ac !! p = Some c.
Proof using.
  intros [(ps & E & HF) _ _ _ _] Hl. apply Forall2_app_inv_r in HF as (ps1 & ps2 & H1 & H2 & ->).
  apply Forall2_cons_inv_r in H2 as (p & ps3 & (Hp & Hc & _) & H3 & ->). apply Forall2_nil_inv_r in H3 as ->.
  pose proof (Forall2_length _ _ _ H1) as Hlen. exists p. split; [|done].
  rewrite E, rev_app_distr, (rev_alt (replicate _ _)). fold (reverse (replicate (255 - length (ps1 ++ [p])) 0)).
  rewrite reverse_replicate, rev_app_distr. cbn [rev app]. rewrite length_app. cbn [length].
  rewrite largest_slot_spec by (done || unfold MAX_ALLOCATION_CLASSES; lia).
  replace (MAX_ALLOCATION_CLASSES - 1 - Z.of_nat (255 - (length ps1 + 1))) with (Z.of_nat (length ps1)) by (unfold MAX_ALLOCATION_CLASSES; lia).
  rewrite slot_at_nat, E. rewrite <- app_assoc. apply list_lookup_middle. done.
Qed.

Lemma table_lookup k ac l i p : table_ok ms k ac l -> aclasses ac !! i = Some p ->
  p = 0 \/ exists c, l !! i = Some c /\ p <> 0 /\ ac_store ac !! p = Some c.
Proof using.
  intros [(ps & E & HF) _ _ _ _] Hi. rewrite E in Hi. apply lookup_app_Some in Hi as [Hi|[_ Hi]].
  - right. destruct (Forall2_lookup_l _ _ _ _ _ HF Hi) as (c & Hc & Hp & Hs & _). by exists c.
  - left. by apply lookup_replicate_1 in Hi as [-> _].
Qed.

Lemma table_slot k ac l i c : table_ok ms k ac l -> l !! i = Some c ->
  exists p, aclasses ac !! i = Some p /\ p <> 0 /\ ac_store ac !! p = Some c.
Proof using.
  intros [(ps & E & HF) _ _ _ _] Hi. destruct (Forall2_lookup_r _ _ _ _ _ HF Hi) as (p & Hp & H0 & Hc & _). exists p.
  rewrite E, lookup_app_l by (by eapply lookup_lt_Some). done.
Qed.

Lemma default_class i c : (huge_class run0 :: default_runs) !! i = Some c -> class_wf c /\ cl_id c = Z.of_nat i /\
  (cl_type c = CLASS_RUN -> RUN_UNIT_MAX_ALLOC <= run_nallocs c).
Proof using.
  destruct default_runs_ok as [Hok Hid]. destruct i as [|i].
  - intros [= <-]. split; [constructor; cbn; [unfold CHUNKSIZE; lia|done|done]|]. split; [done|]. done.
  - intros Hi. change (default_runs !! i = Some c) in Hi. rewrite forallb_forall in Hok. specialize (Hok c ltac:(apply list_elem_of_In; by eapply list_elem_of_lookup_2)).
    unfold class_ok in Hok. repeat (apply andb_true_iff in Hok as [Hok ?]). apply Z.leb_le in Hok. apply Z.ltb_lt in H.
    apply Z.leb_le in H0. apply bool_decide_eq_true in H1. apply Z.ltb_lt in H2. unfold RUN_UNIT_MAX_ALLOC in *.
    assert (map cl_id default_runs !! i = Some (cl_id c)) as Hm by (by rewrite list_lookup_fmap, Hi).
    rewrite Hid in Hm. apply lookup_seqZ in Hm as [Hm _].
    split; [constructor; [lia|lia|congruence]|]. split; [lia|lia].
Qed.

(** The table gives the invariant of the size map. *)
Lemma table_sizes k ac l : l = huge_class run0 :: default_runs -> table_ok ms k ac l -> granularity ac = ALLOC_BLOCK_SIZE ->
  maps_size ac = MAX_RUN_SIZE / ALLOC_BLOCK_SIZE + 1 ->
  (forall j, class_map_by_alloc_size ac j = if (0 <=? j) && (j <? 8) then 1 else 255) ->
  sizes_ok (set_last_run MAX_RUN_SIZE ac).
Proof using.
  intros El HT Hg Hm Hmap. destruct (to_ok _ _ _ _ HT) as (M & O). constructor; try done.
  - exact (ok_len _ _ O).
  - intros i p Hi. destruct (table_lookup k ac l i p HT Hi) as [->|(c & Hc & Hp & Hs)]; [by left|]. right. exists c.
    rewrite El in Hc. destruct (default_class i c Hc) as (Hwf & Hid & _). done.
  - destruct (table_slot k ac l 0 (huge_class run0) HT) as (p & Hp & H0 & Hs); [by rewrite El|]. by exists p, (huge_class run0).
  - cbn [class_map_by_alloc_size maps_size set_last_run]. intros i Hi. rewrite Hmap.
    destruct (Z.leb_spec 0 i), (Z.ltb_spec i 8); cbn [andb]; [|by left..]. right.
    destruct (table_slot k ac l 1 run_class_128 HT) as (p & Hp & H0' & Hs); [rewrite El; vm_compute; reflexivity|].
    exists p, run_class_128. split; [exact Hp|]. split; [done|]. split; [done|]. split; [done|]. intros _.
    change ((ALLOC_BLOCK_SIZE * i + 16 - 1) / 128 + 1 <= 8). unfold ALLOC_BLOCK_SIZE.
    assert ((16 * i + 16 - 1) / 128 <= 7); [|lia]. apply Z.div_le_upper_bound; lia.
Qed.

Lemma collection_default fuel cfuel k : (17 <= cfuel)%nat ->
  table_categories fuel cfuel 2 [huge_class run0; run_class_128] FIRST_GENERATED_CLASS_SIZE (drop 1 category_sizes) =
    Some (k, huge_class run0 :: default_runs) -> (k <= N)%nat ->
  exists ac M, alloc_class_collection_new fuel cfuel true true true ms run0 = Some (inr ac) /\
    ac_ok ac M /\ sizes_ok ac /\ classes_of ac (aclasses ac) = huge_class run0 :: default_runs /\
    last_run_max_size ac = MAX_RUN_SIZE /\ fail_on_missing_class ac = false /\ autogenerate_on_missing_class ac = true /\
    table_ok ms k ac (huge_class run0 :: default_runs) /\
    (forall j, class_map_by_alloc_size ac j = if (0 <=? j) && (j <? 8) then 1 else 255) /\
    forall p, p ∈ aclasses ac -> p <> 0 -> exists c, ac_store ac !! p = Some c /\
      (cl_type c = CLASS_RUN -> RUN_UNIT_MAX_ALLOC <= run_nallocs c).
Proof using Hms.
  intros Hcf Htab HN. destruct (collection_generated fuel cfuel k _ Hcf Htab HN) as (ac & HT & Hg & Hm & Hmap & Hf & Ha & ->).
  set (l := huge_class run0 :: default_runs) in *.
  assert (l = removelast l ++ [AClass 53 9 349440 HEADER_COMPACT CLASS_RUN 16 0 12]) as Elast by (vm_compute; reflexivity).
  pose proof HT as HT'. rewrite Elast in HT'. destruct (table_largest k ac _ _ HT') as (p & -> & Hp); [vm_compute; reflexivity|].
  cbn [mbind option_bind]. rewrite Hp. cbn [mbind option_bind].
  change (if _ <? MAX_RUN_SIZE then _ else MAX_RUN_SIZE) with MAX_RUN_SIZE.
  destruct (to_ok _ _ _ _ HT) as (M & O). exists (set_last_run MAX_RUN_SIZE ac), M. split; [done|].
  split; [by destruct O|]. split; [by apply (table_sizes k ac l)|]. split; [apply (table_classes _ _ _ _ HT)|].
  split; [done|]. split; [done|]. split; [done|].
  split; [destruct HT; constructor; try done; exists M; by destruct O|]. split; [exact Hmap|]. intros q Hq H0. apply list_elem_of_lookup in Hq as [i Hi].
  destruct (table_lookup k ac l i q HT Hi) as [?|(c & Hc & _ & Hs)]; [done|]. exists c. split; [done|].
  apply (default_class i c Hc).
Qed.
End Default.
