(* ===== verification/AllocClassSpec.v ===== *)
(** * What allocation classes promise *)
From stdpp Require Import base numbers list list_numbers gmap.
From Stdlib Require Import ZArith Lia Bool.
From S2P Require Import Prelude Pmem Container Critnib CritnibFacts CritnibOps CritnibSpec HeapLayout.
From S2P Require Import Memblock AllocClass AllocClassFacts AllocClassSize AllocClassNew.
From S2P Require Import AllocClassDefault.

(** ** Lookup by geometry *)

(** alloc_class_by_run finds the run class in a slot, and nothing else. *)
Lemma by_run_map ac M fuel unit_size flags size_idx : ac_ok ac M -> (18 <= fuel)%nat ->
  alloc_class_by_run fuel ac unit_size flags size_idx = Some (default 0 (M !! run_class_key ac unit_size flags size_idx)).
Proof.
  intros O Hf. unfold alloc_class_by_run. apply get_map; [apply (ok_critnib _ _ O)| |done].
  rewrite (ok_count _ _ O). unfold DELETED_LIFE. lia.
Qed.

Lemma by_run_slot ac M fuel i p c : ac_ok ac M -> (18 <= fuel)%nat ->
  aclasses ac !! i = Some p -> ac_store ac !! p = Some c -> cl_type c = CLASS_RUN ->
  alloc_class_by_run fuel ac (cl_unit_size c) (cl_flags c) (run_size_idx c) = Some p.
Proof.
  intros O Hf Hi Hc Ht. rewrite (by_run_map ac M) by done. change (run_class_key _ _ _ _) with (class_key ac c).
  by rewrite (proj2 (ok_map _ _ O (class_key ac c) p)) by (by exists i, c).
Qed.

(** alloc_class_new of a run class on a well-formed collection: on success the
    class is in the first free slot (or the reserved one it was given), every
    other slot and object is unchanged, the collection is well-formed, and
    alloc_class_by_run finds the class by its unit size, flags and size; on failure
    (an allocation failed, the geometry is taken, no slot is free) the collection
    is well-formed with the same classes and the reservation is released. *)
Theorem alloc_class_new_registers fuel ma run0 id ac M htype unit_size alignment size_idx :
  ac_ok ac M -> mallocs_ok ac ma -> id_ok ac id -> (18 <= fuel)%nat ->
  exists r ac', alloc_class_new fuel ma run0 id ac CLASS_RUN htype unit_size alignment size_idx = Some (r, ac') /\
  let cl i := new_class i htype unit_size alignment size_idx in
  let k := class_key ac (cl 0) in
  ((r = ma_class ma /\ r <> 0 /\ M !! k = None /\ ac_ok ac' (<[k := r]> M) /\ exists i : nat,
      (id = Z.of_nat i \/ (id < 0 /\ aclasses ac !! i = Some 0 /\ forall j, (j < i)%nat -> aclasses ac !! j <> Some 0)) /\
      aclasses ac' = <[i := r]> (aclasses ac) /\ ac_store ac' = <[r := cl (Z.of_nat i)]> (ac_store ac) /\
      alloc_class_by_id ac' (Z.of_nat i) = Some r /\
      alloc_class_by_run fuel ac' unit_size (class_flags htype alignment) (run_size_idx (cl 0)) = Some r) \/
   (r = 0 /\ ac_ok ac' M /\ aclasses ac' = cleared id (aclasses ac) /\
    (ma_class ma = 0 \/ ma_leaf ma = 0 \/ ma_node ma = 0 \/ is_Some (M !! k) \/
     (id < 0 /\ forall i, aclasses ac !! i <> Some 0)))).
Proof.
  intros O Hma Hid Hf. destruct (class_new_spec fuel ma run0 id ac M htype unit_size alignment size_idx O Hma Hid ltac:(lia))
    as (r & ac' & E & Ss & G & R). exists r, ac'. split; [done|]. cbv zeta.
  set (cl := fun i => new_class i htype unit_size alignment size_idx) in *.
  assert (forall i, class_key ac (cl i) = class_key ac (cl 0) /\ cl_type (cl i) = CLASS_RUN /\ cl_unit_size (cl i) = unit_size /\
    cl_flags (cl i) = class_flags htype alignment /\ run_size_idx (cl i) = run_size_idx (cl 0)) as Hcl.
  { intros i. unfold cl, new_class. by destruct (memblock_run_bitmap _ _ _ _ _). }
  destruct R as [(-> & H0 & i & Hi & Hlt & HM & O' & Ea & Es)|(-> & O' & Ea & R)].
  - left. destruct (Hcl (Z.of_nat i)) as (Ek & Et & Eu & Ef & Ei). change (new_class (Z.of_nat i) _ _ _ _) with (cl (Z.of_nat i)) in *.
    rewrite Ek in *. split; [done|]. split; [done|]. split; [done|]. split; [done|]. exists i. split; [done|]. split; [done|]. split; [done|].
    assert (aclasses ac' !! i = Some (ma_class ma)) as Hs.
    { rewrite Ea. apply list_lookup_insert_eq. by rewrite (ok_len _ _ O). }
    split; [unfold alloc_class_by_id; by rewrite slot_at_nat|]. change (new_class 0 htype unit_size alignment size_idx) with (cl 0).
    rewrite <- Eu, <- Ef, <- Ei at 1. eapply by_run_slot; [done|done|done| |done]. by rewrite Es, lookup_insert_eq.
  - right. split; [done|]. split; [done|]. split; [done|]. change (new_class 0 htype unit_size alignment size_idx) with (cl 0) in R. tauto.
Qed.


(** A bump allocator. *)
Definition ex_ms (k : nat) : mallocs := Mallocs (65536 + 64 * Z.of_nat k) (16 + 16 * Z.of_nat k) (16 + 16 * Z.of_nat k).

Lemma ex_ms_upto n : (n <= 200)%nat -> mallocs_good n ex_ms.
Proof.
  intros Hn. assert (forall k, (k < n)%nat -> good (16 + 16 * Z.of_nat k)) as Hg.
  { intros k Hk. split; [lia|]. replace (16 + 16 * Z.of_nat k) with ((8 + 8 * Z.of_nat k) * 2) by lia. apply Z.mod_mul. lia. }
  constructor; [|done|done|]; cbn; unfold ACLASS_RESERVED; lia.
Qed.
Definition ex_ms_good : mallocs_good 131 ex_ms := ex_ms_upto 131 ltac:(lia).

Lemma alloc_class_new_registers_witness :
  exists ac r ac', alloc_class_new 18 (ex_ms 1) (0, 0, 0) (-1) ac CLASS_RUN HEADER_COMPACT 128 0 1 = Some (r, ac') /\
    r = 65600 /\ alloc_class_by_run 18 ac' 128 (class_flags HEADER_COMPACT 0) 1 = Some r.
Proof.
  destruct (table_huge ex_ms 131 (0, 0, 0) 18 ex_ms_good ltac:(lia)) as (ac & _ & HT & _ & O). exists ac.
  destruct (alloc_class_new_registers 18 (ex_ms 1) (0, 0, 0) (-1) ac ∅ HEADER_COMPACT 128 0 1 O
    (table_mallocs ex_ms 131 ex_ms_good 1 ac _ HT ltac:(lia)) ltac:(left; lia) ltac:(lia)) as (r & ac' & E & R).
  exists r, ac'. split; [exact E|].
  destruct R as [(-> & _ & _ & _ & i & _ & _ & _ & _ & Hr)|(_ & _ & _ & [R|[R|[R|[R|[_ R]]]]])]; [split; [reflexivity|exact Hr]|discriminate R..| |].
  - rewrite lookup_empty in R. destruct R as [? R]. discriminate R.
  - destruct (R 1%nat). apply (table_free ex_ms 1 ac _ HT). cbn. lia.
Defined.

(** ** Requests *)

(** alloc_class_find_min_frag returns the class in the slots that wastes least
    for the request (rounding to whole units, plus the unusable end of a run spread
    over its units) among those with headers that need at most eight units of a
    run. *)
Theorem alloc_class_find_min_frag_optimal ac n : sizes_ok ac -> 1 <= n < 2 ^ 31 ->
  exists p c, alloc_class_find_min_frag ac n = Some p /\ candidate ac n (aclasses ac) p c /\
    forall q c', candidate ac n (aclasses ac) q c' -> class_cost c n <= class_cost c' n.
Proof. apply min_frag_default. Qed.

(** C36. alloc_class_by_alloc_size answers every request of at least one byte, from
    the map, by searching a class and mapping it, or with the default class: the
    class is in a slot, the units taken hold the request and its header with less
    than a unit to spare, at most eight units of a run; repeating the request gives
    the same class, and the map stays consistent.  NULL is returned only when the
    collection is set to fail on unmapped sizes. *)
Theorem alloc_class_by_alloc_size_serves ac size : sizes_ok ac -> 1 <= size < 2 ^ 49 ->
  exists p ac', alloc_class_by_alloc_size ac size = Some (p, ac') /\ sizes_ok ac' /\
    aclasses ac' = aclasses ac /\ ac_store ac' = ac_store ac /\ alloc_class_by_alloc_size ac' size = Some (p, ac') /\
    ((p = 0 /\ fail_on_missing_class ac = true) \/ exists c, p ∈ aclasses ac /\ ac_store ac !! p = Some c /\ serves c size).
Proof. apply by_alloc_size_spec. Qed.

(** With eight units in every run, every request gets its units. *)
Lemma request_units ac M size : ac_ok ac M -> sizes_ok ac -> fail_on_missing_class ac = false -> 1 <= size < 2 ^ 49 ->
  (forall p, p ∈ aclasses ac -> p <> 0 -> exists c, ac_store ac !! p = Some c /\ (cl_type c = CLASS_RUN -> RUN_UNIT_MAX_ALLOC <= run_nallocs c)) ->
  exists p c ac', alloc_class_by_alloc_size ac size = Some (p, ac') /\ ac_store ac !! p = Some c /\ serves c size /\
    alloc_class_calc_size_idx c size = units_of c size.
Proof.
  intros O HS Hf Hs Hn.
  destruct (by_alloc_size_spec ac size HS Hs) as (p & ac' & E' & _ & _ & _ & _ & [[_ Hfail]|(c & Hin & Hc & Hserv)]); [congruence|].
  exists p, c, ac'. split; [done|]. split; [done|]. split; [done|]. pose proof Hserv as (_ & _ & H8 & ->).
  destruct (decide (cl_type c = CLASS_RUN /\ run_nallocs c < units_of c size)) as [[Ht Hlt]|]; [|done]. exfalso.
  specialize (H8 Ht). destruct (Hn p Hin) as (c' & Hc' & Hge).
  { intros ->. rewrite (ok_null _ _ O) in Hc. done. }
  replace c' with c in * by congruence. specialize (Hge Ht). lia.
Qed.

(** C37. alloc_class_collection_new, given an allocator that does not fail, builds
    the same 54 classes whatever addresses it gets; every run class is found by its
    geometry (the check of the debug build), and every request is answered with a
    class whose runs have enough units for it, so that alloc_class_calc_size_idx
    returns a number of units and never -1. *)
Theorem alloc_class_collection_new_default ms run0 : mallocs_good 131 ms ->
  exists ac M, alloc_class_collection_new 100 1000 true true true ms run0 = Some (inr ac) /\ ac_ok ac M /\ sizes_ok ac /\
    classes_of ac (aclasses ac) = huge_class run0 :: default_runs /\
    (forall i p c, aclasses ac !! i = Some p -> ac_store ac !! p = Some c -> cl_type c = CLASS_RUN ->
       alloc_class_by_run 18 ac (cl_unit_size c) (cl_flags c) (run_size_idx c) = Some p) /\
    (forall size, 1 <= size < 2 ^ 49 -> exists p c ac', alloc_class_by_alloc_size ac size = Some (p, ac') /\
       ac_store ac !! p = Some c /\ serves c size /\ alloc_class_calc_size_idx c size = units_of c size).
Proof.
  intros Hms. destruct (collection_default ms 131 Hms run0 100 1000 131 ltac:(lia) (generated_default run0) ltac:(lia))
    as (ac & M & E & O & HS & Ec & _ & Hf & _ & _ & _ & Hn).
  exists ac, M. split; [exact E|]. split; [exact O|]. split; [exact HS|]. split; [exact Ec|]. split.
  - intros i p c Hi Hc Ht. by eapply by_run_slot.
  - intros size Hs. by apply (request_units ac M).
Qed.

(** The collection of a new heap, for the witnesses. *)
Lemma ex_collection : exists ac M, alloc_class_collection_new 100 1000 true true true ex_ms (0, 0, 0) = Some (inr ac) /\
  ac_ok ac M /\ sizes_ok ac /\ table_ok ex_ms 131 ac (huge_class (0, 0, 0) :: default_runs) /\
  last_run_max_size ac = MAX_RUN_SIZE /\ class_map_by_alloc_size ac 63 = 255 /\
  fail_on_missing_class ac = false /\ autogenerate_on_missing_class ac = true.
Proof.
  destruct (collection_default ex_ms 131 ex_ms_good (0, 0, 0) 100 1000 131 ltac:(lia) (generated_default (0, 0, 0)) ltac:(lia))
    as (ac & M & E & O & HS & _ & Hl & Hf & Ha & HT & Hm & _). exists ac, M.
  split; [exact E|]. split; [exact O|]. split; [exact HS|]. split; [exact HT|]. split; [exact Hl|]. split; [exact (Hm 63)|]. split; [exact Hf|exact Ha].
Qed.

Lemma alloc_class_find_min_frag_optimal_witness :
  exists ac M p c, ac_ok ac M /\ alloc_class_find_min_frag ac 1000 = Some p /\ candidate ac 1000 (aclasses ac) p c.
Proof.
  destruct ex_collection as (ac & M & _ & O & HS & _).
  destruct (alloc_class_find_min_frag_optimal ac 1000 HS ltac:(lia)) as (p & c & E & H & _).
  exists ac, M, p, c. split; [exact O|]. split; [exact E|exact H].
Defined.

Lemma alloc_class_by_alloc_size_serves_witness :
  exists ac M p ac', ac_ok ac M /\ alloc_class_by_alloc_size ac 1000 = Some (p, ac') /\ alloc_class_by_alloc_size ac' 1000 = Some (p, ac').
Proof.
  destruct ex_collection as (ac & M & _ & O & HS & _).
  destruct (alloc_class_by_alloc_size_serves ac 1000 HS ltac:(lia)) as (p & ac' & E & _ & _ & _ & E' & _).
  exists ac, M, p, ac'. split; [exact O|]. split; [exact E|exact E'].
Defined.

Lemma alloc_class_collection_new_default_witness :
  exists ac, alloc_class_collection_new 100 1000 true true true ex_ms (0, 0, 0) = Some (inr ac) /\ sizes_ok ac.
Proof.
  destruct (alloc_class_collection_new_default ex_ms (0, 0, 0) ex_ms_good) as (ac & M & E & _ & HS & _).
  exists ac. split; [exact E|exact HS].
Defined.

(** ** Errors *)

(** alloc_class_delete leaves the class in the critnib: after it,
    alloc_class_by_run still returns the pointer to the object that was freed. *)
Theorem alloc_class_delete_dangles ac M fuel i p c : ac_ok ac M -> (18 <= fuel)%nat ->
  aclasses ac !! i = Some p -> ac_store ac !! p = Some c -> cl_type c = CLASS_RUN ->
  exists ac', alloc_class_delete ac p = Some ac' /\ alloc_class_by_id ac' (cl_id c) = Some 0 /\
    ac_store ac' !! p = None /\ alloc_class_by_run fuel ac' (cl_unit_size c) (cl_flags c) (run_size_idx c) = Some p.
Proof.
  intros O Hf Hi Hc Ht. assert (cl_id c = Z.of_nat i) as Hid.
  { destruct (ok_slots _ _ O i p Hi) as [->|[->|(c' & Hc' & Hid)]]; [rewrite (ok_null _ _ O) in Hc; done|
      rewrite (ok_reserved _ _ O) in Hc; done|congruence]. }
  unfold alloc_class_delete. rewrite Hc. cbn [mbind option_bind]. rewrite Hid. rewrite (slot_set_ok _ _ p) by (by rewrite slot_at_nat).
  cbn [mbind option_bind]. eexists. split; [done|]. pose proof (lookup_lt_Some _ _ _ Hi) as Hlt. rewrite Nat2Z.id.
  split; [|split; [cbn; by rewrite lookup_delete_eq|exact (by_run_slot ac M fuel i p c O Hf Hi Hc Ht)]].
  unfold alloc_class_by_id. rewrite slot_at_nat. cbn. by apply list_lookup_insert_eq.
Qed.

(** The slots from the last one down, when those above slot [i] are free. *)
Lemma slots_split (l : list Z) i p : length l = 255%nat -> l !! i = Some p -> (forall j, (i < j < 255)%nat -> l !! j = Some 0) ->
  rev l = replicate (254 - i) 0 ++ p :: rev (take i l).
Proof.
  intros Hl Hi Hhi. pose proof (lookup_lt_Some _ _ _ Hi) as Hlt.
  assert (drop (S i) l = replicate (254 - i) 0) as Ed.
  { apply list_eq. intros j. rewrite lookup_drop. destruct (decide (j < 254 - i)%nat).
    - rewrite Hhi, lookup_replicate_2 by lia. done.
    - rewrite (lookup_ge_None_2 l), (lookup_ge_None_2 (replicate _ _)) by (rewrite ?length_replicate, ?Hl; lia). done. }
  rewrite <- (take_drop_middle l i p Hi) at 1. rewrite Ed, rev_app_distr. cbn [rev]. rewrite <- app_assoc, (rev_alt (replicate _ _)).
  fold (reverse (replicate (254 - i) 0)). by rewrite reverse_replicate.
Qed.

Lemma min_frag_reserved ac n m rest : ac_store ac !! ACLASS_RESERVED = None ->
  find_min_frag_loop ac n (replicate m 0 ++ ACLASS_RESERVED :: rest) 0 UINT64_MAX = None.
Proof.
  intros Hr. induction m as [|m IH]; cbn [replicate app find_min_frag_loop]; unfold class_at.
  - change (ACLASS_RESERVED =? 0) with false. by rewrite Hr.
  - cbn [Z.eqb mbind option_bind]. exact IH.
Qed.

(** The searches skip free slots but not reserved ones.  While a new class is
    being created (its slot is reserved and its object not yet stored), a request
    of a size that is not mapped yet dereferences ACLASS_RESERVED. *)
Theorem alloc_class_reserved_dereferenced ac size (i : nat) :
  sizes_ok ac -> ac_store ac !! ACLASS_RESERVED = None ->
  aclasses ac !! i = Some 0 -> (forall j, (i < j < 255)%nat -> aclasses ac !! j = Some 0) ->
  1 <= size < last_run_max_size ac -> class_map_by_alloc_size ac (SIZE_TO_CLASS_MAP_INDEX size ALLOC_BLOCK_SIZE) = MAX_ALLOCATION_CLASSES ->
  fail_on_missing_class ac = false -> autogenerate_on_missing_class ac = true ->
  exists ac', alloc_class_reserve ac (Z.of_nat i) = Some (0, ac') /\ alloc_class_by_alloc_size ac' size = None.
Proof.
  intros HS Hr Hi Hhi Hsz Hm Hf Ha. unfold alloc_class_reserve. rewrite (slot_cas_hit _ _ 0) by (by rewrite slot_at_nat).
  cbn [mbind option_bind]. rewrite Nat2Z.id. eexists. split; [done|]. set (ac' := set_aclasses _ ac).
  pose proof (lookup_lt_Some _ _ _ Hi) as Hlt. rewrite (so_len _ HS) in Hlt.
  pose proof (slots_split (aclasses ac') i ACLASS_RESERVED) as Ea. cbn [ac' aclasses set_aclasses] in Ea.
  specialize (Ea ltac:(rewrite length_insert; apply (so_len _ HS)) ltac:(apply list_lookup_insert_eq; rewrite (so_len _ HS); lia)).
  specialize (Ea ltac:(intros j Hj; rewrite list_lookup_insert_ne by lia; apply Hhi; lia)).
  pose proof (so_last _ HS) as Hl. destruct (size_index size ltac:(lia)) as (_ & Hx & _).
  unfold alloc_class_by_alloc_size. change (last_run_max_size ac') with (last_run_max_size ac). rewrite (proj2 (Z.ltb_lt _ _)) by lia.
  change (granularity ac') with (granularity ac). rewrite (so_gran _ HS).
  unfold size_map_at. change (maps_size ac') with (maps_size ac). rewrite (so_maps _ HS), (proj2 (Z.leb_le 0 _)), (proj2 (Z.ltb_lt _ _)) by lia.
  cbn [andb mbind option_bind]. change (class_map_by_alloc_size ac') with (class_map_by_alloc_size ac). rewrite Hm, Z.eqb_refl.
  change (fail_on_missing_class ac') with (fail_on_missing_class ac). change (autogenerate_on_missing_class ac') with (autogenerate_on_missing_class ac).
  rewrite Hf, Ha. unfold alloc_class_assign_by_size, alloc_class_find_min_frag. cbn [ac' aclasses set_aclasses]. rewrite Ea.
  by rewrite min_frag_reserved.
Qed.

Lemma alloc_class_delete_dangles_witness :
  exists ac p ac', alloc_class_delete ac p = Some ac' /\ ac_store ac' !! p = None /\
    alloc_class_by_run 18 ac' 128 (class_flags HEADER_COMPACT 0) 1 = Some p.
Proof.
  destruct ex_collection as (ac & M & _ & O & _ & HT & _).
  destruct (table_slot ex_ms 131 ac _ 1 run_class_128 HT ltac:(vm_compute; reflexivity)) as (p & Hp & _ & Hc).
  destruct (alloc_class_delete_dangles ac M 18 1 p run_class_128 O ltac:(lia) Hp Hc ltac:(vm_compute; reflexivity)) as (ac' & E & _ & Hn & Hr).
  exists ac, p, ac'. split; [exact E|]. split; [exact Hn|exact Hr].
Defined.

Lemma table_above ms k ac l i : table_ok ms k ac l -> (length l <= i < 255)%nat -> aclasses ac !! i = Some 0.
Proof.
  intros [(ps & E & HF) _ _ _ _] Hi. rewrite <- (Forall2_length _ _ _ HF) in Hi. rewrite E, lookup_app_r by lia. apply lookup_replicate_2. lia.
Qed.

Lemma alloc_class_reserved_dereferenced_witness :
  exists ac ac', sizes_ok ac /\ alloc_class_reserve ac 54 = Some (0, ac') /\ alloc_class_by_alloc_size ac' 1000 = None.
Proof.
  destruct ex_collection as (ac & M & _ & O & HS & HT & Hl & Hm & Hf & Ha).
  assert (length (huge_class (0, 0, 0) :: default_runs) = 54%nat) as Hlen by (vm_compute; reflexivity).
  destruct (alloc_class_reserved_dereferenced ac 1000 54 HS (ok_reserved _ _ O)) as (ac' & E & H).
  - apply (table_above _ _ _ _ _ HT). rewrite Hlen. lia.
  - intros j Hj. apply (table_above _ _ _ _ _ HT). rewrite Hlen. lia.
  - rewrite Hl. unfold MAX_RUN_SIZE, CHUNKSIZE. lia.
  - exact Hm.
  - exact Hf.
  - exact Ha.
  - exists ac, ac'. split; [exact HS|]. split; [exact E|exact H].
Defined.

(** ** Classes with few units *)

Lemma min_frag_exact ac n m p c rest : p <> 0 -> ac_store ac !! p = Some c -> frag_skips c n = false -> frag_waste c n = Some (inl tt) ->
  find_min_frag_loop ac n (replicate m 0 ++ p :: rest) 0 UINT64_MAX = Some p.
Proof.
  intros H0 Hc Hs Hw. induction m as [|m IH]; cbn [replicate app find_min_frag_loop]; unfold class_at.
  - rewrite (proj2 (Z.eqb_neq p 0) H0), Hc. cbn [mbind option_bind]. by rewrite Hs, Hw.
  - cbn [Z.eqb mbind option_bind]. exact IH.
Qed.

(** The class an application gets for units of 100000 bytes, two in a run. *)
Definition user_class : alloc_class := new_class 54 HEADER_COMPACT 100000 0 1.

(** The search does not look at the number of units of a run.  An application
    that adds a class of two units of 100000 bytes to the default classes makes
    requests of 499984 bytes fail: they are answered with that class, which cannot
    provide the five units (alloc_class_calc_size_idx gives -1), although a default
    class served them before. *)
Theorem alloc_class_small_run_unsuitable ms run0 : mallocs_good 132 ms ->
  exists ac p0 c0 ac0 p ac' ac'', alloc_class_collection_new 100 1000 true true true ms run0 = Some (inr ac) /\
    alloc_class_by_alloc_size ac 499984 = Some (p0, ac0) /\ ac_store ac !! p0 = Some c0 /\ 0 < alloc_class_calc_size_idx c0 499984 /\
    alloc_class_new 18 (ms 131%nat) (0, 0, 0) (-1) ac CLASS_RUN HEADER_COMPACT 100000 0 1 = Some (p, ac') /\
    alloc_class_by_alloc_size ac' 499984 = Some (p, ac'') /\ ac_store ac' !! p = Some user_class /\
    alloc_class_calc_size_idx user_class 499984 = -1.
Proof.
  intros Hms. destruct (collection_default ms 132 Hms run0 100 1000 131 ltac:(lia) (generated_default run0) ltac:(lia))
    as (ac & M & E & O & HS & _ & Hl & Hf & Ha & HT & Hmap & Hn).
  destruct (request_units ac M 499984 O HS Hf ltac:(lia) Hn) as (p0 & c0 & ac0 & E0 & Hc0 & (Hu & _) & Hcalc).
  destruct (table_new ms 132 Hms 18 131 ac _ 100000 1 ((huge_class run0 :: default_runs) ++ [user_class]) HT ltac:(lia) ltac:(lia))
    as (p & ac' & En & Hp & HT' & (S1 & S2 & S3 & S4 & S5 & S6) & Hc & Hslot); [vm_compute; reflexivity|].
  change (ac_store ac' !! p = Some user_class) in Hc.
  assert (length (huge_class run0 :: default_runs) = 54%nat) as Hlen by (vm_compute; reflexivity). rewrite Hlen in Hslot.
  destruct (to_ok _ _ _ _ HT') as (M' & O').
  assert (alloc_class_find_min_frag ac' 499984 = Some p) as Ef.
  { unfold alloc_class_find_min_frag. rewrite (slots_split _ 54 p (ok_len _ _ O') Hslot).
    - apply (min_frag_exact ac' 499984 _ p user_class); [done|done|vm_compute; reflexivity..].
    - intros j Hj. apply (table_above _ _ _ _ _ HT'). rewrite length_app, Hlen. cbn [length]. lia. }
  assert (class_map_by_alloc_size ac' 31249 = 255) as Hun by (rewrite S4; apply Hmap).
  assert (exists ac'', alloc_class_by_alloc_size ac' 499984 = Some (p, ac'')) as (ac'' & E').
  { unfold alloc_class_by_alloc_size, alloc_class_assign_by_size, size_map_set, size_map_at.
    rewrite S1, (so_gran _ HS), S2, Hl, S3, (so_maps _ HS), S5, S6, Hf, Ha.
    change (SIZE_TO_CLASS_MAP_INDEX 499984 ALLOC_BLOCK_SIZE) with 31249. rewrite Hun. cbn -[Z.mul alloc_class_find_min_frag].
    change (u64 (31249 * ALLOC_BLOCK_SIZE)) with 499984. rewrite Ef. cbn [mbind option_bind]. rewrite Hc. cbn [mbind option_bind].
    eexists. reflexivity. }
  exists ac, p0, c0, ac0, p, ac', ac''. split; [exact E|]. split; [exact E0|]. split; [exact Hc0|]. split; [rewrite Hcalc; lia|].
  split; [exact En|]. split; [exact E'|]. split; [exact Hc|]. vm_compute. reflexivity.
Qed.

Lemma alloc_class_small_run_unsuitable_witness :
  exists ac p ac' ac'', alloc_class_new 18 (ex_ms 131) (0, 0, 0) (-1) ac CLASS_RUN HEADER_COMPACT 100000 0 1 = Some (p, ac') /\
    alloc_class_by_alloc_size ac' 499984 = Some (p, ac'') /\ ac_store ac' !! p = Some user_class /\
    alloc_class_calc_size_idx user_class 499984 = -1.
Proof.
  destruct (alloc_class_small_run_unsuitable ex_ms (0, 0, 0) (ex_ms_upto 132 ltac:(lia)))
    as (ac & p0 & c0 & ac0 & p & ac' & ac'' & _ & _ & _ & _ & E1 & E2 & E3 & E4).
  exists ac, p, ac', ac''. split; [exact E1|]. split; [exact E2|]. split; [exact E3|exact E4].
Defined.
