(* ===== verification/Recycler.v ===== *)
(** * The recycler of runs (libpmemobj/recycler.h, recycler.c)

    Runs that are not the active run of a bucket wait in a ravl ordered by their
    largest free block.  Scores are volatile and become stale when blocks are
    freed; recycler_recalc computes them again from the bitmaps.  The recycler's
    lock is not modelled except for the result of the trylock.  What malloc
    returns is an argument.  [None] is a NULL dereference, an access outside of
    an array, an abort or out of fuel. *)
From stdpp Require Import base numbers list list_numbers gmap.
From Stdlib Require Import ZArith Lia Bool.
From S2P Require Import Prelude Pmem Ravl Container Seglists HeapLayout Memblock.

Definition THRESHOLD_MUL : Z := 4.

Record recycler_element := RElem {
  max_free_block : Z; free_space : Z; re_chunk_id : Z; re_zone_id : Z }.

#[global] Instance recycler_element_eq : EqDecision recycler_element.
Proof. solve_decision. Defined.

(** One comparison of the function: the sign of the difference, if any. *)
Definition diff_sign (l r next : Z) : Z :=
  let diff := l - r in if negb (diff =? 0) then if 0 <? diff then 1 else -1 else next.

Definition recycler_element_cmp (l r : recycler_element) : Z :=
  diff_sign (max_free_block l) (max_free_block r)
    (diff_sign (free_space l) (free_space r)
      (diff_sign (re_zone_id l) (re_zone_id r)
        (diff_sign (re_chunk_id l) (re_chunk_id r) 0))).

Record recycler := Recycler {
  runs : ravl recycler_element;
  unaccounted_units : Z -> Z;     (* an array of MAX_CHUNK counters *)
  unaccounted_total : Z;
  r_nallocs : Z;
  recalc : list recycler_element
}.

Implicit Types (r : recycler) (m : memory_block) (v : mem).

Definition set_runs (t : ravl recycler_element) r : recycler :=
  Recycler t (unaccounted_units r) (unaccounted_total r) (r_nallocs r) (recalc r).
Definition set_unaccounted (f : Z -> Z) (total : Z) r : recycler :=
  Recycler (runs r) f total (r_nallocs r) (recalc r).
Definition set_recalc (l : list recycler_element) r : recycler :=
  Recycler (runs r) (unaccounted_units r) (unaccounted_total r) (r_nallocs r) l.

(** [r->unaccounted_units[i]]. *)
Definition units_at r (i : Z) : option Z :=
  if (0 <=? i) && (i <? MAX_CHUNK) then Some (unaccounted_units r i) else None.
Definition units_set (i x : Z) r : option recycler :=
  _ ← units_at r i;
  Some (set_unaccounted (fun j => if j =? i then x else unaccounted_units r j) (unaccounted_total r) r).

(** [rok], [tok]: the recycler and its tree were allocated. *)
Definition recycler_new (rok tok : bool) (nallocs : Z) : option recycler :=
  if rok && tok then Some (Recycler ravl_new (fun _ => 0) 0 nallocs []) else None.

(** calc_free of a huge block is NULL. *)
Definition recycler_element_new (heap : palloc_heap) v m : option recycler_element :=
  if m_ops m =? MEMORY_BLOCK_RUN then
    let '(free, max) := run_calc_free heap v m 0 0 in Some (RElem max free (chunk_id m) (zone_id m))
  else None.

(** [na]: the address of the tree's new node. *)
Definition recycler_put (fuel : nat) (na : Z) r m (element : recycler_element) : option (Z * recycler) :=
  '(ret, t) ← ravl_emplace_copy recycler_element_cmp fuel (runs r) na element;
  Some (ret, set_runs t r).

Definition recycler_get (fuel : nat) (heap : palloc_heap) v r m : option (Z * memory_block * recycler) :=
  n ← ravl_find recycler_element_cmp fuel (runs r) (RElem (size_idx m) 0 0 0) RAVL_PREDICATE_GREATER_EQUAL;
  if n =? 0 then Some (ENOMEM, m, r) else
  nd ← deref (runs r) n;
  let m := set_location (re_chunk_id (data nd)) (re_zone_id (data nd)) m in
  t ← ravl_remove fuel n (runs r);
  let hdr := heap_get_chunk_hdr heap m in
  let m := set_extent (block_off m) (hdr_size_idx v hdr) m in
  m ← memblock_rebuild_state heap v m;
  Some (0, m, set_runs t r).

(** The state of the loop of recycler_recalc; [rc_push i]: the [i]-th push to the
    vector of empty runs succeeds, [rc_repush] the same for the elements that go
    back into the tree. *)
Record recalc_state := RecalcSt {
  rc_rec : recycler; rc_empty : list memory_block; rc_nm : memory_block; rc_found : Z }.

(** One iteration after the search: [inl] a continue, otherwise the new state. *)
Definition recalc_visit (fuel : nat) (heap : palloc_heap) v (push repush : nat -> bool) (force : bool) (n : Z)
    (ne : recycler_element) (st : recalc_state) : option recalc_state :=
  let '(RecalcSt r empty nm found) := st in
  chunk_units ← units_at r (re_chunk_id ne);
  if negb force && (chunk_units =? 0) then Some st else
  let existing_free_space := free_space ne in
  nm ← memblock_rebuild_state heap v (set_location (re_chunk_id ne) (re_zone_id ne) nm);
  e ← recycler_element_new heap v nm;
  let free_space_diff := u32 (free_space e - existing_free_space) in
  let found := u64 (found + free_space_diff) in
  if free_space_diff =? 0 then Some (RecalcSt r empty nm found) else
  cur ← units_at r (chunk_id nm);
  r ← units_set (chunk_id nm) (u64 (cur - Z.min chunk_units (u64 (free_space_diff + r_nallocs r)))) r;
  t ← ravl_remove fuel n (runs r);
  let r := set_runs t r in
  if free_space e =? r_nallocs r then
    nm ← memblock_rebuild_state heap v nm;
    Some (RecalcSt r (if push (length empty) then empty ++ [nm] else empty) nm found)
  else Some (RecalcSt (set_recalc (if repush (length (recalc r)) then recalc r ++ [e] else recalc r) r) empty nm found).

Fixpoint recalc_loop (steps fuel : nat) (heap : palloc_heap) v (push repush : nat -> bool) (force : bool)
    (search_limit : Z) (next : recycler_element) (p : Z) (st : recalc_state) : option recalc_state :=
  match steps with
  | O => None
  | S steps =>
      n ← ravl_find recycler_element_cmp fuel (runs (rc_rec st)) next p;
      if n =? 0 then Some st else
      nd ← deref (runs (rc_rec st)) n;
      st ← recalc_visit fuel heap v push repush force n (data nd) st;
      if rc_found st <? search_limit
      then recalc_loop steps fuel heap v push repush force search_limit (data nd) RAVL_PREDICATE_GREATER st
      else Some st
  end.

(** The last loop; the results of ravl_emplace_copy are not looked at. *)
Fixpoint reinsert (fuel : nat) (nas : list Z) (l : list recycler_element) (t : ravl recycler_element)
    : option (ravl recycler_element) :=
  match l with
  | [] => Some t
  | e :: l =>
      '(_, t) ← ravl_emplace_copy recycler_element_cmp fuel t (hd 0 nas) e;
      reinsert fuel (tl nas) l t
  end.

Definition recycler_recalc (steps fuel : nat) (heap : palloc_heap) v (push repush : nat -> bool) (nas : list Z)
    (locked : bool) (peak_arenas : Z) r (force : bool) : option (list memory_block * recycler) :=
  let units := unaccounted_total r in
  let recalc_threshold := u64 (u64 (THRESHOLD_MUL * peak_arenas) * r_nallocs r) in
  if negb force && (units <? recalc_threshold) then Some ([], r) else
  if negb locked then Some ([], r) else
  let search_limit := if force then UINT64_MAX else units in
  st ← recalc_loop steps fuel heap v push repush force search_limit (RElem 0 0 0 0) RAVL_PREDICATE_GREATER_EQUAL
         (RecalcSt r [] MEMORY_BLOCK_NONE 0);
  let r := rc_rec st in
  t ← reinsert fuel nas (recalc r) (runs r);
  let r := set_recalc [] (set_runs t r) in
  Some (rc_empty st, set_unaccounted (unaccounted_units r) (u64 (unaccounted_total r - units)) r).

Definition recycler_inc_unaccounted r m : option recycler :=
  let r := set_unaccounted (unaccounted_units r) (u64 (unaccounted_total r + size_idx m)) r in
  x ← units_at r (chunk_id m);
  units_set (chunk_id m) (u64 (x + size_idx m)) r.
