(* ===== verification/RecyclerFacts.v ===== *)
(** * The recycler: order, search and recalculation *)
From stdpp Require Import base numbers list list_numbers gmap sorting.
From Stdlib Require Import ZArith Lia Bool.
From S2P Require Import Prelude Pmem Ravl RavlFacts RavlOps RavlSpec Container Seglists HeapLayout Memblock MemblockRun Recycler.

#[global] Instance recycler_order : RavlOrder recycler_element_cmp.
Proof. exact (_ : RavlOrder (lex max_free_block (lex free_space (lex re_zone_id (lex re_chunk_id (fun _ _ => 0)))))). Qed.

Abbreviation cmp := recycler_element_cmp.

Ltac cmp_cases :=
  unfold recycler_element_cmp, diff_sign;
  repeat match goal with |- context [?a =? 0] => destruct (Z.eqb_spec a 0); cbn [negb] end;
  repeat match goal with |- context [0 <? ?a] => destruct (Z.ltb_spec 0 a) end.

Lemma cmp_max x y : cmp x y <= 0 -> max_free_block x <= max_free_block y.
Proof. cmp_cases; lia. Qed.

(** The query of recycler_get is below all runs with a large enough block. *)
Lemma query_below k y : 0 <= free_space y -> 0 <= re_zone_id y -> 0 <= re_chunk_id y -> k <= max_free_block y -> cmp (RElem k 0 0 0) y <= 0.
Proof. intros H1 H2 H3 H4. cmp_cases; cbn [max_free_block free_space re_zone_id re_chunk_id] in *; lia. Qed.

Lemma cmp_eq x y : cmp x y = 0 -> x = y.
Proof.
  destruct x as [a b c d], y as [a' b' c' d']. cmp_cases; cbn [max_free_block free_space re_zone_id re_chunk_id] in *; try lia.
  intros _. f_equal; lia.
Qed.

(** ** Trees as lists *)

Lemma inorder_addrs {D} (t : @tree D) : length (inorder t) = length (addrs t).
Proof. induction t as [|a k w x IHx y IHy]; [done|]. cbn [inorder addrs length]. rewrite !length_app. cbn [length]. lia. Qed.

Lemma ravl_ok_size (t : ravl recycler_element) l : ravl_ok cmp t l -> size (nodes t) = length l.
Proof. intros (T & Hwf & _ & _ & <-). by rewrite <- (wf_size _ _ Hwf), inorder_addrs. Qed.

Lemma ravl_ok_sorted (t : ravl recycler_element) l : ravl_ok cmp t l -> sorted cmp l.
Proof. by intros (T & _ & _ & Hs & _). Qed.

(** In a strictly increasing list an element has one place. *)
Lemma sorted_split l1 x l2 k1 k2 : sorted cmp (l1 ++ x :: l2) -> l1 ++ x :: l2 = k1 ++ x :: k2 -> l1 = k1 /\ l2 = k2.
Proof.
  assert (cmp x x = 0) as Hx by (pose proof (cmp_sym x x); lia).
  revert k1. induction l1 as [|y l1 IH]; intros k1 Hs E.
  - destruct k1 as [|z k1]; [by injection E as ->|]. injection E as <- E. cbn [app] in Hs. apply StronglySorted_cons in Hs as [Ha _].
    rewrite E in Ha. rewrite Forall_app, Forall_cons in Ha. destruct Ha as (_ & Hxx & _). unfold lt in Hxx. lia.
  - destruct k1 as [|z k1].
    + injection E as -> E. apply StronglySorted_cons in Hs as [Ha _]. rewrite Forall_app, Forall_cons in Ha.
      destruct Ha as (_ & Hxx & _). unfold lt in Hxx. lia.
    + injection E as -> E. apply StronglySorted_cons in Hs as [_ Hs]. destruct (IH k1 Hs E) as [-> ->]. done.
Qed.

(** The first element that matches, when those before it do not. *)
Lemma find_next t done' rest d flags fuel :
  ravl_ok cmp t (done' ++ rest) -> valid_predicate flags = true -> has_pred flags RAVL_PREDICATE_LESS = false ->
  (2 * length (done' ++ rest) < fuel)%nat ->
  Forall (fun e => set_match cmp flags d e = false) done' -> Forall (fun e => set_match cmp flags d e = true) rest ->
  exists n, ravl_find cmp fuel t d flags = Some n /\
    match rest with [] => n = 0 | x :: _ => n <> 0 /\ exists nd, deref t n = Some nd /\ data nd = x end.
Proof.
  intros Hok Hv Hl Hf H1 H2. rewrite <- (ravl_ok_size _ _ Hok) in Hf.
  destruct (find_ok cmp t _ d flags fuel Hok Hv Hf) as (n & E & Hn). exists n. split; [done|].
  unfold set_find in Hn. rewrite Hl in Hn. rewrite List.filter_app in Hn.
  assert (List.filter (set_match cmp flags d) done' = []) as Ed.
  { clear -H1. induction H1 as [|e l He _ IH]; [done|]. cbn. by rewrite He. }
  assert (List.filter (set_match cmp flags d) rest = rest) as Er.
  { clear -H2. induction H2 as [|e l He _ IH]; [done|]. cbn. by rewrite He, IH. }
  rewrite Ed, Er in Hn. cbn [app] in Hn. by destruct rest as [|x rest].
Qed.

Lemma match_gt d e : set_match cmp RAVL_PREDICATE_GREATER d e = (cmp d e <? 0).
Proof.
  unfold set_match, matches. cbn [snd].
  change (has_pred RAVL_PREDICATE_GREATER RAVL_PREDICATE_EQUAL) with false.
  change (has_pred RAVL_PREDICATE_GREATER RAVL_PREDICATE_GREATER) with true.
  change (has_pred RAVL_PREDICATE_GREATER RAVL_PREDICATE_LESS) with false.
  cbn [andb orb]. apply orb_false_r.
Qed.

(** After [x]: its successors match, its predecessors and itself do not. *)
Lemma match_after done' x rest : sorted cmp (done' ++ x :: rest) ->
  Forall (fun e => set_match cmp RAVL_PREDICATE_GREATER x e = false) (done' ++ [x]) /\
  Forall (fun e => set_match cmp RAVL_PREDICATE_GREATER x e = true) rest.
Proof.
  intros Hs. apply sorted_app in Hs as (_ & Hs & Hd). apply StronglySorted_cons in Hs as [Hr _]. split.
  - apply Forall_app. split; [|repeat constructor].
    + eapply Forall_impl; [exact Hd|]. intros e He. apply Forall_cons in He as [He _]. unfold lt in He. rewrite match_gt. apply Z.ltb_ge.
      pose proof (cmp_sym e x). lia.
    + rewrite match_gt. apply Z.ltb_ge. pose proof (cmp_sym x x). lia.
  - eapply Forall_impl; [exact Hr|]. intros e He. rewrite match_gt. by apply Z.ltb_lt.
Qed.

(** ** New scores *)

Lemma largest_nonneg bs : 0 <= largest_block bs.
Proof. induction bs as [|b bs IH]; cbn [largest_block foldr]; [lia|]. fold (largest_block bs). lia. Qed.

Section Scores.
Context (heap : palloc_heap) (v : mem).

(** The run of an element, as recycler_recalc builds it. *)
Definition run_of (x : recycler_element) : memory_block :=
  let m := set_location (re_chunk_id x) (re_zone_id x) MEMORY_BLOCK_NONE in
  set_runtime MEMORY_BLOCK_RUN (heap_addr heap) (memblock_header_type heap v m) MEMORY_BLOCK_RUN m.

Definition rescored (x : recycler_element) : recycler_element :=
  let f := free_blocks heap v (run_of x) in RElem (largest_block f) (u32 (free_units f)) (re_chunk_id x) (re_zone_id x).

(** The element stands for a run of the heap. *)
Record elem_ok (x : recycler_element) : Prop := ElemOk {
  eo_chunk : 0 <= re_chunk_id x < MAX_CHUNK;
  eo_zone : 0 <= re_zone_id x;
  eo_max : 0 <= max_free_block x;
  eo_free : 0 <= free_space x < 2 ^ 32;
  eo_run : hdr_type v (heap_get_chunk_hdr heap (run_of x)) = CHUNK_TYPE_RUN
}.

Definition changed (x : recycler_element) : bool := negb (free_space (rescored x) =? free_space x).

Lemma rebuild_run x nm : elem_ok x -> size_idx nm = 0 -> block_off nm = 0 ->
  memblock_rebuild_state heap v (set_location (re_chunk_id x) (re_zone_id x) nm) = Some (run_of x).
Proof.
  intros Hx Hs Ho. unfold memblock_rebuild_state, memblock_detect_type.
  change (heap_get_chunk_hdr heap (set_location (re_chunk_id x) (re_zone_id x) nm)) with (heap_get_chunk_hdr heap (run_of x)).
  rewrite (eo_run _ Hx). cbn. unfold run_of, set_runtime. cbn. by rewrite Hs, Ho.
Qed.

Lemma rebuild_again x : elem_ok x -> memblock_rebuild_state heap v (run_of x) = Some (run_of x).
Proof. intros Hx. unfold memblock_rebuild_state, memblock_detect_type. by rewrite (eo_run _ Hx). Qed.

Lemma element_rescored x : recycler_element_new heap v (run_of x) = Some (rescored x).
Proof.
  unfold recycler_element_new. cbn [m_ops run_of set_runtime]. change (MEMORY_BLOCK_RUN =? MEMORY_BLOCK_RUN) with true. cbv iota.
  rewrite calc_free_total by lia. unfold rescored. pose proof (largest_nonneg (free_blocks heap v (run_of x))).
  rewrite Z.max_r by done. done.
Qed.

Lemma rescored_free x : 0 <= free_space (rescored x) < 2 ^ 32.
Proof. apply u32_range. Qed.

Lemma diff_zero x : elem_ok x -> u32 (free_space (rescored x) - free_space x) = 0 <-> changed x = false.
Proof.
  intros Hx. unfold changed. rewrite negb_false_iff, Z.eqb_eq. pose proof (rescored_free x). pose proof (eo_free _ Hx).
  unfold u32. split; [|intros ->; by rewrite Z.sub_diag].
  intros H'. apply Z.mod_divide in H' as [k Hk]; [|lia]. assert (k = 0) by nia. lia.
Qed.

(** ** One run *)

Definition always (_ : nat) : bool := true.

(** What a visited element turns into. *)
Definition stays (l : list recycler_element) : list recycler_element := List.filter (fun x => negb (changed x)) l.
Definition emptied (nallocs : Z) (x : recycler_element) : bool := changed x && (free_space (rescored x) =? nallocs).
Definition comes_back (nallocs : Z) (x : recycler_element) : bool := changed x && negb (free_space (rescored x) =? nallocs).
Definition empties (nallocs : Z) (l : list recycler_element) : list memory_block := map run_of (List.filter (emptied nallocs) l).
Definition returns (nallocs : Z) (l : list recycler_element) : list recycler_element := map rescored (List.filter (comes_back nallocs) l).

(** The loop has dealt with [seen], found [tree] there, and [rest] is still to come. *)
Record recalc_inv (r0 : recycler) (seen rest : list recycler_element) (st : recalc_state) : Prop := RecalcInv {
  ri_tree : ravl_ok cmp (runs (rc_rec st)) (stays seen ++ rest);
  ri_recalc : recalc (rc_rec st) = returns (r_nallocs r0) seen;
  ri_empty : rc_empty st = empties (r_nallocs r0) seen;
  ri_nallocs : r_nallocs (rc_rec st) = r_nallocs r0;
  ri_total : unaccounted_total (rc_rec st) = unaccounted_total r0;
  ri_nm : size_idx (rc_nm st) = 0 /\ block_off (rc_nm st) = 0;
  ri_found : 0 <= rc_found st <= 2 ^ 32 * Z.of_nat (length seen)
}.

Lemma stays_snoc l x : stays (l ++ [x]) = stays l ++ if changed x then [] else [x].
Proof. unfold stays. rewrite List.filter_app. cbn. by destruct (changed x). Qed.
Lemma empties_snoc k l x : empties k (l ++ [x]) = empties k l ++ if emptied k x then [run_of x] else [].
Proof. unfold empties. rewrite List.filter_app, map_app. cbn. by destruct (emptied k x). Qed.
Lemma returns_snoc k l x : returns k (l ++ [x]) = returns k l ++ if comes_back k x then [rescored x] else [].
Proof. unfold returns. rewrite List.filter_app, map_app. cbn. by destruct (comes_back k x). Qed.

Lemma visit_spec fuel r0 seen x rest n nd st :
  recalc_inv r0 seen (x :: rest) st -> elem_ok x -> deref (runs (rc_rec st)) n = Some nd -> data nd = x ->
  (length (stays seen ++ x :: rest) < fuel)%nat -> Z.of_nat (length seen) < 2 ^ 31 ->
  exists st', recalc_visit (S fuel) heap v always always true n x st = Some st' /\ recalc_inv r0 (seen ++ [x]) rest st'.
Proof.
  intros [T R E K U [N1 N2] F] Hx Hn Hd Hf Hlen. destruct st as [r empty nm found]. cbn [rc_rec rc_empty rc_nm rc_found] in *.
  assert (forall r', units_at r' (re_chunk_id x) = Some (unaccounted_units r' (re_chunk_id x))) as Hu.
  { intros r'. pose proof (eo_chunk _ Hx). unfold units_at. by rewrite (proj2 (Z.leb_le 0 _)), (proj2 (Z.ltb_lt _ MAX_CHUNK)) by lia. }
  unfold recalc_visit. rewrite Hu. cbn [andb negb mbind option_bind].
  rewrite (rebuild_run x nm Hx N1 N2). cbn [mbind option_bind]. rewrite element_rescored. cbn [mbind option_bind].
  set (diff := u32 (free_space (rescored x) - free_space x)). assert (0 <= diff < 2 ^ 32) as Hdiff by apply u32_range.
  rewrite (u64_small (found + diff)) by lia.
  assert (0 <= found + diff <= 2 ^ 32 * Z.of_nat (length (seen ++ [x]))) as Hfound by (rewrite length_app; cbn [length]; lia).
  pose proof (diff_zero x Hx) as Hz. fold diff in Hz. destruct (Z.eqb_spec diff 0) as [E0|E0].
  { eexists. split; [done|]. constructor; cbn [rc_rec rc_empty rc_nm rc_found]; rewrite ?stays_snoc, ?empties_snoc, ?returns_snoc;
      unfold emptied, comes_back; rewrite ?(proj1 Hz E0), ?app_nil_r; try done. by rewrite <- app_assoc. }
  assert (changed x = true) as Hch by (destruct (changed x); [done|]; by destruct E0; apply Hz).
  unfold units_set. change (chunk_id (run_of x)) with (re_chunk_id x). rewrite !Hu. cbn [mbind option_bind runs set_unaccounted].
  destruct (remove_ok cmp (runs r) _ n nd fuel T Hn) as (t' & l1 & l2 & -> & El & HT'); [by rewrite (ravl_ok_size _ _ T)|].
  rewrite Hd in El. apply sorted_split in El as [<- <-]; [|by apply (ravl_ok_sorted (runs r))]. cbn [mbind option_bind r_nallocs set_runs set_unaccounted].
  rewrite K. destruct (Z.eqb_spec (free_space (rescored x)) (r_nallocs r0)) as [En|En].
  - rewrite (rebuild_again x Hx). cbn [mbind option_bind]. eexists. split; [done|].
    constructor; cbn [rc_rec rc_empty rc_nm rc_found runs set_runs recalc r_nallocs set_unaccounted unaccounted_total];
      rewrite ?stays_snoc, ?empties_snoc, ?returns_snoc; unfold emptied, comes_back; rewrite ?Hch, ?En, ?Z.eqb_refl; cbn [andb negb];
      rewrite ?app_nil_r; try done. by rewrite E.
  - eexists. split; [done|].
    constructor; cbn [rc_rec rc_empty rc_nm rc_found runs set_runs recalc set_recalc r_nallocs set_unaccounted unaccounted_total always];
      rewrite ?stays_snoc, ?empties_snoc, ?returns_snoc; unfold emptied, comes_back; rewrite ?Hch, ?(proj2 (Z.eqb_neq _ _) En); cbn [andb negb];
      rewrite ?app_nil_r; try done. by rewrite R.
Qed.

(** ** The loop *)

Lemma stays_sub l : (length (stays l) <= length l)%nat.
Proof. unfold stays. induction l as [|x l IH]; [done|]. cbn. destruct (negb (changed x)); cbn; lia. Qed.

Lemma recalc_loop_spec steps fuel r0 seen rest next p st :
  recalc_inv r0 seen rest st -> Forall elem_ok rest -> (length rest < steps)%nat ->
  (2 * length (seen ++ rest) + 1 < fuel)%nat -> Z.of_nat (length (seen ++ rest)) < 2 ^ 31 ->
  valid_predicate p = true -> has_pred p RAVL_PREDICATE_LESS = false ->
  Forall (fun e => set_match cmp p next e = false) (stays seen) -> Forall (fun e => set_match cmp p next e = true) rest ->
  exists st', recalc_loop steps fuel heap v always always true UINT64_MAX next p st = Some st' /\ recalc_inv r0 (seen ++ rest) [] st'.
Proof.
  revert seen next p st steps. induction rest as [|x rest IH]; intros seen next p st steps HI HF Hst Hfu Hlen Hv Hl Hd Hr;
    (destruct steps as [|steps]; [cbn in Hst; lia|]); cbn [recalc_loop]; pose proof (stays_sub seen) as Hsub; rewrite !length_app in *; cbn [length] in *.
  - destruct (find_next _ (stays seen) [] next p fuel (ri_tree _ _ _ _ HI) Hv Hl) as (n & -> & ->); [rewrite length_app; cbn; lia|done|done|].
    cbn [mbind option_bind Z.eqb]. exists st. split; [done|]. by rewrite app_nil_r.
  - destruct (find_next _ (stays seen) (x :: rest) next p fuel (ri_tree _ _ _ _ HI) Hv Hl) as (n & -> & Hn0 & nd & Hnd & Hx);
      [rewrite length_app; cbn; lia|done|done|]. cbn [mbind option_bind]. rewrite (proj2 (Z.eqb_neq n 0) Hn0), Hnd. cbn [mbind option_bind].
    rewrite Hx. destruct fuel as [|fuel]; [lia|]. apply Forall_cons in HF as [HFx HF].
    destruct (visit_spec fuel r0 seen x rest n nd st HI HFx Hnd Hx) as (st' & -> & HI'); [rewrite length_app; cbn; lia|lia|]. cbn [mbind option_bind].
    pose proof (ri_found _ _ _ _ HI') as Hfound. rewrite length_app in Hfound. cbn [length] in Hfound.
    rewrite (proj2 (Z.ltb_lt _ UINT64_MAX)) by (unfold UINT64_MAX; lia).
    pose proof (ravl_ok_sorted _ _ (ri_tree _ _ _ _ HI)) as Hsort. destruct (match_after _ _ _ Hsort) as [Hb Ha].
    destruct (IH (seen ++ [x]) x RAVL_PREDICATE_GREATER st' steps HI' HF) as (st'' & E & HI''); try done;
      [lia|rewrite !length_app; cbn [length]; lia|rewrite !length_app; cbn [length]; lia| |].
    + rewrite stays_snoc. apply Forall_app in Hb as [Hb1 Hb2]. apply Forall_app. split; [done|]. destruct (changed x); [constructor|done].
    + exists st''. split; [done|]. by rewrite <- app_assoc in HI''.
Qed.
End Scores.

(** ** Putting the runs back *)

(** Malloc returns memory that is not in use for every node. *)
Fixpoint nas_ok (fuel : nat) (nas : list Z) (l : list recycler_element) (t : ravl recycler_element) : Prop :=
  match l with
  | [] => True
  | e :: l =>
      hd 0 nas <> 0 /\ nodes t !! hd 0 nas = None /\
      match ravl_emplace_copy cmp fuel t (hd 0 nas) e with Some (_, t) => nas_ok fuel (tl nas) l t | None => True end
  end.

Definition place (x : recycler_element) : Z * Z := (re_chunk_id x, re_zone_id x).

Lemma place_dup x l : place x ∉ map place l -> is_dup cmp x l = false.
Proof.
  intros H. apply not_true_iff_false. intros Hd. apply existsb_exists in Hd as (e & He & E). apply Z.eqb_eq, cmp_eq in E as ->.
  apply H. apply list_elem_of_fmap. exists e. split; [done|]. by apply list_elem_of_In.
Qed.

Lemma reinsert_spec fuel nas l t L :
  ravl_ok cmp t L -> nas_ok fuel nas l t -> NoDup (map place (l ++ L)) -> (length l + length L < fuel)%nat ->
  exists t' L', reinsert fuel nas l t = Some t' /\ ravl_ok cmp t' L' /\ L' ≡ₚ l ++ L.
Proof.
  revert nas t L. induction l as [|e l IH]; intros nas t L Hok Hna Hnd Hf; cbn [reinsert]; [by exists t, L|].
  destruct Hna as (H0 & Hfr & Hna). cbn [app map] in Hnd. apply NoDup_cons in Hnd as [Hni Hnd]. cbn [length] in Hf.
  destruct (emplace_ok cmp t L e (hd 0 nas) ravl_node_copy_constructor fuel Hok H0 Hfr) as (t1 & E & Hok1); [rewrite (ravl_ok_size _ _ Hok); lia|].
  rewrite place_dup in E, Hok1 by (intros Hm; apply Hni; rewrite map_app; apply elem_of_app; by right). unfold ravl_emplace_copy in *. rewrite E in Hna |- *.
  cbn [mbind option_bind]. pose proof (set_insert_perm cmp e L) as HP.
  destruct (IH (tl nas) t1 _ Hok1 Hna) as (t' & L' & E' & Hok' & HP').
  - rewrite (fmap_Permutation place _ _ (Permutation_app_head l HP)). rewrite <- Permutation_middle. cbn. by constructor.
  - rewrite (Permutation_length HP). cbn. lia.
  - exists t', L'. split; [done|]. split; [done|]. rewrite HP', HP. cbn [app]. by rewrite Permutation_middle.
Qed.
