(* ===== verification/RecyclerSpec.v ===== *)
(** * What the recycler promises *)
From stdpp Require Import base numbers list list_numbers gmap sorting.
From Stdlib Require Import ZArith Lia Bool.
From S2P Require Import Prelude Pmem Ravl RavlFacts RavlOps RavlSpec Container Seglists HeapLayout.
From S2P Require Import Memblock MemblockRun MemblockInit MemblockOffset MemblockSpec Recycler.
From S2P Require Import RecyclerFacts.

(** recycler_get on a recycler that holds the runs [L]: it fails with ENOMEM,
    changing nothing, exactly when no run has a free block of the requested size;
    otherwise it removes a run whose largest free block is the smallest that is
    large enough, and returns the block of that run with the size and the runtime
    fields the chunk's header gives. *)
Theorem recycler_get_bestfit heap v fuel r L m :
  ravl_ok recycler_element_cmp (runs r) L -> Forall (elem_ok heap v) L -> (2 * length L < fuel)%nat ->
  (Forall (fun x => max_free_block x < size_idx m) L /\ recycler_get (S fuel) heap v r m = Some (ENOMEM, m, r)) \/
  (exists x t L', L ≡ₚ x :: L' /\ size_idx m <= max_free_block x /\
     Forall (fun y => size_idx m <= max_free_block y -> max_free_block x <= max_free_block y) L /\
     ravl_ok recycler_element_cmp t L' /\
     recycler_get (S fuel) heap v r m =
       Some (0, set_runtime MEMORY_BLOCK_RUN (heap_addr heap) (memblock_header_type heap v (run_of heap v x)) MEMORY_BLOCK_RUN
                  (set_extent (block_off m) (hdr_size_idx v (heap_get_chunk_hdr heap (run_of heap v x)))
                     (set_location (re_chunk_id x) (re_zone_id x) m)), set_runs t r)).
Proof.
  intros Hok HF Hf. unfold recycler_get. pose proof (ravl_ok_size _ _ Hok) as Hsz. pose proof (ravl_ok_sorted _ _ Hok) as Hs.
  set (q := RElem (size_idx m) 0 0 0).
  destruct (find_ok recycler_element_cmp (runs r) L q RAVL_PREDICATE_GREATER_EQUAL (S fuel) Hok ltac:(reflexivity) ltac:(lia)) as (n & -> & Hn).
  cbn [mbind option_bind]. pose proof (find_ge_spec recycler_element_cmp q L Hs) as Hge.
  assert (forall y, y ∈ L -> size_idx m <= max_free_block y -> recycler_element_cmp q y <= 0) as Hq.
  { intros y Hy Hle. rewrite Forall_forall in HF. destruct (HF y Hy) as [C Z0 _ F _]. apply query_below; lia. }
  destruct (set_find recycler_element_cmp RAVL_PREDICATE_GREATER_EQUAL q L) as [x|].
  - destruct Hn as (Hn0 & nd & Hnd & Hx). destruct Hge as (Hin & Hle & Hmin). right.
    rewrite (proj2 (Z.eqb_neq n 0) Hn0), Hnd. cbn [mbind option_bind]. rewrite Hx.
    destruct (remove_ok recycler_element_cmp (runs r) L n nd fuel Hok Hnd ltac:(lia)) as (t & l1 & l2 & -> & El & Hok'). rewrite Hx in El.
    exists x, t, (l1 ++ l2). split; [by rewrite El, Permutation_middle|]. split; [by apply cmp_max in Hle|]. split.
    { rewrite Forall_forall in *. intros y Hy Hy'. apply cmp_max, Hmin; [done|]. by apply Hq. }
    split; [done|]. cbn [mbind option_bind]. rewrite Forall_forall in HF. pose proof (eo_run _ _ _ (HF x Hin)) as Hrun.
    unfold memblock_rebuild_state, memblock_detect_type.
    change (heap_get_chunk_hdr heap (set_extent _ _ _)) with (heap_get_chunk_hdr heap (run_of heap v x)).
    rewrite Hrun. reflexivity.
  - subst n. left. split; [|done]. rewrite Forall_forall in *. intros y Hy. destruct (Z.lt_ge_cases (max_free_block y) (size_idx m)) as [|Hge']; [done|].
    specialize (Hge y Hy). specialize (Hq y Hy ltac:(lia)). lia.
Qed.

(** Every run stays, goes back or is empty. *)
Lemma places_perm heap v k L :
  map place L ≡ₚ map place (returns heap v k L ++ stays heap v L) ++ map (fun m => (chunk_id m, zone_id m)) (empties heap v k L).
Proof.
  unfold returns, stays, empties. induction L as [|x L IH]; [done|]. cbn [List.filter map]. rewrite IH. clear IH.
  set (F := List.filter (comes_back heap v k) L). set (G := List.filter _ L). set (K := List.filter (emptied heap v k) L).
  unfold comes_back, emptied. rewrite !map_app.
  destruct (changed heap v x), (free_space (rescored heap v x) =? k); cbn [andb negb map app]; rewrite <- ?app_assoc.
  - by rewrite <- !Permutation_middle.
  - done.
  - cbn [app]. by rewrite <- Permutation_middle.
  - cbn [app]. by rewrite <- Permutation_middle.
Qed.

(** C38. A forced recycler_recalc scores every run again.  Runs whose free space is
    unchanged stay; runs that turn out to be empty are removed and returned, in
    order; all others go back with the free space and the largest free block that
    their bitmaps have now.  No run is lost or duplicated, the queue of the
    recalculation is empty again, and the loop ends although it changes the tree it
    walks over. *)
Theorem recycler_recalc_correct heap v steps fuel nas peak_arenas r L :
  ravl_ok recycler_element_cmp (runs r) L -> Forall (elem_ok heap v) L -> NoDup (map place L) -> recalc r = [] ->
  (length L < steps)%nat -> (2 * length L + 1 < fuel)%nat -> Z.of_nat (length L) < 2 ^ 31 ->
  (forall t, ravl_ok recycler_element_cmp t (stays heap v L) -> nas_ok fuel nas (returns heap v (r_nallocs r) L) t) ->
  exists r' L', recycler_recalc steps fuel heap v always always nas true peak_arenas r true =
      Some (empties heap v (r_nallocs r) L, r') /\
    ravl_ok recycler_element_cmp (runs r') L' /\ L' ≡ₚ stays heap v L ++ returns heap v (r_nallocs r) L /\
    recalc r' = [] /\ unaccounted_total r' = 0 /\
    Permutation (map place L) (map place L' ++ map (fun m => (chunk_id m, zone_id m)) (empties heap v (r_nallocs r) L)).
Proof.
  intros Hok HF Hnd Hrc Hst Hfu Hlen Hna. unfold recycler_recalc. cbn [negb andb].
  assert (recalc_inv heap v r [] L (RecalcSt r [] MEMORY_BLOCK_NONE 0)) as HI by (by constructor).
  destruct (recalc_loop_spec heap v steps fuel r [] L (RElem 0 0 0 0) RAVL_PREDICATE_GREATER_EQUAL _ HI HF Hst Hfu Hlen)
    as (st & -> & [T R E K U _ _]); [done|done|constructor| |].
  { eapply Forall_impl; [exact HF|]. intros x [C Z0 M F _]. rewrite match_ge. apply Z.leb_le. apply query_below; lia. }
  cbn [app] in *. rewrite app_nil_r in T. cbn [mbind option_bind]. rewrite R.
  pose proof (places_perm heap v (r_nallocs r) L) as HP. set (Rt := returns heap v (r_nallocs r) L) in *. set (St := stays heap v L) in *.
  set (Em := empties heap v (r_nallocs r) L) in *.
  destruct (reinsert_spec fuel nas Rt (runs (rc_rec st)) St T (Hna _ T)) as (t' & L' & -> & Hok' & HL').
  - rewrite HP in Hnd. by apply NoDup_app in Hnd as [Hnd _].
  - apply Permutation_length in HP. rewrite length_app, !length_map, length_app in HP. lia.
  - cbn [mbind option_bind]. eexists _, L'. split; [by rewrite E|]. cbn [runs recalc set_recalc set_runs set_unaccounted unaccounted_total].
    split; [done|]. split; [by rewrite HL', Permutation_app_comm|]. split; [done|]. split; [by rewrite U, Z.sub_diag|].
    by rewrite HP, (fmap_Permutation place _ _ HL').
Qed.

(** ** A recycler with one run, whose score is stale *)

Definition ex_elem : recycler_element := RElem 10 20 2 0.
Definition ex_tree : ravl recycler_element :=
  match ravl_emplace_copy recycler_element_cmp 5 ravl_new 100 ex_elem with Some (_, t) => t | None => ravl_new end.
Definition ex_recycler : recycler := Recycler ex_tree (fun _ => 7) 7 255 [].

Lemma ex_tree_ok : ravl_ok recycler_element_cmp ex_tree [ex_elem].
Proof.
  destruct (emplace_ok recycler_element_cmp ravl_new [] ex_elem 100 ravl_node_copy_constructor 5 (ravl_ok_new _)) as (t & E & Hok);
    [done|done|vm_compute; lia|].
  unfold ex_tree, ravl_emplace_copy. rewrite E. exact Hok.
Qed.

Lemma ex_elem_ok : Forall (elem_ok ex_heap ex_used) [ex_elem].
Proof. apply Forall_singleton. constructor; [split; reflexivity || discriminate|discriminate|discriminate|split; reflexivity || discriminate|]. vm_compute. reflexivity. Qed.

Lemma ravl_ok_empty (t : ravl recycler_element) a : ravl_ok recycler_element_cmp t [] -> nodes t !! a = None.
Proof.
  intros H. apply ravl_ok_size in H. cbn [length] in H.
  apply map_size_empty_inv in H. rewrite H. apply lookup_empty.
Qed.

Lemma recycler_get_bestfit_witness :
  exists t, recycler_get 5 ex_heap ex_used ex_recycler (MBlock 0 0 4 0 0 0 0 0) = Some (0, MBlock 2 0 1 0 MEMORY_BLOCK_RUN 64 HEADER_LEGACY MEMORY_BLOCK_RUN, set_runs t ex_recycler) /\
    ravl_ok recycler_element_cmp t [].
Proof.
  destruct (recycler_get_bestfit ex_heap ex_used 4 ex_recycler [ex_elem] (MBlock 0 0 4 0 0 0 0 0) ex_tree_ok ex_elem_ok)
    as [[H _]|(x & t & L' & HP & _ & _ & Hok & E)]; [vm_compute; lia| |].
  - apply Forall_inv in H. vm_compute in H. discriminate.
  - symmetry in HP. pose proof (proj1 (Permutation_singleton_r _ _) HP) as HP'. injection HP' as -> ->. exists t. split; [|exact Hok].
    rewrite E. reflexivity.
Defined.

Lemma recycler_recalc_correct_witness :
  exists r', recycler_recalc 2 4 ex_heap ex_used always always [200] true 1 ex_recycler true = Some ([], r') /\
    ravl_ok recycler_element_cmp (runs r') [RElem 63 124 2 0] /\ recalc r' = [] /\ unaccounted_total r' = 0.
Proof.
  destruct (recycler_recalc_correct ex_heap ex_used 2 4 [200] 1 ex_recycler [ex_elem] ex_tree_ok ex_elem_ok)
    as (r' & L' & E & Hok & HP & R & U & _); [repeat constructor; set_solver|reflexivity|cbn; lia|cbn; lia|reflexivity| |].
  - intros t Ht. replace (stays ex_heap ex_used [ex_elem]) with (@nil recycler_element) in Ht by (vm_compute; reflexivity).
    replace (returns ex_heap ex_used (r_nallocs ex_recycler) [ex_elem]) with [RElem 63 124 2 0] by (vm_compute; reflexivity).
    split; [discriminate|]. split; [by apply ravl_ok_empty|]. cbn [tl hd]. by destruct (ravl_emplace_copy _ _ _ _ _) as [[? ?]|].
  - replace (empties _ _ _ _) with (@nil memory_block) in E by (vm_compute; reflexivity).
    replace (stays _ _ _ ++ returns _ _ _ _) with [RElem 63 124 2 0] in HP by (vm_compute; reflexivity).
    apply Permutation_singleton_r in HP as ->. exists r'. exact (conj E (conj Hok (conj R U))).
Defined.
