(* ===== verification/Lane.v ===== *)
(** * Lanes (libpmemobj/lane.c)

    A lane is a part of the pool with the logs of one operation at a time.  The
    first half is what happens to all the lanes of a pool: their initialization,
    the contexts of their logs, the recovery when a pool is opened.  The second
    half is how a thread gets hold of a lane: a compare-and-swap on the lock of
    the lane, one attempt after the other. *)
From stdpp Require Import base numbers list list_numbers gmap.
From Stdlib Require Import ZArith Lia Bool.
From S2P Require Import Prelude Pmem Ulog Memops Container HeapLayout.

Definition LANE_UNDO_SIZE : Z := 2048.
Definition LANE_REDO_EXTERNAL_SIZE : Z := 640.
Definition LANE_REDO_INTERNAL_SIZE : Z := 192.
Definition LANE_JUMP : Z := 64 / 8.
Definition LANE_PRIMARY_ATTEMPTS : Z := 128.
Definition RLANE_DEFAULT : Z := 0.
Definition OBJ_INTERNAL_OBJECT_MASK : Z := Z.shiftl 1 15.
Definition SIZEOF_ALIGNED_ULOG (base_capacity : Z) : Z := SIZEOF_ULOG base_capacity + CACHELINE_SIZE.

(** The logs of [struct lane_layout]. *)
Definition layout_internal (layout : Z) : Z := layout.
Definition layout_external (layout : Z) : Z := layout_internal layout + SIZEOF_ULOG LANE_REDO_INTERNAL_SIZE.
Definition layout_undo (layout : Z) : Z := layout_external layout + SIZEOF_ULOG LANE_REDO_EXTERNAL_SIZE.

Record lane := Lane {
  lane_layout : Z;
  lane_internal : operation_context;
  lane_external : operation_context;
  lane_undo : operation_context
}.

Record lane_descriptor := LaneDesc {
  runtime_nlanes : Z;
  next_lane_idx : Z;
  lane_locks : option (list Z);   (* None: NULL *)
  desc_lane : option (list lane)
}.

(** ** The lanes of a pool *)

Section Pool.
Context (fuel : nat) (p_ops : pmem_ops).
(** pmalloc_construct and pmalloc_boot; the constructor gets the new memory and
    its usable size. *)
Context (pmalloc_construct : Z -> Z -> (Z -> Z -> pmst -> Z * pmst) -> Z -> Z -> Z -> world -> Z * world).
Context (pmalloc_boot : world -> Z * world).
(** pfree, and the size of undo log extensions (pop->tx_params->cache_size). *)
Context (pfree : Z -> world -> world) (cache_size : Z).

(** [&pop->p_ops] has the address of the pool as its base. *)
Definition lane_get_layout (pop : PMEMobjpool) (lane_idx : Z) : Z :=
  base p_ops + lanes_offset pop + sizeof_lane_layout * lane_idx.

Definition lane_ulog_constructor (gen_num : Z) (ptr usable_size : Z) (s : pmst) : Z * pmst :=
  let capacity := ALIGN_DOWN (u64 (usable_size - SIZEOF_ULOG_HDR)) CACHELINE_SIZE in
  (0, ulog_construct (u64 (ptr - base p_ops)) capacity gen_num true 0 p_ops s).

Definition lane_undo_extend (redo gen_num : Z) (ws : world) : Z * world :=
  pmalloc_construct redo (SIZEOF_ALIGNED_ULOG cache_size) (lane_ulog_constructor gen_num) 0 OBJ_INTERNAL_OBJECT_MASK 0 ws.
Definition lane_redo_extend (redo gen_num : Z) (ws : world) : Z * world :=
  pmalloc_construct redo (SIZEOF_ALIGNED_ULOG LANE_REDO_EXTERNAL_SIZE) (lane_ulog_constructor gen_num) 0 OBJ_INTERNAL_OBJECT_MASK 0 ws.

(** What the allocations of operation_new return. *)
Record ctx_allocs := CtxAllocs { a_ctx : bool; a_tlog : Z; a_plog : Z }.

(** The contexts of a lane; [None]: -1, what was created is deleted again. *)
Definition lane_init (allocs : ctx_allocs * ctx_allocs * ctx_allocs) (layout : Z) (s : pmst) : option (option lane * pmst) :=
  let '(ai, ae, au) := allocs in
  '(internal, s) ← operation_new fuel (a_ctx ai) (a_tlog ai) (a_plog ai) (layout_internal layout) LANE_REDO_INTERNAL_SIZE
                     None (fun _ ws => ws) p_ops LOG_TYPE_REDO s;
  match internal with
  | None => Some (None, s)
  | Some internal =>
      '(external, s) ← operation_new fuel (a_ctx ae) (a_tlog ae) (a_plog ae) (layout_external layout) LANE_REDO_EXTERNAL_SIZE
                         (Some lane_redo_extend) pfree p_ops LOG_TYPE_REDO s;
      match external with
      | None => Some (None, s)
      | Some external =>
          '(undo, s) ← operation_new fuel (a_ctx au) (a_tlog au) (a_plog au) (layout_undo layout) LANE_UNDO_SIZE
                         (Some lane_undo_extend) pfree p_ops LOG_TYPE_UNDO s;
          match undo with
          | None => Some (None, s)
          | Some undo => Some (Some (Lane layout internal external undo), s)
          end
      end
  end.

(** The loop of lane_boot over [n] lanes, from the lane [i] on; [None]: the error
    of lane_init, after which the lanes are destroyed. *)
Fixpoint lane_boot_from (n : nat) (i : Z) (allocs : Z -> ctx_allocs * ctx_allocs * ctx_allocs) (pop : PMEMobjpool) (s : pmst)
    : option (option (list lane) * pmst) :=
  match n with
  | O => Some (Some [], s)
  | S n =>
      '(l, s) ← lane_init (allocs i) (lane_get_layout pop i) s;
      match l with
      | None => Some (None, s)
      | Some l =>
          '(ls, s) ← lane_boot_from n (i + 1) allocs pop s;
          Some (match ls with Some ls => Some (l :: ls) | None => None end, s)
      end
  end.

(** [lanes_ok], [locks_ok]: Malloc of the lanes, Zalloc of the locks.  The number
    of lanes at runtime is set elsewhere. *)
Definition lane_boot (lanes_ok locks_ok : bool) (allocs : Z -> ctx_allocs * ctx_allocs * ctx_allocs)
    (desc : lane_descriptor) (pop : PMEMobjpool) (s : pmst) : option (Z * lane_descriptor * pmst) :=
  let err := 0 in
  if negb lanes_ok then Some (ENOMEM, LaneDesc (runtime_nlanes desc) (next_lane_idx desc) (lane_locks desc) None, s) else
  if negb locks_ok then Some (err, LaneDesc (runtime_nlanes desc) 0 None None, s) else
  '(ls, s) ← lane_boot_from (Z.to_nat (nlanes pop)) 0 allocs pop s;
  match ls with
  | None => Some (-1, LaneDesc (runtime_nlanes desc) 0 None None, s)
  | Some ls => Some (0, LaneDesc (runtime_nlanes desc) 0 (Some (replicate (Z.to_nat (nlanes pop)) 0)) (Some ls), s)
  end.

Fixpoint lane_init_data_from (n : nat) (i : Z) (pop : PMEMobjpool) (s : pmst) : pmst :=
  match n with
  | O => s
  | S n =>
      let layout := lane_get_layout pop i in
      let s := ulog_construct (u64 (layout_internal layout - base p_ops)) LANE_REDO_INTERNAL_SIZE 0 false 0 p_ops s in
      let s := ulog_construct (u64 (layout_external layout - base p_ops)) LANE_REDO_EXTERNAL_SIZE 0 false 0 p_ops s in
      let s := ulog_construct (u64 (layout_undo layout - base p_ops)) LANE_UNDO_SIZE 0 false 0 p_ops s in
      lane_init_data_from n (i + 1) pop s
  end.
Definition lane_init_data (pop : PMEMobjpool) (s : pmst) : pmst :=
  let s := lane_init_data_from (Z.to_nat (nlanes pop)) 0 pop s in
  pmemops_persist p_ops (lane_get_layout pop 0) (u64 (nlanes pop * sizeof_lane_layout)) s.

Fixpoint recover_redo_from (n : nat) (i : Z) (pop : PMEMobjpool) (s : pmst) : option pmst :=
  match n with
  | O => Some s
  | S n =>
      let layout := lane_get_layout pop i in
      s ← ulog_recover fuel (layout_internal layout) p_ops s;
      s ← ulog_recover fuel (layout_external layout) p_ops s;
      recover_redo_from n (i + 1) pop s
  end.

(** The undo log of one lane. *)
Definition recover_undo (push_ok : nat -> bool) (ctx : operation_context) (ws : world) : option (operation_context * world) :=
  ctx ← operation_resume fuel ctx ws.2;
  '(ctx, s) ← operation_process fuel ctx ws.2;
  operation_finish fuel push_ok ctx (Z.lor ULOG_INC_FIRST_GEN_NUM ULOG_FREE_AFTER_FIRST) (ws.1, s).

Fixpoint recover_undo_all (push_ok : nat -> bool) (lanes : list lane) (ws : world) : option (list lane * world) :=
  match lanes with
  | [] => Some ([], ws)
  | l :: lanes =>
      '(ctx, ws) ← recover_undo push_ok (lane_undo l) ws;
      '(lanes, ws) ← recover_undo_all push_ok lanes ws;
      Some (Lane (lane_layout l) (lane_internal l) (lane_external l) ctx :: lanes, ws)
  end.

Definition lane_recover_and_section_boot (push_ok : nat -> bool) (desc : lane_descriptor) (ws : world)
    : option (Z * lane_descriptor * world) :=
  s ← recover_redo_from (Z.to_nat (nlanes ws.1)) 0 ws.1 ws.2;
  let '(err, ws) := pmalloc_boot (ws.1, s) in
  if negb (err =? 0) then Some (err, desc, ws) else
  lanes ← desc_lane desc;
  '(lanes, ws) ← recover_undo_all push_ok (take (Z.to_nat (nlanes ws.1)) lanes) ws;
  Some (0, LaneDesc (runtime_nlanes desc) (next_lane_idx desc) (lane_locks desc) (Some lanes), ws).

(** The result does not depend on the answers of ulog_check: [err] is never set. *)
Fixpoint lane_check_from (n : nat) (j err : Z) (pop : PMEMobjpool) (s : pmst) : option Z :=
  match n with
  | O => Some 0
  | S n =>
      r ← ulog_check fuel (layout_internal (lane_get_layout pop j)) (OBJ_OFF_IS_VALID pop) p_ops s;
      if negb (r =? 0) then Some err else lane_check_from n (j + 1) err pop s
  end.
Definition lane_check (pop : PMEMobjpool) (s : pmst) : option Z := lane_check_from (Z.to_nat (nlanes pop)) 0 0 pop s.
End Pool.

(** ** The lane of a thread *)

Record lane_info := LaneInfo {
  lane_idx : Z;          (* UINT64_MAX: none yet *)
  nest_count : Z;
  primary : Z;
  primary_attempts : Z
}.

(** The thread-local table, a critnib from the pool's uuid to the record, and the
    uuid of the record in the cache.  The list that links the records for
    lane_info_delete is not kept. *)
Record thread_info := ThreadInfo { Lane_info_ht : option (gmap Z lane_info); Lane_info_cache : option Z }.

Definition set_record (uuid : Z) (info : lane_info) (ti : thread_info) : thread_info :=
  ThreadInfo (Some (<[uuid := info]> (default ∅ (Lane_info_ht ti)))) (Some uuid).

Definition lane_info_delete (ti : thread_info) : thread_info :=
  match Lane_info_ht ti with None => ti | Some _ => ThreadInfo None None end.

Definition lane_info_cleanup (uuid : Z) (ti : thread_info) : thread_info :=
  match Lane_info_ht ti with
  | None => ti
  | Some ht =>
      match ht !! uuid with
      | None => ti
      | Some _ => ThreadInfo (Some (delete uuid ht)) (if bool_decide (Lane_info_cache ti = Some uuid) then None else Lane_info_cache ti)
      end
  end.

(** lane_destroy frees the contexts, lane_cleanup the lanes and the locks; the
    calling thread forgets its record of the pool. *)
Definition lane_cleanup (uuid : Z) (desc : lane_descriptor) (ti : thread_info) : lane_descriptor * thread_info :=
  (LaneDesc (runtime_nlanes desc) (next_lane_idx desc) None None, lane_info_cleanup uuid ti).

(** [mok]: the table, the record and the node of the table can be allocated;
    FATAL otherwise. *)
Definition get_lane_info_record (mok : bool) (uuid : Z) (ti : thread_info) : option (lane_info * thread_info) :=
  if bool_decide (Lane_info_cache ti = Some uuid) then ht ← Lane_info_ht ti; info ← ht !! uuid; Some (info, ti) else
  match default ∅ (Lane_info_ht ti) !! uuid with
  | Some info => Some (info, ThreadInfo (Lane_info_ht ti) (Some uuid))
  | None =>
      if negb mok then None else
      let info := LaneInfo UINT64_MAX 0 0 LANE_PRIMARY_ATTEMPTS in
      Some (info, set_record uuid info ti)
  end.

(** One attempt of get_lane: the compare-and-swap on the lock of the lane. *)
Definition get_lane_try (locks : list Z) (info : lane_info) (nlocks : Z) : option (bool * list Z * lane_info) :=
  let idx := lane_idx info mod nlocks in
  lock ← locks !! Z.to_nat idx;
  if lock =? 0 then
    let info :=
      if idx =? primary info then LaneInfo idx (nest_count info) (primary info) LANE_PRIMARY_ATTEMPTS
      else if primary_attempts info =? 0 then LaneInfo idx (nest_count info) idx LANE_PRIMARY_ATTEMPTS
      else LaneInfo idx (nest_count info) (primary info) (primary_attempts info) in
    Some (true, <[Z.to_nat idx := 1]> locks, info)
  else
    let attempts := if (idx =? primary info) && (0 <? primary_attempts info) then primary_attempts info - 1 else primary_attempts info in
    Some (false, locks, LaneInfo (u64 (idx + 1)) (nest_count info) (primary info) attempts).

(** get_lane without other threads: the attempts, one after the other. *)
Fixpoint get_lane_from (fuel : nat) (locks : list Z) (info : lane_info) (nlocks : Z) : option (list Z * lane_info) :=
  match fuel with
  | O => None
  | S fuel =>
      '(ok, locks, info) ← get_lane_try locks info nlocks;
      if (ok : bool) then Some (locks, info) else get_lane_from fuel locks info nlocks
  end.
Definition get_lane_start (info : lane_info) : lane_info :=
  LaneInfo (primary info) (nest_count info) (primary info) (primary_attempts info).
Definition get_lane (fuel : nat) (locks : list Z) (info : lane_info) (nlocks : Z) : option (list Z * lane_info) :=
  get_lane_from fuel locks (get_lane_start info) nlocks.

(** The first index of a thread (util_fetch_and_add32), and whether a lane has
    to be taken. *)
Definition lane_hold_enter (desc : lane_descriptor) (info : lane_info) : lane_descriptor * lane_info * bool :=
  let '(desc, info) :=
    if lane_idx info =? UINT64_MAX then
      (LaneDesc (runtime_nlanes desc) (u32 (next_lane_idx desc + LANE_JUMP)) (lane_locks desc) (desc_lane desc),
       LaneInfo (next_lane_idx desc) (nest_count info) (next_lane_idx desc) (primary_attempts info))
    else (desc, info) in
  (desc, LaneInfo (lane_idx info) (u64 (nest_count info + 1)) (primary info) (primary_attempts info), nest_count info =? 0).

(** The contexts of the lane are reset in the outermost hold. *)
Definition lane_reinit (l : lane) : lane :=
  Lane (lane_layout l) (operation_init (lane_internal l)) (operation_init (lane_external l)) (operation_init (lane_undo l)).
Definition lane_hold_init (desc : lane_descriptor) (info : lane_info) (lanep : bool) : option (Z * lane_descriptor) :=
  lanes ← desc_lane desc;
  l ← lanes !! Z.to_nat (lane_idx info);
  let lanes := if lanep && (nest_count info =? 1)
    then <[Z.to_nat (lane_idx info) := lane_reinit l]> lanes
    else lanes in
  Some (u32 (lane_idx info), LaneDesc (runtime_nlanes desc) (next_lane_idx desc) (lane_locks desc) (Some lanes)).

Definition lane_hold (fuel : nat) (mok lanep : bool) (uuid : Z) (desc : lane_descriptor) (ti : thread_info)
    : option (Z * lane_descriptor * thread_info) :=
  if runtime_nlanes desc =? 0 then (if lanep then None else Some (RLANE_DEFAULT, desc, ti)) else
  '(info, ti) ← get_lane_info_record mok uuid ti;
  let '(desc, info, take_lane) := lane_hold_enter desc info in
  locks ← lane_locks desc;
  '(locks, info) ← (if (take_lane : bool) then get_lane fuel locks info (runtime_nlanes desc) else Some (locks, info));
  let desc := LaneDesc (runtime_nlanes desc) (next_lane_idx desc) (Some locks) (desc_lane desc) in
  '(idx, desc) ← lane_hold_init desc info lanep;
  Some (idx, desc, set_record uuid info ti).

(** The record and the locks after a release; [None]: FATAL. *)
Definition release_lane (locks : list Z) (info : lane_info) : option (list Z * lane_info) :=
  if nest_count info =? 0 then None else
  let info := LaneInfo (lane_idx info) (nest_count info - 1) (primary info) (primary_attempts info) in
  if nest_count info =? 0 then
    lock ← locks !! Z.to_nat (lane_idx info);
    if lock =? 1 then Some (<[Z.to_nat (lane_idx info) := 0]> locks, info) else None
  else Some (locks, info).

Definition lane_release (mok : bool) (uuid : Z) (desc : lane_descriptor) (ti : thread_info) : option (lane_descriptor * thread_info) :=
  if runtime_nlanes desc =? 0 then Some (desc, ti) else
  '(info, ti) ← get_lane_info_record mok uuid ti;
  locks ← lane_locks desc;
  '(locks, info) ← release_lane locks info;
  Some (LaneDesc (runtime_nlanes desc) (next_lane_idx desc) (Some locks) (desc_lane desc), set_record uuid info ti).
