(* ===== verification/LaneSpec.v ===== *)
(** * Threads and lanes

    The locks of the lanes as a system of threads: holds, attempts and releases
    of any number of threads in any order.  No lane is ever held twice, and a
    thread finds a free lane. *)
From stdpp Require Import base numbers list list_numbers gmap relations.
From Stdlib Require Import ZArith Lia Bool.
From S2P Require Import Prelude Pmem Ulog Memops Container HeapLayout Lane.

(** ** Threads *)

(** A thread is inside of get_lane ([true]) or not, with its record of the pool. *)
Record lanes_state := LanesState { ls_desc : lane_descriptor; ls_threads : gmap nat (bool * lane_info) }.

Definition with_locks (desc : lane_descriptor) (locks : list Z) : lane_descriptor :=
  LaneDesc (runtime_nlanes desc) (next_lane_idx desc) (Some locks) (desc_lane desc).

(** The record that get_lane_info_record creates. *)
Definition new_info : lane_info := LaneInfo UINT64_MAX 0 0 LANE_PRIMARY_ATTEMPTS.

(** Every step is atomic: the fetch-and-add together with the thread's own
    record, one compare-and-swap, a release. *)
Inductive lane_step (s : lanes_state) : lanes_state -> Prop :=
  | thread_starts t : ls_threads s !! t = None -> lane_step s (LanesState (ls_desc s) (<[t := (false, new_info)]> (ls_threads s)))
  | thread_holds t info desc' info' outermost : ls_threads s !! t = Some (false, info) -> nest_count info < UINT64_MAX ->
      lane_hold_enter (ls_desc s) info = (desc', info', outermost) ->
      lane_step s (LanesState desc' (<[t := if (outermost : bool) then (true, get_lane_start info') else (false, info')]> (ls_threads s)))
  | thread_tries t info locks ok locks' info' : ls_threads s !! t = Some (true, info) -> lane_locks (ls_desc s) = Some locks ->
      get_lane_try locks info (runtime_nlanes (ls_desc s)) = Some (ok, locks', info') ->
      lane_step s (LanesState (with_locks (ls_desc s) locks') (<[t := (negb ok, info')]> (ls_threads s)))
  | thread_releases t info locks locks' info' : ls_threads s !! t = Some (false, info) -> lane_locks (ls_desc s) = Some locks ->
      release_lane locks info = Some (locks', info') ->
      lane_step s (LanesState (with_locks (ls_desc s) locks') (<[t := (false, info')]> (ls_threads s))).

(** The pool after lane_boot: no threads, and all the lanes free. *)
Definition lanes_init (nlanes : Z) (s : lanes_state) : Prop :=
  0 < runtime_nlanes (ls_desc s) <= nlanes /\ nlanes < 2 ^ 32 /\ 0 <= next_lane_idx (ls_desc s) < 2 ^ 32 /\
  lane_locks (ls_desc s) = Some (replicate (Z.to_nat nlanes) 0) /\ ls_threads s = ∅.

(** The thread [t] holds the lane [i]. *)
Definition holds (s : lanes_state) (t : nat) (i : Z) : Prop :=
  exists info, ls_threads s !! t = Some (false, info) /\ 0 < nest_count info /\ lane_idx info = i.

Record info_ok (n : Z) (spinning : bool) (info : lane_info) : Prop := InfoOk {
  io_idx : 0 <= lane_idx info;
  io_primary : 0 <= primary info;
  io_nest : 0 <= nest_count info <= UINT64_MAX;
  io_spin : if spinning then nest_count info = 1 else 0 < nest_count info -> lane_idx info < n
}.

Record lanes_inv (n : Z) (s : lanes_state) (locks : list Z) : Prop := LanesInv {
  li_n : runtime_nlanes (ls_desc s) = n /\ 0 < n < 2 ^ 32;
  li_next : 0 <= next_lane_idx (ls_desc s) < 2 ^ 32;
  li_locks : lane_locks (ls_desc s) = Some locks /\ n <= Z.of_nat (length locks);
  li_infos t b info : ls_threads s !! t = Some (b, info) -> info_ok n b info;
  li_holder t i : holds s t i -> locks !! Z.to_nat i = Some 1;
  li_unique t t' i : holds s t i -> holds s t' i -> t = t'
}.

Lemma holds_insert s d t b info t' i : holds (LanesState d (<[t := (b, info)]> (ls_threads s))) t' i ->
  t' = t /\ b = false /\ 0 < nest_count info /\ lane_idx info = i \/ t' <> t /\ holds s t' i.
Proof.
  intros (info' & H1 & H2 & H3). cbn in H1. apply lookup_insert_Some in H1 as [[<- [= -> ->]]|[Hne H1]].
  - left. by repeat split.
  - right. split; [congruence|]. by exists info'.
Qed.

(** A change of a thread that holds nothing afterwards, or still its lane. *)
Lemma inv_thread n s locks d t b0 b info info' : lanes_inv n s locks -> ls_threads s !! t = Some (b0, info) ->
  runtime_nlanes d = n -> 0 <= next_lane_idx d < 2 ^ 32 -> lane_locks d = Some locks -> info_ok n b info' ->
  (forall i, b = false -> 0 < nest_count info' -> lane_idx info' = i -> holds s t i) ->
  lanes_inv n (LanesState d (<[t := (b, info')]> (ls_threads s))) locks.
Proof.
  intros [H1 H2 H3 H4 H5 H6] Ht D1 D2 D3 Hok Hh. constructor; cbn; try done; [by split; [|apply H1]|by split; [|apply H3]| | |].
  - intros t' b' i' Hl. apply lookup_insert_Some in Hl as [[<- [= <- <-]]|[_ Hl]]; [done|by eapply H4].
  - intros t' i Hi. apply holds_insert in Hi as [(-> & Hb & Hn & Hl)|[_ Hi]]; [|by eapply H5]. eapply H5, Hh; done.
  - intros t1 t2 i Hi1 Hi2. assert (forall t', holds (LanesState d (<[t := (b, info')]> (ls_threads s))) t' i -> holds s t' i) as Hall.
    { intros t' Hi. apply holds_insert in Hi as [(-> & Hb & Hn & Hl)|[_ Hi]]; [by apply Hh|done]. }
    apply (H6 t1 t2 i); by apply Hall.
Qed.

Lemma try_inv n s locks t info ok locks' info' : lanes_inv n s locks -> ls_threads s !! t = Some (true, info) ->
  get_lane_try locks info n = Some (ok, locks', info') ->
  lanes_inv n (LanesState (with_locks (ls_desc s) locks') (<[t := (negb ok, info')]> (ls_threads s))) locks'.
Proof.
  intros HI Ht E. pose proof HI as [[N1 N2] H2 [H3 H3'] H4 H5 H6]. destruct (H4 t true info Ht) as [O1 O2 O3 O4].
  pose proof (Z.mod_pos_bound (lane_idx info) n ltac:(lia)) as Hm. unfold get_lane_try in E. set (idx := lane_idx info mod n) in *.
  assert (forall i, ~ holds s t i) as Hnot by (intros i (? & Hl & _ & _); congruence).
  destruct (locks !! Z.to_nat idx) as [lock|] eqn:El; [|done]. cbn [mbind option_bind] in E. destruct (Z.eqb_spec lock 0) as [->|Hl]; injection E as <- <- <-; cbn [negb].
  - set (info1 := if idx =? primary info then _ else _). assert (lane_idx info1 = idx /\ nest_count info1 = 1 /\ 0 <= primary info1) as (J1 & J2 & J3).
    { unfold info1. destruct (idx =? primary info), (primary_attempts info =? 0); cbn; repeat split; try done; lia. }
    constructor; cbn [ls_desc with_locks runtime_nlanes next_lane_idx lane_locks ls_threads]; try done; [by rewrite length_insert| | |].
    + intros t' b' i' Hi. apply lookup_insert_Some in Hi as [[<- [= <- <-]]|[_ Hi]]; [|by eapply H4].
      constructor; [lia|lia|unfold UINT64_MAX; lia|lia].
    + intros t' i Hi. apply holds_insert in Hi as [(-> & _ & _ & <-)|[Hne Hi]].
      * rewrite J1. apply list_lookup_insert_eq. by eapply lookup_lt_Some.
      * pose proof (H5 t' i Hi) as Hli. rewrite list_lookup_insert_ne; [done|]. intros Heq. rewrite Heq in El. congruence.
    + intros t1 t2 i Hi1 Hi2. 
      assert (forall t', holds s t' i -> locks !! Z.to_nat i = Some 1) as Hone by (intros t' Hi; by eapply H5).
      apply holds_insert in Hi1 as [(-> & _ & _ & E1)|[Hn1 Hi1]], Hi2 as [(-> & _ & _ & E2)|[Hn2 Hi2]]; [done| | |by eapply H6].
      * specialize (Hone _ Hi2). rewrite <- E1, J1 in Hone. congruence.
      * specialize (Hone _ Hi1). rewrite <- E2, J1 in Hone. congruence.
  - apply (inv_thread n s locks (with_locks (ls_desc s) locks) t true true info); try done.
    constructor; cbn; [apply u64_range|done|done|done].
Qed.

Lemma enter_inv n s locks t info desc' info' outermost : lanes_inv n s locks -> ls_threads s !! t = Some (false, info) -> nest_count info < UINT64_MAX ->
  lane_hold_enter (ls_desc s) info = (desc', info', outermost) ->
  lanes_inv n (LanesState desc' (<[t := if outermost then (true, get_lane_start info') else (false, info')]> (ls_threads s))) locks.
Proof.
  intros HI Ht Hn E. pose proof HI as [[N1 N2] H2 [H3 H3'] H4 H5 H6]. destruct (H4 t false info Ht) as [O1 O2 O3 O4].
  unfold lane_hold_enter in E. assert (0 <= u32 (next_lane_idx (ls_desc s) + LANE_JUMP) < 2 ^ 32) as Hu by (apply Z.mod_pos_bound; lia).
  assert (UINT64_MAX = 2 ^ 64 - 1) as HM by done.
  destruct (Z.eqb_spec (lane_idx info) UINT64_MAX) as [Hi|Hi]; injection E as <- <- <-; cbn [nest_count lane_idx primary primary_attempts];
    destruct (Z.eqb_spec (nest_count info) 0) as [Hz|Hz].
  - apply (inv_thread n s locks _ t false true info); try done. constructor; cbn; rewrite ?Hz; try done; lia.
  - exfalso. specialize (O4 ltac:(lia)). lia.
  - apply (inv_thread n s locks _ t false true info); try done. constructor; cbn; rewrite ?Hz; try done; lia.
  - apply (inv_thread n s locks _ t false false info); try done.
    + constructor; cbn; rewrite ?u64_small by lia; try done; try lia.
    + intros i _ _ <-. exists info. split; [done|]. split; [lia|done].
Qed.

Lemma release_inv n s locks t info locks' info' : lanes_inv n s locks -> ls_threads s !! t = Some (false, info) ->
  release_lane locks info = Some (locks', info') ->
  lanes_inv n (LanesState (with_locks (ls_desc s) locks') (<[t := (false, info')]> (ls_threads s))) locks'.
Proof.
  intros HI Ht E. pose proof HI as [[N1 N2] H2 [H3 H3'] H4 H5 H6]. destruct (H4 t false info Ht) as [O1 O2 O3 O4].
  unfold release_lane in E. destruct (Z.eqb_spec (nest_count info) 0) as [|Hz]; [done|]. cbn [nest_count lane_idx] in E.
  assert (holds s t (lane_idx info)) as Hh by (exists info; split; [done|]; split; [lia|done]).
  destruct (Z.eqb_spec (nest_count info - 1) 0) as [H1|H1].
  - destruct (locks !! Z.to_nat (lane_idx info)) as [lock|] eqn:El; [|done]. cbn [mbind option_bind] in E. destruct (Z.eqb_spec lock 1) as [->|]; [|done].
    injection E as <- <-. constructor; cbn [ls_desc with_locks runtime_nlanes next_lane_idx lane_locks ls_threads]; try done; [by rewrite length_insert| | |].
    + intros t' b' i' Hi. apply lookup_insert_Some in Hi as [[<- [= <- <-]]|[_ Hi]]; [|by eapply H4]. constructor; cbn; try done; lia.
    + intros t' i Hi. apply holds_insert in Hi as [(_ & _ & Hn & _)|[Hne Hi]]; [cbn in Hn; lia|].
      rewrite list_lookup_insert_ne; [by eapply H5|]. intros Heq. destruct Hi as (info2 & Ht2 & Hn2 & <-). destruct (H4 _ _ _ Ht2) as [P1 _ _ _].
      assert (lane_idx info = lane_idx info2) as Heq' by lia. destruct Hne. apply (H6 t' t (lane_idx info)); [|done].
      rewrite Heq'. by exists info2.
    + intros t1 t2 i Hi1 Hi2. apply holds_insert in Hi1 as [(_ & _ & Hn & _)|[_ Hi1]], Hi2 as [(_ & _ & Hn' & _)|[_ Hi2]]; cbn in *; try lia. by eapply H6.
  - injection E as <- <-. apply (inv_thread n s locks _ t false false info); try done.
    + constructor; cbn; try done; try lia.
    + intros i _ _ <-. done.
Qed.

Lemma step_inv n s locks s' : lanes_inv n s locks -> lane_step s s' -> exists locks', lanes_inv n s' locks'.
Proof.
  intros HI Hs. pose proof HI as [[N1 N2] H2 [H3 H3'] H4 H5 H6]. destruct Hs as [t Ht|t info desc' info' o Ht Hn E|t info lk ok locks' info' Ht El E|t info lk locks' info' Ht El E].
  - exists locks. constructor; cbn; try done.
    + intros t' b' i' Hi. apply lookup_insert_Some in Hi as [[<- [= <- <-]]|[_ Hi]]; [|by eapply H4]. by constructor.
    + intros t' i Hi. apply holds_insert in Hi as [(_ & _ & Hn & _)|[_ Hi]]; [cbn in Hn; lia|by eapply H5].
    + intros t1 t2 i Hi1 Hi2. apply holds_insert in Hi1 as [(_ & _ & Hn & _)|[_ Hi1]], Hi2 as [(_ & _ & Hn' & _)|[_ Hi2]]; cbn in *; try lia. by eapply H6.
  - exists locks. by eapply enter_inv.
  - rewrite H3 in El. injection El as <-. rewrite N1 in E. exists locks'. by eapply try_inv.
  - rewrite H3 in El. injection El as <-. exists locks'. by eapply release_inv.
Qed.

Lemma reachable_inv nlanes s0 s : lanes_init nlanes s0 -> rtc lane_step s0 s -> exists locks, lanes_inv (runtime_nlanes (ls_desc s0)) s locks.
Proof.
  intros (I1 & I2 & I3 & I4 & I5) Hs.
  assert (exists locks, lanes_inv (runtime_nlanes (ls_desc s0)) s0 locks) as Hinv.
  { exists (replicate (Z.to_nat nlanes) 0). assert (forall t, ls_threads s0 !! t = None) as Hnone by (intros t; rewrite I5; done).
    constructor; try done; [split; [done|lia]|split; [done|rewrite length_replicate; lia]| | |].
    - intros t b info Hl. by rewrite Hnone in Hl.
    - intros t i (info & Hl & _). by rewrite Hnone in Hl.
    - intros t t' i (info & Hl & _). by rewrite Hnone in Hl. }
  revert Hinv. generalize (runtime_nlanes (ls_desc s0)). intros n. clear -Hs. induction Hs as [|s s1 s2 H1 _ IH]; [done|].
  intros [locks HI]. apply IH. by eapply step_inv.
Qed.

(** C13. Lanes are exclusive.  Through any interleaving of any number of threads
    that start, hold lanes (nested, too), try the locks and release: a lane that
    a thread holds exists, no other thread holds it, and the compare-and-swap of
    its release succeeds (lane_release is not FATAL). *)
Theorem lane_held_once nlanes s0 s t i : lanes_init nlanes s0 -> rtc lane_step s0 s -> holds s t i ->
  0 <= i < nlanes /\ (forall t', holds s t' i -> t' = t) /\
  (forall info locks, ls_threads s !! t = Some (false, info) -> lane_locks (ls_desc s) = Some locks -> release_lane locks info <> None).
Proof.
  intros H0 Hs Hh. destruct (reachable_inv nlanes s0 s H0 Hs) as (locks & [[N1 N2] H2 [H3 H3'] H4 H5 H6]).
  pose proof Hh as (info & Ht & Hn & <-). destruct (H4 _ _ _ Ht) as [O1 O2 O3 O4]. destruct H0 as (I1 & _). split; [specialize (O4 Hn); lia|].
  split; [intros t' Ht'; by eapply H6|]. intros info' locks' Ht' El. rewrite Ht in Ht'. injection Ht' as <-. rewrite H3 in El. injection El as <-.
  unfold release_lane. destruct (Z.eqb_spec (nest_count info) 0); [lia|]. cbn [nest_count lane_idx]. destruct (nest_count info - 1 =? 0); [|done].
  by rewrite (H5 t (lane_idx info) Hh).
Qed.

(** ** Finding a lane *)

(** A free lane is [d] attempts away. *)
Lemma get_lane_from_free n locks : 0 < n < 2 ^ 32 -> n <= Z.of_nat (length locks) -> forall fuel info d, 0 <= lane_idx info -> 0 <= d < Z.of_nat fuel ->
  locks !! Z.to_nat ((lane_idx info + d) mod n) = Some 0 ->
  exists idx info', get_lane_from fuel locks info n = Some (<[Z.to_nat idx := 1]> locks, info') /\ 0 <= idx < n /\
    locks !! Z.to_nat idx = Some 0 /\ lane_idx info' = idx /\ nest_count info' = nest_count info.
Proof.
  intros Hn Hl. induction fuel as [|fuel IH]; intros info d Hi Hd Hf; [lia|]. cbn [get_lane_from]. unfold get_lane_try.
  pose proof (Z.mod_pos_bound (lane_idx info) n ltac:(lia)) as Hm. set (idx := lane_idx info mod n) in *.
  destruct (locks !! Z.to_nat idx) as [lock|] eqn:El; [|apply lookup_ge_None in El; lia]. cbn [mbind option_bind].
  destruct (Z.eqb_spec lock 0) as [->|Hne].
  - cbn [mbind option_bind]. eexists idx, _. split; [reflexivity|]. split; [done|]. split; [done|].
    destruct (idx =? primary info), (primary_attempts info =? 0); done.
  - cbn [mbind option_bind]. assert (d <> 0) as Hd0 by (intros ->; rewrite Z.add_0_r in Hf; fold idx in Hf; congruence).
    set (info1 := LaneInfo _ _ _ _). assert (lane_idx info1 = idx + 1) as Hi1 by (unfold info1; cbn; apply u64_small; lia).
    destruct (IH info1 (d - 1)) as (j & info' & E & J1 & J2 & J3 & J4); [lia|lia| |by exists j, info'].
    rewrite Hi1. replace (idx + 1 + (d - 1)) with (idx + d) by lia. unfold idx. by rewrite Zplus_mod_idemp_l.
Qed.

(** C14. A free lane is found.  If some lane is free and no other thread
    interferes, get_lane returns after at most as many attempts as there are
    lanes; it has locked one lane that was free and no other. *)
Theorem get_lane_finds_free n locks info i : 0 < n < 2 ^ 32 -> n <= Z.of_nat (length locks) -> 0 <= primary info -> 0 <= i < n ->
  locks !! Z.to_nat i = Some 0 ->
  exists idx info', get_lane (Z.to_nat n) locks info n = Some (<[Z.to_nat idx := 1]> locks, info') /\ 0 <= idx < n /\
    locks !! Z.to_nat idx = Some 0 /\ lane_idx info' = idx /\ nest_count info' = nest_count info.
Proof.
  intros Hn Hl Hp Hi Hf. pose proof (Z.mod_pos_bound (i - primary info) n ltac:(lia)) as Hm.
  apply (get_lane_from_free n locks Hn Hl (Z.to_nat n) (get_lane_start info) ((i - primary info) mod n)); cbn [get_lane_start lane_idx]; [lia|lia|].
  rewrite Zplus_mod_idemp_r. replace (primary info + (i - primary info)) with i by lia. by rewrite Z.mod_small.
Qed.

Lemma get_lane_finds_free_witness :
  exists idx info', get_lane (Z.to_nat 4) [1; 0; 1; 1] (LaneInfo 0 1 2 128) 4 = Some (<[Z.to_nat idx := 1]> [1; 0; 1; 1], info') /\ 0 <= idx < 4 /\
    [1; 0; 1; 1] !! Z.to_nat idx = Some 0 /\ lane_idx info' = idx /\ nest_count info' = 1.
Proof. apply (get_lane_finds_free 4 [1; 0; 1; 1] (LaneInfo 0 1 2 128) 1); cbn; [lia|lia|lia|lia|reflexivity]. Defined.

(** A primary index that is not below the number of lanes is never replaced,
    however often the lane it stands for is taken: get_lane compares it with the
    reduced index. *)
Lemma get_lane_from_primary n : 0 < n -> forall fuel locks info locks' info', 0 <= lane_idx info -> n <= primary info -> 0 < primary_attempts info ->
  get_lane_from fuel locks info n = Some (locks', info') -> primary info' = primary info /\ primary_attempts info' = primary_attempts info.
Proof.
  intros Hn. induction fuel as [|fuel IH]; intros locks info locks' info' Hi Hp Ha E; [done|]. cbn [get_lane_from] in E. unfold get_lane_try in E.
  pose proof (Z.mod_pos_bound (lane_idx info) n ltac:(lia)) as Hm. destruct (locks !! _) as [lock|]; [|done]. cbn [mbind option_bind] in E.
  destruct (Z.eqb_spec (lane_idx info mod n) (primary info)); [lia|]. destruct (lock =? 0); cbn [mbind option_bind andb] in E.
  - destruct (Z.eqb_spec (primary_attempts info) 0); [lia|]. injection E as _ <-. done.
  - apply IH in E; cbn [lane_idx primary primary_attempts] in *; [done|apply u64_range|done|done].
Qed.

Theorem primary_beyond_lanes_stays n fuel locks info locks' info' : 0 < n <= primary info -> 0 < primary_attempts info ->
  get_lane fuel locks info n = Some (locks', info') -> primary info' = primary info /\ primary_attempts info' = primary_attempts info.
Proof. intros [Hn Hp] Ha E. apply (get_lane_from_primary n Hn) in E; cbn [get_lane_start primary primary_attempts lane_idx] in *; try done. lia. Qed.

(** ** Failures that are not reported *)

(** A failure that is not reported.  When the locks of the lanes cannot be
    allocated, lane_boot frees the lanes and returns 0, as after a success; the
    recovery that follows cannot succeed any more, it dereferences the NULL
    pointer to the lanes. *)
Theorem lane_boot_without_locks fuel p_ops pmc boot pfree cache push allocs desc pop s :
  exists desc', lane_boot fuel p_ops pmc pfree cache true false allocs desc pop s = Some (0, desc', s) /\ lane_locks desc' = None /\
    forall err desc'' ws, lane_recover_and_section_boot fuel p_ops boot push desc' (pop, s) = Some (err, desc'', ws) -> err <> 0.
Proof.
  eexists. split; [reflexivity|]. split; [done|]. intros err desc'' ws E. unfold lane_recover_and_section_boot in E.
  destruct (recover_redo_from _ _ _ _ _) as [s1|]; [|done]. cbn [mbind option_bind] in E. destruct (boot _) as [err' ws'].
  destruct (Z.eqb_spec err' 0) as [|Hne]; [done|]. cbn [negb] in E. injection E as <- _ _. done.
Qed.

Lemma check_from_zero fuel p_ops pop s n : forall j r, lane_check_from fuel p_ops n j 0 pop s = Some r -> r = 0.
Proof.
  induction n as [|n IH]; intros j r E; cbn [lane_check_from] in E; [by injection E|]. destruct (ulog_check _ _ _ _ _) as [r'|]; [|done].
  cbn [mbind option_bind] in E. destruct (negb (r' =? 0)); [by injection E|]. by eapply IH.
Qed.

(** lane_check never fails, whatever it finds in the logs. *)
Theorem lane_check_never_fails fuel p_ops pop s r : lane_check fuel p_ops pop s = Some r -> r = 0.
Proof. apply check_from_zero. Qed.

(** ** An instance: four lanes, two threads *)

Definition ex_desc (next : Z) (locks : list Z) : lane_descriptor := LaneDesc 4 next (Some locks) None.
Definition ex_lanes : lanes_state := LanesState (ex_desc 0 [0; 0; 0; 0]) ∅.
Definition ex_lanes_held : lanes_state :=
  LanesState (ex_desc 16 [1; 1; 0; 0]) {[ 0%nat := (false, LaneInfo 0 1 0 128); 1%nat := (false, LaneInfo 1 1 8 128) ]}.

(** The steps of a thread as a function. *)
Inductive lane_op := OpStart | OpHold | OpTry | OpRelease.
Definition lane_exec (t : nat) (op : lane_op) (s : lanes_state) : option lanes_state :=
  match op, ls_threads s !! t with
  | OpStart, None => Some (LanesState (ls_desc s) (<[t := (false, new_info)]> (ls_threads s)))
  | OpHold, Some (false, info) =>
      if nest_count info <? UINT64_MAX then
        let '(desc', info', outermost) := lane_hold_enter (ls_desc s) info in
        Some (LanesState desc' (<[t := if (outermost : bool) then (true, get_lane_start info') else (false, info')]> (ls_threads s)))
      else None
  | OpTry, Some (true, info) =>
      locks ← lane_locks (ls_desc s);
      '(ok, locks', info') ← get_lane_try locks info (runtime_nlanes (ls_desc s));
      Some (LanesState (with_locks (ls_desc s) locks') (<[t := (negb ok, info')]> (ls_threads s)))
  | OpRelease, Some (false, info) =>
      locks ← lane_locks (ls_desc s);
      '(locks', info') ← release_lane locks info;
      Some (LanesState (with_locks (ls_desc s) locks') (<[t := (false, info')]> (ls_threads s)))
  | _, _ => None
  end.
Fixpoint lane_run (ops : list (nat * lane_op)) (s : lanes_state) : option lanes_state :=
  match ops with [] => Some s | (t, op) :: ops => s ← lane_exec t op s; lane_run ops s end.

Lemma lane_exec_step t op s s' : lane_exec t op s = Some s' -> lane_step s s'.
Proof.
  unfold lane_exec. destruct op, (ls_threads s !! t) as [[[] info]|] eqn:Et; intros E; try done.
  - injection E as <-. by apply thread_starts.
  - destruct (Z.ltb_spec (nest_count info) UINT64_MAX); [|done]. destruct (lane_hold_enter (ls_desc s) info) as [[d i] o] eqn:Ee. injection E as <-.
    by eapply thread_holds.
  - destruct (lane_locks (ls_desc s)) as [locks|] eqn:El; [|done]. cbn [mbind option_bind] in E.
    destruct (get_lane_try locks info _) as [[[ok l] i]|] eqn:Eg; [|done]. injection E as <-. by eapply thread_tries.
  - destruct (lane_locks (ls_desc s)) as [locks|] eqn:El; [|done]. cbn [mbind option_bind] in E.
    destruct (release_lane locks info) as [[l i]|] eqn:Eg; [|done]. injection E as <-. by eapply thread_releases.
Qed.

Lemma lane_run_steps ops : forall s s', lane_run ops s = Some s' -> rtc lane_step s s'.
Proof.
  induction ops as [|[t op] ops IH]; intros s s' E; cbn [lane_run] in E; [injection E as <-; apply rtc_refl|].
  destruct (lane_exec t op s) as [s1|] eqn:Ee; [|done]. eapply rtc_l; [by eapply lane_exec_step|by apply IH].
Qed.

Lemma ex_lanes_run : rtc lane_step ex_lanes ex_lanes_held.
Proof.
  apply (lane_run_steps [(0%nat, OpStart); (0%nat, OpHold); (0%nat, OpTry); (1%nat, OpStart); (1%nat, OpHold); (1%nat, OpTry); (1%nat, OpTry)]).
  vm_compute. reflexivity.
Qed.

Lemma lane_held_once_witness :
  0 <= 1 < 4 /\ (forall t', holds ex_lanes_held t' 1 -> t' = 1%nat) /\
  (forall info locks, ls_threads ex_lanes_held !! 1%nat = Some (false, info) -> lane_locks (ls_desc ex_lanes_held) = Some locks -> release_lane locks info <> None).
Proof.
  apply (lane_held_once 4 ex_lanes ex_lanes_held 1 1).
  - repeat split; vm_compute; congruence.
  - exact ex_lanes_run.
  - eexists. split; [reflexivity|]. by split.
Defined.
