(* ===== verification/Tx.v ===== *)
(** * Transactions (libpmemobj/tx.c)

    A thread has one transaction with a stack of nested ones.  It moves through
    stages; memory that is added to it is snapshotted in the undo log of the
    thread's lane once, which the tree of ranges takes care of; allocations are
    actions that are published or cancelled at the end.  An API function is a
    function on [tx_state]: the transaction, the lane that lane_hold gives to the
    thread, the pool with its memory, the volatile state of the heap, and a log
    of the calls to locks and callbacks.  A lock is taken and released where it
    is, in the memory of the pool, by the functions of Sync.v.  It returns, or leaves with longjmp
    ([Jump]).  [None] is FATAL, a NULL dereference, or out of fuel.  Valgrind
    annotations and assertions do not appear. *)
From stdpp Require Import base numbers list list_numbers.
From Stdlib Require Import ZArith Lia Bool.
From S2P Require Import Prelude Pmem Ulog Ravl Memops Sync Container HeapLayout Memblock Lane.

Definition EINVAL : Z := 22.
Definition ECANCELED : Z := 125.
Definition POBJ_FLAG_ZERO : Z := Z.shiftl 1 0.
Definition POBJ_FLAG_NO_FLUSH : Z := Z.shiftl 1 1.
Definition POBJ_FLAG_NO_SNAPSHOT : Z := Z.shiftl 1 2.
Definition POBJ_FLAG_ASSUME_INITIALIZED : Z := Z.shiftl 1 3.
Definition POBJ_XADD_VALID_FLAGS : Z :=
  Z.lor (Z.lor POBJ_FLAG_NO_FLUSH POBJ_FLAG_NO_SNAPSHOT) POBJ_FLAG_ASSUME_INITIALIZED.
Definition POBJ_TX_XALLOC_VALID_FLAGS : Z :=
  Z.lor (Z.lor POBJ_FLAG_ZERO POBJ_FLAG_NO_FLUSH) (Z.lor (Z.shiftl (2 ^ 16 - 1) 32) (Z.shiftl (2 ^ 16 - 1) 48)).
Definition PMEMOBJ_MAX_ALLOC_SIZE : Z := 17177771968.
Definition POBJ_CL_SIZE : Z := 64.

(** ** Data *)

Inductive pobj_tx_stage := TX_STAGE_NONE | TX_STAGE_WORK | TX_STAGE_ONCOMMIT | TX_STAGE_ONABORT | TX_STAGE_FINALLY.
Inductive pobj_log_type := TX_LOG_TYPE_SNAPSHOT | TX_LOG_TYPE_INTENT.
(** TX_PARAM_MUTEX and TX_PARAM_RWLOCK. *)
Inductive tx_lock_type := LOCK_MUTEX | LOCK_RWLOCK.

#[global] Instance pobj_tx_stage_eq : EqDecision pobj_tx_stage.
Proof. solve_decision. Defined.
#[global] Instance tx_lock_type_eq : EqDecision tx_lock_type.
Proof. solve_decision. Defined.

Record tx_lock_data := TxLock { lock_addr : Z; lock_type : tx_lock_type }.
Record tx_range_def := RangeDef { r_offset : Z; r_size : Z; r_flags : Z }.

(** [struct pobj_action_internal] of palloc.c: its type with the data of the type. *)
Inductive pobj_action :=
  | ActHeap (lock offset : Z) (new_state : memblock_state) (m : memory_block) (mresv : Z)
  | ActMem (ptr value : Z).

Definition palloc_set_value (ptr value : Z) : pobj_action := ActMem ptr value.

Record PMEMoid := Oid { pool_uuid_lo : Z; oid_off : Z }.
Definition OID_NULL : PMEMoid := Oid 0 0.

Record tx := Tx {
  tx_pop : Z;
  stage : pobj_tx_stage;
  last_errnum : Z;
  tx_lane : bool;                        (* the lane is held *)
  tx_locks : list tx_lock_data;
  tx_entries : list Z;                   (* the jmp_buf of each nested transaction, 0 for none *)
  ranges : option (ravl tx_range_def);   (* None: NULL *)
  actions : list pobj_action;
  redo_userbufs : list user_buffer_def;
  redo_userbufs_capacity : Z;
  stage_callback : Z;
  stage_callback_arg : Z;
  first_snapshot : bool
}.

Inductive tx_event :=
  | EvLock (t : tx_lock_type) (lock : Z) | EvUnlock (t : tx_lock_type) (lock : Z)
  | EvCallback (cb pop : Z) (s : pobj_tx_stage) (arg : Z) | EvHold | EvRelease.

(** ** Field updates *)

Definition set_stage (s : pobj_tx_stage) (t : tx) : tx :=
  Tx (tx_pop t) s (last_errnum t) (tx_lane t) (tx_locks t) (tx_entries t) (ranges t) (actions t)
    (redo_userbufs t) (redo_userbufs_capacity t) (stage_callback t) (stage_callback_arg t) (first_snapshot t).
Definition set_pop (p : Z) (t : tx) : tx :=
  Tx p (stage t) (last_errnum t) (tx_lane t) (tx_locks t) (tx_entries t) (ranges t) (actions t)
    (redo_userbufs t) (redo_userbufs_capacity t) (stage_callback t) (stage_callback_arg t) (first_snapshot t).
Definition set_errnum (n : Z) (t : tx) : tx :=
  Tx (tx_pop t) (stage t) n (tx_lane t) (tx_locks t) (tx_entries t) (ranges t) (actions t)
    (redo_userbufs t) (redo_userbufs_capacity t) (stage_callback t) (stage_callback_arg t) (first_snapshot t).
Definition set_lane (b : bool) (t : tx) : tx :=
  Tx (tx_pop t) (stage t) (last_errnum t) b (tx_locks t) (tx_entries t) (ranges t) (actions t)
    (redo_userbufs t) (redo_userbufs_capacity t) (stage_callback t) (stage_callback_arg t) (first_snapshot t).
Definition set_locks (l : list tx_lock_data) (t : tx) : tx :=
  Tx (tx_pop t) (stage t) (last_errnum t) (tx_lane t) l (tx_entries t) (ranges t) (actions t)
    (redo_userbufs t) (redo_userbufs_capacity t) (stage_callback t) (stage_callback_arg t) (first_snapshot t).
Definition set_entries (l : list Z) (t : tx) : tx :=
  Tx (tx_pop t) (stage t) (last_errnum t) (tx_lane t) (tx_locks t) l (ranges t) (actions t)
    (redo_userbufs t) (redo_userbufs_capacity t) (stage_callback t) (stage_callback_arg t) (first_snapshot t).
Definition set_ranges (r : option (ravl tx_range_def)) (t : tx) : tx :=
  Tx (tx_pop t) (stage t) (last_errnum t) (tx_lane t) (tx_locks t) (tx_entries t) r (actions t)
    (redo_userbufs t) (redo_userbufs_capacity t) (stage_callback t) (stage_callback_arg t) (first_snapshot t).
Definition set_actions (l : list pobj_action) (t : tx) : tx :=
  Tx (tx_pop t) (stage t) (last_errnum t) (tx_lane t) (tx_locks t) (tx_entries t) (ranges t) l
    (redo_userbufs t) (redo_userbufs_capacity t) (stage_callback t) (stage_callback_arg t) (first_snapshot t).
Definition set_userbufs (l : list user_buffer_def) (n : Z) (t : tx) : tx :=
  Tx (tx_pop t) (stage t) (last_errnum t) (tx_lane t) (tx_locks t) (tx_entries t) (ranges t) (actions t)
    l n (stage_callback t) (stage_callback_arg t) (first_snapshot t).
Definition set_callback (cb arg : Z) (t : tx) : tx :=
  Tx (tx_pop t) (stage t) (last_errnum t) (tx_lane t) (tx_locks t) (tx_entries t) (ranges t) (actions t)
    (redo_userbufs t) (redo_userbufs_capacity t) cb arg (first_snapshot t).
Definition set_first (b : bool) (t : tx) : tx :=
  Tx (tx_pop t) (stage t) (last_errnum t) (tx_lane t) (tx_locks t) (tx_entries t) (ranges t) (actions t)
    (redo_userbufs t) (redo_userbufs_capacity t) (stage_callback t) (stage_callback_arg t) b.

(** A thread that has not begun a transaction. *)
Definition tx_init : tx := Tx 0 TX_STAGE_NONE 0 false [] [] None [] [] 0 0 0 false.

(** ** The monad *)

Inductive outcome (A : Type) := Ret (a : A) | Jump (env errnum : Z).
Arguments Ret {A}.
Arguments Jump {A}.

Section Tx.
Context {H : Type}.

Record tx_state := TxState {
  st_tx : tx; st_lane : lane; st_ws : world; st_heap : H; st_events : list tx_event }.

Definition TX (A : Type) : Type := tx_state -> option (outcome A * tx_state).
Definition ret {A} (a : A) : TX A := fun st => Some (Ret a, st).
Definition bind {A B} (m : TX A) (k : A -> TX B) : TX B := fun st =>
  match m st with
  | Some (Ret a, st) => k a st
  | Some (Jump e n, st) => Some (Jump e n, st)
  | None => None
  end.
Definition fatal {A} : TX A := fun _ => None.
Definition get_tx : TX tx := fun st => Some (Ret (st_tx st), st).
Definition modify (f : tx -> tx) : TX unit := fun st =>
  Some (Ret tt, TxState (f (st_tx st)) (st_lane st) (st_ws st) (st_heap st) (st_events st)).
Definition emit (e : tx_event) : TX unit := fun st =>
  Some (Ret tt, TxState (st_tx st) (st_lane st) (st_ws st) (st_heap st) (st_events st ++ [e])).
Definition lift {A} (o : option A) : TX A := fun st => a ← o; Some (Ret a, st).
Definition on_mem (f : pmst -> pmst) : TX unit := fun st =>
  Some (Ret tt, TxState (st_tx st) (st_lane st) ((st_ws st).1, f (st_ws st).2) (st_heap st) (st_events st)).
Definition get_world : TX world := fun st => Some (Ret (st_ws st), st).
Definition the_lane : TX lane := fun st => Some (Ret (st_lane st), st).
End Tx.
Arguments tx_state : clear implicits.
Arguments TX : clear implicits.

Declare Scope tx_scope.
Delimit Scope tx_scope with tx.
Notation "x <- m ;; k" := (bind m (fun x => k)) (at level 100, m at next level, right associativity) : tx_scope.
Notation "m ;; k" := (bind m (fun _ => k)) (at level 100, right associativity) : tx_scope.
#[global] Open Scope tx_scope.

(** ** Environment *)

(** The locks of the operating system, on the bytes behind the run id of a lock of
    the pool; [None]: the call blocks. *)
Record os_locks := OsLocks {
  os_init : tx_lock_type -> list byte -> Z * list byte;
  os_lock : tx_lock_type -> list byte -> option (Z * list byte);
  os_unlock : tx_lock_type -> list byte -> option (Z * list byte)
}.

(** What the allocations of a call return, the run of the program, and its locks. *)
Record tx_env := TxEnv {
  e_fuel : nat;
  e_inc : nat -> bool;     (* the vector of actions can grow, for each push *)
  e_junk : pobj_action;    (* the content of a new element *)
  e_node : Z;              (* the node of a new range *)
  e_range : bool;          (* the ranges of tx_restore_range *)
  e_push : nat -> bool;    (* the vector of ulog_free_next *)
  e_userbuf : bool;        (* the vector of user buffers can grow *)
  e_errno : Z;             (* errno after a failed reservation of log space *)
  e_run_id : Z;            (* pop->run_id *)
  e_os : os_locks
}.

(** The persistent allocator (palloc.c), on the pool and its own volatile state
    [H]; [args] are the flags, the source and the size of the copy. *)
Record palloc_fns (H : Type) := Palloc {
  palloc_reserve : forall (size type_num class_id arena_id : Z) (args : Z * Z * Z), world -> H -> option (option pobj_action * world * H);
  palloc_defer_free : forall (off : Z), world -> H -> pobj_action;
  palloc_cancel : list pobj_action -> world -> H -> option (world * H);
  palloc_publish : list pobj_action -> operation_context -> world -> H -> option (operation_context * world * H);
  palloc_usable_size : forall (off : Z), world -> H -> Z
}.
Arguments palloc_reserve {H}.
Arguments palloc_defer_free {H}.
Arguments palloc_cancel {H}.
Arguments palloc_publish {H}.
Arguments palloc_usable_size {H}.

Definition OBJ_OFF_TO_PTR (pop off : Z) : Z := u64 (pop + off).
Definition OBJ_PTR_FROM_POOL (pop : PMEMobjpool) (a ptr : Z) : bool :=
  (a <=? ptr) && (ptr <? u64 (u64 (a + heap_offset pop) + heap_size pop)).

Definition tx_range_def_cmp (l r : tx_range_def) : Z :=
  if r_offset r <? r_offset l then 1 else if r_offset l <? r_offset r then -1 else 0.

(** ** Undoing *)

(** tx_remove_range: [front] are the ranges in front of the current one; new
    ranges are inserted at the head. *)
Fixpoint tx_remove_range (front ranges : list (Z * Z)) (begin end_ : Z) : list (Z * Z) :=
  match ranges with
  | [] => front
  | r :: ranges =>
      if (r.2 <=? begin) || (end_ <? r.1) then tx_remove_range (front ++ [r]) ranges begin end_ else
      let front := if r.1 <? begin then (r.1, begin) :: front else front in
      let front := if end_ <? r.2 then (end_, r.2) :: front else front in
      tx_remove_range front ranges begin end_
  end.

Definition restore_one (p_ops : pmem_ops) (range dst_ptr : Z) (r : Z * Z) (s : pmst) : pmst :=
  pmemops_memcpy p_ops r.1 (entry_data range + (r.1 - dst_ptr)) (u64 (r.2 - r.1)) 0 s.

Definition tx_restore_range (p_ops : pmem_ops) (pop : Z) (locks : list tx_lock_data) (range : Z) (s : pmst) : pmst :=
  let begin := OBJ_OFF_TO_PTR pop (ulog_entry_offset (vis s) range) in
  let end_ := begin + load64 (vis s) (entry_size_addr range) in
  let tx_ranges := foldl (fun l txl => tx_remove_range [] l (lock_addr txl) (lock_addr txl + POBJ_CL_SIZE)) [(begin, end_)] locks in
  foldl (fun s r => restore_one p_ops range begin r s) s tx_ranges.

Definition tx_undo_entry_apply (p_ops : pmem_ops) (pop : Z) (locks : list tx_lock_data) (e : Z) (s : pmst) : Z * pmst :=
  if ulog_entry_type (vis s) e =? ULOG_OPERATION_BUF_CPY then (0, tx_restore_range p_ops pop locks e s) else (0, s).

Section Api.
Context {H : Type} (palloc : palloc_fns H) (env : tx_env) (p_ops : pmem_ops) (uuid_lo : Z).
Abbreviation TX := (TX H).

(** Operations on the contexts of [tx->lane]. *)
Definition run_external {A} (f : operation_context -> world -> option (A * operation_context * world)) : TX A := fun st =>
  if negb (tx_lane (st_tx st)) then None else
  '(a, ctx, ws) ← f (lane_external (st_lane st)) (st_ws st);
  Some (Ret a, TxState (st_tx st) (Lane (lane_layout (st_lane st)) (lane_internal (st_lane st)) ctx (lane_undo (st_lane st))) ws (st_heap st) (st_events st)).
Definition run_undo {A} (f : operation_context -> world -> option (A * operation_context * world)) : TX A := fun st =>
  if negb (tx_lane (st_tx st)) then None else
  '(a, ctx, ws) ← f (lane_undo (st_lane st)) (st_ws st);
  Some (Ret a, TxState (st_tx st) (Lane (lane_layout (st_lane st)) (lane_internal (st_lane st)) (lane_external (st_lane st)) ctx) ws (st_heap st) (st_events st)).

Definition ASSERT_TX_STAGE_WORK : TX unit :=
  t <- get_tx;; if decide (stage t = TX_STAGE_WORK) then ret tt else fatal.

(** ** Actions *)

Definition tx_action_reserve (n : Z) : TX bool :=
  t <- get_tx;;
  let entries_size := u64 (u64 (Z.of_nat (length (actions t)) + n) * sizeof_entry_val) in
  let entries_size := entries_size - Z.min (redo_userbufs_capacity t) entries_size in
  r <- run_external (fun ctx ws => operation_reserve (e_fuel env) ctx entries_size ws);;
  ret (r =? 0).

(** The position of the action, that is of the vector's last element.  Whether
    the vector has grown is not looked at. *)
Definition tx_action_add : TX (option Z) :=
  ok <- tx_action_reserve 1;;
  if negb ok then ret None else
  modify (fun t => if e_inc env 0%nat then set_actions (actions t ++ [e_junk env]) t else t);;
  t <- get_tx;; ret (Some (Z.of_nat (length (actions t)) - 1)).

Definition action_set (pos : Z) (a : pobj_action) : TX unit :=
  if pos <? 0 then fatal else modify (fun t => set_actions (<[Z.to_nat pos := a]> (actions t)) t).

Definition tx_action_remove : TX unit := modify (fun t => set_actions (removelast (actions t)) t).

(** ** Stages *)

(** ulog_foreach_entry over the undo log, which aborts apply in the order of the
    snapshots, and operation_finish. *)
Definition tx_abort_set : TX unit :=
  t <- get_tx;; l <- the_lane;; ws <- get_world;;
  if negb (e_range env) then fatal else
  r <- lift (ulog_foreach_entry (e_fuel env) (layout_undo (lane_layout l))
               (tx_undo_entry_apply p_ops (tx_pop t) (tx_locks t)) p_ops ws.2);;
  on_mem (fun _ => r.2);;
  run_undo (fun ctx ws => '(ctx, ws) ← operation_finish (e_fuel env) (e_push env) ctx ULOG_INC_FIRST_GEN_NUM ws; Some (tt, ctx, ws)).

Definition run_palloc {A} (f : world -> H -> option (A * world * H)) : TX A := fun st =>
  '(a, ws, h) ← f (st_ws st) (st_heap st);
  Some (Ret a, TxState (st_tx st) (st_lane st) ws h (st_events st)).

Definition tx_abort : TX unit :=
  tx_abort_set;;
  t <- get_tx;;
  tree <- lift (ranges t);;
  lift (ravl_delete_cb (e_fuel env) tree);;
  run_palloc (fun ws h => '(ws, h) ← palloc_cancel palloc (actions t) ws h; Some (tt, ws, h));;
  modify (set_ranges None).

Definition obj_tx_callback : TX unit :=
  t <- get_tx;;
  if stage_callback t =? 0 then ret tt else
  match tx_entries t with
  | [] => fatal
  | [_] => emit (EvCallback (stage_callback t) (tx_pop t) (stage t) (stage_callback_arg t))
  | _ => ret tt
  end.

(** The calls of lane_hold and lane_release; [outermost]: the thread does not
    hold the lane already. *)
Definition tx_lane_hold (outermost : bool) : TX unit := fun st =>
  Some (Ret tt, TxState (set_lane true (st_tx st)) (if outermost then lane_reinit (st_lane st) else st_lane st)
                  (st_ws st) (st_heap st) (st_events st ++ [EvHold])).
Definition tx_lane_release : TX unit := emit EvRelease.

Definition obj_tx_abort (errnum : Z) : TX unit :=
  ASSERT_TX_STAGE_WORK;;
  let errnum := if errnum =? 0 then ECANCELED else errnum in
  modify (set_stage TX_STAGE_ONABORT);;
  t <- get_tx;;
  match tx_entries t with
  | [] => fatal
  | txd :: rest =>
      (match rest with [] => tx_abort;; tx_lane_release;; modify (set_lane false) | _ => ret tt end);;
      modify (set_errnum errnum);;
      obj_tx_callback;;
      if txd =? 0 then ret tt else fun st => Some (Jump txd errnum, st)
  end.

Definition obj_tx_abort_err (errnum : Z) : TX Z := obj_tx_abort errnum;; ret errnum.
Definition obj_tx_abort_null (errnum : Z) : TX PMEMoid := obj_tx_abort errnum;; ret OID_NULL.
Definition pmemobj_tx_abort (errnum : Z) : TX unit := obj_tx_abort errnum.
Definition pmemobj_tx_errno : TX Z := t <- get_tx;; ret (last_errnum t).
Definition pmemobj_tx_stage : TX pobj_tx_stage := t <- get_tx;; ret (stage t).

(** A call on the lock at [lock]: its run id and, behind it, the object of the
    operating system are in the memory of the pool. *)
Definition on_lock (lock : Z) (f : sync_st (list byte) -> option (Z * sync_st (list byte))) : TX Z := fun st =>
  let '(pop, s) := st_ws st in
  '(retval, (s, object)) ← f (s, read_bytes (vis s) (lock + 8) (Z.to_nat (POBJ_CL_SIZE - 8)));
  Some (Ret retval, TxState (st_tx st) (st_lane st) (pop, st_store (lock + 8) object s) (st_heap st) (st_events st)).

Definition lock_type_lock (type : tx_lock_type) (lock : Z) : TX Z :=
  on_lock lock (match type with
    | LOCK_MUTEX => pmemobj_mutex_lock (e_run_id env) (os_init (e_os env) type) (os_lock (e_os env) type) (e_fuel env) lock
    | LOCK_RWLOCK => pmemobj_rwlock_wrlock (e_run_id env) (os_init (e_os env) type) (os_lock (e_os env) type) (e_fuel env) lock
    end).
Definition lock_type_unlock (type : tx_lock_type) (lock : Z) : TX Z :=
  on_lock lock (match type with
    | LOCK_MUTEX => pmemobj_mutex_unlock (e_run_id env) (os_init (e_os env) type) (os_unlock (e_os env) type) (e_fuel env) lock
    | LOCK_RWLOCK => pmemobj_rwlock_unlock (e_run_id env) (os_init (e_os env) type) (os_unlock (e_os env) type) (e_fuel env) lock
    end).

(** [mok]: the list element was allocated. *)
Definition add_to_tx_and_lock (type : tx_lock_type) (lock : Z) (mok : bool) : TX Z :=
  t <- get_tx;;
  if existsb (fun l => lock_addr l =? lock) (tx_locks t) then ret 0 else
  if negb mok then ret ENOMEM else
  retval <- lock_type_lock type lock;;
  if negb (retval =? 0) then ret retval else
  emit (EvLock type lock);;
  modify (fun t => set_locks (TxLock lock type :: tx_locks t) t);;
  ret 0.

(** The results of the unlocks are not looked at. *)
Fixpoint release_locks (l : list tx_lock_data) : TX unit :=
  match l with
  | [] => ret tt
  | tx_lock :: l =>
      modify (set_locks l);;
      lock_type_unlock (lock_type tx_lock) (lock_addr tx_lock);;
      emit (EvUnlock (lock_type tx_lock) (lock_addr tx_lock));;
      release_locks l
  end.
Definition release_and_free_tx_locks : TX unit := t <- get_tx;; release_locks (tx_locks t).

(** The variable arguments of pmemobj_tx_begin. *)
Inductive tx_param := ParamLock (type : tx_lock_type) (lock : Z) (mok : bool) | ParamCb (cb arg : Z).

(** The result is [err]. *)
Fixpoint handle_params (params : list tx_param) : TX Z :=
  match params with
  | [] => ret 0
  | ParamCb cb arg :: params =>
      t <- get_tx;;
      if negb (stage_callback t =? 0) && (negb (stage_callback t =? cb) || negb (stage_callback_arg t =? arg)) then fatal else
      modify (set_callback cb arg);; handle_params params
  | ParamLock type lock mok :: params =>
      err <- add_to_tx_and_lock type lock mok;;
      if negb (err =? 0) then ret err else handle_params params
  end.

Definition begin_failed (err : Z) : TX Z :=
  t <- get_tx;;
  (if decide (stage t = TX_STAGE_WORK) then obj_tx_abort err else modify (set_stage TX_STAGE_ONABORT));;
  ret err.

(** [txd_ok], [tree_ok]: Malloc of the entry and of the tree; [errno]: of the
    failed Malloc. *)
Definition pmemobj_tx_begin (txd_ok tree_ok outermost : bool) (errno pop jmp : Z) (params : list tx_param) : TX Z :=
  t <- get_tx;;
  let go :=
    if negb txd_ok then begin_failed errno else
    modify (set_errnum 0);;
    modify (fun t => set_entries (jmp :: tx_entries t) t);;
    modify (set_stage TX_STAGE_WORK);;
    err <- handle_params params;;
    if negb (err =? 0) then begin_failed err else ret 0 in
  match stage t with
  | TX_STAGE_WORK => if negb (tx_pop t =? pop) then obj_tx_abort_err EINVAL else go
  | TX_STAGE_NONE =>
      tx_lane_hold outermost;;
      run_undo (fun ctx ws => Some (tt, operation_start ctx, ws));;
      modify (fun t => set_first true (set_pop pop (set_ranges (if tree_ok then Some ravl_new else None)
        (set_locks [] (set_entries [] (set_userbufs [] 0 (set_actions [] t)))))));;
      go
  | _ => fatal
  end.

Definition pmemobj_tx_lock (type : tx_lock_type) (lock : Z) (mok : bool) : TX Z :=
  ASSERT_TX_STAGE_WORK;; add_to_tx_and_lock type lock mok.

Definition tx_flush_range (pop : Z) (s : pmst) (range : tx_range_def) : pmst :=
  if flag_isset (r_flags range) POBJ_FLAG_NO_FLUSH then s
  else pmemops_flush p_ops (OBJ_OFF_TO_PTR pop (r_offset range)) (r_size range) s.

Definition tx_pre_commit : TX unit :=
  t <- get_tx;;
  tree <- lift (ranges t);;
  l <- lift (ravl_delete_cb (e_fuel env) tree);;
  on_mem (fun s => foldl (tx_flush_range (tx_pop t)) s l);;
  modify (set_ranges None).

Definition tx_post_commit : TX unit :=
  run_undo (fun ctx ws => '(ctx, ws) ← operation_finish (e_fuel env) (e_push env) ctx 0 ws; Some (tt, ctx, ws)).

Fixpoint add_userbufs (l : list user_buffer_def) (ctx : operation_context) (s : pmst) : operation_context * pmst :=
  match l with
  | [] => (ctx, s)
  | userbuf :: l => let '(ctx, s) := operation_add_user_buffer ctx userbuf s in add_userbufs l ctx s
  end.

(** palloc_publish works on the external context of the lane. *)
Definition publish_actions : TX unit := fun st =>
  if negb (tx_lane (st_tx st)) then None else
  '(ctx, ws, h) ← palloc_publish palloc (actions (st_tx st)) (lane_external (st_lane st)) (st_ws st) (st_heap st);
  Some (Ret tt, TxState (st_tx st) (Lane (lane_layout (st_lane st)) (lane_internal (st_lane st)) ctx (lane_undo (st_lane st))) ws h (st_events st)).

Definition commit_outermost : TX unit :=
  tx_pre_commit;;
  on_mem (pmemops_drain p_ops);;
  run_external (fun ctx ws => Some (tt, operation_start ctx, ws));;
  t <- get_tx;;
  run_external (fun ctx ws => let '(ctx, s) := add_userbufs (redo_userbufs t) ctx ws.2 in Some (tt, ctx, (ws.1, s)));;
  publish_actions;;
  tx_post_commit;;
  tx_lane_release;;
  modify (set_lane false).

Definition pmemobj_tx_commit : TX unit :=
  ASSERT_TX_STAGE_WORK;;
  obj_tx_callback;;
  t <- get_tx;;
  match tx_entries t with
  | [] => fatal
  | [_] => commit_outermost
  | _ => ret tt
  end;;
  modify (set_stage TX_STAGE_ONCOMMIT);;
  obj_tx_callback.

Definition end_outermost : TX unit :=
  release_and_free_tx_locks;;
  modify (set_pop 0);;
  modify (set_stage TX_STAGE_NONE);;
  modify (fun t => set_userbufs [] (redo_userbufs_capacity t) (set_actions [] t));;
  t <- get_tx;;
  if stage_callback t =? 0 then ret tt else
  modify (set_callback 0 0);;
  emit (EvCallback (stage_callback t) (tx_pop t) TX_STAGE_NONE (stage_callback_arg t)).

Definition pmemobj_tx_end : TX Z :=
  t <- get_tx;;
  if decide (stage t = TX_STAGE_WORK) then fatal else
  if tx_pop t =? 0 then fatal else
  (if negb (stage_callback t =? 0) &&
      (bool_decide (stage t = TX_STAGE_ONCOMMIT) || bool_decide (stage t = TX_STAGE_ONABORT))
   then modify (set_stage TX_STAGE_FINALLY);; obj_tx_callback else ret tt);;
  match tx_entries t with
  | [] => fatal
  | _ :: rest =>
      modify (set_entries rest);;
      (match rest with
       | [] => end_outermost
       | _ => modify (set_stage TX_STAGE_WORK);;
              if last_errnum t =? 0 then ret tt else obj_tx_abort (last_errnum t)
       end);;
      t <- get_tx;; ret (last_errnum t)
  end.

Definition pmemobj_tx_process : TX unit :=
  t <- get_tx;;
  match stage t with
  | TX_STAGE_NONE => fatal
  | TX_STAGE_WORK => pmemobj_tx_commit
  | TX_STAGE_ONABORT | TX_STAGE_ONCOMMIT => modify (set_stage TX_STAGE_FINALLY);; obj_tx_callback
  | TX_STAGE_FINALLY => modify (set_stage TX_STAGE_NONE)
  end.

(** ** Adding memory to the transaction *)

Definition tx_lane_ranges_insert_def (rdef : tx_range_def) : TX Z :=
  t <- get_tx;;
  tree <- lift (ranges t);;
  r <- lift (ravl_emplace_copy tx_range_def_cmp (e_fuel env) tree (e_node env) rdef);;
  (* errno is EEXIST unless the node could not be allocated *)
  if negb (r.1 =? 0) && negb (e_node env =? 0) then fatal else
  modify (set_ranges (Some r.2));; ret r.1.

Definition pmemobj_tx_add_snapshot (snapshot : tx_range_def) : TX Z :=
  t <- get_tx;;
  let ptr := OBJ_OFF_TO_PTR (tx_pop t) (r_offset snapshot) in
  if flag_isset (r_flags snapshot) POBJ_FLAG_NO_SNAPSHOT then ret 0 else
  ok <- (if first_snapshot t then
           action <- tx_action_add;;
           match action with
           | None => ret false
           | Some pos =>
               l <- the_lane;; ws <- get_world;;
               let n := ulog_gen_num_addr (layout_undo (lane_layout l)) in
               action_set pos (palloc_set_value n (u64 (load64 (vis ws.2) n + 1)));;
               modify (set_first false);; ret true
           end
         else ret true);;
  if negb ok then ret (-1) else
  run_undo (fun ctx ws => operation_add_buffer (e_fuel env) ctx ptr ptr (r_size snapshot) ULOG_OPERATION_BUF_CPY ws).

Definition pmemobj_tx_merge_flags (dest merged : tx_range_def) : tx_range_def :=
  if flag_isset (r_flags dest) POBJ_FLAG_NO_FLUSH && negb (flag_isset (r_flags merged) POBJ_FLAG_NO_FLUSH)
  then RangeDef (r_offset dest) (r_size dest) (Z.land (r_flags dest) (u64 (Z.lnot POBJ_FLAG_NO_FLUSH)))
  else dest.

(** [*ravl_data(n)], and an update of it. *)
Definition range_at (n : Z) : TX tx_range_def :=
  t <- get_tx;; tree <- lift (ranges t);; nd <- lift (deref tree n);; ret (data nd).
Definition range_set (n : Z) (d : tx_range_def) : TX unit :=
  t <- get_tx;; tree <- lift (ranges t);; tree <- lift (update n (with_data d) tree);; modify (set_ranges (Some tree)).
Definition range_remove (n : Z) : TX unit :=
  t <- get_tx;; tree <- lift (ranges t);; tree <- lift (ravl_remove (e_fuel env) n tree);; modify (set_ranges (Some tree)).

(** Extends the snapshot on the right, or inserts a new range. *)
Definition add_new_range (r : tx_range_def) (nprev : Z) : TX Z :=
  if negb (nprev =? 0) then
    fprev <- range_at nprev;;
    range_set nprev (RangeDef (u64 (r_offset fprev - r_size r)) (u64 (r_size fprev + r_size r)) (r_flags fprev));;
    ret 0
  else tx_lane_ranges_insert_def r.

(** Merges the found range with the snapshot on its right. *)
Definition merge_right (n nprev : Z) : TX unit :=
  if nprev =? 0 then ret tt else
  fprev <- range_at nprev;;
  f <- range_at n;;
  range_set n (pmemobj_tx_merge_flags (RangeDef (r_offset f) (u64 (r_size f + r_size fprev)) (r_flags f)) fprev);;
  range_remove nprev.

(** The loop of pmemobj_tx_add_common; [r] is what is left, [p] the predicate. *)
Fixpoint add_ranges (steps : nat) (args r : tx_range_def) (p nprev : Z) : TX Z :=
  if r_size r =? 0 then ret 0 else
  match steps with
  | O => fatal
  | S steps =>
      t <- get_tx;;
      tree <- lift (ranges t);;
      n <- lift (ravl_find tx_range_def_cmp (e_fuel env) tree (RangeDef (u64 (r_offset r + r_size r)) 0 0) p);;
      f <- (if n =? 0 then ret (RangeDef 0 0 0) else range_at n);;
      let fend := if n =? 0 then 0 else u64 (r_offset f + r_size f) in
      let rend := u64 (r_offset r + r_size r) in
      if (fend =? 0) || (fend <? r_offset r) then
        ok <- add_new_range r nprev;;
        if negb (ok =? 0) then ret ok else pmemobj_tx_add_snapshot r
      else if fend <=? rend then
        let snapshot := RangeDef fend (u64 (rend - fend)) (r_flags args) in
        let intersection := u64 (fend - Z.max (r_offset f) (r_offset r)) in
        let r := RangeDef (r_offset r) (u64 (r_size r - u64 (intersection + r_size snapshot))) (r_flags r) in
        range_set n (pmemobj_tx_merge_flags (RangeDef (r_offset f) (u64 (r_size f + r_size snapshot)) (r_flags f)) args);;
        ok <- (if r_size snapshot =? 0 then ret 0 else pmemobj_tx_add_snapshot snapshot);;
        if negb (ok =? 0) then ret ok else
        merge_right n nprev;;
        add_ranges steps args r RAVL_PREDICATE_LESS n
      else if r_offset r <=? fend then
        let overlap := u64 (rend - Z.max (r_offset f) (r_offset r)) in
        let r := RangeDef (r_offset r) (u64 (r_size r - overlap)) (r_flags r) in
        range_set n (pmemobj_tx_merge_flags f args);;
        add_ranges steps args r RAVL_PREDICATE_LESS n
      else add_ranges steps args r RAVL_PREDICATE_LESS n
  end.

Definition pmemobj_tx_add_common (steps : nat) (args : tx_range_def) : TX Z :=
  ws <- get_world;;
  if PMEMOBJ_MAX_ALLOC_SIZE <? r_size args then obj_tx_abort_err EINVAL else
  if (r_offset args <? heap_offset ws.1) ||
     (u64 (heap_offset ws.1 + heap_size ws.1) <? u64 (r_offset args + r_size args)) then obj_tx_abort_err EINVAL else
  ok <- add_ranges steps args args RAVL_PREDICATE_LESS_EQUAL 0;;
  if negb (ok =? 0) then obj_tx_abort_err ENOMEM else ret 0.

Definition pmemobj_tx_add_range_direct (steps : nat) (ptr size : Z) : TX Z :=
  ASSERT_TX_STAGE_WORK;;
  t <- get_tx;; ws <- get_world;;
  if negb (OBJ_PTR_FROM_POOL ws.1 (tx_pop t) ptr) then obj_tx_abort_err EINVAL else
  pmemobj_tx_add_common steps (RangeDef (u64 (ptr - tx_pop t)) size 0).

Definition pmemobj_tx_xadd_range_direct (steps : nat) (ptr size flags : Z) : TX Z :=
  ASSERT_TX_STAGE_WORK;;
  t <- get_tx;; ws <- get_world;;
  if negb (OBJ_PTR_FROM_POOL ws.1 (tx_pop t) ptr) then obj_tx_abort_err EINVAL else
  if negb (Z.land flags (u64 (Z.lnot POBJ_XADD_VALID_FLAGS)) =? 0) then obj_tx_abort_err EINVAL else
  pmemobj_tx_add_common steps (RangeDef (u64 (ptr - tx_pop t)) size flags).

Definition pmemobj_tx_add_range (steps : nat) (oid : PMEMoid) (hoff size : Z) : TX Z :=
  ASSERT_TX_STAGE_WORK;;
  if negb (pool_uuid_lo oid =? uuid_lo) then obj_tx_abort_err EINVAL else
  pmemobj_tx_add_common steps (RangeDef (u64 (oid_off oid + hoff)) size 0).

Definition pmemobj_tx_xadd_range (steps : nat) (oid : PMEMoid) (hoff size flags : Z) : TX Z :=
  ASSERT_TX_STAGE_WORK;;
  if negb (pool_uuid_lo oid =? uuid_lo) then obj_tx_abort_err EINVAL else
  if negb (Z.land flags (u64 (Z.lnot POBJ_XADD_VALID_FLAGS)) =? 0) then obj_tx_abort_err EINVAL else
  pmemobj_tx_add_common steps (RangeDef (u64 (oid_off oid + hoff)) size flags).

(** ** Objects *)

(** [args]: the flags, the source and the size of the copy. *)
Definition tx_alloc_common (size type_num : Z) (args : Z * Z * Z) : TX PMEMoid :=
  if PMEMOBJ_MAX_ALLOC_SIZE <? size then obj_tx_abort_null ENOMEM else
  action <- tx_action_add;;
  match action with
  | None => obj_tx_abort_null ENOMEM
  | Some pos =>
      if pos <? 0 then fatal else
      let flags := args.1.1 in
      let err_oom := tx_action_remove;; obj_tx_abort_null ENOMEM in
      r <- run_palloc (fun ws h => palloc_reserve palloc size type_num (u16 (Z.shiftr flags 48)) (u16 (Z.shiftr flags 32)) args ws h);;
      match r with
      | None => err_oom
      | Some act =>
          action_set pos act;;
          let off := match act with ActHeap _ offset _ _ _ => offset | ActMem ptr _ => ptr end in
          size <- (fun st => Some (Ret (palloc_usable_size palloc off (st_ws st) (st_heap st)), st));;
          ok <- tx_lane_ranges_insert_def (RangeDef off size flags);;
          if negb (ok =? 0) then err_oom else ret (Oid uuid_lo off)
      end
  end.

Definition pmemobj_tx_xalloc (size type_num flags : Z) : TX PMEMoid :=
  ASSERT_TX_STAGE_WORK;;
  if size =? 0 then obj_tx_abort_null EINVAL else
  if negb (Z.land flags (u64 (Z.lnot POBJ_TX_XALLOC_VALID_FLAGS)) =? 0) then obj_tx_abort_null EINVAL else
  tx_alloc_common size type_num (flags, 0, 0).
Definition pmemobj_tx_alloc (size type_num : Z) : TX PMEMoid :=
  ASSERT_TX_STAGE_WORK;;
  if size =? 0 then obj_tx_abort_null EINVAL else tx_alloc_common size type_num (0, 0, 0).
Definition pmemobj_tx_zalloc (size type_num : Z) : TX PMEMoid :=
  ASSERT_TX_STAGE_WORK;;
  if size =? 0 then obj_tx_abort_null EINVAL else tx_alloc_common size type_num (POBJ_FLAG_ZERO, 0, 0).

(** [str]: the string's address, [len] its length, [width] the size of a character. *)
Definition tx_dup (str len width type_num : Z) : TX PMEMoid :=
  ASSERT_TX_STAGE_WORK;;
  if str =? 0 then obj_tx_abort_null EINVAL else
  if len =? 0 then tx_alloc_common width type_num (POBJ_FLAG_ZERO, 0, 0) else
  let size := u64 (u64 (len + 1) * width) in
  tx_alloc_common size type_num (0, str, size).
Definition pmemobj_tx_strdup (str len type_num : Z) : TX PMEMoid := tx_dup str len 1 type_num.
Definition pmemobj_tx_wcsdup (str len type_num : Z) : TX PMEMoid := tx_dup str len 4 type_num.

(** The position of the allocation of an object. *)
Fixpoint find_heap_action (l : list pobj_action) (off : Z) (i : nat) : option nat :=
  match l with
  | [] => None
  | ActHeap _ offset _ _ _ :: l => if offset =? off then Some i else find_heap_action l off (S i)
  | ActMem _ _ :: l => find_heap_action l off (S i)
  end.

(** VEC_ERASE_BY_PTR: the last element takes the place of the erased one. *)
Definition vec_erase {A} (i : nat) (l : list A) : list A :=
  match last l with Some b => removelast (<[i := b]> l) | None => l end.

Definition pmemobj_tx_free (oid : PMEMoid) : TX Z :=
  ASSERT_TX_STAGE_WORK;;
  if oid_off oid =? 0 then ret 0 else
  if negb (uuid_lo =? pool_uuid_lo oid) then obj_tx_abort_err EINVAL else
  t <- get_tx;;
  tree <- lift (ranges t);;
  n <- lift (ravl_find tx_range_def_cmp (e_fuel env) tree (RangeDef (oid_off oid) 0 0) RAVL_PREDICATE_EQUAL);;
  match (if n =? 0 then None else i ← find_heap_action (actions t) (oid_off oid) 0; a ← actions t !! i; Some (i, a)) with
  | Some (i, a) =>
      range_remove n;;
      run_palloc (fun ws h => '(ws, h) ← palloc_cancel palloc [a] ws h; Some (tt, ws, h));;
      modify (fun t => set_actions (vec_erase i (actions t)) t);; ret 0
  | None =>
      action <- tx_action_add;;
      match action with
      | None => obj_tx_abort_err (e_errno env)
      | Some pos => (fun st => action_set pos (palloc_defer_free palloc (oid_off oid) (st_ws st) (st_heap st)) st);; ret 0
      end
  end.

Definition tx_realloc_common (oid : PMEMoid) (size type_num flags : Z) : TX PMEMoid :=
  if PMEMOBJ_MAX_ALLOC_SIZE <? size then obj_tx_abort_null ENOMEM else
  if oid_off oid =? 0 then tx_alloc_common size type_num (flags, 0, 0) else
  if size =? 0 then
    r <- pmemobj_tx_free oid;; ret (if r =? 0 then OID_NULL else oid)
  else
  t <- get_tx;;
  old_size <- (fun st => Some (Ret (palloc_usable_size palloc (oid_off oid) (st_ws st) (st_heap st)), st));;
  let copy_size := if old_size <? size then old_size else size in
  new_obj <- tx_alloc_common size type_num (flags, OBJ_OFF_TO_PTR (tx_pop t) (oid_off oid), copy_size);;
  if oid_off new_obj =? 0 then ret new_obj else
  r <- pmemobj_tx_free oid;;
  if negb (r =? 0) then tx_action_remove;; ret OID_NULL else ret new_obj.
Definition pmemobj_tx_realloc (oid : PMEMoid) (size type_num : Z) : TX PMEMoid :=
  ASSERT_TX_STAGE_WORK;; tx_realloc_common oid size type_num 0.
Definition pmemobj_tx_zrealloc (oid : PMEMoid) (size type_num : Z) : TX PMEMoid :=
  ASSERT_TX_STAGE_WORK;; tx_realloc_common oid size type_num POBJ_FLAG_ZERO.

(** The results of the pushes are not looked at. *)
Fixpoint push_all (i : nat) (actv l : list pobj_action) : list pobj_action :=
  match actv with
  | [] => l
  | a :: actv => push_all (S i) actv (if e_inc env i then l ++ [a] else l)
  end.
Definition pmemobj_tx_publish (actv : list pobj_action) : TX Z :=
  ASSERT_TX_STAGE_WORK;;
  ok <- tx_action_reserve (Z.of_nat (length actv));;
  if negb ok then obj_tx_abort_err ENOMEM else
  modify (fun t => set_actions (push_all 0 actv (actions t)) t);; ret 0.

(** ** Logs *)

(** [pool_of]: pmemobj_pool_by_ptr of the buffer. *)
Definition tx_construct_user_buffer (pool_of buf_addr buf_size : Z) (type : pobj_log_type) (outer_tx : bool) : TX Z :=
  t <- get_tx;;
  if negb (tx_pop t =? pool_of) then obj_tx_abort_err EINVAL else
  let run {A} (f : operation_context -> world -> option (A * operation_context * world)) : TX A :=
    match type with TX_LOG_TYPE_INTENT => run_external f | TX_LOG_TYPE_SNAPSHOT => run_undo f end in
  run (fun ctx ws => if outer_tx && (operation_get_any_user_buffer ctx =? 0)
                     then '(ctx, ws) ← operation_free_logs (e_fuel env) (e_push env) ctx ULOG_ANY_USER_BUFFER ws; Some (tt, ctx, ws)
                     else Some (tt, ctx, ws));;
  r <- run (fun ctx ws => '(r, userbuf, pop) ← operation_user_buffer_verify_align (e_fuel env) (e_node env) ctx (UserBuf buf_addr buf_size) ws.1;
                          Some ((r, userbuf), ctx, (pop, ws.2)));;
  let '(r, userbuf) := r in
  if negb (r =? 0) then obj_tx_abort_err EINVAL else
  match type with
  | TX_LOG_TYPE_INTENT =>
      if negb (e_userbuf env) then obj_tx_abort_err EINVAL else
      modify (fun t => set_userbufs (redo_userbufs t ++ [userbuf])
        (u64 (redo_userbufs_capacity t + u64 (Memops.size userbuf - SIZEOF_ULOG_HDR))) t);; ret 0
  | TX_LOG_TYPE_SNAPSHOT =>
      run (fun ctx ws => let '(ctx, s) := operation_add_user_buffer ctx userbuf ws.2 in Some (tt, ctx, (ws.1, s)));; ret 0
  end.

Definition pmemobj_tx_log_append_buffer (pool_of : Z) (type : pobj_log_type) (buf_addr buf_size : Z) : TX Z :=
  ASSERT_TX_STAGE_WORK;;
  t <- get_tx;;
  match tx_entries t with
  | [] => fatal
  | _ :: rest => tx_construct_user_buffer pool_of buf_addr buf_size type (match rest with [] => true | _ => false end)
  end.

Definition pmemobj_tx_log_auto_alloc (type : pobj_log_type) (on_off : Z) : TX Z :=
  ASSERT_TX_STAGE_WORK;;
  let f ctx ws := Some (tt, operation_set_auto_reserve ctx on_off, ws) in
  (match type with TX_LOG_TYPE_INTENT => run_external f | TX_LOG_TYPE_SNAPSHOT => run_undo f end);; ret 0.
End Api.

(** The sizes of logs; SIZE_MAX reports an overflow (errno is ERANGE). *)
Definition divided (result overhead : Z) : Z :=
  let allocs_overhead := u64 (result / PMEMOBJ_MAX_ALLOC_SIZE * overhead) in
  if u64 (result + allocs_overhead) <? result then UINT64_MAX else u64 (result + allocs_overhead).

Fixpoint snapshots_size (sizes : list Z) (result : Z) : Z :=
  match sizes with
  | [] => divided result (SIZEOF_ULOG_HDR + sizeof_entry_buf)
  | s :: sizes =>
      if u64 (s + sizeof_entry_buf + CACHELINE_SIZE) <? s then UINT64_MAX else
      let size := ALIGN_UP (u64 (s + sizeof_entry_buf)) CACHELINE_SIZE in
      if u64 (result + size) <? result then UINT64_MAX else snapshots_size sizes (u64 (result + size))
  end.
Definition pmemobj_tx_log_snapshots_max_size (sizes : list Z) : Z := snapshots_size sizes SIZEOF_ULOG_HDR.

Definition pmemobj_tx_log_intents_max_size (nintents : Z) : Z :=
  if UINT64_MAX / sizeof_entry_val <? nintents then UINT64_MAX else
  let entries_overhead := u64 (nintents * sizeof_entry_val) in
  if u64 (entries_overhead + CACHELINE_SIZE) <? entries_overhead then UINT64_MAX else
  let result := ALIGN_UP entries_overhead CACHELINE_SIZE in
  if u64 (result + SIZEOF_ULOG_HDR) <? result then UINT64_MAX else
  divided (u64 (result + SIZEOF_ULOG_HDR)) (SIZEOF_ULOG_HDR + sizeof_entry_val).
