(* ===== verification/TxRanges.v ===== *)
(** * Snapshotted ranges as a list of intervals

    The loop of pmemobj_tx_add_common on the list of ranges, from the right end
    of the new range to its left end, and what it computes: the union of the
    ranges grows by exactly the new one, and exactly what was not covered before
    is snapshotted. *)
From stdpp Require Import base numbers list list_numbers sorting.
From Stdlib Require Import ZArith Lia Bool.
From S2P Require Import Prelude Pmem Memops Tx.

Definition r_end (r : tx_range_def) : Z := r_offset r + r_size r.
Definition inside (x : Z) (r : tx_range_def) : Prop := r_offset r <= x < r_end r.
Definition flushed (r : tx_range_def) : Prop := flag_isset (r_flags r) POBJ_FLAG_NO_FLUSH = false.

Definition range_ok (r : tx_range_def) : Prop := 0 <= r_offset r /\ 0 < r_size r /\ r_end r < 2 ^ 64.
Definition precedes (r s : tx_range_def) : Prop := r_end r <= r_offset s.

(** Ranges in increasing order that do not overlap. *)
Definition separate (l : list tx_range_def) : Prop := Forall range_ok l /\ StronglySorted precedes l.
(** The bytes of the ranges, and those that are flushed at the commit. *)
Definition covered (l : list tx_range_def) (x : Z) : Prop := Exists (inside x) l.
Definition flush_covered (l : list tx_range_def) (x : Z) : Prop := Exists (fun r => inside x r /\ flushed r) l.

Lemma elem_of_rev {A} (x : A) l : x ∈ rev l <-> x ∈ l.
Proof. by rewrite !list_elem_of_In, <- in_rev. Qed.

Lemma separate_app l1 l2 :
  separate (l1 ++ l2) <-> separate l1 /\ separate l2 /\ forall r s, r ∈ l1 -> s ∈ l2 -> precedes r s.
Proof. unfold separate. rewrite Forall_app, StronglySorted_app. tauto. Qed.
Lemma separate_one r : separate [r] <-> range_ok r.
Proof. unfold separate. rewrite Forall_singleton. split; [tauto|]. intros H. split; [done|]. by repeat constructor. Qed.

Lemma covered_app l1 l2 x : covered (l1 ++ l2) x <-> covered l1 x \/ covered l2 x.
Proof. apply Exists_app. Qed.
Lemma covered_one r x : covered [r] x <-> inside x r.
Proof. unfold covered. rewrite Exists_cons, Exists_nil. tauto. Qed.
Lemma covered_nil x : covered [] x <-> False.
Proof. apply Exists_nil. Qed.
Lemma flush_app l1 l2 x : flush_covered (l1 ++ l2) x <-> flush_covered l1 x \/ flush_covered l2 x.
Proof. apply Exists_app. Qed.
Lemma flush_one r x : flush_covered [r] x <-> inside x r /\ flushed r.
Proof. unfold flush_covered. rewrite Exists_cons, Exists_nil. tauto. Qed.
Lemma flush_nil x : flush_covered [] x <-> False.
Proof. apply Exists_nil. Qed.

(** ** Flags *)

Lemma merge_offset d m : r_offset (pmemobj_tx_merge_flags d m) = r_offset d.
Proof. unfold pmemobj_tx_merge_flags. by case_match. Qed.
Lemma merge_size d m : r_size (pmemobj_tx_merge_flags d m) = r_size d.
Proof. unfold pmemobj_tx_merge_flags. by case_match. Qed.
Lemma merge_end d m : r_end (pmemobj_tx_merge_flags d m) = r_end d.
Proof. unfold r_end. by rewrite merge_offset, merge_size. Qed.
Lemma merge_flags_ok d m : range_ok (pmemobj_tx_merge_flags d m) <-> range_ok d.
Proof. unfold range_ok. by rewrite merge_end, merge_offset, merge_size. Qed.

Lemma no_flush_cleared f : flag_isset (Z.land f (u64 (Z.lnot POBJ_FLAG_NO_FLUSH))) POBJ_FLAG_NO_FLUSH = false.
Proof.
  unfold flag_isset. rewrite <- Z.land_assoc. change (Z.land (u64 (Z.lnot POBJ_FLAG_NO_FLUSH)) POBJ_FLAG_NO_FLUSH) with 0.
  by rewrite Z.land_0_r.
Qed.

(** A merged range is flushed when one of its parts is. *)
Lemma merge_flushed d m : flushed (pmemobj_tx_merge_flags d m) <-> flushed d \/ flushed m.
Proof.
  unfold pmemobj_tx_merge_flags, flushed. destruct (flag_isset (r_flags d) POBJ_FLAG_NO_FLUSH) eqn:Ed,
    (flag_isset (r_flags m) POBJ_FLAG_NO_FLUSH) eqn:Em; cbn [andb negb]; rewrite ?Ed; cbn [r_flags]; rewrite ?no_flush_cleared; intuition congruence.
Qed.

(** ** The loop on lists *)

Definition right_list (right : option tx_range_def) : list tx_range_def := match right with Some r => [r] | None => [] end.

(** [front]: the ranges that start below [rend], from the right; [right]: the
    range that starts at [rend]; [a], [rend]: what is left of the new range. *)
Definition extended (args : tx_range_def) (a rend : Z) (right : option tx_range_def) : tx_range_def :=
  match right with
  | None => RangeDef a (rend - a) (r_flags args)
  | Some fp => RangeDef (r_offset fp - (rend - a)) (r_size fp + (rend - a)) (r_flags fp)
  end.
Definition grown (args f : tx_range_def) (rend : Z) (right : option tx_range_def) : tx_range_def :=
  let f := pmemobj_tx_merge_flags (RangeDef (r_offset f) (r_size f + (rend - r_end f)) (r_flags f)) args in
  match right with
  | None => f
  | Some fp => pmemobj_tx_merge_flags (RangeDef (r_offset f) (r_size f + r_size fp) (r_flags f)) fp
  end.

Fixpoint add_list (args : tx_range_def) (front : list tx_range_def) (a rend : Z) (right : option tx_range_def)
    : list tx_range_def * list tx_range_def :=
  if rend =? a then (rev front ++ right_list right, []) else
  match front with
  | [] => ([extended args a rend right], [RangeDef a (rend - a) (r_flags args)])
  | f :: front' =>
      if r_end f <? a then (rev front ++ [extended args a rend right], [RangeDef a (rend - a) (r_flags args)]) else
      if r_end f <=? rend then
        let '(l, snaps) := add_list args front' a (Z.max (r_offset f) a) (Some (grown args f rend right)) in
        (l, (if rend - r_end f =? 0 then [] else [RangeDef (r_end f) (rend - r_end f) (r_flags args)]) ++ snaps)
      else add_list args front' a (Z.max (r_offset f) a) (Some (pmemobj_tx_merge_flags f args))
  end.

(** What is known in front of an iteration: a range that has been passed starts
    where the rest ends, unless nothing is left, and has the flags of the new one. *)
Record add_inv (args : tx_range_def) (front : list tx_range_def) (a rend : Z) (right : option tx_range_def) : Prop := AddInv {
  ai_sep : separate (rev front ++ right_list right);
  ai_below : Forall (fun r => r_offset r < rend) front;
  ai_left : 0 <= a <= rend;
  ai_end : rend < 2 ^ 64;
  ai_right : match right with Some fp => (rend = a \/ r_offset fp = rend) /\ (flushed args -> flushed fp) | None => True end
}.

(** The list and the snapshots an iteration ends with. *)
Record add_post (args : tx_range_def) (old l snaps : list tx_range_def) (a rend : Z) : Prop := AddPost {
  ap_sep : separate l;
  ap_covered x : covered l x <-> covered old x \/ a <= x < rend;
  ap_snaps : Forall (fun s => range_ok s /\ a <= r_offset s /\ r_end s <= rend /\ r_flags s = r_flags args) snaps;
  ap_disjoint : StronglySorted (fun s s' => precedes s' s) snaps;
  ap_snapped x : covered snaps x <-> a <= x < rend /\ ~ covered old x;
  ap_flush x : flush_covered old x \/ a <= x < rend /\ flushed args -> flush_covered l x
}.

Ltac covers := rewrite ?covered_app, ?covered_one, ?covered_nil, ?flush_app, ?flush_one, ?flush_nil in *.

(** The last iteration: nothing in front reaches the new range. *)
Lemma add_final args front a rend right :
  add_inv args front a rend right -> a < rend -> Forall (fun r => r_end r <= a) front ->
  add_post args (rev front ++ right_list right) (rev front ++ [extended args a rend right])
    [RangeDef a (rend - a) (r_flags args)] a rend.
Proof.
  intros [S B L E R] Ha Hf. apply separate_app in S as (S1 & S2 & S3).
  set (n := RangeDef a (rend - a) (r_flags args)). set (e := extended args a rend right).
  assert (range_ok n) as Hn by (unfold range_ok, r_end, n; cbn; lia).
  assert (range_ok e /\ r_offset e = a /\ (forall x, inside x e <-> a <= x < rend \/ covered (right_list right) x) /\
    (flushed args -> flushed e) /\ (forall x, flush_covered (right_list right) x -> inside x e /\ flushed e)) as (H1 & H2 & H3 & H4 & H5).
  { destruct right as [fp|]; cbn [right_list extended] in *.
    - apply separate_one in S2. destruct R as [[R|R] R']; [lia|]. unfold range_ok, r_end, inside, flushed, e in *. cbn [r_offset r_size r_flags extended] in *.
      split; [lia|]. split; [lia|]. split; [intros x; covers; unfold inside, r_end; cbn [r_offset r_size]; lia|]. split; [exact R'|].
      intros x. covers. unfold inside, flushed, r_end. cbn [r_offset r_size]. intros [? ?]. split; [lia|done].
    - split; [exact Hn|]. split; [done|]. unfold e, inside, r_end. cbn [r_offset r_size extended]. split; [intros x; covers; lia|]. split; [done|].
      intros x Hx. by covers. }
  assert (forall x, covered (rev front) x -> ~ a <= x < rend) as Hd.
  { intros x Hx. apply Exists_exists in Hx as (r & Hr & Hx). rewrite elem_of_rev in Hr. rewrite Forall_forall in Hf.
    specialize (Hf r Hr). unfold inside in Hx. lia. }
  assert (forall x, covered (right_list right) x -> rend <= x) as Hr.
  { intros x Hx. destruct right as [fp|]; cbn [right_list] in Hx; covers; [|done]. destruct R as [[R|R] _]; unfold inside in Hx; lia. }
  constructor.
  - apply separate_app. split; [done|]. split; [by apply separate_one|]. intros r s Hr' Hs. apply list_elem_of_singleton in Hs as ->.
    rewrite elem_of_rev in Hr'. rewrite Forall_forall in Hf. unfold precedes. rewrite H2. by apply Hf.
  - intros x. covers. rewrite H3. tauto.
  - apply Forall_singleton. unfold n. split; [done|]. unfold r_end. cbn. lia.
  - repeat constructor.
  - intros x. covers. unfold n, inside, r_end. cbn [r_offset r_size]. specialize (Hd x). specialize (Hr x). split; [|intros [? _]; lia].
    intros Hx. split; [lia|]. intros [Hc|Hc]; [apply (Hd Hc); lia|specialize (Hr Hc); lia].
  - intros x. covers. intros [[?|Hx]|[? ?]]; [by left|right; by apply H5|right]. rewrite H3. tauto.
Qed.

(** A range that ends inside of the new one grows up to the range on the right. *)
Lemma grown_facts args f rend right :
  range_ok f -> r_end f <= rend -> rend < 2 ^ 64 -> separate (right_list right) ->
  match right with Some fp => r_offset fp = rend /\ (flushed args -> flushed fp) | None => True end ->
  let g := grown args f rend right in
  range_ok g /\ r_offset g = r_offset f /\
  (forall x, inside x g <-> inside x f \/ r_end f <= x < rend \/ covered (right_list right) x) /\
  (flushed args \/ flushed f -> flushed g) /\ (forall x, flush_covered (right_list right) x -> inside x g /\ flushed g).
Proof.
  intros Hf He Hr S R g.
  assert (r_offset g = r_offset f) as Ho.
  { unfold g, grown. destruct right; rewrite ?merge_offset; cbn [r_offset]; by rewrite ?merge_offset. }
  assert (r_size g = rend - r_offset f + match right with Some fp => r_size fp | None => 0 end) as Hs.
  { unfold g, grown, r_end. destruct right; rewrite ?merge_size; cbn [r_size]; rewrite ?merge_size; cbn [r_size]; lia. }
  assert (flushed g <-> (flushed f \/ flushed args) \/ match right with Some fp => flushed fp | None => False end) as Hfl.
  { unfold g, grown. destruct right as [fp|]; rewrite ?merge_flushed; [|tauto]. unfold flushed at 1. cbn [r_flags].
    fold (flushed (pmemobj_tx_merge_flags (RangeDef (r_offset f) (r_size f + (rend - r_end f)) (r_flags f)) args)). by rewrite merge_flushed. }
  unfold range_ok, inside, r_end in *. rewrite Ho, Hs, Hfl. destruct right as [fp|]; cbn [right_list] in *.
  - apply separate_one in S. destruct R as [R1 R2]. unfold range_ok, r_end in S. split; [lia|]. split; [done|].
    split; [intros x; covers; unfold inside, r_end; lia|]. split; [tauto|]. intros x. covers. unfold inside, r_end. intros [? ?]. split; [lia|]. rewrite Hfl. by right.
  - split; [lia|]. split; [done|]. split; [intros x; covers; lia|]. split; [tauto|]. intros x Hx. by covers.
Qed.

Lemma grown_end args f rend right : (forall fp, right = Some fp -> r_offset fp = rend) ->
  r_end (grown args f rend right) = match right with Some fp => r_end fp | None => rend end.
Proof.
  intros R. unfold grown. destruct right as [fp|]; rewrite merge_end; unfold r_end; cbn [r_offset r_size]; [|lia].
  rewrite merge_offset, merge_size. cbn [r_offset r_size]. rewrite (R fp eq_refl). lia.
Qed.

(** The first iteration deals with the last range that starts below the end. *)
Lemma add_front_split args f front a rend right :
  add_inv args (f :: front) a rend right -> a < rend -> a <= r_end f ->
  range_ok f /\ separate (rev front) /\ separate (right_list right) /\ (forall r, r ∈ front -> r_end r <= r_offset f) /\
  (forall r, r ∈ right_list right -> r_offset r = rend /\ r_end f <= rend) /\ r_offset f < rend.
Proof.
  intros [S B L E R] Ha Hf. cbn [rev] in S. apply separate_app in S as (S1 & S2 & S3). apply separate_app in S1 as (S1 & S4 & S5).
  apply separate_one in S4. apply Forall_cons in B as [B _]. repeat split; try done; try apply S1; try apply S2; try apply S4.
  - intros r Hr. apply S5; [by rewrite elem_of_rev|by apply list_elem_of_singleton].
  - destruct right as [fp|]; cbn [right_list] in *; [|by inversion H]. apply list_elem_of_singleton in H as ->. destruct R as [[R|R] _]; lia.
  - destruct right as [fp|]; cbn [right_list] in *; [|by inversion H]. apply list_elem_of_singleton in H as ->. destruct R as [[R|R] _]; [lia|].
    rewrite <- R. apply S3; [apply elem_of_app; right|]; by apply list_elem_of_singleton.
Qed.

(** The next iteration: the found range becomes the one on the right. *)
Lemma add_next args f front g a rend right :
  add_inv args (f :: front) a rend right -> a < rend -> a <= r_end f ->
  range_ok g -> r_offset g = r_offset f -> (flushed args -> flushed g) ->
  add_inv args front a (Z.max (r_offset f) a) (Some g).
Proof.
  intros HI Ha Hf G1 G2 G3. destruct (add_front_split _ _ _ _ _ _ HI Ha Hf) as (F1 & F2 & _ & F4 & _ & F6).
  destruct HI as [_ B L E _]. apply Forall_cons in B as [_ B]. constructor.
  - apply separate_app. split; [done|]. split; [by apply separate_one|]. intros r s Hr Hs. apply list_elem_of_singleton in Hs as ->.
    rewrite elem_of_rev in Hr. unfold precedes. rewrite G2. by apply F4.
  - rewrite Forall_forall in *. intros r Hr. specialize (F4 r Hr). destruct F2 as [F2 _]. rewrite Forall_forall in F2.
    rewrite <- elem_of_rev in Hr. destruct (F2 r Hr) as (? & ? & ?). unfold r_end in *. lia.
  - lia.
  - lia.
  - split; [rewrite G2; lia|done].
Qed.

(** The old ranges in terms of those of the next iteration. *)
Lemma add_step args f front g a rend right l snaps hd :
  add_inv args (f :: front) a rend right -> a < rend -> a <= r_end f -> r_offset g = r_offset f ->
  (forall x, inside x g <-> inside x f \/ r_end f <= x < rend \/ covered (right_list right) x) ->
  (flushed args \/ flushed f -> flushed g) -> (forall x, flush_covered (right_list right) x -> inside x g /\ flushed g) ->
  Forall (fun s => range_ok s /\ r_end f <= r_offset s /\ r_end s <= rend /\ r_flags s = r_flags args) hd ->
  StronglySorted (fun s s' => precedes s' s) hd -> (forall x, covered hd x <-> r_end f <= x < rend) ->
  add_post args (rev front ++ [g]) l snaps a (Z.max (r_offset f) a) ->
  add_post args (rev (f :: front) ++ right_list right) l (hd ++ snaps) a rend.
Proof.
  intros HI Ha Hf G2 G3 G4 G5 Hh Hs Hc [P1 P2 P3 P4 P5 P6]. destruct (add_front_split _ _ _ _ _ _ HI Ha Hf) as (F1 & F2 & F3 & F4 & F5 & F6).
  assert (forall x, covered (right_list right) x -> rend <= x) as Hr.
  { intros x Hx. apply Exists_exists in Hx as (r & Hr & Hx). destruct (F5 r Hr). unfold inside in Hx. lia. }
  assert (forall x, covered (rev front) x -> x < r_offset f) as Hl.
  { intros x Hx. apply Exists_exists in Hx as (r & Hr' & Hx). rewrite elem_of_rev in Hr'. specialize (F4 r Hr'). unfold inside in Hx. lia. }
  assert (r_offset f < r_end f) as Hfe by (destruct F1 as (? & ? & ?); unfold r_end; lia).
  assert (forall x, inside x f <-> r_offset f <= x < r_end f) as Hif by done. cbn [rev].
  constructor.
  - exact P1.
  - intros x. specialize (P2 x). specialize (G3 x). specialize (Hif x). covers. rewrite P2, G3, Hif. clear -Ha Hf Hfe F6. intuition lia.
  - apply Forall_app. split; [|eapply Forall_impl; [exact P3|]; cbn; intros s (? & ? & ? & ?); (split; [done|]; split; [lia|]; split; [lia|done])].
    eapply Forall_impl; [exact Hh|]. cbn. intros s (? & ? & ? & ?). split; [done|]; split; [lia|]; split; [lia|done].
  - apply StronglySorted_app. split; [|done]. intros s s' Hs1 Hs2. rewrite Forall_forall in P3, Hh.
    destruct (Hh s Hs1) as (_ & ? & _), (P3 s' Hs2) as (_ & _ & ? & _). unfold precedes. lia.
  - intros x. specialize (P5 x). specialize (G3 x). specialize (Hif x). specialize (Hr x). specialize (Hl x). specialize (Hc x). covers.
    rewrite P5, G3, Hif, Hc. clear -Ha Hf Hfe Hr Hl F6. split.
    + intros [H|[H N]]; (split; [lia|]); intros [[HA|?]|HR]; try lia; try (specialize (Hl HA); lia); try (specialize (Hr HR); lia).
      apply N. by left.
    + intros [H N]. destruct (Z.le_gt_cases (r_end f) x); [left; lia|right]. split.
      * destruct (Z.lt_ge_cases x (Z.max (r_offset f) a)); [lia|]. destruct N. left. right. lia.
      * intros [HA|[?|[?|HR]]]; [by apply N; left; left|by apply N; left; right|lia|by apply N; right].
  - intros x Hx. apply P6. specialize (G3 x). specialize (Hif x). covers. cbn [rev] in *.
    destruct Hx as [[[?|[? ?]]|Hx]|[? ?]]; [by left; left|left; right|left; right; by apply G5|].
    + split; [apply G3; by left|apply G4; by right].
    + destruct (Z.lt_ge_cases x (Z.max (r_offset f) a)); [right; split; [lia|done]|left; right]. rewrite G3, Hif. split; [lia|]. apply G4. by left.
Qed.

Lemma add_done args old a : separate old -> add_post args old old [] a a.
Proof.
  intros S. constructor; try done.
  - intros x. split; [by left|]. intros [?|?]; [done|lia].
  - constructor.
  - intros x. covers. lia.
  - intros x [?|[? _]]; [done|lia].
Qed.

Lemma add_list_spec args front a rend right : add_inv args front a rend right ->
  let '(l, snaps) := add_list args front a rend right in add_post args (rev front ++ right_list right) l snaps a rend.
Proof.
  revert rend right. induction front as [|f front IH]; intros rend right HI; cbn [add_list]; destruct (Z.eqb_spec rend a) as [->|Hne];
    try (apply add_done, (ai_sep _ _ _ _ _ HI)).
  - pose proof (ai_left _ _ _ _ _ HI). apply (add_final args [] a rend right); [done|lia|constructor].
  - pose proof (ai_left _ _ _ _ _ HI) as Hl. pose proof (ai_end _ _ _ _ _ HI) as He. destruct (Z.ltb_spec (r_end f) a) as [Hf|Hf].
    { apply (add_final args (f :: front) a rend right); [done|lia|]. destruct HI as [S _ _ _ _]. cbn [rev] in S. apply separate_app in S as (S & _ & _).
      apply separate_app in S as (_ & S4 & S5). apply separate_one in S4. apply Forall_cons. split; [lia|]. apply Forall_forall. intros r Hr.
      assert (precedes r f) as Hp by (apply S5; [by rewrite elem_of_rev|by apply list_elem_of_singleton]).
      destruct S4 as (? & ? & ?). unfold precedes, r_end in *. lia. }
    destruct (add_front_split _ _ _ _ _ _ HI ltac:(lia) Hf) as (F1 & F2 & F3 & F4 & F5 & F6).
    destruct (Z.leb_spec (r_end f) rend) as [Hr|Hr].
    + destruct (grown_facts args f rend right F1 Hr He F3) as (G1 & G2 & G3 & G4 & G5).
      { destruct HI as [_ _ _ _ R]. destruct right; [|done]. destruct R as [[R|R] R']; [lia|done]. }
      pose proof (IH (Z.max (r_offset f) a) (Some (grown args f rend right))
        ltac:(apply (add_next args f front _ a rend right); try done; [lia|tauto])) as P.
      destruct (add_list args front a (Z.max (r_offset f) a) (Some (grown args f rend right))) as [l snaps].
      apply (add_step args f front (grown args f rend right)); try done; [lia| | |].
      * case_match; [constructor|]. zb. apply Forall_singleton. unfold range_ok, r_end in *. cbn [r_offset r_size r_flags]. destruct F1 as (? & ? & ?). repeat split; try done; lia.
      * case_match; repeat constructor.
      * intros x. case_match; zb; covers; [lia|]. unfold inside, r_end. cbn [r_offset r_size]. unfold r_end. lia.
    + assert (right = None) as ->.
      { destruct right as [fp|]; [|done]. destruct (F5 fp) as [_ ?]; [by apply list_elem_of_singleton|lia]. }
      assert (range_ok (pmemobj_tx_merge_flags f args)) as G1 by (by rewrite merge_flags_ok).
      pose proof (IH (Z.max (r_offset f) a) (Some (pmemobj_tx_merge_flags f args))
        ltac:(apply (add_next args f front _ a rend None); try done; [lia|by rewrite merge_offset|rewrite merge_flushed; tauto])) as P.
      destruct (add_list args front a (Z.max (r_offset f) a) (Some (pmemobj_tx_merge_flags f args))) as [l snaps].
      change snaps with ([] ++ snaps). apply (add_step args f front (pmemobj_tx_merge_flags f args) a rend None); try done; [lia|by rewrite merge_offset| | | | |].
      * intros x. unfold inside. rewrite merge_end, merge_offset. covers. lia.
      * rewrite merge_flushed. tauto.
      * intros x Hx. by covers.
      * constructor.
      * intros x. covers. lia.
Qed.

(** At most one snapshot in front of each range, and one behind the last. *)
Lemma add_list_count args front a rend right : (length (add_list args front a rend right).2 <= S (length front))%nat.
Proof.
  revert rend right. induction front as [|f front IH]; intros rend right; cbn [add_list length]; destruct (rend =? a); cbn [snd length]; try lia.
  destruct (r_end f <? a); cbn [snd length]; [lia|]. destruct (r_end f <=? rend).
  - specialize (IH (Z.max (r_offset f) a) (Some (grown args f rend right))). destruct (add_list _ _ _ _ _) as [l snaps]. cbn [snd] in *.
    rewrite length_app. destruct (rend - r_end f =? 0); cbn [length]; lia.
  - specialize (IH (Z.max (r_offset f) a) (Some (pmemobj_tx_merge_flags f args))). lia.
Qed.

(** ** The sizes of the snapshots *)

Fixpoint total_size (l : list tx_range_def) : Z := match l with [] => 0 | r :: l => r_size r + total_size l end.

Lemma total_size_bound a hi snaps : a <= hi -> Forall (fun s => range_ok s /\ a <= r_offset s /\ r_end s <= hi) snaps ->
  StronglySorted (fun s s' => precedes s' s) snaps -> total_size snaps <= hi - a.
Proof.
  intros Ha HF HS. revert hi Ha HF. induction HS as [|s snaps HS IH Hs]; intros hi Ha HF; cbn [total_size]; [lia|].
  apply Forall_cons in HF as [(H1 & H2 & H3) HF]. specialize (IH (r_offset s) ltac:(lia)). unfold r_end in *.
  assert (total_size snaps <= r_offset s - a); [|lia]. apply IH. rewrite Forall_forall in HF, Hs |- *.
  intros x Hx. destruct (HF x Hx) as (F1 & F2 & _). split; [done|]. split; [done|]. by apply Hs.
Qed.

(** ** Lists around the loop *)

Lemma separate_replace A f g B : separate (A ++ f :: B) -> range_ok g -> r_offset g = r_offset f ->
  Forall (fun s => r_end g <= r_offset s) B -> separate (A ++ g :: B).
Proof.
  intros S Hg Ho HB. apply separate_app in S as (S1 & S2 & S3). change (f :: B) with ([f] ++ B) in S2. apply separate_app in S2 as (_ & S4 & _).
  apply separate_app. split; [done|]. rewrite Forall_forall in HB. split.
  - change (g :: B) with ([g] ++ B). apply separate_app. split; [by apply separate_one|]. split; [done|].
    intros r s Hr Hs. apply list_elem_of_singleton in Hr as ->. by apply HB.
  - intros r s Hr Hs. apply elem_of_cons in Hs as [->|Hs]; [|apply S3; [done|by right]].
    unfold precedes. rewrite Ho. apply S3; [done|by left].
Qed.

Lemma separate_remove A f B : separate (A ++ f :: B) -> separate (A ++ B).
Proof.
  intros S. apply separate_app in S as (S1 & S2 & S3). change (f :: B) with ([f] ++ B) in S2. apply separate_app in S2 as (_ & S4 & _).
  apply separate_app. split; [done|]. split; [done|]. intros r s Hr Hs. apply S3; [done|by right].
Qed.

Lemma separate_after A f B : separate (A ++ f :: B) -> Forall (fun s => r_end f <= r_offset s) B.
Proof.
  intros S. apply separate_app in S as (_ & S2 & _). change (f :: B) with ([f] ++ B) in S2. apply separate_app in S2 as (_ & _ & S5).
  apply Forall_forall. intros s Hs. apply S5; [by apply list_elem_of_singleton|done].
Qed.

(** Ranges behind the new one are not touched. *)
Lemma post_tail args old l snaps a rend tl : add_post args old l snaps a rend -> separate (old ++ tl) ->
  Forall (fun s => rend <= r_offset s) tl -> separate (l ++ tl).
Proof.
  intros [P1 P2 _ _ _ _] S Ht. apply separate_app in S as (_ & S2 & S3). apply separate_app. split; [done|]. split; [done|].
  intros r s Hr Hs. destruct P1 as [P1 _]. rewrite Forall_forall in P1, Ht. destruct (P1 r Hr) as (? & ? & ?).
  assert (covered l (r_end r - 1)) as Hc by (apply Exists_exists; exists r; split; [done|]; unfold inside, r_end; lia).
  apply P2 in Hc as [Hc|Hc]; [|specialize (Ht s Hs); unfold precedes; lia].
  apply Exists_exists in Hc as (o & Ho & Hc). specialize (S3 o s Ho Hs). unfold precedes, inside in *. lia.
Qed.

Lemma post_behind args old l snaps a rend tl : add_post args old l snaps a rend -> separate (old ++ tl) ->
  Forall (fun s => rend <= r_offset s) tl -> add_post args (old ++ tl) (l ++ tl) snaps a rend.
Proof.
  intros HP S Ht. pose proof (post_tail _ _ _ _ _ _ _ HP S Ht) as Hs. destruct HP as [P1 P2 P3 P4 P5 P6].
  assert (forall x, covered tl x -> rend <= x) as Hb.
  { intros x Hx. apply Exists_exists in Hx as (r & Hr & Hx). rewrite Forall_forall in Ht. specialize (Ht r Hr). unfold inside in Hx. lia. }
  constructor; try done.
  - intros x. rewrite !covered_app, P2. tauto.
  - intros x. rewrite P5, covered_app. split; [|tauto]. intros [? ?]. split; [done|]. intros [?|Hx]; [done|]. specialize (Hb x Hx). lia.
  - intros x. rewrite !flush_app. intros Hx. specialize (P6 x). tauto.
Qed.

(** Merging flags into an old range in front of the loop loses nothing. *)
Lemma post_flags args A f m l snaps a rend : add_post args (A ++ [pmemobj_tx_merge_flags f m]) l snaps a rend ->
  add_post args (A ++ [f]) l snaps a rend.
Proof.
  intros [P1 P2 P3 P4 P5 P6]. assert (forall x, inside x (pmemobj_tx_merge_flags f m) <-> inside x f) as Hi.
  { intros x. unfold inside. by rewrite merge_offset, merge_end. }
  constructor; try done; intros x; [specialize (P2 x)|specialize (P5 x)|specialize (P6 x)]; covers; rewrite Hi in *; [done|done|].
  rewrite merge_flushed in P6. tauto.
Qed.
