(* ===== verification/TxLoop.v ===== *)
(** * The loop of pmemobj_tx_add_common on the tree of ranges

    The loop follows, moves and removes nodes of the ravl while it takes
    snapshots; this file shows that it does what [add_list] does on the list of
    ranges, for every behaviour of the snapshots. *)
From stdpp Require Import base numbers list list_numbers gmap sorting.
From Stdlib Require Import ZArith Lia Bool.
From S2P Require Import Prelude Pmem Ulog Ravl RavlFacts RavlOps RavlSpec Memops Tx TxRanges.

#[global] Instance tx_range_order : RavlOrder tx_range_def_cmp.
Proof. split; unfold tx_range_def_cmp; intros; repeat case_match; zb; cbn in *; lia. Qed.

Abbreviation cmp := tx_range_def_cmp.

Lemma cmp_sign r s : (cmp r s < 0 <-> r_offset r < r_offset s) /\ (cmp r s = 0 <-> r_offset r = r_offset s) /\ (0 < cmp r s <-> r_offset s < r_offset r).
Proof. unfold tx_range_def_cmp. repeat case_match; zb; lia. Qed.

Lemma separate_sorted l : separate l -> sorted cmp l.
Proof.
  intros [H1 H2]. induction H2 as [|r l H2 IH H3]; [constructor|]. apply Forall_cons in H1 as [Hr H1]. constructor; [by apply IH|].
  eapply Forall_impl; [exact H3|]. intros s Hs. destruct Hr as (? & ? & ?). apply cmp_sign. unfold precedes, r_end in *. lia.
Qed.

Lemma sorted_same A r s B : sorted cmp (A ++ r :: B) -> r_offset s = r_offset r -> sorted cmp (A ++ s :: B).
Proof.
  intros Hs Ho. apply sorted_app in Hs as (S1 & S2 & S3). apply StronglySorted_cons in S2 as [S2 S4]. apply sorted_app. split; [done|].
  assert (forall x, (cmp s x < 0 <-> cmp r x < 0) /\ (cmp x s < 0 <-> cmp x r < 0)) as Hc by (intros x; by rewrite !(proj1 (cmp_sign _ _)), Ho).
  split; [constructor; [done|]; eapply Forall_impl; [exact S2|]; intros x Hx; by apply Hc|].
  eapply Forall_impl; [exact S3|]. intros x Hx. apply Forall_cons in Hx as [Hx Hx']. constructor; [by apply Hc|done].
Qed.

(** ** Searches *)

Lemma find_range_below flags k (A B : list (Z * tx_range_def)) :
  has_pred flags RAVL_PREDICATE_LESS = true -> has_pred flags RAVL_PREDICATE_GREATER = false ->
  Forall (fun e => r_offset e.2 < k \/ r_offset e.2 = k /\ has_pred flags RAVL_PREDICATE_EQUAL = true) A ->
  Forall (fun e => k < r_offset e.2 \/ r_offset e.2 = k /\ has_pred flags RAVL_PREDICATE_EQUAL = false) B ->
  find_answer cmp flags (RangeDef k 0 0) (A ++ B) = last_addr A.
Proof.
  intros Hl Hg HA HB. unfold find_answer. rewrite Hl, List.filter_app. rewrite Forall_forall in HA, HB.
  rewrite filter_every, filter_none; [by rewrite app_nil_r| |].
  - intros e He. destruct (HB e He) as [?|[? ?]]; [rewrite matches_neg|rewrite matches_zero]; try done; apply cmp_sign; cbn; lia.
  - intros e He. destruct (HA e He) as [?|[? ?]]; [rewrite matches_pos|rewrite matches_zero]; try done; apply cmp_sign; cbn; lia.
Qed.

(** ** The monad *)

Section Loop.
Context {H : Type}.
Implicit Types (st : tx_state H) (T : ravl tx_range_def).

Definition with_ranges T st : tx_state H :=
  TxState (set_ranges (Some T) (st_tx st)) (st_lane st) (st_ws st) (st_heap st) (st_events st).

Definition frame {A} T (o : option (outcome A * tx_state H)) : option (outcome A * tx_state H) :=
  match o with Some (a, st) => Some (a, with_ranges T st) | None => None end.

Lemma bind_ret {A B} (m : TX H A) (k : A -> TX H B) st a st' : m st = Some (Ret a, st') -> bind m k st = k a st'.
Proof. intros E. unfold bind. by rewrite E. Qed.

Lemma with_with T T' st : with_ranges T (with_ranges T' st) = with_ranges T st.
Proof. done. Qed.

(** A computation that neither reads nor changes the tree. *)
Definition frames {A} (m : TX H A) : Prop := forall T st, m (with_ranges T st) = frame T (m st).

Lemma frames_ret {A} (a : A) : frames (ret a).
Proof. done. Qed.
Lemma frames_bind {A B} (m : TX H A) (k : A -> TX H B) : frames m -> (forall a, frames (k a)) -> frames (bind m k).
Proof.
  intros Hm Hk T st. unfold bind. rewrite Hm. destruct (m st) as [[[a|e n] st']|]; cbn [frame]; [apply Hk|done|done].
Qed.
Lemma frames_get {A} (k : tx -> TX H A) : (forall t, frames (k t)) -> (forall t T, k (set_ranges (Some T) t) = k t) -> frames (bind get_tx k).
Proof. intros Hk He T st. unfold bind, get_tx. cbn [with_ranges st_tx]. rewrite He. apply Hk. Qed.
Lemma frames_modify (f : tx -> tx) : (forall t T, f (set_ranges (Some T) t) = set_ranges (Some T) (f t)) -> frames (modify f).
Proof. intros Hf T st. unfold modify, frame, with_ranges. cbn. by rewrite Hf. Qed.
Lemma frames_external {A} (f : operation_context -> world -> option (A * operation_context * world)) : frames (run_external f).
Proof. intros T st. unfold run_external. cbn. destruct (negb (tx_lane (st_tx st))); [done|]. by destruct (f _ _) as [[[a c] w]|]. Qed.
Lemma frames_undo {A} (f : operation_context -> world -> option (A * operation_context * world)) : frames (run_undo f).
Proof. intros T st. unfold run_undo. cbn. destruct (negb (tx_lane (st_tx st))); [done|]. by destruct (f _ _) as [[[a c] w]|]. Qed.

Context (env : tx_env).

Lemma frames_action_add : frames (tx_action_add env).
Proof.
  unfold tx_action_add, tx_action_reserve. apply frames_bind.
  { apply frames_get; [|done]. intros t. apply frames_bind; [apply frames_external|]. intros r. apply frames_ret. }
  intros ok. destruct (negb ok); [apply frames_ret|]. apply frames_bind; [apply frames_modify|].
  { intros t T. by destruct (e_inc env 0). }
  intros _. apply frames_get; [|done]. intros t. apply frames_ret.
Qed.

Lemma frames_snapshot sn : frames (pmemobj_tx_add_snapshot env sn).
Proof.
  unfold pmemobj_tx_add_snapshot. apply frames_get; [|done]. intros t. cbv zeta. destruct (flag_isset _ _); [apply frames_ret|].
  apply frames_bind.
  - destruct (first_snapshot t); [|apply frames_ret]. apply frames_bind; [apply frames_action_add|]. intros [pos|]; [|apply frames_ret].
    apply frames_bind; [done|]. intros l. apply frames_bind; [done|]. intros ws. apply frames_bind.
    { unfold action_set. destruct (pos <? 0); [done|]. by apply frames_modify. }
    intros _. apply frames_bind; [by apply frames_modify|]. intros _. apply frames_ret.
  - intros ok. destruct (negb ok); [apply frames_ret|apply frames_undo].
Qed.

(** The snapshots of a list, up to the first that fails. *)
Fixpoint run_snaps (snaps : list tx_range_def) : TX H Z :=
  match snaps with
  | [] => ret 0
  | sn :: snaps => ok <- pmemobj_tx_add_snapshot env sn;; if negb (ok =? 0) then ret ok else run_snaps snaps
  end.

Lemma run_one sn st : run_snaps [sn] st = pmemobj_tx_add_snapshot env sn st.
Proof.
  cbn [run_snaps]. unfold bind. destruct (pmemobj_tx_add_snapshot env sn st) as [[[ok|e n] st']|]; [|done|done].
  destruct (Z.eqb_spec ok 0) as [->|]; done.
Qed.

(** ** Nodes *)

Lemma range_at_eq T A n d B st : ravl_ents cmp T (A ++ (n, d) :: B) -> range_at n (with_ranges T st) = Some (Ret d, with_ranges T st).
Proof.
  intros HE. destruct (ents_at cmp T _ n d HE) as (_ & nd & Hn & <-); [apply elem_of_app; right; left|].
  unfold range_at, bind, get_tx, lift. cbn [with_ranges st_tx set_ranges ranges mbind option_bind]. by rewrite Hn.
Qed.

Lemma range_set_eq T A n d d' B : ravl_ents cmp T (A ++ (n, d) :: B) -> sorted cmp (map snd (A ++ (n, d') :: B)) ->
  exists T', ravl_ents cmp T' (A ++ (n, d') :: B) /\ forall st, range_set n d' (with_ranges T st) = Some (Ret tt, with_ranges T' st).
Proof.
  intros HE Hs. destruct (ents_set cmp T A n d d' B HE Hs) as (T' & E & HE'). exists T'. split; [done|]. intros st.
  unfold range_set, bind, get_tx, lift. cbn [with_ranges st_tx set_ranges ranges mbind option_bind]. by rewrite E.
Qed.

Lemma range_remove_eq T A n d B fuel : ravl_ents cmp T (A ++ (n, d) :: B) -> e_fuel env = S fuel -> (length (A ++ (n, d) :: B) < fuel)%nat ->
  exists T' B', ravl_ents cmp T' (A ++ B') /\ map snd B' = map snd B /\
    forall st, range_remove env n (with_ranges T st) = Some (Ret tt, with_ranges T' st).
Proof.
  intros HE Hf Hl. destruct (ents_remove cmp T A n d B fuel HE Hl) as (T' & B' & E & HE' & HB). exists T', B'. split; [done|]. split; [done|].
  intros st. unfold range_remove, bind, get_tx, lift. cbn [with_ranges st_tx set_ranges ranges mbind option_bind]. by rewrite Hf, E.
Qed.

(** The entry on the right. *)
Definition right_ents (right : option tx_range_def) (nprev : Z) : list (Z * tx_range_def) :=
  match right with Some fp => [(nprev, fp)] | None => [] end.

Lemma right_ents_snd right nprev : map snd (right_ents right nprev) = right_list right.
Proof. by destruct right. Qed.

Definition fresh_node T : Prop := e_node env <> 0 /\ nodes T !! e_node env = None.

(** ** One iteration *)

Lemma insert_def_eq T E1 E2 r : ravl_ents cmp T (E1 ++ E2) -> separate (map snd E1 ++ r :: map snd E2) -> fresh_node T ->
  (length (E1 ++ E2) < e_fuel env)%nat ->
  exists T', ravl_ok cmp T' (map snd E1 ++ r :: map snd E2) /\
    forall st, tx_lane_ranges_insert_def env r (with_ranges T st) = Some (Ret 0, with_ranges T' st).
Proof.
  intros HE Hs [Hn0 Hn] Hf. pose proof (separate_sorted _ Hs) as Hso.
  destruct (emplace_ok cmp T _ r (e_node env) ravl_node_copy_constructor (e_fuel env) (ents_ok _ _ _ HE) Hn0 Hn) as (T' & E & Hok);
    [by rewrite (ents_size _ _ _ HE)|]. rewrite map_app in E, Hok.
  assert (is_dup cmp r (map snd E1 ++ map snd E2) = false) as Hd.
  { apply no_dup_between; [by apply _|..]; apply sorted_app in Hso as (_ & S2 & S3).
    - eapply Forall_impl; [exact S3|]. intros e He. by apply Forall_cons in He as [He _].
    - by apply StronglySorted_cons in S2 as [S2 _]. }
  rewrite Hd in E, Hok. rewrite (insert_between cmp _ _ _ Hso) in Hok. exists T'. split; [done|]. intros st.
  unfold tx_lane_ranges_insert_def, bind, get_tx, lift, ravl_emplace_copy. cbn [with_ranges st_tx set_ranges ranges mbind option_bind].
  by rewrite E.
Qed.

Lemma add_new_eq args T E1 right nprev Et a rend :
  ravl_ents cmp T (E1 ++ right_ents right nprev ++ Et) -> (match right with Some fp => r_offset fp = rend /\ nprev <> 0 | None => nprev = 0 /\ fresh_node T end) ->
  separate (map snd (E1 ++ right_ents right nprev ++ Et)) -> 0 <= a < rend -> rend < 2 ^ 64 ->
  separate (map snd E1 ++ [extended args a rend right] ++ map snd Et) -> (length (E1 ++ right_ents right nprev ++ Et) < e_fuel env)%nat ->
  exists T', ravl_ok cmp T' (map snd E1 ++ [extended args a rend right] ++ map snd Et) /\
    forall st, add_new_range env (RangeDef a (rend - a) (r_flags args)) nprev (with_ranges T st) = Some (Ret 0, with_ranges T' st).
Proof.
  intros HE HR Hs Ha Hr Hs' Hf. unfold add_new_range. destruct right as [fp|]; cbn [right_ents extended app] in *.
  - destruct HR as [HR Hn]. rewrite (proj2 (Z.eqb_neq _ _) Hn). cbn [negb]. rewrite map_app in Hs. cbn [map snd] in Hs.
    assert (range_ok fp) as Hfp by (destruct Hs as [Hs _]; rewrite Forall_app, Forall_cons in Hs; tauto).
    set (d := RangeDef (r_offset fp - (rend - a)) (r_size fp + (rend - a)) (r_flags fp)) in *.
    destruct (range_set_eq T E1 nprev fp d Et HE) as (T' & HE' & E).
    { rewrite map_app. exact (separate_sorted _ Hs'). }
    exists T'. split; [pose proof (ents_ok _ _ _ HE') as Hok; by rewrite map_app in Hok|]. intros st.
    rewrite (bind_ret _ _ _ _ _ (range_at_eq T E1 nprev fp Et st HE)).
    replace (RangeDef _ _ _) with d; [by rewrite (bind_ret _ _ _ _ _ (E st))|].
    unfold d. cbn [r_size]. destruct Hfp as (? & ? & ?). unfold r_end in *. rewrite !u64_small by lia. done.
  - destruct HR as [-> HR]. cbn [Z.eqb negb]. by apply insert_def_eq.
Qed.

Definition tree_ok T : Prop := exists l, ravl_ok cmp T l /\ separate l.
Lemma tree_ok_ents T E : ravl_ents cmp T E -> separate (map snd E) -> tree_ok T.
Proof. intros HE Hs. exists (map snd E). split; [by apply ents_ok|done]. Qed.

(** What the loop returns, against the snapshots that [add_list] asks for. *)
Definition loop_result (m : TX H Z) T (snaps l : list tx_range_def) : Prop :=
  exists T', ravl_ok cmp T' l /\
    forall st, exists T'', m (with_ranges T st) = frame T'' (run_snaps snaps st) /\ tree_ok T'' /\
      forall st', run_snaps snaps st = Some (Ret 0, st') -> T'' = T'.

Lemma result_snapshot T T1 (m k : TX H Z) sn snaps l :
  (forall st, m (with_ranges T st) = bind (pmemobj_tx_add_snapshot env sn) (fun ok => if negb (ok =? 0) then ret ok else k) (with_ranges T1 st)) ->
  tree_ok T1 -> loop_result k T1 snaps l -> loop_result m T (sn :: snaps) l.
Proof.
  intros Hm Ht (T' & Hok & Hk). exists T'. split; [done|]. intros st. rewrite Hm. cbn [run_snaps]. unfold bind.
  rewrite frames_snapshot. destruct (pmemobj_tx_add_snapshot env sn st) as [[[ok|e n] st']|]; cbn [frame]; [|by exists T1|by exists T1].
  destruct (Z.eqb_spec ok 0) as [->|Hne]; cbn [negb]; [apply Hk|]. exists T1. split; [done|]. split; [done|]. intros st'' [=]. done.
Qed.

Lemma result_same T T1 (m k : TX H Z) snaps l :
  (forall st, m (with_ranges T st) = k (with_ranges T1 st)) -> loop_result k T1 snaps l -> loop_result m T snaps l.
Proof. intros Hm (T' & Hok & Hk). exists T'. split; [done|]. intros st. rewrite Hm. apply Hk. Qed.

Section Step.
Context (args : tx_range_def) (T : ravl tx_range_def) (E1 Et : list (Z * tx_range_def)) (right : option tx_range_def) (nprev a rend p : Z) (steps : nat).
Hypothesis (HE : ravl_ents cmp T (E1 ++ right_ents right nprev ++ Et)).
Hypothesis (Hp : valid_predicate p = true).
Hypothesis (Hfind : find_answer cmp p (RangeDef rend 0 0) (E1 ++ right_ents right nprev ++ Et) = last_addr E1).
Hypothesis (Hrange : 0 <= a < rend /\ rend < 2 ^ 64).
Hypothesis (Hfuel : (2 * length (E1 ++ right_ents right nprev ++ Et) + 1 < e_fuel env)%nat).

(** Up to the search, and up to the found range. *)
Ltac step_start :=
  cbn [add_ranges r_size r_offset]; destruct (Z.eqb_spec (rend - a) 0) as [?|_]; [lia|];
  unfold bind at 1, get_tx at 1; cbn [st_tx with_ranges set_ranges ranges]; unfold bind at 1, lift at 1; cbn [mbind option_bind];
  replace (a + (rend - a)) with rend by lia; rewrite (u64_small rend) by lia;
  unfold bind at 1, lift at 1; rewrite (ents_find cmp T _ _ _ _ HE Hp) by lia; rewrite Hfind; cbn [mbind option_bind].
Ltac step_found Hok :=
  rewrite last_addr_snoc; cbn [fst];
  match type of HE with ravl_ents _ _ ((?E ++ [(?n, ?f)]) ++ _) =>
    destruct (ents_at cmp T _ n f HE) as (Hn & _); [apply elem_of_app; left; apply elem_of_app; right; left|];
    rewrite (proj2 (Z.eqb_neq n 0) Hn); rewrite <- app_assoc in HE;
    match goal with |- context [with_ranges T ?st] => rewrite (bind_ret _ _ _ _ _ (range_at_eq T E n f _ st HE)) end
  end;
  destruct Hok as (? & ? & ?); unfold r_end in *; rewrite (u64_small (r_offset _ + r_size _)) by lia.

(** The new range when nothing in front reaches it. *)
Lemma step_new : (forall n f E, E1 = E ++ [(n, f)] -> range_ok f /\ r_end f < a) ->
  forall st, add_ranges env (S steps) args (RangeDef a (rend - a) (r_flags args)) p nprev (with_ranges T st) =
    bind (add_new_range env (RangeDef a (rend - a) (r_flags args)) nprev)
      (fun ok => if negb (ok =? 0) then ret ok else pmemobj_tx_add_snapshot env (RangeDef a (rend - a) (r_flags args))) (with_ranges T st).
Proof.
  intros Hlast st. step_start.
  destruct (decide (E1 = [])) as [->|Hne]; [done|]. destruct (exists_last Hne) as (E & [n f] & ->). destruct (Hlast n f E eq_refl) as [Hok Hend].
  step_found Hok. rewrite (proj2 (Z.ltb_lt _ a) Hend), orb_true_r. done.
Qed.

Context (E : list (Z * tx_range_def)) (n : Z) (f : tx_range_def).
Hypothesis (HE1 : E1 = E ++ [(n, f)]).
Hypothesis (Hok : range_ok f).
Hypothesis (Hend : a <= r_end f).
Hypothesis (Hoff : r_offset f <= rend).

Lemma step_grow : r_end f <= rend ->
  forall st, add_ranges env (S steps) args (RangeDef a (rend - a) (r_flags args)) p nprev (with_ranges T st) =
    (range_set n (pmemobj_tx_merge_flags (RangeDef (r_offset f) (r_size f + (rend - r_end f)) (r_flags f)) args);;
     ok <- (if rend - r_end f =? 0 then ret 0 else pmemobj_tx_add_snapshot env (RangeDef (r_end f) (rend - r_end f) (r_flags args)));;
     if negb (ok =? 0) then ret ok else
     (merge_right env n nprev;;
      add_ranges env steps args (RangeDef a (Z.max (r_offset f) a - a) (r_flags args)) RAVL_PREDICATE_LESS n)) (with_ranges T st).
Proof.
  intros Hle st. step_start. rewrite HE1 in *. step_found Hok. rewrite (proj2 (Z.ltb_ge _ a) Hend), orb_false_r.
  destruct (Z.eqb_spec (r_offset f + r_size f) 0) as [?|_]; [lia|]. rewrite (proj2 (Z.leb_le _ rend) Hle).
  rewrite !(u64_small (rend - _)) by lia. rewrite (u64_small (r_size f + _)) by lia. rewrite (u64_small (r_offset f + r_size f - _)) by lia.
  rewrite (u64_small (r_offset f + r_size f - _ + _)) by lia. rewrite (u64_small (rend - a - _)) by lia.
  replace (rend - a - _) with (Z.max (r_offset f) a - a) by lia. done.
Qed.

Lemma step_over : rend < r_end f ->
  forall st, add_ranges env (S steps) args (RangeDef a (rend - a) (r_flags args)) p nprev (with_ranges T st) =
    (range_set n (pmemobj_tx_merge_flags f args);;
     add_ranges env steps args (RangeDef a (Z.max (r_offset f) a - a) (r_flags args)) RAVL_PREDICATE_LESS n) (with_ranges T st).
Proof.
  intros Hgt st. step_start. rewrite HE1 in *. step_found Hok. rewrite (proj2 (Z.ltb_ge _ a) Hend), orb_false_r.
  destruct (Z.eqb_spec (r_offset f + r_size f) 0) as [?|_]; [lia|]. rewrite (proj2 (Z.leb_gt _ rend) Hgt), (proj2 (Z.leb_le a _)) by lia.
  rewrite (u64_small (rend - Z.max _ _)) by lia. rewrite (u64_small (rend - a - _)) by lia.
  replace (rend - a - _) with (Z.max (r_offset f) a - a) by lia. done.
Qed.

End Step.

Lemma merge_right_eq T E n g right nprev Et fuel :
  ravl_ents cmp T (E ++ (n, g) :: right_ents right nprev ++ Et) -> match right with Some _ => nprev <> 0 | None => nprev = 0 end ->
  separate (map snd (E ++ (n, g) :: right_ents right nprev ++ Et)) ->
  (forall fp, right = Some fp -> r_offset fp = r_end g) ->
  e_fuel env = S fuel -> (length (E ++ (n, g) :: right_ents right nprev ++ Et) < fuel)%nat ->
  let g' := match right with Some fp => pmemobj_tx_merge_flags (RangeDef (r_offset g) (r_size g + r_size fp) (r_flags g)) fp | None => g end in
  exists T' Et', ravl_ents cmp T' (E ++ (n, g') :: Et') /\ map snd Et' = map snd Et /\
    forall st, merge_right env n nprev (with_ranges T st) = Some (Ret tt, with_ranges T' st).
Proof.
  intros HE Hn Hs Ho Hf Hl g'. unfold merge_right. destruct right as [fp|]; cbn [right_ents app] in *; [|subst nprev; by exists T, Et].
  rewrite (proj2 (Z.eqb_neq _ _) Hn). rewrite map_app in Hs. cbn [map snd] in Hs. specialize (Ho fp eq_refl).
  assert (range_ok g /\ range_ok fp) as [Hg Hfp] by (destruct Hs as [Hs _]; rewrite Forall_app, !Forall_cons in Hs; tauto).
  destruct (range_set_eq T E n g g' ((nprev, fp) :: Et) HE) as (T1 & HE1 & E1).
  { rewrite map_app. cbn [map snd]. apply (sorted_same _ g); [by apply separate_sorted|]. unfold g'. by rewrite merge_offset. }
  destruct (range_remove_eq T1 (E ++ [(n, g')]) nprev fp Et fuel) as (T' & Et' & HE' & HEt' & E').
  { by rewrite <- app_assoc. }
  { done. }
  { rewrite <- app_assoc. rewrite length_app in Hl |- *. cbn in *. lia. }
  rewrite <- app_assoc in HE'. exists T', Et'. split; [done|]. split; [done|]. intros st.
  change (E ++ (n, g) :: (nprev, fp) :: Et) with (E ++ [(n, g)] ++ (nprev, fp) :: Et) in HE. pose proof HE as HE2. rewrite app_assoc in HE2.
  rewrite (bind_ret _ _ _ _ _ (range_at_eq T _ nprev fp Et st HE2)). rewrite (bind_ret _ _ _ _ _ (range_at_eq T E n g _ st HE)).
  rewrite (u64_small (r_size g + r_size fp)) by (unfold range_ok, r_end in *; lia).
  rewrite (bind_ret _ _ _ _ _ (E1 st)). apply E'.
Qed.

(** What the loop knows about the tree, besides [add_inv]. *)
Record loop_inv T (E1 : list (Z * tx_range_def)) (right : option tx_range_def) (nprev : Z) (Et : list (Z * tx_range_def)) (rend : Z) : Prop := LoopInv {
  li_ents : ravl_ents cmp T (E1 ++ right_ents right nprev ++ Et);
  li_sep : separate (map snd (E1 ++ right_ents right nprev ++ Et));
  li_right : match right with Some _ => nprev <> 0 | None => nprev = 0 /\ fresh_node T end;
  li_tail : Forall (fun e => rend <= r_offset e.2) Et;
  li_fuel : (2 * length (E1 ++ right_ents right nprev ++ Et) + 2 < e_fuel env)%nat
}.

Lemma tail_bound T E1 right nprev Et rend : loop_inv T E1 right nprev Et rend ->
  Forall (fun s => match right with Some fp => r_end fp | None => rend end <= r_offset s) (map snd Et).
Proof.
  intros [_ Hs _ Ht _]. rewrite map_app, map_app, right_ents_snd in Hs. destruct right as [fp|]; [|by rewrite Forall_map].
  by apply separate_after in Hs.
Qed.

Lemma find_front E n g Et k : separate (map snd (E ++ (n, g) :: Et)) -> r_offset g = k ->
  find_answer cmp RAVL_PREDICATE_LESS (RangeDef k 0 0) (E ++ (n, g) :: Et) = last_addr E.
Proof.
  intros Hs Hg. rewrite map_app in Hs. cbn [map snd] in Hs. pose proof (separate_sorted _ Hs) as Hso. apply sorted_app in Hso as (_ & S2 & S3).
  apply StronglySorted_cons in S2 as [S2 _]. rewrite Forall_map in S2, S3.
  apply find_range_below; [done|done| |constructor].
  - eapply Forall_impl; [exact S3|]. intros e He. apply Forall_cons in He as [He _]. apply cmp_sign in He. left. lia.
  - right. done.
  - eapply Forall_impl; [exact S2|]. intros e He. apply cmp_sign in He. left. cbn in He. lia.
Qed.

(** The next iteration starts from a range [g] in the place of the found one. *)
Lemma loop_next T E n g Et rend fuel : ravl_ents cmp T (E ++ (n, g) :: Et) -> separate (map snd (E ++ (n, g) :: Et)) ->
  rend <= r_end g -> (2 * length (E ++ (n, g) :: Et) + 2 < fuel)%nat -> fuel = e_fuel env ->
  loop_inv T E (Some g) n Et rend.
Proof.
  intros HE Hs Hr Hf ->. constructor; cbn [right_ents app]; try done.
  - apply (ents_at cmp T _ n g HE). apply elem_of_app. right. left.
  - rewrite map_app in Hs. cbn [map snd] in Hs. apply separate_after in Hs. rewrite Forall_map in Hs. eapply Forall_impl; [exact Hs|]. cbn. intros e He. lia.
Qed.

Section Cases.
Context (args : tx_range_def) (a : Z) (T : ravl tx_range_def) (E1 Et : list (Z * tx_range_def)) (right : option tx_range_def) (nprev rend p : Z) (steps : nat).
Hypothesis (HL : loop_inv T E1 right nprev Et rend).
Hypothesis (HI : add_inv args (rev (map snd E1)) a rend right).
Hypothesis (Hfind : rend <> a -> valid_predicate p = true /\ find_answer cmp p (RangeDef rend 0 0) (E1 ++ right_ents right nprev ++ Et) = last_addr E1).

Abbreviation loop n := (add_ranges env n args (RangeDef a (rend - a) (r_flags args)) p nprev).

Lemma loop_done : rend = a -> loop_result (loop steps) T [] ((map snd E1 ++ right_list right) ++ map snd Et).
Proof.
  intros ->. exists T. split.
  - pose proof (ents_ok _ _ _ (li_ents _ _ _ _ _ _ HL)) as Hok. by rewrite !map_app, right_ents_snd, app_assoc in Hok.
  - intros st. exists T. split; [|split; [|done]]; [|by apply (tree_ok_ents _ _ (li_ents _ _ _ _ _ _ HL)), (li_sep _ _ _ _ _ _ HL)]. destruct steps; cbn [add_ranges r_size]; by rewrite Z.sub_diag.
Qed.

Lemma loop_final : rend <> a -> (forall n f E, E1 = E ++ [(n, f)] -> r_end f < a) ->
  loop_result (loop (S steps)) T [RangeDef a (rend - a) (r_flags args)] ((map snd E1 ++ [extended args a rend right]) ++ map snd Et).
Proof.
  intros Hne Hlast. destruct HL as [HE Hs HR Ht Hf]. destruct (Hfind Hne) as [Hp Hfi]. pose proof (ai_left _ _ _ _ _ HI) as Ha. pose proof (ai_end _ _ _ _ _ HI) as Hend.
  rewrite !map_app, right_ents_snd in Hs. assert (Forall range_ok (map snd E1)) as Hok by (destruct Hs as [Hs _]; rewrite Forall_app in Hs; tauto).
  assert (Forall (fun r => r_end r <= a) (rev (map snd E1))) as Hfr.
  { destruct (decide (E1 = [])) as [->|Hn]; [constructor|]. destruct (exists_last Hn) as (E & [n f] & HE1). specialize (Hlast n f E HE1).
    rewrite HE1, map_app, rev_app_distr in *. cbn [map snd rev app] in *. apply Forall_cons. split; [lia|]. apply separate_app in Hs as (Hs & _ & _).
    apply separate_app in Hs as (_ & Hf1 & Hs). apply separate_one in Hf1. apply Forall_forall. intros r Hr. rewrite elem_of_rev in Hr.
    specialize (Hs r f Hr ltac:(by apply list_elem_of_singleton)). unfold precedes, range_ok, r_end in *. lia. }
  pose proof (add_final _ _ _ _ _ HI ltac:(lia) Hfr) as HP. rewrite rev_involutive in HP.
  assert (separate (map snd E1 ++ [extended args a rend right] ++ map snd Et)) as Hs'.
  { rewrite app_assoc. eapply post_tail; [exact HP|by rewrite <- app_assoc|by rewrite Forall_map]. }
  destruct (add_new_eq args T E1 right nprev Et a rend HE) as (T1 & Hok1 & E).
  { destruct right as [fp|]; [|done]. split; [|done]. destruct (ai_right _ _ _ _ _ HI) as [[?|?] _]; [lia|done]. }
  { by rewrite !map_app, right_ents_snd. } { lia. } { done. } { done. } { lia. }
  exists T1. split; [by rewrite <- app_assoc|]. intros st. exists T1. split; [|split; [by exists (map snd E1 ++ [extended args a rend right] ++ map snd Et)|done]].
  rewrite (step_new args T E1 Et right nprev a rend p steps HE Hp Hfi ltac:(lia) ltac:(lia)).
  - rewrite (bind_ret _ _ _ _ _ (E st)). cbn [Z.eqb negb]. by rewrite run_one, frames_snapshot.
  - intros n f E0 HE1. split; [|by eapply Hlast]. rewrite HE1, map_app, Forall_app in Hok. destruct Hok as [_ Hok]. by apply Forall_cons in Hok as [Hok _].
Qed.

(** The rest of the loop, once the found range has become [g] in the tree [T']. *)
Definition rest_ok (E : list (Z * tx_range_def)) (n : Z) (f g : tx_range_def) : Prop :=
  forall T' Et', ravl_ents cmp T' (E ++ (n, g) :: Et') -> map snd Et' = map snd Et ->
    let '(l, snaps) := add_list args (rev (map snd E)) a (Z.max (r_offset f) a) (Some g) in
    loop_result (add_ranges env steps args (RangeDef a (Z.max (r_offset f) a - a) (r_flags args)) RAVL_PREDICATE_LESS n) T' snaps (l ++ map snd Et).

Lemma loop_over E n f : E1 = E ++ [(n, f)] -> rend <> a -> a <= r_end f -> rend < r_end f -> right = None ->
  rest_ok E n f (pmemobj_tx_merge_flags f args) ->
  let '(l, snaps) := add_list args (rev (map snd E)) a (Z.max (r_offset f) a) (Some (pmemobj_tx_merge_flags f args)) in
  loop_result (loop (S steps)) T snaps (l ++ map snd Et).
Proof.
  intros HE1 Hne Hf Hgt Hr Hrest. destruct HL as [HE Hs HR Ht Hfu]. destruct (Hfind Hne) as [Hp Hfi]. pose proof (ai_left _ _ _ _ _ HI) as Ha. pose proof (ai_end _ _ _ _ _ HI) as Hend.
  assert (add_inv args (f :: rev (map snd E)) a rend right) as HI' by (rewrite HE1, map_app, rev_app_distr in HI; exact HI).
  destruct (add_front_split _ _ _ _ _ _ HI' ltac:(lia) Hf) as (F1 & _ & _ & _ & _ & F6).
  pose proof (step_over args T E1 Et right nprev a rend p steps HE Hp Hfi ltac:(lia) ltac:(lia) E n f HE1 F1 Hf ltac:(lia) Hgt) as Hstep.
  subst right. cbn [right_ents app] in *. rewrite HE1, <- app_assoc in HE, Hs. cbn [app] in HE, Hs.
  destruct (range_set_eq T E n f (pmemobj_tx_merge_flags f args) Et HE) as (T1 & HT1 & E1').
  { rewrite map_app in Hs |- *. cbn [map snd] in Hs |- *. apply (sorted_same _ f); [by apply separate_sorted|by rewrite merge_offset]. }
  specialize (Hrest T1 Et HT1 eq_refl). destruct (add_list _ _ _ _ _) as [l snaps]. eapply result_same; [|exact Hrest].
  intros st. rewrite Hstep. by rewrite (bind_ret _ _ _ _ _ (E1' st)).
Qed.

Lemma loop_grow E n f : E1 = E ++ [(n, f)] -> rend <> a -> a <= r_end f -> r_end f <= rend -> rest_ok E n f (grown args f rend right) ->
  let '(l, snaps) := add_list args (rev (map snd E)) a (Z.max (r_offset f) a) (Some (grown args f rend right)) in
  loop_result (loop (S steps)) T
    ((if rend - r_end f =? 0 then [] else [RangeDef (r_end f) (rend - r_end f) (r_flags args)]) ++ snaps) (l ++ map snd Et).
Proof.
  intros HE1 Hne Hf Hle Hrest. destruct HL as [HE Hs HR Ht Hfu]. destruct (Hfind Hne) as [Hp Hfi]. pose proof (ai_left _ _ _ _ _ HI) as Ha. pose proof (ai_end _ _ _ _ _ HI) as Hend.
  assert (add_inv args (f :: rev (map snd E)) a rend right) as HI' by (rewrite HE1, map_app, rev_app_distr in HI; exact HI).
  destruct (add_front_split _ _ _ _ _ _ HI' ltac:(lia) Hf) as (F1 & _ & _ & _ & F5 & F6).
  pose proof (step_grow args T E1 Et right nprev a rend p steps HE Hp Hfi ltac:(lia) ltac:(lia) E n f HE1 F1 Hf ltac:(lia) Hle) as Hstep.
  rewrite HE1, <- app_assoc in HE, Hs, Hfu. cbn [app] in HE, Hs, Hfu.
  set (g1 := pmemobj_tx_merge_flags (RangeDef (r_offset f) (r_size f + (rend - r_end f)) (r_flags f)) args) in *.
  assert (r_offset g1 = r_offset f) as Ho by (unfold g1; by rewrite merge_offset).
  assert (r_end g1 = rend) as He by (unfold g1; rewrite merge_end; unfold r_end; cbn; lia).
  assert (separate (map snd (E ++ (n, g1) :: right_ents right nprev ++ Et))) as Hs1.
  { rewrite map_app in Hs |- *. cbn [map snd] in Hs |- *. apply (separate_replace _ f); [done| |done|].
    - unfold g1. rewrite merge_flags_ok. unfold range_ok, r_end in *. cbn [r_offset r_size]. lia.
    - rewrite map_app, right_ents_snd, Forall_app, Forall_map, He. split; [|done]. apply Forall_forall. intros r Hr. destruct (F5 r Hr). lia. }
  destruct (range_set_eq T E n f g1 (right_ents right nprev ++ Et) HE (separate_sorted _ Hs1)) as (T1 & HT1 & E1').
  destruct (e_fuel env) as [|fuel] eqn:Efu; [lia|].
  destruct (merge_right_eq T1 E n g1 right nprev Et fuel HT1) as (T2 & Et2 & HT2 & HEt2 & E2'); [by destruct right; [|destruct HR]|done| |done|rewrite length_app in Hfu |- *; cbn in *; lia|].
  { intros fp ->. rewrite He. apply (F5 fp). by apply list_elem_of_singleton. }
  specialize (Hrest T2 Et2 HT2 HEt2). destruct (add_list _ _ _ _ _) as [l snaps].
  assert (loop_result (merge_right env n nprev;; add_ranges env steps args (RangeDef a (Z.max (r_offset f) a - a) (r_flags args)) RAVL_PREDICATE_LESS n) T1 snaps (l ++ map snd Et)) as Hk.
  { eapply result_same; [|exact Hrest]. intros st. by rewrite (bind_ret _ _ _ _ _ (E2' st)). }
  destruct (rend - r_end f =? 0); cbn [app].
  - eapply result_same; [|exact Hk]. intros st. rewrite Hstep. by rewrite (bind_ret _ _ _ _ _ (E1' st)).
  - eapply result_snapshot; [|by apply (tree_ok_ents _ _ HT1)|exact Hk]. intros st. rewrite Hstep. by rewrite (bind_ret _ _ _ _ _ (E1' st)).
Qed.
End Cases.

Lemma loop_spec args a E1 : forall T right nprev Et rend p steps,
  loop_inv T E1 right nprev Et rend -> add_inv args (rev (map snd E1)) a rend right ->
  (rend <> a -> valid_predicate p = true /\ find_answer cmp p (RangeDef rend 0 0) (E1 ++ right_ents right nprev ++ Et) = last_addr E1) ->
  (length E1 < steps)%nat ->
  let '(l, snaps) := add_list args (rev (map snd E1)) a rend right in
  loop_result (add_ranges env steps args (RangeDef a (rend - a) (r_flags args)) p nprev) T snaps (l ++ map snd Et).
Proof.
  induction E1 as [|[n f] E IH] using rev_ind; intros T right nprev Et rend p steps HL HI Hfind Hst;
    (destruct steps as [|steps]; [cbn in Hst; lia|]); destruct (Z.eq_dec rend a) as [Hne|Hne].
  1,3: pose proof (loop_done args a T _ Et right nprev rend p (S steps) HL HI Hfind Hne) as Hd.
  - cbn [add_list map rev app]. rewrite (proj2 (Z.eqb_eq _ _) Hne). exact Hd.
  - rewrite map_app, rev_app_distr. cbn [add_list map rev app snd]. rewrite (proj2 (Z.eqb_eq _ _) Hne). rewrite map_app in Hd.
    rewrite rev_involutive. exact Hd.
  - cbn [add_list map rev app]. rewrite (proj2 (Z.eqb_neq _ _) Hne). apply (loop_final args a T [] Et right nprev rend p steps HL HI Hfind Hne).
    intros n f E HE. by apply app_cons_not_nil in HE.
  - pose proof HI as HI'. rewrite map_app, rev_app_distr in HI' |- *. cbn [map snd rev app] in HI' |- *. cbn [add_list]. rewrite (proj2 (Z.eqb_neq _ _) Hne).
    pose proof (ai_left _ _ _ _ _ HI) as Ha. destruct (Z.ltb_spec (r_end f) a) as [Hf|Hf].
    { pose proof (loop_final args a T _ Et right nprev rend p steps HL HI Hfind Hne) as Hfin. rewrite map_app in Hfin.
      cbn [rev]. rewrite rev_involutive. apply Hfin. intros n' f' E' HE. apply app_inj_tail in HE as [_ [= <- <-]]. done. }
    destruct (add_front_split _ _ _ _ _ _ HI' ltac:(lia) Hf) as (F1 & F2 & F3 & F4 & F5 & F6).
    assert (forall g, range_ok g -> r_offset g = r_offset f -> (flushed args -> flushed g) -> r_offset f < r_end g -> a <= r_end g ->
      Forall (fun s => r_end g <= r_offset s) (map snd Et) -> rest_ok args a Et steps E n f g) as Hrest.
    { intros g G1 G2 G3 G4 Ga G5 T' Et' HT' HEt'. rewrite <- HEt'.
      destruct HL as [_ Hs _ _ Hfu]. rewrite <- app_assoc in Hs, Hfu. cbn [app] in Hs, Hfu. rewrite map_app in Hs. cbn [map snd] in Hs.
      rewrite map_app, right_ents_snd in Hs.
      assert (separate (map snd (E ++ (n, g) :: Et'))) as Hs'.
      { rewrite map_app. cbn [map snd]. rewrite HEt'. apply (separate_replace _ f); [|done|done|done].
        destruct right as [fp|]; cbn [right_list app] in Hs; [|done].
        change (map snd E ++ f :: fp :: map snd Et) with (map snd E ++ [f] ++ fp :: map snd Et) in Hs. rewrite app_assoc in Hs.
        apply separate_remove in Hs. by rewrite <- app_assoc in Hs. }
      apply (IH T' (Some g) n Et' (Z.max (r_offset f) a) RAVL_PREDICATE_LESS steps).
      - eapply loop_next; [done|done| | |done].
        + lia.
        + apply (f_equal length) in HEt'. rewrite !length_map in HEt'. rewrite !length_app in *. cbn [length] in *. rewrite length_app in Hfu. lia.
      - apply (add_next args f (rev (map snd E)) g a rend right); try done. lia.
      - intros Hm. split; [done|]. apply find_front; [done|]. rewrite G2. lia.
      - rewrite length_app in Hst. cbn in Hst. lia. }
    destruct (Z.leb_spec (r_end f) rend) as [Hle|Hgt].
    + destruct (grown_facts args f rend right F1 Hle (ai_end _ _ _ _ _ HI) F3) as (G1 & G2 & G3 & G4 & _).
      { destruct right as [fp|]; [|done]. destruct (ai_right _ _ _ _ _ HI) as [[?|?] ?]; [lia|done]. }
      assert (forall fp, right = Some fp -> r_offset fp = rend) as Hr by (intros fp ->; apply (F5 fp); by apply list_elem_of_singleton).
      pose proof (grown_end args f rend right Hr) as G5.
      assert (rend <= r_end (grown args f rend right)) as G6.
      { rewrite G5. destruct right as [fp|]; [|lia]. cbn [right_list] in F3. apply separate_one in F3. specialize (Hr fp eq_refl). unfold range_ok, r_end in *. lia. }
      pose proof (loop_grow args a T _ Et right nprev rend p steps HL HI Hfind E n f eq_refl Hne Hf Hle) as Hg.
      destruct (add_list _ _ _ _ _) as [l snaps]. apply Hg, Hrest; try done; try lia.
      { intros ?. apply G4. by left. }
      rewrite G5. apply (tail_bound _ _ _ _ _ _ HL).
    + assert (right = None) as ->.
      { destruct right as [fp|]; [|done]. destruct (F5 fp); [by apply list_elem_of_singleton|lia]. }
      pose proof (loop_over args a T _ Et None nprev rend p steps HL HI Hfind E n f eq_refl Hne Hf Hgt eq_refl) as Hg.
      destruct (add_list _ _ _ _ _) as [l snaps]. apply Hg, Hrest; rewrite ?merge_flags_ok, ?merge_offset, ?merge_end; try done; try lia.
      { rewrite merge_flushed. by right. }
      destruct HL as [_ Hs _ _ _]. cbn [right_ents app] in Hs. rewrite <- app_assoc, map_app in Hs. cbn [app map snd] in Hs. by apply separate_after in Hs.
Qed.

(** ** The whole loop *)

Lemma result_list T (m : TX H Z) snaps l l' : l = l' -> loop_result m T snaps l -> loop_result m T snaps l'.
Proof. by intros ->. Qed.

(** The ranges below the end of the new one, and the others. *)
Lemma split_at_end E rend : separate (map snd E) -> exists E1 E2 : list (Z * tx_range_def), E = E1 ++ E2 /\
  Forall (fun e => r_offset e.2 < rend) E1 /\ Forall (fun e => rend <= r_offset e.2) E2.
Proof.
  induction E as [|[n f] E IH]; intros Hs; [by exists [], []|]. destruct (Z.lt_ge_cases (r_offset f) rend) as [Hf|Hf].
  - destruct IH as (E1 & E2 & -> & H1 & H2); [by apply (separate_remove [] f)|]. exists ((n, f) :: E1), E2. by repeat constructor.
  - exists [], ((n, f) :: E). split; [done|]. split; [constructor|]. constructor; [done|]. cbn [map snd] in Hs.
    pose proof (separate_after [] f _ Hs) as Ha. rewrite Forall_map in Ha. destruct Hs as [Hs _]. apply Forall_cons in Hs as [(? & ? & ?) _].
    eapply Forall_impl; [exact Ha|]. cbn. unfold r_end. intros e He. lia.
Qed.

Lemma split_inv (E1 E2 : list (Z * tx_range_def)) args a rend right : separate (map snd E1 ++ right_list right ++ map snd E2) ->
  Forall (fun e => r_offset e.2 < rend) E1 -> 0 <= a <= rend -> rend < 2 ^ 64 ->
  match right with Some fp => (rend = a \/ r_offset fp = rend) /\ (flushed args -> flushed fp) | None => True end ->
  add_inv args (rev (map snd E1)) a rend right.
Proof.
  intros Hs H1 Ha Hr HR. constructor; [|apply Forall_rev; by rewrite Forall_map|done|done|done].
  rewrite rev_involutive. rewrite app_assoc in Hs. by apply separate_app in Hs as (Hs & _ & _).
Qed.

Section Whole.
Context (args : tx_range_def) (T : ravl tx_range_def) (E1 Et : list (Z * tx_range_def)) (a rend : Z) (steps : nat).
Hypothesis (Hfresh : fresh_node T).
Hypothesis (Ha : 0 <= a <= rend).
Hypothesis (Hr : rend < 2 ^ 64).
Hypothesis (H1 : Forall (fun e => r_offset e.2 < rend) E1).
Abbreviation loop n := (add_ranges env n args (RangeDef a (rend - a) (r_flags args)) RAVL_PREDICATE_LESS_EQUAL 0).

(** No range starts at the end of the new one. *)
Lemma first_below : ravl_ents cmp T (E1 ++ Et) -> separate (map snd (E1 ++ Et)) -> Forall (fun e => rend < r_offset e.2) Et \/ rend = a ->
  Forall (fun e => rend <= r_offset e.2) Et ->
  (2 * length (E1 ++ Et) + 2 < e_fuel env)%nat -> (length E1 < steps)%nat ->
  exists l snaps, add_post args (map snd E1) l snaps a rend /\ (length snaps <= S (length E1))%nat /\ loop_result (loop steps) T snaps (l ++ map snd Et).
Proof.
  intros HE Hs Hgt Hge Hf Hst.
  assert (add_inv args (rev (map snd E1)) a rend None) as HI.
  { apply (split_inv E1 Et); try done. cbn [right_list app]. by rewrite <- map_app. }
  pose proof (add_list_spec _ _ _ _ _ HI) as HP. cbn [right_list] in HP. rewrite rev_involutive, app_nil_r in HP.
  pose proof (add_list_count args (rev (map snd E1)) a rend None) as Hcnt. rewrite length_rev, length_map in Hcnt.
  pose proof (loop_spec args a E1 T None 0 Et rend RAVL_PREDICATE_LESS_EQUAL steps) as HL.
  destruct (add_list _ _ _ _ _) as [l snaps]. exists l, snaps. split; [done|]. split; [exact Hcnt|]. apply HL; [by constructor|done| |done].
  intros Hne. split; [done|]. apply find_range_below; [done|done| |].
  - eapply Forall_impl; [exact H1|]. cbn. tauto.
  - destruct Hgt as [Hgt|]; [|done]. eapply Forall_impl; [exact Hgt|]. cbn. tauto.
Qed.

(** A range that starts at the end of the new one becomes the one on the right. *)
Lemma first_touching n f : ravl_ents cmp T (E1 ++ (n, f) :: Et) -> separate (map snd (E1 ++ (n, f) :: Et)) -> r_offset f = rend -> rend <> a ->
  (2 * length (E1 ++ (n, f) :: Et) + 2 < e_fuel env)%nat -> (length E1 < steps)%nat ->
  exists l snaps, add_post args (map snd E1 ++ [pmemobj_tx_merge_flags f args]) l snaps a rend /\ (length snaps <= S (length E1))%nat /\ loop_result (loop (S steps)) T snaps (l ++ map snd Et).
Proof.
  intros HE Hs Ho Hne Hf Hst. set (g := pmemobj_tx_merge_flags f args). pose proof Hs as Hs0. rewrite map_app in Hs. cbn [map snd] in Hs.
  assert (range_ok f) as F1 by (destruct Hs as [Hs _]; rewrite Forall_app, Forall_cons in Hs; tauto).
  pose proof (separate_after _ _ _ Hs) as Haf. rewrite Forall_map in Haf.
  assert (r_end f > rend) as Hend by (destruct F1 as (? & ? & ?); unfold r_end; lia).
  assert (separate (map snd E1 ++ g :: map snd Et)) as Hs'.
  { apply (separate_replace _ f); unfold g; [done|by rewrite merge_flags_ok|by rewrite merge_offset|]. by rewrite merge_end, Forall_map. }
  destruct (range_set_eq T E1 n f g Et HE) as (T1 & HT1 & ET1); [rewrite map_app; by apply separate_sorted|].
  assert (find_answer cmp RAVL_PREDICATE_LESS_EQUAL (RangeDef rend 0 0) ((E1 ++ [(n, f)]) ++ Et) = last_addr (E1 ++ [(n, f)])) as Hfi.
  { apply find_range_below; [done|done| |].
    - apply Forall_app. split; [eapply Forall_impl; [exact H1|]; cbn; tauto|]. constructor; [by right|constructor].
    - eapply Forall_impl; [exact Haf|]. cbn. intros e He. left. lia. }
  assert (loop_inv T1 E1 (Some g) n Et rend) as HL.
  { eapply loop_next; [done|by rewrite map_app| | |done]; [unfold g; rewrite merge_end; lia|].
    rewrite length_app in Hf |- *. exact Hf. }
  assert (add_inv args (rev (map snd E1)) a rend (Some g)) as HI.
  { apply (split_inv E1 Et); try done. unfold g. rewrite merge_offset, merge_flushed. split; [by right|by right]. }
  pose proof (add_list_spec _ _ _ _ _ HI) as HP. cbn [right_list] in HP. rewrite rev_involutive in HP.
  pose proof (add_list_count args (rev (map snd E1)) a rend (Some g)) as Hcnt. rewrite length_rev, length_map in Hcnt.
  pose proof (loop_spec args a E1 T1 (Some g) n Et rend RAVL_PREDICATE_LESS steps HL HI) as Hloop.
  destruct (add_list _ _ _ _ _) as [l snaps]. exists l, snaps. split; [done|]. split; [exact Hcnt|]. eapply result_same; [|apply Hloop; [|done]].
  - intros st. change ((n, f) :: Et) with ([(n, f)] ++ Et) in HE. rewrite app_assoc in HE.
    rewrite (step_over args T (E1 ++ [(n, f)]) Et None 0 a rend RAVL_PREDICATE_LESS_EQUAL steps HE eq_refl Hfi ltac:(lia)
      ltac:(cbn [right_ents app]; rewrite <- app_assoc; cbn [app]; lia) E1 n f eq_refl F1 ltac:(lia) ltac:(lia) ltac:(lia)).
    rewrite (bind_ret _ _ _ _ _ (ET1 st)). by replace (Z.max (r_offset f) a) with rend by lia.
  - intros _. split; [done|]. apply find_front; [by rewrite map_app|]. unfold g. by rewrite merge_offset.
Qed.
End Whole.

Lemma add_ranges_spec args T E steps : ravl_ents cmp T E -> separate (map snd E) -> fresh_node T ->
  0 <= r_offset args -> 0 <= r_size args -> r_end args < 2 ^ 64 ->
  (2 * length E + 2 < e_fuel env)%nat -> (length E + 1 < steps)%nat ->
  exists l snaps, add_post args (map snd E) l snaps (r_offset args) (r_end args) /\ (length snaps <= S (length E))%nat /\
    loop_result (add_ranges env steps args args RAVL_PREDICATE_LESS_EQUAL 0) T snaps l.
Proof.
  intros HE Hs Hn H0 H1 H2 Hf Hst. set (a := r_offset args). set (rend := r_end args).
  assert (args = RangeDef a (rend - a) (r_flags args)) as Eargs.
  { unfold a, rend, r_end. destruct args; cbn. f_equal. lia. }
  destruct (split_at_end E rend Hs) as (E1 & E2 & -> & HE1 & HE2). rewrite length_app in Hst.
  assert (rend = a \/ Forall (fun e => rend < r_offset e.2) E2 \/ rend <> a /\ exists n f Et, E2 = (n, f) :: Et /\ r_offset f = rend) as Hc.
  { destruct (Z.eq_dec rend a) as [?|Hra]; [by left|right]. destruct E2 as [|[n f] Et]; [left; constructor|].
    destruct (Z.eq_dec (r_offset f) rend) as [?|Hfr]; [right; split; [done|by exists n, f, Et]|left]. apply Forall_cons in HE2 as [Hf0 HE2]. cbn in Hf0.
    constructor; [cbn; lia|]. rewrite map_app in Hs. cbn [map snd] in Hs. pose proof (separate_after _ _ _ Hs) as Haf. rewrite Forall_map in Haf.
    assert (range_ok f) as (? & ? & ?) by (destruct Hs as [Hs' _]; rewrite Forall_app, Forall_cons in Hs'; tauto).
    eapply Forall_impl; [exact Haf|]. cbn. unfold r_end. intros e He. lia. }
  assert (0 <= a <= rend) as Har by (unfold a, rend, r_end; lia).
  destruct Hc as [Hc|[Hc|[Hne (n & f & Et & -> & Ho)]]].
  1,2: destruct (first_below args T E1 E2 a rend steps Hn Har H2 HE1 HE Hs ltac:(tauto) HE2 Hf ltac:(lia)) as (l & snaps & HP & Hcnt & HR);
    exists (l ++ map snd E2), snaps; rewrite <- Eargs in HR; (split; [|split; [rewrite length_app; lia|done]]); rewrite map_app;
    rewrite map_app in Hs; apply post_behind; [done|done|by rewrite Forall_map].
  destruct steps as [|steps]; [lia|]. cbn [length] in Hst.
  destruct (first_touching args T E1 Et a rend steps Har H2 HE1 n f HE Hs Ho Hne Hf ltac:(lia)) as (l & snaps & HP & Hcnt & HR).
  exists (l ++ map snd Et), snaps. rewrite <- Eargs in HR. split; [|split; [rewrite length_app; lia|done]]. rewrite map_app in Hs |- *. cbn [map snd] in Hs |- *.
  change (f :: map snd Et) with ([f] ++ map snd Et) in Hs |- *. rewrite app_assoc in Hs |- *. apply post_behind; [|done|].
  - by apply (post_flags args _ f args).
  - rewrite <- app_assoc in Hs. apply separate_after in Hs. apply Forall_cons in HE2 as [_ HE2]. by rewrite Forall_map.
Qed.
End Loop.
