(* ===== verification/TxSpec.v ===== *)
(** * Adding memory to a transaction

    The functions that add a range to a transaction against the list of the
    ranges it holds: the set of covered bytes grows by the new range, whatever
    was not covered is snapshotted once, and a failure aborts the transaction. *)
From stdpp Require Import base numbers list list_numbers gmap sorting.
From Stdlib Require Import ZArith Lia Bool.
From S2P Require Import Prelude Pmem Ulog Ravl RavlFacts RavlOps RavlSpec Vecq Memops Container Lane Tx TxRanges TxLoop.

Section Spec.
Context {H : Type} (palloc : palloc_fns H) (env : tx_env) (p_ops : pmem_ops).
Implicit Types (st : tx_state H) (T : ravl tx_range_def).

(** The transaction's tree holds the ranges [l], and an allocation returns a
    node that is not in use. *)
Definition holds_ranges st (l : list tx_range_def) : Prop :=
  exists T, ranges (st_tx st) = Some T /\ ravl_ok cmp T l /\ separate l /\ fresh_node env T.

(** Inside of the heap, and not too large. *)
Definition addable st (args : tx_range_def) : Prop :=
  let pop := (st_ws st).1 in
  heap_offset pop <= r_offset args /\ r_end args <= heap_offset pop + heap_size pop /\
  0 <= r_size args <= PMEMOBJ_MAX_ALLOC_SIZE /\ 0 <= heap_offset pop /\ heap_offset pop + heap_size pop < 2 ^ 64.

Lemma with_ranges_id st T : ranges (st_tx st) = Some T -> with_ranges T st = st.
Proof. destruct st as [[] ? ? ? ?]. cbn. by intros ->. Qed.

(** The result of the snapshots [snaps], with the tree that goes with it; a
    failure aborts. *)
Definition after_snapshots (steps : nat) args st snaps l : Prop :=
  exists T', ravl_ok cmp T' l /\
  match run_snaps env snaps st with
  | Some (Ret ok, st') =>
      if ok =? 0 then pmemobj_tx_add_common palloc env p_ops steps args st = Some (Ret 0, with_ranges T' st')
      else exists T'', tree_ok T'' /\ pmemobj_tx_add_common palloc env p_ops steps args st = obj_tx_abort_err palloc env p_ops ENOMEM (with_ranges T'' st')
  | Some (Jump e n, st') => exists T'', tree_ok T'' /\ pmemobj_tx_add_common palloc env p_ops steps args st = Some (Jump e n, with_ranges T'' st')
  | None => pmemobj_tx_add_common palloc env p_ops steps args st = None
  end.

Lemma add_common_guards steps args st : addable st args ->
  pmemobj_tx_add_common palloc env p_ops steps args st =
  (ok <- add_ranges env steps args args RAVL_PREDICATE_LESS_EQUAL 0;;
   if negb (ok =? 0) then obj_tx_abort_err palloc env p_ops ENOMEM else ret 0) st.
Proof.
  intros (A1 & A2 & A3 & A4 & A5). unfold pmemobj_tx_add_common. unfold bind at 1, get_world. unfold r_end in *.
  rewrite (proj2 (Z.ltb_ge _ _)) by lia. rewrite (proj2 (Z.ltb_ge (r_offset args) _)) by lia.
  rewrite !u64_small by lia. by rewrite (proj2 (Z.ltb_ge _ (r_offset args + r_size args))) by lia.
Qed.

Lemma add_common_spec steps args st l :
  holds_ranges st l -> addable st args -> (2 * length l + 2 < e_fuel env)%nat -> (length l + 1 < steps)%nat ->
  exists l' snaps, add_post args l l' snaps (r_offset args) (r_end args) /\ (length snaps <= S (length l))%nat /\
    after_snapshots steps args st snaps l'.
Proof.
  intros (T & HT & Hok & Hsep & Hfr) Had Hf Hst. rewrite <- (with_ranges_id st T HT).
  destruct (ok_ents cmp T l Hok) as (E & <- & HE). rewrite length_map in Hf, Hst. pose proof Had as (A1 & A2 & A3 & A4 & A5).
  destruct (add_ranges_spec (H:=H) env args T E steps HE Hsep Hfr) as (l' & snaps & HP & Hcnt & T' & Hok' & HR); [lia|lia|lia|lia|lia|].
  exists l', snaps. split; [done|]. split; [by rewrite length_map|]. exists T'. split; [done|]. specialize (HR st) as (T'' & Em & Ht & HT').
  rewrite (with_ranges_id st T HT) in Em |- *. rewrite (add_common_guards steps args st Had). unfold bind. rewrite Em.
  destruct (run_snaps env snaps st) as [[[ok|e n] st']|]; cbn [frame]; [|by exists T''|done].
  destruct (Z.eqb_spec ok 0) as [->|Hne]; cbn [negb]; [|by exists T'']. by rewrite (HT' st' eq_refl).
Qed.

(** C6. Adding a range to a transaction.  Whatever ranges the transaction holds
    (they do not overlap), pmemobj_tx_add_common of a range inside of the heap
    goes through its loop to the end; the ranges it leaves do not overlap, cover
    the old ones and the new one and nothing else, and are flushed at the commit
    wherever one of them was to be flushed.  The snapshots it takes are exactly
    the bytes of the new range that were not covered, each once; the result is
    the one of these snapshots: 0, or the abort of the transaction with ENOMEM
    when one of them fails. *)
Theorem tx_add_common_correct steps args st l :
  holds_ranges st l -> addable st args -> (2 * length l + 2 < e_fuel env)%nat -> (length l + 1 < steps)%nat ->
  exists l' snaps, add_post args l l' snaps (r_offset args) (r_end args) /\ (length snaps <= S (length l))%nat /\
    after_snapshots steps args st snaps l'.
Proof. apply add_common_spec. Qed.
End Spec.

(** ** An instance: a transaction that holds one range *)

(** Locks whose first byte says whether they are held. *)
Definition ex_locks : os_locks :=
  OsLocks (fun _ bs => (0, <[0%nat := Byte.x00]> bs)) (fun _ bs => if decide (bs !! 0%nat = Some Byte.x00) then Some (0, <[0%nat := Byte.x01]> bs) else None)
    (fun _ bs => Some (0, <[0%nat := Byte.x00]> bs)).
Definition ex_env : tx_env := TxEnv 64 (fun _ => true) (ActMem 0 0) 200 true (fun _ => true) true 0 6 ex_locks.
Definition ex_palloc : palloc_fns unit :=
  Palloc unit (fun _ _ _ _ _ ws h => Some (None, ws, h)) (fun off _ _ => ActMem off 0) (fun _ ws h => Some (ws, h))
    (fun _ ctx ws h => Some (ctx, ws, h)) (fun _ _ _ => 64).
Definition ex_log_ctx (type : log_type) (u cap : Z) : operation_context :=
  OpCtx type None (fun _ ws => ws) (POps 4096 OPS_POOL) (POps 0 OPS_TRANSIENT) (POps 4096 OPS_TRANSIENT)
    0 0 0 0 0 u cap cap 0 0 [] OPERATION_IDLE (OpLog 1024 0 0) (OpLog 1024 0 0) VECQ_INIT.
Definition ex_lane : lane :=
  Lane 12288 (ex_log_ctx LOG_TYPE_REDO 12288 192) (ex_log_ctx LOG_TYPE_REDO 12544 640) (ex_log_ctx LOG_TYPE_UNDO 13248 2048).
Definition ex_pool : PMEMobjpool := Pop 8192 1 16384 1048576 ravl_new true.
Definition ex_pool_mem : mem := write_bytes (fun _ => Byte.x00) (ulog_capacity_addr 13248) (le64 2048).
Definition ex_thread (t : tx) : tx_state unit := TxState t ex_lane (ex_pool, PMst ex_pool_mem [] false) tt [].

Definition ex_range : tx_range_def := RangeDef 16448 32 0.
Definition ex_tree : ravl tx_range_def :=
  match ravl_emplace_copy cmp 8 ravl_new 100 ex_range with Some (_, T) => T | None => ravl_new end.

Lemma ex_ranges_ok : ravl_ok cmp ex_tree [ex_range].
Proof.
  destruct (emplace_ok cmp ravl_new [] ex_range 100 ravl_node_copy_constructor 8 (ravl_ok_new cmp) ltac:(done) eq_refl) as (T & E & Hok); [vm_compute; lia|].
  unfold ex_tree, ravl_emplace_copy. rewrite E. exact Hok.
Qed.

Definition ex_tx : tx := set_lane true (set_pop 4096 (set_stage TX_STAGE_WORK (set_entries [0] (set_ranges (Some ex_tree) tx_init)))).

Lemma tx_add_common_correct_witness :
  exists l' snaps, add_post (RangeDef 16464 64 0) [ex_range] l' snaps 16464 (r_end (RangeDef 16464 64 0)) /\ (length snaps <= 2)%nat /\
    after_snapshots ex_palloc ex_env (POps 4096 OPS_POOL) 8 (RangeDef 16464 64 0) (ex_thread ex_tx) snaps l'.
Proof.
  apply (tx_add_common_correct ex_palloc ex_env (POps 4096 OPS_POOL) 8 (RangeDef 16464 64 0) (ex_thread ex_tx) [ex_range]).
  - exists ex_tree. split; [reflexivity|]. split; [exact ex_ranges_ok|]. split; [apply separate_one; repeat split; vm_compute; congruence|].
    split; [discriminate|reflexivity].
  - repeat split; vm_compute; congruence.
  - vm_compute. lia.
  - vm_compute. lia.
Defined.
