(* ===== verification/TxUndo.v ===== *)
(** * Snapshots of a transaction in the undo log

    What a transaction keeps true while memory is added to it and stored to: the
    undo log of the lane holds the old content of everything it covers, on media,
    and nothing else of the pool has changed. *)
From stdpp Require Import base numbers list list_numbers gmap sorting.
From Stdlib Require Import ZArith Lia Bool.
From S2P Require Import Prelude Pmem Settled Ulog UlogEntries UndoLog Ravl Memops UndoAdd Container Lane Tx TxRanges TxLoop.

Section Undo.
Context {H : Type} (env : tx_env) (b u C : Z) (pop : PMEMobjpool) (m0 : mem) (vol : Z -> Prop).
Implicit Types (st : tx_state H) (L : list snapshot).

(** The lane with its undo log lies in front of the heap. *)
Record pool_layout : Prop := PoolLayout {
  pl_base : 0 < b /\ 0 <= C;
  pl_log : b <= u /\ u mod 8 = 0;
  pl_heap : u + undo_region u C <= b + heap_offset pop;
  pl_size : 0 <= heap_size pop /\ heap_offset pop + heap_size pop <= 2 ^ 61 /\ b + heap_offset pop + heap_size pop < 2 ^ 64
}.

Definition in_heap (off size : Z) : Prop := heap_offset pop <= off /\ off + size <= heap_offset pop + heap_size pop.
Definition in_log (x : Z) : Prop := u <= x < u + undo_region u C.

(** The part of the memory that a transaction with these snapshots may have
    changed since [m0], besides volatile bytes ([vol]). *)
Record image st L : Prop := Image {
  im_world : (st_ws st).1 = pop;
  im_log : undo_at (vis (st_ws st).2) u C L;
  im_taken : Forall (taken_from b m0 vol) L;
  im_heap : Forall (fun sn => in_heap (sn_off sn) (sn_len sn)) L;
  im_wf : wf_st m0 (st_ws st).2;
  im_media : region_on_media m0 (trace (st_ws st).2) u (undo_region u C);
  im_rest x : ~ in_log x -> ~ snapped b L x -> ~ vol x -> untouched (trace (st_ws st).2) x
}.

(** The context of the log, and room for the action of the first snapshot. *)
Record logging st L : Prop := Logging {
  lg_image : image st L;
  lg_lane : tx_lane (st_tx st) = true;
  lg_pop : tx_pop (st_tx st) = b;
  lg_layout : layout_undo (lane_layout (st_lane st)) = u;
  lg_ctx : undo_ctx (lane_undo (st_lane st)) (vis (st_ws st).2) u C L;
  lg_base : base (ctx_p_ops (lane_undo (st_lane st))) = b;
  lg_action : first_snapshot (st_tx st) = true ->
    0 <= redo_userbufs_capacity (st_tx st) /\
    (Z.of_nat (length (actions (st_tx st))) + 1) * 16 <= ctx_ulog_capacity (lane_external (st_lane st)) < 2 ^ 64;
  lg_acts : redo_userbufs (st_tx st) = [] /\
    if first_snapshot (st_tx st) then actions (st_tx st) = [] /\ L = []
    else actions (st_tx st) = [ActMem (ulog_gen_num_addr u) (u64 (load64 (vis (st_ws st).2) (ulog_gen_num_addr u) + 1))]
}.

(** What a call leaves as it is. *)
Record same_tx st st' : Prop := SameTx {
  sm_stage : stage (st_tx st') = stage (st_tx st);
  sm_errnum : last_errnum (st_tx st') = last_errnum (st_tx st);
  sm_locks : tx_locks (st_tx st') = tx_locks (st_tx st);
  sm_entries : tx_entries (st_tx st') = tx_entries (st_tx st);
  sm_ranges : ranges (st_tx st') = ranges (st_tx st);
  sm_heap : st_heap st' = st_heap st;
  sm_events : st_events st' = st_events st;
  sm_external : lane_external (st_lane st') = lane_external (st_lane st)
}.

Lemma same_refl st : same_tx st st.
Proof. by constructor. Qed.
Lemma same_trans st1 st2 st3 : same_tx st1 st2 -> same_tx st2 st3 -> same_tx st1 st3.
Proof. intros [] []. constructor; congruence. Qed.

Lemma image_vis st L x : image st L -> ~ in_log x -> ~ snapped b L x -> ~ vol x -> vis (st_ws st).2 x = m0 x.
Proof. intros [_ _ _ _ Hw _ Hr] H1 H2 H3. rewrite (Hw x). apply (replay_avoids m0 _ x 1 (Hr x H1 H2 H3)). lia. Qed.

(** The log grows by stores inside of it, flushed and drained. *)
Lemma image_grows st st' L L' : image st L -> (st_ws st').1 = pop -> undo_at (vis (st_ws st').2) u C L' ->
  Forall (taken_from b m0 vol) L' -> Forall (fun sn => in_heap (sn_off sn) (sn_len sn)) L' -> wf_st m0 (st_ws st').2 ->
  (forall x, snapped b L x -> snapped b L' x) -> flushed_drained u (undo_region u C) (st_ws st).2 (st_ws st').2 -> image st' L'.
Proof.
  intros [I1 I2 I3 I4 I5 I6 I7] H1 H2 H3 H4 H5 H6 (s1 & (evs & T1 & W & Pd) & T2). constructor; try done.
  - intros w Hw Hlo Hhi. rewrite T2. apply on_media_drain. rewrite T1. apply Pd; [done|]. by apply (I6 w Hw Hlo Hhi).
  - intros x Hx Hs Hvl. unfold untouched. rewrite T2, T1, !Forall_app. repeat split; [|..]; [|eapply Forall_impl; [exact W|]|by repeat constructor].
    + apply I7; [done| |done]. intros Hn. by apply Hs, H6.
    + intros [a bs| |]; cbn; [|done|done]. unfold in_log in Hx. lia.
Qed.

Lemma taken_read off size m : 0 <= size -> (forall x, b + off <= x < b + off + size -> ~ vol x -> m x = m0 x) ->
  taken_from b m0 vol (Snap off (read_bytes m (b + off) (Z.to_nat size))) /\ sn_len (Snap off (read_bytes m (b + off) (Z.to_nat size))) = size.
Proof.
  intros Hs Hm. assert (sn_len (Snap off (read_bytes m (b + off) (Z.to_nat size))) = size) as Hl.
  { unfold sn_len. cbn [sn_bytes]. rewrite length_read_bytes. lia. }
  split; [|done]. intros i Hi Hv. rewrite Hl in Hi. cbn [sn_bytes sn_off] in *. rewrite lookup_read_bytes by lia. rewrite Hm by (try lia; by replace (b + off + Z.of_nat (Z.to_nat i)) with (b + off + i) by lia). do 2 f_equal. lia.
Qed.

Hypothesis (HP : pool_layout).
Hypothesis (Hinc : e_inc env 0 = true).
Hypothesis (Hfuel : e_fuel env <> 0%nat).

Lemma reserve_ok st L : logging st L -> first_snapshot (st_tx st) = true -> tx_action_reserve env 1 st = Some (Ret true, st).
Proof.
  intros [_ H2 _ _ _ _ H7 _] Hf. destruct (H7 Hf) as [H8 H9]. destruct st as [t l ws h ev]. cbn [st_tx st_lane] in *.
  unfold tx_action_reserve. unfold bind at 1. unfold get_tx at 1. cbn [st_tx].
  unfold sizeof_entry_val. rewrite (u64_small (Z.of_nat (length (actions t)) + 1)), (u64_small (_ * 16)) by lia.
  unfold bind, run_external. cbn [st_tx st_lane st_ws]. rewrite H2. cbn [negb].
  unfold operation_reserve. rewrite (proj2 (Z.ltb_ge _ _)) by lia. by destruct l.
Qed.

(** The action that increments the generation number at the commit. *)
Lemma first_action st L : logging st L -> first_snapshot (st_tx st) = true ->
  let n := ulog_gen_num_addr u in let act := ActMem n (u64 (load64 (vis (st_ws st).2) n + 1)) in
  let st' := TxState (set_first false (set_actions (actions (st_tx st) ++ [act]) (st_tx st))) (st_lane st) (st_ws st) (st_heap st) (st_events st) in
    (action <- tx_action_add env;;
     match action with
     | None => ret false
     | Some pos =>
         l <- the_lane;; ws <- get_world;;
         let n := ulog_gen_num_addr (layout_undo (lane_layout l)) in
         action_set pos (palloc_set_value n (u64 (load64 (vis ws.2) n + 1)));;
         modify (set_first false);; ret true
     end) st = Some (Ret true, st').
Proof.
  intros HL Hf n act st'. pose proof (reserve_ok st L HL Hf) as Hr. pose proof (lg_layout _ _ HL) as El. unfold st', act, n. clear st' act n.
  destruct st as [t l ws h ev]. cbn [st_tx st_lane st_ws] in *. rewrite <- El.
  erewrite bind_ret; [|unfold tx_action_add; rewrite (bind_ret _ _ _ _ _ Hr); cbn [negb]; rewrite Hinc; done].
  unfold bind, modify, get_tx, the_lane, get_world, ret, action_set. cbn [st_tx st_lane st_ws actions set_actions].
  rewrite length_app. cbn [length]. replace (Z.of_nat (length (actions t) + 1) - 1) with (Z.of_nat (length (actions t))) by lia.
  rewrite (proj2 (Z.ltb_ge _ 0)) by lia. unfold modify. cbn [st_tx st_lane st_ws st_heap st_events actions set_actions].
  rewrite Nat2Z.id, insert_app_r_alt, Nat.sub_diag by lia. done.
Qed.

(** A range of the heap is apart from the log. *)
Lemma heap_apart off size : in_heap off size -> 0 <= size -> u + undo_region u C <= b + off /\ u64 (b + off) = b + off /\ 0 <= off /\ off + size <= 2 ^ 61.
Proof.
  intros [H1 H2] H3. destruct HP as [[P1 P0] [P2 P3] P4 (P5 & P6 & P7)]. unfold undo_region, SIZEOF_ULOG_HDR in *. rewrite u64_small; lia.
Qed.

Lemma snapshot_ok st L sn : logging st L -> range_ok sn -> in_heap (r_offset sn) (r_size sn) -> flag_isset (r_flags sn) POBJ_FLAG_NO_SNAPSHOT = false ->
  log_size L + buf_entry_size (r_size sn) <= C -> (forall x, inside x sn -> ~ snapped b L (b + x)) ->
  exists st' bs, pmemobj_tx_add_snapshot env sn st = Some (Ret 0, st') /\ Z.of_nat (length bs) = r_size sn /\
    logging st' (L ++ [Snap (r_offset sn) bs]) /\ same_tx st st'.
Proof.
  intros HL Hok Hh Hfl Hroom Hnew. destruct Hok as (O1 & O2 & O3). destruct (heap_apart _ _ Hh ltac:(lia)) as (A1 & A2 & A3 & A4).
  assert (exists st1, logging st1 L /\ same_tx st st1 /\ st_ws st1 = st_ws st /\ first_snapshot (st_tx st1) = false /\
    pmemobj_tx_add_snapshot env sn st = run_undo (fun ctx ws => operation_add_buffer (e_fuel env) ctx (b + r_offset sn) (b + r_offset sn) (r_size sn) ULOG_OPERATION_BUF_CPY ws) st1)
    as (st1 & HL1 & Hs1 & Hw1 & Hf1 & ->).
  { unfold pmemobj_tx_add_snapshot. unfold bind at 1. unfold get_tx at 1. rewrite Hfl. rewrite (lg_pop _ _ HL). unfold OBJ_OFF_TO_PTR. rewrite A2.
    destruct (first_snapshot (st_tx st)) eqn:Ef.
    - pose proof (first_action st L HL Ef) as E. eexists. rewrite (bind_ret _ _ _ _ _ E). split; [|split; [|split; [|split; [|done]]]]; [|by constructor|done|done].
      destruct HL as [L1 L2 L3 L4 L5 L6 L7 [L8 L9]]. rewrite Ef in L9. destruct L9 as [L9 ->]. rewrite L9.
      constructor; try done. destruct L1 as [I1 I2 I3 I4 I5 I6 I7]. by constructor.
    - exists st. split; [done|]. split; [apply same_refl|]. by repeat split. }
  pose proof HL1 as [L1 L2 L3 L4 L5 L6 L7 L8]. pose proof L1 as [I1 I2 I3 I4 I5 I6 I7].
  assert (forall x, b + r_offset sn <= x < b + r_offset sn + r_size sn -> ~ in_log x /\ ~ snapped b L x) as Hout.
  { intros x Hx. split; [unfold in_log; lia|]. intros Hs. apply (Hnew (x - b)); [unfold inside, r_end; lia|]. by replace (b + (x - b)) with x by lia. }
  destruct (taken_read (r_offset sn) (r_size sn) (vis (st_ws st1).2) ltac:(lia)) as [Htk Hlen].
  { intros x Hx Hv. destruct (Hout x Hx). by apply (image_vis st1 L). }
  destruct (e_fuel env) as [|fuel] eqn:Efu; [done|].
  destruct st1 as [t l [pp s] h ev]. cbn [st_tx st_lane st_ws fst snd] in *. subst pp.
  destruct (add_buffer_logs u C (b + r_offset sn) (r_size sn) L (lane_undo l) pop s L5 I2) with (fuel := fuel)
    as (ctx' & s' & E & R1 & R2 & R3 & R4 & R5 & R6).
  { unfold r_end in O3. lia. } { done. } { rewrite L6. lia. } { lia. } { destruct HP as [[? ?] [? ?] ? ?]. lia. }
  rewrite L6 in R1, R2. replace (b + r_offset sn - b) with (r_offset sn) in R1, R2 by lia.
  eexists (TxState t (Lane (lane_layout l) (lane_internal l) (lane_external l) ctx') (pop, s') h ev), _. unfold run_undo. cbn [st_tx st_lane st_ws]. rewrite L2, E. cbn [negb mbind option_bind].
  split; [done|]. split; [exact Hlen|]. split; [|by destruct Hs1; constructor].
  constructor; cbn [st_tx st_lane st_ws lane_layout lane_external lane_undo fst snd]; try done; [|by rewrite R3|].
  2: { rewrite Hf1 in L8 |- *. destruct L8 as [L8 ->]. split; [done|].
       rewrite (load64_agree (vis s) (vis s') u 64); [done| |unfold ulog_gen_num_addr; lia..].
       intros x Hx. symmetry. apply R4. unfold ulog_data, SIZEOF_ULOG_HDR. lia. }
  eapply (image_grows _ _ L); [exact L1|done|done| | | | |].
  - apply Forall_app. by split; [|constructor].
  - apply Forall_app. split; [done|]. constructor; [|done]. unfold sn_len in *. cbn [sn_off sn_bytes] in *. by rewrite Hlen.
  - by apply R5.
  - intros x Hx. apply Exists_app. by left.
  - exact R6.
Qed.

(** The space that snapshots take in the log. *)
Fixpoint log_cost (snaps : list tx_range_def) : Z := match snaps with [] => 0 | sn :: snaps => buf_entry_size (r_size sn) + log_cost snaps end.

Lemma cost_bound snaps : Forall (fun sn => range_ok sn /\ in_heap (r_offset sn) (r_size sn)) snaps ->
  0 <= log_cost snaps /\ log_cost snaps <= total_size snaps + 88 * Z.of_nat (length snaps).
Proof.
  induction 1 as [|sn snaps [(F1 & F2 & F3) Fh] _ IH]; cbn [log_cost total_size length]; [lia|].
  destruct (heap_apart _ _ Fh ltac:(lia)) as (_ & _ & ? & ?). destruct (align_up_64_bounds (24 + r_size sn)) as [? _]; [lia|].
  unfold buf_entry_size, CACHELINE_ALIGN, sizeof_entry_buf. lia.
Qed.

Lemma run_snaps_ok snaps : forall st L, logging st L ->
  Forall (fun sn => range_ok sn /\ in_heap (r_offset sn) (r_size sn) /\ flag_isset (r_flags sn) POBJ_FLAG_NO_SNAPSHOT = false) snaps ->
  StronglySorted (fun s s' => precedes s' s) snaps -> (forall x, covered snaps x -> ~ snapped b L (b + x)) -> log_size L + log_cost snaps <= C ->
  exists st' L', run_snaps env snaps st = Some (Ret 0, st') /\ logging st' (L ++ L') /\ same_tx st st' /\
    (forall x, snapped b L' (b + x) <-> covered snaps x).
Proof.
  induction snaps as [|sn snaps IH]; intros st L HL HF HS Hnew Hroom.
  { exists st, []. rewrite app_nil_r. split; [done|]. split; [done|]. split; [apply same_refl|]. intros x. unfold snapped, covered. by rewrite !Exists_nil. }
  apply Forall_cons in HF as [(F1 & F2 & F3) HF]. apply StronglySorted_cons in HS as [Hd HS]. cbn [log_cost] in Hroom.
  destruct (cost_bound snaps) as [Hc _]; [eapply Forall_impl; [exact HF|]; by intros ? (? & ? & _)|].
  destruct (snapshot_ok st L sn HL F1 F2 F3) as (st1 & bs & E1 & Hbs & HL1 & HS1).
  { lia. } { intros x Hx. apply Hnew. by left. }
  assert (forall x, in_snap b (Snap (r_offset sn) bs) (b + x) <-> inside x sn) as Hin.
  { intros x. unfold in_snap, sn_len, inside, r_end. cbn [sn_off sn_bytes]. rewrite Hbs. lia. }
  destruct (IH st1 (L ++ [Snap (r_offset sn) bs]) HL1 HF HS) as (st' & L' & E2 & HL2 & HS2 & Hc2).
  - intros x Hx Hs. apply Exists_app in Hs as [Hs|Hs]; [apply (Hnew x); [by right|done]|].
    apply Exists_cons in Hs as [Hs|Hs]; [|by apply Exists_nil in Hs]. apply Hin in Hs. apply Exists_exists in Hx as (r & Hr & Hx).
    rewrite Forall_forall in Hd. specialize (Hd r Hr). unfold precedes, inside in *. lia.
  - rewrite log_size_app. cbn [log_size]. unfold sn_size, sn_len. cbn [sn_bytes]. rewrite Hbs. lia.
  - exists st', (Snap (r_offset sn) bs :: L'). cbn [run_snaps]. rewrite (bind_ret _ _ _ _ _ E1). cbn [Z.eqb negb].
    split; [done|]. split; [by rewrite <- app_assoc in HL2|]. split; [by eapply same_trans|].
    intros x. unfold snapped, covered. rewrite !Exists_cons. rewrite Hin. by rewrite <- (Hc2 x).
Qed.
End Undo.
