(* ===== verification/TxAbort.v ===== *)
(** * Aborting a transaction

    tx_abort_set goes through the undo log and writes every snapshot back,
    except for the locks the transaction holds, and discards the log; recovery does
    the same without locks. *)
From stdpp Require Import base numbers list list_numbers gmap.
From Stdlib Require Import ZArith Lia Bool.
From S2P Require Import Prelude Pmem Settled Ulog UlogEntries UndoLog Ravl Memops UndoAdd Container Lane Tx TxRanges TxLoop TxUndo.

(** ** Ranges without the locks *)

Definition in_ranges (l : list (Z * Z)) (x : Z) : Prop := Exists (fun r : Z * Z => r.1 <= x < r.2) l.

Lemma in_ranges_cons r l x : in_ranges (r :: l) x <-> r.1 <= x < r.2 \/ in_ranges l x.
Proof. apply Exists_cons. Qed.
Lemma in_ranges_app l1 l2 x : in_ranges (l1 ++ l2) x <-> in_ranges l1 x \/ in_ranges l2 x.
Proof. apply Exists_app. Qed.

Lemma remove_range_exact l begin end_ x : forall front,
  in_ranges (tx_remove_range front l begin end_) x <-> in_ranges front x \/ in_ranges l x /\ ~ begin <= x < end_.
Proof.
  induction l as [|[p q] l IH]; intros front; cbn [tx_remove_range fst snd].
  - unfold in_ranges at 3. rewrite Exists_nil. tauto.
  - destruct (Z.leb_spec q begin), (Z.ltb_spec end_ p); cbn [orb]; rewrite IH, ?in_ranges_app, ?in_ranges_cons; cbn [fst snd];
      try (unfold in_ranges at 2; rewrite Exists_nil; intuition lia).
    destruct (Z.ltb_spec p begin), (Z.ltb_spec end_ q); rewrite ?in_ranges_cons; cbn [fst snd]; intuition lia.
Qed.

Lemma remove_range_inside l begin end_ lo hi : forall front,
  Forall (fun r : Z * Z => lo <= r.1 /\ r.1 <= r.2 /\ r.2 <= hi) front -> Forall (fun r : Z * Z => lo <= r.1 /\ r.1 <= r.2 /\ r.2 <= hi) l -> begin <= end_ ->
  Forall (fun r : Z * Z => lo <= r.1 /\ r.1 <= r.2 /\ r.2 <= hi) (tx_remove_range front l begin end_).
Proof.
  induction l as [|[p q] l IH]; intros front Hf Hl Hb; cbn [tx_remove_range fst snd]; [done|]. apply Forall_cons in Hl as [Hr Hl]. cbn in Hr.
  destruct (Z.leb_spec q begin), (Z.ltb_spec end_ p); cbn [orb]; try (apply IH; [|done|done]; apply Forall_app; split; [done|]; by constructor).
  apply IH; [|done|done]. destruct (Z.ltb_spec p begin), (Z.ltb_spec end_ q); repeat (constructor; cbn; [lia|]); done.
Qed.

Definition locked (locks : list tx_lock_data) (x : Z) : Prop :=
  Exists (fun k => lock_addr k <= x < lock_addr k + POBJ_CL_SIZE) locks.

Lemma without_locks locks : forall l x,
  in_ranges (foldl (fun l txl => tx_remove_range [] l (lock_addr txl) (lock_addr txl + POBJ_CL_SIZE)) l locks) x <->
  in_ranges l x /\ ~ locked locks x.
Proof.
  induction locks as [|k locks IH]; intros l x; cbn [foldl].
  - unfold locked. rewrite Exists_nil. tauto.
  - rewrite IH, remove_range_exact. unfold locked. rewrite Exists_cons. unfold in_ranges at 1. rewrite Exists_nil. tauto.
Qed.

Lemma without_locks_inside locks lo hi : forall l,
  Forall (fun r : Z * Z => lo <= r.1 /\ r.1 <= r.2 /\ r.2 <= hi) l ->
  Forall (fun r : Z * Z => lo <= r.1 /\ r.1 <= r.2 /\ r.2 <= hi)
    (foldl (fun l txl => tx_remove_range [] l (lock_addr txl) (lock_addr txl + POBJ_CL_SIZE)) l locks).
Proof.
  induction locks as [|k locks IH]; intros l Hl; cbn [foldl]; [done|]. apply IH, remove_range_inside; [constructor|done|unfold POBJ_CL_SIZE; lia].
Qed.

(** Restoring ranges of an entry that they do not overlap. *)
Lemma restore_all p_ops e dst lo hi l : forall s, 
  Forall (fun r : Z * Z => lo <= r.1 /\ r.1 <= r.2 /\ r.2 <= hi) l -> hi - lo < 2 ^ 64 -> dst = lo ->
  (forall x, lo <= x < hi -> ~ entry_data e <= x < entry_data e + (hi - lo)) ->
  forall x, (in_ranges l x -> vis (foldl (fun s r => restore_one p_ops e dst r s) s l) x = vis s (entry_data e + (x - dst))) /\
    (~ in_ranges l x -> vis (foldl (fun s r => restore_one p_ops e dst r s) s l) x = vis s x).
Proof.
  induction l as [|[p q] l IH]; intros s HF Hb -> Hd x; cbn [foldl].
  - split; [|done]. intros Hx. by apply Exists_nil in Hx.
  - apply Forall_cons in HF as [(F1 & F2 & F3) HF]. cbn [fst snd] in F1, F2, F3. destruct (IH (restore_one p_ops e lo (p, q) s) HF Hb eq_refl Hd x) as [I1 I2].
    assert (forall y, vis (restore_one p_ops e lo (p, q) s) y = if (p <=? y) && (y <? q) then vis s (entry_data e + (y - lo)) else vis s y) as Hv.
    { intros y. unfold restore_one, pmemops_memcpy. rewrite vis_memcpy_from. cbn [fst snd]. rewrite u64_small by lia. rewrite write_read_pt, Z2Nat.id by lia.
      replace (p + (q - p)) with q by lia. destruct (Z.leb_spec p y), (Z.ltb_spec y q); cbn [andb]; try done. f_equal. lia. }
    assert (in_ranges l x \/ ~ in_ranges l x) as [Hl|Hl].
    { destruct (decide (Exists (fun r : Z * Z => r.1 <= x < r.2) l)); [by left|by right]. }
    + split; [|intros Hn; destruct Hn; apply in_ranges_cons; by right]. intros _. rewrite (I1 Hl), Hv.
      assert (lo <= x < hi) as Hx.
      { apply Exists_exists in Hl as (r & Hr & Hx). rewrite Forall_forall in HF. specialize (HF r Hr). lia. }
      destruct (Z.leb_spec p (entry_data e + (x - lo))), (Z.ltb_spec (entry_data e + (x - lo)) q); cbn [andb]; try done.
      exfalso. apply (Hd (entry_data e + (x - lo))); lia.
    + rewrite (I2 Hl), Hv, in_ranges_cons. cbn [fst snd]. destruct (Z.leb_spec p x), (Z.ltb_spec x q); cbn [andb]; (split; [intros Hx|intros Hx; try done]); try done;
        try (destruct Hx as [Hx|Hx]; [lia|done]). destruct Hx. left. lia.
Qed.

(** tx_undo_entry_apply writes back everything but the locks. *)
Lemma undo_apply_writes_back p_ops pop u C m0 vol locks : 0 < pop ->
  writes_back pop u C m0 vol (fun sn => 0 <= sn_off sn /\ pop + sn_off sn + sn_len sn < 2 ^ 64) (locked locks) (tx_undo_entry_apply p_ops pop locks).
Proof.
  intros Hpop e sn s [H1 _ H3 H4 H5 H6] HT [Ho Hend] HD Hu He. unfold tx_undo_entry_apply. rewrite H3, Z.eqb_refl. eexists. split; [done|].
  destruct (sn_size_facts sn H1) as [Hsz _].
  unfold tx_restore_range, OBJ_OFF_TO_PTR. rewrite H4, H5, u64_small by lia. set (lo := pop + sn_off sn) in *.
  assert (Forall (fun r : Z * Z => lo <= r.1 /\ r.1 <= r.2 /\ r.2 <= lo + sn_len sn) [(lo, lo + sn_len sn)]) as Hin by (constructor; [cbn; lia|done]).
  pose proof (restore_all p_ops e lo lo (lo + sn_len sn) _ s (without_locks_inside locks _ _ _ Hin) ltac:(lia) eq_refl) as HR.
  assert (forall x, lo <= x < lo + sn_len sn -> ~ entry_data e <= x < entry_data e + (lo + sn_len sn - lo)) as Hd.
  { intros x Hx Hx'. apply (HD x); [done|]. unfold entry_data, sizeof_entry_buf in *. lia. }
  assert (forall x, in_ranges [(lo, lo + sn_len sn)] x <-> in_snap pop sn x) as Hone.
  { intros x. rewrite in_ranges_cons. unfold in_ranges. rewrite Exists_nil. unfold in_snap. fold lo. cbn [fst snd]. tauto. }
  split; intros x Hx; specialize (HR Hd x); rewrite without_locks, Hone in HR; destruct HR as [R1 R2].
  - intros Hk Hv. rewrite R1 by done. unfold in_snap in Hx. fold lo in Hx. specialize (HT (x - lo) ltac:(lia)). fold lo in HT.
    replace (lo + (x - lo)) with x in HT by lia. specialize (HT Hv).
    apply (f_equal (fun l => l !! Z.to_nat (x - lo))) in H6. rewrite lookup_read_bytes in H6 by (unfold sn_len in *; lia). rewrite Z2Nat.id in H6 by lia.
    rewrite HT in H6. by injection H6 as ->.
  - apply R2. tauto.
Qed.

(** operation_finish starts a new generation of a log that is not empty. *)
Lemma finish_undo ctx u L fuel push flags (pop : PMEMobjpool) s : ctx_ulog ctx = u -> plain_undo ctx -> total_logged ctx = log_size L -> u <> 0 ->
  flag_isset flags ULOG_INC_FIRST_GEN_NUM = true -> flag_isset flags ULOG_ANY_USER_BUFFER = false ->
  load64 (vis s) (ulog_next_addr u) = 0 -> fuel <> 0%nat -> (L <> [] -> log_size L <> 0) ->
  exists ctx' s', operation_finish fuel push ctx flags (pop, s) = Some (ctx', (pop, s')) /\
    (L = [] /\ s' = s \/ s' = ulog_inc_gen_num u (Some (ctx_p_ops ctx)) s).
Proof.
  intros H1 (T1 & T2 & T3 & _) H4 Hu Hf1 Hf2 Hn Hfu Hl. unfold operation_finish.
  rewrite (bool_decide_eq_true_2 (ctx_type ctx = LOG_TYPE_UNDO)) by done. rewrite H4. cbn [andb].
  assert (forall c, ctx_type c = LOG_TYPE_UNDO -> ctx_ulog c = u -> ctx_next c = [] -> ctx_p_ops c = ctx_p_ops ctx ->
    match ctx_type c with
    | LOG_TYPE_UNDO =>
        ulog_clobber_data fuel (ctx_ulog c) (total_logged c) (ctx_ulog_base_nbytes c)
          (ctx_next c) (ctx_ulog_free c) (operation_user_buffer_remove fuel) push (ctx_p_ops c) flags (pop, s)
    | LOG_TYPE_REDO =>
        ulog_free_next fuel (ctx_ulog c) (ctx_p_ops c) (ctx_ulog_free c)
          (operation_user_buffer_remove fuel) push flags (pop, s)
    end = Some (0, (pop, ulog_inc_gen_num u (Some (ctx_p_ops ctx)) s))) as Hc.
  { intros c C1 C2 C3 C4. rewrite C1, C2, C3, C4. unfold ulog_clobber_data. rewrite Hf1, Hf2. cbn [vec_front_or_0 andb].
    change (ulog_by_offset 0 (ctx_p_ops ctx)) with 0. cbn [Z.eqb negb andb]. destruct (flag_isset flags ULOG_FREE_AFTER_FIRST); cbn [Z.eqb]; [|done].
    rewrite (proj2 (Z.eqb_neq u 0) Hu). unfold ulog_free_next. rewrite (proj2 (Z.eqb_neq u 0) Hu), Hf2. cbn [mbind option_bind snd].
    destruct fuel as [|fuel]; [done|]. cbn [ulog_collect_next]. rewrite inc_gen_vis. rewrite load64_write_disj by (unfold ulog_next_addr, ulog_gen_num_addr; lia).
    rewrite Hn. done. }
  destruct (Z.eqb_spec (log_size L) 0) as [Hz|Hz]; cbn [negb].
  - rewrite T2. cbn [Z.eqb negb]. destruct (decide (L = [])) as [->|Hne]; [|by destruct (Hl Hne)].
    destruct (bool_decide (ctx_state ctx = OPERATION_CLEANUP)) eqn:Ec; cbn [negb].
    + rewrite (Hc ctx T1 H1 T3 eq_refl). cbn [mbind option_bind Z.eqb]. eexists _, _. split; [done|]. by right.
    + eexists _, _. split; [done|]. by left.
  - cbn [ulog_any_user_buffer set_state]. rewrite T2. cbn [Z.eqb negb]. cbn [ctx_state]. rewrite (bool_decide_eq_true_2 (OPERATION_CLEANUP = OPERATION_CLEANUP)) by done. cbn [negb].
    rewrite (Hc (set_state OPERATION_CLEANUP ctx) T1 H1 T3 eq_refl). cbn [mbind option_bind Z.eqb]. eexists _, _. split; [done|]. by right.
Qed.

(** The log has no entries any more. *)
Definition log_discarded (m : mem) (u : Z) : Prop := forall fuel, fuel <> 0%nat -> ulog_base_nbytes fuel m u = Some 0.

Lemma discarded_invalid m u : ulog_entry_valid m u (ulog_data u) = Some false -> log_discarded m u.
Proof.
  intros Hv [|fuel] Hf; [done|]. unfold ulog_base_nbytes. cbn [ulog_base_nbytes_from]. rewrite Z.add_0_r, Hv. by destruct (0 <? _).
Qed.
Lemma discarded_empty m u C : undo_at m u C [] -> log_discarded m u.
Proof. intros HU fuel Hf. apply (base_nbytes_undo m u C [] []); [done|]. destruct fuel; [done|cbn; lia]. Qed.

Lemma log_size_pos m u C L : undo_at m u C L -> L <> [] -> log_size L <> 0.
Proof.
  intros HU Hne. destruct L as [|sn L]; [done|]. pose proof (ua_entries _ _ _ _ HU) as [E1 E2]. cbn [log_size].
  destruct (entries_pos _ _ _ _ E2) as [? _]. pose proof (ea_len _ _ _ _ E1) as Hl. destruct (sn_size_facts sn Hl) as [? _]. lia.
Qed.

(** The generation number is all that the end of an operation changes. *)
Lemma finish_effect u C L s s' p_ops : undo_at (vis s) u C L -> L = [] /\ s' = s \/ s' = ulog_inc_gen_num u p_ops s ->
  log_discarded (vis s') u /\ forall x, ~ u <= x < u + SIZEOF_ULOG_HDR -> vis s' x = vis s x.
Proof.
  intros HU Hs. assert (forall x, ~ u <= x < u + SIZEOF_ULOG_HDR -> vis (ulog_inc_gen_num u p_ops s) x = vis s x) as Hout.
  { intros x Hx. rewrite inc_gen_vis. apply write_bytes_out. rewrite length_le64. unfold ulog_gen_num_addr, SIZEOF_ULOG_HDR in *. lia. }
  destruct Hs as [[-> ->]| ->]; [split; [by eapply discarded_empty|done]|]. split; [|done]. destruct (decide (L = [])) as [->|Hne].
  - apply (discarded_empty _ u C). destruct HU as [U0 U1 U2 U3 U4 U5 U6]. rewrite inc_gen_vis.
    constructor; try done; rewrite ?load64_write_disj; try done; rewrite ?length_le64; unfold ulog_capacity_addr, ulog_next_addr, ulog_gen_num_addr, ulog_data, SIZEOF_ULOG_HDR; cbn [log_size]; lia.
  - by apply discarded_invalid, (inc_gen_empties u C L).
Qed.

Section Restore.
Context {H : Type} (env : tx_env) (p_ops : pmem_ops) (b u C : Z) (pop : PMEMobjpool) (m0 : mem) (vol : Z -> Prop).
Hypothesis (HP : pool_layout b u C pop).
Abbreviation in_log := (in_log u C).

(** The snapshots lie in the heap, behind the log. *)
Lemma snapped_heap L x : Forall (fun sn => in_heap pop (sn_off sn) (sn_len sn)) L -> snapped b L x -> ~ in_log x /\ b + heap_offset pop <= x.
Proof.
  intros HF Hs. apply Exists_exists in Hs as (sn & Hsn & Hx). rewrite Forall_forall in HF. destruct (HF sn Hsn) as [H1 H2].
  destruct HP as [_ _ P4 _]. unfold in_snap, TxUndo.in_log in *. split; lia.
Qed.

Lemma heap_good L : Forall (fun sn => in_heap pop (sn_off sn) (sn_len sn)) L -> Forall (fun sn => 0 <= sn_off sn /\ b + sn_off sn + sn_len sn < 2 ^ 64) L.
Proof.
  intros HF. eapply Forall_impl; [exact HF|]. intros sn [H1 H2]. cbn. destruct HP as [[P1 P0] [P2 P3] P4 (P5 & P6 & P7)].
  unfold undo_region, SIZEOF_ULOG_HDR in *. lia.
Qed.

Lemma abort_set_restores (st : tx_state H) L : logging b u C pop m0 vol st L -> e_range env = true -> (length L < e_fuel env)%nat ->
  exists st', tx_abort_set env p_ops st = Some (Ret tt, st') /\ st_tx st' = st_tx st /\ st_heap st' = st_heap st /\ st_events st' = st_events st /\
    log_discarded (vis (st_ws st').2) u /\
    (forall x, ~ in_log x -> ~ locked (tx_locks (st_tx st)) x -> ~ vol x -> vis (st_ws st').2 x = m0 x) /\
    (forall x, ~ in_log x -> locked (tx_locks (st_tx st)) x -> vis (st_ws st').2 x = vis (st_ws st).2 x).
Proof.
  intros [HI L2 L3 L4 L5 L6 _] Hr Hf. pose proof HI as [I1 I2 I3 I4 I5 I6 I7]. pose proof (ua_log _ _ _ _ I2) as Hu0.
  destruct st as [t l [pp s] h ev]. cbn [st_tx st_lane st_ws fst snd] in *. subst pp.
  destruct (foreach_restores b u C m0 vol _ (locked (tx_locks t)) p_ops (tx_undo_entry_apply p_ops b (tx_locks t))
    (undo_apply_writes_back p_ops b u C m0 vol (tx_locks t) ltac:(by destruct HP as [[? ?] _ _ _])) [] L s (e_fuel env) I2 I3 (heap_good L I4))
    as (s1 & E1 & R1 & R2); [intros x Hx; by apply (snapped_heap L)|done|].
  assert (agree (vis s1) (vis s) u (undo_region u C)) as Hag.
  { intros x Hx. apply R2. left. intros Hs. by destruct (snapped_heap L x I4 Hs) as [? _]. }
  pose proof (undo_at_agree _ _ _ _ _ I2 Hag) as U1.
  destruct (finish_undo (lane_undo l) u L (e_fuel env) (e_push env) ULOG_INC_FIRST_GEN_NUM pop s1) as (ctx' & s' & E2 & Hs'); try done.
  { apply L5. } { apply L5. } { apply L5. }
  { apply (ua_next _ _ _ _ U1). } { lia. } { by apply (log_size_pos (vis s) u C). }
  destruct (finish_effect u C L s1 s' _ U1 Hs') as [D1 D2].
  exists (TxState t (Lane (lane_layout l) (lane_internal l) (lane_external l) ctx') (pop, s') h ev). split; [|cbn [st_tx st_heap st_events st_ws snd]].
  - unfold tx_abort_set. unfold bind, get_tx, the_lane, get_world. cbn [st_tx st_lane st_ws snd]. rewrite Hr. cbn [negb].
    unfold lift, ulog_foreach_entry. rewrite L4, (proj2 (Z.eqb_neq u 0) Hu0), L3. cbn [log_size] in E1. rewrite E1. cbn [mbind option_bind].
    unfold on_mem, run_undo. cbn [st_tx st_lane st_ws fst snd]. rewrite L2. cbn [negb]. rewrite E2. done.
  - do 3 (split; [done|]). split; [done|].
    assert (forall x, ~ in_log x -> vis s' x = vis s1 x) as Hv.
    { intros x Hx. apply D2. unfold TxUndo.in_log, undo_region in Hx. pose proof (ua_room _ _ _ _ I2) as [? _]. destruct (entries_pos _ _ _ _ (ua_entries _ _ _ _ I2)) as [? _]. lia. }
    split; intros x Hx Hk; [intros Hvl|]; rewrite Hv by done; [|apply R2; by right].
    destruct (decide (Exists (fun sn => b + sn_off sn <= x < b + sn_off sn + sn_len sn) L)) as [Hs|Hs]; [by apply R1|].
    rewrite R2 by (by left). by apply (image_vis b u C pop m0 vol (TxState t l (pop, s) h ev) L x HI).
Qed.
End Restore.

(** ** Recovery of an undo log

    What the boot of a pool does with the undo log of a lane: the snapshots are
    written back and a new generation discards them. *)

(** The context that operation_new gives to the undo log of a lane that has no
    other logs behind it. *)
Record boot_ctx (ctx : operation_context) (b u : Z) : Prop := BootCtx {
  bc_ulog : ctx_ulog ctx = u;
  bc_type : ctx_type ctx = LOG_TYPE_UNDO;
  bc_next : ctx_next ctx = [];
  bc_table : table (ctx_p_ops ctx) = OPS_POOL;
  bc_base : base (ctx_p_ops ctx) = b
}.

Section Recover.
Context (b u C : Z) (pop : PMEMobjpool) (m0 : mem) (vol : Z -> Prop).
Hypothesis (HP : pool_layout b u C pop).

(** operation_process of a context that has been resumed. *)
Lemma process_undo ctx L s fuel s1 : plain_undo ctx -> ctx_ulog ctx = u -> total_logged ctx = log_size L -> undo_at (vis s) u C L ->
  ulog_foreach_from fuel u u 0 (ulog_process_entry (ctx_p_ops ctx)) 0 (ctx_p_ops ctx) s = Some (0, s1) ->
  exists c2, operation_process fuel ctx s = Some (c2, s1) /\ plain_undo c2 /\ ctx_ulog c2 = u /\ total_logged c2 = log_size L.
Proof.
  intros (T1 & T2 & T3 & T4) Hcu Hct HU E1. pose proof (ua_log _ _ _ _ HU) as Hu0. unfold operation_process.
  rewrite (bool_decide_eq_false_2 (ctx_type ctx = LOG_TYPE_REDO)) by (by rewrite T1). cbn [andb].
  rewrite (bool_decide_eq_true_2 (ctx_type ctx = LOG_TYPE_UNDO)) by done. rewrite Hct. cbn [andb].
  destruct (Z.eqb_spec (log_size L) 0) as [Hz|Hz]; cbn [negb mbind option_bind].
  - destruct (decide (L = [])) as [->|Hne]; [|by destruct (log_size_pos _ _ _ _ HU Hne)]. exists ctx. rewrite T4. cbn [Z.eqb negb].
    assert (s1 = s) as ->; [|by repeat split]. destruct fuel as [|fuel]; [done|]. cbn [ulog_foreach_from] in E1. rewrite (ua_cap _ _ _ _ HU) in E1.
    pose proof (ua_end _ _ _ _ HU) as He. cbn [log_size] in He. destruct (Z.ltb_spec 0 C) as [HC|HC].
    + unfold ulog_entry_valid in E1. rewrite (He HC) in E1. by injection E1.
    + unfold ulog_next in E1. rewrite (ua_next _ _ _ _ HU) in E1. by injection E1.
  - unfold operation_process_persistent_undo, ulog_process, ulog_foreach_entry. rewrite Hcu, (proj2 (Z.eqb_neq u 0) Hu0).
    rewrite E1. cbn [mbind option_bind transient_ops set_state]. rewrite T4. cbn [Z.eqb negb]. exists (set_state OPERATION_CLEANUP ctx). by repeat split.
Qed.

Lemma resume_plain ctx L s fuel : boot_ctx ctx b u -> undo_at (vis s) u C L -> (length L < fuel)%nat ->
  exists c1, operation_resume fuel ctx s = Some c1 /\ plain_undo c1 /\ ctx_ulog c1 = u /\ total_logged c1 = log_size L /\ ctx_p_ops c1 = ctx_p_ops ctx.
Proof.
  intros [B1 B2 B3 B4 B5] HU Hf. pose proof (base_nbytes_undo (vis s) u C [] L fuel HU Hf) as Hnb. cbn [log_size app] in Hnb.
  unfold operation_resume. change (ctx_ulog (operation_start ctx)) with (ctx_ulog ctx). rewrite B1. unfold ulog_base_nbytes. rewrite Hnb.
  cbn [mbind option_bind]. eexists. split; [reflexivity|]. by repeat split.
Qed.

Lemma recover_undo_restores ctx L s fuel push : boot_ctx ctx b u -> undo_at (vis s) u C L -> Forall (taken_from b m0 vol) L ->
  Forall (fun sn => in_heap pop (sn_off sn) (sn_len sn)) L -> (length L < fuel)%nat ->
  exists ctx' s', recover_undo fuel push ctx (pop, s) = Some (ctx', (pop, s')) /\ log_discarded (vis s') u /\
    (forall x, ~ in_log u C x -> snapped b L x -> ~ vol x -> vis s' x = m0 x) /\ (forall x, ~ in_log u C x -> ~ snapped b L x -> vis s' x = vis s x).
Proof.
  intros HB HU HT HH Hf. pose proof (ua_log _ _ _ _ HU) as Hu0.
  destruct (resume_plain ctx L s fuel HB HU Hf) as (c1 & E0 & Hp1 & Hu1 & Ht1 & Ho1).
  assert (writes_back b u C m0 vol (fun _ => True) (fun _ => False) (ulog_process_entry (ctx_p_ops c1))) as Hwb.
  { rewrite Ho1, <- (bc_base _ _ _ HB). apply process_writes_back. }
  destruct (foreach_restores b u C m0 vol _ _ (ctx_p_ops c1) _ Hwb [] L s fuel HU HT) as (s1 & E1 & R1 & R2); [by apply Forall_forall| |done|].
  { intros x Hx. by apply (snapped_heap b u C pop HP L). }
  assert (agree (vis s1) (vis s) u (undo_region u C)) as Hag.
  { intros x Hx. apply R2. left. intros Hs. by destruct (snapped_heap b u C pop HP L x HH Hs) as [? _]. }
  pose proof (undo_at_agree _ _ _ _ _ HU Hag) as U1.
  destruct (process_undo c1 L s fuel s1 Hp1 Hu1 Ht1 HU E1) as (c2 & E2 & Hp2 & Hu2 & Ht2).
  destruct (finish_undo c2 u L fuel push (Z.lor ULOG_INC_FIRST_GEN_NUM ULOG_FREE_AFTER_FIRST) pop s1 Hu2 Hp2 Ht2 Hu0 eq_refl eq_refl (ua_next _ _ _ _ U1)) as (ctx' & s' & E3 & Hs').
  { lia. } { by apply (log_size_pos (vis s) u C). }
  destruct (finish_effect u C L s1 s' _ U1 Hs') as [D1 D2]. exists ctx', s'.
  split; [unfold recover_undo; cbn [fst snd]; rewrite E0; cbn [mbind option_bind]; rewrite E2; exact E3|]. split; [done|].
  assert (forall x, ~ in_log u C x -> vis s' x = vis s1 x) as Hv.
  { intros x Hx. apply D2. unfold TxUndo.in_log, undo_region in Hx. pose proof (ua_room _ _ _ _ HU) as [? _]. destruct (entries_pos _ _ _ _ (ua_entries _ _ _ _ HU)) as [? _]. lia. }
  split; intros x Hx Hs; [intros Hvl|]; rewrite Hv by done; [apply R1; [done|by intros []|done]|]. apply R2. by left.
Qed.
End Recover.
