(* ===== verification/Palloc.v ===== *)
(** * The persistent allocator (libpmemobj/palloc.c)

    Reservations of blocks, and actions that are collected in an operation and
    published together: the actions are sorted by their locks, translated to
    entries of a redo log under these locks, processed, and followed by the
    changes of the volatile state.  The heap underneath (heap.c) is a record of
    functions; the buckets' active blocks and the reservation counters, which
    palloc.c changes itself, are tables. *)
From stdpp Require Import base numbers list list_numbers gmap.
From Stdlib Require Import ZArith Lia Bool.
From S2P Require Import Prelude Pmem Ulog Memops Container HeapLayout Memblock AllocClass Lane Tx.

Definition EEXIST : Z := 17.
Definition PALLOC_CTL_DEBUG_NO_PATTERN : Z := -1.
Definition HEAP_ARENA_PER_THREAD : Z := 0.

(** [struct memory_block_reserved] and the fields of [struct bucket] used here. *)
Record mresv := MResv { rs_m : memory_block; rs_nresv : Z; rs_bucket : Z }.
Record pbucket := PBucket { pb_active : Z; pb_is_active : bool }.

Record palloc_rt (R : Type) := PRt { rt_buckets : gmap Z pbucket; rt_resv : gmap Z mresv; rt_heap : R }.
Arguments PRt {R}.
Arguments rt_buckets {R}.
Arguments rt_resv {R}.
Arguments rt_heap {R}.

(** An operation of the heap. *)
Definition heap_act (R A : Type) : Type := world -> palloc_rt R -> option (A * world * palloc_rt R).

(** The heap.  A bucket is known by its address. *)
Record heap_fns (R : Type) := HeapFns {
  (* [None]: no such class *)
  hf_get_best_class : Z -> heap_act R (option alloc_class);
  hf_class_by_id : Z -> heap_act R (option alloc_class);
  hf_bucket_acquire : Z -> Z -> heap_act R Z;
  (* the result and the block *)
  hf_get_bestfit_block : Z -> memory_block -> heap_act R (Z * memory_block);
  hf_bucket_insert : Z -> memory_block -> heap_act R unit;
  (* the result, errno and the coalesced block *)
  hf_free_chunk_reuse : Z -> memory_block -> heap_act R (Z * Z * memory_block);
  hf_discard_run : memory_block -> heap_act R unit;
  hf_memblock_on_free : memory_block -> heap_act R unit;
  hf_get_run_lock : Z -> Z;
  (* the number of allocated bytes grows, or shrinks *)
  stats_add : Z -> world -> palloc_rt R -> world * palloc_rt R
}.
Arguments hf_get_best_class {R}.
Arguments hf_class_by_id {R}.
Arguments hf_bucket_acquire {R}.
Arguments hf_get_bestfit_block {R}.
Arguments hf_bucket_insert {R}.
Arguments hf_free_chunk_reuse {R}.
Arguments hf_discard_run {R}.
Arguments hf_memblock_on_free {R}.
Arguments hf_get_run_lock {R}.
Arguments stats_add {R}.

(** What util_mutex_lock and util_mutex_unlock are called with. *)
Inductive lock_event := MutexLock (l : Z) | MutexUnlock (l : Z).

Definition act_lock (a : pobj_action) : Z := match a with ActHeap lock _ _ _ _ => lock | ActMem _ _ => 0 end.

Definition palloc_action_compare (l r : pobj_action) : Z :=
  if act_lock l <? act_lock r then -1 else if act_lock r <? act_lock l then 1 else 0.

Section Palloc.
Context {R : Type} (hf : heap_fns R) (heap : palloc_heap).
(** heap->alloc_pattern; the content of the stack where headers leave gaps. *)
Context (alloc_pattern : Z) (gaps : list byte * list byte * list byte).
(** The C library's qsort with palloc_action_compare. *)
Context (qsort : list pobj_action -> list pobj_action).
Implicit Types (rt : palloc_rt R) (ws : world).

Definition block_get_lock (m : memory_block) : Z :=
  if mb_type m =? MEMORY_BLOCK_RUN then hf_get_run_lock hf (chunk_id m) else 0.

(** The result of the constructor and the offset of the object. *)
Definition alloc_prep_block (m : memory_block) (constructor : option (Z -> Z -> pmst -> Z * pmst))
    (extra_field object_flags : Z) (s : pmst) : Z * Z * pmst :=
  let uptr := block_get_user_data heap (vis s) m in
  let usize := block_get_user_size heap (vis s) m in
  let s := block_write_header heap gaps.1.1 gaps.1.2 gaps.2 m extra_field object_flags s in
  let s := if PALLOC_CTL_DEBUG_NO_PATTERN <? alloc_pattern
           then pmemops_memset (heap_ops heap) uptr alloc_pattern usize 0 s else s in
  let '(ret, s) := match constructor with None => (0, s) | Some f => f uptr usize s end in
  if negb (ret =? 0) then (ret, 0, s) else (0, HEAP_PTR_TO_OFF heap uptr, s).

Definition set_size (size_idx : Z) (m : memory_block) : memory_block :=
  MBlock (chunk_id m) (zone_id m) size_idx (block_off m) (m_ops m) (mb_heap m) (header_type m) (mb_type m).

(** [None] and errno, or the action. *)
Definition palloc_reservation_create (size : Z) (constructor : option (Z -> Z -> pmst -> Z * pmst))
    (extra_field object_flags class_id arena_id : Z) ws rt : option (option pobj_action * Z * world * palloc_rt R) :=
  '(c, ws, rt) ← (if class_id =? 0 then hf_get_best_class hf size ws rt else hf_class_by_id hf (u8 class_id) ws rt);
  match c with
  | None => Some (None, EINVAL, ws, rt)
  | Some c =>
      let size_idx := alloc_class_calc_size_idx c size in
      if size_idx <? 0 then Some (None, EINVAL, ws, rt) else
      '(b, ws, rt) ← hf_bucket_acquire hf (cl_id c) arena_id ws rt;
      '((err, m), ws, rt) ← hf_get_bestfit_block hf b (set_size (u32 size_idx) MEMORY_BLOCK_NONE) ws rt;
      if negb (err =? 0) then Some (None, err, ws, rt) else
      let '(ret, offset, s) := alloc_prep_block m constructor extra_field object_flags ws.2 in
      let ws := (ws.1, s) in
      if negb (ret =? 0) then
        '(_, ws, rt) ← (if mb_type m =? MEMORY_BLOCK_HUGE then hf_bucket_insert hf b m ws rt else Some (tt, ws, rt));
        Some (None, ECANCELED, ws, rt)
      else
      bk ← rt_buckets rt !! b;
      rt ← (if pb_active bk =? 0 then Some rt else
            r ← rt_resv rt !! pb_active bk;
            Some (PRt (rt_buckets rt) (<[pb_active bk := MResv (rs_m r) (u64 (rs_nresv r + 1)) (rs_bucket r)]> (rt_resv rt)) (rt_heap rt)));
      Some (Some (ActHeap (block_get_lock m) offset MEMBLOCK_ALLOCATED m (pb_active bk)), 0, ws, rt)
  end.

(** ** Single actions *)

(** [al]: what the allocator returns to the two entries an action may add. *)
Definition palloc_heap_action_exec (al : (Z * bool) * (Z * bool)) (new_state : memblock_state) (m : memory_block)
    (ctx : operation_context) ws : operation_context * world :=
  if mb_type m =? MEMORY_BLOCK_RUN then run_prep_operation_hdr heap al.1.1 al.1.2 m new_state ctx ws
  else
    let '(c, ws) := huge_prep_operation_hdr heap al.1.1 al.1.2 al.2.1 al.2.2 m new_state (Some ctx) ws in
    (match c with Some c => c | None => ctx end, ws).

(** The result of operation_add_entry is not looked at. *)
Definition palloc_mem_action_exec (al : (Z * bool) * (Z * bool)) (ptr value : Z) (ctx : operation_context) ws : operation_context * world :=
  let '(_, ctx, ws) := operation_add_entry al.1.1 al.1.2 ctx ptr value ULOG_OPERATION_SET ws in (ctx, ws).

Definition action_exec (al : (Z * bool) * (Z * bool)) (a : pobj_action) (ctx : operation_context) ws : operation_context * world :=
  match a with
  | ActHeap _ _ new_state m _ => palloc_heap_action_exec al new_state m ctx ws
  | ActMem ptr value => palloc_mem_action_exec al ptr value ctx ws
  end.

(** The block, coalesced with its neighbours. *)
Definition palloc_restore_free_chunk_state (m : memory_block) ws rt : option (memory_block * world * palloc_rt R) :=
  if mb_type m =? MEMORY_BLOCK_HUGE then
    '(b, ws, rt) ← hf_bucket_acquire hf DEFAULT_ALLOC_CLASS_ID HEAP_ARENA_PER_THREAD ws rt;
    '((ret, errno, m), ws, rt) ← hf_free_chunk_reuse hf b m ws rt;
    if negb (ret =? 0) && (errno =? EEXIST) then None else Some (m, ws, rt)
  else Some (m, ws, rt).

Definition palloc_reservation_clear (m : memory_block) (mresv : Z) (publish : bool) ws rt : option (world * palloc_rt R) :=
  if mresv =? 0 then Some (ws, rt) else
  r ← rt_resv rt !! mresv;
  bk ← rt_buckets rt !! rs_bucket r;
  '(_, ws, rt) ← (if publish || negb (pb_is_active bk) then Some (tt, ws, rt) else
        am ← rt_resv rt !! pb_active bk;
        if (chunk_id (rs_m am) =? chunk_id m) && (zone_id (rs_m am) =? zone_id m)
        then hf_bucket_insert hf (rs_bucket r) m ws rt else Some (tt, ws, rt));
  r ← rt_resv rt !! mresv;
  let rt := PRt (rt_buckets rt) (<[mresv := MResv (rs_m r) (u64 (rs_nresv r - 1)) (rs_bucket r)]> (rt_resv rt)) (rt_heap rt) in
  if rs_nresv r =? 1 then
    '(_, ws, rt) ← hf_discard_run hf (rs_m r) ws rt;
    Some (ws, PRt (rt_buckets rt) (delete mresv (rt_resv rt)) (rt_heap rt))
  else Some (ws, rt).

Definition action_on_cancel (a : pobj_action) ws rt : option (world * palloc_rt R) :=
  match a with
  | ActHeap _ _ new_state m mresv =>
      if decide (new_state = MEMBLOCK_FREE) then Some (ws, rt) else
      '(m, ws, rt) ← palloc_restore_free_chunk_state m ws rt;
      palloc_reservation_clear m mresv false ws rt
  | ActMem _ _ => Some (ws, rt)
  end.

Definition action_on_process (a : pobj_action) ws rt : option (world * palloc_rt R) :=
  match a with
  | ActHeap _ _ MEMBLOCK_ALLOCATED m _ => Some (stats_add hf (block_get_real_size heap (vis ws.2) m) ws rt)
  | ActHeap _ _ MEMBLOCK_FREE m _ =>
      let '(ws, rt) := stats_add hf (- block_get_real_size heap (vis ws.2) m) ws rt in
      '(_, ws, rt) ← hf_memblock_on_free hf m ws rt;
      Some (ws, rt)
  | _ => Some (ws, rt)
  end.

Definition action_on_unlock (a : pobj_action) ws rt : option (world * palloc_rt R) :=
  match a with
  | ActHeap _ _ MEMBLOCK_ALLOCATED m mresv => palloc_reservation_clear m mresv true ws rt
  | ActHeap _ _ MEMBLOCK_FREE m _ => '(_, ws, rt) ← palloc_restore_free_chunk_state m ws rt; Some (ws, rt)
  | _ => Some (ws, rt)
  end.

(** ** Publishing *)

(** The first loop of palloc_exec_actions; [prev] is the lock of the action
    before. *)
Fixpoint exec_all (al : nat -> (Z * bool) * (Z * bool)) (i : nat) (prev : option Z) (actv : list pobj_action)
    (ctx : operation_context) ws : list lock_event * operation_context * world :=
  match actv with
  | [] => ([], ctx, ws)
  | act :: actv =>
      let lock := if bool_decide (prev = Some (act_lock act)) || (act_lock act =? 0) then [] else [MutexLock (act_lock act)] in
      let '(ctx, ws) := action_exec (al i) act ctx ws in
      let '(locks, ctx, ws) := exec_all al (S i) (Some (act_lock act)) actv ctx ws in
      (lock ++ locks, ctx, ws)
  end.

(** The second loop. *)
Fixpoint process_all (actv : list pobj_action) ws rt : option (list lock_event * world * palloc_rt R) :=
  match actv with
  | [] => Some ([], ws, rt)
  | act :: actv =>
      '(ws, rt) ← action_on_process act ws rt;
      let unlock := if bool_decide (act_lock <$> head actv = Some (act_lock act)) || (act_lock act =? 0) then [] else [MutexUnlock (act_lock act)] in
      '(locks, ws, rt) ← process_all actv ws rt;
      Some (unlock ++ locks, ws, rt)
  end.

(** A handler for every action, as palloc_cancel and the third loop do. *)
Fixpoint for_actions (f : pobj_action -> world -> palloc_rt R -> option (world * palloc_rt R)) (actv : list pobj_action) ws rt
    : option (world * palloc_rt R) :=
  match actv with
  | [] => Some (ws, rt)
  | act :: actv => '(ws, rt) ← f act ws rt; for_actions f actv ws rt
  end.

Definition palloc_exec_actions (fuel : nat) (push : nat -> bool) (al : nat -> (Z * bool) * (Z * bool))
    (ctx : operation_context) (actv : list pobj_action) ws rt
    : option (list lock_event * operation_context * world * palloc_rt R) :=
  let actv := qsort actv in
  let '(locks, ctx, ws) := exec_all al 0 None actv ctx ws in
  let s := pmemops_drain (heap_ops heap) ws.2 in
  '(ctx, s) ← operation_process fuel ctx s;
  '(unlocks, ws, rt) ← process_all actv (ws.1, s) rt;
  '(ws, rt) ← for_actions action_on_unlock actv ws rt;
  '(ctx, ws) ← operation_finish fuel push ctx 0 ws;
  Some (locks ++ unlocks, ctx, ws, rt).

Definition palloc_defer_free_create (off : Z) ws : pobj_action :=
  let m := memblock_from_offset heap (vis ws.2) off in
  ActHeap (block_get_lock m) off MEMBLOCK_FREE m 0.

Definition palloc_cancel_actions (actv : list pobj_action) ws rt : option (world * palloc_rt R) :=
  for_actions action_on_cancel actv ws rt.

(** The result; [dest_off] is 0 for NULL. *)
Definition palloc_operation (fuel : nat) (push : nat -> bool) (al : nat -> (Z * bool) * (Z * bool)) (off dest_off size : Z)
    (constructor : option (Z -> Z -> pmst -> Z * pmst)) (extra_field object_flags class_id arena_id : Z)
    (ctx : operation_context) ws rt : option (Z * operation_context * world * palloc_rt R) :=
  let dealloc := if off =? 0 then None else Some (palloc_defer_free_create off ws) in
  let user_size := match dealloc with Some (ActHeap _ _ _ m _) => block_get_user_size heap (vis ws.2) m | _ => 0 end in
  if bool_decide (dealloc <> None) && (user_size =? size) then Some (0, operation_cancel ctx, ws, rt) else
  '(alloc, ws, rt) ← (if size =? 0 then Some (Some None, ws, rt) else
     '(a, _, ws, rt) ← palloc_reservation_create size constructor extra_field object_flags class_id arena_id ws rt;
     Some (match a with Some a => Some (Some a) | None => None end, ws, rt));
  match alloc with
  | None => Some (-1, operation_cancel ctx, ws, rt)
  | Some alloc =>
      let offset := match alloc with Some (ActHeap _ o _ _ _) => o | _ => 0 end in
      let ws := match alloc, dealloc with
                | Some _, Some _ =>
                    let to_cpy := if size <? user_size then size else user_size in
                    (ws.1, pmemops_memcpy (heap_ops heap) (u64 (heap_base heap + offset)) (u64 (heap_base heap + off)) to_cpy 0 ws.2)
                | _, _ => ws
                end in
      let '(ctx, ws) := if dest_off =? 0 then (ctx, ws) else palloc_mem_action_exec (al 0%nat) dest_off offset ctx ws in
      '(_, ctx, ws, rt) ← palloc_exec_actions fuel push (fun i => al (S i)) ctx (option_list dealloc ++ option_list alloc) ws rt;
      Some (0, ctx, ws, rt)
  end.

Definition palloc_usable (off : Z) ws : Z := block_get_user_size heap (vis ws.2) (memblock_from_offset heap (vis ws.2) off).
Definition palloc_extra (off : Z) ws : Z := block_get_extra heap (vis ws.2) (memblock_from_offset heap (vis ws.2) off).
Definition palloc_flags (off : Z) ws : Z := block_get_flags heap (vis ws.2) (memblock_from_offset heap (vis ws.2) off).

(** ** Atomic allocation (libpmemobj/pmalloc.c) *)

(** The internal context of the lane, started; [outermost]: the thread does not
    hold the lane already. *)
Definition hold_internal (outermost : bool) (l : lane) : lane :=
  let l := if outermost then lane_reinit l else l in
  Lane (lane_layout l) (operation_start (lane_internal l)) (lane_external l) (lane_undo l).

Definition pmalloc_operation (fuel : nat) (push : nat -> bool) (al : nat -> (Z * bool) * (Z * bool)) (outermost : bool)
    (off_val off size : Z) (constructor : option (Z -> Z -> pmst -> Z * pmst)) (extra_field object_flags class_id : Z)
    (l : lane) ws rt : option (Z * lane * world * palloc_rt R) :=
  let l := hold_internal outermost l in
  '(ret, ctx, ws, rt) ← palloc_operation fuel push al off_val off size constructor extra_field object_flags class_id 0 (lane_internal l) ws rt;
  Some (ret, Lane (lane_layout l) ctx (lane_external l) (lane_undo l), ws, rt).

Definition pmalloc fuel push al outermost (off size extra_field object_flags : Z) (l : lane) ws rt :=
  pmalloc_operation fuel push al outermost 0 off size None extra_field object_flags 0 l ws rt.
Definition pmalloc_construct fuel push al outermost (off size : Z) constructor (extra_field object_flags class_id : Z) (l : lane) ws rt :=
  pmalloc_operation fuel push al outermost 0 off size (Some constructor) extra_field object_flags class_id l ws rt.
Definition prealloc fuel push al outermost (off size extra_field object_flags : Z) (l : lane) ws rt :=
  pmalloc_operation fuel push al outermost (load64 (vis ws.2) off) off size None extra_field object_flags 0 l ws rt.
Definition pfree fuel push al outermost (off : Z) (l : lane) ws rt :=
  pmalloc_operation fuel push al outermost (load64 (vis ws.2) off) off 0 None 0 0 0 l ws rt.

(** ** What transactions use *)

(** constructor_tx_alloc of tx.c: [args] are flags, source and size of the copy. *)
Definition constructor_tx_alloc (args : Z * Z * Z) (ptr usable_size : Z) (s : pmst) : Z * pmst :=
  let '(flags, copy_ptr, copy_size) := args in
  let s := if flag_isset flags POBJ_FLAG_ZERO then st_store ptr (replicate (Z.to_nat usable_size) Byte.x00) s else s in
  let s := if negb (copy_ptr =? 0) && negb (copy_size =? 0)
           then st_store ptr (read_bytes (vis s) copy_ptr (Z.to_nat copy_size)) s else s in
  (0, s).

Definition tx_palloc (fuel : nat) (push : nat -> bool) (al : nat -> (Z * bool) * (Z * bool)) : palloc_fns (palloc_rt R) :=
  Palloc (palloc_rt R)
    (fun size type_num class_id arena_id args ws rt =>
       '(a, _, ws, rt) ← palloc_reservation_create size (Some (constructor_tx_alloc args)) type_num 0 class_id arena_id ws rt;
       Some (a, ws, rt))
    (fun off ws _ => palloc_defer_free_create off ws)
    palloc_cancel_actions
    (fun actv ctx ws rt => '(_, ctx, ws, rt) ← palloc_exec_actions fuel push al ctx actv ws rt; Some (ctx, ws, rt))
    (fun off ws _ => palloc_usable off ws).
End Palloc.

(** ** An instance: a heap that has no memory *)

Definition ex_heap_fns : heap_fns unit :=
  HeapFns unit (fun _ ws rt => Some (None, ws, rt)) (fun _ ws rt => Some (None, ws, rt)) (fun _ _ ws rt => Some (0, ws, rt)) (fun _ m ws rt => Some ((ENOMEM, m), ws, rt))
    (fun _ _ ws rt => Some (tt, ws, rt)) (fun _ m ws rt => Some ((0, 0, m), ws, rt)) (fun _ ws rt => Some (tt, ws, rt)) (fun _ ws rt => Some (tt, ws, rt)) (fun _ => 0) (fun _ ws rt => (ws, rt)).
