(* ===== verification/TxRollback.v ===== *)
(** * Transactions are undone

    From the begin of a transaction on, through any sequence of calls that add
    memory to it, of locks and of stores to the added memory: an abort gives the
    pool the content it had at the begin, and so does the recovery after a power
    failure at any point of the sequence.  The bytes of the locks that the
    transaction tries to take are volatile: they are stored to and never flushed
    for their own sake. *)
From stdpp Require Import base numbers list list_numbers gmap sorting relations.
From Stdlib Require Import ZArith Lia Bool.
From S2P Require Import Prelude Pmem Settled Ulog UlogEntries UndoLog Ravl RavlFacts RavlOps RavlSpec Memops Sync UndoAdd Container Lane.
From S2P Require Import HeapLayout Tx TxRanges TxLoop TxSpec TxUndo TxAbort Palloc.

(** ** Stores of the locks *)

(** A byte of one of the locks. *)
Definition lock_byte (locks : list Z) (x : Z) : Prop := Exists (fun a => a <= x < a + POBJ_CL_SIZE) locks.

(** The functions of the operating system write to the object only. *)
Definition in_place (os : os_locks) : Prop := forall type bs,
  length (os_init os type bs).2 = length bs /\
  (forall r, os_lock os type bs = Some r -> length r.2 = length bs) /\ (forall r, os_unlock os type bs = Some r -> length r.2 = length bs).

(** Stores inside of the lock. *)
Definition lock_ev (lock : Z) (ev : pevent) : Prop :=
  match ev with EvStore a bs => bs <> [] /\ lock <= a /\ a + Z.of_nat (length bs) <= lock + POBJ_CL_SIZE | _ => False end.
Definition lock_stores (lock : Z) (s s' : pmst) : Prop :=
  (exists evs, trace s' = trace s ++ evs /\ Forall (lock_ev lock) evs) /\ forall m0, wf_st m0 s -> wf_st m0 s'.

Lemma lock_stores_refl lock s : lock_stores lock s s.
Proof. split; [|done]. exists []. by rewrite app_nil_r. Qed.
Lemma lock_stores_trans lock s1 s2 s3 : lock_stores lock s1 s2 -> lock_stores lock s2 s3 -> lock_stores lock s1 s3.
Proof.
  intros [(e1 & T1 & F1) W1] [(e2 & T2 & F2) W2]. split; [|by auto]. exists (e1 ++ e2). rewrite T2, T1, app_assoc. split; [done|]. by apply Forall_app.
Qed.
Lemma lock_stores_one lock a bs s : bs <> [] -> lock <= a -> a + Z.of_nat (length bs) <= lock + POBJ_CL_SIZE -> lock_stores lock s (st_store a bs s).
Proof. intros H1 H2 H3. split; [|intros m0; apply wf_store]. exists [EvStore a bs]. split; [done|]. by constructor. Qed.
Lemma lock_stores_run_id lock v s : lock_stores lock s (st_store64 lock v s).
Proof. unfold st_store64. apply lock_stores_one; [intros E; apply (f_equal length) in E; by rewrite length_le64 in E|lia|rewrite length_le64; unfold POBJ_CL_SIZE; lia]. Qed.

Section LockCall.
Context (run_id lock : Z) (n : nat) (init : list byte -> Z * list byte) (op : list byte -> option (Z * list byte)).
Hypothesis (Hinit : forall bs, length (init bs).2 = length bs).
Hypothesis (Hop : forall bs r, op bs = Some r -> length r.2 = length bs).

Lemma get_value_stores fuel pc st st' r : length st.2 = n -> get_value_from run_id init lock fuel pc st = Some (r, st') ->
  lock_stores lock st.1 st'.1 /\ length st'.2 = n.
Proof.
  revert pc st. induction fuel as [|fuel IH]; intros pc [s v] Hn E; cbn [fst snd] in *.
  { destruct pc; try done. cbn in E. injection E as <- <-. split; [apply lock_stores_refl|done]. }
  assert (exists s1 v1, (get_value_step run_id init lock pc (s, v)).2 = (s1, v1) /\ lock_stores lock s s1 /\ length v1 = n) as (s1 & v1 & E1 & L1 & N1).
  { destruct pc; cbn [get_value_step]; repeat case_match; cbn [snd]; eexists _, _; (split; [reflexivity|]);
      (split; [first [apply lock_stores_refl|apply lock_stores_run_id]|first [done|rewrite <- Hn, <- (Hinit v); by match goal with E : init _ = _ |- _ => rewrite E end]]). }
  assert ((exists k, pc = GvDone k) \/ ~ exists k, pc = GvDone k) as [[k ->]|Hnd] by (destruct pc; [right; by intros []..|left; by eexists]).
  - cbn in E. injection E as <- <-. split; [apply lock_stores_refl|done].
  - assert (get_value_from run_id init lock fuel (get_value_step run_id init lock pc (s, v)).1 (s1, v1) = Some (r, st')) as E2.
    { rewrite <- E1, <- E. destruct pc; cbn [get_value_from]; [by destruct (get_value_step _ _ _ _ _)..|]. destruct Hnd. by eexists. }
    destruct (IH _ (s1, v1) N1 E2) as [L2 N2]. split; [by eapply lock_stores_trans|done].
Qed.

Lemma object_stores fuel st st' r : length st.2 = n -> on_object run_id init lock fuel op st = Some (r, st') ->
  lock_stores lock st.1 st'.1 /\ length st'.2 = n.
Proof.
  intros Hn E. unfold on_object, get_object, _get_value in E.
  assert (exists ok st1, lock_stores lock st.1 st1.1 /\ length st1.2 = n /\ (if negb ok then Some (EINVAL, st1) else '(ret, v) ← op st1.2; Some (ret, (st1.1, v))) = Some (r, st'))
    as (ok & st1 & L1 & N1 & E1).
  { destruct (load64 _ _ =? run_id); [exists true, st; split; [apply lock_stores_refl|done]|].
    destruct (get_value_from _ _ _ _ _ _) as [[k st1]|] eqn:Eg; [|done]. destruct (get_value_stores _ _ _ _ _ Hn Eg) as [L1 N1].
    cbn [mbind option_bind] in E. by eexists _, st1. }
  destruct ok; cbn [negb] in E1; [|by simplify_eq]. destruct (op st1.2) as [[k v]|] eqn:Eo; [|done]. cbn in E1. simplify_eq. split; [done|].
  by rewrite <- N1, <- (Hop _ _ Eo).
Qed.
End LockCall.

Section Rollback.
Context {H : Type} (palloc : palloc_fns H) (p_ops : pmem_ops) (b u C : Z) (pop : PMEMobjpool) (m0 : mem) (LK : list Z).
Implicit Types (st : tx_state H) (L : list snapshot).

(** A thread without a transaction, whose lane has an empty undo log. *)
Record idle_thread st : Prop := IdleThread {
  it_stage : stage (st_tx st) = TX_STAGE_NONE;
  it_world : st_ws st = (pop, PMst m0 [] false);
  it_log : undo_at m0 u C [];
  it_layout : layout_undo (lane_layout (st_lane st)) = u;
  it_undo : boot_ctx (lane_undo (st_lane st)) b u;
  it_capacity : C <= ctx_ulog_capacity (lane_undo (st_lane st));
  it_external : 16 <= ctx_ulog_capacity (lane_external (st_lane st)) < 2 ^ 64
}.

(** The bytes of the pool at [a] were added to the transaction. *)
Definition added st (a n : Z) : Prop :=
  exists T l, ranges (st_tx st) = Some T /\ ravl_ok cmp T l /\ forall x, a <= x < a + n -> covered l (x - b).

Definition on_pool (f : pmst -> pmst) st : tx_state H :=
  TxState (st_tx st) (st_lane st) ((st_ws st).1, f (st_ws st).2) (st_heap st) (st_events st).

(** What happens inside of a transaction: memory is added, as long as the log of
    the lane has room for it; locks of [LK] are taken, or found taken, or fail; the
    program stores to memory that was added, flushes and drains as it likes. *)
Inductive tx_step st : tx_state H -> Prop :=
  | step_add env steps args l st' :
      holds_ranges env st l -> addable st args -> flag_isset (r_flags args) POBJ_FLAG_NO_SNAPSHOT = false ->
      e_inc env 0 = true -> (2 * length l + 2 < e_fuel env)%nat -> (length l + 1 < steps)%nat ->
      total_logged (lane_undo (st_lane st)) + r_size args + 88 * (Z.of_nat (length l) + 1) <= C ->
      pmemobj_tx_add_common palloc env p_ops steps args st = Some (Ret 0, st') -> tx_step st st'
  | step_lock env type lock mok r st' :
      lock ∈ LK -> in_place (e_os env) -> pmemobj_tx_lock env type lock mok st = Some (Ret r, st') -> tx_step st st'
  | step_store a bs : bs <> [] -> added st a (Z.of_nat (length bs)) -> tx_step st (on_pool (st_store a bs) st)
  | step_flush a n : tx_step st (on_pool (pmem_flush a n) st)
  | step_drain : tx_step st (on_pool pmem_drain st).

(** What holds throughout. *)
Record tx_inv st L (l : list tx_range_def) : Prop := TxInv {
  ti_logging : logging b u C pop m0 (lock_byte LK) st L;
  ti_tree T : ranges (st_tx st) = Some T -> ravl_ok cmp T l;
  ti_has_tree : ranges (st_tx st) <> None;
  ti_separate : separate l;
  ti_covered x : covered l x <-> snapped b L (b + x);
  ti_stage : stage (st_tx st) = TX_STAGE_WORK;
  ti_entries : exists jmp, tx_entries (st_tx st) = [jmp];
  ti_locks : Forall (fun k => lock_addr k ∈ LK) (tx_locks (st_tx st))
}.

Hypothesis (HP : pool_layout b u C pop).
(** The locks are in the heap. *)
Definition locks_in_heap : Prop := Forall (fun a => in_heap pop (a - b) POBJ_CL_SIZE) LK.
Hypothesis (HLK : locks_in_heap).
Abbreviation vol := (lock_byte LK).

Lemma begin_inv env outer errno jmp st : idle_thread st -> exists st',
  pmemobj_tx_begin palloc env p_ops true true outer errno b jmp [] st = Some (Ret 0, st') /\ tx_inv st' [] [] /\
    lane_external (st_lane st') = if outer then operation_init (lane_external (st_lane st)) else lane_external (st_lane st).
Proof.
  intros [I1 I2 I3 I4 [B1 B2 B3 B4 B5] I6 I7]. destruct st as [t l ws h ev]. cbn [st_tx st_lane st_ws] in *. subst ws.
  unfold pmemobj_tx_begin. unfold bind at 1. unfold get_tx at 1. cbn [st_tx]. rewrite I1. eexists. split; [reflexivity|]. split; [|by destruct outer].
  constructor; cbn [st_tx st_lane st_ws stage ranges tx_entries set_stage set_entries set_errnum set_first set_pop set_ranges set_locks set_userbufs set_actions set_lane]; try done.
  - destruct outer; (constructor; cbn; try done;
      [constructor; cbn; try done; [intros w _ _ _; apply on_media_nil|intros x _ _ _; constructor]|constructor; cbn; try done; by left]).
  - intros T [= <-]. apply ravl_ok_new.
  - split; [constructor|constructor].
  - intros x. unfold covered, snapped. by rewrite !Exists_nil.
  - by eexists.
Qed.

(** Events that only store to snapshotted memory and to locks. *)
Definition snapped_ev L (ev : pevent) : Prop :=
  match ev with EvStore a bs => bs <> [] /\ forall x, a <= x < a + Z.of_nat (length bs) -> snapped b L x \/ vol x | _ => True end.

Lemma vol_heap x : vol x -> b + heap_offset pop <= x.
Proof. intros Hx. apply Exists_exists in Hx as (a & Ha & Hx). unfold locks_in_heap in HLK. rewrite Forall_forall in HLK. destruct (HLK a Ha) as [H1 _]. lia. Qed.

Lemma snapped_ev_log L ev w : Forall (fun sn => in_heap pop (sn_off sn) (sn_len sn)) L -> snapped_ev L ev ->
  w mod 8 = 0 -> w < u + undo_region u C -> C mod 64 = 0 -> ev_avoids w 8 ev.
Proof.
  intros HH He Hw Hlt HC. destruct ev as [a bs| |]; [|done|done]. destruct He as [Hne He]. cbn [ev_avoids]. left.
  assert (0 < Z.of_nat (length bs)) as Hl by (destruct bs; [done|cbn; lia]).
  assert (b + heap_offset pop <= a) as Ha.
  { destruct (He a ltac:(lia)) as [Hs|Hv]; [by apply (snapped_heap b u C pop HP L)|by apply vol_heap]. }
  destruct HP as [_ [_ P3] P4 _]. unfold undo_region, SIZEOF_ULOG_HDR in *.
  pose proof (Z.div_mod w 8 ltac:(lia)). pose proof (Z.div_mod u 8 ltac:(lia)). pose proof (Z.div_mod C 64 ltac:(lia)). lia.
Qed.

Section Events.
Context (st : tx_state H) (L : list snapshot) (s' : pmst) (evs : list pevent).
Hypothesis (HI : image b u C pop m0 vol st L).
Hypothesis (Ht : trace s' = trace (st_ws st).2 ++ evs).
Hypothesis (He : Forall (snapped_ev L) evs).
Hypothesis (Hw : wf_st m0 s').

Lemma events_avoid w : w mod 8 = 0 -> w < u + undo_region u C -> Forall (ev_avoids w 8) evs.
Proof.
  intros Hw8 Hlt. eapply Forall_impl; [exact He|]. intros ev Hev. destruct HI as [_ I2 _ I4 _ _ _].
  apply (snapped_ev_log L); try done. apply (ua_aligned _ _ _ _ I2).
Qed.

Lemma events_keep_log : agree (vis s') (vis (st_ws st).2) u (undo_region u C).
Proof.
  intros x Hx. rewrite (Hw x), (im_wf _ _ _ _ _ _ _ _ HI x), Ht, replay_app. destruct (word_of_spec x) as [W1 W2].
  apply (replay_avoids _ evs (word_of x) 8); [apply events_avoid; [done|lia]|lia].
Qed.

Lemma image_events : image b u C pop m0 vol (on_pool (fun _ => s') st) L.
Proof.
  pose proof events_keep_log as Hag. pose proof HI as [I1 I2 I3 I4 I5 I6 I7]. constructor; cbn [on_pool st_ws fst snd]; try done.
  - by apply (undo_at_agree _ _ _ _ _ I2).
  - intros w Hw8 Hlo Hhi. rewrite Ht. apply on_media_avoids; [by apply I6|by apply events_avoid].
  - intros x Hx Hs Hv. unfold untouched. rewrite Ht. apply Forall_app. split; [by apply I7|]. eapply Forall_impl; [exact He|].
    intros [a bs| |]; cbn; [|done|done]. intros [_ Hb]. destruct (decide (a <= x < a + Z.of_nat (length bs))) as [Hi|]; [|lia]. by destruct (Hb x Hi).
Qed.

Lemma log_pos : 64 <= undo_region u C.
Proof.
  pose proof (im_log _ _ _ _ _ _ _ _ HI) as HU. pose proof (ua_room _ _ _ _ HU) as [? _]. destruct (entries_pos _ _ _ _ (ua_entries _ _ _ _ HU)) as [? _].
  unfold undo_region, SIZEOF_ULOG_HDR. lia.
Qed.

Lemma inv_events l : tx_inv st L l -> tx_inv (on_pool (fun _ => s') st) L l.
Proof.
  intros [[G1 G2 G3 G4 G5 G6 G7 G8] T1 T2 T3 T4 T5 T6 T7]. pose proof image_events as G1'. pose proof log_pos as Hp. constructor; try done.
  assert (forall a, u <= a -> a + 8 <= u + 64 -> load64 (vis s') a = load64 (vis (st_ws st).2) a) as Hl.
  { intros a H1 H2. apply (load64_agree _ _ u 64); [|lia..]. intros x Hx. apply events_keep_log. lia. }
  constructor; try done; cbn [on_pool st_lane st_ws st_tx snd].
  - apply (undo_ctx_agree _ (vis (st_ws st).2)); [done|]. intros x Hx. apply events_keep_log. unfold SIZEOF_ULOG_HDR in *. lia.
  - rewrite Hl by (unfold ulog_gen_num_addr; lia). done.
Qed.
End Events.

(** A tree holds one list of ranges. *)
Lemma ranges_unique T l l' : ravl_ok cmp T l -> ravl_ok cmp T l' -> l = l'.
Proof.
  intros H1 H2. pose proof (clear_ok cmp T l (S (stdpp.base.size (nodes T))) H1 ltac:(lia)) as [_ E1].
  pose proof (clear_ok cmp T l' (S (stdpp.base.size (nodes T))) H2 ltac:(lia)) as [_ E2]. congruence.
Qed.

Lemma logging_ranges st L T : logging b u C pop m0 vol st L -> logging b u C pop m0 vol (with_ranges T st) L.
Proof. intros [[I1 I2 I3 I4 I5 I6 I7] G2 G3 G4 G5 G6 G7 G8]. constructor; try done. Qed.

Lemma covered_dec l x : covered l x \/ ~ covered l x.
Proof. destruct (decide (Exists (fun r => r_offset r <= x < r_end r) l)); [by left|by right]. Qed.

(** Adding memory succeeds when the log has room, and keeps the invariant. *)
Lemma add_keeps env steps args st L l : tx_inv st L l -> fresh_node env (default ravl_new (ranges (st_tx st))) -> addable st args ->
  flag_isset (r_flags args) POBJ_FLAG_NO_SNAPSHOT = false -> e_inc env 0 = true -> (2 * length l + 2 < e_fuel env)%nat -> (length l + 1 < steps)%nat ->
  total_logged (lane_undo (st_lane st)) + r_size args + 88 * (Z.of_nat (length l) + 1) <= C ->
  exists st' L' l', pmemobj_tx_add_common palloc env p_ops steps args st = Some (Ret 0, st') /\ tx_inv st' L' l' /\
    (forall x, covered l' x <-> covered l x \/ r_offset args <= x < r_end args) /\ lane_external (st_lane st') = lane_external (st_lane st).
Proof.
  intros [G T1 T2 T3 T4 T5 T6 T7] Hfr Had Hfl Hinc Hfu Hst Hroom. destruct (ranges (st_tx st)) as [T|] eqn:ET; [|done]. cbn [default] in Hfr.
  assert (holds_ranges env st l) as Hh by (exists T; split; [done|]; split; [by apply T1|done]).
  destruct (add_common_spec palloc env p_ops steps args st l Hh Had Hfu Hst) as (l' & snaps & [A1 A2 A3 A4 A5 A6] & Hcnt & T' & Hok' & Hres).
  destruct Had as (D1 & D2 & D3 & D4 & D5). pose proof (im_world _ _ _ _ _ _ _ _ (lg_image _ _ _ _ _ _ _ _ G)) as Hpop. rewrite Hpop in D1, D2, D4, D5.
  assert (Forall (fun sn => range_ok sn /\ in_heap pop (r_offset sn) (r_size sn) /\ flag_isset (r_flags sn) POBJ_FLAG_NO_SNAPSHOT = false) snaps) as HF.
  { eapply Forall_impl; [exact A3|]. intros sn (S1 & S2 & S3 & S4). rewrite S4. split; [done|]. split; [|done]. unfold in_heap, r_end in *. lia. }
  destruct (run_snaps_ok env b u C pop m0 vol HP Hinc ltac:(lia) snaps st L G HF A4) as (st' & L' & E & G' & [M1 M2 M3 M4 M5 M6 M7 M8] & Hc).
  { intros x Hx Hs. apply A5 in Hx as [_ Hx]. apply Hx. by apply T4. }
  { destruct (cost_bound env b u C pop HP ltac:(lia) snaps) as [_ Hcost]; [eapply Forall_impl; [exact HF|]; by intros ? (? & ? & _)|].
    pose proof (total_size_bound (r_offset args) (r_end args) snaps ltac:(unfold r_end; lia)) as Hts.
    assert (total_size snaps <= r_size args) as Hts'.
    { unfold r_end in Hts at 2. enough (total_size snaps <= r_offset args + r_size args - r_offset args) by lia. apply Hts; [|done].
      eapply Forall_impl; [exact A3|]. tauto. }
    rewrite (uc_total _ _ _ _ _ (lg_ctx _ _ _ _ _ _ _ _ G)) in Hroom. lia. }
  rewrite E in Hres. cbn [Z.eqb] in Hres. exists (with_ranges T' st'), (L ++ L'), l'. split; [done|]. split; [|by split].
  constructor; cbn [with_ranges st_tx ranges set_ranges stage tx_entries]; try done.
  - by apply logging_ranges.
  - by intros ? [= <-].
  - intros x. rewrite A2. unfold snapped. rewrite Exists_app. fold (snapped b L (b + x)). fold (snapped b L' (b + x)). rewrite <- T4, Hc, A5.
    destruct (covered_dec l x); tauto.
  - by rewrite M1.
  - by rewrite M4.
  - cbn [tx_locks set_ranges]. by rewrite M3.
Qed.

(** Only the bytes of the lock change, and the list of locks. *)
Lemma tx_lock_run env type lock st r st' : in_place (e_os env) -> lock_type_lock env type lock st = Some (Ret r, st') ->
  exists s', st' = on_pool (fun _ => s') st /\ lock_stores lock (st_ws st).2 s'.
Proof.
  intros Hos. destruct st as [t la [pp s] h ev]. unfold lock_type_lock, on_lock. cbn [st_ws st_tx st_lane st_heap st_events snd]. set (f := match type with LOCK_MUTEX => _ | LOCK_RWLOCK => _ end).
  destruct (f _) as [[k [s1 v]]|] eqn:E; [|done]. cbn [mbind option_bind]. intros [= -> <-]. exists (st_store (lock + 8) v s1). split; [done|].
  assert (lock_stores lock s s1 /\ length v = 56%nat) as [L1 N1].
  { apply (object_stores (e_run_id env) lock 56 (os_init (e_os env) type) (os_lock (e_os env) type)) with (fuel := e_fuel env) (st := (s, read_bytes (vis s) (lock + 8) 56)) (r := r) (st' := (s1, v)).
    - intros bs. apply Hos.
    - intros bs q Hq. destruct (Hos type bs) as (_ & Hl & _). by apply Hl.
    - apply length_read_bytes.
    - rewrite <- E. by destruct type. }
  eapply lock_stores_trans; [exact L1|]. apply lock_stores_one; [by destruct v|lia|]. rewrite N1. unfold POBJ_CL_SIZE. lia.
Qed.

Lemma lock_keeps env type lock mok r st st' L l : tx_inv st L l -> lock ∈ LK -> in_place (e_os env) ->
  pmemobj_tx_lock env type lock mok st = Some (Ret r, st') ->
  (exists L' l', tx_inv st' L' l') /\ lane_external (st_lane st') = lane_external (st_lane st).
Proof.
  intros HI Hlk Hos. unfold pmemobj_tx_lock, ASSERT_TX_STAGE_WORK, add_to_tx_and_lock, bind, get_tx, ret, fatal.
  destruct (decide (stage (st_tx st) = TX_STAGE_WORK)); [|done]. case_match; [intros [= <- <-]; split; [by exists L, l|done]|].
  case_match; [intros [= <- <-]; split; [by exists L, l|done]|].
  destruct (lock_type_lock env type lock st) as [[[k|] st1]|] eqn:E; [|done|done].
  destruct (tx_lock_run env type lock st k st1 Hos E) as (s' & -> & [(evs & Ht & He) Hw]).
  assert (tx_inv (on_pool (fun _ => s') st) L l) as HI1.
  { apply (inv_events st L s' evs); [apply HI|done| |apply Hw, HI|done]. eapply Forall_impl; [exact He|]. intros [a bs| |]; cbn; [|done|done]. intros (N & B1 & B2).
    split; [done|]. intros x Hx. right. apply Exists_exists. exists lock. split; [done|]. lia. }
  case_match; [intros [= <- <-]; split; [by exists L, l|done]|]. unfold emit, modify. intros [= <- <-]. split; [|done]. exists L, l.
  destruct HI1 as [[[I1 I2 I3 I4 I5 I6 I7] G2 G3 G4 G5 G6 G7 G8] T1 T2 T3 T4 T5 T6 T7]. constructor; try done. by constructor.
Qed.

Lemma step_keeps st st' L l : tx_inv st L l -> tx_step st st' ->
  (exists L' l', tx_inv st' L' l') /\ lane_external (st_lane st') = lane_external (st_lane st).
Proof.
  intros HI Hstep. destruct Hstep as [env steps args l0 st' Hh Had Hfl Hinc Hfu Hst Hroom E|env type lock mok r st' Hlk Hos E|a bs Hne (T & l0 & ET & Hok & Hcov)|a n|].
  - destruct Hh as (T & ET & Hok & Hsep & Hfr). rewrite (ranges_unique T l0 l Hok (ti_tree _ _ _ HI T ET)) in *.
    destruct (add_keeps env steps args st L l HI) as (st2 & L' & l' & E' & HI' & _ & Hx); try done; [by rewrite ET|].
    rewrite E' in E. injection E as <-. split; [by exists L', l'|done].
  - by apply (lock_keeps env type lock mok r st st' L l).
  - split; [|done]. exists L, l. apply (inv_events st L (st_store a bs (st_ws st).2) [EvStore a bs]); try done.
    + apply HI.
    + constructor; [|done]. split; [done|]. intros x Hx. left. replace x with (b + (x - b)) by lia. apply (ti_covered _ _ _ HI).
      rewrite <- (ranges_unique T l0 l Hok (ti_tree _ _ _ HI T ET)). by apply Hcov.
    + apply wf_store, HI.
  - split; [|done]. exists L, l. apply (inv_events st L (pmem_flush a n (st_ws st).2) [EvFlush a n]); try done; [apply HI|by repeat constructor|apply wf_flush, HI].
  - split; [|done]. exists L, l. apply (inv_events st L (pmem_drain (st_ws st).2) [EvDrain]); try done; [apply HI|by repeat constructor|apply wf_drain, HI].
Qed.

Lemma steps_keep st st' L l : tx_inv st L l -> rtc tx_step st st' ->
  (exists L' l', tx_inv st' L' l') /\ lane_external (st_lane st') = lane_external (st_lane st).
Proof.
  intros HI Hs. revert L l HI. induction Hs as [|st st1 st2 H1 _ IH]; intros L l HI; [split; [by exists L, l|done]|].
  destruct (step_keeps st st1 L l HI H1) as ((L' & l' & HI') & <-). by apply (IH L' l').
Qed.

(** Every entry takes at least a cacheline. *)
Lemma log_length m L : undo_at m u C L -> (length L <= Z.to_nat (C / 64))%nat.
Proof.
  intros HU. assert (64 * Z.of_nat (length L) <= log_size L) as Hl.
  { pose proof (ua_entries _ _ _ _ HU) as HE. destruct (entries_pos _ _ _ _ HE) as (_ & HF & _). clear HE HU.
    induction HF as [|sn L Hs _ IH]; cbn [length log_size]; [lia|]. destruct (sn_size_facts sn Hs) as [H1 H2].
    pose proof (Z.div_mod (sn_size sn) 64 ltac:(lia)). lia. }
  pose proof (ua_room _ _ _ _ HU) as Hr. assert (Z.of_nat (length L) <= C / 64) by (apply Z.div_le_lower_bound; lia). lia.
Qed.

(** The errno that pmemobj_tx_abort reports. *)
Definition abort_errnum (errnum : Z) : Z := if errnum =? 0 then ECANCELED else errnum.

(** The memory and the transaction after the abort. *)
Record rolled_back errnum st st' : Prop := RolledBack {
  rb_memory x : ~ in_log u C x -> ~ vol x -> vis (st_ws st').2 x = m0 x;
  rb_locks x : ~ in_log u C x -> locked (tx_locks (st_tx st)) x -> vis (st_ws st').2 x = vis (st_ws st).2 x;
  rb_log : log_discarded (vis (st_ws st').2) u;
  rb_stage : stage (st_tx st') = TX_STAGE_ONABORT;
  rb_errnum : last_errnum (st_tx st') = abort_errnum errnum;
  rb_lane : tx_lane (st_tx st') = false /\ ranges (st_tx st') = None
}.

Lemma abort_rolls_back env errnum st L l : tx_inv st L l -> e_range env = true -> (Z.to_nat (C / 64) < e_fuel env)%nat ->
  (forall T, ranges (st_tx st) = Some T -> (stdpp.base.size (nodes T) < e_fuel env)%nat) ->
  (forall ws h, exists h', palloc_cancel palloc (actions (st_tx st)) ws h = Some (ws, h')) ->
  exists o st', pmemobj_tx_abort palloc env p_ops errnum st = Some (o, st') /\ rolled_back errnum st st'.
Proof.
  intros [G T1 T2 T3 T4 T5 (jmp & T6) T7] Hr Hf HfT Hc. pose proof (log_length _ L (im_log _ _ _ _ _ _ _ _ (lg_image _ _ _ _ _ _ _ _ G))) as HlL.
  destruct (ranges (st_tx st)) as [T|] eqn:ET; [|done]. destruct (clear_ok cmp T l (e_fuel env) (T1 T eq_refl) (HfT T eq_refl)) as [_ Ed].
  set (st1 := TxState (set_stage TX_STAGE_ONABORT (st_tx st)) (st_lane st) (st_ws st) (st_heap st) (st_events st)).
  assert (logging b u C pop m0 vol st1 L) as G1.
  { destruct G as [[I1 I2 I3 I4 I5 I6 I7] G2 G3 G4 G5 G6 G7 G8]. constructor; try done. }
  destruct (abort_set_restores env p_ops b u C pop m0 vol HP st1 L G1 Hr ltac:(lia)) as (st2 & E2 & S1 & S2 & S3 & D & R1 & R2).
  destruct st2 as [t2 l2 ws2 h2 ev2]. cbn [st_tx st_heap st_events st_ws] in *. subst t2 h2 ev2.
  destruct (Hc ws2 (st_heap st1)) as (h' & Eh).
  assert (forall x, locked (tx_locks (st_tx st)) x -> vol x) as Hheld.
  { intros x Hx. apply Exists_exists in Hx as (k & Hk & Hx). rewrite Forall_forall in T7. apply Exists_exists. by exists (lock_addr k); auto. }
  unfold pmemobj_tx_abort, obj_tx_abort, ASSERT_TX_STAGE_WORK. unfold bind at 1. unfold bind at 1. unfold get_tx at 1. rewrite T5. cbn [decide].
  destruct (decide (TX_STAGE_WORK = TX_STAGE_WORK)); [|done]. unfold ret at 1.
  unfold bind at 1. unfold modify at 1. unfold bind at 1. unfold get_tx at 1. cbn [st_tx tx_entries set_stage]. rewrite T6. fold st1.
  unfold tx_abort. unfold bind at 1. unfold bind at 1. unfold bind at 1. rewrite E2. unfold bind at 1. unfold get_tx at 1.
  cbn [st_tx]. assert (ranges (st_tx st1) = Some T) as -> by done. change (actions (st_tx st1)) with (actions (st_tx st)).
  unfold bind at 1. unfold lift at 1. cbn [mbind option_bind]. unfold bind at 1. unfold lift at 1. rewrite Ed. cbn [mbind option_bind].
  unfold bind at 1, run_palloc. cbn [st_ws st_heap]. rewrite Eh. cbn [mbind option_bind].
  unfold bind, modify, tx_lane_release, emit, obj_tx_callback, get_tx, ret, fatal. cbn [st_tx st_lane st_ws st_heap st_events stage_callback tx_entries set_stage set_ranges set_lane set_errnum].
  unfold bind, emit. cbn [st_tx stage_callback tx_entries set_errnum set_lane set_ranges].
  change (tx_entries (st_tx st1)) with (tx_entries (st_tx st)). rewrite T6. destruct (stage_callback (st_tx st1) =? 0), (jmp =? 0); eexists _, _; (split; [done|]); constructor; cbn; try done; intros x Hl Hv; apply R1; auto.
Qed.

(** C4. Recovery.  A thread begins a transaction without allocations and then, in
    any order and any number of times, adds ranges to be snapshotted that fit the
    log of the lane, takes locks, stores to memory that it added, flushes and
    drains.  When the power fails between any two of these steps, whatever mixture
    of flushed and unflushed stores is left on media, the recovery of the lane's
    undo log when the pool is opened again terminates, gives all memory outside of
    the log and of the locks that the transaction tried to take its content at
    the begin of the transaction, and discards the log.  Assumed: the locks lie in
    the heap, and the operating system writes to the object of a lock only. *)
Theorem tx_crash_recovers env outer errno jmp st0 st1 st img ctx fuel push :
  idle_thread st0 -> pmemobj_tx_begin palloc env p_ops true true outer errno b jmp [] st0 = Some (Ret 0, st1) -> rtc tx_step st1 st ->
  crash_image m0 (trace (st_ws st).2) img -> boot_ctx ctx b u -> (Z.to_nat (C / 64) < fuel)%nat ->
  exists ctx' s', recover_undo fuel push ctx (pop, PMst img [] false) = Some (ctx', (pop, s')) /\
    log_discarded (vis s') u /\ forall x, ~ in_log u C x -> ~ vol x -> vis s' x = m0 x.
Proof.
  intros H0 H1 H2 Hc Hb Hf. destruct (begin_inv env outer errno jmp st0 H0) as (st1' & E & HI & _). rewrite E in H1. injection H1 as <-.
  destruct (steps_keep st1' st [] [] HI H2) as ((L & l & [[[I1 I2 I3 I4 I5 I6 I7] _ _ _ _ _ _ _] _ _ _ _ _ _ _]) & _).
  pose proof (region_crash m0 _ img u (undo_region u C) I5 I6 Hc) as Hag. pose proof (undo_at_agree _ _ _ _ _ I2 Hag) as HU.
  pose proof (log_length _ L HU) as HlL.
  destruct (recover_undo_restores b u C pop m0 vol HP ctx L (PMst img [] false) fuel push Hb HU I3 I4 ltac:(lia)) as (ctx' & s' & Er & D & R1 & R2).
  exists ctx', s'. split; [done|]. split; [done|]. intros x Hx Hv.
  destruct (decide (Exists (fun sn => b + sn_off sn <= x < b + sn_off sn + sn_len sn) L)) as [Hs|Hs]; [by apply R1|].
  rewrite R2 by done. cbn [vis]. by apply (untouched_crash m0 _ img x (I7 x Hx Hs Hv)).
Qed.
End Rollback.

(** ** Aborts, with the allocator of palloc.c *)

Section Abort.
Context {R : Type} (hf : heap_fns R) (heap : palloc_heap) (pattern : Z) (gaps : list byte * list byte * list byte) (qsort : list pobj_action -> list pobj_action).
Context (fuel : nat) (push : nat -> bool) (al : nat -> (Z * bool) * (Z * bool)) (p_ops : pmem_ops) (b u C : Z) (pop : PMEMobjpool) (m0 : mem) (LK : list Z).
Hypothesis (HP : pool_layout b u C pop).
Hypothesis (HLK : locks_in_heap b pop LK).
Abbreviation palloc := (tx_palloc hf heap pattern gaps qsort fuel push al).

(** The only action of such a transaction is the one for the generation number,
    and cancelling it does nothing. *)
Lemma cancel_nothing (st : tx_state (palloc_rt R)) L l ws rt : tx_inv b u C pop m0 LK st L l -> palloc_cancel palloc (actions (st_tx st)) ws rt = Some (ws, rt).
Proof.
  intros HI. destruct (lg_acts _ _ _ _ _ _ _ _ (ti_logging _ _ _ _ _ _ _ _ _ HI)) as [_ Ha]. destruct (first_snapshot (st_tx st)); [by destruct Ha as [-> _]|by rewrite Ha].
Qed.

(** C5. Rollback.  A thread begins a transaction and then, in any order and any
    number of times, adds ranges to be snapshotted that fit the log of the lane,
    takes locks, stores to memory that it added, flushes and drains.
    pmemobj_tx_abort, with palloc_cancel of palloc.c over any heap, then
    terminates, and all memory outside of the lane's undo log has the content it
    had at the begin, except for the locks that the transaction tried to take, of
    which the ones it holds keep theirs.  The snapshots are discarded, the lane is
    released, and the stage and the errno are those of an aborted transaction.
    Assumed: the locks lie in the heap, and the operating system writes to the
    object of a lock only. *)
Theorem tx_abort_rolls_back env outer errno jmp st0 st1 st env' errnum :
  idle_thread b u C pop m0 st0 -> pmemobj_tx_begin palloc env p_ops true true outer errno b jmp [] st0 = Some (Ret 0, st1) ->
  rtc (tx_step palloc p_ops b C LK) st1 st -> e_range env' = true -> (Z.to_nat (C / 64) < e_fuel env')%nat ->
  (forall T, ranges (st_tx st) = Some T -> (stdpp.base.size (nodes T) < e_fuel env')%nat) ->
  exists o st', pmemobj_tx_abort palloc env' p_ops errnum st = Some (o, st') /\ rolled_back u C m0 LK errnum st st'.
Proof.
  intros H0 H1 H2 Hr Hf HfT. destruct (begin_inv palloc p_ops b u C pop m0 LK env outer errno jmp st0 H0) as (st1' & E & HI & _). rewrite E in H1. injection H1 as <-.
  destruct (steps_keep palloc p_ops b u C pop m0 LK HP HLK st1' st [] [] HI H2) as ((L & l & HI') & _).
  apply (abort_rolls_back palloc p_ops b u C pop m0 LK HP env' errnum st L l); try done. intros ws rt. exists rt. by apply (cancel_nothing st L l).
Qed.
End Abort.

(** ** An instance: one range is added, a lock that overlaps it is taken, and the
    range is partly overwritten *)

Definition ex_ops : pmem_ops := POps 4096 OPS_POOL.
Definition ex_args : tx_range_def := RangeDef 16464 64 0.
Section Instance.
Context {H : Type} (pfns : palloc_fns H) (h : H).

Definition result {A} (dflt : tx_state H) (o : option (outcome A * tx_state H)) : tx_state H :=
  match o with Some (Ret _, st) => st | _ => dflt end.
Definition returns_0 (o : option (outcome Z * tx_state H)) : bool := match o with Some (Ret r, _) => r =? 0 | _ => false end.
Definition ex_st0 : tx_state H := TxState tx_init ex_lane (ex_pool, PMst ex_pool_mem [] false) h [].
Abbreviation ex_begin := (pmemobj_tx_begin pfns ex_env ex_ops true true true 0 4096 7 [] ex_st0).
Definition ex_st1 : tx_state H := result ex_st0 ex_begin.
Abbreviation ex_add := (pmemobj_tx_add_common pfns ex_env ex_ops 8 ex_args ex_st1).
Definition ex_st2 : tx_state H := result ex_st1 ex_add.
Abbreviation ex_lock := (pmemobj_tx_lock ex_env LOCK_MUTEX 20608 true ex_st2).
Definition ex_st2l : tx_state H := result ex_st2 ex_lock.
Definition ex_st3 : tx_state H := on_pool (st_store 20570 [Byte.x01; Byte.x02; Byte.x03]) ex_st2l.

Lemma returns_result o dflt : returns_0 o = true -> o = Some (Ret 0, result dflt o).
Proof. destruct o as [[[r|e n] st]|]; cbn; try done. by intros ->%Z.eqb_eq. Qed.

Lemma ex_layout : pool_layout 4096 13248 2048 ex_pool.
Proof. constructor; vm_compute; repeat split; congruence. Qed.

Lemma ex_idle : idle_thread 4096 13248 2048 ex_pool ex_pool_mem ex_st0.
Proof. by constructor. Qed.

Lemma ex_begin_eq : ex_begin = Some (Ret 0, ex_st1).
Proof. apply returns_result. vm_compute. reflexivity. Qed.
Lemma ex_add_eq : ex_add = Some (Ret 0, ex_st2).
Proof. apply returns_result. vm_compute. reflexivity. Qed.
Lemma ex_lock_eq : ex_lock = Some (Ret 0, ex_st2l).
Proof. apply returns_result. vm_compute. reflexivity. Qed.
Lemma ex_locks_in_place : in_place ex_locks.
Proof.
  intros type bs. cbn [ex_locks os_init os_lock os_unlock snd]. rewrite length_insert. split; [done|]. split; intros r; [case_decide; [|done]|]; intros [= <-]; apply length_insert.
Qed.
Lemma ex_locks_in_heap : locks_in_heap 4096 ex_pool [20608].
Proof. constructor; [|constructor]. vm_compute. split; congruence. Qed.

Lemma ex_added : added 4096 ex_st2l 20570 3.
Proof.
  destruct (emplace_ok cmp ravl_new [] ex_args 200 ravl_node_copy_constructor 64 (ravl_ok_new cmp) ltac:(done) eq_refl) as (T & E & Hok); [vm_compute; lia|].
  exists T, [ex_args]. split; [|split; [exact Hok|]].
  - assert (ranges (st_tx ex_st2l) = snd <$> ravl_emplace_copy cmp 64 ravl_new 200 ex_args) as -> by (vm_compute; reflexivity).
    unfold ravl_emplace_copy. by rewrite E.
  - intros x Hx. left. unfold inside, r_end. cbn. lia.
Qed.

Lemma ex_step_add : tx_step pfns ex_ops 4096 2048 [20608] ex_st1 ex_st2.
Proof.
  apply (step_add _ _ _ _ _ _ ex_env 8 ex_args [] ex_st2); [|repeat split; vm_compute; congruence|reflexivity|reflexivity|cbn; lia|cbn; lia|vm_compute; congruence|exact ex_add_eq].
  exists ravl_new. split; [vm_compute; reflexivity|]. split; [apply ravl_ok_new|]. split; [split; constructor|]. by split.
Qed.

Lemma ex_step_lock : tx_step pfns ex_ops 4096 2048 [20608] ex_st2 ex_st2l.
Proof. apply (step_lock _ _ _ _ _ _ ex_env LOCK_MUTEX 20608 true 0); [by left|exact ex_locks_in_place|exact ex_lock_eq]. Qed.

Lemma ex_step_store : tx_step pfns ex_ops 4096 2048 [20608] ex_st2l ex_st3.
Proof. apply step_store; [done|exact ex_added]. Qed.

Lemma ex_steps : rtc (tx_step pfns ex_ops 4096 2048 [20608]) ex_st1 ex_st3.
Proof. eapply rtc_l; [exact ex_step_add|]. eapply rtc_l; [exact ex_step_lock|apply rtc_once, ex_step_store]. Qed.
End Instance.

(** The allocator over a heap that has no memory. *)
Definition ex_heap : palloc_heap := PHeap 0 ex_ops 24576 4096.
Definition ex_rt : palloc_rt unit := PRt ∅ ∅ tt.
Definition ex_tx_palloc : palloc_fns (palloc_rt unit) :=
  tx_palloc ex_heap_fns ex_heap (-1) ([], [], []) (fun l => l) 64 (fun _ => true) (fun _ => ((0, true), (0, true))).
Abbreviation ex_last := (ex_st3 ex_tx_palloc ex_rt).

Lemma tx_abort_rolls_back_witness :
  exists o st', pmemobj_tx_abort ex_tx_palloc ex_env ex_ops 0 ex_last = Some (o, st') /\ rolled_back 13248 2048 ex_pool_mem [20608] 0 ex_last st'.
Proof.
  apply (tx_abort_rolls_back ex_heap_fns ex_heap (-1) ([], [], []) (fun l => l) 64 (fun _ => true) (fun _ => ((0, true), (0, true))) ex_ops 4096 13248 2048 ex_pool ex_pool_mem [20608]
    ex_layout ex_locks_in_heap ex_env true 0 7 (ex_st0 ex_rt) (ex_st1 ex_tx_palloc ex_rt) ex_last ex_env 0 (ex_idle ex_rt) (ex_begin_eq ex_tx_palloc ex_rt) (ex_steps ex_tx_palloc ex_rt)).
  - reflexivity.
  - vm_compute. lia.
  - intros T. vm_compute. intros [= <-]. vm_compute. lia.
Defined.

Lemma tx_crash_recovers_witness :
  exists ctx' s', recover_undo 64 (fun _ => true) (lane_undo ex_lane) (ex_pool, PMst (replay ex_pool_mem (trace (st_ws ex_last).2)) [] false) = Some (ctx', (ex_pool, s')) /\
    log_discarded (vis s') 13248 /\ forall x, ~ in_log 13248 2048 x -> ~ lock_byte [20608] x -> vis s' x = ex_pool_mem x.
Proof.
  apply (tx_crash_recovers ex_tx_palloc ex_ops 4096 13248 2048 ex_pool ex_pool_mem [20608] ex_layout ex_locks_in_heap ex_env true 0 7 (ex_st0 ex_rt) (ex_st1 ex_tx_palloc ex_rt) ex_last _ _ 64 _
    (ex_idle ex_rt) (ex_begin_eq ex_tx_palloc ex_rt) (ex_steps ex_tx_palloc ex_rt)).
  - apply crash_image_all.
  - by constructor.
  - vm_compute. lia.
Defined.
