(* ===== verification/TxCommit.v ===== *)
(** * Commits are atomic

    pmemobj_tx_commit of a transaction that added memory, down to palloc.c: the
    ranges are flushed and drained, then one word, the generation number of the
    undo log, decides whether recovery rolls the transaction back.  A power
    failure at any point of the commit leaves all of the transaction or nothing
    of it, and after the commit nothing is lost.  Bytes of locks are volatile and
    left out. *)
From stdpp Require Import base numbers list list_numbers gmap relations.
From Stdlib Require Import ZArith Lia Bool.
From S2P Require Import Prelude Pmem Settled Checksum Ulog UlogFacts UlogEntries UndoLog Vecq Ravl RavlFacts RavlOps RavlSpec Memops MemopsLog MemopsProcess.
From S2P Require Import UndoAdd Container HeapLayout Memblock Lane Tx TxRanges TxLoop TxSpec TxUndo TxAbort TxRollback Palloc.

(** ** Memories with the same content *)

#[global] Instance load32_proper : Proper ((≡) ==> (=) ==> (=)) load32.
Proof. intros m m' E a ? <-. unfold load32. by rewrite (read_bytes_proper m m' E a a eq_refl _ _ eq_refl). Qed.

Lemma csum_loop_proper m m' f p e c sk lo hi : m ≡ m' -> csum_loop f m p e c sk lo hi = csum_loop f m' p e c sk lo hi.
Proof.
  intros E. revert p lo hi. induction f as [|f IH]; intros p lo hi; cbn [csum_loop]; [done|].
  rewrite (load32_proper m m' E p p eq_refl), !IH. done.
Qed.

Lemma entry_valid_proper m m' u e : m ≡ m' -> ulog_entry_valid m u e = ulog_entry_valid m' u e.
Proof.
  intros E. assert (forall a, load64 m a = load64 m' a) as El by (intros a; by rewrite (load64_proper m m' E a a eq_refl)).
  unfold ulog_entry_valid, ulog_entry_size, ulog_entry_type. rewrite !El. destruct (_ =? 0); [done|]. destruct (kind_of_type _); [done| |done].
  unfold util_checksum_compute. destruct (_ =? 0); [|done]. rewrite (csum_loop_proper m m') by done.
  rewrite (checksum_seq_ext m m' (ulog_gen_num_addr u) (ulog_gen_num_addr u) 8); [done|lia|]. intros i _. apply E.
Qed.

Lemma base_nbytes_proper fuel m m' u : m ≡ m' -> ulog_base_nbytes fuel m u = ulog_base_nbytes fuel m' u.
Proof.
  intros E. assert (forall a, load64 m a = load64 m' a) as El by (intros a; by rewrite (load64_proper m m' E a a eq_refl)).
  unfold ulog_base_nbytes. generalize 0 as off. induction fuel as [|fuel IH]; intros off; cbn [ulog_base_nbytes_from]; [done|].
  rewrite (entry_valid_proper m m') by done. unfold ulog_entry_size, ulog_entry_type. rewrite !El. repeat case_match; try done; apply IH.
Qed.

(** ** Flushing *)

Definition is_flush (ev : pevent) : Prop := match ev with EvFlush _ _ => True | _ => False end.

Lemma flush_pending w evs p : Forall is_flush evs -> foldl (pending_step w) p evs = true -> p = true.
Proof.
  intros HF. revert p. induction HF as [|[| |] evs Hev _ IH]; intros p; cbn; try done. destruct (covers _ _ _); intros E; by apply IH in E.
Qed.

Lemma flush_covers tr evs a n w : Forall is_flush evs -> EvFlush a n ∈ evs -> covers a n w = true -> pending (tr ++ evs) w = false.
Proof.
  intros HF Hin Hc. apply list_elem_of_split in Hin as (e1 & e2 & ->). apply Forall_app in HF as [_ HF]. apply Forall_cons in HF as [_ HF].
  rewrite app_assoc, pending_app. cbn [foldl pending_step]. rewrite Hc. destruct (foldl _ false e2) eqn:E; [|done]. by apply flush_pending in E.
Qed.

Lemma covers_byte a n x : a <= x < a + n -> covers a n (word_of x) = true.
Proof.
  intros Hx. destruct (word_of_spec x) as [Hw Hx']. unfold covers. apply andb_true_iff. rewrite Z.leb_le, Z.ltb_lt.
  Z.to_euclidean_division_equations. lia.
Qed.

(** What the flush of the ranges adds to the trace. *)
Definition range_flushes (b : Z) (l : list tx_range_def) : list pevent :=
  map (fun r => EvFlush (OBJ_OFF_TO_PTR b (r_offset r)) (r_size r)) l.

Lemma flush_ranges p_ops b l s : table p_ops = OPS_POOL -> Forall (fun r => flag_isset (r_flags r) POBJ_FLAG_NO_FLUSH = false) l ->
  foldl (tx_flush_range p_ops b) s l = PMst (vis s) (trace s ++ range_flushes b l) (fault s).
Proof.
  intros Ht HF. revert s. induction HF as [|r l Hr _ IH]; intros s; cbn [foldl range_flushes map]; [rewrite app_nil_r; by destruct s|].
  unfold tx_flush_range at 2. rewrite Hr. unfold pmemops_flush, obj_norep_flush, pmem_flush, st_flush. rewrite Ht. rewrite IH. cbn [vis trace fault]. by rewrite <- app_assoc.
Qed.

Lemma range_flushes_flush b l : Forall is_flush (range_flushes b l).
Proof. by apply Forall_map, Forall_true. Qed.

(** ** Power failures around the store that decides *)

Lemma word_one_store m0 tr w bs q img : on_media m0 tr w -> length bs = 8%nat -> Forall (ev_avoids w 8) q -> w mod 8 = 0 ->
  crash_image m0 (tr ++ EvStore w bs :: q) img -> agree img (replay m0 tr) w 8 \/ agree img (write_bytes (replay m0 tr) w bs) w 8.
Proof.
  intros [_ Hs] Hl Hq Hw Hc. destruct (Hc w Hw) as (k & Hk & Himg). pose proof (durable_mono tr (EvStore w bs :: q) w) as Hd.
  destruct (decide (k <= length tr)%nat) as [Hle|Hgt]; [left|right]; intros x Hx; replace x with (w + (x - w)) by lia; rewrite Himg by lia.
  - rewrite take_app_le by done. apply Hs; lia.
  - rewrite take_app_ge by lia. destruct (k - length tr)%nat as [|j] eqn:Ej; [lia|]. cbn [take]. rewrite replay_app. cbn [foldl apply_ev].
    change (replay m0 tr) with (foldl apply_ev m0 tr). apply (replay_avoids _ (take j q) w 8); [by apply Forall_take|lia].
Qed.

Section Crash.
Context {H : Type} (b u C : Z) (pop : PMEMobjpool) (m0 : mem) (vol : Z -> Prop) (st : tx_state H) (L : list snapshot) (l : list tx_range_def) (sl : Z).
Hypothesis (HP : pool_layout b u C pop).
Hypothesis (HI : image b u C pop m0 vol st L).
Hypothesis (Hcov : forall x, covered l x <-> snapped b L (b + x)).
Hypothesis (Hrok : Forall range_ok l).
Let s := (st_ws st).2.
Let g := ulog_gen_num_addr u.
Let new_gen := le64 (u64 (load64 (vis s) g + 1)).

Definition in_pool (x : Z) : Prop := b <= x < b + heap_offset pop + heap_size pop.

(** The shadow log of the operation is not in the pool. *)
Definition shadow_apart : Prop := sl mod 8 = 0 /\ (sl + 24 <= b \/ b + heap_offset pop + heap_size pop <= sl).
Hypothesis (Hsl : shadow_apart).

(** Events that do not store to the pool. *)
Definition quiet (evs : list pevent) : Prop := Forall (fun ev => match ev with EvStore a bs => a = sl /\ length bs = 24%nat | _ => True end) evs.

(** Opening the pool gives it the content of [m], but for volatile bytes. *)
Definition recovers_pool (img m : mem) : Prop := forall ctx fuel push, boot_ctx ctx b u -> (Z.to_nat (C / 64) < fuel)%nat ->
  exists ctx' s', recover_undo fuel push ctx (pop, PMst img [] false) = Some (ctx', (pop, s')) /\ log_discarded (vis s') u /\
    forall x, in_pool x -> ~ in_log u C x -> ~ vol x -> vis s' x = m x.

Lemma layout_facts : 0 <= C /\ C mod 64 = 0 /\ u mod 8 = 0 /\ b <= u /\ u + 64 + C <= b + heap_offset pop /\ u <> 0 /\ 0 <= heap_size pop /\
  g mod 8 = 0 /\ u <= g /\ g + 8 <= u + 64.
Proof.
  destruct HP as [[P1 P2] [P3 P4] P5 (P6 & P7 & P8)]. pose proof (im_log _ _ _ _ _ _ _ _ HI) as HU. unfold undo_region, SIZEOF_ULOG_HDR in *.
  unfold g, ulog_gen_num_addr. repeat split; try done; try lia; [apply (ua_aligned _ _ _ _ HU)|].
  Z.to_euclidean_division_equations. lia.
Qed.

Lemma quiet_avoids evs w : quiet evs -> w mod 8 = 0 -> b <= w < b + heap_offset pop + heap_size pop -> Forall (ev_avoids w 8) evs.
Proof.
  intros Hq Hw Hr. destruct Hsl as [S1 S2]. eapply Forall_impl; [exact Hq|]. intros [a bs| |]; cbn; [|done|done]. intros [-> ->].
  Z.to_euclidean_division_equations. lia.
Qed.

Lemma quiet_rest evs x : quiet evs -> in_pool x -> ~ in_log u C x -> ~ snapped b L x -> ~ vol x -> untouched (trace s ++ evs) x.
Proof.
  intros Hq Hx H1 H2 H3. apply Forall_app. split; [by apply (im_rest _ _ _ _ _ _ _ _ HI)|]. destruct Hsl as [S1 S2].
  eapply Forall_impl; [exact Hq|]. intros [a bs| |]; cbn; [|done|done]. intros [-> ->]. unfold in_pool in Hx. lia.
Qed.

Lemma quiet_log evs w : quiet evs -> w mod 8 = 0 -> u <= w < u + undo_region u C -> on_media m0 (trace s ++ evs) w.
Proof.
  intros Hq Hw Hr. destruct layout_facts as (F1 & F2 & F3 & F4 & F5 & _ & F6 & _). unfold undo_region, SIZEOF_ULOG_HDR in *.
  apply on_media_avoids; [apply (im_media _ _ _ _ _ _ _ _ HI); unfold undo_region, SIZEOF_ULOG_HDR; [done|lia|lia]|].
  apply quiet_avoids; [done|done|lia].
Qed.

Lemma word_in_log x : in_log u C x -> word_of x mod 8 = 0 /\ u <= word_of x < u + undo_region u C /\ word_of x <= x < word_of x + 8.
Proof.
  intros Hx. destruct (word_of_spec x) as [W1 W2]. destruct layout_facts as (F1 & F2 & F3 & _). unfold in_log, undo_region, SIZEOF_ULOG_HDR in *.
  split; [done|]. split; [|done]. Z.to_euclidean_division_equations. lia.
Qed.

(** The log with the old generation number: the transaction is undone. *)
Lemma old_recovers img : agree img (vis s) u (undo_region u C) -> (forall x, in_pool x -> ~ in_log u C x -> ~ snapped b L x -> ~ vol x -> img x = m0 x) ->
  recovers_pool img m0.
Proof.
  intros Hag Hr ctx fuel push Hb Hf. pose proof HI as [I1 I2 I3 I4 I5 I6 I7]. pose proof (undo_at_agree _ _ _ _ _ I2 Hag) as HU.
  pose proof (log_length u C _ L HU) as HlL.
  destruct (recover_undo_restores b u C pop m0 vol HP ctx L (PMst img [] false) fuel push Hb HU I3 I4 ltac:(lia)) as (ctx' & s' & Er & D & R1 & R2).
  exists ctx', s'. split; [done|]. split; [done|]. intros x Hp Hx Hv.
  destruct (decide (Exists (fun sn => b + sn_off sn <= x < b + sn_off sn + sn_len sn) L)) as [Hs|Hs]; [by apply R1|]. rewrite R2 by done. by apply Hr.
Qed.

(** An operation on an undo log without entries does nothing. *)
Lemma nothing_logged c fuel push flags (w : PMEMobjpool) s1 : ctx_type c = LOG_TYPE_UNDO -> total_logged c = 0 -> log_offset (transient_ops c) = 0 ->
  ulog_any_user_buffer c = 0 -> ctx_state c = OPERATION_IN_PROGRESS ->
  exists c', ('(c, s) ← operation_process fuel c s1; operation_finish fuel push c flags (w, s)) = Some (c', (w, s1)).
Proof.
  intros C1 C2 C3 C4 C5. unfold operation_process. rewrite C1, C2. rewrite (bool_decide_eq_false_2 (LOG_TYPE_UNDO = LOG_TYPE_REDO)) by done.
  cbn [andb Z.eqb negb mbind option_bind]. rewrite andb_false_r. cbn [mbind option_bind]. rewrite C3. cbn [Z.eqb negb mbind option_bind].
  unfold operation_finish. rewrite C1, C2. cbn [Z.eqb negb]. rewrite andb_false_r, C4. cbn [Z.eqb negb]. rewrite C5.
  rewrite bool_decide_eq_false_2 by done. by eexists.
Qed.

(** A log without entries: nothing is undone. *)
Lemma discarded_recovers ctx fuel push s1 : boot_ctx ctx b u -> log_discarded (vis s1) u -> fuel <> 0%nat ->
  exists ctx', recover_undo fuel push ctx (pop, s1) = Some (ctx', (pop, s1)).
Proof.
  intros [B1 B2 B3 B4 B5] D Hf.
  assert (exists c, operation_resume fuel ctx s1 = Some c /\ ctx_type c = LOG_TYPE_UNDO /\ total_logged c = 0 /\ log_offset (transient_ops c) = 0 /\
    ulog_any_user_buffer c = 0 /\ ctx_state c = OPERATION_IN_PROGRESS) as (c & Er & C1 & C2 & C3 & C4 & C5).
  { exists (set_total_logged 0 (operation_start ctx)). split; [|done]. unfold operation_resume. assert (ctx_ulog (operation_start ctx) = u) as -> by done.
    by rewrite (D fuel Hf). }
  destruct (nothing_logged c fuel push (Z.lor ULOG_INC_FIRST_GEN_NUM ULOG_FREE_AFTER_FIRST) pop s1 C1 C2 C3 C4 C5) as (c' & E).
  exists c'. unfold recover_undo. cbn [fst snd]. rewrite Er. exact E.
Qed.

(** The new generation number: nothing of the log is left. *)
Lemma new_recovers img m : agree img (write_bytes (vis s) g new_gen) u (undo_region u C) ->
  (forall x, in_pool x -> ~ in_log u C x -> ~ vol x -> img x = m x) -> recovers_pool img m.
Proof.
  intros Hag Hr ctx fuel push Hb Hf. destruct layout_facts as (F1 & F2 & F3 & F4 & F5 & F6 & F7 & F8 & F9 & F10).
  pose proof (im_log _ _ _ _ _ _ _ _ HI) as HU.
  (* the image with the old generation number *)
  set (img0 := write_bytes img g (read_bytes (vis s) g 8)).
  assert (agree img0 (vis s) u (undo_region u C)) as Hag0.
  { intros x Hx. unfold img0. destruct (decide (g <= x < g + 8)) as [Hg|Hg].
    - replace x with (g + (x - g)) by lia. rewrite write_bytes_in by (rewrite length_read_bytes; lia). apply nth_lookup_Some.
      rewrite lookup_read_bytes by lia. f_equal. f_equal. lia.
    - rewrite write_bytes_out by (rewrite length_read_bytes; lia). rewrite Hag by done. apply write_bytes_out. unfold new_gen. rewrite length_le64. lia. }
  assert (load64 img0 g = load64 (vis s) g) as Hg0.
  { apply (load64_agree _ _ u 64); [|lia..]. intros x Hx. apply Hag0. unfold undo_region, SIZEOF_ULOG_HDR. lia. }
  assert (write_bytes img0 g new_gen ≡ img) as Hnew.
  { intros x. destruct (decide (g <= x < g + 8)) as [Hg|Hg].
    - rewrite Hag by (unfold undo_region, SIZEOF_ULOG_HDR; lia). replace x with (g + (x - g)) by lia.
      by rewrite !write_bytes_in by (unfold new_gen; rewrite length_le64; lia).
    - rewrite write_bytes_out by (unfold new_gen; rewrite length_le64; lia). apply write_bytes_out. rewrite length_read_bytes. lia. }
  destruct (finish_effect u C L (PMst img0 [] false) (ulog_inc_gen_num u None (PMst img0 [] false)) None) as [D _]; [by apply (undo_at_agree _ _ _ _ _ HU)|by right|].
  assert (log_discarded img u) as Dimg.
  { intros fu Hfu. rewrite <- (D fu Hfu). rewrite inc_gen_vis. cbn [vis]. fold g. rewrite Hg0. by apply base_nbytes_proper. }
  destruct (discarded_recovers ctx fuel push (PMst img [] false) Hb Dimg ltac:(lia)) as (ctx' & E).
  exists ctx', (PMst img [] false). by split.
Qed.
(** What the pool's words hold. *)
Lemma quiet_vis evs w : quiet evs -> w mod 8 = 0 -> b <= w < b + heap_offset pop + heap_size pop -> agree (replay m0 (trace s ++ evs)) (vis s) w 8.
Proof.
  intros Hq Hw Hr x Hx. rewrite replay_app. transitivity (replay m0 (trace s) x); [|symmetry; apply (im_wf _ _ _ _ _ _ _ _ HI)].
  apply (replay_avoids _ evs w 8); [by apply quiet_avoids|lia].
Qed.

Lemma quiet_crash_log evs img x : quiet evs -> crash_image m0 (trace s ++ evs) img -> in_log u C x -> img x = vis s x.
Proof.
  intros Hq Hc Hx. destruct (word_in_log x Hx) as (W1 & W2 & W3). destruct layout_facts as (F1 & F2 & F3 & F4 & F5 & F6 & F7 & _).
  destruct (quiet_log evs (word_of x) Hq W1 W2) as [_ Hs]. rewrite (settled_crash _ _ _ _ Hs Hc W1 x) by lia.
  apply (quiet_vis evs (word_of x)); [done|done| |lia]. unfold undo_region, SIZEOF_ULOG_HDR in *. lia.
Qed.

(** Before the generation number is stored. *)
Lemma crash_before evs img : quiet evs -> crash_image m0 (trace s ++ evs) img -> recovers_pool img m0.
Proof.
  intros Hq Hc. apply old_recovers.
  - intros x Hx. by apply (quiet_crash_log evs).
  - intros x Hp Hx Hs Hv. apply (untouched_crash m0 (trace s ++ evs)); [by apply quiet_rest|done].
Qed.

Definition ranges_drained : list pevent := range_flushes b l ++ [EvDrain].

Lemma drained_quiet q : quiet q -> quiet (ranges_drained ++ q).
Proof.
  intros Hq. apply Forall_app. split; [|done]. apply Forall_app. split; [|by repeat constructor]. eapply Forall_impl; [apply range_flushes_flush|]. by intros [].
Qed.

(** The flushed ranges are on media. *)
Lemma snapped_on_media q x : quiet q -> snapped b L x -> on_media m0 (trace s ++ ranges_drained ++ q) (word_of x) /\
  word_of x mod 8 = 0 /\ u + undo_region u C <= word_of x < b + heap_offset pop + heap_size pop.
Proof.
  intros Hq Hx. destruct (word_of_spec x) as [W1 W2]. destruct layout_facts as (F1 & F2 & F3 & F4 & F5 & F6 & F7 & _).
  pose proof HI as [_ _ _ I4 _ _ _].
  assert (b + heap_offset pop <= x < b + heap_offset pop + heap_size pop) as Hheap.
  { apply Exists_exists in Hx as (sn & Hsn & Hx). rewrite Forall_forall in I4. destruct (I4 sn Hsn) as [H1 H2]. unfold in_snap in Hx. lia. }
  assert (u + undo_region u C <= word_of x < b + heap_offset pop + heap_size pop) as Hw.
  { unfold undo_region, SIZEOF_ULOG_HDR. Z.to_euclidean_division_equations. lia. }
  split; [|done]. rewrite app_assoc. apply on_media_avoids; [|apply quiet_avoids; [done|done|unfold undo_region, SIZEOF_ULOG_HDR in *; lia]].
  unfold ranges_drained. rewrite app_assoc. apply on_media_drain. assert (covered l (x - b)) as Hc by (apply Hcov; by replace (b + (x - b)) with x by lia).
  apply Exists_exists in Hc as (r & Hr & [R1 R2]). destruct HP as [[P1 P2] [P3 P4] P5 (P6 & P7 & P8)].
  apply (flush_covers _ _ (OBJ_OFF_TO_PTR b (r_offset r)) (r_size r)); [apply range_flushes_flush|by apply list_elem_of_fmap; exists r|].
  rewrite Forall_forall in Hrok. destruct (Hrok r Hr) as (O1 & O2 & O3). unfold OBJ_OFF_TO_PTR. rewrite u64_small by lia.
  apply covers_byte. unfold r_end in R2. lia.
Qed.

(** From the store of the generation number on. *)
Section After.
Context (q1 q2 : list pevent) (img : mem).
Let evs := trace s ++ ranges_drained ++ q1.
Hypothesis (Hq1 : quiet q1).
Hypothesis (Hq2 : Forall (fun ev => match ev with EvStore _ _ => False | _ => True end) q2).
Hypothesis (Hc : crash_image m0 (evs ++ EvStore g new_gen :: q2) img).

Lemma q2_avoids w n : Forall (ev_avoids w n) q2.
Proof. eapply Forall_impl; [exact Hq2|]. by intros []. Qed.

Lemma after_avoids w : w mod 8 = 0 -> w <> g -> Forall (ev_avoids w 8) (EvStore g new_gen :: q2).
Proof.
  intros Hw Hne. destruct layout_facts as (_ & _ & _ & _ & _ & _ & _ & F8 & _). constructor; [|apply q2_avoids]. cbn [ev_avoids]. unfold new_gen. rewrite length_le64.
  Z.to_euclidean_division_equations. lia.
Qed.

Lemma after_word w : w mod 8 = 0 -> b <= w < b + heap_offset pop + heap_size pop -> on_media m0 evs w -> w <> g -> agree img (vis s) w 8.
Proof.
  intros Hw Hr Hm Hne. pose proof (on_media_avoids _ _ _ _ Hm (after_avoids w Hw Hne)) as [_ Hs]. intros x Hx.
  rewrite (settled_crash _ _ _ _ Hs Hc Hw x Hx). rewrite replay_app. rewrite (replay_avoids _ _ w 8 (after_avoids w Hw Hne)) by lia.
  apply (quiet_vis (ranges_drained ++ q1) w); [by apply drained_quiet|done|done|lia].
Qed.

Lemma after_data x : in_pool x -> ~ in_log u C x -> ~ vol x -> img x = vis s x /\ (~ snapped b L x -> img x = m0 x).
Proof.
  intros Hp Hx Hvl. assert (~ snapped b L x -> img x = m0 x /\ vis s x = m0 x) as Hr.
  { intros Hs. split; [|by apply (image_vis b u C pop m0 vol st L)]. apply (untouched_crash _ _ _ _) with (2 := Hc). apply Forall_app.
    split; [apply quiet_rest; try done; by apply drained_quiet|]. constructor; [|apply q2_avoids].
    destruct layout_facts as (F1 & F2 & F3 & F4 & F5 & F6 & F7 & F8 & F9 & F10). cbn [ev_avoids]. unfold new_gen. rewrite length_le64.
    unfold in_log, undo_region, SIZEOF_ULOG_HDR in Hx. lia. }
  split; [|intros Hs; by apply Hr]. destruct (decide (Exists (fun sn => b + sn_off sn <= x < b + sn_off sn + sn_len sn) L)) as [Hs|Hs].
  - destruct (snapped_on_media q1 x Hq1 Hs) as (M & W1 & W2). destruct (word_of_spec x) as [_ W3].
    destruct layout_facts as (F1 & F2 & F3 & F4 & F5 & F6 & F7 & F8 & F9 & F10). unfold undo_region, SIZEOF_ULOG_HDR in W2.
    apply (after_word (word_of x)); [done|lia|done|lia|lia].
  - by destruct (Hr Hs) as [-> ->].
Qed.

Lemma after_log w : w mod 8 = 0 -> u <= w < u + undo_region u C -> w <> g -> agree img (vis s) w 8.
Proof.
  intros Hw Hr Hne. destruct layout_facts as (F1 & F2 & F3 & F4 & F5 & F6 & F7 & _). unfold undo_region, SIZEOF_ULOG_HDR in Hr.
  apply after_word; [done|lia| |done]. apply (quiet_log (ranges_drained ++ q1)); [by apply drained_quiet|done|unfold undo_region, SIZEOF_ULOG_HDR; lia].
Qed.

(** The log around the word that decides. *)
Lemma after_whole_log m : agree img m g 8 -> (forall x, ~ g <= x < g + 8 -> m x = vis s x) -> agree img m u (undo_region u C).
Proof.
  intros Hg Hm x Hx. destruct (decide (g <= x < g + 8)) as [Hin|Hout]; [by apply Hg|]. rewrite (Hm x Hout).
  destruct (word_in_log x Hx) as (W1 & W2 & W3). destruct layout_facts as (_ & _ & _ & _ & _ & _ & _ & F8 & _).
  apply (after_log (word_of x)); [done|done| |lia]. intros E. lia.
Qed.

Lemma gen_on_media : on_media m0 evs g /\ agree (replay m0 evs) (vis s) g 8.
Proof.
  destruct layout_facts as (F1 & F2 & F3 & F4 & F5 & F6 & F7 & F8 & F9 & F10). split.
  - apply (quiet_log (ranges_drained ++ q1)); [by apply drained_quiet|done|unfold undo_region, SIZEOF_ULOG_HDR; lia].
  - apply (quiet_vis (ranges_drained ++ q1)); [by apply drained_quiet|done|lia].
Qed.

Lemma new_gen_recovers : agree img (write_bytes (vis s) g new_gen) g 8 -> recovers_pool img (vis s).
Proof.
  intros Hg. apply new_recovers.
  - apply after_whole_log; [done|]. intros x Hx. apply write_bytes_out. unfold new_gen. rewrite length_le64. lia.
  - intros x Hp Hx Hv. by apply after_data.
Qed.

Lemma crash_after : recovers_pool img m0 \/ recovers_pool img (vis s).
Proof.
  destruct layout_facts as (F1 & F2 & F3 & F4 & F5 & F6 & F7 & F8 & F9 & F10). destruct gen_on_media as [M Hv].
  destruct (word_one_store m0 evs g new_gen q2 img M eq_refl (q2_avoids g 8) F8 Hc) as [Ho|Hn].
  - left. apply old_recovers; [|intros x Hp Hx Hs Hvl; by apply after_data].
    apply after_whole_log; [|done]. intros x Hx. rewrite Ho by done. by apply Hv.
  - right. apply new_gen_recovers. intros x Hx. rewrite Hn by done. apply write_bytes_ext, Hv, Hx.
Qed.
End After.

(** Once the store is flushed and drained. *)
Lemma crash_done q1 img : quiet q1 ->
  crash_image m0 ((trace s ++ ranges_drained ++ q1) ++ [EvStore g new_gen; EvFlush g 8; EvDrain]) img -> recovers_pool img (vis s).
Proof.
  intros Hq1 Hc. destruct layout_facts as (F1 & F2 & F3 & F4 & F5 & F6 & F7 & F8 & F9 & F10).
  destruct (gen_on_media q1 Hq1) as [M Hv]. apply (new_gen_recovers q1 [EvFlush g 8; EvDrain] img Hq1 ltac:(by repeat constructor) Hc).
  change [EvStore g new_gen; EvFlush g 8; EvDrain] with ([EvStore g new_gen; EvFlush g 8] ++ EvDrain :: []) in Hc. rewrite app_assoc in Hc.
  intros x Hx. rewrite (crash_persisted _ _ _ _ g Hc F8) by (try done; rewrite pending_app; cbn [foldl pending_step]; by rewrite (covers_word g 8 g) by lia).
  rewrite replay_app. cbn [foldl apply_ev replay]. apply write_bytes_ext, Hv, Hx.
Qed.
End Crash.
