(* ===== verification/TxCommitSpec.v ===== *)
(** * pmemobj_tx_commit

    The run of a commit through palloc.c and memops.c, and what a power failure
    leaves of it. *)
From stdpp Require Import base numbers list list_numbers gmap relations.
From Stdlib Require Import ZArith Lia Bool.
From S2P Require Import Prelude Pmem Settled Checksum Ulog UlogFacts UlogRedo UlogEntries UndoLog Vecq Ravl RavlFacts RavlOps RavlSpec Memops MemopsLog MemopsProcess.
From S2P Require Import UndoAdd Container HeapLayout Memblock Lane Tx TxRanges TxLoop TxSpec TxUndo TxAbort TxRollback Palloc TxCommit.

(** ** An operation with one entry *)

(** What an operation needs besides its log. *)
Definition single_op (c : operation_context) : Prop :=
  log_offset (transient_ops c) = 0 /\ ulog_any_user_buffer c = 0 /\ ctx_state c = OPERATION_IN_PROGRESS.

Lemma add_first ra ok c v pop s : ctx_idle c -> vent_ok v -> vent_aligned v -> OBJ_OFF_IS_VALID pop (ve_off v) = true ->
  let a := ulog_data (log_ulog (pshadow_ops c)) in
  exists c', operation_add_entry ra ok (operation_start c) (base (ctx_p_ops c) + ve_off v) (ve_val v) (op_type (ve_op v)) (pop, s) =
      (0, c', (pop, st_store a (enc_vent v ++ le64 0) s)) /\
    plog_ok c' (st_store a (enc_vent v ++ le64 0) s) [v] /\ single_op c' /\ ctx_type c' = ctx_type c /\ ctx_p_ops c' = ctx_p_ops c.
Proof.
  intros Hc Hv Hal Hval a. destruct (start_ok c s Hc) as [HP Hun]. pose proof HP as [H1 _ _ H4 _ _ H7 H8 H9 (k & n & Hkn & Hq) H11].
  assert (k = 0 /\ n = 0)%nat as [-> ->] by (cbn in Hkn; lia). pose proof Hc as [K1 K2 K3].
  unfold operation_add_entry. cbn [fst snd]. change (ctx_p_ops (operation_start c)) with (ctx_p_ops c).
  replace (base (ctx_p_ops c) + ve_off v - base (ctx_p_ops c)) with (ve_off v) by lia.
  rewrite (u64_small (ve_off v)), Hval by (destruct Hv; lia).
  unfold operation_add_typed_entry. cbn [oplog_of].
  assert (log_offset (pshadow_ops (operation_start c)) = 0 /\ log_capacity (pshadow_ops (operation_start c)) = 1024) as [-> ->] by (by split).
  change (u64 (0 + CACHELINE_SIZE) =? 1024) with false. cbn [Z.eqb negb].
  unfold operation_try_merge_entry. destruct (foreach_unwrapped (merge_entries (operation_start c)) H8) as [_ ->]; [rewrite H9; apply Zmod_0_l|].
  rewrite Hq. cbn [entry_addrs seq map rev try_merge_loop Z.eqb negb].
  change (ctx_s_ops (operation_start c)) with (ctx_s_ops c). change (log_ulog (pshadow_ops (operation_start c))) with (log_ulog (pshadow_ops c)).
  assert (ulog_entry_val_create (log_ulog (pshadow_ops c)) (log_offset (pshadow_ops (operation_start c))) (base (ctx_p_ops c) + ve_off v) (ve_val v) (op_type (ve_op v)) (ctx_s_ops c) s =
    (a, st_store a (enc_vent v ++ le64 0) s)) as ->.
  { change (log_offset (pshadow_ops (operation_start c))) with 0. rewrite K3. unfold ulog_entry_val_create, pmemops_memcpy_from, operation_transient_memcpy. cbn [table base]. fold a. rewrite Z.add_0_r. do 2 f_equal.
    unfold entry_offset_word, enc_vent, vent_word. cbn [base]. replace (base (ctx_p_ops c) + ve_off v - base (ctx_p_ops c)) with (ve_off v) by lia.
    rewrite u64_small by (destruct Hv; lia). by rewrite <- app_assoc. }
  destruct (append_ok ok (operation_start c) s [] v a (st_store a (enc_vent v ++ le64 0) s) HP Hun) as [A1 A2]; try done.
  { cbn. rewrite K1. done. } { cbn. unfold a. lia. }
  cbv beta iota. change (log_ulog (pshadow_ops c)) with (log_ulog (pshadow_ops (operation_start c))) at 1. rewrite (vent_size _ _ v) by (apply (written_vent (vis s) a v Hv)).
  exists (appended ok a (operation_start c)). split; [unfold appended; reflexivity|]. cbn [app] in A1. split; [exact A1|]. by repeat split.
Qed.

Lemma finish_redo c fuel push ws : ctx_type c = LOG_TYPE_REDO -> single_op c -> operation_finish fuel push c 0 ws = Some (set_state OPERATION_IDLE c, ws).
Proof.
  intros H1 (H2 & H3 & H4). unfold operation_finish. rewrite (bool_decide_eq_false_2 (ctx_type c = LOG_TYPE_UNDO)) by (by rewrite H1).
  cbn [andb]. rewrite H3. cbn [Z.eqb negb]. rewrite H4. by rewrite bool_decide_eq_false_2 by done.
Qed.

Lemma process_nothing c fuel s : ctx_type c = LOG_TYPE_REDO -> single_op c -> log_offset (pshadow_ops c) = 0 -> operation_process fuel c s = Some (c, s).
Proof.
  intros H1 (H2 & _ & _) H4. unfold operation_process. rewrite H1, H4. cbn [Z.eqb negb]. rewrite andb_false_r. cbn [andb].
  rewrite (bool_decide_eq_false_2 (LOG_TYPE_REDO = LOG_TYPE_UNDO)) by done. cbn [andb mbind option_bind]. by rewrite H2.
Qed.

(** The external context of a lane between operations. *)
Record ext_ready (b : Z) (ext : operation_context) : Prop := ExtReady {
  er_idle : ctx_idle ext;
  er_type : ctx_type ext = LOG_TYPE_REDO;
  er_table : table (ctx_p_ops ext) = OPS_POOL;
  er_base : base (ctx_p_ops ext) = b
}.

Lemma single_start c : single_op (operation_start c).
Proof. by repeat split. Qed.

Lemma ext_init b ext : ext_ready b ext -> ext_ready b (operation_init ext).
Proof.
  intros [[E1 E2 E3] E4 E5 E6]. constructor; try done. constructor; try done. by apply vecq_clear_spec.
Qed.

(** ** Publishing *)

Section Publish.
Context {R : Type} (hf : heap_fns R) (heap : palloc_heap) (qsort : list pobj_action -> list pobj_action).
Context (fuel : nat) (push : nat -> bool) (al : nat -> (Z * bool) * (Z * bool)).
Context (b : Z) (pop : PMEMobjpool) (ext : operation_context) (rt : palloc_rt R).
Hypothesis (Hheap : table (heap_ops heap) = OPS_POOL).
Hypothesis (Hsort : forall l, Permutation (qsort l) l).
Hypothesis (Hb8 : b mod 8 = 0).
Hypothesis (Hext : ext_ready b ext).

Lemma publish_none s : exists c', palloc_exec_actions hf heap qsort fuel push al (operation_start ext) [] (pop, s) rt =
  Some ([], c', (pop, st_drain s), rt).
Proof.
  assert (ctx_type (operation_start ext) = LOG_TYPE_REDO) as Ht by apply Hext. pose proof (single_start ext) as Hs.
  assert (log_offset (pshadow_ops (operation_start ext)) = 0) as Ho by done. revert Ht Hs Ho. generalize (operation_start ext) as c. intros c Ht Hs Ho.
  unfold palloc_exec_actions. assert (qsort [] = []) as -> by (by apply Permutation_nil_r, Hsort).
  cbn [exec_all]. cbn [fst snd]. unfold pmemops_drain. rewrite Hheap. unfold obj_norep_drain, pmem_drain.
  rewrite (process_nothing c) by done. cbn [mbind option_bind process_all for_actions]. rewrite (finish_redo c) by done. by eexists.
Qed.

Lemma publish_one g val s : 0 < g - b < 2 ^ 61 -> (g - b) mod 8 = 0 -> 0 <= val < 2 ^ 64 -> OBJ_OFF_IS_VALID pop (g - b) = true ->
  let a := ulog_data (log_ulog (pshadow_ops ext)) in
  let e := enc_vent (VEnt (g - b) OpSet val) ++ le64 0 in
  exists c', palloc_exec_actions hf heap qsort fuel push al (operation_start ext) [ActMem g val] (pop, s) rt =
    Some ([], c', (pop, PMst (write_bytes (write_bytes (vis s) a e) g (le64 val))
      (trace s ++ [EvStore a e; EvDrain] ++ [EvStore g (le64 val); EvFlush g 8; EvDrain]) (fault s)), rt).
Proof.
  intros Hg Hg8 Hv Hval a e. destruct Hext as [E1 E2 E3 E4]. set (v := VEnt (g - b) OpSet val).
  assert (vent_ok v) as Hvok by (split; cbn -[Z.pow]; lia). assert (vent_aligned v) as Hva by done.
  unfold palloc_exec_actions. assert (qsort [ActMem g val] = [ActMem g val]) as -> by (by apply Permutation_singleton_r, Hsort).
  cbn [exec_all action_exec act_lock Z.eqb orb]. rewrite orb_true_r. unfold palloc_mem_action_exec.
  destruct (add_first (al 0%nat).1.1 (al 0%nat).1.2 ext v pop s E1 Hvok Hva Hval) as (c' & Ea & Hp & Hs & Hty & Hops). fold a e in Ea, Hp. fold v in e.
  rewrite E4 in Ea. cbn [ve_off ve_val ve_op op_type v] in Ea. replace (b + (g - b)) with g in Ea by lia. rewrite Ea. cbn [fst snd app].
  unfold pmemops_drain. rewrite Hheap. unfold obj_norep_drain, pmem_drain.
  set (s1 := st_drain (st_store a e s)).
  assert (plog_ok c' s1 [v]) as Hp1 by (destruct Hp; by constructor).
  assert (redo_ctx c') as Hr by (constructor; [by rewrite Hty|by rewrite Hops|by rewrite Hops, E4|apply Hs]).
  destruct (process_single_run fuel c' s1 v Hr Hp1) as [_ Erun]. rewrite Hops, E4 in Erun. cbn [ve_off ve_val ve_op op_fun v] in Erun.
  replace (b + (g - b)) with g in Erun by lia. change (st_drain (st_store a (enc_vent v ++ le64 0) s)) with s1. rewrite Erun. cbn [mbind option_bind process_all action_on_process act_lock Z.eqb orb for_actions action_on_unlock].
  rewrite orb_true_r. rewrite finish_redo by (by rewrite ?Hty). eexists. cbn [mbind option_bind app]. do 4 f_equal.
  unfold s1, st_drain, st_store. cbn [vis trace fault]. by rewrite <- !app_assoc.
Qed.
End Publish.

(** The end of the undo log's operation in a commit: its single log is left to
    the new generation number. *)
Lemma finish_commit ctx fuel push (w : PMEMobjpool) s : plain_undo ctx -> exists ctx', operation_finish fuel push ctx 0 (w, s) = Some (ctx', (w, s)).
Proof.
  intros (T1 & T2 & T3 & _). unfold operation_finish. rewrite (bool_decide_eq_true_2 (ctx_type ctx = LOG_TYPE_UNDO)) by done. cbn [andb].
  assert (forall c, ctx_type c = LOG_TYPE_UNDO -> ctx_next c = [] ->
    match ctx_type c with
    | LOG_TYPE_UNDO => ulog_clobber_data fuel (ctx_ulog c) (total_logged c) (ctx_ulog_base_nbytes c) (ctx_next c) (ctx_ulog_free c)
                         (operation_user_buffer_remove fuel) push (ctx_p_ops c) 0 (w, s)
    | LOG_TYPE_REDO => ulog_free_next fuel (ctx_ulog c) (ctx_p_ops c) (ctx_ulog_free c) (operation_user_buffer_remove fuel) push 0 (w, s)
    end = Some (0, (w, s))) as Hc by (by intros c -> ->).
  set (c := if negb (total_logged ctx =? 0) then set_state OPERATION_CLEANUP ctx else ctx).
  assert (ctx_type c = LOG_TYPE_UNDO /\ ctx_next c = [] /\ ulog_any_user_buffer c = 0) as (C1 & C2 & C3) by (unfold c; by destruct (negb _)).
  rewrite C3. cbn [Z.eqb negb]. destruct (bool_decide (ctx_state c = OPERATION_CLEANUP)); cbn [negb]; [|by eexists].
  rewrite (Hc c C1 C2). cbn [mbind option_bind Z.eqb]. by eexists.
Qed.

Section Commit.
Context {R : Type} (hf : heap_fns R) (heap : palloc_heap) (alloc_pattern : Z) (gaps : list byte * list byte * list byte)
  (qsort : list pobj_action -> list pobj_action) (fuel : nat) (push : nat -> bool) (al : nat -> (Z * bool) * (Z * bool)).
Context (env : tx_env) (p_ops : pmem_ops) (b u C : Z) (pop : PMEMobjpool) (m0 : mem) (LK : list Z).
Let palloc := tx_palloc hf heap alloc_pattern gaps qsort fuel push al.
Let g := ulog_gen_num_addr u.

Hypothesis (HP : pool_layout b u C pop).
Hypothesis (HLK : locks_in_heap b pop LK).
Hypothesis (Hheap : table (heap_ops heap) = OPS_POOL).
Hypothesis (Hops : table p_ops = OPS_POOL).
Hypothesis (Hsort : forall l, Permutation (qsort l) l).
Hypothesis (Hb8 : b mod 8 = 0).
Hypothesis (Hgen : OBJ_OFF_IS_VALID pop (g - b) = true).

(** The state after the commit: what was stored at the end, and the transaction. *)
Record committed (st st' : tx_state (palloc_rt R)) (evs : list pevent) : Prop := Committed {
  cm_trace : trace (st_ws st').2 = trace (st_ws st).2 ++ evs;
  cm_memory x : in_pool b pop x -> ~ in_log u C x -> vis (st_ws st').2 x = vis (st_ws st).2 x;
  cm_stage : stage (st_tx st') = TX_STAGE_ONCOMMIT;
  cm_lane : tx_lane (st_tx st') = false /\ ranges (st_tx st') = None
}.

(** The memory that is published, after the ranges were flushed and drained. *)
Lemma publish_run st L l s1 : tx_inv b u C pop m0 LK st L l -> ext_ready b (lane_external (st_lane st)) -> vis s1 = vis (st_ws st).2 ->
  let sl := ulog_data (log_ulog (pshadow_ops (lane_external (st_lane st)))) in
  shadow_apart b pop sl ->
  exists c' s2 evs, palloc_publish palloc (actions (st_tx st)) (operation_start (lane_external (st_lane st))) (pop, s1) (st_heap st) =
      Some (c', (pop, s2), st_heap st) /\ trace s2 = trace s1 ++ evs /\
    (forall x, in_pool b pop x -> ~ in_log u C x -> vis s2 x = vis s1 x) /\
    (evs = [EvDrain] /\ L = [] \/
     exists e, length e = 24%nat /\ evs = [EvStore sl e; EvDrain] ++
       [EvStore g (le64 (u64 (load64 (vis (st_ws st).2) g + 1))); EvFlush g 8; EvDrain]).
Proof.
  intros HI Hext Hv sl Hsl. pose proof HI as [G _ _ _ _ _ _ _]. pose proof G as [G1 G2 G3 G4 G5 G6 G7 [G8 G9]].
  destruct HP as [[P1 P2] [P3 P4] P5 (P6 & P7 & P8)]. unfold palloc, tx_palloc. cbn [palloc_publish].
  destruct (first_snapshot (st_tx st)).
  - destruct G9 as [-> ->]. destruct (publish_none hf heap qsort fuel push al b pop (lane_external (st_lane st)) (st_heap st) Hheap Hsort Hext s1) as (c' & ->).
    exists c', (st_drain s1), [EvDrain]. split; [done|]. split; [done|]. split; [done|]. by left.
  - rewrite G9. fold g. unfold undo_region, SIZEOF_ULOG_HDR in *.
    assert (u <= g /\ g + 8 <= u + 64 /\ (g - b) mod 8 = 0) as (Hg1 & Hg2 & Hg3).
    { unfold g, ulog_gen_num_addr. split; [lia|]. split; [lia|]. Z.to_euclidean_division_equations. lia. }
    pose proof (u64_range (load64 (vis (st_ws st).2) g + 1)) as Hr. set (val := u64 (load64 (vis (st_ws st).2) g + 1)) in *.
    destruct (publish_one hf heap qsort fuel push al b pop (lane_external (st_lane st)) (st_heap st) Hheap Hsort Hb8 Hext g val s1) as (c' & E); [|done|done|done|].
    { unfold g, ulog_gen_num_addr in *. lia. }
    set (e := enc_vent _ ++ _) in E. rewrite E. cbn [mbind option_bind]. eexists c', _, _. split; [reflexivity|]. split; [reflexivity|]. cbn [vis]. split.
    + intros x Hx Hl. unfold in_log, undo_region, SIZEOF_ULOG_HDR in Hl. destruct Hsl as [S1 S2]. unfold in_pool in Hx.
      rewrite write_bytes_out by (rewrite length_le64; lia). apply write_bytes_out. fold sl. unfold e. rewrite length_app, length_le64.
      unfold enc_vent. rewrite length_app, !length_le64. lia.
    + right. exists e. split; [|done]. unfold e. rewrite length_app, length_le64. unfold enc_vent. by rewrite length_app, !length_le64.
Qed.

Lemma callback_run (st : tx_state (palloc_rt R)) jmp : tx_entries (st_tx st) = [jmp] ->
  exists evs, obj_tx_callback st = Some (Ret tt, TxState (st_tx st) (st_lane st) (st_ws st) (st_heap st) evs).
Proof.
  intros E. destruct st as [t la ws h ev]. unfold obj_tx_callback, bind, get_tx, emit, ret. cbn [st_tx] in *. rewrite E.
  destruct (stage_callback _ =? 0); by eexists.
Qed.

Lemma outermost_run st L l : tx_inv b u C pop m0 LK st L l -> ext_ready b (lane_external (st_lane st)) ->
  Forall (fun r => flag_isset (r_flags r) POBJ_FLAG_NO_FLUSH = false) l ->
  (forall T, ranges (st_tx st) = Some T -> (stdpp.base.size (nodes T) < e_fuel env)%nat) ->
  let sl := ulog_data (log_ulog (pshadow_ops (lane_external (st_lane st)))) in
  shadow_apart b pop sl ->
  exists lane' s' events evs, commit_outermost palloc env p_ops st =
      Some (Ret tt, TxState (set_lane false (set_ranges None (st_tx st))) lane' (pop, s') (st_heap st) events) /\
    trace s' = trace (st_ws st).2 ++ ranges_drained b l ++ evs /\
    (forall x, in_pool b pop x -> ~ in_log u C x -> vis s' x = vis (st_ws st).2 x) /\
    (evs = [EvDrain] /\ L = [] \/
     exists e, length e = 24%nat /\ evs = [EvStore sl e; EvDrain] ++
       [EvStore g (le64 (u64 (load64 (vis (st_ws st).2) g + 1))); EvFlush g 8; EvDrain]).
Proof.
  intros HI Hext Hfl HfT sl Hsl. pose proof HI as [G T1 T2 T3 T4 T5 _ _]. pose proof G as [G1 G2 G3 G4 G5 G6 G7 [G8 G9]].
  destruct (ranges (st_tx st)) as [T|] eqn:ET; [|done]. destruct (clear_ok cmp T l (e_fuel env) (T1 T eq_refl) (HfT T eq_refl)) as [_ Ed].
  pose proof (im_world _ _ _ _ _ _ _ _ G1) as Hw.
  set (s1 := st_drain (PMst (vis (st_ws st).2) (trace (st_ws st).2 ++ range_flushes b l) (fault (st_ws st).2))).
  destruct (publish_run st L l s1 HI Hext eq_refl Hsl) as (c' & s2 & evs & Ep & Et & Ev & Hevs).
  assert (plain_undo (lane_undo (st_lane st))) as Hpl by apply G5.
  destruct (finish_commit (lane_undo (st_lane st)) (e_fuel env) (e_push env) pop s2 Hpl) as (c2 & Ef).
  destruct st as [t la [pp s] h ev]. cbn [st_tx st_lane st_ws st_heap st_events fst snd] in *. subst pp.
  eexists _, s2, _, evs. split; [|split; [|split; [done|exact Hevs]]].
  - unfold commit_outermost, tx_pre_commit. unfold bind, get_tx, lift, on_mem, modify, run_external, publish_actions, tx_post_commit, run_undo, tx_lane_release, emit.
    cbn [st_tx st_lane st_ws st_heap st_events fst snd]. rewrite ET. cbn [mbind option_bind]. rewrite Ed. cbn [mbind option_bind].
    rewrite G3, (flush_ranges p_ops b l _ Hops Hfl). cbn [st_tx st_lane st_ws st_heap st_events fst snd tx_lane set_ranges]. rewrite G2. cbn [negb mbind option_bind].
    unfold pmemops_drain. rewrite Hops. unfold obj_norep_drain, pmem_drain. fold s1.
    cbn [st_tx st_lane st_ws st_heap st_events fst snd tx_lane set_ranges redo_userbufs lane_external lane_layout lane_internal lane_undo actions]. rewrite G2, G8. cbn [negb add_userbufs mbind option_bind].
    cbn [st_tx st_lane st_ws st_heap st_events fst snd tx_lane set_ranges redo_userbufs lane_external lane_layout lane_internal lane_undo actions]. rewrite G2. cbn [negb]. rewrite Ep. cbn [mbind option_bind].
    cbn [st_tx st_lane st_ws st_heap st_events fst snd tx_lane set_ranges redo_userbufs lane_external lane_layout lane_internal lane_undo actions]. rewrite G2. cbn [negb]. rewrite Ef. cbn [mbind option_bind]. reflexivity.
  - rewrite Et. unfold s1, st_drain, ranges_drained. cbn [trace]. by rewrite <- !app_assoc.
Qed.

Lemma commit_run st L l : tx_inv b u C pop m0 LK st L l -> ext_ready b (lane_external (st_lane st)) ->
  Forall (fun r => flag_isset (r_flags r) POBJ_FLAG_NO_FLUSH = false) l ->
  (forall T, ranges (st_tx st) = Some T -> (stdpp.base.size (nodes T) < e_fuel env)%nat) ->
  let sl := ulog_data (log_ulog (pshadow_ops (lane_external (st_lane st)))) in
  shadow_apart b pop sl ->
  exists st' evs, pmemobj_tx_commit palloc env p_ops st = Some (Ret tt, st') /\ committed st st' (ranges_drained b l ++ evs) /\
    (evs = [EvDrain] /\ L = [] \/
     exists e, length e = 24%nat /\ evs = [EvStore sl e; EvDrain] ++
       [EvStore g (le64 (u64 (load64 (vis (st_ws st).2) g + 1))); EvFlush g 8; EvDrain]).
Proof.
  intros HI Hext Hfl HfT sl Hsl. pose proof HI as [G T1 T2 T3 T4 T5 (jmp & T6) T7]. pose proof G as [G1 G2 G3 G4 G5 G6 G7 [G8 G9]].
  unfold pmemobj_tx_commit, ASSERT_TX_STAGE_WORK. unfold bind at 1. unfold bind at 1. unfold get_tx at 1. rewrite T5.
  destruct (decide (TX_STAGE_WORK = TX_STAGE_WORK)); [|done]. unfold ret at 1.
  destruct (callback_run st jmp T6) as (ev1 & Ecb). unfold bind at 1. rewrite Ecb. set (st1 := TxState _ _ _ _ ev1).
  assert (tx_inv b u C pop m0 LK st1 L l) as HI1.
  { constructor; try done; [|by exists jmp]. destruct G1 as [I1 I2 I3 I4 I5 I6 I7]. constructor; try done. }
  destruct (outermost_run st1 L l HI1 Hext Hfl HfT Hsl) as (la' & s' & events & evs & Eo & Et & Ev & Hevs).
  unfold bind at 1. unfold bind at 1. unfold get_tx at 1. cbn [st_tx st1]. rewrite T6. rewrite Eo.
  unfold bind at 1. unfold modify at 1. cbn [st_tx st_lane st_ws st_heap st_events].
  match goal with |- context [obj_tx_callback ?x] => destruct (callback_run x jmp T6) as (ev2 & ->) end.
  eexists _, evs. split; [reflexivity|]. split; [|exact Hevs]. constructor; done.
Qed.

(** The pool after a power failure: the state before the transaction, or with
    all of it. *)
Definition atomic_image (st : tx_state (palloc_rt R)) (img : mem) : Prop :=
  recovers_pool b u C pop (lock_byte LK) img m0 \/ recovers_pool b u C pop (lock_byte LK) img (vis (st_ws st).2).

Lemma commit_images st L l sl evs : image b u C pop m0 (lock_byte LK) st L -> (forall x, covered l x <-> snapped b L (b + x)) -> Forall range_ok l -> shadow_apart b pop sl ->
  (evs = [EvDrain] /\ L = [] \/
     exists e, length e = 24%nat /\ evs = [EvStore sl e; EvDrain] ++
       [EvStore g (le64 (u64 (load64 (vis (st_ws st).2) g + 1))); EvFlush g 8; EvDrain]) ->
  (forall n img, crash_image m0 (trace (st_ws st).2 ++ take n (ranges_drained b l ++ evs)) img -> atomic_image st img) /\
  (forall img, crash_image m0 (trace (st_ws st).2 ++ ranges_drained b l ++ evs) img -> recovers_pool b u C pop (lock_byte LK) img (vis (st_ws st).2)).
Proof.
  intros Him Hcov Hrok Hsl Hevs.
  assert (forall p img, quiet sl p -> crash_image m0 (trace (st_ws st).2 ++ p) img -> recovers_pool b u C pop (lock_byte LK) img m0) as Hbefore.
  { intros p img Hp Hc. by apply (crash_before b u C pop m0 (lock_byte LK) st L sl HP Him Hsl p img). }
  destruct Hevs as [[-> ->]|(e & He & ->)].
  - assert (forall img, recovers_pool b u C pop (lock_byte LK) img m0 -> recovers_pool b u C pop (lock_byte LK) img (vis (st_ws st).2)) as Hsame.
    { intros img Hr ctx f ps Hb Hf. destruct (Hr ctx f ps Hb Hf) as (c' & s' & E1 & E2 & E3). exists c', s'. split; [done|]. split; [done|]. intros x Hx Hl Hv.
      rewrite (E3 x Hx Hl Hv). symmetry. apply (image_vis b u C pop m0 (lock_byte LK) st []); [done|done| |done]. by intros ?%Exists_nil. }
    assert (quiet sl (ranges_drained b l ++ [EvDrain])) as Hq by (apply drained_quiet; by repeat constructor).
    split; [intros n img Hc; left; by apply (Hbefore _ _ (Forall_take _ n _ Hq) Hc)|intros img Hc; apply Hsame; by apply (Hbefore _ _ Hq Hc)].
  - assert (quiet sl [EvStore sl e; EvDrain]) as Hq1 by (by repeat constructor).
    assert (quiet sl (ranges_drained b l ++ [EvStore sl e; EvDrain])) as Hq by (by apply drained_quiet).
    split; [intros n img Hc|intros img Hc].
    + rewrite app_assoc in Hc. destruct (decide (n <= length (ranges_drained b l ++ [EvStore sl e; EvDrain]))%nat) as [Hn|Hn].
      * rewrite take_app_le in Hc by done. left. by apply (Hbefore _ _ (Forall_take _ n _ Hq) Hc).
      * rewrite take_app_ge in Hc by lia. destruct (n - _)%nat as [|k] eqn:Ek; [lia|]. cbn [take] in Hc. rewrite app_assoc in Hc.
        apply (crash_after b u C pop m0 (lock_byte LK) st L l sl HP Him Hcov Hrok Hsl [EvStore sl e; EvDrain] _ img Hq1) in Hc; [exact Hc|].
        by apply Forall_take; repeat constructor.
    + rewrite !app_assoc in Hc. apply (crash_done b u C pop m0 (lock_byte LK) st L l sl HP Him Hcov Hrok Hsl [EvStore sl e; EvDrain] img Hq1). by rewrite app_assoc.
Qed.

(** C1. Commits are atomic and durable.  A thread begins a transaction without
    allocations, adds ranges to be snapshotted that fit the log of the lane, takes
    locks, stores to the memory it added, flushes and drains, in any order; then
    it commits.  pmemobj_tx_commit terminates, changes nothing of the pool outside
    of the undo log, and leaves the stage of a committed transaction.  If the
    power fails at any point of the commit, whatever is left on media, opening the
    pool gives all of its memory, outside of the lane's undo log and of the locks
    that the transaction tried to take, the content before the transaction, or the
    content at the call of pmemobj_tx_commit; after the return it is always the
    latter.  Assumed: the ranges are to be flushed, the shadow log of the lane is
    not in the pool, qsort permutes, the locks lie in the heap, and the operating
    system writes to the object of a lock only. *)
Theorem tx_commit_atomic {outer errno jmp st0 st1 st} : let ext := lane_external (st_lane st0) in
  idle_thread b u C pop m0 st0 -> pmemobj_tx_begin palloc env p_ops true true outer errno b jmp [] st0 = Some (Ret 0, st1) ->
  rtc (tx_step palloc p_ops b C LK) st1 st ->
  ext_ready b ext -> shadow_apart b pop (ulog_data (log_ulog (pshadow_ops ext))) ->
  (forall T l, ranges (st_tx st) = Some T -> ravl_ok cmp T l ->
    (stdpp.base.size (nodes T) < e_fuel env)%nat /\ Forall (fun r => flag_isset (r_flags r) POBJ_FLAG_NO_FLUSH = false) l) ->
  exists st' evs, pmemobj_tx_commit palloc env p_ops st = Some (Ret tt, st') /\ committed st st' evs /\
    (forall n img, crash_image m0 (trace (st_ws st).2 ++ take n evs) img -> atomic_image st img) /\
    (forall img, crash_image m0 (trace (st_ws st').2) img -> recovers_pool b u C pop (lock_byte LK) img (vis (st_ws st).2)).
Proof.
  intros ext H0 H1 H2 Hext Hsl Hfl. destruct (begin_inv palloc p_ops b u C pop m0 LK env outer errno jmp st0 H0) as (st1' & E & HI1 & Hx1). rewrite E in H1. injection H1 as <-.
  destruct (steps_keep palloc p_ops b u C pop m0 LK HP HLK st1' st [] [] HI1 H2) as ((L & l & HI) & Hx2).
  assert (ext_ready b (lane_external (st_lane st)) /\ log_ulog (pshadow_ops (lane_external (st_lane st))) = log_ulog (pshadow_ops ext)) as [Hext' Hul].
  { rewrite Hx2, Hx1. destruct outer; [split; [by apply ext_init|done]|done]. }
  destruct (ranges (st_tx st)) as [T|] eqn:ET; [|by destruct (ti_has_tree _ _ _ _ _ _ _ _ _ HI)].
  pose proof (ti_tree _ _ _ _ _ _ _ _ _ HI T ET) as Hok. destruct (Hfl T l eq_refl Hok) as [HfT Hnf].
  destruct (commit_run st L l HI Hext' Hnf) as (st' & evs & Ec & Hcm & Hevs); [by intros T' [= <-]%(eq_trans (eq_sym ET))|by rewrite Hul|].
  exists st', (ranges_drained b l ++ evs). split; [done|]. split; [done|]. rewrite (cm_trace _ _ _ Hcm). rewrite Hul in Hevs.
  pose proof (lg_image _ _ _ _ _ _ _ _ (ti_logging _ _ _ _ _ _ _ _ _ HI)) as Him. pose proof (proj1 (ti_separate _ _ _ _ _ _ _ _ _ HI)) as Hrok.
  pose proof (ti_covered _ _ _ _ _ _ _ _ _ HI) as Hcov. exact (commit_images st L l _ evs Him Hcov Hrok Hsl Hevs).
Qed.
End Commit.

(** ** An instance: the transaction of TxRollback over an empty heap *)

Lemma tx_commit_atomic_witness : let st := ex_last in
  exists st' evs, pmemobj_tx_commit ex_tx_palloc ex_env ex_ops st = Some (Ret tt, st') /\ committed 4096 13248 2048 ex_pool st st' evs /\
    (forall n img, crash_image ex_pool_mem (trace (st_ws st).2 ++ take n evs) img -> atomic_image 4096 13248 2048 ex_pool ex_pool_mem [20608] st img) /\
    (forall img, crash_image ex_pool_mem (trace (st_ws st').2) img -> recovers_pool 4096 13248 2048 ex_pool (lock_byte [20608]) img (vis (st_ws st).2)).
Proof.
  apply (tx_commit_atomic (outer := true) (errno := 0) (jmp := 7) (st0 := ex_st0 ex_rt) (st1 := ex_st1 ex_tx_palloc ex_rt) (st := ex_st3 ex_tx_palloc ex_rt) ex_heap_fns ex_heap (-1) ([], [], []) (fun l => l) 64 (fun _ => true) (fun _ => ((0, true), (0, true))) ex_env ex_ops 4096 13248 2048 ex_pool ex_pool_mem [20608]
    ex_layout ex_locks_in_heap eq_refl eq_refl (fun l => Permutation_refl l) eq_refl eq_refl (ex_idle ex_rt) (ex_begin_eq ex_tx_palloc ex_rt) (ex_steps ex_tx_palloc ex_rt)).
  - constructor; [|done..]. constructor; [done|by left|done].
  - split; [done|]. left. vm_compute. congruence.
  - intros T l HT Hok. assert (stdpp.base.size (nodes T) < 64)%nat as Hf by (revert HT; vm_compute; intros [= <-]; vm_compute; lia).
    split; [exact Hf|]. destruct (clear_ok cmp T l 64 Hok Hf) as [_ Ed]. clear Hok Hf.
    revert Ed. vm_compute in HT. injection HT as <-. vm_compute. intros [= <-]. by repeat constructor.
Defined.
