(* ===== verification/PallocLocks.v ===== *)
(** * The locks of a publication

    palloc_exec_actions takes the locks of its actions in one loop and releases
    them in another.  Threads that publish at the same time take turns in any
    order; they do not deadlock. *)
From stdpp Require Import base numbers list list_numbers gmap relations sorting.
From Stdlib Require Import ZArith Lia Bool.
From S2P Require Import Prelude Pmem Ulog Memops Container HeapLayout Memblock AllocClass Lane Tx Palloc MemopsLog MemblockOffset.

(** ** What the two loops lock and unlock *)

Fixpoint taken (prev : option Z) (locks : list Z) : list Z :=
  match locks with
  | [] => []
  | x :: l => (if bool_decide (prev = Some x) || (x =? 0) then [] else [x]) ++ taken (Some x) l
  end.

Fixpoint dropped (locks : list Z) : list Z :=
  match locks with
  | [] => []
  | x :: l => (if bool_decide (head l = Some x) || (x =? 0) then [] else [x]) ++ dropped l
  end.

(** A group of equal locks is taken at its first and released at its last. *)
Lemma dropped_taken x l : dropped (x :: l) = (if x =? 0 then [] else [x]) ++ taken (Some x) l.
Proof.
  revert x. induction l as [|y l IH]; intros x; [done|]. cbn [dropped head]. cbn [dropped] in IH. rewrite IH. cbn [taken].
  destruct (decide (x = y)) as [->|Hn]; [rewrite !bool_decide_eq_true_2 by done; done|].
  by rewrite !bool_decide_eq_false_2 by congruence.
Qed.

Lemma dropped_all l : dropped l = taken None l.
Proof. destruct l as [|x l]; [done|]. rewrite dropped_taken. cbn [taken]. by rewrite bool_decide_eq_false_2. Qed.

Definition above (prev : option Z) (x : Z) : Prop := match prev with Some p => p < x | None => True end.

Lemma taken_spec prev l : StronglySorted Z.le l -> (forall p, prev = Some p -> Forall (Z.le p) l) ->
  StronglySorted Z.lt (taken prev l) /\ (forall x, x ∈ taken prev l <-> x ∈ l /\ x <> 0 /\ above prev x).
Proof.
  revert prev. induction l as [|y l IH]; intros prev Hs Hp.
  { split; [constructor|]. intros x. cbn. split; [by intros ?%elem_of_nil|by intros [?%elem_of_nil _]]. }
  apply StronglySorted_cons in Hs as [Hy Hs]. destruct (IH (Some y) Hs) as [S E]; [by intros ? [= <-]|].
  assert (forall x, x ∈ taken (Some y) l -> y < x) as Hlt by (intros x Hx; by apply E in Hx as (_ & _ & ?)).
  assert (forall p, prev = Some p -> p <= y) as Hpy by (intros p Ep; by destruct (proj1 (Forall_cons _ _ _) (Hp p Ep))).
  assert (forall x, y < x -> above prev x) as Hab.
  { intros x Hx. destruct prev as [p|]; [|done]. specialize (Hpy p eq_refl). cbn. lia. }
  assert (forall x, x ∈ l -> x = y \/ y < x) as Hge by (intros x Hx; rewrite Forall_forall in Hy; specialize (Hy x Hx); lia).
  cbn [taken]. split.
  - destruct (_ || _); [done|]. apply StronglySorted_cons. split; [|done]. by apply Forall_forall.
  - intros x. rewrite elem_of_app, E, elem_of_cons. cbn [above]. destruct (bool_decide (prev = Some y)) eqn:Ep; cbn [orb].
    + apply bool_decide_eq_true in Ep as ->. cbn [above]. rewrite elem_of_nil.
      split; [intros [[]|(? & ? & ?)]; auto|intros ([->|?] & ? & ?); [lia|auto]].
    + apply bool_decide_eq_false in Ep. assert (above prev y) as Hay.
      { destruct prev as [p|]; [|done]. specialize (Hpy p eq_refl). cbn. assert (p <> y) by congruence. lia. }
      assert (x ∈ (if y =? 0 then [] else [y]) <-> x = y /\ x <> 0) as ->.
      { destruct (Z.eqb_spec y 0); rewrite ?list_elem_of_singleton, ?elem_of_nil; lia. }
      split; [intros [[-> ?]|(? & ? & ?)]; auto|]. intros ([->|Hx] & ? & ?); [auto|]. destruct (Hge x Hx) as [->|?]; auto.
Qed.

Section Publish.
Context {R : Type} (hf : heap_fns R) (heap : palloc_heap) (qsort : list pobj_action -> list pobj_action).

Lemma exec_all_locks al actv : forall i prev ctx ws, (exec_all heap al i prev actv ctx ws).1.1 = map MutexLock (taken prev (map act_lock actv)).
Proof.
  induction actv as [|a actv IH]; intros i prev ctx ws; [done|]. cbn [exec_all map taken]. destruct (action_exec _ _ _ _ _) as [c w].
  specialize (IH (S i) (Some (act_lock a)) c w). destruct (exec_all _ _ _ _ _ _ _) as [[ls c2] w2]. cbn [fst] in IH |- *. rewrite IH, map_app. by destruct (_ || _).
Qed.

Lemma process_all_locks actv : forall ws (rt : palloc_rt R) evs ws' rt', process_all hf heap actv ws rt = Some (evs, ws', rt') ->
  evs = map MutexUnlock (dropped (map act_lock actv)).
Proof.
  induction actv as [|a actv IH]; intros ws rt evs ws' rt' E; cbn [process_all] in E; [by simplify_eq|].
  apply bind_Some in E as ([w1 r1] & _ & E). apply bind_Some in E as ([[ls w2] r2] & E2 & E). injection E as <- <- <-.
  rewrite (IH _ _ _ _ _ E2). cbn [map dropped]. rewrite map_app.
  assert (head (map act_lock actv) = act_lock <$> head actv) as -> by (by destruct actv). by destruct (_ || _).
Qed.

(** The C library's qsort. *)
Definition sorts : Prop := forall l, Permutation (qsort l) l /\ StronglySorted (fun x y => palloc_action_compare x y <= 0) (qsort l).

Lemma sorted_locks l : StronglySorted (fun x y => palloc_action_compare x y <= 0) l -> StronglySorted Z.le (map act_lock l).
Proof.
  induction 1 as [|x l Hs IH Hx]; [constructor|]. cbn [map]. apply StronglySorted_cons. split; [|done]. apply Forall_fmap. eapply Forall_impl; [exact Hx|].
  intros y Hy. unfold palloc_action_compare in Hy. cbn. destruct (Z.ltb_spec (act_lock x) (act_lock y)); [lia|]. destruct (Z.ltb_spec (act_lock y) (act_lock x)); lia.
Qed.

(** The locks of a publication. *)
Definition publishes (evs : list lock_event) (ls : list Z) : Prop :=
  evs = map MutexLock ls ++ map MutexUnlock ls /\ StronglySorted Z.lt ls.

Lemma exec_actions_locks fuel push al ctx actv ws rt evs ctx' ws' rt' : sorts ->
  palloc_exec_actions hf heap qsort fuel push al ctx actv ws rt = Some (evs, ctx', ws', rt') ->
  exists ls, publishes evs ls /\ forall x, x ∈ ls <-> x <> 0 /\ Exists (fun a => act_lock a = x) actv.
Proof.
  intros Hq E. destruct (Hq actv) as [Hp Hs]. unfold palloc_exec_actions in E. set (l := qsort actv) in *.
  pose proof (exec_all_locks al l 0 None ctx ws) as El. destruct (exec_all heap al 0 None l ctx ws) as [[locks c1] w1]. cbn [fst] in El. subst locks.
  apply bind_Some in E as ([c2 s2] & _ & E). apply bind_Some in E as ([[unl w3] r3] & E3 & E). apply process_all_locks in E3 as ->.
  apply bind_Some in E as ([w4 r4] & _ & E). apply bind_Some in E as ([c5 w5] & _ & E). injection E as <- _ _ _.
  destruct (taken_spec None (map act_lock l) (sorted_locks l Hs)) as [S1 S2]; [done|].
  exists (taken None (map act_lock l)). rewrite dropped_all. split; [by split|]. intros x. rewrite S2. cbn [above].
  rewrite list_elem_of_fmap, Exists_exists. split.
  - intros ((a & -> & Ha) & Hx & _). split; [done|]. exists a. split; [|done]. by rewrite <- Hp.
  - intros [Hx (a & Ha & <-)]. split; [|done]. exists a. split; [done|]. by rewrite Hp.
Qed.
End Publish.

(** ** Threads that publish *)

(** The mutexes a thread holds and what it still does. *)
Definition lock_thread : Type := list Z * list lock_event.

(** util_mutex_lock waits until nobody holds the mutex; a mutex is released by
    its holder. *)
Inductive lock_step (ts : list lock_thread) : list lock_thread -> Prop :=
  | step_acquire i held l rest : ts !! i = Some (held, MutexLock l :: rest) -> Forall (fun t => l ∉ t.1) ts ->
      lock_step ts (<[i := (held ++ [l], rest)]> ts)
  | step_release i held l rest : ts !! i = Some (held, MutexUnlock l :: rest) -> l ∈ held ->
      lock_step ts (<[i := (filter (.≠ l) held, rest)]> ts).

(** A thread that is halfway through its publication. *)
Definition midway (t : lock_thread) : Prop :=
  exists todo, StronglySorted Z.lt (t.1 ++ todo) /\ t.2 = map MutexLock todo ++ map MutexUnlock (t.1 ++ todo).

Lemma midway_acquire held l rest : midway (held, MutexLock l :: rest) -> midway (held ++ [l], rest).
Proof.
  intros (todo & Hs & E). cbn [fst snd] in *. destruct todo as [|x todo]; cbn [map app] in E.
  { rewrite app_nil_r in E. by destruct held. }
  injection E as -> ->. exists todo. cbn [fst snd]. by rewrite <- app_assoc.
Qed.

Lemma midway_release held l rest : midway (held, MutexUnlock l :: rest) -> exists left, held = l :: left /\ filter (.≠ l) held = left /\ midway (left, rest).
Proof.
  intros (todo & Hs & E). cbn [fst snd] in *. destruct todo as [|x todo]; [|done]. rewrite app_nil_r in *. cbn [map app] in E.
  destruct held as [|x left]; [done|]. injection E as -> ->. apply StronglySorted_cons in Hs as [Hl Hs]. exists left. split; [done|]. split.
  - rewrite filter_cons_False by tauto. clear Hs. induction Hl as [|y left Hy _ IH]; [done|]. rewrite filter_cons_True by lia. by rewrite IH.
  - exists []. cbn [fst snd]. by rewrite app_nil_r.
Qed.

Lemma lock_step_midway ts ts' : Forall midway ts -> lock_step ts ts' -> Forall midway ts'.
Proof.
  intros H [i held l rest E _|i held l rest E _]; apply Forall_insert; try done; pose proof (Forall_lookup_1 _ _ _ _ H E) as Hm.
  - by apply midway_acquire.
  - by destruct (midway_release _ _ _ Hm) as (left & _ & -> & ?).
Qed.

Definition events_left (ts : list lock_thread) : nat := sum_list_with (fun t => length t.2) ts.

Lemma lock_step_shrinks ts ts' : lock_step ts ts' -> (events_left ts' < events_left ts)%nat.
Proof.
  assert (forall i h e h' e', ts !! i = Some (h, e) -> (length e' < length e)%nat -> (events_left (<[i := (h', e')]> ts) < events_left ts)%nat) as Hin.
  { unfold events_left. induction ts as [|t ts IH]; intros [|i] h e h' e' E Hl; cbn in E |- *; try done.
    - injection E as ->. cbn. lia.
    - apply Nat.add_lt_mono_l. exact (IH i h e h' e' E Hl). }
  intros [i held l rest E _|i held l rest E _]; apply (Hin _ _ _ _ _ E); cbn; lia.
Qed.

(** The mutexes a thread is going to take. *)
Definition wanted (t : lock_thread) : list Z := omap (fun e => match e with MutexLock l => Some l | _ => None end) t.2.

Lemma bounded (ts : list lock_thread) : exists M, forall i t x, ts !! i = Some t -> x ∈ wanted t -> x <= M.
Proof.
  exists (foldr Z.max 0 (mjoin (wanted <$> ts))). intros i t x Ht Hx.
  assert (x ∈ mjoin (wanted <$> ts)) as Hc.
  { apply list_elem_of_join. exists (wanted t). split; [done|]. apply list_elem_of_fmap. exists t. split; [done|]. by eapply list_elem_of_lookup_2. }
  clear Ht Hx. induction (mjoin (wanted <$> ts)) as [|y l IH]; cbn; [by apply elem_of_nil in Hc|]. apply elem_of_cons in Hc as [->|Hc]; [lia|]. specialize (IH Hc). lia.
Qed.

(** A thread that waits can go on, or the holder of the mutex can, or the holder
    waits for a mutex that is larger. *)
Lemma waiting_progress M (ts : list lock_thread) : Forall midway ts -> (forall i t x, ts !! i = Some t -> x ∈ wanted t -> x <= M) ->
  forall n i held l rest, (Z.to_nat (M - l) < n)%nat -> ts !! i = Some (held, MutexLock l :: rest) -> exists ts', lock_step ts ts'.
Proof.
  intros Hm HM. induction n as [|n IH]; intros i held l rest Hn E; [lia|].
  destruct (decide (Forall (fun t : lock_thread => l ∉ t.1) ts)) as [Hf|Hf]; [eexists; by eapply step_acquire|].
  apply not_Forall_Exists in Hf; [|intros t; apply _]. apply Exists_exists in Hf as ([h e] & Ht & Hl). apply list_elem_of_lookup in Ht as (j & Ej).
  cbn [fst] in Hl. apply dec_stable in Hl. pose proof (Forall_lookup_1 _ _ _ _ Hm Ej) as (todo & Hs & Ee). cbn [fst snd] in Hs, Ee.
  destruct todo as [|x todo]; cbn [map app] in Ee.
  - rewrite app_nil_r in Ee. destruct h as [|y h]; [by apply elem_of_nil in Hl|]. subst e. eexists. eapply step_release; [exact Ej|]. by left.
  - assert (l < x) as Hlx.
    { clear -Hs Hl. induction h as [|y h IH]; [by apply elem_of_nil in Hl|]. cbn in Hs. apply StronglySorted_cons in Hs as [Hy Hs].
      apply elem_of_cons in Hl as [->|Hl]; [|by apply IH]. rewrite Forall_forall in Hy. apply Hy. apply elem_of_app. right. by left. }
    assert (x <= M) by (apply (HM j (h, e)); [done|]; subst e; by left).
    subst e. eapply (IH j h x); [|exact Ej]. lia.
Qed.

Lemma midway_progress (ts : list lock_thread) : Forall midway ts -> Forall (fun t => t = ([], [])) ts \/ exists ts', lock_step ts ts'.
Proof.
  intros Hm. destruct (decide (Forall (fun t : lock_thread => t.2 = []) ts)) as [Hf|Hf].
  - left. rewrite Forall_forall in Hf, Hm |- *. intros [h e] Ht. specialize (Hf _ Ht). destruct (Hm _ Ht) as (todo & _ & Ee). cbn [fst snd] in *. subst e.
    by destruct todo, h.
  - right. apply not_Forall_Exists in Hf; [|intros t; apply _]. apply Exists_exists in Hf as ([h e] & Ht & He). apply list_elem_of_lookup in Ht as (i & Ei).
    destruct e as [|[l|l] rest]; [by destruct He| |].
    + destruct (bounded ts) as [M HM]. exact (waiting_progress M ts Hm HM _ i h l rest (Nat.lt_succ_diag_r _) Ei).
    + destruct (midway_release _ _ _ (Forall_lookup_1 _ _ _ _ Hm Ei)) as (left & -> & _). eexists. eapply step_release; [exact Ei|]. by left.
Qed.

(** What a publication may do with mutexes. *)
Definition publication {R} (hf : heap_fns R) (heap : palloc_heap) (qsort : list pobj_action -> list pobj_action) (evs : list lock_event) : Prop :=
  exists fuel push al ctx actv ws rt ctx' ws' rt', palloc_exec_actions hf heap qsort fuel push al ctx actv ws rt = Some (evs, ctx', ws', rt').

(** C19. Publications do not deadlock.  Any number of threads publish actions of
    any kind at the same time, and are interleaved in any order at the mutexes of
    their actions.  As long as some of them has not released all of its mutexes
    one of them can go on, which brings all of them nearer to the end; at the end
    no mutex is held.  This is what the sorting of the actions is for. *)
Theorem palloc_exec_actions_no_deadlock {R} (hf : heap_fns R) heap qsort runs ts :
  sorts qsort -> Forall (publication hf heap qsort) runs -> rtc lock_step (map (fun evs => ([], evs)) runs) ts ->
  (Forall (fun t => t = ([], [])) ts \/ exists ts', lock_step ts ts') /\
  forall ts', lock_step ts ts' -> (events_left ts' < events_left ts)%nat.
Proof.
  intros Hq Hr Hsteps. split; [|intros ts'; apply lock_step_shrinks]. apply midway_progress.
  assert (Forall midway (map (fun evs => ([], evs)) runs)) as H0.
  { apply Forall_fmap. eapply Forall_impl; [exact Hr|]. intros evs (fuel & push & al & ctx & actv & ws & rt & ctx' & ws' & rt' & E).
    destruct (exec_actions_locks hf heap qsort _ _ _ _ _ _ _ _ _ _ _ Hq E) as (ls & [-> Hs] & _). by exists ls. }
  revert H0. induction Hsteps as [|x y z Hxy _ IH]; [done|]. intros H0. apply IH. by eapply lock_step_midway.
Qed.

(** ** An instance: two threads that allocate from the same two runs *)

Definition action_le (x y : pobj_action) : Prop := palloc_action_compare x y <= 0.
#[local] Instance action_le_dec : RelDecision action_le.
Proof. intros x y. unfold action_le. apply _. Defined.
#[local] Instance action_le_total : Total action_le.
Proof. intros x y. unfold action_le, palloc_action_compare. destruct (Z.ltb_spec (act_lock x) (act_lock y)), (Z.ltb_spec (act_lock y) (act_lock x)); lia. Qed.
#[local] Instance action_le_trans : Transitive action_le.
Proof.
  intros x y z. unfold action_le, palloc_action_compare.
  destruct (Z.ltb_spec (act_lock x) (act_lock y)), (Z.ltb_spec (act_lock y) (act_lock x)), (Z.ltb_spec (act_lock y) (act_lock z)), (Z.ltb_spec (act_lock z) (act_lock y)),
    (Z.ltb_spec (act_lock x) (act_lock z)), (Z.ltb_spec (act_lock z) (act_lock x)); lia.
Qed.

Lemma merge_sorts : sorts (merge_sort action_le).
Proof. intros l. split; [apply merge_sort_Permutation|]. by apply (StronglySorted_merge_sort action_le). Qed.
Definition ex_run_blocks : list pobj_action :=
  [ActHeap 9 0 MEMBLOCK_ALLOCATED (ex_block 3 2) 0; ActHeap 5 0 MEMBLOCK_ALLOCATED (ex_block 5 2) 0; ActHeap 9 0 MEMBLOCK_ALLOCATED (ex_block 9 1) 0].
Definition ex_events : list lock_event := [MutexLock 5; MutexLock 9; MutexUnlock 5; MutexUnlock 9].

Lemma run_publication {R} (hf : heap_fns R) heap qsort fuel push al ctx actv ws rt evs :
  (fun x => x.1.1.1) <$> palloc_exec_actions hf heap qsort fuel push al ctx actv ws rt = Some evs -> publication hf heap qsort evs.
Proof.
  intros E. destruct (palloc_exec_actions hf heap qsort fuel push al ctx actv ws rt) as [[[[e c] w] r]|] eqn:Er; [|done]. injection E as <-.
  by exists fuel, push, al, ctx, actv, ws, rt, c, w, r.
Qed.

Lemma ex_publication : publication ex_heap_fns ex_heap (merge_sort action_le) ex_events.
Proof.
  apply (run_publication ex_heap_fns ex_heap (merge_sort action_le) 100 (fun _ => true) (fun _ => ((1, true), (1, true))) (operation_start ex_ctx) ex_run_blocks
    (Pop 8192 2 1048064 268435456 Ravl.ravl_new false, PMst ex_mem [] false) (PRt ∅ ∅ tt)).
  vm_compute. reflexivity.
Qed.

Lemma palloc_exec_actions_no_deadlock_witness :
  let ts := [([5], [MutexLock 9; MutexUnlock 5; MutexUnlock 9]); ([], ex_events)] in
  (Forall (fun t => t = ([], [])) ts \/ exists ts', lock_step ts ts') /\
  forall ts', lock_step ts ts' -> (events_left ts' < events_left ts)%nat.
Proof.
  intros ts. apply (palloc_exec_actions_no_deadlock ex_heap_fns ex_heap (merge_sort action_le) [ex_events; ex_events]).
  - exact merge_sorts.
  - by repeat constructor; apply ex_publication.
  - apply rtc_once. apply (step_acquire [([], ex_events); ([], ex_events)] 0 [] 5 [MutexLock 9; MutexUnlock 5; MutexUnlock 9] eq_refl).
    repeat constructor; apply not_elem_of_nil.
Defined.
