(* ===== verification/HeapZone.v ===== *)
(** * Zones (libpmemobj/heap.c)

    How many zones a heap has and how large they are, the headers of heap and
    zones, their initialization and verification. *)
From stdpp Require Import base numbers list list_numbers.
From Stdlib Require Import ZArith Lia Bool.
From S2P Require Import Prelude Pmem Checksum Container HeapLayout Memblock.

Definition ZONE_HEADER_MAGIC : Z := 3287327442.   (* 0xC3F0A2D2 *)
Definition ZONE_MIN_SIZE : Z := sizeof_zone + CHUNKSIZE.
Definition HEAP_MIN_SIZE : Z := sizeof_heap_header + sizeof_zone + ZONE_MIN_SIZE.
Definition HEAP_MAJOR : Z := 1.
Definition HEAP_MINOR : Z := 0.
Definition CHUNK_FLAGS_ALL_VALID : Z :=
  Z.lor CHUNK_FLAG_COMPACT_HEADER (Z.lor CHUNK_FLAG_HEADER_NONE (Z.lor CHUNK_FLAG_ALIGNED CHUNK_FLAG_FLEX_BITMAP)).
Definition MAX_CHUNK_TYPE : Z := 6.

(** "MEMORY_HEAP_HDR" and its terminating zero. *)
Definition HEAP_SIGNATURE : list byte := map byte_of_Z [77; 69; 77; 79; 82; 89; 95; 72; 69; 65; 80; 95; 72; 68; 82; 0].

(** [struct zone_header]. *)
Definition zone_magic (v : mem) (z : Z) : Z := load32 v z.
Definition zone_size_idx (v : mem) (z : Z) : Z := load32 v (z + 4).
Definition chunk_hdr (z i : Z) : Z := z + sizeof_zone_header + sizeof_chunk_header * i.

(** ** Geometry *)

(** [fuel]: the number of zones that fit is enough. *)
Fixpoint heap_max_zone_loop (fuel : nat) (max_zone size : Z) : Z :=
  if size <? ZONE_MIN_SIZE then max_zone else
  match fuel with
  | O => max_zone
  | S fuel => heap_max_zone_loop fuel (u32 (max_zone + 1)) (size - (if size <=? ZONE_MAX_SIZE then size else ZONE_MAX_SIZE))
  end.

Definition heap_max_zone (size : Z) : Z :=
  let size := u64 (size - sizeof_heap_header) in
  heap_max_zone_loop (S (Z.to_nat (size / ZONE_MAX_SIZE))) 0 size.

Definition zone_calc_size_idx (zone_id max_zone heap_size : Z) : Z :=
  if zone_id <? u32 (max_zone - 1) then MAX_CHUNK else
  let zone_raw_size := u64 (heap_size - u64 (zone_id * ZONE_MAX_SIZE)) in
  let zone_raw_size := u64 (zone_raw_size - (sizeof_zone_header + sizeof_chunk_header * MAX_CHUNK)) in
  u32 (zone_raw_size / CHUNKSIZE).

(** ** Verification *)

Definition heap_verify_header (v : mem) (hdr : Z) : option Z :=
  ok ← util_checksum_verify v hdr sizeof_heap_header (hdr + 1016) 0;
  if negb ok then Some (-1) else
  if bool_decide (read_bytes v hdr 16 = HEAP_SIGNATURE) then Some 0 else Some (-1).

Definition heap_verify_zone_header (v : mem) (hdr : Z) : Z :=
  if negb (zone_magic v hdr =? ZONE_HEADER_MAGIC) then 0 else
  if zone_size_idx v hdr =? 0 then -1 else 0.

Definition heap_verify_chunk_header (v : mem) (hdr : Z) : Z :=
  if hdr_type v hdr =? CHUNK_TYPE_UNKNOWN then -1 else
  if MAX_CHUNK_TYPE <=? hdr_type v hdr then -1 else
  if negb (Z.land (hdr_flags v hdr) (Z.lnot CHUNK_FLAGS_ALL_VALID) =? 0) then -1 else 0.

(** The loop of heap_verify_zone; the value of [i] at its end, or an error. *)
Fixpoint verify_chunks (fuel : nat) (v : mem) (zone i : Z) : option (option Z) :=
  if i <? zone_size_idx v zone then
    match fuel with
    | O => None
    | S fuel =>
        if negb (heap_verify_chunk_header v (chunk_hdr zone i) =? 0) then Some None
        else verify_chunks fuel v zone (u32 (i + hdr_size_idx v (chunk_hdr zone i)))
    end
  else Some (Some i).

Definition heap_verify_zone (fuel : nat) (v : mem) (zone : Z) : option Z :=
  if zone_magic v zone =? 0 then Some 0 else
  if negb (zone_magic v zone =? ZONE_HEADER_MAGIC) then Some (-1) else
  if negb (heap_verify_zone_header v zone =? 0) then Some (-1) else
  r ← verify_chunks fuel v zone 0;
  match r with
  | None => Some (-1)
  | Some i => if i =? zone_size_idx v zone then Some 0 else Some (-1)
  end.

(** The loop of heap_check over the zones from [i] on. *)
Fixpoint check_zones (n fuel : nat) (v : mem) (heap_start i : Z) : option Z :=
  match n with
  | O => Some 0
  | S n =>
      r ← heap_verify_zone fuel v (ZID_TO_ZONE heap_start i);
      if negb (r =? 0) then Some (-1) else check_zones n fuel v heap_start (i + 1)
  end.

Definition heap_check (fuel : nat) (v : mem) (heap_start heap_size : Z) : option Z :=
  if heap_size <? HEAP_MIN_SIZE then Some (-1) else
  r ← heap_verify_header v heap_start;
  if negb (r =? 0) then Some (-1) else check_zones (Z.to_nat (heap_max_zone heap_size)) fuel v heap_start 0.

(** ** Initialization *)

(** The header is put together on the stack, at [tmp], and copied. *)
Definition heap_write_header (tmp hdr : Z) (s : pmst) : option pmst :=
  let newhdr := HEAP_SIGNATURE ++ le64 HEAP_MAJOR ++ le64 HEAP_MINOR ++ le64 0 ++ le64 CHUNKSIZE ++ le64 MAX_CHUNK ++
                replicate 960 Byte.x00 ++ le64 0 in
  s ← util_checksum_insert tmp sizeof_heap_header (tmp + 1016) 0 (st_store tmp newhdr s);
  Some (st_store hdr (read_bytes (vis s) tmp 1024) s).

Fixpoint init_zones (n : nat) (p_ops : pmem_ops) (heap_start i : Z) (s : pmst) : pmst :=
  match n with
  | O => s
  | S n =>
      let zone := ZID_TO_ZONE heap_start i in
      let s := pmemops_memset p_ops zone 0 sizeof_zone_header 0 s in
      let s := pmemops_memset p_ops (chunk_hdr zone 0) 0 sizeof_chunk_header 0 s in
      init_zones n p_ops heap_start (i + 1) s
  end.

Definition EINVAL : Z := 22.

Definition heap_init (tmp heap_start heap_size sizep : Z) (p_ops : pmem_ops) (s : pmst) : option (Z * pmst) :=
  if heap_size <? HEAP_MIN_SIZE then Some (EINVAL, s) else
  s ← heap_write_header tmp heap_start s;
  let s := pmemops_persist p_ops heap_start sizeof_heap_header s in
  let s := init_zones (Z.to_nat (heap_max_zone heap_size)) p_ops heap_start 0 s in
  Some (0, pmemops_persist p_ops sizep 8 (st_store64 sizep heap_size s)).

Section Zones.
Context (heap : palloc_heap).

(** [nzones]: heap->rt->nzones; [size]: *heap->sizep. *)
Definition heap_zone_init (nzones size zone_id first_chunk_id : Z) (s : pmst) : option pmst :=
  let z := ZID_TO_ZONE (layout heap) zone_id in
  let size_idx := zone_calc_size_idx zone_id nzones size in
  '(_, s) ← memblock_huge_init heap first_chunk_id zone_id (u32 (size_idx - first_chunk_id)) s;
  let s := st_store z (enc_le 4 ZONE_HEADER_MAGIC ++ enc_le 4 size_idx ++ replicate 56 Byte.x00) s in
  Some (pmemops_persist (heap_ops heap) z sizeof_zone_header s).

Fixpoint update_zones (n : nat) (nzones size i : Z) (s : pmst) : option pmst :=
  match n with
  | O => Some s
  | S n =>
      let z := ZID_TO_ZONE (layout heap) i in
      s ← (if negb (zone_magic (vis s) z =? ZONE_HEADER_MAGIC) then Some s else
           if zone_calc_size_idx i nzones size =? zone_size_idx (vis s) z then Some s else
           heap_zone_init nzones size i (zone_size_idx (vis s) z) s);
      update_zones n nzones size (i + 1) s
  end.

Definition heap_zone_update_if_needed (nzones size : Z) (s : pmst) : option pmst := update_zones (Z.to_nat nzones) nzones size 0 s.

(** heap_end. *)
Definition heap_end (nzones : Z) (v : mem) : Z :=
  let last_zone := ZID_TO_ZONE (layout heap) (u32 (nzones - 1)) in
  last_zone + sizeof_zone + CHUNKSIZE * zone_size_idx v last_zone.
End Zones.
