(* ===== verification/HeapZoneSpec.v ===== *)
(** * Zones: theorems

    The number of zones in closed form, how far their sizes are right, what
    heap_verify_zone accepts, that a new heap passes heap_check, and that the check
    of a remote copy agrees with the local one. *)
From stdpp Require Import base numbers list list_numbers.
From Stdlib Require Import ZArith Lia Bool.
From S2P Require Import Prelude Pmem Checksum Container HeapLayout Memblock HeapZone MemblockInit.

(** ** Geometry *)

Ltac zone_sizes := unfold ZONE_MIN_SIZE, ZONE_MAX_SIZE, sizeof_zone, sizeof_zone_header, sizeof_chunk_header, sizeof_heap_header, MAX_CHUNK, CHUNKSIZE in *.

Definition zones_in (size : Z) : Z := size / ZONE_MAX_SIZE + (if ZONE_MIN_SIZE <=? size mod ZONE_MAX_SIZE then 1 else 0).

Lemma zone_sizes_pos : 0 < ZONE_MIN_SIZE < ZONE_MAX_SIZE.
Proof. zone_sizes. lia. Qed.

Lemma max_zone_loop fuel : forall k size, 0 <= size < 2 ^ 64 -> size / ZONE_MAX_SIZE < Z.of_nat fuel -> 0 <= k -> k + size / ZONE_MAX_SIZE + 1 < 2 ^ 32 ->
  heap_max_zone_loop fuel k size = k + zones_in size.
Proof.
  pose proof zone_sizes_pos as [P1 P2]. induction fuel as [|fuel IH]; intros k size Hs Hf Hk Hb.
  { pose proof (Z.div_pos size ZONE_MAX_SIZE). lia. }
  cbn [heap_max_zone_loop]. unfold zones_in. pose proof (Z.div_pos size ZONE_MAX_SIZE ltac:(lia) ltac:(lia)) as Hd.
  destruct (Z.ltb_spec size ZONE_MIN_SIZE) as [Hlt|Hge].
  { rewrite Z.div_small, Z.mod_small by lia. destruct (Z.leb_spec ZONE_MIN_SIZE size); lia. }
  rewrite u32_small by lia. destruct (Z.leb_spec size ZONE_MAX_SIZE) as [Hle|Hgt].
  - rewrite Z.sub_diag. assert (heap_max_zone_loop fuel (k + 1) 0 = k + 1) as ->.
    { destruct fuel; cbn [heap_max_zone_loop]; rewrite (proj2 (Z.ltb_lt 0 ZONE_MIN_SIZE)) by lia; done. }
    destruct (Z.eq_dec size ZONE_MAX_SIZE) as [->|Hn].
    + rewrite Z_div_same_full, Z_mod_same_full by lia. rewrite (proj2 (Z.leb_gt ZONE_MIN_SIZE 0)) by lia. lia.
    + rewrite Z.div_small, Z.mod_small by lia. rewrite (proj2 (Z.leb_le ZONE_MIN_SIZE size)) by lia. lia.
  - assert (size / ZONE_MAX_SIZE = (size - ZONE_MAX_SIZE) / ZONE_MAX_SIZE + 1) as Ed.
    { replace size with (size - ZONE_MAX_SIZE + 1 * ZONE_MAX_SIZE) at 1 by lia. rewrite Z.div_add by lia. lia. }
    assert (size mod ZONE_MAX_SIZE = (size - ZONE_MAX_SIZE) mod ZONE_MAX_SIZE) as Em.
    { replace size with (size - ZONE_MAX_SIZE + 1 * ZONE_MAX_SIZE) at 1 by lia. by rewrite Z.mod_add by lia. }
    rewrite IH by lia. unfold zones_in. rewrite Ed, Em. lia.
Qed.

Lemma max_zone_closed size : sizeof_heap_header <= size < 2 ^ 64 -> heap_max_zone size = zones_in (size - sizeof_heap_header).
Proof.
  intros Hs. unfold heap_max_zone. rewrite u64_small by (unfold sizeof_heap_header in *; lia). set (n := size - sizeof_heap_header).
  assert (0 <= n < 2 ^ 64) as Hn by (unfold n, sizeof_heap_header in *; lia). pose proof zone_sizes_pos as [P1 P2].
  assert (0 <= n / ZONE_MAX_SIZE) as Hd by (apply Z.div_pos; lia).
  assert (n / ZONE_MAX_SIZE < 2 ^ 31) as Hd2. { apply Z.div_lt_upper_bound; [lia|]. zone_sizes. lia. }
  rewrite max_zone_loop; lia.
Qed.

(** The first byte behind the last chunk of a zone. *)
Definition zone_end (layout zone_id size_idx : Z) : Z := ZID_TO_ZONE layout zone_id + sizeof_zone + CHUNKSIZE * size_idx.

Lemma full_zones_fit zone_id size : let n := heap_max_zone size in
  sizeof_heap_header <= size < 2 ^ 64 -> 0 <= zone_id < n - 1 ->
  zone_calc_size_idx zone_id n size = MAX_CHUNK /\ zone_end 0 zone_id MAX_CHUNK = ZID_TO_ZONE 0 (zone_id + 1) /\ ZID_TO_ZONE 0 (zone_id + 1) < size.
Proof.
  intros n Hs Hz. pose proof zone_sizes_pos as [P1 P2]. unfold n in Hz |- *. rewrite (max_zone_closed size Hs) in Hz |- *. unfold zones_in in *.
  set (h := size - sizeof_heap_header) in *. pose proof (Z.div_mod h ZONE_MAX_SIZE ltac:(lia)) as Hdm. pose proof (Z.mod_pos_bound h ZONE_MAX_SIZE ltac:(lia)) as Hmb.
  set (q := h / ZONE_MAX_SIZE) in *. set (r := h mod ZONE_MAX_SIZE) in *.
  assert (0 <= q < 2 ^ 31) as Hq. { split; [apply Z.div_pos; unfold h, sizeof_heap_header in *; lia|]. unfold q. apply Z.div_lt_upper_bound; [lia|]. unfold h. zone_sizes. lia. }
  assert (zone_id + 1 <= q - (if ZONE_MIN_SIZE <=? r then 0 else 1)) as Hz1 by (destruct (ZONE_MIN_SIZE <=? r); lia).
  split; [|split].
  - unfold zone_calc_size_idx. rewrite u32_small by (destruct (ZONE_MIN_SIZE <=? r); lia). by rewrite (proj2 (Z.ltb_lt _ _)) by lia.
  - unfold zone_end, ZID_TO_ZONE, ZONE_MAX_SIZE. lia.
  - unfold ZID_TO_ZONE. assert (ZONE_MAX_SIZE * (zone_id + 1) < h) as Hlt; [|unfold h in Hlt; lia].
    destruct (Z.leb_spec ZONE_MIN_SIZE r); nia.
Qed.

Lemma last_zone_size size : let n := heap_max_zone size in let rest := size - sizeof_heap_header - (n - 1) * ZONE_MAX_SIZE in
  sizeof_heap_header <= size < 2 ^ 64 -> 0 < n ->
  ZONE_MIN_SIZE <= rest < ZONE_MAX_SIZE + ZONE_MIN_SIZE /\ zone_calc_size_idx (n - 1) n size = (sizeof_heap_header + rest - sizeof_zone) / CHUNKSIZE.
Proof.
  intros n rest Hs Hn. pose proof zone_sizes_pos as [P1 P2]. unfold rest, n in *. rewrite (max_zone_closed size Hs) in *. unfold zones_in in *.
  set (h := size - sizeof_heap_header) in *. pose proof (Z.div_mod h ZONE_MAX_SIZE ltac:(lia)) as Hdm. pose proof (Z.mod_pos_bound h ZONE_MAX_SIZE ltac:(lia)) as Hmb.
  set (q := h / ZONE_MAX_SIZE) in *. set (r := h mod ZONE_MAX_SIZE) in *.
  assert (0 <= q < 2 ^ 31) as Hq. { split; [apply Z.div_pos; unfold h, sizeof_heap_header in *; lia|]. unfold q. apply Z.div_lt_upper_bound; [lia|]. unfold h. zone_sizes. lia. }
  assert (exists e, (if ZONE_MIN_SIZE <=? r then 1 else 0) = e /\ 0 <= e <= 1 /\ ZONE_MIN_SIZE <= h - (q + e - 1) * ZONE_MAX_SIZE < ZONE_MAX_SIZE + ZONE_MIN_SIZE) as (e & Ee & He & Hrest).
  { destruct (Z.leb_spec ZONE_MIN_SIZE r); eexists; (split; [reflexivity|]); split; nia. }
  rewrite Ee in *. split; [exact Hrest|]. unfold zone_calc_size_idx. rewrite u32_small by lia. rewrite Z.ltb_irrefl.
  assert (size = h + sizeof_heap_header) as Es by (unfold h; lia).
  assert (0 <= (q + e - 1) * ZONE_MAX_SIZE <= h) as Hle by nia. change (sizeof_zone_header + sizeof_chunk_header * MAX_CHUNK) with sizeof_zone.
  assert (sizeof_heap_header = 1024 /\ sizeof_zone = 524288 /\ CHUNKSIZE = 262144 /\ ZONE_MIN_SIZE = 786432 /\ ZONE_MAX_SIZE = 17178296320) as (Z1 & Z2 & Z3 & Z4 & Z5) by (vm_compute; repeat split; reflexivity).
  set (y := (q + e - 1) * ZONE_MAX_SIZE) in *.
  rewrite (u64_small y) by lia. rewrite (u64_small (size - y)) by lia. rewrite (u64_small (size - y - sizeof_zone)) by lia.
  replace (sizeof_heap_header + (h - y) - sizeof_zone) with (size - y - sizeof_zone) by lia.
  apply u32_small. split; [apply Z.div_pos; lia|]. apply Z.div_lt_upper_bound; lia.
Qed.

(** C22. The sizes of zones.  Every zone but the last has MAX_CHUNK chunks and ends
    where the next begins.  The last has at least one chunk; it can have up to
    three chunks more than there are chunk headers, and end up to the size of the
    heap's header behind the heap, but no further; it has MAX_CHUNK chunks at
    most when what is left for it is not larger than a whole zone. *)
Theorem zone_sizes_bounded size zone_id : let n := heap_max_zone size in let size_idx := zone_calc_size_idx zone_id n size in
  HEAP_MIN_SIZE <= size < 2 ^ 64 -> 0 <= zone_id < n ->
  (zone_id < n - 1 -> size_idx = MAX_CHUNK /\ zone_end 0 zone_id size_idx = ZID_TO_ZONE 0 (zone_id + 1)) /\
  1 <= size_idx <= MAX_CHUNK + 3 /\ zone_end 0 zone_id size_idx <= size + sizeof_heap_header /\
  (size - sizeof_heap_header - (n - 1) * ZONE_MAX_SIZE <= ZONE_MAX_SIZE -> size_idx <= MAX_CHUNK).
Proof.
  intros n size_idx Hs Hz.
  assert (sizeof_heap_header = 1024 /\ sizeof_zone = 524288 /\ CHUNKSIZE = 262144 /\ ZONE_MIN_SIZE = 786432 /\ ZONE_MAX_SIZE = 17178296320 /\ MAX_CHUNK = 65528 /\ HEAP_MIN_SIZE = 1311744)
    as (Z1 & Z2 & Z3 & Z4 & Z5 & Z6 & Z7) by (vm_compute; repeat split; reflexivity).
  destruct (decide (zone_id < n - 1)) as [Hlt|Hge].
  - destruct (full_zones_fit zone_id size ltac:(lia) ltac:(unfold n in *; lia)) as (E1 & E2 & E3). fold n in E1. unfold size_idx. rewrite E1, E2. lia.
  - assert (zone_id = n - 1) as Ez by lia. destruct (last_zone_size size ltac:(lia) ltac:(unfold n in *; lia)) as [Hr Ei]. fold n in Hr, Ei.
    unfold size_idx. rewrite Ez, Ei. set (rest := size - sizeof_heap_header - (n - 1) * ZONE_MAX_SIZE) in *.
    pose proof (Z.div_mod (sizeof_heap_header + rest - sizeof_zone) CHUNKSIZE ltac:(lia)) as Hdm.
    pose proof (Z.mod_pos_bound (sizeof_heap_header + rest - sizeof_zone) CHUNKSIZE ltac:(lia)) as Hmb.
    set (k := (sizeof_heap_header + rest - sizeof_zone) / CHUNKSIZE) in *. set (w := (sizeof_heap_header + rest - sizeof_zone) mod CHUNKSIZE) in *.
    split; [lia|]. split; [lia|]. split; [|lia]. unfold zone_end, ZID_TO_ZONE. unfold rest in *. lia.
Qed.

Lemma zone_sizes_bounded_witness : let size := 2 ^ 34 in
  (0 < heap_max_zone size - 1 -> zone_calc_size_idx 0 (heap_max_zone size) size = MAX_CHUNK /\ zone_end 0 0 (zone_calc_size_idx 0 (heap_max_zone size) size) = ZID_TO_ZONE 0 (0 + 1)) /\
  1 <= zone_calc_size_idx 0 (heap_max_zone size) size <= MAX_CHUNK + 3 /\ zone_end 0 0 (zone_calc_size_idx 0 (heap_max_zone size) size) <= size + sizeof_heap_header /\
  (size - sizeof_heap_header - (heap_max_zone size - 1) * ZONE_MAX_SIZE <= ZONE_MAX_SIZE -> zone_calc_size_idx 0 (heap_max_zone size) size <= MAX_CHUNK).
Proof. intros size. apply (zone_sizes_bounded size 0); vm_compute; split; congruence. Defined.

(** A zone that is too large.  With a heap of a zone's largest size and 300000
    bytes more, heap_zone_init makes a zone of one chunk more than there are
    chunk headers and writes the footer of its free block over the first bytes of
    the memory that it is going to give out. *)
Theorem zone_init_overwrites_chunk : let size := sizeof_heap_header + ZONE_MAX_SIZE + 300000 in
  let heap := PHeap 64 (POps 4096 OPS_POOL) 8192 4096 in
  heap_max_zone size = 1 /\ zone_calc_size_idx 0 1 size = MAX_CHUNK + 1 /\
  exists s', heap_zone_init heap 1 size 0 0 (PMst (fun _ => Byte.x00) [] false) = Some s' /\
    hdr_type (vis s') (GET_CHUNK 8192 0 0) = CHUNK_TYPE_FOOTER /\ hdr_size_idx (vis s') (GET_CHUNK 8192 0 0) = MAX_CHUNK + 1.
Proof.
  split; [vm_compute; reflexivity|]. split; [vm_compute; reflexivity|]. eexists. split; [reflexivity|]. vm_compute. by split.
Qed.

(** ** Verification *)

(** The blocks of chunks behind chunk [i]: the sizes in their headers. *)
Fixpoint tiled (v : mem) (zone i : Z) (sizes : list Z) : Prop :=
  match sizes with
  | [] => True
  | n :: sizes => hdr_size_idx v (chunk_hdr zone i) = n /\ 0 < n /\ heap_verify_chunk_header v (chunk_hdr zone i) = 0 /\ tiled v zone (i + n) sizes
  end.

Definition total (l : list Z) : Z := foldr Z.add 0 l.

Lemma total_cons n l : total (n :: l) = n + total l.
Proof. done. Qed.

(** The headers that are read: the first, and the one behind each valid one. *)
Inductive reached (v : mem) (zone : Z) : Z -> Prop :=
  | reached_first : reached v zone 0
  | reached_next i : reached v zone i -> i < zone_size_idx v zone -> heap_verify_chunk_header v (chunk_hdr zone i) = 0 ->
      reached v zone (i + hdr_size_idx v (chunk_hdr zone i)).

(** A valid header that is read has a size, which does not overflow. *)
Definition sane (v : mem) (zone : Z) : Prop :=
  zone_size_idx v zone <= MAX_CHUNK + 3 /\
  forall i, reached v zone i -> i < zone_size_idx v zone -> heap_verify_chunk_header v (chunk_hdr zone i) = 0 -> 0 < hdr_size_idx v (chunk_hdr zone i) < 2 ^ 31.

Lemma verify_header_cases v hdr : heap_verify_chunk_header v hdr = 0 \/ heap_verify_chunk_header v hdr = -1.
Proof. unfold heap_verify_chunk_header. repeat case_match; auto. Qed.

Lemma tiled_total v zone i sizes : tiled v zone i sizes -> 0 <= total sizes.
Proof. revert i. induction sizes as [|n sizes IH]; intros i; [done|]. intros (_ & Hn & _ & T). specialize (IH _ T). rewrite total_cons. lia. Qed.

Lemma verify_chunks_spec v zone : sane v zone -> forall fuel i, reached v zone i -> 0 <= i <= zone_size_idx v zone + 2 ^ 31 -> zone_size_idx v zone - i < Z.of_nat fuel ->
  exists r, verify_chunks fuel v zone i = Some r /\
    (r = Some (zone_size_idx v zone) <-> exists sizes, tiled v zone i sizes /\ i + total sizes = zone_size_idx v zone).
Proof.
  intros [Hn Hs]. assert (MAX_CHUNK = 65528) as Hmc by done. induction fuel as [|fuel IH]; intros i Hre Hi Hf;
    cbn [verify_chunks]; destruct (Z.ltb_spec i (zone_size_idx v zone)) as [Hlt|Hge]; try lia.
  2: { destruct (verify_header_cases v (chunk_hdr zone i)) as [E|E]; rewrite E; cbn [Z.eqb negb].
    - specialize (Hs i Hre Hlt E). rewrite u32_small by lia. destruct (IH (i + hdr_size_idx v (chunk_hdr zone i)) (reached_next _ _ _ Hre Hlt E) ltac:(lia) ltac:(lia)) as (r & Er & Hr). exists r. split; [done|]. rewrite Hr. split.
      + intros (sizes & T & Et). exists (hdr_size_idx v (chunk_hdr zone i) :: sizes). split; [by repeat split; try lia|]. rewrite total_cons. lia.
      + intros (sizes & T & Et). destruct sizes as [|n sizes]; [change (total []) with 0 in Et; lia|]. destruct T as (<- & _ & _ & T). exists sizes. split; [done|]. rewrite total_cons in Et. lia.
    - exists None. split; [done|]. split; [done|]. intros (sizes & T & Et). destruct sizes as [|n sizes]; [change (total []) with 0 in Et; lia|]. destruct T as (_ & _ & E' & _). congruence. }
  all: exists (Some i); split; [done|]; split; [intros [= Ei]; exists []; split; [done|change (total []) with 0; lia]|];
    intros (sizes & T & Et); pose proof (tiled_total _ _ _ _ T); f_equal; lia.
Qed.

(** C23. heap_verify_zone.  On an initialized zone of at most MAX_CHUNK + 3 chunks
    in which the valid headers that the walk from chunk to chunk comes to have
    sizes other than 0 (and below 2^31), whatever the other headers hold,
    verification terminates and accepts exactly the zones whose headers, followed
    from the first by their sizes, are valid and end where the zone ends. *)
Theorem heap_verify_zone_exact fuel v zone : zone_magic v zone = ZONE_HEADER_MAGIC -> 0 < zone_size_idx v zone -> sane v zone -> zone_size_idx v zone < Z.of_nat fuel ->
  exists r, heap_verify_zone fuel v zone = Some r /\
    (r = 0 <-> exists sizes, tiled v zone 0 sizes /\ total sizes = zone_size_idx v zone).
Proof.
  intros Hm Hn Hs Hf. unfold heap_verify_zone, heap_verify_zone_header. rewrite Hm, Z.eqb_refl.
  change (ZONE_HEADER_MAGIC =? 0) with false. rewrite (proj2 (Z.eqb_neq (zone_size_idx v zone) 0)) by lia. cbn [Z.eqb negb].
  destruct (verify_chunks_spec v zone Hs fuel 0 (reached_first _ _) ltac:(lia) ltac:(lia)) as (r & -> & Hr). cbn [mbind option_bind].
  destruct r as [e|].
  - destruct (Z.eqb_spec e (zone_size_idx v zone)) as [->|Hne]; eexists; (split; [reflexivity|]).
    + split; [intros _; by apply Hr|done].
    + split; [done|]. intros Hx. apply Hr in Hx. congruence.
  - eexists. split; [reflexivity|]. split; [done|]. intros Hx. apply Hr in Hx. congruence.
Qed.

(** A chunk header of size 0.  heap_verify_zone, and so heap_check, never
    returns when it comes to a chunk header with a valid type and size 0. *)
Theorem verify_empty_chunk_diverges v zone : zone_magic v zone = ZONE_HEADER_MAGIC -> 0 < zone_size_idx v zone ->
  heap_verify_chunk_header v (chunk_hdr zone 0) = 0 -> hdr_size_idx v (chunk_hdr zone 0) = 0 ->
  forall fuel, heap_verify_zone fuel v zone = None.
Proof.
  intros Hm Hn Hv Hz fuel. unfold heap_verify_zone, heap_verify_zone_header. rewrite Hm, Z.eqb_refl.
  change (ZONE_HEADER_MAGIC =? 0) with false. rewrite (proj2 (Z.eqb_neq (zone_size_idx v zone) 0)) by lia. cbn [Z.eqb negb]. assert (verify_chunks fuel v zone 0 = None) as ->; [|done].
  induction fuel as [|fuel IH]; cbn [verify_chunks]; rewrite (proj2 (Z.ltb_lt _ _)) by lia; [done|]. rewrite Hv, Hz. exact IH.
Qed.

(** ** A new heap *)

(** A checksummed range verifies wherever it is copied to. *)
Lemma checksum_verify_copy m1 m2 a b len off : 0 <= len -> len mod 4 = 0 -> off mod 4 = 0 -> 0 <= off -> off + 8 <= len ->
  (forall i, 0 <= i < len -> m1 (a + i) = m2 (b + i)) ->
  util_checksum_verify m1 a len (a + off) 0 = util_checksum_verify m2 b len (b + off) 0.
Proof.
  intros H1 H2 H3 H4 H5 H. unfold util_checksum_verify.
  rewrite !checksum_compute_seq by (lia || done || (rewrite Z.add_simpl_l; done)).
  rewrite (checksum_seq_ext (zero_field m1 (a + off)) (zero_field m2 (b + off)) a b len 0 H1).
  - destruct (util_checksum_seq _ b _ _); [|done]. do 2 f_equal. unfold load64. f_equal. apply read_bytes_eq. intros i Hi. rewrite <- !Z.add_assoc. apply H. lia.
  - intros i Hi. unfold zero_field, write_bytes. rewrite length_replicate. replace (a + off <=? a + i) with (b + off <=? b + i) by lia.
    replace (a + i <? a + off + Z.of_nat 8) with (b + i <? b + off + Z.of_nat 8) by lia. destruct (_ && _); [f_equal; lia|by apply H].
Qed.

Definition verifies (v : mem) (hdr : Z) : Prop := heap_verify_header v hdr = Some 0.

Lemma verifies_agree v v' hdr : verifies v hdr -> agree v' v hdr 1024 -> verifies v' hdr.
Proof.
  unfold verifies, heap_verify_header. intros H Ha. rewrite (checksum_verify_copy v' v hdr hdr sizeof_heap_header 1016); try (unfold sizeof_heap_header; lia); try done.
  - rewrite (read_bytes_agree v' v hdr 1024 hdr 16 Ha) by lia. exact H.
  - intros i Hi. apply Ha. unfold sizeof_heap_header in Hi. lia.
Qed.

Lemma write_header_verifies tmp hdr s : tmp + 1024 <= hdr \/ hdr + 1024 <= tmp ->
  exists s', heap_write_header tmp hdr s = Some s' /\ verifies (vis s') hdr /\
    (forall x, ~ (tmp <= x < tmp + 1024) -> ~ (hdr <= x < hdr + 1024) -> vis s' x = vis s x).
Proof.
  intros Hd. unfold heap_write_header. set (newhdr := HEAP_SIGNATURE ++ _). assert (length newhdr = 1024%nat) as Hl by (vm_compute; reflexivity).
  set (s1 := st_store tmp newhdr s).
  assert (exists c, util_checksum_insert tmp sizeof_heap_header (tmp + 1016) 0 s1 = Some (st_store64 (tmp + 1016) c s1)) as (c & Ec).
  { unfold util_checksum_insert. rewrite checksum_compute_seq by (unfold sizeof_heap_header; try lia; try done; by rewrite Z.add_simpl_l).
    destruct (checksum_seq_some (zero_field (vis s1) (tmp + 1016)) tmp sizeof_heap_header 0 eq_refl) as (c & -> & _). by exists c. }
  rewrite Ec. cbn [mbind option_bind]. eexists. split; [reflexivity|]. set (s2 := st_store64 (tmp + 1016) c s1) in *.
  assert (util_checksum_verify (vis s2) tmp sizeof_heap_header (tmp + 1016) 0 = Some true) as Hv.
  { eapply checksum_insert_verify; [..|exact Ec]; unfold sizeof_heap_header; try lia; try done. by rewrite Z.add_simpl_l. }
  cbn [vis st_store]. split.
  - unfold verifies, heap_verify_header. rewrite (checksum_verify_copy _ (vis s2) hdr tmp sizeof_heap_header 1016), Hv; try (unfold sizeof_heap_header; lia); try done.
    + cbn [mbind option_bind negb]. rewrite bool_decide_eq_true_2; [done|]. rewrite read_write_sub by (rewrite ?length_read_bytes; lia). rewrite Z.sub_diag, drop_0.
      transitivity (read_bytes (vis s2) tmp 16). { by rewrite (read_bytes_app _ tmp 16 1008), take_app_length' by (by rewrite length_read_bytes). }
      unfold s2, s1. cbn [vis st_store64 st_store]. rewrite read_write_disj by lia. rewrite read_write_sub by (rewrite ?Hl; lia). rewrite Z.sub_diag, drop_0. vm_compute. reflexivity.
    + intros i Hi. unfold sizeof_heap_header in Hi. rewrite write_bytes_in by (rewrite length_read_bytes; lia).
      apply nth_lookup_Some. rewrite lookup_read_bytes by lia. f_equal. f_equal. lia.
  - intros x H1 H2. rewrite write_bytes_out by (rewrite length_read_bytes; lia). unfold s2, s1. cbn [vis st_store64 st_store].
    rewrite !write_bytes_out by (rewrite ?length_le64, ?Hl; lia). done.
Qed.

Lemma vis_pool_memset p_ops dst len s : table p_ops = OPS_POOL -> vis (pmemops_memset p_ops dst 0 len 0 s) = write_bytes (vis s) dst (replicate (Z.to_nat len) Byte.x00).
Proof. intros H. unfold pmemops_memset. by rewrite H. Qed.

Lemma init_zones_spec p_ops a n : table p_ops = OPS_POOL -> forall i s, let s' := init_zones n p_ops a i s in
  (forall j, i <= j < i + Z.of_nat n -> zone_magic (vis s') (ZID_TO_ZONE a j) = 0) /\ (forall x, x < ZID_TO_ZONE a i -> vis s' x = vis s x).
Proof.
  intros Hp. pose proof zone_sizes_pos as [P1 P2]. assert (sizeof_zone_header = 64 /\ 72 < ZONE_MAX_SIZE) as [Z1 Z2] by (split; [done|vm_compute; reflexivity]).
  induction n as [|n IH]; intros i s; cbn [init_zones]; [split; [lia|done]|]. cbv zeta.
  set (z := ZID_TO_ZONE a i). set (s1 := pmemops_memset p_ops (chunk_hdr z 0) 0 sizeof_chunk_header 0 _).
  assert (ZID_TO_ZONE a (i + 1) = z + ZONE_MAX_SIZE) as Ez by (unfold z, ZID_TO_ZONE; lia).
  assert (vis s1 = write_bytes (write_bytes (vis s) z (replicate 64 Byte.x00)) (chunk_hdr z 0) (replicate 8 Byte.x00)) as Ev by (unfold s1; by rewrite !vis_pool_memset).
  assert (chunk_hdr z 0 = z + 64) as Ec by (unfold chunk_hdr; rewrite Z1; lia). destruct (IH (i + 1) s1) as [I1 I2]. rewrite Ez in I2. split.
  - intros j Hj. destruct (decide (j = i)) as [->|Hn]; [|apply I1; lia]. fold z. unfold zone_magic, load32.
    rewrite (read_bytes_eq _ (vis s1) z z 4) by (intros k Hk; apply I2; lia). rewrite Ev, Ec, read_write_disj by (left; lia). rewrite read_write_sub by (rewrite ?length_replicate; lia).
    rewrite Z.sub_diag. reflexivity.
  - intros x Hx. rewrite I2 by lia. rewrite Ev, Ec, !write_bytes_out by (rewrite ?length_replicate; lia). done.
Qed.

Lemma check_zones_uninit fuel v a n : forall i, (forall j, i <= j < i + Z.of_nat n -> zone_magic v (ZID_TO_ZONE a j) = 0) -> check_zones n fuel v a i = Some 0.
Proof.
  induction n as [|n IH]; intros i H; [done|]. cbn [check_zones]. unfold heap_verify_zone. rewrite H by lia. cbn [Z.eqb mbind option_bind negb]. apply IH. intros j Hj. apply H. lia.
Qed.

(** A new heap is consistent.  heap_init succeeds on a region that is large
    enough, stores its size, and heap_check accepts the result (it looks at the
    checksum and the signature of the header and at every zone). *)
Theorem heap_init_passes_check tmp a size sizep p_ops s fuel : table p_ops = OPS_POOL -> HEAP_MIN_SIZE <= size < 2 ^ 64 ->
  tmp + 1024 <= a \/ a + 1024 <= tmp -> sizep + 8 <= a \/ a + size <= sizep ->
  exists s', heap_init tmp a size sizep p_ops s = Some (0, s') /\ heap_check fuel (vis s') a size = Some 0 /\ load64 (vis s') sizep = size.
Proof.
  intros Hp Hs Ht Hz. assert (HEAP_MIN_SIZE = 1311744 /\ sizeof_heap_header = 1024 /\ ZONE_MIN_SIZE = 786432 /\ 0 < ZONE_MAX_SIZE) as (Z1 & Z2 & Z3 & Z4) by (vm_compute; repeat split; reflexivity).
  unfold heap_init. rewrite (proj2 (Z.ltb_ge _ _)) by lia. destruct (write_header_verifies tmp a s Ht) as (s1 & E1 & Hv & _). rewrite E1. cbn [mbind option_bind].
  set (s2 := pmemops_persist p_ops a sizeof_heap_header s1). assert (vis s2 = vis s1) as Ev2 by (unfold s2, pmemops_persist; by rewrite Hp).
  set (n := heap_max_zone size). assert (0 <= n) as Hn0.
  { unfold n. rewrite max_zone_closed by lia. unfold zones_in. pose proof (Z.div_pos (size - sizeof_heap_header) ZONE_MAX_SIZE ltac:(lia) ltac:(lia)). destruct (_ <=? _); lia. }
  destruct (init_zones_spec p_ops a (Z.to_nat n) Hp 0 s2) as [I1 I2]. set (s3 := init_zones _ _ _ _ _) in *.
  assert (ZID_TO_ZONE a 0 = a + 1024) as Ez by (unfold ZID_TO_ZONE; lia). rewrite Ez in I2.
  eexists. split; [reflexivity|]. assert (vis (pmemops_persist p_ops sizep 8 (st_store64 sizep size s3)) = write_bytes (vis s3) sizep (le64 size)) as -> by (unfold pmemops_persist; by rewrite Hp).
  split; [|rewrite load64_write_same; by rewrite u64_small by lia].
  unfold heap_check. rewrite (proj2 (Z.ltb_ge _ _)) by lia. assert (verifies (write_bytes (vis s3) sizep (le64 size)) a) as ->.
  { eapply verifies_agree; [exact Hv|]. intros x Hx. rewrite write_bytes_out by (rewrite length_le64; lia). rewrite I2 by lia. by rewrite Ev2. }
  cbn [mbind option_bind Z.eqb negb]. apply check_zones_uninit. fold n. intros j Hj. rewrite Z2Nat.id in Hj by lia.
  assert (ZID_TO_ZONE a j + 4 <= a + size) as Hjs.
  { destruct (last_zone_size size ltac:(lia) ltac:(unfold n in *; lia)) as [Hr _]. fold n in Hr. unfold ZID_TO_ZONE. nia. }
  assert (a <= ZID_TO_ZONE a j) by (unfold ZID_TO_ZONE; nia).
  unfold zone_magic, load32. rewrite read_write_disj by (rewrite ?length_le64; lia). apply I1. lia.
Qed.

Lemma heap_init_passes_check_witness : exists s', heap_init 0 4096 (2 ^ 21) 2048 (POps 4096 OPS_POOL) (PMst (fun _ => Byte.xff) [] false) = Some (0, s') /\
  heap_check 0 (vis s') 4096 (2 ^ 21) = Some 0 /\ load64 (vis s') 2048 = 2 ^ 21.
Proof. apply heap_init_passes_check; [reflexivity|vm_compute; split; congruence|lia|lia]. Defined.

(** ** An instance: a zone of three chunks, as heap_zone_init leaves it *)

Definition ex_hdr (type size_idx : Z) : list byte := enc_le 2 type ++ enc_le 2 0 ++ enc_le 4 size_idx.
Definition ex_zone (h0 h1 h2 : list byte) : mem :=
  write_bytes (write_bytes (fun _ => Byte.x00) 4096 (enc_le 4 ZONE_HEADER_MAGIC ++ enc_le 4 3)) (chunk_hdr 4096 0) (h0 ++ h1 ++ h2).

Lemma heap_verify_zone_exact_witness : let v := ex_zone (ex_hdr CHUNK_TYPE_FREE 3) (ex_hdr 0 0) (ex_hdr CHUNK_TYPE_FOOTER 3) in
  exists r, heap_verify_zone 10 v 4096 = Some r /\ (r = 0 <-> exists sizes, tiled v 4096 0 sizes /\ total sizes = zone_size_idx v 4096).
Proof.
  intros v. apply heap_verify_zone_exact; [vm_compute; reflexivity|vm_compute; reflexivity| |vm_compute; reflexivity]. split; [vm_compute; congruence|].
  change (zone_size_idx v 4096) with 3. intros i Hr. assert (i = 0 \/ 3 <= i) as [->|Hi]; [|intros _ _; vm_compute; split; congruence|lia].
  induction Hr as [|i _ [->|?] H3 _]; [by left| |change (zone_size_idx v 4096) with 3 in H3; lia]. right. vm_compute. congruence.
Defined.

Lemma verify_empty_chunk_diverges_witness : let v := ex_zone (ex_hdr CHUNK_TYPE_FREE 0) (ex_hdr CHUNK_TYPE_FREE 2) (ex_hdr CHUNK_TYPE_FOOTER 2) in
  forall fuel, heap_verify_zone fuel v 4096 = None.
Proof. intros v. apply verify_empty_chunk_diverges; vm_compute; reflexivity. Defined.

(** ** Checking a remote heap (heap.c)

    heap_check_remote reads the header and then zone after zone of a remote pool
    into local buffers and verifies them there. *)

Section Remote.
(** ops->read: the bytes, or an error.  [header] is on the stack, [zone_buff] is
    what Malloc returns. *)
Context (fuel : nat) (read : Z -> nat -> option (list byte)) (header zone_buff : Z).

(** The loop over the zones from [i] on; [n] are left. *)
Fixpoint check_remote_zones (n : nat) (v : mem) (heap_start i : Z) : option Z :=
  match n with
  | O => Some 0
  | S n =>
      match read (ZID_TO_ZONE heap_start i) (Z.to_nat sizeof_zone) with
      | None => Some (-1)
      | Some bs =>
          let v := write_bytes v zone_buff bs in
          r ← heap_verify_zone fuel v zone_buff;
          if negb (r =? 0) then Some (-1) else check_remote_zones n v heap_start (i + 1)
      end
  end.

Definition heap_check_remote (v : mem) (heap_start heap_size : Z) : option Z :=
  if heap_size <? HEAP_MIN_SIZE then Some (-1) else
  match read heap_start (Z.to_nat sizeof_heap_header) with
  | None => Some (-1)
  | Some bs =>
      let v := write_bytes v header bs in
      r ← heap_verify_header v header;
      if negb (r =? 0) then Some (-1) else
      if zone_buff =? 0 then Some (-1) else
      check_remote_zones (Z.to_nat (heap_max_zone heap_size)) v heap_start 0
  end.

(** ** A zone elsewhere *)

Definition copied (v v' : mem) (a a' len : Z) : Prop := forall x, 0 <= x < len -> v' (a' + x) = v (a + x).

Lemma load_copied v v' a a' len off n : copied v v' a a' len -> 0 <= off -> off + Z.of_nat n <= len -> read_bytes v' (a' + off) n = read_bytes v (a + off) n.
Proof. intros Hc H0 Hl. apply read_bytes_eq. intros i Hi. rewrite <- !Z.add_assoc. apply Hc. lia. Qed.

Lemma verify_chunks_copied v v' z z' f : copied v v' z z' sizeof_zone -> zone_size_idx v z <= MAX_CHUNK -> forall i, 0 <= i -> verify_chunks f v' z' i = verify_chunks f v z i.
Proof.
  intros Hc Hs. assert (sizeof_zone = 524288 /\ sizeof_zone_header = 64 /\ sizeof_chunk_header = 8 /\ MAX_CHUNK = 65528) as (Z1 & Z2 & Z3 & Z4) by done.
  assert (zone_size_idx v' z' = zone_size_idx v z) as Esz by (unfold zone_size_idx, load32; f_equal; apply (load_copied v v' z z' sizeof_zone); [done|lia|lia]).
  assert (forall i, 0 <= i < MAX_CHUNK -> hdr_type v' (chunk_hdr z' i) = hdr_type v (chunk_hdr z i) /\ hdr_flags v' (chunk_hdr z' i) = hdr_flags v (chunk_hdr z i) /\ hdr_size_idx v' (chunk_hdr z' i) = hdr_size_idx v (chunk_hdr z i)) as Hh.
  { intros i Hi. unfold hdr_type, hdr_flags, hdr_size_idx, load16, load32, chunk_hdr. rewrite Z2, Z3, <- !Z.add_assoc. split; [|split]; f_equal; apply (load_copied v v' z z' sizeof_zone); (done || lia). }
  induction f as [|f IH]; intros i Hi; cbn [verify_chunks]; rewrite Esz; destruct (Z.ltb_spec i (zone_size_idx v z)) as [Hlt|Hge]; try done.
  destruct (Hh i ltac:(lia)) as (E1 & E2 & E3). unfold heap_verify_chunk_header. rewrite E1, E2, E3. destruct (negb _); [done|]. apply IH. unfold u32. apply Z.mod_pos_bound. lia.
Qed.

Lemma verify_zone_copied v v' z z' : copied v v' z z' sizeof_zone -> zone_size_idx v z <= MAX_CHUNK -> heap_verify_zone fuel v' z' = heap_verify_zone fuel v z.
Proof.
  intros Hc Hs. assert (sizeof_zone = 524288) as Z1 by done. assert (zone_size_idx v' z' = zone_size_idx v z) as Esz by (unfold zone_size_idx, load32; f_equal; apply (load_copied v v' z z' sizeof_zone); [done|lia|lia]).
  assert (zone_magic v' z' = zone_magic v z) as Em by (unfold zone_magic, load32; f_equal; rewrite <- (Z.add_0_r z'), <- (Z.add_0_r z); apply (load_copied v v' z z' sizeof_zone); [done|lia|lia]).
  unfold heap_verify_zone, heap_verify_zone_header. by rewrite Em, Esz, (verify_chunks_copied v v' z z' fuel Hc Hs 0) by lia.
Qed.

Lemma header_copied v v' h h' : copied v v' h h' 1024 -> heap_verify_header v' h' = heap_verify_header v h.
Proof.
  intros Hc. unfold heap_verify_header. rewrite (checksum_verify_copy v' v h' h sizeof_heap_header 1016); try (unfold sizeof_heap_header; lia); try done.
  rewrite <- (Z.add_0_r h'), <- (Z.add_0_r h), (load_copied v v' h h' 1024 0 16); (done || lia).
Qed.

Lemma copy_copied rv v a a' len : copied rv (write_bytes v a' (read_bytes rv a (Z.to_nat len))) a a' len.
Proof.
  intros x Hx. rewrite write_read_pt. rewrite (proj2 (Z.leb_le _ _)), (proj2 (Z.ltb_lt _ _)) by lia. cbn [andb]. f_equal. lia.
Qed.

Lemma remote_zones rv heap_start n : (forall a k, read a k = Some (read_bytes rv a k)) -> (forall i, 0 <= i -> zone_size_idx rv (ZID_TO_ZONE heap_start i) <= MAX_CHUNK) ->
  forall i v, 0 <= i -> check_remote_zones n v heap_start i = check_zones n fuel rv heap_start i.
Proof.
  intros Hr Hs. induction n as [|n IH]; intros i v Hi; [done|]. cbn [check_remote_zones check_zones]. rewrite Hr. cbv zeta.
  rewrite (verify_zone_copied rv _ (ZID_TO_ZONE heap_start i) zone_buff); [|apply copy_copied|by apply Hs].
  destruct (heap_verify_zone _ _ _) as [r|]; [|done]. cbn [mbind option_bind]. destruct (negb _); [done|]. apply IH. lia.
Qed.

(** The remote check agrees with the local one.  When ops->read returns the
    bytes of the remote memory, the buffer could be allocated and no zone claims
    more chunks than a zone can have, heap_check_remote gives the verdict that
    heap_check gives about the remote memory, and terminates when it does. *)
Theorem heap_check_remote_agrees rv v heap_start heap_size : (forall a n, read a n = Some (read_bytes rv a n)) -> zone_buff <> 0 ->
  (forall i, 0 <= i -> zone_size_idx rv (ZID_TO_ZONE heap_start i) <= MAX_CHUNK) ->
  heap_check_remote v heap_start heap_size = heap_check fuel rv heap_start heap_size.
Proof.
  intros Hr Hb Hs. unfold heap_check_remote, heap_check. destruct (heap_size <? HEAP_MIN_SIZE); [done|]. rewrite Hr. cbv zeta. rewrite (header_copied rv _ heap_start header (copy_copied rv v heap_start header sizeof_heap_header)).
  destruct (heap_verify_header rv heap_start) as [r|]; [|done]. cbn [mbind option_bind]. destruct (negb _); [done|]. rewrite (proj2 (Z.eqb_neq _ _) Hb). by apply remote_zones.
Qed.
End Remote.

(** A region without a heap is rejected by both. *)
Lemma heap_check_remote_agrees_witness : let rv : mem := fun _ => Byte.x00 in
  heap_check_remote 0 (fun a n => Some (read_bytes rv a n)) 100 65536 rv 4096 (2 ^ 21) = heap_check 0 rv 4096 (2 ^ 21).
Proof. intros rv. apply heap_check_remote_agrees; [reflexivity|discriminate|]. intros i _. change (zone_size_idx rv (ZID_TO_ZONE 4096 i)) with 0. vm_compute. discriminate. Defined.
