(* ===== verification/HeapArena.v ===== *)
(** * Arenas (libpmemobj/heap.c)

    An arena is one bucket per allocation class.  Threads are attached to arenas
    on their first allocation, to the least used one that is automatic.  Arenas
    are known by their position in the vector, which only grows; a thread is
    known by a number, and [tls] is what os_tls_get returns to it. *)
From stdpp Require Import base numbers list list_numbers gmap.
From Stdlib Require Import ZArith Lia Bool.
From S2P Require Import Prelude.

Record arena := Arena { ar_buckets : Z -> Z; automatic : bool; nthreads : Z }.
Record arenas := Arenas { ar_vec : list (option arena); ar_capacity : Z; nactive : Z; tls : gmap Z nat }.

Implicit Types (h : arenas) (t : Z) (i : nat).

Definition MAX_DEFAULT_ARENAS : Z := 1024.

(** [reserve]: the result of VEC_RESERVE.  [None]: a NULL dereference, an access
    behind the end of the vector, or an assertion. *)
Definition heap_arenas_init (reserve : bool) : Z * arenas :=
  if reserve then (0, Arenas [] MAX_DEFAULT_ARENAS 0 ∅) else (-1, Arenas [] 0 0 ∅).

Definition arena_at h i : option arena := a ← ar_vec h !! i; a.
Definition set_arena i (a : arena) h : arenas := Arenas (<[i := Some a]> (ar_vec h)) (ar_capacity h) (nactive h) (tls h).
Definition set_nactive n h : arenas := Arenas (ar_vec h) (ar_capacity h) n (tls h).
Definition set_tls (m : gmap Z nat) h : arenas := Arenas (ar_vec h) (ar_capacity h) (nactive h) m.
Definition with_nthreads (n : Z) (a : arena) : arena := Arena (ar_buckets a) (automatic a) n.

Definition heap_arena_thread_detach i h : option arenas :=
  a ← arena_at h i;
  let n := u64 (nthreads a - 1) in
  let h := set_arena i (with_nthreads n a) h in
  Some (if n =? 0 then set_nactive (u64 (nactive h - 1)) h else h).

Definition heap_arena_thread_attach t i h : option arenas :=
  h ← match tls h !! t with Some j => heap_arena_thread_detach j h | None => Some h end;
  a ← arena_at h i;
  let h := set_arena i (with_nthreads (u64 (nthreads a + 1)) a) h in
  let h := if nthreads a =? 0 then set_nactive (u64 (nactive h + 1)) h else h in
  Some (set_tls (<[t := i]> (tls h)) h).

(** The thread ends. *)
Definition heap_thread_arena_destructor t h : option arenas :=
  match tls h !! t with
  | None => Some h
  | Some i => h ← heap_arena_thread_detach i h; Some (set_tls (delete t (tls h)) h)
  end.

(** The loop: [best] is the least used arena so far. *)
Fixpoint least_used (l : list (option arena)) i (best : option (nat * Z)) : option (option (nat * Z)) :=
  match l with
  | [] => Some best
  | None :: _ => None
  | Some a :: l =>
      let best := if negb (automatic a) then best else
                  match best with
                  | None => Some (i, nthreads a)
                  | Some (_, n) => if nthreads a <? n then Some (i, nthreads a) else best
                  end in
      least_used l (S i) best
  end.

Definition heap_thread_arena_assign t h : option (nat * arenas) :=
  best ← least_used (ar_vec h) 0 None;
  '(i, _) ← best;
  h ← heap_arena_thread_attach t i h;
  Some (i, h).

Definition heap_thread_arena t h : option (nat * arenas) :=
  match tls h !! t with Some i => Some (i, h) | None => heap_thread_arena_assign t h end.

Definition heap_get_thread_arena_id t h : option (Z * arenas) :=
  '(i, h) ← heap_thread_arena t h;
  if (i <? length (ar_vec h))%nat then Some (Z.of_nat i + 1, h) else None.

(** VEC_PUSH_BACK; [push]: whether Realloc succeeds when the vector is full. *)
Definition arenas_push (a : option arena) (push : bool) h : option arenas :=
  let size := Z.of_nat (length (ar_vec h)) in
  if negb (size =? ar_capacity h) then Some (Arenas (ar_vec h ++ [a]) (ar_capacity h) (nactive h) (tls h)) else
  if negb push then None else
  let ncapacity := u64 (ar_capacity h * 2) in
  Some (Arenas (ar_vec h ++ [a]) (if ncapacity =? 0 then 64 else ncapacity) (nactive h) (tls h)).

(** [a]: what heap_arena_new returns. *)
Definition heap_arena_create (a : option arena) (push : bool) h : Z * arenas :=
  match a with
  | None => (-1, h)
  | Some a =>
      match arenas_push (Some a) push h with
      | None => (-1, h)
      | Some h => (Z.of_nat (length (ar_vec h)), h)
      end
  end.

Definition heap_get_narenas_total h : Z := u32 (Z.of_nat (length (ar_vec h))).
Definition heap_get_narenas_max h : Z := u32 (ar_capacity h).

(** [reserve]: the result of vec_reserve, which VEC_RESERVE skips when the
    vector already has more elements than asked for. *)
Definition heap_set_narenas_max (size : Z) (reserve : bool) h : Z * arenas :=
  let capacity := u32 (ar_capacity h) in
  if size <? capacity then (-1, h) else
  if size =? capacity then (0, h) else
  if (length (ar_vec h) =? 0)%nat || (Z.of_nat (length (ar_vec h)) <? size)
  then if reserve then (0, Arenas (ar_vec h) size (nactive h) (tls h)) else (-1, h)
  else (0, h).

Fixpoint count_automatic (l : list (option arena)) : option Z :=
  match l with
  | [] => Some 0
  | None :: _ => None
  | Some a :: l => n ← count_automatic l; Some (if automatic a then n + 1 else n)
  end.

Definition heap_get_narenas_auto h : option Z := count_automatic (ar_vec h).

(** heap_get_arena_by_id: ids start with 1. *)
Definition heap_get_arena_by_id (arena_id : Z) h : option nat := if arena_id <? 1 then None else Some (Z.to_nat (arena_id - 1)).

Definition heap_get_arena_auto (arena_id : Z) h : option bool :=
  i ← heap_get_arena_by_id arena_id h; a ← arena_at h i; Some (automatic a).

Definition heap_set_arena_auto (arena_id : Z) (auto : bool) h : option (Z * arenas) :=
  nautomatic ← count_automatic (ar_vec h);
  i ← heap_get_arena_by_id arena_id h;
  a ← arena_at h i;
  if negb auto && (nautomatic <=? 1) && automatic a then Some (-1, h)
  else Some (0, set_arena i (Arena (ar_buckets a) auto (nthreads a)) h).

Definition heap_set_arena_thread t (arena_id : Z) h : option arenas :=
  i ← heap_get_arena_by_id arena_id h; heap_arena_thread_attach t i h.

(** The arenas of heap_boot, all automatic; NULL is pushed like the others. *)
Fixpoint push_arenas (news : list (option arena)) (push : bool) h : option arenas :=
  match news with
  | [] => Some h
  | a :: news => h ← arenas_push a push h; push_arenas news push h
  end.
