(* ===== verification/HeapArenaSpec.v ===== *)
(** * Arenas: theorems

    The counters of threads and of active arenas are exact, there is always an
    automatic arena, and a new thread goes to one that has the fewest threads. *)
From stdpp Require Import base numbers list list_numbers gmap fin_maps relations.
From Stdlib Require Import ZArith Lia Bool.
From S2P Require Import Prelude HeapArena.

Implicit Types (h : arenas) (t : Z) (i j : nat) (m : gmap Z nat).

(** The threads that are attached to an arena. *)
Definition attached m i : nat := size (filter (fun x : Z * nat => x.2 = i) m).

Definition active (a : option arena) : bool := match a with Some a => negb (nthreads a =? 0) | None => false end.
Definition active_count (l : list (option arena)) : Z := Z.of_nat (length (List.filter active l)).

Record arenas_ok h : Prop := ArenasOk {
  ao_all i : (i < length (ar_vec h))%nat -> exists a, ar_vec h !! i = Some (Some a) /\ nthreads a = Z.of_nat (attached (tls h) i);
  ao_tls t i : tls h !! t = Some i -> (i < length (ar_vec h))%nat;
  ao_active : nactive h = active_count (ar_vec h);
  ao_auto : exists i a, arena_at h i = Some a /\ automatic a = true;
  ao_small : Z.of_nat (size (tls h)) < 2 ^ 32 /\ Z.of_nat (length (ar_vec h)) < 2 ^ 32
}.

(** ** Counting *)

Lemma attached_insert_new m t i j : m !! t = None -> attached (<[t := i]> m) j = (attached m j + if decide (i = j) then 1 else 0)%nat.
Proof.
  intros Hn. unfold attached. destruct (decide (i = j)) as [->|Hne].
  - rewrite map_filter_insert_True by done. rewrite map_size_insert_None; [lia|]. apply map_lookup_filter_None. by left.
  - rewrite map_filter_insert_False by done. rewrite delete_id by done. lia.
Qed.

Lemma attached_delete m t i j : m !! t = Some i -> attached m j = (attached (delete t m) j + if decide (i = j) then 1 else 0)%nat.
Proof.
  intros Hi. rewrite <- (insert_delete_id m t i Hi) at 1. apply attached_insert_new. apply lookup_delete_eq.
Qed.

Lemma attached_size m j : (attached m j <= size m)%nat.
Proof. unfold attached. apply map_subseteq_size, map_filter_subseteq. Qed.

Lemma active_insert l i a b : l !! i = Some a -> active_count (<[i := b]> l) = active_count l + (if active b then 1 else 0) - (if active a then 1 else 0).
Proof.
  unfold active_count. revert i. induction l as [|c l IH]; intros [|i] E; cbn in E; try done.
  - injection E as ->. cbn. destruct (active a), (active b); cbn; lia.
  - specialize (IH i E). cbn. destruct (active c); cbn; [|exact IH]. rewrite !Nat2Z.inj_succ. unfold Z.succ.
    etransitivity; [apply (f_equal (fun x => x + 1)); exact IH|]. cbn. lia.
Qed.

Lemma active_app l a : active_count (l ++ [a]) = active_count l + (if active a then 1 else 0).
Proof. unfold active_count. rewrite List.filter_app, length_app. cbn. destruct (active a); cbn; lia. Qed.

Lemma active_bound l : 0 <= active_count l <= Z.of_nat (length l).
Proof. unfold active_count. pose proof (List.filter_length_le active l). lia. Qed.

(** ** Operations *)

Lemma arena_at_lookup h i a : arena_at h i = Some a <-> ar_vec h !! i = Some (Some a).
Proof.
  unfold arena_at. destruct (ar_vec h !! i) as [b|]; cbn; [|done]. split; congruence.
Qed.

(** A change of one counter together with the table of threads. *)
Lemma counter_ok h i a (n : Z) m : arenas_ok h -> ar_vec h !! i = Some (Some a) -> n = Z.of_nat (attached m i) ->
  (forall j, j <> i -> attached m j = attached (tls h) j) -> (forall t j, m !! t = Some j -> (j < length (ar_vec h))%nat) -> Z.of_nat (size m) < 2 ^ 32 ->
  let h' := set_arena i (with_nthreads n a) h in
  arenas_ok (set_tls m (set_nactive (nactive h + (if n =? 0 then 0 else 1) - (if nthreads a =? 0 then 0 else 1)) h')).
Proof.
  intros [H1 H2 H3 (k & b & H4 & H4') [H5 H6]] Ha Hn Hj Hm Hs h'. assert (i < length (ar_vec h))%nat as Hi by (by apply lookup_lt_Some in Ha). constructor; cbn.
  - rewrite length_insert. intros j Hjl. destruct (decide (j = i)) as [->|Hne].
    + rewrite list_lookup_insert_eq by done. by eexists.
    + rewrite list_lookup_insert_ne by done. destruct (H1 j Hjl) as (b' & E1 & E2). exists b'. by rewrite Hj.
  - rewrite length_insert. exact Hm.
  - rewrite (active_insert _ _ (Some a)) by done. rewrite H3. cbn. destruct (n =? 0), (nthreads a =? 0); cbn; lia.
  - apply arena_at_lookup in H4. destruct (decide (k = i)) as [->|Hne].
    + exists i, (with_nthreads n a). split; [|by simplify_eq]. apply arena_at_lookup. cbn. by apply list_lookup_insert_eq.
    + exists k, b. split; [|done]. apply arena_at_lookup. cbn. by rewrite list_lookup_insert_ne by done.
  - by rewrite length_insert.
Qed.

Lemma detach_ok h t i : arenas_ok h -> tls h !! t = Some i ->
  exists h', heap_arena_thread_detach i h = Some h' /\ tls h' = tls h /\ length (ar_vec h') = length (ar_vec h) /\ arenas_ok (set_tls (delete t (tls h)) h').
Proof.
  intros Hok Ht. pose proof Hok as [H1 H2 H3 H4 [H5 H6]]. destruct (H1 i (H2 t i Ht)) as (a & Ea & En).
  pose proof (attached_delete (tls h) t i i Ht) as Ad. rewrite decide_True in Ad by done. pose proof (attached_size (tls h) i) as As.
  unfold heap_arena_thread_detach. rewrite (proj2 (arena_at_lookup h i a) Ea). cbn [mbind option_bind]. rewrite (u64_small (nthreads a - 1)) by lia.
  pose proof (counter_ok h i a (nthreads a - 1) (delete t (tls h)) Hok Ea) as Hc. cbv zeta in Hc.
  rewrite (proj2 (Z.eqb_neq (nthreads a) 0)) in Hc by lia.
  eexists. split; [reflexivity|]. pose proof (active_bound (ar_vec h)) as Hb.
  assert (1 <= active_count (ar_vec h)) as Hpos.
  { pose proof (active_insert (ar_vec h) i (Some a) None Ea) as E. cbn in E. rewrite (proj2 (Z.eqb_neq (nthreads a) 0)) in E by lia. cbn in E. pose proof (active_bound (<[i := None]> (ar_vec h))). lia. }
  split; [by destruct (_ =? 0)|]. split; [destruct (_ =? 0); cbn; apply length_insert|].
  replace (set_tls _ _) with (set_tls (delete t (tls h)) (set_nactive (nactive h + (if nthreads a - 1 =? 0 then 0 else 1) - 1) (set_arena i (with_nthreads (nthreads a - 1) a) h))).
  - apply Hc; [lia| | |].
    + intros j Hj. pose proof (attached_delete (tls h) t i j Ht) as Ad'. rewrite decide_False in Ad' by done. lia.
    + intros t' j [_ Hj]%lookup_delete_Some. eauto.
    + rewrite map_size_delete_Some by eauto. lia.
  - destruct (nthreads a - 1 =? 0); cbn; unfold set_tls, set_nactive, set_arena; cbn; f_equal; [rewrite u64_small; lia|lia].
Qed.

Lemma attach_fresh_ok h t i : arenas_ok h -> tls h !! t = None -> (i < length (ar_vec h))%nat -> Z.of_nat (S (size (tls h))) < 2 ^ 32 ->
  exists a, arena_at h i = Some a /\
    let h1 := set_arena i (with_nthreads (u64 (nthreads a + 1)) a) h in
    let h2 := if nthreads a =? 0 then set_nactive (u64 (nactive h1 + 1)) h1 else h1 in
    arenas_ok (set_tls (<[t := i]> (tls h)) h2).
Proof.
  intros Hok Ht Hi Hs. pose proof Hok as [H1 H2 H3 H4 [H5 H6]]. destruct (H1 i Hi) as (a & Ea & En). exists a. split; [by apply arena_at_lookup|]. cbv zeta.
  pose proof (attached_size (tls h) i) as As. rewrite (u64_small (nthreads a + 1)) by lia.
  pose proof (counter_ok h i a (nthreads a + 1) (<[t := i]> (tls h)) Hok Ea) as Hc. cbv zeta in Hc. rewrite (proj2 (Z.eqb_neq (nthreads a + 1) 0)) in Hc by lia.
  pose proof (active_bound (ar_vec h)) as Hb.
  replace (set_tls _ _) with (set_tls (<[t := i]> (tls h)) (set_nactive (nactive h + 1 - (if nthreads a =? 0 then 0 else 1)) (set_arena i (with_nthreads (nthreads a + 1) a) h))).
  - apply Hc.
    + rewrite attached_insert_new, decide_True by done. lia.
    + intros j Hj. rewrite attached_insert_new, decide_False by done. lia.
    + intros t' j [[_ <-]|[_ Hj]]%lookup_insert_Some; eauto.
    + rewrite map_size_insert_None by done. lia.
  - destruct (nthreads a =? 0); cbn; unfold set_tls, set_nactive, set_arena; cbn; f_equal; [rewrite u64_small; lia|lia].
Qed.

Lemma attach_ok h t i : arenas_ok h -> (i < length (ar_vec h))%nat -> Z.of_nat (S (size (tls h))) < 2 ^ 32 ->
  exists h', heap_arena_thread_attach t i h = Some h' /\ arenas_ok h' /\ tls h' = <[t := i]> (tls h) /\ length (ar_vec h') = length (ar_vec h).
Proof.
  intros Hok Hi Hs. unfold heap_arena_thread_attach.
  assert (exists h1, match tls h !! t with Some j => heap_arena_thread_detach j h | None => Some h end = Some h1 /\ tls h1 = tls h /\
    length (ar_vec h1) = length (ar_vec h) /\ arenas_ok (set_tls (delete t (tls h)) h1)) as (h1 & -> & T1 & L1 & O1).
  { destruct (tls h !! t) as [j|] eqn:Et; [by apply detach_ok|]. exists h. split; [done|]. split; [done|]. split; [done|]. rewrite delete_id by done. by destruct h. }
  cbn [mbind option_bind]. destruct (attach_fresh_ok (set_tls (delete t (tls h)) h1) t i O1) as (a & Ea & Ho).
  - cbn. apply lookup_delete_eq.
  - cbn. lia.
  - cbn. pose proof (map_subseteq_size (delete t (tls h)) (tls h) (delete_subseteq _ _)). lia.
  - change (arena_at (set_tls (delete t (tls h)) h1) i) with (arena_at h1 i) in Ea. rewrite Ea. cbn [mbind option_bind]. eexists. split; [reflexivity|]. cbn in Ho. rewrite insert_delete_eq in Ho.
    destruct (nthreads a =? 0); cbn in Ho |- *; rewrite T1; (split; [exact Ho|]; split; [done|rewrite length_insert; exact L1]).
Qed.

Lemma least_used_spec l : forall i best, (forall j, (j < length l)%nat -> exists a, l !! j = Some (Some a)) ->
  exists r, least_used l i best = Some r /\
    match r with
    | None => best = None /\ forall j a, l !! j = Some (Some a) -> automatic a = false
    | Some (k, n) =>
        (best = Some (k, n) \/ exists j a, k = (i + j)%nat /\ l !! j = Some (Some a) /\ automatic a = true /\ nthreads a = n) /\
        (forall j a, l !! j = Some (Some a) -> automatic a = true -> n <= nthreads a) /\ (forall k' n', best = Some (k', n') -> n <= n')
    end.
Proof.
  induction l as [|o l IH]; intros i best Hall.
  { exists best. split; [done|]. destruct best as [[k n]|]; [|by split]. split; [by left|]. split; [done|]. intros k' n' [= <- <-]. lia. }
  destruct (Hall 0%nat ltac:(cbn; lia)) as (a & [= ->]). cbn [least_used].
  set (best' := if negb (automatic a) then best else _). destruct (IH (S i) best') as (r & -> & Hr); [intros j Hj; apply (Hall (S j)); cbn; lia|].
  exists r. split; [done|]. destruct r as [[k n]|].
  - destruct Hr as (R1 & R2 & R3). split; [|split].
    + destruct R1 as [R1|(j & b & -> & Hb)]; [|right; exists (S j), b; split; [lia|done]]. unfold best' in R1. destruct (automatic a) eqn:Ea; cbn [negb] in R1; [|by left].
      destruct best as [[k0 n0]|]; [destruct (nthreads a <? n0)|]; simplify_eq; try (by left); right; exists 0%nat, a; (split; [lia|done]).
    + intros [|j] b Hb Hau; [|by apply (R2 j)]. injection Hb as <-. unfold best' in R3. rewrite Hau in R3. cbn [negb] in R3.
      destruct best as [[k0 n0]|]; [destruct (Z.ltb_spec (nthreads a) n0) as [Hlt|Hge]|]; try (by apply (R3 _ _ eq_refl)). pose proof (R3 _ _ eq_refl). lia.
    + intros k' n' ->. unfold best' in R3. destruct (automatic a); cbn [negb] in R3; [|by apply (R3 _ _ eq_refl)]. destruct (Z.ltb_spec (nthreads a) n') as [Hlt|Hge]; [|by apply (R3 _ _ eq_refl)].
      pose proof (R3 _ _ eq_refl). lia.
  - destruct Hr as [Hb Hn]. unfold best' in Hb. destruct (automatic a) eqn:Ea; cbn [negb] in Hb; [destruct best as [[? ?]|]; [by destruct (_ <? _)|done]|].
    split; [done|]. intros [|j] b Hj; [by injection Hj as <-|by apply (Hn j)].
Qed.

Lemma count_insert l : forall i a b n, l !! i = Some (Some a) -> count_automatic l = Some n ->
  count_automatic (<[i := Some b]> l) = Some (n + (if automatic b then 1 else 0) - (if automatic a then 1 else 0)).
Proof.
  induction l as [|[c|] l IH]; intros [|i] a b n E Hc; cbn in E, Hc; try done.
  - injection E as ->. cbn. apply bind_Some in Hc as (n' & -> & [= <-]). cbn. destruct (automatic a), (automatic b); f_equal; lia.
  - apply bind_Some in Hc as (n' & En & [= <-]). change (count_automatic (<[S i := Some b]> (Some c :: l))) with (n ← count_automatic (<[i := Some b]> l); Some (if automatic c then n + 1 else n)).
    rewrite (IH i a b n' E En). cbn. destruct (automatic c); f_equal; lia.
Qed.

Lemma count_exists l n : count_automatic l = Some n -> 0 <= n /\ (0 < n <-> exists i a, l !! i = Some (Some a) /\ automatic a = true).
Proof.
  revert n. induction l as [|[c|] l IH]; intros n Hc; cbn in Hc; [|apply bind_Some in Hc as (n' & En & [= <-])|done].
  - injection Hc as <-. split; [lia|]. split; [lia|]. by intros (i & a & E & _).
  - destruct (IH n' En) as [I1 I2]. split; [destruct (automatic c); lia|]. destruct (automatic c) eqn:Ec.
    + split; [|lia]. intros _. by exists 0%nat, c.
    + rewrite I2. split; intros (i & a & E & Ha); [by exists (S i), a|]. destruct i as [|i]; [cbn in E; simplify_eq; congruence|]. by exists i, a.
Qed.

(** A fresh arena has no threads. *)
Definition fresh (a : option arena) : Prop := match a with Some a => nthreads a = 0 | None => False end.

Lemma push_ok h a push h' : arenas_ok h -> fresh a -> Z.of_nat (S (length (ar_vec h))) < 2 ^ 32 -> arenas_push a push h = Some h' -> arenas_ok h'.
Proof.
  intros [H1 H2 H3 (k & b & H4 & H4') [H5 H6]] Ha Hs E.
  assert (exists cap, h' = Arenas (ar_vec h ++ [a]) cap (nactive h) (tls h)) as [cap ->].
  { unfold arenas_push in E. destruct (negb _); [|destruct (negb _); [done|]]; injection E as <-; by eexists. }
  destruct a as [a|]; [|done]. cbn in Ha. constructor; cbn.
  - rewrite length_app. cbn. intros i Hi. destruct (decide (i < length (ar_vec h))%nat) as [Hl|Hl].
    + rewrite lookup_app_l by done. by apply H1.
    + assert (i = length (ar_vec h)) as -> by lia. rewrite lookup_app_r, Nat.sub_diag by lia. exists a. split; [done|]. rewrite Ha. symmetry.
      assert (attached (tls h) (length (ar_vec h)) = 0)%nat as ->; [|done]. unfold attached. apply map_size_empty_iff, map_empty. intros t.
      apply map_lookup_filter_None. destruct (tls h !! t) as [j|] eqn:Et; [|by left]. right. intros j' [= <-]. cbn. apply H2 in Et. lia.
  - intros t i Et. apply H2 in Et. rewrite length_app. lia.
  - rewrite active_app, H3. cbn. rewrite Ha. cbn. lia.
  - exists k, b. split; [|done]. apply arena_at_lookup. cbn. apply arena_at_lookup in H4. by apply lookup_app_l_Some.
  - rewrite length_app. cbn. lia.
Qed.

Lemma set_auto_ok h id auto r h' : arenas_ok h -> heap_set_arena_auto id auto h = Some (r, h') -> arenas_ok h'.
Proof.
  intros Hok E. pose proof Hok as [H1 H2 H3 H4 H5]. unfold heap_set_arena_auto in E. apply bind_Some in E as (n & En & E). apply bind_Some in E as (i & _ & E). apply bind_Some in E as (a & Ea & E).
  destruct (negb auto && (n <=? 1) && automatic a) eqn:Ec; injection E as <- <-; [done|]. apply arena_at_lookup in Ea. assert (i < length (ar_vec h))%nat as Hi by (by apply lookup_lt_Some in Ea).
  constructor; cbn.
  - rewrite length_insert. intros j Hj. destruct (H1 j Hj) as (b & E1 & E2). destruct (decide (j = i)) as [->|Hne].
    + rewrite list_lookup_insert_eq by done. eexists. split; [done|]. cbn. rewrite Ea in E1. by injection E1 as <-.
    + rewrite list_lookup_insert_ne by done. eauto.
  - rewrite length_insert. exact H2.
  - rewrite (active_insert _ _ (Some a)) by done. cbn. rewrite H3. destruct (nthreads a =? 0); cbn; lia.
  - set (b := Arena (ar_buckets a) auto (nthreads a)). pose proof (count_insert _ i a b n Ea En) as Ecn. destruct (count_exists _ _ En) as [_ C1]. destruct (count_exists _ _ Ecn) as [_ C2].
    assert (0 < n) as Hn. { apply C1. destruct H4 as (k & c & Hk & Hc). exists k, c. by rewrite arena_at_lookup in Hk. }
    assert (0 < n + (if automatic b then 1 else 0) - (if automatic a then 1 else 0)) as Hpos.
    { cbn. destruct auto, (automatic a), (Z.leb_spec n 1); cbn in Ec; try done; lia. }
    apply C2 in Hpos as (k & c & Hk & Hc). exists k, c. split; [|done]. by apply arena_at_lookup.
  - by rewrite length_insert.
Qed.

(** ** Steps *)

(** What threads do to the arenas, one call at a time (the calls hold a lock).
    There are fewer than 2^32 threads and arenas. *)
Inductive arena_step h : arenas -> Prop :=
  | step_thread t i h' : Z.of_nat (S (size (tls h))) < 2 ^ 32 -> heap_thread_arena t h = Some (i, h') -> arena_step h h'
  | step_set_thread t id h' : Z.of_nat (S (size (tls h))) < 2 ^ 32 -> 1 <= id <= Z.of_nat (length (ar_vec h)) ->
      heap_set_arena_thread t id h = Some h' -> arena_step h h'
  | step_end t h' : heap_thread_arena_destructor t h = Some h' -> arena_step h h'
  | step_create a push r h' : (forall x, a = Some x -> fresh a) -> Z.of_nat (S (length (ar_vec h))) < 2 ^ 32 ->
      heap_arena_create a push h = (r, h') -> arena_step h h'
  | step_auto id auto r h' : heap_set_arena_auto id auto h = Some (r, h') -> arena_step h h'
  | step_max size reserve r h' : heap_set_narenas_max size reserve h = (r, h') -> arena_step h h'.

Lemma all_arenas h : arenas_ok h -> forall j, (j < length (ar_vec h))%nat -> exists a, ar_vec h !! j = Some (Some a).
Proof. intros Hok j Hj. destruct (ao_all h Hok j Hj) as (a & Ea & _). eauto. Qed.

Lemma assign_ok h t : arenas_ok h -> Z.of_nat (S (size (tls h))) < 2 ^ 32 ->
  exists i a h', heap_thread_arena_assign t h = Some (i, h') /\ arenas_ok h' /\ tls h' = <[t := i]> (tls h) /\ arena_at h i = Some a /\ automatic a = true /\
    forall j b, arena_at h j = Some b -> automatic b = true -> nthreads a <= nthreads b.
Proof.
  intros Hok Hs. unfold heap_thread_arena_assign. destruct (least_used_spec (ar_vec h) 0 None (all_arenas h Hok)) as (r & -> & Hr). cbn [mbind option_bind].
  destruct r as [[k n]|].
  - destruct Hr as ([?|(j & a & -> & Ea & Hau & Hn)] & R2 & _); [done|]. cbn [mbind option_bind Nat.add].
    destruct (attach_ok h t j Hok) as (h' & -> & O & T & _); [by apply lookup_lt_Some in Ea|done|]. cbn [mbind option_bind].
    exists j, a, h'. split; [done|]. split; [done|]. split; [done|]. split; [by apply arena_at_lookup|]. split; [done|].
    intros j' b Hb Hab. apply arena_at_lookup in Hb. rewrite Hn. by apply (R2 j').
  - destruct Hr as [_ Hn]. destruct (ao_auto h Hok) as (i & a & Ha & Hau). apply arena_at_lookup in Ha. rewrite (Hn i a Ha) in Hau. done.
Qed.

Lemma step_ok h h' : arenas_ok h -> arena_step h h' -> arenas_ok h'.
Proof.
  intros Hok [t i h1 Hs E|t id h1 Hs Hid E|t h1 E|a push r h1 Hf Hl E|id auto r h1 E|sz reserve r h1 E].
  - unfold heap_thread_arena in E. destruct (tls h !! t) as [j|]; [by injection E as _ <-|]. destruct (assign_ok h t Hok Hs) as (k & a & h2 & E2 & O & _). rewrite E2 in E. by injection E as _ <-.
  - unfold heap_set_arena_thread, heap_get_arena_by_id in E. rewrite (proj2 (Z.ltb_ge _ _)) in E by lia. cbn in E. destruct (attach_ok h t (Z.to_nat (id - 1)) Hok ltac:(lia) Hs) as (h2 & E2 & O & _).
    rewrite E2 in E. by injection E as <-.
  - unfold heap_thread_arena_destructor in E. destruct (tls h !! t) as [i|] eqn:Et; [|by injection E as <-]. destruct (detach_ok h t i Hok Et) as (h2 & Ed & T & _ & O). rewrite Ed in E. cbn in E. injection E as <-. by rewrite T.
  - unfold heap_arena_create in E. destruct a as [a|]; [|by injection E as _ <-]. destruct (arenas_push (Some a) push h) as [h2|] eqn:Ep; injection E as _ <-; [|done].
    eapply push_ok; [exact Hok|apply (Hf a eq_refl)|exact Hl|exact Ep].
  - by eapply set_auto_ok.
  - unfold heap_set_narenas_max in E. assert (h1 = h \/ exists c, h1 = Arenas (ar_vec h) c (nactive h) (tls h)) as [->|[c ->]]; [|done|by destruct Hok].
    repeat case_match; simplify_eq; eauto.
Qed.

Lemma boot_ok n push h : (0 < n)%nat -> Z.of_nat n < 1024 ->
  push_arenas (replicate n (Some (Arena (fun _ => 0) true 0))) push (heap_arenas_init true).2 = Some h -> arenas_ok h.
Proof.
  intros Hn Hl. assert (forall k l, (k + length l < 1024)%nat -> push_arenas (replicate k (Some (Arena (fun _ => 0) true 0))) push (Arenas l MAX_DEFAULT_ARENAS 0 ∅) =
    Some (Arenas (l ++ replicate k (Some (Arena (fun _ => 0) true 0))) MAX_DEFAULT_ARENAS 0 ∅)) as Hp.
  { induction k as [|k IH]; intros l Hk; [by rewrite app_nil_r|]. cbn [replicate push_arenas]. unfold arenas_push. cbn [ar_vec ar_capacity nactive tls].
    rewrite (proj2 (Z.eqb_neq _ _)) by (unfold MAX_DEFAULT_ARENAS; lia). cbn [negb mbind option_bind]. rewrite IH by (rewrite length_app; cbn; lia). by rewrite <- app_assoc. }
  cbn [heap_arenas_init snd]. rewrite Hp by (cbn; lia). intros [= <-]. constructor; cbn [ar_vec tls nactive app].
  - rewrite length_replicate. intros i Hi. rewrite lookup_replicate_2 by done. eexists. split; [done|]. unfold attached. by rewrite map_filter_empty, map_size_empty.
  - intros t i. by rewrite lookup_empty.
  - clear. induction n as [|n IH]; [done|]. unfold active_count in *. cbn. exact IH.
  - exists 0%nat. eexists. split; [apply arena_at_lookup; cbn [ar_vec]; by apply lookup_replicate_2|done].
  - rewrite length_replicate, map_size_empty. lia.
Qed.

(** C20. Arenas.  From a booted heap on, whatever threads do (allocate for the
    first time, choose an arena, end, create arenas, make them automatic or not):
    the counter of every arena is the number of threads attached to it, the
    number of active arenas is the number of arenas that have threads, there is
    an automatic arena, and a thread that has no arena gets an automatic one, of
    those with the fewest threads. *)
Theorem arenas_balanced n push h0 h t : (0 < n)%nat -> Z.of_nat n < 1024 ->
  push_arenas (replicate n (Some (Arena (fun _ => 0) true 0))) push (heap_arenas_init true).2 = Some h0 ->
  rtc arena_step h0 h -> Z.of_nat (S (size (tls h))) < 2 ^ 32 -> tls h !! t = None ->
  arenas_ok h /\ exists i a h', heap_thread_arena t h = Some (i, h') /\ arenas_ok h' /\ tls h' = <[t := i]> (tls h) /\
    arena_at h i = Some a /\ automatic a = true /\ forall j b, arena_at h j = Some b -> automatic b = true -> nthreads a <= nthreads b.
Proof.
  intros Hn Hl E Hsteps Hs Ht. assert (arenas_ok h) as Hok.
  { pose proof (boot_ok n push h0 Hn Hl E) as H0. clear E Hs Ht. induction Hsteps as [|x y z Hxy _ IH]; [done|]. apply IH. by eapply step_ok. }
  split; [done|]. unfold heap_thread_arena. rewrite Ht. by apply assign_ok.
Qed.

Definition ex_arenas : arenas := Arenas (replicate 2 (Some (Arena (fun _ => 0) true 0))) 1024 0 ∅.

Lemma arenas_balanced_witness : let h := default ex_arenas (snd <$> heap_thread_arena 7 ex_arenas) in
  arenas_ok h /\ exists i a h', heap_thread_arena 8 h = Some (i, h') /\ arenas_ok h' /\ tls h' = <[8 := i]> (tls h) /\
    arena_at h i = Some a /\ automatic a = true /\ forall j b, arena_at h j = Some b -> automatic b = true -> nthreads a <= nthreads b.
Proof.
  intros h. apply (arenas_balanced 2 true ex_arenas h 8); [lia|lia|reflexivity| |vm_compute; reflexivity|vm_compute; reflexivity].
  apply rtc_once. apply (step_thread ex_arenas 7 0); [vm_compute; reflexivity|]. vm_compute. reflexivity.
Defined.
