(* ===== verification/Heap.v ===== *)
(** * The heap (libpmemobj/heap.c)

    Buckets of free blocks, runs that wait in recyclers, chunks that are split
    and coalesced.  The functions are the operations palloc.c asks for; they work
    on persistent memory and on the volatile state [heap_rt].  Buckets are known
    by their address.  Inserting a block into a tree container stores its descriptor
    to the block's own memory (see Container).  Locks and annotations for
    Valgrind are left out.  Out of fuel, a NULL dereference and an assertion are
    [None]. *)
From stdpp Require Import base numbers list list_numbers gmap.
From Stdlib Require Import ZArith Lia Bool.
From S2P Require Import Prelude Pmem Ulog Memops Ravl Container Seglists HeapLayout Memblock Critnib AllocClass Recycler Lane Tx Palloc HeapZone HeapArena.

Definition ENOENT : Z := 2.

(** The operations of a container through its table; a container of segregated
    lists has no get_rm_exact. *)
Inductive block_container := ContRavl (c : block_container_ravl) | ContSeg (c : block_container_seglists).

(** [aclass] is a pointer into the collection of classes. *)
Record hbucket := HBucket { hb_aclass : Z; hb_cont : block_container }.

(** What one call of recycler_recalc gets from its environment. *)
Record recalc_env := RecalcEnv { rce_push : nat -> bool; rce_repush : nat -> bool; rce_nas : list Z; rce_locked : bool }.

Record heap_rt := HeapRt {
  alloc_classes : alloc_class_collection;
  default_bucket : Z;
  h_buckets : gmap Z hbucket;
  h_arenas : arenas;
  recyclers : gmap Z recycler;
  nzones : Z;
  zones_exhausted : Z;
  h_mallocs : list Z;              (* what Malloc is going to return *)
  h_recalcs : list recalc_env;
  h_thread : Z                     (* the thread that runs *)
}.

(** ** Effects *)

Abbreviation HM := (heap_act heap_rt).
Definition hret {A} (x : A) : HM A := fun ws rt => Some (x, ws, rt).
Definition hbind {A B} (m : HM A) (f : A -> HM B) : HM B := fun ws rt => '(x, ws, rt) ← m ws rt; f x ws rt.
Definition hlift {A} (x : option A) : HM A := fun ws rt => x ← x; Some (x, ws, rt).

Declare Scope heap_scope.
Delimit Scope heap_scope with heap.
Notation "'let!' x ':=' m 'in' k" := (hbind m (fun x => k)) (at level 10, x name, m at level 100, k at level 200) : heap_scope.
Notation "'let!' ' x ':=' m 'in' k" := (hbind m (fun x => k)) (at level 10, x strict pattern, m at level 100, k at level 200) : heap_scope.
Open Scope heap_scope.

Definition get_vis : HM mem := fun ws rt => Some (vis ws.2, ws, rt).
Definition get_heap : HM heap_rt := fun ws rt => Some (rt_heap rt, ws, rt).
Definition set_heap (h : heap_rt) : HM unit := fun ws rt => Some (tt, ws, PRt (rt_buckets rt) (rt_resv rt) h).
Definition update_mem {A} (f : pmst -> option (A * pmst)) : HM A := fun ws rt => '(x, s) ← f ws.2; Some (x, (ws.1, s), rt).
Definition in_mem (f : pmst -> pmst) : HM unit := update_mem (fun s => Some (tt, f s)).

Definition set_buckets (b : gmap Z hbucket) (h : heap_rt) : heap_rt :=
  HeapRt (alloc_classes h) (default_bucket h) b (h_arenas h) (recyclers h) (nzones h) (zones_exhausted h) (h_mallocs h) (h_recalcs h) (h_thread h).
Definition set_arenas (a : arenas) (h : heap_rt) : heap_rt :=
  HeapRt (alloc_classes h) (default_bucket h) (h_buckets h) a (recyclers h) (nzones h) (zones_exhausted h) (h_mallocs h) (h_recalcs h) (h_thread h).
Definition set_recyclers (r : gmap Z recycler) (h : heap_rt) : heap_rt :=
  HeapRt (alloc_classes h) (default_bucket h) (h_buckets h) (h_arenas h) r (nzones h) (zones_exhausted h) (h_mallocs h) (h_recalcs h) (h_thread h).
Definition set_classes (c : alloc_class_collection) (h : heap_rt) : heap_rt :=
  HeapRt c (default_bucket h) (h_buckets h) (h_arenas h) (recyclers h) (nzones h) (zones_exhausted h) (h_mallocs h) (h_recalcs h) (h_thread h).
Definition set_zones (n exhausted : Z) (h : heap_rt) : heap_rt :=
  HeapRt (alloc_classes h) (default_bucket h) (h_buckets h) (h_arenas h) (recyclers h) n exhausted (h_mallocs h) (h_recalcs h) (h_thread h).
Definition set_mallocs (l : list Z) (h : heap_rt) : heap_rt :=
  HeapRt (alloc_classes h) (default_bucket h) (h_buckets h) (h_arenas h) (recyclers h) (nzones h) (zones_exhausted h) l (h_recalcs h) (h_thread h).
Definition set_recalcs (l : list recalc_env) (h : heap_rt) : heap_rt :=
  HeapRt (alloc_classes h) (default_bucket h) (h_buckets h) (h_arenas h) (recyclers h) (nzones h) (zones_exhausted h) (h_mallocs h) l (h_thread h).

(** 0 when the list is used up. *)
Definition Malloc : HM Z :=
  let! h := get_heap in
  let! _ := set_heap (set_mallocs (tl (h_mallocs h)) h) in
  hret (hd 0 (h_mallocs h)).

Section Heap.
Context (heap : palloc_heap) (fuel : nat).
(** heap->sizep and heap->growsize; util_pool_extend: the size it has added. *)
Context (sizep growsize : Z) (util_pool_extend : Z -> option Z).
Implicit Types (b : Z) (m : memory_block).

(** ** Buckets *)

Definition bucket_at b : HM hbucket := let! h := get_heap in hlift (h_buckets h !! b).
Definition bucket_class b : HM alloc_class :=
  let! hb := bucket_at b in
  let! h := get_heap in
  hlift (ac_store (alloc_classes h) !! hb_aclass hb).
Definition set_container b (c : block_container) : HM unit :=
  let! hb := bucket_at b in
  let! h := get_heap in
  set_heap (set_buckets (<[b := HBucket (hb_aclass hb) c]> (h_buckets h)) h).

(** b->c_ops->insert; one Malloc is enough for either container.  The result and
    errno. *)
Definition container_insert b m : HM (Z * Z) :=
  let! hb := bucket_at b in
  let! na := Malloc in
  match hb_cont hb with
  | ContRavl c =>
      let! '(ret, c) := update_mem (fun s => '(ret, c, s) ← container_ravl_insert_block (block_get_user_data heap) (RavlEnv fuel na) c m s; Some ((ret, c), s)) in
      let! _ := set_container b (ContRavl c) in
      hret (ret, if na =? 0 then ENOMEM else EEXIST)
  | ContSeg c =>
      let! '(ret, c) := hlift (container_seglists_insert_block (negb (na =? 0)) c m) in
      let! _ := set_container b (ContSeg c) in
      hret (ret, ENOMEM)
  end.

Definition container_get_rm_bestfit b m : HM (Z * memory_block) :=
  let! hb := bucket_at b in
  match hb_cont hb with
  | ContRavl c =>
      let! '(ret, m, c) := hlift (container_ravl_get_rm_block_bestfit (RavlEnv fuel 0) c m) in
      let! _ := set_container b (ContRavl c) in
      hret (ret, m)
  | ContSeg c =>
      let! '(ret, m, c) := hlift (container_seglists_get_rm_block_bestfit true c m) in
      let! _ := set_container b (ContSeg c) in
      hret (ret, m)
  end.

Definition container_get_rm_exact b m : HM Z :=
  let! hb := bucket_at b in
  match hb_cont hb with
  | ContRavl c =>
      let! '(ret, c) := hlift (container_ravl_get_rm_block_exact (RavlEnv fuel 0) c m) in
      let! _ := set_container b (ContRavl c) in
      hret ret
  | ContSeg _ => hlift None
  end.

Definition container_rm_all b : HM unit :=
  let! hb := bucket_at b in
  match hb_cont hb with
  | ContRavl c => let! c := hlift (container_ravl_rm_all (RavlEnv fuel 0) c) in set_container b (ContRavl c)
  | ContSeg c => let! c := hlift (container_seglists_rm_all true c) in set_container b (ContSeg c)
  end.

(** Arenas are numbered from 1; 0 is the thread's own. *)
Definition heap_bucket_acquire (class_id arena_id : Z) : HM Z :=
  let! h := get_heap in
  if class_id =? DEFAULT_ALLOC_CLASS_ID then hret (default_bucket h) else
  let! i := (if arena_id =? HEAP_ARENA_PER_THREAD then
               let! '(i, a) := hlift (heap_thread_arena (h_thread h) (h_arenas h)) in
               let! _ := set_heap (set_arenas a h) in
               hret i
             else hlift (heap_get_arena_by_id arena_id (h_arenas h))) in
  let! h := get_heap in
  let! a := hlift (arena_at (h_arenas h) i) in
  hret (ar_buckets a class_id).

(** ** Chunks *)

(** The result and [out]. *)
Definition heap_get_adjacent_free_block (in_ : memory_block) (out : memory_block) (prev : bool) : HM (Z * memory_block) :=
  let! v := get_vis in
  let z := ZID_TO_ZONE (layout heap) (zone_id in_) in
  let out := set_location (chunk_id out) (zone_id in_) out in
  let adjacent (chunk : Z) : HM (Z * memory_block) :=
    let out := set_location chunk (zone_id out) out in
    if negb (hdr_type v (chunk_hdr z chunk) =? CHUNK_TYPE_FREE) then hret (ENOENT, out) else
    let! out := hlift (memblock_rebuild_state heap v (set_extent (block_off out) (hdr_size_idx v (chunk_hdr z chunk)) out)) in
    hret (0, out) in
  if prev then
    if chunk_id in_ =? 0 then hret (ENOENT, out) else
    adjacent (u32 (chunk_id in_ - hdr_size_idx v (chunk_hdr z (chunk_id in_ - 1))))
  else
    let next := u32 (chunk_id in_ + hdr_size_idx v (chunk_hdr z (chunk_id in_))) in
    if next =? zone_size_idx v z then hret (ENOENT, out) else adjacent next.

(** [blocks] without the NULL pointers. *)
Definition heap_coalesce (blocks : list memory_block) : HM memory_block :=
  match blocks with
  | [] => hlift None
  | first :: _ =>
      let size := foldl (fun n m => u32 (n + size_idx m)) 0 blocks in
      let! v := get_vis in
      hlift (memblock_rebuild_state heap v (set_extent (block_off first) size (set_location (chunk_id first) (zone_id first) MEMORY_BLOCK_NONE)))
  end.

(** A neighbour that is free and was in the bucket. *)
Definition take_adjacent b m (prev : bool) : HM (list memory_block) :=
  let! '(ret, out) := heap_get_adjacent_free_block m MEMORY_BLOCK_NONE prev in
  if negb (ret =? 0) then hret [] else
  let! ret := container_get_rm_exact b out in
  hret (if ret =? 0 then [out] else []).

Definition heap_coalesce_huge b m : HM memory_block :=
  let! prev := take_adjacent b m true in
  let! next := take_adjacent b m false in
  heap_coalesce (prev ++ [m] ++ next).

(** The result, errno and the new value of [*m]. *)
Definition heap_free_chunk_reuse b m : HM (Z * Z * memory_block) :=
  let! nm := heap_coalesce_huge b m in
  let! _ := (if negb (size_idx nm =? size_idx m)
             then fun ws rt => let '(_, ws) := huge_prep_operation_hdr heap 0 false 0 false nm MEMBLOCK_FREE None ws in Some (tt, ws, rt)
             else hret tt) in
  let! '(ret, errno) := container_insert b nm in
  hret (ret, errno, nm).

Definition heap_run_into_free_chunk b m : HM memory_block :=
  let! v := get_vis in
  let m := set_extent 0 (hdr_size_idx v (heap_get_chunk_hdr heap m)) m in
  let! m := update_mem (memblock_huge_init heap (chunk_id m) (zone_id m) (size_idx m)) in
  let! '(_, _, m) := heap_free_chunk_reuse b m in
  hret m.

(** A failed insertion loses the unused part until the heap is opened again. *)
Definition heap_split_block b m (units : Z) : HM memory_block :=
  let! c := bucket_class b in
  if decide (cl_type c = CLASS_RUN) then
    let! v := get_vis in
    let! r := hlift (memblock_rebuild_state heap v (set_extent (u32 (block_off m + units)) (u32 (size_idx m - units)) (set_location (chunk_id m) (zone_id m) (MBlock 0 0 0 0 0 0 0 0)))) in
    let! _ := container_insert b r in
    hret (set_extent (block_off m) units m)
  else
    let new_chunk_id := u32 (chunk_id m + units) in
    let new_size_idx := u32 (size_idx m - units) in
    let! m := update_mem (memblock_huge_init heap (chunk_id m) (zone_id m) units) in
    let! n := update_mem (memblock_huge_init heap new_chunk_id (zone_id m) new_size_idx) in
    let! _ := container_insert b n in
    hret (set_extent (block_off m) units m).

(** ** Runs *)

(** heap_memblock_insert_block as a callback of iterate_free: its state is memory
    and the heap's, or that the program has failed.  The bitmap that is iterated
    over is not where the blocks' descriptors are stored. *)
Definition insert_callback b : memory_block -> option (world * palloc_rt heap_rt) -> Z * option (world * palloc_rt heap_rt) :=
  fun m st =>
    match st with
    | None => (1, None)
    | Some (ws, rt) => match container_insert b m ws rt with Some ((ret, _), ws, rt) => (ret, Some (ws, rt)) | None => (1, None) end
    end.

Definition iterate_into b m : HM Z := fun ws rt =>
  '(ret, st) ← run_iterate_free heap (vis ws.2) m (insert_callback b) (Some (ws, rt));
  '(ws, rt) ← st;
  Some (ret, ws, rt).

(** The run becomes the bucket's active block. *)
Definition activate b m : HM unit := fun ws rt =>
  bk ← rt_buckets rt !! b;
  r ← rt_resv rt !! pb_active bk;
  Some (tt, ws, PRt (<[b := PBucket (pb_active bk) true]> (rt_buckets rt)) (<[pb_active bk := MResv m (u64 (rs_nresv r + 1)) b]> (rt_resv rt)) (rt_heap rt)).

(** The result and the run. *)
Definition heap_run_create b m : HM (Z * memory_block) :=
  let! c := bucket_class b in
  let! m := update_mem (memblock_run_init heap (chunk_id m) (zone_id m) (size_idx m) (cl_flags c) (cl_unit_size c) (run_alignment c)) in
  let! ret := iterate_into b m in
  if negb (ret =? 0) then let! _ := container_rm_all b in hret (-1, m) else hret (0, m).

Definition heap_run_reuse b m : HM Z :=
  let! ret := iterate_into b m in
  let! _ := (if ret =? 0 then activate b m else container_rm_all b) in
  hret ret.

Definition recycler_at (id : Z) : HM recycler := let! h := get_heap in hlift (recyclers h !! id).
Definition set_recycler (id : Z) (r : recycler) : HM unit :=
  let! h := get_heap in set_heap (set_recyclers (<[id := r]> (recyclers h)) h).

(** 1: the run is empty and not known to a recycler. *)
Definition heap_reclaim_run m : HM Z :=
  let! v := get_vis in
  let! h := get_heap in
  let run := heap_get_chunk_run heap m in
  let hdr := heap_get_chunk_hdr heap m in
  let! p := hlift (alloc_class_by_run fuel (alloc_classes h) (run_block_size_field v run) (hdr_flags v hdr) (size_idx m)) in
  let! e := hlift (recycler_element_new heap v m) in
  if p =? 0 then hret (if free_space e =? nbits (run_get_bitmap heap v m) then 1 else 0) else
  let! c := hlift (ac_store (alloc_classes h) !! p) in
  if free_space e =? run_nallocs c then hret 1 else
  let! r := recycler_at (cl_id c) in
  let! na := Malloc in
  let! '(_, r) := hlift (recycler_put fuel na r m e) in
  let! _ := set_recycler (cl_id c) r in
  hret 0.

Definition heap_memblock_on_free m : HM unit :=
  if negb (mb_type m =? MEMORY_BLOCK_RUN) then hret tt else
  let! v := get_vis in
  let! h := get_heap in
  let hdr := heap_get_chunk_hdr heap m in
  let! p := hlift (alloc_class_by_run fuel (alloc_classes h) (run_block_size_field v (heap_get_chunk_run heap m)) (hdr_flags v hdr) (hdr_size_idx v hdr)) in
  if p =? 0 then hret tt else
  let! c := hlift (ac_store (alloc_classes h) !! p) in
  let! r := recycler_at (cl_id c) in
  let! r := hlift (recycler_inc_unaccounted r m) in
  set_recycler (cl_id c) r.

(** ** Filling buckets *)

(** The loop of heap_reclaim_zone_garbage from chunk [i] on. *)
Fixpoint reclaim_chunks (n : nat) b (zone i : Z) : HM unit :=
  let! v := get_vis in
  let z := ZID_TO_ZONE (layout heap) zone in
  if negb (i <? zone_size_idx v z) then hret tt else
  match n with
  | O => hlift None
  | S n =>
      let hdr := chunk_hdr z i in
      let! m := hlift (memblock_rebuild_state heap v (set_extent 0 (hdr_size_idx v hdr) (set_location i zone MEMORY_BLOCK_NONE))) in
      let! _ := in_mem (if mb_type m =? MEMORY_BLOCK_HUGE then huge_reinit_chunk heap m else fun s => s) in
      let! v := get_vis in
      let type := hdr_type v hdr in
      let! m := (if type =? CHUNK_TYPE_RUN then
                   let! r := heap_reclaim_run m in
                   if negb (r =? 0) then heap_run_into_free_chunk b m else hret m
                 else if type =? CHUNK_TYPE_FREE then
                   let! '(_, _, m) := heap_free_chunk_reuse b m in hret m
                 else if type =? CHUNK_TYPE_USED then hret m
                 else hlift None) in
      reclaim_chunks n b zone (u32 (chunk_id m + size_idx m))
  end.

Definition heap_reclaim_zone_garbage b (zone : Z) : HM unit := reclaim_chunks fuel b zone 0.

Definition heap_populate_bucket b : HM Z :=
  let! h := get_heap in
  if zones_exhausted h =? nzones h then hret ENOMEM else
  let zone := zones_exhausted h in
  let! _ := set_heap (set_zones (nzones h) (u32 (zone + 1)) h) in
  let z := ZID_TO_ZONE (layout heap) zone in
  let! v := get_vis in
  let! _ := (if negb (zone_magic v z =? ZONE_HEADER_MAGIC)
             then update_mem (fun s => s ← heap_zone_init heap (nzones h) (load64 (vis s) sizep) zone 0 s; Some (tt, s))
             else hret tt) in
  let! _ := heap_reclaim_zone_garbage b zone in
  hret 0.

Fixpoint into_free_chunks b (l : list memory_block) : HM unit :=
  match l with
  | [] => hret tt
  | m :: l => let! _ := heap_run_into_free_chunk b m in into_free_chunks b l
  end.

(** [defb]: the default bucket, or NULL when it is not held yet. *)
Definition heap_recycle_unused (id : Z) (defb : option Z) (force : bool) : HM Z :=
  let! r := recycler_at id in
  let! h := get_heap in
  let! v := get_vis in
  let e := hd (RecalcEnv (fun _ => false) (fun _ => false) [] false) (h_recalcs h) in
  let! _ := set_heap (set_recalcs (tl (h_recalcs h)) h) in
  let! '(empty, r) := hlift (recycler_recalc fuel fuel heap v (rce_push e) (rce_repush e) (rce_nas e) (rce_locked e) (nactive (h_arenas h)) r force) in
  let! _ := set_recycler id r in
  match empty with
  | [] => hret ENOMEM
  | _ =>
      let! nb := (match defb with Some b => hret b | None => heap_bucket_acquire DEFAULT_ALLOC_CLASS_ID HEAP_ARENA_PER_THREAD end) in
      let! _ := into_free_chunks nb empty in
      hret 0
  end.

(** The loop over the classes; [ret] is the result so far. *)
Fixpoint reclaim_garbage_from b (ids : list Z) (ret : Z) : HM Z :=
  match ids with
  | [] => hret ret
  | id :: ids =>
      let! h := get_heap in
      match recyclers h !! id with
      | None => reclaim_garbage_from b ids ret
      | Some _ =>
          let! r := heap_recycle_unused id (Some b) true in
          reclaim_garbage_from b ids (if r =? 0 then 0 else ret)
      end
  end.

Definition heap_reclaim_garbage b : HM Z := reclaim_garbage_from b (seqZ 0 MAX_ALLOCATION_CLASSES) ENOMEM.

(** 1: the last zone has grown; 0: there is a new one. *)
Definition heap_extend b (size : Z) : HM Z :=
  match util_pool_extend size with
  | None => hret (-1)
  | Some size =>
      let! _ := in_mem (fun s => pmemops_persist (heap_ops heap) sizep 8 (st_store64 sizep (u64 (load64 (vis s) sizep + size)) s)) in
      let! h := get_heap in
      let! v := get_vis in
      let n := heap_max_zone (load64 v sizep) in
      let zone := u32 (n - 1) in
      let z := ZID_TO_ZONE (layout heap) zone in
      let chunk := if nzones h =? n then zone_size_idx v z else 0 in
      let! _ := update_mem (fun s => s ← heap_zone_init heap (nzones h) (load64 (vis s) sizep) zone chunk s; Some (tt, s)) in
      if negb (nzones h =? n) then
        let! h := get_heap in
        let! _ := set_heap (set_zones n (zones_exhausted h) h) in
        hret 0
      else
        let! v := get_vis in
        let! m := hlift (memblock_rebuild_state heap v (set_extent 0 (hdr_size_idx v (chunk_hdr z chunk)) (set_location chunk zone MEMORY_BLOCK_NONE))) in
        let! _ := heap_free_chunk_reuse b m in
        hret 1
  end.

Definition heap_ensure_huge_bucket_filled b : HM Z :=
  let! r := heap_reclaim_garbage b in
  if r =? 0 then hret 0 else
  let! r := heap_populate_bucket b in
  if r =? 0 then hret 0 else
  let! extend := heap_extend b growsize in
  if extend <? 0 then hret ENOMEM else
  if extend =? 1 then hret 0 else
  let! r := heap_populate_bucket b in
  hret (if r =? 0 then 0 else ENOMEM).

Definition heap_reuse_from_recycler b (units : Z) (force : bool) : HM Z :=
  let! c := bucket_class b in
  let m := set_extent 0 units MEMORY_BLOCK_NONE in
  let get : HM (Z * memory_block) :=
    let! r := recycler_at (cl_id c) in
    let! v := get_vis in
    let! '(ret, m, r) := hlift (recycler_get fuel heap v r m) in
    let! _ := set_recycler (cl_id c) r in
    hret (ret, m) in
  let! '(ret, m) := (if force then hret (ENOMEM, m) else get) in
  if ret =? 0 then heap_run_reuse b m else
  let! _ := heap_recycle_unused (cl_id c) None force in
  let! '(ret, m) := get in
  if ret =? 0 then heap_run_reuse b m else hret ENOMEM.

Definition heap_discard_run m : HM unit :=
  let! r := heap_reclaim_run m in
  if r =? 0 then hret tt else
  let! defb := heap_bucket_acquire DEFAULT_ALLOC_CLASS_ID 0 in
  let! _ := heap_run_into_free_chunk defb m in
  hret tt.

(** The active block of the bucket goes. *)
Definition drop_active b : HM unit :=
  let! active := (fun ws rt => bk ← rt_buckets rt !! b; Some (bk, ws, rt)) in
  if negb (pb_is_active active) then hret tt else
  let! _ := container_rm_all b in
  let! r := (fun ws rt => r ← rt_resv rt !! pb_active active;
             Some (r, ws, PRt (rt_buckets rt) (<[pb_active active := MResv (rs_m r) (u64 (rs_nresv r - 1)) (rs_bucket r)]> (rt_resv rt)) (rt_heap rt))) in
  let! next := (if rs_nresv r =? 1 then let! _ := heap_discard_run (rs_m r) in hret (pb_active active)
                else
                  let! p := Malloc in
                  let! _ := (fun ws rt => Some (tt, ws, PRt (rt_buckets rt) (if p =? 0 then rt_resv rt else <[p := MResv (MBlock 0 0 0 0 0 0 0 0) 0 0]> (rt_resv rt)) (rt_heap rt))) in
                  hret p) in
  fun ws rt => Some (tt, ws, PRt (<[b := PBucket next false]> (rt_buckets rt)) (rt_resv rt) (rt_heap rt)).

(** The loop of heap_get_bestfit_block; [ensure] refills the bucket. *)
Fixpoint bestfit_loop (n : nat) (ensure : Z -> HM Z) b m : HM (option memory_block) :=
  let! '(ret, m') := container_get_rm_bestfit b m in
  if ret =? 0 then hret (Some m') else
  match n with
  | O => hlift None
  | S n => let! r := ensure b in if negb (r =? 0) then hret None else bestfit_loop n ensure b m
  end.

(** The result and the block. *)
Definition get_bestfit_block (ensure : Z -> HM Z) b m : HM (Z * memory_block) :=
  let units := size_idx m in
  let! found := bestfit_loop fuel ensure b m in
  match found with
  | None => hret (ENOMEM, m)
  | Some m =>
      let! m := (if negb (units =? size_idx m) then heap_split_block b m units else hret m) in
      let! c := bucket_class b in
      let! _ := in_mem (if mb_type m =? MEMORY_BLOCK_HUGE then huge_ensure_header_type heap m (cl_header_type c) else fun s => s) in
      hret (0, set_runtime (m_ops m) (mb_heap m) (cl_header_type c) (mb_type m) m)
  end.

Definition heap_ensure_run_bucket_filled b (units : Z) : HM Z :=
  let! c := bucket_class b in
  let! _ := drop_active b in
  let! r := heap_reuse_from_recycler b units false in
  if r =? 0 then hret 0 else
  let! defb := heap_bucket_acquire DEFAULT_ALLOC_CLASS_ID HEAP_ARENA_PER_THREAD in
  let! _ := heap_populate_bucket defb in
  let! r := heap_reuse_from_recycler b units false in
  if r =? 0 then hret 0 else
  let! defb := heap_bucket_acquire DEFAULT_ALLOC_CLASS_ID HEAP_ARENA_PER_THREAD in
  let! '(r, m) := get_bestfit_block heap_ensure_huge_bucket_filled defb (set_extent 0 (run_size_idx c) MEMORY_BLOCK_NONE) in
  if r =? 0 then
    let! '(r, m) := heap_run_create b m in
    if negb (r =? 0) then hret ENOMEM else
    let! _ := activate b m in
    hret 0
  else
    let! r := heap_reuse_from_recycler b units false in
    hret (if r =? 0 then 0 else ENOMEM).

(** Refilling a run's bucket asks the default bucket, which is huge, for chunks;
    so the recursion of the function goes one level deep. *)
Definition heap_get_bestfit_block b m : HM (Z * memory_block) :=
  let! c := bucket_class b in
  if decide (cl_type c = CLASS_HUGE) then get_bestfit_block heap_ensure_huge_bucket_filled b m
  else get_bestfit_block (fun b => heap_ensure_run_bucket_filled b (size_idx m)) b m.

(** ** What palloc.c uses *)

Definition heap_get_best_class (size : Z) : HM Z :=
  let! h := get_heap in
  let! '(p, ac) := hlift (alloc_class_by_alloc_size (alloc_classes h) size) in
  let! _ := set_heap (set_classes ac h) in
  hret p.

(** The classes' slots hold pointers, NULL for a free one. *)
Definition heap_class_by_id (id : Z) : HM Z := let! h := get_heap in hlift (alloc_class_by_id (alloc_classes h) id).

Definition class_of (p : Z) : HM (option alloc_class) := let! h := get_heap in hlift (class_at (alloc_classes h) p).

(** [run_locks], [nlocks]: heap->rt; a mutex has 64 bytes. *)
Definition heap_get_run_lock (run_locks nlocks chunk : Z) : Z := run_locks + 64 * (chunk mod nlocks).

Definition heap_interface (run_locks nlocks : Z) (stats : Z -> world -> palloc_rt heap_rt -> world * palloc_rt heap_rt) : heap_fns heap_rt :=
  HeapFns heap_rt
    (fun size => let! p := heap_get_best_class size in class_of p)
    (fun id => let! p := heap_class_by_id id in class_of p)
    heap_bucket_acquire
    heap_get_bestfit_block
    (fun b m => let! _ := container_insert b m in hret tt)
    heap_free_chunk_reuse
    heap_discard_run
    heap_memblock_on_free
    (heap_get_run_lock run_locks nlocks)
    stats.
End Heap.
