(* ===== verification/HeapTiles.v ===== *)
(** * Tilings of a zone

    What the chunk headers of a zone say: a sequence of blocks, each free, used
    or a run.  Free blocks that are in the default bucket can be given out;
    the others are reserved.  The footer of a used block may be lost until the
    zone is opened.  Everything here is about headers as a function of
    the chunk. *)
From stdpp Require Import base numbers list list_numbers.
From Stdlib Require Import ZArith Lia Bool.
From S2P Require Import Prelude Container HeapLayout.

Inductive kind := Avail | Reserved | InUse | Lost | Run.
#[global] Instance kind_eq : EqDecision kind.
Proof. solve_decision. Defined.

Record ablock := Blk { b_kind : kind; b_size : Z }.

Implicit Types (l : list ablock) (H : Z -> Z * Z) (i n : Z).

Definition chunks l : Z := foldr (fun b n => b_size b + n) 0 l.

(** The first and the last header of a huge block, all headers of a run. *)
Definition huge_at H i (type n : Z) : Prop := H i = (type, n) /\ (1 < n -> H (i + n - 1) = (CHUNK_TYPE_FOOTER, n)).
Definition run_at_chunks H i n : Prop := H i = (CHUNK_TYPE_RUN, n) /\ forall k, 1 <= k < n -> H (i + k) = (CHUNK_TYPE_RUN_DATA, k).

Definition blk_at H i (b : ablock) : Prop :=
  0 < b_size b /\
  match b_kind b with
  | Avail | Reserved => huge_at H i CHUNK_TYPE_FREE (b_size b)
  | InUse => huge_at H i CHUNK_TYPE_USED (b_size b)
  | Lost => H i = (CHUNK_TYPE_USED, b_size b)
  | Run => run_at_chunks H i (b_size b)
  end.

Fixpoint tiles H i l : Prop :=
  match l with
  | [] => True
  | b :: l => blk_at H i b /\ tiles H (i + b_size b) l
  end.

Lemma chunks_cons b l : chunks (b :: l) = b_size b + chunks l.
Proof. done. Qed.
Lemma chunks_app l1 l2 : chunks (l1 ++ l2) = chunks l1 + chunks l2.
Proof. induction l1 as [|b l1 IH]; [done|]. cbn [app]. rewrite !chunks_cons. lia. Qed.

Lemma tiles_nonneg H i l : tiles H i l -> 0 <= chunks l.
Proof. revert i. induction l as [|b l IH]; intros i; [done|]. intros [[Hb _] Ht]. specialize (IH _ Ht). rewrite chunks_cons. lia. Qed.

Lemma tiles_app H i l1 l2 : tiles H i (l1 ++ l2) <-> tiles H i l1 /\ tiles H (i + chunks l1) l2.
Proof.
  revert i. induction l1 as [|b l1 IH]; intros i; cbn [app tiles].
  - change (chunks []) with 0. rewrite Z.add_0_r. tauto.
  - rewrite IH, chunks_cons, Z.add_assoc. tauto.
Qed.

Lemma blk_ext H H' i b : (forall j, i <= j < i + b_size b -> H' j = H j) -> blk_at H i b -> blk_at H' i b.
Proof.
  intros Hx [Hn Hb]. split; [done|]. assert (forall t, huge_at H i t (b_size b) -> huge_at H' i t (b_size b)) as Hh.
  { intros t [H1 H2]. split; [by rewrite Hx by lia|]. intros Hn1. rewrite Hx by lia. by apply H2. }
  destruct (b_kind b); try (by apply Hh). { by rewrite Hx by lia. } destruct Hb as [H1 H2]. split; [by rewrite Hx by lia|]. intros k Hk. rewrite Hx by lia. by apply H2.
Qed.

Lemma tiles_ext H H' i l : (forall j, i <= j < i + chunks l -> H' j = H j) -> tiles H i l -> tiles H' i l.
Proof.
  revert i. induction l as [|b l IH]; intros i Hx; [done|]. rewrite chunks_cons in Hx. intros [Hb Ht]. pose proof (tiles_nonneg _ _ _ Ht). destruct Hb as [Hn Hb]. split.
  - apply (blk_ext H); [intros j Hj; apply Hx; lia|by split].
  - apply IH; [|done]. intros j Hj. apply Hx. lia.
Qed.

(** A block in the middle. *)
Lemma tiles_mid H l1 b l2 : tiles H 0 (l1 ++ b :: l2) <-> tiles H 0 l1 /\ blk_at H (chunks l1) b /\ tiles H (chunks l1 + b_size b) l2.
Proof. rewrite tiles_app. cbn [tiles]. by rewrite Z.add_0_l. Qed.

(** ** Neighbours *)

(** The block that ends in front of chunk [p], as heap_get_adjacent_free_block
    finds it: through the size in the header before. *)
Lemma prev_block H l b : tiles H 0 (l ++ [b]) -> b_kind b <> Lost -> let p := chunks l + b_size b in let q := p - (H (p - 1)).2 in
  (b_kind b = Avail \/ b_kind b = Reserved) /\ q = chunks l /\ H q = (CHUNK_TYPE_FREE, b_size b) \/
  (b_kind b = InUse \/ b_kind b = Run) /\ chunks l <= q < p /\ (H q).1 <> CHUNK_TYPE_FREE.
Proof.
  intros Ht Hl p q. apply tiles_mid in Ht as (_ & [Hn Hb] & _). unfold q, p. clear p q. set (s := chunks l) in *. set (n := b_size b) in *.
  assert (forall t, huge_at H s t n -> (H (s + n - 1)).2 = n) as Hlast.
  { intros t [H1 H2]. destruct (decide (n = 1)) as [E|Hne]; [rewrite E; replace (s + 1 - 1) with s by lia; rewrite H1; cbn; lia|]. by rewrite H2 by lia. }
  destruct (b_kind b).
  - left. split; [by left|]. rewrite (Hlast _ Hb). destruct Hb as [Hb _]. by replace (s + n - n) with s by lia.
  - left. split; [by right|]. rewrite (Hlast _ Hb). destruct Hb as [Hb _]. by replace (s + n - n) with s by lia.
  - right. split; [by left|]. rewrite (Hlast _ Hb). destruct Hb as [Hb _]. replace (s + n - n) with s by lia. split; [lia|]. by rewrite Hb.
  - done.
  - right. split; [by right|]. destruct Hb as [H1 H2]. destruct (decide (n = 1)) as [E|Hne].
    + rewrite E. replace (s + 1 - 1) with s by lia. rewrite H1. cbn [snd]. rewrite E. replace (s + 1 - 1) with s by lia. split; [lia|]. by rewrite H1.
    + replace (s + n - 1) with (s + (n - 1)) by lia. rewrite H2 by lia. cbn [snd]. replace (s + n - (n - 1)) with (s + 1) by lia. split; [lia|]. by rewrite H2 by lia.
Qed.

(** The last block has its footer. *)
Definition footed l : Prop := forall n, last l <> Some (Blk Lost n).
Lemma footed_last l b : footed (l ++ [b]) -> b_kind b <> Lost.
Proof. intros Hf E. destruct b as [k n]. cbn in E. subst k. apply (Hf n). by rewrite last_snoc. Qed.

(** What coalescing does: neighbours in the bucket join. *)
Definition take_prev l : list ablock * Z :=
  match last l with Some (Blk Avail n) => (removelast l, n) | _ => (l, 0) end.
Definition take_next l : list ablock * Z :=
  match l with Blk Avail n :: l => (l, n) | _ => (l, 0) end.

Lemma take_prev_spec l : let '(l', n) := take_prev l in
  (l = l' ++ [Blk Avail n] \/ l' = l /\ n = 0 /\ forall k, last l <> Some (Blk Avail k)) /\ chunks l = chunks l' + n.
Proof.
  unfold take_prev. destruct (last l) as [[k n]|] eqn:E.
  - apply last_Some in E as [l' ->]. destruct k; [|split; [right; split; [done|]; split; [done|]; intros k; congruence|lia]..].
    rewrite removelast_last. split; [by left|]. rewrite chunks_app, chunks_cons. cbn. lia.
  - apply last_None in E as ->. split; [by right|done].
Qed.

Lemma take_next_spec l : let '(l', n) := take_next l in
  (l = Blk Avail n :: l' \/ l' = l /\ n = 0 /\ forall k, head l <> Some (Blk Avail k)) /\ chunks l = n + chunks l'.
Proof. destruct l as [|[[] n] l]; cbn; (split; [|by unfold chunks; cbn]); try (by left); right; (split; [done|]; split; [done|congruence]). Qed.

Definition coalesced l1 n l2 : list ablock :=
  let '(l1, p) := take_prev l1 in let '(l2, q) := take_next l2 in l1 ++ Blk Avail (p + n + q) :: l2.

Lemma coalesced_chunks l1 n l2 : chunks (coalesced l1 n l2) = chunks l1 + n + chunks l2.
Proof.
  unfold coalesced. pose proof (take_prev_spec l1) as Hp. pose proof (take_next_spec l2) as Hq. destruct (take_prev l1) as [l1' p], (take_next l2) as [l2' q].
  destruct Hp as [_ ->], Hq as [_ ->]. rewrite chunks_app, chunks_cons. cbn [b_size]. lia.
Qed.

(** Writing the two headers of a block that covers some blocks of a tiling. *)
Lemma retile H H' l1 old new l2 : tiles H 0 (l1 ++ old ++ l2) -> chunks old = b_size new -> blk_at H' (chunks l1) new ->
  (forall j, j < chunks l1 \/ chunks l1 + b_size new <= j -> H' j = H j) -> tiles H' 0 (l1 ++ new :: l2).
Proof.
  intros Ht Hc Hn Hx. apply tiles_app in Ht as [T1 T2]. rewrite Z.add_0_l in T2. apply tiles_app in T2 as [_ T2]. rewrite Hc in T2. apply tiles_mid. split; [|split; [done|]].
  - apply (tiles_ext H); [|done]. intros j Hj. apply Hx. lia.
  - apply (tiles_ext H); [|done]. intros j Hj. apply Hx. lia.
Qed.

(** ** The keys of the blocks that can be given out *)

Fixpoint avail_keys (zone i : Z) l : list (Z * Z * Z * Z) :=
  match l with
  | [] => []
  | b :: l => (match b_kind b with Avail => [(b_size b, zone, i, 0)] | _ => [] end) ++ avail_keys zone (i + b_size b) l
  end.

Lemma avail_app zone i l1 l2 : avail_keys zone i (l1 ++ l2) = avail_keys zone i l1 ++ avail_keys zone (i + chunks l1) l2.
Proof.
  revert i. induction l1 as [|b l1 IH]; intros i; cbn [app avail_keys]; [change (chunks []) with 0; by rewrite Z.add_0_r|].
  by rewrite IH, chunks_cons, Z.add_assoc, app_assoc.
Qed.

Definition positive l : Prop := Forall (fun b => 0 < b_size b) l.

Lemma tiles_positive H i l : tiles H i l -> positive l.
Proof. revert i. induction l as [|b l IH]; intros i; [constructor|]. intros [[Hn _] Ht]. constructor; [done|by eapply IH]. Qed.

Lemma positive_chunks l : positive l -> 0 <= chunks l.
Proof. induction 1 as [|b l Hb _ IH]; [done|]. rewrite chunks_cons. lia. Qed.

(** Keys lie where their blocks are. *)
Lemma avail_range zone i l k : positive l -> k ∈ avail_keys zone i l -> exists s c, k = (s, zone, c, 0) /\ 0 < s /\ i <= c /\ c + s <= i + chunks l.
Proof.
  intros Hp. revert i. induction Hp as [|b l Hb Hp IH]; intros i Hk; cbn [avail_keys] in Hk; [by apply elem_of_nil in Hk|].
  rewrite chunks_cons. pose proof (positive_chunks l Hp). apply elem_of_app in Hk as [Hk|Hk].
  - destruct (b_kind b); try (by apply elem_of_nil in Hk). apply list_elem_of_singleton in Hk as ->. exists (b_size b), i. split; [done|]. lia.
  - destruct (IH _ Hk) as (s & c & -> & Hs & H1 & H2). exists s, c. split; [done|]. lia.
Qed.

(** No key at a block that is not available. *)
Lemma avail_not_at zone l1 b l2 s : positive (l1 ++ b :: l2) -> b_kind b <> Avail -> (s, zone, chunks l1, 0) ∉ avail_keys zone 0 (l1 ++ b :: l2).
Proof.
  intros Hp Hk. apply Forall_app in Hp as [P1 P2]. apply Forall_cons in P2 as [Pb P2]. rewrite avail_app, Z.add_0_l, elem_of_app. cbn [avail_keys]. rewrite elem_of_app. intros [Hin|[Hin|Hin]].
  - destruct (avail_range _ _ _ _ P1 Hin) as (s' & c & [= <- <-] & ? & ? & ?). lia.
  - destruct (b_kind b); try (by apply elem_of_nil in Hin). done.
  - destruct (avail_range _ _ _ _ P2 Hin) as (s' & c & [= <- <-] & ? & ? & ?). lia.
Qed.

Lemma avail_nodup zone l : forall i, positive l -> NoDup (avail_keys zone i l).
Proof.
  induction l as [|b l IH]; intros i Hp; cbn [avail_keys]; [constructor|]. apply Forall_cons in Hp as [Pb Hp].
  destruct (b_kind b); try (by apply IH). constructor; [|by apply IH]. intros Hin. destruct (avail_range _ _ _ _ Hp Hin) as (s' & c & [= <- <-] & ? & ? & ?). lia.
Qed.

(** How many blocks are available. *)
Definition is_avail (b : ablock) : nat := match b_kind b with Avail => 1 | _ => 0 end.
Lemma avail_length zone l : forall i, length (avail_keys zone i l) = sum_list_with is_avail l.
Proof. induction l as [|b l IH]; intros i; [done|]. cbn [avail_keys sum_list_with]. rewrite length_app, IH. unfold is_avail. by destruct (b_kind b). Qed.
