(* ===== verification/HeapChunks.v ===== *)
(** * Chunks and the default bucket

    [heap_ok A v c]: memory [v] holds zones that are tiled as [A] says, and the
    default bucket [c] holds the blocks that are available, each with its
    descriptor in the block's own memory.  The lemmas say how
    the parts of heap_free_chunk_reuse and heap_get_bestfit_block change it. *)
From stdpp Require Import base numbers list list_numbers gmap.
From Stdlib Require Import ZArith Lia Bool.
From S2P Require Import Prelude Pmem Ulog Memops Ravl RavlFacts RavlOps RavlSpec Container Seglists HeapLayout Memblock MemblockInit AllocClass Recycler Lane Tx Palloc HeapZone HeapArena Heap HeapTiles.

Section Chunks.
Context (heap : palloc_heap) (fuel : nat).
Implicit Types (m d : memory_block) (v : mem) (l : list ablock) (c : block_container_ravl) (ws : world) (rt : palloc_rt heap_rt).

Abbreviation cmp := container_compare_memblocks.
Definition zn (id : Z) : Z := ZID_TO_ZONE (layout heap) id.
Definition hd v (id i : Z) : Z * Z := (hdr_type v (chunk_hdr (zn id) i), hdr_size_idx v (chunk_hdr (zn id) i)).

Definition is_huge d : Prop := m_ops d = MEMORY_BLOCK_HUGE /\ mb_type d = MEMORY_BLOCK_HUGE /\ mb_heap d = heap_addr heap.
(** The descriptor of a huge block. *)
Definition describes d (id chunk n : Z) : Prop := chunk_id d = chunk /\ zone_id d = id /\ size_idx d = n /\ block_off d = 0 /\ is_huge d.

(** A block of the bucket: the tree's node points to the descriptor in the block's
    memory, which is the one the model's node holds. *)
Definition held v d : Prop := is_huge d /\ read_bytes v (block_get_user_data heap v d) 40 = enc_memory_block d.

Record zone_ok v (id : Z) l : Prop := ZoneOk {
  zo_id : 0 <= id;
  zo_max : chunks l <= MAX_CHUNK;
  zo_size : zone_size_idx v (zn id) = chunks l;
  zo_tiles : tiles (hd v id) 0 l
}.

Definition all_keys (A : list (Z * list ablock)) : list (Z * Z * Z * Z) := mjoin ((fun x => avail_keys x.1 0 x.2) <$> A).

Record heap_ok (A : list (Z * list ablock)) v c : Prop := HeapOk {
  ho_ids : NoDup (A.*1);
  ho_zones : Forall (fun x => zone_ok v x.1 x.2) A;
  ho_bucket : exists L, ravl_ok cmp c L /\ Forall (held v) L /\ map block_key L ≡ₚ all_keys A
}.

(** ** Headers *)

Lemma hd_store v id i t f n j : 0 <= t < 2 ^ 16 -> 0 <= n < 2 ^ 32 ->
  hd (write_bytes v (chunk_hdr (zn id) i) (hdr_bytes t f n)) id j = if decide (j = i) then (t, n) else hd v id j.
Proof.
  intros Ht Hn. unfold hd. destruct (decide (j = i)) as [->|Hne].
  - destruct (hdr_stored v (chunk_hdr (zn id) i) t f n) as (-> & _ & ->). by rewrite !Z.mod_small by lia.
  - destruct (hdr_frame v (write_bytes v (chunk_hdr (zn id) i) (hdr_bytes t f n)) (chunk_hdr (zn id) j)) as (-> & _ & ->); [|done].
    intros x Hx. symmetry. apply write_bytes_out. change (length (hdr_bytes t f n)) with 8%nat. unfold chunk_hdr, sizeof_chunk_header in *. lia.
Qed.

(** A zone is where its headers are. *)
Lemma zone_frame v v' id l : zone_ok v id l -> (forall x, zn id <= x < zn id + sizeof_zone -> v' x = v x) -> zone_ok v' id l.
Proof.
  intros [H1 H2 H3 H4] Hx. pose proof (tiles_nonneg _ _ _ H4). assert (MAX_CHUNK = 65528 /\ sizeof_zone = 524288 /\ sizeof_zone_header = 64 /\ sizeof_chunk_header = 8) as (Z1 & Z2 & Z3 & Z4) by done. constructor; [done|done| |].
  - rewrite <- H3. unfold zone_size_idx, load32. f_equal. apply read_bytes_eq. intros i Hi. apply Hx. lia.
  - apply (tiles_ext (hd v id)); [|done]. intros j Hj. unfold hd. destruct (hdr_frame v v' (chunk_hdr (zn id) j)) as (-> & _ & ->); [|done].
    intros x Hx'. symmetry. apply Hx. unfold chunk_hdr in Hx'. rewrite Z3, Z4 in Hx'. lia.
Qed.

Lemma zones_apart id id' : 0 <= id -> 0 <= id' -> id <> id' -> zn id + ZONE_MAX_SIZE <= zn id' \/ zn id' + ZONE_MAX_SIZE <= zn id.
Proof. intros H1 H2 Hn. unfold zn, ZID_TO_ZONE. assert (0 < ZONE_MAX_SIZE) by done. nia. Qed.

(** Headers of one zone are written. *)
Definition only_headers v v' (id lo hi : Z) : Prop := forall x, ~ (chunk_hdr (zn id) lo <= x < chunk_hdr (zn id) hi) -> v' x = v x.

(** One zone is written. *)
Lemma zones_region A v v' id : Forall (fun x => zone_ok v x.1 x.2) A -> id ∉ A.*1 -> 0 <= id -> (forall x, ~ (zn id <= x < zn id + sizeof_zone) -> v' x = v x) ->
  Forall (fun x => zone_ok v' x.1 x.2) A.
Proof.
  intros HA Hid H0 Hx. rewrite Forall_forall in *. intros [id' l] Hin. specialize (HA _ Hin). cbn [fst snd] in *. apply (zone_frame v); [done|].
  assert (id' <> id) as Hne by (intros ->; apply Hid, list_elem_of_fmap; by exists (id, l)).
  intros x Hx'. apply Hx. assert (sizeof_zone = 524288 /\ ZONE_MAX_SIZE = 17178296320) as (Z1 & Z2) by done.
  destruct (zones_apart id' id (zo_id _ _ _ HA) H0 Hne); lia.
Qed.

Lemma zones_frame A v v' id lo hi : Forall (fun x => zone_ok v x.1 x.2) A -> id ∉ A.*1 -> 0 <= id -> 0 <= lo -> hi <= MAX_CHUNK -> only_headers v v' id lo hi ->
  Forall (fun x => zone_ok v' x.1 x.2) A.
Proof.
  intros HA Hid H0 Hlo Hhi Hx. eapply zones_region; [exact HA|exact Hid|done|]. intros x Hx'. apply Hx.
  assert (sizeof_zone_header = 64 /\ sizeof_chunk_header = 8 /\ sizeof_zone = 524288 /\ MAX_CHUNK = 65528) as (Z1 & Z2 & Z3 & Z4) by done. unfold chunk_hdr. rewrite Z1, Z2. lia.
Qed.

(** ** Data *)

Definition chunk_data (id i : Z) : Z := zn id + sizeof_zone + CHUNKSIZE * i.

(** The first chunks of blocks do not overlap, and no header is among them. *)
Lemma data_apart id i id' i' : 0 <= id -> 0 <= id' -> 0 <= i < MAX_CHUNK -> 0 <= i' < MAX_CHUNK -> ~ (id = id' /\ i = i') ->
  chunk_data id i + CHUNKSIZE <= chunk_data id' i' \/ chunk_data id' i' + CHUNKSIZE <= chunk_data id i.
Proof.
  intros H1 H2 H3 H4 Hne. unfold chunk_data. assert (CHUNKSIZE = 262144 /\ sizeof_zone = 524288 /\ ZONE_MAX_SIZE = 17178296320 /\ MAX_CHUNK = 65528) as (C1 & C2 & C3 & C4) by done.
  destruct (decide (id = id')) as [->|Hid]; [lia|]. destruct (zones_apart id id' H1 H2 Hid); lia.
Qed.

Lemma data_off_headers id i id' x : 0 <= id -> 0 <= id' -> 0 <= i < MAX_CHUNK -> chunk_data id i <= x < chunk_data id i + CHUNKSIZE -> ~ (zn id' <= x < zn id' + sizeof_zone).
Proof.
  intros H1 H2 H3 Hx. unfold chunk_data in Hx. assert (CHUNKSIZE = 262144 /\ sizeof_zone = 524288 /\ ZONE_MAX_SIZE = 17178296320 /\ MAX_CHUNK = 65528) as (C1 & C2 & C3 & C4) by done.
  destruct (decide (id = id')) as [->|Hid]; [lia|]. destruct (zones_apart id id' H1 H2 Hid); lia.
Qed.

(** Where the descriptor of a huge block is. *)
Lemma descriptor_range v d : is_huge d -> chunk_data (zone_id d) (chunk_id d) <= block_get_user_data heap v d /\ block_get_user_data heap v d + 40 <= chunk_data (zone_id d) (chunk_id d) + 104.
Proof.
  intros (H1 & _ & _). unfold block_get_user_data, get_real_data. rewrite H1. change (MEMORY_BLOCK_HUGE =? MEMORY_BLOCK_HUGE) with true. cbn iota.
  change (huge_get_real_data heap d) with (chunk_data (zone_id d) (chunk_id d)). unfold header_type_to_size. destruct (header_type d =? HEADER_LEGACY), (header_type d =? HEADER_COMPACT); lia.
Qed.

Lemma user_data_huge v v' d : is_huge d -> block_get_user_data heap v d = block_get_user_data heap v' d.
Proof. intros (H1 & _ & _). unfold block_get_user_data, get_real_data. by rewrite H1. Qed.

Lemma held_frame v v' d : held v d -> (forall x, chunk_data (zone_id d) (chunk_id d) <= x < chunk_data (zone_id d) (chunk_id d) + CHUNKSIZE -> v' x = v x) -> held v' d.
Proof.
  intros [Hh Hr] Hx. split; [done|]. rewrite <- Hr, (user_data_huge v' v d Hh). apply read_bytes_eq. intros i Hi. apply Hx. pose proof (descriptor_range v d Hh). assert (CHUNKSIZE = 262144) by done. lia.
Qed.

(** ** Blocks in the bucket *)

Lemma keys_mid A1 id l A2 : all_keys (A1 ++ (id, l) :: A2) ≡ₚ avail_keys id 0 l ++ all_keys (A1 ++ A2).
Proof. unfold all_keys. rewrite !fmap_app, fmap_cons, !join_app. cbn. rewrite !app_assoc. by rewrite (Permutation_app_comm (avail_keys id 0 l)). Qed.

Lemma other_zone_key A v s id chunk off : Forall (fun x => zone_ok v x.1 x.2) A -> id ∉ A.*1 -> (s, id, chunk, off) ∉ all_keys A.
Proof.
  intros HA Hid Hk. unfold all_keys in Hk. apply list_elem_of_join in Hk as (ks & Hk & Hks). apply list_elem_of_fmap in Hks as ([id' l] & -> & Hin).
  rewrite Forall_forall in HA. pose proof (HA _ Hin) as Hz. destruct (avail_range _ _ _ _ (tiles_positive _ _ _ (zo_tiles _ _ _ Hz)) Hk) as (? & ? & [= _ <- _ _] & _).
  apply Hid. apply list_elem_of_fmap. by exists (id, l).
Qed.

(** Changing which blocks of one zone are available. *)
Lemma heap_ok_zone A1 id l A2 v c l' v' c' : heap_ok (A1 ++ (id, l) :: A2) v c -> zone_ok v' id l' ->
  Forall (fun x => zone_ok v' x.1 x.2) (A1 ++ A2) ->
  (forall L, ravl_ok cmp c L -> Forall (held v) L -> map block_key L ≡ₚ avail_keys id 0 l ++ all_keys (A1 ++ A2) ->
    exists L', ravl_ok cmp c' L' /\ Forall (held v') L' /\ map block_key L' ≡ₚ avail_keys id 0 l' ++ all_keys (A1 ++ A2)) ->
  heap_ok (A1 ++ (id, l') :: A2) v' c'.
Proof.
  intros [H1 H2 (L & HL & HF & HP)] Hz HA Hk. rewrite keys_mid in HP. destruct (Hk L HL HF HP) as (L' & HL' & HF' & HP'). constructor.
  - by rewrite !fmap_app, !fmap_cons in *.
  - apply Forall_app in HA as [? ?]. apply Forall_app. split; [done|]. by constructor.
  - exists L'. rewrite keys_mid. done.
Qed.

Lemma heap_ok_parts A1 id l A2 v c : heap_ok (A1 ++ (id, l) :: A2) v c -> zone_ok v id l /\ Forall (fun x => zone_ok v x.1 x.2) (A1 ++ A2) /\ id ∉ (A1 ++ A2).*1.
Proof.
  intros [H1 H2 _]. apply Forall_app in H2 as [F1 F2]. apply Forall_cons in F2 as [Fz F2]. split; [exact Fz|]. split; [by apply Forall_app|].
  rewrite fmap_app, fmap_cons in H1. rewrite fmap_app. intros Hin. apply NoDup_app in H1 as (N1 & N2 & N3). apply NoDup_cons in N3 as [N3 _]. apply elem_of_app in Hin as [Hin|Hin]; [|done].
  apply (N2 _ Hin). left.
Qed.

(** A key of the bucket is that of a block in an open zone. *)
Lemma avail_block zone i l k : k ∈ avail_keys zone i l -> exists l1 n l2, l = l1 ++ Blk Avail n :: l2 /\ k = (n, zone, i + chunks l1, 0).
Proof.
  revert i. induction l as [|b l IH]; intros i Hk; [by apply elem_of_nil in Hk|]. cbn in Hk. apply elem_of_app in Hk as [Hk|Hk].
  - destruct b as [[] n]; try (by apply elem_of_nil in Hk). apply list_elem_of_singleton in Hk as ->. exists [], n, l. split; [done|]. by rewrite Z.add_0_r.
  - destruct (IH _ Hk) as (l1 & n & l2 & -> & ->). exists (b :: l1), n, l2. split; [done|]. by rewrite chunks_cons, Z.add_assoc.
Qed.

Lemma key_block A k : k ∈ all_keys A -> exists A1 id l1 n l2 A2, A = A1 ++ (id, l1 ++ Blk Avail n :: l2) :: A2 /\ k = (n, id, chunks l1, 0).
Proof.
  intros Hk. unfold all_keys in Hk. apply list_elem_of_join in Hk as (ks & Hk & Hks). apply list_elem_of_fmap in Hks as ([id l] & -> & Hin).
  apply list_elem_of_split in Hin as (A1 & A2 & ->). destruct (avail_block _ _ _ _ Hk) as (l1 & n & l2 & E & ->). cbn in E. subst l. by exists A1, id, l1, n, l2, A2.
Qed.

Lemma bucket_range A v L d : Forall (fun x => zone_ok v x.1 x.2) A -> map block_key L ≡ₚ all_keys A -> d ∈ L -> 0 <= zone_id d /\ 0 <= chunk_id d < MAX_CHUNK /\ block_off d = 0.
Proof.
  intros HA HP Hd. assert (block_key d ∈ all_keys A) as Hk by (rewrite <- HP; by apply list_elem_of_fmap_2).
  apply key_block in Hk as (A1 & id & l1 & n & l2 & A2 & -> & [= Hs Hz Hc Ho]). apply Forall_app in HA as [_ HA]. apply Forall_cons in HA as [[H0 Hmax _ Ht] _]. cbn in *.
  apply tiles_mid in Ht as (T1 & [Hn _] & T2). pose proof (tiles_nonneg _ _ _ T1). pose proof (tiles_nonneg _ _ _ T2). rewrite chunks_app, chunks_cons in Hmax. cbn [b_size] in *. lia.
Qed.

(** Headers of one zone are written; which blocks are available stays. *)
Lemma heap_ok_headers A1 id l A2 v c l' v' : heap_ok (A1 ++ (id, l) :: A2) v c -> zone_ok v' id l' -> avail_keys id 0 l' = avail_keys id 0 l ->
  (forall x, ~ (zn id <= x < zn id + sizeof_zone) -> v' x = v x) -> heap_ok (A1 ++ (id, l') :: A2) v' c.
Proof.
  intros Hok Hz Hk Hx. destruct (heap_ok_parts _ _ _ _ _ _ Hok) as (_ & HA & Hid). eapply heap_ok_zone; [exact Hok|exact Hz|eapply zones_region; [exact HA|exact Hid|apply (zo_id _ _ _ Hz)|exact Hx]|].
  intros L HL HF HP. exists L. split; [done|]. rewrite Hk. split; [|done]. rewrite <- keys_mid in HP. rewrite Forall_forall in *. intros d Hd.
  destruct (bucket_range _ _ _ _ (ho_zones _ _ _ Hok) HP Hd) as (R1 & R2 & _). apply (held_frame v); [by apply HF|]. intros x Hx'. apply Hx.
  by apply (data_off_headers (zone_id d) (chunk_id d)); [|apply (zo_id _ _ _ Hz)|..].
Qed.

Lemma heap_ok_region A v v' c id : heap_ok A v c -> id ∉ A.*1 -> 0 <= id -> (forall x, ~ (zn id <= x < zn id + sizeof_zone) -> v' x = v x) -> heap_ok A v' c.
Proof.
  intros [H1 H2 (L & HL & HF & HP)] Hid H0 Hx. constructor; [done|by eapply zones_region|]. exists L. split; [done|]. split; [|done]. rewrite Forall_forall in HF |- *. intros d Hd.
  destruct (bucket_range A v L d H2 HP Hd) as (R1 & R2 & _). apply (held_frame v); [by apply HF|]. intros x Hx'. apply Hx. by apply (data_off_headers (zone_id d) (chunk_id d)).
Qed.

Lemma only_region v v' id lo hi : only_headers v v' id lo hi -> 0 <= lo -> hi <= MAX_CHUNK -> forall x, ~ (zn id <= x < zn id + sizeof_zone) -> v' x = v x.
Proof.
  intros Ho Hlo Hhi x Hx. apply Ho. assert (sizeof_zone_header = 64 /\ sizeof_chunk_header = 8 /\ sizeof_zone = 524288 /\ MAX_CHUNK = 65528) as (Z1 & Z2 & Z3 & Z4) by done. unfold chunk_hdr. rewrite Z1, Z2. lia.
Qed.

(** The number of nodes bounds the fuel. *)
Definition fuel_ok c : Prop := (2 * stdpp.base.size (nodes c) + 1 < fuel)%nat.

Lemma exact_env c : exists a, ravl_env_ok (RavlEnv fuel a) c \/ ~ fuel_ok c.
Proof.
  exists (fresh ({[0]} ∪ dom (nodes c))). pose proof (is_fresh ({[0]} ∪ dom (nodes c))) as Hf. destruct (decide (2 * stdpp.base.size (nodes c) + 1 < fuel)%nat) as [Hl|Hl]; [left|by right].
  split; [|split; [|exact Hl]]; cbn; [set_solver|]. apply not_elem_of_dom. set_solver.
Qed.

Lemma ravl_env c : fuel_ok c -> exists a, ravl_env_ok (RavlEnv fuel a) c.
Proof. intros Hf. destruct (exact_env c) as (a & [He|Hn]); [by exists a|done]. Qed.

(** A block that was available has left the bucket. *)
Lemma reserve_taken A1 id l1 n l2 A2 v c c' L L' x : heap_ok (A1 ++ (id, l1 ++ Blk Avail n :: l2) :: A2) v c -> Forall (held v) L -> map block_key L ≡ₚ all_keys (A1 ++ (id, l1 ++ Blk Avail n :: l2) :: A2) ->
  ravl_ok cmp c' L' -> L ≡ₚ x :: L' -> block_key x = (n, id, chunks l1, 0) -> heap_ok (A1 ++ (id, l1 ++ Blk Reserved n :: l2) :: A2) v c'.
Proof.
  intros Hok HF HP HL' HPx Hx. destruct (heap_ok_parts _ _ _ _ _ _ Hok) as (Hz & HA & Hid). rewrite keys_mid in HP. eapply heap_ok_zone; [exact Hok| |exact HA|].
  - destruct Hz as [Z1 Z2 Z3 Z4]. rewrite chunks_app, chunks_cons in *. constructor; rewrite ?chunks_app, ?chunks_cons; [done..|]. by apply tiles_mid in Z4; apply tiles_mid.
  - intros L0 HL0 HF0 HP0. exists L'. split; [done|]. split; [rewrite HPx in HF; by inversion HF|].
    apply (Permutation_cons_inv (a := block_key x)). transitivity (map block_key L); [by rewrite HPx|].
    rewrite HP, !avail_app, Hx, !Z.add_0_l, <- !app_assoc. cbn. symmetry. apply Permutation_middle.
Qed.

(** get_rm_exact of a block that is available, and of one that is not. *)
Lemma exact_avail A1 id l1 n l2 A2 v c m : heap_ok (A1 ++ (id, l1 ++ Blk Avail n :: l2) :: A2) v c -> fuel_ok c -> block_key m = (n, id, chunks l1, 0) ->
  exists c', container_ravl_get_rm_block_exact (RavlEnv fuel 0) c m = Some (0, c') /\ heap_ok (A1 ++ (id, l1 ++ Blk Reserved n :: l2) :: A2) v c'.
Proof.
  intros Hok Hf Hk. pose proof (ho_bucket _ _ _ Hok) as (L & HL & HF & HP).
  destruct (ravl_env c Hf) as [a Ha]. destruct (container_ravl_exact (RavlEnv fuel a) c L m HL Ha) as [[Hno _]|(c' & L' & E & HL' & x & Hx & HPx)].
  - exfalso. apply Hno. rewrite HP, keys_mid, Hk. apply elem_of_app. left. rewrite avail_app, Z.add_0_l. apply elem_of_app. right. cbn. left.
  - exists c'. split; [exact E|]. eapply reserve_taken; [exact Hok|exact HF|exact HP|exact HL'|exact HPx|congruence].
Qed.

Lemma exact_missing A1 id l1 b l2 A2 v c m : heap_ok (A1 ++ (id, l1 ++ b :: l2) :: A2) v c -> fuel_ok c -> b_kind b <> Avail -> block_key m = (size_idx m, id, chunks l1, 0) ->
  container_ravl_get_rm_block_exact (RavlEnv fuel 0) c m = Some (ENOMEM, c).
Proof.
  intros Hok Hf Hb Hk. destruct (heap_ok_parts _ _ _ _ _ _ Hok) as (Hz & HA & Hid). pose proof (ho_bucket _ _ _ Hok) as (L & HL & HF & HP). rewrite keys_mid in HP.
  destruct (ravl_env c Hf) as [a Ha]. destruct (container_ravl_exact (RavlEnv fuel a) c L m HL Ha) as [[_ E]|(c' & L' & E & HL' & x & Hx & HPx)]; [exact E|].
  exfalso. assert (block_key m ∈ map block_key L) as Hin by (rewrite HPx; cbn; rewrite Hx; left). rewrite HP, Hk in Hin. apply elem_of_app in Hin as [Hin|Hin].
  - by apply (avail_not_at id l1 b l2 (size_idx m) (tiles_positive _ _ _ (zo_tiles _ _ _ Hz)) Hb).
  - by apply (other_zone_key (A1 ++ A2) v _ _ _ _ HA Hid Hin).
Qed.

Lemma keys_fields A v L : Forall (fun x => zone_ok v x.1 x.2) A -> map block_key L ≡ₚ all_keys A -> Forall block_fields_ok L.
Proof. intros HA HP. rewrite Forall_forall. intros m Hm. destruct (bucket_range A v L m HA HP Hm) as (? & ? & ?). unfold block_fields_ok. lia. Qed.

(** get_rm_bestfit when a block is large enough. *)
Lemma bestfit_avail A v c m : heap_ok A v c -> fuel_ok c -> size_query m -> Exists (fun k => size_idx m <= key_size k) (all_keys A) ->
  exists A1 id l1 n l2 A2 x c', A = A1 ++ (id, l1 ++ Blk Avail n :: l2) :: A2 /\ size_idx m <= n /\ Forall (fun k => size_idx m <= key_size k -> n <= key_size k) (all_keys A) /\
    container_ravl_get_rm_block_bestfit (RavlEnv fuel 0) c m = Some (0, x, c') /\ describes x id (chunks l1) n /\ heap_ok (A1 ++ (id, l1 ++ Blk Reserved n :: l2) :: A2) v c'.
Proof.
  intros Hok Hf Hq Hex. pose proof (ho_bucket _ _ _ Hok) as (L & HL & HF & HP). pose proof (keys_fields A v L (ho_zones _ _ _ Hok) HP) as Hfl.
  destruct (ravl_env c Hf) as [a Ha]. destruct (ravl_bestfit_take (RavlEnv fuel a) c L m HL Hfl Ha Hq) as [[Hno _]|(x & c' & L' & E & HL' & HPx & Hs & Hmin)].
  - exfalso. apply Exists_exists in Hex as (k & Hk & Hle). rewrite <- HP in Hk. apply list_elem_of_fmap in Hk as (y & -> & Hy). rewrite Forall_forall in Hno. specialize (Hno y Hy). unfold key_size, block_key in Hle. cbn in Hle. lia.
  - assert (block_key x ∈ all_keys A) as Hk by (rewrite <- HP, HPx; left). destruct (key_block A _ Hk) as (A1 & id & l1 & n & l2 & A2 & -> & Hkx). pose proof Hkx as [= Hsx Hzx Hcx Hox].
    exists A1, id, l1, n, l2, A2, x, c'. split; [done|]. split; [lia|]. split.
    + rewrite Forall_forall. intros k Hk' Hle. rewrite <- HP in Hk'. apply list_elem_of_fmap in Hk' as (y & -> & Hy). rewrite Forall_forall in Hmin. specialize (Hmin y Hy Hle).
      unfold key_size, block_key in *. cbn in *. unfold container_compare_memblocks in Hmin. rewrite Hsx in Hmin.
      destruct (Z.eqb_spec (n - size_idx y) 0); cbn [negb] in Hmin; [lia|]. destruct (Z.ltb_spec 0 (n - size_idx y)); lia.
    + split; [exact E|]. rewrite HPx in HF. apply Forall_cons in HF as HF2. split; [do 4 (split; [done|]); by destruct HF2 as [[HF2 _] _]|]. rewrite <- HPx in HF. by eapply reserve_taken.
Qed.

(** A descriptor is stored to the data of a chunk that no block of the bucket starts with. *)
Lemma heap_ok_data A v v' c id i : heap_ok A v c -> 0 <= id -> 0 <= i < MAX_CHUNK -> (forall s, (s, id, i, 0) ∉ all_keys A) ->
  (forall x, ~ (chunk_data id i <= x < chunk_data id i + CHUNKSIZE) -> v' x = v x) -> heap_ok A v' c.
Proof.
  intros [H1 H2 (L & HL & HF & HP)] Hid Hi Hno Hx. constructor; [done| |].
  - rewrite Forall_forall in *. intros [id' l] Hin. apply (zone_frame v); [by apply H2|]. cbn [fst]. intros x Hx'. apply Hx. intros Hx2. by apply (data_off_headers id i id' x Hid (zo_id _ _ _ (H2 _ Hin)) Hi Hx2).
  - exists L. split; [done|]. split; [|done]. rewrite Forall_forall in HF |- *. intros d Hd. destruct (bucket_range A v L d H2 HP Hd) as (R1 & R2 & R3). apply (held_frame v); [by apply HF|]. intros x Hx'. apply Hx.
    assert (~ (zone_id d = id /\ chunk_id d = i)) as Hne.
    { intros [<- <-]. apply (Hno (size_idx d)). rewrite <- HP, <- R3. by apply (list_elem_of_fmap_2 block_key). }
    destruct (data_apart _ _ _ _ R1 Hid R2 Hi Hne); lia.
Qed.

(** Putting a reserved block into the bucket. *)
Lemma insert_reserved A1 id l1 n l2 A2 s c d a : heap_ok (A1 ++ (id, l1 ++ Blk Reserved n :: l2) :: A2) (vis s) c -> fuel_ok c -> describes d id (chunks l1) n ->
  a <> 0 -> nodes c !! a = None ->
  exists c' s', container_ravl_insert_block (block_get_user_data heap) (RavlEnv fuel a) c d s = Some (0, c', s') /\ heap_ok (A1 ++ (id, l1 ++ Blk Avail n :: l2) :: A2) (vis s') c' /\
    forall x, ~ ravl_descriptor (block_get_user_data heap) d (vis s) x -> vis s' x = vis s x.
Proof.
  intros Hok Hf (D1 & D2 & D3 & D4 & D5) Ha Hna. pose proof (heap_ok_parts _ _ _ _ _ _ Hok) as (Hz & HA & Hid).
  assert (block_key d = (n, id, chunks l1, 0)) as Hk by (unfold block_key; by rewrite D1, D2, D3, D4).
  assert (forall k, (k, id, chunks l1, 0) ∉ all_keys (A1 ++ (id, l1 ++ Blk Reserved n :: l2) :: A2)) as Hno.
  { intros k. rewrite keys_mid. intros [Hin|Hin]%elem_of_app.
    - by apply (avail_not_at id l1 (Blk Reserved n) l2 k (tiles_positive _ _ _ (zo_tiles _ _ _ Hz)) ltac:(done)).
    - by apply (other_zone_key (A1 ++ A2) (vis s) _ _ _ _ HA Hid Hin). }
  pose proof (descriptor_range (vis s) d D5) as Hr. rewrite D1, D2 in Hr. set (u := block_get_user_data heap (vis s) d) in *.
  set (s' := st_store u (enc_memory_block d) s). assert (forall x, ~ (u <= x < u + 40) -> vis s' x = vis s x) as Hfr by (intros x Hx; apply write_bytes_out; rewrite length_enc_memory_block; lia).
  assert (0 <= chunks l1 < MAX_CHUNK) as Hi.
  { destruct Hz as [_ Z2 _ Z4]. apply tiles_mid in Z4 as (T1 & [Hn _] & T2). pose proof (tiles_nonneg _ _ _ T1). pose proof (tiles_nonneg _ _ _ T2). rewrite chunks_app, chunks_cons in Z2. cbn [b_size] in *. lia. }
  assert (heap_ok (A1 ++ (id, l1 ++ Blk Reserved n :: l2) :: A2) (vis s') c) as Hok'.
  { eapply heap_ok_data; [exact Hok|apply (zo_id _ _ _ Hz)|exact Hi|exact Hno|]. intros x Hx. apply Hfr. assert (CHUNKSIZE = 262144) by done. lia. }
  destruct (heap_ok_parts _ _ _ _ _ _ Hok') as (Hz' & HA' & _). pose proof (ho_bucket _ _ _ Hok') as (L & HL & HF & HP).
  unfold container_ravl_insert_block, ravl_insert. cbn [re_fuel re_addr]. unfold fuel_ok in Hf. fold u. fold s'.
  destruct (emplace_ok cmp c L d a ravl_node_insert_constructor fuel HL Ha Hna ltac:(lia)) as (c' & E & Hc').
  assert (block_key d ∉ map block_key L) as Hni by (rewrite HP, Hk; apply Hno). rewrite (not_dup d L Hni) in E, Hc'. rewrite E. exists c', s'. split; [done|]. split; [|exact Hfr].
  eapply heap_ok_zone; [exact Hok'| |exact HA'|].
  - destruct Hz' as [Z1 Z2 Z3 Z4]. rewrite chunks_app, chunks_cons in *. constructor; rewrite ?chunks_app, ?chunks_cons; [done..|]. by apply tiles_mid in Z4; apply tiles_mid.
  - intros _ _ _ _. eexists. split; [exact Hc'|]. split.
    + apply set_insert_Forall; [|done]. split; [done|]. rewrite (user_data_huge _ (vis s) d D5). fold u. unfold s', st_store. cbn [vis]. by apply read_write_same.
    + rewrite (set_insert_perm cmp d L). cbn. rewrite keys_mid in HP. rewrite Hk, HP, !avail_app, !Z.add_0_l, <- !app_assoc. cbn. apply Permutation_middle.
Qed.

(** Headers of a zone and the descriptor of [d] are written. *)
Definition only_block v v' (id lo hi : Z) d : Prop := forall x, ~ (chunk_hdr (zn id) lo <= x < chunk_hdr (zn id) hi) -> ~ ravl_descriptor (block_get_user_data heap) d v x -> v' x = v x.

Lemma only_then_descriptor v v1 v2 id lo hi d : is_huge d -> only_headers v v1 id lo hi -> (forall x, ~ ravl_descriptor (block_get_user_data heap) d v1 x -> v2 x = v1 x) -> only_block v v2 id lo hi d.
Proof. intros Hh Ho Hd x Hx Hx'. rewrite Hd; [by apply Ho|]. unfold ravl_descriptor in *. by rewrite (user_data_huge v1 v d Hh). Qed.
End Chunks.
