(* ===== verification/HeapChunkOps.v ===== *)
(** * Coalescing and splitting, step by step

    The parts of heap_free_chunk_reuse and heap_get_bestfit_block as changes of
    tilings. *)
From stdpp Require Import base numbers list list_numbers gmap.
From Stdlib Require Import ZArith Lia Bool.
From S2P Require Import Prelude Pmem Ulog Memops Ravl RavlFacts RavlOps RavlSpec Container Seglists HeapLayout Memblock MemblockInit AllocClass Recycler Lane Tx Palloc HeapZone HeapArena Heap HeapTiles HeapChunks.

(** ** Nodes of a tree *)

Lemma update_none {D} n (f : ravl_node D -> ravl_node D) r r' a : update n f r = Some r' -> nodes r !! a = None -> nodes r' !! a = None.
Proof.
  unfold update. intros (nd & Hd & [= <-])%bind_Some Ha. cbn. destruct (decide (n = a)) as [->|Hne]; [|by rewrite lookup_insert_ne].
  unfold deref in Hd. by rewrite Ha in Hd; destruct (a =? 0).
Qed.

Lemma remove_none {D} fuel : forall n (r r' : ravl D) a, ravl_remove fuel n r = Some r' -> nodes r !! a = None -> nodes r' !! a = None.
Proof.
  induction fuel as [|fuel IH]; intros n r r' a E Ha; [done|]. cbn [ravl_remove] in E. apply bind_Some in E as (nd & _ & E). destruct (_ && _).
  - apply bind_Some in E as (s & _ & E). apply bind_Some in E as (sd & _ & E). apply bind_Some in E as (r1 & E1 & E). eapply IH; [exact E|]. by eapply update_none.
  - apply bind_Some in E as (r1 & E1 & E). apply bind_Some in E as (f & _ & E). apply bind_Some in E as (r2 & E2 & [= <-]). cbn. rewrite lookup_delete_None. right.
    assert (nodes r1 !! a = None) as H1 by (destruct (_ =? 0); [by injection E1 as <-|by eapply update_none]).
    unfold store_ref in E2. destruct f; [by injection E2 as <-|by eapply update_none].
Qed.

(** The steps of an insertion touch nodes that are there. *)
Ltac node_steps E := repeat (first
  [ match type of E with (_ ≫= _) = _ => apply bind_Some in E as (? & ? & E) end
  | match type of E with (if ?c then _ else _) = _ => destruct c end
  | match type of E with (match ?x with (_, _) => _ end) = _ => destruct x end ]).

Lemma store_none {D} f n (r r' : ravl D) a : store_ref f n r = Some r' -> nodes r !! a = None -> nodes r' !! a = None.
Proof. unfold store_ref. destruct f; [by intros [= <-]|by apply update_none]. Qed.
Create HintDb node_none.
#[local] Hint Resolve update_none store_none : node_none.

Lemma rotate_none {D} n (r r' : ravl D) a : ravl_rotate n r = Some r' -> nodes r !! a = None -> nodes r' !! a = None.
Proof.
  unfold ravl_rotate. intros E Ha. node_steps E. match goal with H : (if ?c then _ else _) = _ |- _ => destruct c; [injection H as <-|] end; eauto 8 with node_none.
Qed.
Lemma promote_none {D} n (r r' : ravl D) a : ravl_node_promote n r = Some r' -> nodes r !! a = None -> nodes r' !! a = None.
Proof. unfold ravl_node_promote. intros E Ha. node_steps E. eauto with node_none. Qed.
Lemma demote_none {D} n (r r' : ravl D) a : ravl_node_demote n r = Some r' -> nodes r !! a = None -> nodes r' !! a = None.
Proof. unfold ravl_node_demote. intros E Ha. node_steps E. eauto with node_none. Qed.
#[local] Hint Resolve rotate_none promote_none demote_none : node_none.

Lemma promote_up_none {D} fuel : forall n n' (r r' : ravl D) a, promote_up fuel n r = Some (n', r') -> nodes r !! a = None -> nodes r' !! a = None.
Proof.
  induction fuel as [|fuel IH]; intros n n' r r' a E Ha; [done|]. cbn [promote_up] in E. node_steps E; [by injection E as _ <-|by eauto with node_none|by injection E as _ <-].
Qed.

Lemma balance_none {D} fuel n (r r' : ravl D) a : ravl_balance fuel n r = Some r' -> nodes r !! a = None -> nodes r' !! a = None.
Proof.
  unfold ravl_balance. intros E Ha. apply bind_Some in E as ([n1 r1] & Ep & E). pose proof (promote_up_none _ _ _ _ _ _ Ep Ha) as H1.
  node_steps E; first [injection E as <-; done | eauto 7 with node_none].
Qed.

Lemma emplace_none {D} (compare : D -> D -> Z) fuel addr constr d (r r' : ravl D) ret a : ravl_emplace compare fuel r addr constr d = Some (ret, r') -> a <> addr -> nodes r !! a = None -> nodes r' !! a = None.
Proof.
  unfold ravl_emplace, ravl_new_node. intros E Hne Ha. destruct (Z.eqb_spec addr 0) as [->|Hn]; [by injection E as _ <-|]. rewrite (proj2 (Z.eqb_neq addr 0) Hn) in E.
  apply bind_Some in E as ([[dstp dst]|] & _ & E).
  - apply bind_Some in E as (r1 & E1 & E). apply bind_Some in E as (r2 & E2 & E). apply bind_Some in E as (r3 & E3 & [= _ <-]).
    eapply balance_none, store_none, update_none; [exact E3|exact E2|exact E1|]. cbn. by rewrite lookup_insert_ne.
  - injection E as _ <-. cbn. by rewrite delete_insert_eq, lookup_delete_ne.
Qed.

Section Ops.
Context (heap : palloc_heap) (fuel : nat).
Implicit Types (m d : memory_block) (v : mem) (l : list ablock) (c : block_container_ravl) (ws : world) (rt : palloc_rt heap_rt).

Definition has_bucket rt (b ac : Z) c : Prop := h_buckets (rt_heap rt) !! b = Some (HBucket ac (ContRavl c)).
Definition put_container (b ac : Z) c rt : palloc_rt heap_rt :=
  PRt (rt_buckets rt) (rt_resv rt) (set_buckets (<[b := HBucket ac (ContRavl c)]> (h_buckets (rt_heap rt))) (rt_heap rt)).

Lemma put_container_has b ac c rt : has_bucket (put_container b ac c rt) b ac c.
Proof. unfold has_bucket. cbn. apply lookup_insert_eq. Qed.
Lemma put_put b ac c c' rt : put_container b ac c' (put_container b ac c rt) = put_container b ac c' rt.
Proof. unfold put_container, set_buckets. cbn. by rewrite insert_insert_eq. Qed.
Lemma put_id b ac c rt : has_bucket rt b ac c -> put_container b ac c rt = rt.
Proof. intros H. unfold put_container, set_buckets. rewrite insert_id by done. by destruct rt as [? ? []]. Qed.

Definition enough (A : list (Z * list ablock)) : Prop := (2 * length (all_keys A) + 1 < fuel)%nat.

Lemma nodes_count A v c : heap_ok heap A v c -> stdpp.base.size (nodes c) = length (all_keys A).
Proof.
  intros [_ _ (L & (t & Hwf & _ & _ & <-) & _ & HP)]. rewrite <- (wf_size _ _ Hwf), <- HP, length_map. clear. induction t as [|a k x t1 IH1 t2 IH2]; [done|]. cbn.
  rewrite !length_app, IH1, IH2. cbn. lia.
Qed.

Lemma enough_fuel A v c : heap_ok heap A v c -> enough A -> fuel_ok fuel c.
Proof. intros H1 H2. unfold fuel_ok. by rewrite (nodes_count A v c H1). Qed.

(** ** Calls of the container *)

Lemma exact_run b ac c d ws rt r c' : has_bucket rt b ac c -> container_ravl_get_rm_block_exact (RavlEnv fuel 0) c d = Some (r, c') ->
  container_get_rm_exact fuel b d ws rt = Some (r, ws, put_container b ac c' rt).
Proof.
  intros Hb E. unfold container_get_rm_exact, bucket_at, hbind, get_heap, hlift, set_container, bucket_at, hbind, get_heap, hlift, set_heap, hret. cbn [mbind option_bind rt_heap]. unfold has_bucket in Hb. rewrite Hb. cbn [mbind option_bind hb_cont].
  rewrite E. cbn [mbind option_bind]. rewrite Hb. done.
Qed.

(** Malloc has returned [a] for the new node. *)
Lemma insert_run b ac c d ws rt r c' s' a ms : has_bucket rt b ac c -> h_mallocs (rt_heap rt) = a :: ms -> a <> 0 -> container_ravl_insert_block (block_get_user_data heap) (RavlEnv fuel a) c d ws.2 = Some (r, c', s') ->
  container_insert heap fuel b d ws rt = Some ((r, EEXIST), (ws.1, s'), put_container b ac c' (PRt (rt_buckets rt) (rt_resv rt) (set_mallocs ms (rt_heap rt)))).
Proof.
  intros Hb Hm Ha E. unfold container_insert, update_mem, bucket_at, Malloc, hbind, get_heap, hlift, set_container, bucket_at, hbind, get_heap, hlift, set_heap, hret. cbn [mbind option_bind rt_heap]. unfold has_bucket in Hb. rewrite Hb. cbn [mbind option_bind hb_cont].
  rewrite Hm. cbn [List.hd tl mbind option_bind]. rewrite E. cbn [mbind option_bind rt_heap set_mallocs h_buckets]. rewrite Hb. cbn [mbind option_bind].
  rewrite (proj2 (Z.eqb_neq a 0) Ha). done.
Qed.

(** ** Neighbours *)

Lemma rebuild_free v d id chunk n : zone_id d = id -> chunk_id d = chunk -> hd heap v id chunk = (CHUNK_TYPE_FREE, n) ->
  memblock_rebuild_state heap v d = Some (set_runtime MEMORY_BLOCK_HUGE (heap_addr heap) (memblock_header_type heap v d) MEMORY_BLOCK_HUGE d).
Proof.
  intros <- <- E. unfold hd in E. injection E as E _. unfold memblock_rebuild_state, memblock_detect_type.
  change (heap_get_chunk_hdr heap d) with (chunk_hdr (zn heap (zone_id d)) (chunk_id d)). rewrite E. done.
Qed.

Definition free_kind (k : kind) : bool := match k with Avail | Reserved => true | _ => false end.

(** The result of looking for a neighbour: its descriptor, or ENOENT. *)
Definition found_adjacent m (prev : bool) ws rt (id : Z) (where_ : option (Z * Z)) : Prop :=
  match where_ with
  | Some (chunk, n) => exists d, heap_get_adjacent_free_block heap m MEMORY_BLOCK_NONE prev ws rt = Some ((0, d), ws, rt) /\ describes heap d id chunk n
  | None => exists d, heap_get_adjacent_free_block heap m MEMORY_BLOCK_NONE prev ws rt = Some ((ENOENT, d), ws, rt)
  end.

Lemma adjacent_prev id l1 b l2 m ws rt : zone_ok heap (vis ws.2) id (l1 ++ b :: l2) -> footed l1 -> zone_id m = id -> chunk_id m = chunks l1 ->
  found_adjacent m true ws rt id (match last l1 with Some p => if free_kind (b_kind p) then Some (chunks l1 - b_size p, b_size p) else None | None => None end).
Proof.
  intros [Z1 Z2 Z3 Z4] Hfoot Hid Hc. assert (MAX_CHUNK = 65528) as Hmax by done. rewrite chunks_app, chunks_cons in Z2. apply tiles_mid in Z4 as (T1 & [Hn _] & T2).
  pose proof (tiles_nonneg _ _ _ T1) as N1. pose proof (tiles_nonneg _ _ _ T2) as N2.
  unfold found_adjacent, heap_get_adjacent_free_block, hbind, get_vis, hret, hlift. cbn [mbind option_bind]. rewrite Hid, Hc. fold (zn heap id).
  destruct (last l1) as [p|] eqn:El.
  - apply last_Some in El as [l ->]. rewrite chunks_app, chunks_cons in *. change (chunks []) with 0 in *. pose proof (prev_block _ _ _ T1 (footed_last _ _ Hfoot)) as Hp. cbv zeta in Hp.
    pose proof (proj1 (tiles_mid _ _ _ _) T1) as (Tl & [Hpn _] & _). pose proof (tiles_nonneg _ _ _ Tl) as Nl.
    rewrite (proj2 (Z.eqb_neq _ 0)) by lia. rewrite !Z.add_0_r in *. set (q := chunks l + b_size p) in *.
    change (hdr_size_idx (vis ws.2) (chunk_hdr (zn heap id) (q - 1))) with (hd heap (vis ws.2) id (q - 1)).2.
    destruct Hp as [(Hk & Eq & EH)|(Hk & Hr & Ht)].
    + rewrite Eq, u32_small by lia. rewrite Eq in EH. change (hdr_type (vis ws.2) (chunk_hdr (zn heap id) (chunks l))) with (hd heap (vis ws.2) id (chunks l)).1.
      change (hdr_size_idx (vis ws.2) (chunk_hdr (zn heap id) (chunks l))) with (hd heap (vis ws.2) id (chunks l)).2. rewrite EH. cbn [fst snd].
      assert (free_kind (b_kind p) = true) as -> by (by destruct Hk as [-> | ->]). change (CHUNK_TYPE_FREE =? CHUNK_TYPE_FREE) with true. cbn [negb].
      rewrite (rebuild_free _ _ id (chunks l) (b_size p)) by done. cbn [mbind option_bind]. eexists. split; [reflexivity|]. replace (q - b_size p) with (chunks l) by lia. by repeat split.
    + assert (free_kind (b_kind p) = false) as -> by (by destruct Hk as [-> | ->]). rewrite u32_small by lia. set (x := q - _) in *.
      change (hdr_type (vis ws.2) (chunk_hdr (zn heap id) x)) with (hd heap (vis ws.2) id x).1. rewrite (proj2 (Z.eqb_neq _ _) Ht). cbn [negb]. by eexists.
  - apply last_None in El as ->. change (chunks []) with 0. cbn [Z.eqb]. by eexists.
Qed.

Lemma blk_header H i b : blk_at H i b -> (H i).2 = b_size b /\ ((H i).1 = CHUNK_TYPE_FREE <-> free_kind (b_kind b) = true).
Proof. intros [_ Hb]. destruct (b_kind b); first [rewrite Hb | destruct Hb as [-> _]]; cbn; split; done. Qed.

Lemma adjacent_next id l1 b l2 m ws rt : zone_ok heap (vis ws.2) id (l1 ++ b :: l2) -> zone_id m = id -> chunk_id m = chunks l1 ->
  found_adjacent m false ws rt id (match l2 with p :: _ => if free_kind (b_kind p) then Some (chunks l1 + b_size b, b_size p) else None | [] => None end).
Proof.
  intros [Z1 Z2 Z3 Z4] Hid Hc. assert (MAX_CHUNK = 65528) as Hmax by done. rewrite chunks_app, chunks_cons in *. apply tiles_mid in Z4 as (T1 & Hb & T2).
  pose proof (tiles_nonneg _ _ _ T1) as N1. pose proof (tiles_nonneg _ _ _ T2) as N2. pose proof (blk_header _ _ _ Hb) as [Hs _]. pose proof Hb as [Hn _].
  unfold found_adjacent, heap_get_adjacent_free_block, hbind, get_vis, hret, hlift. cbn [mbind option_bind]. rewrite Hid, Hc. fold (zn heap id).
  change (hdr_size_idx (vis ws.2) (chunk_hdr (zn heap id) (chunks l1))) with (hd heap (vis ws.2) id (chunks l1)).2. rewrite Hs, Z3, u32_small by lia.
  destruct l2 as [|p l2].
  - change (chunks []) with 0. rewrite Z.add_0_r, Z.eqb_refl. by eexists.
  - destruct T2 as [Hp T2]. pose proof Hp as [Hpn _]. rewrite chunks_cons in *. pose proof (tiles_nonneg _ _ _ T2) as N3. rewrite (proj2 (Z.eqb_neq _ _)) by lia.
    set (q := chunks l1 + b_size b) in *. change (hdr_type (vis ws.2) (chunk_hdr (zn heap id) q)) with (hd heap (vis ws.2) id q).1.
    change (hdr_size_idx (vis ws.2) (chunk_hdr (zn heap id) q)) with (hd heap (vis ws.2) id q).2. destruct (blk_header _ _ _ Hp) as [Hps Hpt]. rewrite Hps.
    destruct (free_kind (b_kind p)) eqn:Ek.
    + assert ((hd heap (vis ws.2) id q).1 = CHUNK_TYPE_FREE) as -> by (by apply Hpt). cbn [negb Z.eqb CHUNK_TYPE_FREE Pos.eqb].
      rewrite (rebuild_free _ _ id q (b_size p)); [|done|done|]. 2: { destruct (hd heap (vis ws.2) id q) as [x y] eqn:E. cbn in Hps, Hpt. f_equal; [by apply Hpt|done]. }
      cbn [mbind option_bind]. eexists. split; [reflexivity|]. by repeat split.
    + destruct (Z.eqb_spec (hd heap (vis ws.2) id q).1 CHUNK_TYPE_FREE) as [E|E]; [apply Hpt in E; done|]. cbn [negb]. by eexists.
Qed.

Lemma describes_key d id chunk n : describes heap d id chunk n -> block_key d = (n, id, chunk, 0).
Proof. intros (D1 & D2 & D3 & D4 & _). unfold block_key. by rewrite D1, D2, D3, D4. Qed.

Lemma keys_length A1 id l l' A2 : (length (avail_keys id 0 l') <= length (avail_keys id 0 l))%nat -> enough (A1 ++ (id, l) :: A2) -> enough (A1 ++ (id, l') :: A2).
Proof. unfold enough. rewrite !keys_mid, !length_app. lia. Qed.

Lemma exact_same_nodes c d r c' a : container_ravl_get_rm_block_exact (RavlEnv fuel 0) c d = Some (r, c') -> nodes c !! a = None -> nodes c' !! a = None.
Proof.
  unfold container_ravl_get_rm_block_exact. intros E Ha. apply bind_Some in E as (n & _ & E). destruct (n =? 0); [by injection E as _ <-|].
  apply bind_Some in E as (c1 & E1 & [= _ <-]). by eapply remove_none.
Qed.

(** The neighbour leaves the bucket when it is there. *)
Lemma take_none b m prev ws rt id ac c : found_adjacent m prev ws rt id None -> has_bucket rt b ac c -> take_adjacent heap fuel b m prev ws rt = Some ([], ws, put_container b ac c rt).
Proof. intros [d Hf] Hb. unfold take_adjacent, hbind. rewrite Hf. cbn. by rewrite put_id. Qed.

Definition with_kind (k : kind) (x : ablock) : ablock := Blk k (b_size x).

Lemma take_found A1 id la x lb A2 b m prev ws rt ac c : let A := A1 ++ (id, la ++ x :: lb) :: A2 in
  heap_ok heap A (vis ws.2) c -> enough A -> has_bucket rt b ac c -> found_adjacent m prev ws rt id (if free_kind (b_kind x) then Some (chunks la, b_size x) else None) ->
  exists ds c', take_adjacent heap fuel b m prev ws rt = Some (ds, ws, put_container b ac c' rt) /\ (forall a, nodes c !! a = None -> nodes c' !! a = None) /\
    (if decide (b_kind x = Avail)
     then (exists d, ds = [d] /\ describes heap d id (chunks la) (b_size x)) /\ heap_ok heap (A1 ++ (id, la ++ with_kind Reserved x :: lb) :: A2) (vis ws.2) c'
     else ds = [] /\ c' = c).
Proof.
  intros A Hok He Hb Hadj. pose proof (enough_fuel _ _ _ Hok He) as Hf. destruct (free_kind (b_kind x)) eqn:Ek.
  2: { exists [], c. split; [by eapply take_none|]. split; [done|]. by rewrite decide_False by (intros E; by rewrite E in Ek). }
  destruct Hadj as (d & Ead & Hd). pose proof (describes_key _ _ _ _ Hd) as Hk. unfold take_adjacent, hbind. rewrite Ead. cbn [mbind option_bind Z.eqb negb].
  destruct (decide (b_kind x = Avail)) as [Ea|Ea].
  - destruct x as [k n]. cbn in Ea. subst k. destruct (exact_avail heap fuel A1 id la n lb A2 _ c d Hok Hf Hk) as (c' & E & Hok').
    rewrite (exact_run b ac c d ws rt 0 c' Hb E). exists [d], c'. split; [done|]. split; [|by eauto]. intros a. by eapply exact_same_nodes.
  - pose proof (exact_missing heap fuel A1 id la x lb A2 _ c d Hok Hf Ea ltac:(rewrite Hk; by destruct Hd as (_ & _ & -> & _))) as E.
    rewrite (exact_run b ac c d ws rt ENOMEM c Hb E). by exists [], c.
Qed.

Lemma insert_same_nodes gud c d s r c' s' a a' : container_ravl_insert_block gud (RavlEnv fuel a) c d s = Some (r, c', s') -> a' <> a -> nodes c !! a' = None -> nodes c' !! a' = None.
Proof. intros ([r1 c1] & E & [= _ <- _])%bind_Some. by eapply emplace_none. Qed.

(** New nodes of the tree are at [a]. *)
Definition new_nodes (a : Z) c c' : Prop := forall a', a' <> a -> nodes c !! a' = None -> nodes c' !! a' = None.
End Ops.
