(* ===== verification/HeapFree.v ===== *)
(** * Freeing and giving out chunks

    heap_free_chunk_reuse joins a block with its free neighbours, and
    heap_get_bestfit_block cuts one out of the block that fits best: as changes
    of the tiling of a zone, for zones and buckets of any size. *)
From stdpp Require Import base numbers list list_numbers gmap.
From Stdlib Require Import ZArith Lia Bool.
From S2P Require Import Prelude Pmem Ulog Memops Ravl RavlFacts RavlOps RavlSpec Container Seglists HeapLayout Memblock MemblockInit AllocClass Recycler Lane Tx Palloc HeapZone HeapArena Heap HeapTiles HeapChunks HeapChunkOps.

(** A neighbour that has been taken, if there was one. *)
Definition resv (n : Z) : list ablock := if n =? 0 then [] else [Blk Reserved n].
Lemma resv_chunks n : chunks (resv n) = n.
Proof. unfold resv. destruct (Z.eqb_spec n 0) as [->|]; [done|]. unfold chunks. cbn. lia. Qed.
Lemma resv_pos n : 0 < n -> resv n = [Blk Reserved n].
Proof. intros Hn. unfold resv. by rewrite (proj2 (Z.eqb_neq n 0)) by lia. Qed.

Definition no_avail (l : list ablock) : Prop := Forall (fun b => b_kind b <> Avail) l.
Lemma no_avail_keys id i l : no_avail l -> avail_keys id i l = [].
Proof. intros Hl. revert i. induction Hl as [|b l Hb _ IH]; intros i; [done|]. cbn. rewrite IH. by destruct (b_kind b). Qed.
Lemma resv_no_avail n : no_avail (resv n).
Proof. unfold resv. destruct (n =? 0); repeat constructor; done. Qed.

(** A block is reserved. *)
Lemma avail_fewer id i l1 n l2 : (length (avail_keys id i (l1 ++ Blk Reserved n :: l2)) <= length (avail_keys id i (l1 ++ Blk Avail n :: l2)))%nat.
Proof. rewrite !avail_app, !length_app. cbn [avail_keys b_kind b_size]. rewrite !length_app. cbn. lia. Qed.

(** Blocks that are not available count as one. *)
Lemma avail_merge id i l1 old n l2 : no_avail old -> chunks old = n -> avail_keys id i (l1 ++ old ++ l2) = avail_keys id i (l1 ++ Blk Reserved n :: l2).
Proof. intros Ho Hc. rewrite !avail_app, (no_avail_keys _ _ _ Ho), Hc. done. Qed.

Section Free.
Context (heap : palloc_heap) (fuel : nat).
Implicit Types (m d nm : memory_block) (v : mem) (l : list ablock) (c : block_container_ravl) (ws : world) (rt : palloc_rt heap_rt).

Abbreviation enough := (enough fuel).

(** Reserving more blocks keeps the fuel. *)
Lemma enough_less A1 id l l' A2 : (length (avail_keys id 0 l') <= length (avail_keys id 0 l))%nat -> enough (A1 ++ (id, l) :: A2) -> enough (A1 ++ (id, l') :: A2).
Proof. apply keys_length. Qed.

Lemma zone_positive v id l : zone_ok heap v id l -> positive l.
Proof. intros Hz. apply (tiles_positive _ _ _ (zo_tiles _ _ _ _ Hz)). Qed.

Lemma take_prev_run A1 id l1 n l2 A2 b m ws rt ac c : let A := A1 ++ (id, l1 ++ Blk Reserved n :: l2) :: A2 in
  heap_ok heap A (vis ws.2) c -> enough A -> has_bucket rt b ac c -> footed l1 -> zone_id m = id -> chunk_id m = chunks l1 ->
  let '(l1', p) := take_prev l1 in let A' := A1 ++ (id, (l1' ++ resv p) ++ Blk Reserved n :: l2) :: A2 in
  exists ds c', take_adjacent heap fuel b m true ws rt = Some (ds, ws, put_container b ac c' rt) /\ (forall a, nodes c !! a = None -> nodes c' !! a = None) /\
    heap_ok heap A' (vis ws.2) c' /\ enough A' /\ 0 <= p /\ Forall2 (fun d x => describes heap d id (chunks l1') (b_size x)) ds (resv p).
Proof.
  intros A Hok He Hb Hfoot Hid Hc. destruct (heap_ok_parts _ _ _ _ _ _ _ Hok) as (Hz & _ & _). pose proof (zone_positive _ _ _ Hz) as Hpos.
  pose proof (adjacent_prev heap id l1 _ l2 m ws rt Hz Hfoot Hid Hc) as Hadj. pose proof (take_prev_spec l1) as Hs. destruct (take_prev l1) as [l1' p]. cbv zeta. subst A.
  destruct Hs as [[->|(-> & -> & Hno)] Hch].
  - assert (0 < p) as Hp by (apply Forall_app in Hpos as [Hpos _]; apply Forall_app in Hpos as [_ Hpos]; by inversion Hpos).
    rewrite last_snoc in Hadj. cbn [b_kind b_size free_kind] in Hadj. rewrite Hch in Hadj. replace (chunks l1' + p - p) with (chunks l1') in Hadj by lia.
    rewrite <- !app_assoc in *. cbn [app] in *. destruct (take_found heap fuel A1 id l1' (Blk Avail p) _ A2 b m true ws rt ac c Hok He Hb Hadj) as (ds & c' & E & Hn & Hd).
    rewrite decide_True in Hd by done. destruct Hd as [(d & -> & Hd) Hok']. exists [d], c'. rewrite resv_pos by done. cbn [app]. split; [done|]. split; [done|]. split; [done|].
    split; [by eapply enough_less, He; apply avail_fewer|]. split; [lia|]. constructor; [exact Hd|constructor].
  - change (resv 0) with (@nil ablock). rewrite app_nil_r. assert (forall ds c', ds = [] /\ c' = c -> heap_ok heap (A1 ++ (id, l1 ++ Blk Reserved n :: l2) :: A2) (vis ws.2) c' /\
      enough (A1 ++ (id, l1 ++ Blk Reserved n :: l2) :: A2) /\ 0 <= 0 /\ Forall2 (fun d x => describes heap d id (chunks l1) (b_size x)) ds []) as Hx by (intros ? ? [-> ->]; done).
    destruct (last l1) as [x|] eqn:El.
    + pose proof El as [l ->]%last_Some. rewrite <- app_assoc in *. cbn [app] in *. rewrite chunks_app, chunks_cons in Hadj. change (chunks []) with 0 in Hadj.
      replace (chunks l + (b_size x + 0) - b_size x) with (chunks l) in Hadj by lia. destruct (take_found heap fuel A1 id l x _ A2 b m true ws rt ac c Hok He Hb Hadj) as (ds & c' & E & Hn & Hd).
      rewrite decide_False in Hd by (intros E'; destruct x; cbn in E'; subst; by eapply Hno). exists ds, c'. split; [done|]. split; [done|]. by apply Hx.
    + exists [], c. split; [by eapply take_none|]. split; [done|]. by apply Hx.
Qed.

Lemma take_next_run A1 id l1 n l2 A2 b m ws rt ac c : let A := A1 ++ (id, l1 ++ Blk Reserved n :: l2) :: A2 in
  heap_ok heap A (vis ws.2) c -> enough A -> has_bucket rt b ac c -> zone_id m = id -> chunk_id m = chunks l1 ->
  let '(l2', q) := take_next l2 in let A' := A1 ++ (id, l1 ++ Blk Reserved n :: resv q ++ l2') :: A2 in
  exists ds c', take_adjacent heap fuel b m false ws rt = Some (ds, ws, put_container b ac c' rt) /\ (forall a, nodes c !! a = None -> nodes c' !! a = None) /\
    heap_ok heap A' (vis ws.2) c' /\ enough A' /\ 0 <= q /\ Forall2 (fun d x => describes heap d id (chunks l1 + n) (b_size x)) ds (resv q).
Proof.
  intros A Hok He Hb Hid Hc. destruct (heap_ok_parts _ _ _ _ _ _ _ Hok) as (Hz & _ & _). pose proof (zone_positive _ _ _ Hz) as Hpos.
  pose proof (adjacent_next heap id l1 _ l2 m ws rt Hz Hid Hc) as Hadj. pose proof (take_next_spec l2) as Hs. destruct (take_next l2) as [l2' q]. cbv zeta. subst A.
  cbn [b_size] in Hadj. assert (chunks (l1 ++ [Blk Reserved n]) = chunks l1 + n) as Hch' by (rewrite chunks_app, chunks_cons; unfold chunks; cbn; lia).
  assert (forall x l, l1 ++ Blk Reserved n :: x :: l = (l1 ++ [Blk Reserved n]) ++ x :: l) as Hsplit by (intros; by rewrite <- app_assoc).
  destruct Hs as [[->|(-> & -> & Hno)] Hch].
  - assert (0 < q) as Hq by (apply Forall_app in Hpos as [_ Hpos]; inversion Hpos as [|? ? _ Hpos']; by inversion Hpos').
    cbn [b_kind b_size free_kind] in Hadj. rewrite resv_pos by done. cbn [app]. rewrite !Hsplit, <- !Hch' in *.
    destruct (take_found heap fuel A1 id _ (Blk Avail q) _ A2 b m false ws rt ac c Hok He Hb Hadj) as (ds & c' & E & Hn & Hd).
    rewrite decide_True in Hd by done. destruct Hd as [(d & -> & Hd) Hok']. exists [d], c'. split; [done|]. split; [done|]. split; [done|].
    split; [by eapply enough_less, He; apply avail_fewer|]. split; [lia|]. constructor; [exact Hd|constructor].
  - change (resv 0) with (@nil ablock). cbn [app]. destruct l2 as [|x l2].
    + exists [], c. split; [by eapply take_none|]. do 4 (split; [done|]). constructor.
    + rewrite !Hsplit in *. rewrite <- Hch' in Hadj. destruct (take_found heap fuel A1 id _ x _ A2 b m false ws rt ac c Hok He Hb Hadj) as (ds & c' & E & Hn & Hd).
      rewrite decide_False in Hd by (intros E'; destruct x; cbn in E'; subst; by eapply Hno). destruct Hd as [-> ->]. exists [], c. do 5 (split; [done|]). constructor.
Qed.

(** heap_coalesce: the blocks have to follow one another. *)
Lemma coalesce_run first ds ws rt id chunk k n : describes heap first id chunk k -> hd heap (vis ws.2) id chunk = (CHUNK_TYPE_FREE, n) ->
  Forall (fun d => 0 <= size_idx d) (first :: ds) -> foldr (fun d s => size_idx d + s) 0 (first :: ds) < 2 ^ 32 ->
  exists nm, heap_coalesce heap (first :: ds) ws rt = Some (nm, ws, rt) /\ describes heap nm id chunk (foldr (fun d s => size_idx d + s) 0 (first :: ds)).
Proof.
  intros (D1 & D2 & D3 & D4 & D5) Hh Hp Hs. unfold heap_coalesce, hbind, get_vis, hlift. cbn [mbind option_bind].
  assert (forall (l : list memory_block) x, Forall (fun d => 0 <= size_idx d) l -> 0 <= x -> x + foldr (fun d s => size_idx d + s) 0 l < 2 ^ 32 ->
    foldl (fun n m => u32 (n + size_idx m)) x l = x + foldr (fun d s => size_idx d + s) 0 l) as Hfold.
  { induction l as [|d l IH]; intros x Hl Hx Hx2; cbn in *; [lia|]. apply Forall_cons in Hl as [Hd Hl].
    assert (0 <= foldr (fun d s => size_idx d + s) 0 l) by (clear - Hl; induction Hl; cbn; lia). rewrite u32_small by lia. rewrite IH by (done || lia). lia. }
  rewrite Hfold by (done || lia). rewrite Z.add_0_l. rewrite (rebuild_free heap (vis ws.2) _ id chunk n) by done. cbn [mbind option_bind]. eexists. split; [reflexivity|]. by repeat split.
Qed.

Lemma resv_describes id chunk ds p : Forall2 (fun d x => describes heap d id chunk (b_size x)) ds (resv p) ->
  p = 0 /\ ds = [] \/ p <> 0 /\ exists d, ds = [d] /\ describes heap d id chunk p.
Proof.
  unfold resv. destruct (Z.eqb_spec p 0) as [->|Hn]; intros HF; inversion HF as [|d x ds' ? Hd HF']; subst; [by left|]. inversion HF'. subst. right. split; [done|]. by exists d.
Qed.

Lemma free_header v id l1 n l2 : zone_ok heap v id (l1 ++ Blk Reserved n :: l2) -> hd heap v id (chunks l1) = (CHUNK_TYPE_FREE, n) /\ 0 < n.
Proof. intros [_ _ _ Ht]. apply tiles_mid in Ht as (_ & [Hn [Hh _]] & _). done. Qed.

Definition joined A1 id l1 p n q l2 A2 : list (Z * list ablock) := A1 ++ (id, l1 ++ (resv p ++ Blk Reserved n :: resv q) ++ l2) :: A2.

Lemma coalesce_huge_run A1 id l1 n l2 A2 b m ws rt ac c : let A := A1 ++ (id, l1 ++ Blk Reserved n :: l2) :: A2 in
  heap_ok heap A (vis ws.2) c -> enough A -> has_bucket rt b ac c -> footed l1 -> describes heap m id (chunks l1) n ->
  let '(l1', p) := take_prev l1 in let '(l2', q) := take_next l2 in let A' := joined A1 id l1' p n q l2' A2 in
  exists nm c', heap_coalesce_huge heap fuel b m ws rt = Some (nm, ws, put_container b ac c' rt) /\ (forall a, nodes c !! a = None -> nodes c' !! a = None) /\
    heap_ok heap A' (vis ws.2) c' /\ enough A' /\ 0 <= p /\ 0 <= q /\ describes heap nm id (chunks l1') (p + n + q).
Proof.
  intros A Hok He Hb Hfoot Hm. pose proof Hm as (D1 & D2 & D3 & D4 & D5). pose proof (take_prev_run A1 id l1 n l2 A2 b m ws rt ac c Hok He Hb Hfoot D2 D1) as Hp.
  pose proof (take_prev_spec l1) as Hs. destruct (take_prev l1) as [l1' p]. destruct Hs as [_ Hch]. destruct Hp as (ds & c1 & E1 & Hn1 & Hok1 & He1 & Hp0 & HF1).
  assert (chunks (l1' ++ resv p) = chunks l1) as Hch1 by (by rewrite chunks_app, resv_chunks).
  pose proof (take_next_run A1 id (l1' ++ resv p) n l2 A2 b m ws (put_container b ac c1 rt) ac c1 Hok1 He1 (put_container_has b ac c1 rt) D2 ltac:(congruence)) as Hq.
  destruct (take_next l2) as [l2' q]. destruct Hq as (es & c2 & E2 & Hn2 & Hok2 & He2 & Hq0 & HF2). rewrite put_put in E2. cbv zeta in *.
  assert (A1 ++ (id, (l1' ++ resv p) ++ Blk Reserved n :: resv q ++ l2') :: A2 = joined A1 id l1' p n q l2' A2) as EA by (unfold joined; by rewrite <- !app_assoc).
  rewrite EA in Hok2, He2. destruct (heap_ok_parts _ _ _ _ _ _ _ Hok2) as (Hz & _ & _).
  assert (exists first rest k j, ds ++ [m] ++ es = first :: rest /\ describes heap first id (chunks l1') k /\ hd heap (vis ws.2) id (chunks l1') = (CHUNK_TYPE_FREE, j)) as (first & rest & k & j & Ef & Hf & Hh).
  { destruct (resv_describes _ _ _ _ HF1) as [(-> & ->)|(Hpn & d & -> & Hd)].
    - exists m, es, n, n. rewrite <- app_assoc in Hz. destruct (free_header _ _ _ _ _ Hz) as [Hh _]. rewrite Hch, Z.add_0_r in Hm. done.
    - rewrite resv_pos in Hz by lia. rewrite <- app_assoc in Hz. destruct (free_header _ _ _ _ _ Hz) as [Hh _]. by exists d, (m :: es), p, p. }
  assert (foldr (fun d s => size_idx d + s) 0 (first :: rest) = p + n + q /\ Forall (fun d => 0 <= size_idx d) (first :: rest)) as [Hsum Hpos].
  { rewrite <- Ef. assert (0 < n) as Hn by (destruct (heap_ok_parts _ _ _ _ _ _ _ Hok) as (Hz0 & _ & _); by apply free_header in Hz0 as [_ Hn]).
    destruct (resv_describes _ _ _ _ HF1) as [(-> & ->)|(_ & d & -> & (_ & _ & S1 & _))], (resv_describes _ _ _ _ HF2) as [(-> & ->)|(_ & e & -> & (_ & _ & S2 & _))];
      cbn; (split; [lia|]); repeat constructor; lia. }
  assert (p + n + q < 2 ^ 32) as Hlt.
  { destruct Hz as [_ Hmax _ Ht]. apply tiles_app in Ht as [T1 T2]. apply tiles_app in T2 as [_ T2]. pose proof (tiles_nonneg _ _ _ T1). pose proof (tiles_nonneg _ _ _ T2).
    rewrite !chunks_app, chunks_cons, !resv_chunks in *. cbn [b_size] in *. assert (MAX_CHUNK = 65528) by done. lia. }
  rewrite <- Hsum in Hlt. destruct (coalesce_run first rest ws (put_container b ac c2 rt) id (chunks l1') k j Hf Hh Hpos Hlt) as (nm & En & Hnm). rewrite Hsum in Hnm.
  exists nm, c2. split; [|by eauto 10]. unfold heap_coalesce_huge, hbind. rewrite E1. cbn [mbind option_bind]. rewrite E2. cbn [mbind option_bind]. by rewrite Ef.
Qed.

(** ** Headers are written *)

(** The header of a block and, behind it, its footer. *)
Definition block_headers (id i t n : Z) v v' : Prop := exists f f',
  let w := write_bytes v (chunk_hdr (zn heap id) i) (hdr_bytes t f n) in
  v' = if n =? 1 then w else write_bytes w (chunk_hdr (zn heap id) (i + n - 1)) (hdr_bytes CHUNK_TYPE_FOOTER f' n).

Lemma block_headers_hd id i t n v v' j : block_headers id i t n v v' -> 0 <= t < 2 ^ 16 -> 0 < n < 2 ^ 32 ->
  hd heap v' id j = if decide (j = i) then (t, n) else if decide (j = i + n - 1) then (CHUNK_TYPE_FOOTER, n) else hd heap v id j.
Proof.
  intros (f & f' & ->) Ht Hn. destruct (Z.eqb_spec n 1) as [->|Hn1].
  - rewrite hd_store by lia. destruct (decide (j = i)); [done|]. by rewrite decide_False by lia.
  - rewrite hd_store by (unfold CHUNK_TYPE_FOOTER; lia). rewrite hd_store by lia. destruct (decide (j = i + n - 1)), (decide (j = i)); (done || lia).
Qed.

Lemma block_headers_only id i t n v v' : block_headers id i t n v v' -> 0 < n -> only_headers heap v v' id i (i + n).
Proof.
  intros (f & f' & ->) Hn x Hx. unfold chunk_hdr, sizeof_chunk_header in *. destruct (Z.eqb_spec n 1) as [->|Hn1].
  - apply write_bytes_out. change (length (hdr_bytes t f 1)) with 8%nat. lia.
  - rewrite !write_bytes_out; [done| |]; change (length (hdr_bytes _ _ _)) with 8%nat; lia.
Qed.

Lemma size_kept v v' id lo hi : only_headers heap v v' id lo hi -> 0 <= lo -> zone_size_idx v' (zn heap id) = zone_size_idx v (zn heap id).
Proof. intros Hx Hlo. unfold zone_size_idx, load32. f_equal. apply read_bytes_eq. intros i Hi. apply Hx. unfold chunk_hdr, sizeof_zone_header, sizeof_chunk_header. lia. Qed.

Definition type_of (k : kind) : Z := match k with InUse | Lost => CHUNK_TYPE_USED | _ => CHUNK_TYPE_FREE end.

Lemma zone_written v v' id l1 old l2 k n : zone_ok heap v id (l1 ++ old ++ l2) -> chunks old = n -> 0 < n -> k <> Run -> block_headers id (chunks l1) (type_of k) n v v' ->
  zone_ok heap v' id (l1 ++ Blk k n :: l2) /\ only_headers heap v v' id (chunks l1) (chunks l1 + n).
Proof.
  intros [Z1 Z2 Z3 Z4] Hc Hn Hk Hw. pose proof (block_headers_only _ _ _ _ _ _ Hw Hn) as Ho. split; [|done]. rewrite !chunks_app in *. rewrite Hc in *.
  pose proof Z4 as T. apply tiles_app in T as [T1 T2]. apply tiles_app in T2 as [_ T2]. pose proof (tiles_nonneg _ _ _ T1). pose proof (tiles_nonneg _ _ _ T2).
  assert (MAX_CHUNK = 65528) as Hmax by done. assert (0 <= type_of k < 2 ^ 16) as Ht by (by destruct k). pose proof (fun j => block_headers_hd _ _ _ _ _ _ j Hw Ht ltac:(lia)) as Hd.
  constructor; rewrite ?chunks_app, ?chunks_cons; cbn [b_size]; [done|lia| |].
  - rewrite (size_kept v v' id _ _ Ho) by lia. lia.
  - apply (retile (hd heap v id) _ _ old); [done..| |].
    + split; [done|]. cbn [b_size b_kind]. assert (huge_at (hd heap v' id) (chunks l1) (type_of k) n) as Hh.
      { split; [by rewrite Hd, decide_True|]. intros Hn1. rewrite Hd, decide_False by lia. by rewrite decide_True. }
      destruct k; try done. apply Hh.
    + cbn [b_size]. intros j Hj. rewrite Hd, !decide_False by lia. done.
Qed.

Lemma heap_written A1 id l1 old l2 A2 v v' c k n : heap_ok heap (A1 ++ (id, l1 ++ old ++ l2) :: A2) v c -> chunks old = n -> 0 < n -> k <> Run -> k <> Avail -> no_avail old ->
  block_headers id (chunks l1) (type_of k) n v v' -> heap_ok heap (A1 ++ (id, l1 ++ Blk k n :: l2) :: A2) v' c /\ only_headers heap v v' id (chunks l1) (chunks l1 + n).
Proof.
  intros Hok Hc Hn Hk Hk' Hold Hw. destruct (heap_ok_parts _ _ _ _ _ _ _ Hok) as (Hz & HA & Hid). destruct (zone_written _ _ _ _ _ _ k n Hz Hc Hn Hk Hw) as [Hz' Ho]. split; [|done].
  pose proof Hz as [Z1 Z2 _ Z4]. apply tiles_app in Z4 as [T1 T2]. apply tiles_app in T2 as [_ T2]. pose proof (tiles_nonneg _ _ _ T1). pose proof (tiles_nonneg _ _ _ T2). rewrite !chunks_app in Z2.
  eapply heap_ok_headers; [exact Hok|exact Hz'| |eapply only_region; [exact Ho|lia|lia]]. rewrite (avail_merge _ _ _ _ _ _ Hold Hc), !avail_app. by destruct k.
Qed.

Lemma hdr_le64 t f n : le64 (chunk_get_chunk_hdr_value t f n) = hdr_bytes t f n.
Proof. unfold le64, chunk_get_chunk_hdr_value. apply (enc_dec_le (hdr_bytes t f n)). Qed.

Lemma prep_free nm id i n ws : describes heap nm id i n -> exists ws', huge_prep_operation_hdr heap 0 false 0 false nm MEMBLOCK_FREE None ws = (None, ws') /\
  ws'.1 = ws.1 /\ block_headers id i CHUNK_TYPE_FREE n (vis ws.2) (vis ws'.2).
Proof.
  intros (<- & <- & <- & _). unfold huge_prep_operation_hdr. rewrite decide_False by done. change (heap_get_chunk_hdr heap nm) with (chunk_hdr (zn heap (zone_id nm)) (chunk_id nm)).
  set (hdr := chunk_hdr _ _). replace (hdr + 8 * (size_idx nm - 1)) with (chunk_hdr (zn heap (zone_id nm)) (chunk_id nm + size_idx nm - 1)) by (unfold hdr, chunk_hdr, sizeof_chunk_header; lia).
  unfold block_headers. fold hdr. destruct (size_idx nm =? 1); (eexists; split; [reflexivity|]; split; [done|]); unfold st_store64, st_store; cbn [snd vis]; rewrite ?persist_vis; cbn [vis];
    rewrite !hdr_le64; eexists; exists 0; reflexivity.
Qed.

Lemma huge_init_run id i n s : 0 <= id -> 0 < n < 2 ^ 32 -> exists m s', memblock_huge_init heap i id n s = Some (m, s') /\ describes heap m id i n /\ block_headers id i CHUNK_TYPE_FREE n (vis s) (vis s').
Proof.
  intros Hid Hn. unfold memblock_huge_init. cbv zeta. set (m0 := set_runtime _ _ _ _ _). change (heap_get_chunk_hdr heap m0) with (chunk_hdr (zn heap id) i). set (hdr := chunk_hdr _ _).
  set (s1 := pmemops_persist _ _ _ _). assert (block_headers id i CHUNK_TYPE_FREE n (vis s) (vis (huge_write_footer hdr n s1))) as Hw.
  { unfold huge_write_footer, block_headers. fold hdr. replace (hdr + 8 * (n - 1)) with (chunk_hdr (zn heap id) (i + n - 1)) by (unfold hdr, chunk_hdr, sizeof_chunk_header; lia).
    assert (vis s1 = write_bytes (vis s) hdr (hdr_bytes CHUNK_TYPE_FREE 0 n)) as Hs1 by apply persist_vis.
    exists 0, (hdr_flags (vis s1) hdr). cbv zeta. rewrite <- Hs1. by destruct (n =? 1). }
  pose proof (block_headers_hd _ _ _ _ _ _ i Hw ltac:(done) Hn) as Hd. rewrite decide_True in Hd by done.
  rewrite (rebuild_free heap _ m0 id i n) by done. cbn [mbind option_bind]. eexists _, _. split; [reflexivity|]. split; [by repeat split|done].
Qed.

(** The volatile state after a block has entered bucket [b]. *)
Definition after_insert (b ac : Z) c (ms : list Z) rt : palloc_rt heap_rt :=
  put_container b ac c (PRt (rt_buckets rt) (rt_resv rt) (set_mallocs ms (rt_heap rt))).

Lemma free_run A1 id l1 n l2 A2 b m ws rt ac c a ms : let A := A1 ++ (id, l1 ++ Blk Reserved n :: l2) :: A2 in
  heap_ok heap A (vis ws.2) c -> enough A -> has_bucket rt b ac c -> footed l1 -> describes heap m id (chunks l1) n ->
  h_mallocs (rt_heap rt) = a :: ms -> a <> 0 -> nodes c !! a = None ->
  let '(l1', p) := take_prev l1 in let '(l2', q) := take_next l2 in
  exists nm ws' c', heap_free_chunk_reuse heap fuel b m ws rt = Some ((0, EEXIST, nm), ws', after_insert b ac c' ms rt) /\ ws'.1 = ws.1 /\ new_nodes a c c' /\
    heap_ok heap (A1 ++ (id, l1' ++ Blk Avail (p + n + q) :: l2') :: A2) (vis ws'.2) c' /\ describes heap nm id (chunks l1') (p + n + q) /\
    only_block heap (vis ws.2) (vis ws'.2) id (chunks l1') (chunks l1' + (p + n + q)) nm.
Proof.
  intros A Hok He Hb Hfoot Hm Hms Ha Hna. pose proof (coalesce_huge_run A1 id l1 n l2 A2 b m ws rt ac c Hok He Hb Hfoot Hm) as Hj.
  destruct (take_prev l1) as [l1' p], (take_next l2) as [l2' q]. cbv zeta in Hj. destruct Hj as (nm & c' & E & Hn & Hok' & He' & Hp & Hq & Hnm).
  assert (0 < n) as Hn0 by (destruct (heap_ok_parts _ _ _ _ _ _ _ Hok) as (Hz0 & _ & _); by apply free_header in Hz0 as [_ ?]).
  assert (chunks (resv p ++ Blk Reserved n :: resv q) = p + n + q) as Hsum by (rewrite chunks_app, chunks_cons, !resv_chunks; cbn [b_size]; lia).
  assert (no_avail (resv p ++ Blk Reserved n :: resv q)) as Hno by (apply Forall_app; split; [apply resv_no_avail|constructor; [done|apply resv_no_avail]]).
  unfold heap_free_chunk_reuse, hbind. rewrite E. cbn [mbind option_bind]. pose proof Hnm as (_ & _ & Hs & _). pose proof Hm as (_ & _ & Hsm & _). rewrite Hs, Hsm.
  set (A' := A1 ++ (id, l1' ++ Blk Reserved (p + n + q) :: l2') :: A2).
  match goal with |- context [mbind _ (?f ws (put_container b ac c' rt))] => set (written := f ws (put_container b ac c' rt)) end.
  assert (exists ws', written = Some (tt, ws', put_container b ac c' rt) /\ ws'.1 = ws.1 /\ heap_ok heap A' (vis ws'.2) c' /\ only_headers heap (vis ws.2) (vis ws'.2) id (chunks l1') (chunks l1' + (p + n + q))) as (ws' & Ew & Hw1 & Hok2 & Ho).
  { unfold written. destruct (Z.eqb_spec (p + n + q) n) as [Eq|Hne]; cbn [negb].
    - assert (p = 0 /\ q = 0) as [-> ->] by lia. exists ws. split; [done|]. split; [done|]. unfold A'. rewrite Eq. by split.
    - destruct (prep_free nm id (chunks l1') (p + n + q) ws Hnm) as (ws' & -> & Hw1 & Hw). exists ws'. split; [done|]. split; [done|]. apply (heap_written A1 id l1' _ l2' A2 _ _ _ Reserved _ Hok'); (done || lia). }
  rewrite Ew. cbn [mbind option_bind].
  assert (enough A') as He2 by (eapply enough_less, He'; by rewrite (avail_merge _ _ l1' _ _ l2' Hno Hsum)).
  destruct (insert_reserved heap fuel A1 id l1' (p + n + q) l2' A2 ws'.2 c' nm a Hok2 (enough_fuel heap fuel _ _ _ Hok2 He2) Hnm Ha (Hn a Hna)) as (c2 & s2 & Ei & Hok3 & Hd3).
  rewrite (insert_run heap fuel b ac c' nm ws' _ 0 c2 s2 a ms (put_container_has b ac c' rt) Hms Ha Ei). cbn [mbind option_bind]. exists nm, (ws'.1, s2), c2. split; [|split; [done|split; [|split; [done|split; [done|]]]]].
  3: { eapply only_then_descriptor; [apply Hnm|exact Ho|exact Hd3]. }
  2: { intros y Hy Hy'. eapply insert_same_nodes; [exact Ei|done|by apply Hn]. }
  unfold after_insert, hret, put_container, set_buckets, set_mallocs. cbn. by rewrite insert_insert_eq.
Qed.

(** C15. Freeing a block of chunks coalesces it.  When the headers of every zone
    tile it into blocks, the block in front of the freed one has its footer, and
    the default bucket holds exactly the available blocks,
    heap_free_chunk_reuse succeeds and the bucket then holds one block: the freed
    one joined with its left and right neighbours where those were available.
    The headers tile the zone accordingly, every block in the bucket has its
    descriptor in its own memory, all other zones are untouched, and the only bytes
    that change are headers of the joined block and its 40-byte descriptor. *)
Theorem heap_free_chunk_reuse_coalesces A1 id l1 n l2 A2 b m ws rt ac c a ms : let A := A1 ++ (id, l1 ++ Blk Reserved n :: l2) :: A2 in
  heap_ok heap A (vis ws.2) c -> enough A -> has_bucket rt b ac c -> footed l1 -> describes heap m id (chunks l1) n ->
  h_mallocs (rt_heap rt) = a :: ms -> a <> 0 -> nodes c !! a = None ->
  let '(l1', p) := take_prev l1 in let '(l2', q) := take_next l2 in
  exists nm ws' c', heap_free_chunk_reuse heap fuel b m ws rt = Some ((0, EEXIST, nm), ws', after_insert b ac c' ms rt) /\ ws'.1 = ws.1 /\
    heap_ok heap (A1 ++ (id, l1' ++ Blk Avail (p + n + q) :: l2') :: A2) (vis ws'.2) c' /\ describes heap nm id (chunks l1') (p + n + q) /\
    only_block heap (vis ws.2) (vis ws'.2) id (chunks l1') (chunks l1' + (p + n + q)) nm.
Proof.
  intros A Hok He Hb Hf Hm Hms Ha Hna. pose proof (free_run A1 id l1 n l2 A2 b m ws rt ac c a ms Hok He Hb Hf Hm Hms Ha Hna) as H.
  destruct (take_prev l1) as [l1' p], (take_next l2) as [l2' q]. destruct H as (nm & ws' & c' & ? & ? & _ & ?). by exists nm, ws', c'.
Qed.
End Free.

(** ** An instance: three blocks of four chunks *)

Definition exc_heap : palloc_heap := PHeap 64 (POps 512 OPS_POOL) 1048576 512.
Definition exc_free (i n : Z) (v : mem) : mem :=
  write_bytes (write_bytes v (chunk_hdr (zn exc_heap 0) i) (hdr_bytes CHUNK_TYPE_FREE 0 n)) (chunk_hdr (zn exc_heap 0) (i + n - 1)) (hdr_bytes CHUNK_TYPE_FOOTER 0 n).
Definition exc_mem : mem := exc_free 8 4 (exc_free 4 4 (exc_free 0 4 (write_bytes (fun _ => Byte.x00) (zn exc_heap 0) (enc_le 4 ZONE_HEADER_MAGIC ++ enc_le 4 12)))).
Definition exc_pop : PMEMobjpool := Pop 8192 2 1048064 268435456 ravl_new false.
Definition exc_block (i n : Z) : memory_block := MBlock i 0 n 0 MEMORY_BLOCK_HUGE (heap_addr exc_heap) HEADER_LEGACY MEMORY_BLOCK_HUGE.
Definition exc_class : alloc_class := AClass 0 0 CHUNKSIZE HEADER_COMPACT CLASS_HUGE 0 0 0.
Definition exc_classes : alloc_class_collection := Collection 16 (1024 :: replicate 254 0) 0 0 (fun _ => 255) Critnib.critnib_new false false {[1024 := exc_class]}.
Definition exc_insert (a : Z) (m : memory_block) (cs : block_container_ravl * pmst) : block_container_ravl * pmst :=
  match container_ravl_insert_block (block_get_user_data exc_heap) (RavlEnv 20 a) cs.1 m cs.2 with Some (_, c, s) => (c, s) | None => cs end.
Definition exc_start : block_container_ravl * pmst := exc_insert 66560 (exc_block 8 4) (exc_insert 66048 (exc_block 0 4) (ravl_new, PMst exc_mem [] false)).
Definition exc_tree : block_container_ravl := exc_start.1.
Definition exc_ws : world := (exc_pop, PMst (vis exc_start.2) [] false).
Definition exc_rt (c : block_container_ravl) : palloc_rt heap_rt :=
  PRt {[2048 := PBucket 0 false]} ∅ (HeapRt exc_classes 2048 {[2048 := HBucket 1024 (ContRavl c)]} (Arenas [] 0 0 ∅) ∅ 1 1 [65536; 65600; 65664] [] 0).

Lemma exc_reserved : heap_ok exc_heap [(0, [Blk Reserved 4; Blk Reserved 4; Blk Reserved 4])] exc_mem ravl_new.
Proof.
  constructor; [apply NoDup_singleton| |exists []; split; [apply ravl_ok_new|by repeat constructor]]. constructor; [|constructor]. constructor; [done|by vm_compute|by vm_compute|].
  cbn [tiles b_size snd]. repeat split; by vm_compute.
Qed.

Lemma exc_inserted A1 id l1 n l2 A2 cs d a : heap_ok exc_heap (A1 ++ (id, l1 ++ Blk Reserved n :: l2) :: A2) (vis cs.2) cs.1 -> fuel_ok 20 cs.1 -> describes exc_heap d id (chunks l1) n ->
  a <> 0 -> nodes cs.1 !! a = None -> heap_ok exc_heap (A1 ++ (id, l1 ++ Blk Avail n :: l2) :: A2) (vis (exc_insert a d cs).2) (exc_insert a d cs).1.
Proof.
  intros Hok Hf Hd Ha Hna. destruct (insert_reserved exc_heap 20 A1 id l1 n l2 A2 cs.2 cs.1 d a Hok Hf Hd Ha Hna) as (c' & s' & E & Hok' & _). unfold exc_insert. by rewrite E.
Qed.

Lemma exc_ok : heap_ok exc_heap [(0, [Blk Avail 4; Blk Reserved 4; Blk Avail 4])] (vis exc_ws.2) exc_tree.
Proof.
  apply (exc_inserted [] 0 [Blk Avail 4; Blk Reserved 4] 4 [] []); [|by vm_compute; lia|by vm_compute|done|by vm_compute].
  apply (exc_inserted [] 0 [] 4 [Blk Reserved 4; Blk Reserved 4] []); [exact exc_reserved|by vm_compute; lia|by vm_compute|done|by vm_compute].
Qed.

Lemma heap_free_chunk_reuse_coalesces_witness : exists nm ws' rt' c', heap_free_chunk_reuse exc_heap 20 2048 (exc_block 4 4) exc_ws (exc_rt exc_tree) = Some ((0, EEXIST, nm), ws', rt') /\
  heap_ok exc_heap [(0, [Blk Avail 12])] (vis ws'.2) c'.
Proof.
  destruct (heap_free_chunk_reuse_coalesces exc_heap 20 [] 0 [Blk Avail 4] 4 [Blk Avail 4] [] 2048 (exc_block 4 4) exc_ws (exc_rt exc_tree) 1024 exc_tree 65536 [65600; 65664] exc_ok) as (nm & ws' & c' & E & _ & Hok & _);
    [by vm_compute; lia|by vm_compute|by intros ?|by vm_compute|done|done|by vm_compute|]. eexists nm, ws', _, c'. split; [exact E|exact Hok].
Defined.
