(* ===== verification/HeapAlloc.v ===== *)
(** * Giving out chunks

    heap_get_bestfit_block on the default bucket: the block that fits best is
    cut, the rest goes back into the bucket.  Giving out and freeing undo each
    other. *)
From stdpp Require Import base numbers list list_numbers gmap.
From Stdlib Require Import ZArith Lia Bool.
From S2P Require Import Prelude Pmem Ulog Memops Ravl RavlFacts RavlOps RavlSpec Container Seglists HeapLayout Memblock MemblockInit AllocClass Recycler Lane Tx Palloc HeapZone HeapArena Heap HeapTiles HeapChunks HeapChunkOps HeapFree.

(** The rest of a block, if there is one. *)
Definition rest_of (k : kind) (n : Z) : list ablock := if n =? 0 then [] else [Blk k n].
Lemma rest_chunks k n : chunks (rest_of k n) = n.
Proof. unfold rest_of. destruct (Z.eqb_spec n 0) as [->|]; [done|]. unfold chunks. cbn. lia. Qed.

Lemma take_next_rest n l2 : take_next l2 = (l2, 0) -> take_next (rest_of Avail n ++ l2) = (l2, n).
Proof. intros H. unfold rest_of. destruct (Z.eqb_spec n 0) as [->|]; [done|]. done. Qed.

Lemma cut_fewer id l1 k n l2 : k <= n -> (length (avail_keys id 0 (l1 ++ Blk Reserved k :: rest_of Avail (n - k) ++ l2)) <= length (avail_keys id 0 (l1 ++ Blk Avail n :: l2)))%nat.
Proof.
  intros Hk. unfold rest_of. rewrite !avail_app, !length_app, Z.add_0_l. destruct (Z.eqb_spec (n - k) 0) as [E|_]; cbn [app avail_keys b_kind b_size].
  - replace k with n by lia. cbn [length]. lia.
  - replace (chunks l1 + k + (n - k)) with (chunks l1 + n) by lia. cbn [length]. lia.
Qed.

Section Alloc.
Context (heap : palloc_heap) (fuel : nat).
Implicit Types (m d x : memory_block) (v : mem) (l : list ablock) (c : block_container_ravl) (ws : world) (rt : palloc_rt heap_rt).

Abbreviation enough := (enough fuel).

(** ** Cutting a block *)

Lemma zone_cut v v1 v2 id l1 l2 i j : zone_ok heap v id (l1 ++ Blk Reserved (i + j) :: l2) -> 0 < i -> 0 < j ->
  block_headers heap id (chunks l1) CHUNK_TYPE_FREE i v v1 -> block_headers heap id (chunks l1 + i) CHUNK_TYPE_FREE j v1 v2 ->
  zone_ok heap v2 id (l1 ++ Blk Reserved i :: Blk Reserved j :: l2) /\ only_headers heap v v2 id (chunks l1) (chunks l1 + (i + j)).
Proof.
  intros [Z1 Z2 Z3 Z4] Hi Hj W1 W2. pose proof (block_headers_only _ _ _ _ _ _ _ W1 Hi) as O1. pose proof (block_headers_only _ _ _ _ _ _ _ W2 Hj) as O2.
  assert (only_headers heap v v2 id (chunks l1) (chunks l1 + (i + j))) as Ho.
  { intros y Hy. unfold chunk_hdr, sizeof_chunk_header in *. rewrite O2, O1; [done|unfold chunk_hdr, sizeof_chunk_header; lia..]. }
  split; [|done]. rewrite chunks_app, chunks_cons in *. cbn [b_size] in *. apply tiles_mid in Z4 as (T1 & _ & T2). cbn [b_size] in T2. pose proof (tiles_nonneg _ _ _ T1). pose proof (tiles_nonneg _ _ _ T2).
  assert (MAX_CHUNK = 65528) as Hmax by done.
  pose proof (fun y => block_headers_hd _ _ _ _ _ _ _ y W1 ltac:(done) ltac:(lia)) as D1. pose proof (fun y => block_headers_hd _ _ _ _ _ _ _ y W2 ltac:(done) ltac:(lia)) as D2.
  constructor; rewrite ?chunks_app, ?chunks_cons; cbn [b_size]; [done|lia| |].
  - rewrite (size_kept heap v v2 id _ _ Ho) by lia. lia.
  - apply tiles_mid. split; [|split; [|split]]; cbn [b_size].
    + apply (tiles_ext (hd heap v id)); [|done]. intros y Hy. by rewrite D2, D1, !decide_False by lia.
    + split; [done|]. split; cbn [b_size]; [by rewrite D2, !decide_False, D1, decide_True by lia|]. intros Hi1. by rewrite D2, !decide_False, D1, decide_False, decide_True by lia.
    + split; [done|]. split; cbn [b_size]; [by rewrite D2, decide_True by lia|]. intros Hj1. by rewrite D2, decide_False, decide_True by lia.
    + rewrite <- Z.add_assoc. apply (tiles_ext (hd heap v id)); [|done]. intros y Hy. by rewrite D2, D1, !decide_False by lia.
Qed.

Lemma heap_cut A1 id l1 i j l2 A2 v v1 v2 c : heap_ok heap (A1 ++ (id, l1 ++ Blk Reserved (i + j) :: l2) :: A2) v c -> 0 < i -> 0 < j ->
  block_headers heap id (chunks l1) CHUNK_TYPE_FREE i v v1 -> block_headers heap id (chunks l1 + i) CHUNK_TYPE_FREE j v1 v2 ->
  heap_ok heap (A1 ++ (id, (l1 ++ [Blk Reserved i]) ++ Blk Reserved j :: l2) :: A2) v2 c /\ only_headers heap v v2 id (chunks l1) (chunks l1 + (i + j)).
Proof.
  intros Hok Hi Hj W1 W2. destruct (heap_ok_parts _ _ _ _ _ _ _ Hok) as (Hz & HA & Hid). destruct (zone_cut _ _ _ _ _ _ _ _ Hz Hi Hj W1 W2) as [Hz' Ho]. split; [|done].
  pose proof Hz as [Z1 Z2 _ Z4]. rewrite chunks_app, chunks_cons in Z2. cbn [b_size] in Z2. apply tiles_mid in Z4 as (T1 & _ & T2). pose proof (tiles_nonneg _ _ _ T1). pose proof (tiles_nonneg _ _ _ T2).
  rewrite <- app_assoc. cbn [app]. eapply heap_ok_headers; [exact Hok|exact Hz'| |eapply only_region; [exact Ho|lia|lia]]. rewrite !avail_app. cbn. by rewrite Z.add_assoc.
Qed.

(** ** Flags *)

Lemma hd_flags v id i f j : hd heap (write_bytes v (chunk_hdr (zn heap id) i + 2) (enc_le 2 f)) id j = hd heap v id j.
Proof.
  unfold hd, hdr_type, hdr_size_idx, load16, load32. f_equal; f_equal; apply read_bytes_eq; intros y Hy; apply write_bytes_out; rewrite length_enc_le; unfold chunk_hdr, sizeof_chunk_header; lia.
Qed.

Lemma ensure_type_ok A1 id l1 n l2 A2 c m t s : heap_ok heap (A1 ++ (id, l1 ++ Blk Reserved n :: l2) :: A2) (vis s) c -> zone_id m = id -> chunk_id m = chunks l1 ->
  heap_ok heap (A1 ++ (id, l1 ++ Blk Reserved n :: l2) :: A2) (vis (huge_ensure_header_type heap m t s)) c /\
  only_headers heap (vis s) (vis (huge_ensure_header_type heap m t s)) id (chunks l1) (chunks l1 + 1).
Proof.
  intros Hok Hid Hc. unfold huge_ensure_header_type. destruct (_ =? 0); [|by split]. rewrite persist_vis. unfold st_store. cbn [vis].
  change (heap_get_chunk_hdr heap m) with (chunk_hdr (zn heap (zone_id m)) (chunk_id m)). rewrite Hid, Hc. set (f := Z.lor _ _). set (v' := write_bytes _ _ _).
  assert (only_headers heap (vis s) v' id (chunks l1) (chunks l1 + 1)) as Ho.
  { intros y Hy. apply write_bytes_out. rewrite length_enc_le. unfold chunk_hdr, sizeof_chunk_header in *. lia. }
  split; [|done]. destruct (heap_ok_parts _ _ _ _ _ _ _ Hok) as (Hz & HA & Hni). pose proof Hz as [Z1 Z2 Z3 Z4]. pose proof Z4 as (T1 & [Hn _] & T2)%tiles_mid.
  pose proof (tiles_nonneg _ _ _ T1). pose proof (tiles_nonneg _ _ _ T2). rewrite chunks_app, chunks_cons in Z2. cbn [b_size] in *. eapply heap_ok_headers; [exact Hok| |done|eapply only_region; [exact Ho|lia|lia]].
  constructor; [done|by rewrite chunks_app, chunks_cons|by rewrite (size_kept heap (vis s) v' id _ _ Ho) by lia|]. apply (tiles_ext (hd heap (vis s) id)); [|done]. intros y _. apply hd_flags.
Qed.

(** ** The calls *)

Definition has_class rt (ac : Z) (cl : alloc_class) : Prop := ac_store (alloc_classes (rt_heap rt)) !! ac = Some cl.

Lemma class_run b ac c cl ws rt : has_bucket rt b ac c -> has_class rt ac cl -> bucket_class b ws rt = Some (cl, ws, rt).
Proof. intros Hb Hc. unfold bucket_class, bucket_at, hbind, get_heap, hlift. cbn [mbind option_bind]. rewrite Hb. cbn [mbind option_bind hb_aclass]. by rewrite Hc. Qed.

Lemma bestfit_take_run b ac c m ws rt r x c' : has_bucket rt b ac c -> container_ravl_get_rm_block_bestfit (RavlEnv fuel 0) c m = Some (r, x, c') ->
  container_get_rm_bestfit fuel b m ws rt = Some ((r, x), ws, put_container b ac c' rt).
Proof.
  intros Hb E. unfold container_get_rm_bestfit, bucket_at, hbind, get_heap, hlift, set_container, bucket_at, hbind, get_heap, hlift, set_heap, hret. cbn [mbind option_bind rt_heap]. unfold has_bucket in Hb. rewrite Hb. cbn [mbind option_bind hb_cont].
  rewrite E. cbn [mbind option_bind]. rewrite Hb. done.
Qed.

Lemma bestfit_same_nodes c m r x c' a : container_ravl_get_rm_block_bestfit (RavlEnv fuel 0) c m = Some (r, x, c') -> nodes c !! a = None -> nodes c' !! a = None.
Proof.
  unfold container_ravl_get_rm_block_bestfit. intros E Ha. apply bind_Some in E as (n & _ & E). destruct (n =? 0); [by injection E as _ _ <-|].
  apply bind_Some in E as (nd & _ & E). apply bind_Some in E as (c1 & E1 & [= _ _ <-]). by eapply remove_none.
Qed.

(** Of the [n] chunks from chunk [i] on, [k] are given out: headers are written and,
    if anything is left, the descriptor of the rest. *)
Definition only_cut v v' (id i k n : Z) : Prop :=
  if k =? n then only_headers heap v v' id i (i + n)
  else exists d, describes heap d id (i + k) (n - k) /\ only_block heap v v' id i (i + n) d.

Lemma split_run A1 id l1 k j l2 A2 b x ws rt ac cl c a ms : let A := A1 ++ (id, l1 ++ Blk Reserved (k + j) :: l2) :: A2 in
  heap_ok heap A (vis ws.2) c -> enough A -> has_bucket rt b ac c -> has_class rt ac cl -> cl_type cl = CLASS_HUGE -> describes heap x id (chunks l1) (k + j) -> 0 < k -> 0 < j ->
  h_mallocs (rt_heap rt) = a :: ms -> a <> 0 -> nodes c !! a = None ->
  exists r ws' c', heap_split_block heap fuel b x k ws rt = Some (r, ws', after_insert b ac c' ms rt) /\ new_nodes a c c' /\ ws'.1 = ws.1 /\ describes heap r id (chunks l1) k /\
    heap_ok heap (A1 ++ (id, l1 ++ Blk Reserved k :: Blk Avail j :: l2) :: A2) (vis ws'.2) c' /\ only_cut (vis ws.2) (vis ws'.2) id (chunks l1) k (k + j).
Proof.
  intros A Hok He Hb Hcl Hty (X1 & X2 & X3 & X4 & X5) Hk Hj Hms Ha Hna. destruct (heap_ok_parts _ _ _ _ _ _ _ Hok) as (Hz & _ & _). pose proof Hz as [Z1 Z2 _ Z4]. apply tiles_mid in Z4 as (T1 & _ & T2).
  rewrite chunks_app, chunks_cons in Z2. cbn [b_size] in *. pose proof (tiles_nonneg _ _ _ T1). pose proof (tiles_nonneg _ _ _ T2). assert (MAX_CHUNK = 65528) as Hmax by done.
  unfold heap_split_block, hbind. rewrite (class_run b ac c cl ws rt Hb Hcl). cbn [mbind option_bind]. rewrite decide_False by (rewrite Hty; done). rewrite X1, X2, X3, !u32_small by lia. replace (k + j - k) with j by lia.
  destruct (huge_init_run heap id (chunks l1) k ws.2 Z1 ltac:(lia)) as (r & s1 & E1 & Hr & W1). unfold update_mem. rewrite E1. cbn [mbind option_bind].
  assert (zone_id r = id) as Hrz by apply Hr. rewrite Hrz. cbn [snd fst]. destruct (huge_init_run heap id (chunks l1 + k) j s1 Z1 ltac:(lia)) as (y & s2 & E2 & Hy & W2). rewrite E2. cbn [mbind option_bind].
  destruct (heap_cut A1 id l1 k j l2 A2 _ _ _ c Hok Hk Hj W1 W2) as [Hok2 Ho]. assert (chunks (l1 ++ [Blk Reserved k]) = chunks l1 + k) as Hch by (rewrite chunks_app, chunks_cons; unfold chunks; cbn; lia). rewrite <- Hch in Hy.
  assert (enough (A1 ++ (id, (l1 ++ [Blk Reserved k]) ++ Blk Reserved j :: l2) :: A2)) as He2 .
  { eapply enough_less, He. rewrite <- app_assoc. rewrite <- (avail_merge id 0 l1 [Blk Reserved k; Blk Reserved j] (k + j) l2); [done|by repeat constructor|unfold chunks; cbn; lia]. }
  destruct (insert_reserved heap fuel A1 id _ j l2 A2 s2 c y a Hok2 (enough_fuel heap fuel _ _ _ Hok2 He2) Hy Ha Hna) as (c2 & s3 & Ei & Hok3 & Hd3).
  rewrite (insert_run heap fuel b ac c y (ws.1, s2) rt 0 c2 s3 a ms Hb Hms Ha Ei). cbn [mbind option_bind hret]. eexists _, _, c2. split; [reflexivity|]. split; [intros a'; by eapply insert_same_nodes|]. split; [done|]. split.
  - destruct Hr as (R1 & R2 & R3 & R4 & R5). by repeat split; try apply R5.
  - rewrite <- app_assoc in Hok3. split; [done|]. unfold only_cut. rewrite (proj2 (Z.eqb_neq k (k + j))) by lia. replace (k + j - k) with j by lia. rewrite Hch in Hy. exists y. split; [done|].
    eapply only_then_descriptor; [apply Hy|exact Ho|exact Hd3].
Qed.

Context (sizep growsize : Z) (util_pool_extend : Z -> option Z).

(** The zone after [k] of the [n] chunks of a block have been given out. *)
Definition cut_zone l1 (k n : Z) l2 : list ablock := l1 ++ Blk Reserved k :: rest_of Avail (n - k) ++ l2.

Lemma bestfit_run A b m ws rt ac cl c a ms : heap_ok heap A (vis ws.2) c -> enough A -> has_bucket rt b ac c -> has_class rt ac cl -> cl_type cl = CLASS_HUGE ->
  size_query m -> 0 < size_idx m -> Exists (fun k => size_idx m <= key_size k) (all_keys A) -> h_mallocs (rt_heap rt) = a :: ms -> a <> 0 -> nodes c !! a = None ->
  exists A1 id l1 n l2 A2 r ws' c', A = A1 ++ (id, l1 ++ Blk Avail n :: l2) :: A2 /\ size_idx m <= n /\ Forall (fun k => size_idx m <= key_size k -> n <= key_size k) (all_keys A) /\
    heap_get_bestfit_block heap fuel sizep growsize util_pool_extend b m ws rt = Some ((0, r), ws', if size_idx m =? n then put_container b ac c' rt else after_insert b ac c' ms rt) /\
    (forall x : Z, x <> a \/ size_idx m = n -> nodes c !! x = None -> nodes c' !! x = None) /\ ws'.1 = ws.1 /\ describes heap r id (chunks l1) (size_idx m) /\ header_type r = cl_header_type cl /\
    heap_ok heap (A1 ++ (id, cut_zone l1 (size_idx m) n l2) :: A2) (vis ws'.2) c' /\ only_cut (vis ws.2) (vis ws'.2) id (chunks l1) (size_idx m) n.
Proof.
  intros Hok He Hb Hcl Hty Hq Hk Hex Hms Ha Hna. set (k := size_idx m) in *.
  destruct (bestfit_avail heap fuel A _ c m Hok (enough_fuel heap fuel _ _ _ Hok He) Hq Hex) as (A1 & id & l1 & n & l2 & A2 & x & c1 & EA & Hkn & Hbest & Et & Hx & Hok1).
  pose proof (bestfit_same_nodes _ _ _ _ _ a Et Hna) as Hna1. pose proof Hx as (X1 & X2 & X3 & X4 & X5 & X6 & X7).
  assert (enough (A1 ++ (id, l1 ++ Blk Reserved n :: l2) :: A2)) as He1 by (eapply enough_less; [apply avail_fewer|by rewrite EA in He]).
  unfold heap_get_bestfit_block, hbind. rewrite (class_run b ac c cl ws rt Hb Hcl). cbn [mbind option_bind]. rewrite decide_True by done.
  unfold get_bestfit_block, hbind. assert (bestfit_loop fuel fuel (heap_ensure_huge_bucket_filled heap fuel sizep growsize util_pool_extend) b m ws rt = Some (Some x, ws, put_container b ac c1 rt)) as ->.
  { destruct fuel as [|f] eqn:Ef; unfold bestfit_loop, hbind; rewrite <- ?Ef in *; rewrite (bestfit_take_run b ac c m ws rt 0 x c1 Hb Et); done. }
  cbn [mbind option_bind]. fold k. rewrite X3.
  assert (exists r ws' c', (if negb (k =? n) then heap_split_block heap fuel b x k else hret x) ws (put_container b ac c1 rt) = Some (r, ws', if k =? n then put_container b ac c' rt else after_insert b ac c' ms rt) /\
    (forall x : Z, x <> a \/ k = n -> nodes c !! x = None -> nodes c' !! x = None) /\ ws'.1 = ws.1 /\ describes heap r id (chunks l1) k /\ heap_ok heap (A1 ++ (id, cut_zone l1 k n l2) :: A2) (vis ws'.2) c' /\ only_cut (vis ws.2) (vis ws'.2) id (chunks l1) k n) as (r & ws' & c' & Es & Hnn & Hw & Hr & Hok2 & Ho).
  { unfold cut_zone, rest_of. destruct (Z.eqb_spec k n) as [Ekn|Hne]; cbn [negb].
    - exists x, ws, c1. rewrite Ekn, Z.sub_diag. cbn [Z.eqb app]. split; [done|]. split; [intros a' _; by eapply bestfit_same_nodes|]. split; [done|]. split; [by repeat split|]. split; [done|]. unfold only_cut. by rewrite Z.eqb_refl.
    - rewrite (proj2 (Z.eqb_neq (n - k) 0)) by lia. replace n with (k + (n - k)) in Hok1, He1, Hx by lia.
      destruct (split_run A1 id l1 k (n - k) l2 A2 b x ws (put_container b ac c1 rt) ac cl c1 a ms Hok1 He1 (put_container_has b ac c1 rt) Hcl Hty Hx Hk ltac:(lia) Hms Ha Hna1) as (r & ws' & c' & Es & Hnn & Hw & Hr & Hok2 & Ho).
      replace (k + (n - k)) with n in Ho by lia. exists r, ws', c'. rewrite Es. split; [|split; [|done]].
      + unfold after_insert, put_container, set_buckets, set_mallocs. cbn. by rewrite insert_insert_eq.
      + intros a' [Ha'|Ha'] Hc'; [|lia]. apply Hnn; [done|]. by eapply bestfit_same_nodes. }
  rewrite Es. cbn [mbind option_bind]. set (rt' := if k =? n then _ else _). assert (has_bucket rt' b ac c' /\ has_class rt' ac cl) as [Hb' Hc'].
  { unfold rt'. destruct (k =? n); (split; [apply put_container_has|done]). }
  rewrite (class_run b ac c' cl ws' rt' Hb' Hc'). cbn [mbind option_bind]. pose proof Hr as (R1 & R2 & R3 & R4 & R5 & R6 & R7). rewrite R6. cbn [Z.eqb MEMORY_BLOCK_HUGE]. unfold in_mem, update_mem, hret. cbn [mbind option_bind].
  destruct (ensure_type_ok A1 id l1 k (rest_of Avail (n - k) ++ l2) A2 c' r (cl_header_type cl) ws'.2 Hok2 R2 R1) as [Hok3 Ho3].
  exists A1, id, l1, n, l2, A2. eexists _, _, c'. split; [done|]. split; [done|]. split; [done|]. split; [reflexivity|]. split; [done|]. split; [done|]. split; [by repeat split|]. split; [done|]. split; [exact Hok3|].
  cbn [snd]. assert (forall y, ~ (chunk_hdr (zn heap id) (chunks l1) <= y < chunk_hdr (zn heap id) (chunks l1 + n)) -> vis (huge_ensure_header_type heap r (cl_header_type cl) ws'.2) y = vis ws'.2 y) as Hq3 by (intros y Hy; apply Ho3; unfold chunk_hdr, sizeof_chunk_header in *; lia).
  unfold only_cut in *. destruct (k =? n); [intros y Hy; by rewrite Hq3, Ho|]. destruct Ho as (d & Hd & Ho). exists d. split; [done|]. intros y Hy Hy'. rewrite Hq3 by done. by apply Ho.
Qed.

(** C16. Giving out chunks.  When some available block is large enough,
    heap_get_bestfit_block on the default bucket returns the first chunks of a
    block with the fewest chunks among those that are large enough; the rest of
    that block is available again, the headers tile the zone accordingly, the
    chunk has the class's header type, and nothing is written but headers of that
    block and, if there is a rest, the rest's 40-byte descriptor in its own
    memory. *)
Theorem heap_get_bestfit_block_cuts A b m ws rt ac cl c a ms : heap_ok heap A (vis ws.2) c -> enough A -> has_bucket rt b ac c -> has_class rt ac cl -> cl_type cl = CLASS_HUGE ->
  size_query m -> 0 < size_idx m -> Exists (fun k => size_idx m <= key_size k) (all_keys A) -> h_mallocs (rt_heap rt) = a :: ms -> a <> 0 -> nodes c !! a = None ->
  exists A1 id l1 n l2 A2 r ws' c', A = A1 ++ (id, l1 ++ Blk Avail n :: l2) :: A2 /\ size_idx m <= n /\ Forall (fun k => size_idx m <= key_size k -> n <= key_size k) (all_keys A) /\
    heap_get_bestfit_block heap fuel sizep growsize util_pool_extend b m ws rt = Some ((0, r), ws', if size_idx m =? n then put_container b ac c' rt else after_insert b ac c' ms rt) /\
    describes heap r id (chunks l1) (size_idx m) /\ header_type r = cl_header_type cl /\
    heap_ok heap (A1 ++ (id, cut_zone l1 (size_idx m) n l2) :: A2) (vis ws'.2) c' /\ only_cut (vis ws.2) (vis ws'.2) id (chunks l1) (size_idx m) n.
Proof.
  intros Hok He Hb Hcl Hty Hq Hk Hex Hms Ha Hna. destruct (bestfit_run A b m ws rt ac cl c a ms Hok He Hb Hcl Hty Hq Hk Hex Hms Ha Hna) as (A1 & id & l1 & n & l2 & A2 & r & ws' & c' & ? & ? & ? & ? & _ & _ & ?).
  by exists A1, id, l1, n, l2, A2, r, ws', c'.
Qed.

(** No two neighbours of a zone are both available. *)
Definition separated l : Prop := forall l1 i j l2, l <> l1 ++ Blk Avail i :: Blk Avail j :: l2.

Lemma separated_take l1 n l2 : separated (l1 ++ Blk Avail n :: l2) -> take_prev l1 = (l1, 0) /\ take_next l2 = (l2, 0).
Proof.
  intros Hs. split.
  - pose proof (take_prev_spec l1) as Hp. destruct (take_prev l1) as [l1' p]. destruct Hp as [[->|(-> & -> & _)] _]; [|done]. exfalso. apply (Hs l1' p n l2). by rewrite <- app_assoc.
  - pose proof (take_next_spec l2) as Hp. destruct (take_next l2) as [l2' q]. destruct Hp as [[->|(-> & -> & _)] _]; [|done]. exfalso. by apply (Hs l1 n q l2').
Qed.

(** Every used block has its footer. *)
Definition no_lost l : Prop := Forall (fun b => b_kind b <> Lost) l.
Lemma no_lost_footed l1 l2 : no_lost (l1 ++ l2) -> footed l1.
Proof. intros [H _]%Forall_app n E. apply last_Some in E as [l ->]. apply Forall_app in H as [_ H]. by inversion H. Qed.

(** C17. Freeing undoes giving out.  In a heap whose zones are open (no footer
    is lost, no two neighbours are both available) a block that heap_get_bestfit_block gives out can be given back by
    heap_free_chunk_reuse, and then the zones and the default bucket hold the
    same blocks as before: no chunk is lost and none is in two blocks. *)
Theorem heap_alloc_free_roundtrip A b m ws rt ac cl c a a' ms : heap_ok heap A (vis ws.2) c -> enough A -> Forall (fun zl => separated zl.2 /\ no_lost zl.2) A ->
  has_bucket rt b ac c -> has_class rt ac cl -> cl_type cl = CLASS_HUGE -> size_query m -> 0 < size_idx m -> Exists (fun k => size_idx m <= key_size k) (all_keys A) ->
  h_mallocs (rt_heap rt) = a :: a' :: ms -> a <> 0 -> a' <> 0 -> a' <> a -> nodes c !! a = None -> nodes c !! a' = None ->
  exists r ws1 rt1 nm ws2 rt2 c2, heap_get_bestfit_block heap fuel sizep growsize util_pool_extend b m ws rt = Some ((0, r), ws1, rt1) /\
    heap_free_chunk_reuse heap fuel b r ws1 rt1 = Some ((0, EEXIST, nm), ws2, rt2) /\ has_bucket rt2 b ac c2 /\ heap_ok heap A (vis ws2.2) c2.
Proof.
  intros Hok He Hsep Hb Hcl Hty Hq Hk Hex Hms Ha Ha' Hne Hna Hna'.
  destruct (bestfit_run A b m ws rt ac cl c a (a' :: ms) Hok He Hb Hcl Hty Hq Hk Hex Hms Ha Hna) as (A1 & id & l1 & n & l2 & A2 & r & ws1 & c1 & -> & Hkn & _ & E1 & Hnn & _ & Hr & _ & Hok1 & _).
  apply Forall_app in Hsep as [_ Hsep]. apply Forall_cons in Hsep as [Hsep _]. cbn in Hsep. destruct Hsep as [Hsep Hlost]. destruct (separated_take _ _ _ Hsep) as [Tp Tn].
  set (k := size_idx m) in *. set (rt1 := if k =? n then _ else _) in E1. unfold cut_zone in Hok1.
  assert (exists (x : Z) xs, h_mallocs (rt_heap rt1) = x :: xs /\ x <> 0 /\ nodes c1 !! x = None /\ has_bucket rt1 b ac c1) as (x & xs & Hm1 & Hx & Hnx & Hb1).
  { unfold rt1. destruct (Z.eqb_spec k n); [exists a, (a' :: ms)|exists a', ms]; (split; [done|]; split; [done|]; split; [by apply Hnn; auto|apply put_container_has]). }
  assert (enough (A1 ++ (id, l1 ++ Blk Reserved k :: rest_of Avail (n - k) ++ l2) :: A2)) as He1 by (eapply enough_less, He; apply cut_fewer; lia).
  pose proof (free_run heap fuel A1 id l1 k (rest_of Avail (n - k) ++ l2) A2 b r ws1 rt1 ac c1 x xs Hok1 He1 Hb1 (no_lost_footed _ _ Hlost) Hr Hm1 Hx Hnx) as Hf. rewrite Tp, (take_next_rest (n - k) l2) in Hf by done.
  destruct Hf as (nm & ws2 & c2 & E2 & _ & _ & Hok2 & _). replace (0 + k + (n - k)) with n in Hok2 by lia. exists r, ws1, rt1, nm, ws2. eexists _, c2. split; [exact E1|]. split; [exact E2|]. split; [apply put_container_has|done].
Qed.
End Alloc.

(** ** The same instance: three chunks of a block of four *)

Definition exc_query : memory_block := set_extent 0 3 MEMORY_BLOCK_NONE.
Definition exc_A : list (Z * list ablock) := [(0, [Blk Avail 4; Blk Reserved 4; Blk Avail 4])].

Lemma heap_get_bestfit_block_cuts_witness : exists r ws' rt', heap_get_bestfit_block exc_heap 20 1000 0 (fun _ => None) 2048 exc_query exc_ws (exc_rt exc_tree) = Some ((0, r), ws', rt') /\
  size_idx r = 3 /\ header_type r = HEADER_COMPACT.
Proof.
  destruct (heap_get_bestfit_block_cuts exc_heap 20 1000 0 (fun _ => None) exc_A 2048 exc_query exc_ws (exc_rt exc_tree) 1024 exc_class exc_tree 65536 [65600; 65664] exc_ok)
    as (A1 & id & l1 & n & l2 & A2 & r & ws' & c' & _ & _ & _ & E & (_ & _ & Hs & _) & Ht & _); [by vm_compute; lia|done|done|done|by repeat split|done| |done|done|by vm_compute|].
  - apply Exists_cons_hd. by vm_compute.
  - eexists r, ws', _. split; [exact E|]. by split.
Defined.

Lemma heap_alloc_free_roundtrip_witness : exists r ws1 rt1 nm ws2 rt2 c2, heap_get_bestfit_block exc_heap 20 1000 0 (fun _ => None) 2048 exc_query exc_ws (exc_rt exc_tree) = Some ((0, r), ws1, rt1) /\
  heap_free_chunk_reuse exc_heap 20 2048 r ws1 rt1 = Some ((0, EEXIST, nm), ws2, rt2) /\ has_bucket rt2 2048 1024 c2 /\ heap_ok exc_heap exc_A (vis ws2.2) c2.
Proof.
  apply (heap_alloc_free_roundtrip exc_heap 20 1000 0 (fun _ => None) exc_A 2048 exc_query exc_ws (exc_rt exc_tree) 1024 exc_class exc_tree 65536 65600 [65664] exc_ok);
    [by vm_compute; lia| |done|done|done|by repeat split|done|apply Exists_cons_hd; by vm_compute|done|done|done|done|by vm_compute|by vm_compute].
  constructor; [|constructor]. split; [|by repeat constructor]. intros l1 i j l2 E. cbn in E. destruct l1 as [|x1 [|x2 [|x3 l1]]]; discriminate E || (injection E; intros; subst). by destruct l1.
Defined.
