(* ===== verification/HeapOpen.v ===== *)
(** * Opening a zone

    heap_reclaim_zone_garbage goes through the chunks of a zone once, writes the
    footers of used blocks again and puts free blocks into the default bucket;
    heap_populate_bucket does so for the next zone, which it creates when it has
    never been used.  Zones without runs.  At the end, a free block whose footer was
    lost: the blocks given out afterwards overlap. *)
From stdpp Require Import base numbers list list_numbers gmap.
From Stdlib Require Import ZArith Lia Bool.
From S2P Require Import Prelude Pmem Ulog Memops Ravl RavlFacts RavlOps RavlSpec Container Seglists HeapLayout Memblock MemblockInit AllocClass Recycler Lane Tx Palloc HeapZone HeapArena Heap HeapTiles HeapChunks HeapChunkOps HeapFree HeapAlloc.

(** What becomes of the blocks [l2] behind those that are open. *)
Fixpoint opened (l1 l2 : list ablock) : list ablock :=
  match l2 with
  | [] => l1
  | b :: l2 =>
      if free_kind (b_kind b) then let '(l1, p) := take_prev l1 in opened (l1 ++ [Blk Avail (p + b_size b)]) l2
      else opened (l1 ++ [with_kind InUse b]) l2
  end.

(** A zone that is not open yet: free blocks and used ones. *)
Definition closed (l : list ablock) : Prop := Forall (fun b => b_kind b = Reserved \/ b_kind b = Lost) l.

Lemma opened_chunks l2 : forall l1, chunks (opened l1 l2) = chunks l1 + chunks l2.
Proof.
  induction l2 as [|b l2 IH]; intros l1; cbn [opened]; [change (chunks []) with 0; lia|]. rewrite chunks_cons. destruct (free_kind _).
  - pose proof (take_prev_spec l1) as Hs. destruct (take_prev l1) as [l1' p]. destruct Hs as [_ Hc]. rewrite IH, chunks_app, chunks_cons, Hc. change (chunks []) with 0. cbn [b_size]. lia.
  - rewrite IH, chunks_app, chunks_cons. change (chunks []) with 0. cbn [b_size with_kind]. lia.
Qed.

(** Chunk [i] is the first one of an available block. *)
Definition free_start (l : list ablock) (i : Z) : Prop := exists l1 n l2, l = l1 ++ Blk Avail n :: l2 /\ i = chunks l1.

Lemma free_start_app l l' i : free_start l i -> free_start (l ++ l') i.
Proof. intros (l1 & n & l2 & -> & ->). exists l1, n, (l2 ++ l'). by rewrite <- app_assoc. Qed.

Lemma free_start_last l n : free_start (l ++ [Blk Avail n]) (chunks l).
Proof. by exists l, n, []. Qed.

(** Joining blocks to the left keeps where they start. *)
Lemma opened_starts l2 : forall l1 i, free_start l1 i -> free_start (opened l1 l2) i.
Proof.
  induction l2 as [|b l2 IH]; intros l1 i Hi; [done|]. cbn [opened]. destruct (free_kind _); [|by apply IH, free_start_app].
  pose proof (take_prev_spec l1) as Hp. destruct (take_prev l1) as [l1' p]. apply IH. destruct Hp as [[->|(-> & _)] _]; [|by apply free_start_app].
  destruct Hi as (la & n & lb & E & ->). destruct lb as [|x lb _] using rev_ind.
  - apply app_inj_tail in E as [-> _]. apply free_start_last.
  - assert (la ++ Blk Avail n :: lb ++ [x] = (la ++ Blk Avail n :: lb) ++ [x]) as Ea by (by rewrite <- app_assoc). rewrite Ea in E. apply app_inj_tail in E as [-> _]. apply free_start_app. by exists la, n, lb.
Qed.

(** ** Separation *)

Lemma separated_snoc l b : separated l -> (b_kind b = Avail -> forall n, last l <> Some (Blk Avail n)) -> separated (l ++ [b]).
Proof.
  intros Hs Hb l1 i j l2 E. destruct l2 as [|x l2 _] using rev_ind.
  - change (l1 ++ [Blk Avail i; Blk Avail j]) with (l1 ++ ([Blk Avail i] ++ [Blk Avail j])) in E. rewrite app_assoc in E. apply app_inj_tail in E as [-> ->]. by apply (Hb eq_refl i), last_snoc.
  - assert (l1 ++ Blk Avail i :: Blk Avail j :: l2 ++ [x] = (l1 ++ Blk Avail i :: Blk Avail j :: l2) ++ [x]) as Ea by (by rewrite <- app_assoc). rewrite Ea in E. apply app_inj_tail in E as [-> _]. by apply (Hs l1 i j l2).
Qed.

Lemma separated_init l b : separated (l ++ [b]) -> separated l.
Proof. intros Hs l1 i j l2 ->. apply (Hs l1 i j (l2 ++ [b])). by rewrite <- app_assoc. Qed.

Lemma opened_separated l2 : forall l1, closed l2 -> separated l1 -> no_lost l1 -> separated (opened l1 l2) /\ no_lost (opened l1 l2).
Proof.
  induction l2 as [|b l2 IH]; intros l1 Hc Hs Hn; [done|]. apply Forall_cons in Hc as [Hb Hc]. cbn [opened]. destruct (free_kind _) eqn:Ek.
  - pose proof (take_prev_spec l1) as Hp. destruct (take_prev l1) as [l1' p]. destruct Hp as [[->|(-> & -> & Hno)] _].
    + apply Forall_app in Hn as [Hn _]. apply IH; [done| |by apply Forall_app; split; [|repeat constructor]]. apply separated_snoc; [by eapply separated_init|].
      intros _ n El. apply last_Some in El as [l ->]. apply (Hs l n p []). by rewrite <- app_assoc.
    + apply IH; [done| |by apply Forall_app; split; [|repeat constructor]]. by apply separated_snoc.
  - apply IH; [done| |by apply Forall_app; split; [|repeat constructor]]. by apply separated_snoc.
Qed.

Section Open.
Context (heap : palloc_heap) (fuel : nat).
Implicit Types (m d : memory_block) (v : mem) (l : list ablock) (c : block_container_ravl) (ws : world) (rt : palloc_rt heap_rt).

(** ** Steps of the monad *)

Lemma hbind_vis {B} (k : mem -> heap_act heap_rt B) ws rt : hbind get_vis k ws rt = k (vis ws.2) ws rt.
Proof. done. Qed.
Lemma hbind_run {A B} (x : heap_act heap_rt A) (k : A -> heap_act heap_rt B) ws rt r ws' rt' : x ws rt = Some (r, ws', rt') -> hbind x k ws rt = k r ws' rt'.
Proof. intros E. unfold hbind. by rewrite E. Qed.
Lemma hlift_run {A} (x : option A) r ws rt : x = Some r -> hlift x ws rt = Some (r, ws, rt).
Proof. by intros ->. Qed.

(** ** One block *)

Lemma rebuild_huge v d id chunk t n : zone_id d = id -> chunk_id d = chunk -> hd heap v id chunk = (t, n) -> t = CHUNK_TYPE_FREE \/ t = CHUNK_TYPE_USED ->
  memblock_rebuild_state heap v d = Some (set_runtime MEMORY_BLOCK_HUGE (heap_addr heap) (memblock_header_type heap v d) MEMORY_BLOCK_HUGE d).
Proof.
  intros <- <- E Ht. unfold hd in E. injection E as E _. unfold memblock_rebuild_state, memblock_detect_type.
  change (heap_get_chunk_hdr heap d) with (chunk_hdr (zn heap (zone_id d)) (chunk_id d)). rewrite E. by destruct Ht as [-> | ->].
Qed.

Lemma reinit_used A1 id l1 n l2 A2 c m s : heap_ok heap (A1 ++ (id, l1 ++ Blk Lost n :: l2) :: A2) (vis s) c -> zone_id m = id -> chunk_id m = chunks l1 ->
  heap_ok heap (A1 ++ (id, l1 ++ Blk InUse n :: l2) :: A2) (vis (huge_reinit_chunk heap m s)) c /\ only_headers heap (vis s) (vis (huge_reinit_chunk heap m s)) id (chunks l1) (chunks l1 + n).
Proof.
  intros Hok Hid Hc. destruct (heap_ok_parts _ _ _ _ _ _ _ Hok) as (Hz & HA & Hni). pose proof Hz as [Z1 Z2 Z3 Z4]. pose proof Z4 as (T1 & [Hn Hh] & T2)%tiles_mid.
  cbn [b_kind b_size] in *. pose proof (tiles_nonneg _ _ _ T1). pose proof (tiles_nonneg _ _ _ T2). rewrite chunks_app, chunks_cons in Z2. cbn [b_size] in Z2. assert (MAX_CHUNK = 65528) as Hmax by done.
  unfold huge_reinit_chunk. change (heap_get_chunk_hdr heap m) with (chunk_hdr (zn heap (zone_id m)) (chunk_id m)). rewrite Hid, Hc.
  change (hdr_type (vis s) (chunk_hdr (zn heap id) (chunks l1))) with (hd heap (vis s) id (chunks l1)).1. change (hdr_size_idx (vis s) (chunk_hdr (zn heap id) (chunks l1))) with (hd heap (vis s) id (chunks l1)).2.
  rewrite Hh. cbn [fst snd]. change (CHUNK_TYPE_USED =? CHUNK_TYPE_USED) with true. cbn iota. set (s' := huge_write_footer _ n s).
  assert ((forall j, hd heap (vis s') id j = if decide (n <> 1 /\ j = chunks l1 + n - 1) then (CHUNK_TYPE_FOOTER, n) else hd heap (vis s) id j) /\ only_headers heap (vis s) (vis s') id (chunks l1) (chunks l1 + n)) as [Hd Ho].
  { unfold s', huge_write_footer. destruct (Z.eqb_spec n 1) as [->|Hn1]; [split; [intros j; by rewrite decide_False by (by intros [])|done]|].
    replace (chunk_hdr (zn heap id) (chunks l1) + 8 * (n - 1)) with (chunk_hdr (zn heap id) (chunks l1 + n - 1)) by (unfold chunk_hdr, sizeof_chunk_header; lia). unfold st_store. cbn [vis]. fold (hdr_bytes CHUNK_TYPE_FOOTER (hdr_flags (vis s) (chunk_hdr (zn heap id) (chunks l1))) n). split.
    - intros j. rewrite hd_store by (unfold CHUNK_TYPE_FOOTER; lia). destruct (decide (j = chunks l1 + n - 1)); [by rewrite decide_True|by rewrite decide_False by (by intros [_ ?])].
    - intros y Hy. apply write_bytes_out. change (length (hdr_bytes _ _ _)) with 8%nat. unfold chunk_hdr, sizeof_chunk_header in *. lia. }
  split; [|done]. eapply heap_ok_headers; [exact Hok| |by rewrite !avail_app|eapply only_region; [exact Ho|lia|lia]].
  constructor; [done|by rewrite chunks_app, chunks_cons|rewrite (size_kept heap (vis s) _ id _ _ Ho) by lia; by rewrite Z3, !chunks_app, !chunks_cons|].
  apply (retile (hd heap (vis s) id) _ _ [Blk Lost n]); [done|unfold chunks; cbn; lia| |cbn [b_size]; intros j Hj; by rewrite Hd, decide_False by lia].
  split; [done|]. split; cbn [b_size]; [by rewrite Hd, decide_False by lia|]. intros Hn1. by rewrite Hd, decide_True by lia.
Qed.

(** Where descriptors of available blocks may be: the first bytes of their memory. *)
Definition free_data (id : Z) l (x : Z) : Prop := exists i, free_start l i /\ chunk_data heap id i <= x < chunk_data heap id i + 104.
(** Headers of a zone and descriptors of available blocks [l] are written. *)
Definition only_opened v v' (id hi : Z) l : Prop := forall x, ~ (chunk_hdr (zn heap id) 0 <= x < chunk_hdr (zn heap id) hi) -> ~ free_data id l x -> v' x = v x.

Lemma opened_data id l1 l2 x : free_data id l1 x -> free_data id (opened l1 l2) x.
Proof. intros (i & Hi & Hx). exists i. split; [by apply opened_starts|done]. Qed.

Lemma block_opened v v' id lo hi d l n : describes heap d id (chunks l) n -> only_block heap v v' id lo hi d -> 0 <= lo -> only_opened v v' id hi (l ++ [Blk Avail n]).
Proof.
  intros (D1 & D2 & _ & _ & D5) Ho Hlo x Hx Hx'. apply Ho; [unfold chunk_hdr, sizeof_chunk_header in *; lia|]. intros Hd. apply Hx'. exists (chunks l). split; [apply free_start_last|].
  pose proof (descriptor_range heap v d D5) as Hr. rewrite D1, D2 in Hr. unfold ravl_descriptor, sizeof_memory_block in Hd. lia.
Qed.
Lemma headers_opened v v' id lo hi l : only_headers heap v v' id lo hi -> 0 <= lo -> only_opened v v' id hi l.
Proof. intros H Hlo x Hx _. apply H. unfold chunk_hdr, sizeof_chunk_header in *. lia. Qed.
Lemma only_opened_trans v1 v2 v3 id hi hi' l l2 : only_opened v1 v2 id hi l -> only_opened v2 v3 id hi' (opened l l2) -> hi <= hi' -> only_opened v1 v3 id hi' (opened l l2).
Proof.
  intros H1 H2 Hhi x Hx Hx'. rewrite H2 by done. apply H1; [unfold chunk_hdr, sizeof_chunk_header in *; lia|]. intros Hd. by apply Hx', opened_data.
Qed.

(** ** The loop *)

(** Malloc's results are new addresses. *)
Definition supply (ms : list Z) c : Prop := NoDup ms /\ (0 ∉ ms) /\ Forall (fun a => nodes c !! a = None) ms.

Lemma supply_tail a ms c c' : supply (a :: ms) c -> new_nodes a c c' -> a <> 0 /\ nodes c !! a = None /\ supply ms c'.
Proof.
  intros (Hd & Hz & Hf) Hn. apply NoDup_cons in Hd as [Ha Hd]. apply Forall_cons in Hf as [Hca Hf]. split; [set_solver|]. split; [done|]. split; [done|]. split; [set_solver|].
  rewrite Forall_forall in *. intros x Hx. apply Hn; [by intros ->|by apply Hf].
Qed.

Lemma insert_insert b ac c c' ms ms' rt : after_insert b ac c' ms' (after_insert b ac c ms rt) = after_insert b ac c' ms' rt.
Proof. unfold after_insert, put_container, set_buckets, set_mallocs. cbn. by rewrite insert_insert_eq. Qed.
Lemma insert_none b ac c rt : has_bucket rt b ac c -> after_insert b ac c (h_mallocs (rt_heap rt)) rt = rt.
Proof. intros Hb. unfold after_insert, put_container, set_buckets, set_mallocs. cbn. rewrite insert_id by done. by destruct rt as [? ? []]. Qed.

Lemma closed_take_next l : closed l -> take_next l = (l, 0).
Proof. destruct l as [|[[] n] l]; intros Hc; try done. apply Forall_cons in Hc as [[Hc|Hc] _]; done. Qed.

Definition room (A : list (Z * list ablock)) (k : nat) : Prop := (2 * (length (all_keys A) + k) + 1 < fuel)%nat.

Lemma room_enough A k : room A k -> enough fuel A.
Proof. unfold room, enough. lia. Qed.

Lemma room_keys A1 id l l' A2 k k' : (length (avail_keys id 0 l') + k' <= length (avail_keys id 0 l) + k)%nat -> room (A1 ++ (id, l) :: A2) k -> room (A1 ++ (id, l') :: A2) k'.
Proof. unfold room. rewrite !keys_mid, !length_app. lia. Qed.

(** The step at a free block. *)
Lemma open_free A1 id l1 n l2 A2 b ac c ws rt a ms : let A := A1 ++ (id, l1 ++ Blk Reserved n :: l2) :: A2 in
  heap_ok heap A (vis ws.2) c -> closed l2 -> no_lost l1 -> room A (S (length l2)) -> has_bucket rt b ac c -> h_mallocs (rt_heap rt) = a :: ms -> supply (a :: ms) c ->
  let '(l1', p) := take_prev l1 in let l1'' := l1' ++ [Blk Avail (p + n)] in let m := set_runtime MEMORY_BLOCK_HUGE (heap_addr heap) (memblock_header_type heap (vis ws.2) (set_extent 0 n (set_location (chunks l1) id MEMORY_BLOCK_NONE))) MEMORY_BLOCK_HUGE (set_extent 0 n (set_location (chunks l1) id MEMORY_BLOCK_NONE)) in
  exists nm ws' c', heap_free_chunk_reuse heap fuel b m ws rt = Some ((0, EEXIST, nm), ws', after_insert b ac c' ms rt) /\ chunk_id nm + size_idx nm = chunks l1'' /\ supply ms c' /\
    heap_ok heap (A1 ++ (id, l1'' ++ l2) :: A2) (vis ws'.2) c' /\ no_lost l1'' /\ room (A1 ++ (id, l1'' ++ l2) :: A2) (length l2) /\ only_opened (vis ws.2) (vis ws'.2) id (chunks l1 + n) l1''.
Proof.
  intros A Hok Hcl Hnl Hr Hb Hms Hsup. destruct (heap_ok_parts _ _ _ _ _ _ _ Hok) as (Hz & _ & _). pose proof Hz as [_ _ _ Z4]. apply tiles_mid in Z4 as (T1 & _ & _). pose proof (tiles_nonneg _ _ _ T1) as N1.
  assert (no_lost (l1 ++ []) ) as Hnl' by (by rewrite app_nil_r). pose proof (no_lost_footed _ _ Hnl') as Hfo. set (m := set_runtime _ _ _ _ _).
  pose proof (free_run heap fuel A1 id l1 n l2 A2 b m ws rt ac c a ms Hok (room_enough _ _ Hr) Hb Hfo ltac:(by repeat split) Hms) as Hf.
  destruct (supply_tail a ms c c Hsup ltac:(by intros ?)) as (Ha & Hna & _). specialize (Hf Ha Hna). rewrite (closed_take_next l2 Hcl) in Hf. pose proof (take_prev_spec l1) as Hp. destruct (take_prev l1) as [l1' p].
  destruct Hp as [Hp Hch]. destruct Hf as (nm & ws' & c' & E & _ & Hnn & Hok' & Hnm & Ho). pose proof Hnm as (D1 & _ & D3 & _). rewrite Z.add_0_r in *. cbv zeta. exists nm, ws', c'. split; [done|].
  assert (0 <= chunks l1') as N1' by (destruct Hp as [->|(-> & _)]; [apply tiles_app in T1 as [T1 _]; by apply tiles_nonneg in T1|done]).
  split; [rewrite chunks_app, chunks_cons, D1, D3; change (chunks []) with 0; cbn [b_size]; lia|]. split; [by apply (supply_tail a ms c c')|]. rewrite <- app_assoc. cbn [app]. split; [done|].
  split; [apply Forall_app; split; [destruct Hp as [->|(-> & _)]; [by apply Forall_app in Hnl as [? _]|done]|by repeat constructor]|]. split.
  - eapply room_keys, Hr. rewrite !avail_length. destruct Hp as [->|(-> & _)]; rewrite !sum_list_with_app; unfold is_avail; cbn; lia.
  - replace (chunks l1 + n) with (chunks l1' + (p + n)) by lia. by eapply block_opened.
Qed.

(** The step at a used block. *)
Lemma open_used A1 id l1 n l2 A2 c m ws : heap_ok heap (A1 ++ (id, l1 ++ Blk Lost n :: l2) :: A2) (vis ws.2) c -> zone_id m = id -> chunk_id m = chunks l1 -> no_lost l1 ->
  let s := huge_reinit_chunk heap m ws.2 in let l1'' := l1 ++ [Blk InUse n] in
  heap_ok heap (A1 ++ (id, l1'' ++ l2) :: A2) (vis s) c /\ no_lost l1'' /\ chunks l1'' = chunks l1 + n /\ only_opened (vis ws.2) (vis s) id (chunks l1 + n) l1'' /\ hd heap (vis s) id (chunks l1) = (CHUNK_TYPE_USED, n).
Proof.
  intros Hok Hid Hc Hnl s l1''. destruct (reinit_used A1 id l1 n l2 A2 c m ws.2 Hok Hid Hc) as [Hok' Ho]. unfold l1''. rewrite <- app_assoc. split; [done|]. split; [apply Forall_app; split; [done|by repeat constructor]|].
  split; [rewrite chunks_app, chunks_cons; change (chunks []) with 0; cbn [b_size]; lia|]. destruct (heap_ok_parts _ _ _ _ _ _ _ Hok') as (Hz & _ & _). destruct Hz as [_ _ _ Z4]. apply tiles_mid in Z4 as (T1 & [_ [Hh _]] & _).
  split; [|exact Hh]. eapply headers_opened; [exact Ho|by eapply tiles_nonneg].
Qed.

(** What the loop keeps. *)
Record opening A1 id A2 b ac l1 l2 ws rt c : Prop := Opening {
  op_ok : heap_ok heap (A1 ++ (id, l1 ++ l2) :: A2) (vis ws.2) c;
  op_closed : closed l2;
  op_open : no_lost l1;
  op_room : room (A1 ++ (id, l1 ++ l2) :: A2) (length l2);
  op_bucket : has_bucket rt b ac c;
  op_supply : supply (h_mallocs (rt_heap rt)) c;
  op_enough : (length l2 <= length (h_mallocs (rt_heap rt)))%nat
}.

Lemma reclaim_step A1 id A2 b ac l1 x l2 ws rt c k : opening A1 id A2 b ac l1 (x :: l2) ws rt c ->
  exists l1'' ws1 c1 ms, let rt1 := after_insert b ac c1 ms rt in
    reclaim_chunks heap fuel (S k) b id (chunks l1) ws rt = reclaim_chunks heap fuel k b id (chunks l1'') ws1 rt1 /\ opened l1 (x :: l2) = opened l1'' l2 /\
    opening A1 id A2 b ac l1'' l2 ws1 rt1 c1 /\ chunks l1'' = chunks l1 + b_size x /\ only_opened (vis ws.2) (vis ws1.2) id (chunks l1 + b_size x) l1''.
Proof.
  intros [Hok Hcl Hnl Hr Hb Hsup Hlen]. destruct (heap_ok_parts _ _ _ _ _ _ _ Hok) as (Hz & _ & _). pose proof Hz as [_ Z2 Z3 Z4]. assert (MAX_CHUNK = 65528) as Hmax by done.
  cbn [length] in *. apply Forall_cons in Hcl as [Hx Hcl]. pose proof Z4 as (T1 & Hbx & T2)%tiles_mid. pose proof (blk_header _ _ _ Hbx) as [Hsz Hty]. pose proof Hbx as [Hpos _].
  pose proof (tiles_nonneg _ _ _ T1) as N1. pose proof (tiles_nonneg _ _ _ T2) as N2. rewrite chunks_app, chunks_cons in Z2, Z3.
  cbn [reclaim_chunks]. cbv zeta. rewrite hbind_vis. change (ZID_TO_ZONE (layout heap) id) with (zn heap id). rewrite Z3, (proj2 (Z.ltb_lt _ _)) by lia. cbn [negb].
  change (hdr_size_idx (vis ws.2) (chunk_hdr (zn heap id) (chunks l1))) with (hd heap (vis ws.2) id (chunks l1)).2. rewrite Hsz. destruct x as [kd n]. cbn [b_kind b_size] in *.
  destruct (h_mallocs (rt_heap rt)) as [|a ms] eqn:Hms; [cbn in Hlen; lia|]. destruct ws as [pop s]. cbn [snd] in *. cbn [opened b_kind b_size].
  destruct (hd heap (vis s) id (chunks l1)) as [t n'] eqn:Eh. cbn [fst snd] in *. subst n'.
  assert (t = CHUNK_TYPE_FREE \/ t = CHUNK_TYPE_USED) as Ht by (destruct Hx as [-> | ->]; [left; by apply Hty|right; destruct Hbx as [_ Hbx]; cbn in Hbx; congruence]).
  erewrite hbind_run by (apply hlift_run, (rebuild_huge (vis s) _ id (chunks l1) t n); done). set (m := set_runtime _ _ _ _ _).
  erewrite hbind_run by (unfold in_mem, update_mem; cbn; reflexivity). rewrite hbind_vis. cbn [fst snd].
  assert (forall v, hdr_type v (chunk_hdr (zn heap id) (chunks l1)) = (hd heap v id (chunks l1)).1) as Hhd by done. rewrite !Hhd.
  destruct Hx as [-> | ->]; cbn [free_kind] in *.
  - assert (t = CHUNK_TYPE_FREE) as -> by (by apply Hty). assert (huge_reinit_chunk heap m s = s) as Hre.
    { unfold huge_reinit_chunk. change (hdr_type (vis s) (heap_get_chunk_hdr heap m)) with (hd heap (vis s) id (chunks l1)).1. by rewrite Eh. }
    rewrite Hre, Eh. cbn [fst]. change (CHUNK_TYPE_FREE =? CHUNK_TYPE_RUN) with false. change (CHUNK_TYPE_FREE =? CHUNK_TYPE_FREE) with true. cbn iota.
    pose proof (open_free A1 id l1 n l2 A2 b ac c (pop, s) rt a ms Hok Hcl Hnl Hr Hb Hms Hsup) as Hf. cbn [snd] in Hf. fold m in Hf. pose proof (take_prev_spec l1) as Hp. destruct (take_prev l1) as [l1' p]. destruct Hp as [_ Hch].
    cbv zeta in Hf. destruct Hf as (nm & ws' & c' & E & Hnext & Hs' & Hok' & Hnl' & Hr' & Ho).
    assert (chunks (l1' ++ [Blk Avail (p + n)]) = chunks l1 + n) as Hch' by (rewrite chunks_app, chunks_cons, Hch; change (chunks []) with 0; cbn [b_size]; lia).
    exists (l1' ++ [Blk Avail (p + n)]), ws', c', ms. split; [|split; [done|]].
    + erewrite hbind_run by (erewrite hbind_run by exact E; reflexivity). cbn beta iota. rewrite Hnext, u32_small by lia. done.
    + split; [|by split]. constructor; try done; [apply put_container_has|cbn in Hlen |- *; lia].
  - destruct (open_used A1 id l1 n l2 A2 c m (pop, s) Hok eq_refl eq_refl Hnl) as (Hok' & Hnl' & Hch & Ho & Hh). cbn [snd] in *. rewrite Hh. cbn [fst].
    change (CHUNK_TYPE_USED =? CHUNK_TYPE_RUN) with false. change (CHUNK_TYPE_USED =? CHUNK_TYPE_FREE) with false. change (CHUNK_TYPE_USED =? CHUNK_TYPE_USED) with true. cbn iota.
    exists (l1 ++ [Blk InUse n]), (pop, huge_reinit_chunk heap m s), c, (a :: ms). rewrite <- Hms, insert_none by done. split; [|split; [done|]].
    + erewrite hbind_run by reflexivity. cbn [chunk_id size_idx m set_runtime set_extent set_location]. rewrite Hch, u32_small by lia. done.
    + split; [|by split]. constructor; try done; [|by rewrite Hms|rewrite Hms; cbn in Hlen |- *; lia].
      eapply room_keys, Hr. rewrite !avail_length, !sum_list_with_app. unfold is_avail. cbn. lia.
Qed.

Lemma reclaim_spec A1 id A2 b ac l2 : forall l1 k ws rt c, opening A1 id A2 b ac l1 l2 ws rt c -> (length l2 <= k)%nat ->
  exists ws' c' ms', reclaim_chunks heap fuel k b id (chunks l1) ws rt = Some (tt, ws', after_insert b ac c' ms' rt) /\
    heap_ok heap (A1 ++ (id, opened l1 l2) :: A2) (vis ws'.2) c' /\ only_opened (vis ws.2) (vis ws'.2) id (chunks l1 + chunks l2) (opened l1 l2).
Proof.
  induction l2 as [|x l2 IH]; intros l1 k ws rt c Hop Hk.
  - pose proof Hop as [Hok _ _ _ Hb _ _]. destruct (heap_ok_parts _ _ _ _ _ _ _ Hok) as ([_ _ Z3 _] & _ & _). rewrite app_nil_r in *. exists ws, c, (h_mallocs (rt_heap rt)). rewrite insert_none by done. split; [|by split].
    destruct k; cbn [reclaim_chunks]; rewrite hbind_vis; cbv zeta; change (ZID_TO_ZONE (layout heap) id) with (zn heap id); by rewrite Z3, Z.ltb_irrefl.
  - destruct k as [|k]; [cbn in Hk; lia|]. destruct (reclaim_step _ _ _ _ _ _ _ _ _ _ _ k Hop) as (l1'' & ws1 & c1 & ms & E & -> & Hop' & Hch & Ho). destruct (heap_ok_parts _ _ _ _ _ _ _ (op_ok _ _ _ _ _ _ _ _ _ _ Hop')) as ([_ _ _ Z4] & _ & _).
    apply tiles_app in Z4 as [_ T2]. pose proof (tiles_nonneg _ _ _ T2) as N2. destruct (IH l1'' k ws1 _ c1 Hop' ltac:(cbn in Hk; lia)) as (ws' & c' & ms' & E' & Hok' & Ho').
    exists ws', c', ms'. rewrite E, E', insert_insert. split; [done|]. split; [done|]. rewrite chunks_cons, Z.add_assoc, <- Hch. rewrite <- Hch in Ho. eapply only_opened_trans; [exact Ho|exact Ho'|lia].
Qed.

(** ** A new zone *)

Lemma zone_init_run nz size id s : let n := zone_calc_size_idx id nz size in 0 <= id -> 0 < n <= MAX_CHUNK ->
  exists s', heap_zone_init heap nz size id 0 s = Some s' /\ zone_ok heap (vis s') id [Blk Reserved n] /\ forall x, ~ (zn heap id <= x < zn heap id + sizeof_zone) -> vis s' x = vis s x.
Proof.
  intros n Hid Hn. assert (MAX_CHUNK = 65528 /\ sizeof_zone = 524288 /\ sizeof_zone_header = 64 /\ sizeof_chunk_header = 8) as (Z1 & Z2 & Z3 & Z4) by done.
  unfold heap_zone_init. fold n. rewrite Z.sub_0_r, u32_small by lia. destruct (huge_init_run heap id 0 n s Hid ltac:(lia)) as (m & s1 & -> & _ & Hw). cbn [mbind option_bind]. change (ZID_TO_ZONE (layout heap) id) with (zn heap id).
  eexists. split; [reflexivity|]. rewrite persist_vis. unfold st_store. cbn [vis]. set (bs := enc_le 4 ZONE_HEADER_MAGIC ++ _). assert (length bs = 64%nat) as Hbs by done.
  set (v' := write_bytes (vis s1) (zn heap id) bs). assert (forall x, ~ (zn heap id <= x < zn heap id + 64) -> v' x = vis s1 x) as Hout by (intros x Hx; apply write_bytes_out; rewrite Hbs; lia).
  pose proof (block_headers_only heap id 0 CHUNK_TYPE_FREE n _ _ Hw ltac:(lia)) as Ho. split.
  - constructor; [done|unfold chunks; cbn [foldr b_size]; lia| |].
    + unfold zone_size_idx, load32, v'. rewrite read_write_sub by (rewrite ?Hbs; lia). replace (zn heap id + 4 - zn heap id) with 4 by lia. unfold chunks. cbn [foldr b_size]. rewrite Z.add_0_r.
      change (take 4 (drop (Z.to_nat 4) bs)) with (enc_le 4 n). rewrite dec_enc_le. apply Z.mod_small. lia.
    + assert (forall j, 0 <= j -> hd heap v' id j = hd heap (vis s1) id j) as Hh.
      { intros j Hj. unfold hd. destruct (hdr_frame (vis s1) v' (chunk_hdr (zn heap id) j)) as (-> & _ & ->); [|done]. intros x Hx. symmetry. apply Hout. unfold chunk_hdr in Hx. rewrite Z3, Z4 in Hx. lia. }
      cbn [tiles]. split; [|done]. split; [cbn; lia|]. pose proof (fun j => block_headers_hd heap id 0 CHUNK_TYPE_FREE n _ _ j Hw ltac:(done) ltac:(lia)) as Hd.
      split; cbn [b_size b_kind]; [by rewrite Hh, Hd, decide_True by lia|]. intros Hn1. rewrite Hh, Hd, decide_False, decide_True by lia. done.
  - intros x Hx. rewrite Hout by lia. apply Ho. unfold chunk_hdr. rewrite Z3, Z4. lia.
Qed.

Lemma heap_ok_add A v c id l : heap_ok heap A v c -> id ∉ A.*1 -> zone_ok heap v id l -> closed l -> heap_ok heap (A ++ [(id, l)]) v c.
Proof.
  intros [H1 H2 (L & HL & HF & HP)] Hid Hz Hc. constructor.
  - rewrite fmap_app. apply NoDup_app. split; [done|]. split; [|apply NoDup_singleton]. intros x Hx [= ->]%list_elem_of_singleton. done.
  - apply Forall_app. split; [done|]. constructor; [exact Hz|constructor].
  - exists L. split; [done|]. split; [done|]. rewrite (keys_mid A id l []), app_nil_r, no_avail_keys; [done|]. eapply Forall_impl; [exact Hc|]. intros b [-> | ->]; done.
Qed.

Context (sizep : Z).

(** The next zone: as media holds it, or still to be created. *)
Definition next_zone v (nz id : Z) l : Prop :=
  if decide (zone_magic v (zn heap id) = ZONE_HEADER_MAGIC) then zone_ok heap v id l /\ closed l
  else let n := zone_calc_size_idx id nz (load64 v sizep) in 0 <= id /\ 0 < n <= MAX_CHUNK /\ l = [Blk Reserved n].

Definition next_exhausted rt : palloc_rt heap_rt :=
  PRt (rt_buckets rt) (rt_resv rt) (set_zones (nzones (rt_heap rt)) (u32 (zones_exhausted (rt_heap rt) + 1)) (rt_heap rt)).

(** C18. Opening the next zone.  heap_populate_bucket creates the zone that comes
    next if it has never been used; every used block of the zone then has its
    footer, even where it was lost, neighbouring free blocks are joined, and the
    default bucket holds exactly the available blocks of all zones that are open.
    Nothing outside of the zone's headers and the first 104 bytes of its available
    blocks, where their descriptors go, changes.  The zone holds no runs, and its
    free blocks have their footers. *)
Theorem heap_populate_bucket_opens A l b ac c ws rt : let id := zones_exhausted (rt_heap rt) in
  heap_ok heap A (vis ws.2) c -> id ∉ A.*1 -> id <> nzones (rt_heap rt) -> next_zone (vis ws.2) (nzones (rt_heap rt)) id l ->
  room A (length l) -> has_bucket rt b ac c -> supply (h_mallocs (rt_heap rt)) c -> (length l <= length (h_mallocs (rt_heap rt)))%nat ->
  exists ws' c' ms', heap_populate_bucket heap fuel sizep b ws rt = Some (0, ws', after_insert b ac c' ms' (next_exhausted rt)) /\
    heap_ok heap (A ++ [(id, opened [] l)]) (vis ws'.2) c' /\ separated (opened [] l) /\ no_lost (opened [] l) /\ chunks (opened [] l) = chunks l /\
    forall x, ~ (zn heap id <= x < zn heap id + sizeof_zone) -> ~ free_data id (opened [] l) x -> vis ws'.2 x = vis ws.2 x.
Proof.
  intros id Hok Hni Hnz Hnext Hroom Hb Hsup Hlen. destruct ws as [pop s]. cbn [snd] in *.
  assert (exists s1, (if negb (zone_magic (vis s) (zn heap id) =? ZONE_HEADER_MAGIC) then update_mem (fun s => s ← heap_zone_init heap (nzones (rt_heap rt)) (load64 (vis s) sizep) id 0 s; Some (tt, s)) else hret tt : heap_act heap_rt unit)
      (pop, s) (next_exhausted rt) = Some (tt, (pop, s1), next_exhausted rt) /\ zone_ok heap (vis s1) id l /\ closed l /\ forall x, ~ (zn heap id <= x < zn heap id + sizeof_zone) -> vis s1 x = vis s x) as (s1 & E1 & Hz & Hc & Hfr).
  { unfold next_zone in Hnext. destruct (decide _) as [Em|Em].
    - exists s. rewrite (proj2 (Z.eqb_eq _ _) Em). destruct Hnext as [Hz Hc]. by split.
    - destruct Hnext as (H0 & Hn & ->). rewrite (proj2 (Z.eqb_neq _ _) Em). cbn [negb]. destruct (zone_init_run (nzones (rt_heap rt)) (load64 (vis s) sizep) id s H0 Hn) as (s1 & E & Hz & Hfr).
      exists s1. unfold update_mem. cbn [snd fst]. rewrite E. split; [done|]. split; [done|]. split; [|done]. constructor; [by left|constructor]. }
  assert (heap_ok heap A (vis s1) c) as Hok1.
  { apply (heap_ok_region heap A (vis s) _ c id Hok Hni); [by apply Hz|exact Hfr]. }
  pose proof (heap_ok_add A (vis s1) c id l Hok1 Hni Hz Hc) as Hok2.
  assert (opening A id [] b ac [] l (pop, s1) (next_exhausted rt) c) as Hop.
  { constructor; try done; [constructor|]. unfold room in *. rewrite keys_mid, app_nil_r, length_app, no_avail_keys; [done|]. eapply Forall_impl; [exact Hc|]. intros x [-> | ->]; done. }
  destruct (reclaim_spec A id [] b ac l [] fuel (pop, s1) (next_exhausted rt) c Hop ltac:(unfold room in Hroom; lia)) as (ws' & c' & ms' & E2 & Hok' & Ho). exists ws', c', ms'. split.
  - unfold heap_populate_bucket. erewrite hbind_run by (unfold get_heap; reflexivity). fold id. rewrite (proj2 (Z.eqb_neq _ _) Hnz). cbv zeta. erewrite hbind_run by (unfold set_heap; reflexivity).
    rewrite hbind_vis. change (ZID_TO_ZONE (layout heap) id) with (zn heap id). erewrite hbind_run by exact E1. erewrite hbind_run by exact E2. done.
  - split; [done|]. destruct (opened_separated l [] Hc) as [Hs Hl]; [intros [] ? ? ?; discriminate|constructor|]. split; [done|]. split; [done|]. split; [apply opened_chunks|].
    intros x Hx Hx'. rewrite <- Hfr by done. apply Ho; [|done]. destruct Hz as [_ Z2 _ _]. assert (MAX_CHUNK = 65528 /\ sizeof_zone = 524288 /\ sizeof_zone_header = 64 /\ sizeof_chunk_header = 8) as (M1 & M2 & M3 & M4) by done.
    unfold chunk_hdr. change (chunks []) with 0. rewrite M3, M4. lia.
Qed.
End Open.

(** ** An instance: a used block whose footer is lost, and two free ones *)

Definition exo_mem : mem :=
  let z := zn exc_heap 0 in
  exc_free 8 4 (exc_free 4 4 (write_bytes (write_bytes (fun _ => Byte.x00) z (enc_le 4 ZONE_HEADER_MAGIC ++ enc_le 4 12)) (chunk_hdr z 0) (hdr_bytes CHUNK_TYPE_USED 0 4))).
Definition exo_rt : palloc_rt heap_rt :=
  PRt {[2048 := PBucket 0 false]} ∅ (HeapRt exc_classes 2048 {[2048 := HBucket 1024 (ContRavl ravl_new)]} (Arenas [] 0 0 ∅) ∅ 1 0 [65536; 65600; 65664] [] 0).

Lemma exo_empty v : heap_ok exc_heap [] v ravl_new.
Proof. constructor; [constructor|constructor|]. exists []. split; [apply ravl_ok_new|]. by repeat constructor. Qed.

Lemma heap_populate_bucket_opens_witness : exists ws' rt' c', heap_populate_bucket exc_heap 20 1000 2048 (exc_ws.1, PMst exo_mem [] false) exo_rt = Some (0, ws', rt') /\
  heap_ok exc_heap [(0, [Blk InUse 4; Blk Avail 8])] (vis ws'.2) c'.
Proof.
  destruct (heap_populate_bucket_opens exc_heap 20 1000 [] [Blk Lost 4; Blk Reserved 4; Blk Reserved 4] 2048 1024 ravl_new (exc_ws.1, PMst exo_mem [] false) exo_rt (exo_empty _)) as (ws' & c' & ms' & E & Hok & _);
    [apply not_elem_of_nil|done| |unfold room; cbn; lia|done| |cbn; lia|].
  - unfold next_zone. rewrite decide_True by (by vm_compute). split; [|repeat constructor; by auto]. constructor; [by vm_compute|by vm_compute|by vm_compute|]. cbn [tiles b_size]. repeat split; by vm_compute.
  - split; [apply (bool_decide_unpack _); by vm_compute|]. split; [apply (bool_decide_unpack _); by vm_compute|by repeat constructor].
  - eexists ws', _, c'. split; [exact E|exact Hok].
Defined.

(** ** Footers that were not written back

    The last chunk of a free block tells how long the block is; heap.c finds the
    left neighbour of a block through it.  Footers are never flushed, and when a
    zone is opened they are written again for used blocks only.  A run of the
    model shows what comes of that after a power failure. *)

(** A zone of twelve chunks: ten are free, two are used. *)
Definition stale_mem : mem :=
  let z := zn exc_heap 0 in
  let v := exc_free 0 10 (write_bytes (fun _ => Byte.x00) z (enc_le 4 ZONE_HEADER_MAGIC ++ enc_le 4 12)) in
  write_bytes (write_bytes v (chunk_hdr z 10) (hdr_bytes CHUNK_TYPE_USED 0 2)) (chunk_hdr z 11) (hdr_bytes CHUNK_TYPE_FOOTER 0 2).
Definition stale_rt (c : block_container_ravl) (exhausted : Z) : palloc_rt heap_rt :=
  PRt {[2048 := PBucket 0 false]} ∅ (HeapRt exc_classes 2048 {[2048 := HBucket 1024 (ContRavl c)]} (Arenas [] 0 0 ∅) ∅ 1 exhausted [65536; 65600; 65664] [] 0).

(** The block's header changes and is flushed, the footer is only stored: what
    processing the redo log and its transient part comes to. *)
Definition publish (op : memblock_state) (m : memory_block) : heap_act heap_rt unit :=
  fun ws rt => let '(_, ws) := huge_prep_operation_hdr exc_heap 0 false 0 false m op None ws in Some (tt, ws, rt).

Definition take_chunks (n : Z) : heap_act heap_rt memory_block :=
  let! '(_, m) := heap_get_bestfit_block exc_heap 20 1000 0 (fun _ => None) 2048 (set_extent 0 n MEMORY_BLOCK_NONE) in
  let! _ := publish MEMBLOCK_ALLOCATED m in
  hret m.
Definition give_back (i n : Z) : heap_act heap_rt memory_block :=
  let m := exc_block i n in
  let! _ := publish MEMBLOCK_FREE m in
  let! '(_, _, m) := heap_free_chunk_reuse exc_heap 20 2048 m in
  hret m.

(** Four and two of the ten chunks are allocated. *)
Definition before_failure : option pmst :=
  let start := exc_insert 66048 (exc_block 0 10) (ravl_new, PMst stale_mem [] false) in
  '(_, ws, _) ← (let! _ := take_chunks 4 in take_chunks 2) (exc_ws.1, start.2) (stale_rt start.1 1);
  Some ws.2.

(** Everything that was not both flushed and drained is lost. *)
Definition lost (s : pmst) : mem := fun x => replay stale_mem (take (durable (trace s) (word_of x)) (trace s)) x.

(** The zone is opened, and two blocks are freed that are not adjacent. *)
Definition after_failure (v : mem) : option (memory_block * mem) :=
  '(m, ws, _) ← (let! _ := heap_populate_bucket exc_heap 20 1000 2048 in let! _ := give_back 0 4 in give_back 10 2) (exc_ws.1, PMst v [] false) (stale_rt ravl_new 0);
  Some (m, vis ws.2).

Lemma lost_image s : crash_image stale_mem (trace s) (lost s).
Proof.
  intros w Hw. exists (durable (trace s) w). split; [unfold durable; pose proof (durable_from_bounds (trace s) w 0 0 0); lia|].
  intros j Hj. unfold lost. replace (word_of (w + j)) with w; [done|]. apply Z.mod_divide in Hw as [q ->]; [|done]. unfold word_of. rewrite Z.div_add_l, Z.div_small by lia. lia.
Qed.

(** C24. A footer that was not written back makes blocks overlap.  There is a run
    in which two allocations are followed by a power failure, the zone is opened
    again and two blocks are freed, after which the default bucket gets a block
    of the six chunks from chunk 0 on, although chunk 4 still is the head of a
    used block of two chunks. *)
Theorem stale_footer_overlaps : exists s img m v, before_failure = Some s /\ crash_image stale_mem (trace s) img /\ after_failure img = Some (m, v) /\
  (chunk_id m, size_idx m) = (0, 6) /\ hd exc_heap v 0 4 = (CHUNK_TYPE_USED, 2).
Proof.
  assert ((s ← before_failure; '(m, v) ← after_failure (lost s); Some (chunk_id m, size_idx m, hd exc_heap v 0 4)) = Some (0, 6, (CHUNK_TYPE_USED, 2))) as E by (vm_compute; reflexivity).
  apply bind_Some in E as (s & Es & E). apply bind_Some in E as ([m v] & Em & E). apply (inj Some), pair_equal_spec in E as [E1 E2]. exists s, (lost s), m, v. split; [exact Es|]. split; [apply lost_image|]. split; [exact Em|]. by split.
Qed.
