(* ===== verification/HeapIter.v ===== *)
(** * Iterating over objects (heap.c, palloc.c)

    heap_foreach_object calls a function for every object of the heap, in the
    order of their addresses, until it returns something else than 0.
    palloc_first and palloc_next use it.  The callback works on a state of its
    own and does not change the heap. *)
From stdpp Require Import base numbers list list_numbers gmap.
From Stdlib Require Import ZArith Lia Bool.
From S2P Require Import Prelude Pmem Ulog Memops Ravl RavlFacts RavlOps RavlSpec Container Seglists HeapLayout Memblock MemblockInit AllocClass Recycler Lane Tx Palloc HeapZone HeapArena Heap HeapTiles HeapChunks HeapChunkOps HeapFree HeapAlloc.

Definition MEMORY_BLOCK_IS_NONE (m : memory_block) : bool := mb_heap m =? 0.
Definition MEMORY_BLOCK_EQUALS (lhs rhs : memory_block) : bool :=
  (zone_id lhs =? zone_id rhs) && (chunk_id lhs =? chunk_id rhs) && (block_off lhs =? block_off rhs) && (mb_heap lhs =? mb_heap rhs).

Section Iter.
Context (heap : palloc_heap) (fuel : nat).
Implicit Types (m d : memory_block) (v : mem) (l : list ablock).

(** The loop over the chunks of a zone; the result, [*m] and the callback's
    state. *)
Fixpoint foreach_chunks {A} (n : nat) v (cb : memory_block -> A -> Z * A) (arg : A) m : option (Z * memory_block * A) :=
  if negb (chunk_id m <? zone_size_idx v (ZID_TO_ZONE (layout heap) (zone_id m))) then Some (0, m, arg) else
  match n with
  | O => None
  | S n =>
      let hdr := heap_get_chunk_hdr heap m in
      m ← memblock_rebuild_state heap v m;
      let m := set_extent (block_off m) (hdr_size_idx v hdr) m in
      '(r, arg) ← (if mb_type m =? MEMORY_BLOCK_RUN then run_iterate_used heap fuel v m cb arg else Some (huge_iterate_used heap v m cb arg));
      if negb (r =? 0) then Some (1, m, arg) else
      foreach_chunks n v cb arg (set_extent 0 (size_idx m) (set_location (u32 (chunk_id m + size_idx m)) (zone_id m) m))
  end.

Definition heap_zone_foreach_object {A} v (cb : memory_block -> A -> Z * A) (arg : A) m : option (Z * memory_block * A) :=
  if zone_magic v (ZID_TO_ZONE (layout heap) (zone_id m)) =? 0 then Some (0, m, arg) else foreach_chunks fuel v cb arg m.

(** The loop over the zones; [n] are left. *)
Fixpoint foreach_zones {A} (n : nat) v (cb : memory_block -> A -> Z * A) (arg : A) m : option A :=
  match n with
  | O => Some arg
  | S n =>
      '(r, m, arg) ← heap_zone_foreach_object v cb arg m;
      if negb (r =? 0) then Some arg else foreach_zones n v cb arg (set_location 0 (zone_id m + 1) m)
  end.

Definition heap_foreach_object {A} (nzones : Z) v (cb : memory_block -> A -> Z * A) (arg : A) m : option A :=
  foreach_zones (Z.to_nat (nzones - zone_id m)) v cb arg m.

(** ** Searching (palloc.c) *)

Definition pmalloc_search_cb m (out : memory_block) : Z * memory_block := if MEMORY_BLOCK_EQUALS m out then (0, out) else (1, m).

Definition palloc_first (nzones : Z) v : option Z :=
  search ← heap_foreach_object nzones v pmalloc_search_cb MEMORY_BLOCK_NONE MEMORY_BLOCK_NONE;
  Some (if MEMORY_BLOCK_IS_NONE search then 0 else HEAP_PTR_TO_OFF heap (block_get_user_data heap v search)).

Definition palloc_next (nzones : Z) v (off : Z) : option Z :=
  let m := memblock_from_offset heap v off in
  search ← heap_foreach_object nzones v pmalloc_search_cb m m;
  Some (if MEMORY_BLOCK_IS_NONE search || MEMORY_BLOCK_EQUALS search m then 0 else HEAP_PTR_TO_OFF heap (block_get_user_data heap v search)).

(** ** What is visited *)

(** Calls until one does not return 0; whether there was such a call. *)
Fixpoint visit {A} (cb : memory_block -> A -> Z * A) (ms : list memory_block) (arg : A) : bool * A :=
  match ms with
  | [] => (false, arg)
  | m :: ms => let '(r, arg) := cb m arg in if negb (r =? 0) then (true, arg) else visit cb ms arg
  end.

Lemma visit_join {A} (cb : memory_block -> A -> Z * A) ms1 ms2 arg :
  visit cb (ms1 ++ ms2) arg = if (visit cb ms1 arg).1 then visit cb ms1 arg else visit cb ms2 (visit cb ms1 arg).2.
Proof. revert arg. induction ms1 as [|m ms1 IH]; intros arg; [done|]. cbn. destruct (cb m arg) as [r arg']. by destruct (negb (r =? 0)). Qed.

(** The objects of a zone without runs: its used blocks. *)
Definition object v (id i n : Z) : memory_block :=
  MBlock i id n 0 MEMORY_BLOCK_HUGE (heap_addr heap) (memblock_header_type heap v (set_location i id MEMORY_BLOCK_NONE)) MEMORY_BLOCK_HUGE.
Definition used (b : ablock) : bool := match b_kind b with InUse | Lost => true | _ => false end.
Fixpoint objects v (id i : Z) l : list memory_block :=
  match l with
  | [] => []
  | b :: l => (if used b then [object v id i (b_size b)] else []) ++ objects v id (i + b_size b) l
  end.

Definition no_runs l : Prop := Forall (fun b => b_kind b <> Run) l.

Lemma rebuild_object v m id i t n : zone_id m = id -> chunk_id m = i -> block_off m = 0 -> hd heap v id i = (t, n) -> t = CHUNK_TYPE_FREE \/ t = CHUNK_TYPE_USED ->
  exists m', memblock_rebuild_state heap v m = Some m' /\ set_extent (block_off m') n m' = object v id i n /\ mb_type m' = MEMORY_BLOCK_HUGE.
Proof.
  intros <- <- Hoff E Ht. unfold hd in E. injection E as E _. unfold memblock_rebuild_state, memblock_detect_type.
  change (heap_get_chunk_hdr heap m) with (chunk_hdr (zn heap (zone_id m)) (chunk_id m)). rewrite E.
  destruct Ht as [-> | ->]; cbn; (eexists; split; [reflexivity|]; split; [|done]); destruct m; cbn in *; by subst.
Qed.

Lemma foreach_chunks_spec {A} (cb : memory_block -> A -> Z * A) v id l2 : forall l1 n arg m, zone_ok heap v id (l1 ++ l2) -> no_runs l2 -> (length l2 <= n)%nat ->
  zone_id m = id -> chunk_id m = chunks l1 -> block_off m = 0 ->
  exists m', let r := visit cb (objects v id (chunks l1) l2) arg in foreach_chunks n v cb arg m = Some (if r.1 then 1 else 0, m', r.2) /\ zone_id m' = id /\ (r.1 = false -> block_off m' = 0).
Proof.
  induction l2 as [|x l2 IH]; intros l1 n arg m Hz Hnr Hn Hid Hc Hoff; pose proof Hz as [_ Z2 Z3 Z4].
  - rewrite app_nil_r in *. exists m. split; [|by split]. destruct n; cbn [foreach_chunks]; change (ZID_TO_ZONE (layout heap) (zone_id m)) with (zn heap (zone_id m)); by rewrite Hid, Hc, Z3, Z.ltb_irrefl.
  - destruct n as [|n]; [cbn in Hn; lia|]. apply Forall_cons in Hnr as [Hx Hnr]. pose proof Z4 as (T1 & Hbx & T2)%tiles_mid. pose proof (blk_header _ _ _ Hbx) as [Hsz Hty]. pose proof Hbx as [Hpos _].
    pose proof (tiles_nonneg _ _ _ T1) as N1. pose proof (tiles_nonneg _ _ _ T2) as N2. rewrite chunks_app, chunks_cons in Z2, Z3. assert (MAX_CHUNK = 65528) as Hmax by done.
    cbn [foreach_chunks]. change (ZID_TO_ZONE (layout heap) (zone_id m)) with (zn heap (zone_id m)). rewrite Hid, Hc, Z3, (proj2 (Z.ltb_lt _ _)) by lia. cbn [negb].
    change (hdr_size_idx v (heap_get_chunk_hdr heap m)) with (hd heap v (zone_id m) (chunk_id m)).2. rewrite Hid, Hc, Hsz.
    destruct (hd heap v id (chunks l1)) as [t k] eqn:Eh. cbn [fst snd] in *. subst k.
    assert (t = (if used x then CHUNK_TYPE_USED else CHUNK_TYPE_FREE)) as Et.
    { unfold used. destruct Hbx as [_ Hbx]. destruct (b_kind x); [apply Hty; done..| | |done]; [destruct Hbx as [Hbx _]|]; congruence. }
    destruct (rebuild_object v m id (chunks l1) t (b_size x) Hid Hc Hoff Eh ltac:(destruct (used x); auto)) as (m' & Em & Eo & Ety). rewrite Em. cbn [mbind option_bind]. rewrite Eo.
    change (mb_type (object v id (chunks l1) (b_size x)) =? MEMORY_BLOCK_RUN) with false. cbn iota. unfold huge_iterate_used.
    change (hdr_type v (heap_get_chunk_hdr heap (object v id (chunks l1) (b_size x)))) with (hd heap v id (chunks l1)).1. rewrite Eh. cbn [fst]. cbn [objects]. rewrite visit_join.
    set (next := set_extent 0 _ (set_location _ _ _)). assert (chunks (l1 ++ [x]) = chunks l1 + b_size x) as Hch by (rewrite chunks_app, chunks_cons; unfold chunks at 2; cbn; lia).
    assert (forall arg', exists m'', let r := visit cb (objects v id (chunks l1 + b_size x) l2) arg' in foreach_chunks n v cb arg' next = Some (if r.1 then 1 else 0, m'', r.2) /\ zone_id m'' = id /\ (r.1 = false -> block_off m'' = 0)) as Hnext.
    { intros arg'. destruct (IH (l1 ++ [x]) n arg' next) as (m'' & H); [by rewrite <- app_assoc|done|cbn in Hn; lia|done|cbn; rewrite u32_small by lia; lia|done|]. exists m''. by rewrite Hch in H. }
    rewrite Et. destruct (used x).
    + change (CHUNK_TYPE_USED =? CHUNK_TYPE_USED) with true. cbn [visit]. destruct (cb (object v id (chunks l1) (b_size x)) arg) as [r arg'] eqn:Ecb. cbn [mbind option_bind]. destruct (negb (r =? 0)); [by eexists|]. apply Hnext.
    + change (CHUNK_TYPE_FREE =? CHUNK_TYPE_USED) with false. cbn [mbind option_bind visit fst snd negb]. apply Hnext.
Qed.

(** Zones that were never used have no objects. *)
Definition zone_objects v (Zs : Z -> list ablock) (id : Z) : list memory_block := if zone_magic v (zn heap id) =? 0 then [] else objects v id 0 (Zs id).
Definition iterable v (Zs : Z -> list ablock) (id : Z) : Prop := zone_magic v (zn heap id) <> 0 -> zone_ok heap v id (Zs id) /\ no_runs (Zs id) /\ (length (Zs id) <= fuel)%nat.

Lemma foreach_zones_spec {A} (cb : memory_block -> A -> Z * A) v Zs n : forall id arg m, (forall i, id <= i < id + Z.of_nat n -> iterable v Zs i) -> zone_id m = id -> chunk_id m = 0 -> block_off m = 0 ->
  foreach_zones n v cb arg m = Some (visit cb (mjoin (zone_objects v Zs <$> seqZ id (Z.of_nat n))) arg).2.
Proof.
  induction n as [|n IH]; intros id arg m Hz Hid Hc Hoff; [done|]. rewrite seqZ_cons by lia. cbn [fmap list_fmap mjoin list_join]. rewrite visit_join. replace (Z.pred (Z.of_nat (S n))) with (Z.of_nat n) by lia.
  assert (forall m' arg', zone_id m' = id -> block_off m' = 0 -> foreach_zones n v cb arg' (set_location 0 (zone_id m' + 1) m') = Some (visit cb (mjoin (zone_objects v Zs <$> seqZ (Z.succ id) (Z.of_nat n))) arg').2) as Hnext.
  { intros m' arg' Hid' Hoff'. apply IH; [intros i Hi; apply Hz; lia|cbn; lia|done|done]. }
  cbn [foreach_zones]. assert (zone_objects v Zs id = if zone_magic v (zn heap id) =? 0 then [] else objects v id 0 (Zs id)) as -> by done. unfold heap_zone_foreach_object. change (ZID_TO_ZONE (layout heap) (zone_id m)) with (zn heap (zone_id m)). rewrite Hid.
  destruct (Z.eqb_spec (zone_magic v (zn heap id)) 0) as [E|E].
  - cbn [mbind option_bind visit fst snd negb Z.eqb]. by apply Hnext.
  - destruct (Hz id ltac:(lia) E) as (Hzone & Hnr & Hf). destruct (foreach_chunks_spec cb v id (Zs id) [] fuel arg m Hzone Hnr Hf Hid Hc Hoff) as (m' & Er & Hid' & Hoff'). change (chunks []) with 0 in *. rewrite Er. cbn [mbind option_bind].
    destruct (visit cb (objects v id 0 (Zs id)) arg).1 eqn:Ev; [done|]. cbn [negb Z.eqb]. by apply Hnext, Hoff'.
Qed.

(** C21. Iteration visits the objects.  On a heap whose zones are tiled into free
    and used blocks, or were never used, heap_foreach_object terminates and calls
    its function for every used block, each once and in the order of their
    addresses, and stops after the first call that does not return 0. *)
Theorem heap_foreach_object_exact {A} (cb : memory_block -> A -> Z * A) v Zs nz arg : (forall id, 0 <= id < nz -> iterable v Zs id) ->
  heap_foreach_object nz v cb arg MEMORY_BLOCK_NONE = Some (visit cb (mjoin (zone_objects v Zs <$> seqZ 0 nz)) arg).2.
Proof.
  intros Hz. unfold heap_foreach_object. cbn [zone_id MEMORY_BLOCK_NONE]. rewrite Z.sub_0_r. rewrite (foreach_zones_spec cb v Zs (Z.to_nat nz) 0) by (done || (intros i Hi; apply Hz; lia)).
  destruct (decide (0 <= nz)); [by rewrite Z2Nat.id by lia|]. replace (Z.to_nat nz) with 0%nat by lia. replace (seqZ 0 nz) with (@nil Z); [done|]. unfold seqZ. by replace (Z.to_nat nz) with 0%nat by lia.
Qed.
End Iter.

(** The objects of the instance, counted. *)
Definition exi_mem : mem :=
  let z := zn exc_heap 0 in
  let v := exc_free 4 4 (write_bytes (fun _ => Byte.x00) z (enc_le 4 ZONE_HEADER_MAGIC ++ enc_le 4 12)) in
  write_bytes (write_bytes v (chunk_hdr z 0) (hdr_bytes CHUNK_TYPE_USED 0 4)) (chunk_hdr z 8) (hdr_bytes CHUNK_TYPE_USED 0 4).

Lemma heap_foreach_object_exact_witness : heap_foreach_object exc_heap 5 2 exi_mem (fun m n => (0, n + size_idx m)) 0 MEMORY_BLOCK_NONE = Some 8.
Proof.
  rewrite (heap_foreach_object_exact exc_heap 5 _ exi_mem (fun _ => [Blk Lost 4; Blk Reserved 4; Blk Lost 4]) 2 0); [by vm_compute|].
  intros id Hid Hm. assert (id = 0 \/ id = 1) as [->| ->] by lia; [|exfalso; apply Hm; by vm_compute]. split; [|split; [by repeat constructor|cbn; lia]].
  constructor; [done|by vm_compute|by vm_compute|]. cbn [tiles b_size]. repeat split; by vm_compute.
Defined.
