(* ===== verification/ObjList.v ===== *)
(** * Persistent lists (libpmemobj/list.h, list.c)

    Circular doubly linked lists in a pool: a head with the identifier of the
    first element and a lock, and in every element, at an offset of the caller's
    choice, an entry with the identifiers of its neighbours.  The functions
    collect the changes of the links in the redo log of a lane (Memops) and
    process them together, under the locks of the heads (Sync). *)
From stdpp Require Import base numbers list list_numbers gmap.
From Stdlib Require Import ZArith Lia Bool.
From S2P Require Import Prelude Pmem Ulog Memops Container HeapLayout Memblock AllocClass Lane Tx Palloc Sync.

(** ** Layouts *)

(** An identifier is the pool's uuid and an offset; an entry is two of them; a
    head is one and a lock. *)
Definition sizeof_list_entry : Z := 32.
Definition oid_uuid_addr (oidp : Z) : Z := oidp.
Definition oid_off_addr (oidp : Z) : Z := oidp + 8.
Definition pe_next (entry : Z) : Z := entry.
Definition pe_prev (entry : Z) : Z := entry + 16.
Definition pe_first (head : Z) : Z := head.
Definition head_lock (head : Z) : Z := head + 16.
Definition NEXT_OFF : Z := oid_off_addr (pe_next 0).
Definition PREV_OFF : Z := oid_off_addr (pe_prev 0).
Definition POBJ_LIST_DEST_HEAD : bool := true.

Record list_args_common := ArgsCommon { ac_pe_offset : Z; ac_obj_doffset : Z; ac_entry_ptr : Z }.
Record list_args_insert := ArgsInsert { ai_head : Z; ai_dest : PMEMoid; ai_dest_entry_ptr : Z; ai_before : bool }.
Record list_args_remove := ArgsRemove { ar_pe_offset : Z; ar_obj_doffset : Z; ar_head : Z; ar_entry_ptr : Z }.

Definition load_oid (m : mem) (oidp : Z) : PMEMoid := Oid (load64 m (oid_uuid_addr oidp)) (load64 m (oid_off_addr oidp)).

Section List.
Context (p_ops : pmem_ops) (uuid_lo : Z).
(** What the allocator answers to the entries of the operation, in their order. *)
Context (al : nat -> Z * bool).
Let pop : Z := base p_ops.

(** An operation that collects entries: its context, the pool and the memory, and
    the number of entries so far. *)
Abbreviation lst := (operation_context * world * nat)%type.
Definition lmem (st : lst) : mem := vis st.1.2.2.

(** The result of operation_add_entry is not looked at. *)
Definition add_set (ptr value : Z) (st : lst) : lst :=
  let '(ctx, ws, n) := st in
  let '(_, ctx, ws) := operation_add_entry (al n).1 (al n).2 ctx ptr value ULOG_OPERATION_SET ws in
  (ctx, ws, S n).

Definition list_get_dest (m : mem) (head : Z) (dest : PMEMoid) (pe_offset : Z) (before : bool) : PMEMoid :=
  if negb (oid_off dest =? 0) then dest else
  let first := load_oid m (pe_first head) in
  if (oid_off first =? 0) || Bool.eqb before POBJ_LIST_DEST_HEAD then first else
  let first_ptr := OBJ_OFF_TO_PTR pop (u64 (oid_off first + pe_offset)) in
  load_oid m (pe_prev first_ptr).

Definition list_set_oid_redo_log (oidp obj_doffset : Z) (oidp_inited : bool) (st : lst) : lst :=
  let st := if negb oidp_inited || negb (load64 (lmem st) (oid_uuid_addr oidp) =? uuid_lo)
            then add_set (oid_uuid_addr oidp) uuid_lo st else st in
  add_set (oid_off_addr oidp) obj_doffset st.

Definition list_update_head (head first_offset : Z) (st : lst) : lst :=
  let st := add_set (oid_off_addr (pe_first head)) first_offset st in
  if load64 (lmem st) (oid_uuid_addr (pe_first head)) =? 0
  then add_set (oid_uuid_addr (pe_first head)) uuid_lo st else st.

Definition u64_add_offset (value off : Z) : Z :=
  if 0 <=? off then u64 (value + off) else u64 (value - - off).

Definition list_fill_entry_persist (entry_ptr next_offset prev_offset : Z) (s : pmst) : pmst :=
  let s := st_store64 (oid_uuid_addr (pe_next entry_ptr)) uuid_lo s in
  let s := st_store64 (oid_off_addr (pe_next entry_ptr)) next_offset s in
  let s := st_store64 (oid_uuid_addr (pe_prev entry_ptr)) uuid_lo s in
  let s := st_store64 (oid_off_addr (pe_prev entry_ptr)) prev_offset s in
  pmemops_persist p_ops entry_ptr sizeof_list_entry s.

Definition on_lmem (f : pmst -> pmst) (st : lst) : lst :=
  let '(ctx, (pop, s), n) := st in (ctx, (pop, f s), n).

Definition list_fill_entry_redo_log (args : list_args_common) (next_offset prev_offset : Z) (set_uuid : bool) (st : lst) : lst :=
  let st := if set_uuid then
      on_lmem (fun s =>
        let s := st_store64 (oid_uuid_addr (pe_next (ac_entry_ptr args))) uuid_lo s in
        let s := st_store64 (oid_uuid_addr (pe_prev (ac_entry_ptr args))) uuid_lo s in
        pmemops_persist p_ops (ac_entry_ptr args) sizeof_list_entry s) st
    else st in
  let next_off_off := u64_add_offset (u64 (ac_obj_doffset args + NEXT_OFF)) (ac_pe_offset args) in
  let prev_off_off := u64_add_offset (u64 (ac_obj_doffset args + PREV_OFF)) (ac_pe_offset args) in
  let next_ptr := u64 (pop + next_off_off) in
  let prev_ptr := u64 (pop + prev_off_off) in
  add_set prev_ptr prev_offset (add_set next_ptr next_offset st).

Definition list_remove_single (args : list_args_remove) (st : lst) : lst :=
  let entry := ar_entry_ptr args in
  if load64 (lmem st) (oid_off_addr (pe_next entry)) =? ar_obj_doffset args then list_update_head (ar_head args) 0 st else
  let next_off := load64 (lmem st) (oid_off_addr (pe_next entry)) in
  let next_prev_off := u64_add_offset (u64 (next_off + PREV_OFF)) (ar_pe_offset args) in
  let prev_off := load64 (lmem st) (oid_off_addr (pe_prev entry)) in
  let prev_next_off := u64_add_offset (u64 (prev_off + NEXT_OFF)) (ar_pe_offset args) in
  let prev_ptr := u64 (pop + next_prev_off) in
  let next_ptr := u64 (pop + prev_next_off) in
  let st := add_set prev_ptr prev_off st in
  let st := add_set next_ptr next_off st in
  if load64 (lmem st) (oid_off_addr (pe_first (ar_head args))) =? ar_obj_doffset args
  then list_update_head (ar_head args) next_off st else st.

(** The results of the insertions are the offsets of the neighbours. *)
Definition list_insert_before (args : list_args_insert) (args_common : list_args_common) (st : lst) : Z * Z * lst :=
  let dest := oid_off (ai_dest args) in
  let next_offset := dest in
  let prev_offset := load64 (lmem st) (oid_off_addr (pe_prev (ai_dest_entry_ptr args))) in
  let dest_prev_off := u64_add_offset (u64 (dest + PREV_OFF)) (ac_pe_offset args_common) in
  let dest_prev_next_off := u64_add_offset (u64 (load64 (lmem st) (oid_off_addr (pe_prev (ai_dest_entry_ptr args))) + NEXT_OFF)) (ac_pe_offset args_common) in
  let st := add_set (u64 (pop + dest_prev_off)) (ac_obj_doffset args_common) st in
  let st := add_set (u64 (pop + dest_prev_next_off)) (ac_obj_doffset args_common) st in
  (next_offset, prev_offset, st).

Definition list_insert_after (args : list_args_insert) (args_common : list_args_common) (st : lst) : Z * Z * lst :=
  let dest := oid_off (ai_dest args) in
  let next_offset := load64 (lmem st) (oid_off_addr (pe_next (ai_dest_entry_ptr args))) in
  let prev_offset := dest in
  let dest_next_off := u64_add_offset (u64 (dest + NEXT_OFF)) (ac_pe_offset args_common) in
  let dest_next_prev_off := u64_add_offset (u64 (load64 (lmem st) (oid_off_addr (pe_next (ai_dest_entry_ptr args))) + PREV_OFF)) (ac_pe_offset args_common) in
  let st := add_set (u64 (pop + dest_next_off)) (ac_obj_doffset args_common) st in
  let st := add_set (u64 (pop + dest_next_prev_off)) (ac_obj_doffset args_common) st in
  (next_offset, prev_offset, st).

Definition list_insert_user (args : list_args_insert) (args_common : list_args_common) (st : lst) : Z * Z * lst :=
  if oid_off (ai_dest args) =? 0 then
    let next_offset := ac_obj_doffset args_common in
    let prev_offset := ac_obj_doffset args_common in
    (next_offset, prev_offset, list_update_head (ai_head args) (ac_obj_doffset args_common) st)
  else if ai_before args then
    let '(next_offset, prev_offset, st) := list_insert_before args args_common st in
    let st := if oid_off (ai_dest args) =? load64 (lmem st) (oid_off_addr (pe_first (ai_head args)))
              then list_update_head (ai_head args) (ac_obj_doffset args_common) st else st in
    (next_offset, prev_offset, st)
  else list_insert_after args args_common st.

(** ** Insertion, removal, and moving: what is collected *)

Definition insert_entries (pe_offset head : Z) (dest : PMEMoid) (before : bool) (oid : PMEMoid) (st : lst) : lst :=
  let dest := list_get_dest (lmem st) head dest pe_offset before in
  let entry_ptr := OBJ_OFF_TO_PTR pop (u64 (oid_off oid + pe_offset)) in
  let dest_entry_ptr := OBJ_OFF_TO_PTR pop (u64 (oid_off dest + pe_offset)) in
  let args := ArgsInsert head dest dest_entry_ptr before in
  let args_common := ArgsCommon pe_offset (oid_off oid) entry_ptr in
  let '(next_offset, prev_offset, st) := list_insert_user args args_common st in
  list_fill_entry_redo_log args_common next_offset prev_offset true st.

Definition remove_entries (pe_offset head : Z) (oid : PMEMoid) (st : lst) : lst :=
  let entry_ptr := OBJ_OFF_TO_PTR pop (u64 (oid_off oid + pe_offset)) in
  let st := list_remove_single (ArgsRemove pe_offset (oid_off oid) head entry_ptr) st in
  list_fill_entry_redo_log (ArgsCommon pe_offset (oid_off oid) entry_ptr) 0 0 false st.

(** The body of list_move between the locks; the two jumps to the end of the
    function leave what was collected so far. *)
Definition move_entries (pe_offset_old head_old pe_offset_new head_new : Z) (dest : PMEMoid) (before : bool) (oid : PMEMoid) (st : lst) : lst :=
  let dest := list_get_dest (lmem st) head_new dest pe_offset_new before in
  let entry_ptr_old := OBJ_OFF_TO_PTR pop (u64 (oid_off oid + pe_offset_old)) in
  let entry_ptr_new := OBJ_OFF_TO_PTR pop (u64 (oid_off oid + pe_offset_new)) in
  let dest_entry_ptr := OBJ_OFF_TO_PTR pop (u64 (oid_off dest + pe_offset_new)) in
  let same := head_old =? head_new in
  if same && (oid_off dest =? oid_off oid) then st
  else if same && before && (load64 (lmem st) (oid_off_addr (pe_prev dest_entry_ptr)) =? oid_off oid) then
    if negb (load64 (lmem st) (oid_off_addr (pe_first head_old)) =? oid_off dest) then st
    else list_update_head head_old (oid_off oid) st
  else if same && negb before && (load64 (lmem st) (oid_off_addr (pe_next dest_entry_ptr)) =? oid_off oid) then
    if negb (load64 (lmem st) (oid_off_addr (pe_first head_old)) =? oid_off oid) then st
    else list_update_head head_old (load64 (lmem st) (oid_off_addr (pe_next entry_ptr_old))) st
  else
    let st := list_remove_single (ArgsRemove pe_offset_old (oid_off oid) head_old entry_ptr_old) st in
    let args_common := ArgsCommon pe_offset_new (oid_off oid) entry_ptr_new in
    let '(next_offset, prev_offset, st) := list_insert_user (ArgsInsert head_new dest dest_entry_ptr before) args_common st in
    list_fill_entry_redo_log args_common next_offset prev_offset (negb (pe_offset_new =? pe_offset_old)) st.
End List.

(** ** The functions *)

Section Functions.
Context (p_ops : pmem_ops) (uuid_lo run_id : Z) (fuel : nat) (push : nat -> bool) (al : nat -> Z * bool).
(** The mutexes of the operating system, and where they are. *)
Context {M : Type} (os_mutex_init : M -> Z * M) (os_mutex_lock os_mutex_unlock : M -> option (Z * M)).
Implicit Types (ws : world) (mus : gmap Z M) (l : lane).
Let pop : Z := base p_ops.

Definition with_mutex (f : Z -> sync_st M -> option (Z * sync_st M)) (a : Z) ws mus : option (Z * world * gmap Z M) :=
  m ← mus !! a;
  '(ret, (s, m)) ← f a (ws.2, m);
  Some (ret, (ws.1, s), <[a := m]> mus).
Definition mutex_lock (a : Z) ws mus := with_mutex (pmemobj_mutex_lock run_id os_mutex_init os_mutex_lock fuel) a ws mus.
Definition mutex_unlock (a : Z) ws mus := with_mutex (pmemobj_mutex_unlock run_id os_mutex_init os_mutex_unlock fuel) a ws mus.
(** [None]: FATAL. *)
Definition mutex_unlock_nofail (a : Z) ws mus : option (world * gmap Z M) :=
  '(ret, ws, mus) ← mutex_unlock a ws mus;
  if ret =? 0 then Some (ws, mus) else None.

(** [head2] may be NULL. *)
Definition list_mutexes_lock (head1 head2 : Z) ws mus : option (Z * world * gmap Z M) :=
  if (head2 =? 0) || (head1 =? head2) then mutex_lock (head_lock head1) ws mus else
  let '(lock1, lock2) := if head_lock head1 <? head_lock head2 then (head_lock head1, head_lock head2) else (head_lock head2, head_lock head1) in
  '(ret, ws, mus) ← mutex_lock lock1 ws mus;
  if negb (ret =? 0) then Some (ret, ws, mus) else
  '(ret, ws, mus) ← mutex_lock lock2 ws mus;
  if negb (ret =? 0) then
    '(_, ws, mus) ← mutex_unlock lock1 ws mus;
    Some (ret, ws, mus)
  else Some (0, ws, mus).

Definition list_mutexes_unlock (head1 head2 : Z) ws mus : option (world * gmap Z M) :=
  if (head2 =? 0) || (head1 =? head2) then mutex_unlock_nofail (head_lock head1) ws mus else
  '(ws, mus) ← mutex_unlock_nofail (head_lock head1) ws mus;
  mutex_unlock_nofail (head_lock head2) ws mus.

(** The lane that lane_hold gave; [outermost]: the thread did not hold it
    already. *)
Definition hold_lane (outermost : bool) l : lane := if outermost then lane_reinit l else l.
Definition set_external (ctx : operation_context) l : lane := Lane (lane_layout l) (lane_internal l) ctx (lane_undo l).

(** The entries are collected, processed, and the operation is finished. *)
Definition run_entries (collect : operation_context * world * nat -> operation_context * world * nat) (ctx : operation_context) ws
    : option (operation_context * world) :=
  let '(ctx, ws, _) := collect (operation_start ctx, ws, 0%nat) in
  '(ctx, s) ← operation_process fuel ctx ws.2;
  operation_finish fuel push ctx 0 (ws.1, s).

Definition list_insert (outermost : bool) (pe_offset head : Z) (dest : PMEMoid) (before : bool) (oid : PMEMoid) l ws mus
    : option (Z * lane * world * gmap Z M) :=
  let l := hold_lane outermost l in
  '(ret, ws, mus) ← mutex_lock (head_lock head) ws mus;
  if negb (ret =? 0) then Some (-1, l, ws, mus) else
  '(ctx, ws) ← run_entries (insert_entries p_ops uuid_lo al pe_offset head dest before oid) (lane_external l) ws;
  '(ws, mus) ← mutex_unlock_nofail (head_lock head) ws mus;
  Some (0, set_external ctx l, ws, mus).

Definition list_remove (outermost : bool) (pe_offset head : Z) (oid : PMEMoid) l ws mus : option (Z * lane * world * gmap Z M) :=
  let l := hold_lane outermost l in
  '(ret, ws, mus) ← mutex_lock (head_lock head) ws mus;
  if negb (ret =? 0) then Some (-1, l, ws, mus) else
  '(ctx, ws) ← run_entries (remove_entries p_ops uuid_lo al pe_offset head oid) (lane_external l) ws;
  '(ws, mus) ← mutex_unlock_nofail (head_lock head) ws mus;
  Some (0, set_external ctx l, ws, mus).

Definition list_move (outermost : bool) (pe_offset_old head_old pe_offset_new head_new : Z) (dest : PMEMoid) (before : bool) (oid : PMEMoid) l ws mus
    : option (Z * lane * world * gmap Z M) :=
  let l := hold_lane outermost l in
  '(ret, ws, mus) ← list_mutexes_lock head_new head_old ws mus;
  if negb (ret =? 0) then Some (-1, l, ws, mus) else
  '(ctx, ws) ← run_entries (move_entries p_ops uuid_lo al pe_offset_old head_old pe_offset_new head_new dest before oid) (lane_external l) ws;
  '(ws, mus) ← list_mutexes_unlock head_new head_old ws mus;
  Some (0, set_external ctx l, ws, mus).

(** ** With allocation *)

Section Alloc.
Context {R : Type} (hf : heap_fns R) (heap : palloc_heap) (alloc_pattern : Z) (gaps : list byte * list byte * list byte).
Context (qsort : list pobj_action -> list pobj_action) (al2 : nat -> (Z * bool) * (Z * bool)).
Implicit Types (rt : palloc_rt R).

Definition OBJ_PTR_IS_VALID (ptr : Z) ws : bool := OBJ_OFF_IS_VALID ws.1 (OBJ_PTR_TO_OFF pop ptr).

(** The entries for the new object, whose own entry is filled directly; [oidp] is
    NULL, in the pool, or in ordinary memory. *)
Definition insert_new_entries (pe_offset head : Z) (dest : PMEMoid) (before : bool) (obj_doffset oidp : Z) (st : operation_context * world * nat)
    : operation_context * world * nat :=
  let dest := list_get_dest p_ops (lmem st) head dest pe_offset before in
  let entry_ptr := OBJ_OFF_TO_PTR pop (u64 (obj_doffset + pe_offset)) in
  let dest_entry_ptr := OBJ_OFF_TO_PTR pop (u64 (oid_off dest + pe_offset)) in
  let '(next_offset, prev_offset, st) :=
    list_insert_user p_ops uuid_lo al (ArgsInsert head dest dest_entry_ptr before) (ArgsCommon pe_offset obj_doffset entry_ptr) st in
  let st := on_lmem (list_fill_entry_persist p_ops uuid_lo entry_ptr next_offset prev_offset) st in
  if oidp =? 0 then st
  else if OBJ_PTR_IS_VALID oidp st.1.2 then list_set_oid_redo_log uuid_lo al oidp obj_doffset false st
  else on_lmem (fun s => st_store64 (oid_uuid_addr oidp) uuid_lo (st_store64 (oid_off_addr oidp) obj_doffset s)) st.

(** [head] is locked by the caller. *)
Definition list_insert_new (outermost : bool) (pe_offset head : Z) (dest : PMEMoid) (before : bool) (size type_num : Z)
    (constructor : option (Z -> Z -> pmst -> Z * pmst)) (oidp : Z) l ws rt : option (Z * lane * world * palloc_rt R) :=
  let l := hold_lane outermost l in
  '(reserved, _, ws, rt) ← palloc_reservation_create hf heap alloc_pattern gaps size constructor type_num 0 0 0 ws rt;
  match reserved with
  | Some (ActHeap lock obj_doffset st m resv) =>
      let '(ctx, ws, _) := insert_new_entries pe_offset head dest before obj_doffset oidp (operation_start (lane_external l), ws, 0%nat) in
      '(_, ctx, ws, rt) ← palloc_exec_actions hf heap qsort fuel push al2 ctx [ActHeap lock obj_doffset st m resv] ws rt;
      Some (0, set_external ctx l, ws, rt)
  | _ => Some (-1, l, ws, rt)
  end.

Definition list_insert_new_user (outermost : bool) (pe_offset head : Z) (dest : PMEMoid) (before : bool) (size type_num : Z)
    (constructor : option (Z -> Z -> pmst -> Z * pmst)) (oidp : Z) l ws mus rt : option (Z * lane * world * gmap Z M * palloc_rt R) :=
  '(ret, ws, mus) ← mutex_lock (head_lock head) ws mus;
  if negb (ret =? 0) then Some (-1, l, ws, mus, rt) else
  '(ret, l, ws, rt) ← list_insert_new outermost pe_offset head dest before size type_num constructor oidp l ws rt;
  '(ws, mus) ← mutex_unlock_nofail (head_lock head) ws mus;
  Some (ret, l, ws, mus, rt).

Definition remove_free_entries (pe_offset head obj_doffset oidp : Z) (st : operation_context * world * nat) : operation_context * world * nat :=
  let entry_ptr := OBJ_OFF_TO_PTR pop (u64 (obj_doffset + pe_offset)) in
  let st := list_remove_single p_ops uuid_lo al (ArgsRemove pe_offset obj_doffset head entry_ptr) st in
  if OBJ_PTR_IS_VALID oidp st.1.2 then list_set_oid_redo_log uuid_lo al oidp 0 true st
  else on_lmem (st_store64 (oid_off_addr oidp) 0) st.

Definition list_remove_free (outermost : bool) (pe_offset head oidp : Z) l ws rt : option (lane * world * palloc_rt R) :=
  let l := hold_lane outermost l in
  let obj_doffset := load64 (vis ws.2) (oid_off_addr oidp) in
  let deferred := palloc_defer_free_create hf heap obj_doffset ws in
  let '(ctx, ws, _) := remove_free_entries pe_offset head obj_doffset oidp (operation_start (lane_external l), ws, 0%nat) in
  '(_, ctx, ws, rt) ← palloc_exec_actions hf heap qsort fuel push al2 ctx [deferred] ws rt;
  Some (set_external ctx l, ws, rt).

Definition list_remove_free_user (outermost : bool) (pe_offset head oidp : Z) l ws mus rt : option (Z * lane * world * gmap Z M * palloc_rt R) :=
  '(ret, ws, mus) ← mutex_lock (head_lock head) ws mus;
  if negb (ret =? 0) then Some (-1, l, ws, mus, rt) else
  '(l, ws, rt) ← list_remove_free outermost pe_offset head oidp l ws rt;
  '(ws, mus) ← mutex_unlock_nofail (head_lock head) ws mus;
  Some (0, l, ws, mus, rt).
End Alloc.
End Functions.
