(* ===== verification/ObjListSpec.v ===== *)
(** * What the persistent lists promise

    A list in memory against the list of its elements: list_insert, list_remove
    and list_move do to the links what inserting, deleting and moving an element
    do to a list, and a power failure up to the store that clears the redo log, or
    after the return, leaves the list as it was or as it will be.  The links are named by cells: the words of entries and heads;
    the redo log of an operation is a sequence of assignments to cells. *)
From stdpp Require Import base numbers list list_numbers gmap.
From Stdlib Require Import ZArith Lia Bool.
From S2P Require Import Prelude Pmem Settled Checksum Ulog UlogFacts UlogRedo UlogCrash Vecq Memops MemopsLog MemopsProcess MemopsRun.
From S2P Require Import Ravl Container HeapLayout Memblock AllocClass Lane Tx Palloc Sync ObjList.

(** ** Cells *)

(** The words of the entry at an offset of the pool, and of the head at an
    address. *)
Inductive cell :=
  | CNext (e : Z) | CPrev (e : Z) | CNextUuid (e : Z) | CPrevUuid (e : Z)
  | CFirst (h : Z) | CFirstUuid (h : Z).

#[global] Instance cell_eq : EqDecision cell.
Proof. solve_decision. Defined.

Definition store_of := cell -> Z.
Definition assign (s : store_of) (a : cell * Z) : store_of := fun c => if decide (c = a.1) then a.2 else s c.
Definition assigns (s : store_of) (l : list (cell * Z)) : store_of := foldl assign s l.

Lemma assigns_app s l1 l2 : assigns s (l1 ++ l2) = assigns (assigns s l1) l2.
Proof. apply foldl_app. Qed.

Lemma assigns_other s l c : Forall (fun a => a.1 <> c) l -> assigns s l c = s c.
Proof.
  intros H. revert s. induction H as [|a l Ha _ IH]; intros s; [done|]. cbn. unfold assigns in IH. rewrite IH. unfold assign. by rewrite decide_False by congruence.
Qed.

(** ** Circular lists of cells *)

Section Links.
Context (s : store_of) (pe : Z).
Implicit Types (x y z : Z) (l : list Z).

(** From [x] through [l] to [z]. *)
Fixpoint links x l z : Prop :=
  match l with
  | [] => s (CNext (x + pe)) = z /\ s (CPrev (z + pe)) = x
  | y :: l => s (CNext (x + pe)) = y /\ s (CPrev (y + pe)) = x /\ links y l z
  end.

Definition circular l : Prop := match l with [] => True | x :: l => links x l x end.

Lemma links_app x l1 y l2 z : links x (l1 ++ y :: l2) z <-> links x l1 y /\ links y l2 z.
Proof. revert x. induction l1 as [|w l1 IH]; intros x; cbn; [tauto|]. rewrite IH. tauto. Qed.

Lemma circular_rotate l1 l2 : circular (l1 ++ l2) <-> circular (l2 ++ l1).
Proof.
  destruct l1 as [|x l1]; [by rewrite app_nil_r|]. destruct l2 as [|y l2]; [by rewrite app_nil_r|]. cbn. rewrite !links_app. tauto.
Qed.

(** The neighbours of the first element. *)
Lemma circular_ends x l : circular (x :: l) -> s (CNext (x + pe)) = hd x l /\ s (CPrev (x + pe)) = default x (last l).
Proof.
  intros H. split.
  - destruct l as [|y l]; cbn in *; tauto.
  - destruct l as [|y l _] using rev_ind; [cbn in *; tauto|]. rewrite last_snoc. cbn [default]. unfold circular in H. apply links_app in H as [_ H]. cbn in H. tauto.
Qed.
End Links.

(** The neighbours of an element are elements. *)
Lemma neighbours s pe xs o : circular s pe xs -> o ∈ xs -> s (CNext (o + pe)) ∈ xs /\ s (CPrev (o + pe)) ∈ xs.
Proof.
  intros Hc Ho. apply list_elem_of_split in Ho as (l1 & l2 & ->). assert (circular s pe (o :: l2 ++ l1)) as Hr by (apply (circular_rotate s pe (o :: l2)), Hc).
  assert (o :: l2 ++ l1 ≡ₚ l1 ++ o :: l2) as Hperm by (by rewrite <- Permutation_middle, Permutation_app_comm). rewrite <- Hperm.
  destruct (circular_ends _ _ _ _ Hr) as [-> ->]. split; [destruct (l2 ++ l1); cbn; set_solver|]. destruct (last (l2 ++ l1)) as [p|] eqn:El; [|by left]. right. by apply last_Some_elem_of.
Qed.

(** The links depend on the cells of the elements. *)
Lemma links_ext s s' pe x l z :
  (forall y, y ∈ x :: l -> s' (CNext (y + pe)) = s (CNext (y + pe))) ->
  (forall y, y ∈ l ++ [z] -> s' (CPrev (y + pe)) = s (CPrev (y + pe))) -> links s pe x l z -> links s' pe x l z.
Proof.
  revert x. induction l as [|y l IH]; intros x HN HP; cbn.
  - intros [H1 H2]. rewrite HN, HP by set_solver. done.
  - intros (H1 & H2 & H3). rewrite HN, HP by set_solver. split; [done|]. split; [done|]. apply IH; [|set_solver|done]. intros w Hw. apply HN. by right.
Qed.

(** A new element [o] at the end of the cycle that starts with [d]. *)
Lemma circular_insert s s' pe d r o :
  let p := default d (last r) in
  NoDup (d :: r) -> circular s pe (d :: r) ->
  s' (CNext (p + pe)) = o -> s' (CPrev (d + pe)) = o -> s' (CNext (o + pe)) = d -> s' (CPrev (o + pe)) = p ->
  (forall x, x ∈ d :: r -> x <> p -> s' (CNext (x + pe)) = s (CNext (x + pe))) ->
  (forall x, x ∈ d :: r -> x <> d -> s' (CPrev (x + pe)) = s (CPrev (x + pe))) ->
  circular s' pe (d :: r ++ [o]).
Proof.
  intros p Hnd Hc H1 H2 H3 H4 HN HP. cbn. apply links_app. split; [|by split]. subst p.
  destruct r as [|p r _] using rev_ind; [by cbn in *|]. rewrite last_snoc in *. cbn [default] in *. cbn in Hc. apply links_app in Hc as [Hc _].
  apply links_app. split; [|by split]. apply NoDup_cons in Hnd as [Hd Hnd]. apply NoDup_app in Hnd as (_ & Hp & _).
  apply (links_ext s); [| |done].
  - intros y Hy. apply HN; [set_solver|]. intros E. rewrite E in Hy. apply elem_of_cons in Hy as [E'|Hy]; [rewrite E' in *; set_solver|]. by apply (Hp p Hy), list_elem_of_singleton.
  - intros y Hy. apply HP; [set_solver|]. intros E. rewrite E in Hy. set_solver.
Qed.

(** Without its first element [o]. *)
Lemma circular_remove s s' pe o r n p :
  NoDup (o :: r) -> circular s pe (o :: r) -> hd_error r = Some n -> last r = Some p ->
  s' (CPrev (n + pe)) = p -> s' (CNext (p + pe)) = n ->
  (forall x, x ∈ r -> x <> p -> s' (CNext (x + pe)) = s (CNext (x + pe))) ->
  (forall x, x ∈ r -> x <> n -> s' (CPrev (x + pe)) = s (CPrev (x + pe))) ->
  circular s' pe r.
Proof.
  intros Hnd Hc Hn Hp H1 H2 HN HP. destruct r as [|n' r]; [done|]. cbn in Hn. injection Hn as ->. apply NoDup_cons in Hnd as [_ Hnd]. cbn in Hc. destruct Hc as (_ & _ & Hc). cbn.
  destruct r as [|p' r _] using rev_ind; [cbn in Hp; injection Hp as <-; by split|]. rewrite app_comm_cons, last_snoc in Hp. injection Hp as ->. apply links_app in Hc as [Hc _].
  apply links_app. split; [|by split]. apply NoDup_cons in Hnd as [Hni Hnd]. apply NoDup_app in Hnd as (_ & Hp & _). apply (links_ext s); [| |done].
  - intros y Hy. apply HN; [set_solver|]. intros E. rewrite E in Hy. apply elem_of_cons in Hy as [E'|Hy]; [rewrite E' in *; set_solver|]. by apply (Hp p Hy), list_elem_of_singleton.
  - intros y Hy. apply HP; [set_solver|]. intros E. rewrite E in Hy. set_solver.
Qed.

(** ** Lists of elements *)

Fixpoint insert_before (d o : Z) (xs : list Z) : list Z :=
  match xs with [] => [] | x :: l => if x =? d then o :: x :: l else x :: insert_before d o l end.
Fixpoint insert_after (d o : Z) (xs : list Z) : list Z :=
  match xs with [] => [] | x :: l => if x =? d then x :: o :: l else x :: insert_after d o l end.

(** The element an operation refers to: 0 means the first or the last. *)
Definition dest_of (xs : list Z) (dest : Z) (before : bool) : Z :=
  if negb (dest =? 0) then dest else if before then hd 0 xs else default 0 (last xs).

Definition place (d : Z) (before : bool) (o : Z) (xs : list Z) : list Z :=
  if d =? 0 then [o] else if before then insert_before d o xs else insert_after d o xs.
Definition inserted (dest : Z) (before : bool) (o : Z) (xs : list Z) : list Z := place (dest_of xs dest before) before o xs.
Definition removed (o : Z) (xs : list Z) : list Z := filter (.≠ o) xs.
Definition moved (dest : Z) (before : bool) (o : Z) (xs : list Z) : list Z :=
  let d := dest_of xs dest before in
  if d =? o then xs else place d before o (removed o xs).

Lemma insert_before_split d o l1 l2 : d ∉ l1 -> insert_before d o (l1 ++ d :: l2) = l1 ++ o :: d :: l2.
Proof.
  induction l1 as [|x l1 IH]; intros Hd; cbn; [by rewrite Z.eqb_refl|]. destruct (Z.eqb_spec x d) as [->|Hne]; [set_solver|]. rewrite IH by set_solver. done.
Qed.
Lemma insert_after_split d o l1 l2 : d ∉ l1 -> insert_after d o (l1 ++ d :: l2) = l1 ++ d :: o :: l2.
Proof.
  induction l1 as [|x l1 IH]; intros Hd; cbn; [by rewrite Z.eqb_refl|]. destruct (Z.eqb_spec x d) as [->|Hne]; [set_solver|]. rewrite IH by set_solver. done.
Qed.
Lemma removed_none o xs : o ∉ xs -> removed o xs = xs.
Proof.
  unfold removed. induction xs as [|x l IH]; intros Ho; [done|]. apply not_elem_of_cons in Ho as [H1 H2]. rewrite filter_cons_True by congruence. by rewrite IH.
Qed.
Lemma removed_split o l1 l2 : o ∉ l1 -> o ∉ l2 -> removed o (l1 ++ o :: l2) = l1 ++ l2.
Proof. intros H1 H2. unfold removed. rewrite filter_app, filter_cons_False by tauto. f_equal; by apply removed_none. Qed.

Lemma nodup_split {A} (xs : list A) d : NoDup xs -> d ∈ xs -> exists l1 l2, xs = l1 ++ d :: l2 /\ (d ∉ l1) /\ (d ∉ l2).
Proof.
  intros Hn Hd. apply list_elem_of_split in Hd as (l1 & l2 & ->). exists l1, l2. apply NoDup_app in Hn as (_ & H1 & H2). apply NoDup_cons in H2 as [H2 _].
  split; [done|]. split; [|done]. intros H. by apply (H1 d H); left.
Qed.

Lemma dest_of_elem (xs : list Z) (dest : Z) (before : bool) : dest = 0 \/ dest ∈ xs -> xs <> [] -> dest_of xs dest before ∈ xs.
Proof.
  intros Hd Hne. unfold dest_of. destruct (Z.eqb_spec dest 0) as [->|Hn]; cbn [negb]; [|by destruct Hd].
  destruct before; [destruct xs as [|x l]; [done|left]|]. destruct xs as [|x l _] using rev_ind; [done|]. rewrite last_snoc. set_solver.
Qed.

Lemma dest_place (xs : list Z) (d : PMEMoid) (before : bool) : oid_off d = 0 \/ oid_off d ∈ xs -> dest_of xs (oid_off d) before ∈ xs \/ dest_of xs (oid_off d) before = 0 /\ xs = [].
Proof.
  intros Hd. destruct xs as [|x l] eqn:Ex; [right|left; by apply dest_of_elem]. split; [|done]. unfold dest_of. destruct Hd as [->|Hd]; [by destruct before|by apply elem_of_nil in Hd].
Qed.

(** ** A list in the cells *)

Section Cells.
Context (uuid_lo : Z).
Hypothesis (Huuid : uuid_lo <> 0).
Implicit Types (s : store_of) (head pe o d : Z) (xs : list Z).

Record list_at s head pe xs : Prop := ListAt {
  la_first : s (CFirst head) = hd 0 xs;
  la_uuid : s (CFirstUuid head) = uuid_lo \/ xs = [] /\ s (CFirstUuid head) = 0;
  la_links : circular s pe xs;
  la_nodup : NoDup xs;
  la_nonnull : 0 ∉ xs;
  la_entries x : x ∈ xs -> s (CNextUuid (x + pe)) = uuid_lo /\ s (CPrevUuid (x + pe)) = uuid_lo
}.

(** What the functions assign, in their order. *)
Definition head_assigns s head (v : Z) : list (cell * Z) :=
  (CFirst head, v) :: (if s (CFirstUuid head) =? 0 then [(CFirstUuid head, uuid_lo)] else []).

Definition insert_assigns s head pe d (before : bool) o : Z * Z * list (cell * Z) :=
  if d =? 0 then (o, o, head_assigns s head o)
  else if before then
    let p := s (CPrev (d + pe)) in
    (d, p, [(CPrev (d + pe), o); (CNext (p + pe), o)] ++ (if d =? s (CFirst head) then head_assigns s head o else []))
  else
    let n := s (CNext (d + pe)) in
    (n, d, [(CNext (d + pe), o); (CPrev (n + pe), o)]).

Definition fill_assigns pe o (next prev : Z) : list (cell * Z) := [(CNext (o + pe), next); (CPrev (o + pe), prev)].

Definition place_assigns s head pe d before o : list (cell * Z) :=
  let '(next, prev, l) := insert_assigns s head pe d before o in l ++ fill_assigns pe o next prev.

Definition remove_assigns s head pe o : list (cell * Z) :=
  let n := s (CNext (o + pe)) in
  let p := s (CPrev (o + pe)) in
  if n =? o then head_assigns s head 0
  else [(CPrev (n + pe), p); (CNext (p + pe), n)] ++ (if s (CFirst head) =? o then head_assigns s head n else []).

Definition get_dest s head pe (dest : Z) (before : bool) : Z :=
  if negb (dest =? 0) then dest else
  let first := s (CFirst head) in
  if (first =? 0) || before then first else s (CPrev (first + pe)).

Lemma get_dest_of s head pe xs dest before : list_at s head pe xs -> get_dest s head pe dest before = dest_of xs dest before.
Proof.
  intros H. unfold get_dest, dest_of. destruct (dest =? 0); [|done]. cbn [negb]. rewrite (la_first _ _ _ _ H). destruct xs as [|x l]; [by destruct before|].
  cbn [hd]. destruct (Z.eqb_spec x 0) as [->|Hx]; [by destruct (la_nonnull _ _ _ _ H); left|]. cbn [orb]. destruct before; [done|].
  destruct (circular_ends _ _ _ _ (la_links _ _ _ _ H)) as [_ ->]. rewrite last_cons. destruct (last l); done.
Qed.

(** ** Inserting *)

Definition head_only head (l : list (cell * Z)) : Prop := Forall (fun a => a.1 = CFirst head \/ a.1 = CFirstUuid head) l.

Lemma head_only_assigns s head v : head_only head (head_assigns s head v).
Proof. unfold head_assigns. constructor; [by left|]. destruct (_ =? 0); constructor; [by right|constructor]. Qed.

(** The cells of the head. *)
Lemma head_assigns_value s s1 head v : s1 (CFirstUuid head) = s (CFirstUuid head) -> s (CFirstUuid head) = uuid_lo \/ s (CFirstUuid head) = 0 ->
  assigns s1 (head_assigns s head v) (CFirst head) = v /\ assigns s1 (head_assigns s head v) (CFirstUuid head) = uuid_lo.
Proof.
  intros E H. unfold head_assigns. destruct (Z.eqb_spec (s (CFirstUuid head)) 0) as [H0|H0]; cbn; unfold assign; cbn [fst snd].
  - split; repeat (case_decide; try congruence).
  - split; repeat (case_decide; try congruence). destruct H; congruence.
Qed.

Lemma head_only_other s head hl c : head_only head hl -> c <> CFirst head -> c <> CFirstUuid head -> assigns s hl c = s c.
Proof. intros H H1 H2. apply assigns_other. eapply Forall_impl; [exact H|]. cbn. intros a Ha E. destruct Ha; congruence. Qed.

Definition not_link (c : cell) : Prop := match c with CNext _ | CPrev _ => False | _ => True end.
Definition link_only (l : list (cell * Z)) : Prop := Forall (fun a => ~ not_link a.1) l.

Lemma link_only_other s l c : link_only l -> not_link c -> assigns s l c = s c.
Proof. intros H Hc. apply assigns_other. eapply Forall_impl; [exact H|]. cbn. intros a Ha E. rewrite E in Ha. done. Qed.

Lemma assigns_on (P : cell -> Prop) s s' l c : (forall c, P c -> s c = s' c) -> P c -> assigns s l c = assigns s' l c.
Proof.
  revert s s'. induction l as [|a l IH]; intros s s' E Hc; [by apply E|]. cbn. apply IH; [|done]. intros c' Hc'. unfold assign. case_decide; [done|by apply E].
Qed.

(** Links before, the head in the middle, links behind. *)
Lemma sandwich_link s head l1 hl l2 c : head_only head hl -> ~ not_link c -> assigns s (l1 ++ hl ++ l2) c = assigns (assigns s l1) l2 c.
Proof.
  intros Hh Hc. rewrite !assigns_app. apply (assigns_on (fun c => ~ not_link c)); [|done].
  intros c' Hc'. apply (head_only_other _ head); [done| |]; intros ->; by apply Hc'.
Qed.

Lemma sandwich_head s l1 hl l2 c : link_only l1 -> link_only l2 -> not_link c -> assigns s (l1 ++ hl ++ l2) c = assigns s hl c.
Proof.
  intros H1 H2 Hc. rewrite !assigns_app, (link_only_other _ l2) by done. apply (assigns_on not_link); [|done]. intros c' Hc'. by apply link_only_other.
Qed.

Lemma two_links x y o z n p s w :
  let s' := assigns (assigns s [(CPrev x, o); (CNext y, o)]) [(CNext z, n); (CPrev z, p)] in
  s' (CNext w) = (if decide (w = z) then n else if decide (w = y) then o else s (CNext w)) /\
  s' (CPrev w) = (if decide (w = z) then p else if decide (w = x) then o else s (CPrev w)).
Proof. cbn. unfold assign; cbn [fst snd]. split; repeat (case_decide; simplify_eq); done. Qed.

Lemma two_links' x y o z n p s w :
  let s' := assigns (assigns s [(CNext y, o); (CPrev x, o)]) [(CNext z, n); (CPrev z, p)] in
  s' (CNext w) = (if decide (w = z) then n else if decide (w = y) then o else s (CNext w)) /\
  s' (CPrev w) = (if decide (w = z) then p else if decide (w = x) then o else s (CPrev w)).
Proof. cbn. unfold assign; cbn [fst snd]. split; repeat (case_decide; simplify_eq); done. Qed.

(** The cycle that starts with [d] gets [o] at its end. *)
Lemma insert_links s s' pe d r o p : NoDup (d :: r) -> o ∉ d :: r -> circular s pe (d :: r) -> p = s (CPrev (d + pe)) ->
  (forall w, s' (CNext w) = (if decide (w = o + pe) then d else if decide (w = p + pe) then o else s (CNext w)) /\
             s' (CPrev w) = (if decide (w = o + pe) then p else if decide (w = d + pe) then o else s (CPrev w))) ->
  circular s' pe (d :: r ++ [o]).
Proof.
  intros Hnd Ho Hc -> E. destruct (circular_ends _ _ _ _ Hc) as [_ Ep]. set (p := s (CPrev (d + pe))) in *.
  assert (p ∈ d :: r) as Hp by (rewrite Ep; destruct r as [|y r _] using rev_ind; [by left|rewrite last_snoc; set_solver]).
  assert (forall x, x ∈ d :: r -> x <> o) as Hne by (intros x Hx ->; done). rewrite Ep in *.
  apply (circular_insert s); try done.
  - rewrite (proj1 (E _)), decide_False, decide_True; [done|done|]. specialize (Hne _ Hp). lia.
  - rewrite (proj2 (E _)), decide_False, decide_True; [done|done|]. specialize (Hne d ltac:(by left)). lia.
  - by rewrite (proj1 (E _)), decide_True.
  - by rewrite (proj2 (E _)), decide_True.
  - intros x Hx Hxp. rewrite (proj1 (E _)), !decide_False; [done|lia|]. specialize (Hne x Hx). lia.
  - intros x Hx Hxd. rewrite (proj2 (E _)), !decide_False; [done|lia|]. specialize (Hne x Hx). lia.
Qed.

Definition uuid_set s pe o : Prop := s (CNextUuid (o + pe)) = uuid_lo /\ s (CPrevUuid (o + pe)) = uuid_lo.

Lemma list_at_grown s s' head pe xs xs' o : list_at s head pe xs -> o ∉ xs -> o <> 0 -> uuid_set s pe o -> xs' ≡ₚ o :: xs ->
  (forall e, s' (CNextUuid e) = s (CNextUuid e) /\ s' (CPrevUuid e) = s (CPrevUuid e)) ->
  s' (CFirst head) = hd 0 xs' -> s' (CFirstUuid head) = uuid_lo -> circular s' pe xs' -> list_at s' head pe xs'.
Proof.
  intros [_ _ _ H4 H5 H6] Ho Ho0 Hu Hp Hs H1 H2 H3. constructor; try done; [by left| | |].
  - rewrite Hp. by apply NoDup_cons.
  - rewrite Hp. apply not_elem_of_cons. split; [congruence|done].
  - intros x Hx. rewrite (proj1 (Hs _)), (proj2 (Hs _)). rewrite Hp in Hx. apply elem_of_cons in Hx as [->|Hx]; [done|by apply H6].
Qed.

Lemma sandwich_uuid s head l1 hl l2 e : link_only l1 -> head_only head hl -> link_only l2 ->
  assigns s (l1 ++ hl ++ l2) (CNextUuid e) = s (CNextUuid e) /\ assigns s (l1 ++ hl ++ l2) (CPrevUuid e) = s (CPrevUuid e).
Proof. intros H1 H2 H3. rewrite !sandwich_head by done. split; by apply (head_only_other _ head). Qed.

Lemma nonempty_uuid s head pe x l : list_at s head pe (x :: l) -> s (CFirstUuid head) = uuid_lo.
Proof. intros H. by destruct (la_uuid _ _ _ _ H) as [?|[? _]]. Qed.

Lemma place_empty s head pe before o : list_at s head pe [] -> o <> 0 -> uuid_set s pe o ->
  list_at (assigns s (place_assigns s head pe 0 before o)) head pe [o].
Proof.
  intros H Ho Hu. unfold place_assigns, insert_assigns. cbn [Z.eqb]. change (head_assigns s head o ++ fill_assigns pe o o o) with ([] ++ head_assigns s head o ++ fill_assigns pe o o o).
  assert (link_only (fill_assigns pe o o o)) as Hf by (repeat constructor; tauto). assert (link_only []) as Hf0 by constructor. pose proof (head_only_assigns s head o) as Hh.
  assert (s (CFirstUuid head) = uuid_lo \/ s (CFirstUuid head) = 0) as Hu0 by (destruct (la_uuid _ _ _ _ H) as [?|[_ ?]]; auto).
  destruct (head_assigns_value s s head o eq_refl Hu0) as [V1 V2].
  apply (list_at_grown s _ head pe [] [o] o); try done; [set_solver|intros e; by apply (sandwich_uuid s head)| | |].
  - by rewrite sandwich_head.
  - by rewrite sandwich_head.
  - cbn [circular links]. rewrite !(sandwich_link s head) by (done || tauto). cbn. unfold assign. cbn [fst snd]. by repeat (case_decide; try congruence).
Qed.

Lemma place_before s head pe l1 d l2 o : let xs := l1 ++ d :: l2 in
  list_at s head pe xs -> o ∉ xs -> o <> 0 -> d <> 0 -> uuid_set s pe o ->
  list_at (assigns s (place_assigns s head pe d true o)) head pe (l1 ++ o :: d :: l2).
Proof.
  intros xs H Ho Ho0 Hd0 Hu. unfold place_assigns, insert_assigns. destruct (Z.eqb_spec d 0) as [?|_]; [done|].
  set (p := s (CPrev (d + pe))). set (hl := if d =? s (CFirst head) then head_assigns s head o else []). rewrite <- app_assoc. unfold fill_assigns.
  assert (head_only head hl) as Hh by (unfold hl; destruct (_ =? _); [apply head_only_assigns|constructor]).
  set (A := [(CPrev (d + pe), o); (CNext (p + pe), o)]). set (B := [(CNext (o + pe), d); (CPrev (o + pe), p)]).
  assert (link_only A /\ link_only B) as [HA HB] by (by repeat constructor; tauto).
  assert (s (CFirstUuid head) = uuid_lo) as Hu0 by (unfold xs in H; destruct l1; by apply nonempty_uuid in H).
  pose proof (la_nodup _ _ _ _ H) as Hnd.
  assert (assigns s hl (CFirst head) = hd 0 (l1 ++ o :: d :: l2) /\ assigns s hl (CFirstUuid head) = uuid_lo) as [V1 V2].
  { unfold hl. rewrite (la_first _ _ _ _ H). unfold xs. destruct l1 as [|x l1]; cbn [hd app].
    - rewrite Z.eqb_refl. by apply head_assigns_value; auto.
    - destruct (Z.eqb_spec d x) as [->|_]; [exfalso; unfold xs in Hnd; apply NoDup_cons in Hnd as [Hn _]; set_solver|]. cbn. rewrite (la_first _ _ _ _ H). done. }
  apply (list_at_grown s _ head pe xs _ o); try done; [unfold xs; by rewrite Permutation_middle|intros e; by apply (sandwich_uuid s head)|by rewrite sandwich_head|by rewrite sandwich_head|].
  set (s' := assigns s (A ++ hl ++ B)). replace (l1 ++ o :: d :: l2) with ((l1 ++ [o]) ++ (d :: l2)) by (by rewrite <- app_assoc). apply circular_rotate.
  replace ((d :: l2) ++ l1 ++ [o]) with (d :: (l2 ++ l1) ++ [o]) by (by rewrite <- app_assoc).
  assert (d :: l2 ++ l1 ≡ₚ xs) as Hperm by (unfold xs; by rewrite <- Permutation_middle, Permutation_app_comm).
  apply (insert_links s _ pe d (l2 ++ l1) o p); [by rewrite Hperm|by rewrite Hperm| |done|].
  - change (d :: l2 ++ l1) with ((d :: l2) ++ l1). apply circular_rotate. apply H.
  - intros w. unfold s'. rewrite !(sandwich_link s head) by (done || tauto). apply two_links.
Qed.

Lemma place_after s head pe l1 d l2 o : let xs := l1 ++ d :: l2 in
  list_at s head pe xs -> o ∉ xs -> o <> 0 -> d <> 0 -> uuid_set s pe o ->
  list_at (assigns s (place_assigns s head pe d false o)) head pe (l1 ++ d :: o :: l2).
Proof.
  intros xs H Ho Ho0 Hd0 Hu. unfold place_assigns, insert_assigns. destruct (Z.eqb_spec d 0) as [?|_]; [done|]. unfold fill_assigns.
  set (n := s (CNext (d + pe))). set (A := [(CNext (d + pe), o); (CPrev (n + pe), o)]). set (B := [(CNext (o + pe), n); (CPrev (o + pe), d)]).
  change (A ++ B) with (A ++ [] ++ B). assert (head_only head []) as Hh by constructor. assert (link_only A /\ link_only B) as [HA HB] by (by repeat constructor; tauto).
  assert (s (CFirstUuid head) = uuid_lo) as Hu0 by (unfold xs in H; destruct l1; by apply nonempty_uuid in H).
  apply (list_at_grown s _ head pe xs _ o); try done.
  - unfold xs. rewrite <- !Permutation_middle. constructor.
  - rewrite sandwich_head by done. cbn. rewrite (la_first _ _ _ _ H). unfold xs. by destruct l1.
  - (* the cycle from the element behind [d] *)
    assert (circular s pe ((l2 ++ l1) ++ [d])) as Hc.
    { rewrite <- app_assoc. apply circular_rotate. rewrite <- app_assoc. apply H. }
    assert (exists r, (l2 ++ l1) ++ [d] = n :: r) as [r Er].
    { assert (circular s pe (d :: l2 ++ l1)) as Hc2 by (apply (circular_rotate s pe [d]) in Hc; exact Hc).
      destruct (circular_ends _ _ _ _ Hc2) as [En _]. fold n in En. rewrite En. destruct (l2 ++ l1) as [|y r]; cbn; by eexists. }
    assert (n :: r ≡ₚ xs) as Hperm by (rewrite <- Er; unfold xs; by rewrite <- Permutation_cons_append, <- Permutation_middle, (Permutation_app_comm l2)).
    rewrite Er in Hc. assert (d = s (CPrev (n + pe))) as Ep.
    { destruct (circular_ends _ _ _ _ Hc) as [_ ->]. assert (last (n :: r) = Some d) as Hl by (rewrite <- Er; apply last_snoc). rewrite last_cons in Hl. by destruct (last r); simplify_eq/=. }
    assert (circular (assigns s (A ++ [] ++ B)) pe (n :: r ++ [o])) as Hn.
    { apply (insert_links s _ pe n r o d); [by rewrite Hperm; apply H|by rewrite Hperm|done|done|]. intros w. rewrite !(sandwich_link s head) by (done || tauto). apply two_links'. }
    rewrite app_comm_cons, <- Er in Hn. rewrite <- !app_assoc in Hn. cbn [app] in Hn. apply circular_rotate in Hn. rewrite <- app_assoc in Hn. exact Hn.
Qed.

Lemma place_ok s head pe xs d before o : list_at s head pe xs -> o ∉ xs -> o <> 0 -> uuid_set s pe o -> d ∈ xs \/ d = 0 /\ xs = [] ->
  list_at (assigns s (place_assigns s head pe d before o)) head pe (place d before o xs).
Proof.
  intros H Ho Ho0 Hu [Hd|[-> ->]]; [|by apply place_empty]. destruct (nodup_split xs d (la_nodup _ _ _ _ H) Hd) as (l1 & l2 & -> & H1 & H2).
  assert (d <> 0) as Hd0 by (intros ->; by apply (la_nonnull _ _ _ _ H)). unfold place. destruct (Z.eqb_spec d 0) as [?|_]; [done|].
  destruct before; [rewrite insert_before_split by done; by apply place_before|rewrite insert_after_split by done; by apply place_after].
Qed.

(** ** Removing *)

(** The cells a list depends on. *)
Definition list_cell head pe xs (c : cell) : Prop :=
  c = CFirst head \/ c = CFirstUuid head \/ exists x, x ∈ xs /\ (c = CNext (x + pe) \/ c = CPrev (x + pe) \/ c = CNextUuid (x + pe) \/ c = CPrevUuid (x + pe)).

Lemma list_at_ext s s' head pe xs : (forall c, list_cell head pe xs c -> s' c = s c) -> list_at s head pe xs -> list_at s' head pe xs.
Proof.
  intros E [H1 H2 H3 H4 H5 H6].
  assert (forall x, x ∈ xs -> s' (CNext (x + pe)) = s (CNext (x + pe)) /\ s' (CPrev (x + pe)) = s (CPrev (x + pe)) /\
    s' (CNextUuid (x + pe)) = s (CNextUuid (x + pe)) /\ s' (CPrevUuid (x + pe)) = s (CPrevUuid (x + pe))) as Ex.
  { intros x Hx. repeat split; apply E; right; right; exists x; tauto. }
  constructor; try done.
  - rewrite E; [done|by left].
  - rewrite E; [done|by right; left].
  - destruct xs as [|x l]; [done|]. cbn in *. apply (links_ext s); [| |done]; intros y Hy; apply Ex; set_solver.
  - intros x Hx. destruct (Ex x Hx) as (_ & _ & -> & ->). by apply H6.
Qed.

Lemma remove_links x y n p s w :
  let s' := assigns s [(CPrev x, p); (CNext y, n)] in
  s' (CNext w) = (if decide (w = y) then n else s (CNext w)) /\ s' (CPrev w) = (if decide (w = x) then p else s (CPrev w)).
Proof. cbn. unfold assign; cbn [fst snd]. split; repeat (case_decide; simplify_eq); done. Qed.

Lemma remove_last s head pe o : list_at s head pe [o] -> list_at (assigns s (remove_assigns s head pe o)) head pe [].
Proof.
  intros H. unfold remove_assigns. destruct (la_links _ _ _ _ H) as [En _]. rewrite En, Z.eqb_refl.
  destruct (head_assigns_value s s head 0 eq_refl) as [V1 V2]; [left; by apply nonempty_uuid in H|]. constructor; try done; [by left|constructor|set_solver|set_solver].
Qed.

Lemma unlink_ok s head pe xs o : list_at s head pe xs -> o ∈ xs -> list_at (assigns s (remove_assigns s head pe o)) head pe (removed o xs).
Proof.
  intros H Ho. destruct (nodup_split xs o (la_nodup _ _ _ _ H) Ho) as (l1 & l2 & -> & N1 & N2). rewrite removed_split by done.
  destruct (decide (l2 ++ l1 = [])) as [[-> ->]%app_nil|Hr]; [by apply remove_last|].
  assert (circular s pe (o :: l2 ++ l1)) as Hc by (apply (circular_rotate s pe (o :: l2)), H).
  assert (o :: l2 ++ l1 ≡ₚ l1 ++ o :: l2) as Hperm by (by rewrite <- Permutation_middle, Permutation_app_comm).
  assert (NoDup (o :: l2 ++ l1)) as Hnd by (rewrite Hperm; apply H).
  destruct (circular_ends _ _ _ _ Hc) as [En Ep]. unfold remove_assigns. set (n := s (CNext (o + pe))) in *. set (p := s (CPrev (o + pe))) in *.
  assert (hd_error (l2 ++ l1) = Some n /\ last (l2 ++ l1) = Some p) as [Hn Hp].
  { destruct (l2 ++ l1) as [|y r]; [done|]. split; [by rewrite En|]. rewrite Ep. by destruct (last_is_Some (y :: r)) as [_ [z Hz]]; [done|rewrite Hz]. }
  assert (n ∈ l2 ++ l1) as Hnin by (destruct (l2 ++ l1); cbn in Hn; [done|simplify_eq; by left]).
  destruct (Z.eqb_spec n o) as [E|_]; [exfalso; apply NoDup_cons in Hnd as [Hx _]; by rewrite E in Hnin|].
  set (hl := if s (CFirst head) =? o then head_assigns s head n else []). set (A := [(CPrev (n + pe), p); (CNext (p + pe), n)]).
  replace (A ++ hl) with (A ++ hl ++ []) by (by rewrite app_nil_r).
  assert (head_only head hl) as Hh by (unfold hl; destruct (_ =? _); [apply head_only_assigns|constructor]).
  assert (link_only A /\ link_only []) as [HA H0] by (by repeat constructor; tauto). set (s' := assigns s (A ++ hl ++ [])).
  assert (forall w, s' (CNext w) = (if decide (w = p + pe) then n else s (CNext w)) /\ s' (CPrev w) = (if decide (w = n + pe) then p else s (CPrev w))) as El.
  { intros w. unfold s'. rewrite !(sandwich_link s head) by (done || tauto). apply remove_links. }
  assert (s (CFirstUuid head) = uuid_lo) as Hu0 by (destruct l1; by apply nonempty_uuid in H).
  assert (assigns s hl (CFirst head) = hd 0 (l1 ++ l2) /\ assigns s hl (CFirstUuid head) = uuid_lo) as [V1 V2].
  { unfold hl. rewrite (la_first _ _ _ _ H). destruct l1 as [|x l1]; cbn [hd app].
    - rewrite Z.eqb_refl. rewrite app_nil_r in Hn. destruct (head_assigns_value s s head n eq_refl) as [-> ->]; [by left|]. by destruct l2; cbn in Hn; simplify_eq.
    - destruct (Z.eqb_spec x o) as [->|_]; [set_solver|]. cbn. rewrite (la_first _ _ _ _ H). done. }
  constructor; unfold s'; rewrite ?sandwich_head by done; try done.
  - by left.
  - apply circular_rotate. apply (circular_remove s _ pe o (l2 ++ l1) n p); try done; fold s'; rewrite ?(proj1 (El _)), ?(proj2 (El _)); rewrite ?decide_True by done; try done.
    + intros x Hx Hne. rewrite (proj1 (El _)), decide_False by lia. done.
    + intros x Hx Hne. rewrite (proj2 (El _)), decide_False by lia. done.
  - apply (NoDup_Permutation_proper _ _ (Permutation_app_comm l1 l2)). by apply NoDup_cons in Hnd as [_ ?].
  - intros Hx. apply (la_nonnull _ _ _ _ H). set_solver.
  - intros x Hx. rewrite !sandwich_head by done. unfold s'. rewrite !(head_only_other _ head hl) by done. apply (la_entries _ _ _ _ H). set_solver.
Qed.

(** ** Moving *)

Definition move_assigns s head_old pe_old head_new pe_new d (before : bool) o : list (cell * Z) :=
  let same := head_old =? head_new in
  if same && (d =? o) then []
  else if same && before && (s (CPrev (d + pe_new)) =? o) then
    if negb (s (CFirst head_old) =? d) then [] else head_assigns s head_old o
  else if same && negb before && (s (CNext (d + pe_new)) =? o) then
    if negb (s (CFirst head_old) =? o) then [] else head_assigns s head_old (s (CNext (o + pe_old)))
  else remove_assigns s head_old pe_old o ++ place_assigns s head_new pe_new d before o.

(** The links stay, another element becomes the first. *)
Lemma rotate_ok s head pe l1 x l2 : list_at s head pe (l1 ++ x :: l2) -> list_at (assigns s (head_assigns s head x)) head pe (x :: l2 ++ l1).
Proof.
  intros H. assert (s (CFirstUuid head) = uuid_lo) as Hu0 by (destruct l1; by apply nonempty_uuid in H).
  destruct (head_assigns_value s s head x eq_refl (or_introl Hu0)) as [V1 V2]. pose proof (head_only_assigns s head x) as Hh.
  assert (forall c, c <> CFirst head -> c <> CFirstUuid head -> assigns s (head_assigns s head x) c = s c) as E by (intros c; by apply head_only_other).
  assert (x :: l2 ++ l1 ≡ₚ l1 ++ x :: l2) as Hperm by (by rewrite <- Permutation_middle, Permutation_app_comm).
  constructor; try done.
  - by left.
  - assert (circular s pe (x :: l2 ++ l1)) as Hc by (apply (circular_rotate s pe (x :: l2)), H). cbn in *. apply (links_ext s); [| |done]; intros y _; by apply E.
  - rewrite Hperm. apply H.
  - rewrite Hperm. apply H.
  - intros y Hy. rewrite !E by done. apply (la_entries _ _ _ _ H). by rewrite <- Hperm.
Qed.

(** In a cycle an element is followed by [o] only if it is the one before. *)
Lemma prev_is s pe xs d o : circular s pe xs -> NoDup xs -> d ∈ xs -> o ∈ xs -> d <> o -> s (CPrev (d + pe)) = o ->
  (exists l1 l2, xs = l1 ++ o :: d :: l2) \/ exists l, xs = d :: l ++ [o].
Proof.
  intros Hc Hnd Hd Ho Hne Hp. destruct (nodup_split xs d Hnd Hd) as (l1 & l2 & -> & N1 & N2).
  assert (circular s pe (d :: l2 ++ l1)) as Hr by (apply (circular_rotate s pe (d :: l2)), Hc). destruct (circular_ends _ _ _ _ Hr) as [_ Ep]. rewrite Hp in Ep.
  destruct l1 as [|y l1 _] using rev_ind.
  - rewrite app_nil_r in Ep. right. destruct l2 as [|y l2 _] using rev_ind; [done|]. rewrite last_snoc in Ep. cbn in Ep. subst y. by exists l2.
  - rewrite app_assoc, last_snoc in Ep. cbn in Ep. subst y. left. exists l1, l2. by rewrite <- app_assoc.
Qed.

Lemma next_is s pe xs d o : circular s pe xs -> NoDup xs -> d ∈ xs -> o ∈ xs -> d <> o -> s (CNext (d + pe)) = o ->
  (exists l1 l2, xs = l1 ++ d :: o :: l2) \/ exists l, xs = o :: l ++ [d].
Proof.
  intros Hc Hnd Hd Ho Hne Hp. destruct (nodup_split xs d Hnd Hd) as (l1 & l2 & -> & N1 & N2).
  assert (circular s pe (d :: l2 ++ l1)) as Hr by (apply (circular_rotate s pe (d :: l2)), Hc). destruct (circular_ends _ _ _ _ Hr) as [Ep _]. rewrite Hp in Ep.
  destruct l2 as [|y l2].
  - right. destruct l1 as [|y l1]; [done|]. cbn in Ep. subst y. by exists l1.
  - cbn in Ep. subst y. left. by exists l1, l2.
Qed.

Lemma elem_ends_nodup (o d : Z) l1 l2 : NoDup (l1 ++ o :: d :: l2) -> (o ∉ l1) /\ (o ∉ d :: l2) /\ (d ∉ l1) /\ (d ∉ l2) /\ o <> d.
Proof.
  intros H. apply NoDup_app in H as (_ & H1 & H2). apply NoDup_cons in H2 as [H2 H3]. apply NoDup_cons in H3 as [H3 _].
  split; [intros Hx; apply (H1 o Hx); by left|]. split; [done|]. split; [intros Hx; apply (H1 d Hx); right; by left|]. split; [done|]. intros ->. apply H2. by left.
Qed.

(** Where [o] is already next to [d]. *)
Lemma place_adjacent o d l1 l2 : NoDup (l1 ++ o :: d :: l2) -> d <> 0 -> place d true o (removed o (l1 ++ o :: d :: l2)) = l1 ++ o :: d :: l2.
Proof.
  intros Hn Hd. destruct (elem_ends_nodup _ _ _ _ Hn) as (H1 & H2 & H3 & H4 & H5). unfold place. destruct (Z.eqb_spec d 0); [done|]. rewrite removed_split by done. by apply insert_before_split.
Qed.
Lemma place_adjacent' o d l1 l2 : NoDup (l1 ++ d :: o :: l2) -> d <> 0 -> place d false o (removed o (l1 ++ d :: o :: l2)) = l1 ++ d :: o :: l2.
Proof.
  intros Hn Hd. destruct (elem_ends_nodup _ _ _ _ Hn) as (H1 & H2 & H3 & H4 & H5). unfold place. destruct (Z.eqb_spec d 0); [done|].
  change (l1 ++ d :: o :: l2) with (l1 ++ [d] ++ o :: l2). rewrite app_assoc, removed_split by set_solver. rewrite <- !app_assoc. cbn [app]. by apply insert_after_split.
Qed.

(** Removing [o] leaves what placing it reads. *)
Lemma place_assigns_removed s head pe xs d (before : bool) o : list_at s head pe xs -> o ∈ xs -> d ∈ xs -> d <> o ->
  (if before then s (CPrev (d + pe)) <> o else s (CNext (d + pe)) <> o) ->
  place_assigns (assigns s (remove_assigns s head pe o)) head pe d before o = place_assigns s head pe d before o.
Proof.
  intros H Ho Hd Hne Hfar. pose proof (unlink_ok s head pe xs o H Ho) as H'. set (s1 := assigns s (remove_assigns s head pe o)) in *.
  assert (d ∈ removed o xs) as Hd' by (apply list_elem_of_filter; done). assert (d <> 0) as Hd0 by (intros ->; by apply (la_nonnull _ _ _ _ H)).
  assert (s1 (CFirstUuid head) = uuid_lo) as U1 by (destruct (la_uuid _ _ _ _ H') as [?|[E _]]; [done|rewrite E in Hd'; by apply elem_of_nil in Hd']).
  assert (s (CFirstUuid head) = uuid_lo) as U by (destruct (la_uuid _ _ _ _ H) as [?|[E _]]; [done|rewrite E in Hd; by apply elem_of_nil in Hd]).
  assert (s (CPrev (s (CNext (o + pe)) + pe)) = o /\ s (CNext (s (CPrev (o + pe)) + pe)) = o) as [En Ep].
  { destruct (nodup_split xs o (la_nodup _ _ _ _ H) Ho) as (l1 & l2 & -> & _). assert (circular s pe (o :: l2 ++ l1)) as Hc by (apply (circular_rotate s pe (o :: l2)), H).
    destruct (circular_ends _ _ _ _ Hc) as [-> ->]. destruct (l2 ++ l1) as [|y r]; [cbn in *; tauto|]. split; [by destruct Hc as (_ & ? & _)|].
    destruct (exists_last (l := y :: r) ltac:(done)) as (q & z & Ez). rewrite Ez in Hc |- *. rewrite last_snoc. cbn in Hc |- *. apply links_app in Hc as [_ Hc]. apply Hc. }
  assert (forall w, w <> s (CPrev (o + pe)) + pe -> s1 (CNext w) = s (CNext w)) as K1.
  { intros w Hw. unfold s1, remove_assigns. destruct (_ =? o).
    - apply (head_only_other s head); [apply head_only_assigns|done|done].
    - apply assigns_other. repeat constructor; cbn [fst]; [done|congruence|]. destruct (_ =? o); [|constructor]. eapply Forall_impl; [apply head_only_assigns|]. intros a [-> | ->]; done. }
  assert (forall w, w <> s (CNext (o + pe)) + pe -> s1 (CPrev w) = s (CPrev w)) as K2.
  { intros w Hw. unfold s1, remove_assigns. destruct (_ =? o).
    - apply (head_only_other s head); [apply head_only_assigns|done|done].
    - apply assigns_other. repeat constructor; cbn [fst]; [congruence|done|]. destruct (_ =? o); [|constructor]. eapply Forall_impl; [apply head_only_assigns|]. intros a [-> | ->]; done. }
  assert (forall v, head_assigns s1 head v = head_assigns s head v) as K3 by (intros v; unfold head_assigns; by rewrite U1, U).
  unfold place_assigns, insert_assigns. destruct (Z.eqb_spec d 0) as [?|_]; [done|]. destruct before.
  - rewrite K2 by (intros E; apply Hfar; by rewrite E). rewrite K3.
    destruct (decide (s (CFirst head) = o)) as [E|E].
    + destruct (Z.eqb_spec d (s (CFirst head))) as [?|_]; [congruence|]. destruct (Z.eqb_spec d (s1 (CFirst head))) as [E1|_]; [|done]. exfalso. apply Hfar. rewrite E1.
      unfold s1, remove_assigns. destruct (Z.eqb_spec (s (CNext (o + pe))) o) as [El|_].
      * rewrite E1 in Hd0. unfold s1, remove_assigns in Hd0. rewrite El, Z.eqb_refl in Hd0. by destruct (head_assigns_value s s head 0 eq_refl (or_introl U)) as [V _].
      * rewrite E, Z.eqb_refl, assigns_app. destruct (head_assigns_value s (assigns s [(CPrev (s (CNext (o + pe)) + pe), s (CPrev (o + pe))); (CNext (s (CPrev (o + pe)) + pe), s (CNext (o + pe)))]) head (s (CNext (o + pe))) eq_refl (or_introl U)) as [-> _]. done.
    + assert (s1 (CFirst head) = s (CFirst head)) as ->; [|done]. unfold s1, remove_assigns. rewrite (proj2 (Z.eqb_neq (s (CFirst head)) o) E).
      destruct (Z.eqb_spec (s (CNext (o + pe))) o) as [El|_]; [|done]. exfalso. apply E. rewrite (la_first _ _ _ _ H).
      destruct (nodup_split xs o (la_nodup _ _ _ _ H) Ho) as (l1 & l2 & -> & N1 & N2). assert (circular s pe (o :: l2 ++ l1)) as Hc by (apply (circular_rotate s pe (o :: l2)), H).
      destruct (circular_ends _ _ _ _ Hc) as [Eh _]. rewrite El in Eh. destruct l2; [|cbn in Eh; set_solver]. destruct l1; [done|cbn in Eh; set_solver].
  - by rewrite K1 by (intros E; apply Hfar; by rewrite E).
Qed.

Lemma remove_assigns_uuid s head pe o c : not_link c -> c <> CFirst head -> c <> CFirstUuid head -> assigns s (remove_assigns s head pe o) c = s c.
Proof.
  intros H1 H2 H3. unfold remove_assigns. destruct (_ =? o); [apply (head_only_other s head); [apply head_only_assigns|done|done]|].
  assert (forall hl, head_only head hl -> assigns s ([(CPrev (s (CNext (o + pe)) + pe), s (CPrev (o + pe))); (CNext (s (CPrev (o + pe)) + pe), s (CNext (o + pe)))] ++ hl) c = s c) as Hk.
  { intros hl Hh. rewrite assigns_app. rewrite (head_only_other _ head) by done. apply link_only_other; [by repeat constructor; tauto|done]. }
  apply Hk. destruct (_ =? o); [apply head_only_assigns|constructor].
Qed.

Lemma move_same_ok s head pe xs d before o : list_at s head pe xs -> o ∈ xs -> d ∈ xs ->
  list_at (assigns s (move_assigns s head pe head pe d before o)) head pe (if d =? o then xs else place d before o (removed o xs)).
Proof.
  intros H Ho Hd. unfold move_assigns. rewrite Z.eqb_refl. cbn [andb]. destruct (Z.eqb_spec d o) as [->|Hne]; [done|].
  assert (d <> 0) as Hd0 by (intros ->; by apply (la_nonnull _ _ _ _ H)). pose proof (la_nodup _ _ _ _ H) as Hnd. pose proof (la_links _ _ _ _ H) as Hc.
  assert (forall before', before = before' -> (if before' then s (CPrev (d + pe)) <> o else s (CNext (d + pe)) <> o) ->
    list_at (assigns s (remove_assigns s head pe o ++ place_assigns s head pe d before' o)) head pe (place d before' o (removed o xs))) as Hgen.
  { intros b' -> Hfar. rewrite assigns_app, <- (place_assigns_removed s head pe xs d b' o) by done. pose proof (unlink_ok s head pe xs o H Ho) as H'.
    apply place_ok; [done| |intros ->; by apply (la_nonnull _ _ _ _ H)| |left; apply list_elem_of_filter; done].
    - intros Hx. apply list_elem_of_filter in Hx as [? _]. done.
    - unfold uuid_set. rewrite !remove_assigns_uuid by done. by apply (la_entries _ _ _ _ H). }
  destruct before; cbn [andb negb].
  - destruct (Z.eqb_spec (s (CPrev (d + pe))) o) as [E|E]; [|by apply Hgen]. destruct (prev_is s pe xs d o Hc Hnd Hd Ho Hne E) as [(l1 & l2 & ->)|(l & ->)].
    + rewrite place_adjacent by done. rewrite (la_first _ _ _ _ H). destruct (Z.eqb_spec (hd 0 (l1 ++ o :: d :: l2)) d) as [E'|_]; [|done].
      exfalso. destruct (elem_ends_nodup _ _ _ _ Hnd) as (_ & _ & N3 & _ & _). destruct l1; cbn in E'; [done|set_solver].
    + rewrite (la_first _ _ _ _ H). cbn [hd]. rewrite Z.eqb_refl. cbn [negb]. apply NoDup_cons in Hnd as [N1 N2]. apply NoDup_app in N2 as (_ & N2 & _).
      assert (o ∉ d :: l) as No by (intros [->|Hx]%elem_of_cons; [done|]; apply (N2 o Hx); by left).
      replace (removed o (d :: l ++ [o])) with (d :: l) by (symmetry; change (d :: l ++ [o]) with ((d :: l) ++ o :: []); rewrite removed_split; [by rewrite app_nil_r|done|set_solver]).
      unfold place. destruct (Z.eqb_spec d 0); [done|]. cbn [insert_before]. rewrite Z.eqb_refl. apply (rotate_ok s head pe (d :: l) o []). exact H.
  - destruct (Z.eqb_spec (s (CNext (d + pe))) o) as [E|E]; [|by apply Hgen]. destruct (next_is s pe xs d o Hc Hnd Hd Ho Hne E) as [(l1 & l2 & ->)|(l & ->)].
    + rewrite place_adjacent' by done. rewrite (la_first _ _ _ _ H). destruct (Z.eqb_spec (hd 0 (l1 ++ d :: o :: l2)) o) as [E'|_]; [|done].
      exfalso. destruct (elem_ends_nodup _ _ _ _ Hnd) as (_ & _ & N3 & _ & _). destruct l1; cbn in E'; [done|set_solver].
    + rewrite (la_first _ _ _ _ H). cbn [hd]. rewrite Z.eqb_refl. cbn [negb]. pose proof (circular_ends _ _ _ _ Hc) as [-> _]. apply NoDup_cons in Hnd as [N1 N2].
      replace (removed o (o :: l ++ [d])) with (l ++ [d]) by (symmetry; by apply (removed_split o [] (l ++ [d])); [set_solver|]).
      apply NoDup_app in N2 as (_ & N2 & _). unfold place. destruct (Z.eqb_spec d 0); [done|].
      rewrite insert_after_split by (intros Hx; apply (N2 d Hx); by left). destruct l as [|y l]; cbn [app hd].
      * apply (rotate_ok s head pe [o] d []). exact H.
      * replace (y :: l ++ [d; o]) with (y :: (l ++ [d]) ++ [o]) by (by rewrite <- app_assoc). apply (rotate_ok s head pe [o] y (l ++ [d])). exact H.
Qed.

(** ** Two lists *)

Definition assigns_in (P : cell -> Prop) (l : list (cell * Z)) : Prop := Forall (fun a => P a.1) l.

Lemma assigns_in_other P s l c : assigns_in P l -> ~ P c -> assigns s l c = s c.
Proof. intros H Hc. apply assigns_other. eapply Forall_impl; [exact H|]. cbn. intros a Ha E. by rewrite E in Ha. Qed.

Lemma head_cells s head pe xs v : assigns_in (list_cell head pe xs) (head_assigns s head v).
Proof. eapply Forall_impl; [apply head_only_assigns|]. intros a [-> | ->]; [by left|by right; left]. Qed.

Lemma remove_cells s head pe xs o : list_at s head pe xs -> o ∈ xs -> assigns_in (list_cell head pe xs) (remove_assigns s head pe o).
Proof.
  intros H Ho. destruct (neighbours s pe xs o (la_links _ _ _ _ H) Ho) as [Hn Hp]. unfold remove_assigns. destruct (_ =? o); [apply head_cells|].
  constructor; [right; right; eexists; split; [exact Hn|cbn; tauto]|]. constructor; [right; right; eexists; split; [exact Hp|cbn; tauto]|]. destruct (_ =? o); [apply head_cells|constructor].
Qed.

Lemma list_cell_mono head pe xs xs' c : xs ⊆ xs' -> list_cell head pe xs c -> list_cell head pe xs' c.
Proof. intros Hs [?|[?|(x & Hx & H)]]; [by left|by right; left|right; right]. exists x. split; [by apply Hs|done]. Qed.

Lemma place_cells s head pe xs d before o : list_at s head pe xs -> d ∈ xs \/ d = 0 -> assigns_in (list_cell head pe (o :: xs)) (place_assigns s head pe d before o).
Proof.
  intros H Hd. unfold place_assigns, insert_assigns.
  assert (forall n p, assigns_in (list_cell head pe (o :: xs)) (fill_assigns pe o n p)) as Hf.
  { intros n p. constructor; [|constructor; [|constructor]]; right; right; exists o; (split; [by left|cbn; tauto]). }
  destruct (Z.eqb_spec d 0) as [->|Hd0]; [apply Forall_app; split; [apply head_cells|apply Hf]|]. destruct Hd as [Hd|?]; [|done].
  destruct (neighbours s pe xs d (la_links _ _ _ _ H) Hd) as [Hn Hp].
  assert (forall c, c = CNext (d + pe) \/ c = CPrev (d + pe) -> list_cell head pe (o :: xs) c) as Hc by (intros c Hc; right; right; exists d; split; [by right|tauto]).
  destruct before; (apply Forall_app; split; [|apply Hf]).
  - apply Forall_app. split; [|destruct (_ =? _); [apply head_cells|constructor]]. constructor; [apply Hc; cbn; tauto|]. constructor; [|constructor]. right; right. eexists. split; [right; exact Hp|cbn; tauto].
  - constructor; [apply Hc; cbn; tauto|]. constructor; [|constructor]. right; right. eexists. split; [right; exact Hn|cbn; tauto].
Qed.

Lemma place_assigns_ext s s1 head pe xs d before o : (forall c, list_cell head pe xs c -> s1 c = s c) -> d ∈ xs \/ d = 0 ->
  place_assigns s1 head pe d before o = place_assigns s head pe d before o.
Proof.
  intros E Hd. assert (forall v, head_assigns s1 head v = head_assigns s head v) as Eh by (intros v; unfold head_assigns; rewrite E; [done|by right; left]).
  unfold place_assigns, insert_assigns. rewrite Eh. destruct (Z.eqb_spec d 0) as [_|Hd0]; [done|]. destruct Hd as [Hd|?]; [|done].
  rewrite (E (CFirst head)) by by left. rewrite (E (CPrev (d + pe))), (E (CNext (d + pe))) by (right; right; exists d; tauto). done.
Qed.

Lemma remove_assigns_ext s s1 head pe xs o : (forall c, list_cell head pe xs c -> s1 c = s c) -> o ∈ xs ->
  remove_assigns s1 head pe o = remove_assigns s head pe o.
Proof.
  intros E Ho. assert (forall v, head_assigns s1 head v = head_assigns s head v) as Eh by (intros v; unfold head_assigns; rewrite E; [done|by right; left]).
  unfold remove_assigns. rewrite (E (CFirst head)) by by left. rewrite (E (CPrev (o + pe))), (E (CNext (o + pe))) by (right; right; exists o; tauto). by rewrite !Eh.
Qed.

Lemma move_assigns_ext s s1 head pe xs d before o : (forall c, list_cell head pe xs c -> s1 c = s c) -> o ∈ xs -> d ∈ xs ->
  move_assigns s1 head pe head pe d before o = move_assigns s head pe head pe d before o.
Proof.
  intros E Ho Hd. assert (forall v, head_assigns s1 head v = head_assigns s head v) as Eh by (intros v; unfold head_assigns; rewrite E; [done|by right; left]).
  unfold move_assigns. rewrite !Eh, (remove_assigns_ext s s1 head pe xs), (place_assigns_ext s s1 head pe xs) by (done || by left). rewrite (E (CFirst head)) by by left.
  rewrite (E (CPrev (d + pe))), (E (CNext (d + pe))) by (right; right; exists d; tauto). rewrite (E (CNext (o + pe))) by (right; right; exists o; tauto). done.
Qed.

Lemma move_cells s head pe xs d before o : list_at s head pe xs -> o ∈ xs -> d ∈ xs -> assigns_in (list_cell head pe xs) (move_assigns s head pe head pe d before o).
Proof.
  intros H Ho Hd. unfold move_assigns. repeat case_match; try apply head_cells; try (apply Forall_nil; done). apply Forall_app. split; [by apply remove_cells|].
  eapply Forall_impl; [by apply (place_cells s head pe xs); [|left]|]. intros a. cbn. apply list_cell_mono. set_solver.
Qed.

Lemma cells_disjoint head_old pe_old xs head_new pe_new ys : head_old <> head_new -> (forall x y, x ∈ xs -> y ∈ ys -> x + pe_old <> y + pe_new) ->
  forall c, list_cell head_old pe_old xs c -> ~ list_cell head_new pe_new ys c.
Proof.
  intros Hh Hd c [->|[->|(x & Hx & Hc)]] [E|[E|(y & Hy & E)]]; try congruence; try (by destruct E as [?|[?|[?|?]]]); try (by subst; destruct Hc as [?|[?|[?|?]]]).
  apply (Hd x y Hx Hy). destruct Hc as [->|[->|[->| ->]]], E as [E|[E|[E|E]]]; congruence.
Qed.

Lemma move_other_ok s head_old pe_old xs head_new pe_new ys d before o : head_old <> head_new ->
  list_at s head_old pe_old xs -> list_at s head_new pe_new ys -> o ∈ xs -> o ∉ ys -> uuid_set s pe_new o -> d ∈ ys \/ d = 0 /\ ys = [] ->
  (forall c, list_cell head_old pe_old xs c -> ~ list_cell head_new pe_new ys c) ->
  (forall c, list_cell head_old pe_old (removed o xs) c -> ~ list_cell head_new pe_new (o :: ys) c) ->
  let s' := assigns s (move_assigns s head_old pe_old head_new pe_new d before o) in
  list_at s' head_old pe_old (removed o xs) /\ list_at s' head_new pe_new (place d before o ys).
Proof.
  intros Hh H1 H2 Ho Ho2 Hu Hd D1 D2. unfold move_assigns. rewrite (proj2 (Z.eqb_neq _ _) Hh). cbn [andb]. rewrite assigns_app.
  pose proof (unlink_ok s head_old pe_old xs o H1 Ho) as H1'. pose proof (remove_cells s head_old pe_old xs o H1 Ho) as C1. set (s1 := assigns s (remove_assigns s head_old pe_old o)) in *.
  assert (forall c, list_cell head_new pe_new ys c -> s1 c = s c) as E1 by (intros c Hc; apply (assigns_in_other (list_cell head_old pe_old xs)); [done|]; intros Hc'; by apply (D1 c)).
  assert (list_at s1 head_new pe_new ys) as H2' by (by apply (list_at_ext s)). assert (d ∈ ys \/ d = 0) as Hd' by tauto.
  rewrite <- (place_assigns_ext s s1 head_new pe_new ys d before o E1 Hd'). split.
  - apply (list_at_ext s1); [|done]. intros c Hc. apply (assigns_in_other (list_cell head_new pe_new (o :: ys))); [by apply place_cells|by apply D2].
  - apply place_ok; try done; [intros ->; by apply (la_nonnull _ _ _ _ H1)|]. unfold uuid_set, s1. by rewrite !remove_assigns_uuid.
Qed.
End Cells.

(** ** Mutexes *)

(** What a mutex of the operating system promises to one thread. *)
Class OsMutex {M : Type} (init : M -> Z * M) (lock unlock : M -> option (Z * M)) (free held : M -> Prop) : Prop := {
  os_init_free m : (init m).1 = 0 -> free (init m).2;
  os_lock_held m : free m -> exists m', lock m = Some (0, m') /\ held m';
  os_unlock_free m : held m -> exists m', unlock m = Some (0, m') /\ free m'
}.

(** ** Cells in memory *)

Section Memory.
Context (p_ops : pmem_ops) (dest src nbytes total : Z) (pop : PMEMobjpool) (m0 : mem) (volatile : Z -> Prop).
Context (uuid_lo : Z) (al : nat -> Z * bool) (fuel : nat).
Let b : Z := base p_ops.

Definition cell_off (c : cell) : Z :=
  match c with
  | CNext e => e + 8 | CPrev e => e + 24 | CNextUuid e => e | CPrevUuid e => e + 16
  | CFirst h => h - b + 8 | CFirstUuid h => h - b
  end.
Definition cells_of (m : mem) : store_of := fun c => load64 m (b + cell_off c).
Definition to_vent (a : cell * Z) : vent := VEnt (cell_off a.1) OpSet a.2.

Abbreviation in_pool := (pool_word dest src nbytes volatile).

(** Where the entries (offsets [E]) and the heads (addresses [H]) are. *)
Context (E H : list Z).
Record geometry : Prop := Geometry {
  gm_layout : op_layout p_ops dest src nbytes total volatile;
  gm_base : 0 <= b < 2 ^ 63;
  gm_uuid : 0 < uuid_lo < 2 ^ 64;
  gm_entry e k : e ∈ E -> k ∈ [0; 8; 16; 24] -> e mod 8 = 0 /\ 0 < e /\ e + 32 <= 2 ^ 61 /\ in_pool (b + e + k) /\ OBJ_OFF_IS_VALID pop (e + k) = true;
  gm_entries e e' : e ∈ E -> e' ∈ E -> e <> e' -> e + 32 <= e' \/ e' + 32 <= e;
  gm_head h k : h ∈ H -> k ∈ [0; 8] -> h mod 8 = 0 /\ 0 < h - b /\ h - b + 16 <= 2 ^ 61 /\ in_pool (h + k) /\ OBJ_OFF_IS_VALID pop (h - b + k) = true;
  gm_heads h h' : h ∈ H -> h' ∈ H -> h <> h' -> h + 16 <= h' \/ h' + 16 <= h;
  gm_mixed e h : e ∈ E -> h ∈ H -> b + e + 32 <= h \/ h + 16 <= b + e;
  gm_lock h : h ∈ H -> volatile (head_lock h)
}.
Hypothesis (G : geometry).

Definition play (c : cell) : Prop :=
  match c with CNext e | CPrev e | CNextUuid e | CPrevUuid e => e ∈ E | CFirst h | CFirstUuid h => h ∈ H end.

Lemma play_word c : play c -> in_pool (b + cell_off c) /\ OBJ_OFF_IS_VALID pop (cell_off c) = true /\ 0 < cell_off c < 2 ^ 61 /\ cell_off c mod 8 = 0.
Proof.
  intros Hp. assert (b mod 8 = 0) as B8 by apply (ol_base8 _ _ _ _ _ _ (gm_layout G)).
  assert (in_pool (b + cell_off c) /\ OBJ_OFF_IS_VALID pop (cell_off c) = true /\ 0 < cell_off c < 2 ^ 61) as (H1 & H2 & H3).
  { destruct c as [e|e|e|e|h|h]; cbn in Hp |- *.
    - destruct (gm_entry G e 8 Hp) as (_ & ? & ? & ? & ?); [set_solver|]. replace (b + (e + 8)) with (b + e + 8) by lia. split; [done|]. split; [done|lia].
    - destruct (gm_entry G e 24 Hp) as (_ & ? & ? & ? & ?); [set_solver|]. replace (b + (e + 24)) with (b + e + 24) by lia. split; [done|]. split; [done|lia].
    - destruct (gm_entry G e 0 Hp) as (_ & ? & ? & ? & ?); [set_solver|]. rewrite !Z.add_0_r in *. split; [done|]. split; [done|lia].
    - destruct (gm_entry G e 16 Hp) as (_ & ? & ? & ? & ?); [set_solver|]. replace (b + (e + 16)) with (b + e + 16) by lia. split; [done|]. split; [done|lia].
    - destruct (gm_head G h 8 Hp) as (_ & ? & ? & ? & ?); [set_solver|]. replace (b + (h - b + 8)) with (h + 8) by lia. split; [done|]. split; [done|lia].
    - destruct (gm_head G h 0 Hp) as (_ & ? & ? & ? & ?); [set_solver|]. rewrite !Z.add_0_r in *. replace (b + (h - b)) with h by lia. split; [done|]. split; [done|lia]. }
  split; [done|]. split; [done|]. split; [done|]. destruct H1 as [H8 _]. Z.to_euclidean_division_equations. lia.
Qed.

Lemma cell_off_inj c c' : play c -> play c' -> cell_off c = cell_off c' -> c = c'.
Proof.
  intros Hp Hp' Eo.
  assert (forall e e', e ∈ E -> e' ∈ E -> e = e' \/ e + 32 <= e' \/ e' + 32 <= e) as HE by (intros e e' ? ?; destruct (decide (e = e')); [by left|right; by apply (gm_entries G)]).
  assert (forall h h', h ∈ H -> h' ∈ H -> h = h' \/ h + 16 <= h' \/ h' + 16 <= h) as HH by (intros h h' ? ?; destruct (decide (h = h')); [by left|right; by apply (gm_heads G)]).
  pose proof (gm_mixed G) as HM.
  destruct c as [e|e|e|e|h|h], c' as [e'|e'|e'|e'|h'|h']; cbn in *;
    try (destruct (HE e e' Hp Hp'); [subst; first [done|lia]|lia]);
    try (destruct (HH h h' Hp Hp'); [subst; first [done|lia]|lia]);
    try (specialize (HM e h' Hp Hp'); lia); try (specialize (HM e' h Hp' Hp); lia).
Qed.

Definition value_ok (a : cell * Z) : Prop := play a.1 /\ 0 <= a.2 < 2 ^ 64.

Lemma value_vents l : Forall value_ok l -> Forall vent_ok (map to_vent l) /\ Forall vent_aligned (map to_vent l).
Proof.
  intros Hl. split; apply Forall_map; (eapply Forall_impl; [exact Hl|]); intros [c v] [Hp Hv]; destruct (play_word c Hp) as (_ & _ & H1 & H2); [split; done|exact H2].
Qed.

(** Applying the log is assigning to the cells. *)
Lemma log_assigns l m c : Forall value_ok l -> play c -> cells_of (apply_log b (map to_vent l) m) c = assigns (cells_of m) l c.
Proof.
  intros Hl Hc. destruct (value_vents l Hl) as [V1 V2]. destruct (play_word c Hc) as (_ & _ & _ & C8). unfold cells_of at 1. rewrite load64_apply_log by done. fold (cells_of m c).
  assert (forall s, word_log (cell_off c) (map to_vent l) (s c) = assigns s l c) as Hk; [|apply Hk].
  clear V1 V2. induction Hl as [|[c1 v1] l [Hp _] _ IH]; intros s; [done|]. cbn [map]. change (assigns s ((c1, v1) :: l)) with (assigns (assign s (c1, v1)) l). rewrite <- IH.
  unfold word_log. cbn [foldl]. f_equal. unfold word_op, assign. cbn [to_vent ve_off ve_op ve_val fst snd op_fun].
  destruct (Z.eqb_spec (cell_off c1) (cell_off c)) as [Eo|Eo]; [rewrite decide_True; [done|]; by apply cell_off_inj|]. rewrite decide_False; [done|]. intros ->. done.
Qed.

(** ** The entries of an operation *)

Section Run.
Context (s0 sl : pmst) (fresh : Z -> Prop).
Let s : store_of := cells_of (vis s0).
Abbreviation lst := (operation_context * world * nat)%type.

(** The assignments [l] were collected; the memory is that of [s0] but for
    [fresh], the locks are those of [sl]. *)
Definition going (st : lst) (l : list (cell * Z)) : Prop :=
  exists c s1 n, st = (c, (pop, s1), n) /\ collecting p_ops dest src nbytes total m0 volatile c s1 (map to_vent l) /\
    calm p_ops dest src nbytes m0 volatile fuel s0 fresh s1 /\ (forall w, volatile w -> agree (vis s1) (vis sl) w 8) /\ Forall value_ok l.

Definition stable (c : cell) : Prop := play c /\ ~ fresh (b + cell_off c).

Lemma going_load st l c a : going st l -> stable c -> a = b + cell_off c -> load64 (lmem st) a = s c.
Proof.
  intros (ctx & s1 & n & -> & _ & [Hag _] & _) [Hp Hf] ->. unfold lmem, s, cells_of. cbn [fst snd]. apply agree_load64, Hag. split; [by apply play_word|done].
Qed.

Lemma going_add st l c v a : going st l -> play c -> 0 <= v < 2 ^ 64 -> (length l < 14)%nat -> a = b + cell_off c ->
  going (add_set al a v st) (l ++ [(c, v)]) /\ (forall w, in_pool w -> agree (lmem (add_set al a v st)) (lmem st) w 8).
Proof.
  intros (ctx & s1 & n & -> & Hc & Hq & Hlk & Hl) Hp Hv Hn ->. destruct (play_word c Hp) as (P1 & P2 & P3 & P4). pose proof (gm_layout G) as HL.
  assert (vent_ok (to_vent (c, v)) /\ vent_aligned (to_vent (c, v))) as [V1 V2] by done.
  destruct (collect_add p_ops dest src nbytes total pop m0 volatile (al n).1 (al n).2 ctx s1 (map to_vent l) (to_vent (c, v)) HL Hc) as (c' & s2 & Ea & Hc' & Hs); try done; [by rewrite length_map|].
  assert (operation_add_entry (al n).1 (al n).2 ctx (b + cell_off c) v ULOG_OPERATION_SET (pop, s1) = (0, c', (pop, s2))) as Ea' by exact Ea. unfold add_set. rewrite Ea'.
  split; [|intros w (_ & _ & [Hw _]); by eapply shadow_step_vis].
  exists c', s2, (S n). split; [done|]. rewrite map_app. split; [done|]. split; [apply (calm_shadow _ _ _ _ total _ _ _ _ _ s1); try done; apply Hc|].
  split; [|apply Forall_app; split; [done|]; by constructor]. intros w Hw. eapply agree_trans; [|by apply Hlk]. apply (shadow_step_vis p_ops src s1 s2 w 8 Hs), (ol_volatile _ _ _ _ _ _ HL w Hw).
Qed.

Lemma going_set st l c v a : going st l -> play c -> 0 <= v < 2 ^ 64 -> (length l < 14)%nat -> a = b + cell_off c -> going (add_set al a v st) (l ++ [(c, v)]).
Proof. intros. by apply going_add. Qed.

(** Only the words of identifiers of pools are fresh. *)
Hypothesis (Hfresh : forall c, play c -> fresh (b + cell_off c) -> exists e, c = CNextUuid e \/ c = CPrevUuid e).

Lemma stable_next e : e ∈ E -> stable (CNext e).
Proof. intros He. split; [done|]. intros Hf. by destruct (Hfresh (CNext e) He Hf) as (? & [?|?]). Qed.
Lemma stable_prev e : e ∈ E -> stable (CPrev e).
Proof. intros He. split; [done|]. intros Hf. by destruct (Hfresh (CPrev e) He Hf) as (? & [?|?]). Qed.
Lemma stable_first h : h ∈ H -> stable (CFirst h).
Proof. intros He. split; [done|]. intros Hf. by destruct (Hfresh (CFirst h) He Hf) as (? & [?|?]). Qed.
Lemma stable_first_uuid h : h ∈ H -> stable (CFirstUuid h).
Proof. intros He. split; [done|]. intros Hf. by destruct (Hfresh (CFirstUuid h) He Hf) as (? & [?|?]). Qed.

Lemma going_update_head st l h v : going st l -> h ∈ H -> 0 <= v < 2 ^ 64 -> (length l < 13)%nat ->
  going (list_update_head uuid_lo al h v st) (l ++ head_assigns uuid_lo s h v).
Proof.
  intros Hg Hh Hv Hn. pose proof (stable_first_uuid h Hh) as Hst. unfold list_update_head, head_assigns, oid_off_addr, oid_uuid_addr, pe_first.
  assert (going (add_set al (h + 8) v st) (l ++ [(CFirst h, v)])) as H1 by (apply going_set; [done|done|done|lia|cbn; lia]).
  rewrite (going_load _ _ (CFirstUuid h) h H1 Hst) by (cbn; lia). destruct (_ =? 0); [|done].
  replace (l ++ [(CFirst h, v); (CFirstUuid h, uuid_lo)]) with ((l ++ [(CFirst h, v)]) ++ [(CFirstUuid h, uuid_lo)]) by (by rewrite <- app_assoc).
  apply going_set; [done|done|pose proof (gm_uuid G); lia|rewrite length_app; cbn; lia|cbn; lia].
Qed.

Lemma length_head v h : (length (head_assigns uuid_lo s h v) <= 2)%nat.
Proof. unfold head_assigns. destruct (_ =? 0); cbn; lia. Qed.

Lemma length_remove h pe o : (length (remove_assigns uuid_lo s h pe o) <= 4)%nat.
Proof.
  unfold remove_assigns. pose proof (length_head 0 h). pose proof (length_head (s (CNext (o + pe))) h).
  repeat case_match; rewrite ?length_app; cbn [length app]; lia.
Qed.

Lemma length_place h pe' d before o : (length (place_assigns uuid_lo s h pe' d before o) <= 6)%nat.
Proof.
  pose proof (length_head o h) as Hlh. unfold place_assigns, insert_assigns.
  destruct (d =? 0); [|destruct before; [destruct (d =? _)|]]; rewrite ?length_app; cbn [length fill_assigns]; lia.
Qed.

(** An element of a list with entries at [pe]. *)
Section Entries.
Context (pe : Z) (Hpe : - 2 ^ 62 < pe < 2 ^ 62).
Definition element (x : Z) : Prop := 0 < x < 2 ^ 62 /\ x + pe ∈ E.

Lemma entry_addr x : element x -> OBJ_OFF_TO_PTR b (u64 (x + pe)) = b + (x + pe).
Proof.
  intros [Hx He]. destruct (gm_entry G _ 0 He) as (_ & H1 & H2 & _); [set_solver|]. pose proof (gm_base G). unfold OBJ_OFF_TO_PTR. rewrite (u64_small (x + pe)) by lia. apply u64_small. lia.
Qed.

Lemma link_addr x k : element x -> 0 <= k <= 24 -> u64 (b + u64_add_offset (u64 (x + k)) pe) = b + (x + pe) + k.
Proof.
  intros [Hx He] Hk. destruct (gm_entry G _ 0 He) as (_ & H1 & H2 & _); [set_solver|]. pose proof (gm_base G). unfold u64_add_offset. rewrite (u64_small (x + k)) by lia.
  destruct (Z.leb_spec 0 pe); (rewrite (u64_small (x + k + pe)) || rewrite (u64_small (x + k - - pe))); try lia; rewrite u64_small by lia; lia.
Qed.

Lemma element_range x : element x -> 0 <= x < 2 ^ 64.
Proof. intros [? _]. lia. Qed.

(** The identifiers of the pool in the entry of [o] are stored directly. *)
Definition uuid_stored (st : lst) (o : Z) : Prop := uuid_set uuid_lo (cells_of (lmem st)) pe o.

Lemma going_uuid st l o : going st l -> element o -> fresh (b + (o + pe)) -> fresh (b + (o + pe) + 16) ->
  let st' := on_lmem (fun s => pmemops_persist p_ops (b + (o + pe)) sizeof_list_entry
    (st_store64 (oid_uuid_addr (pe_prev (b + (o + pe)))) uuid_lo (st_store64 (oid_uuid_addr (pe_next (b + (o + pe)))) uuid_lo s))) st in
  going st' l /\ uuid_stored st' o.
Proof.
  intros (ctx & s1 & n & -> & Hc & Hq & Hlk & Hl) [_ He] F1 F2. pose proof (gm_layout G) as HL. unfold on_lmem, oid_uuid_addr, pe_prev, pe_next, sizeof_list_entry, pmemops_persist. rewrite (ol_table _ _ _ _ _ _ HL).
  set (w := b + (o + pe)) in *. set (s2 := obj_norep_persist _ _ _).
  assert (forall k, k ∈ [0; 8; 16; 24] -> in_pool (w + k)) as Hw by (intros k Hk; destruct (gm_entry G _ k He Hk) as (_ & _ & _ & ? & _); by replace (w + k) with (b + (o + pe) + k) by (unfold w; lia)).
  pose proof (Hw 0 ltac:(set_solver)) as P0. rewrite Z.add_0_r in P0. pose proof (Hw 8 ltac:(set_solver)) as P1. pose proof (Hw 16 ltac:(set_solver)) as P2. pose proof (Hw 24 ltac:(set_solver)) as P3.
  assert (apart dest (64 + nbytes) w 32 /\ apart src shadow_span w 32) as [A1 A2].
  { destruct P0 as (_ & X0 & [Y0 _]), P1 as (_ & X1 & [Y1 _]), P2 as (_ & X2 & [Y2 _]), P3 as (_ & X3 & [Y3 _]). destruct HL as [_ _ _ _ _ _ [L7 _] _ _]. unfold apart, shadow_span, used_span in *. lia. }
  set (evs := [EvStore w (le64 uuid_lo); EvStore (w + 16) (le64 uuid_lo)]).
  assert (trace s2 = trace s1 ++ evs ++ [EvFlush w 32; EvDrain]) as T by (unfold s2, evs; cbn; by rewrite <- !app_assoc).
  assert (vis s2 = replay (vis s1) evs) as V by done.
  assert (stored w 32 s1 s2) as Hst by (exists evs; split; [repeat constructor; rewrite ?length_le64; lia|done]).
  split.
  - exists ctx, s2, n. split; [done|]. split; [by apply (collect_stored p_ops dest src nbytes total m0 volatile w 32 ctx s1); try done; apply P0|]. split; [|split; [|done]].
    2:{ intros x Hx. eapply agree_trans; [|by apply Hlk]. rewrite V. apply replay_avoids. destruct (ol_volatile _ _ _ _ _ _ HL x Hx) as (X8 & _).
        assert (forall y, in_pool y -> y + 8 <= x \/ x + 8 <= y) as Hfar.
        { intros y (Y8 & _ & _ & Hy). assert (y <> x) as Hne by (intros ->; done). pose proof (aligned_apart _ _ Y8 X8 Hne). lia. }
        pose proof (Hfar _ P0). pose proof (Hfar _ P2). apply Forall_cons_2; [|apply Forall_cons_2; [|constructor]]; cbn [ev_avoids]; rewrite length_le64; lia. }
    apply (calm_stored p_ops dest src nbytes total m0 volatile fuel s0 fresh w 32 s1 s2 evs); try done; [apply Hc|]. apply Forall_cons_2; [done|]. apply Forall_cons_2; [done|constructor].
  - unfold uuid_stored, uuid_set, cells_of, lmem. cbn [fst snd cell_off]. rewrite V. unfold evs. cbn [replay foldl apply_ev]. pose proof (gm_uuid G) as Hu. fold w.
    replace (b + (o + pe + 16)) with (w + 16) by (unfold w; lia). rewrite load64_write_disj by (rewrite length_le64; lia). rewrite !load64_write_same, !u64_small by lia. done.
Qed.

Lemma going_fill st l o eptr nx pv set_uuid : going st l -> element o -> eptr = b + (o + pe) -> 0 <= nx < 2 ^ 64 -> 0 <= pv < 2 ^ 64 -> (length l < 13)%nat ->
  (set_uuid = true -> fresh (b + (o + pe)) /\ fresh (b + (o + pe) + 16)) ->
  let st' := list_fill_entry_redo_log p_ops uuid_lo al (ArgsCommon pe o eptr) nx pv set_uuid st in
  going st' (l ++ fill_assigns pe o nx pv) /\ (set_uuid = true -> uuid_stored st' o).
Proof.
  intros Hg Ho -> Hnx Hpv Hn Hf. unfold list_fill_entry_redo_log. cbn [ac_entry_ptr ac_obj_doffset ac_pe_offset]. change PREV_OFF with 24. change NEXT_OFF with 8. fold b.
  rewrite (link_addr o 24), (link_addr o 8) by (done || lia). set (st1 := if set_uuid then _ else st).
  assert (going st1 l /\ (set_uuid = true -> uuid_stored st1 o)) as [H1 U1].
  { unfold st1. destruct set_uuid; [|done]. destruct (Hf eq_refl) as [F1 F2]. destruct (going_uuid st l o Hg Ho F1 F2) as [G1 G2]. done. }
  destruct (going_add st1 l (CNext (o + pe)) nx (b + (o + pe) + 8) H1) as [H2 K2]; [apply Ho|done|lia|cbn; lia|]. set (st2 := add_set al (b + (o + pe) + 8) nx st1) in *.
  destruct (going_add st2 _ (CPrev (o + pe)) pv (b + (o + pe) + 24) H2) as [H3 K3]; [apply Ho|done|rewrite length_app; cbn; lia|cbn; lia|].
  split; [by rewrite <- app_assoc in H3|]. intros Eu. destruct (U1 Eu) as [V1 V2].
  assert (forall c, play c -> cells_of (lmem (add_set al (b + (o + pe) + 24) pv st2)) c = cells_of (lmem st1) c) as K.
  { intros c Hc. destruct (play_word c Hc) as (Hw & _). unfold cells_of. rewrite (agree_load64 _ _ _ (K3 _ Hw)). by apply agree_load64, K2. }
  unfold uuid_stored, uuid_set. by rewrite !K by apply Ho.
Qed.

(** ** The functions of list.c on cells *)

Section OneList.
Context (head : Z) (xs : list Z) (Hh : head ∈ H) (Hl : list_at uuid_lo s head pe xs) (Hxs : Forall element xs).

Lemma xs_element x : x ∈ xs -> element x.
Proof. intros Hx. rewrite Forall_forall in Hxs. by apply Hxs. Qed.

Lemma going_remove st l o : going st l -> o ∈ xs -> (length l < 11)%nat ->
  going (list_remove_single p_ops uuid_lo al (ArgsRemove pe o head (b + (o + pe))) st) (l ++ remove_assigns uuid_lo s head pe o).
Proof.
  intros Hg Ho Hn. pose proof (xs_element o Ho) as He. destruct (neighbours s pe xs o (la_links _ _ _ _ _ Hl) Ho) as [Hni Hpi].
  pose proof (xs_element _ Hni) as Hne. pose proof (xs_element _ Hpi) as Hpre. unfold list_remove_single, remove_assigns, oid_off_addr, pe_next, pe_prev, pe_first.
  cbn [ar_entry_ptr ar_obj_doffset ar_head ar_pe_offset]. rewrite (going_load st l (CNext (o + pe))), (going_load st l (CPrev (o + pe))) by (try apply stable_next; try apply stable_prev; try apply He; done || (cbn; lia)).
  set (n := s (CNext (o + pe))) in *. set (p := s (CPrev (o + pe))) in *. destruct (n =? o); [apply going_update_head; [done|done|lia|lia]|].
  change PREV_OFF with 24. change NEXT_OFF with 8. fold b. rewrite (link_addr n 24), (link_addr p 8) by (done || lia).
  assert (going (add_set al (b + (p + pe) + 8) n (add_set al (b + (n + pe) + 24) p st)) ((l ++ [(CPrev (n + pe), p)]) ++ [(CNext (p + pe), n)])) as H2.
  { apply going_set; [apply going_set; [done|apply Hne|by apply element_range|lia|cbn; lia]|apply Hpre|by apply element_range|rewrite length_app; cbn; lia|cbn; lia]. }
  rewrite (going_load _ _ (CFirst head) (head + 8) H2) by (by apply stable_first || (cbn; lia)). rewrite <- app_assoc in H2. cbn [app] in H2 |- *.
  destruct (s (CFirst head) =? o); [|done].
  replace (l ++ (CPrev (n + pe), p) :: (CNext (p + pe), n) :: head_assigns uuid_lo s head n) with ((l ++ [(CPrev (n + pe), p); (CNext (p + pe), n)]) ++ head_assigns uuid_lo s head n) by (by rewrite <- app_assoc).
  apply going_update_head; [done|done|by apply element_range|rewrite length_app; cbn; lia].
Qed.

Lemma going_insert_user st l u d ptr before o eptr : going st l -> element o -> d ∈ xs \/ d = 0 -> (d ∈ xs -> ptr = b + (d + pe)) -> (length l < 11)%nat ->
  let '(nx, pv, la) := insert_assigns uuid_lo s head pe d before o in
  exists st', list_insert_user p_ops uuid_lo al (ArgsInsert head (Oid u d) ptr before) (ArgsCommon pe o eptr) st = (nx, pv, st') /\ going st' (l ++ la).
Proof.
  intros Hg Ho Hd Hptr Hn. pose proof (element_range o Ho) as Hor. unfold list_insert_user, insert_assigns. cbn [ai_dest oid_off ac_obj_doffset ai_head ai_before].
  destruct (Z.eqb_spec d 0) as [->|Hd0]; [eexists; split; [reflexivity|]; apply going_update_head; [done|done|done|lia]|].
  destruct Hd as [Hd|?]; [|done]. rewrite (Hptr Hd). pose proof (xs_element d Hd) as He. destruct (neighbours s pe xs d (la_links _ _ _ _ _ Hl) Hd) as [Hni Hpi].
  pose proof (xs_element _ Hni) as Hne. pose proof (xs_element _ Hpi) as Hpr. destruct before.
  - unfold list_insert_before. cbn [ai_dest oid_off ac_obj_doffset ai_dest_entry_ptr ac_pe_offset]. unfold oid_off_addr, pe_prev, pe_first.
    rewrite (going_load st l (CPrev (d + pe))) by (try apply stable_prev; try apply He; done || (cbn; lia)). set (p := s (CPrev (d + pe))) in *.
    change PREV_OFF with 24. change NEXT_OFF with 8. fold b. rewrite (link_addr d 24), (link_addr p 8) by (done || lia).
    assert (going (add_set al (b + (p + pe) + 8) o (add_set al (b + (d + pe) + 24) o st)) ((l ++ [(CPrev (d + pe), o)]) ++ [(CNext (p + pe), o)])) as H2.
    { apply going_set; [apply going_set; [done|apply He|done|lia|cbn; lia]|apply Hpr|done|rewrite length_app; cbn; lia|cbn; lia]. }
    rewrite (going_load _ _ (CFirst head) (head + 8) H2) by (by apply stable_first || (cbn; lia)). rewrite <- app_assoc in H2. cbn [app] in H2 |- *.
    destruct (d =? s (CFirst head)); eexists; (split; [reflexivity|]); [|done].
    replace (l ++ (CPrev (d + pe), o) :: (CNext (p + pe), o) :: head_assigns uuid_lo s head o) with ((l ++ [(CPrev (d + pe), o); (CNext (p + pe), o)]) ++ head_assigns uuid_lo s head o) by (by rewrite <- app_assoc).
    apply going_update_head; [done|done|done|rewrite length_app; cbn; lia].
  - unfold list_insert_after. cbn [ai_dest oid_off ac_obj_doffset ai_dest_entry_ptr ac_pe_offset]. unfold oid_off_addr, pe_next.
    rewrite (going_load st l (CNext (d + pe))) by (try apply stable_next; try apply He; done || (cbn; lia)). set (n := s (CNext (d + pe))) in *.
    change PREV_OFF with 24. change NEXT_OFF with 8. fold b. rewrite (link_addr d 8), (link_addr n 24) by (done || lia). eexists. split; [reflexivity|].
    replace (l ++ [(CNext (d + pe), o); (CPrev (n + pe), o)]) with ((l ++ [(CNext (d + pe), o)]) ++ [(CPrev (n + pe), o)]) by (by rewrite <- app_assoc).
    apply going_set; [apply going_set; [done|apply He|done|lia|cbn; lia]|apply Hne|done|rewrite length_app; cbn; lia|cbn; lia].
Qed.
Lemma get_dest_mem st l d before : going st l -> oid_off (list_get_dest p_ops (lmem st) head d pe before) = dest_of xs (oid_off d) before.
Proof.
  intros Hg. rewrite <- (get_dest_of uuid_lo s head pe xs) by done. unfold list_get_dest, get_dest. destruct (Z.eqb_spec (oid_off d) 0) as [_|_]; [|done]. cbn [negb load_oid oid_off].
  unfold oid_off_addr, pe_first. rewrite (going_load _ _ (CFirst head) (head + 8) Hg) by (by apply stable_first || (cbn; lia)). set (f := s (CFirst head)).
  replace (Bool.eqb before POBJ_LIST_DEST_HEAD) with before by (by destruct before). destruct ((f =? 0) || before) eqn:Ef; [apply (going_load _ _ (CFirst head) (head + 8) Hg); [by apply stable_first|cbn; lia]|].
  apply orb_false_iff in Ef as [Ef _]. assert (f ∈ xs) as Hf.
  { unfold f in *. rewrite (la_first _ _ _ _ _ Hl) in *. destruct xs; [done|by left]. }
  pose proof (xs_element f Hf) as He. fold b. rewrite (entry_addr f He). unfold load_oid, oid_off_addr, pe_prev. cbn [oid_off]. apply (going_load _ _ (CPrev (f + pe)) _ Hg); [apply stable_prev, He|cbn; lia].
Qed.

Lemma insert_neighbours d before o : element o -> d ∈ xs \/ d = 0 ->
  let '(nx, pv, la) := insert_assigns uuid_lo s head pe d before o in 0 <= nx < 2 ^ 64 /\ 0 <= pv < 2 ^ 64 /\ (length la <= 4)%nat.
Proof.
  intros Ho Hd. pose proof (element_range o Ho). pose proof (length_head o head) as Hh2.
  unfold insert_assigns. destruct (Z.eqb_spec d 0) as [->|Hd0]; [split; [done|]; split; [done|lia]|]. destruct Hd as [Hd|?]; [|done].
  destruct (neighbours s pe xs d (la_links _ _ _ _ _ Hl) Hd) as [Hni%xs_element%element_range Hpi%xs_element%element_range]. pose proof (element_range d (xs_element d Hd)).
  destruct before; (split; [done|]; split; [done|]); [|cbn; lia]. destruct (_ =? _); rewrite ?length_app; cbn [length]; lia.
Qed.

(** After the lookup of the neighbours: the links around [o] and its entry. *)
Lemma going_place st l u d before o eptr set_uuid : going st l -> element o -> d ∈ xs \/ d = 0 -> eptr = b + (o + pe) -> (length l < 9)%nat ->
  (set_uuid = true -> fresh (b + (o + pe)) /\ fresh (b + (o + pe) + 16)) ->
  let '(nx, pv, st1) := list_insert_user p_ops uuid_lo al (ArgsInsert head (Oid u d) (OBJ_OFF_TO_PTR b (u64 (d + pe))) before) (ArgsCommon pe o eptr) st in
  let st' := list_fill_entry_redo_log p_ops uuid_lo al (ArgsCommon pe o eptr) nx pv set_uuid st1 in
  going st' (l ++ place_assigns uuid_lo s head pe d before o) /\ (set_uuid = true -> uuid_stored st' o).
Proof.
  intros Hg Ho Hd He Hn Hf. pose proof (insert_neighbours d before o Ho Hd) as Hr.
  pose proof (going_insert_user st l u d (OBJ_OFF_TO_PTR b (u64 (d + pe))) before o eptr Hg Ho Hd (fun Hx => entry_addr d (xs_element d Hx)) ltac:(lia)) as Hi.
  unfold place_assigns. destruct (insert_assigns uuid_lo s head pe d before o) as [[nx pv] la]. destruct Hr as (R1 & R2 & R3). destruct Hi as (st1 & -> & Hg1).
  rewrite app_assoc. apply going_fill; try done. rewrite length_app. lia.
Qed.

Lemma going_insert st d before u o : going st [] -> element o -> oid_off d = 0 \/ oid_off d ∈ xs -> fresh (b + (o + pe)) -> fresh (b + (o + pe) + 16) ->
  let st' := insert_entries p_ops uuid_lo al pe head d before (Oid u o) st in
  going st' (place_assigns uuid_lo s head pe (dest_of xs (oid_off d) before) before o) /\ uuid_stored st' o.
Proof.
  intros Hg Ho Hd F1 F2. unfold insert_entries. cbn [oid_off]. fold b. rewrite (entry_addr _ Ho). pose proof (get_dest_mem st [] d before Hg) as Ed. destruct (list_get_dest p_ops (lmem st) head d pe before) as [ud d'].
  cbn [oid_off] in Ed |- *. pose proof (dest_place xs d before Hd) as Hp. rewrite <- Ed in Hp |- *.
  pose proof (going_place st [] ud d' before o (b + (o + pe)) true Hg Ho ltac:(tauto) eq_refl ltac:(cbn; lia) ltac:(done)) as Hgp.
  destruct (list_insert_user _ _ _ _ _ _) as [[nx pv] st1]. destruct Hgp as [H1 H2]. split; [done|by apply H2].
Qed.

Lemma going_remove_entries st u o : going st [] -> o ∈ xs ->
  going (remove_entries p_ops uuid_lo al pe head (Oid u o) st) (remove_assigns uuid_lo s head pe o ++ fill_assigns pe o 0 0).
Proof.
  intros Hg Ho. pose proof (xs_element o Ho) as He. unfold remove_entries. cbn [oid_off]. fold b. rewrite (entry_addr _ He). pose proof (going_remove st [] o Hg Ho ltac:(cbn; lia)) as H1.
  apply going_fill; [done|done|done|lia|lia| |done]. pose proof (length_remove head pe o). cbn [app]. lia.
Qed.
End OneList.
End Entries.

(** ** Moving, within a list or to another *)

Section Move.
Context (pe_old pe_new : Z) (Hpo : - 2 ^ 62 < pe_old < 2 ^ 62) (Hpn : - 2 ^ 62 < pe_new < 2 ^ 62).
Context (head_old head_new : Z) (xs ys : list Z) (Ho : head_old ∈ H) (Hn : head_new ∈ H).
Hypothesis (Lo : list_at uuid_lo s head_old pe_old xs) (Ln : list_at uuid_lo s head_new pe_new ys).
Hypothesis (Eo : Forall (element pe_old) xs) (En : Forall (element pe_new) ys).
Hypothesis (Same : head_old = head_new -> pe_old = pe_new /\ xs = ys).

Lemma going_move st d before u o : going st [] -> o ∈ xs -> element pe_new o -> oid_off d = 0 \/ oid_off d ∈ ys ->
  (pe_new <> pe_old -> fresh (b + (o + pe_new)) /\ fresh (b + (o + pe_new) + 16)) ->
  let d' := dest_of ys (oid_off d) before in
  let st' := move_entries p_ops uuid_lo al pe_old head_old pe_new head_new d before (Oid u o) st in
  going st' (move_assigns uuid_lo s head_old pe_old head_new pe_new d' before o) /\ (pe_new <> pe_old -> uuid_stored pe_new st' o).
Proof.
  intros Hg Hx Hen Hd Hf d' st'. assert (element pe_old o) as Hex by (by apply (xs_element _ xs)). subst st'. unfold move_entries, move_assigns. cbn [oid_off]. fold b.
  rewrite (entry_addr pe_old Hpo o Hex), (entry_addr pe_new Hpn o Hen). pose proof (get_dest_mem pe_new Hpn head_new ys Hn Ln En st [] d before Hg) as Ed. fold d' in Ed.
  pose proof (dest_place ys d before Hd) as Hp. fold d' in Hp. destruct (list_get_dest p_ops (lmem st) head_new d pe_new before) as [ud dd]. cbn [oid_off] in Ed |- *. subst dd.
  assert (head_old = head_new -> d' ∈ ys) as Hin by (intros Eh; destruct (Same Eh) as [_ <-]; destruct Hp as [?|[_ ->]]; [done|by apply elem_of_nil in Hx]).
  unfold oid_off_addr, pe_next, pe_prev, pe_first.
  assert (head_old = head_new -> load64 (lmem st) (OBJ_OFF_TO_PTR b (u64 (d' + pe_new)) + 16 + 8) = s (CPrev (d' + pe_new)) /\
    load64 (lmem st) (OBJ_OFF_TO_PTR b (u64 (d' + pe_new)) + 8) = s (CNext (d' + pe_new)) /\
    load64 (lmem st) (b + (o + pe_old) + 8) = s (CNext (o + pe_old)) /\ load64 (lmem st) (head_old + 8) = s (CFirst head_old)) as HL.
  { intros Eh. pose proof (Hin Eh) as Hd'. assert (element pe_new d') as He by (by apply (xs_element _ ys)). rewrite (entry_addr pe_new Hpn d' He).
    rewrite (going_load st [] (CPrev (d' + pe_new))), (going_load st [] (CNext (d' + pe_new))), (going_load st [] (CNext (o + pe_old))), (going_load st [] (CFirst head_old));
      try done; try (cbn; lia); [by apply stable_first|apply stable_next, Hex|apply stable_next, He|apply stable_prev, He]. }
  assert (let '(nx, pv, st1) := list_insert_user p_ops uuid_lo al (ArgsInsert head_new (Oid ud d') (OBJ_OFF_TO_PTR b (u64 (d' + pe_new))) before) (ArgsCommon pe_new o (b + (o + pe_new)))
        (list_remove_single p_ops uuid_lo al (ArgsRemove pe_old o head_old (b + (o + pe_old))) st) in
      let st' := list_fill_entry_redo_log p_ops uuid_lo al (ArgsCommon pe_new o (b + (o + pe_new))) nx pv (negb (pe_new =? pe_old)) st1 in
      going st' (remove_assigns uuid_lo s head_old pe_old o ++ place_assigns uuid_lo s head_new pe_new d' before o) /\ (pe_new <> pe_old -> uuid_stored pe_new st' o)) as Hall.
  { pose proof (going_remove pe_old Hpo head_old xs Ho Lo Eo st [] o Hg Hx ltac:(cbn; lia)) as H1. cbn [app] in H1.
    pose proof (going_place pe_new Hpn head_new ys Hn Ln En _ _ ud d' before o (b + (o + pe_new)) (negb (pe_new =? pe_old)) H1 Hen ltac:(tauto) eq_refl) as H2.
    destruct (list_insert_user _ _ _ _ _ _) as [[nx pv] st1]. destruct H2 as [H2 H3]; [pose proof (length_remove head_old pe_old o); lia|destruct (Z.eqb_spec pe_new pe_old); cbn; [done|auto]|].
    split; [done|]. intros Hne. apply H3. by destruct (Z.eqb_spec pe_new pe_old). }
  destruct (Z.eqb_spec head_old head_new) as [Eh|Eh]; cbn [andb].
  - destruct (HL Eh) as (-> & -> & -> & ->). assert (pe_new <> pe_old -> False) as Hpe by (intros Hne; apply Hne; symmetry; apply (Same Eh)).
    destruct (d' =? o); [split; [done|tauto]|]. destruct (before && (s (CPrev (d' + pe_new)) =? o)).
    { split; [|tauto]. destruct (s (CFirst head_old) =? d'); cbn [negb]; [|done]. apply (going_update_head st [] head_old o Hg Ho); [by apply (element_range pe_old)|cbn; lia]. }
    destruct (negb before && (s (CNext (d' + pe_new)) =? o)); [|revert Hall; by destruct (list_insert_user _ _ _ _ _ _) as [[nx pv] st1]].
    split; [|tauto]. destruct (s (CFirst head_old) =? o); cbn [negb]; [|done]. apply (going_update_head st [] head_old _ Hg Ho); [|cbn; lia].
    apply (element_range pe_old), (xs_element _ xs); [done|]. by apply (neighbours s pe_old xs o (la_links _ _ _ _ _ Lo)).
  - revert Hall. by destruct (list_insert_user _ _ _ _ _ _) as [[nx pv] st1].
Qed.
End Move.
End Run.

(** ** The end of the operation *)

(** Recovery gives cells with the property. *)
Definition recovered (img : mem) (P : store_of -> Prop) : Prop :=
  exists r, ulog_recover (S fuel) dest p_ops (PMst img [] false) = Some r /\ P (cells_of (vis r)).

Lemma log_locks l m w : Forall value_ok l -> volatile w -> load64 (apply_log b (map to_vent l) m) w = load64 m w.
Proof.
  intros Hl Hw. destruct (value_vents l Hl) as [V1 V2]. destruct (ol_volatile _ _ _ _ _ _ (gm_layout G) w Hw) as (W8 & _). pose proof (ol_base8 _ _ _ _ _ _ (gm_layout G)) as B8. fold b in B8.
  replace w with (b + (w - b)) by lia. rewrite load64_apply_log; [|done|done|rewrite Zminus_mod, W8, B8; done]. apply word_log_other, Forall_map. eapply Forall_impl; [exact Hl|].
  intros [c v] [Hp _]. cbn [to_vent ve_off fst]. destruct (play_word c Hp) as ((_ & _ & _ & Hn) & _). intros Eo. apply Hn. by rewrite Eo, Zplus_minus.
Qed.

Lemma run_going push collect ctx s0 sl fresh l :
  let st := collect (operation_start ctx, (pop, sl), 0%nat) in
  let new := fun x => forall c, play c -> x c = assigns (cells_of (lmem st)) l c in
  let old := fun x => forall c, stable fresh c -> x c = cells_of (vis s0) c in
  going s0 sl fresh st l -> (length l <= 14)%nat -> (16 <= fuel)%nat ->
  exists ctx' s' tr,
    run_entries (S fuel) push collect ctx (pop, sl) = Some (ctx', (pop, s')) /\
    op_ready p_ops dest src nbytes total m0 volatile ctx' s' /\ runs_through dest (trace s0) tr (trace s') /\
    new (cells_of (vis s')) /\ (forall w, volatile w -> load64 (vis s') w = load64 (vis sl) w) /\
    (forall n img, crash_image m0 (trace s0 ++ take n tr) img -> recovered img old \/ recovered img new \/ torn dest (S fuel) img) /\
    (forall img, crash_image m0 (trace s') img -> recovered img new).
Proof.
  intros st new old (c & s1 & n & Est & Hc & Hq & Hlk & Hl) Hlen Hf. pose proof (gm_layout G) as HL.
  destruct (calm_outcome p_ops dest src nbytes total pop m0 volatile fuel s0 fresh push c s1 (map to_vent l) HL Hc Hq) as (c' & s' & tr & Er & Hr & T & Hv & H1 & H2); [by rewrite length_map|done|].
  exists c', s', tr. split; [unfold run_entries; fold st; rewrite Est; exact Er|]. split; [done|]. split; [done|].
  assert (forall m c0, (forall w, in_pool w -> agree m (apply_log b (map to_vent l) (vis s1)) w 8) -> play c0 -> cells_of m c0 = assigns (cells_of (lmem st)) l c0) as Hnew.
  { intros m c0 Hm Hc0. rewrite Est. unfold lmem. cbn [fst snd]. rewrite <- (log_assigns l (vis s1) c0 Hl Hc0). apply agree_load64, Hm. by apply play_word. }
  split; [intros c0 Hc0; apply Hnew; [|done]; intros w Hw; by apply Hv, pool_word_outside with volatile|]. split.
  { intros w Hw. rewrite (agree_load64 _ _ _ (Hv w (ol_volatile _ _ _ _ _ _ HL w Hw))). rewrite log_locks by done. by apply agree_load64, Hlk. }
  assert (forall img, recovers p_ops dest src nbytes volatile (S fuel) img (apply_log b (map to_vent l) (vis s1)) -> recovered img new) as Hrec.
  { intros img (r & Er' & Hs). exists r. split; [done|]. intros c0 Hc0. apply Hnew; [|done]. intros w Hw. apply Hs; [apply Hw|done]. }
  split; [|intros img Hi; by apply Hrec, H2]. intros k img Hi. destruct (H1 k img Hi) as [(r & Er' & Hs)|[Hn|Ht]]; [left|right; left; by apply Hrec|by right; right].
  exists r. split; [done|]. intros c0 [Hc0 Hst]. apply agree_load64, Hs; destruct (play_word c0 Hc0) as (Hw & _); [apply Hw|by split].
Qed.

(** ** The locks of the heads *)

Section Locks.
Context (run_id : Z) (Hrun : 1 < run_id < 2 ^ 64).
Context {M : Type} (os_init os_lock os_unlock : _) (free held : M -> Prop) `{HM : !OsMutex os_init os_lock os_unlock free held}.
Implicit Types (s : pmst) (mus : gmap Z M) (h : Z) (T : list Z).

(** A lock that can be taken: free, or left by an earlier run of the program. *)
Definition usable s mus h : Prop :=
  exists m, mus !! head_lock h = Some m /\
    (load64 (vis s) (head_lock h) = run_id /\ free m \/
     load64 (vis s) (head_lock h) <> run_id /\ load64 (vis s) (head_lock h) <> run_id - 1 /\ (os_init m).1 = 0).
Definition taken s mus h : Prop := exists m, mus !! head_lock h = Some m /\ load64 (vis s) (head_lock h) = run_id /\ held m.
(** The locks of [T] are taken. *)
Definition lock_states s mus T : Prop := forall h, h ∈ H -> (h ∈ T -> taken s mus h) /\ (h ∉ T -> usable s mus h).

(** The stores of the initialization of a lock. *)
Definition lock_stores (a : Z) s s1 : Prop := s1 = s \/ s1 = st_store64 a run_id (st_store64 a (run_id - 1) s).

Lemma lock_stores_keep a s s1 : volatile a -> lock_stores a s s1 -> op_mem dest src m0 volatile s ->
  op_mem dest src m0 volatile s1 /\ (forall s0 fresh, calm p_ops dest src nbytes m0 volatile fuel s0 fresh s -> calm p_ops dest src nbytes m0 volatile fuel s0 fresh s1) /\
  (forall w, w mod 8 = 0 -> w <> a -> load64 (vis s1) w = load64 (vis s) w).
Proof.
  intros Ha [->| ->] Hm; [done|]. pose proof (gm_layout G) as HL. destruct (volatile_store p_ops dest src nbytes total m0 volatile a (run_id - 1) s HL Hm Ha) as [Hm1 _].
  split; [apply (volatile_store p_ops dest src nbytes total m0 volatile a run_id _ HL Hm1 Ha)|]. split.
  - intros s0 fresh Hc. by apply (calm_volatile p_ops dest src nbytes total); [|done|apply (calm_volatile p_ops dest src nbytes total)|].
  - intros w W8 Hne. destruct (ol_volatile _ _ _ _ _ _ HL a Ha) as (A8 & _). pose proof (aligned_apart _ _ W8 A8 Hne). cbn [st_store64 st_store vis].
    rewrite !load64_write_disj by (rewrite length_le64; lia). done.
Qed.

Lemma on_lock_run fl op s m m' a : load64 (vis s) a = run_id -> op m = Some (0, m') -> on_object run_id os_init a fl op (s, m) = Some (0, (s, m')).
Proof. intros Er Eo. unfold on_object, get_object. cbn [fst]. rewrite Er, Z.eqb_refl. cbn [mbind option_bind negb snd]. by rewrite Eo. Qed.

Lemma lock_run s mus h T : (5 <= fuel)%nat -> lock_states s mus T -> h ∈ H -> h ∉ T -> op_mem dest src m0 volatile s ->
  exists s1 mus1, mutex_lock run_id (S fuel) os_init os_lock (head_lock h) (pop, s) mus = Some (0, (pop, s1), mus1) /\
    lock_states s1 mus1 (h :: T) /\ lock_stores (head_lock h) s s1.
Proof.
  intros Hfu HT Hh Hn Hm. destruct (proj2 (HT h Hh) Hn) as (m & Em & Hcase). pose proof (gm_lock G h Hh) as Hv.
  assert (exists s1 m1, pmemobj_mutex_lock run_id os_init os_lock (S fuel) (head_lock h) (s, m) = Some (0, (s1, m1)) /\ load64 (vis s1) (head_lock h) = run_id /\ held m1 /\ lock_stores (head_lock h) s s1) as (s1 & m1 & El & E1 & Hh1 & Hst).
  { destruct Hcase as [[Er Hf]|(N1 & N2 & Ei)].
    - destruct (os_lock_held m Hf) as (m' & E' & Hm'). exists s, m'. split; [by apply on_lock_run|]. split; [done|]. split; [done|by left].
    - destruct (os_lock_held _ (os_init_free m Ei)) as (m' & E' & Hm'). exists (st_store64 (head_lock h) run_id (st_store64 (head_lock h) (run_id - 1) s)), m'.
      split; [|split; [cbn [st_store64 st_store vis]; rewrite load64_write_same; apply u64_small; lia|split; [done|by right]]].
      unfold pmemobj_mutex_lock, on_object, get_object, _get_value. cbn [fst]. rewrite (proj2 (Z.eqb_neq _ _) N1).
      replace (S fuel) with (5 + (S fuel - 5))%nat by lia. rewrite (alone_read run_id os_init (head_lock h) Hrun (S fuel - 5) s m N1 N2). unfold init_outcome.
      destruct (os_init m) as [r m2]. cbn [fst snd] in *. subst r. cbn [Z.eqb mbind option_bind negb snd fst]. by rewrite E'. }
  exists s1, (<[head_lock h := m1]> mus). split; [unfold mutex_lock, with_mutex; rewrite Em; cbn [mbind option_bind snd fst]; by rewrite El|]. split; [|done].
  destruct (lock_stores_keep (head_lock h) s s1 Hv Hst Hm) as (_ & _ & Hk).
  intros h' Hh'. destruct (decide (h' = h)) as [->|Hne].
  - split; [|set_solver]. intros _. exists m1. split; [by rewrite lookup_insert_eq|done].
  - assert (head_lock h <> head_lock h') as Hnl by (unfold head_lock; lia). destruct (ol_volatile _ _ _ _ _ _ (gm_layout G) _ (gm_lock G h' Hh')) as (L8 & _).
    unfold taken, usable. rewrite lookup_insert_ne by done. rewrite Hk by (done || congruence). destruct (HT h' Hh') as [H1 H2]. split; intros Hx; [apply H1; set_solver|apply H2; set_solver].
Qed.
Lemma unlock_run s mus h T : lock_states s mus (h :: T) -> h ∈ H -> h ∉ T ->
  exists mus1, mutex_unlock_nofail run_id (S fuel) os_init os_unlock (head_lock h) (pop, s) mus = Some ((pop, s), mus1) /\ lock_states s mus1 T.
Proof.
  intros HT Hh Hn. destruct (proj1 (HT h Hh) ltac:(by left)) as (m & Em & Er & Hm). destruct (os_unlock_free m Hm) as (m' & E' & Hf). exists (<[head_lock h := m']> mus). split.
  - unfold mutex_unlock_nofail, mutex_unlock, with_mutex, pmemobj_mutex_unlock. rewrite Em. cbn [mbind option_bind snd fst]. by rewrite (on_lock_run _ os_unlock s m m').
  - intros h' Hh'. destruct (decide (h' = h)) as [->|Hne].
    + split; [done|]. intros _. exists m'. split; [by rewrite lookup_insert_eq|by left].
    + assert (head_lock h <> head_lock h') as Hnl by (unfold head_lock; lia). unfold taken, usable. rewrite lookup_insert_ne by done. destruct (HT h' Hh') as [H1 H2].
      split; intros Hx; [apply H1; by right|apply H2; set_solver].
Qed.
(** One lock, or two in the order of their addresses. *)
Definition heads_of (h1 h2 : Z) : list Z := if (h2 =? 0) || (h1 =? h2) then [h1] else [h1; h2].

Lemma lock_states_perm s mus T T' : T ≡ₚ T' -> lock_states s mus T -> lock_states s mus T'.
Proof. intros Hp HT h Hh. destruct (HT h Hh) as [H1 H2]. by split; rewrite <- Hp. Qed.

Definition calm_on s s1 : Prop := forall s0 fresh, calm p_ops dest src nbytes m0 volatile fuel s0 fresh s -> calm p_ops dest src nbytes m0 volatile fuel s0 fresh s1.

Lemma locks_run s mus h1 h2 : (5 <= fuel)%nat -> h1 ∈ H -> h2 = 0 \/ h2 ∈ H -> lock_states s mus [] -> op_mem dest src m0 volatile s ->
  exists s1 mus1, list_mutexes_lock run_id (S fuel) os_init os_lock os_unlock h1 h2 (pop, s) mus = Some (0, (pop, s1), mus1) /\
    lock_states s1 mus1 (heads_of h1 h2) /\ op_mem dest src m0 volatile s1 /\ calm_on s s1.
Proof.
  intros Hfu H1 H2 HT Hm. unfold list_mutexes_lock, heads_of. destruct ((h2 =? 0) || (h1 =? h2)) eqn:Eh.
  { destruct (lock_run s mus h1 [] Hfu HT H1 ltac:(set_solver) Hm) as (s1 & mus1 & El & Hs & Hst). destruct (lock_stores_keep _ s s1 (gm_lock G h1 H1) Hst Hm) as (K1 & K2 & _). by exists s1, mus1. }
  apply orb_false_iff in Eh as [E0 E12]. apply Z.eqb_neq in E0, E12. destruct H2 as [?|H2]; [done|].
  assert (forall a c, a ∈ H -> c ∈ H -> a <> c -> exists s1 mus1, ('(ret, ws, mus) ← mutex_lock run_id (S fuel) os_init os_lock (head_lock a) (pop, s) mus;
    if negb (ret =? 0) then Some (ret, ws, mus) else
    '(ret, ws, mus) ← mutex_lock run_id (S fuel) os_init os_lock (head_lock c) ws mus;
    if negb (ret =? 0) then '(_, ws, mus) ← mutex_unlock run_id (S fuel) os_init os_unlock (head_lock a) ws mus; Some (ret, ws, mus) else Some (0, ws, mus)) = Some (0, (pop, s1), mus1) /\
    lock_states s1 mus1 [c; a] /\ op_mem dest src m0 volatile s1 /\ calm_on s s1) as Htwo.
  { intros a c Ha Hc Hne. destruct (lock_run s mus a [] Hfu HT Ha ltac:(set_solver) Hm) as (s1 & mus1 & -> & Hs & Hst). destruct (lock_stores_keep _ s s1 (gm_lock G a Ha) Hst Hm) as (K1 & K2 & _).
    cbn [mbind option_bind Z.eqb negb]. destruct (lock_run s1 mus1 c [a] Hfu Hs Hc ltac:(set_solver) K1) as (s2 & mus2 & -> & Hs2 & Hst2). destruct (lock_stores_keep _ s1 s2 (gm_lock G c Hc) Hst2 K1) as (K3 & K4 & _).
    exists s2, mus2. split; [done|]. split; [done|]. split; [done|]. intros s0 fresh Hq. by apply K4, K2. }
  destruct (head_lock h1 <? head_lock h2); [|exact (Htwo h2 h1 H2 H1 (not_eq_sym E12))]. destruct (Htwo h1 h2 H1 H2 E12) as (s1 & mus1 & El & Hs & K1 & K2). exists s1, mus1.
  split; [exact El|]. split; [|done]. by apply (lock_states_perm _ _ [h2; h1]); [apply Permutation_swap|].
Qed.

Lemma unlocks_run s mus h1 h2 : h1 ∈ H -> h2 = 0 \/ h2 ∈ H -> lock_states s mus (heads_of h1 h2) ->
  exists mus1, list_mutexes_unlock run_id (S fuel) os_init os_unlock h1 h2 (pop, s) mus = Some ((pop, s), mus1) /\ lock_states s mus1 [].
Proof.
  intros H1 H2 HT. unfold list_mutexes_unlock, heads_of in *. destruct ((h2 =? 0) || (h1 =? h2)) eqn:Eh; [apply (unlock_run s mus h1 []); [done|done|set_solver]|].
  apply orb_false_iff in Eh as [E0 E12]. apply Z.eqb_neq in E0, E12. destruct H2 as [?|H2]; [done|].
  destruct (unlock_run s mus h1 [h2] HT H1 ltac:(set_solver)) as (mus1 & -> & Hs). cbn [mbind option_bind]. apply (unlock_run s mus1 h2 []); [done|done|set_solver].
Qed.

(** ** Operations under locks *)

(** A lane between operations, and locks that are free. *)
Definition ready (ln : lane) s mus : Prop := op_ready p_ops dest src nbytes total m0 volatile (lane_external ln) s /\ lock_states s mus [].

Lemma hold_ready outermost ln s mus : ready ln s mus -> ready (hold_lane outermost ln) s mus.
Proof.
  intros [([C1 C2 C3 C4] & [I1 I2 I3] & Hm) Hs]. unfold hold_lane. destruct outermost; [|done]. split; [|done]. split; [by constructor|]. split; [|done].
  constructor; [done|apply (vecq_clear_spec _ I2)|done].
Qed.

(** What an operation does: it succeeds and the cells get from [before] to
    [after]; a power failure at any point up to the store that clears the redo log
    leaves one of them, unless the checksum of a torn log matches; after the
    return, the second. *)
Definition op_done (before after : store_of -> Prop) s (r : option (Z * lane * world * gmap Z M)) : Prop :=
  exists ln' s' mus' tr,
    r = Some (0, ln', (pop, s'), mus') /\ ready ln' s' mus' /\ runs_through dest (trace s) tr (trace s') /\ after (cells_of (vis s')) /\
    (forall n img, crash_image m0 (trace s ++ take n tr) img -> recovered img before \/ recovered img after \/ torn dest (S fuel) img) /\
    (forall img, crash_image m0 (trace s') img -> recovered img after).

Lemma op_done_mono (before before' after after' : store_of -> Prop) s r :
  (forall x, before x -> before' x) -> (forall x, after x -> after' x) -> op_done before after s r -> op_done before' after' s r.
Proof.
  intros Hb Ha (ln' & s' & mus' & tr & E1 & E2 & E3 & E4 & E5 & E6). assert (forall img, recovered img after -> recovered img after') as Hr by (intros img (r' & Er & Hx); exists r'; auto).
  exists ln', s', mus', tr. split; [done|]. split; [done|]. split; [done|]. split; [auto|]. split; [|auto].
  intros n img Hi. destruct (E5 n img Hi) as [(r' & Er & Hx)|[Hx|Hx]]; [left; exists r'; auto|right; left; auto|by right; right].
Qed.

Definition locked_op push (outermost : bool) h1 h2 collect ln (ws : world) mus : option (Z * lane * world * gmap Z M) :=
  let ln := hold_lane outermost ln in
  '(ret, ws, mus) ← list_mutexes_lock run_id (S fuel) os_init os_lock os_unlock h1 h2 ws mus;
  if negb (ret =? 0) then Some (-1, ln, ws, mus) else
  '(ctx, ws) ← run_entries (S fuel) push collect (lane_external ln) ws;
  '(ws, mus) ← list_mutexes_unlock run_id (S fuel) os_init os_unlock h1 h2 ws mus;
  Some (0, set_external ctx ln, ws, mus).

(** What was collected from the cells [s0], with the stores to [fresh] done. *)
Definition collected s (fresh : Z -> Prop) (extra : store_of -> Prop) (l : list (cell * Z)) (x : store_of) : Prop :=
  exists y, (forall c, stable fresh c -> y c = cells_of (vis s) c) /\ extra y /\ forall c, play c -> x c = assigns y l c.

Lemma locked_run push outermost h1 h2 collect ln s mus fresh extra l :
  ready ln s mus -> h1 ∈ H -> h2 = 0 \/ h2 ∈ H -> (16 <= fuel)%nat -> (length l <= 14)%nat ->
  (forall sl st, going s sl fresh st [] -> going s sl fresh (collect st) l /\ extra (cells_of (lmem (collect st)))) ->
  op_done (fun x => forall c, stable fresh c -> x c = cells_of (vis s) c) (collected s fresh extra l) s (locked_op push outermost h1 h2 collect ln (pop, s) mus).
Proof.
  intros Hr H1 H2 Hf Hlen Hcol. apply (hold_ready outermost) in Hr as [Hop Hs]. unfold locked_op. set (ln1 := hold_lane outermost ln) in *. pose proof Hop as (Hctx & Hidle & Hm). pose proof (gm_layout G) as HL.
  destruct (locks_run s mus h1 h2 ltac:(lia) H1 H2 Hs Hm) as (sl & mus1 & -> & Hs1 & Hm1 & Hq). cbn [mbind option_bind Z.eqb negb].
  destruct (Hcol sl (operation_start (lane_external ln1), (pop, sl), 0%nat)) as [Hg Hx].
  { eexists _, _, _. split; [done|]. split; [by apply start_collecting|]. split; [apply Hq; by apply (calm_refl p_ops dest src nbytes total)|]. split; [by intros w _ x _|constructor]. }
  destruct (run_going push collect (lane_external ln1) s sl fresh l Hg Hlen Hf) as (ctx' & s' & tr & -> & Hop' & T & Hnew & Hvol & Hc1 & Hc2). cbn [mbind option_bind].
  assert (lock_states s' mus1 (heads_of h1 h2)) as Hs'.
  { intros h Hh. unfold taken, usable. rewrite (Hvol _ (gm_lock G h Hh)). by apply Hs1. }
  destruct (unlocks_run s' mus1 h1 h2 H1 H2 Hs') as (mus2 & -> & Hs2). cbn [mbind option_bind]. set (st := collect _) in *.
  assert (forall x, (forall c, play c -> x c = assigns (cells_of (lmem st)) l c) -> collected s fresh extra l x) as Hcl.
  { intros x Hxc. exists (cells_of (lmem st)). split; [|done]. intros c Hc. by apply (going_load s sl fresh st l c (b + cell_off c)). }
  exists (set_external ctx' ln1), s', mus2, tr. split; [done|]. split; [done|]. split; [done|]. split; [by apply Hcl|].
  assert (forall img, recovered img (fun x => forall c, play c -> x c = assigns (cells_of (lmem st)) l c) -> recovered img (collected s fresh extra l)) as Hrc.
  { intros img (r & Er & Hxr). exists r. split; [done|]. by apply Hcl. }
  split; [|intros img Hi; by apply Hrc, Hc2]. intros n img Hi. destruct (Hc1 n img Hi) as [?|[?|?]]; [by left|right; left; by apply Hrc|by right; right].
Qed.
(** ** list.c *)

(** The list [xs], and the rest of the cells as it was. *)
Definition listed head pe xs touched s (x : store_of) : Prop :=
  list_at uuid_lo x head pe xs /\ forall c, play c -> ~ list_cell head pe touched c -> x c = cells_of (vis s) c.

(** The words of the identifiers in the entry of [o]. *)
Definition entry_uuids pe o (w : Z) : Prop := w = b + (o + pe) \/ w = b + (o + pe) + 16.

Lemma entry_uuids_cell pe o c : element pe o -> play c -> entry_uuids pe o (b + cell_off c) -> c = CNextUuid (o + pe) \/ c = CPrevUuid (o + pe).
Proof.
  intros [_ He] Hc [Ew|Ew]; [left|right]; apply cell_off_inj; try done; cbn [cell_off]; lia.
Qed.

Lemma list_cell_play head pe xs c : head ∈ H -> Forall (element pe) xs -> list_cell head pe xs c -> play c.
Proof.
  intros Hh Hx [->|[->|(x & Hi & Hc)]]; [done|done|]. rewrite Forall_forall in Hx. destruct (Hx x Hi) as [_ He]. by destruct Hc as [->|[->|[->| ->]]].
Qed.

Lemma entry_uuids_new head pe xs o c : element pe o -> o ∉ xs -> play c -> list_cell head pe xs c -> ~ entry_uuids pe o (b + cell_off c).
Proof.
  intros Ho Hn Hp Hc Hf. destruct (entry_uuids_cell pe o c Ho Hp Hf) as [->| ->]; destruct Hc as [?|[?|(x & Hx & [?|[?|[Ec|Ec]]])]]; try done; injection Ec as Ec; apply Hn; by replace o with x by lia.
Qed.

Lemma place_elements d before o xs : place d before o xs ⊆ o :: xs.
Proof.
  assert (insert_before d o xs ⊆ o :: xs /\ insert_after d o xs ⊆ o :: xs) as [H1 H2] by (induction xs as [|x l [IH1 IH2]]; cbn; [set_solver|]; destruct (x =? d); set_solver).
  unfold place. destruct (d =? 0); [set_solver|]. by destruct before.
Qed.

Section OneHead.
Context (push : nat -> bool) (outermost : bool) (pe head : Z) (xs : list Z) (ln : lane) (s : pmst) (mus : gmap Z M).
Context (Hr : ready ln s mus) (Hf : (16 <= fuel)%nat) (Hpe : - 2 ^ 62 < pe < 2 ^ 62) (Hh : head ∈ H).
Hypothesis (Hl : list_at uuid_lo (cells_of (vis s)) head pe xs) (Hx : Forall (element pe) xs).

Let Huu : uuid_lo <> 0.
Proof. pose proof (gm_uuid G). lia. Qed.

Lemma insert_done d before u o : element pe o -> o ∉ xs -> oid_off d = 0 \/ oid_off d ∈ xs ->
  op_done (listed head pe xs (o :: xs) s) (listed head pe (inserted (oid_off d) before o xs) (o :: xs) s) s
    (list_insert p_ops uuid_lo run_id (S fuel) push al os_init os_lock os_unlock outermost pe head d before (Oid u o) ln (pop, s) mus).
Proof.
  intros Ho Hn Hd. set (s0 := cells_of (vis s)) in *. set (dd := dest_of xs (oid_off d) before). pose proof (dest_place xs d before Hd) as Hdd. fold dd in Hdd.
  assert (Forall (element pe) (o :: xs)) as Hox by (by constructor). assert (o <> 0) as Ho0 by (destruct Ho; lia).
  assert (forall y, (forall c, stable (entry_uuids pe o) c -> y c = s0 c) -> list_at uuid_lo y head pe xs /\ forall c, play c -> ~ list_cell head pe (o :: xs) c -> y c = s0 c) as Hold.
  { intros y Hy. split.
    - apply (list_at_ext uuid_lo Huu s0); [|done]. intros c Hc. assert (play c) as Hp by (by apply (list_cell_play head pe xs)). apply Hy. split; [done|]. by apply (entry_uuids_new head pe xs).
    - intros c Hp Hc. apply Hy. split; [done|]. intros Hu. apply Hc. right; right. exists o. split; [by left|]. destruct (entry_uuids_cell pe o c Ho Hp Hu); tauto. }
  eapply op_done_mono; [| |apply (locked_run push outermost head 0 _ ln s mus (entry_uuids pe o) (fun y => uuid_set uuid_lo y pe o) (place_assigns uuid_lo s0 head pe dd before o)); try done; [by left| |]].
  - intros x Hxs. by apply Hold.
  - intros x (y & Hy & Hu & Hxy). destruct (Hold y Hy) as [Hly Hfr]. pose proof (list_cell_play head pe (o :: xs)) as Hpl.
    assert (forall c, list_cell head pe xs c -> y c = s0 c) as Hyx by (intros c Hc; apply Hy; assert (play c) as Hp by (by apply (list_cell_play head pe xs)); split; [done|]; by apply (entry_uuids_new head pe xs)).
    assert (dd ∈ xs \/ dd = 0) as Hdd' by tauto. pose proof (place_cells uuid_lo y head pe xs dd before o Hly Hdd') as Hpc.
    rewrite (place_assigns_ext uuid_lo s0 y head pe xs dd before o Hyx Hdd') in Hpc. split.
    + apply (list_at_ext uuid_lo Huu (assigns y (place_assigns uuid_lo s0 head pe dd before o))).
      * intros c Hc. apply Hxy, Hpl; [done|done|]. by apply (list_cell_mono head pe (inserted (oid_off d) before o xs)); [apply place_elements|].
      * rewrite <- (place_assigns_ext uuid_lo s0 y head pe xs dd before o Hyx Hdd'). by apply place_ok.
    + intros c Hp Hc. rewrite Hxy by done. rewrite (assigns_in_other _ _ _ c Hpc Hc). by apply Hfr.
  - pose proof (insert_neighbours s pe head xs Hl Hx dd before o Ho ltac:(tauto)) as Hln. unfold place_assigns. destruct (insert_assigns _ _ _ _ _ _ _) as [[nx pv] la]. rewrite length_app. cbn [length fill_assigns]. lia.
  - intros sl st Hg. apply (going_insert s sl (entry_uuids pe o)); try done; [|by left|by right].
    intros c Hp Hu. exists (o + pe). by apply (entry_uuids_cell pe o c).
Qed.

Lemma stable_nowhere c : play c -> stable (fun _ => False) c.
Proof. intros Hc. split; [done|tauto]. Qed.

Lemma remove_done u o : o ∈ xs ->
  op_done (listed head pe xs xs s) (listed head pe (removed o xs) xs s) s
    (list_remove p_ops uuid_lo run_id (S fuel) push al os_init os_lock os_unlock outermost pe head (Oid u o) ln (pop, s) mus).
Proof.
  intros Ho. set (s0 := cells_of (vis s)) in *. pose proof (list_cell_play head pe xs) as Hpl.
  eapply op_done_mono; [| |apply (locked_run push outermost head 0 _ ln s mus (fun _ => False) (fun _ => True) (remove_assigns uuid_lo s0 head pe o ++ fill_assigns pe o 0 0)); try done; [by left| |]].
  - intros x Hxs. split; [|intros c Hc _; by apply Hxs, stable_nowhere]. apply (list_at_ext uuid_lo Huu s0); [|done]. intros c Hc. by apply Hxs, stable_nowhere, Hpl.
  - intros x (y & Hy & _ & Hxy). assert (forall c, list_cell head pe xs c -> y c = s0 c) as Hyx by (intros c Hc; by apply Hy, stable_nowhere, Hpl).
    assert (list_at uuid_lo y head pe xs) as Hly by (by apply (list_at_ext uuid_lo Huu s0)). rewrite <- (remove_assigns_ext uuid_lo s0 y head pe xs o Hyx Ho) in Hxy.
    assert (assigns_in (fun c => c = CNext (o + pe) \/ c = CPrev (o + pe)) (fill_assigns pe o 0 0)) as Hfill by (constructor; [by left|constructor; [by right|constructor]]). split.
    + apply (list_at_ext uuid_lo Huu (assigns y (remove_assigns uuid_lo y head pe o))); [|by apply unlink_ok]. intros c Hc.
      rewrite Hxy, assigns_app; [|apply Hpl; [done|done|]; apply (list_cell_mono head pe (removed o xs)); [|done]; unfold removed; intros z Hz; by apply list_elem_of_filter in Hz as [_ Hz]].
      apply (assigns_in_other _ _ _ c Hfill). intros Hco. destruct Hc as [->|[->|(z & Hz & Hzc)]]; [by destruct Hco|by destruct Hco|]. apply list_elem_of_filter in Hz as [Hz _]. apply Hz.
      destruct Hco as [->| ->], Hzc as [Ec|[Ec|[Ec|Ec]]]; try done; injection Ec as Ec; lia.
    + intros c Hp Hc. rewrite Hxy, assigns_app by done. rewrite (assigns_in_other _ _ _ c Hfill).
      * rewrite (assigns_in_other _ _ _ c (remove_cells uuid_lo y head pe xs o Hly Ho) Hc). by apply Hy, stable_nowhere.
      * intros Hco. apply Hc. right; right. exists o. tauto.
  - rewrite length_app. pose proof (length_remove s head pe o) as Hlr. fold s0 in Hlr. cbn [length fill_assigns]. lia.
  - intros sl st Hg. split; [|done]. apply (going_remove_entries s sl (fun _ => False)) with xs; try done; intros c _ [].
Qed.

Lemma move_same_done d before u o : o ∈ xs -> oid_off d = 0 \/ oid_off d ∈ xs ->
  op_done (listed head pe xs xs s) (listed head pe (moved (oid_off d) before o xs) xs s) s
    (list_move p_ops uuid_lo run_id (S fuel) push al os_init os_lock os_unlock outermost pe head pe head d before (Oid u o) ln (pop, s) mus).
Proof.
  intros Ho Hd. set (s0 := cells_of (vis s)) in *. pose proof (list_cell_play head pe xs) as Hpl. set (dd := dest_of xs (oid_off d) before).
  assert (dd ∈ xs) as Hdd by (apply dest_of_elem; [done|intros ->; by apply elem_of_nil in Ho]).
  assert (element pe o) as Heo by (rewrite Forall_forall in Hx; by apply Hx).
  eapply op_done_mono; [| |apply (locked_run push outermost head head _ ln s mus (fun _ => False) (fun _ => True) (move_assigns uuid_lo s0 head pe head pe dd before o)); try done; [by right| |]].
  - intros x Hxs. split; [|intros c Hc _; by apply Hxs, stable_nowhere]. apply (list_at_ext uuid_lo Huu s0); [|done]. intros c Hc. by apply Hxs, stable_nowhere, Hpl.
  - intros x (y & Hy & _ & Hxy). assert (forall c, list_cell head pe xs c -> y c = s0 c) as Hyx by (intros c Hc; by apply Hy, stable_nowhere, Hpl).
    assert (list_at uuid_lo y head pe xs) as Hly by (by apply (list_at_ext uuid_lo Huu s0)). rewrite <- (move_assigns_ext uuid_lo s0 y head pe xs dd before o Hyx Ho Hdd) in Hxy. split.
    + apply (list_at_ext uuid_lo Huu (assigns y (move_assigns uuid_lo y head pe head pe dd before o))); [|by apply move_same_ok].
      intros c Hc. apply Hxy, Hpl; [done|done|]. apply (list_cell_mono head pe (moved (oid_off d) before o xs)); [|done]. unfold moved. fold dd. destruct (dd =? o); [done|].
      etransitivity; [apply place_elements|]. unfold removed. intros z [->|Hz]%elem_of_cons; [done|]. by apply list_elem_of_filter in Hz as [_ Hz].
    + intros c Hp Hc. rewrite Hxy by done. rewrite (assigns_in_other _ _ _ c (move_cells uuid_lo Huu y head pe xs dd before o Hly Ho Hdd) Hc). by apply Hy, stable_nowhere.
  - pose proof (length_remove s head pe o) as Hlr. pose proof (length_place s head pe dd before o) as Hlp. pose proof (length_head s o head) as Hh1. pose proof (length_head s (s0 (CNext (o + pe))) head) as Hh2. fold s0 in Hlr, Hlp, Hh1, Hh2.
    unfold move_assigns. repeat case_match; rewrite ?length_app; cbn [length]; lia.
  - intros sl st Hg. split; [|done]. apply (going_move s sl (fun _ => False)) with xs; try done; intros c _ [].
Qed.
End OneHead.

Section TwoHeads.
Context (push : nat -> bool) (outermost : bool) (pe_old pe_new head_old head_new : Z) (xs ys : list Z) (ln : lane) (s : pmst) (mus : gmap Z M).
Context (Hr : ready ln s mus) (Hf : (16 <= fuel)%nat) (Hpo : - 2 ^ 62 < pe_old < 2 ^ 62) (Hpn : - 2 ^ 62 < pe_new < 2 ^ 62).
Context (Ho : head_old ∈ H) (Hn : head_new ∈ H) (Hhh : head_old <> head_new).
Hypothesis (Lo : list_at uuid_lo (cells_of (vis s)) head_old pe_old xs) (Ln : list_at uuid_lo (cells_of (vis s)) head_new pe_new ys).
Hypothesis (Eo : Forall (element pe_old) xs) (En : Forall (element pe_new) ys).
Context (o : Z) (Hx : o ∈ xs) (Hy : o ∉ ys) (Heo : element pe_new o).
(** No two entries are the same one, but those of [o] may be. *)
Hypothesis (Hsep : forall x y, x ∈ xs -> y ∈ o :: ys -> x + pe_old = y + pe_new -> x = o /\ y = o).

(** Two lists, and the rest of the cells as it was. *)
Definition listed2 xs' ys' (x : store_of) : Prop :=
  list_at uuid_lo x head_old pe_old xs' /\ list_at uuid_lo x head_new pe_new ys' /\
  forall c, play c -> ~ list_cell head_old pe_old xs c -> ~ list_cell head_new pe_new (o :: ys) c -> x c = cells_of (vis s) c.

Definition new_uuids (w : Z) : Prop := pe_new <> pe_old /\ entry_uuids pe_new o w.

Let Huu2 : uuid_lo <> 0.
Proof. pose proof (gm_uuid G). lia. Qed.

Lemma sep_lists x y : x ∈ xs -> y ∈ ys -> x + pe_old <> y + pe_new.
Proof. intros H1 H2 Ee. destruct (Hsep x y H1 ltac:(by right) Ee) as [_ ->]. done. Qed.

Lemma new_uuids_old c : list_cell head_old pe_old xs c -> stable new_uuids c.
Proof.
  intros Hc. assert (play c) as Hp by (by apply (list_cell_play head_old pe_old xs)). split; [done|]. intros [Hne Hu].
  destruct (entry_uuids_cell pe_new o c Heo Hp Hu) as [->| ->]; destruct Hc as [?|[?|(x & Hi & [?|[?|[Ec|Ec]]])]]; try done; injection Ec as Ec;
    destruct (Hsep x o Hi ltac:(by left) (eq_sym Ec)) as [-> _]; lia.
Qed.

Lemma new_uuids_new c : list_cell head_new pe_new ys c -> stable new_uuids c.
Proof.
  intros Hc. assert (play c) as Hp by (by apply (list_cell_play head_new pe_new ys)). split; [done|]. intros [_ Hu]. by apply (entry_uuids_new head_new pe_new ys o c).
Qed.

Lemma move_other_done d before u : oid_off d = 0 \/ oid_off d ∈ ys ->
  op_done (listed2 xs ys) (listed2 (removed o xs) (inserted (oid_off d) before o ys)) s
    (list_move p_ops uuid_lo run_id (S fuel) push al os_init os_lock os_unlock outermost pe_old head_old pe_new head_new d before (Oid u o) ln (pop, s) mus).
Proof.
  intros Hd. set (s0 := cells_of (vis s)) in *. set (dd := dest_of ys (oid_off d) before). pose proof (dest_place ys d before Hd) as Hdd. fold dd in Hdd. assert (dd ∈ ys \/ dd = 0) as Hdd' by tauto.
  set (l := remove_assigns uuid_lo s0 head_old pe_old o ++ place_assigns uuid_lo s0 head_new pe_new dd before o).
  assert (move_assigns uuid_lo s0 head_old pe_old head_new pe_new dd before o = l) as El by (unfold move_assigns; by rewrite (proj2 (Z.eqb_neq _ _) Hhh)).
  assert (forall y, (forall c, stable new_uuids c -> y c = s0 c) -> listed2 xs ys y) as Hold.
  { intros y Hs. split; [apply (list_at_ext uuid_lo Huu2 s0); [|done]; intros c Hc; by apply Hs, new_uuids_old|]. split; [apply (list_at_ext uuid_lo Huu2 s0); [|done]; intros c Hc; by apply Hs, new_uuids_new|].
    intros c Hp _ Hc. apply Hs. split; [done|]. intros [_ Hu]. apply Hc. right; right. exists o. split; [by left|]. destruct (entry_uuids_cell pe_new o c Heo Hp Hu); tauto. }
  eapply op_done_mono; [| |apply (locked_run push outermost head_new head_old _ ln s mus new_uuids (fun y => pe_new <> pe_old -> uuid_set uuid_lo y pe_new o) l); try done; [by right| |]].
  - intros x Hxs. by apply Hold.
  - intros x (y & Hs & Hu & Hxy). destruct (Hold y Hs) as (L1 & L2 & Hfr).
    assert (forall c, list_cell head_old pe_old xs c -> y c = s0 c) as Y1 by (intros c Hc; by apply Hs, new_uuids_old). assert (forall c, list_cell head_new pe_new ys c -> y c = s0 c) as Y2 by (intros c Hc; by apply Hs, new_uuids_new).
    assert (l = remove_assigns uuid_lo y head_old pe_old o ++ place_assigns uuid_lo y head_new pe_new dd before o) as Ely
      by (unfold l; by rewrite (remove_assigns_ext uuid_lo s0 y head_old pe_old xs o Y1 Hx), (place_assigns_ext uuid_lo s0 y head_new pe_new ys dd before o Y2 Hdd')).
    assert (uuid_set uuid_lo y pe_new o) as Huo by (destruct (decide (pe_new = pe_old)) as [->|Hne]; [by apply (la_entries _ _ _ _ _ L1)|by apply Hu]).
    assert (removed o xs ⊆ xs) as Hsub by (intros z Hz; by apply list_elem_of_filter in Hz as [_ Hz]).
    destruct (move_other_ok uuid_lo Huu2 y head_old pe_old xs head_new pe_new ys dd before o Hhh L1 L2 Hx Hy Huo Hdd) as [R1 R2].
    { apply cells_disjoint; [done|apply sep_lists]. }
    { apply cells_disjoint; [done|]. intros x1 y1 Hx1 Hy1 Ee. apply list_elem_of_filter in Hx1 as [Hne Hx1]. by destruct (Hsep x1 y1 Hx1 Hy1 Ee). }
    unfold move_assigns in R1, R2. rewrite (proj2 (Z.eqb_neq _ _) Hhh) in R1, R2. cbn [andb] in R1, R2. rewrite <- Ely in R1, R2.
    split; [|split].
    + apply (list_at_ext uuid_lo Huu2 (assigns y l)); [|done]. intros c Hc. apply Hxy, (list_cell_play head_old pe_old xs); try done. by apply (list_cell_mono head_old pe_old (removed o xs)).
    + apply (list_at_ext uuid_lo Huu2 (assigns y l)); [|done]. intros c Hc. apply Hxy, (list_cell_play head_new pe_new (o :: ys)); [done|by constructor|].
      apply (list_cell_mono head_new pe_new (place dd before o ys)); [apply place_elements|done].
    + intros c Hp C1 C2. rewrite Hxy by done. rewrite Ely, assigns_app. rewrite (assigns_in_other _ _ _ c (place_cells uuid_lo y head_new pe_new ys dd before o L2 Hdd') C2).
      rewrite (assigns_in_other _ _ _ c (remove_cells uuid_lo y head_old pe_old xs o L1 Hx) C1). by apply Hfr.
  - unfold l. rewrite length_app. pose proof (length_remove s head_old pe_old o) as Hlr. pose proof (length_place s head_new pe_new dd before o) as Hlp. fold s0 in Hlr, Hlp. lia.
  - intros sl st Hg. rewrite <- El. apply (going_move s sl new_uuids) with xs; try done.
    + intros c Hp [_ Hu]. exists (o + pe_new). by apply (entry_uuids_cell pe_new o c).
    + intros Hne. split; (split; [done|]); [by left|by right].
Qed.
End TwoHeads.

(** ** Histories of a list *)

Section History.
Context (push : nat -> bool) (pe head : Z) (Hf : (16 <= fuel)%nat) (Hpe : - 2 ^ 62 < pe < 2 ^ 62) (Hh : head ∈ H).

(** The operations on one list, with the element they refer to (0: the head or
    the tail) and the object. *)
Inductive list_cmd := CmdInsert (d : Z) (before : bool) (o : Z) | CmdRemove (o : Z) | CmdMove (d : Z) (before : bool) (o : Z).

Definition cmd_ok (xs : list Z) (cmd : list_cmd) : Prop :=
  match cmd with
  | CmdInsert d _ o => element pe o /\ (o ∉ xs) /\ (d = 0 \/ d ∈ xs)
  | CmdRemove o => o ∈ xs
  | CmdMove d _ o => o ∈ xs /\ (d = 0 \/ d ∈ xs)
  end.
Definition cmd_list (xs : list Z) (cmd : list_cmd) : list Z :=
  match cmd with
  | CmdInsert d before o => inserted d before o xs
  | CmdRemove o => removed o xs
  | CmdMove d before o => moved d before o xs
  end.
Fixpoint cmds_ok (xs : list Z) (cmds : list list_cmd) : Prop :=
  match cmds with [] => True | cmd :: cmds => cmd_ok xs cmd /\ cmds_ok (cmd_list xs cmd) cmds end.

Definition run_cmd (cmd : list_cmd) (ln : lane) (ws : world) mus : option (Z * lane * world * gmap Z M) :=
  match cmd with
  | CmdInsert d before o =>
      list_insert p_ops uuid_lo run_id (S fuel) push al os_init os_lock os_unlock true pe head (Oid uuid_lo d) before (Oid uuid_lo o) ln ws mus
  | CmdRemove o => list_remove p_ops uuid_lo run_id (S fuel) push al os_init os_lock os_unlock true pe head (Oid uuid_lo o) ln ws mus
  | CmdMove d before o =>
      list_move p_ops uuid_lo run_id (S fuel) push al os_init os_lock os_unlock true pe head pe head (Oid uuid_lo d) before (Oid uuid_lo o) ln ws mus
  end.
Fixpoint run_cmds (cmds : list list_cmd) (ln : lane) (ws : world) mus : option (lane * world * gmap Z M) :=
  match cmds with
  | [] => Some (ln, ws, mus)
  | cmd :: cmds => '(ret, ln, ws, mus) ← run_cmd cmd ln ws mus; if ret =? 0 then run_cmds cmds ln ws mus else None
  end.

Lemma cmd_elements xs cmd : cmd_ok xs cmd -> Forall (element pe) xs -> Forall (element pe) (cmd_list xs cmd).
Proof.
  intros Hok Hx. rewrite Forall_forall in Hx |- *. assert (forall o z, z ∈ removed o xs -> z ∈ xs) as Hrm by (intros o z Hz; by apply list_elem_of_filter in Hz as [_ Hz]).
  intros z Hz. destruct cmd as [d before o|o|d before o]; cbn in Hok, Hz.
  - apply place_elements in Hz. apply elem_of_cons in Hz as [->|Hz]; [apply Hok|by apply Hx].
  - by apply Hx, (Hrm o).
  - unfold moved in Hz. destruct (_ =? o); [by apply Hx|]. apply place_elements in Hz. apply elem_of_cons in Hz as [->|Hz]; [by apply Hx, Hok|by apply Hx, (Hrm o)].
Qed.

Lemma cmd_done xs cmd ln s mus : ready ln s mus -> list_at uuid_lo (cells_of (vis s)) head pe xs -> Forall (element pe) xs -> cmd_ok xs cmd ->
  op_done (fun x => list_at uuid_lo x head pe xs) (fun x => list_at uuid_lo x head pe (cmd_list xs cmd)) s (run_cmd cmd ln (pop, s) mus).
Proof.
  intros Hr Hl Hx Hok. destruct cmd as [d before o|o|d before o]; cbn in Hok.
  - destruct Hok as (Ho & Hn & Hd). eapply op_done_mono; [| |apply (insert_done push true pe head xs ln s mus Hr Hf Hpe Hh Hl Hx (Oid uuid_lo d) before uuid_lo o Ho Hn Hd)]; by intros x [? _].
  - eapply op_done_mono; [| |apply (remove_done push true pe head xs ln s mus Hr Hf Hpe Hh Hl Hx uuid_lo o Hok)]; by intros x [? _].
  - destruct Hok as [Ho Hd]. eapply op_done_mono; [| |apply (move_same_done push true pe head xs ln s mus Hr Hf Hpe Hh Hl Hx (Oid uuid_lo d) before uuid_lo o Ho Hd)]; by intros x [? _].
Qed.

(** C10. Any sequence of insertions, removals and moves on a persistent list
    succeeds and leaves the list that the same sequence of operations makes of
    the list of its elements, and the lane and the lock ready for the next
    operation: the invariant of a list - a circle of entries that are linked in
    both directions, without repetition, with the identifier of the pool in every
    entry - is kept by every operation and for ever. *)
Theorem list_history_well_formed cmds : forall xs ln s mus, ready ln s mus -> list_at uuid_lo (cells_of (vis s)) head pe xs -> Forall (element pe) xs -> cmds_ok xs cmds ->
  exists ln' s' mus', run_cmds cmds ln (pop, s) mus = Some (ln', (pop, s'), mus') /\ ready ln' s' mus' /\
    list_at uuid_lo (cells_of (vis s')) head pe (foldl cmd_list xs cmds).
Proof.
  induction cmds as [|cmd cmds IH]; intros xs ln s mus Hr Hl Hx Hok; [by exists ln, s, mus|]. destruct Hok as [Hc Hok]. cbn [run_cmds].
  destruct (cmd_done xs cmd ln s mus Hr Hl Hx Hc) as (ln' & s' & mus' & tr & -> & Hr' & _ & Hl' & _). cbn [mbind option_bind Z.eqb foldl]. apply IH; try done. by apply cmd_elements.
Qed.
End History.

(** ** The claims *)

(** C8. list_insert: under the lock of the head, the entry of the object is linked
    where the list of elements gets it - before or after an element, at the head,
    at the tail, or as the only one - and nothing else in the heads and entries of
    the pool changes.  The lane and the locks are ready again.  All that the
    operation does to memory is a trace, after which at most the header of the redo
    log is cleared, flushed and drained: a power failure at any point of the trace
    leaves a memory from which recovery makes the list as it was or the new list,
    unless the checksum of a torn log happens to match; once the function returned,
    recovery gives the new list.  (Between the clearing store and its drain an
    update may be lost: clobber_before_drain_not_atomic of MemopsProcess.) *)
Theorem list_insert_refines push outermost pe head xs ln s mus d before u o :
  ready ln s mus -> (16 <= fuel)%nat -> - 2 ^ 62 < pe < 2 ^ 62 -> head ∈ H ->
  list_at uuid_lo (cells_of (vis s)) head pe xs -> Forall (element pe) xs ->
  element pe o -> o ∉ xs -> oid_off d = 0 \/ oid_off d ∈ xs ->
  op_done (listed head pe xs (o :: xs) s) (listed head pe (inserted (oid_off d) before o xs) (o :: xs) s) s
    (list_insert p_ops uuid_lo run_id (S fuel) push al os_init os_lock os_unlock outermost pe head d before (Oid u o) ln (pop, s) mus).
Proof. intros. by apply insert_done. Qed.

(** C9. list_remove: the object leaves the list, whose other elements keep their
    order; the head follows when it was the first, and becomes empty when it was
    the only one.  A power failure at any point up to the store that clears the
    redo log leaves the old or the new list for recovery, unless the checksum of a
    torn log happens to match; after the return it is the new one. *)
Theorem list_remove_refines push outermost pe head xs ln s mus u o :
  ready ln s mus -> (16 <= fuel)%nat -> - 2 ^ 62 < pe < 2 ^ 62 -> head ∈ H ->
  list_at uuid_lo (cells_of (vis s)) head pe xs -> Forall (element pe) xs -> o ∈ xs ->
  op_done (listed head pe xs xs s) (listed head pe (removed o xs) xs s) s
    (list_remove p_ops uuid_lo run_id (S fuel) push al os_init os_lock os_unlock outermost pe head (Oid u o) ln (pop, s) mus).
Proof. intros. by apply remove_done. Qed.

(** C7. list_move to another list, whose entries may be at another offset of the
    objects: under both locks, taken in the order of their addresses, the object
    leaves the one list and enters the other.  A power failure at any point up to
    the store that clears the redo log leaves, for recovery, both lists as they
    were or both lists as they become, so that the object is in exactly one of
    them, unless the checksum of a torn log happens to match; after the return both
    are the new ones. *)
Theorem list_move_refines push outermost pe_old pe_new head_old head_new xs ys ln s mus d before u o :
  ready ln s mus -> (16 <= fuel)%nat -> - 2 ^ 62 < pe_old < 2 ^ 62 -> - 2 ^ 62 < pe_new < 2 ^ 62 -> head_old ∈ H -> head_new ∈ H -> head_old <> head_new ->
  list_at uuid_lo (cells_of (vis s)) head_old pe_old xs -> list_at uuid_lo (cells_of (vis s)) head_new pe_new ys ->
  Forall (element pe_old) xs -> Forall (element pe_new) ys -> o ∈ xs -> o ∉ ys -> element pe_new o ->
  (forall x y, x ∈ xs -> y ∈ o :: ys -> x + pe_old = y + pe_new -> x = o /\ y = o) -> oid_off d = 0 \/ oid_off d ∈ ys ->
  op_done (listed2 pe_old pe_new head_old head_new xs ys s o xs ys) (listed2 pe_old pe_new head_old head_new xs ys s o (removed o xs) (inserted (oid_off d) before o ys)) s
    (list_move p_ops uuid_lo run_id (S fuel) push al os_init os_lock os_unlock outermost pe_old head_old pe_new head_new d before (Oid u o) ln (pop, s) mus).
Proof. intros. by apply move_other_done. Qed.
End Locks.

End Memory.

(** ** An instance *)

(** Two lists in a pool at 2^20: elements with an entry at 16 for the one and at
    64 for the other, the first list with two of them, the other empty. *)
Definition lx_ops : pmem_ops := POps 1048576 OPS_POOL.
Definition lx_pop : PMEMobjpool := Pop 8192 16 131072 1048576 ravl_new true.
Definition lx_dest : Z := 1056768.
Definition lx_src : Z := 536870912.
Definition lx_heads : list Z := [1245184; 1245248].
Definition lx_entries : list Z := [262160; 263184; 264208; 262208; 263232; 264256].
Definition lx_volatile (w : Z) : Prop := w ∈ map head_lock lx_heads.
Definition lx_words : list (Z * Z) :=
  [(ulog_capacity_addr lx_src, 1024); (1245184, 77); (1245192, 262144);
   (1048576 + 262160, 77); (1048576 + 262168, 263168); (1048576 + 262176, 77); (1048576 + 262184, 263168);
   (1048576 + 263184, 77); (1048576 + 263192, 262144); (1048576 + 263200, 77); (1048576 + 263208, 262144)].
Definition lx_mem : mem := foldl (fun m a => write_bytes m a.1 (le64 a.2)) (fun _ => Byte.x00) lx_words.
Definition lx_st : pmst := PMst lx_mem [] false.
Definition lx_ctx : operation_context :=
  OpCtx LOG_TYPE_REDO None (fun _ ws => ws) lx_ops (POps 0 OPS_TRANSIENT) (POps 1048576 OPS_TRANSIENT) 0 0 0 0 0 lx_dest 640 640 0 0 [] OPERATION_IDLE
    (OpLog 1024 0 lx_src) (OpLog 1024 0 16384) VECQ_INIT.
Definition lx_lane : lane := Lane lx_dest lx_ctx lx_ctx lx_ctx.
Definition lx_unlock (m : option bool) : option (Z * option bool) := match m with Some true => Some (0, Some false) | _ => None end.
Definition lx_mus : gmap Z (option bool) := {[head_lock 1245184 := None; head_lock 1245248 := None]}.
Definition lx_al (n : nat) : Z * bool := (0, true).

#[export] Instance lx_mutex : OsMutex ex_init ex_lock lx_unlock (fun m => m = Some false) (fun m => m = Some true).
Proof.
  constructor.
  - intros [[]|]; cbn; try done.
  - intros m ->. by exists (Some true).
  - intros m ->. by exists (Some false).
Qed.

Lemma lx_geometry : geometry lx_ops lx_dest lx_src 640 640 lx_pop lx_volatile 77 lx_entries lx_heads.
Proof.
  assert (forall w, lx_volatile w -> w = 1245200 \/ w = 1245264) as Hv by (intros w Hw; apply elem_of_cons in Hw as [->|Hw]; [by left|]; apply list_elem_of_singleton in Hw as ->; by right).
  assert (forall w, w <> 1245200 -> w <> 1245264 -> ~ lx_volatile w) as Hnv by (intros w H1 H2 Hw; by destruct (Hv w Hw)).
  assert (forall e, e ∈ lx_entries -> e = 262160 \/ e = 263184 \/ e = 264208 \/ e = 262208 \/ e = 263232 \/ e = 264256) as HE by (intros e He; unfold lx_entries in He; set_solver).
  assert (forall h, h ∈ lx_heads -> h = 1245184 \/ h = 1245248) as HH by (intros h Hh; unfold lx_heads in Hh; set_solver).
  constructor.
  - constructor; try done; try (first [by left|by right]). intros w Hw. destruct (Hv w Hw) as [->| ->]; (split; [done|]; split); first [by left|by right].
  - cbn. lia.
  - lia.
  - intros e k He Hk. assert (k = 0 \/ k = 8 \/ k = 16 \/ k = 24) as Hk' by set_solver.
    destruct (HE e He) as [->|[->|[->|[->|[->| ->]]]]]; destruct Hk' as [->|[->|[->| ->]]];
      (split; [done|]; split; [done|]; split; [done|]; split; [|done]; split; [done|]; split; [first [by left|by right]|]; split; [first [by left|by right]|]; by apply Hnv).
  - intros e e' He He' Hne. destruct (HE e He) as [->|[->|[->|[->|[->| ->]]]]]; destruct (HE e' He') as [->|[->|[->|[->|[->| ->]]]]]; lia.
  - intros h k Hh Hk. assert (k = 0 \/ k = 8) as Hk' by set_solver.
    destruct (HH h Hh) as [->| ->]; destruct Hk' as [->| ->];
      (split; [done|]; split; [done|]; split; [done|]; split; [|done]; split; [done|]; split; [first [by left|by right]|]; split; [first [by left|by right]|]; by apply Hnv).
  - intros h h' Hh Hh' Hne. destruct (HH h Hh) as [->| ->]; destruct (HH h' Hh') as [->| ->]; lia.
  - intros e h He Hh. destruct (HE e He) as [->|[->|[->|[->|[->| ->]]]]]; destruct (HH h Hh) as [->| ->]; cbn; lia.
  - intros h Hh. unfold lx_volatile. by apply list_elem_of_fmap_2.
Qed.

Lemma lx_slots a : forallb (fun i => load64 lx_mem (a + 16 * i) =? 0) (seqZ 0 16) = true -> slots_ok lx_mem a used_span.
Proof. intros Hs i Hi Hlt. left. rewrite forallb_forall in Hs. apply Z.eqb_eq, Hs, list_elem_of_In, elem_of_seqZ. unfold used_span in Hlt. lia. Qed.

Lemma lx_ready : ready lx_ops lx_dest lx_src 640 640 lx_mem lx_volatile lx_heads 4 ex_init (fun m => m = Some false) (fun m => m = Some true) lx_lane lx_st lx_mus.
Proof.
  split; [split; [by constructor|]; split; [constructor; [done|by left|done]|]|].
  - constructor; try done.
    + apply lx_slots. by vm_compute.
    + apply lx_slots. by vm_compute.
    + intros w _ _. apply on_media_nil.
  - intros h Hh. split; [by intros ?%elem_of_nil|]. intros _. unfold lx_heads in Hh. apply elem_of_cons in Hh as [->|Hh%list_elem_of_singleton]; [|subst h]; exists None; (split; [done|]; right; done).
Qed.

Lemma lx_list : list_at 77 (cells_of lx_ops lx_mem) 1245184 16 [262144; 263168] /\ list_at 77 (cells_of lx_ops lx_mem) 1245248 64 [].
Proof.
  split; constructor.
  - by vm_compute.
  - left. by vm_compute.
  - cbn. repeat split; by vm_compute.
  - apply (bool_decide_unpack _). by vm_compute.
  - apply (bool_decide_unpack _). by vm_compute.
  - intros x [->|Hx%list_elem_of_singleton]%elem_of_cons; [|subst x]; split; by vm_compute.
  - by vm_compute.
  - right. split; [done|]. by vm_compute.
  - done.
  - constructor.
  - by intros ?%elem_of_nil.
  - by intros ? ?%elem_of_nil.
Qed.

Lemma lx_elements : Forall (element lx_entries 16) [262144; 263168] /\ element lx_entries 16 264192 /\ element lx_entries 64 262144.
Proof.
  assert (forall pe x, bool_decide (0 < x < 2 ^ 62 /\ x + pe ∈ lx_entries) = true -> element lx_entries pe x) as Hd by (intros pe x Hb; by apply bool_decide_eq_true in Hb).
  split; [repeat constructor; apply Hd; by vm_compute|]. split; apply Hd; by vm_compute.
Qed.

Abbreviation lx_done := (op_done lx_ops lx_dest lx_src 640 640 lx_pop lx_mem lx_volatile 20 lx_heads 4 ex_init (fun m => m = Some false) (fun m => m = Some true)).
Abbreviation lx_listed := (listed lx_ops 77 lx_entries lx_heads).

Lemma list_insert_refines_witness :
  lx_done (lx_listed 1245184 16 [262144; 263168] [264192; 262144; 263168] lx_st) (lx_listed 1245184 16 [262144; 264192; 263168] [264192; 262144; 263168] lx_st) lx_st
    (list_insert lx_ops 77 4 21 (fun _ => true) lx_al ex_init ex_lock lx_unlock true 16 1245184 (Oid 77 263168) true (Oid 77 264192) lx_lane (lx_pop, lx_st) lx_mus).
Proof.
  destruct lx_list as [L1 _]. destruct lx_elements as (E1 & E2 & _).
  apply (list_insert_refines lx_ops lx_dest lx_src 640 640 lx_pop lx_mem lx_volatile 77 lx_al 20 lx_entries lx_heads lx_geometry 4 ltac:(lia) ex_init ex_lock lx_unlock _ _
    (fun _ => true) true 16 1245184 [262144; 263168] lx_lane lx_st lx_mus (Oid 77 263168) true 77 264192 lx_ready); try done.
  - apply Nat.leb_le. reflexivity.
  - by left.
  - apply (bool_decide_unpack _). by vm_compute.
  - right. by apply (bool_decide_unpack _).
Defined.

Lemma list_remove_refines_witness :
  lx_done (lx_listed 1245184 16 [262144; 263168] [262144; 263168] lx_st) (lx_listed 1245184 16 [263168] [262144; 263168] lx_st) lx_st
    (list_remove lx_ops 77 4 21 (fun _ => true) lx_al ex_init ex_lock lx_unlock true 16 1245184 (Oid 77 262144) lx_lane (lx_pop, lx_st) lx_mus).
Proof.
  destruct lx_list as [L1 _]. destruct lx_elements as (E1 & E2 & _).
  apply (list_remove_refines lx_ops lx_dest lx_src 640 640 lx_pop lx_mem lx_volatile 77 lx_al 20 lx_entries lx_heads lx_geometry 4 ltac:(lia) ex_init ex_lock lx_unlock _ _
    (fun _ => true) true 16 1245184 [262144; 263168] lx_lane lx_st lx_mus 77 262144 lx_ready); try done.
  - apply Nat.leb_le. reflexivity.
  - by left.
  - by left.
Defined.

Lemma list_move_refines_witness :
  lx_done (listed2 lx_ops 77 lx_entries lx_heads 16 64 1245184 1245248 [262144; 263168] [] lx_st 262144 [262144; 263168] [])
    (listed2 lx_ops 77 lx_entries lx_heads 16 64 1245184 1245248 [262144; 263168] [] lx_st 262144 [263168] [262144]) lx_st
    (list_move lx_ops 77 4 21 (fun _ => true) lx_al ex_init ex_lock lx_unlock true 16 1245184 64 1245248 (Oid 0 0) true (Oid 77 262144) lx_lane (lx_pop, lx_st) lx_mus).
Proof.
  destruct lx_list as [L1 L2]. destruct lx_elements as (E1 & _ & E3).
  apply (list_move_refines lx_ops lx_dest lx_src 640 640 lx_pop lx_mem lx_volatile 77 lx_al 20 lx_entries lx_heads lx_geometry 4 ltac:(lia) ex_init ex_lock lx_unlock _ _
    (fun _ => true) true 16 64 1245184 1245248 [262144; 263168] [] lx_lane lx_st lx_mus (Oid 0 0) true 77 262144 lx_ready); try done.
  - apply Nat.leb_le. reflexivity.
  - by left.
  - right. by left.
  - by left.
  - by apply (bool_decide_unpack _).
  - intros x y Hx Hy Exy. apply list_elem_of_singleton in Hy as ->. apply elem_of_cons in Hx as [->|Hx%list_elem_of_singleton]; [done|subst x; lia].
  - by left.
Defined.

Lemma list_history_well_formed_witness :
  exists ln' s' mus', run_cmds lx_ops 77 lx_al 20 4 ex_init ex_lock lx_unlock (fun _ => true) 16 1245184 [CmdInsert 0 false 264192; CmdMove 0 true 263168; CmdRemove 262144] lx_lane (lx_pop, lx_st) lx_mus =
      Some (ln', (lx_pop, s'), mus') /\
    ready lx_ops lx_dest lx_src 640 640 lx_mem lx_volatile lx_heads 4 ex_init (fun m => m = Some false) (fun m => m = Some true) ln' s' mus' /\
    list_at 77 (cells_of lx_ops (vis s')) 1245184 16 [263168; 264192].
Proof.
  destruct lx_list as [L1 _]. destruct lx_elements as (E1 & E2 & _).
  apply (list_history_well_formed lx_ops lx_dest lx_src 640 640 lx_pop lx_mem lx_volatile 77 lx_al 20 lx_entries lx_heads lx_geometry 4 ltac:(lia) ex_init ex_lock lx_unlock _ _
    (fun _ => true) 16 1245184 ltac:(by apply Nat.leb_le) ltac:(lia) ltac:(by left) [CmdInsert 0 false 264192; CmdMove 0 true 263168; CmdRemove 262144] [262144; 263168] lx_lane lx_st lx_mus lx_ready L1 E1).
  split; [split; [done|]; split; [by apply (bool_decide_unpack _)|by left]|]. split; [split; [by apply (bool_decide_unpack _)|by left]|]. split; [cbn [cmd_ok]; by apply (bool_decide_unpack _)|done].
Defined.
